(* ===== verification/_CoqProject ===== *)
-Q . S2P
Prelude.v
Effects.v
External.v
HostIds.v
Paths.v
HostTypes.v
Obligations.v
RuntimePolicy.v
Budget.v
Governor.v
GovernorSafety.v
Trust.v
Filesystem.v
Leases.v
LeaseStore.v
ScopedFile.v
Authorization.v
RunState.v
Fingerprint.v
AuditEnvelopes.v
Events.v
Extensions.v
Dispatch.v
Processes.v
CapabilityHost.v
HostSafety.v
HostRuns.v
Approvals.v
RunProfile.v
TurnTypes.v
TurnStore.v
TurnSnapshot.v
TurnExec.v
TurnInvariants.v
TurnPrune.v
TurnSteps.v
TurnOps.v
TurnRestore.v
TurnAdmission.v
TurnSafety.v
TurnEvents.v
TurnLineage.v
TurnCancel.v
TurnIdempotency.v
TurnReplay.v
LoopExit.v
TurnFilesystem.v
TurnLifecycle.v
TurnCoordinator.v
Triggers.v
TriggerPoller.v
TriggerTools.v
TriggerPool.v
TriggerExample.v
ConvTypes.v
Conversations.v
ConvInvariants.v
ConvSafety.v
ConvStore.v
Inbound.v
InboundPool.v
InboundExample.v
TurnExample.v
