(* ===== verification/Prelude.v ===== *)
(** * A verification library for BrassClaw

    BrassClaw is an agent runtime: a host runs the capabilities (tools) an agent
    asks for, and decides for each call whether, how and within which limits it may
    run.  This library models that authority core, the crates under [src/crates]
    that decide, and proves what the rest of the host relies on.

    ** The program and how its parts interact

    A call arrives with an execution context (who, in which scope, with which
    grants and mounts).  The trust policy gives the effective trust of the package
    that provides the capability and the ceiling on its authority.  An authorizer
    checks the context's grants and the leases issued for this invocation against
    the capability's effects and resources, and answers with a decision: deny, ask
    for approval, or allow under obligations.  Asking files an approval request;
    resolving it issues a lease bound to the fingerprint of the exact invocation,
    which is claimed and consumed once.  An allowed call reserves resources with
    the governor, which keeps the budgets of a tenant, user, project, agent and
    thread, and reaches files only through a mount view that rewrites its scoped
    paths to virtual ones.  Leases, requests and runs are stored through a scoped
    filesystem with compare-and-swap writes.  The runtime policy fixes, per
    deployment, which backends a profile may use at all.

    The capability host drives all this: it records the run, asks the authorizer,
    has the obligations prepared, and only then starts the side effect, either a
    dispatch through the dispatcher to the adapter of the capability's runtime or a
    background process; an approved invocation is resumed under its lease.  The
    extension registry says which capabilities exist, and everything reports to
    event and audit logs that are read back by cursor.

    The conversation side is made of turns.  The coordinator admits a message of a
    thread as a run, a runner claims it under a lease, works, blocks on a gate,
    spawns child runs, and settles it with a loop exit that is believed only as far
    as the host's evidence goes.  The turn store keeps runs, queues, locks, limits,
    spawn trees and the answers to repeated requests; it is written as one snapshot,
    in memory or behind a compare-and-swap loop on the filesystem, and every
    committed change is published once to the observers.

    Turns also start without a user: a poller claims the due slots of the stored
    triggers, submits their prompts and records the runs, while users create, change
    and remove the triggers with tools.

    Messages come in as events of adapters.  The conversation services pair external
    actors with users, bind each external conversation to a thread, accept an event as
    one message of a participant, and remember the answer of its turn; the inbound
    service looks an event up, or resolves and accepts it, and submits its turn to the
    coordinator under the key of the message.  A fire of a trigger takes the same way
    after its prompt passed the injection scan.

    ** The files (dependency order)

    - [Prelude]: results and the [?] operator, machine integers, strings as bytes,
      lemmas on lists and maps, the tactics and the hint databases [rust], [text].
    - [Effects]: methods that call other components as trees of calls, their traces,
      and the rules for traces and for interleavings over a shared state.
    - [External]: the crates outside the repository, as classes of operations with
      their documented behaviour: [Decimal] (rust_decimal), [Calendar]
      (chrono, chrono_tz), [UuidText] (uuid), [SerdeJson]; and [f64].
    - [HostIds]: [host_api/src/ids.rs], [error.rs].
    - [Paths]: [host_api/src/path.rs], [mount.rs].
    - [HostTypes]: the shared vocabulary ([resource.rs], [runtime.rs], [trust.rs],
      [capability.rs], [action.rs], [approval.rs], [scope.rs]).
    - [Obligations]: [host_api/src/decision.rs].
    - [RuntimePolicy]: [host_api/src/runtime_policy.rs],
      [runtime_policy/src/resolver.rs].
    - [Budget]: [resources/src/lib.rs] (accounts, limits, tallies, cascade checks),
      [resources/src/period.rs].
    - [Governor]: the rest of [resources/src/lib.rs] and [event.rs]: the state, the
      operations on it, both governors; [GovernorSafety]: their theorems.
    - [Trust]: [trust/src/decision.rs], [sources.rs], [policy.rs],
      [invalidation.rs].
    - [Filesystem]: [filesystem/src/types.rs], [record.rs], [index.rs],
      [in_memory.rs], [scoped.rs].
    - [Leases]: the lease part of [authorization/src/lib.rs] with the in-memory
      store; [LeaseStore]: the filesystem store of the same file, as interleaved
      processes over the interface [EntryStore].
    - [Authorization]: the authorizers of [authorization/src/lib.rs],
      [instance_policy.rs], [stable_tool_policy.rs].
    - [RunState]: [run_state/src/lib.rs], the records and the in-memory stores.
    - [Fingerprint]: the canonical JSON and fingerprints of
      [host_api/src/approval.rs].
    - [AuditEnvelopes]: [host_api/src/audit.rs].
    - [Events]: [events/src/runtime_event.rs], [cursor.rs], [error.rs],
      [in_memory.rs], [jsonl.rs], [sink.rs].
    - [Extensions]: [extensions/src/registry.rs], [lifecycle.rs], and the packages
      and discovery of [extensions/src/lib.rs].
    - [Dispatch]: [host_api/src/dispatch.rs], [dispatcher/src/lib.rs].
    - [Processes]: [processes/src/types.rs], [memory_store.rs], [cancellation.rs],
      [host.rs], [services.rs].
    - [CapabilityHost]: [capabilities/src/requests.rs], [obligations.rs], [error.rs],
      [helpers.rs], [host.rs]; [HostSafety] and [HostRuns]: its theorems.
    - [Approvals]: [approvals/src/lib.rs], as interleaved processes over interfaces
      of the approval and the lease store.
    - [RunProfile]: [turns/src/ids.rs], [run_profile/refs.rs], [policy.rs],
      [snapshot.rs], [driver.rs], [resolver.rs].
    - [TurnTypes]: [turns/src/scope.rs], [status.rs], [admission.rs], [request.rs],
      [response.rs], [runner.rs], [events.rs], [native_auth_wait.rs], [store.rs], and
      the parts of [run_profile/host.rs] and [checkpoint_state.rs] the store uses.
    - [TurnStore]: the operations of [turns/src/memory.rs] on its state [Inner];
      [TurnSnapshot]: its persistence snapshot; [TurnExec]: the store as a transition
      system with restarts.
    - [TurnInvariants], [TurnPrune], [TurnSteps], [TurnOps], [TurnRestore]: the
      invariant of the store and its preservation; [TurnAdmission], [TurnSafety],
      [TurnEvents], [TurnLineage], [TurnCancel], [TurnIdempotency], [TurnReplay]: its
      theorems.
    - [LoopExit]: [turns/src/loop_exit.rs].
    - [ScopedFile]: what stores that keep their state in one file of a scoped
      filesystem share; [TurnFilesystem]: [turns/src/filesystem_store.rs].
    - [TurnLifecycle]: [turns/src/lifecycle.rs]; [TurnCoordinator]:
      [turns/src/coordinator.rs] over it, with the theorems on both.
    - [TurnExample]: the turn theorems applied to concrete runs.
    - [Triggers]: [triggers/src/lib.rs] and [trusted_submit.rs], with the in-memory
      repository; [TriggerPoller]: [triggers/src/worker.rs] and [worker/];
      [TriggerTools]: the handlers of [host_runtime]'s [trigger_management.rs] and the
      upsert of [reborn_composition]'s [doc_sync_watcher.rs]; [TriggerPool]: pollers and
      tools over one repository, with the theorems; [TriggerExample]: the theorems
      applied to concrete runs, and what the code does against its documents.
    - [ConvTypes]: [conversations/src/ids.rs], [error.rs], [types.rs] and the records of
      [memory.rs]; [Conversations]: the methods of [memory.rs] as sections on the state,
      and the repository around them; [ConvInvariants], [ConvSafety]: the invariant of
      the state, and the theorems on every sequence of sections; [ConvStore]:
      [filesystem_store.rs], [state_store.rs].
    - [Inbound]: [conversations/src/inbound.rs], [trusted_trigger.rs],
      [safety/src/prompt_validation.rs]; [InboundPool]: any number of deliveries, fires
      and administrative calls at once, with the theorems; [InboundExample]: the
      theorems on conversations applied to concrete runs, and a race.

    ** How the code is modelled

    Data types keep the source's constructors and fields; a [Result] is [result],
    [?] is [let?].  A struct behind a lock is a record, a method that changes it a
    function from the state to the new state and the result, with what a failing
    method leaves behind.  A [HashMap] or [BTreeMap] is a [gmap]; the order of a
    listing is the code's explicit sort.  Unsigned integers are in [Z] with the
    source's checked arithmetic; money is a [Decimal] whose certified additions are
    exact; a [String] is its UTF-8 bytes.  The clock, fresh identifiers and live
    settings are arguments.  A method that awaits several store calls is a process
    with one step per call, so its interleavings with other processes are covered:
    a step relation in the earlier files, a [prog] of [Effects] in the later ones,
    whose traces pair each call with the answer it got.

    Hypotheses on outside code are laws of classes ([DecimalLaws],
    [EntryStoreLaws], [LeaseCodecLaws], [ApprovalRequestStoreLaws],
    [CapabilityLeaseStoreLaws], [CronLaws], [FireTextLaws], [SnapshotCodecLaws],
    [ConvCodecLaws], [UuidShape]); each has an instance in the library, the modelled
    in-memory store where there is one, and the evaluated examples use it.

    Stores lose acknowledgements.  A write that is answered with a version mismatch
    or as unsupported changed nothing ([put_refused]); after any other error of a
    write its outcome is unknown: it was made as asked or not at all.  The laws of
    the stores allow both, [LeaseStore.Lossy] is an instance that does lose
    answers, and so do the failing calls of process, approval, lease and
    conversation stores.  Theorems that say what an error changed say so: nothing,
    or the one write whose outcome is unknown.

    ** What the theorems show

    - Paths and scopes: a mount view resolves exactly by the longest matching
      alias, on segment boundaries, and never leaves the mount's target; a subset
      view grants nothing new; path texts round trip; storage segments keep scopes
      apart; the system scope cannot be named.  [scoped_path_screen_bypassed]
      records that the raw-path screen looks at the text before normalisation.
    - Obligations: the constructor accepts exactly the lists without duplicate or
      mismatched obligations, keeps them all in canonical order, and is idempotent.
    - Runtime policy: the hosted boundary, monotonicity in the ceiling, the gates;
      [full_reaches_yolo_undisclosed] is a path the documentation excludes.
    - Budget and governor: exact tally arithmetic; an account denies exactly over
      its cap; conservation of the ledger in every reachable state; caps hold for
      every granted reservation; failures change nothing; settlement once; release
      undoes reserve; the persistent governor refines the in-memory one.
    - Trust: privilege comes only from host entries, pinned by source and digest;
      every reduction of the named package is published;
      [unnamed_downgrade_is_silent] records the limit of that promise.
    - Filesystem: the exact effect of a conditional write, no lost update, the
      stored paths form a tree, event logs have no gaps, scoped calls stay below a
      mount that grants them.
    - Leases: uses are bounded by what was issued, in the store and across
      processes; every step of the compare-and-swap loop is atomic, changes nothing,
      or is the write whose answer was lost; ambient grants are exactly the caller's active unbound leases.
    - Authorization: allow exactly when an active grant or lease of the caller
      covers the call below the trust ceiling, and exactly which obligations the
      decision then carries; the enforced ceiling is the meet of
      both; a prepared call is admitted under the rule of the current revision.
    - Capability host: the exact calls of every run of the four methods, so nothing
      is started that was not authorized, prepared and admitted, an approval resumes
      exactly the action and input it was given for, and what is prepared or claimed
      is completed, aborted, consumed or revoked; concurrent resumes use an approval
      once, provided its lease is issued once; the run record ends in the state the result tells.
    - Fingerprints: equal exactly for equal actions on inputs equal as JSON, up to
      collisions of the hash.
    - Dispatch: a request is routed to the one adapter or its reservation is
      released; a capability of a reachable registry always has its package.
    - Extensions: the registry lists exactly the capabilities of its packages, each
      owned by one; discovery reads a bounded number of bounded manifests.
    - Processes: a terminal status is final; a background task stores its result
      before its status, whoever kills what in between; waiting returns once the process is terminal.
      [late_result_overwrites_kill] is a race the code means to exclude.
    - Events: reading a log by cursor gives back what was appended, in order and
      without gaps, or says that it was truncated; replaying the JSONL text of a log
      agrees; records are redacted on every wire crossing.
    - Approvals: a request is settled exactly once and for good; every lease rests
      on an approved request whatever calls interleave and whichever store call
      fails.
    - Run profiles: what is resolved stays within the request's authority, and a
      budget beyond it is clamped to fixed limits.
    - Turns: each operation moves only the runs it is entitled to, along the
      transitions their status allows: those its runner holds under the lease it
      shows, those its actor owns in its scope, those whose lease expired; one live
      run per thread; no bucket over its limit; children only under a live parent and
      within the tree's cap; cancelling a tree stops every descendant; pruning ends
      and orphans no run; a queued run is claimed; paging returns every event once.
      A repeated request gets the first answer, errors included, as long as only
      operations that record no answer came in between, and also after a restart,
      which loses neither runs nor answers.
    - Filesystem turn store: every interleaving of callers in any number of processes
      is a sequence of calls on one store, an error leaving at most a write of
      unknown outcome.
    - Loop exits: a run is completed, cancelled or blocked by a driver's report only
      when the host's evidence supports the report.
    - Coordinator and publication: observers acknowledge an event at most once, a
      success means they did, prepared identifiers stay in their scope, and wakes
      follow the answers.
    - Triggers: however pollers and users interleave, a slot of a trigger is accepted
      at most once and in order, nothing is submitted twice at a time, a tick settles
      every fire it claims and its report is true; stored triggers are well formed;
      the cleanup scan misses nothing; listing shows and removing removes only the
      caller's own, and no tool reads or changes a trigger of another tenant.  [one_shot_fires_again],
      [rescheduled_fire_is_wedged], [doc_sync_upsert_drops_claim],
      [set_state_ignores_the_user] and [failed_update_keeps_the_name] are what the code
      does against its documents.
    - Conversations: an external conversation keeps its thread, agent, project and
      references; an event of an adapter is at most one message, of a participant of the
      thread, and accepting it again answers that message; a call that fails changes
      nothing; two external conversations have different fingerprints; the filesystem
      store is a sequence of such sections, whatever callers interleave.
    - Inbound turns: whatever deliveries, fires and administrative calls interleave, each
      submission is of an accepted message, all submissions of one event are one request
      under one key unless one of them failed retryably, an event whose answer is
      recorded is not submitted again, and what a delivery reports is an answer
      that was recorded for the message of its own event.  [rotation_races_with_record] shows why a retryable
      failure is an exception: a rotated key can give an event a second turn.

    ** Bounds and fuel

    [CAS_RETRY_ATTEMPTS] is the source's constant, and the step bound of a process
    follows from it.  [blank] removes at least one byte per
    round, so the length of the text is enough fuel; so it is for [trim_front] and
    [words] of [Triggers].  [scan_pages] takes a number of pages, and
    [active_scan_complete] says how many are enough.  Everything else recurses on
    its data.  The poll loops of [Processes] take a number of rounds, and
    [await_returns_after_terminal] says how many are enough.  The rounds of a save are
    the source's [CONVERSATION_CAS_RETRIES] and [FILESYSTEM_CAS_RETRIES]; a save that uses
    them up fails, as the source's does.

    ** Not modelled

    Lock registries and async scheduling below the granularity of a store call; a
    task that is dropped between two calls; the JSON, TOML and UUID texts, digests
    and time-zone data (outside crates); the database and disk backends and database
    stores, among them the Postgres turn store; listing and query reads of the
    filesystem; the filesystem stores of runs, approvals and processes; the process
    wrappers; the budget approval gate; the prompt, model and milestone vocabulary of
    the loop host.  Outside the authority core and the turns: hooks,
    network egress, secrets, the agent loop, model providers, user interfaces.
    Of the triggers: the Postgres repository, the adapters of the composition that write
    a prompt into a thread before it is submitted, and the JSON around the tools.  Of the
    conversations: the Postgres store, the poisoning of a mutex, the encoding of the
    stored document, and the patterns of the injection scanner, which is an argument. *)

From Stdlib Require Export Strings.Ascii.
From stdpp Require Export base gmap strings list fin_maps numbers sorting.
From Stdlib Require Export ZArith Lia.

Open Scope Z_scope.

(** ** Results: Rust's [Result<A, E>] and the [?] operator *)

Inductive result (A E : Type) : Type :=
| Ok (a : A)
| Err (e : E).
Arguments Ok {A E} a.
Arguments Err {A E} e.

#[export] Instance result_eq_dec {A E} `{EqDecision A} `{EqDecision E} :
  EqDecision (result A E).
Proof. solve_decision. Defined.

Declare Scope rust_scope.
Delimit Scope rust_scope with rust.

(** [let? x := e in k] is [let x = e?; k]. *)
Notation "'let?' x := c 'in' k" :=
  (match c with Ok x => k | Err e => Err e end)
  (at level 10, x pattern, k at level 200) : rust_scope.

Open Scope rust_scope.

Definition ok_or {A E} (o : option A) (e : E) : result A E :=
  match o with Some a => Ok a | None => Err e end.

Definition is_ok {A E} (r : result A E) : bool :=
  match r with Ok _ => true | Err _ => false end.

Definition is_err {A E} (r : result A E) : bool := negb (is_ok r).

Definition result_map {A B E} (f : A -> B) (r : result A E) : result B E :=
  match r with Ok a => Ok (f a) | Err e => Err e end.

Definition map_err {A E F} (f : E -> F) (r : result A E) : result A F :=
  match r with Ok a => Ok a | Err e => Err (f e) end.

(** [iter().map(f).collect::<Result<Vec<_>, _>>()]: stops at the first error. *)
Fixpoint try_map {A B E} (f : A -> result B E) (l : list A) : result (list B) E :=
  match l with
  | [] => Ok []
  | x :: l' => let? y := f x in let? ys := try_map f l' in Ok (y :: ys)
  end.

Lemma try_map_ok {A B E} (f : A -> result B E) l ys :
  try_map f l = Ok ys -> Forall2 (fun x y => f x = Ok y) l ys.
Proof.
  revert ys. induction l as [|x l IH]; intros ys H; simpl in H.
  - injection H as <-. constructor.
  - destruct (f x) eqn:Hx; [|discriminate].
    destruct (try_map f l) eqn:Hl; [|discriminate].
    injection H as <-. constructor; auto.
Qed.

Lemma try_map_succeeds {A B E} (f : A -> result B E) l :
  (forall x, x ∈ l -> exists y, f x = Ok y) -> exists ys, try_map f l = Ok ys.
Proof.
  induction l as [|x l IH]; intros H; [by exists []|]. simpl.
  destruct (H x) as [y ->]; [by left|].
  destruct IH as [ys ->]; [|by eexists]. intros z Hz. apply H. by right.
Qed.

(** ** Machine integers: [u32]/[u64] as [Z] with explicit range checks *)

Definition u64_max : Z := 2 ^ 64 - 1.
Definition u32_max : Z := 2 ^ 32 - 1.

Definition in_u64 (z : Z) : Prop := 0 <= z <= u64_max.
Definition in_u32 (z : Z) : Prop := 0 <= z <= u32_max.

Definition checked_add_max (mx a b : Z) : option Z :=
  if a + b <=? mx then Some (a + b) else None.
Definition checked_sub_nonneg (a b : Z) : option Z :=
  if b <=? a then Some (a - b) else None.

Definition u64_checked_add := checked_add_max u64_max.
Definition u32_checked_add := checked_add_max u32_max.
Definition u64_checked_sub := checked_sub_nonneg.
Definition u32_checked_sub := checked_sub_nonneg.

Lemma checked_add_max_some mx a b c :
  checked_add_max mx a b = Some c <-> c = a + b /\ a + b <= mx.
Proof.
  unfold checked_add_max. destruct (a + b <=? mx) eqn:H.
  - apply Z.leb_le in H. split; [intros [= <-]; done | intros [-> _]; done].
  - apply Z.leb_gt in H. split; [done|]. lia.
Qed.

Lemma checked_sub_nonneg_some a b c :
  checked_sub_nonneg a b = Some c <-> c = a - b /\ b <= a.
Proof.
  unfold checked_sub_nonneg. destruct (b <=? a) eqn:H.
  - apply Z.leb_le in H. split; [intros [= <-]; done | intros [-> _]; done].
  - apply Z.leb_gt in H. split; [done|]. lia.
Qed.

(** ** Strings as UTF-8 bytes

    A Rust [String] is a byte sequence, so a model string is Rocq's [string]
    read byte by byte; [str::len] is its length. *)

Definition byte_of (c : Ascii.ascii) : Z := Z.of_N (Ascii.N_of_ascii c).

Definition slash : Ascii.ascii := "/"%char.
Definition backslash : Ascii.ascii := "\"%char.
Definition dot : Ascii.ascii := "."%char.

Definition str_len (s : string) : Z := Z.of_nat (String.length s).

Fixpoint contains_char (c : Ascii.ascii) (s : string) : bool :=
  match s with
  | EmptyString => false
  | String.String d s' => bool_decide (c = d) || contains_char c s'
  end.

Fixpoint any_byte (p : Ascii.ascii -> bool) (s : string) : bool :=
  match s with
  | EmptyString => false
  | String.String d s' => p d || any_byte p s'
  end.

(** [chars().any(char::is_control)]: the Unicode category Cc is U+0000-U+001F,
    U+007F and U+0080-U+009F; the last range is the two bytes C2 80 - C2 9F in
    UTF-8, and the byte C2 occurs nowhere else but as that lead byte. *)
Fixpoint has_control (s : string) : bool :=
  match s with
  | EmptyString => false
  | String.String c s' =>
      (byte_of c <? 32) || (byte_of c =? 127)
      || match s' with
         | EmptyString => false
         | String.String d _ =>
             (byte_of c =? 194) && (128 <=? byte_of d) && (byte_of d <=? 159)
         end
      || has_control s'
  end.

(** [str::starts_with]. *)
Definition starts_with (p s : string) : bool := String.prefix p s.

(** [str::contains] on a sub-string. *)
Fixpoint contains_str (p s : string) : bool :=
  String.prefix p s
  || match s with EmptyString => false | String.String _ s' => contains_str p s' end.

(** [str::strip_prefix]. *)
Fixpoint strip_prefix (p s : string) : option string :=
  match p, s with
  | EmptyString, _ => Some s
  | String.String a p', String.String b s' =>
      if decide (a = b) then strip_prefix p' s' else None
  | String.String _ _, EmptyString => None
  end.

(** [str::ends_with] on one character. *)
Fixpoint ends_with_char (c : Ascii.ascii) (s : string) : bool :=
  match s with
  | EmptyString => false
  | String.String d EmptyString => bool_decide (c = d)
  | String.String _ s' => ends_with_char c s'
  end.

(** [str::trim_start_matches] and [str::trim_end_matches] on one character. *)
Fixpoint trim_start_char (c : Ascii.ascii) (s : string) : string :=
  match s with
  | EmptyString => EmptyString
  | String.String d s' => if decide (c = d) then trim_start_char c s' else s
  end.

Fixpoint trim_end_char (c : Ascii.ascii) (s : string) : string :=
  match s with
  | EmptyString => EmptyString
  | String.String d s' =>
      match trim_end_char c s' with
      | EmptyString => if decide (c = d) then EmptyString else String.String d EmptyString
      | t => String.String d t
      end
  end.

(** [str::split] on one character: never empty. *)
Fixpoint split_char (sep : Ascii.ascii) (s : string) : list string :=
  match s with
  | EmptyString => [EmptyString]
  | String.String c s' =>
      if decide (c = sep) then EmptyString :: split_char sep s'
      else match split_char sep s' with
           | hd :: tl => String.String c hd :: tl
           | [] => [String.String c EmptyString]
           end
  end.

(** [[_]::join] with a one-character separator. *)
Fixpoint join_char (sep : Ascii.ascii) (l : list string) : string :=
  match l with
  | [] => EmptyString
  | [x] => x
  | x :: l' => x +:+ String.String sep (join_char sep l')
  end.

(** *** [str::trim]: the Unicode White_Space characters in UTF-8 *)

Definition bytes_str (l : list Z) : string :=
  String.string_of_list_ascii (map (fun z => Ascii.ascii_of_N (Z.to_N z)) l).

Definition white_space : list string :=
  map bytes_str
    ([[9]; [10]; [11]; [12]; [13]; [32]; [194; 133]; [194; 160]; [225; 154; 128]]
     ++ map (fun n => [226; 128; 128 + n]) [0; 1; 2; 3; 4; 5; 6; 7; 8; 9; 10]
     ++ [[226; 128; 168]; [226; 128; 169]; [226; 128; 175]; [226; 129; 159]; [227; 128; 128]]).

Definition reverse (s : string) : string :=
  String.string_of_list_ascii (rev (String.list_ascii_of_string s)).
Definition ends_with (suffix s : string) : bool := starts_with (reverse suffix) (reverse s).

(** [s.trim() == s]. *)
Definition is_trimmed (s : string) : bool :=
  negb (existsb (fun w => starts_with w s || ends_with w s) white_space).

Definition strip_white (s : string) : option string :=
  foldr (fun w acc => match strip_prefix w s with Some t => Some t | None => acc end) None
    white_space.

(** [s.trim().is_empty()]: removing white space from the front ends at nothing; the
    length of the text bounds the rounds. *)
Fixpoint blank (fuel : nat) (s : string) : bool :=
  match s with
  | EmptyString => true
  | _ =>
      match fuel, strip_white s with
      | S fuel', Some t => blank fuel' t
      | _, _ => false
      end
  end.
Definition is_blank (s : string) : bool := blank (String.length s) s.

(** [str::lines]: the lines end at a line feed, with the carriage return before it;
    what follows the last line feed is a line unless it is empty. *)
Definition line_feed : Ascii.ascii := "010"%char.

Fixpoint strip_cr (s : string) : string :=
  match s with
  | EmptyString => EmptyString
  | String.String "013"%char EmptyString => EmptyString
  | String.String c s' => String.String c (strip_cr s')
  end.

Fixpoint lines_of (parts : list string) : list string :=
  match parts with
  | [] => []
  | [rest] => if bool_decide (rest = "") then [] else [rest]
  | line :: parts' => strip_cr line :: lines_of parts'
  end.
Definition str_lines (s : string) : list string := lines_of (split_char line_feed s).

(** [std::str::from_utf8]: [need] continuation bytes are open, the next of them in
    [lo, hi]. *)
Fixpoint utf8_from (need : nat) (lo hi : Z) (s : string) : bool :=
  match s, need with
  | EmptyString, 0%nat => true
  | EmptyString, S _ => false
  | String.String c s', S n =>
      (lo <=? byte_of c) && (byte_of c <=? hi) && utf8_from n 128 191 s'
  | String.String c s', 0%nat =>
      let b := byte_of c in
      if b <? 128 then utf8_from 0 128 191 s'
      else if b <? 194 then false
      else if b <? 224 then utf8_from 1 128 191 s'
      else if b =? 224 then utf8_from 2 160 191 s'
      else if b =? 237 then utf8_from 2 128 159 s'
      else if b <? 240 then utf8_from 2 128 191 s'
      else if b =? 240 then utf8_from 3 144 191 s'
      else if b <? 244 then utf8_from 3 128 191 s'
      else if b =? 244 then utf8_from 3 128 143 s'
      else false
  end.
Definition utf8_valid (s : string) : bool := utf8_from 0 128 191 s.

(** *** String lemmas *)

Lemma append_nil_r (s : string) : s +:+ EmptyString = s.
Proof. induction s as [|c s IH]; simpl; [done|]. unfold String.app. simpl. by f_equal. Qed.

Lemma append_assoc (s t u : string) : (s +:+ t) +:+ u = s +:+ (t +:+ u).
Proof. induction s as [|c s IH]; [done|]. unfold String.app in *. simpl. by f_equal. Qed.

Lemma append_cons c (s t : string) :
  String.String c s +:+ t = String.String c (s +:+ t).
Proof. done. Qed.

Lemma append_nil_l (t : string) : EmptyString +:+ t = t.
Proof. done. Qed.

Lemma append_length (s t : string) :
  String.length (s +:+ t) = (String.length s + String.length t)%nat.
Proof. induction s as [|c s IH]; [done|]. rewrite append_cons. simpl. lia. Qed.

Lemma append_inj_l (s t u : string) : s +:+ t = s +:+ u -> t = u.
Proof. apply String.app_inj. Qed.

Lemma contains_char_app c s t :
  contains_char c (s +:+ t) = contains_char c s || contains_char c t.
Proof. induction s as [|d s IH]; [done|]. rewrite append_cons. simpl. rewrite IH. by destruct (bool_decide _). Qed.

Lemma prefix_spec p s : String.prefix p s = true <-> exists t, s = p +:+ t.
Proof.
  revert s. induction p as [|a p IH]; intros s.
  - split; [by exists s | by destruct s].
  - destruct s as [|b s]; simpl.
    + split; [done|]. intros [t Ht]. done.
    + destruct (Ascii.ascii_dec a b) as [->|Hne].
      * rewrite IH. split; intros [t Ht]; exists t; [by rewrite Ht|]. by injection Ht.
      * split; [done|]. intros [t Ht]. by injection Ht.
Qed.

Lemma strip_prefix_spec p s t : strip_prefix p s = Some t <-> s = p +:+ t.
Proof.
  revert s. induction p as [|a p IH]; intros s; simpl.
  - split; [by intros [= ->] | by intros ->].
  - destruct s as [|b s]; [done|]. case_decide as Hab.
    + subst. rewrite IH. rewrite append_cons. split; [by intros ->|by intros [= ->]].
    + split; [done|]. rewrite append_cons. intros [= -> ->]. done.
Qed.

Lemma split_char_nonempty sep s : split_char sep s <> [].
Proof. destruct s; simpl; [done|]. case_decide; [done|]. by destruct (split_char _ _). Qed.

Lemma split_char_app sep s t :
  split_char sep (s +:+ String.String sep t) = split_char sep s ++ split_char sep t.
Proof.
  induction s as [|c s IH].
  - rewrite append_nil_l. simpl. by case_decide.
  - rewrite append_cons. simpl. case_decide; [by rewrite IH|].
    rewrite IH. destruct (split_char sep s) eqn:E; [|done].
    by apply split_char_nonempty in E.
Qed.

Lemma split_char_none sep s : contains_char sep s = false -> split_char sep s = [s].
Proof.
  induction s as [|c s IH]; [done|]. simpl. intros [H1 H2]%orb_false_elim.
  apply bool_decide_eq_false in H1. rewrite decide_False by congruence.
  by rewrite IH.
Qed.

Lemma split_char_parts sep s :
  Forall (fun x => contains_char sep x = false) (split_char sep s).
Proof.
  induction s as [|c s IH]; simpl; [by constructor|].
  case_decide; [by constructor|].
  destruct (split_char sep s); inversion IH; subst; constructor; auto; simpl;
    rewrite bool_decide_eq_false_2 by congruence; done.
Qed.

Lemma join_char_cons sep x l :
  l <> [] -> join_char sep (x :: l) = x +:+ String.String sep (join_char sep l).
Proof. by destruct l. Qed.

Lemma join_split sep s : join_char sep (split_char sep s) = s.
Proof.
  induction s as [|c s IH]; [done|]. simpl.
  destruct (split_char sep s) as [|hd tl] eqn:E; [by apply split_char_nonempty in E|].
  case_decide as Hc.
  - rewrite join_char_cons, IH, Hc by done. done.
  - rewrite <- IH. by destruct tl.
Qed.

Lemma split_join sep l :
  l <> [] -> Forall (fun x => contains_char sep x = false) l ->
  split_char sep (join_char sep l) = l.
Proof.
  induction l as [|x l IH]; intros Hne HF; [done|].
  apply Forall_cons in HF as [Hx HF].
  destruct l as [|y l]; [by apply split_char_none|].
  rewrite join_char_cons by done. rewrite split_char_app, IH by done.
  by rewrite split_char_none.
Qed.

Lemma join_char_inj sep l1 l2 :
  l1 <> [] -> l2 <> [] ->
  Forall (fun x => contains_char sep x = false) l1 ->
  Forall (fun x => contains_char sep x = false) l2 ->
  join_char sep l1 = join_char sep l2 -> l1 = l2.
Proof. intros. rewrite <- (split_join sep l1), <- (split_join sep l2) by done. congruence. Qed.

Lemma has_control_slash s t :
  has_control (s +:+ String.String slash t) = has_control s || has_control t.
Proof.
  induction s as [|c s IH].
  - rewrite append_nil_l. simpl. by destruct t.
  - rewrite append_cons. simpl. rewrite IH. destruct s as [|d s]; simpl.
    + rewrite orb_false_r. change (128 <=? byte_of slash) with false.
      rewrite andb_false_r. simpl. by rewrite !orb_false_r.
    + by rewrite !orb_assoc.
Qed.

Lemma has_control_join l :
  has_control (join_char slash l) = existsb has_control l.
Proof.
  induction l as [|x l IH]; [done|]. destruct l as [|y l].
  - simpl. by rewrite orb_false_r.
  - rewrite join_char_cons by done. rewrite has_control_slash, IH. done.
Qed.

Lemma has_control_split s :
  has_control s = existsb has_control (split_char slash s).
Proof. by rewrite <- has_control_join, join_split. Qed.

Lemma contains_char_join c sep l :
  c <> sep -> contains_char c (join_char sep l) = existsb (contains_char c) l.
Proof.
  intros Hc. induction l as [|x l IH]; [done|]. destruct l as [|y l].
  - simpl. by rewrite orb_false_r.
  - rewrite join_char_cons by done. rewrite contains_char_app.
    change (contains_char c (String.String sep (join_char sep (y :: l))))
      with (bool_decide (c = sep) || contains_char c (join_char sep (y :: l))).
    rewrite bool_decide_eq_false_2 by done. by rewrite IH.
Qed.

Lemma contains_char_split c sep s :
  c <> sep -> contains_char c s = existsb (contains_char c) (split_char sep s).
Proof. intros Hc. by rewrite <- (contains_char_join c sep) , join_split by done. Qed.

(** The values of a map, filtered and sorted: the shape of every listing. *)
Lemma elem_of_sorted_values `{Countable K} {A} (R : relation A) `{!RelDecision R}
    (f : A -> bool) (m : gmap K A) (x : A) :
  x ∈ merge_sort R (List.filter f (map_to_list m).*2) <->
  exists k, m !! k = Some x /\ f x = true.
Proof.
  rewrite merge_sort_Permutation, list_elem_of_In, filter_In.
  rewrite <- list_elem_of_In, list_elem_of_fmap. split.
  - intros [([k y] & -> & Hin) Hf]. apply elem_of_map_to_list in Hin. by exists k.
  - intros (k & Hk & Hf). split; [|done]. exists (k, x). split; [done|].
    by apply elem_of_map_to_list.
Qed.

Lemma filter_none {A} (f : A -> bool) l :
  (forall i x, l !! i = Some x -> f x = false) -> List.filter f l = [].
Proof.
  induction l as [|x l IH]; intros H; [done|]. simpl. rewrite (H 0%nat x eq_refl).
  apply IH. intros i. apply (H (S i)).
Qed.

Lemma filter_all {A} (f : A -> bool) l :
  (forall i x, l !! i = Some x -> f x = true) -> List.filter f l = l.
Proof.
  induction l as [|x l IH]; intros H; [done|]. simpl. rewrite (H 0%nat x eq_refl).
  f_equal. apply IH. intros i. apply (H (S i)).
Qed.

Lemma existsb_false_Forall {A} (f : A -> bool) l :
  existsb f l = false <-> Forall (fun x => f x = false) l.
Proof.
  induction l as [|x l IH]; simpl; [by split|].
  rewrite orb_false_iff, IH, Forall_cons. done.
Qed.

(** ** Tactics

    [invert_ok H] walks a chain of [?] operators and early returns in
    [H : ... = Ok _], naming each step's equation. *)
Ltac invert_ok H :=
  repeat match type of H with
  | (if ?b then Err _ else _) = Ok _ => destruct b eqn:?; [discriminate H|]
  | (if ?b then _ else Err _) = Ok _ => destruct b eqn:?; [|discriminate H]
  | match ok_or ?o _ with Ok _ => _ | Err _ => _ end = Ok _ =>
      destruct o eqn:?; cbn [ok_or] in H; [|discriminate H]
  | match ?r with Ok _ => _ | Err _ => _ end = Ok _ => destruct r eqn:?; [|discriminate H]
  end.

(** Turns the machine-integer equations of the context into linear facts. *)
Ltac checked_facts :=
  unfold u64_checked_add, u32_checked_add, u64_checked_sub, u32_checked_sub in *;
  repeat match goal with
  | H : checked_add_max _ _ _ = Some _ |- _ => apply checked_add_max_some in H as [H ?]
  | H : checked_sub_nonneg _ _ = Some _ |- _ => apply checked_sub_nonneg_some in H as [H ?]
  end.

(** [look] reads a map after an insertion or a deletion at the same key or,
    given the disequality, at another one. *)
Ltac look :=
  repeat first
    [ rewrite lookup_insert_eq | rewrite lookup_delete_eq
    | rewrite lookup_insert_ne by done | rewrite lookup_delete_ne by done ].

(** [same_or_other k k0] splits on the key an operation touches. *)
Tactic Notation "same_or_other" constr(k) constr(k0) :=
  destruct (decide (k = k0)) as [->|?]; look.

(** ** Hints: [rust] for lookups, listings and the components' invariants,
    [text] for strings *)
Create HintDb rust.
#[export] Hint Resolve lookup_insert_eq lookup_delete_eq : rust.
#[export] Hint Extern 1 (_ <= _) => lia : rust.
#[export] Hint Extern 1 (_ < _) => lia : rust.
Create HintDb text.
#[export] Hint Rewrite append_assoc append_nil_r : text.
