(* ===== verification/Effects.v ===== *)
(** * Interactive programs

    An asynchronous method that calls other components is a [prog]: a finite tree
    of calls, each with the continuation that takes its answer.  The calls of a
    component are an indexed type (the answer's type is the index).  The meaning of
    a program is the set of its traces, and [wp] is the proof rule for traces: a
    guard that every call must meet after the calls made before it, and a
    postcondition on the result and the whole history.  [pool_step] interleaves
    several programs over one shared state, a handler saying what a call may do to
    it, and [rg] is the rely-guarantee rule for such pools. *)

From S2P Require Import Prelude.

Inductive prog (E : Type -> Type) (R : Type) : Type :=
| Ret (r : R)
| Call {X : Type} (e : E X) (k : X -> prog E R).
Arguments Ret {E R} r.
Arguments Call {E R X} e k.

Fixpoint pbind {E R S} (p : prog E R) (f : R -> prog E S) : prog E S :=
  match p with
  | Ret r => f r
  | Call e k => Call e (fun x => pbind (k x) f)
  end.

Definition trigger {E X} (e : E X) : prog E X := Call e Ret.

Declare Scope prog_scope.
Delimit Scope prog_scope with prog.

(** [let! x := c in k] is [let x = c.await; k], [do! c in k] drops the answer, and
    [let!? x := c in k] is [let x = c.await?; k] in a method that returns a
    [Result]. *)
Notation "'let!' x := c 'in' k" := (pbind c (fun x => k))
  (at level 10, x pattern, k at level 200) : prog_scope.
Notation "'do!' c 'in' k" := (pbind c (fun _ => k))
  (at level 10, k at level 200) : prog_scope.
Notation "'let!?' x := c 'in' k" :=
  (pbind c (fun r => match r with Ok x => k | Err e => Ret (Err e) end))
  (at level 10, x pattern, k at level 200) : prog_scope.
Open Scope prog_scope.

(** A call with its answer. *)
Inductive event (E : Type -> Type) : Type :=
| Ev {X : Type} (e : E X) (x : X).
Arguments Ev {E X} e x.

(** ** Traces *)

Fixpoint traces {E R} (p : prog E R) (t : list (event E)) (r : R) : Prop :=
  match p with
  | Ret r' => t = [] /\ r = r'
  | Call e k => exists x t', t = Ev e x :: t' /\ traces (k x) t' r
  end.

Lemma traces_bind {E R S} (p : prog E R) (f : R -> prog E S) t s :
  traces (pbind p f) t s <->
  exists t1 t2 r, t = t1 ++ t2 /\ traces p t1 r /\ traces (f r) t2 s.
Proof.
  revert t. induction p as [r|X e k IH]; intros t; simpl.
  - split; [intros H; by exists [], t, r | by intros (t1 & t2 & r' & -> & [-> ->] & H)].
  - split.
    + intros (x & t' & -> & (t1 & t2 & r & -> & H1 & H2)%IH).
      exists (Ev e x :: t1), t2, r. split; [done|]. split; [by exists x, t1 | done].
    + intros (t1 & t2 & r & -> & (x & t' & -> & H1) & H2).
      exists x, (t' ++ t2). split; [done|]. apply IH. by exists t', t2, r.
Qed.

(** [P] holds of every call that [p] can make. *)
Fixpoint calls_in {E R} (P : forall X, E X -> Prop) (p : prog E R) : Prop :=
  match p with
  | Ret _ => True
  | Call e k => P _ e /\ forall x, calls_in P (k x)
  end.

Lemma calls_in_bind {E R S} (P : forall X, E X -> Prop) (p : prog E R) (f : R -> prog E S) :
  calls_in P p -> (forall r, calls_in P (f r)) -> calls_in P (pbind p f).
Proof. induction p as [r|X e k IH]; simpl; [auto|]. intros [He Hk] Hf. split; [done|]. auto. Qed.

Lemma calls_in_traces {E R} (P : forall X, E X -> Prop) (p : prog E R) t r :
  calls_in P p -> traces p t r -> Forall (fun ev => match ev with @Ev _ X e _ => P X e end) t.
Proof.
  revert t. induction p as [r'|X e k IH]; intros t; simpl.
  - intros _ [-> _]. constructor.
  - intros [He Hk] (x & t' & -> & Ht). constructor; [done|]. by eapply IH.
Qed.

(** Each call of [p] is carried out by a program of its own. *)
Fixpoint interp {E F R} (h : forall X, E X -> prog F X) (p : prog E R) : prog F R :=
  match p with
  | Ret r => Ret r
  | Call e k => pbind (h _ e) (fun x => interp h (k x))
  end.

(** ** Weakest preconditions over histories *)

Section WP.
Context {E : Type -> Type}.

(** [G e h] must hold whenever [e] is called after the calls [h]. *)
Variable G : forall X, E X -> list (event E) -> Prop.

Fixpoint wp {R} (p : prog E R) (Q : R -> list (event E) -> Prop) (h : list (event E)) : Prop :=
  match p with
  | Ret r => Q r h
  | Call e k => G _ e h /\ forall x, wp (k x) Q (h ++ [Ev e x])
  end.

Lemma wp_mono {R} (p : prog E R) (Q Q' : R -> list (event E) -> Prop) h :
  (forall r h', Q r h' -> Q' r h') -> wp p Q h -> wp p Q' h.
Proof.
  intros HQ. revert h. induction p as [r|X e k IH]; intros h; simpl; [auto|].
  intros [HG H]. split; [done|]. intros x. by apply IH.
Qed.

Lemma wp_bind {R S} (p : prog E R) (f : R -> prog E S) Q h :
  wp p (fun r h' => wp (f r) Q h') h -> wp (pbind p f) Q h.
Proof.
  revert h. induction p as [r|X e k IH]; intros h; simpl; [done|].
  intros [HG H]. split; [done|]. intros x. apply IH, H.
Qed.

Definition guarded (h t : list (event E)) : Prop :=
  forall t1 X (e : E X) x t2, t = t1 ++ Ev e x :: t2 -> G X e (h ++ t1).

Lemma wp_traces {R} (p : prog E R) Q h t r :
  wp p Q h -> traces p t r -> Q r (h ++ t) /\ guarded h t.
Proof.
  revert h t. induction p as [r'|X e k IH]; intros h t; simpl.
  - intros HQ [-> ->]. rewrite app_nil_r. split; [done|].
    intros t1 X e x t2 Ht. by destruct t1.
  - intros [HG H] (x & t' & -> & Ht).
    destruct (IH x _ _ (H x) Ht) as [HQ Hg]. rewrite <- app_assoc in HQ. split; [done|].
    intros [|ev t1] Y e' y t2; simpl; intros Heq.
    + assert (Ev e x = Ev e' y) as Hev by congruence. rewrite app_nil_r.
      by refine (match Hev in _ = ev return
                   match ev with @Ev _ Z e0 _ => G Z e0 h end with eq_refl => HG end).
    + injection Heq as <- ->. change (Ev e x :: t1) with ([Ev e x] ++ t1). rewrite app_assoc. by eapply Hg.
Qed.

End WP.

(** ** Interleavings over a shared state *)

Section Pool.
Context {E : Type -> Type} {S R A : Type}.

(** [H e s s' x]: the call [e] may change [s] to [s'] and answer [x]. *)
Variable H : forall X, E X -> S -> S -> X -> Prop.

(** A pool is a list of labelled programs.  A step is a call of one of them, or the
    start of another. *)
Inductive pool_step (may_start : A -> prog E R -> list A -> S -> Prop) :
    S * list (A * prog E R) -> S * list (A * prog E R) -> Prop :=
| ps_call s s' ps i a X (e : E X) k x :
    ps !! i = Some (a, Call e k) -> H X e s s' x ->
    pool_step may_start (s, ps) (s', <[i := (a, k x)]> ps)
| ps_start s ps a p :
    may_start a p ps.*1 s -> pool_step may_start (s, ps) (s, ps ++ [(a, p)]).

(** The calls of [t] take [s] to [s']. *)
Fixpoint path (s : S) (t : list (event E)) (s' : S) : Prop :=
  match t with
  | [] => s' = s
  | Ev e x :: t => exists s1, H _ e s s1 x /\ path s1 t s'
  end.

(** A program of the pool may run to its end while the others wait. *)
Lemma solo_run may_start i a p t r s s' ps :
  ps !! i = Some (a, p) -> traces p t r -> path s t s' ->
  rtc (pool_step may_start) (s, ps) (s', <[i := (a, Ret r)]> ps).
Proof.
  revert s t ps. induction p as [r'|X e k IH]; intros s t ps Hl; simpl.
  - intros [-> ->]. intros ->. by rewrite list_insert_id.
  - intros (x & t' & -> & Ht) (s1 & Hh & Hp). eapply rtc_l; [by eapply ps_call|].
    rewrite <- (list_insert_insert_eq ps i (a, Ret r) (a, k x)). apply (IH x s1 t'); [|done|done].
    apply list_lookup_insert_eq. by eapply lookup_lt_Some.
Qed.

Variable rely guar : A -> S -> S -> Prop.

(** [rg a p Q s]: from [s], whatever steps in [rely a] the others take in between,
    every call of [p] is in [guar a], and [Q] holds of what it returns. *)
Fixpoint rg {R0} (a : A) (p : prog E R0) (Q : R0 -> S -> Prop) (s : S) : Prop :=
  match p with
  | Ret r => Q r s
  | Call e k => forall s1 s2 x, rely a s s1 -> H _ e s1 s2 x -> guar a s1 s2 /\ rg a (k x) Q s2
  end.

Lemma rg_stable {R0} a (p : prog E R0) (Q : R0 -> S -> Prop) s s' :
  (forall s1 s2 s3, rely a s1 s2 -> rely a s2 s3 -> rely a s1 s3) ->
  (forall r s1 s2, rely a s1 s2 -> Q r s1 -> Q r s2) ->
  rely a s s' -> rg a p Q s -> rg a p Q s'.
Proof.
  intros Htr HQ Hr. destruct p as [r|X e k]; simpl; [by apply HQ|].
  intros Hp s1 s2 x Hs Hh. apply (Hp s1 s2 x); [by eapply Htr | done].
Qed.

Lemma rg_bind {R0 R1} a (p : prog E R0) (f : R0 -> prog E R1) Q s :
  rg a p (fun r s' => rg a (f r) Q s') s -> rg a (pbind p f) Q s.
Proof.
  revert s. induction p as [r|X e k IH]; intros s; simpl; [done|].
  intros Hp s1 s2 x Hs Hh. destruct (Hp s1 s2 x Hs Hh) as [Hg Hk]. split; [done|]. by apply IH.
Qed.

Lemma rg_mono {R0} a (p : prog E R0) (Q Q' : R0 -> S -> Prop) s :
  (forall r s', Q r s' -> Q' r s') -> rg a p Q s -> rg a p Q' s.
Proof.
  intros HQ. revert s. induction p as [r|X e k IH]; intros s; simpl; [auto|].
  intros Hp s1 s2 x Hs Hh. destruct (Hp s1 s2 x Hs Hh) as [Hg Hk]. split; [done|]. by apply IH.
Qed.

(** What the program labelled [a] promises of its result. *)
Variable post : A -> R -> S -> Prop.

Definition pool_ok (I : S -> Prop) (compat : A -> A -> Prop) (c : S * list (A * prog E R)) : Prop :=
  I c.1 /\
  (forall i a p, c.2 !! i = Some (a, p) -> rg a p (post a) c.1) /\
  (forall i j a b, c.2.*1 !! i = Some a -> c.2.*1 !! j = Some b -> i <> j -> compat a b).

Lemma pool_step_ok I compat may_start c c' :
  (forall a s, rely a s s) ->
  (forall a s1 s2 s3, rely a s1 s2 -> rely a s2 s3 -> rely a s1 s3) ->
  (forall a r s s', rely a s s' -> post a r s -> post a r s') ->
  (forall a s s', guar a s s' -> I s -> I s') ->
  (forall a b s s', compat a b -> I s -> guar a s s' -> rely b s s') ->
  (forall a p l s, may_start a p l s -> I s ->
     rg a p (post a) s /\ Forall (fun b => compat a b /\ compat b a) l) ->
  pool_ok I compat c -> pool_step may_start c c' -> pool_ok I compat c'.
Proof.
  intros Hrefl Htr Hpost HI Hcompat Hstart (Hi & Hrg & Hc) Hstep.
  destruct Hstep as [s s' ps i a X e k x Hl Hh|s ps a p Hm]; simpl in *.
  - destruct (Hrg _ _ _ Hl s s' x (Hrefl a s) Hh) as [Hg Hk]. split; [|split]; simpl.
    + by eapply HI.
    + intros j b p. destruct (decide (i = j)) as [<-|Hne].
      * rewrite list_lookup_insert_eq by by eapply lookup_lt_Some. by intros [= <- <-].
      * rewrite list_lookup_insert_ne by done. intros Hj.
        apply (rg_stable b p (post b) s s' (Htr b) (Hpost b)); [|by eapply Hrg].
        apply (Hcompat a b); [|done|done].
        apply (Hc i j); [by rewrite list_lookup_fmap, Hl | by rewrite list_lookup_fmap, Hj | done].
    + intros j1 j2 b1 b2. rewrite list_fmap_insert. simpl.
      rewrite list_insert_id by by rewrite list_lookup_fmap, Hl. apply Hc.
  - destruct (Hstart _ _ _ _ Hm Hi) as [Hp Hall]. split; [done|]. split.
    + intros j b q [Hj|[Hle Hj]]%lookup_app_Some; [by eapply Hrg|].
      destruct (j - length ps)%nat; simpl in Hj; [|done]. by injection Hj as <- <-.
    + intros i j b1 b2. cbn [snd fst]. rewrite fmap_app. intros H1 H2 Hne.
      apply lookup_app_Some in H1 as [H1|[Hl1 H1]]; apply lookup_app_Some in H2 as [H2|[Hl2 H2]].
      * by eapply Hc.
      * destruct (j - _)%nat; [|done]. injection H2 as <-. eapply Forall_lookup_1 in Hall; [|exact H1]. tauto.
      * destruct (i - _)%nat; [|done]. injection H1 as <-. eapply Forall_lookup_1 in Hall; [|exact H2]. tauto.
      * destruct (i - _)%nat eqn:Ei; [|done]. destruct (j - _)%nat eqn:Ej; [|done]. lia.
Qed.

Lemma pool_reach_ok I compat may_start s c' :
  (forall a s, rely a s s) ->
  (forall a s1 s2 s3, rely a s1 s2 -> rely a s2 s3 -> rely a s1 s3) ->
  (forall a r s s', rely a s s' -> post a r s -> post a r s') ->
  (forall a s s', guar a s s' -> I s -> I s') ->
  (forall a b s s', compat a b -> I s -> guar a s s' -> rely b s s') ->
  (forall a p l s, may_start a p l s -> I s ->
     rg a p (post a) s /\ Forall (fun b => compat a b /\ compat b a) l) ->
  I s -> rtc (pool_step may_start) (s, []) c' -> pool_ok I compat c'.
Proof.
  intros H1 H2 H3 H4 H5 H6 Hs Hr.
  assert (pool_ok I compat (s, [])) as Hok.
  { split; [done|]. split; [by intros i a p ?|]. by intros i j a b ?. }
  revert Hok. clear Hs.
  induction Hr as [|c1 c2 c3 Hstep _ IH]; intros Hok; [done|]. apply IH. by eapply pool_step_ok.
Qed.
End Pool.
