(* ===== verification/External.v ===== *)
(** * Code outside the repository

    The crates the modelled components call but do not contain, as classes of
    operations with the behaviour the source relies on as laws:

    - [Decimal]: [rust_decimal::Decimal], the 96-bit decimal type of money
      amounts.  [dval] reads a decimal as a number of its smallest units
      (10{^-28}, the largest scale the type has).  Additions may round, so no law
      says that [checked_add] is exact: the code certifies a sum by subtracting
      both operands back, and the law is that a certified sum is exact.
    - [Calendar]: the [chrono]/[chrono_tz] functions of the budget periods.

    Each class has an instance, so that statements over it can be evaluated.
    [f64] arithmetic is Rocq's own IEEE-754 specification ([SpecFloat]). *)

From Stdlib Require Export Floats.SpecFloat.
From S2P Require Import Prelude.

(** ** [rust_decimal::Decimal] *)

Class Decimal : Type := {
  dec : Type;
  dec_zero : dec;
  dec_eqb : dec -> dec -> bool;
  dec_ltb : dec -> dec -> bool;
  dec_checked_add : dec -> dec -> option dec;
  dec_checked_sub : dec -> dec -> option dec;
  dec_to_f64 : dec -> option spec_float;
}.

(** [Option<Decimal> == Option<Decimal>]. *)
Definition opt_dec_eqb `{Decimal} (a b : option dec) : bool :=
  match a, b with
  | Some x, Some y => dec_eqb x y
  | None, None => true
  | _, _ => false
  end.

Class DecimalLaws (D : Decimal) : Type := {
  dval : dec -> Z;
  dval_zero : dval dec_zero = 0;
  dec_eqb_spec : forall a b, dec_eqb a b = true <-> dval a = dval b;
  dec_ltb_spec : forall a b, dec_ltb a b = true <-> dval a < dval b;
  (** a sum from which each operand can be taken back is exact *)
  dec_add_certified : forall a b s,
    dec_checked_add a b = Some s ->
    opt_dec_eqb (dec_checked_sub s a) (Some b) = true ->
    opt_dec_eqb (dec_checked_sub s b) (Some a) = true ->
    dval s = dval a + dval b;
  dec_sub_certified : forall a b d,
    dec_checked_sub a b = Some d ->
    opt_dec_eqb (dec_checked_sub a d) (Some b) = true ->
    opt_dec_eqb (dec_checked_add d b) (Some a) = true ->
    dval d = dval a - dval b;
  (** arithmetic is exact when the exact result is a decimal *)
  dec_add_exact : forall a b c, dval c = dval a + dval b ->
    exists c', dec_checked_add a b = Some c' /\ dval c' = dval c;
  dec_sub_exact : forall a b c, dval c = dval a - dval b ->
    exists c', dec_checked_sub a b = Some c' /\ dval c' = dval c;
}.

(** ** [chrono] and [chrono_tz]

    An instant is a number of nanoseconds, a date a day number. *)

Class Calendar : Type := {
  tz : Type;
  tz_eq_dec :: EqDecision tz;
  MAX_UTC : Z;
  local_date : tz -> Z -> Z;               (* with_timezone(&tz).date_naive() *)
  date_year : Z -> Z;
  date_month : Z -> Z;
  num_days_from_monday : Z -> Z;
  from_ymd_opt : Z -> Z -> Z -> option Z;
  local_midnight : tz -> Z -> option Z;    (* from_local_datetime(0:00).earliest() *)
}.

(** ** The text of a UUID ([uuid] crate) *)

Class UuidText : Type := { uuid_text : Z -> string }.

(** ** [serde_json::Value], carried but never inspected by the modelled code *)

Class SerdeJson : Type := { json : Type }.

#[export] Instance string_json : SerdeJson := {| json := string |}.

(** [Value == Value] and the object with the single member [$ref]. *)
Class JsonValue (J : SerdeJson) : Type := {
  json_eqb : json -> json -> bool;
  json_ref : string -> json }.

#[export] Instance string_json_value : JsonValue string_json :=
  {| json_eqb := String.eqb; json_ref := fun s => s |}.

Definition ns_per_hour : Z := 3600 * 1000000000.
Definition hours (n : Z) : Z := n * ns_per_hour.
Definition days (n : Z) : Z := hours (24 * n).

(** ** [f64] *)

Definition f64 := spec_float.
Definition f64_of_u64 (z : Z) : f64 := binary_normalize 53 1024 z 0 false.
Definition f64_div (a b : f64) : f64 := SFdiv 53 1024 a b.
Definition f64_lt (a b : f64) : bool := SFltb a b.
Definition f64_ge (a b : f64) : bool := SFleb b a.
Definition f64_zero : f64 := S754_zero false.
Definition f64_one : f64 := f64_of_u64 1.
Definition f64_is_finite (a : f64) : bool :=
  match a with S754_zero _ | S754_finite _ _ _ => true | _ => false end.

(** ** Instances for evaluation *)

Module Fixed.

(** Exact decimals of at most 96 bits at the smallest unit. *)
Definition in_range (z : Z) : bool := (- 2 ^ 96 <? z) && (z <? 2 ^ 96).

Record t : Type := mk { val : Z; val_ok : in_range val = true }.

Definition fit (z : Z) : option t :=
  match decide (in_range z = true) with left H => Some (mk z H) | right _ => None end.

(** A literal, in units of 10{^-28}; zero when out of range. *)
Definition lit (z : Z) : t := default (mk 0 eq_refl) (fit z).

Definition to_f64 (d : t) : f64 :=
  f64_div (binary_normalize 53 1024 (val d) 0 false) (f64_of_u64 (10 ^ 28)).

Lemma fit_spec z d : fit z = Some d <-> val d = z.
Proof.
  unfold fit. split.
  - case_decide; [|done]. by intros [= <-].
  - intros <-. destruct d as [v H]. simpl. case_decide as H'; [|done].
    do 2 f_equal. apply (proof_irrel H' H).
Qed.

(** One time zone whose days have twenty-four hours and whose months have thirty
    days; day 0 is a Thursday, as the epoch's was. *)
Definition day_of (now : Z) : Z := now / days 1.
Definition month (d : Z) : Z := (d / 30) mod 12 + 1.
Definition year (d : Z) : Z := d / 360.
Definition ymd (y m d : Z) : option Z :=
  if (1 <=? m) && (m <=? 12) && (1 <=? d) && (d <=? 30)
  then Some (y * 360 + (m - 1) * 30 + (d - 1)) else None.

End Fixed.

#[export] Instance fixed_decimal : Decimal := {
  dec := Fixed.t;
  dec_zero := Fixed.lit 0;
  dec_eqb a b := Fixed.val a =? Fixed.val b;
  dec_ltb a b := Fixed.val a <? Fixed.val b;
  dec_checked_add a b := Fixed.fit (Fixed.val a + Fixed.val b);
  dec_checked_sub a b := Fixed.fit (Fixed.val a - Fixed.val b);
  dec_to_f64 a := Some (Fixed.to_f64 a);
}.

#[export] Instance fixed_decimal_laws : DecimalLaws fixed_decimal.
Proof.
  refine {| dval := (Fixed.val : @dec fixed_decimal -> Z) |}; simpl.
  - done.
  - intros a b. apply Z.eqb_eq.
  - intros a b. apply Z.ltb_lt.
  - intros a b s Hs%Fixed.fit_spec _ _. done.
  - intros a b s Hs%Fixed.fit_spec _ _. done.
  - intros a b c Hc. exists c. split; [by apply Fixed.fit_spec|done].
  - intros a b c Hc. exists c. split; [by apply Fixed.fit_spec|done].
Defined.

#[export] Instance fixed_calendar : Calendar := {
  tz := unit;
  MAX_UTC := days (360 * 262142);
  local_date _ now := Fixed.day_of now;
  date_year := Fixed.year;
  date_month := Fixed.month;
  num_days_from_monday d := (d + 3) mod 7;
  from_ymd_opt := Fixed.ymd;
  local_midnight _ d := Some (days d);
}.
