(* ===== verification/HostIds.v ===== *)
(** * Authority-bearing identifiers

    [crates/brassclaw_host_api/src/ids.rs] and [error.rs]: the validated string
    identifiers made by the [string_id!] macro, the UUID identifiers made by
    [uuid_id!], the capability identifier, and the contract error type.  The two
    macros become one record each, indexed by the identifier's kind, so that a
    tenant id and a user id are different types as they are in the source. *)

From S2P Require Import Prelude.

(** ** Contract errors ([error.rs]) *)

Inductive HostApiError : Type :=
| InvalidId (kind value reason : string)
| InvalidPath (value reason : string)
| InvalidCapability (value reason : string)
| InvalidMount (value reason : string)
| InvalidNetworkTarget (value reason : string)
| InvalidRuntimeCredentialTarget (value reason : string)
| InvariantViolation (reason : string).

#[export] Instance HostApiError_eq_dec : EqDecision HostApiError.
Proof. solve_decision. Defined.

(** ** Validators *)

Definition has_forbidden_control (value : string) : bool :=
  contains_char "000"%char value || has_control value.

Definition validate_scope_id (kind value : string) : result unit HostApiError :=
  if bool_decide (value = "") then Err (InvalidId kind value "must not be empty")
  else if 256 <? str_len value then
    Err (InvalidId kind value "must be at most 256 bytes")
  else if bool_decide (value = ".") || bool_decide (value = "..") then
    Err (InvalidId kind value "dot segments are not allowed")
  else if contains_char slash value || contains_char backslash value then
    Err (InvalidId kind value "path separators are not allowed")
  else if has_forbidden_control value then
    Err (InvalidId kind value "NUL/control characters are not allowed")
  else Ok tt.

Definition is_ascii_lowercase (b : Ascii.ascii) : bool :=
  (97 <=? byte_of b) && (byte_of b <=? 122).
Definition is_ascii_uppercase (b : Ascii.ascii) : bool :=
  (65 <=? byte_of b) && (byte_of b <=? 90).
Definition is_ascii_digit (b : Ascii.ascii) : bool :=
  (48 <=? byte_of b) && (byte_of b <=? 57).

Definition is_name_char (byte : Ascii.ascii) : bool :=
  is_ascii_lowercase byte || is_ascii_digit byte
  || bool_decide (byte = "_"%char) || bool_decide (byte = "-"%char).

Definition validate_name_segment (kind value : string) : result unit HostApiError :=
  match value with
  | EmptyString => Err (InvalidId kind value "must not be empty")
  | String.String first _ =>
      if 128 <? str_len value then
        Err (InvalidId kind value "must be at most 128 bytes")
      else if negb (is_ascii_lowercase first || is_ascii_digit first) then
        Err (InvalidId kind value "must start with lowercase ASCII letter or digit")
      else if bool_decide (value = ".") || bool_decide (value = "..")
              || contains_str ".." value then
        Err (InvalidId kind value "dot-dot segments are not allowed")
      else if any_byte (fun b => negb (is_name_char b || bool_decide (b = dot))) value then
        Err (InvalidId kind value
               "only lowercase ASCII letters, digits, '_', '-', and '.' are allowed")
      else if existsb (fun p => bool_decide (p = "")) (split_char dot value) then
        Err (InvalidId kind value "empty dot segments are not allowed")
      else Ok tt
  end.

(** ** [string_id!] identifiers *)

Inductive string_id_kind : Type :=
| KTenant | KUser | KAgent | KProject | KThread
| KExtension | KPackage | KSecret | KCredentialProvider | KSystemService.

#[export] Instance string_id_kind_eq_dec : EqDecision string_id_kind.
Proof. solve_decision. Defined.

Record string_id (k : string_id_kind) : Type := from_trusted { as_str : string }.
Arguments from_trusted {k} as_str.
Arguments as_str {k} _.

Abbreviation TenantId := (string_id KTenant).
Abbreviation UserId := (string_id KUser).
Abbreviation AgentId := (string_id KAgent).
Abbreviation ProjectId := (string_id KProject).
Abbreviation ThreadId := (string_id KThread).
Abbreviation ExtensionId := (string_id KExtension).
Abbreviation PackageId := (string_id KPackage).
Abbreviation SecretHandle := (string_id KSecret).
Abbreviation RuntimeCredentialAccountProviderId := (string_id KCredentialProvider).
Abbreviation SystemServiceId := (string_id KSystemService).

Definition string_id_kind_name (k : string_id_kind) : string :=
  match k with
  | KTenant => "tenant" | KUser => "user" | KAgent => "agent"
  | KProject => "project" | KThread => "thread" | KExtension => "extension"
  | KPackage => "package" | KSecret => "secret"
  | KCredentialProvider => "runtime_credential_account_provider"
  | KSystemService => "system_service"
  end.

Definition string_id_validator (k : string_id_kind) : string -> string -> result unit HostApiError :=
  match k with
  | KTenant | KUser | KAgent | KProject | KThread => validate_scope_id
  | KExtension | KPackage | KSecret | KCredentialProvider | KSystemService =>
      validate_name_segment
  end.

Definition string_id_new (k : string_id_kind) (value : string) :
    result (string_id k) HostApiError :=
  let? _ := string_id_validator k (string_id_kind_name k) value in
  Ok (from_trusted value).

#[export] Instance string_id_eq_dec k : EqDecision (string_id k).
Proof. solve_decision. Defined.

#[export] Instance string_id_countable k : Countable (string_id k).
Proof. by apply (inj_countable' as_str from_trusted); intros []. Defined.

(** ** [uuid_id!] identifiers *)

Inductive uuid_id_kind : Type :=
| KInvocation | KProcess | KCapabilityGrant | KResourceReservation
| KApprovalRequest | KAuditEvent | KCorrelation.

Record uuid_id (k : uuid_id_kind) : Type := from_uuid { as_uuid : Z }.
Arguments from_uuid {k} as_uuid.
Arguments as_uuid {k} _.

Abbreviation InvocationId := (uuid_id KInvocation).
Abbreviation ProcessId := (uuid_id KProcess).
Abbreviation CapabilityGrantId := (uuid_id KCapabilityGrant).
Abbreviation ResourceReservationId := (uuid_id KResourceReservation).
Abbreviation ApprovalRequestId := (uuid_id KApprovalRequest).
Abbreviation AuditEventId := (uuid_id KAuditEvent).
Abbreviation CorrelationId := (uuid_id KCorrelation).

#[export] Instance uuid_id_eq_dec k : EqDecision (uuid_id k).
Proof. solve_decision. Defined.

#[export] Instance uuid_id_countable k : Countable (uuid_id k).
Proof. by apply (inj_countable' as_uuid from_uuid); intros []. Defined.

(** ** Capability identifiers *)

Record CapabilityId : Type := mk_CapabilityId { cap_str : string }.

#[export] Instance CapabilityId_eq_dec : EqDecision CapabilityId.
Proof. solve_decision. Defined.

#[export] Instance CapabilityId_countable : Countable CapabilityId.
Proof. by apply (inj_countable' cap_str mk_CapabilityId); intros []. Defined.

Fixpoint validate_segments (segments : list string) : result unit HostApiError :=
  match segments with
  | [] => Ok tt
  | segment :: rest =>
      let? _ := validate_name_segment "capability" segment in
      validate_segments rest
  end.

Definition CapabilityId_new (value : string) : result CapabilityId HostApiError :=
  if bool_decide (value = "") || negb (contains_char dot value) then
    Err (InvalidId "capability" value "must be '<extension>.<capability>[.<sub>...]'")
  else if bool_decide (length (split_char dot value) < 2)%nat
          || existsb (fun p => bool_decide (p = "")) (split_char dot value) then
    Err (InvalidId "capability" value "empty dot segments are not allowed")
  else
    let? _ := validate_segments (split_char dot value) in
    Ok (mk_CapabilityId value).

(** ** Facts the other components use *)

Definition scope_kind (k : string_id_kind) : bool :=
  match k with KTenant | KUser | KAgent | KProject | KThread => true | _ => false end.

(** What acceptance by [validate_scope_id] gives a path builder. *)
Record safe_segment (s : string) : Prop := {
  seg_nonempty : s <> "";
  seg_len : str_len s <= 256;
  seg_not_dot : s <> ".";
  seg_not_dotdot : s <> "..";
  seg_no_slash : contains_char slash s = false;
  seg_no_backslash : contains_char backslash s = false;
  seg_no_control : has_control s = false;
}.

Lemma validate_scope_id_safe kind value :
  validate_scope_id kind value = Ok tt <-> safe_segment value /\ contains_char "000"%char value = false.
Proof.
  unfold validate_scope_id, has_forbidden_control.
  split.
  - destruct (256 <? str_len value) eqn:Hl; repeat case_bool_decide; simpl; try done.
    destruct (contains_char slash value) eqn:?, (contains_char backslash value) eqn:?,
      (contains_char "000"%char value) eqn:?, (has_control value) eqn:?; try done.
    intros _. split; [|done]. constructor; try done. by apply Z.ltb_ge.
  - intros [[? ? ? ? Hs Hb Hc] H0].
    rewrite !bool_decide_eq_false_2 by done.
    replace (256 <? str_len value) with false by (symmetry; by apply Z.ltb_ge).
    by rewrite Hs, Hb, Hc, H0.
Qed.

Lemma string_id_new_as_str k v id : string_id_new k v = Ok id -> as_str id = v.
Proof. unfold string_id_new. destruct (string_id_validator _ _ _); [|done]. by intros [= <-]. Qed.

Lemma scope_id_new_safe k v id :
  scope_kind k = true -> string_id_new k v = Ok id -> safe_segment (as_str id).
Proof.
  unfold string_id_new. intros Hk.
  destruct (string_id_validator k _ v) as [[]|] eqn:Hv; [|done].
  intros [= <-]. simpl.
  destruct k; try done; simpl in Hv; by apply validate_scope_id_safe in Hv as [].
Qed.
