(* ===== verification/Paths.v ===== *)
(** * Scoped, virtual and mount paths

    [crates/brassclaw_host_api/src/path.rs] and [mount.rs]: lexical path
    normalisation, the three path newtypes, mount permissions and the mount view
    that turns a scoped path into a virtual one.  The theorems show that the
    namespaces are canonical (no empty, [.] or [..] segment survives), that the
    virtual namespace round trips, and that a mount view can never resolve a
    path outside the target of the mount it selects. *)

From S2P Require Import Prelude HostIds.

(** ** Path newtypes *)

Record VirtualPath : Type := mk_VirtualPath { vp_str : string }.
Record ScopedPath : Type := mk_ScopedPath { sp_str : string }.
Record MountAlias : Type := mk_MountAlias { alias_str : string }.

#[export] Instance VirtualPath_eq_dec : EqDecision VirtualPath.
Proof. solve_decision. Defined.
#[export] Instance ScopedPath_eq_dec : EqDecision ScopedPath.
Proof. solve_decision. Defined.
#[export] Instance MountAlias_eq_dec : EqDecision MountAlias.
Proof. solve_decision. Defined.

Definition VIRTUAL_ROOTS : list string :=
  ["/engine"; "/system/settings"; "/system/extensions"; "/system/skills";
   "/users"; "/projects"; "/memory"; "/artifacts"; "/tmp"; "/secrets"; "/events";
   "/processes"; "/authorization"; "/outbound"; "/run-state"; "/approvals";
   "/threads"; "/conversations"; "/turns"; "/checkpoint-state"; "/resources";
   "/tenant-shared"; "/tenants"].

Definition RAW_HOST_PREFIXES : list string :=
  ["/Users/"; "/home/"; "/root/"; "/etc/"; "/var/"; "/private/"; "/Volumes/";
   "/Library/"; "/usr/"; "/opt/"; "/tmp/"; "/proc/"; "/sys/"].

Definition REDACTED_PATH_VALUE : string := "<redacted path>".

Inductive PathKind : Type := PathVirtual | PathScoped | PathMountAlias.

#[export] Instance PathKind_eq_dec : EqDecision PathKind.
Proof. solve_decision. Defined.

(** ** Normalisation *)

Definition invalid_path_error_value (raw : string) (kind : PathKind) : string :=
  match kind with
  | PathScoped => REDACTED_PATH_VALUE
  | PathVirtual | PathMountAlias => raw
  end.

(** The loop over [raw.split('/')]. *)
Fixpoint collect_parts (invalid_value : string) (parts : list string) :
    result (list string) HostApiError :=
  match parts with
  | [] => Ok []
  | part :: rest =>
      if bool_decide (part = "") || bool_decide (part = ".") then
        collect_parts invalid_value rest
      else if bool_decide (part = "..") then
        Err (InvalidPath invalid_value "`..` segments are not allowed")
      else let? ps := collect_parts invalid_value rest in Ok (part :: ps)
  end.

Definition normalize_absolute_path (raw : string) (kind : PathKind) :
    result string HostApiError :=
  let invalid_value := invalid_path_error_value raw kind in
  if bool_decide (raw = "") then
    Err (InvalidPath invalid_value "path must not be empty")
  else if contains_char "000"%char raw || has_control raw then
    Err (InvalidPath invalid_value "NUL/control characters are not allowed")
  else if contains_char backslash raw then
    Err (InvalidPath invalid_value "backslashes are not allowed")
  else if negb (starts_with "/" raw) then
    Err (InvalidPath invalid_value "path must be absolute")
  else
    let? parts := collect_parts invalid_value (split_char slash raw) in
    if bool_decide (parts = []) then
      Err (InvalidPath invalid_value "root path is not valid here")
    else
      let normalized := "/" +:+ join_char slash parts in
      if bool_decide (kind = PathMountAlias) && ends_with_char slash normalized then
        Err (InvalidPath normalized "mount alias must not end with slash")
      else Ok normalized.

Definition looks_like_url (value : string) : bool := contains_str "://" value.

Definition looks_like_windows_path (value : string) : bool :=
  match value with
  | String.String _ (String.String b1 (String.String b2 _)) =>
      bool_decide (b1 = ":"%char)
      && (bool_decide (b2 = backslash) || bool_decide (b2 = slash))
  | _ => false
  end.

Definition path_matches_alias (alias path : string) : bool :=
  bool_decide (path = alias) || starts_with (alias +:+ "/") path.

(** ** Constructors *)

Definition under_root (path root : string) : bool :=
  bool_decide (path = root) || starts_with (root +:+ "/") path.

Definition VirtualPath_new (value : string) : result VirtualPath HostApiError :=
  let? normalized := normalize_absolute_path value PathVirtual in
  if negb (existsb (under_root normalized) VIRTUAL_ROOTS) then
    Err (InvalidPath normalized "virtual path must begin with a known root")
  else Ok (mk_VirtualPath normalized).

(** [match_indices('/').skip(1)]: the text before every slash but the first. *)
Fixpoint before_slashes (acc s : string) : list string :=
  match s with
  | EmptyString => []
  | String.String c s' =>
      let acc' := acc +:+ String.String c EmptyString in
      if decide (c = slash) then acc :: before_slashes acc' s'
      else before_slashes acc' s'
  end.

Definition VirtualPath_prefixes (self : VirtualPath) : list string :=
  filter (fun prefix =>
      existsb (fun root =>
          bool_decide (prefix = root)
          || match strip_prefix root prefix with
             | Some tail => starts_with "/" tail
             | None => false
             end) VIRTUAL_ROOTS = true)
    (drop 1 (before_slashes "" (vp_str self)) ++ [vp_str self]).

Definition VirtualPath_join_tail (self : VirtualPath) (tail : string) :
    result VirtualPath HostApiError :=
  if bool_decide (tail = "") then Ok self
  else VirtualPath_new (trim_end_char slash (vp_str self) +:+ "/" +:+ tail).

Definition ScopedPath_new_with_allowed_raw_host_aliases
    (raw : string) (raw_host_aliases : list string) : result ScopedPath HostApiError :=
  if looks_like_url raw then
    Err (InvalidPath REDACTED_PATH_VALUE "URLs are not scoped paths")
  else if looks_like_windows_path raw then
    Err (InvalidPath REDACTED_PATH_VALUE "Windows host paths are not scoped paths")
  else if existsb (fun prefix => starts_with prefix raw) RAW_HOST_PREFIXES
          && negb (existsb (fun alias => path_matches_alias alias raw) raw_host_aliases) then
    Err (InvalidPath REDACTED_PATH_VALUE "raw host paths are not scoped paths")
  else
    let? normalized := normalize_absolute_path raw PathScoped in
    Ok (mk_ScopedPath normalized).

Definition ScopedPath_new (value : string) : result ScopedPath HostApiError :=
  ScopedPath_new_with_allowed_raw_host_aliases value [].

Definition MountAlias_new (value : string) : result MountAlias HostApiError :=
  let? normalized := normalize_absolute_path value PathMountAlias in
  Ok (mk_MountAlias normalized).

(** ** Mounts ([mount.rs]) *)

Record MountPermissions : Type := mk_MountPermissions {
  perm_read : bool; perm_write : bool; perm_delete : bool;
  perm_list : bool; perm_execute : bool }.

Definition MountPermissions_none := mk_MountPermissions false false false false false.
Definition MountPermissions_read_only := mk_MountPermissions true false false true false.
Definition MountPermissions_read_write := mk_MountPermissions true true false true false.
Definition MountPermissions_read_write_list_delete :=
  mk_MountPermissions true true true true false.

Definition MountPermissions_is_subset_of (self parent : MountPermissions) : bool :=
  (negb (perm_read self) || perm_read parent)
  && (negb (perm_write self) || perm_write parent)
  && (negb (perm_delete self) || perm_delete parent)
  && (negb (perm_list self) || perm_list parent)
  && (negb (perm_execute self) || perm_execute parent).

Record MountGrant : Type := mk_MountGrant {
  mg_alias : MountAlias; mg_target : VirtualPath; mg_permissions : MountPermissions }.

Record MountView : Type := mk_MountView { mounts : list MountGrant }.

#[export] Instance MountPermissions_eq_dec : EqDecision MountPermissions.
Proof. solve_decision. Defined.
#[export] Instance MountGrant_eq_dec : EqDecision MountGrant.
Proof. solve_decision. Defined.
#[export] Instance MountView_eq_dec : EqDecision MountView.
Proof. solve_decision. Defined.

Definition mount_alias_str (m : MountGrant) : string := alias_str (mg_alias m).

(** The [HashSet] loop of [MountView::validate]; [seen] are the aliases so far. *)
Fixpoint validate_mounts (seen : list string) (ms : list MountGrant) :
    result unit HostApiError :=
  match ms with
  | [] => Ok tt
  | m :: rest =>
      if bool_decide (mount_alias_str m ∈ seen) then
        Err (InvalidMount (mount_alias_str m) "duplicate mount alias")
      else validate_mounts (mount_alias_str m :: seen) rest
  end.

Definition MountView_validate (self : MountView) : result unit HostApiError :=
  validate_mounts [] (mounts self).

Definition MountView_new (ms : list MountGrant) : result MountView HostApiError :=
  let view := mk_MountView ms in
  let? _ := MountView_validate view in Ok view.

(** [Iterator::max_by_key]: the last element among those of maximal key. *)
Fixpoint max_by_key {A} (key : A -> nat) (l : list A) : option A :=
  match l with
  | [] => None
  | x :: l' =>
      match max_by_key key l' with
      | None => Some x
      | Some y => if (key x <=? key y)%nat then Some y else Some x
      end
  end.

Definition MountView_resolve_with_grant (self : MountView) (path : ScopedPath) :
    result (VirtualPath * MountGrant) HostApiError :=
  let raw := sp_str path in
  let? mount := ok_or
    (max_by_key (fun m => String.length (mount_alias_str m))
       (filter (fun m => path_matches_alias (mount_alias_str m) raw = true) (mounts self)))
    (InvalidMount raw "no mount alias matches scoped path") in
  let tail := trim_start_char slash (default "" (strip_prefix (mount_alias_str mount) raw)) in
  let? target := VirtualPath_join_tail (mg_target mount) tail in
  Ok (target, mount).

Definition MountView_resolve (self : MountView) (path : ScopedPath) :
    result VirtualPath HostApiError :=
  result_map fst (MountView_resolve_with_grant self path).

Definition MountView_scoped_path (self : MountView) (value : string) :
    result ScopedPath HostApiError :=
  ScopedPath_new_with_allowed_raw_host_aliases value (map mount_alias_str (mounts self)).

Definition MountView_is_subset_of (self parent : MountView) : bool :=
  forallb (fun child =>
    existsb (fun parent_mount =>
      bool_decide (mg_alias child = mg_alias parent_mount)
      && bool_decide (vp_str (mg_target child) = vp_str (mg_target parent_mount))
      && MountPermissions_is_subset_of (mg_permissions child) (mg_permissions parent_mount))
    (mounts parent)) (mounts self).


(** ** Canonical paths

    A canonical path is [/] followed by at least one segment, none of them
    empty, [.], [..] or holding a separator or control character. *)

Record good_part (p : string) : Prop := {
  part_nonempty : p <> "";
  part_not_dot : p <> ".";
  part_not_dotdot : p <> "..";
  part_no_backslash : contains_char backslash p = false;
  part_no_nul : contains_char "000"%char p = false;
  part_no_control : has_control p = false;
}.

Definition canonical (s : string) : Prop :=
  exists parts, split_char slash s = "" :: parts /\ parts <> [] /\ Forall good_part parts.

(** The values the constructors can build. *)
Definition wf_VirtualPath (v : VirtualPath) : Prop := exists raw, VirtualPath_new raw = Ok v.
Definition wf_ScopedPath (p : ScopedPath) : Prop :=
  exists raw aliases, ScopedPath_new_with_allowed_raw_host_aliases raw aliases = Ok p.
Definition wf_MountAlias (a : MountAlias) : Prop := exists raw, MountAlias_new raw = Ok a.
Definition wf_MountView (view : MountView) : Prop :=
  Forall (fun m => wf_MountAlias (mg_alias m) /\ wf_VirtualPath (mg_target m)) (mounts view)
  /\ MountView_validate view = Ok tt.

Definition kept_part (p : string) : Prop := p <> "" /\ p <> ".".

#[export] Instance kept_part_dec p : Decision (kept_part p).
Proof. unfold kept_part. apply _. Defined.

Lemma collect_parts_eq v ps :
  collect_parts v ps =
    if decide (".." ∈ ps) then Err (InvalidPath v "`..` segments are not allowed")
    else Ok (filter kept_part ps).
Proof.
  induction ps as [|p ps IH]; simpl; [done|]. rewrite filter_cons, IH. clear IH.
  destruct (decide (kept_part p)) as [[H1 H2]|Hk].
  - rewrite !(bool_decide_eq_false_2 (p = _)) by done. simpl.
    case_bool_decide; repeat case_decide; try done; exfalso; set_solver.
  - assert (p = "" \/ p = ".") as Hp.
    { destruct (decide (p = "")), (decide (p = ".")); unfold kept_part in Hk; tauto. }
    destruct Hp as [-> | ->]; simpl; repeat case_decide; try done; exfalso; set_solver.
Qed.

Lemma filter_kept_all ps : Forall good_part ps -> filter kept_part ps = ps.
Proof.
  induction 1 as [|p ps Hp _ IH]; [done|].
  rewrite filter_cons, IH. rewrite decide_True; [done|]. destruct Hp. by split.
Qed.

Lemma good_not_dotdot ps : Forall good_part ps -> ".." ∉ ps.
Proof. intros HF Hin. rewrite Forall_forall in HF. by destruct (HF _ Hin). Qed.

Lemma canonical_join s parts :
  split_char slash s = "" :: parts -> parts <> [] -> s = "/" +:+ join_char slash parts.
Proof.
  intros Hs Hne. rewrite <- (join_split slash s), Hs. by rewrite join_char_cons.
Qed.

(** A property of every segment, for the characters a separator is not. *)
Lemma canonical_clean s :
  canonical s -> contains_char backslash s = false
    /\ contains_char "000"%char s = false /\ has_control s = false /\ starts_with "/" s = true.
Proof.
  intros (parts & Hs & Hne & HF).
  rewrite <- (join_split slash s), Hs, has_control_join, !contains_char_join by done.
  rewrite !existsb_false_Forall. repeat split;
    try (constructor; [done|]; eapply Forall_impl; [exact HF|]; by intros ? []).
  rewrite join_char_cons by done. simpl. by destruct (join_char _ _).
Qed.

Lemma ends_with_char_app c s t : t <> "" -> ends_with_char c (s +:+ t) = ends_with_char c t.
Proof.
  intros Ht. induction s as [|d s IH]; [done|]. rewrite append_cons. simpl.
  destruct (s +:+ t) eqn:E; [|done]. destruct s; [by destruct t|done].
Qed.

Lemma ends_with_char_none c s : contains_char c s = false -> ends_with_char c s = false.
Proof.
  induction s as [|d s IH]; [done|]. simpl. intros [? ?]%orb_false_elim.
  destruct s; auto.
Qed.

Lemma canonical_not_slash_end s : canonical s -> ends_with_char slash s = false.
Proof.
  intros (parts & Hs & Hne & HF).
  pose proof (split_char_parts slash s) as HP. rewrite Hs in HP.
  rewrite (canonical_join s parts) by done. clear Hs.
  apply Forall_cons in HP as [_ HP].
  rewrite ends_with_char_app.
  - induction parts as [|p parts IH]; [done|].
    apply Forall_cons in HP as [Hp HP]. apply Forall_cons in HF as [Hg HF].
    destruct parts as [|q parts]; [by apply ends_with_char_none|].
    rewrite join_char_cons by done.
    replace (p +:+ String.String slash (join_char slash (q :: parts)))
      with ((p +:+ "/") +:+ join_char slash (q :: parts)) by (by rewrite append_assoc).
    rewrite ends_with_char_app; [by apply IH|].
    apply Forall_cons in HF as [Hq _]. intros E. destruct Hq as [Hq _ _ _ _ _].
    destruct parts; [done|]. rewrite join_char_cons in E by done. by destruct q.
  - destruct parts as [|p parts]; [done|]. apply Forall_cons in HF as [[Hp _ _ _ _ _] _].
    intros E. destruct parts; [done|]. rewrite join_char_cons in E by done. by destruct p.
Qed.

(** Normalisation produces canonical paths and fixes them. *)
Lemma normalize_canonical raw kind n :
  normalize_absolute_path raw kind = Ok n -> canonical n.
Proof.
  unfold normalize_absolute_path. rewrite collect_parts_eq.
  case_bool_decide; [done|].
  destruct (contains_char "000"%char raw) eqn:H0; [done|].
  destruct (has_control raw) eqn:Hc; [done|].
  destruct (contains_char backslash raw) eqn:Hb; [done|]. simpl.
  destruct (starts_with "/" raw); [|done]. simpl.
  case_decide as Hdd; [done|]. case_bool_decide as Hne; [done|].
  intros Hn.
  assert (n = "/" +:+ join_char slash (filter kept_part (split_char slash raw))) as ->.
  { destruct (_ && _) in Hn; [done|]. by injection Hn. }
  exists (filter kept_part (split_char slash raw)). split_and!; [|done|].
  - change ("/" +:+ ?x) with (EmptyString +:+ String.String slash x).
    rewrite split_char_app, split_join; [done|done|].
    apply Forall_forall. intros p [_ Hp]%list_elem_of_filter.
    pose proof (split_char_parts slash raw) as HP. rewrite Forall_forall in HP. auto.
  - apply Forall_forall. intros p [Hk Hp]%list_elem_of_filter.
    rewrite has_control_split in Hc. 
    rewrite (contains_char_split _ slash) in H0 by done.
    rewrite (contains_char_split _ slash) in Hb by done.
    rewrite existsb_false_Forall, Forall_forall in H0, Hb, Hc.
    destruct Hk. constructor; auto. by intros ->.
Qed.

Lemma normalize_fixpoint s kind : canonical s -> normalize_absolute_path s kind = Ok s.
Proof.
  intros Hs. pose proof (canonical_clean s Hs) as (Hb & H0 & Hc & Hsw).
  pose proof (canonical_not_slash_end s Hs) as He.
  destruct Hs as (parts & Hs & Hne & HF).
  pose proof (canonical_join s parts Hs Hne) as Hj.
  unfold normalize_absolute_path. rewrite bool_decide_eq_false_2 by (by rewrite Hj).
  rewrite H0, Hc, Hb, Hsw, collect_parts_eq, Hs. cbn [orb negb].
  rewrite decide_False; [|apply not_elem_of_cons; split; [done|]; by apply good_not_dotdot].
  rewrite filter_cons_False by (unfold kept_part; tauto).
  rewrite filter_kept_all by done. rewrite bool_decide_eq_false_2 by done.
  rewrite <- Hj, He, andb_false_r. done.
Qed.

Lemma wf_VirtualPath_iff v :
  wf_VirtualPath v <->
    canonical (vp_str v) /\ existsb (under_root (vp_str v)) VIRTUAL_ROOTS = true.
Proof.
  unfold wf_VirtualPath, VirtualPath_new. split.
  - intros [raw Hv]. destruct (normalize_absolute_path raw PathVirtual) as [n|] eqn:Hn; [|done].
    destruct (existsb _ _) eqn:He; [|done]. injection Hv as <-.
    split; [by eapply normalize_canonical|done].
  - intros [Hc He]. exists (vp_str v). rewrite normalize_fixpoint, He by done. by destruct v.
Qed.

Lemma VirtualPath_new_canonical s :
  canonical s -> existsb (under_root s) VIRTUAL_ROOTS = true ->
  VirtualPath_new s = Ok (mk_VirtualPath s).
Proof. intros Hc He. unfold VirtualPath_new. by rewrite normalize_fixpoint, He. Qed.

Lemma wf_ScopedPath_canonical p : wf_ScopedPath p -> canonical (sp_str p).
Proof.
  intros (raw & aliases & H). unfold ScopedPath_new_with_allowed_raw_host_aliases in H.
  repeat (destruct (_ : bool) in H; [done|]).
  destruct (normalize_absolute_path raw PathScoped) eqn:Hn; [|done].
  injection H as <-. by eapply normalize_canonical.
Qed.

Lemma wf_MountAlias_canonical a : wf_MountAlias a -> canonical (alias_str a).
Proof.
  intros (raw & H). unfold MountAlias_new in H.
  destruct (normalize_absolute_path raw PathMountAlias) eqn:Hn; [|done].
  injection H as <-. by eapply normalize_canonical.
Qed.

(** ** Joining *)

Lemma canonical_app a t :
  canonical a ->
  canonical (a +:+ String.String slash t) <-> Forall good_part (split_char slash t).
Proof.
  intros (parts & Ha & Hne & HF). unfold canonical. rewrite split_char_app, Ha. split.
  - intros (parts' & [= <-] & _ & [_ Ht]%Forall_app). done.
  - intros Ht. exists (parts ++ split_char slash t). split_and!; [done| |].
    + by destruct parts.
    + by apply Forall_app.
Qed.

Lemma trim_end_char_id c s : ends_with_char c s = false -> trim_end_char c s = s.
Proof.
  induction s as [|d s IH]; [done|]. intros He. destruct s as [|d' s].
  - simpl in He. apply bool_decide_eq_false in He. simpl. by rewrite decide_False.
  - assert (trim_end_char c (String.String d' s) = String.String d' s) as E by (by apply IH).
    change (trim_end_char c (String.String d (String.String d' s))) with
      (match trim_end_char c (String.String d' s) with
       | EmptyString => if decide (c = d) then EmptyString else String.String d EmptyString
       | t => String.String d t end).
    by rewrite E.
Qed.

Lemma trim_start_char_good t :
  Forall good_part (split_char slash t) -> trim_start_char slash t = t.
Proof.
  destruct t as [|c t]; [done|]. simpl. case_decide as Hc; [|by rewrite decide_False].
  intros [[Hp] _]%Forall_cons. done.
Qed.

Lemma under_root_app root s t :
  under_root s root = true -> under_root (s +:+ String.String slash t) root = true.
Proof.
  unfold under_root, starts_with. rewrite !orb_true_iff, !bool_decide_eq_true, !prefix_spec.
  intros [-> | [u ->]]; right.
  - exists t. by rewrite append_assoc.
  - exists (u +:+ String.String slash t). by rewrite append_assoc.
Qed.

Lemma wf_VirtualPath_app v t :
  wf_VirtualPath v -> Forall good_part (split_char slash t) ->
  wf_VirtualPath (mk_VirtualPath (vp_str v +:+ String.String slash t)).
Proof.
  rewrite !wf_VirtualPath_iff. intros [Hc He] Ht. split; [by apply canonical_app|].
  apply existsb_exists. apply existsb_exists in He as (r & Hr & He).
  exists r. split; [done|]. by apply under_root_app.
Qed.

Lemma join_tail_ok v t :
  wf_VirtualPath v -> Forall good_part (split_char slash t) -> t <> "" ->
  VirtualPath_join_tail v t = Ok (mk_VirtualPath (vp_str v +:+ String.String slash t)).
Proof.
  intros Hv Ht Hne. unfold VirtualPath_join_tail.
  pose proof (proj1 (wf_VirtualPath_iff _) Hv) as [Hc _].
  rewrite bool_decide_eq_false_2, trim_end_char_id by (done || by apply canonical_not_slash_end).
  change ("/" +:+ t) with (String.String slash t).
  pose proof (proj1 (wf_VirtualPath_iff _) (wf_VirtualPath_app _ _ Hv Ht)) as [? ?].
  by apply VirtualPath_new_canonical.
Qed.

Lemma path_matches_alias_spec alias path :
  path_matches_alias alias path = true <->
    path = alias \/ exists t, path = alias +:+ String.String slash t.
Proof.
  unfold path_matches_alias, starts_with. rewrite orb_true_iff, bool_decide_eq_true, prefix_spec.
  split; (intros [?|[t Ht]]; [by left|right; exists t; by rewrite Ht, append_assoc || rewrite Ht]).
  all: try (rewrite append_assoc; done).
Qed.

(** ** Mount selection *)

Lemma max_by_key_none {A} (key : A -> nat) l : max_by_key key l = None <-> l = [].
Proof.
  destruct l as [|x l]; [done|]. simpl. destruct (max_by_key key l); [|done].
  by case_match.
Qed.

Lemma max_by_key_some {A} (key : A -> nat) l x :
  max_by_key key l = Some x -> x ∈ l /\ forall y, y ∈ l -> (key y <= key x)%nat.
Proof.
  revert x. induction l as [|a l IH]; intros x H; simpl in H; [done|].
  destruct (max_by_key key l) as [b|] eqn:E.
  - destruct (IH b eq_refl) as [Hb Hm]. case_match eqn:Hle; simplify_eq.
    + apply Nat.leb_le in Hle. split; [by right|]. intros y [->|Hy]%elem_of_cons; auto.
    + apply Nat.leb_gt in Hle. split; [by left|]. intros y [->|Hy]%elem_of_cons; [done|].
      specialize (Hm y Hy). lia.
  - simplify_eq. apply max_by_key_none in E as ->. split; [by left|].
    intros y [->|Hy]%elem_of_cons; [done|]. by apply elem_of_nil in Hy.
Qed.

Definition selects (view : MountView) (raw : string) (m : MountGrant) : Prop :=
  m ∈ mounts view
  /\ path_matches_alias (mount_alias_str m) raw = true
  /\ forall m', m' ∈ mounts view -> path_matches_alias (mount_alias_str m') raw = true ->
       (String.length (mount_alias_str m') <= String.length (mount_alias_str m))%nat.

Lemma select_some view raw m :
  max_by_key (fun m => String.length (mount_alias_str m))
    (filter (fun m => path_matches_alias (mount_alias_str m) raw = true) (mounts view)) = Some m ->
  selects view raw m.
Proof.
  intros [Hin Hmax]%max_by_key_some. apply list_elem_of_filter in Hin as [Hm Hin].
  split_and!; [done..|]. intros m' Hin' Hm'. apply Hmax. by apply list_elem_of_filter.
Qed.

Lemma wf_view_mount view m :
  wf_MountView view -> m ∈ mounts view ->
  canonical (mount_alias_str m) /\ wf_VirtualPath (mg_target m).
Proof.
  intros [HF _] Hin. rewrite Forall_forall in HF. destruct (HF m Hin) as [Ha Ht].
  split; [by apply wf_MountAlias_canonical|done].
Qed.

(** What the selected mount makes of a path. *)
Definition rebased (m : MountGrant) (p : ScopedPath) (v : VirtualPath) : Prop :=
  exists rest, (rest = "" \/ starts_with "/" rest = true)
    /\ sp_str p = mount_alias_str m +:+ rest
    /\ vp_str v = vp_str (mg_target m) +:+ rest.

Lemma rebase_selected view p m :
  wf_MountView view -> wf_ScopedPath p -> selects view (sp_str p) m ->
  exists v,
    VirtualPath_join_tail (mg_target m)
      (trim_start_char slash (default "" (strip_prefix (mount_alias_str m) (sp_str p)))) = Ok v
    /\ rebased m p v /\ wf_VirtualPath v.
Proof.
  intros Hwf Hp%wf_ScopedPath_canonical (Hin & Hm & _).
  destruct (wf_view_mount _ _ Hwf Hin) as [Ha Ht]. unfold rebased.
  apply path_matches_alias_spec in Hm as [Heq | [t Heq]].
  - assert (strip_prefix (mount_alias_str m) (sp_str p) = Some "") as ->.
    { apply strip_prefix_spec. by rewrite append_nil_r. }
    exists (mg_target m). split; [done|]. split; [|done].
    exists "". rewrite !append_nil_r. split_and!; [by left|done..].
  - assert (strip_prefix (mount_alias_str m) (sp_str p) = Some (String.String slash t)) as ->.
    { by apply strip_prefix_spec. }
    rewrite Heq in Hp. apply canonical_app in Hp as Hg; [|done].
    change (trim_start_char slash _) with (trim_start_char slash t).
    rewrite trim_start_char_good by done.
    assert (t <> "") as Hne. { intros ->. by apply Forall_cons in Hg as [[Hg] _]. }
    rewrite join_tail_ok by done. eexists. split; [done|]. split.
    + exists (String.String slash t). split_and!; [right; by destruct t|done..].
    + by apply wf_VirtualPath_app.
Qed.

Lemma resolve_with_grant_ok view p v m :
  wf_MountView view -> wf_ScopedPath p ->
  MountView_resolve_with_grant view p = Ok (v, m) ->
  selects view (sp_str p) m /\ rebased m p v /\ wf_VirtualPath v.
Proof.
  intros Hwf Hp. unfold MountView_resolve_with_grant.
  destruct (max_by_key _ _) as [m'|] eqn:Hs; simpl; [|done].
  apply select_some in Hs. destruct (rebase_selected _ _ _ Hwf Hp Hs) as (v' & -> & ? & ?).
  by intros [= -> ->].
Qed.

Lemma resolve_with_grant_err view p e :
  wf_MountView view -> wf_ScopedPath p -> MountView_resolve_with_grant view p = Err e ->
  e = InvalidMount (sp_str p) "no mount alias matches scoped path"
  /\ Forall (fun m => path_matches_alias (mount_alias_str m) (sp_str p) = false) (mounts view).
Proof.
  intros Hwf Hp H. unfold MountView_resolve_with_grant in H.
  destruct (max_by_key _ _) as [m|] eqn:Hs; simpl in H.
  - apply select_some in Hs.
    destruct (rebase_selected _ _ _ Hwf Hp Hs) as (v & Hv & _). by rewrite Hv in H.
  - injection H as <-. split; [done|].
    apply max_by_key_none in Hs. apply Forall_forall. intros m Hm.
    apply not_true_is_false. intros Hmt.
    apply (not_elem_of_nil m). rewrite <- Hs. by apply list_elem_of_filter.
Qed.

Lemma validate_mounts_NoDup seen ms :
  validate_mounts seen ms = Ok tt <->
    NoDup (map mount_alias_str ms) /\ Forall (fun m => mount_alias_str m ∉ seen) ms.
Proof.
  revert seen. induction ms as [|m ms IH]; intros seen; simpl.
  - split; [intros _; split; constructor|done].
  - rewrite NoDup_cons, Forall_cons. case_bool_decide as Hin; [naive_solver|].
    rewrite IH, list_elem_of_fmap, Forall_forall, Forall_forall.
    split.
    + intros [Hn HF]. split_and!; [|done..|].
      * intros (y & Hy & Hin'). specialize (HF y Hin'). set_solver.
      * intros x Hx. specialize (HF x Hx). set_solver.
    + intros [[Hn Hnd] [_ HF]]. split; [done|]. intros x Hx.
      rewrite not_elem_of_cons. split; [|by apply HF]. intros E. apply Hn. by exists x.
Qed.

Lemma wf_view_alias_inj view m m' :
  wf_MountView view -> m ∈ mounts view -> m' ∈ mounts view ->
  mount_alias_str m = mount_alias_str m' -> m = m'.
Proof.
  intros [_ [HN _]%validate_mounts_NoDup] Hm Hm' E.
  apply list_elem_of_lookup in Hm as [i Hi]. apply list_elem_of_lookup in Hm' as [j Hj].
  assert (i = j) as ->; [|congruence].
  eapply (NoDup_lookup _ i j (mount_alias_str m) HN); rewrite list_lookup_fmap.
  - by rewrite Hi. - rewrite Hj. simpl. by rewrite E.
Qed.

(** Two matching aliases of one length are equal, so the selection is unique. *)
Lemma prefix_same_length a b s t :
  a +:+ s = b +:+ t -> String.length a = String.length b -> a = b.
Proof.
  revert b. induction a as [|c a IH]; intros [|d b] E L; simpl in L; try done.
  rewrite !append_cons in E. injection E as -> E. f_equal. apply IH; [done|lia].
Qed.

Lemma matches_prefix alias raw :
  path_matches_alias alias raw = true -> exists t, raw = alias +:+ t.
Proof.
  intros [->|[t ->]]%path_matches_alias_spec; [exists ""; by rewrite append_nil_r|by eexists].
Qed.

Lemma matches_same_length a b raw :
  path_matches_alias a raw = true -> path_matches_alias b raw = true ->
  String.length a = String.length b -> a = b.
Proof.
  intros [t Ht]%matches_prefix [t' Ht']%matches_prefix L.
  by apply (prefix_same_length a b t t'); [rewrite <- Ht|].
Qed.

Lemma selects_unique view raw m m' :
  wf_MountView view -> selects view raw m -> selects view raw m' -> m = m'.
Proof.
  intros Hwf (Hin & Hm & Hmax) (Hin' & Hm' & Hmax').
  eapply wf_view_alias_inj; [done..|]. apply (matches_same_length _ _ raw); [done..|].
  specialize (Hmax m' Hin' Hm'). specialize (Hmax' m Hin Hm). lia.
Qed.

Lemma mount_alias_str_inj m m' :
  mount_alias_str m = mount_alias_str m' <-> mg_alias m = mg_alias m'.
Proof.
  unfold mount_alias_str. split; [|by intros ->]. destruct (mg_alias m), (mg_alias m').
  simpl. congruence.
Qed.

(** A mount the child selects is no longer than the one its parent selects, and
    equal lengths mean equal aliases. *)
Lemma parent_selection_longer child parent raw m pm qm :
  wf_MountView child -> selects child raw m -> selects parent raw qm ->
  pm ∈ mounts parent -> mg_alias pm = mg_alias m -> mg_alias qm <> mg_alias m ->
  (String.length (mount_alias_str m) < String.length (mount_alias_str qm))%nat
  /\ Forall (fun c => mg_alias c <> mg_alias qm) (mounts child).
Proof.
  intros Hc (Hin & Hm & Hmax) (Hqin & Hqm & Hqmax) Hpm Hal%mount_alias_str_inj Hne.
  assert (forall c, mount_alias_str c = mount_alias_str m -> mount_alias_str c <> mount_alias_str qm) as Hd.
  { intros c E E'. apply Hne. apply mount_alias_str_inj. congruence. }
  specialize (Hqmax pm Hpm). rewrite Hal in Hqmax. specialize (Hqmax Hm). split.
  - destruct (decide (String.length (mount_alias_str m) = String.length (mount_alias_str qm)))
      as [E|]; [|lia].
    exfalso. by apply (Hd m eq_refl), (matches_same_length _ _ raw).
  - apply Forall_forall. intros c Hcin E%mount_alias_str_inj.
    specialize (Hmax c Hcin). rewrite E in Hmax. specialize (Hmax Hqm).
    apply (Hd m eq_refl). apply (matches_same_length _ _ raw); [done..|lia].
Qed.

Lemma child_mount_in_parent child parent m :
  MountView_is_subset_of child parent = true -> m ∈ mounts child ->
  exists pm, pm ∈ mounts parent /\ mg_alias pm = mg_alias m
    /\ vp_str (mg_target pm) = vp_str (mg_target m)
    /\ MountPermissions_is_subset_of (mg_permissions m) (mg_permissions pm) = true.
Proof.
  unfold MountView_is_subset_of. rewrite forallb_forall. intros H Hin.
  specialize (H m). rewrite <- list_elem_of_In in H. specialize (H Hin).
  apply existsb_exists in H as (pm & Hpm & H). apply list_elem_of_In in Hpm.
  rewrite !andb_true_iff, !bool_decide_eq_true in H. destruct H as [[-> ->] Hs].
  by exists pm.
Qed.

(** ** Properties *)

(** A mount view resolves a scoped path to exactly the target of the unique
    longest matching mount followed by the part of the path below the alias, a
    valid virtual path; with no matching alias it fails closed.  So a resolved
    path can never leave the target of the mount it selects, and resolution of a
    matching path never fails. *)
Theorem resolve_with_grant_exact view p :
  wf_MountView view -> wf_ScopedPath p ->
  match MountView_resolve_with_grant view p with
  | Ok (v, m) =>
      selects view (sp_str p) m /\ (forall m', selects view (sp_str p) m' -> m' = m)
      /\ rebased m p v /\ wf_VirtualPath v
  | Err e =>
      e = InvalidMount (sp_str p) "no mount alias matches scoped path"
      /\ Forall (fun m => path_matches_alias (mount_alias_str m) (sp_str p) = false)
           (mounts view)
  end.
Proof.
  intros Hwf Hp. destruct (MountView_resolve_with_grant view p) as [[v m]|e] eqn:H.
  - destruct (resolve_with_grant_ok _ _ _ _ Hwf Hp H) as (Hs & Hr & Hv).
    split_and!; [done| |done..]. intros m' Hm'. by eapply selects_unique.
  - by apply resolve_with_grant_err in H.
Qed.

Definition example_mount (alias target : string) (perm : MountPermissions) : MountGrant :=
  mk_MountGrant (mk_MountAlias alias) (mk_VirtualPath target) perm.

Definition example_view : MountView := mk_MountView
  [ example_mount "/workspace" "/projects/p1" MountPermissions_read_write;
    example_mount "/workspace/lib" "/system/skills" MountPermissions_read_only ].

Lemma example_view_wf : wf_MountView example_view.
Proof.
  split; [|by vm_compute]. repeat constructor; eexists.
  - by instantiate (1 := "/workspace"). - by instantiate (1 := "/projects/p1").
  - by instantiate (1 := "/workspace/lib"). - by instantiate (1 := "/system/skills").
Qed.

Lemma resolve_with_grant_exact_witness :
  exists m, MountView_resolve_with_grant example_view (mk_ScopedPath "/workspace/lib/a/b")
      = Ok (mk_VirtualPath "/system/skills/a/b", m)
    /\ rebased m (mk_ScopedPath "/workspace/lib/a/b") (mk_VirtualPath "/system/skills/a/b").
Proof.
  pose proof (resolve_with_grant_exact example_view (mk_ScopedPath "/workspace/lib/a/b")) as H.
  specialize (H example_view_wf).
  specialize (H (ex_intro _ "/workspace/lib/a/b" (ex_intro _ [] eq_refl))).
  exists (example_mount "/workspace/lib" "/system/skills" MountPermissions_read_only).
  split; [by vm_compute|]. exact (proj1 (proj2 (proj2 H))).
Defined.

(** The text of a virtual path or mount alias is a fixed point of its
    constructor, so serialising one and deserialising it again gives the same
    value. *)
Theorem path_text_round_trip :
  (forall raw v, VirtualPath_new raw = Ok v -> VirtualPath_new (vp_str v) = Ok v)
  /\ (forall raw a, MountAlias_new raw = Ok a -> MountAlias_new (alias_str a) = Ok a).
Proof.
  split; intros raw x Hx.
  - assert (wf_VirtualPath x) as [Hc He]%wf_VirtualPath_iff by (by exists raw).
    rewrite VirtualPath_new_canonical by done. by destruct x.
  - assert (canonical (alias_str x)) as Hc by (apply wf_MountAlias_canonical; by exists raw).
    unfold MountAlias_new. rewrite normalize_fixpoint by done. by destruct x.
Qed.

Lemma path_text_round_trip_witness :
  VirtualPath_new "//projects/./p1/" = Ok (mk_VirtualPath "/projects/p1")
  /\ VirtualPath_new "/projects/p1" = Ok (mk_VirtualPath "/projects/p1").
Proof.
  split; [by vm_compute|].
  exact (proj1 path_text_round_trip "//projects/./p1/" (mk_VirtualPath "/projects/p1")
           ltac:(by vm_compute)).
Defined.

Lemma canonical_starts_slash s : canonical s -> exists t, s = String.String slash t.
Proof.
  intros (_ & _ & _ & H)%canonical_clean. apply prefix_spec in H as [t ->]. by exists t.
Qed.

Lemma normalize_extra_slash s kind :
  canonical s -> normalize_absolute_path ("/" +:+ s) kind = Ok s.
Proof.
  intros Hs. pose proof (canonical_clean s Hs) as (Hb & H0 & Hc & _).
  pose proof (canonical_not_slash_end s Hs) as He.
  destruct (canonical_starts_slash s Hs) as [t Ht].
  destruct Hs as (parts & Hs & Hne & HF).
  pose proof (canonical_join s parts Hs Hne) as Hj.
  unfold normalize_absolute_path. rewrite bool_decide_eq_false_2 by done.
  rewrite !contains_char_app, H0, Hb, orb_false_r.
  change ("/" +:+ s) with (EmptyString +:+ String.String slash s).
  rewrite has_control_slash, Hc, collect_parts_eq, split_char_app, Hs.
  change (negb (starts_with "/" _)) with (negb (String.prefix "" s)).
  replace (String.prefix "" s) with true by (by rewrite Ht).
  change (split_char slash "" ++ "" :: parts) with ("" :: "" :: parts).
  cbn [orb negb].
  rewrite decide_False; [|rewrite !not_elem_of_cons; split_and!; [done..|]; by apply good_not_dotdot].
  rewrite !filter_cons_False by (unfold kept_part; tauto).
  rewrite filter_kept_all by done. rewrite bool_decide_eq_false_2 by done.
  rewrite <- Hj, He, andb_false_r. done.
Qed.

(** The raw-host-path screen looks at the text before normalisation, so a
    doubled leading slash takes any canonical path, host paths included, past it:
    [//etc/passwd] is accepted as the scoped path [/etc/passwd], although the
    constructor rejects that path's own text. *)
Theorem scoped_path_screen_bypassed s :
  canonical s -> looks_like_url s = false ->
  ScopedPath_new ("/" +:+ s) = Ok (mk_ScopedPath s)
  /\ (existsb (fun prefix => starts_with prefix s) RAW_HOST_PREFIXES = true ->
      looks_like_windows_path s = false ->
      ScopedPath_new s =
        Err (InvalidPath REDACTED_PATH_VALUE "raw host paths are not scoped paths")).
Proof.
  intros Hs Hu. destruct (canonical_starts_slash s Hs) as [t Ht].
  unfold ScopedPath_new, ScopedPath_new_with_allowed_raw_host_aliases. split.
  - assert (looks_like_url ("/" +:+ s) = false) as ->
      by (unfold looks_like_url in *; simpl; by rewrite append_nil_l, Hu).
    replace (looks_like_windows_path ("/" +:+ s)) with false by (by rewrite Ht; destruct t).
    replace (existsb _ RAW_HOST_PREFIXES) with false by (by rewrite Ht).
    rewrite normalize_extra_slash by done. done.
  - intros -> ->. by rewrite Hu.
Qed.

Lemma scoped_path_screen_bypassed_witness :
  ScopedPath_new "//etc/passwd" = Ok (mk_ScopedPath "/etc/passwd")
  /\ is_err (ScopedPath_new "/etc/passwd") = true.
Proof.
  destruct (scoped_path_screen_bypassed "/etc/passwd") as [H1 H2].
  - exists ["etc"; "passwd"]. split; [done|]. split; [done|]. by repeat constructor.
  - by vm_compute.
  - split; [exact H1|]. by rewrite H2.
Defined.

(** Attenuation.  When a child view is a subset of its parent, every path the
    child resolves names a mount of the parent with the same alias, the same
    target and at least the child's permissions; and the parent resolves the path
    to the same virtual path, unless it has a strictly longer matching alias that
    the child was not given. *)
Theorem subset_view_attenuates child parent p v m :
  wf_MountView child -> wf_MountView parent -> wf_ScopedPath p ->
  MountView_is_subset_of child parent = true ->
  MountView_resolve_with_grant child p = Ok (v, m) ->
  exists v' pm,
    MountView_resolve_with_grant parent p = Ok (v', pm)
    /\ ((v' = v /\ mg_alias pm = mg_alias m
         /\ MountPermissions_is_subset_of (mg_permissions m) (mg_permissions pm) = true)
        \/ ((String.length (mount_alias_str m) < String.length (mount_alias_str pm))%nat
            /\ Forall (fun c => mg_alias c <> mg_alias pm) (mounts child))).
Proof.
  intros Hc Hpar Hp Hsub Hres.
  destruct (resolve_with_grant_ok _ _ _ _ Hc Hp Hres) as (Hsel & (rest & _ & Hs & Hv) & _).
  pose proof Hsel as (Hin & Hm & _).
  destruct (child_mount_in_parent _ _ _ Hsub Hin) as (pm & Hpm & Hal & Htg & Hperm).
  assert (mount_alias_str pm = mount_alias_str m) as Hals by (by apply mount_alias_str_inj).
  destruct (MountView_resolve_with_grant parent p) as [[v' qm]|e] eqn:Hr.
  2:{ apply resolve_with_grant_err in Hr as [_ HF]; [|done..]. rewrite Forall_forall in HF.
      specialize (HF pm Hpm). rewrite Hals, Hm in HF. done. }
  destruct (resolve_with_grant_ok _ _ _ _ Hpar Hp Hr) as (Hqsel & (rest' & _ & Hs' & Hv') & _).
  exists v', qm. split; [done|].
  destruct (decide (mg_alias qm = mg_alias m)) as [Ha|Ha].
  - left. assert (qm = pm) as ->.
    { eapply wf_view_alias_inj; [done|by apply Hqsel|done|]. apply mount_alias_str_inj. congruence. }
    split_and!; [|done..]. rewrite Hs, Hals in Hs'.
    apply append_inj_l in Hs' as ->. destruct v, v'; simpl in *. congruence.
  - right. by eapply (parent_selection_longer child parent).
Qed.

Definition example_child : MountView :=
  mk_MountView [ example_mount "/workspace" "/projects/p1" MountPermissions_read_only ].

Lemma subset_view_attenuates_witness :
  exists v' pm,
    MountView_resolve_with_grant example_view (mk_ScopedPath "/workspace/a") = Ok (v', pm)
    /\ ((v' = mk_VirtualPath "/projects/p1/a" /\ mg_alias pm = mk_MountAlias "/workspace"
         /\ MountPermissions_is_subset_of MountPermissions_read_only (mg_permissions pm) = true)
        \/ ((10 < String.length (mount_alias_str pm))%nat
            /\ Forall (fun c => mg_alias c <> mg_alias pm) (mounts example_child))).
Proof.
  apply (subset_view_attenuates example_child example_view (mk_ScopedPath "/workspace/a")
           (mk_VirtualPath "/projects/p1/a")
           (example_mount "/workspace" "/projects/p1" MountPermissions_read_only)).
  - split; [|by vm_compute]. repeat constructor; eexists.
    + by instantiate (1 := "/workspace").
    + by instantiate (1 := "/projects/p1").
  - apply example_view_wf.
  - by exists "/workspace/a", [].
  - by vm_compute.
  - by vm_compute.
Defined.
