(* ===== verification/HostTypes.v ===== *)
(** * Host vocabulary: scopes, resources, capabilities, actions, contexts

    [crates/brassclaw_host_api/src]: [resource.rs], [runtime.rs], [trust.rs],
    [capability.rs], [action.rs], [approval.rs] and [scope.rs].  The types that
    hold money are parametrised by the decimal type, the descriptor by the JSON
    type.  The theorems are about resource scopes: the path segments built from
    them keep different scopes apart, and the system sentinel cannot be named by
    a validated identifier. *)

From S2P Require Import Prelude External HostIds Paths.

(** ** [resource.rs]: scopes *)

Definition LOCAL_DEFAULT_TENANT_ID : string := "default".
Definition LOCAL_DEFAULT_AGENT_ID : string := "default".
Definition LOCAL_DEFAULT_PROJECT_ID : string := "bootstrap".

Definition unit_separator : string := String.String "031"%char EmptyString.
Definition SYSTEM_RESERVED_ID : string := unit_separator +:+ "SYSTEM" +:+ unit_separator.

Record ResourceScope : Type := mk_ResourceScope {
  rs_tenant_id : TenantId;
  rs_user_id : UserId;
  rs_agent_id : option AgentId;
  rs_project_id : option ProjectId;
  rs_thread_id : option ThreadId;
  rs_invocation_id : InvocationId }.

#[export] Instance ResourceScope_eq_dec : EqDecision ResourceScope.
Proof. solve_decision. Defined.

Definition ResourceScope_local_default (user_id : UserId) (invocation_id : InvocationId) :
    result ResourceScope HostApiError :=
  let? tenant_id := string_id_new KTenant LOCAL_DEFAULT_TENANT_ID in
  let? agent_id := string_id_new KAgent LOCAL_DEFAULT_AGENT_ID in
  let? project_id := string_id_new KProject LOCAL_DEFAULT_PROJECT_ID in
  Ok (mk_ResourceScope tenant_id user_id (Some agent_id) (Some project_id) None invocation_id).

(** The fresh invocation id is an argument. *)
Definition ResourceScope_system (fresh : InvocationId) : ResourceScope :=
  mk_ResourceScope (from_trusted SYSTEM_RESERVED_ID) (from_trusted SYSTEM_RESERVED_ID)
    None None None fresh.

Definition is_system (self : ResourceScope) : bool :=
  bool_decide (as_str (rs_tenant_id self) = SYSTEM_RESERVED_ID)
  && bool_decide (as_str (rs_user_id self) = SYSTEM_RESERVED_ID).

(** [if let Some(id) = ... { segments.push(format!("{axis}/{id}")) }]. *)
Definition axis_segment {k} (axis : string) (id : option (string_id k)) : list string :=
  match id with Some i => [axis +:+ "/" +:+ as_str i] | None => [] end.

Definition segments_or_scope (segments : list string) : string :=
  if bool_decide (segments = []) then "scope" else join_char slash segments.

Definition within_agent_project_segment (self : ResourceScope) : string :=
  segments_or_scope
    (axis_segment "agents" (rs_agent_id self) ++ axis_segment "projects" (rs_project_id self)).

Definition within_tenant_segment (self : ResourceScope) : string :=
  segments_or_scope
    (axis_segment "agents" (rs_agent_id self) ++ axis_segment "projects" (rs_project_id self)
     ++ axis_segment "threads" (rs_thread_id self)).

(** ** [runtime.rs] and [trust.rs] *)

Inductive RuntimeKind : Type := RuntimeMcp | RuntimeFirstParty | RuntimeSystem.
Inductive TrustClass : Type := Sandbox | UserTrusted | FirstParty | System.
Inductive RequestedTrustClass : Type :=
| Untrusted | ThirdParty | FirstPartyRequested | SystemRequested.

Inductive PackageSource : Type :=
| Bundled
| LocalManifest (path : string)
| Registry (url : string)
| Admin.

Record PackageIdentity : Type := mk_PackageIdentity {
  package_id : PackageId;
  source : PackageSource;
  digest : option string;
  signer : option string }.

#[export] Instance RuntimeKind_eq_dec : EqDecision RuntimeKind.
Proof. solve_decision. Defined.
#[export] Instance TrustClass_eq_dec : EqDecision TrustClass.
Proof. solve_decision. Defined.
#[export] Instance RequestedTrustClass_eq_dec : EqDecision RequestedTrustClass.
Proof. solve_decision. Defined.
#[export] Instance PackageSource_eq_dec : EqDecision PackageSource.
Proof. solve_decision. Defined.
#[export] Instance PackageIdentity_eq_dec : EqDecision PackageIdentity.
Proof. solve_decision. Defined.

(** ** [capability.rs]: effects and permissions *)

Inductive EffectKind : Type :=
| ReadFilesystem | WriteFilesystem | DeleteFilesystem | Network | UseSecret
| ExecuteCode | SpawnProcess | DispatchCapability | ModifyExtension | ModifyApproval
| ModifyBudget | ExternalWrite | Financial.

#[export] Instance EffectKind_eq_dec : EqDecision EffectKind.
Proof. solve_decision. Defined.

Definition is_write (self : EffectKind) : bool :=
  match self with
  | ReadFilesystem | Network | UseSecret | DispatchCapability => false
  | WriteFilesystem | DeleteFilesystem | ExecuteCode | SpawnProcess | ModifyExtension
  | ModifyApproval | ModifyBudget | ExternalWrite | Financial => true
  end.

Inductive PermissionMode : Type := PermAllow | PermAsk | PermDeny.

#[export] Instance PermissionMode_eq_dec : EqDecision PermissionMode.
Proof. solve_decision. Defined.

(** ** [scope.rs]: principals *)

Inductive Principal : Type :=
| PTenant (id : TenantId)
| PUser (id : UserId)
| PAgent (id : AgentId)
| PProject (id : ProjectId)
| PThread (id : ThreadId)
| PExtension (id : ExtensionId)
| PHostRuntime
| PSystem (id : SystemServiceId).

#[export] Instance Principal_eq_dec : EqDecision Principal.
Proof. solve_decision. Defined.

(** ** [action.rs]: network targets *)

Inductive SecretUseMode : Type := InjectIntoRequest | InjectIntoEnvironment | ReadRaw.
Inductive NetworkScheme : Type := Http | Https.
Inductive NetworkMethod : Type := Get | Post | Put | Patch | Delete | Head.

#[export] Instance NetworkScheme_eq_dec : EqDecision NetworkScheme.
Proof. solve_decision. Defined.
#[export] Instance NetworkMethod_eq_dec : EqDecision NetworkMethod.
Proof. solve_decision. Defined.

Record NetworkTarget : Type := mk_NetworkTarget {
  nt_scheme : NetworkScheme; nt_host : string; nt_port : option Z }.

Record NetworkTargetPattern : Type := mk_NetworkTargetPattern {
  ntp_scheme : option NetworkScheme; host_pattern : string; ntp_port : option Z }.

#[export] Instance NetworkTargetPattern_eq_dec : EqDecision NetworkTargetPattern.
Proof. solve_decision. Defined.

Definition MAX_NETWORK_HOST_PATTERN_LEN : Z := 253.

Definition is_ascii_alphanumeric (b : Ascii.ascii) : bool :=
  is_ascii_lowercase b || is_ascii_uppercase b || is_ascii_digit b.

Definition is_host_byte (byte : Ascii.ascii) : bool :=
  is_ascii_alphanumeric byte || bool_decide (byte = "."%char)
  || bool_decide (byte = "-"%char) || bool_decide (byte = "_"%char).

Definition validate_network_host_pattern (pattern : string) : result unit HostApiError :=
  if bool_decide (pattern = "") || (MAX_NETWORK_HOST_PATTERN_LEN <? str_len pattern) then
    Err (InvalidNetworkTarget pattern "host pattern must be non-empty and at most 253 bytes")
  else if bool_decide (pattern = "*") then Ok tt
  else if contains_char "000"%char pattern || has_control pattern then
    Err (InvalidNetworkTarget pattern "host pattern must not contain NUL/control characters")
  else
    let host := default pattern (strip_prefix "*." pattern) in
    if bool_decide (host = "") || starts_with "." host || ends_with_char dot host
       || contains_str ".." host || any_byte (fun b => negb (is_host_byte b)) host then
      Err (InvalidNetworkTarget pattern
             "host pattern must contain only ASCII host-label characters")
    else Ok tt.

Record NetworkPolicy : Type := mk_NetworkPolicy {
  allowed_targets : list NetworkTargetPattern;
  deny_private_ip_ranges : bool;
  max_egress_bytes : option Z }.

#[export] Instance NetworkPolicy_eq_dec : EqDecision NetworkPolicy.
Proof. solve_decision. Defined.

(** [#[derive(Default)]]. *)
Definition NetworkPolicy_default : NetworkPolicy := mk_NetworkPolicy [] false None.

(** ** Credential requirements ([http.rs], [capability.rs], [credential_requirement.rs]) *)

Inductive RuntimeCredentialTarget : Type :=
| Header (name : string) (prefix : option string)
| QueryParam (name : string)
| PathPlaceholder (placeholder : string).

Inductive RuntimeCredentialAccountSetup : Type :=
| ManualToken
| OAuth (scopes : list string).

Inductive RuntimeCredentialRequirementSource : Type :=
| SourceSecretHandle
| ProductAuthAccount (provider : RuntimeCredentialAccountProviderId)
    (setup : RuntimeCredentialAccountSetup).

Record RuntimeCredentialRequirement : Type := mk_RuntimeCredentialRequirement {
  rcr_handle : SecretHandle;
  rcr_source : RuntimeCredentialRequirementSource;
  rcr_provider_scopes : list string;
  rcr_audience : NetworkTargetPattern;
  rcr_target : RuntimeCredentialTarget;
  rcr_required : bool }.

Record RuntimeCredentialAccountRequirement : Type := mk_RuntimeCredentialAccountRequirement {
  rcar_requester_extension : ExtensionId;
  rcar_requirement : RuntimeCredentialRequirement }.

#[export] Instance RuntimeCredentialTarget_eq_dec : EqDecision RuntimeCredentialTarget.
Proof. solve_decision. Defined.
#[export] Instance RuntimeCredentialAccountSetup_eq_dec : EqDecision RuntimeCredentialAccountSetup.
Proof. solve_decision. Defined.
#[export] Instance RuntimeCredentialRequirementSource_eq_dec :
  EqDecision RuntimeCredentialRequirementSource.
Proof. solve_decision. Defined.
#[export] Instance RuntimeCredentialRequirement_eq_dec : EqDecision RuntimeCredentialRequirement.
Proof. solve_decision. Defined.
#[export] Instance RuntimeCredentialAccountRequirement_eq_dec :
  EqDecision RuntimeCredentialAccountRequirement.
Proof. solve_decision. Defined.

Definition matches_dispatch (self : RuntimeCredentialAccountRequirement)
    (handle : SecretHandle) (provider : RuntimeCredentialAccountProviderId)
    (provider_scopes : list string) (requester_extension : ExtensionId) : bool :=
  bool_decide (rcar_requester_extension self = requester_extension)
  && bool_decide (rcr_handle (rcar_requirement self) = handle)
  && bool_decide (rcr_provider_scopes (rcar_requirement self) = provider_scopes)
  && match rcr_source (rcar_requirement self) with
     | ProductAuthAccount actual _ => bool_decide (actual = provider)
     | SourceSecretHandle => false
     end.

(** ** [resource.rs]: estimates, usage, ceilings, receipts *)

Section Resources.
Context `{D : Decimal}.

Record ResourceEstimate : Type := mk_ResourceEstimate {
  est_usd : option dec;
  est_input_tokens : option Z;
  est_output_tokens : option Z;
  est_wall_clock_ms : option Z;
  est_output_bytes : option Z;
  est_network_egress_bytes : option Z;
  est_process_count : option Z;
  est_concurrency_slots : option Z }.

Definition ResourceEstimate_default : ResourceEstimate :=
  mk_ResourceEstimate None None None None None None None None.

Record ResourceUsage : Type := mk_ResourceUsage {
  use_usd : dec;
  use_input_tokens : Z;
  use_output_tokens : Z;
  use_wall_clock_ms : Z;
  use_output_bytes : Z;
  use_network_egress_bytes : Z;
  use_process_count : Z }.

Record SandboxQuota : Type := mk_SandboxQuota {
  cpu_time_ms : option Z;
  memory_bytes : option Z;
  disk_bytes : option Z;
  sq_network_egress_bytes : option Z;
  sq_process_count : option Z }.

Record ResourceCeiling : Type := mk_ResourceCeiling {
  ceil_max_usd : option dec;
  ceil_max_input_tokens : option Z;
  ceil_max_output_tokens : option Z;
  ceil_max_wall_clock_ms : option Z;
  ceil_max_output_bytes : option Z;
  ceil_sandbox : option SandboxQuota }.

Record ResourceProfile : Type := mk_ResourceProfile {
  default_estimate : ResourceEstimate;
  hard_ceiling : option ResourceCeiling }.

Record ResourceReservation : Type := mk_ResourceReservation {
  rr_id : ResourceReservationId;
  rr_scope : ResourceScope;
  rr_estimate : ResourceEstimate }.

Inductive ReservationStatus : Type := Active | Reconciled | Released.

Record ResourceReceipt : Type := mk_ResourceReceipt {
  rc_id : ResourceReservationId;
  rc_scope : ResourceScope;
  rc_status : ReservationStatus;
  rc_estimate : ResourceEstimate;
  rc_actual : option ResourceUsage }.

(** [ResourceEstimate == ResourceEstimate] and the profiles: decimals compare by
    value. *)
Definition ResourceEstimate_eqb (a b : ResourceEstimate) : bool :=
  opt_dec_eqb (est_usd a) (est_usd b)
  && bool_decide (est_input_tokens a = est_input_tokens b)
  && bool_decide (est_output_tokens a = est_output_tokens b)
  && bool_decide (est_wall_clock_ms a = est_wall_clock_ms b)
  && bool_decide (est_output_bytes a = est_output_bytes b)
  && bool_decide (est_network_egress_bytes a = est_network_egress_bytes b)
  && bool_decide (est_process_count a = est_process_count b)
  && bool_decide (est_concurrency_slots a = est_concurrency_slots b).

Definition SandboxQuota_eqb (a b : SandboxQuota) : bool :=
  bool_decide (cpu_time_ms a = cpu_time_ms b)
  && bool_decide (memory_bytes a = memory_bytes b)
  && bool_decide (disk_bytes a = disk_bytes b)
  && bool_decide (sq_network_egress_bytes a = sq_network_egress_bytes b)
  && bool_decide (sq_process_count a = sq_process_count b).

Definition opt_eqb {A} (eqb : A -> A -> bool) (a b : option A) : bool :=
  match a, b with Some x, Some y => eqb x y | None, None => true | _, _ => false end.

Definition ResourceCeiling_eqb (a b : ResourceCeiling) : bool :=
  opt_dec_eqb (ceil_max_usd a) (ceil_max_usd b)
  && bool_decide (ceil_max_input_tokens a = ceil_max_input_tokens b)
  && bool_decide (ceil_max_output_tokens a = ceil_max_output_tokens b)
  && bool_decide (ceil_max_wall_clock_ms a = ceil_max_wall_clock_ms b)
  && bool_decide (ceil_max_output_bytes a = ceil_max_output_bytes b)
  && opt_eqb SandboxQuota_eqb (ceil_sandbox a) (ceil_sandbox b).

Definition ResourceProfile_eqb (a b : ResourceProfile) : bool :=
  ResourceEstimate_eqb (default_estimate a) (default_estimate b)
  && opt_eqb ResourceCeiling_eqb (hard_ceiling a) (hard_ceiling b).

(** [ResourceUsage == ResourceUsage]: decimals compare by value. *)
Definition ResourceUsage_eqb (a b : ResourceUsage) : bool :=
  dec_eqb (use_usd a) (use_usd b)
  && (use_input_tokens a =? use_input_tokens b)
  && (use_output_tokens a =? use_output_tokens b)
  && (use_wall_clock_ms a =? use_wall_clock_ms b)
  && (use_output_bytes a =? use_output_bytes b)
  && (use_network_egress_bytes a =? use_network_egress_bytes b)
  && (use_process_count a =? use_process_count b).

(** ** [capability.rs]: descriptors and grants *)

Record GrantConstraints : Type := mk_GrantConstraints {
  allowed_effects : list EffectKind;
  gc_mounts : MountView;
  gc_network : NetworkPolicy;
  gc_secrets : list SecretHandle;
  resource_ceiling : option ResourceCeiling;
  expires_at : option Z;
  max_invocations : option Z }.

Record CapabilityGrant : Type := mk_CapabilityGrant {
  cg_id : CapabilityGrantId;
  cg_capability : CapabilityId;
  cg_grantee : Principal;
  cg_issued_by : Principal;
  cg_constraints : GrantConstraints }.

Record CapabilitySet : Type := mk_CapabilitySet { cs_grants : list CapabilityGrant }.

Record CapabilityDescriptor `{SerdeJson} : Type := mk_CapabilityDescriptor {
  cd_id : CapabilityId;
  cd_provider : ExtensionId;
  cd_runtime : RuntimeKind;
  cd_trust_ceiling : TrustClass;
  cd_description : string;
  cd_parameters_schema : json;
  cd_effects : list EffectKind;
  cd_default_permission : PermissionMode;
  cd_runtime_credentials : list RuntimeCredentialRequirement;
  cd_resource_profile : option ResourceProfile }.

(** [CapabilityDescriptor == CapabilityDescriptor]. *)
Definition CapabilityDescriptor_eqb `{JV : !JsonValue J} (a b : @CapabilityDescriptor J) : bool :=
  bool_decide (cd_id a = cd_id b)
  && bool_decide (cd_provider a = cd_provider b)
  && bool_decide (cd_runtime a = cd_runtime b)
  && bool_decide (cd_trust_ceiling a = cd_trust_ceiling b)
  && bool_decide (cd_description a = cd_description b)
  && json_eqb (cd_parameters_schema a) (cd_parameters_schema b)
  && bool_decide (cd_effects a = cd_effects b)
  && bool_decide (cd_default_permission a = cd_default_permission b)
  && bool_decide (cd_runtime_credentials a = cd_runtime_credentials b)
  && opt_eqb ResourceProfile_eqb (cd_resource_profile a) (cd_resource_profile b).

(** ** [action.rs] and [approval.rs] *)

Inductive FileActionKind : Type := FileRead | FileList | FileWrite | FileDelete.
Inductive ExtensionLifecycleOperation : Type := Install | Update | Remove | Enable | Disable.

(** [InvocationFingerprint(String)]: [sha256:<hex>] of the canonical payload. *)
Record InvocationFingerprint : Type := mk_InvocationFingerprint { fp_str : string }.

Inductive Action : Type :=
| ReadFile (path : ScopedPath)
| ListDir (path : ScopedPath)
| WriteFile (path : ScopedPath) (bytes : option Z)
| DeleteFile (path : ScopedPath)
| Dispatch (capability : CapabilityId) (estimated_resources : ResourceEstimate)
| SpawnCapability (capability : CapabilityId) (estimated_resources : ResourceEstimate)
| ActUseSecret (handle : SecretHandle) (mode : SecretUseMode)
| ActNetwork (target : NetworkTarget) (method : NetworkMethod) (estimated_bytes : option Z)
| ActReserveResources (estimate : ResourceEstimate)
| Approve (request : ApprovalRequest)
| ExtensionLifecycle (extension_id : ExtensionId) (operation : ExtensionLifecycleOperation)
| EmitExternalEffect (effect : EffectKind)
with ApprovalRequest : Type :=
| mk_ApprovalRequest (id : ApprovalRequestId) (correlation_id : CorrelationId)
    (requested_by : Principal) (action : Action)
    (invocation_fingerprint : option InvocationFingerprint) (reason : string)
    (reusable_scope : option ApprovalScope)
with ApprovalScope : Type :=
| mk_ApprovalScope (principal : Principal) (action_pattern : ActionPattern)
    (expires_at : option Z)
with ActionPattern : Type :=
| ExactAction (action : Action)
| PatCapability (capability : CapabilityId)
| PathPrefix (action_kind : FileActionKind) (prefix : ScopedPath)
| PatNetworkTarget (target : NetworkTargetPattern).

Definition ar_id (r : ApprovalRequest) := let 'mk_ApprovalRequest i _ _ _ _ _ _ := r in i.
Definition ar_correlation_id (r : ApprovalRequest) :=
  let 'mk_ApprovalRequest _ c _ _ _ _ _ := r in c.
Definition ar_requested_by (r : ApprovalRequest) :=
  let 'mk_ApprovalRequest _ _ p _ _ _ _ := r in p.
Definition ar_action (r : ApprovalRequest) := let 'mk_ApprovalRequest _ _ _ a _ _ _ := r in a.
Definition ar_invocation_fingerprint (r : ApprovalRequest) :=
  let 'mk_ApprovalRequest _ _ _ _ f _ _ := r in f.
Definition ar_reason (r : ApprovalRequest) := let 'mk_ApprovalRequest _ _ _ _ _ x _ := r in x.

(** ** [scope.rs]: execution contexts *)

Record ExecutionContext : Type := mk_ExecutionContext {
  ec_invocation_id : InvocationId;
  ec_correlation_id : CorrelationId;
  ec_process_id : option ProcessId;
  ec_parent_process_id : option ProcessId;
  ec_tenant_id : TenantId;
  ec_user_id : UserId;
  ec_agent_id : option AgentId;
  ec_project_id : option ProjectId;
  ec_thread_id : option ThreadId;
  ec_extension_id : ExtensionId;
  ec_runtime : RuntimeKind;
  ec_trust : TrustClass;
  ec_grants : CapabilitySet;
  ec_mounts : MountView;
  ec_resource_scope : ResourceScope }.

Definition ExecutionContext_validate (self : ExecutionContext) : result unit HostApiError :=
  let rs := ec_resource_scope self in
  if negb (bool_decide (rs_invocation_id rs = ec_invocation_id self)) then
    Err (InvariantViolation "resource_scope.invocation_id must match execution context invocation_id")
  else if negb (bool_decide (rs_tenant_id rs = ec_tenant_id self)) then
    Err (InvariantViolation "resource_scope.tenant_id must match execution context tenant_id")
  else if negb (bool_decide (rs_user_id rs = ec_user_id self)) then
    Err (InvariantViolation "resource_scope.user_id must match execution context user_id")
  else if negb (bool_decide (rs_agent_id rs = ec_agent_id self)) then
    Err (InvariantViolation "resource_scope.agent_id must match execution context agent_id")
  else if negb (bool_decide (rs_project_id rs = ec_project_id self)) then
    Err (InvariantViolation "resource_scope.project_id must match execution context project_id")
  else if negb (bool_decide (rs_thread_id rs = ec_thread_id self)) then
    Err (InvariantViolation "resource_scope.thread_id must match execution context thread_id")
  else MountView_validate (ec_mounts self).

(** The two fresh identifiers are arguments. *)
Definition ExecutionContext_local_default (invocation_id : InvocationId)
    (correlation_id : CorrelationId) (user_id : UserId) (extension_id : ExtensionId)
    (runtime : RuntimeKind) (trust : TrustClass) (grants : CapabilitySet) (mounts : MountView) :
    result ExecutionContext HostApiError :=
  let? resource_scope := ResourceScope_local_default user_id invocation_id in
  let context := mk_ExecutionContext invocation_id correlation_id None None
    (rs_tenant_id resource_scope) user_id (rs_agent_id resource_scope)
    (rs_project_id resource_scope) None extension_id runtime trust grants mounts
    resource_scope in
  let? _ := ExecutionContext_validate context in
  Ok context.

End Resources.

#[export] Instance ReservationStatus_eq_dec : EqDecision ReservationStatus.
Proof. solve_decision. Defined.
#[export] Instance InvocationFingerprint_eq_dec : EqDecision InvocationFingerprint.
Proof. solve_decision. Defined.
#[export] Instance SandboxQuota_eq_dec : EqDecision SandboxQuota.
Proof. solve_decision. Defined.

(** ** Scope facts *)

Definition valid_id {k} (id : string_id k) : Prop := exists v, string_id_new k v = Ok id.

(** A scope all of whose identifiers passed their constructors. *)
Record valid_scope (s : ResourceScope) : Prop := {
  vs_tenant : valid_id (rs_tenant_id s);
  vs_user : valid_id (rs_user_id s);
  vs_agent : forall a, rs_agent_id s = Some a -> valid_id a;
  vs_project : forall p, rs_project_id s = Some p -> valid_id p;
  vs_thread : forall t, rs_thread_id s = Some t -> valid_id t;
}.

Lemma valid_id_safe {k} (id : string_id k) :
  scope_kind k = true -> valid_id id -> safe_segment (as_str id).
Proof. intros Hk [v Hv]. by eapply scope_id_new_safe. Qed.

(** Decided by running the constructor on the identifier's own text. *)
Lemma valid_id_check {k} (id : string_id k) :
  string_id_new k (as_str id) = Ok id -> valid_id id.
Proof. by exists (as_str id). Qed.

Definition axis_parts {k} (axis : string) (id : option (string_id k)) : list string :=
  match id with Some i => [axis; as_str i] | None => [] end.

Definition scope_parts (s : ResourceScope) : list string :=
  axis_parts "agents" (rs_agent_id s) ++ axis_parts "projects" (rs_project_id s)
  ++ axis_parts "threads" (rs_thread_id s).

Definition scope_dir_parts (s : ResourceScope) : list string :=
  if bool_decide (scope_parts s = []) then ["scope"] else scope_parts s.

(** The segment is the flat list of its components, so it can be read back. *)
Lemma within_tenant_segment_join s :
  within_tenant_segment s = join_char slash (scope_dir_parts s).
Proof.
  unfold within_tenant_segment, scope_dir_parts, scope_parts, segments_or_scope.
  destruct (rs_agent_id s), (rs_project_id s), (rs_thread_id s); simpl;
    rewrite ?bool_decide_eq_false_2 by done; rewrite ?bool_decide_eq_true_2 by done;
    rewrite ?append_assoc; done.
Qed.

Lemma axis_parts_clean {k} axis (id : option (string_id k)) :
  contains_char slash axis = false ->
  (forall i, id = Some i -> contains_char slash (as_str i) = false) ->
  Forall (fun x => contains_char slash x = false) (axis_parts axis id).
Proof. destruct id; repeat constructor; auto. Qed.

Lemma scope_dir_parts_clean s :
  valid_scope s ->
  Forall (fun x => contains_char slash x = false) (scope_dir_parts s) /\ scope_dir_parts s <> [].
Proof.
  intros [_ _ Ha Hp Ht].
  assert (Forall (fun x => contains_char slash x = false) (scope_parts s)) as HF.
  { unfold scope_parts. rewrite !Forall_app. split_and!; apply axis_parts_clean; try done;
      intros i Hi; apply valid_id_safe; auto. }
  unfold scope_dir_parts. case_bool_decide; [by repeat constructor|done].
Qed.

Lemma scope_parts_inj s s' :
  scope_dir_parts s = scope_dir_parts s' ->
  rs_agent_id s = rs_agent_id s' /\ rs_project_id s = rs_project_id s'
  /\ rs_thread_id s = rs_thread_id s'.
Proof.
  unfold scope_dir_parts, scope_parts.
  destruct (rs_agent_id s) as [[]|], (rs_project_id s) as [[]|], (rs_thread_id s) as [[]|],
    (rs_agent_id s') as [[]|], (rs_project_id s') as [[]|], (rs_thread_id s') as [[]|];
    simpl; intros H; simplify_eq; done.
Qed.

Lemma within_tenant_segment_inj s s' :
  valid_scope s -> valid_scope s' ->
  within_tenant_segment s = within_tenant_segment s' ->
  rs_agent_id s = rs_agent_id s' /\ rs_project_id s = rs_project_id s'
  /\ rs_thread_id s = rs_thread_id s'.
Proof.
  intros [HF Hne]%scope_dir_parts_clean [HF' Hne']%scope_dir_parts_clean.
  rewrite !within_tenant_segment_join. intros E.
  apply scope_parts_inj. by apply (join_char_inj slash).
Qed.

(** Two scopes of one tenant and user share a storage directory exactly when
    they agree on agent, project and thread; no identifier can be chosen so that
    its directory falls together with, or below, another axis. *)
Theorem within_tenant_segment_isolates s s' :
  valid_scope s -> valid_scope s' ->
  within_tenant_segment s = within_tenant_segment s' <->
    rs_agent_id s = rs_agent_id s' /\ rs_project_id s = rs_project_id s'
    /\ rs_thread_id s = rs_thread_id s'.
Proof.
  intros Hs Hs'. split; [by apply within_tenant_segment_inj|].
  intros (Ha & Hp & Ht). unfold within_tenant_segment. by rewrite Ha, Hp, Ht.
Qed.

Definition example_scope (project : option string) (thread : option string) : ResourceScope :=
  mk_ResourceScope (from_trusted "acme") (from_trusted "ann") None
    (from_trusted <$> project) (from_trusted <$> thread) (from_uuid 7).

Lemma within_tenant_segment_isolates_witness :
  within_tenant_segment (example_scope (Some "threads") None)
    <> within_tenant_segment (example_scope None (Some "threads")).
Proof.
  intros H. apply within_tenant_segment_isolates in H.
  - by destruct H as (_ & H & _).
  - constructor; simpl; intros; simplify_eq; by apply valid_id_check.
  - constructor; simpl; intros; simplify_eq; by apply valid_id_check.
Defined.

(** The system scope's tenant cannot be produced by the validating
    constructor of any scope identifier, so no scope built from caller-supplied
    identifiers is the system scope. *)
Theorem system_scope_unforgeable k v id s fresh :
  scope_kind k = true -> string_id_new k v = Ok id -> valid_scope s ->
  as_str id <> SYSTEM_RESERVED_ID
  /\ is_system s = false /\ is_system (ResourceScope_system fresh) = true.
Proof.
  assert (forall (x : string), safe_segment x -> x <> SYSTEM_RESERVED_ID) as Hx.
  { by intros x [_ _ _ _ _ _ Hc] ->. }
  intros Hk Hv [Ht _ _ _ _]. split_and!.
  - apply Hx. by eapply scope_id_new_safe.
  - unfold is_system. rewrite bool_decide_eq_false_2; [done|].
    apply Hx. by apply valid_id_safe.
  - done.
Qed.

Lemma system_scope_unforgeable_witness :
  is_system (example_scope None None) = false.
Proof.
  refine (proj1 (proj2 (system_scope_unforgeable KUser "ann" (from_trusted "ann")
            (example_scope None None) (from_uuid 0) eq_refl eq_refl _))).
  constructor; simpl; intros; simplify_eq; by apply valid_id_check.
Defined.
