(* ===== verification/Obligations.v ===== *)
(** * Decisions and canonical obligations

    [crates/brassclaw_host_api/src/decision.rs]: the decision type, and the
    constructor [Obligations::new] that validates an allow decision's obligations
    and puts them in the canonical evaluation order.  The theorems give the
    constructor's exact result and show that it neither drops nor invents an
    obligation, and that what it builds passes it again unchanged. *)

From S2P Require Import Prelude External HostIds Paths HostTypes.

Inductive DenyReason : Type :=
| MissingGrant | DenyInvalidPath | PathOutsideMount | UnknownCapability | UnknownSecret
| NetworkDenied | BudgetDenied | ApprovalDenied | PolicyDenied | ResourceLimitExceeded
| InternalInvariantViolation.

#[export] Instance DenyReason_eq_dec : EqDecision DenyReason.
Proof. solve_decision. Defined.

Inductive ObligationKind : Type :=
| KReserveResources | KUseScopedMounts | KApplyNetworkPolicy | KInjectSecretOnce
| KInjectCredentialAccountOnce | KFirstPartyCredentialStagedViaHostPort | KAuditBefore
| KRedactOutput | KEnforceResourceCeiling | KEnforceOutputLimit | KAuditAfter.

#[export] Instance ObligationKind_eq_dec : EqDecision ObligationKind.
Proof. solve_decision. Defined.

(** [{kind:?}]. *)
Definition ObligationKind_debug (k : ObligationKind) : string :=
  match k with
  | KReserveResources => "ReserveResources"
  | KUseScopedMounts => "UseScopedMounts"
  | KApplyNetworkPolicy => "ApplyNetworkPolicy"
  | KInjectSecretOnce => "InjectSecretOnce"
  | KInjectCredentialAccountOnce => "InjectCredentialAccountOnce"
  | KFirstPartyCredentialStagedViaHostPort => "FirstPartyCredentialStagedViaHostPort"
  | KAuditBefore => "AuditBefore"
  | KRedactOutput => "RedactOutput"
  | KEnforceResourceCeiling => "EnforceResourceCeiling"
  | KEnforceOutputLimit => "EnforceOutputLimit"
  | KAuditAfter => "AuditAfter"
  end.

Definition OBLIGATION_EVALUATION_ORDER : list ObligationKind :=
  [KReserveResources; KUseScopedMounts; KApplyNetworkPolicy; KInjectSecretOnce;
   KInjectCredentialAccountOnce; KFirstPartyCredentialStagedViaHostPort; KAuditBefore;
   KRedactOutput; KEnforceResourceCeiling; KEnforceOutputLimit; KAuditAfter].

(** The kinds that may occur once per injection slot. *)
Definition multi_inject (k : ObligationKind) : bool :=
  match k with KInjectSecretOnce | KInjectCredentialAccountOnce => true | _ => false end.

Section Decisions.
Context `{D : Decimal}.

Inductive Obligation : Type :=
| AuditBefore
| AuditAfter
| RedactOutput
| ReserveResources (reservation_id : ResourceReservationId)
| UseScopedMounts (mounts : MountView)
| InjectSecretOnce (handle : SecretHandle)
| InjectCredentialAccountOnce (handle : SecretHandle)
    (provider : RuntimeCredentialAccountProviderId) (provider_scopes : list string)
    (requester_extension : ExtensionId)
    (requirement : option RuntimeCredentialAccountRequirement)
| FirstPartyCredentialStagedViaHostPort (capability_id : CapabilityId)
| ApplyNetworkPolicy (policy : NetworkPolicy)
| EnforceResourceCeiling (ceiling : ResourceCeiling)
| EnforceOutputLimit (bytes : Z).

Definition kind (self : Obligation) : ObligationKind :=
  match self with
  | AuditBefore => KAuditBefore
  | AuditAfter => KAuditAfter
  | RedactOutput => KRedactOutput
  | ReserveResources _ => KReserveResources
  | UseScopedMounts _ => KUseScopedMounts
  | InjectSecretOnce _ => KInjectSecretOnce
  | InjectCredentialAccountOnce _ _ _ _ _ => KInjectCredentialAccountOnce
  | FirstPartyCredentialStagedViaHostPort _ => KFirstPartyCredentialStagedViaHostPort
  | ApplyNetworkPolicy _ => KApplyNetworkPolicy
  | EnforceResourceCeiling _ => KEnforceResourceCeiling
  | EnforceOutputLimit _ => KEnforceOutputLimit
  end.

(** [Obligations(Vec<Obligation>)]. *)
Record Obligations : Type := mk_Obligations { as_slice : list Obligation }.

Inductive HostDecision : Type :=
| Allow (obligations : Obligations)
| Deny (reason : DenyReason)
| RequireApproval (request : ApprovalRequest).

(** The credential test of the first loop. *)
Definition declaration_differs (o : Obligation) : bool :=
  match o with
  | InjectCredentialAccountOnce handle provider scopes requester (Some exact) =>
      negb (matches_dispatch exact handle provider scopes requester)
  | _ => false
  end.

Fixpoint check_each (obligations : list Obligation) : result unit HostApiError :=
  match obligations with
  | [] => Ok tt
  | o :: rest =>
      if declaration_differs o then
        Err (InvariantViolation "credential obligation declaration differs")
      else if negb (bool_decide (kind o ∈ OBLIGATION_EVALUATION_ORDER)) then
        Err (InvariantViolation
          (ObligationKind_debug (kind o) +:+ " is missing from OBLIGATION_EVALUATION_ORDER"))
      else check_each rest
  end.

(** [None] is the [unreachable!] arm. *)
Definition extract_inject_handle (o : Obligation) : option SecretHandle :=
  match o with
  | InjectSecretOnce handle => Some handle
  | InjectCredentialAccountOnce handle _ _ _ _ => Some handle
  | _ => None
  end.

Fixpoint check_handles (k : ObligationKind) (seen : list (option SecretHandle))
    (rest : list Obligation) : result (list Obligation) HostApiError :=
  match rest with
  | [] => Ok []
  | o :: rest' =>
      let handle := extract_inject_handle o in
      if bool_decide (handle ∈ seen) then
        Err (InvariantViolation ("duplicate " +:+ ObligationKind_debug k
          +:+ " obligations for the same handle are not allowed"))
      else let? tl := check_handles k (handle :: seen) rest' in Ok (o :: tl)
  end.

Definition normalize_multi_inject (first : Obligation) (rest : list Obligation)
    (k : ObligationKind) : result (list Obligation) HostApiError :=
  let? tl := check_handles k [extract_inject_handle first] rest in Ok (first :: tl).

(** The body of the second loop, for one kind: what it pushes. *)
Definition normalize_kind (obligations : list Obligation) (k : ObligationKind) :
    result (list Obligation) HostApiError :=
  match filter (fun o => kind o = k) obligations with
  | [] => Ok []
  | first :: rest =>
      if multi_inject k then normalize_multi_inject first rest k
      else match rest with
           | _ :: _ => Err (InvariantViolation ("duplicate or conflicting "
               +:+ ObligationKind_debug k +:+ " obligations are not allowed"))
           | [] => Ok [first]
           end
  end.

Definition Obligations_new (obligations : list Obligation) : result Obligations HostApiError :=
  let? _ := check_each obligations in
  let? pushed := try_map (normalize_kind obligations) OBLIGATION_EVALUATION_ORDER in
  Ok (mk_Obligations (concat pushed)).

Definition Obligations_empty : Obligations := mk_Obligations [].

(** ** Specification *)

Definition bucket (l : list Obligation) (k : ObligationKind) : list Obligation :=
  filter (fun o => kind o = k) l.

(** What the constructor accepts. *)
Record acceptable (l : list Obligation) : Prop := {
  acc_declared : Forall (fun o => declaration_differs o = false) l;
  acc_single : forall k, multi_inject k = false -> (length (bucket l k) <= 1)%nat;
  acc_handles : forall k, multi_inject k = true -> NoDup (map extract_inject_handle (bucket l k));
}.

Definition canonical_order (l : list Obligation) : list Obligation :=
  concat (map (bucket l) OBLIGATION_EVALUATION_ORDER).

Lemma all_kinds_ordered k : k ∈ OBLIGATION_EVALUATION_ORDER.
Proof. unfold OBLIGATION_EVALUATION_ORDER. destruct k; set_solver. Qed.

Lemma order_NoDup : NoDup OBLIGATION_EVALUATION_ORDER.
Proof. apply (bool_decide_unpack _). by vm_compute. Qed.

Lemma check_each_ok l :
  check_each l = Ok tt <-> Forall (fun o => declaration_differs o = false) l.
Proof.
  induction l as [|o l IH]; simpl; [by split|]. rewrite Forall_cons.
  destruct (declaration_differs o); [naive_solver|].
  rewrite bool_decide_eq_true_2 by apply all_kinds_ordered. simpl. rewrite IH. naive_solver.
Qed.

Lemma check_handles_ok k seen l r :
  check_handles k seen l = Ok r <->
    r = l /\ NoDup (map extract_inject_handle l)
    /\ Forall (fun o => extract_inject_handle o ∉ seen) l.
Proof.
  revert seen r. induction l as [|o l IH]; intros seen r; simpl.
  - split; [intros [= <-]; split_and!; [done|constructor|done] | by intros [-> _]].
  - rewrite NoDup_cons, Forall_cons. case_bool_decide as Hin; [naive_solver|].
    destruct (check_handles _ _ l) as [tl|e] eqn:E.
    + apply IH in E as (-> & Hnd & HF). rewrite Forall_forall in HF. split.
      * intros [= <-]. split_and!; try done.
        { rewrite list_elem_of_fmap. intros (y & Hy & Hyl). specialize (HF y Hyl). set_solver. }
        { apply Forall_forall. intros x Hx. specialize (HF x Hx). set_solver. }
      * by intros [-> _].
    + split; [done|]. intros (-> & [Hn Hnd] & [_ HF]). exfalso.
      assert (check_handles k (extract_inject_handle o :: seen) l = Ok l) as E'; [|congruence].
      apply IH. split_and!; [done..|]. rewrite Forall_forall in HF |- *. intros x Hx.
      rewrite not_elem_of_cons. split; [|by apply HF]. intros Ex. apply Hn.
      rewrite <- Ex. by apply list_elem_of_fmap_2.
Qed.

Lemma normalize_kind_ok l k r :
  normalize_kind l k = Ok r <->
    r = bucket l k
    /\ (multi_inject k = false -> (length (bucket l k) <= 1)%nat)
    /\ (multi_inject k = true -> NoDup (map extract_inject_handle (bucket l k))).
Proof.
  unfold normalize_kind. fold (bucket l k). destruct (bucket l k) as [|f rest]; simpl.
  - split; [intros [= <-]; split_and!; [done|lia|constructor]|by intros [-> _]].
  - destruct (multi_inject k) eqn:Hm.
    + unfold normalize_multi_inject.
      destruct (check_handles k [extract_inject_handle f] rest) as [tl|] eqn:E.
      * apply check_handles_ok in E as (-> & Hnd & HF). split; [|by intros [-> _]].
        intros [= <-]. split_and!; [done..|]. intros _. apply NoDup_cons. split; [|done].
        rewrite Forall_forall in HF. rewrite list_elem_of_fmap. intros (y & Hy & Hin).
        specialize (HF y Hin). set_solver.
      * split; [done|]. intros (_ & _ & Hnd). specialize (Hnd eq_refl).
        apply NoDup_cons in Hnd as [Hn Hnd]. exfalso.
        assert (check_handles k [extract_inject_handle f] rest = Ok rest) as E'; [|congruence].
        apply check_handles_ok. split_and!; [done..|]. apply Forall_forall. intros x Hx Hin.
        apply list_elem_of_singleton in Hin. apply Hn. rewrite <- Hin. by apply list_elem_of_fmap_2.
    + destruct rest; simpl.
      * split; [intros [= <-]; split_and!; [done|lia|done] | by intros [-> _]].
      * split; [done|]. intros (_ & H & _). specialize (H eq_refl). lia.
Qed.

Lemma try_map_spec {A B X} (f : A -> result B X) (g : A -> B) l r :
  (forall x y, f x = Ok y -> y = g x) ->
  try_map f l = Ok r <-> r = map g l /\ Forall (fun x => is_ok (f x) = true) l.
Proof.
  intros Hf. revert r. induction l as [|x l IH]; intros r; simpl.
  - split; [by intros [= <-]|by intros [-> _]].
  - rewrite Forall_cons. destruct (f x) as [y|e] eqn:E; [|naive_solver].
    apply Hf in E as ->. destruct (try_map f l) as [ys|e].
    + destruct (proj1 (IH ys) eq_refl) as [-> HF]. split; [by intros [= <-]|by intros [-> _]].
    + split; [done|]. intros (-> & _ & HF). by specialize (proj2 (IH _) (conj eq_refl HF)).
Qed.

(** The exact result of the constructor. *)
Lemma Obligations_new_ok l r :
  Obligations_new l = Ok r <-> acceptable l /\ r = mk_Obligations (canonical_order l).
Proof.
  unfold Obligations_new.
  assert (forall x y, normalize_kind l x = Ok y -> y = bucket l x) as Hf
    by (by intros x y [-> _]%normalize_kind_ok).
  split.
  - destruct (check_each l) as [[]|] eqn:Hc; [|done]. apply check_each_ok in Hc.
    destruct (try_map _ _) as [p|] eqn:Ht; [|done]. intros [= <-].
    apply (try_map_spec _ (bucket l)) in Ht as [-> HF]; [|done]. split; [|done].
    rewrite Forall_forall in HF.
    assert (forall k, is_Some (match normalize_kind l k with Ok y => Some y | _ => None end)) as Hk.
    { intros k. specialize (HF k (all_kinds_ordered k)). by destruct (normalize_kind l k). }
    constructor; [done| |]; intros k Hm; specialize (Hk k);
      destruct (normalize_kind l k) eqn:E; try (by destruct Hk);
      apply normalize_kind_ok in E as (_ & H1 & H2); auto.
  - intros [[Hd Hs Hh] ->]. apply check_each_ok in Hd as ->.
    assert (try_map (normalize_kind l) OBLIGATION_EVALUATION_ORDER
            = Ok (map (bucket l) OBLIGATION_EVALUATION_ORDER)) as ->; [|done].
    apply (try_map_spec _ (bucket l)); [done|]. split; [done|].
    apply Forall_forall. intros k _.
    by rewrite (proj2 (normalize_kind_ok l k (bucket l k))) by auto.
Qed.

(** ** Buckets of a list by key *)

Lemma filter_filter_key (l : list Obligation) k ks :
  k ∉ ks -> map (bucket (filter (fun o => kind o <> k) l)) ks = map (bucket l) ks.
Proof.
  intros Hk. apply map_ext_in. intros k' Hin%list_elem_of_In. unfold bucket.
  rewrite list_filter_filter. apply list_filter_iff. intros o. set_solver.
Qed.

Lemma filter_split {A} (P : A -> Prop) `{!forall x, Decision (P x)} (l : list A) :
  l ≡ₚ filter P l ++ filter (fun x => ~ P x) l.
Proof.
  induction l as [|x l IH]; [done|]. rewrite !filter_cons.
  destruct (decide (P x)); [rewrite decide_False by tauto|rewrite decide_True by tauto]; simpl.
  - by rewrite <- IH. - by rewrite IH at 1; rewrite Permutation_middle.
Qed.

Lemma buckets_permutation ks (l : list Obligation) :
  NoDup ks -> Forall (fun o => kind o ∈ ks) l -> concat (map (bucket l) ks) ≡ₚ l.
Proof.
  intros Hnd. revert l. induction Hnd as [|k ks Hk Hnd IH]; intros l HF; simpl.
  - destruct l as [|o l]; [done|]. apply Forall_cons in HF as [H _]. by apply elem_of_nil in H.
  - rewrite <- (filter_filter_key l k ks) by done. rewrite IH; [symmetry; apply filter_split|].
    apply Forall_forall. intros o [Hne Hin]%list_elem_of_filter.
    rewrite Forall_forall in HF. specialize (HF o Hin). set_solver.
Qed.

Lemma bucket_concat ks (l : list Obligation) k :
  NoDup ks -> k ∈ ks -> bucket (concat (map (bucket l) ks)) k = bucket l k.
Proof.
  intros Hnd. assert (forall j, j <> k -> bucket (bucket l j) k = []) as Hd.
  { intros j Hj. apply elem_of_nil_inv. intros o. unfold bucket.
    rewrite !list_elem_of_filter. intros (H1 & H2 & _). congruence. }
  assert (forall js, k ∉ js -> bucket (concat (map (bucket l) js)) k = []) as Hout.
  { induction js as [|j js IH]; intros Hj; [done|]. simpl. unfold bucket at 1.
    rewrite filter_app. fold (bucket (bucket l j) k) (bucket (concat (map (bucket l) js)) k).
    rewrite IH, Hd by set_solver. done. }
  induction Hnd as [|j js Hj Hnd IH]; intros Hin; [by apply elem_of_nil in Hin|].
  simpl. unfold bucket at 1. rewrite filter_app.
  fold (bucket (bucket l j) k) (bucket (concat (map (bucket l) js)) k).
  destruct (decide (j = k)) as [->|Hne].
  - rewrite Hout by done. rewrite app_nil_r. unfold bucket. rewrite list_filter_filter.
    apply list_filter_iff. tauto.
  - rewrite Hd, IH by set_solver. done.
Qed.

Lemma canonical_order_bucket l k : bucket (canonical_order l) k = bucket l k.
Proof. apply bucket_concat; [apply order_NoDup|apply all_kinds_ordered]. Qed.

Lemma canonical_order_permutation l : canonical_order l ≡ₚ l.
Proof.
  apply buckets_permutation; [apply order_NoDup|].
  apply Forall_forall. intros o _. apply all_kinds_ordered.
Qed.

Lemma canonical_order_idem l : canonical_order (canonical_order l) = canonical_order l.
Proof.
  unfold canonical_order at 1 3. f_equal. apply map_ext. intros k. apply canonical_order_bucket.
Qed.

Lemma canonical_order_acceptable l : acceptable l -> acceptable (canonical_order l).
Proof.
  intros [Hd Hs Hh]. constructor.
  - by rewrite canonical_order_permutation.
  - intros k. rewrite canonical_order_bucket. auto.
  - intros k. rewrite canonical_order_bucket. auto.
Qed.

(** ** Properties *)

(** The obligation constructor accepts a list exactly when every retained
    credential declaration matches its dispatch fields, no non-injection kind
    occurs twice and no handle is injected twice by one kind; the result is the
    same obligations (a permutation), grouped in the canonical evaluation order. *)
Theorem obligations_canonical l r :
  Obligations_new l = Ok r <->
    acceptable l /\ as_slice r = concat (map (bucket l) OBLIGATION_EVALUATION_ORDER)
    /\ as_slice r ≡ₚ l.
Proof.
  rewrite Obligations_new_ok. fold (canonical_order l). split.
  - intros [Ha ->]. split_and!; [done..|]. apply canonical_order_permutation.
  - intros (Ha & Hr & _). split; [done|]. destruct r. simpl in *. by rewrite Hr.
Qed.

(** Canonical obligations are a fixed point of the constructor, so an allow
    decision that is serialised and read back keeps its obligations and their
    order. *)
Theorem obligations_round_trip l r :
  Obligations_new l = Ok r -> Obligations_new (as_slice r) = Ok r.
Proof.
  rewrite Obligations_new_ok. intros [Ha ->]. apply Obligations_new_ok. simpl.
  split; [by apply canonical_order_acceptable|]. by rewrite canonical_order_idem.
Qed.

End Decisions.

Lemma obligations_round_trip_witness :
  Obligations_new [EnforceOutputLimit 10; InjectSecretOnce (from_trusted "b");
                   AuditBefore; InjectSecretOnce (from_trusted "a")]
    = Ok (mk_Obligations [InjectSecretOnce (from_trusted "b"); InjectSecretOnce (from_trusted "a");
                          AuditBefore; EnforceOutputLimit 10])
  /\ Obligations_new [InjectSecretOnce (from_trusted "b"); InjectSecretOnce (from_trusted "a");
                      AuditBefore; EnforceOutputLimit 10]
    = Ok (mk_Obligations [InjectSecretOnce (from_trusted "b"); InjectSecretOnce (from_trusted "a");
                          AuditBefore; EnforceOutputLimit 10]).
Proof.
  split; [reflexivity|].
  exact (obligations_round_trip
    [EnforceOutputLimit 10; InjectSecretOnce (from_trusted "b");
     AuditBefore; InjectSecretOnce (from_trusted "a")]
    (mk_Obligations [InjectSecretOnce (from_trusted "b"); InjectSecretOnce (from_trusted "a");
                     AuditBefore; EnforceOutputLimit 10]) eq_refl).
Defined.
