(* ===== verification/RuntimePolicy.v ===== *)
(** * Runtime policy resolution

    [crates/brassclaw_host_api/src/runtime_policy.rs] (the vocabulary) and
    [crates/brassclaw_runtime_policy/src/resolver.rs] (the resolver from a
    deployment, a requested profile and the organisation's constraints to the
    effective policy).  The theorems are the safety invariants of the resolver
    crate's documentation: the hosted boundary, monotone reduction, the yolo and
    administrator gates; and the wire names round trip. *)

From S2P Require Import Prelude.

(** ** Vocabulary *)

Inductive DeploymentMode : Type := LocalSingleUser | HostedMultiTenant | EnterpriseDedicated.

Inductive RuntimeProfile : Type :=
| SecureDefault
| LocalSafe | LocalDev | LocalYolo | Full
| HostedSafe | HostedDev | HostedYoloTenantScoped
| EnterpriseSafe | EnterpriseDev | EnterpriseYoloDedicated
| Sandboxed | Experiment.

#[export] Instance DeploymentMode_eq_dec : EqDecision DeploymentMode.
Proof. solve_decision. Defined.
#[export] Instance RuntimeProfile_eq_dec : EqDecision RuntimeProfile.
Proof. solve_decision. Defined.

Record ParseRuntimePolicyEnumError : Type := mk_ParseError { pe_kind : string; pe_value : string }.

Definition DeploymentMode_as_str (self : DeploymentMode) : string :=
  match self with
  | LocalSingleUser => "local_single_user"
  | HostedMultiTenant => "hosted_multi_tenant"
  | EnterpriseDedicated => "enterprise_dedicated"
  end.

Definition DeploymentMode_from_str (value : string) :
    result DeploymentMode ParseRuntimePolicyEnumError :=
  if bool_decide (value = "local_single_user") then Ok LocalSingleUser
  else if bool_decide (value = "hosted_multi_tenant") then Ok HostedMultiTenant
  else if bool_decide (value = "enterprise_dedicated") then Ok EnterpriseDedicated
  else Err (mk_ParseError "deployment mode" value).

Definition RuntimeProfile_as_str (self : RuntimeProfile) : string :=
  match self with
  | SecureDefault => "secure_default"
  | LocalSafe => "local_safe"
  | LocalDev => "local_dev"
  | LocalYolo => "local_yolo"
  | Full => "full"
  | HostedSafe => "hosted_safe"
  | HostedDev => "hosted_dev"
  | HostedYoloTenantScoped => "hosted_yolo_tenant_scoped"
  | EnterpriseSafe => "enterprise_safe"
  | EnterpriseDev => "enterprise_dev"
  | EnterpriseYoloDedicated => "enterprise_yolo_dedicated"
  | Sandboxed => "sandboxed"
  | Experiment => "experiment"
  end.

Definition RuntimeProfile_from_str (value : string) :
    result RuntimeProfile ParseRuntimePolicyEnumError :=
  if bool_decide (value = "secure_default") then Ok SecureDefault
  else if bool_decide (value = "local_safe") then Ok LocalSafe
  else if bool_decide (value = "local_dev") then Ok LocalDev
  else if bool_decide (value = "local_yolo") then Ok LocalYolo
  else if bool_decide (value = "full") then Ok Full
  else if bool_decide (value = "hosted_safe") then Ok HostedSafe
  else if bool_decide (value = "hosted_dev") then Ok HostedDev
  else if bool_decide (value = "hosted_yolo_tenant_scoped") then Ok HostedYoloTenantScoped
  else if bool_decide (value = "enterprise_safe") then Ok EnterpriseSafe
  else if bool_decide (value = "enterprise_dev") then Ok EnterpriseDev
  else if bool_decide (value = "enterprise_yolo_dedicated") then Ok EnterpriseYoloDedicated
  else if bool_decide (value = "sandboxed") then Ok Sandboxed
  else if bool_decide (value = "experiment") then Ok Experiment
  else Err (mk_ParseError "runtime profile" value).

Definition is_local (self : RuntimeProfile) : bool :=
  match self with
  | LocalSafe | LocalDev | LocalYolo | Full => true
  | SecureDefault | HostedSafe | HostedDev | HostedYoloTenantScoped | EnterpriseSafe
  | EnterpriseDev | EnterpriseYoloDedicated | Sandboxed | Experiment => false
  end.

Definition is_hosted (self : RuntimeProfile) : bool :=
  match self with
  | HostedSafe | HostedDev | HostedYoloTenantScoped => true
  | SecureDefault | LocalSafe | LocalDev | LocalYolo | Full | EnterpriseSafe
  | EnterpriseDev | EnterpriseYoloDedicated | Sandboxed | Experiment => false
  end.

Definition is_enterprise (self : RuntimeProfile) : bool :=
  match self with
  | EnterpriseSafe | EnterpriseDev | EnterpriseYoloDedicated => true
  | SecureDefault | LocalSafe | LocalDev | LocalYolo | Full | HostedSafe | HostedDev
  | HostedYoloTenantScoped | Sandboxed | Experiment => false
  end.

Definition is_yolo (self : RuntimeProfile) : bool :=
  match self with
  | LocalYolo | HostedYoloTenantScoped | EnterpriseYoloDedicated => true
  | SecureDefault | LocalSafe | LocalDev | Full | HostedSafe | HostedDev | EnterpriseSafe
  | EnterpriseDev | Sandboxed | Experiment => false
  end.

Inductive FilesystemBackendKind : Type :=
| FsScopedVirtual | FsHostWorkspace | FsHostWorkspaceAndHome | FsTenantWorkspace
| FsOrgDedicatedWorkspace.
Inductive ProcessBackendKind : Type :=
| ProcNone | ProcDocker | ProcSrt | ProcSmolVm | ProcLocalHost | ProcTenantSandbox
| ProcOrgDedicatedRunner.
Inductive NetworkMode : Type :=
| NetDeny | NetBrokered | NetAllowlist | NetDirectLogged | NetDirect.
Inductive SecretMode : Type :=
| SecDeny | SecBrokeredHandles | SecTenantBroker | SecOrgBroker | SecScrubbedEnv
| SecInheritedEnv.
Inductive ApprovalPolicy : Type :=
| ApprAskAlways | ApprAskWrites | ApprAskDestructive | ApprOrgPolicy | ApprMinimal.
Inductive AuditMode : Type := AuditLocalMinimal | AuditStandard | AuditOrgPolicy.

#[export] Instance FilesystemBackendKind_eq_dec : EqDecision FilesystemBackendKind.
Proof. solve_decision. Defined.
#[export] Instance ProcessBackendKind_eq_dec : EqDecision ProcessBackendKind.
Proof. solve_decision. Defined.
#[export] Instance SecretMode_eq_dec : EqDecision SecretMode.
Proof. solve_decision. Defined.
#[export] Instance ApprovalPolicy_eq_dec : EqDecision ApprovalPolicy.
Proof. solve_decision. Defined.

Record EffectiveRuntimePolicy : Type := mk_EffectiveRuntimePolicy {
  deployment : DeploymentMode;
  requested_profile : RuntimeProfile;
  resolved_profile : RuntimeProfile;
  filesystem_backend : FilesystemBackendKind;
  process_backend : ProcessBackendKind;
  network_mode : NetworkMode;
  secret_mode : SecretMode;
  approval_policy : ApprovalPolicy;
  audit_mode : AuditMode }.

Definition was_reduced (self : EffectiveRuntimePolicy) : bool :=
  negb (bool_decide (requested_profile self = resolved_profile self)).

(** ** Resolver *)

Record OrgPolicyConstraints : Type := mk_OrgPolicyConstraints {
  max_profile : option RuntimeProfile;
  admin_approves_dedicated_yolo : bool }.

Record ResolveRequest : Type := mk_ResolveRequest {
  req_deployment : DeploymentMode;
  req_requested_profile : RuntimeProfile;
  org_policy : OrgPolicyConstraints;
  yolo_disclosure_acknowledged : bool }.

Definition ResolveRequest_new (d : DeploymentMode) (p : RuntimeProfile) : ResolveRequest :=
  mk_ResolveRequest d p (mk_OrgPolicyConstraints None false) false.

Inductive ResolveError : Type :=
| IncompatibleDeployment (deployment : DeploymentMode) (profile : RuntimeProfile)
| YoloRequiresDisclosure (profile : RuntimeProfile)
| DedicatedYoloRequiresOrgAdminApproval
| OrgPolicyCeilingFamilyMismatch (requested ceiling : RuntimeProfile).

Definition is_compatible (d : DeploymentMode) (p : RuntimeProfile) : bool :=
  match d, p with
  | _, SecureDefault | _, Sandboxed | _, Experiment => true
  | LocalSingleUser, (LocalSafe | LocalDev | LocalYolo | Full) => true
  | HostedMultiTenant, (HostedSafe | HostedDev | HostedYoloTenantScoped) => true
  | EnterpriseDedicated, (EnterpriseSafe | EnterpriseDev | EnterpriseYoloDedicated) => true
  | _, _ => false
  end.

Inductive ProfileFamily : Type := FamLocal | FamHosted | FamEnterprise.

#[export] Instance ProfileFamily_eq_dec : EqDecision ProfileFamily.
Proof. solve_decision. Defined.

Definition family_rank (p : RuntimeProfile) : option (ProfileFamily * Z) :=
  match p with
  | LocalSafe => Some (FamLocal, 1)
  | LocalDev => Some (FamLocal, 2)
  | LocalYolo => Some (FamLocal, 3)
  | Full => Some (FamLocal, 4)
  | HostedSafe => Some (FamHosted, 1)
  | HostedDev => Some (FamHosted, 2)
  | HostedYoloTenantScoped => Some (FamHosted, 3)
  | EnterpriseSafe => Some (FamEnterprise, 1)
  | EnterpriseDev => Some (FamEnterprise, 2)
  | EnterpriseYoloDedicated => Some (FamEnterprise, 3)
  | _ => None
  end.

Definition narrow_to_ceiling (requested ceiling : RuntimeProfile) :
    result RuntimeProfile ResolveError :=
  let? (req_family, req_rank) := ok_or (family_rank requested)
    (OrgPolicyCeilingFamilyMismatch requested ceiling) in
  let? (ceil_family, ceil_rank) := ok_or (family_rank ceiling)
    (OrgPolicyCeilingFamilyMismatch requested ceiling) in
  if negb (bool_decide (req_family = ceil_family)) then
    Err (OrgPolicyCeilingFamilyMismatch requested ceiling)
  else if ceil_rank <? req_rank then Ok ceiling else Ok requested.

Definition sandboxed_filesystem_for (d : DeploymentMode) : FilesystemBackendKind :=
  match d with
  | LocalSingleUser => FsScopedVirtual
  | HostedMultiTenant => FsTenantWorkspace
  | EnterpriseDedicated => FsOrgDedicatedWorkspace
  end.

Definition sandboxed_secret_for (d : DeploymentMode) : SecretMode :=
  match d with
  | LocalSingleUser => SecBrokeredHandles
  | HostedMultiTenant => SecTenantBroker
  | EnterpriseDedicated => SecOrgBroker
  end.

Definition audit_for (d : DeploymentMode) : AuditMode :=
  match d with
  | LocalSingleUser => AuditLocalMinimal
  | HostedMultiTenant => AuditStandard
  | EnterpriseDedicated => AuditOrgPolicy
  end.

Definition backends_for (d : DeploymentMode) (p : RuntimeProfile) :
    FilesystemBackendKind * ProcessBackendKind * NetworkMode * SecretMode * ApprovalPolicy
    * AuditMode :=
  match p with
  | SecureDefault => (FsScopedVirtual, ProcNone, NetBrokered, SecBrokeredHandles,
                      ApprAskAlways, audit_for d)
  | LocalSafe => (FsHostWorkspace, ProcLocalHost, NetBrokered, SecScrubbedEnv,
                  ApprAskWrites, AuditLocalMinimal)
  | LocalDev => (FsHostWorkspace, ProcLocalHost, NetDirectLogged, SecScrubbedEnv,
                 ApprAskDestructive, AuditLocalMinimal)
  | LocalYolo => (FsHostWorkspaceAndHome, ProcLocalHost, NetDirect, SecInheritedEnv,
                  ApprMinimal, AuditLocalMinimal)
  | Full => (FsHostWorkspaceAndHome, ProcLocalHost, NetDirect, SecInheritedEnv,
             ApprMinimal, AuditLocalMinimal)
  | HostedSafe => (FsTenantWorkspace, ProcTenantSandbox, NetBrokered, SecTenantBroker,
                   ApprAskWrites, AuditStandard)
  | HostedDev => (FsTenantWorkspace, ProcTenantSandbox, NetAllowlist, SecTenantBroker,
                  ApprAskDestructive, AuditStandard)
  | HostedYoloTenantScoped => (FsTenantWorkspace, ProcTenantSandbox, NetAllowlist,
                               SecTenantBroker, ApprMinimal, AuditStandard)
  | EnterpriseSafe => (FsOrgDedicatedWorkspace, ProcOrgDedicatedRunner, NetBrokered,
                       SecOrgBroker, ApprOrgPolicy, AuditOrgPolicy)
  | EnterpriseDev => (FsOrgDedicatedWorkspace, ProcOrgDedicatedRunner, NetAllowlist,
                      SecOrgBroker, ApprOrgPolicy, AuditOrgPolicy)
  | EnterpriseYoloDedicated => (FsOrgDedicatedWorkspace, ProcOrgDedicatedRunner,
                                NetDirectLogged, SecOrgBroker, ApprOrgPolicy, AuditOrgPolicy)
  | Sandboxed => (sandboxed_filesystem_for d, ProcSrt, NetBrokered, sandboxed_secret_for d,
                  ApprAskWrites, audit_for d)
  | Experiment => (sandboxed_filesystem_for d, ProcSmolVm, NetAllowlist,
                   sandboxed_secret_for d, ApprAskDestructive, audit_for d)
  end.

Definition map_to_effective (d : DeploymentMode) (requested resolved : RuntimeProfile) :
    EffectiveRuntimePolicy :=
  let '(fs, proc, net, sec, appr, audit) := backends_for d resolved in
  mk_EffectiveRuntimePolicy d requested resolved fs proc net sec appr audit.

Definition resolve (req : ResolveRequest) : result EffectiveRuntimePolicy ResolveError :=
  if negb (is_compatible (req_deployment req) (req_requested_profile req)) then
    Err (IncompatibleDeployment (req_deployment req) (req_requested_profile req))
  else if is_yolo (req_requested_profile req) && negb (yolo_disclosure_acknowledged req) then
    Err (YoloRequiresDisclosure (req_requested_profile req))
  else if bool_decide (req_requested_profile req = EnterpriseYoloDedicated)
          && negb (admin_approves_dedicated_yolo (org_policy req)) then
    Err DedicatedYoloRequiresOrgAdminApproval
  else
    let? resolved :=
      match max_profile (org_policy req) with
      | Some ceiling => narrow_to_ceiling (req_requested_profile req) ceiling
      | None => Ok (req_requested_profile req)
      end in
    Ok (map_to_effective (req_deployment req) (req_requested_profile req) resolved).

(** ** Authority order

    Network modes in the order the vocabulary documents; approval policies by how
    rarely they ask; filesystem and secret backends by what they expose. *)

Definition network_rank (m : NetworkMode) : Z :=
  match m with
  | NetDeny => 0 | NetBrokered => 1 | NetAllowlist => 2 | NetDirectLogged => 3 | NetDirect => 4
  end.

Definition approval_rank (a : ApprovalPolicy) : Z :=
  match a with
  | ApprAskAlways => 0 | ApprAskWrites => 1 | ApprAskDestructive => 2 | ApprOrgPolicy => 3
  | ApprMinimal => 4
  end.

Definition filesystem_rank (f : FilesystemBackendKind) : Z :=
  match f with
  | FsScopedVirtual => 0 | FsTenantWorkspace | FsOrgDedicatedWorkspace | FsHostWorkspace => 1
  | FsHostWorkspaceAndHome => 2
  end.

Definition secret_rank (s : SecretMode) : Z :=
  match s with
  | SecDeny => 0 | SecBrokeredHandles | SecTenantBroker | SecOrgBroker => 1
  | SecScrubbedEnv => 2 | SecInheritedEnv => 3
  end.

(** [p] exposes no more than [q]. *)
Definition no_wider (p q : EffectiveRuntimePolicy) : Prop :=
  network_rank (network_mode p) <= network_rank (network_mode q)
  /\ approval_rank (approval_policy p) <= approval_rank (approval_policy q)
  /\ filesystem_rank (filesystem_backend p) <= filesystem_rank (filesystem_backend q)
  /\ secret_rank (secret_mode p) <= secret_rank (secret_mode q)
  /\ process_backend p = process_backend q.

(** ** Lemmas *)

(** Inverts a successful resolution. *)
Lemma resolve_ok req p :
  resolve req = Ok p ->
  is_compatible (req_deployment req) (req_requested_profile req) = true
  /\ (is_yolo (req_requested_profile req) = true -> yolo_disclosure_acknowledged req = true)
  /\ (req_requested_profile req = EnterpriseYoloDedicated ->
      admin_approves_dedicated_yolo (org_policy req) = true)
  /\ exists r,
       match max_profile (org_policy req) with
       | Some ceiling => narrow_to_ceiling (req_requested_profile req) ceiling = Ok r
       | None => r = req_requested_profile req
       end
       /\ p = map_to_effective (req_deployment req) (req_requested_profile req) r.
Proof.
  unfold resolve.
  destruct (is_compatible _ _); [|done]. simpl.
  destruct (is_yolo _) eqn:Hy, (yolo_disclosure_acknowledged req); simpl; try done.
  all: case_bool_decide; destruct (admin_approves_dedicated_yolo _); simpl; try done.
  all: destruct (max_profile (org_policy req)) as [c|]; simpl;
       [destruct (narrow_to_ceiling _ c) as [r|] eqn:Hn; [|done]|];
       intros [= <-]; split_and!; try done; eexists; split; try reflexivity; eauto.
Qed.

Lemma narrow_ok requested ceiling r :
  narrow_to_ceiling requested ceiling = Ok r ->
  exists fam rq cl rr,
    family_rank requested = Some (fam, rq) /\ family_rank ceiling = Some (fam, cl)
    /\ family_rank r = Some (fam, rr) /\ rr = Z.min rq cl
    /\ (r = requested \/ r = ceiling).
Proof.
  unfold narrow_to_ceiling, ok_or.
  destruct (family_rank requested) as [[f1 r1]|] eqn:H1; [|done].
  destruct (family_rank ceiling) as [[f2 r2]|] eqn:H2; [|done]. simpl.
  case_bool_decide as Hf; [|done]. subst f2. simpl. destruct (r2 <? r1) eqn:Hlt; intros [= <-].
  - apply Z.ltb_lt in Hlt. exists f1, r1, r2, r2. split_and!; auto. lia.
  - apply Z.ltb_ge in Hlt. exists f1, r1, r2, r1. split_and!; auto. lia.
Qed.

Lemma family_compatible d p q fam a b :
  family_rank p = Some (fam, a) -> family_rank q = Some (fam, b) ->
  is_compatible d p = true -> is_compatible d q = true.
Proof. destruct d, p; simpl; try done; intros [= <- <-]; destruct q; simpl; done. Qed.

Lemma lower_rank_no_wider d p q fam a b :
  family_rank p = Some (fam, a) -> family_rank q = Some (fam, b) -> a <= b ->
  no_wider (map_to_effective d q p) (map_to_effective d q q).
Proof.
  unfold no_wider.
  destruct p; simpl; try done; intros [= <- <-]; destruct q; simpl; try done; intros [= <-] Hle;
    try lia; split_and!; try done; lia.
Qed.

Lemma host_backends_local d p q :
  is_compatible d q = true -> d <> LocalSingleUser ->
  let e := map_to_effective d p q in
  filesystem_backend e <> FsHostWorkspace /\ filesystem_backend e <> FsHostWorkspaceAndHome
  /\ process_backend e <> ProcLocalHost /\ network_rank (network_mode e) < network_rank NetDirect
  /\ secret_rank (secret_mode e) <= secret_rank SecBrokeredHandles.
Proof. destruct d, q; simpl; try done; intros _ _; split_and!; done || lia. Qed.

Lemma map_to_effective_fields d a b :
  deployment (map_to_effective d a b) = d /\ resolved_profile (map_to_effective d a b) = b.
Proof. unfold map_to_effective. by destruct (backends_for d b) as [[[[[] ] ] ] ]. Qed.

Lemma resolved_compatible req p :
  resolve req = Ok p ->
  is_compatible (req_deployment req) (resolved_profile p) = true
  /\ deployment p = req_deployment req
  /\ p = map_to_effective (req_deployment req) (req_requested_profile req) (resolved_profile p).
Proof.
  intros (Hc & _ & _ & r & Hr & ->)%resolve_ok.
  destruct (map_to_effective_fields (req_deployment req) (req_requested_profile req) r) as [-> ->].
  split_and!; [|done..]. destruct (max_profile _); [|by subst].
  apply narrow_ok in Hr as (fam & rq & cl & rr & H1 & H2 & H3 & _).
  exact (family_compatible _ _ _ _ _ _ H1 H3 Hc).
Qed.

(** ** Properties *)

(** The hosted and enterprise boundary.  Outside a local single-user
    deployment no successful resolution selects a host filesystem, the host's own
    shell, unlogged direct networking, or environment secrets; and no local
    profile resolves. *)
Theorem resolve_host_boundary req p :
  resolve req = Ok p -> req_deployment req <> LocalSingleUser ->
  is_local (resolved_profile p) = false
  /\ filesystem_backend p <> FsHostWorkspace /\ filesystem_backend p <> FsHostWorkspaceAndHome
  /\ process_backend p <> ProcLocalHost /\ network_rank (network_mode p) < network_rank NetDirect
  /\ secret_rank (secret_mode p) <= secret_rank SecBrokeredHandles.
Proof.
  intros H Hd. destruct (resolved_compatible _ _ H) as (Hc & _ & Hp). split.
  - destruct (req_deployment req), (resolved_profile p); done.
  - rewrite Hp. by apply host_backends_local.
Qed.

Lemma resolve_host_boundary_witness :
  exists p, resolve (mk_ResolveRequest HostedMultiTenant HostedYoloTenantScoped
                       (mk_OrgPolicyConstraints (Some HostedDev) false) true) = Ok p
    /\ process_backend p <> ProcLocalHost.
Proof.
  eexists. split; [reflexivity|].
  eapply (resolve_host_boundary (mk_ResolveRequest HostedMultiTenant HostedYoloTenantScoped
    (mk_OrgPolicyConstraints (Some HostedDev) false) true)); [reflexivity|done].
Defined.

(** Monotone safety.  Without a ceiling a successful resolution keeps the
    requested profile; with one it is the lower of the two in their common family.
    Either way the policy is no wider, in network, approvals, filesystem, secrets
    and process backend, than the requested profile's own policy. *)
Theorem resolve_monotone req p :
  resolve req = Ok p ->
  no_wider p (map_to_effective (req_deployment req) (req_requested_profile req)
                (req_requested_profile req))
  /\ match max_profile (org_policy req) with
     | None => resolved_profile p = req_requested_profile req
     | Some ceiling => exists fam rq cl,
         family_rank (req_requested_profile req) = Some (fam, rq)
         /\ family_rank ceiling = Some (fam, cl)
         /\ family_rank (resolved_profile p) = Some (fam, Z.min rq cl)
     end.
Proof.
  intros H. destruct (resolved_compatible _ _ H) as (_ & _ & Hp).
  apply resolve_ok in H as (_ & _ & _ & r & Hr & ->).
  set (r' := resolved_profile _) in *.
  assert (r' = r) as -> by (apply map_to_effective_fields).
  destruct (max_profile _) as [c|].
  - apply narrow_ok in Hr as (fam & rq & cl & rr & H1 & H2 & H3 & -> & _). split; [|eauto 6].
    eapply lower_rank_no_wider; [done..|lia].
  - subst r. split; [|done]. unfold no_wider. split_and!; done || lia.
Qed.

Lemma resolve_monotone_witness :
  exists p, resolve (mk_ResolveRequest LocalSingleUser Full
                       (mk_OrgPolicyConstraints (Some LocalSafe) false) false) = Ok p
    /\ no_wider p (map_to_effective LocalSingleUser Full Full) /\ was_reduced p = true.
Proof.
  eexists. split; [reflexivity|]. split; [|reflexivity].
  exact (proj1 (resolve_monotone (mk_ResolveRequest LocalSingleUser Full
    (mk_OrgPolicyConstraints (Some LocalSafe) false) false) _ eq_refl)).
Defined.

(** The gates.  A yolo profile is never granted on request without the
    disclosure acknowledgement, and the dedicated enterprise yolo profile is never
    the outcome, however it was reached, without the administrator's approval. *)
Theorem resolve_gates req p :
  resolve req = Ok p ->
  (is_yolo (req_requested_profile req) = true -> yolo_disclosure_acknowledged req = true)
  /\ (resolved_profile p = EnterpriseYoloDedicated ->
      admin_approves_dedicated_yolo (org_policy req) = true
      /\ yolo_disclosure_acknowledged req = true).
Proof.
  intros H. pose proof (resolve_ok _ _ H) as (_ & Hy & Ha & r & Hr & Hp). split; [done|].
  intros Hres. assert (r = EnterpriseYoloDedicated) as ->.
  { by rewrite Hp, (proj2 (map_to_effective_fields _ _ _)) in Hres. }
  assert (req_requested_profile req = EnterpriseYoloDedicated) as E; [|rewrite E in *; auto].
  destruct (max_profile _) as [c|]; [|done].
  apply narrow_ok in Hr as (fam & rq & cl & rr & H1 & H2 & H3 & H4 & _).
  simpl in H3. injection H3 as <- <-.
  destruct (req_requested_profile req); simpl in H1; simplify_eq; lia || done.
Qed.

Lemma resolve_gates_witness :
  exists p, resolve (mk_ResolveRequest EnterpriseDedicated EnterpriseYoloDedicated
                       (mk_OrgPolicyConstraints None true) true) = Ok p
    /\ (true = true -> true = true).
Proof.
  eexists. split; [reflexivity|].
  exact (proj1 (resolve_gates (mk_ResolveRequest EnterpriseDedicated EnterpriseYoloDedicated
    (mk_OrgPolicyConstraints None true) true) _ eq_refl)).
Defined.

(** A yolo profile can be resolved without any disclosure: [Full] under a
    [LocalYolo] ceiling resolves to [LocalYolo], with minimal approvals, although
    nothing was acknowledged. *)
Theorem full_reaches_yolo_undisclosed admin :
  exists p, resolve (mk_ResolveRequest LocalSingleUser Full
                       (mk_OrgPolicyConstraints (Some LocalYolo) admin) false) = Ok p
    /\ is_yolo (resolved_profile p) = true /\ approval_policy p = ApprMinimal.
Proof. eexists. by split. Qed.

(** The wire names of deployments and profiles round trip, and nothing else
    parses. *)
Theorem wire_names_round_trip :
  (forall s d, DeploymentMode_from_str s = Ok d <-> s = DeploymentMode_as_str d)
  /\ (forall s p, RuntimeProfile_from_str s = Ok p <-> s = RuntimeProfile_as_str p).
Proof.
  split; intros s x; split; [|by intros ->; destruct x| |by intros ->; destruct x].
  - unfold DeploymentMode_from_str. repeat case_bool_decide; intros [= <-]; done.
  - unfold RuntimeProfile_from_str. repeat case_bool_decide; intros [= <-]; done.
Qed.
