(* ===== verification/Budget.v ===== *)
(** * Budgets: accounts, limits, periods and tallies

    [crates/brassclaw_resources/src/lib.rs] (accounts, limits, tallies, limit and
    threshold checks) and [period.rs] (budget periods).  Money is a [Decimal],
    other amounts are machine integers in [Z], utilisation is an IEEE double.
    The theorems give the arithmetic of a tally dimension by dimension, decide
    when an account denies a reservation, and describe the period windows. *)

From S2P Require Import Prelude External HostIds Paths HostTypes.

(** ** Periods and thresholds ([period.rs]) *)

Inductive PeriodUnit : Type := PeriodDay | PeriodWeek | PeriodMonth.

#[export] Instance PeriodUnit_eq_dec : EqDecision PeriodUnit.
Proof. solve_decision. Defined.

Section Periods.
Context `{Cal : Calendar}.

Inductive BudgetPeriod : Type :=
| PerInvocation
| Rolling24h
| PeriodCalendar (zone : tz) (unit : PeriodUnit).

#[export] Instance BudgetPeriod_eq_dec : EqDecision BudgetPeriod.
Proof. solve_decision. Defined.

(** The start and end dates of the window around a local date. *)
Definition calendar_dates (unit : PeriodUnit) (local_date : Z) : Z * Z :=
  match unit with
  | PeriodDay => (local_date, local_date + 1)
  | PeriodWeek =>
      let week_start := local_date - num_days_from_monday local_date in
      (week_start, week_start + 7)
  | PeriodMonth =>
      let month_start :=
        default local_date (from_ymd_opt (date_year local_date) (date_month local_date) 1) in
      let next_month := default month_start
        (if date_month local_date =? 12
         then from_ymd_opt (date_year local_date + 1) 1 1
         else from_ymd_opt (date_year local_date) (date_month local_date + 1) 1) in
      (month_start, next_month)
  end.

Definition calendar_bounds (zone : tz) (unit : PeriodUnit) (now : Z) : Z * Z :=
  let '(start_date, end_date) := calendar_dates unit (local_date zone now) in
  (default now (local_midnight zone start_date),
   default (now + days 1) (local_midnight zone end_date)).

Definition period_bounds (period : BudgetPeriod) (now : Z) : Z * Z :=
  match period with
  | PerInvocation => (now, MAX_UTC)
  | Rolling24h => (now, now + hours 24)
  | PeriodCalendar zone unit => calendar_bounds zone unit now
  end.

Definition period_has_rolled_over (current_end now : Z) : bool := current_end <=? now.

End Periods.

Record BudgetThresholds : Type := mk_BudgetThresholds { warn_at : f64; pause_at : f64 }.

Definition BudgetThresholds_DISABLED : BudgetThresholds := mk_BudgetThresholds f64_one f64_one.

Inductive BudgetThresholdsError : Type := NotFinite | Negative | PauseBelowWarn.

Definition BudgetThresholds_validate (self : BudgetThresholds) : result unit BudgetThresholdsError :=
  if negb (f64_is_finite (warn_at self)) || negb (f64_is_finite (pause_at self)) then Err NotFinite
  else if f64_lt (warn_at self) f64_zero || f64_lt (pause_at self) f64_zero then Err Negative
  else if f64_lt (pause_at self) (warn_at self) then Err PauseBelowWarn
  else Ok tt.

(** ** Accounts *)

Inductive ResourceAccount : Type :=
| AccTenant (tenant_id : TenantId)
| AccUser (tenant_id : TenantId) (user_id : UserId)
| AccProject (tenant_id : TenantId) (user_id : UserId) (project_id : ProjectId)
| AccAgent (tenant_id : TenantId) (user_id : UserId) (project_id : option ProjectId)
    (agent_id : AgentId)
| AccThread (tenant_id : TenantId) (user_id : UserId) (project_id : option ProjectId)
    (thread_id : ThreadId).

#[export] Instance ResourceAccount_eq_dec : EqDecision ResourceAccount.
Proof. solve_decision. Defined.

#[export] Instance ResourceAccount_countable : Countable ResourceAccount.
Proof.
  set (enc a := match a with
    | AccTenant t => inl (inl t)
    | AccUser t u => inl (inr (t, u))
    | AccProject t u p => inr (inl (t, u, p))
    | AccAgent t u p a => inr (inr (inl (t, u, p, a)))
    | AccThread t u p x => inr (inr (inr (t, u, p, x)))
    end).
  set (dec_ x := match x with
    | inl (inl t) => AccTenant t
    | inl (inr (t, u)) => AccUser t u
    | inr (inl (t, u, p)) => AccProject t u p
    | inr (inr (inl (t, u, p, a))) => AccAgent t u p a
    | inr (inr (inr (t, u, p, x))) => AccThread t u p x
    end).
  apply (inj_countable' enc dec_). by intros [].
Defined.

Definition cascade (scope : ResourceScope) : list ResourceAccount :=
  [AccTenant (rs_tenant_id scope); AccUser (rs_tenant_id scope) (rs_user_id scope)]
  ++ match rs_project_id scope with
     | Some project_id => [AccProject (rs_tenant_id scope) (rs_user_id scope) project_id]
     | None => []
     end
  ++ match rs_agent_id scope with
     | Some agent_id =>
         [AccAgent (rs_tenant_id scope) (rs_user_id scope) (rs_project_id scope) agent_id]
     | None => []
     end
  ++ match rs_thread_id scope with
     | Some thread_id =>
         [AccThread (rs_tenant_id scope) (rs_user_id scope) (rs_project_id scope) thread_id]
     | None => []
     end.

(** [into_iter().next_back().unwrap_or_else(..)]. *)
Definition most_specific_account (scope : ResourceScope) : ResourceAccount :=
  default (AccTenant (rs_tenant_id scope)) (last (cascade scope)).

(** [Display]. *)
Definition opt_segment {k} (id : option (string_id k)) : string :=
  match id with Some i => as_str i | None => "_" end.

Definition ResourceAccount_display (self : ResourceAccount) : string :=
  join_char slash
    match self with
    | AccTenant t => ["tenant"; as_str t]
    | AccUser t u => ["tenant"; as_str t; "user"; as_str u]
    | AccProject t u p => ["tenant"; as_str t; "user"; as_str u; "project"; as_str p]
    | AccAgent t u p a =>
        ["tenant"; as_str t; "user"; as_str u; "project"; opt_segment p; "agent"; as_str a]
    | AccThread t u p x =>
        ["tenant"; as_str t; "user"; as_str u; "project"; opt_segment p; "thread"; as_str x]
    end.

Inductive ResourceDimension : Type :=
| DimUsd | DimInputTokens | DimOutputTokens | DimWallClockMs | DimOutputBytes
| DimNetworkEgressBytes | DimProcessCount | DimConcurrencySlots.

#[export] Instance ResourceDimension_eq_dec : EqDecision ResourceDimension.
Proof. solve_decision. Defined.

Section Amounts.
Context `{D : Decimal} `{Cal : Calendar}.

(** ** Limits *)

Record ResourceLimits : Type := mk_ResourceLimits {
  max_usd : option dec;
  max_input_tokens : option Z;
  max_output_tokens : option Z;
  max_wall_clock_ms : option Z;
  max_output_bytes : option Z;
  max_network_egress_bytes : option Z;
  max_process_count : option Z;
  max_concurrency_slots : option Z;
  lim_period : BudgetPeriod;
  lim_thresholds : BudgetThresholds }.

Definition is_decimal_unlimited (value : option dec) : bool :=
  match value with None => true | Some v => negb (dec_ltb dec_zero v) end.

Definition is_integer_unlimited (value : option Z) : bool :=
  match value with None => true | Some v => v =? 0 end.

Definition is_unlimited (self : ResourceLimits) : bool :=
  is_decimal_unlimited (max_usd self)
  && is_integer_unlimited (max_input_tokens self)
  && is_integer_unlimited (max_output_tokens self)
  && is_integer_unlimited (max_wall_clock_ms self)
  && is_integer_unlimited (max_output_bytes self)
  && is_integer_unlimited (max_network_egress_bytes self)
  && is_integer_unlimited (max_process_count self)
  && is_integer_unlimited (max_concurrency_slots self).

(** ** Denials, approvals, warnings, errors *)

Inductive ResourceValue : Type := VDecimal (d : dec) | VInteger (n : Z).

Record ResourceDenial : Type := mk_ResourceDenial {
  rd_account : ResourceAccount;
  rd_dimension : ResourceDimension;
  rd_limit : ResourceValue;
  rd_current_usage : ResourceValue;
  rd_active_reserved : ResourceValue;
  rd_requested : ResourceValue }.

Record ResourceApprovalNeeded : Type := mk_ResourceApprovalNeeded {
  ran_account : ResourceAccount;
  ran_dimension : ResourceDimension;
  ran_limit : ResourceValue;
  ran_current_usage : ResourceValue;
  ran_active_reserved : ResourceValue;
  ran_requested : ResourceValue;
  ran_utilization : f64;
  ran_period_end : option Z }.

Record BudgetWarning : Type := mk_BudgetWarning {
  bw_account : ResourceAccount;
  bw_dimension : ResourceDimension;
  bw_utilization : f64;
  bw_limit : ResourceValue;
  bw_period_end : option Z }.

Inductive ResourceError : Type :=
| LimitExceeded (denial : ResourceDenial) (warnings : list BudgetWarning)
| RequiresApproval (needed : ResourceApprovalNeeded) (warnings : list BudgetWarning)
| ReservationAlreadyExists (id : ResourceReservationId)
| InvalidEstimate (dimension : ResourceDimension) (reason : string)
| ReservationMismatch (id : ResourceReservationId)
| UnknownReservation (id : ResourceReservationId)
| ReservationClosed (id : ResourceReservationId) (status : ReservationStatus)
| Storage (reason : string).

(** ** Tallies *)

Record ResourceTally : Type := mk_ResourceTally {
  t_usd : dec;
  t_input_tokens : Z;
  t_output_tokens : Z;
  t_wall_clock_ms : Z;
  t_output_bytes : Z;
  t_network_egress_bytes : Z;
  t_process_count : Z;
  t_concurrency_slots : Z }.

Definition ResourceTally_default : ResourceTally := mk_ResourceTally dec_zero 0 0 0 0 0 0 0.

(** [ResourceTally == ResourceTally]. *)
Definition ResourceTally_eqb (a b : ResourceTally) : bool :=
  dec_eqb (t_usd a) (t_usd b)
  && (t_input_tokens a =? t_input_tokens b)
  && (t_output_tokens a =? t_output_tokens b)
  && (t_wall_clock_ms a =? t_wall_clock_ms b)
  && (t_output_bytes a =? t_output_bytes b)
  && (t_network_egress_bytes a =? t_network_egress_bytes b)
  && (t_process_count a =? t_process_count b)
  && (t_concurrency_slots a =? t_concurrency_slots b).

Definition from_estimate (estimate : ResourceEstimate) : ResourceTally :=
  mk_ResourceTally (default dec_zero (est_usd estimate)) (default 0 (est_input_tokens estimate))
    (default 0 (est_output_tokens estimate)) (default 0 (est_wall_clock_ms estimate))
    (default 0 (est_output_bytes estimate)) (default 0 (est_network_egress_bytes estimate))
    (default 0 (est_process_count estimate)) (default 0 (est_concurrency_slots estimate)).

Definition from_usage (usage : ResourceUsage) : ResourceTally :=
  mk_ResourceTally (use_usd usage) (use_input_tokens usage) (use_output_tokens usage)
    (use_wall_clock_ms usage) (use_output_bytes usage) (use_network_egress_bytes usage)
    (use_process_count usage) 0.

Definition inconsistent_tally_error : ResourceError :=
  Storage "resource reservation ledger is inconsistent".

Definition unrepresentable (dimension : ResourceDimension) : ResourceError :=
  InvalidEstimate dimension "aggregate resource tally cannot be represented".

(** A sum both operands can be taken back from. *)
Definition certified_add (a b : dec) : option dec :=
  match dec_checked_add a b with
  | Some sum =>
      if opt_dec_eqb (dec_checked_sub sum a) (Some b)
         && opt_dec_eqb (dec_checked_sub sum b) (Some a) then Some sum else None
  | None => None
  end.

Definition certified_sub (a b : dec) : option dec :=
  match dec_checked_sub a b with
  | Some amount =>
      if negb (dec_ltb amount dec_zero)
         && opt_dec_eqb (dec_checked_sub a amount) (Some b)
         && opt_dec_eqb (dec_checked_add amount b) (Some a) then Some amount else None
  | None => None
  end.

Definition checked_add (self other : ResourceTally) : result ResourceTally ResourceError :=
  if dec_ltb (t_usd self) dec_zero || dec_ltb (t_usd other) dec_zero then
    Err inconsistent_tally_error
  else
    let? usd := ok_or (certified_add (t_usd self) (t_usd other)) (unrepresentable DimUsd) in
    let? it := ok_or (u64_checked_add (t_input_tokens self) (t_input_tokens other))
      (unrepresentable DimInputTokens) in
    let? ot := ok_or (u64_checked_add (t_output_tokens self) (t_output_tokens other))
      (unrepresentable DimOutputTokens) in
    let? wc := ok_or (u64_checked_add (t_wall_clock_ms self) (t_wall_clock_ms other))
      (unrepresentable DimWallClockMs) in
    let? ob := ok_or (u64_checked_add (t_output_bytes self) (t_output_bytes other))
      (unrepresentable DimOutputBytes) in
    let? ne := ok_or (u64_checked_add (t_network_egress_bytes self) (t_network_egress_bytes other))
      (unrepresentable DimNetworkEgressBytes) in
    let? pc := ok_or (u32_checked_add (t_process_count self) (t_process_count other))
      (unrepresentable DimProcessCount) in
    let? cs := ok_or (u32_checked_add (t_concurrency_slots self) (t_concurrency_slots other))
      (unrepresentable DimConcurrencySlots) in
    Ok (mk_ResourceTally usd it ot wc ob ne pc cs).

Definition checked_sub (self other : ResourceTally) : result ResourceTally ResourceError :=
  if dec_ltb (t_usd self) dec_zero || dec_ltb (t_usd other) dec_zero then
    Err inconsistent_tally_error
  else
    let? usd := ok_or (certified_sub (t_usd self) (t_usd other)) inconsistent_tally_error in
    let? it := ok_or (u64_checked_sub (t_input_tokens self) (t_input_tokens other))
      inconsistent_tally_error in
    let? ot := ok_or (u64_checked_sub (t_output_tokens self) (t_output_tokens other))
      inconsistent_tally_error in
    let? wc := ok_or (u64_checked_sub (t_wall_clock_ms self) (t_wall_clock_ms other))
      inconsistent_tally_error in
    let? ob := ok_or (u64_checked_sub (t_output_bytes self) (t_output_bytes other))
      inconsistent_tally_error in
    let? ne := ok_or (u64_checked_sub (t_network_egress_bytes self) (t_network_egress_bytes other))
      inconsistent_tally_error in
    let? pc := ok_or (u32_checked_sub (t_process_count self) (t_process_count other))
      inconsistent_tally_error in
    let? cs := ok_or (u32_checked_sub (t_concurrency_slots self) (t_concurrency_slots other))
      inconsistent_tally_error in
    Ok (mk_ResourceTally usd it ot wc ob ne pc cs).

Definition validate_estimate (estimate : ResourceEstimate) : result unit ResourceError :=
  match est_usd estimate with
  | Some usd => if dec_ltb usd dec_zero then Err (InvalidEstimate DimUsd "must be non-negative")
                else Ok tt
  | None => Ok tt
  end.

Definition validate_usage (usage : ResourceUsage) : result unit ResourceError :=
  if dec_ltb (use_usd usage) dec_zero then Err (InvalidEstimate DimUsd "must be non-negative")
  else Ok tt.

(** ** Limit checks *)

Definition opt_filter {A} (p : A -> bool) (o : option A) : option A :=
  match o with Some v => if p v then Some v else None | None => None end.

Definition check_decimal (account : ResourceAccount) (dimension : ResourceDimension)
    (limit : option dec) (usage reserved requested : dec) : option ResourceDenial :=
  match opt_filter (fun v => dec_ltb dec_zero v) limit with
  | None => None
  | Some limit =>
      let exceeds :=
        match dec_checked_add usage reserved with
        | Some subtotal =>
            match dec_checked_add subtotal requested with
            | Some total => dec_ltb limit total
            | None => true
            end
        | None => true
        end in
      if exceeds then
        Some (mk_ResourceDenial account dimension (VDecimal limit) (VDecimal usage)
                (VDecimal reserved) (VDecimal requested))
      else None
  end.

Definition checked_total (usage reserved requested : Z) : option Z :=
  match u64_checked_add usage reserved with
  | Some total => u64_checked_add total requested
  | None => None
  end.

Definition check_integer (account : ResourceAccount) (dimension : ResourceDimension)
    (limit : option Z) (usage reserved requested : Z) : option ResourceDenial :=
  match opt_filter (fun v => 0 <? v) limit with
  | None => None
  | Some limit =>
      if match checked_total usage reserved requested with
         | Some total => limit <? total
         | None => true
         end then
        Some (mk_ResourceDenial account dimension (VInteger limit) (VInteger usage)
                (VInteger reserved) (VInteger requested))
      else None
  end.

(** [Option::or_else]. *)
Definition or_else {A} (o : option A) (f : option A) : option A :=
  match o with Some x => Some x | None => f end.

Definition check_limits_first_denial (account : ResourceAccount) (limits : ResourceLimits)
    (usage reserved requested : ResourceTally) : option ResourceDenial :=
  or_else (check_decimal account DimUsd (max_usd limits) (t_usd usage) (t_usd reserved)
             (t_usd requested))
  (or_else (check_integer account DimInputTokens (max_input_tokens limits)
              (t_input_tokens usage) (t_input_tokens reserved) (t_input_tokens requested))
  (or_else (check_integer account DimOutputTokens (max_output_tokens limits)
              (t_output_tokens usage) (t_output_tokens reserved) (t_output_tokens requested))
  (or_else (check_integer account DimWallClockMs (max_wall_clock_ms limits)
              (t_wall_clock_ms usage) (t_wall_clock_ms reserved) (t_wall_clock_ms requested))
  (or_else (check_integer account DimOutputBytes (max_output_bytes limits)
              (t_output_bytes usage) (t_output_bytes reserved) (t_output_bytes requested))
  (or_else (check_integer account DimNetworkEgressBytes (max_network_egress_bytes limits)
              (t_network_egress_bytes usage) (t_network_egress_bytes reserved)
              (t_network_egress_bytes requested))
  (or_else (check_integer account DimProcessCount (max_process_count limits)
              (t_process_count usage) (t_process_count reserved) (t_process_count requested))
           (check_integer account DimConcurrencySlots (max_concurrency_slots limits)
              (t_concurrency_slots usage) (t_concurrency_slots reserved)
              (t_concurrency_slots requested)))))))).

(** ** Threshold checks *)

Inductive ThresholdIntervention : Type :=
| Warning (w : BudgetWarning)
| Approval (a : ResourceApprovalNeeded).

Record ThresholdInputs (T : Type) : Type := mk_ThresholdInputs {
  ti_account : ResourceAccount;
  ti_dimension : ResourceDimension;
  ti_limit : option T;
  ti_usage : T;
  ti_reserved : T;
  ti_requested : T;
  ti_thresholds : BudgetThresholds;
  ti_period_end : option Z }.
Arguments mk_ThresholdInputs {T}.
Arguments ti_account {T} _.
Arguments ti_dimension {T} _.
Arguments ti_limit {T} _.
Arguments ti_usage {T} _.
Arguments ti_reserved {T} _.
Arguments ti_requested {T} _.
Arguments ti_thresholds {T} _.
Arguments ti_period_end {T} _.

Definition decimal_to_f64 (d : dec) : f64 := default f64_zero (dec_to_f64 d).

(** The two tests on a utilisation, common to both amount types. *)
Definition intervene {T} (inputs : ThresholdInputs T) (value : T -> ResourceValue) (limit : T)
    (utilization : f64) : option ThresholdIntervention :=
  let th := ti_thresholds inputs in
  if f64_lt (pause_at th) f64_one && f64_ge utilization (pause_at th) then
    Some (Approval (mk_ResourceApprovalNeeded (ti_account inputs) (ti_dimension inputs)
      (value limit) (value (ti_usage inputs)) (value (ti_reserved inputs))
      (value (ti_requested inputs)) utilization (ti_period_end inputs)))
  else if f64_lt (warn_at th) f64_one && f64_ge utilization (warn_at th) then
    Some (Warning (mk_BudgetWarning (ti_account inputs) (ti_dimension inputs) utilization
      (value limit) (ti_period_end inputs)))
  else None.

Definition threshold_decimal (inputs : ThresholdInputs dec) : option ThresholdIntervention :=
  match opt_filter (fun v => dec_ltb dec_zero v) (ti_limit inputs) with
  | None => None
  | Some limit =>
      match dec_checked_add (ti_usage inputs) (ti_reserved inputs) with
      | None => None
      | Some subtotal =>
          match dec_checked_add subtotal (ti_requested inputs) with
          | None => None
          | Some total =>
              intervene inputs VDecimal limit
                (f64_div (decimal_to_f64 total) (decimal_to_f64 limit))
          end
      end
  end.

Definition threshold_integer (inputs : ThresholdInputs Z) : option ThresholdIntervention :=
  match opt_filter (fun v => 0 <? v) (ti_limit inputs) with
  | None => None
  | Some limit =>
      match checked_total (ti_usage inputs) (ti_reserved inputs) (ti_requested inputs) with
      | None => None
      | Some total => intervene inputs VInteger limit (f64_div (f64_of_u64 total) (f64_of_u64 limit))
      end
  end.

(** The [absorb] closure over [(warnings, approval)]. *)
Definition absorb (acc : list BudgetWarning * option ResourceApprovalNeeded)
    (i : option ThresholdIntervention) : list BudgetWarning * option ResourceApprovalNeeded :=
  let '(warnings, approval) := acc in
  match i with
  | None => acc
  | Some (Warning w) => (warnings ++ [w], approval)
  | Some (Approval needed) =>
      (warnings ++ [mk_BudgetWarning (ran_account needed) (ran_dimension needed)
                      (ran_utilization needed) (ran_limit needed) (ran_period_end needed)],
       match approval with Some a => Some a | None => Some needed end)
  end.

Definition integer_dimensions (limits : ResourceLimits) (usage reserved requested : ResourceTally) :
    list (ResourceDimension * option Z * Z * Z * Z) :=
  [(DimInputTokens, max_input_tokens limits, t_input_tokens usage, t_input_tokens reserved,
    t_input_tokens requested);
   (DimOutputTokens, max_output_tokens limits, t_output_tokens usage, t_output_tokens reserved,
    t_output_tokens requested);
   (DimWallClockMs, max_wall_clock_ms limits, t_wall_clock_ms usage, t_wall_clock_ms reserved,
    t_wall_clock_ms requested);
   (DimOutputBytes, max_output_bytes limits, t_output_bytes usage, t_output_bytes reserved,
    t_output_bytes requested);
   (DimNetworkEgressBytes, max_network_egress_bytes limits, t_network_egress_bytes usage,
    t_network_egress_bytes reserved, t_network_egress_bytes requested);
   (DimProcessCount, max_process_count limits, t_process_count usage, t_process_count reserved,
    t_process_count requested);
   (DimConcurrencySlots, max_concurrency_slots limits, t_concurrency_slots usage,
    t_concurrency_slots reserved, t_concurrency_slots requested)].

Definition check_thresholds_all_interventions (account : ResourceAccount)
    (limits : ResourceLimits) (usage reserved requested : ResourceTally) (period_end : option Z) :
    list BudgetWarning * option ResourceApprovalNeeded :=
  let th := lim_thresholds limits in
  if f64_ge (pause_at th) f64_one && f64_ge (warn_at th) f64_one then ([], None)
  else
    let acc := absorb ([], None)
      (threshold_decimal (mk_ThresholdInputs account DimUsd (max_usd limits) (t_usd usage)
         (t_usd reserved) (t_usd requested) th period_end)) in
    fold_left (fun acc '(dimension, limit, usage_v, reserved_v, requested_v) =>
        absorb acc (threshold_integer (mk_ThresholdInputs account dimension limit usage_v
          reserved_v requested_v th period_end)))
      (integer_dimensions limits usage reserved requested) acc.

(** ** One account of the cascade *)

Inductive CascadeOutcome : Type :=
| CascadeAllow (warnings : list BudgetWarning)
| CascadeRequiresApproval (warnings : list BudgetWarning) (needed : ResourceApprovalNeeded)
| CascadeDeny (warnings : list BudgetWarning) (denial : ResourceDenial).

Definition evaluate_cascade_for_account (account : ResourceAccount) (limits : ResourceLimits)
    (usage reserved requested : ResourceTally) (period_end : option Z) :
    result CascadeOutcome ResourceError :=
  let '(warnings, approval) :=
    check_thresholds_all_interventions account limits usage reserved requested period_end in
  match check_limits_first_denial account limits usage reserved requested with
  | Some denial => Ok (CascadeDeny warnings denial)
  | None =>
      match approval with
      | Some needed => Ok (CascadeRequiresApproval warnings needed)
      | None => Ok (CascadeAllow warnings)
      end
  end.

(** ** Amounts as numbers *)

Context `{L : !DecimalLaws D}.

(** The amount of a tally in one dimension. *)
Definition tval (t : ResourceTally) (d : ResourceDimension) : Z :=
  match d with
  | DimUsd => dval (t_usd t)
  | DimInputTokens => t_input_tokens t
  | DimOutputTokens => t_output_tokens t
  | DimWallClockMs => t_wall_clock_ms t
  | DimOutputBytes => t_output_bytes t
  | DimNetworkEgressBytes => t_network_egress_bytes t
  | DimProcessCount => t_process_count t
  | DimConcurrencySlots => t_concurrency_slots t
  end.

Definition nonneg (t : ResourceTally) : Prop := forall d, 0 <= tval t d.

Lemma tval_default d : tval ResourceTally_default d = 0.
Proof. destruct d; simpl; [apply dval_zero|done..]. Qed.

Lemma dec_ltb_zero_false a : dec_ltb a dec_zero = false <-> 0 <= dval a.
Proof.
  rewrite <- not_true_iff_false, dec_ltb_spec, dval_zero. lia.
Qed.

Lemma dec_positive a : dec_ltb dec_zero a = true <-> 0 < dval a.
Proof. by rewrite dec_ltb_spec, dval_zero. Qed.

Lemma opt_dec_eqb_some o b : opt_dec_eqb o (Some b) = true <-> exists a, o = Some a /\ dval a = dval b.
Proof.
  destruct o as [a|]; simpl; [rewrite dec_eqb_spec|]; split.
  - by exists a. - by intros (? & [= <-] & ?). - done. - by intros (? & ? & _).
Qed.

Lemma certified_add_value a b c : certified_add a b = Some c -> dval c = dval a + dval b.
Proof.
  unfold certified_add. destruct (dec_checked_add a b) as [s|] eqn:E; [|done].
  destruct (_ && _) eqn:H; [|done]. intros [= <-]. apply andb_true_iff in H as [H1 H2].
  by eapply dec_add_certified.
Qed.

Lemma certified_sub_value a b c :
  certified_sub a b = Some c -> dval c = dval a - dval b /\ 0 <= dval c.
Proof.
  unfold certified_sub. destruct (dec_checked_sub a b) as [s|] eqn:E; [|done].
  destruct (_ && _) eqn:H; [|done]. intros [= <-]. rewrite !andb_true_iff in H.
  destruct H as [[H0 H1] H2]. split; [by eapply dec_sub_certified|].
  apply dec_ltb_zero_false. by apply negb_true_iff.
Qed.

Lemma certified_sub_exact a b c :
  dval c = dval a - dval b -> 0 <= dval c ->
  exists c', certified_sub a b = Some c' /\ dval c' = dval c.
Proof.
  intros Hc Hp. destruct (dec_sub_exact a b c Hc) as (c' & E & Hv). exists c'. split; [|done].
  unfold certified_sub. rewrite E.
  destruct (dec_sub_exact a c' b) as (x & -> & Hx); [lia|].
  destruct (dec_add_exact c' b a) as (y & -> & Hy); [lia|].
  assert (dec_ltb c' dec_zero = false) as -> by (apply dec_ltb_zero_false; lia).
  simpl. by rewrite (proj2 (dec_eqb_spec x b)), (proj2 (dec_eqb_spec y a)) by done.
Qed.

(** Addition and subtraction are exact in every dimension, or fail. *)
Lemma checked_add_value a b c :
  checked_add a b = Ok c ->
  (forall d, tval c d = tval a d + tval b d) /\ 0 <= tval a DimUsd /\ 0 <= tval b DimUsd.
Proof.
  unfold checked_add. intros H. invert_ok H. injection H as <-.
  match goal with H : _ || _ = false |- _ => apply orb_false_iff in H as [Ha Hb] end.
  checked_facts. split.
  - intros []; simpl; [by apply certified_add_value|lia..].
  - split; by apply dec_ltb_zero_false.
Qed.

Lemma checked_sub_value a b c :
  checked_sub a b = Ok c ->
  (forall d, tval c d = tval a d - tval b d) /\ nonneg c.
Proof.
  unfold checked_sub. intros H. invert_ok H. injection H as <-. checked_facts.
  match goal with H : certified_sub _ _ = Some _ |- _ => apply certified_sub_value in H as [? ?] end.
  split; intros []; simpl; lia.
Qed.

(** A subtraction whose exact result is a tally succeeds. *)
Lemma checked_sub_total a b c :
  (forall d, tval c d = tval a d - tval b d) -> nonneg c ->
  0 <= tval a DimUsd -> 0 <= tval b DimUsd ->
  exists c', checked_sub a b = Ok c' /\ forall d, tval c' d = tval c d.
Proof.
  intros Hd Hn Ha Hb. simpl in Ha, Hb. unfold checked_sub.
  rewrite (proj2 (dec_ltb_zero_false (t_usd a))), (proj2 (dec_ltb_zero_false (t_usd b))) by done.
  destruct (certified_sub_exact (t_usd a) (t_usd b) (t_usd c)) as (u & -> & Hu);
    [apply (Hd DimUsd)|apply (Hn DimUsd)|].
  assert (forall d, tval b d <= tval a d) as Hle
    by (intros d; specialize (Hd d); specialize (Hn d); lia).
  unfold u64_checked_sub, u32_checked_sub, checked_sub_nonneg.
  pose proof (Hle DimInputTokens) as L1. pose proof (Hle DimOutputTokens) as L2.
  pose proof (Hle DimWallClockMs) as L3. pose proof (Hle DimOutputBytes) as L4.
  pose proof (Hle DimNetworkEgressBytes) as L5. pose proof (Hle DimProcessCount) as L6.
  pose proof (Hle DimConcurrencySlots) as L7. cbn [tval] in *.
  apply Z.leb_le in L1, L2, L3, L4, L5, L6, L7. rewrite L1, L2, L3, L4, L5, L6, L7.
  cbn [ok_or orb]. eexists. split; [done|]. intros d.
  specialize (Hd d). destruct d; simpl in *; congruence.
Qed.

Lemma ResourceTally_eqb_spec a b :
  ResourceTally_eqb a b = true <-> forall d, tval a d = tval b d.
Proof.
  unfold ResourceTally_eqb. rewrite !andb_true_iff, dec_eqb_spec, !Z.eqb_eq. split.
  - intros ([[[[[[? ?] ?] ?] ?] ?] ?] & ?) []; done.
  - intros H. split_and!; [apply (H DimUsd)|apply (H DimInputTokens)|apply (H DimOutputTokens)
      |apply (H DimWallClockMs)|apply (H DimOutputBytes)|apply (H DimNetworkEgressBytes)
      |apply (H DimProcessCount)|apply (H DimConcurrencySlots)].
Qed.

(** ** Limits as numbers *)

(** The enforced cap in a dimension: zero and absent limits enforce nothing. *)
Definition cap (limits : ResourceLimits) (d : ResourceDimension) : option Z :=
  match d with
  | DimUsd => opt_filter (fun v => 0 <? v) (dval <$> max_usd limits)
  | DimInputTokens => opt_filter (fun v => 0 <? v) (max_input_tokens limits)
  | DimOutputTokens => opt_filter (fun v => 0 <? v) (max_output_tokens limits)
  | DimWallClockMs => opt_filter (fun v => 0 <? v) (max_wall_clock_ms limits)
  | DimOutputBytes => opt_filter (fun v => 0 <? v) (max_output_bytes limits)
  | DimNetworkEgressBytes => opt_filter (fun v => 0 <? v) (max_network_egress_bytes limits)
  | DimProcessCount => opt_filter (fun v => 0 <? v) (max_process_count limits)
  | DimConcurrencySlots => opt_filter (fun v => 0 <? v) (max_concurrency_slots limits)
  end.

Definition within (limits : ResourceLimits) (total : ResourceDimension -> Z) : Prop :=
  forall d m, cap limits d = Some m -> total d <= m.

(** The amounts a check adds up are representable: machine words for the
    integers, decimals for the two partial sums of the money amount. *)
Record representable (usage reserved requested : ResourceTally) : Prop := {
  rep_subtotal : exists c, dval c = tval usage DimUsd + tval reserved DimUsd;
  rep_total : exists c, dval c = tval usage DimUsd + tval reserved DimUsd + tval requested DimUsd;
}.

Lemma check_integer_none acc dim limit u r q :
  (forall m, opt_filter (fun v => 0 <? v) limit = Some m -> m <= u64_max) -> 0 <= q ->
  check_integer acc dim limit u r q = None <->
    forall m, opt_filter (fun v => 0 <? v) limit = Some m -> u + r + q <= m.
Proof.
  intros Hlim Hq. unfold check_integer. destruct (opt_filter _ limit) as [m|] eqn:Hf; [|by split].
  assert (m <= u64_max) as Hm by auto.
  unfold checked_total, u64_checked_add, checked_add_max.
  destruct (u + r <=? u64_max) eqn:H1; [destruct (u + r + q <=? u64_max) eqn:H2|];
    [destruct (m <? u + r + q) eqn:H3|..]; split; intros H; try done.
  all: try (intros m' [= <-]); try (specialize (H m eq_refl)).
  all: rewrite ?Z.ltb_lt, ?Z.ltb_ge, ?Z.leb_le, ?Z.leb_gt in *; lia.
Qed.

Lemma check_decimal_none acc limit usage reserved requested :
  representable usage reserved requested ->
  check_decimal acc DimUsd limit (t_usd usage) (t_usd reserved) (t_usd requested) = None <->
    forall m, opt_filter (fun v => 0 <? v) (dval <$> limit) = Some m ->
      tval usage DimUsd + tval reserved DimUsd + tval requested DimUsd <= m.
Proof.
  intros [[c1 H1] [c2 H2]]. simpl in H1, H2. unfold check_decimal.
  destruct limit as [l|]; simpl; [|by split].
  destruct (dec_ltb dec_zero l) eqn:Hl.
  - apply dec_positive in Hl as Hp. rewrite (proj2 (Z.ltb_lt 0 (dval l))) by done.
    destruct (dec_add_exact _ _ _ H1) as (s & -> & Hs).
    destruct (dec_add_exact s (t_usd requested) c2) as (t & -> & Ht); [lia|].
    destruct (dec_ltb l t) eqn:Hlt.
    + apply dec_ltb_spec in Hlt. split; [done|]. intros H. specialize (H _ eq_refl). lia.
    + rewrite <- not_true_iff_false, dec_ltb_spec in Hlt. split; [|done].
      intros _ m [= <-]. lia.
  - rewrite <- not_true_iff_false, dec_positive in Hl.
    rewrite (proj2 (Z.ltb_ge 0 (dval l))) by lia. by split.
Qed.

Lemma or_else_none {A} (a b : option A) : or_else a b = None <-> a = None /\ b = None.
Proof. destruct a; simpl; naive_solver. Qed.

(** Caps are machine words. *)
Definition typed_limits (limits : ResourceLimits) : Prop :=
  forall d m, d <> DimUsd -> cap limits d = Some m -> m <= u64_max.

Definition total3 (usage reserved requested : ResourceTally) (d : ResourceDimension) : Z :=
  tval usage d + tval reserved d + tval requested d.
Lemma check_limits_none acc limits usage reserved requested :
  typed_limits limits -> representable usage reserved requested -> nonneg requested ->
  check_limits_first_denial acc limits usage reserved requested = None <->
    within limits (total3 usage reserved requested).
Proof.
  intros Ht Hr Hn. unfold check_limits_first_denial, within, total3. rewrite !or_else_none.
  rewrite check_decimal_none by done.
  rewrite (check_integer_none _ DimInputTokens) by (exact (Hn DimInputTokens) || (intros ?; by apply (Ht DimInputTokens))).
  rewrite (check_integer_none _ DimOutputTokens) by (exact (Hn DimOutputTokens) || (intros ?; by apply (Ht DimOutputTokens))).
  rewrite (check_integer_none _ DimWallClockMs) by (exact (Hn DimWallClockMs) || (intros ?; by apply (Ht DimWallClockMs))).
  rewrite (check_integer_none _ DimOutputBytes) by (exact (Hn DimOutputBytes) || (intros ?; by apply (Ht DimOutputBytes))).
  rewrite (check_integer_none _ DimNetworkEgressBytes) by (exact (Hn DimNetworkEgressBytes) || (intros ?; by apply (Ht DimNetworkEgressBytes))).
  rewrite (check_integer_none _ DimProcessCount) by (exact (Hn DimProcessCount) || (intros ?; by apply (Ht DimProcessCount))).
  rewrite (check_integer_none _ DimConcurrencySlots) by (exact (Hn DimConcurrencySlots) || (intros ?; by apply (Ht DimConcurrencySlots))).
  split.
  - intros (? & ? & ? & ? & ? & ? & ? & ?) []; auto.
  - intros H. split_and!; [apply (H DimUsd)|apply (H DimInputTokens)|apply (H DimOutputTokens)
      |apply (H DimWallClockMs)|apply (H DimOutputBytes)|apply (H DimNetworkEgressBytes)
      |apply (H DimProcessCount)|apply (H DimConcurrencySlots)].
Qed.

(** ** Properties *)

(** Tally arithmetic never wraps, saturates or rounds.  Whenever the checked
    sum or difference of two tallies exists it is exact in all eight dimensions
    (money included), and a difference is never negative; a difference that has an
    exact non-negative result always exists. *)
Theorem tally_arithmetic_exact a b :
  (forall c, checked_add a b = Ok c -> forall d, tval c d = tval a d + tval b d)
  /\ (forall c, checked_sub a b = Ok c ->
        forall d, tval c d = tval a d - tval b d /\ 0 <= tval c d)
  /\ (forall c, (forall d, tval c d = tval a d - tval b d) -> nonneg c -> nonneg b ->
        exists c', checked_sub a b = Ok c' /\ forall d, tval c' d = tval c d).
Proof.
  split_and!.
  - intros c Hc. by apply checked_add_value.
  - intros c [H1 H2]%checked_sub_value d. split; [apply H1|apply H2].
  - intros c Hc Hn Hb. apply checked_sub_total; [done..| |apply Hb].
    specialize (Hc DimUsd). specialize (Hn DimUsd). specialize (Hb DimUsd). lia.
Qed.

(** One account denies a reservation exactly when some enforced cap would be
    exceeded by usage plus holds plus request; a denial wins over a pause for
    approval; and with both thresholds disabled there is never a warning or a
    pause. *)
Theorem cascade_denies_iff_over_cap acc limits usage reserved requested period_end :
  typed_limits limits -> representable usage reserved requested -> nonneg requested ->
  let eval := evaluate_cascade_for_account acc limits usage reserved requested period_end in
  ((exists w dn, eval = Ok (CascadeDeny w dn)) <-> ~ within limits (total3 usage reserved requested))
  /\ (lim_thresholds limits = BudgetThresholds_DISABLED ->
      within limits (total3 usage reserved requested) -> eval = Ok (CascadeAllow [])).
Proof.
  intros Ht Hr Hn eval.
  pose proof (check_limits_none acc limits usage reserved requested Ht Hr Hn) as Hc.
  subst eval. unfold evaluate_cascade_for_account. split.
  - rewrite <- Hc. destruct (check_thresholds_all_interventions _ _ _ _ _ _) as [w ap].
    destruct (check_limits_first_denial _ _ _ _ _) as [dn|].
    + split; [done|]. intros _. by exists w, dn.
    + split; [|done]. intros (w' & dn & H). by destruct ap.
  - intros Hd ->%Hc. unfold check_thresholds_all_interventions. by rewrite Hd.
Qed.

End Amounts.

(** ** Evaluation *)

Definition example_limits : ResourceLimits :=
  mk_ResourceLimits (Some (Fixed.lit 500)) (Some 100) None None None None None None
    PerInvocation BudgetThresholds_DISABLED.

Definition example_tally (usd tokens : Z) : ResourceTally :=
  mk_ResourceTally (Fixed.lit usd) tokens 0 0 0 0 0 0.

Lemma tally_arithmetic_exact_witness :
  exists c, checked_sub (example_tally 30 9) (example_tally 10 4) = Ok c
    /\ tval c DimUsd = 20 /\ tval c DimInputTokens = 5.
Proof.
  eexists. split; [reflexivity|].
  destruct (proj1 (proj2 (tally_arithmetic_exact (example_tally 30 9) (example_tally 10 4)))
              _ eq_refl DimUsd) as [-> _].
  destruct (proj1 (proj2 (tally_arithmetic_exact (example_tally 30 9) (example_tally 10 4)))
              _ eq_refl DimInputTokens) as [-> _].
  by split.
Defined.

Lemma cascade_denies_iff_over_cap_witness :
  exists w dn, evaluate_cascade_for_account (AccTenant (from_trusted "acme")) example_limits
    (example_tally 10 60) (example_tally 5 30) (example_tally 1 20) None
    = Ok (CascadeDeny w dn).
Proof.
  apply (cascade_denies_iff_over_cap (AccTenant (from_trusted "acme")) example_limits
    (example_tally 10 60) (example_tally 5 30) (example_tally 1 20) None).
  - intros [] m H; simpl; intros E; simplify_eq; done.
  - constructor; [by exists (Fixed.lit 15)|by exists (Fixed.lit 16)].
  - by intros [].
  - intros H. by specialize (H DimInputTokens 100 eq_refl).
Defined.
