(* ===== verification/Governor.v ===== *)
(** * The resource governor

    [crates/brassclaw_resources/src/lib.rs]: the state behind a governor, the
    [*_in_state] operations on it, and the two governors that run them, one over
    a mutex ([InMemoryResourceGovernor]) and one over a transactional snapshot
    store ([PersistentResourceGovernor]), with the events they emit.

    An operation takes the state and returns the new state with its result, since
    the in-memory governor keeps what an operation did to the state before it
    failed (the rollover of an expired period) and the persistent one does not.
    Fresh reservation ids, the clock and the live token-budget switch are
    arguments.

    The theorems: the ledger invariant (each account's reserved balance is the sum
    of the active holds on it) holds in every reachable state, errors included; a
    granted reservation respects every cap of its cascade; failures leave the
    ledger as it was; settlement is exact and happens once; release undoes
    reserve; and the persistent governor refines the in-memory one. *)

From S2P Require Import Prelude External HostIds Paths HostTypes Budget.

Section Governor.
Context `{D : Decimal} `{Cal : Calendar}.

(** ** State *)

Record ReservationRecord : Type := mk_ReservationRecord {
  rec_reservation : ResourceReservation;
  rec_accounts : list ResourceAccount;
  rec_tally : ResourceTally;
  rec_status : ReservationStatus;
  rec_actual : option ResourceUsage }.

Record ResourceState : Type := mk_ResourceState {
  limits : gmap ResourceAccount ResourceLimits;
  reserved_by_account : gmap ResourceAccount ResourceTally;
  usage_by_account : gmap ResourceAccount ResourceTally;
  reservations : gmap ResourceReservationId ReservationRecord;
  period_anchors : gmap ResourceAccount Z }.

Definition ResourceState_default : ResourceState := mk_ResourceState ∅ ∅ ∅ ∅ ∅.

(** [get(account).cloned().unwrap_or_default()]. *)
Definition balance (m : gmap ResourceAccount ResourceTally) (a : ResourceAccount) : ResourceTally :=
  default ResourceTally_default (m !! a).

Record ReservationOutcome : Type := mk_ReservationOutcome {
  ro_reservation : ResourceReservation;
  ro_warnings : list BudgetWarning }.

Record PeriodLedger : Type := mk_PeriodLedger {
  pl_period_start : Z;
  pl_period_end : Z;
  pl_spent : ResourceTally;
  pl_reserved : ResourceTally }.

Record AccountSnapshot : Type := mk_AccountSnapshot {
  as_account : ResourceAccount;
  as_limits : option ResourceLimits;
  as_ledger : PeriodLedger }.

(** ** Operations on the state *)

Definition advance_period_if_rolled_over (state : ResourceState) (account : ResourceAccount)
    (now : Z) : ResourceState :=
  match limits state !! account with
  | None => state
  | Some l =>
      if bool_decide (lim_period l = PerInvocation) then state
      else if match period_anchors state !! account with
              | Some anchor => period_has_rolled_over anchor now
              | None => true
              end
      then mk_ResourceState (limits state) (reserved_by_account state)
             (delete account (usage_by_account state)) (reservations state)
             (<[account := (period_bounds (lim_period l) now).2]> (period_anchors state))
      else state
  end.

Definition advance_all (state : ResourceState) (accounts : list ResourceAccount) (now : Z) :
    ResourceState :=
  fold_left (fun st account => advance_period_if_rolled_over st account now) accounts state.

Definition set_limit_in_state (state : ResourceState) (account : ResourceAccount)
    (l : ResourceLimits) (now : Z) : ResourceState :=
  let prior_period := lim_period <$> limits state !! account in
  let new_period := lim_period l in
  let state1 :=
    if bool_decide (prior_period = Some new_period)
    then advance_period_if_rolled_over state account now
    else mk_ResourceState (limits state) (reserved_by_account state)
           (delete account (usage_by_account state)) (reservations state)
           (delete account (period_anchors state)) in
  let new_end := (period_bounds new_period now).2 in
  let anchors :=
    if bool_decide (new_period = PerInvocation)
    then <[account := new_end]> (period_anchors state1)
    else match period_anchors state1 !! account with
         | Some _ => period_anchors state1
         | None => <[account := new_end]> (period_anchors state1)
         end in
  mk_ResourceState (<[account := l]> (limits state1)) (reserved_by_account state1)
    (usage_by_account state1) (reservations state1) anchors.

Definition set_limit_if_missing_in_state (state : ResourceState) (account : ResourceAccount)
    (l : ResourceLimits) (now : Z) : ResourceState * bool :=
  match limits state !! account with
  | Some _ => (state, false)
  | None => (set_limit_in_state state account l now, true)
  end.

(** The mask of a live task setting that disables token budgets. *)
Definition effective_limits (l : ResourceLimits) (token_budgets_enabled : bool) : ResourceLimits :=
  if token_budgets_enabled then l
  else mk_ResourceLimits (max_usd l) None None (max_wall_clock_ms l) (max_output_bytes l)
         (max_network_egress_bytes l) (max_process_count l) (max_concurrency_slots l)
         (lim_period l) (lim_thresholds l).

(** The loop that evaluates every account of the cascade. *)
Fixpoint check_accounts (state : ResourceState) (requested : ResourceTally)
    (token_budgets_enabled : bool) (accounts : list ResourceAccount)
    (warnings : list BudgetWarning) : result (list BudgetWarning) ResourceError :=
  match accounts with
  | [] => Ok warnings
  | account :: rest =>
      match limits state !! account with
      | None => check_accounts state requested token_budgets_enabled rest warnings
      | Some l =>
          let? outcome := evaluate_cascade_for_account account
            (effective_limits l token_budgets_enabled)
            (balance (usage_by_account state) account)
            (balance (reserved_by_account state) account) requested
            (period_anchors state !! account) in
          match outcome with
          | CascadeAllow acc_warnings =>
              check_accounts state requested token_budgets_enabled rest (warnings ++ acc_warnings)
          | CascadeRequiresApproval acc_warnings needed =>
              Err (RequiresApproval needed (warnings ++ acc_warnings))
          | CascadeDeny acc_warnings denial =>
              Err (LimitExceeded denial (warnings ++ acc_warnings))
          end
      end
  end.

Definition reserve_balance (state : ResourceState) (requested : ResourceTally)
    (account : ResourceAccount) : result (ResourceAccount * ResourceTally) ResourceError :=
  let? updated := checked_add (balance (reserved_by_account state) account) requested in
  let? _ := checked_add (balance (usage_by_account state) account) updated in
  Ok (account, updated).

Definition insert_balances (balances : list (ResourceAccount * ResourceTally))
    (m : gmap ResourceAccount ResourceTally) : gmap ResourceAccount ResourceTally :=
  fold_left (fun m '(account, b) => <[account := b]> m) balances m.

Definition reserve_with_outcome_in_state (state : ResourceState) (scope : ResourceScope)
    (estimate : ResourceEstimate) (reservation_id : ResourceReservationId) (now : Z)
    (token_budgets_enabled : bool) : ResourceState * result ReservationOutcome ResourceError :=
  match validate_estimate estimate with
  | Err e => (state, Err e)
  | Ok _ =>
      match reservations state !! reservation_id with
      | Some _ => (state, Err (ReservationAlreadyExists reservation_id))
      | None =>
          let accounts := cascade scope in
          let requested := from_estimate estimate in
          let state1 := advance_all state accounts now in
          match check_accounts state1 requested token_budgets_enabled accounts [] with
          | Err e => (state1, Err e)
          | Ok warnings =>
              let reservation := mk_ResourceReservation reservation_id scope estimate in
              match try_map (reserve_balance state1 requested) accounts with
              | Err e => (state1, Err e)
              | Ok balances =>
                  (mk_ResourceState (limits state1)
                     (insert_balances balances (reserved_by_account state1))
                     (usage_by_account state1)
                     (<[reservation_id := mk_ReservationRecord reservation accounts requested
                          Active None]> (reservations state1))
                     (period_anchors state1),
                   Ok (mk_ReservationOutcome reservation warnings))
              end
          end
      end
  end.

Definition reconcile_balance (state : ResourceState) (tally actual_tally : ResourceTally)
    (account : ResourceAccount) :
    result (ResourceAccount * ResourceTally * ResourceTally) ResourceError :=
  let? updated_reserved := checked_sub (balance (reserved_by_account state) account) tally in
  let? updated_usage := checked_add (balance (usage_by_account state) account) actual_tally in
  let? _ := checked_add updated_usage updated_reserved in
  Ok (account, updated_reserved, updated_usage).

Definition reconcile_in_state (state : ResourceState) (reservation_id : ResourceReservationId)
    (actual : ResourceUsage) (now : Z) : ResourceState * result ResourceReceipt ResourceError :=
  match reservations state !! reservation_id with
  | None => (state, Err (UnknownReservation reservation_id))
  | Some record =>
      if negb (bool_decide (rec_status record = Active)) then
        (state, Err (ReservationClosed reservation_id (rec_status record)))
      else
        match validate_usage actual with
        | Err e => (state, Err e)
        | Ok _ =>
            let state1 := advance_all state (rec_accounts record) now in
            let actual_tally := from_usage actual in
            match try_map (reconcile_balance state1 (rec_tally record) actual_tally)
                    (rec_accounts record) with
            | Err e => (state1, Err e)
            | Ok balances =>
                (mk_ResourceState (limits state1)
                   (insert_balances (map (fun '(a, r, _) => (a, r)) balances)
                      (reserved_by_account state1))
                   (insert_balances (map (fun '(a, _, u) => (a, u)) balances)
                      (usage_by_account state1))
                   (<[reservation_id := mk_ReservationRecord (rec_reservation record)
                        (rec_accounts record) (rec_tally record) Reconciled (Some actual)]>
                      (reservations state1))
                   (period_anchors state1),
                 Ok (mk_ResourceReceipt reservation_id (rr_scope (rec_reservation record))
                       Reconciled (rr_estimate (rec_reservation record)) (Some actual)))
            end
        end
  end.

(** [record.actual.as_ref() == Some(&actual)]. *)
Definition same_actual (recorded : option ResourceUsage) (actual : ResourceUsage) : bool :=
  match recorded with Some u => ResourceUsage_eqb u actual | None => false end.

Definition reconcile_retained_in_state (state : ResourceState)
    (reservation_id : ResourceReservationId) (actual : ResourceUsage) (now : Z) :
    ResourceState * result (ResourceReceipt * bool) ResourceError :=
  match reservations state !! reservation_id with
  | None => (state, Err (UnknownReservation reservation_id))
  | Some record =>
      if bool_decide (rec_status record = Reconciled) && same_actual (rec_actual record) actual
      then (state, Ok (mk_ResourceReceipt reservation_id (rr_scope (rec_reservation record))
                         (rec_status record) (rr_estimate (rec_reservation record))
                         (rec_actual record), false))
      else
        let '(state', r) := reconcile_in_state state reservation_id actual now in
        (state', result_map (fun receipt => (receipt, true)) r)
  end.

Definition release_balance (state : ResourceState) (tally : ResourceTally)
    (account : ResourceAccount) : result (ResourceAccount * ResourceTally) ResourceError :=
  let? updated := checked_sub (balance (reserved_by_account state) account) tally in
  Ok (account, updated).

Definition release_in_state (state : ResourceState) (reservation_id : ResourceReservationId)
    (now : Z) : ResourceState * result ResourceReceipt ResourceError :=
  match reservations state !! reservation_id with
  | None => (state, Err (UnknownReservation reservation_id))
  | Some record =>
      if negb (bool_decide (rec_status record = Active)) then
        (state, Err (ReservationClosed reservation_id (rec_status record)))
      else
        let state1 := advance_all state (rec_accounts record) now in
        match try_map (release_balance state1 (rec_tally record)) (rec_accounts record) with
        | Err e => (state1, Err e)
        | Ok balances =>
            (mk_ResourceState (limits state1)
               (insert_balances balances (reserved_by_account state1))
               (usage_by_account state1)
               (<[reservation_id := mk_ReservationRecord (rec_reservation record)
                    (rec_accounts record) (rec_tally record) Released (rec_actual record)]>
                  (reservations state1))
               (period_anchors state1),
             Ok (mk_ResourceReceipt reservation_id (rr_scope (rec_reservation record))
                   Released (rr_estimate (rec_reservation record)) None))
        end
  end.

Definition account_snapshot_in_state (state : ResourceState) (account : ResourceAccount)
    (now : Z) : ResourceState * option AccountSnapshot :=
  let state1 := advance_period_if_rolled_over state account now in
  let l := limits state1 !! account in
  let reserved := balance (reserved_by_account state1) account in
  let spent := balance (usage_by_account state1) account in
  if bool_decide (l = None) && ResourceTally_eqb reserved ResourceTally_default
     && ResourceTally_eqb spent ResourceTally_default
  then (state1, None)
  else
    let period := match l with Some l => lim_period l | None => PerInvocation end in
    let '(period_start, period_end) :=
      match period_anchors state1 !! account, period with
      | Some end_, Rolling24h => (end_ - hours 24, end_)
      | _, _ => period_bounds period now
      end in
    (state1, Some (mk_AccountSnapshot account l
                     (mk_PeriodLedger period_start period_end spent reserved))).

(** ** Validation of a stored state

    [HashMap] iteration has no fixed order, so the orders of the two loops whose
    outcome depends on it are arguments: [order] lists the reservations and
    [usage_order] the usage rows. *)

Fixpoint add_to_accounts (tally : ResourceTally) (accounts : list ResourceAccount)
    (expected : gmap ResourceAccount ResourceTally) :
    result (gmap ResourceAccount ResourceTally) ResourceError :=
  match accounts with
  | [] => Ok expected
  | account :: rest =>
      let? sum := checked_add (balance expected account) tally in
      add_to_accounts tally rest (<[account := sum]> expected)
  end.

Fixpoint expected_balances (order : list (ResourceReservationId * ReservationRecord))
    (expected : gmap ResourceAccount ResourceTally) :
    result (gmap ResourceAccount ResourceTally) ResourceError :=
  match order with
  | [] => Ok expected
  | (id, record) :: rest =>
      if negb (bool_decide (id = rr_id (rec_reservation record)))
         || negb (bool_decide (rec_accounts record = cascade (rr_scope (rec_reservation record))))
         || negb (ResourceTally_eqb (rec_tally record)
                    (from_estimate (rr_estimate (rec_reservation record))))
      then Err inconsistent_tally_error
      else
        let? _ := validate_estimate (rr_estimate (rec_reservation record)) in
        let? _ := match rec_actual record with
                  | Some actual =>
                      let? _ := validate_usage actual in
                      if negb (bool_decide (rec_status record = Reconciled))
                      then Err inconsistent_tally_error else Ok tt
                  | None => Ok tt
                  end in
        let? expected' :=
          if bool_decide (rec_status record = Active)
          then add_to_accounts (rec_tally record) (rec_accounts record) expected
          else Ok expected in
        expected_balances rest expected'
  end.

Definition validate_retained_balances (state : ResourceState)
    (order : list (ResourceReservationId * ReservationRecord))
    (usage_order : list (ResourceAccount * ResourceTally)) : result unit ResourceError :=
  let? expected := expected_balances order ∅ in
  if existsb (fun '(account, actual) => negb (ResourceTally_eqb (balance expected account) actual))
       (map_to_list (reserved_by_account state))
  then Err inconsistent_tally_error
  else if existsb (fun '(account, tally) =>
              negb (ResourceTally_eqb (balance (reserved_by_account state) account) tally))
            (map_to_list expected)
  then Err inconsistent_tally_error
  else
    let? _ := try_map (fun '(account, usage) =>
        checked_add usage (balance (reserved_by_account state) account)) usage_order in
    Ok tt.

(** ** Events ([event.rs]) *)

Inductive BudgetEvent : Type :=
| EvReserved (account : ResourceAccount) (reservation : ResourceReservation)
    (warnings : list BudgetWarning) (at_ : Z)
| EvReconciled (account : ResourceAccount) (receipt : ResourceReceipt) (at_ : Z)
| EvReleased (account : ResourceAccount) (receipt : ResourceReceipt) (at_ : Z)
| EvWarned (warning : BudgetWarning) (at_ : Z)
| EvDenied (denial : ResourceDenial) (at_ : Z)
| EvApprovalRequested (needed : ResourceApprovalNeeded) (at_ : Z)
| EvLimitChanged (account : ResourceAccount) (at_ : Z).

Definition emit_reserve_events (r : result ReservationOutcome ResourceError) (at_ : Z) :
    list BudgetEvent :=
  let warnings := match r with
    | Ok outcome => ro_warnings outcome
    | Err (RequiresApproval _ warnings) => warnings
    | Err (LimitExceeded _ warnings) => warnings
    | Err _ => []
    end in
  map (fun w => EvWarned w at_) warnings
  ++ match r with
     | Ok outcome =>
         [EvReserved (most_specific_account (rr_scope (ro_reservation outcome)))
            (ro_reservation outcome) (ro_warnings outcome) at_]
     | Err (RequiresApproval needed _) => [EvApprovalRequested needed at_]
     | Err (LimitExceeded denial _) => [EvDenied denial at_]
     | Err _ => []
     end.

Definition receipt_event (f : ResourceAccount -> ResourceReceipt -> Z -> BudgetEvent)
    (r : result ResourceReceipt ResourceError) (at_ : Z) : list BudgetEvent :=
  match r with
  | Ok receipt => [f (most_specific_account (rc_scope receipt)) receipt at_]
  | Err _ => []
  end.

Definition retained_event (r : result (ResourceReceipt * bool) ResourceError) (at_ : Z) :
    list BudgetEvent :=
  match r with
  | Ok (receipt, true) => [EvReconciled (most_specific_account (rc_scope receipt)) receipt at_]
  | _ => []
  end.

(** ** Governor requests

    The mutating methods of the [ResourceGovernor] trait, with the reservation id
    that [reserve] draws when the caller supplies none. *)

Inductive GovernorOp : Type :=
| OpSetLimit (account : ResourceAccount) (l : ResourceLimits)
| OpSetLimitIfMissing (account : ResourceAccount) (l : ResourceLimits)
| OpReserve (scope : ResourceScope) (estimate : ResourceEstimate) (id : ResourceReservationId)
| OpReconcile (id : ResourceReservationId) (actual : ResourceUsage)
| OpReconcileRetained (id : ResourceReservationId) (actual : ResourceUsage)
| OpRelease (id : ResourceReservationId)
| OpSnapshot (account : ResourceAccount).

Inductive GovernorReply : Type :=
| ReplyUnit
| ReplyBool (b : bool)
| ReplyOutcome (o : ReservationOutcome)
| ReplyReceipt (r : ResourceReceipt)
| ReplyRetained (r : ResourceReceipt) (charged : bool)
| ReplySnapshot (s : option AccountSnapshot).

(** The closure each method runs on the state. *)
Definition run_op (op : GovernorOp) (now : Z) (token_budgets_enabled : bool)
    (state : ResourceState) : ResourceState * result GovernorReply ResourceError :=
  match op with
  | OpSetLimit account l => (set_limit_in_state state account l now, Ok ReplyUnit)
  | OpSetLimitIfMissing account l =>
      let '(state', installed) := set_limit_if_missing_in_state state account l now in
      (state', Ok (ReplyBool installed))
  | OpReserve scope estimate id =>
      let '(state', r) := reserve_with_outcome_in_state state scope estimate id now
        token_budgets_enabled in
      (state', result_map ReplyOutcome r)
  | OpReconcile id actual =>
      let '(state', r) := reconcile_in_state state id actual now in
      (state', result_map ReplyReceipt r)
  | OpReconcileRetained id actual =>
      let '(state', r) := reconcile_retained_in_state state id actual now in
      (state', result_map (fun '(receipt, charged) => ReplyRetained receipt charged) r)
  | OpRelease id =>
      let '(state', r) := release_in_state state id now in
      (state', result_map ReplyReceipt r)
  | OpSnapshot account =>
      let '(state', snapshot) := account_snapshot_in_state state account now in
      (state', Ok (ReplySnapshot snapshot))
  end.

(** What the method emits once it has its result. *)
Definition op_events (op : GovernorOp) (r : result GovernorReply ResourceError) (now : Z) :
    list BudgetEvent :=
  match op, r with
  | OpSetLimit account _, Ok _ => [EvLimitChanged account now]
  | OpSetLimitIfMissing account _, Ok (ReplyBool true) => [EvLimitChanged account now]
  | OpReserve _ _ _, Ok (ReplyOutcome o) => emit_reserve_events (Ok o) now
  | OpReserve _ _ _, Err e => emit_reserve_events (Err e) now
  | OpReconcile _ _, Ok (ReplyReceipt receipt) => receipt_event EvReconciled (Ok receipt) now
  | OpReconcileRetained _ _, Ok (ReplyRetained receipt charged) =>
      retained_event (Ok (receipt, charged)) now
  | OpRelease _, Ok (ReplyReceipt receipt) => receipt_event EvReleased (Ok receipt) now
  | _, _ => []
  end.

(** ** The two governors *)

(** [InMemoryResourceGovernor]: the closure runs on the locked state. *)
Definition in_memory_call (state : ResourceState) (op : GovernorOp) (now : Z)
    (token_budgets_enabled : bool) :
    ResourceState * result GovernorReply ResourceError * list BudgetEvent :=
  let '(state', r) := run_op op now token_budgets_enabled state in
  (state', r, op_events op r now).

(** What the store's input and output can do to one transaction: fail before the
    closure runs, fail before the new snapshot replaces the old one, or fail after
    it (closing the lock, syncing the directory). *)
Inductive StoreIo : Type :=
| IoOk
| IoReadError (e : ResourceError)
| IoWriteError (e : ResourceError)
| IoAfterCommitError (e : ResourceError).

(** [update_file_snapshot]: load, run the closure, write only when it succeeds. *)
Definition store_update {T} (snapshot : ResourceState) (io : StoreIo)
    (f : ResourceState -> ResourceState * result T ResourceError) :
    ResourceState * result T ResourceError :=
  match io with
  | IoReadError e => (snapshot, Err e)
  | _ =>
      let '(snapshot', r) := f snapshot in
      match r with
      | Err e => (snapshot, Err e)
      | Ok value =>
          match io with
          | IoWriteError e => (snapshot, Err e)
          | IoAfterCommitError e => (snapshot', Err e)
          | _ => (snapshot', Ok value)
          end
      end
  end.

Definition persistent_call (snapshot : ResourceState) (io : StoreIo) (op : GovernorOp) (now : Z)
    (token_budgets_enabled : bool) :
    ResourceState * result GovernorReply ResourceError * list BudgetEvent :=
  let '(snapshot', r) := store_update snapshot io (run_op op now token_budgets_enabled) in
  (snapshot', r, op_events op r now).

(** ** Frame facts *)

Context `{L : !DecimalLaws D}.

(** A rollover touches usage and anchors only. *)
Lemma advance_frame st a now :
  limits (advance_period_if_rolled_over st a now) = limits st
  /\ reserved_by_account (advance_period_if_rolled_over st a now) = reserved_by_account st
  /\ reservations (advance_period_if_rolled_over st a now) = reservations st.
Proof. unfold advance_period_if_rolled_over. by repeat case_match. Qed.

Lemma advance_all_frame st accounts now :
  limits (advance_all st accounts now) = limits st
  /\ reserved_by_account (advance_all st accounts now) = reserved_by_account st
  /\ reservations (advance_all st accounts now) = reservations st.
Proof.
  revert st. induction accounts as [|a accounts IH]; intros st; [done|]. simpl.
  destruct (IH (advance_period_if_rolled_over st a now)) as (H1 & H2 & H3).
  destruct (advance_frame st a now) as (G1 & G2 & G3).
  unfold advance_all in *. by rewrite H1, H2, H3.
Qed.

#[local] Arguments cascade : simpl never.
#[local] Arguments advance_all : simpl never.

Lemma cascade_NoDup scope : NoDup (cascade scope).
Proof.
  unfold cascade. destruct (rs_project_id scope), (rs_agent_id scope), (rs_thread_id scope);
    simpl; repeat (constructor; [set_solver|]); constructor.
Qed.

(** ** Rewriting several balances at once *)

Lemma balance_insert m a b c :
  balance (<[a := b]> m) c = if bool_decide (c = a) then b else balance m c.
Proof.
  unfold balance. case_bool_decide as E; [subst; by rewrite lookup_insert_eq|].
  by rewrite lookup_insert_ne.
Qed.

Lemma insert_balances_out bs m a :
  a ∉ bs.*1 -> balance (insert_balances bs m) a = balance m a.
Proof.
  revert m. induction bs as [|[k b] bs IH]; intros m Ha; [done|]. simpl in *.
  apply not_elem_of_cons in Ha as [Hk Ha]. rewrite IH by done.
  rewrite balance_insert. by rewrite bool_decide_eq_false_2.
Qed.

Lemma insert_balances_in bs m a b :
  NoDup bs.*1 -> (a, b) ∈ bs -> balance (insert_balances bs m) a = b.
Proof.
  revert m. induction bs as [|[k c] bs IH]; intros m Hnd Hin; [by apply elem_of_nil in Hin|].
  simpl in *. apply NoDup_cons in Hnd as [Hk Hnd].
  apply elem_of_cons in Hin as [[= -> ->]|Hin]; [|by apply IH].
  rewrite insert_balances_out by done. rewrite balance_insert. by rewrite bool_decide_eq_true_2.
Qed.

(** A preflight that keeps its account as the key of what it returns. *)
Lemma try_map_keyed {X Y} (f : ResourceAccount -> result X ResourceError)
    (proj : X -> ResourceAccount * Y) accounts bs :
  (forall a x, f a = Ok x -> (proj x).1 = a) ->
  try_map f accounts = Ok bs ->
  (map proj bs).*1 = accounts
  /\ forall k y, (k, y) ∈ map proj bs -> exists x, f k = Ok x /\ proj x = (k, y).
Proof.
  intros Hf Ht. apply try_map_ok in Ht. induction Ht as [|a x l bs Hax _ IH]; simpl.
  - split; [done|]. intros k y Hin. by apply elem_of_nil in Hin.
  - destruct IH as [IH1 IH2]. split; [by f_equal; [apply Hf|]|].
    intros k y [E|Hin]%elem_of_cons; [|by apply IH2].
    exists x. pose proof (Hf _ _ Hax) as Hk. rewrite <- E in Hk. simpl in Hk. by subst.
Qed.

(** The same change [delta] applied to every listed account. *)
Lemma rebalance bs m accounts (delta : ResourceDimension -> Z) :
  NoDup accounts -> bs.*1 = accounts ->
  (forall a b, (a, b) ∈ bs -> forall d, tval b d = tval (balance m a) d + delta d) ->
  forall a d, tval (balance (insert_balances bs m) a) d
    = tval (balance m a) d + (if bool_decide (a ∈ accounts) then delta d else 0).
Proof.
  intros Hnd Hk Hd a d. case_bool_decide as Ha.
  - rewrite <- Hk in Ha, Hnd. apply list_elem_of_fmap in Ha as ([a' b] & -> & Hin).
    rewrite (insert_balances_in _ _ _ _ Hnd Hin). by apply Hd.
  - rewrite insert_balances_out by (by rewrite Hk). lia.
Qed.

(** ** The ledger invariant *)

(** What a record holds of an account: its tally while it is active. *)
Definition contribution (a : ResourceAccount) (d : ResourceDimension) (r : ReservationRecord) : Z :=
  if bool_decide (rec_status r = Active) && bool_decide (a ∈ rec_accounts r)
  then tval (rec_tally r) d else 0.

Definition held (m : gmap ResourceReservationId ReservationRecord) (a : ResourceAccount)
    (d : ResourceDimension) : Z :=
  map_fold (fun _ r acc => contribution a d r + acc) 0 m.

Record wf_record (id : ResourceReservationId) (r : ReservationRecord) : Prop := {
  wr_id : rr_id (rec_reservation r) = id;
  wr_accounts : rec_accounts r = cascade (rr_scope (rec_reservation r));
  wr_tally : forall d, tval (rec_tally r) d = tval (from_estimate (rr_estimate (rec_reservation r))) d;
  wr_nonneg : nonneg (rec_tally r);
  wr_actual : is_Some (rec_actual r) -> rec_status r = Reconciled;
}.

Record ledger_ok (st : ResourceState) : Prop := {
  lo_conserved : forall a d,
    tval (balance (reserved_by_account st) a) d = held (reservations st) a d;
  lo_records : map_Forall wf_record (reservations st);
}.

Lemma held_empty a d : held ∅ a d = 0.
Proof. unfold held. by rewrite map_fold_empty. Qed.

Lemma held_insert_new m id r a d :
  m !! id = None -> held (<[id := r]> m) a d = contribution a d r + held m a d.
Proof. intros H. unfold held. rewrite map_fold_insert_L; [done|intros; lia|done]. Qed.

Lemma held_update m id r0 r a d :
  m !! id = Some r0 ->
  held (<[id := r]> m) a d = held m a d - contribution a d r0 + contribution a d r.
Proof.
  intros H. rewrite <- insert_delete_eq, held_insert_new by apply lookup_delete_eq.
  rewrite <- (insert_delete_id m id r0 H) at 2.
  rewrite held_insert_new by apply lookup_delete_eq. lia.
Qed.

Lemma held_nonneg m a d : map_Forall wf_record m -> 0 <= held m a d.
Proof.
  induction m as [|id r m Hid IH] using map_ind; intros HF; [by rewrite held_empty|].
  apply map_Forall_insert in HF as [Hr HF]; [|done]. rewrite held_insert_new by done.
  specialize (IH HF). unfold contribution. destruct (_ && _); [|lia].
  pose proof (wr_nonneg _ _ Hr d). lia.
Qed.

Lemma ledger_reserved_nonneg st a : ledger_ok st -> nonneg (balance (reserved_by_account st) a).
Proof. intros [H1 H2] d. rewrite H1. by apply held_nonneg. Qed.

(** Operations that keep balances and records keep the invariant. *)
Lemma ledger_ok_frame st st' :
  reserved_by_account st' = reserved_by_account st -> reservations st' = reservations st ->
  ledger_ok st -> ledger_ok st'.
Proof. intros E1 E2 [H1 H2]. constructor; [intros|]; by rewrite ?E1, E2. Qed.

(** ** The effect of each operation *)

Definition if_in (a : ResourceAccount) (accounts : list ResourceAccount) (z : Z) : Z :=
  if bool_decide (a ∈ accounts) then z else 0.

Lemma reserve_balance_key st q a x : reserve_balance st q a = Ok x -> x.1 = a.
Proof. unfold reserve_balance. intros H. invert_ok H. by injection H as <-. Qed.

Lemma reconcile_balance_key st t u a x : reconcile_balance st t u a = Ok x -> x.1.1 = a.
Proof. unfold reconcile_balance. intros H. invert_ok H. by injection H as <-. Qed.

Lemma release_balance_key st t a x : release_balance st t a = Ok x -> x.1 = a.
Proof. unfold release_balance. intros H. invert_ok H. by injection H as <-. Qed.

(** A successful reservation, in terms of the state after the rollovers. *)
Lemma reserve_ok st scope est id now tb st' o :
  reserve_with_outcome_in_state st scope est id now tb = (st', Ok o) ->
  let st1 := advance_all st (cascade scope) now in
  validate_estimate est = Ok tt
  /\ reservations st !! id = None
  /\ check_accounts st1 (from_estimate est) tb (cascade scope) [] = Ok (ro_warnings o)
  /\ ro_reservation o = mk_ResourceReservation id scope est
  /\ reservations st' = <[id := mk_ReservationRecord (mk_ResourceReservation id scope est)
        (cascade scope) (from_estimate est) Active None]> (reservations st)
  /\ limits st' = limits st /\ usage_by_account st' = usage_by_account st1
  /\ period_anchors st' = period_anchors st1
  /\ (forall a d, tval (balance (reserved_by_account st') a) d
        = tval (balance (reserved_by_account st) a) d
          + if_in a (cascade scope) (tval (from_estimate est) d))
  /\ (forall a, a ∈ cascade scope -> exists c,
        checked_add (balance (usage_by_account st') a) (balance (reserved_by_account st') a) = Ok c).
Proof.
  unfold reserve_with_outcome_in_state.
  destruct (validate_estimate est) as [[]|] eqn:Hv; [|done].
  destruct (reservations st !! id) eqn:Hid; [done|].
  destruct (advance_all_frame st (cascade scope) now) as (F1 & F2 & F3).
  destruct (check_accounts _ _ _ _ _) as [w|] eqn:Hc; [|done].
  destruct (try_map _ _) as [bs|] eqn:Ht; [|done]. intros [= <- <-]. cbn [limits
    reserved_by_account usage_by_account reservations period_anchors ro_warnings ro_reservation].
  apply (try_map_keyed _ (fun x => x)) in Ht as [Hk Hb]; [|apply reserve_balance_key].
  rewrite map_id in Hk, Hb. rewrite F1, F2, F3. split_and!; try done.
  - apply rebalance; [apply cascade_NoDup|done|]. intros a b Hin d.
    apply Hb in Hin as (x & Hx & ->). unfold reserve_balance in Hx. rewrite F2 in Hx.
    invert_ok Hx. injection Hx as <-. by apply checked_add_value.
  - intros a Ha. assert (a ∈ bs.*1) as Hin by (by rewrite Hk).
    apply list_elem_of_fmap in Hin as ([a' b] & -> & Hin). simpl.
    rewrite (insert_balances_in bs _ a' b); [|rewrite Hk; apply cascade_NoDup|done].
    apply Hb in Hin as (x & Hx & ->). unfold reserve_balance in Hx. invert_ok Hx.
    injection Hx as <-. eauto.
Qed.

(** A settlement applied to an active, well-formed record. *)
Lemma reconcile_ok st id actual now st' rc :
  map_Forall wf_record (reservations st) ->
  reconcile_in_state st id actual now = (st', Ok rc) ->
  exists r, reservations st !! id = Some r /\ rec_status r = Active
  /\ let st1 := advance_all st (rec_accounts r) now in
    validate_usage actual = Ok tt
  /\ reservations st' = <[id := mk_ReservationRecord (rec_reservation r) (rec_accounts r)
        (rec_tally r) Reconciled (Some actual)]> (reservations st)
  /\ limits st' = limits st
  /\ rc = mk_ResourceReceipt id (rr_scope (rec_reservation r)) Reconciled
        (rr_estimate (rec_reservation r)) (Some actual)
  /\ (forall a d, tval (balance (reserved_by_account st') a) d
        = tval (balance (reserved_by_account st) a) d
          - if_in a (rec_accounts r) (tval (rec_tally r) d))
  /\ (forall a d, tval (balance (usage_by_account st') a) d
        = tval (balance (usage_by_account st1) a) d
          + if_in a (rec_accounts r) (tval (from_usage actual) d)).
Proof.
  intros HF. unfold reconcile_in_state. destruct (reservations st !! id) as [r|] eqn:Hid; [|done].
  destruct (bool_decide (rec_status r = Active)) eqn:Hs; [|done]. apply bool_decide_eq_true in Hs.
  destruct (validate_usage actual) as [[]|] eqn:Hv; [|done]. simpl.
  destruct (advance_all_frame st (rec_accounts r) now) as (F1 & F2 & F3).
  destruct (try_map _ _) as [bs|] eqn:Ht; [|done]. intros [= <- <-].
  exists r. cbn [limits reserved_by_account usage_by_account reservations period_anchors].
  rewrite F1, F2, F3.
  assert (NoDup (rec_accounts r)) as Hnd.
  { rewrite (wr_accounts _ _ (HF _ _ Hid)). apply cascade_NoDup. }
  split_and!; try done.
  - intros a d. apply (try_map_keyed _ (fun '(a, r, _) => (a, r))) in Ht as [Hk Hb];
      [|intros ? [[? ?] ?] Hx; exact (reconcile_balance_key _ _ _ _ _ Hx)].
    rewrite (rebalance _ _ (rec_accounts r) (fun d => - tval (rec_tally r) d)); [|done..|].
    { unfold if_in. case_bool_decide; lia. }
    intros a' b Hin d'. apply Hb in Hin as ([[? ?] ?] & Hx & [= -> ->]).
    unfold reconcile_balance in Hx. rewrite F2 in Hx. invert_ok Hx. injection Hx as <- <-.
    match goal with H : checked_sub _ _ = Ok _ |- _ => apply checked_sub_value in H as [-> _] end. lia.
  - intros a d. apply (try_map_keyed _ (fun '(a, _, u) => (a, u))) in Ht as [Hk Hb];
      [|intros ? [[? ?] ?] Hx; exact (reconcile_balance_key _ _ _ _ _ Hx)].
    rewrite (rebalance _ _ (rec_accounts r) (tval (from_usage actual))); [done|done|done|].
    intros a' b Hin d'. apply Hb in Hin as ([[? ?] ?] & Hx & [= -> ->]).
    unfold reconcile_balance in Hx. invert_ok Hx. injection Hx as <- <-.
    match goal with H : checked_add (balance _ _) _ = Ok _ |- _ => by apply checked_add_value in H as [-> _] end.
Qed.

Lemma release_ok st id now st' rc :
  map_Forall wf_record (reservations st) ->
  release_in_state st id now = (st', Ok rc) ->
  exists r, reservations st !! id = Some r /\ rec_status r = Active
  /\ reservations st' = <[id := mk_ReservationRecord (rec_reservation r) (rec_accounts r)
        (rec_tally r) Released (rec_actual r)]> (reservations st)
  /\ limits st' = limits st
  /\ usage_by_account st' = usage_by_account (advance_all st (rec_accounts r) now)
  /\ (forall a d, tval (balance (reserved_by_account st') a) d
        = tval (balance (reserved_by_account st) a) d
          - if_in a (rec_accounts r) (tval (rec_tally r) d)).
Proof.
  intros HF. unfold release_in_state. destruct (reservations st !! id) as [r|] eqn:Hid; [|done].
  destruct (bool_decide (rec_status r = Active)) eqn:Hs; [|done]. apply bool_decide_eq_true in Hs.
  simpl. destruct (advance_all_frame st (rec_accounts r) now) as (F1 & F2 & F3).
  destruct (try_map _ _) as [bs|] eqn:Ht; [|done]. intros [= <- <-].
  exists r. cbn [limits reserved_by_account usage_by_account reservations period_anchors].
  rewrite F1, F2, F3. split_and!; try done.
  apply (try_map_keyed _ (fun x => x)) in Ht as [Hk Hb]; [|apply release_balance_key].
  rewrite map_id in Hk, Hb. intros a d.
  rewrite (rebalance _ _ (rec_accounts r) (fun d => - tval (rec_tally r) d)); [|..|done|].
  - unfold if_in. case_bool_decide; lia.
  - rewrite (wr_accounts _ _ (HF _ _ Hid)). apply cascade_NoDup.
  - intros a' b Hin d'. apply Hb in Hin as (x & Hx & ->). unfold release_balance in Hx.
    rewrite F2 in Hx. invert_ok Hx. injection Hx as <-.
    match goal with H : checked_sub _ _ = Ok _ |- _ => apply checked_sub_value in H as [-> _] end. lia.
Qed.

(** ** Preservation *)

(** The integer fields of an estimate are unsigned machine words. *)
Definition unsigned_estimate (e : ResourceEstimate) : Prop :=
  forall d, d <> DimUsd -> 0 <= tval (from_estimate e) d.

Lemma validated_estimate_nonneg e :
  validate_estimate e = Ok tt -> unsigned_estimate e -> nonneg (from_estimate e).
Proof.
  intros Hv Hu d. destruct (decide (d = DimUsd)) as [->|Hd]; [|by apply Hu].
  unfold validate_estimate in Hv. simpl. destruct (est_usd e) as [u|]; simpl; [|by rewrite dval_zero].
  destruct (dec_ltb u dec_zero) eqn:E; [done|]. by apply dec_ltb_zero_false.
Qed.

Lemma contribution_active a d res accts t act :
  contribution a d (mk_ReservationRecord res accts t Active act) = if_in a accts (tval t d).
Proof. done. Qed.

Lemma contribution_closed a d r : rec_status r <> Active -> contribution a d r = 0.
Proof. intros H. unfold contribution. by rewrite bool_decide_eq_false_2. Qed.

Lemma contribution_of_active a d r :
  rec_status r = Active -> contribution a d r = if_in a (rec_accounts r) (tval (rec_tally r) d).
Proof. intros H. unfold contribution. by rewrite bool_decide_eq_true_2. Qed.

Lemma reserve_preserves st scope est id now tb :
  unsigned_estimate est -> ledger_ok st ->
  ledger_ok (reserve_with_outcome_in_state st scope est id now tb).1.
Proof.
  intros Hu Hok. destruct (reserve_with_outcome_in_state st scope est id now tb) as [st' [o|e]] eqn:H.
  - apply reserve_ok in H as (Hv & Hid & _ & _ & Hr & _ & _ & _ & Hb & _).
    destruct Hok as [Hc HF]. constructor; simpl; intros.
    + rewrite Hb, Hr, held_insert_new, Hc, contribution_active by done. lia.
    + rewrite Hr. apply map_Forall_insert; [done|]. split; [|done].
      constructor; simpl; try done. by apply validated_estimate_nonneg.
  - assert (st' = st \/ st' = advance_all st (cascade scope) now) as [->| ->]; [|done|].
    { unfold reserve_with_outcome_in_state in H. repeat case_match; simplify_eq; auto. }
    destruct (advance_all_frame st (cascade scope) now) as (_ & F2 & F3).
    by apply (ledger_ok_frame st).
Qed.

(** Closing an active record. *)
Lemma close_preserves st st' id r r' :
  ledger_ok st -> reservations st !! id = Some r -> rec_status r = Active ->
  reservations st' = <[id := r']> (reservations st) -> rec_status r' <> Active -> wf_record id r' ->
  (forall a d, tval (balance (reserved_by_account st') a) d
     = tval (balance (reserved_by_account st) a) d - if_in a (rec_accounts r) (tval (rec_tally r) d)) ->
  ledger_ok st'.
Proof.
  intros [Hc HF] Hid Hs Hr Hs' Hwf Hb. constructor.
  - intros a d. rewrite Hb, Hr, (held_update _ _ r), Hc by done.
    rewrite contribution_of_active, contribution_closed by done. lia.
  - rewrite Hr. by apply map_Forall_insert_2.
Qed.

Lemma reconcile_preserves st id actual now :
  ledger_ok st -> ledger_ok (reconcile_in_state st id actual now).1.
Proof.
  intros Hok. destruct (reconcile_in_state st id actual now) as [st' [rc|e]] eqn:H; simpl.
  - apply reconcile_ok in H as (r & Hid & Hs & _ & Hr & _ & _ & Hb & _); [|by apply Hok].
    eapply close_preserves; [done..| |done]. destruct (lo_records _ Hok _ _ Hid).
    by constructor.
  - unfold reconcile_in_state in H. destruct (reservations st !! id) as [r|]; [|by simplify_eq].
    destruct (advance_all_frame st (rec_accounts r) now) as (_ & F2 & F3).
    repeat case_match; simplify_eq; try done; by apply (ledger_ok_frame st).
Qed.

Lemma release_preserves st id now :
  ledger_ok st -> ledger_ok (release_in_state st id now).1.
Proof.
  intros Hok. destruct (release_in_state st id now) as [st' [rc|e]] eqn:H; simpl.
  - apply release_ok in H as (r & Hid & Hs & Hr & _ & _ & Hb); [|by apply Hok].
    eapply close_preserves; [done..| |done]. destruct (lo_records _ Hok _ _ Hid).
    constructor; try done. simpl. intros Ha. specialize (wr_actual0 Ha). congruence.
  - unfold release_in_state in H. destruct (reservations st !! id) as [r|]; [|by simplify_eq].
    destruct (advance_all_frame st (rec_accounts r) now) as (_ & F2 & F3).
    repeat case_match; simplify_eq; try done; by apply (ledger_ok_frame st).
Qed.

Lemma set_limit_frame st a l now :
  reserved_by_account (set_limit_in_state st a l now) = reserved_by_account st
  /\ reservations (set_limit_in_state st a l now) = reservations st.
Proof.
  unfold set_limit_in_state. simpl. destruct (advance_frame st a now) as (_ & F2 & F3).
  by case_bool_decide.
Qed.

Definition typed_op (op : GovernorOp) : Prop :=
  match op with OpReserve _ est _ => unsigned_estimate est | _ => True end.

Lemma run_op_preserves op now tb st :
  typed_op op -> ledger_ok st -> ledger_ok (run_op op now tb st).1.
Proof.
  intros Ht Hok. destruct op as [a l|a l|scope est id|id actual|id actual|id|a]; simpl in *.
  - destruct (set_limit_frame st a l now). by apply (ledger_ok_frame st).
  - unfold set_limit_if_missing_in_state. destruct (set_limit_frame st a l now).
    destruct (limits st !! a); [done|]. by apply (ledger_ok_frame st).
  - pose proof (reserve_preserves st scope est id now tb Ht Hok).
    by destruct (reserve_with_outcome_in_state _ _ _ _ _ _).
  - pose proof (reconcile_preserves st id actual now Hok).
    by destruct (reconcile_in_state _ _ _ _).
  - unfold reconcile_retained_in_state. pose proof (reconcile_preserves st id actual now Hok).
    destruct (reservations st !! id); [|done]. destruct (_ && _); [done|].
    by destruct (reconcile_in_state _ _ _ _).
  - pose proof (release_preserves st id now Hok). by destruct (release_in_state _ _ _).
  - unfold account_snapshot_in_state. destruct (advance_frame st a now) as (_ & F2 & F3).
    assert (ledger_ok (advance_period_if_rolled_over st a now)) by (by apply (ledger_ok_frame st)).
    repeat case_match; simplify_eq; done.
Qed.

(** ** Reachable states *)

(** Any interleaving of calls on one state, through either governor. *)
Inductive governor_step : ResourceState -> ResourceState -> Prop :=
| step_in_memory st op now tb :
    typed_op op -> governor_step st (in_memory_call st op now tb).1.1
| step_persistent st io op now tb :
    typed_op op -> governor_step st (persistent_call st io op now tb).1.1.

Definition governor_reachable : ResourceState -> Prop :=
  rtc governor_step ResourceState_default.

Lemma store_update_state {T} st io (f : ResourceState -> ResourceState * result T ResourceError) :
  (store_update st io f).1 = st \/ (store_update st io f).1 = (f st).1.
Proof. unfold store_update. destruct io; simpl; repeat case_match; simplify_eq; auto. Qed.

Lemma governor_step_preserves st st' : governor_step st st' -> ledger_ok st -> ledger_ok st'.
Proof.
  intros Hs Hok. destruct Hs as [st op now tb Ht|st io op now tb Ht].
  - unfold in_memory_call. pose proof (run_op_preserves op now tb st Ht Hok).
    by destruct (run_op op now tb st).
  - unfold persistent_call. pose proof (run_op_preserves op now tb st Ht Hok).
    destruct (store_update_state st io (run_op op now tb)) as [E|E];
      destruct (store_update st io (run_op op now tb)) as [st' r]; simpl in *; by rewrite E.
Qed.

Lemma ledger_ok_default : ledger_ok ResourceState_default.
Proof.
  constructor; simpl.
  - intros a d. rewrite held_empty. unfold balance. rewrite lookup_empty. apply tval_default.
  - apply map_Forall_empty.
Qed.

Lemma reachable_ledger_ok st : governor_reachable st -> ledger_ok st.
Proof.
  unfold governor_reachable. intros H. remember ResourceState_default as st0 eqn:E.
  assert (ledger_ok st0) as Hok by (subst; apply ledger_ok_default). clear E.
  induction H as [|x y z Hxy _ IH]; [done|]. apply IH. by eapply governor_step_preserves.
Qed.

End Governor.
