(* ===== verification/GovernorSafety.v ===== *)
(** * Properties of the resource governor

    What the ledger, the caps and the settlement protocol of [Governor] promise
    their callers: conservation in every reachable state, caps respected by every
    granted reservation, failures that leave the ledger alone, settlement exactly
    once, and the persistent governor as a refinement of the in-memory one. *)

From S2P Require Import Prelude External HostIds Paths HostTypes Budget Governor.

#[local] Arguments cascade : simpl never.
#[local] Arguments advance_all : simpl never.

Section Safety.
Context `{D : Decimal} `{Cal : Calendar} `{L : !DecimalLaws D}.

(** ** Rollovers *)

(** The account's period is timed and its anchor has passed (or is missing). *)
Definition rolled (st : ResourceState) (a : ResourceAccount) (now : Z) : Prop :=
  exists l, limits st !! a = Some l /\ lim_period l <> PerInvocation
    /\ match period_anchors st !! a with Some anchor => anchor <= now | None => True end.

Lemma advance_usage st b now a :
  usage_by_account (advance_period_if_rolled_over st b now) !! a = usage_by_account st !! a
  \/ (a = b /\ rolled st a now
      /\ usage_by_account (advance_period_if_rolled_over st b now) !! a = None).
Proof.
  unfold advance_period_if_rolled_over.
  destruct (limits st !! b) as [l|] eqn:Hl; [|by left].
  case_bool_decide as Hp; [by left|].
  destruct (match period_anchors st !! b with Some _ => _ | None => _ end) eqn:Hr; [|by left].
  destruct (decide (a = b)) as [->|Hne]; simpl.
  - right. split_and!; [done| |apply lookup_delete_eq]. exists l. split_and!; [done..|].
    destruct (period_anchors st !! b); [by apply Z.leb_le|done].
  - left. by rewrite lookup_delete_ne.
Qed.

Lemma advance_anchor_other st b now a :
  a <> b -> period_anchors (advance_period_if_rolled_over st b now) !! a = period_anchors st !! a.
Proof.
  intros Hne. unfold advance_period_if_rolled_over. repeat case_match; simpl; try done;
    by rewrite lookup_insert_ne.
Qed.

Lemma advance_all_usage st accounts now a :
  usage_by_account (advance_all st accounts now) !! a = usage_by_account st !! a
  \/ (rolled st a now /\ usage_by_account (advance_all st accounts now) !! a = None).
Proof.
  unfold advance_all. revert st. induction accounts as [|b accounts IH]; intros st; [by left|].
  simpl. destruct (IH (advance_period_if_rolled_over st b now)) as [E|[Hr E]];
    destruct (advance_usage st b now a) as [E'|(-> & Hr' & E')]; rewrite ?E, ?E'; auto.
  right. split; [|done]. destruct (decide (a = b)) as [->|Hne].
  - destruct Hr as (l & Hl & Hp & Hanc).
    destruct (advance_frame st b now) as (F & _ & _). rewrite F in Hl.
    exists l. split_and!; [done..|]. unfold advance_period_if_rolled_over in Hanc.
    rewrite Hl, bool_decide_eq_false_2 in Hanc by done.
    destruct (period_anchors st !! b) eqn:Ha; [|done].
    destruct (period_has_rolled_over z now) eqn:Hz; [by apply Z.leb_le|].
    by rewrite Ha in Hanc.
  - destruct Hr as (l & Hl & Hp & Hanc). destruct (advance_frame st b now) as (F & _ & _).
    rewrite F in Hl. rewrite advance_anchor_other in Hanc by done. by exists l.
Qed.

(** An account without a timed period keeps its usage. *)
Lemma advance_all_per_invocation st accounts now a l :
  limits st !! a = Some l -> lim_period l = PerInvocation ->
  usage_by_account (advance_all st accounts now) !! a = usage_by_account st !! a.
Proof.
  intros Hl Hp. destruct (advance_all_usage st accounts now a) as [E|[(l' & Hl' & Hp' & _) _]];
    [done|]. congruence.
Qed.

(** ** Caps *)

Lemma check_integer_within acc dim limit u r q m :
  check_integer acc dim limit u r q = None ->
  opt_filter (fun v => 0 <? v) limit = Some m -> u + r + q <= m.
Proof.
  unfold check_integer. intros H E. rewrite E in H.
  destruct (checked_total u r q) as [t|] eqn:Ht; [|done].
  destruct (m <? t) eqn:Hlt; [done|]. apply Z.ltb_ge in Hlt.
  unfold checked_total in Ht. destruct (u64_checked_add u r) eqn:E1; [|done]. checked_facts. lia.
Qed.

Lemma check_decimal_within acc limit u r q m :
  check_decimal acc DimUsd limit u r q = None ->
  (exists c, dval c = dval u + dval r) -> (exists c, dval c = dval u + dval r + dval q) ->
  opt_filter (fun v => 0 <? v) (dval <$> limit) = Some m -> dval u + dval r + dval q <= m.
Proof.
  intros H [c1 H1] [c2 H2] E. unfold check_decimal in H.
  destruct limit as [l|]; simpl in *; [|done].
  destruct (0 <? dval l) eqn:Hl; [|done]. injection E as <-. apply Z.ltb_lt in Hl.
  rewrite (proj2 (dec_positive l)) in H by done.
  destruct (dec_add_exact _ _ _ H1) as (s & Es & Hs). rewrite Es in H.
  destruct (dec_add_exact s q c2) as (t & Et & Ht); [lia|]. rewrite Et in H.
  destruct (dec_ltb l t) eqn:Hlt; [done|].
  rewrite <- not_true_iff_false, dec_ltb_spec in Hlt. lia.
Qed.

(** No denial means every enforced cap holds the total. *)
Lemma no_denial_within acc l u r q d m :
  check_limits_first_denial acc l u r q = None -> cap l d = Some m ->
  (d = DimUsd -> (exists c, dval c = tval u DimUsd + tval r DimUsd)
     /\ exists c, dval c = tval u DimUsd + tval r DimUsd + tval q DimUsd) ->
  tval u d + tval r d + tval q d <= m.
Proof.
  unfold check_limits_first_denial. rewrite !or_else_none.
  intros (H0 & H1 & H2 & H3 & H4 & H5 & H6 & H7) Hc Hrep.
  destruct d; simpl in *;
    [destruct (Hrep eq_refl) as [Hs Ht]; by eapply check_decimal_within|
     by eapply check_integer_within..].
Qed.

Lemma check_accounts_within st q tb accounts w w' :
  check_accounts st q tb accounts w = Ok w' ->
  forall a l, a ∈ accounts -> limits st !! a = Some l ->
    check_limits_first_denial a (effective_limits l tb) (balance (usage_by_account st) a)
      (balance (reserved_by_account st) a) q = None.
Proof.
  revert w. induction accounts as [|b accounts IH]; intros w H a l Ha Hl;
    [by apply elem_of_nil in Ha|]. simpl in H.
  destruct (limits st !! b) as [lb|] eqn:Hb.
  - destruct (evaluate_cascade_for_account _ _ _ _ _ _) as [out|] eqn:He; [|done].
    destruct out as [aw| |]; [|done..].
    apply elem_of_cons in Ha as [->|Ha]; [|by eapply IH]. assert (lb = l) as -> by congruence.
    unfold evaluate_cascade_for_account in He.
    destruct (check_thresholds_all_interventions _ _ _ _ _ _) as [? []];
      by destruct (check_limits_first_denial _ _ _ _ _).
  - apply elem_of_cons in Ha as [->|Ha]; [congruence|by eapply IH].
Qed.

Lemma reserve_within st scope est id now tb st' o a l d m :
  reserve_with_outcome_in_state st scope est id now tb = (st', Ok o) ->
  a ∈ cascade scope -> limits st !! a = Some l -> cap (effective_limits l tb) d = Some m ->
  (d = DimUsd -> exists c, dval c = tval (balance (usage_by_account st') a) DimUsd
                                    + tval (balance (reserved_by_account st) a) DimUsd) ->
  tval (balance (usage_by_account st') a) d + tval (balance (reserved_by_account st') a) d <= m.
Proof.
  intros H Ha Hl Hc Hsub.
  apply reserve_ok in H as (_ & _ & Hck & _ & _ & _ & Hu & _ & Hb & Hrep).
  destruct (advance_all_frame st (cascade scope) now) as (F1 & F2 & _).
  eapply check_accounts_within in Hck; [|done|by rewrite F1]. rewrite F2, <- Hu in Hck.
  assert (if_in a (cascade scope) (tval (from_estimate est) d) = tval (from_estimate est) d) as E.
  { unfold if_in. by rewrite bool_decide_eq_true_2. }
  rewrite Hb, E. destruct (Hrep a Ha) as [c Hcs]. apply checked_add_value in Hcs as [Hcs _].
  enough (tval (balance (usage_by_account st') a) d + tval (balance (reserved_by_account st) a) d
          + tval (from_estimate est) d <= m) by lia.
  eapply no_denial_within; [done..|]. intros ->. split; [by apply Hsub|].
  exists (t_usd c). specialize (Hcs DimUsd). rewrite Hb, E in Hcs. simpl in *. lia.
Qed.
(** ** Failures *)

Definition only_advanced (st st' : ResourceState) (now : Z) : Prop :=
  st' = st \/ exists accounts, st' = advance_all st accounts now.

Lemma reserve_err_state st scope est id now tb st' e :
  reserve_with_outcome_in_state st scope est id now tb = (st', Err e) -> only_advanced st st' now.
Proof.
  unfold reserve_with_outcome_in_state, only_advanced. intros H.
  repeat case_match; simplify_eq; eauto.
Qed.

Lemma reconcile_err_state st id actual now st' e :
  reconcile_in_state st id actual now = (st', Err e) -> only_advanced st st' now.
Proof.
  unfold reconcile_in_state, only_advanced. intros H. repeat case_match; simplify_eq; eauto.
Qed.

Lemma release_err_state st id now st' e :
  release_in_state st id now = (st', Err e) -> only_advanced st st' now.
Proof.
  unfold release_in_state, only_advanced. intros H. repeat case_match; simplify_eq; eauto.
Qed.

Lemma result_map_err {A B E} (f : A -> B) (r : result A E) e :
  result_map f r = Err e -> r = Err e.
Proof. destruct r; [done|]. by intros [= ->]. Qed.

Lemma run_op_err_state op now tb st st' e :
  run_op op now tb st = (st', Err e) -> only_advanced st st' now.
Proof.
  destruct op as [a l|a l|scope est id|id actual|id actual|id|a]; simpl.
  - done.
  - by destruct (set_limit_if_missing_in_state _ _ _ _).
  - destruct (reserve_with_outcome_in_state _ _ _ _ _ _) eqn:E.
    intros [= -> ->%result_map_err]. by eapply reserve_err_state.
  - destruct (reconcile_in_state _ _ _ _) eqn:E.
    intros [= -> ->%result_map_err]. by eapply reconcile_err_state.
  - unfold reconcile_retained_in_state. destruct (reservations st !! id); [|intros [= <- _]; by left].
    destruct (_ && _); [done|]. destruct (reconcile_in_state _ _ _ _) eqn:E.
    intros [= -> Hr%result_map_err%result_map_err]. subst. by eapply reconcile_err_state.
  - destruct (release_in_state _ _ _) eqn:E.
    intros [= -> ->%result_map_err]. by eapply release_err_state.
  - by destruct (account_snapshot_in_state _ _ _).
Qed.

(** ** Properties *)

(** C30: conservation.  In every state reachable by any sequence of calls through
    either governor, failed calls, storage errors and rollovers included, the
    reserved balance of each account in each dimension is exactly the sum of the
    active reservations that hold it, and so is never negative; and every record
    agrees with its own reservation. *)
Theorem ledger_conserved st :
  governor_reachable st ->
  (forall a d, tval (balance (reserved_by_account st) a) d = held (reservations st) a d
     /\ 0 <= tval (balance (reserved_by_account st) a) d)
  /\ map_Forall wf_record (reservations st).
Proof.
  intros H%reachable_ledger_ok. pose proof H as [Hc HF]. split; [|done].
  intros a d. split; [apply Hc|by apply ledger_reserved_nonneg].
Qed.

(** C35: a granted reservation leaves every account of its cascade within every
    enforced cap: spend of the current period plus all holds, the new one
    included, is at most the cap.  Token caps count unless the live task setting
    switches token budgets off; for money the spend and the earlier holds must
    have a representable sum. *)
Theorem reserve_respects_caps st scope est id now tb st' o :
  reserve_with_outcome_in_state st scope est id now tb = (st', Ok o) ->
  forall a l d m, a ∈ cascade scope -> limits st' !! a = Some l ->
    cap (effective_limits l tb) d = Some m ->
    (d = DimUsd -> exists c, dval c = tval (balance (usage_by_account st') a) DimUsd
                                      + tval (balance (reserved_by_account st) a) DimUsd) ->
    tval (balance (usage_by_account st') a) d + tval (balance (reserved_by_account st') a) d <= m.
Proof.
  intros H a l d m Ha Hl. assert (limits st' = limits st) as E
    by (by apply reserve_ok in H as (_ & _ & _ & _ & _ & E & _)).
  rewrite E in Hl. by eapply reserve_within.
Qed.

(** A call that returns an error leaves limits, holds and reservations as they
    were; the only trace it can leave in memory is the reset of an account whose
    timed period had already run out. *)
Theorem failed_call_keeps_ledger op now tb st st' e :
  run_op op now tb st = (st', Err e) ->
  limits st' = limits st /\ reserved_by_account st' = reserved_by_account st
  /\ reservations st' = reservations st
  /\ forall a, usage_by_account st' !! a = usage_by_account st !! a
       \/ (rolled st a now /\ usage_by_account st' !! a = None).
Proof.
  assert (forall accounts, let s := advance_all st accounts now in
    limits s = limits st /\ reserved_by_account s = reserved_by_account st
    /\ reservations s = reservations st
    /\ forall a, usage_by_account s !! a = usage_by_account st !! a
         \/ (rolled st a now /\ usage_by_account s !! a = None)) as Hadv.
  { intros accounts s. destruct (advance_all_frame st accounts now) as (? & ? & ?).
    split_and!; try done. intros a. apply advance_all_usage. }
  intros H%run_op_err_state.
  destruct H as [->|[accs ->]]; [split_and!; [done..|by left]|apply Hadv].
Qed.

Lemma ResourceUsage_eqb_refl u : ResourceUsage_eqb u u = true.
Proof.
  unfold ResourceUsage_eqb. rewrite (proj2 (dec_eqb_spec _ _) eq_refl), !Z.eqb_refl. done.
Qed.

(** Settlement happens exactly once.  Reconciling moves the reservation's
    whole hold out of the reserved balance of exactly its accounts, adds the actual
    usage to their spend, and closes it; after that every further reconcile or
    release is rejected as closed with the state untouched, while repeating the
    settlement with the same usage returns the same receipt and charges nothing. *)
Theorem reconcile_settles_once st id actual now st' rc :
  governor_reachable st -> reconcile_in_state st id actual now = (st', Ok rc) ->
  (exists r, reservations st !! id = Some r /\ rec_status r = Active
    /\ (forall a d, tval (balance (reserved_by_account st') a) d
          = tval (balance (reserved_by_account st) a) d
            - if_in a (rec_accounts r) (tval (rec_tally r) d))
    /\ (forall a d, tval (balance (usage_by_account st') a) d
          = tval (balance (usage_by_account (advance_all st (rec_accounts r) now)) a) d
            + if_in a (rec_accounts r) (tval (from_usage actual) d)))
  /\ forall actual2 now2,
       reconcile_in_state st' id actual2 now2 = (st', Err (ReservationClosed id Reconciled))
       /\ release_in_state st' id now2 = (st', Err (ReservationClosed id Reconciled))
       /\ reconcile_retained_in_state st' id actual now2 = (st', Ok (rc, false)).
Proof.
  intros Hok%reachable_ledger_ok H.
  apply reconcile_ok in H as (r & Hid & Hs & Hv & Hr & _ & -> & Hb & Hu); [|by apply Hok].
  split; [by exists r|]. intros actual2 now2.
  unfold reconcile_in_state, release_in_state, reconcile_retained_in_state.
  rewrite Hr, lookup_insert_eq. simpl. rewrite ResourceUsage_eqb_refl. done.
Qed.

(** The exact difference of a balance and a hold exists, so a release succeeds. *)
Lemma release_succeeds st id now r :
  ledger_ok st -> reservations st !! id = Some r -> rec_status r = Active ->
  (forall a, a ∈ rec_accounts r -> exists c : ResourceTally,
     nonneg c /\ forall d, tval c d
       = tval (balance (reserved_by_account st) a) d - tval (rec_tally r) d) ->
  exists st' rc, release_in_state st id now = (st', Ok rc).
Proof.
  intros Hok Hid Hs Hc. unfold release_in_state. rewrite Hid, bool_decide_eq_true_2 by done. simpl.
  destruct (advance_all_frame st (rec_accounts r) now) as (_ & F2 & _).
  destruct (try_map_succeeds (release_balance (advance_all st (rec_accounts r) now) (rec_tally r))
              (rec_accounts r)) as [bs ->]; [|by eauto].
  intros a Ha. unfold release_balance. rewrite F2. destruct (Hc a Ha) as (c & Hn & Hcd).
  pose proof (ledger_reserved_nonneg _ a Hok DimUsd) as Hres.
  pose proof (wr_nonneg _ _ (lo_records _ Hok _ _ Hid) DimUsd) as Ht.
  destruct (checked_sub_total _ _ c Hcd Hn Hres Ht) as (c' & -> & _). eauto.
Qed.

(** Release undoes reserve.  From any reachable state, a granted reservation
    can be released at any later time, and every account's reserved balance is
    then what it was before the reservation. *)
Theorem release_undoes_reserve st scope est id now tb st' o now2 :
  governor_reachable st -> unsigned_estimate est ->
  reserve_with_outcome_in_state st scope est id now tb = (st', Ok o) ->
  exists st'' rc, release_in_state st' id now2 = (st'', Ok rc)
    /\ forall a d, tval (balance (reserved_by_account st'') a) d
                  = tval (balance (reserved_by_account st) a) d.
Proof.
  intros Hok%reachable_ledger_ok Hu H.
  pose proof (reserve_preserves st scope est id now tb Hu Hok) as Hok'. rewrite H in Hok'.
  apply reserve_ok in H as (_ & _ & _ & _ & Hr & _ & _ & _ & Hb & _). simpl in Hok'.
  assert (reservations st' !! id = Some (mk_ReservationRecord (mk_ResourceReservation id scope est)
    (cascade scope) (from_estimate est) Active None)) as Hid by (by rewrite Hr, lookup_insert_eq).
  destruct (release_succeeds st' id now2 _ Hok' Hid eq_refl) as (st'' & rc & Hrel).
  { intros a Ha. exists (balance (reserved_by_account st) a).
    split; [by apply ledger_reserved_nonneg|]. intros d. rewrite Hb. unfold if_in. simpl in *.
    rewrite bool_decide_eq_true_2 by done. lia. }
  exists st'', rc. split; [done|]. intros a d.
  apply release_ok in Hrel as (r & Hid' & _ & _ & _ & _ & Hb'); [|by apply Hok'].
  rewrite Hid in Hid'. injection Hid' as <-. rewrite Hb', Hb. simpl. lia.
Qed.

(** The persistent governor refines the in-memory one.  From the same state
    and clock, a call whose storage works returns the same result and emits the
    same events as in memory; it stores the in-memory result state when the call
    succeeds and leaves the snapshot alone when it fails.  When storage fails the
    call fails, and the stored snapshot is either the old one or that result
    state, never anything else. *)
Theorem persistent_refines_in_memory st io op now tb :
  let '(mem', mem_result, mem_events) := in_memory_call st op now tb in
  let '(st', r, events) := persistent_call st io op now tb in
  (io = IoOk -> r = mem_result /\ events = mem_events
     /\ st' = if is_ok r then mem' else st)
  /\ (is_ok r = true -> io = IoOk)
  /\ (st' = st \/ (st' = mem' /\ is_ok mem_result = true)).
Proof.
  unfold in_memory_call, persistent_call, store_update.
  destruct (run_op op now tb st) as [mem' [v|e]] eqn:E; destruct io; simpl;
    split_and!; try done; (by left) || (by right).
Qed.

(** Spend of a [PerInvocation] account accumulates for ever.  After a
    settlement on such an account its spend stays in the ledger at every later
    time, and a request that no longer fits next to it is refused, although the
    period is documented as keeping no accumulating ledger. *)
Theorem per_invocation_spend_accumulates st id actual now st' rc a l d m :
  governor_reachable st -> reconcile_in_state st id actual now = (st', Ok rc) ->
  a ∈ cascade (rc_scope rc) -> limits st !! a = Some l -> lim_period l = PerInvocation ->
  d <> DimUsd -> cap (effective_limits l true) d = Some m ->
  tval (balance (usage_by_account st') a) d
    = tval (balance (usage_by_account st) a) d + tval (from_usage actual) d
  /\ forall scope est id2 now2, a ∈ cascade scope ->
       m < tval (balance (usage_by_account st') a) d + tval (from_estimate est) d ->
       is_ok (reserve_with_outcome_in_state st' scope est id2 now2 true).2 = false.
Proof.
  intros Hok%reachable_ledger_ok H Ha Hl Hp Hd Hm.
  pose proof (reconcile_preserves st id actual now Hok) as Hok'. rewrite H in Hok'. simpl in Hok'.
  apply reconcile_ok in H as (r & Hid & Hs & _ & _ & Hlim & -> & _ & Hu); [|by apply Hok].
  simpl in Ha. rewrite <- (wr_accounts _ _ (lo_records _ Hok _ _ Hid)) in Ha. split.
  - rewrite Hu. unfold if_in, balance. rewrite bool_decide_eq_true_2 by done.
    by rewrite (advance_all_per_invocation st _ now a l).
  - intros scope est id2 now2 Ha2 Hlt.
    destruct (reserve_with_outcome_in_state st' scope est id2 now2 true) as [st2 [o|]] eqn:E; [|done].
    exfalso. assert (limits st' !! a = Some l) as Hl' by (by rewrite Hlim).
    pose proof (reserve_within _ _ _ _ _ _ _ _ _ _ _ _ E Ha2 Hl' Hm ltac:(done)) as Hle.
    apply reserve_ok in E as (_ & _ & _ & _ & _ & _ & Hu2 & _ & Hb2 & _).
    rewrite Hu2, Hb2 in Hle. unfold if_in in Hle. rewrite bool_decide_eq_true_2 in Hle by done.
    unfold balance in Hle at 1.
    rewrite (advance_all_per_invocation st' _ now2 a l) in Hle by done.
    pose proof (ledger_reserved_nonneg _ a Hok' d) as Hnn. unfold balance in Hlt at 1. lia.
Qed.

(** Changing a cap within the same timed period does not restart the
    accounting window: before the window's end the spend and the anchor stay, at or
    after it the spend is dropped and a new window starts; a different period drops
    the spend at once.  Holds and other accounts are never touched. *)
Theorem set_limit_keeps_window st a l now anchor :
  lim_period l <> PerInvocation -> period_anchors st !! a = Some anchor ->
  let st' := set_limit_in_state st a l now in
  limits st' = <[a := l]> (limits st)
  /\ reserved_by_account st' = reserved_by_account st /\ reservations st' = reservations st
  /\ (forall b, b <> a -> usage_by_account st' !! b = usage_by_account st !! b
        /\ period_anchors st' !! b = period_anchors st !! b)
  /\ (if decide (lim_period <$> limits st !! a = Some (lim_period l) /\ now < anchor)
      then usage_by_account st' !! a = usage_by_account st !! a
           /\ period_anchors st' !! a = Some anchor
      else usage_by_account st' !! a = None
           /\ period_anchors st' !! a = Some (period_bounds (lim_period l) now).2).
Proof.
  intros Hp Ha st'. subst st'. unfold set_limit_in_state, advance_period_if_rolled_over.
  rewrite (bool_decide_eq_false_2 (lim_period l = PerInvocation)) by done.
  case_bool_decide as Hprior; simpl.
  - destruct (limits st !! a) as [l0|] eqn:Hl0; [|done]. simpl in Hprior. injection Hprior as Hl.
    rewrite Hl, bool_decide_eq_false_2, Ha by done. unfold period_has_rolled_over.
    destruct (anchor <=? now) eqn:Hle; simpl.
    + apply Z.leb_le in Hle. rewrite lookup_insert_eq, decide_False by (intros [_ ?]; lia).
      split_and!; try done; try apply lookup_delete_eq; try apply lookup_insert_eq.
      intros b Hb. by rewrite lookup_delete_ne, lookup_insert_ne.
    + apply Z.leb_gt in Hle. rewrite Ha. rewrite decide_True by (split; [by rewrite <- Hl|done]).
      by split_and!.
  - rewrite lookup_delete_eq, decide_False by (by intros [? _]).
    split_and!; try done; try apply lookup_delete_eq; try apply lookup_insert_eq.
    intros b Hb. by rewrite lookup_delete_ne, lookup_insert_ne, lookup_delete_ne.
Qed.

(** ** Stored states *)

Definition held_list (l : list (ResourceReservationId * ReservationRecord)) (a : ResourceAccount)
    (d : ResourceDimension) : Z :=
  foldr (fun p acc => contribution a d p.2 + acc) 0 l.

Lemma held_list_permutation l l' a d : l ≡ₚ l' -> held_list l a d = held_list l' a d.
Proof. induction 1; simpl; lia. Qed.

Lemma held_map_to_list m a d : held m a d = held_list (map_to_list m) a d.
Proof.
  unfold held, held_list. rewrite map_fold_foldr.
  induction (map_to_list m) as [|[k r] l IH]; [done|]. simpl. by rewrite IH.
Qed.

Lemma add_to_accounts_value t accounts m m' :
  NoDup accounts -> add_to_accounts t accounts m = Ok m' ->
  forall a d, tval (balance m' a) d = tval (balance m a) d + if_in a accounts (tval t d).
Proof.
  intros Hnd. revert m. induction Hnd as [|b accounts Hb Hnd IH]; intros m H a d; simpl in H.
  - injection H as <-. unfold if_in. rewrite bool_decide_eq_false_2 by apply not_elem_of_nil. lia.
  - destruct (checked_add _ _) as [s|] eqn:E; [|done]. apply checked_add_value in E as [E _].
    rewrite (IH _ H a d), balance_insert. unfold if_in.
    destruct (decide (a = b)) as [->|Hne].
    + rewrite (bool_decide_eq_true_2 (b = b)), (bool_decide_eq_false_2 (b ∈ accounts)) by done.
      rewrite (bool_decide_eq_true_2 (b ∈ b :: accounts)), E by (by left). lia.
    + rewrite (bool_decide_eq_false_2 (a = b)) by done. f_equal.
      rewrite (bool_decide_ext (a ∈ b :: accounts) (a ∈ accounts)); [done|set_solver].
Qed.

(** What validation establishes of one record, up to the sign of its integers. *)
Definition checked_record (p : ResourceReservationId * ReservationRecord) : Prop :=
  (forall d, d <> DimUsd -> 0 <= tval (rec_tally p.2) d) -> wf_record p.1 p.2.

Lemma expected_balances_value order m m' :
  expected_balances order m = Ok m' ->
  Forall checked_record order
  /\ forall a d, tval (balance m' a) d = tval (balance m a) d + held_list order a d.
Proof.
  revert m. induction order as [|[id r] order IH]; intros m H; simpl in H.
  - injection H as <-. split; [done|]. intros a d. simpl. lia.
  - destruct (_ || _) eqn:Hchk; [done|]. rewrite !orb_false_iff, !negb_false_iff in Hchk.
    destruct Hchk as [[Hid Hacc] Htally]. apply bool_decide_eq_true in Hid, Hacc.
    rewrite ResourceTally_eqb_spec in Htally.
    destruct (validate_estimate _) as [[]|] eqn:Hv; [|done].
    destruct (match rec_actual r with Some _ => _ | None => _ end) as [[]|] eqn:Hact; [|done].
    destruct (if bool_decide (rec_status r = Active) then _ else _) as [m1|] eqn:Hadd; [|done].
    destruct (IH _ H) as [HF Hval]. split.
    + constructor; [|done]. intros Hint. constructor; simpl; try done.
      * intros d. destruct (decide (d = DimUsd)) as [->|]; [|by apply Hint]. rewrite Htally.
        apply validated_estimate_nonneg; [done|]. intros d Hd. rewrite <- Htally. by apply Hint.
      * intros [u Hu]. rewrite Hu in Hact. invert_ok Hact.
        by apply negb_false_iff, bool_decide_eq_true in Heqb.
    + intros a d. rewrite Hval. simpl. unfold contribution. case_bool_decide as Hs; simpl.
      * assert (NoDup (rec_accounts r)) as Hnd by (rewrite Hacc; apply cascade_NoDup).
        rewrite (add_to_accounts_value _ _ _ _ Hnd Hadd). unfold if_in. lia.
      * injection Hadd as <-. lia.
Qed.

(** The two comparison loops leave no account with different balances. *)
Lemma balances_agree (m m' : gmap ResourceAccount ResourceTally) :
  existsb (fun '(a, t) => negb (ResourceTally_eqb (balance m' a) t)) (map_to_list m) = false ->
  existsb (fun '(a, t) => negb (ResourceTally_eqb (balance m a) t)) (map_to_list m') = false ->
  forall a d, tval (balance m a) d = tval (balance m' a) d.
Proof.
  rewrite !existsb_false_Forall, !Forall_forall. intros H1 H2 a d.
  destruct (m !! a) as [t|] eqn:E; [|destruct (m' !! a) as [t'|] eqn:E'].
  - specialize (H1 (a, t)). rewrite elem_of_map_to_list in H1. specialize (H1 E).
    apply negb_false_iff in H1. rewrite ResourceTally_eqb_spec in H1.
    unfold balance at 1. by rewrite E, H1.
  - specialize (H2 (a, t')). rewrite elem_of_map_to_list in H2. specialize (H2 E').
    apply negb_false_iff in H2. rewrite ResourceTally_eqb_spec in H2.
    unfold balance at 2. by rewrite E', H2.
  - unfold balance. by rewrite E, E'.
Qed.

(** A stored state that passes validation, in whatever order its rows are
    visited, satisfies the ledger invariant, and so does every state reached from
    it; a governor restarted from a validated snapshot keeps conserving. *)
Theorem validated_state_conserves st order usage_order st' :
  order ≡ₚ map_to_list (reservations st) ->
  map_Forall (fun _ r => forall d, d <> DimUsd -> 0 <= tval (rec_tally r) d) (reservations st) ->
  validate_retained_balances st order usage_order = Ok tt ->
  rtc governor_step st st' -> ledger_ok st /\ ledger_ok st'.
Proof.
  intros Hord Hint Hval Hsteps. enough (ledger_ok st) as Hok.
  { split; [done|]. clear Hord Hint Hval. induction Hsteps as [|x y z Hxy _ IH]; [done|].
    apply IH. by eapply governor_step_preserves. }
  clear Hsteps. unfold validate_retained_balances in Hval.
  destruct (expected_balances order ∅) as [m|] eqn:He; [|done].
  apply expected_balances_value in He as [HF Hm].
  destruct (existsb _ (map_to_list (reserved_by_account st))) eqn:H1; [done|].
  destruct (existsb _ (map_to_list m)) eqn:H2; [done|]. clear Hval.
  assert (forall a d, tval (balance (reserved_by_account st) a) d = tval (balance m a) d) as Heq
    by (by apply balances_agree).
  constructor.
  - intros a d. rewrite Heq, Hm, held_map_to_list, (held_list_permutation _ _ a d Hord).
    unfold balance. rewrite lookup_empty. simpl. by rewrite tval_default.
  - intros id r Hid. rewrite Forall_forall in HF.
    apply (HF (id, r)); [|by apply (Hint id)]. rewrite Hord. by apply elem_of_map_to_list.
Qed.


End Safety.

(** ** Evaluation: one tenant with a cap of 100 input tokens *)

Module Example.

Definition tenant : ResourceAccount := AccTenant (from_trusted "acme").
Definition scope : ResourceScope := example_scope (Some "p") None.
Definition id1 : ResourceReservationId := from_uuid 1.
Definition estimate (tokens : Z) : ResourceEstimate :=
  mk_ResourceEstimate None (Some tokens) None None None None None None.
Definition usage (tokens : Z) : ResourceUsage :=
  mk_ResourceUsage (Fixed.lit 0) tokens 0 0 0 0 0.

Definition limited : ResourceState :=
  (in_memory_call ResourceState_default (OpSetLimit tenant example_limits) 0 true).1.1.
Definition reserved : ResourceState :=
  (in_memory_call limited (OpReserve scope (estimate 60) id1) 1 true).1.1.

Lemma estimate_unsigned n : 0 <= n -> unsigned_estimate (estimate n).
Proof. intros Hn [] Hd; simpl; done || lia. Qed.

Lemma limited_reachable : governor_reachable limited.
Proof. apply rtc_once. by apply (step_in_memory ResourceState_default (OpSetLimit _ _)). Qed.

Lemma reserved_reachable : governor_reachable reserved.
Proof.
  eapply rtc_r; [apply limited_reachable|].
  apply (step_in_memory limited (OpReserve _ _ _)). by apply estimate_unsigned.
Qed.

End Example.

Lemma ledger_conserved_witness :
  governor_reachable Example.reserved
  /\ held (reservations Example.reserved) Example.tenant DimInputTokens = 60.
Proof.
  split; [apply Example.reserved_reachable|].
  rewrite <- (proj1 (proj1 (ledger_conserved _ Example.reserved_reachable)
                       Example.tenant DimInputTokens)).
  by vm_compute.
Defined.

Lemma reserve_respects_caps_witness :
  exists st' o,
    reserve_with_outcome_in_state Example.limited Example.scope (Example.estimate 60)
      Example.id1 1 true = (st', Ok o)
    /\ tval (balance (usage_by_account st') Example.tenant) DimInputTokens
       + tval (balance (reserved_by_account st') Example.tenant) DimInputTokens <= 100.
Proof.
  destruct (reserve_with_outcome_in_state Example.limited Example.scope (Example.estimate 60)
      Example.id1 1 true) as [st' [o|e]] eqn:E.
  - exists st', o. split; [done|].
    apply (reserve_respects_caps _ _ _ _ _ _ _ _ E Example.tenant example_limits DimInputTokens 100).
    + by left.
    + apply reserve_ok in E as (_ & _ & _ & _ & _ & -> & _). reflexivity.
    + reflexivity.
    + done.
  - assert (is_ok (reserve_with_outcome_in_state Example.limited Example.scope
      (Example.estimate 60) Example.id1 1 true).2 = true) as H by (by vm_compute).
    by rewrite E in H.
Defined.

Lemma failed_call_keeps_ledger_witness :
  exists st' e, run_op (OpReserve Example.scope (Example.estimate 60) (from_uuid 2)) 2 true
                  Example.reserved = (st', Err e)
    /\ reservations st' = reservations Example.reserved.
Proof.
  destruct (run_op (OpReserve Example.scope (Example.estimate 60) (from_uuid 2)) 2 true
              Example.reserved) as [st' [v|e]] eqn:E.
  - assert (is_ok (run_op (OpReserve Example.scope (Example.estimate 60) (from_uuid 2)) 2 true
              Example.reserved).2 = false) as H by (by vm_compute).
    by rewrite E in H.
  - exists st', e. split; [done|]. apply (failed_call_keeps_ledger _ _ _ _ _ _ E).
Defined.

Lemma reconcile_settles_once_witness :
  exists st' rc, reconcile_in_state Example.reserved Example.id1 (Example.usage 40) 3 = (st', Ok rc)
    /\ reconcile_retained_in_state st' Example.id1 (Example.usage 40) 9 = (st', Ok (rc, false)).
Proof.
  destruct (reconcile_in_state Example.reserved Example.id1 (Example.usage 40) 3)
    as [st' [rc|e]] eqn:E.
  - exists st', rc. split; [done|].
    apply (proj2 (reconcile_settles_once _ _ _ _ _ _ Example.reserved_reachable E)
             (Example.usage 1)).
  - assert (is_ok (reconcile_in_state Example.reserved Example.id1 (Example.usage 40) 3).2 = true)
      as H by (by vm_compute).
    by rewrite E in H.
Defined.

Lemma release_undoes_reserve_witness :
  exists st'' rc, release_in_state Example.reserved Example.id1 5 = (st'', Ok rc)
    /\ tval (balance (reserved_by_account st'') Example.tenant) DimInputTokens = 0.
Proof.
  destruct (reserve_with_outcome_in_state Example.limited Example.scope (Example.estimate 60)
      Example.id1 1 true) as [st' [o|e]] eqn:E.
  - destruct (release_undoes_reserve _ _ _ _ _ _ _ _ 5 Example.limited_reachable
                (Example.estimate_unsigned 60 ltac:(lia)) E) as (st'' & rc & H & Hb).
    exists st'', rc. assert (st' = Example.reserved) as <-.
    { unfold Example.reserved, in_memory_call. simpl. by rewrite E. }
    split; [done|]. rewrite Hb. by vm_compute.
  - assert (is_ok (reserve_with_outcome_in_state Example.limited Example.scope
      (Example.estimate 60) Example.id1 1 true).2 = true) as H by (by vm_compute).
    by rewrite E in H.
Defined.

Lemma per_invocation_spend_accumulates_witness :
  exists st' rc, reconcile_in_state Example.reserved Example.id1 (Example.usage 40) 3 = (st', Ok rc)
    /\ is_ok (reserve_with_outcome_in_state st' Example.scope (Example.estimate 61)
                (from_uuid 2) (days 4000) true).2 = false.
Proof.
  destruct (reconcile_in_state Example.reserved Example.id1 (Example.usage 40) 3)
    as [st' [rc|e]] eqn:E.
  - exists st', rc. split; [done|].
    assert (cascade (rc_scope rc) = cascade Example.scope) as Hc.
    { pose proof (reconcile_ok _ _ _ _ _ _
        (lo_records _ (reachable_ledger_ok _ Example.reserved_reachable)) E)
        as (r & Hid & _ & _ & _ & _ & -> & _).
      simpl. f_equal. assert (rr_scope (rec_reservation r) = Example.scope) as ->; [|done].
      assert ((fun r => rr_scope (rec_reservation r)) <$> reservations Example.reserved !! Example.id1
              = Some Example.scope) as H by (by vm_compute).
      rewrite Hid in H. by injection H. }
    destruct (per_invocation_spend_accumulates _ _ _ _ _ _ Example.tenant example_limits
      DimInputTokens 100 Example.reserved_reachable E) as [Hu Hr].
    + rewrite Hc. by left.
    + reflexivity.
    + reflexivity.
    + done.
    + reflexivity.
    + apply Hr; [by left|]. rewrite Hu. by vm_compute.
  - assert (is_ok (reconcile_in_state Example.reserved Example.id1 (Example.usage 40) 3).2 = true)
      as H by (by vm_compute).
    by rewrite E in H.
Defined.

Definition example_daily (tokens : Z) : ResourceLimits :=
  mk_ResourceLimits None (Some tokens) None None None None None None
    Rolling24h BudgetThresholds_DISABLED.

Lemma set_limit_keeps_window_witness :
  let st := set_limit_in_state ResourceState_default Example.tenant (example_daily 100) 0 in
  period_anchors (set_limit_in_state st Example.tenant (example_daily 50) 7) !! Example.tenant
    = Some (hours 24).
Proof.
  intros st.
  assert (period_anchors st !! Example.tenant = Some (hours 24)) as Ha by reflexivity.
  pose proof (set_limit_keeps_window st Example.tenant (example_daily 50) 7 (hours 24)
                ltac:(done) Ha) as (_ & _ & _ & _ & H).
  rewrite decide_True in H; [apply H|]. split; [reflexivity|done].
Defined.

Lemma validated_state_conserves_witness :
  ledger_ok Example.reserved.
Proof.
  refine (proj1 (validated_state_conserves Example.reserved
    (map_to_list (reservations Example.reserved)) [] Example.reserved _ _ _ _)).
  - reflexivity.
  - intros id r Hid d _.
    apply (wr_nonneg _ _ (lo_records _ (reachable_ledger_ok _ Example.reserved_reachable) _ _ Hid)).
  - assert (is_ok (validate_retained_balances Example.reserved
      (map_to_list (reservations Example.reserved)) []) = true) as H by (by vm_compute).
    destruct (validate_retained_balances _ _ _) as [[]|]; done.
  - reflexivity.
Defined.
