(* ===== verification/Trust.v ===== *)
(** * Trust policy

    [crates/brassclaw_trust/src]: [decision.rs] (effective trust and authority
    ceilings), [sources.rs] (the layered policy sources), [policy.rs] (evaluation
    and mutation) and [invalidation.rs] (trust changes and the bus).  A source of
    a type outside the crate is a [CustomSource] with its own evaluation function.
    The write gate serialises mutations, so a mutation is one function of the
    policy; the changes the bus delivers to every listener are its second result.
    The theorems: privilege comes only from a host entry pinned to the package's
    source and digest, whatever the manifest requests; a successful mutation
    publishes exactly when the affected package's decision fell; a failed one
    changes and publishes nothing; and "not a reduction" means that everything
    allowed stays allowed. *)

From S2P Require Import Prelude External HostIds Paths HostTypes.

#[export] Instance PackageSource_countable : Countable PackageSource.
Proof.
  set (enc s := match s with
    | Bundled => inl (inl tt) | LocalManifest p => inl (inr p)
    | Registry u => inr (inl u) | Admin => inr (inr tt) end).
  set (dec_ x := match x with
    | inl (inl tt) => Bundled | inl (inr p) => LocalManifest p
    | inr (inl u) => Registry u | inr (inr tt) => Admin end).
  apply (inj_countable' enc dec_). by intros [].
Defined.

(** ** Effective trust ([decision.rs]) *)

Record EffectiveTrustClass : Type := mk_EffectiveTrustClass { class : TrustClass }.

#[export] Instance EffectiveTrustClass_eq_dec : EqDecision EffectiveTrustClass.
Proof. solve_decision. Defined.

Definition eff_sandbox : EffectiveTrustClass := mk_EffectiveTrustClass Sandbox.
Definition eff_user_trusted : EffectiveTrustClass := mk_EffectiveTrustClass UserTrusted.
Definition eff_first_party : EffectiveTrustClass := mk_EffectiveTrustClass FirstParty.
Definition eff_system : EffectiveTrustClass := mk_EffectiveTrustClass System.

Definition is_privileged (self : EffectiveTrustClass) : bool :=
  match class self with FirstParty | System => true | _ => false end.

Definition authority_level (self : EffectiveTrustClass) : Z :=
  match class self with Sandbox => 0 | UserTrusted => 1 | FirstParty | System => 2 end.

Record HostTrustAssignment : Type := mk_HostTrustAssignment { hta_class : TrustClass }.

Definition into_effective (self : HostTrustAssignment) : EffectiveTrustClass :=
  mk_EffectiveTrustClass (hta_class self).

Inductive TrustProvenance : Type :=
| ProvDefault
| ProvBundled
| ProvAdminConfig
| ProvSignedRegistry (signer : string)
| ProvLocalManifest.

Inductive TrustError : Type := TrustInvariantViolation (reason : string).

Section Trust.
Context `{D : Decimal}.

Record AuthorityCeiling : Type := mk_AuthorityCeiling {
  ac_allowed_effects : list EffectKind;
  max_resource_ceiling : option ResourceCeiling }.

Definition AuthorityCeiling_empty : AuthorityCeiling := mk_AuthorityCeiling [] None.

Definition allows_effect (self : AuthorityCeiling) (effect : EffectKind) : bool :=
  bool_decide (effect ∈ ac_allowed_effects self).

Definition limit_reduced {T} (ltb : T -> T -> bool) (previous current : option T) : bool :=
  match previous, current with
  | None, Some _ => true
  | Some p, Some c => ltb c p
  | None, None | Some _, None => false
  end.

Definition sandbox_quota_reduced (previous current : option SandboxQuota) : bool :=
  match previous, current with
  | None, Some _ => true
  | None, None | Some _, None => false
  | Some p, Some c =>
      limit_reduced Z.ltb (cpu_time_ms p) (cpu_time_ms c)
      || limit_reduced Z.ltb (memory_bytes p) (memory_bytes c)
      || limit_reduced Z.ltb (disk_bytes p) (disk_bytes c)
      || limit_reduced Z.ltb (sq_network_egress_bytes p) (sq_network_egress_bytes c)
      || limit_reduced Z.ltb (sq_process_count p) (sq_process_count c)
  end.

Definition resource_ceiling_reduced (previous current : option ResourceCeiling) : bool :=
  match previous, current with
  | None, Some _ => true
  | None, None | Some _, None => false
  | Some p, Some c =>
      limit_reduced dec_ltb (ceil_max_usd p) (ceil_max_usd c)
      || limit_reduced Z.ltb (ceil_max_input_tokens p) (ceil_max_input_tokens c)
      || limit_reduced Z.ltb (ceil_max_output_tokens p) (ceil_max_output_tokens c)
      || limit_reduced Z.ltb (ceil_max_wall_clock_ms p) (ceil_max_wall_clock_ms c)
      || limit_reduced Z.ltb (ceil_max_output_bytes p) (ceil_max_output_bytes c)
      || sandbox_quota_reduced (ceil_sandbox p) (ceil_sandbox c)
  end.

Definition is_reduction_from (self previous : AuthorityCeiling) : bool :=
  existsb (fun effect => negb (bool_decide (effect ∈ ac_allowed_effects self)))
    (ac_allowed_effects previous)
  || resource_ceiling_reduced (max_resource_ceiling previous) (max_resource_ceiling self).

Record TrustDecision : Type := mk_TrustDecision {
  td_effective_trust : EffectiveTrustClass;
  td_authority_ceiling : AuthorityCeiling;
  td_provenance : TrustProvenance;
  td_evaluated_at : Z }.

(** ** Sources ([sources.rs]) *)

Record TrustPolicyInput : Type := mk_TrustPolicyInput {
  tpi_identity : PackageIdentity;
  tpi_requested_trust : RequestedTrustClass;
  tpi_requested_authority : gset CapabilityId }.

Record SourceMatch : Type := mk_SourceMatch {
  sm_effective_trust : EffectiveTrustClass;
  sm_provenance : TrustProvenance;
  sm_allowed_effects : list EffectKind;
  sm_max_resource_ceiling : option ResourceCeiling }.

Record BundledEntry : Type := mk_BundledEntry {
  be_package_id : PackageId;
  be_digest : option string;
  be_effective_trust : EffectiveTrustClass;
  be_allowed_effects : list EffectKind;
  be_max_resource_ceiling : option ResourceCeiling }.

Record AdminEntry : Type := mk_AdminEntry {
  ae_package_id : PackageId;
  ae_source : PackageSource;
  ae_digest : option string;
  ae_effective_trust : EffectiveTrustClass;
  ae_allowed_effects : list EffectKind;
  ae_max_resource_ceiling : option ResourceCeiling }.

Record SignerEntry : Type := mk_SignerEntry {
  se_signer : string;
  se_label : option string;
  se_effective_trust : EffectiveTrustClass;
  se_allowed_effects : list EffectKind;
  se_max_resource_ceiling : option ResourceCeiling }.

(** The entry constructors: a host assignment, and for an admin entry its origin. *)
Definition BundledEntry_new (package_id : PackageId) (digest : option string)
    (trust : HostTrustAssignment) (allowed_effects : list EffectKind)
    (max_resource_ceiling : option ResourceCeiling) : BundledEntry :=
  mk_BundledEntry package_id digest (into_effective trust) allowed_effects max_resource_ceiling.

Definition AdminEntry_for_bundled (package_id : PackageId) (digest : option string)
    (trust : HostTrustAssignment) (allowed_effects : list EffectKind)
    (max_resource_ceiling : option ResourceCeiling) : AdminEntry :=
  mk_AdminEntry package_id Bundled digest (into_effective trust) allowed_effects
    max_resource_ceiling.

Definition AdminEntry_for_registry (package_id : PackageId) (registry_url : string)
    (digest : option string) (trust : HostTrustAssignment) (allowed_effects : list EffectKind)
    (max_resource_ceiling : option ResourceCeiling) : AdminEntry :=
  mk_AdminEntry package_id (Registry registry_url) digest (into_effective trust) allowed_effects
    max_resource_ceiling.

Definition AdminEntry_for_admin (package_id : PackageId) (trust : HostTrustAssignment)
    (allowed_effects : list EffectKind) (max_resource_ceiling : option ResourceCeiling) :
    AdminEntry :=
  mk_AdminEntry package_id Admin None (into_effective trust) allowed_effects
    max_resource_ceiling.

Definition AdminEntry_for_local_manifest (package_id : PackageId) (manifest_path : string)
    (digest : option string) (trust : HostTrustAssignment) (allowed_effects : list EffectKind)
    (max_resource_ceiling : option ResourceCeiling) : AdminEntry :=
  mk_AdminEntry package_id (LocalManifest manifest_path) digest (into_effective trust)
    allowed_effects max_resource_ceiling.

(** [AdminSubject]: the pair of package and source. *)
Definition AdminSubject : Type := (PackageId * PackageSource)%type.
Definition AdminSubject_from_entry (entry : AdminEntry) : AdminSubject :=
  (ae_package_id entry, ae_source entry).

Inductive PolicySource : Type :=
| BundledRegistry (entries : gmap PackageId BundledEntry)
| AdminConfig (entries : gmap AdminSubject AdminEntry)
| SignedRegistry (trusted_signers : gmap string SignerEntry)
| LocalDevOverride (overrides : gmap PackageId AdminEntry) (enabled : bool)
| CustomSource (type_id : Z) (name : string)
    (evaluate : TrustPolicyInput -> result (option SourceMatch) TrustError).

(** [with_entries] / [with_signers]: collecting into a map, a later entry of the
    same key replacing an earlier one. *)
Definition BundledRegistry_with_entries (entries : list BundledEntry) : PolicySource :=
  BundledRegistry (foldl (fun m e => <[be_package_id e := e]> m) ∅ entries).
Definition AdminConfig_with_entries (entries : list AdminEntry) : PolicySource :=
  AdminConfig (foldl (fun m e => <[AdminSubject_from_entry e := e]> m) ∅ entries).
Definition SignedRegistry_with_signers (entries : list SignerEntry) : PolicySource :=
  SignedRegistry (foldl (fun m e => <[se_signer e := e]> m) ∅ entries).
Definition LocalDevOverride_inert : PolicySource := LocalDevOverride ∅ false.

(** [type_id()]: the crate's own types, then the others. *)
Definition source_type_id (s : PolicySource) : Z + Z :=
  match s with
  | BundledRegistry _ => inl 0
  | AdminConfig _ => inl 1
  | SignedRegistry _ => inl 2
  | LocalDevOverride _ _ => inl 3
  | CustomSource t _ _ => inr t
  end.

Definition source_name (s : PolicySource) : string :=
  match s with
  | BundledRegistry _ => "bundled"
  | AdminConfig _ => "admin_config"
  | SignedRegistry _ => "signed_registry"
  | LocalDevOverride _ _ => "local_dev_override"
  | CustomSource _ n _ => n
  end.

(** A pinned digest must be present and equal. *)
Definition digest_pin_ok (pinned actual : option string) : bool :=
  match pinned with
  | Some p => match actual with Some a => bool_decide (a = p) | None => false end
  | None => true
  end.

Definition BundledRegistry_evaluate (entries : gmap PackageId BundledEntry)
    (input : TrustPolicyInput) : result (option SourceMatch) TrustError :=
  match source (tpi_identity input) with
  | Bundled =>
      match entries !! package_id (tpi_identity input) with
      | None => Ok None
      | Some entry =>
          if digest_pin_ok (be_digest entry) (digest (tpi_identity input)) then
            Ok (Some (mk_SourceMatch (be_effective_trust entry) ProvBundled
                        (be_allowed_effects entry) (be_max_resource_ceiling entry)))
          else Ok None
      end
  | _ => Ok None
  end.

Definition AdminConfig_evaluate (entries : gmap AdminSubject AdminEntry)
    (input : TrustPolicyInput) : result (option SourceMatch) TrustError :=
  match entries !! (package_id (tpi_identity input), source (tpi_identity input)) with
  | None => Ok None
  | Some entry =>
      if digest_pin_ok (ae_digest entry) (digest (tpi_identity input)) then
        Ok (Some (mk_SourceMatch (ae_effective_trust entry) ProvAdminConfig
                    (ae_allowed_effects entry) (ae_max_resource_ceiling entry)))
      else Ok None
  end.

Definition source_evaluate (s : PolicySource) (input : TrustPolicyInput) :
    result (option SourceMatch) TrustError :=
  match s with
  | BundledRegistry entries => BundledRegistry_evaluate entries input
  | AdminConfig entries => AdminConfig_evaluate entries input
  | SignedRegistry _ => Ok None
  | LocalDevOverride _ enabled => if negb enabled then Ok None else Ok None
  | CustomSource _ _ evaluate => evaluate input
  end.

(** ** Policy ([policy.rs]) *)

Record HostTrustPolicy : Type := mk_HostTrustPolicy { sources : list PolicySource }.

Fixpoint ensure_unique_source_types (seen : list (Z + Z)) (ss : list PolicySource) :
    result unit TrustError :=
  match ss with
  | [] => Ok tt
  | s :: rest =>
      if bool_decide (source_type_id s ∈ seen) then
        Err (TrustInvariantViolation
               ("policy chain contains duplicate source type `" +:+ source_name s +:+ "`"))
      else ensure_unique_source_types (source_type_id s :: seen) rest
  end.

Definition HostTrustPolicy_new (ss : list PolicySource) : result HostTrustPolicy TrustError :=
  let? _ := ensure_unique_source_types [] ss in Ok (mk_HostTrustPolicy ss).

Definition HostTrustPolicy_fail_closed : HostTrustPolicy := mk_HostTrustPolicy [].

Definition add_source (self : HostTrustPolicy) (s : PolicySource) :
    result HostTrustPolicy TrustError :=
  if existsb (fun s' => bool_decide (source_type_id s' = source_type_id s)) (sources self) then
    Err (TrustInvariantViolation
           ("policy chain already contains source type `" +:+ source_name s +:+ "`"))
  else Ok (mk_HostTrustPolicy (sources self ++ [s])).

Definition default_decision (evaluated_at : Z) : TrustDecision :=
  mk_TrustDecision eff_sandbox AuthorityCeiling_empty ProvDefault evaluated_at.

Fixpoint evaluate_sources (ss : list PolicySource) (input : TrustPolicyInput) (evaluated_at : Z) :
    result TrustDecision TrustError :=
  match ss with
  | [] => Ok (default_decision evaluated_at)
  | s :: rest =>
      let? m := source_evaluate s input in
      match m with
      | Some matched =>
          Ok (mk_TrustDecision (sm_effective_trust matched)
                (mk_AuthorityCeiling (sm_allowed_effects matched) (sm_max_resource_ceiling matched))
                (sm_provenance matched) evaluated_at)
      | None => evaluate_sources rest input evaluated_at
      end
  end.

Definition evaluate_unlocked (self : HostTrustPolicy) (input : TrustPolicyInput)
    (evaluated_at : Z) : result TrustDecision TrustError :=
  evaluate_sources (sources self) input evaluated_at.

(** ** Trust changes ([invalidation.rs]) *)

Record TrustChange : Type := mk_TrustChange {
  tc_identity : PackageIdentity;
  tc_previous : EffectiveTrustClass;
  tc_current : EffectiveTrustClass;
  tc_previous_authority_ceiling : AuthorityCeiling;
  tc_current_authority_ceiling : AuthorityCeiling;
  tc_effective_at : Z }.

Definition TrustChange_new (identity : PackageIdentity) (previous current : TrustDecision) :
    option TrustChange :=
  if bool_decide (td_effective_trust previous = td_effective_trust current)
     && negb (is_reduction_from (td_authority_ceiling current) (td_authority_ceiling previous))
  then None
  else Some (mk_TrustChange identity (td_effective_trust previous) (td_effective_trust current)
               (td_authority_ceiling previous) (td_authority_ceiling current)
               (td_evaluated_at current)).

Definition is_downgrade (self : TrustChange) : bool :=
  authority_level (tc_current self) <? authority_level (tc_previous self).
Definition is_upgrade (self : TrustChange) : bool :=
  authority_level (tc_previous self) <? authority_level (tc_current self).
Definition is_kind_change (self : TrustChange) : bool :=
  negb (bool_decide (tc_previous self = tc_current self))
  && (authority_level (tc_current self) =? authority_level (tc_previous self)).
Definition authority_ceiling_reduced (self : TrustChange) : bool :=
  is_reduction_from (tc_current_authority_ceiling self) (tc_previous_authority_ceiling self).

(** [InvalidationBus]: its listeners in the order of their registration;
    [publish] returns the calls it makes. *)
Definition register {L} (listeners : list L) (listener : L) : list L := listeners ++ [listener].

Definition publish {L} (listeners : list L) (change : TrustChange) : list (L * TrustChange) :=
  if bool_decide (tc_previous change = tc_current change)
     && negb (authority_ceiling_reduced change)
  then [] else map (fun listener => (listener, change)) listeners.

(** ** Mutation *)

Inductive SourceMutation : Type :=
| BundledUpsert (entry : BundledEntry)
| BundledRemove (id : PackageId)
| AdminUpsert (entry : AdminEntry)
| AdminRemove (id : PackageId) (src : PackageSource)
| SignedUpsert (entry : SignerEntry)
| SignedRemove (signer : string).

(** The source type a mutation is routed to, and its effect on that source. *)
Definition mutation_target (m : SourceMutation) : Z + Z :=
  match m with
  | BundledUpsert _ | BundledRemove _ => inl 0
  | AdminUpsert _ | AdminRemove _ _ => inl 1
  | SignedUpsert _ | SignedRemove _ => inl 2
  end.

Definition apply_mutation (m : SourceMutation) (s : PolicySource) : PolicySource :=
  match m, s with
  | BundledUpsert e, BundledRegistry es => BundledRegistry (<[be_package_id e := e]> es)
  | BundledRemove id, BundledRegistry es => BundledRegistry (delete id es)
  | AdminUpsert e, AdminConfig es => AdminConfig (<[AdminSubject_from_entry e := e]> es)
  | AdminRemove id src, AdminConfig es => AdminConfig (delete (id, src) es)
  | SignedUpsert e, SignedRegistry es => SignedRegistry (<[se_signer e := e]> es)
  | SignedRemove signer, SignedRegistry es => SignedRegistry (delete signer es)
  | _, _ => s
  end.

(** [find::<T>()]: the chain must hold exactly one source of the type. *)
Definition find_source (ss : list PolicySource) (target : Z + Z) : result unit TrustError :=
  match filter (fun s => source_type_id s = target) ss with
  | [] => Err (TrustInvariantViolation "policy chain does not contain a source of type")
  | [_] => Ok tt
  | _ => Err (TrustInvariantViolation "policy chain contains duplicate source type")
  end.

Fixpoint commit (ss : list PolicySource) (staged : list SourceMutation) :
    list PolicySource * result unit TrustError :=
  match staged with
  | [] => (ss, Ok tt)
  | m :: rest =>
      match find_source ss (mutation_target m) with
      | Err e => (ss, Err e)
      | Ok _ => commit (map (apply_mutation m) ss) rest
      end
  end.

(** The [SourceMutators] methods stage a mutation only when [find] succeeds on the
    chain, which does not change while the closure runs. *)
Definition stage (ss : list PolicySource) (calls : list SourceMutation) : list SourceMutation :=
  List.filter (fun m => is_ok (find_source ss (mutation_target m))) calls.

(** [mutate_with]: the closure sees the chain, calls mutators and returns; the
    two readings of the clock are arguments. *)
Definition mutate_with {R L} (self : HostTrustPolicy) (bus : list L) (affected_identity : PackageIdentity)
    (requested_authority : gset CapabilityId) (requested_trust : RequestedTrustClass)
    (f : list PolicySource -> list SourceMutation * result R TrustError)
    (now_before now_after : Z) :
    HostTrustPolicy * list (L * TrustChange) * result R TrustError :=
  let probe := mk_TrustPolicyInput affected_identity requested_trust requested_authority in
  match evaluate_unlocked self probe now_before with
  | Err e => (self, [], Err e)
  | Ok prev =>
      let '(calls, r) := f (sources self) in
      match r with
      | Err e => (self, [], Err e)
      | Ok value =>
          let '(ss', committed) := commit (sources self) (stage (sources self) calls) in
          let self' := mk_HostTrustPolicy ss' in
          match committed with
          | Err e => (self', [], Err e)
          | Ok _ =>
              match evaluate_unlocked self' probe now_after with
              | Err e => (self', [], Err e)
              | Ok curr =>
                  (self',
                   match TrustChange_new affected_identity prev curr with
                   | Some change => publish bus change
                   | None => []
                   end, Ok value)
              end
          end
      end
  end.

(** ** Grant retention *)

Definition identity_changed (prev curr : PackageIdentity) : bool :=
  negb (bool_decide (package_id prev = package_id curr))
  || negb (bool_decide (source prev = source curr))
  || negb (bool_decide (digest prev = digest curr))
  || negb (bool_decide (signer prev = signer curr)).

Definition authority_changed (prev curr : gset CapabilityId) : bool :=
  negb (bool_decide (prev = curr)).

Definition grant_retention_eligible (prev_identity curr_identity : PackageIdentity)
    (prev_trust curr_trust : EffectiveTrustClass) (prev_authority curr_authority : gset CapabilityId) :
    bool :=
  negb (identity_changed prev_identity curr_identity)
  && bool_decide (prev_trust = curr_trust)
  && negb (authority_changed prev_authority curr_authority).

(** ** Specification: what a ceiling admits *)

(** An amount under an optional limit, and a demand under a ceiling: one amount
    per limited dimension. *)
Definition within {T} (ltb : T -> T -> bool) (limit : option T) (amount : T) : Prop :=
  match limit with Some m => ltb m amount = false | None => True end.

Record Demand : Type := mk_Demand {
  dm_usd : dec; dm_input_tokens : Z; dm_output_tokens : Z; dm_wall_clock_ms : Z;
  dm_output_bytes : Z; dm_cpu_time_ms : Z; dm_memory_bytes : Z; dm_disk_bytes : Z;
  dm_network_egress_bytes : Z; dm_process_count : Z }.

Definition quota_admits (q : option SandboxQuota) (d : Demand) : Prop :=
  match q with
  | None => True
  | Some q => within Z.ltb (cpu_time_ms q) (dm_cpu_time_ms d)
      /\ within Z.ltb (memory_bytes q) (dm_memory_bytes d)
      /\ within Z.ltb (disk_bytes q) (dm_disk_bytes d)
      /\ within Z.ltb (sq_network_egress_bytes q) (dm_network_egress_bytes d)
      /\ within Z.ltb (sq_process_count q) (dm_process_count d)
  end.

Definition ceiling_admits (c : option ResourceCeiling) (d : Demand) : Prop :=
  match c with
  | None => True
  | Some c => within dec_ltb (ceil_max_usd c) (dm_usd d)
      /\ within Z.ltb (ceil_max_input_tokens c) (dm_input_tokens d)
      /\ within Z.ltb (ceil_max_output_tokens c) (dm_output_tokens d)
      /\ within Z.ltb (ceil_max_wall_clock_ms c) (dm_wall_clock_ms d)
      /\ within Z.ltb (ceil_max_output_bytes c) (dm_output_bytes d)
      /\ quota_admits (ceil_sandbox c) d
  end.

(** Everything [previous] allows, [current] allows. *)
Definition keeps_authority (current previous : AuthorityCeiling) : Prop :=
  (forall e, allows_effect previous e = true -> allows_effect current e = true) /\
  (forall d, ceiling_admits (max_resource_ceiling previous) d ->
     ceiling_admits (max_resource_ceiling current) d).

Section Reduction.
Context `{!DecimalLaws D}.

Lemma limit_kept {T} (ltb : T -> T -> bool) p c a :
  (forall x y z, ltb y x = false -> ltb x z = false -> ltb y z = false) ->
  limit_reduced ltb p c = false -> within ltb p a -> within ltb c a.
Proof. intros Htrans. destruct p, c; simpl; try done. intros H1 H2. by eapply Htrans. Qed.

Lemma Z_ltb_step x y z : (y <? x) = false -> (x <? z) = false -> (y <? z) = false.
Proof. rewrite !Z.ltb_ge. lia. Qed.

Lemma dec_ltb_step (x y z : dec) :
  dec_ltb y x = false -> dec_ltb x z = false -> dec_ltb y z = false.
Proof. rewrite <- !not_true_iff_false, !dec_ltb_spec. lia. Qed.

Lemma sandbox_quota_kept p c d :
  sandbox_quota_reduced p c = false -> quota_admits p d -> quota_admits c d.
Proof.
  destruct p, c; simpl; try done. rewrite !orb_false_iff. intros [[[[]]]] [? [? [? []]]].
  repeat split; eapply limit_kept; eauto using Z_ltb_step.
Qed.

Lemma resource_ceiling_kept p c d :
  resource_ceiling_reduced p c = false -> ceiling_admits p d -> ceiling_admits c d.
Proof.
  destruct p, c; simpl; try done. rewrite !orb_false_iff. intros [[[[[]]]]] [? [? [? [? []]]]].
  repeat split; try (eapply limit_kept; eauto using Z_ltb_step, dec_ltb_step).
  by eapply sandbox_quota_kept.
Qed.

Lemma no_reduction_keeps_authority current previous :
  is_reduction_from current previous = false -> keeps_authority current previous.
Proof.
  unfold is_reduction_from. rewrite orb_false_iff, existsb_false_Forall, Forall_forall.
  intros [Heff Hres]. split.
  - intros e. unfold allows_effect. rewrite !bool_decide_eq_true. intros He.
    specialize (Heff e He). by rewrite negb_false_iff, bool_decide_eq_true in Heff.
  - intros d. by apply resource_ceiling_kept.
Qed.

End Reduction.

(** ** Policies that can arise *)

(** Every entry is stored under the key it names. *)
Definition source_keyed (s : PolicySource) : Prop :=
  match s with
  | BundledRegistry es => forall id e, es !! id = Some e -> be_package_id e = id
  | AdminConfig es => forall k e, es !! k = Some e -> AdminSubject_from_entry e = k
  | _ => True
  end.

Definition policy_ok (self : HostTrustPolicy) : Prop :=
  NoDup (map source_type_id (sources self)) /\ Forall source_keyed (sources self).

Definition is_custom (s : PolicySource) : bool :=
  match s with CustomSource _ _ _ => true | _ => false end.
Definition host_sources_only (ss : list PolicySource) : bool := negb (existsb is_custom ss).

(** The crate's public constructors of sources. *)
Inductive constructed : PolicySource -> Prop :=
| constructed_bundled es : constructed (BundledRegistry_with_entries es)
| constructed_admin es : constructed (AdminConfig_with_entries es)
| constructed_signed es : constructed (SignedRegistry_with_signers es)
| constructed_dev : constructed LocalDevOverride_inert
| constructed_custom t n f : constructed (CustomSource t n f).

Inductive reachable : HostTrustPolicy -> Prop :=
| reachable_new ss self :
    Forall constructed ss -> HostTrustPolicy_new ss = Ok self -> reachable self
| reachable_fail_closed : reachable HostTrustPolicy_fail_closed
| reachable_add self s self' :
    reachable self -> constructed s -> add_source self s = Ok self' -> reachable self'
| reachable_mutate {R L} self (bus : list L) id ra rt f t0 t1 self' out (r : result R TrustError) :
    reachable self -> mutate_with self bus id ra rt f t0 t1 = (self', out, r) -> reachable self'.

Lemma ensure_unique_source_types_ok seen ss u :
  ensure_unique_source_types seen ss = Ok u ->
  NoDup (map source_type_id ss) /\ forall t, t ∈ seen -> t ∉ map source_type_id ss.
Proof.
  revert seen. induction ss as [|s ss IH]; intros seen; simpl.
  - intros _. split; [constructor|set_solver].
  - case_bool_decide as Hin; [done|]. intros H. destruct (IH _ H) as [Hnd Hno].
    split; [constructor; [apply Hno; by left | done]|].
    intros t Ht. rewrite not_elem_of_cons. split; [by intros ->|]. apply Hno. by right.
Qed.

Lemma foldl_insert_keyed {K A} `{Countable K} (key : A -> K) (es : list A) (m : gmap K A) :
  (forall k e, m !! k = Some e -> key e = k) ->
  forall k e, foldl (fun m e => <[key e := e]> m) m es !! k = Some e -> key e = k.
Proof.
  revert m. induction es as [|x es IH]; intros m Hm; [done|]. simpl. apply IH.
  intros k e. rewrite lookup_insert_Some. intros [[<- <-]|[_ ?]]; auto.
Qed.

Lemma constructed_keyed s : constructed s -> source_keyed s.
Proof.
  intros []; simpl; try done; by apply foldl_insert_keyed.
Qed.

Lemma apply_mutation_keyed m s : source_keyed s -> source_keyed (apply_mutation m s).
Proof.
  intros H. destruct m, s; simpl in *; try done;
    intros k e; rewrite ?lookup_insert_Some, ?lookup_delete_Some;
    naive_solver.
Qed.

Lemma apply_mutation_type m s : source_type_id (apply_mutation m s) = source_type_id s.
Proof. by destruct m, s. Qed.

Lemma apply_mutation_custom m s : is_custom (apply_mutation m s) = is_custom s.
Proof. by destruct m, s. Qed.

Lemma apply_mutation_types m ss :
  map source_type_id (map (apply_mutation m) ss) = map source_type_id ss.
Proof. rewrite map_map. apply map_ext. intros. apply apply_mutation_type. Qed.

(** [find] depends on the types in the chain alone. *)
Lemma find_source_types ss ss' t :
  map source_type_id ss = map source_type_id ss' ->
  is_ok (find_source ss t) = is_ok (find_source ss' t).
Proof.
  intros Heq. assert (length (filter (fun s => source_type_id s = t) ss)
    = length (filter (fun s => source_type_id s = t) ss')) as Hlen.
  { revert ss' Heq. induction ss as [|s ss IH]; intros [|s' ss'] Heq; try done.
    simpl in Heq. injection Heq as Hs Hss. rewrite !filter_cons, Hs.
    destruct (decide (source_type_id s' = t)); simpl; by rewrite (IH _ Hss). }
  unfold find_source. by destruct (filter _ ss) as [|? [|??]], (filter _ ss') as [|? [|??]].
Qed.

(** What [stage] let through commits without an error. *)
Lemma commit_staged ss ss0 staged :
  map source_type_id ss = map source_type_id ss0 ->
  Forall (fun m => is_ok (find_source ss0 (mutation_target m)) = true) staged ->
  commit ss staged = (foldl (fun ss m => map (apply_mutation m) ss) ss staged, Ok tt).
Proof.
  revert ss. induction staged as [|m staged IH]; intros ss Hty Hall; [done|]. simpl.
  apply Forall_cons in Hall as [Hm Hall].
  rewrite <- (find_source_types _ _ _ Hty) in Hm.
  destruct (find_source ss (mutation_target m)); [|done].
  apply IH; [by rewrite apply_mutation_types|done].
Qed.

Lemma stage_ok ss calls :
  Forall (fun m => is_ok (find_source ss (mutation_target m)) = true) (stage ss calls).
Proof.
  unfold stage. rewrite List.Forall_forall. intros m. rewrite filter_In. by intros [].
Qed.

Lemma mutations_keep_sources staged ss :
  let ss' := foldl (fun ss m => map (apply_mutation m) ss) ss staged in
  map source_type_id ss' = map source_type_id ss /\
  existsb is_custom ss' = existsb is_custom ss /\
  (Forall source_keyed ss -> Forall source_keyed ss').
Proof.
  revert ss. induction staged as [|m staged IH]; intros ss; [done|]. simpl.
  destruct (IH (map (apply_mutation m) ss)) as [Hty [Hcu Hkey]].
  split_and!; [by rewrite Hty, apply_mutation_types| |].
  - rewrite Hcu. clear. induction ss as [|s ss IH]; [done|]. simpl.
    by rewrite apply_mutation_custom, IH.
  - intros H. apply Hkey. apply Forall_map. eapply Forall_impl; [done|].
    intros s. apply apply_mutation_keyed.
Qed.

Definition mutated (self : HostTrustPolicy) (calls : list SourceMutation) : HostTrustPolicy :=
  mk_HostTrustPolicy
    (foldl (fun ss m => map (apply_mutation m) ss) (sources self) (stage (sources self) calls)).

Lemma commit_stage self calls :
  commit (sources self) (stage (sources self) calls) = (sources (mutated self calls), Ok tt).
Proof. apply (commit_staged _ (sources self)); [done|]. apply stage_ok. Qed.

Lemma mutate_with_cases {R L} self (bus : list L) id ra rt f t0 t1 self' out
    (r : result R TrustError) :
  mutate_with self bus id ra rt f t0 t1 = (self', out, r) ->
  let probe := mk_TrustPolicyInput id rt ra in
  let '(calls, fr) := f (sources self) in
  match evaluate_unlocked self probe t0 with
  | Err e => self' = self /\ out = [] /\ r = Err e
  | Ok prev =>
      match fr with
      | Err e => self' = self /\ out = [] /\ r = Err e
      | Ok v =>
          self' = mutated self calls /\
          match evaluate_unlocked self' probe t1 with
          | Err e => out = [] /\ r = Err e
          | Ok curr => r = Ok v /\
              out = match TrustChange_new id prev curr with
                    | Some change => publish bus change | None => [] end
          end
      end
  end.
Proof.
  unfold mutate_with. destruct (f (sources self)) as [calls fr] eqn:Ef.
  destruct (evaluate_unlocked self _ t0); [|by intros [= <- <- <-]].
  destruct fr; [|by intros [= <- <- <-]]. rewrite commit_stage.
  change (mk_HostTrustPolicy (sources (mutated self calls))) with (mutated self calls).
  generalize (mutated self calls) as m. intros m.
  destruct (evaluate_unlocked m _ t1) eqn:Ec; intros [= <- <- <-]; by rewrite Ec.
Qed.

Lemma mutate_with_policy {R L} self (bus : list L) id ra rt f t0 t1 self' out
    (r : result R TrustError) :
  mutate_with self bus id ra rt f t0 t1 = (self', out, r) ->
  self' = self \/ self' = mutated self (f (sources self)).1.
Proof.
  intros H. apply mutate_with_cases in H. destruct (f (sources self)) as [calls fr].
  destruct (evaluate_unlocked self _ t0); [|by left; destruct H].
  destruct fr; [|by left; destruct H]. right. by destruct H.
Qed.

Lemma reachable_policy_ok self : reachable self -> policy_ok self.
Proof.
  induction 1 as [ss self Hc Hnew| |self s self' _ [Hnd Hk] Hs Hadd
                 |R L self bus id ra rt f t0 t1 self' out r _ [Hnd Hk] Hm].
  - unfold HostTrustPolicy_new in Hnew.
    destruct (ensure_unique_source_types [] ss) eqn:E; [|done]. injection Hnew as <-.
    split; [by eapply ensure_unique_source_types_ok|].
    eapply Forall_impl; [exact Hc|]. apply constructed_keyed.
  - split; constructor.
  - unfold add_source in Hadd. destruct (existsb _ _) eqn:E; [done|]. injection Hadd as <-.
    rewrite existsb_false_Forall, Forall_forall in E.
    split; simpl; [|apply Forall_app; split; [done|by constructor; [apply constructed_keyed|]]].
    rewrite map_app. apply NoDup_app. split_and!; [done| |apply NoDup_singleton].
    intros t [s' [-> Hs']]%list_elem_of_fmap. simpl. rewrite list_elem_of_singleton.
    specialize (E s' Hs'). by case_bool_decide.
  - destruct (mutate_with_policy _ _ _ _ _ _ _ _ _ _ _ Hm) as [->| ->]; [done|].
    destruct (mutations_keep_sources (stage (sources self) (f (sources self)).1) (sources self))
      as [Hty [_ Hkey]].
    split; simpl; [by rewrite Hty|by apply Hkey].
Qed.

(** ** What evaluation rests on *)

(** A host entry for exactly this package, from this origin, whose digest pin
    holds, gives the decision's trust and ceiling. *)
Definition host_entry_gives (ss : list PolicySource) (identity : PackageIdentity)
    (d : TrustDecision) : Prop :=
  (exists es e, BundledRegistry es ∈ ss /\ source identity = Bundled /\
     es !! package_id identity = Some e /\ be_package_id e = package_id identity /\
     (forall p, be_digest e = Some p -> digest identity = Some p) /\
     td_effective_trust d = be_effective_trust e /\
     td_authority_ceiling d
       = mk_AuthorityCeiling (be_allowed_effects e) (be_max_resource_ceiling e)) \/
  (exists es e, AdminConfig es ∈ ss /\ es !! (package_id identity, source identity) = Some e /\
     ae_package_id e = package_id identity /\ ae_source e = source identity /\
     (forall p, ae_digest e = Some p -> digest identity = Some p) /\
     td_effective_trust d = ae_effective_trust e /\
     td_authority_ceiling d
       = mk_AuthorityCeiling (ae_allowed_effects e) (ae_max_resource_ceiling e)).

Lemma digest_pin_ok_spec pinned actual :
  digest_pin_ok pinned actual = true -> forall p, pinned = Some p -> actual = Some p.
Proof.
  intros H p ->. simpl in H. destruct actual; [|done]. by apply bool_decide_eq_true in H as ->.
Qed.

Lemma host_entry_gives_cons s ss identity d :
  host_entry_gives ss identity d -> host_entry_gives (s :: ss) identity d.
Proof.
  intros [(es & e & H & ?)|(es & e & H & ?)]; [left|right]; exists es, e;
    (split; [by right|done]).
Qed.

Lemma evaluate_sources_spec ss input t :
  existsb is_custom ss = false -> Forall source_keyed ss ->
  exists d, evaluate_sources ss input t = Ok d /\ td_evaluated_at d = t /\
    (d = default_decision t \/ host_entry_gives ss (tpi_identity input) d).
Proof.
  induction ss as [|s ss IH]; intros Hc Hk; simpl.
  { eexists. split_and!; [done..|by left]. }
  simpl in Hc. apply orb_false_iff in Hc as [Hs Hc]. apply Forall_cons in Hk as [Hks Hk].
  destruct (IH Hc Hk) as (d & Hd & Ht & Hspec). clear IH.
  assert (source_evaluate s input = Ok None -> exists d,
    (let? m := source_evaluate s input in
     match m with
     | Some matched =>
          Ok (mk_TrustDecision (sm_effective_trust matched)
                (mk_AuthorityCeiling (sm_allowed_effects matched) (sm_max_resource_ceiling matched))
                (sm_provenance matched) t)
      | None => evaluate_sources ss input t end) = Ok d /\ td_evaluated_at d = t /\
    (d = default_decision t \/ host_entry_gives (s :: ss) (tpi_identity input) d)) as Hnone.
  { intros ->. exists d. split_and!; [done..|].
    destruct Hspec; [by left|right; by apply host_entry_gives_cons]. }
  destruct s as [es|es|es|es en|]; [ | | by apply Hnone | by destruct en; apply Hnone | done].
  - simpl in Hnone |- *. unfold BundledRegistry_evaluate in *.
    destruct (source (tpi_identity input)) eqn:Esrc; try by apply Hnone.
    destruct (es !! _) as [e|] eqn:Ee; [|by apply Hnone].
    destruct (digest_pin_ok _ _) eqn:Epin; [|by apply Hnone].
    eexists. split_and!; [done..|]. right. left. exists es, e. simpl.
    split_and!; eauto using digest_pin_ok_spec. by left.
  - simpl in Hnone |- *. unfold AdminConfig_evaluate in *.
    destruct (es !! _) as [e|] eqn:Ee; [|by apply Hnone].
    destruct (digest_pin_ok _ _) eqn:Epin; [|by apply Hnone].
    specialize (Hks _ _ Ee). injection Hks as Hid Hsrc.
    eexists. split_and!; [done..|]. right. right. exists es, e. simpl.
    split_and!; eauto using digest_pin_ok_spec. by left.
Qed.

Lemma evaluate_sources_request_irrelevant ss id rt ra rt' ra' t :
  existsb is_custom ss = false ->
  evaluate_sources ss (mk_TrustPolicyInput id rt ra) t
  = evaluate_sources ss (mk_TrustPolicyInput id rt' ra') t.
Proof.
  induction ss as [|s ss IH]; intros Hc; [done|]. simpl in *.
  apply orb_false_iff in Hc as [Hs Hc]. rewrite (IH Hc).
  by destruct s.
Qed.

Lemma limit_reduced_irrefl {T} (ltb : T -> T -> bool) (l : option T) :
  (forall x, ltb x x = false) -> limit_reduced ltb l l = false.
Proof. intros H. destruct l; simpl; auto. Qed.

Lemma is_reduction_from_refl `{!DecimalLaws D} c : is_reduction_from c c = false.
Proof.
  unfold is_reduction_from. apply orb_false_iff. split.
  - apply existsb_false_Forall, Forall_forall. intros e He.
    by rewrite bool_decide_eq_true_2.
  - assert (forall x : dec, dec_ltb x x = false) as Hd.
    { intros x. apply not_true_iff_false. rewrite dec_ltb_spec. lia. }
    destruct (max_resource_ceiling c) as [rc|]; [|done]. simpl.
    rewrite !limit_reduced_irrefl by auto using Z.ltb_irrefl.
    destruct (ceil_sandbox rc); [|done]. simpl.
    by rewrite !limit_reduced_irrefl by auto using Z.ltb_irrefl.
Qed.

(** What a published change says, and what an unpublished one leaves. *)
Lemma TrustChange_published `{!DecimalLaws D} {L} (bus : list L) id prev curr :
  let out := match TrustChange_new id prev curr with
             | Some change => publish bus change | None => [] end in
  (exists c, out = map (fun listener => (listener, c)) bus /\ tc_identity c = id /\
      tc_previous c = td_effective_trust prev /\ tc_current c = td_effective_trust curr /\
      (is_downgrade c || is_upgrade c || is_kind_change c || authority_ceiling_reduced c)
        = true)
  \/ out = [] /\ td_effective_trust curr = td_effective_trust prev /\
     keeps_authority (td_authority_ceiling curr) (td_authority_ceiling prev).
Proof.
  unfold TrustChange_new. destruct (is_reduction_from _ _) eqn:Ered;
    case_bool_decide as Htrust; simpl.
  1, 2: left; eexists; unfold publish, authority_ceiling_reduced; simpl;
    rewrite Ered, andb_false_r; split_and!; try done; simpl; by rewrite Ered, orb_true_r.
  - right. split_and!; [done..|]. by apply no_reduction_keeps_authority.
  - left. eexists. unfold publish. simpl. rewrite bool_decide_eq_false_2 by done. simpl.
    split_and!; [done..|]. unfold is_downgrade, is_upgrade, is_kind_change. simpl.
    rewrite bool_decide_eq_false_2 by done. simpl.
    destruct (Z.lt_total (authority_level (td_effective_trust prev))
      (authority_level (td_effective_trust curr))) as [H|[H|H]].
    + apply Z.ltb_lt in H. by rewrite H, orb_true_r.
    + rewrite H, Z.eqb_refl, !orb_true_r. done.
    + apply Z.ltb_lt in H. by rewrite H.
Qed.

Lemma BundledRegistry_remove_other es id input :
  package_id (tpi_identity input) <> id ->
  BundledRegistry_evaluate (delete id es) input = BundledRegistry_evaluate es input.
Proof.
  intros Hne. unfold BundledRegistry_evaluate. by rewrite lookup_delete_ne by congruence.
Qed.

Lemma source_evaluate_total s input :
  is_custom s = false -> exists m, source_evaluate s input = Ok m.
Proof.
  destruct s as [es|es|es|es []|]; intros H; try done; simpl; eauto.
  - unfold BundledRegistry_evaluate. destruct (source _); eauto.
    destruct (es !! _); [|eauto]. destruct (digest_pin_ok _ _); eauto.
  - unfold AdminConfig_evaluate. destruct (es !! _); [|eauto].
    destruct (digest_pin_ok _ _); eauto.
Qed.

(** Chains whose sources answer alike on a package decide it alike. *)
Lemma evaluate_stable self self' input t0 t1 :
  map (fun s => source_evaluate s input) (sources self')
    = map (fun s => source_evaluate s input) (sources self) ->
  existsb is_custom (sources self) = false ->
  exists prev curr, evaluate_unlocked self input t0 = Ok prev /\
    evaluate_unlocked self' input t1 = Ok curr /\
    td_effective_trust prev = td_effective_trust curr /\
    td_authority_ceiling prev = td_authority_ceiling curr.
Proof.
  unfold evaluate_unlocked. generalize (sources self') as ss', (sources self) as ss.
  intros ss' ss. revert ss'. induction ss as [|s ss IH]; intros [|s' ss'] Heq Hc; try done.
  { by do 2 eexists. }
  simpl in *. injection Heq as Hs Hss. apply orb_false_iff in Hc as [Hc1 Hc].
  rewrite Hs. destruct (source_evaluate_total s input Hc1) as [[m|] ->]; [by do 2 eexists|].
  by apply IH.
Qed.

(** C34: On every policy that construction, [add_source] and [mutate_with] can
    produce from the crate's own sources, evaluation always returns a decision,
    and the decision is either the default (sandbox, nothing allowed) or exactly
    the trust and ceiling of a bundled entry (for a bundled package only) or an
    admin entry stored for this package identifier and this origin, with the
    pinned digest, when there is one, equal to the package's; in particular a
    privileged class needs such an entry; and what the manifest requests, trust
    or capabilities, does not change the decision. *)
Theorem trust_from_host_entries self input t :
  reachable self -> host_sources_only (sources self) = true ->
  exists d, evaluate_unlocked self input t = Ok d /\ td_evaluated_at d = t /\
    (d = default_decision t \/ host_entry_gives (sources self) (tpi_identity input) d) /\
    (is_privileged (td_effective_trust d) = true ->
       host_entry_gives (sources self) (tpi_identity input) d) /\
    (forall rt ra, evaluate_unlocked self
       (mk_TrustPolicyInput (tpi_identity input) rt ra) t = Ok d).
Proof.
  intros Hr Hh. apply reachable_policy_ok in Hr as [_ Hk]. apply negb_true_iff in Hh.
  destruct (evaluate_sources_spec (sources self) input t Hh Hk) as (d & Hd & Ht & Hspec).
  exists d. split_and!; [done..| |].
  - intros Hp. by destruct Hspec as [->|].
  - intros rt ra. rewrite <- Hd. destruct input.
    by apply evaluate_sources_request_irrelevant.
Qed.

(** [mutate_with] and the invalidation bus.  An error delivers nothing, and on
    a reachable policy of the crate's own sources leaves the policy as it was (no
    staged mutation survives).  A success delivers to every listener, in the order
    of registration, the same change, which names the affected package with its
    decisions before and after, or delivers nothing; and when it delivers nothing
    to a bus that has listeners, the affected package has kept its trust class and
    everything its old ceiling allowed, every effect and every resource demand,
    the new one allows. *)
Theorem mutate_publishes_or_keeps `{!DecimalLaws D} {R L} self (bus : list L) id ra rt f t0 t1
    self' out (r : result R TrustError) :
  reachable self -> mutate_with self bus id ra rt f t0 t1 = (self', out, r) ->
  let probe := mk_TrustPolicyInput id rt ra in
  match r with
  | Err _ => out = [] /\ (host_sources_only (sources self) = true -> self' = self)
  | Ok _ => exists prev curr,
      evaluate_unlocked self probe t0 = Ok prev /\ evaluate_unlocked self' probe t1 = Ok curr /\
      ((exists c, out = map (fun listener => (listener, c)) bus /\ tc_identity c = id /\
          tc_previous c = td_effective_trust prev /\ tc_current c = td_effective_trust curr /\
          (is_downgrade c || is_upgrade c || is_kind_change c || authority_ceiling_reduced c)
            = true)
       \/ out = [] /\ td_effective_trust curr = td_effective_trust prev /\
          keeps_authority (td_authority_ceiling curr) (td_authority_ceiling prev))
  end.
Proof.
  intros Hr H probe. apply reachable_policy_ok in Hr as [_ Hk].
  assert (existsb is_custom (sources self) = false -> forall e, 
    evaluate_unlocked (mutated self (f (sources self)).1) probe t1 <> Err e) as Htotal.
  { intros Hc e. destruct (mutations_keep_sources (stage (sources self) (f (sources self)).1)
      (sources self)) as [_ [Hc' Hk']]. rewrite Hc in Hc'.
    destruct (evaluate_sources_spec _ probe t1 Hc' (Hk' Hk)) as (d & Hd & _).
    unfold evaluate_unlocked. simpl. by rewrite Hd. }
  apply mutate_with_cases in H. destruct (f (sources self)) as [calls fr].
  fold probe in H.
  destruct (evaluate_unlocked self probe t0) as [prev|e] eqn:Eprev; [|by destruct H as (->&->&->)].
  destruct fr as [v|e]; [|by destruct H as (->&->&->)]. destruct H as [-> H].
  simpl in Htotal. destruct (evaluate_unlocked (mutated self calls) probe t1) as [curr|e] eqn:Ecurr.
  - destruct H as [-> ->]. exists prev, curr. split_and!; [done..|].
    by apply TrustChange_published.
  - destruct H as [-> ->]. split; [done|]. intros Hh. apply negb_true_iff in Hh.
    by destruct (Htotal Hh e).
Qed.

(** A mutation is watched through the package its caller names alone: naming
    any other package, the bundled entry of a package is removed and the package
    falls from the entry's trust to the sandbox default with nothing delivered to
    any listener. *)
Theorem unnamed_downgrade_is_silent `{!DecimalLaws D} {L} self (bus : list L) es e idA idB ra rt t0 t1 t :
  sources self = [BundledRegistry es] -> source idA = Bundled ->
  es !! package_id idA = Some e -> be_digest e = None ->
  package_id idB <> package_id idA ->
  let remove := fun _ => ([BundledRemove (package_id idA)], Ok tt) in
  exists self',
    mutate_with self bus idB ra rt remove t0 t1 = (self', [], Ok tt) /\
    (exists d, evaluate_unlocked self (mk_TrustPolicyInput idA rt ra) t = Ok d /\
       td_effective_trust d = be_effective_trust e /\
       td_authority_ceiling d
         = mk_AuthorityCeiling (be_allowed_effects e) (be_max_resource_ceiling e)) /\
    evaluate_unlocked self' (mk_TrustPolicyInput idA rt ra) t = Ok (default_decision t).
Proof.
  intros Hss Hsrc He Hpin Hne remove.
  set (self' := mutated self [BundledRemove (package_id idA)]).
  assert (sources self' = [BundledRegistry (delete (package_id idA) es)]) as Hss'.
  { unfold self', mutated, stage, find_source. simpl. by rewrite Hss. }
  exists self'. split_and!.
  - destruct (mutate_with self bus idB ra rt remove t0 t1) as [[self'' out] r] eqn:E.
    apply mutate_with_cases in E. unfold remove in E.
    set (probe := mk_TrustPolicyInput idB rt ra) in *. fold self' in E.
    destruct (evaluate_stable self self' probe t0 t1) as (prev & curr & Hp & Hc & Ht & Ha).
    { rewrite Hss, Hss'. simpl. by rewrite (BundledRegistry_remove_other es). }
    { by rewrite Hss. }
    rewrite Hp in E. destruct E as [-> E]. rewrite Hc in E. destruct E as [-> ->].
    unfold TrustChange_new. rewrite Ht, Ha, is_reduction_from_refl.
    by rewrite bool_decide_eq_true_2.
  - eexists. unfold evaluate_unlocked. rewrite Hss. simpl.
    unfold BundledRegistry_evaluate. simpl. by rewrite Hsrc, He, Hpin.
  - unfold evaluate_unlocked. rewrite Hss'. simpl. unfold BundledRegistry_evaluate. simpl.
    by rewrite Hsrc, lookup_delete_eq.
Qed.

End Trust.

(** ** Evaluation: one bundled first-party package *)

Module TrustExample.

Definition pkg : PackageIdentity :=
  mk_PackageIdentity (from_trusted "files") Bundled (Some "sha256:aa") None.
Definition other : PackageIdentity :=
  mk_PackageIdentity (from_trusted "notes") Bundled None None.
Definition pinned (d : option string) : BundledEntry :=
  BundledEntry_new (from_trusted "files") d (mk_HostTrustAssignment FirstParty)
    [ReadFilesystem; WriteFilesystem] None.
Definition chain (d : option string) : list PolicySource :=
  [BundledRegistry_with_entries [pinned d]; AdminConfig_with_entries []].
Definition policy : HostTrustPolicy := mk_HostTrustPolicy (chain (Some "sha256:aa")).
Definition request : TrustPolicyInput := mk_TrustPolicyInput pkg Untrusted ∅.

Lemma policy_reachable : reachable policy.
Proof.
  apply (reachable_new (chain (Some "sha256:aa"))); [|done].
  repeat constructor.
Qed.

End TrustExample.

Lemma trust_from_host_entries_witness :
  exists d, evaluate_unlocked TrustExample.policy TrustExample.request 7 = Ok d
    /\ class (td_effective_trust d) = FirstParty
    /\ host_entry_gives (sources TrustExample.policy) TrustExample.pkg d.
Proof.
  destruct (trust_from_host_entries TrustExample.policy TrustExample.request 7
              TrustExample.policy_reachable eq_refl) as (d & Hd & _ & _ & Hp & _).
  assert (match evaluate_unlocked TrustExample.policy TrustExample.request 7 with
          | Ok d => class (td_effective_trust d) | Err _ => Sandbox end = FirstParty) as Hc
    by reflexivity.
  rewrite Hd in Hc. exists d. split; [done|]. split; [done|].
  apply Hp. unfold is_privileged. by rewrite Hc.
Defined.

(** Removing the entry of the affected package calls both listeners. *)
Lemma mutate_publishes_or_keeps_witness :
  exists self' c, mutate_with TrustExample.policy [1; 2] TrustExample.pkg ∅ Untrusted
      (fun _ => ([BundledRemove (from_trusted "files")], Ok tt)) 7 8
    = (self', [(1, c); (2, c)], Ok tt)
    /\ tc_identity c = TrustExample.pkg /\ is_downgrade c = true.
Proof.
  destruct (mutate_with TrustExample.policy [1; 2] TrustExample.pkg ∅ Untrusted
      (fun _ => ([BundledRemove (from_trusted "files")], Ok tt)) 7 8) as [[self' out] r] eqn:E.
  assert (exists c, out = [(1, c); (2, c)] /\ r = Ok tt /\ is_downgrade c = true) as Hout.
  { assert (E' := f_equal (fun x => (snd (fst x), snd x)) E). simpl in E'.
    injection E' as <- <-. by eexists. }
  destruct Hout as (c & -> & -> & Hdown).
  destruct (mutate_publishes_or_keeps _ _ _ _ _ _ _ _ _ _ _ TrustExample.policy_reachable E)
    as (prev & curr & _ & _ & [(c' & Hmap & Hid & _)|[Hnil _]]); [|done].
  injection Hmap as <- _. by exists self', c.
Defined.

Lemma unnamed_downgrade_is_silent_witness :
  exists self', mutate_with
      (mk_HostTrustPolicy [BundledRegistry_with_entries [TrustExample.pinned None]]) [1; 2]
      TrustExample.other ∅ Untrusted (fun _ => ([BundledRemove (from_trusted "files")], Ok tt)) 7 8
    = (self', [], Ok tt).
Proof.
  destruct (unnamed_downgrade_is_silent
      (mk_HostTrustPolicy [BundledRegistry_with_entries [TrustExample.pinned None]]) [1; 2]
      {[ from_trusted "files" := TrustExample.pinned None ]} (TrustExample.pinned None)
      TrustExample.pkg TrustExample.other ∅ Untrusted 7 8 9)
    as (self' & H & _); try done. by exists self'.
Defined.
