(* ===== verification/Filesystem.v ===== *)
(** * Filesystem

    [crates/brassclaw_filesystem/src]: the entry plane with compare-and-swap
    versions and the event plane of the in-memory backend ([in_memory.rs],
    [record.rs], [types.rs]), and the scoped filesystem that resolves every
    operation through the caller's mount view and permissions ([scoped.rs]).
    A backend call runs under the backend's lock, so it is a function of the
    state; the hash of an entry body is the [blake3] crate (class [BodyHash]).
    The theorems: a write takes effect exactly when its expectation holds and
    then moves the version by one, and a failed one changes nothing; the stored
    paths always form a tree; event logs are numbered without gaps; and a scoped
    operation touches only a path below a mount that grants its permission.
    What the stores built on a filesystem rely on is the interface [EntryStore] of
    [LeaseStore]. *)

From S2P Require Import Prelude External HostIds Paths HostTypes.

(** ** Vocabulary ([types.rs], [record.rs], [index.rs]) *)

Inductive FilesystemOperation : Type :=
| MountLocal | ReadFile | WriteFile | AppendFile | ListDir | Stat | Delete | CreateDirAll
| Query | EnsureIndex | BeginTxn | Append | Tail | HeadSeq.

Inductive Capability : Type :=
| CapRead | CapWrite | CapAppend | CapList | CapStat | CapDelete | CapRecords | CapQuery
| CapIndexExact | CapIndexPrefix | CapIndexFts | CapIndexVector | CapEvents | CapEntryMetadata
| CapEntryIndexMetadata | CapOpaqueWrite | CapEntryBodyCas | CapConditionalEntryDelete.

Inductive IndexConflictReason : Type := SpecMismatch | EmptyKeys.

Inductive IndexKind : Type := IndexExact | IndexPrefix | IndexFts | IndexVector (dim : Z).

Record IndexSpec : Type := mk_IndexSpec {
  spec_name : string; spec_keys : list string; spec_kind : IndexKind }.

Inductive IndexValue : Type :=
| IxBool (b : bool) | IxI64 (n : Z) | IxText (s : string) | IxBytes (b : string).

#[export] Instance IndexKind_eq_dec : EqDecision IndexKind.
Proof. solve_decision. Defined.
#[export] Instance IndexSpec_eq_dec : EqDecision IndexSpec.
Proof. solve_decision. Defined.
#[export] Instance IndexValue_eq_dec : EqDecision IndexValue.
Proof. solve_decision. Defined.

(** [RecordVersion], a [u64]. *)
Definition RecordVersion : Type := Z.
Definition checked_next (v : RecordVersion) : option RecordVersion := u64_checked_add v 1.

Inductive FilesystemError : Type :=
| FsContract (e : HostApiError)
| FsPermissionDenied (path : ScopedPath) (operation : FilesystemOperation)
| FsNotFound (path : VirtualPath) (operation : FilesystemOperation)
| FsBackend (path : VirtualPath) (operation : FilesystemOperation) (reason : string)
| FsVersionMismatch (path : VirtualPath) (expected found : option RecordVersion)
| FsSnapshotMismatch (path : VirtualPath) (operation : FilesystemOperation)
| FsUnsupported (path : VirtualPath) (operation : FilesystemOperation)
| FsIndexConflict (path : VirtualPath) (name : string) (reason : IndexConflictReason)
| FsMountNotFound (path : VirtualPath)
| FsPathOutsideMount (path : VirtualPath)
| FsSymlinkEscape (path : VirtualPath)
| FsMountConflict (path : VirtualPath)
| FsDescriptorOverclaims (path : VirtualPath) (missing : list Capability) (txn_shortfall : bool)
| FsSerializeIndexed (path : VirtualPath) (operation : FilesystemOperation)
| FsDeserializeIndexed (path : VirtualPath) (operation : FilesystemOperation)
| FsCorruptRecordVersion (path : VirtualPath) (raw : Z)
| FsIndexSpecMissingAfterUpsert (path : VirtualPath) (name : string)
| FsBackendInfrastructure (operation : FilesystemOperation) (reason : string).

(** [blake3::hash]. *)
Class BodyHash : Type := {
  body_checksum : Type;
  body_checksum_eq_dec :: EqDecision body_checksum;
  for_body : string -> body_checksum }.

#[export] Instance string_body_hash : BodyHash :=
  {| body_checksum := string; for_body := fun s => s |}.

Section Backend.
Context `{BH : BodyHash}.

Inductive CasExpectation : Type :=
| CasAbsent
| CasVersion (version : RecordVersion)
| CasVersionAndBody (version : RecordVersion) (checksum : body_checksum)
| CasAny.

Definition matches_body (checksum : body_checksum) (body : string) : bool :=
  bool_decide (checksum = for_body body).

Record Entry : Type := mk_Entry {
  entry_body : string;
  content_type : string;
  entry_kind : option string;
  indexed : gmap string IndexValue }.

Definition Entry_bytes (body : string) : Entry :=
  mk_Entry body "application/octet-stream" None ∅.
Definition with_indexed (self : Entry) (key : string) (value : IndexValue) : Entry :=
  mk_Entry (entry_body self) (content_type self) (entry_kind self)
    (<[key := value]> (indexed self)).
Definition with_content_type (self : Entry) (ct : string) : Entry :=
  mk_Entry (entry_body self) ct (entry_kind self) (indexed self).

Record VersionedEntry : Type := mk_VersionedEntry {
  ve_path : VirtualPath; ve_entry : Entry; ve_version : RecordVersion }.

Record EventRecord : Type := mk_EventRecord { er_seq : Z; er_payload : string }.

(** ** The in-memory backend ([in_memory.rs]) *)

Record StoredEntry : Type := mk_StoredEntry {
  st_entry : Entry; st_version : RecordVersion; st_modified : Z }.

(** The maps are keyed by the path's text ([Borrow<str> for VirtualPath]). *)
Record State : Type := mk_State {
  entries : gmap string StoredEntry;
  indexes : gmap string (list IndexSpec);
  event_logs : gmap string (list EventRecord) }.

Definition State_new : State := mk_State ∅ ∅ ∅.

Definition with_entries (s : State) (m : gmap string StoredEntry) : State :=
  mk_State m (indexes s) (event_logs s).

Definition with_trailing_slash (s : string) : string :=
  if ends_with_char slash s then s else s +:+ "/".

(** The sorted map's first key from [prefix] on starts with it: some key does. *)
Definition has_key_under (m : gmap string StoredEntry) (prefix : string) : bool :=
  existsb (fun '(key, _) => starts_with prefix key) (map_to_list m).

Definition validate_file_namespace (s : State) (path : VirtualPath)
    (operation : FilesystemOperation) : result unit FilesystemError :=
  if existsb (fun ancestor => bool_decide (is_Some (entries s !! ancestor)))
       (List.filter (fun p => negb (bool_decide (p = vp_str path))) (VirtualPath_prefixes path))
  then Err (FsBackend path operation "file exists where an ancestor directory is required")
  else if has_key_under (entries s) (with_trailing_slash (vp_str path))
  then Err (FsBackend path operation "cannot overwrite a directory")
  else Ok tt.

Definition check_cas (path : VirtualPath) (cas : CasExpectation) (record : option StoredEntry) :
    result unit FilesystemError :=
  let current := st_version <$> record in
  let version_check expected :=
    if bool_decide (current = Some expected) then Ok tt
    else Err (FsVersionMismatch path (Some expected) current) in
  match cas with
  | CasAny => Ok tt
  | CasAbsent =>
      if bool_decide (current = None) then Ok tt
      else Err (FsVersionMismatch path None current)
  | CasVersion expected => version_check expected
  | CasVersionAndBody expected checksum =>
      let? _ := version_check expected in
      match record with
      | None => Err (FsVersionMismatch path (Some expected) current)
      | Some record =>
          if matches_body checksum (entry_body (st_entry record)) then Ok tt
          else Err (FsSnapshotMismatch path WriteFile)
      end
  end.

(** The version after the current one, from 0 when there is no entry. *)
Definition next_version (path : VirtualPath) (operation : FilesystemOperation)
    (record : option StoredEntry) : result RecordVersion FilesystemError :=
  ok_or (checked_next (default 0 (st_version <$> record)))
    (FsBackend path operation "entry version representation exhausted").

Definition put_entry (s : State) (path : VirtualPath) (entry : Entry) (cas : CasExpectation)
    (opaque_only : bool) (now : Z) : State * result RecordVersion FilesystemError :=
  let current := entries s !! vp_str path in
  if opaque_only && match current with
                    | Some stored => bool_decide (is_Some (entry_kind (st_entry stored)))
                    | None => false end
  then (s, Err (FsUnsupported path WriteFile))
  else
    match (let? _ := validate_file_namespace s path WriteFile in
           let? _ := check_cas path cas current in
           next_version path WriteFile current) with
    | Err e => (s, Err e)
    | Ok v => (with_entries s (<[vp_str path := mk_StoredEntry entry v now]> (entries s)), Ok v)
    end.

Definition put (s : State) (path : VirtualPath) (entry : Entry) (cas : CasExpectation) (now : Z) :
    State * result RecordVersion FilesystemError :=
  put_entry s path entry cas false now.

Definition put_opaque (s : State) (path : VirtualPath) (body : string) (cas : CasExpectation)
    (now : Z) : State * result RecordVersion FilesystemError :=
  put_entry s path (Entry_bytes body) cas true now.

Definition get (s : State) (path : VirtualPath) : option VersionedEntry :=
  (fun stored => mk_VersionedEntry path (st_entry stored) (st_version stored))
    <$> entries s !! vp_str path.

Definition delete_if_snapshot (s : State) (path : VirtualPath) (version : RecordVersion)
    (checksum : body_checksum) : State * result bool FilesystemError :=
  match check_cas path (CasVersionAndBody version checksum) (entries s !! vp_str path) with
  | Ok _ =>
      (with_entries s (delete (vp_str path) (entries s)),
       Ok (bool_decide (is_Some (entries s !! vp_str path))))
  | Err (FsVersionMismatch _ _ _) | Err (FsSnapshotMismatch _ _) => (s, Ok false)
  | Err e => (s, Err e)
  end.

Definition remove_under (m : gmap string StoredEntry) (prefix : string) : gmap string StoredEntry :=
  filter (fun '(key, _) => starts_with prefix key = false) m.

Definition delete_path (s : State) (path : VirtualPath) : State * result unit FilesystemError :=
  let prefix := with_trailing_slash (vp_str path) in
  match entries s !! vp_str path with
  | Some _ => (with_entries s (remove_under (delete (vp_str path) (entries s)) prefix), Ok tt)
  | None =>
      let kept := remove_under (entries s) prefix in
      if (size kept =? size (entries s))%nat then (s, Err (FsNotFound path Delete))
      else (with_entries s kept, Ok tt)
  end.

Definition append_file (s : State) (path : VirtualPath) (bytes : string) (now : Z) :
    State * result unit FilesystemError :=
  let existing := entries s !! vp_str path in
  match (let? _ := validate_file_namespace s path AppendFile in
         next_version path AppendFile existing) with
  | Err e => (s, Err e)
  | Ok v =>
      let old := match existing with Some stored => entry_body (st_entry stored) | None => "" end in
      (with_entries s (<[vp_str path := mk_StoredEntry (Entry_bytes (old +:+ bytes)) v now]>
                         (entries s)), Ok tt)
  end.

Definition ensure_index (s : State) (path : VirtualPath) (spec : IndexSpec) :
    State * result unit FilesystemError :=
  match spec_kind spec with
  | IndexVector 0 => (s, Err (FsIndexConflict path (spec_name spec) SpecMismatch))
  | _ =>
      let bucket := default [] (indexes s !! vp_str path) in
      match List.find (fun x => bool_decide (spec_name x = spec_name spec)) bucket with
      | Some existing =>
          (mk_State (entries s) (<[vp_str path := bucket]> (indexes s)) (event_logs s),
           if bool_decide (existing = spec) then Ok tt
           else Err (FsIndexConflict path (spec_name existing) SpecMismatch))
      | None =>
          (mk_State (entries s) (<[vp_str path := bucket ++ [spec]]> (indexes s)) (event_logs s),
           Ok tt)
      end
  end.

Definition log_of (s : State) (path : VirtualPath) : list EventRecord :=
  default [] (event_logs s !! vp_str path).

Definition append (s : State) (path : VirtualPath) (payload : string) :
    State * result Z FilesystemError :=
  let log := log_of s path in
  match checked_next (default 0 (er_seq <$> last log)) with
  | None =>
      (mk_State (entries s) (indexes s) (<[vp_str path := log]> (event_logs s)),
       Err (FsBackend path Append "event sequence representation exhausted"))
  | Some next =>
      (mk_State (entries s) (indexes s)
         (<[vp_str path := log ++ [mk_EventRecord next payload]]> (event_logs s)), Ok next)
  end.

Definition tail (s : State) (path : VirtualPath) (from : Z) : list EventRecord :=
  List.filter (fun record => from <? er_seq record) (log_of s path).

Inductive FileType : Type := TFile | TDirectory.
Record FileStat : Type := mk_FileStat {
  fs_path : VirtualPath; fs_file_type : FileType; fs_len : Z; fs_modified : option Z;
  fs_sensitive : bool }.

Definition stat (s : State) (path : VirtualPath) : result FileStat FilesystemError :=
  match entries s !! vp_str path with
  | Some stored =>
      Ok (mk_FileStat path TFile (str_len (entry_body (st_entry stored))) (Some (st_modified stored))
            (bool_decide (is_Some (entry_kind (st_entry stored)))))
  | None =>
      if has_key_under (entries s) (with_trailing_slash (vp_str path))
      then Ok (mk_FileStat path TDirectory 0 None false)
      else Err (FsNotFound path Stat)
  end.

(** ** The scoped filesystem ([scoped.rs]) *)

Definition operation_allowed (permissions : MountPermissions) (operation : FilesystemOperation) :
    bool :=
  match operation with
  | ReadFile => perm_read permissions
  | WriteFile | AppendFile | CreateDirAll | EnsureIndex | BeginTxn | Append =>
      perm_write permissions
  | ListDir => perm_list permissions
  | Stat => perm_read permissions || perm_list permissions
  | Delete => perm_delete permissions
  | MountLocal => false
  | Query => perm_read permissions && perm_list permissions
  | Tail | HeadSeq => perm_read permissions
  end.

Definition resolve_with_permission_view (view : MountView) (path : ScopedPath)
    (operation : FilesystemOperation) : result VirtualPath FilesystemError :=
  match MountView_resolve_with_grant view path with
  | Err e => Err (FsContract e)
  | Ok (virtual_path, grant) =>
      if negb (operation_allowed (mg_permissions grant) operation)
      then Err (FsPermissionDenied path operation)
      else Ok virtual_path
  end.

(** The calls of a scoped filesystem; [resolver] gives the view of a scope. *)
Inductive ScopedCall : Type :=
| CallPut (path : ScopedPath) (entry : Entry) (cas : CasExpectation)
| CallPutOpaque (path : ScopedPath) (body : string) (cas : CasExpectation)
| CallGet (path : ScopedPath)
| CallEnsureIndex (path : ScopedPath) (spec : IndexSpec)
| CallAppend (path : ScopedPath) (payload : string)
| CallTail (path : ScopedPath) (from : Z)
| CallAppendFile (path : ScopedPath) (bytes : string)
| CallStat (path : ScopedPath)
| CallDeleteIfSnapshot (path : ScopedPath) (version : RecordVersion) (checksum : body_checksum)
| CallDelete (path : ScopedPath).

Inductive ScopedReply : Type :=
| RepVersion (v : RecordVersion)
| RepEntry (e : option VersionedEntry)
| RepSeq (n : Z)
| RepEvents (es : list EventRecord)
| RepStat (st : FileStat)
| RepBool (b : bool)
| RepUnit.

Definition call_path (c : ScopedCall) : ScopedPath :=
  match c with
  | CallPut p _ _ | CallPutOpaque p _ _ | CallGet p | CallEnsureIndex p _ | CallAppend p _
  | CallTail p _ | CallAppendFile p _ | CallStat p | CallDeleteIfSnapshot p _ _
  | CallDelete p => p
  end.

Definition call_operation (c : ScopedCall) : FilesystemOperation :=
  match c with
  | CallPut _ _ _ | CallPutOpaque _ _ _ => WriteFile
  | CallGet _ => ReadFile
  | CallEnsureIndex _ _ => EnsureIndex
  | CallAppend _ _ => Append
  | CallTail _ _ => Tail
  | CallAppendFile _ _ => AppendFile
  | CallStat _ => Stat
  | CallDeleteIfSnapshot _ _ _ | CallDelete _ => Delete
  end.

(** The backend call behind a scoped one. *)
Definition root_call (s : State) (c : ScopedCall) (v : VirtualPath) (now : Z) :
    State * result ScopedReply FilesystemError :=
  match c with
  | CallPut _ entry cas => let '(s', r) := put s v entry cas now in (s', result_map RepVersion r)
  | CallPutOpaque _ body cas =>
      let '(s', r) := put_opaque s v body cas now in (s', result_map RepVersion r)
  | CallGet _ => (s, Ok (RepEntry (get s v)))
  | CallEnsureIndex _ spec =>
      let '(s', r) := ensure_index s v spec in (s', result_map (fun _ => RepUnit) r)
  | CallAppend _ payload => let '(s', r) := append s v payload in (s', result_map RepSeq r)
  | CallTail _ from => (s, Ok (RepEvents (tail s v from)))
  | CallAppendFile _ bytes =>
      let '(s', r) := append_file s v bytes now in (s', result_map (fun _ => RepUnit) r)
  | CallStat _ => (s, result_map RepStat (stat s v))
  | CallDeleteIfSnapshot _ version checksum =>
      let '(s', r) := delete_if_snapshot s v version checksum in (s', result_map RepBool r)
  | CallDelete _ =>
      let '(s', r) := delete_path s v in (s', result_map (fun _ => RepUnit) r)
  end.

Definition scoped_call (resolver : ResourceScope -> result MountView HostApiError)
    (s : State) (scope : ResourceScope) (c : ScopedCall) (now : Z) :
    State * result ScopedReply FilesystemError :=
  match resolver scope with
  | Err e => (s, Err (FsContract e))
  | Ok view =>
      match resolve_with_permission_view view (call_path c) (call_operation c) with
      | Err e => (s, Err e)
      | Ok v => root_call s c v now
      end
  end.

(** ** Prefixes of a path *)

Lemma before_slashes_spec acc s x :
  x ∈ before_slashes acc s <-> exists a t, s = a +:+ String.String slash t /\ x = acc +:+ a.
Proof.
  revert acc. induction s as [|c s IH]; intros acc; simpl.
  - split; [set_solver|]. intros ([|] & t & H & _); done.
  - assert (forall acc', x ∈ before_slashes acc' s <->
      exists a t, s = a +:+ String.String slash t /\ x = acc' +:+ a) as IH' by auto. clear IH.
    destruct (decide (c = slash)) as [->|Hc]; [rewrite elem_of_cons|]; rewrite IH'; split.
    + intros [->|(a & t & -> & ->)]; [exists "", s; by rewrite append_nil_r|].
      exists (String.String slash a), t. by autorewrite with text.
    + intros ([|c a] & t & H & ->); [left; by rewrite append_nil_r|right].
      rewrite append_cons in H. injection H as -> ->. exists a, t. by autorewrite with text.
    + intros (a & t & -> & ->). exists (String.String c a), t. by autorewrite with text.
    + intros ([|c' a] & t & H & ->).
      { rewrite append_nil_l in H. by injection H as ?. }
      rewrite append_cons in H. injection H as -> ->. exists a, t. by autorewrite with text.
Qed.

(** [q] lies strictly below [p] in the tree of paths. *)
Definition below (p q : string) : Prop := exists t, q = p +:+ String.String slash t.

Lemma below_irrefl p : ~ below p p.
Proof.
  intros [t H]. apply (f_equal String.length) in H. rewrite append_length in H. simpl in H. lia.
Qed.

Lemma wf_path_root v : wf_VirtualPath v ->
  existsb (under_root (vp_str v)) VIRTUAL_ROOTS = true /\ exists t, vp_str v = String.String slash t.
Proof.
  intros H. apply wf_VirtualPath_iff in H as [Hc Hr]. split; [done|]. by apply canonical_starts_slash.
Qed.

Lemma root_filter p :
  existsb (fun root => bool_decide (p = root)
     || match strip_prefix root p with Some tail => starts_with "/" tail | None => false end)
    VIRTUAL_ROOTS = existsb (under_root p) VIRTUAL_ROOTS.
Proof.
  induction VIRTUAL_ROOTS as [|root l IH]; [done|]. cbn [existsb]. rewrite IH. f_equal.
  unfold under_root. f_equal. apply eq_bool_prop_intro.
  split; intros H%Is_true_true; apply Is_true_true.
  - destruct (strip_prefix root p) as [t|] eqn:E; [|done].
    apply strip_prefix_spec in E as ->. unfold starts_with in *.
    apply prefix_spec in H as [u ->]. apply prefix_spec. exists u. by autorewrite with text.
  - unfold starts_with in *. apply prefix_spec in H as [u ->]. rewrite append_assoc.
    assert (strip_prefix root (root +:+ ("/" +:+ u)) = Some ("/" +:+ u)) as ->
      by (by apply strip_prefix_spec). apply prefix_spec. by exists u.
Qed.

Lemma prefixes_below v p : wf_VirtualPath v ->
  p ∈ VirtualPath_prefixes v -> p = vp_str v \/ below p (vp_str v).
Proof.
  intros Hv [_ H]%list_elem_of_filter. destruct (wf_path_root v Hv) as [_ [s Hs]].
  rewrite Hs in *. cbn in H. apply elem_of_app in H as [H|H]; [right|left; set_solver].
  apply before_slashes_spec in H as (a & t & -> & ->).
  exists t. rewrite append_nil_l. by rewrite append_cons.
Qed.

Lemma below_prefixes u v : wf_VirtualPath u -> wf_VirtualPath v ->
  below (vp_str u) (vp_str v) -> vp_str u ∈ VirtualPath_prefixes v.
Proof.
  intros Hu Hv [t Ht]. destruct (wf_path_root u Hu) as [Hr [a Ha]].
  apply list_elem_of_filter. split; [by rewrite root_filter|].
  apply elem_of_app. left. rewrite Ht, Ha. rewrite append_cons. cbn.
  apply before_slashes_spec. exists a, t. by split.
Qed.

Lemma with_trailing_slash_wf v :
  wf_VirtualPath v -> with_trailing_slash (vp_str v) = vp_str v +:+ "/".
Proof.
  intros [Hc _]%wf_VirtualPath_iff. unfold with_trailing_slash.
  by rewrite canonical_not_slash_end.
Qed.

Lemma has_key_under_spec m v : wf_VirtualPath v ->
  has_key_under m (with_trailing_slash (vp_str v)) = true <->
  exists q, is_Some (m !! q) /\ below (vp_str v) q.
Proof.
  intros Hv. rewrite with_trailing_slash_wf by done. unfold has_key_under, below.
  rewrite existsb_exists. split.
  - intros ((q & e) & Hin & Hp). apply list_elem_of_In, elem_of_map_to_list in Hin.
    unfold starts_with in Hp. apply prefix_spec in Hp as [t ->].
    eexists. split; [by eexists|]. exists t. by autorewrite with text.
  - intros (q & [e He] & t & ->). eexists (_, e).
    split; [by apply list_elem_of_In, elem_of_map_to_list|].
    unfold starts_with. apply prefix_spec. exists t. by autorewrite with text.
Qed.

(** ** Writes *)

(** What a compare-and-swap expectation asks of the current entry. *)
Definition expectation_holds (cas : CasExpectation) (current : option StoredEntry) : Prop :=
  match cas with
  | CasAny => True
  | CasAbsent => current = None
  | CasVersion v => st_version <$> current = Some v
  | CasVersionAndBody v c => exists st,
      current = Some st /\ st_version st = v /\ c = for_body (entry_body (st_entry st))
  end.

(** The path is free of a file above it and of files below it. *)
Definition namespace_free (s : State) (path : string) : Prop :=
  forall q, is_Some (entries s !! q) -> ~ below q path /\ ~ below path q.

Definition keys_wf (s : State) : Prop :=
  forall q, is_Some (entries s !! q) -> wf_VirtualPath (mk_VirtualPath q).

Lemma check_cas_spec path cas current :
  check_cas path cas current = Ok tt <-> expectation_holds cas current.
Proof.
  destruct cas as [|v|v c|]; simpl.
  - case_bool_decide as H; destruct current; naive_solver.
  - case_bool_decide as H; naive_solver.
  - case_bool_decide as H.
    + destruct current as [st|]; [|done]. injection H as <-.
      unfold matches_body. case_bool_decide; naive_solver.
    + split; [done|]. intros (st & -> & <- & _). by destruct H.
  - done.
Qed.

Lemma validate_file_namespace_spec s path op :
  keys_wf s -> wf_VirtualPath path ->
  validate_file_namespace s path op = Ok tt <-> namespace_free s (vp_str path).
Proof.
  intros Hk Hv. unfold validate_file_namespace. destruct (existsb _ _) eqn:E.
  - split; [done|]. intros Hfree. apply existsb_exists in E as (a & Ha & Hs).
    apply filter_In in Ha as [Ha Hne%negb_true_iff]. apply bool_decide_eq_true in Hs.
    apply list_elem_of_In in Ha.
    destruct (prefixes_below path a Hv Ha) as [->|Hb]; [by rewrite bool_decide_eq_true_2 in Hne|].
    by destruct (Hfree a Hs).
  - destruct (has_key_under _ _) eqn:U.
    + apply has_key_under_spec in U as (q & Hq & Hb); [|done].
      split; [done|]. intros Hfree. by destruct (Hfree q Hq).
    + split; [|done]. intros _ q Hq. split; intros Hb.
      * rewrite existsb_false_Forall, Forall_forall in E.
        assert (q ∈ VirtualPath_prefixes path) as Hin
          by (by apply (below_prefixes (mk_VirtualPath q)); [apply Hk| |]).
        specialize (E q). rewrite list_elem_of_In, filter_In, <- list_elem_of_In in E.
        assert (bool_decide (is_Some (entries s !! q)) = false) as Hno.
        { apply E. split; [done|]. apply negb_true_iff, bool_decide_eq_false.
          intros ->. by apply below_irrefl in Hb. }
        by apply bool_decide_eq_false in Hno.
      * assert (has_key_under (entries s) (with_trailing_slash (vp_str path)) = true) as Hu
          by (apply has_key_under_spec; eauto). by rewrite Hu in U.
Qed.

Lemma check_cas_unit path cas current u : check_cas path cas current = Ok u -> u = tt.
Proof. by destruct u. Qed.

(** A write that succeeds, and its effect. *)
Lemma put_entry_ok s path entry cas opaque now s' v :
  keys_wf s -> wf_VirtualPath path ->
  put_entry s path entry cas opaque now = (s', Ok v) ->
  namespace_free s (vp_str path) /\
  expectation_holds cas (entries s !! vp_str path) /\
  v = default 0 (st_version <$> entries s !! vp_str path) + 1 /\ v <= u64_max /\
  s' = with_entries s (<[vp_str path := mk_StoredEntry entry v now]> (entries s)).
Proof.
  intros Hk Hv. unfold put_entry. destruct (_ && _); [done|].
  destruct (validate_file_namespace s path WriteFile) as [[]|e] eqn:En; [|done].
  destruct (check_cas path cas _) as [[]|e] eqn:Ec; [|done].
  unfold next_version, checked_next, u64_checked_add.
  destruct (checked_add_max _ _ _) as [w|] eqn:Ew; simpl; [|done].
  apply checked_add_max_some in Ew as [-> Hmax]. intros [= <- <-].
  split_and!; [by eapply validate_file_namespace_spec|by eapply check_cas_spec|done..].
Qed.

Lemma put_entry_err s path entry cas opaque now s' e :
  put_entry s path entry cas opaque now = (s', Err e) -> s' = s.
Proof.
  unfold put_entry. destruct (_ && _); [by intros [= <- _]|].
  destruct (let? _ := validate_file_namespace s path WriteFile in _); by intros [= <- _].
Qed.

Lemma put_succeeds s path entry cas now :
  keys_wf s -> wf_VirtualPath path -> namespace_free s (vp_str path) ->
  expectation_holds cas (entries s !! vp_str path) ->
  default 0 (st_version <$> entries s !! vp_str path) < u64_max ->
  exists s', put s path entry cas now
    = (s', Ok (default 0 (st_version <$> entries s !! vp_str path) + 1)).
Proof.
  intros Hk Hv Hn%(validate_file_namespace_spec s path WriteFile Hk Hv) Hc%(check_cas_spec path) Hm.
  unfold put, put_entry. simpl. rewrite Hn, Hc. unfold next_version, checked_next, u64_checked_add.
  destruct (checked_add_max _ _ _) as [w|] eqn:Ew.
  - apply checked_add_max_some in Ew as [-> _]. simpl. by eexists.
  - assert (checked_add_max u64_max (default 0 (st_version <$> entries s !! vp_str path)) 1
      = Some (default 0 (st_version <$> entries s !! vp_str path) + 1)) as Hx
      by (apply checked_add_max_some; lia). by rewrite Hx in Ew.
Qed.

(** ** Invariants *)

Definition dense (log : list EventRecord) : Prop :=
  forall i r, log !! i = Some r -> er_seq r = Z.of_nat i + 1.

Record fs_ok (s : State) : Prop := {
  fs_keys : keys_wf s;
  fs_tree : forall p q, is_Some (entries s !! p) -> is_Some (entries s !! q) -> ~ below p q;
  fs_versions : forall k st, entries s !! k = Some st -> 1 <= st_version st <= u64_max;
  fs_logs : forall k log, event_logs s !! k = Some log -> dense log }.

Inductive backend_reachable : State -> Prop :=
| reach_new : backend_reachable State_new
| reach_call s c v now s' r :
    backend_reachable s -> wf_VirtualPath v -> root_call s c v now = (s', r) ->
    backend_reachable s'.

Lemma fs_ok_new : fs_ok State_new.
Proof. by split; [intros ? [??]|intros ?? [??]|intros|intros]. Qed.

Lemma namespace_free_stored s v :
  fs_ok s -> is_Some (entries s !! vp_str v) -> namespace_free s (vp_str v).
Proof. intros Hok Hs q Hq. split; by apply (fs_tree s Hok). Qed.

Lemma fs_ok_write s v st : fs_ok s -> wf_VirtualPath v -> namespace_free s (vp_str v) ->
  1 <= st_version st <= u64_max -> fs_ok (with_entries s (<[vp_str v := st]> (entries s))).
Proof.
  intros Hok Hv Hfree Hver.
  assert (forall k, is_Some (<[vp_str v := st]> (entries s) !! k) ->
    k = vp_str v \/ is_Some (entries s !! k)) as Hdom.
  { intros k [x Hx]. apply lookup_insert_Some in Hx as [[<- _]|[_ Hx]]; [by left|right; by eexists]. }
  split; simpl.
  - intros k Hk. destruct (Hdom k Hk) as [->|H]; [by destruct v|by apply (fs_keys s Hok)].
  - intros p q Hp Hq. destruct (Hdom p Hp) as [->|Hp'], (Hdom q Hq) as [->|Hq'].
    + apply below_irrefl.
    + by apply Hfree.
    + by apply Hfree.
    + by apply (fs_tree s Hok).
  - intros k x Hx. apply lookup_insert_Some in Hx as [[_ <-]|[_ Hx]]; [done|].
    by apply (fs_versions s Hok k).
  - apply (fs_logs s Hok).
Qed.

Lemma fs_ok_sub s m : fs_ok s -> m ⊆ entries s -> fs_ok (with_entries s m).
Proof.
  intros Hok Hsub.
  assert (forall k, is_Some (m !! k) -> is_Some (entries s !! k)) as Hdom.
  { intros k [x Hx]. exists x. by eapply lookup_weaken. }
  split; simpl.
  - intros k Hk. apply (fs_keys s Hok). by apply Hdom.
  - intros p q Hp Hq. apply (fs_tree s Hok); by apply Hdom.
  - intros k x Hx. apply (fs_versions s Hok k). by eapply lookup_weaken.
  - apply (fs_logs s Hok).
Qed.

Lemma version_nonneg s k : fs_ok s -> 0 <= default 0 (st_version <$> entries s !! k).
Proof.
  intros Hok. destruct (entries s !! k) as [st|] eqn:E; simpl; [|done].
  pose proof (fs_versions s Hok k st E). lia.
Qed.

Lemma put_entry_fs_ok s v entry cas opaque now s' r : fs_ok s -> wf_VirtualPath v ->
  put_entry s v entry cas opaque now = (s', r) -> fs_ok s'.
Proof.
  intros Hok Hv H. destruct r as [w|e]; [|by apply put_entry_err in H as ->].
  apply put_entry_ok in H as (Hfree & _ & -> & Hmax & ->); [|apply Hok|done].
  apply fs_ok_write; [done..|]. pose proof (version_nonneg s (vp_str v) Hok). simpl. lia.
Qed.

Lemma append_file_fs_ok s v bytes now s' r : fs_ok s -> wf_VirtualPath v ->
  append_file s v bytes now = (s', r) -> fs_ok s'.
Proof.
  intros Hok Hv. unfold append_file.
  destruct (validate_file_namespace s v AppendFile) as [[]|e] eqn:En; [|by intros [= <- _]].
  apply validate_file_namespace_spec in En; [|apply Hok|done].
  unfold next_version, checked_next, u64_checked_add.
  destruct (checked_add_max _ _ _) as [w|] eqn:Ew; simpl; [|by intros [= <- _]].
  apply checked_add_max_some in Ew as [-> Hmax]. intros [= <- _].
  apply fs_ok_write; [done..|]. pose proof (version_nonneg s (vp_str v) Hok). simpl. lia.
Qed.

Lemma delete_fs_ok s v s' r : fs_ok s -> delete_path s v = (s', r) -> fs_ok s'.
Proof.
  intros Hok. unfold delete_path, remove_under. destruct (entries s !! vp_str v) eqn:E.
  - intros [= <- _]. apply fs_ok_sub; [done|].
    etransitivity; [apply map_filter_subseteq|apply delete_subseteq].
  - destruct (_ =? _)%nat; intros [= <- _]; [done|]. apply fs_ok_sub; [done|].
    apply map_filter_subseteq.
Qed.

Lemma delete_if_snapshot_fs_ok s v ver c s' r :
  fs_ok s -> delete_if_snapshot s v ver c = (s', r) -> fs_ok s'.
Proof.
  intros Hok. unfold delete_if_snapshot.
  destruct (check_cas _ _ _) as [|[]]; intros [= <- _]; try done.
  apply fs_ok_sub; [done|apply delete_subseteq].
Qed.

Lemma dense_snoc log r :
  dense log -> er_seq r = Z.of_nat (length log) + 1 -> dense (log ++ [r]).
Proof.
  intros Hd Hr i x Hx. destruct (decide (i < length log)%nat) as [Hi|Hi].
  - rewrite lookup_app_l in Hx by done. by apply Hd.
  - rewrite lookup_app_r in Hx by lia. apply list_lookup_singleton_Some in Hx as [Hi' <-].
    rewrite Hr. f_equal. lia.
Qed.

Lemma dense_last log : dense log -> default 0 (er_seq <$> last log) = Z.of_nat (length log).
Proof.
  intros Hd. destruct (decide (log = [])) as [->|Hne]; [done|].
  rewrite last_lookup. destruct (log !! pred (length log)) as [r|] eqn:E; simpl.
  - rewrite (Hd _ r E). apply lookup_lt_Some in E. lia.
  - apply lookup_ge_None in E. destruct log; [done|]. simpl in E. lia.
Qed.

(** Filtering by sequence number takes a suffix. *)
Lemma dense_filter log n : dense log ->
  List.filter (fun record => Z.of_nat n <? er_seq record) log = drop n log.
Proof.
  intros Hd. rewrite <- (take_drop n log) at 1. rewrite List.filter_app.
  assert (List.filter (fun record => Z.of_nat n <? er_seq record) (take n log) = []) as ->.
  { apply filter_none. intros i r Hr. apply lookup_take_Some in Hr as [Hr Hi].
    apply Z.ltb_ge. rewrite (Hd i r Hr). lia. }
  simpl. apply filter_all. intros i r Hr. rewrite lookup_drop in Hr.
  apply Z.ltb_lt. rewrite (Hd _ r Hr). lia.
Qed.

Lemma log_of_dense s v : fs_ok s -> dense (log_of s v).
Proof.
  intros Hok. unfold log_of. destruct (event_logs s !! _) eqn:E; simpl; [|by intros ??].
  by apply (fs_logs s Hok (vp_str v)).
Qed.

Lemma append_fs_ok s v payload s' r : fs_ok s -> append s v payload = (s', r) -> fs_ok s'.
Proof.
  intros Hok. pose proof (log_of_dense s v Hok) as Hd. unfold append, checked_next, u64_checked_add.
  destruct (checked_add_max _ _ _) as [n|] eqn:En; intros [= <- _];
    destruct Hok as [Hk Ht Hv Hl]; (split; simpl; [done..|]);
    intros k log Hx; apply lookup_insert_Some in Hx as [[_ <-]|[_ Hx]]; eauto.
  apply checked_add_max_some in En as [-> _]. apply dense_snoc; [done|]. simpl.
  by rewrite dense_last.
Qed.

Lemma ensure_index_fs_ok s v spec s' r : fs_ok s -> ensure_index s v spec = (s', r) -> fs_ok s'.
Proof.
  intros [Hk Ht Hv Hl]. unfold ensure_index. destruct (spec_kind spec) as [| | |[]];
    repeat (destruct (List.find _ _)); intros [= <- _]; by split.
Qed.

Lemma root_call_fs_ok s c v now s' r : fs_ok s -> wf_VirtualPath v ->
  root_call s c v now = (s', r) -> fs_ok s'.
Proof.
  intros Hok Hv. destruct c; cbn [root_call].
  - destruct (put _ _ _ _ _) eqn:E. intros [= <- _]. by eapply put_entry_fs_ok.
  - destruct (put_opaque _ _ _ _ _) eqn:E. intros [= <- _]. by eapply put_entry_fs_ok.
  - by intros [= <- _].
  - destruct (ensure_index _ _ _) eqn:E. intros [= <- _]. by eapply ensure_index_fs_ok.
  - destruct (append _ _ _) eqn:E. intros [= <- _]. by eapply append_fs_ok.
  - by intros [= <- _].
  - destruct (append_file _ _ _ _) eqn:E. intros [= <- _]. by eapply append_file_fs_ok.
  - by intros [= <- _].
  - destruct (delete_if_snapshot _ _ _ _) eqn:E. intros [= <- _]. by eapply delete_if_snapshot_fs_ok.
  - destruct (delete_path _ _) eqn:E. intros [= <- _]. by eapply delete_fs_ok.
Qed.

Lemma backend_reachable_ok s : backend_reachable s -> fs_ok s.
Proof. induction 1; [apply fs_ok_new|by eapply root_call_fs_ok]. Qed.

(** ** Footprints *)

(** Nothing outside [v] and what lies below it differs between two states. *)
Definition touches_only (v : string) (s s' : State) : Prop :=
  forall k, k <> v -> ~ below v k ->
    entries s' !! k = entries s !! k /\ indexes s' !! k = indexes s !! k /\
    event_logs s' !! k = event_logs s !! k.

Lemma touches_only_refl v s : touches_only v s s.
Proof. by intros k. Qed.

Lemma remove_under_lookup m v k : wf_VirtualPath v -> ~ below (vp_str v) k ->
  remove_under m (with_trailing_slash (vp_str v)) !! k = m !! k.
Proof.
  intros Hv Hb. unfold remove_under. rewrite with_trailing_slash_wf by done.
  apply option_eq. intros x. rewrite map_lookup_filter_Some. split; [by intros []|].
  intros Hx. split; [done|]. apply not_true_is_false. unfold starts_with. rewrite prefix_spec.
  intros [t ->]. apply Hb. exists t. by autorewrite with text.
Qed.

Lemma root_call_footprint s c v now s' r : wf_VirtualPath v ->
  root_call s c v now = (s', r) -> touches_only (vp_str v) s s'.
Proof.
  intros Hv.
  assert (forall st, touches_only (vp_str v) s
    (with_entries s (<[vp_str v := st]> (entries s)))) as Hins.
  { intros st k Hne _. simpl. by rewrite lookup_insert_ne. }
  destruct c; cbn [root_call]; try (intros [= <- _]; apply touches_only_refl).
  - unfold put, put_entry. destruct (_ && _); [intros [= <- _]; apply touches_only_refl|].
    destruct (let? _ := _ in _); intros [= <- _]; auto using touches_only_refl.
  - unfold put_opaque, put_entry. destruct (_ && _); [intros [= <- _]; apply touches_only_refl|].
    destruct (let? _ := _ in _); intros [= <- _]; auto using touches_only_refl.
  - unfold ensure_index. destruct (spec_kind spec) as [| | |[]]; repeat destruct (List.find _ _);
      intros [= <- _]; intros k Hne _; simpl; by rewrite ?lookup_insert_ne.
  - unfold append. destruct (checked_next _); intros [= <- _]; intros k Hne _; simpl;
      by rewrite lookup_insert_ne.
  - unfold append_file. destruct (let? _ := _ in _); intros [= <- _];
      auto using touches_only_refl.
  - unfold delete_if_snapshot. destruct (check_cas _ _ _) as [|[]]; intros [= <- _];
      try apply touches_only_refl. intros k Hne _. simpl. by rewrite lookup_delete_ne.
  - unfold delete_path. destruct (entries s !! vp_str v) eqn:E.
    + intros [= <- _] k Hne Hb. simpl. by rewrite remove_under_lookup, lookup_delete_ne.
    + destruct (_ =? _)%nat; intros [= <- _]; [apply touches_only_refl|].
      intros k Hne Hb. simpl. by rewrite remove_under_lookup.
Qed.

(** The version of an entry does not decrease, and while it stays the entry does,
    as long as nothing is deleted. *)
Definition is_delete (c : ScopedCall) : bool :=
  match c with CallDelete _ | CallDeleteIfSnapshot _ _ _ => true | _ => false end.

Definition advances (s s' : State) : Prop :=
  forall k st, entries s !! k = Some st -> exists st', entries s' !! k = Some st' /\
    st_version st <= st_version st' /\
    (st_version st' = st_version st -> st_entry st' = st_entry st).

#[export] Instance advances_preorder : PreOrder advances.
Proof.
  split.
  - intros s k st H. exists st. split_and!; [done|lia|done].
  - intros a b c Hab Hbc k st H. destruct (Hab k st H) as (st1 & H1 & Hle1 & He1).
    destruct (Hbc k st1 H1) as (st2 & H2 & Hle2 & He2). exists st2.
    split_and!; [done|lia|]. intros Heq. rewrite He2, He1; [done|lia..].
Qed.

Lemma insert_advances s v st :
  (forall st0, entries s !! v = Some st0 -> st_version st = st_version st0 + 1) ->
  advances s (with_entries s (<[v := st]> (entries s))).
Proof.
  intros Hv k st0 Hk. simpl. destruct (decide (k = v)) as [->|Hne].
  - rewrite lookup_insert_eq. specialize (Hv st0 Hk). exists st. split_and!; [done|lia|lia].
  - rewrite lookup_insert_ne by done. exists st0. split_and!; [done|lia|done].
Qed.

Lemma next_version_step path op cur v st0 :
  next_version path op cur = Ok v -> cur = Some st0 -> v = st_version st0 + 1.
Proof.
  unfold next_version, checked_next, u64_checked_add. intros H ->. simpl in H.
  destruct (checked_add_max _ _ _) as [w|] eqn:Ew; [|done]. injection H as <-.
  by apply checked_add_max_some in Ew as [-> _].
Qed.

Lemma put_entry_advances s v entry cas opaque now s' r :
  put_entry s v entry cas opaque now = (s', r) -> advances s s'.
Proof.
  unfold put_entry. destruct (_ && _); [by intros [= <- _]|].
  destruct (validate_file_namespace _ _ _); [|by intros [= <- _]].
  destruct (check_cas _ _ _); [|by intros [= <- _]].
  destruct (next_version _ _ _) as [w|] eqn:Ew; intros [= <- _]; [|done].
  apply insert_advances. intros st0 H0. by eapply next_version_step.
Qed.

Lemma root_call_advances s c v now s' r :
  is_delete c = false -> root_call s c v now = (s', r) -> advances s s'.
Proof.
  intros Hd. destruct c; try done; cbn [root_call]; try by intros [= <- _].
  - destruct (put _ _ _ _ _) eqn:E. intros [= <- _]. by eapply put_entry_advances.
  - destruct (put_opaque _ _ _ _ _) eqn:E. intros [= <- _]. by eapply put_entry_advances.
  - unfold ensure_index. destruct (spec_kind spec) as [| | |[]]; repeat destruct (List.find _ _);
      intros [= <- _]; intros k st Hk; exists st; split_and!; done || lia.
  - unfold append. destruct (checked_next _); intros [= <- _]; intros k st Hk; exists st;
      split_and!; done || lia.
  - unfold append_file. destruct (validate_file_namespace _ _ _); [|by intros [= <- _]].
    destruct (next_version _ _ _) as [w|] eqn:Ew; intros [= <- _]; [|done].
    apply insert_advances. intros st0 H0. by eapply next_version_step.
Qed.

(** Backend calls other than deletes, by anyone. *)
Inductive other_calls : State -> State -> Prop :=
| oc_call s c v now s' r :
    is_delete c = false -> root_call s c v now = (s', r) -> other_calls s s'.

Lemma other_calls_advance s s' : rtc other_calls s s' -> advances s s'.
Proof.
  induction 1 as [|a b c [a' call v now b' r Hd Hc] _ IH]; [done|].
  etransitivity; [by eapply root_call_advances|done].
Qed.

(** ** Properties *)

(** Compare-and-swap writes of the backend, on every state its calls can
    produce: [put] succeeds exactly when no stored file is above or below the
    path, the expectation holds of the current entry and a next version is
    representable; it then returns the current version plus one, a read returns
    the written entry at that version, and no other path changes; when it fails
    the state is unchanged. *)
Theorem put_cas_exact s path entry cas now :
  backend_reachable s -> wf_VirtualPath path ->
  let v0 := default 0 (st_version <$> entries s !! vp_str path) in
  ((namespace_free s (vp_str path) /\ expectation_holds cas (entries s !! vp_str path) /\
    v0 < u64_max) <-> exists s' v, put s path entry cas now = (s', Ok v)) /\
  (forall s' v, put s path entry cas now = (s', Ok v) ->
     v = v0 + 1 /\ get s' path = Some (mk_VersionedEntry path entry v) /\
     forall q, vp_str q <> vp_str path -> get s' q = get s q) /\
  (forall s' e, put s path entry cas now = (s', Err e) -> s' = s).
Proof.
  intros Hr Hv v0. apply backend_reachable_ok in Hr as Hok. pose proof (fs_keys s Hok) as Hk.
  split_and!.
  - split.
    + intros (Hn & Hc & Hm). destruct (put_succeeds s path entry cas now) as [s' Hs]; eauto.
    + intros (s' & v & H). apply put_entry_ok in H as (Hn & Hc & -> & Hm & _); [|done..].
      split_and!; [done..|]. fold v0 in Hm. lia.
  - intros s' v H. apply put_entry_ok in H as (_ & _ & -> & _ & ->); [|done..].
    split; [done|]. unfold get. simpl. rewrite lookup_insert_eq. split; [done|].
    intros q Hq. by rewrite lookup_insert_ne.
  - intros s' e. apply put_entry_err.
Qed.

(** A version stands for its entry: whatever calls other than deletes run in
    between, and by whomever, a write conditioned on a version that was read at a
    path succeeds only if the entry read then is still the current one, and its
    version is then one larger; a stale version is refused with the state
    unchanged. *)
Theorem cas_write_not_stale s s1 s2 path read entry now v :
  get s path = Some read -> rtc other_calls s s1 ->
  backend_reachable s1 -> wf_VirtualPath path ->
  put s1 path entry (CasVersion (ve_version read)) now = (s2, Ok v) ->
  get s1 path = Some read /\ v = ve_version read + 1.
Proof.
  intros Hread Hoc Hr Hv H. apply backend_reachable_ok in Hr as Hok.
  apply put_entry_ok in H as (_ & Hc & -> & _ & _); [|apply Hok|done]. simpl in Hc.
  unfold get in *. destruct (entries s !! vp_str path) as [st|] eqn:E; [|done].
  injection Hread as <-. simpl in *.
  destruct (other_calls_advance s s1 Hoc _ st E) as (st' & E' & _ & Heq).
  rewrite E' in *. simpl in *. injection Hc as Hver. rewrite Heq, Hver by done. done.
Qed.

(** Every state the backend's calls can produce is a tree of files: stored
    paths are valid virtual paths, none lies below another, so a path is never
    both a file and a directory; and every event log is numbered 1, 2, ... in
    order of arrival, so reading a log from position [n] returns exactly the
    events after the first [n]. *)
Theorem backend_tree_and_logs s :
  backend_reachable s ->
  (forall u w, is_Some (get s u) -> is_Some (get s w) ->
     wf_VirtualPath u /\ ~ below (vp_str u) (vp_str w)) /\
  (forall v st, stat s v = Ok st -> wf_VirtualPath v ->
     (fs_file_type st = TFile <-> is_Some (get s v)) /\
     (fs_file_type st = TDirectory <->
        exists q, is_Some (entries s !! q) /\ below (vp_str v) q)) /\
  (forall v n, (n <= length (log_of s v))%nat ->
     tail s v (Z.of_nat n) = drop n (log_of s v)).
Proof.
  intros Hr. apply backend_reachable_ok in Hr as Hok. unfold get. split_and!.
  - intros u w [x Hu] [y Hw]. apply fmap_Some in Hu as (su & Hu & _).
    apply fmap_Some in Hw as (sw & Hw & _). split.
    + destruct u. by apply (fs_keys s Hok).
    + by apply (fs_tree s Hok).
  - intros v st Hst Hv. unfold stat in Hst. destruct (entries s !! vp_str v) as [e|] eqn:E.
    + injection Hst as <-. simpl. split; [split; [by intros _|done]|]. split; [done|].
      intros (q & Hq & Hb). by destruct (fs_tree s Hok (vp_str v) q).
    + destruct (has_key_under _ _) eqn:U; [|done]. injection Hst as <-. simpl.
      split; [split; [done|by intros [? ?]]|]. split; [|done]. intros _.
      by apply has_key_under_spec.
  - intros v n _. unfold tail. apply dense_filter, log_of_dense, Hok.
Qed.

(** A scoped call reaches the backend only through a mount of the caller's
    view: either nothing changes, or the path resolved through the mount with the
    longest matching alias, that mount's permissions allow the operation, the
    resolved path is the mount's target or lies below it, and no entry, index or
    event log outside it and its subtree changes. *)
Theorem scoped_call_confined resolver s scope c now s' r view :
  resolver scope = Ok view -> wf_MountView view -> wf_ScopedPath (call_path c) ->
  scoped_call resolver s scope c now = (s', r) ->
  s' = s \/
  exists m v, selects view (sp_str (call_path c)) m /\ rebased m (call_path c) v /\
    operation_allowed (mg_permissions m) (call_operation c) = true /\
    (vp_str v = vp_str (mg_target m) \/ below (vp_str (mg_target m)) (vp_str v)) /\
    touches_only (vp_str v) s s'.
Proof.
  intros Hres Hview Hp. unfold scoped_call, resolve_with_permission_view. rewrite Hres.
  destruct (MountView_resolve_with_grant view (call_path c)) as [[v m]|e] eqn:E;
    [|by intros [= <- _]; left].
  apply resolve_with_grant_ok in E as (Hsel & Hreb & Hv); [|done..].
  destruct (operation_allowed _ _) eqn:Eop; simpl; [|by intros [= <- _]; left].
  intros H. right. exists m, v. split_and!; [done..| |by eapply root_call_footprint].
  destruct Hreb as (rest & Hrest & _ & ->). destruct Hrest as [->|Hrest].
  - left. by rewrite append_nil_r.
  - right. unfold starts_with in Hrest. apply prefix_spec in Hrest as [t ->]. by exists t.
Qed.

End Backend.

(** ** Evaluation: one project file *)

Module FsExample.

Definition file : VirtualPath := mk_VirtualPath "/projects/a/notes".
Definition dir : VirtualPath := mk_VirtualPath "/projects/a".
Definition entry (body : string) : Entry := Entry_bytes body.

Lemma file_wf : wf_VirtualPath file.
Proof. by exists "/projects/a/notes". Qed.
Lemma dir_wf : wf_VirtualPath dir.
Proof. by exists "/projects/a". Qed.

Definition one : State := (put State_new file (entry "x") CasAbsent 5).1.
Definition two : State := (append one file "event").1.

Lemma one_reachable : backend_reachable one.
Proof.
  apply (reach_call State_new (CallPut (mk_ScopedPath "/w") (entry "x") CasAbsent) file 5 one
           (Ok (RepVersion 1)) reach_new file_wf). by vm_compute.
Qed.

Lemma two_reachable : backend_reachable two.
Proof.
  apply (reach_call one (CallAppend (mk_ScopedPath "/w") "event") file 5 two
           (Ok (RepSeq 1)) one_reachable file_wf). by vm_compute.
Qed.

Definition view : MountView := mk_MountView
  [mk_MountGrant (mk_MountAlias "/w") (mk_VirtualPath "/projects/a")
     MountPermissions_read_write].

Lemma view_wf : wf_MountView view.
Proof.
  split.
  - repeat constructor; [by exists "/w" | by exists "/projects/a"].
  - by vm_compute.
Qed.

End FsExample.

Lemma put_cas_exact_witness :
  exists s', put FsExample.one FsExample.file (FsExample.entry "y") (CasVersion 1) 6
    = (s', Ok 2) /\ get s' FsExample.file
    = Some (mk_VersionedEntry FsExample.file (FsExample.entry "y") 2).
Proof.
  destruct (put_cas_exact FsExample.one FsExample.file (FsExample.entry "y") (CasVersion 1) 6
              FsExample.one_reachable FsExample.file_wf) as (_ & Hok & _).
  destruct (put FsExample.one FsExample.file (FsExample.entry "y") (CasVersion 1) 6)
    as [s' [v|e]] eqn:E; [|by vm_compute in E].
  destruct (Hok s' v eq_refl) as (Hv & Hg & _). clear Hok E.
  assert (default 0 (st_version <$> entries FsExample.one !! vp_str FsExample.file) = 1) as Hver
    by (vm_compute; reflexivity).
  rewrite Hver in Hv. subst v. exists s'. split; [reflexivity|exact Hg].
Defined.

Lemma cas_write_not_stale_witness :
  exists s2, put FsExample.two FsExample.file (FsExample.entry "y") (CasVersion 1) 6
      = (s2, Ok 2)
    /\ get FsExample.two FsExample.file
       = Some (mk_VersionedEntry FsExample.file (FsExample.entry "x") 1).
Proof.
  destruct (put FsExample.two FsExample.file (FsExample.entry "y") (CasVersion 1) 6)
    as [s2 [v|e]] eqn:E; [|by vm_compute in E].
  assert (rtc other_calls FsExample.one FsExample.two) as Hoc.
  { apply rtc_once, (oc_call FsExample.one (CallAppend (mk_ScopedPath "/w") "event")
      FsExample.file 5 FsExample.two (Ok (RepSeq 1))); reflexivity. }
  destruct (cas_write_not_stale FsExample.one FsExample.two s2 FsExample.file
              (mk_VersionedEntry FsExample.file (FsExample.entry "x") 1)
              (FsExample.entry "y") 6 v eq_refl Hoc FsExample.two_reachable FsExample.file_wf E)
    as [Hg Hv].
  exists s2. split; [by rewrite Hv|exact Hg].
Defined.

Lemma backend_tree_and_logs_witness :
  (exists st, stat FsExample.two FsExample.dir = Ok st /\ fs_file_type st = TDirectory /\
     exists q, is_Some (entries FsExample.two !! q) /\ below "/projects/a" q) /\
  tail FsExample.two FsExample.file 0 = [mk_EventRecord 1 "event"].
Proof.
  destruct (backend_tree_and_logs FsExample.two FsExample.two_reachable) as (_ & Hstat & Htail).
  split.
  - exists (mk_FileStat FsExample.dir TDirectory 0 None false).
    assert (stat FsExample.two FsExample.dir
      = Ok (mk_FileStat FsExample.dir TDirectory 0 None false)) as Hst by reflexivity.
    split; [exact Hst|]. split; [reflexivity|].
    by apply (Hstat _ _ Hst FsExample.dir_wf).
  - exact (Htail FsExample.file 0%nat (Nat.le_0_l _)).
Defined.

Lemma scoped_call_confined_witness :
  exists m, selects FsExample.view "/w/notes" m /\
    operation_allowed (mg_permissions m) WriteFile = true.
Proof.
  destruct (scoped_call (fun _ => Ok FsExample.view) State_new (ResourceScope_system (from_uuid 1))
    (CallPut (mk_ScopedPath "/w/notes") (FsExample.entry "x") CasAbsent) 5) as [s' r] eqn:E.
  destruct (scoped_call_confined (fun _ => Ok FsExample.view) State_new (ResourceScope_system (from_uuid 1))
    (CallPut (mk_ScopedPath "/w/notes") (FsExample.entry "x") CasAbsent) 5 s' r FsExample.view)
    as [Heq|(m & v & Hsel & _ & Hop & _)].
  - reflexivity.
  - apply FsExample.view_wf.
  - exists "/w/notes", []. reflexivity.
  - exact E.
  - exfalso. assert (is_Some (entries s' !! "/projects/a/notes")) as Hs.
    { apply (f_equal fst) in E. cbn [fst] in E. rewrite <- E.
      exists (mk_StoredEntry (FsExample.entry "x") 1 5). reflexivity. }
    rewrite Heq in Hs. destruct Hs as [? Hs]. inversion Hs.
  - exists m. split; [exact Hsel|exact Hop].
Defined.
