(* ===== verification/Leases.v ===== *)
(** * Capability leases

    [crates/brassclaw_authorization/src/lib.rs]: the lease record, its lifecycle
    (active, claimed, consumed, revoked), the in-memory lease store, and which
    leases become ambient grants.  Every reading of the clock is an argument.
    The theorems: along any run of store calls the successful uses of a lease
    stay within the invocations it was issued with, exactly one for a lease bound
    to a fingerprint and only after a claim with that fingerprint, and a revoked
    or consumed lease is never used again; a lease becomes a grant exactly when
    it belongs to the caller's scope and invocation, is active, unexpired and
    unexhausted and has no fingerprint. *)

From S2P Require Import Prelude External HostIds Paths HostTypes.

Inductive CapabilityLeaseStatus : Type := LActive | LClaimed | LConsumed | LRevoked.

#[export] Instance CapabilityLeaseStatus_eq_dec : EqDecision CapabilityLeaseStatus.
Proof. solve_decision. Defined.

Inductive CapabilityLeaseError : Type :=
| UnknownLease (lease_id : CapabilityGrantId)
| ExpiredLease (lease_id : CapabilityGrantId)
| ExhaustedLease (lease_id : CapabilityGrantId)
| UnclaimedFingerprintLease (lease_id : CapabilityGrantId)
| FingerprintMismatch (lease_id : CapabilityGrantId)
| InactiveLease (lease_id : CapabilityGrantId) (status : CapabilityLeaseStatus)
| Persistence (reason : string)
| VersionMismatch
| CasExhausted.

(** [CapabilityLeaseKey] and [CapabilityLeaseOwnerKey]. *)
Definition CapabilityLeaseKey : Type :=
  (TenantId * UserId * option AgentId * option ProjectId * option ThreadId
   * InvocationId * CapabilityGrantId)%type.

#[export] Instance CapabilityLeaseKey_eq_dec : EqDecision CapabilityLeaseKey := _.
#[export] Instance CapabilityLeaseKey_countable : Countable CapabilityLeaseKey := _.

Definition CapabilityLeaseKey_new (scope : ResourceScope) (lease_id : CapabilityGrantId) :
    CapabilityLeaseKey :=
  (rs_tenant_id scope, rs_user_id scope, rs_agent_id scope, rs_project_id scope,
   rs_thread_id scope, rs_invocation_id scope, lease_id).

Definition same_scope_owner (left right : ResourceScope) : bool :=
  bool_decide (rs_tenant_id left = rs_tenant_id right)
  && bool_decide (rs_user_id left = rs_user_id right)
  && bool_decide (rs_agent_id left = rs_agent_id right)
  && bool_decide (rs_project_id left = rs_project_id right)
  && bool_decide (rs_thread_id left = rs_thread_id right).

Section Leases.
Context `{D : Decimal}.

Record CapabilityLease : Type := mk_CapabilityLease {
  cl_scope : ResourceScope;
  cl_grant : CapabilityGrant;
  cl_invocation_fingerprint : option InvocationFingerprint;
  cl_status : CapabilityLeaseStatus }.

Definition CapabilityLease_new (scope : ResourceScope) (grant : CapabilityGrant) :
    CapabilityLease := mk_CapabilityLease scope grant None LActive.

Definition lease_id (l : CapabilityLease) : CapabilityGrantId := cg_id (cl_grant l).
Definition lease_expires_at (l : CapabilityLease) : option Z :=
  expires_at (cg_constraints (cl_grant l)).
Definition lease_remaining (l : CapabilityLease) : option Z :=
  max_invocations (cg_constraints (cl_grant l)).
Definition lease_key (l : CapabilityLease) : CapabilityLeaseKey :=
  CapabilityLeaseKey_new (cl_scope l) (lease_id l).

Definition set_status (l : CapabilityLease) (s : CapabilityLeaseStatus) : CapabilityLease :=
  mk_CapabilityLease (cl_scope l) (cl_grant l) (cl_invocation_fingerprint l) s.

(** [*remaining = n] through [lease.grant.constraints.max_invocations]. *)
Definition set_remaining (l : CapabilityLease) (n : Z) : CapabilityLease :=
  let g := cl_grant l in let c := cg_constraints g in
  mk_CapabilityLease (cl_scope l)
    (mk_CapabilityGrant (cg_id g) (cg_capability g) (cg_grantee g) (cg_issued_by g)
       (mk_GrantConstraints (allowed_effects c) (gc_mounts c) (gc_network c) (gc_secrets c)
          (resource_ceiling c) (expires_at c) (Some n)))
    (cl_invocation_fingerprint l) (cl_status l).

(** ** Validity *)

Definition lease_is_expired (l : CapabilityLease) (now : Z) : bool :=
  match lease_expires_at l with Some t => t <=? now | None => false end.

Definition ensure_not_expired_or_exhausted (l : CapabilityLease) (now : Z) :
    result unit CapabilityLeaseError :=
  if lease_is_expired l now then Err (ExpiredLease (lease_id l))
  else if bool_decide (lease_remaining l = Some 0) then Err (ExhaustedLease (lease_id l))
  else Ok tt.

Definition ensure_claimable (l : CapabilityLease) (fingerprint : InvocationFingerprint) (now : Z) :
    result unit CapabilityLeaseError :=
  if negb (bool_decide (cl_status l = LActive)) then
    Err (InactiveLease (lease_id l) (cl_status l))
  else if negb (bool_decide (cl_invocation_fingerprint l = Some fingerprint)) then
    Err (FingerprintMismatch (lease_id l))
  else ensure_not_expired_or_exhausted l now.

Definition ensure_consumable (l : CapabilityLease) (now : Z) : result unit CapabilityLeaseError :=
  match cl_status l with
  | LConsumed => Err (ExhaustedLease (lease_id l))
  | LRevoked => Err (InactiveLease (lease_id l) (cl_status l))
  | LActive | LClaimed =>
      if bool_decide (is_Some (cl_invocation_fingerprint l))
         && negb (bool_decide (cl_status l = LClaimed))
      then Err (UnclaimedFingerprintLease (lease_id l))
      else ensure_not_expired_or_exhausted l now
  end.

Definition lease_is_authorizing (l : CapabilityLease) (context : ExecutionContext) (now : Z) : bool :=
  bool_decide (cl_status l = LActive)
  && bool_decide (rs_invocation_id (cl_scope l) = ec_invocation_id context)
  && negb (lease_is_expired l now)
  && negb (bool_decide (lease_remaining l = Some 0)).

(** ** Transitions of one lease: the bodies the stores apply to the record *)

Definition revoke_lease (l : CapabilityLease) : result CapabilityLease CapabilityLeaseError :=
  Ok (set_status l LRevoked).

Definition claim_lease (fingerprint : InvocationFingerprint) (now : Z) (l : CapabilityLease) :
    result CapabilityLease CapabilityLeaseError :=
  let? _ := ensure_claimable l fingerprint now in Ok (set_status l LClaimed).

Definition consume_lease (now : Z) (l : CapabilityLease) :
    result CapabilityLease CapabilityLeaseError :=
  let was_claimed := bool_decide (cl_status l = LClaimed) in
  let? _ := ensure_consumable l now in
  match cl_invocation_fingerprint l with
  | Some _ =>
      Ok (set_status (match lease_remaining l with Some _ => set_remaining l 0 | None => l end)
            LConsumed)
  | None =>
      match lease_remaining l with
      | Some remaining =>
          let l' := set_remaining l (remaining - 1) in
          Ok (if remaining - 1 =? 0 then set_status l' LConsumed
              else if was_claimed then set_status l' LActive else l')
      | None => Ok (if was_claimed then set_status l LActive else l)
      end
  end.

(** ** The in-memory store *)

Abbreviation LeaseMap := (gmap CapabilityLeaseKey CapabilityLease).

Definition lease_get (m : LeaseMap) (scope : ResourceScope) (id : CapabilityGrantId) :
    option CapabilityLease := m !! CapabilityLeaseKey_new scope id.

Definition lease_issue (m : LeaseMap) (l : CapabilityLease) :
    LeaseMap * result CapabilityLease CapabilityLeaseError :=
  (<[lease_key l := l]> m, Ok l).

(** [get_mut(key).ok_or(UnknownLease)?], a transition, the updated record. *)
Definition lease_update (m : LeaseMap) (scope : ResourceScope) (id : CapabilityGrantId)
    (f : CapabilityLease -> result CapabilityLease CapabilityLeaseError) :
    LeaseMap * result CapabilityLease CapabilityLeaseError :=
  match m !! CapabilityLeaseKey_new scope id with
  | None => (m, Err (UnknownLease id))
  | Some l =>
      match f l with
      | Err e => (m, Err e)
      | Ok l' => (<[CapabilityLeaseKey_new scope id := l']> m, Ok l')
      end
  end.

Definition lease_revoke m scope id := lease_update m scope id revoke_lease.
Definition lease_claim m scope id fingerprint now :=
  lease_update m scope id (claim_lease fingerprint now).
Definition lease_consume m scope id now := lease_update m scope id (consume_lease now).

(** [sort_by_key(|lease| lease.grant.id.as_uuid())]. *)
Definition by_uuid (a b : CapabilityLease) : Prop :=
  as_uuid (lease_id a) <= as_uuid (lease_id b).

#[local] Instance by_uuid_dec : RelDecision by_uuid.
Proof. intros a b. unfold by_uuid. apply _. Defined.

Definition leases_for_scope (m : LeaseMap) (scope : ResourceScope) : list CapabilityLease :=
  merge_sort by_uuid
    (List.filter (fun l => same_scope_owner (cl_scope l) scope) (map_to_list m).*2).

Definition active_leases_for_context (m : LeaseMap) (context : ExecutionContext) (now : Z) :
    list CapabilityLease :=
  List.filter (fun l => lease_is_authorizing l context now)
    (leases_for_scope m (ec_resource_scope context)).

Definition active_grants_for_context (m : LeaseMap) (context : ExecutionContext) (now : Z) :
    list CapabilityGrant :=
  map cl_grant
    (List.filter (fun l => bool_decide (cl_invocation_fingerprint l = None))
       (active_leases_for_context m context now)).

(** ** Runs of store calls *)

Inductive LeaseOp : Type :=
| LIssue (lease : CapabilityLease)
| LRevoke (scope : ResourceScope) (id : CapabilityGrantId)
| LClaim (scope : ResourceScope) (id : CapabilityGrantId) (fingerprint : InvocationFingerprint)
| LConsume (scope : ResourceScope) (id : CapabilityGrantId).

Definition lease_call (m : LeaseMap) (op : LeaseOp) (now : Z) :
    LeaseMap * result CapabilityLease CapabilityLeaseError :=
  match op with
  | LIssue l => lease_issue m l
  | LRevoke scope id => lease_revoke m scope id
  | LClaim scope id fp => lease_claim m scope id fp now
  | LConsume scope id => lease_consume m scope id now
  end.

Definition op_key (op : LeaseOp) : CapabilityLeaseKey :=
  match op with
  | LIssue l => lease_key l
  | LRevoke scope id | LClaim scope id _ | LConsume scope id => CapabilityLeaseKey_new scope id
  end.

(** The results of a run, call by call, with the clock of each call. *)
Fixpoint lease_run (m : LeaseMap) (ops : list (LeaseOp * Z)) :
    LeaseMap * list (LeaseOp * result CapabilityLease CapabilityLeaseError) :=
  match ops with
  | [] => (m, [])
  | (op, now) :: rest =>
      let '(m1, r) := lease_call m op now in
      let '(m2, tr) := lease_run m1 rest in
      (m2, (op, r) :: tr)
  end.

Definition is_issue_of (k : CapabilityLeaseKey) (op : LeaseOp) : bool :=
  match op with LIssue l => bool_decide (lease_key l = k) | _ => false end.
Definition is_consume_of (k : CapabilityLeaseKey) (op : LeaseOp) : bool :=
  match op with
  | LConsume scope id => bool_decide (CapabilityLeaseKey_new scope id = k)
  | _ => false end.
Definition is_claim_of (k : CapabilityLeaseKey) (op : LeaseOp) : bool :=
  match op with
  | LClaim scope id _ => bool_decide (CapabilityLeaseKey_new scope id = k)
  | _ => false end.

(** How many calls of a kind succeeded. *)
Definition successes (p : LeaseOp -> bool)
    (tr : list (LeaseOp * result CapabilityLease CapabilityLeaseError)) : Z :=
  Z.of_nat (length (List.filter (fun '(op, r) => p op && is_ok r) tr)).

(** ** The measure of a lease: how often it can still be used *)

Definition finished (l : CapabilityLease) : bool :=
  match cl_status l with LConsumed | LRevoked => true | _ => false end.

Definition uses_left (l : CapabilityLease) : option Z :=
  if finished l then Some 0
  else match cl_invocation_fingerprint l with Some _ => Some 1 | None => lease_remaining l end.

Definition remaining_ok (l : CapabilityLease) : Prop :=
  forall n, lease_remaining l = Some n -> 0 <= n.

Definition b2z (b : bool) : Z := if b then 1 else 0.

(** What one call does to the lease at a key. *)
Inductive lease_moves (k : CapabilityLeaseKey) (op : LeaseOp) (now : Z) (l : CapabilityLease) :
    CapabilityLease -> result CapabilityLease CapabilityLeaseError -> Prop :=
| moves_other r : op_key op <> k -> lease_moves k op now l l r
| moves_fail e : lease_moves k op now l l (Err e)
| moves_revoke scope id :
    op = LRevoke scope id -> op_key op = k ->
    lease_moves k op now l (set_status l LRevoked) (Ok (set_status l LRevoked))
| moves_claim scope id fp l' :
    op = LClaim scope id fp -> op_key op = k -> claim_lease fp now l = Ok l' ->
    lease_moves k op now l l' (Ok l')
| moves_consume scope id l' :
    op = LConsume scope id -> op_key op = k -> consume_lease now l = Ok l' ->
    lease_moves k op now l l' (Ok l').

Lemma lease_update_at m scope id f k l m' r :
  m !! k = Some l -> lease_update m scope id f = (m', r) ->
  (CapabilityLeaseKey_new scope id <> k /\ m' !! k = Some l) \/
  (CapabilityLeaseKey_new scope id = k /\
     ((exists e, f l = Err e /\ r = Err e /\ m' !! k = Some l) \/
      (exists l', f l = Ok l' /\ r = Ok l' /\ m' !! k = Some l'))).
Proof.
  intros Hk. unfold lease_update. destruct (decide (CapabilityLeaseKey_new scope id = k)) as [Heq|Hne].
  - rewrite Heq, Hk. intros H. right. split; [done|].
    destruct (f l) as [l'|e]; injection H as <- <-.
    + right. exists l'. by rewrite lookup_insert_eq.
    + left. by exists e.
  - intros H. left. split; [done|].
    destruct (m !! CapabilityLeaseKey_new scope id) as [l1|]; [|by injection H as <- _].
    destruct (f l1); injection H as <- _; [by rewrite lookup_insert_ne|done].
Qed.

Lemma lease_call_moves m op now m' r k l :
  m !! k = Some l -> is_issue_of k op = false -> lease_call m op now = (m', r) ->
  exists l', m' !! k = Some l' /\ lease_moves k op now l l' r.
Proof.
  intros Hk Hi. destruct op as [l1|scope id|scope id fp|scope id]; cbn [lease_call].
  - intros [= <- <-]. simpl in Hi. apply bool_decide_eq_false in Hi. exists l.
    rewrite lookup_insert_ne by done. split; [done|]. by apply moves_other.
  - intros H. apply (lease_update_at _ _ _ _ k l) in H; [|done].
    destruct H as [[Hne H]|[Heq [(e & _ & -> & H)|(l' & Hf & -> & H)]]]; eexists; (split; [done|]);
      [by apply moves_other|apply moves_fail|].
    injection Hf as <-. by eapply moves_revoke.
  - intros H. apply (lease_update_at _ _ _ _ k l) in H; [|done].
    destruct H as [[Hne H]|[Heq [(e & _ & -> & H)|(l' & Hf & -> & H)]]]; eexists; (split; [done|]);
      [by apply moves_other|apply moves_fail|by eapply moves_claim].
  - intros H. apply (lease_update_at _ _ _ _ k l) in H; [|done].
    destruct H as [[Hne H]|[Heq [(e & _ & -> & H)|(l' & Hf & -> & H)]]]; eexists; (split; [done|]);
      [by apply moves_other|apply moves_fail|by eapply moves_consume].
Qed.

(** Only an issue puts a lease at a key that has none. *)
Lemma lease_call_missing m op now m' r k :
  m !! k = None -> is_issue_of k op = false -> lease_call m op now = (m', r) ->
  m' !! k = None /\ (is_claim_of k op = true -> is_ok r = false).
Proof.
  intros Hk Hi. assert (forall scope id f, lease_update m scope id f = (m', r) -> m' !! k = None
    /\ (CapabilityLeaseKey_new scope id = k -> is_ok r = false)) as Hup.
  { intros scope id f. unfold lease_update.
    destruct (decide (CapabilityLeaseKey_new scope id = k)) as [->|Hne];
      [rewrite Hk; by intros [= <- <-]|].
    destruct (m !! CapabilityLeaseKey_new scope id) as [l|]; [destruct (f l)|];
      intros [= <- <-]; (split; [|done]); rewrite ?lookup_insert_ne; done. }
  destruct op as [l| | |]; cbn [lease_call].
  - intros [= <- <-]. simpl in Hi. apply bool_decide_eq_false in Hi.
    split; [by rewrite lookup_insert_ne | done].
  - intros [H _]%Hup. by split.
  - intros [H Hno]%Hup. split; [done|]. intros Hc%bool_decide_eq_true. by apply Hno.
  - intros [H _]%Hup. by split.
Qed.

Lemma claim_lease_ok fp now l l' :
  claim_lease fp now l = Ok l' ->
  cl_status l = LActive /\ cl_invocation_fingerprint l = Some fp /\ l' = set_status l LClaimed.
Proof.
  unfold claim_lease, ensure_claimable. case_bool_decide as H1; [|done].
  case_bool_decide as H2; [|done]. simpl.
  destruct (ensure_not_expired_or_exhausted l now); [|done]. by intros [= <-].
Qed.

Lemma ensure_ok l now u : ensure_not_expired_or_exhausted l now = Ok u ->
  lease_is_expired l now = false /\ lease_remaining l <> Some 0.
Proof.
  unfold ensure_not_expired_or_exhausted. destruct (lease_is_expired l now); [done|].
  by case_bool_decide.
Qed.

Lemma consume_lease_ok now l l' :
  consume_lease now l = Ok l' ->
  finished l = false /\ lease_is_expired l now = false /\ lease_remaining l <> Some 0 /\
  cl_invocation_fingerprint l' = cl_invocation_fingerprint l /\
  match cl_invocation_fingerprint l with
  | Some _ => cl_status l = LClaimed /\ cl_status l' = LConsumed /\
      lease_remaining l' = (fun _ => 0) <$> lease_remaining l
  | None => lease_remaining l' = (fun n => n - 1) <$> lease_remaining l
  end.
Proof.
  unfold consume_lease, ensure_consumable. intros H.
  destruct (cl_status l) eqn:Es; try done; simpl in H.
  - destruct (cl_invocation_fingerprint l) as [fp|] eqn:Ef.
    + rewrite bool_decide_eq_true_2 in H by eauto. done.
    + rewrite bool_decide_eq_false_2 in H by (intros [? ?]; done). simpl in H.
      destruct (ensure_not_expired_or_exhausted l now) eqn:En; [|done].
      apply ensure_ok in En as [? ?]. unfold finished. rewrite Es.
      destruct (lease_remaining l) as [n|] eqn:Er; simpl in H;
        [destruct (n - 1 =? 0)|]; injection H as <-; split_and!; try done;
        unfold lease_remaining in *; simpl; by rewrite ?Er.
  - rewrite andb_false_r in H.
    destruct (ensure_not_expired_or_exhausted l now) eqn:En; [|done].
    apply ensure_ok in En as [? ?]. unfold finished. rewrite Es.
    destruct (cl_invocation_fingerprint l) as [fp|] eqn:Ef.
    + injection H as <-. destruct (lease_remaining l) as [n|] eqn:Er; split_and!; try done.
    + destruct (lease_remaining l) as [n|] eqn:Er; simpl in H;
        [destruct (n - 1 =? 0)|]; injection H as <-; split_and!; try done;
        unfold lease_remaining in *; simpl; by rewrite ?Er.
Qed.

Definition claimed_with (k : CapabilityLeaseKey) (fp : InvocationFingerprint) (op : LeaseOp) : Prop :=
  match op with
  | LClaim scope id fp' => CapabilityLeaseKey_new scope id = k -> fp' = fp
  | _ => True
  end.

Definition in_status (l : CapabilityLease) (st : CapabilityLeaseStatus) : Z :=
  b2z (bool_decide (cl_status l = st)).

(** How one call moves the measures: a use costs one, nothing gives a use back. *)
Record measured (k : CapabilityLeaseKey) (op : LeaseOp) (l l' : CapabilityLease)
    (consumed claimed : Z) (ok : bool) : Prop := {
  me_remaining : remaining_ok l';
  me_fingerprint : cl_invocation_fingerprint l' = cl_invocation_fingerprint l;
  me_uses : forall n, uses_left l = Some n -> exists n', uses_left l' = Some n' /\
    0 <= n' /\ n' + consumed <= n;
  me_claims : forall fp, cl_invocation_fingerprint l = Some fp ->
    claimed + in_status l' LActive <= in_status l LActive /\
    consumed + in_status l' LClaimed <= claimed + in_status l LClaimed /\
    (ok = true -> claimed_with k fp op) }.

Lemma uses_left_nonneg l n : remaining_ok l -> uses_left l = Some n -> 0 <= n.
Proof.
  unfold uses_left. intros Hr. destruct (finished l); [by intros [= <-]|].
  destruct (cl_invocation_fingerprint l); [by intros [= <-]|]. apply Hr.
Qed.

Lemma measured_same k op l ok :
  remaining_ok l -> (ok = true -> forall fp, claimed_with k fp op) -> measured k op l l 0 0 ok.
Proof.
  intros Hr Hc. split; [done..| |].
  - intros n Hn. exists n. pose proof (uses_left_nonneg l n Hr Hn). split_and!; [done|lia..].
  - intros fp _. split_and!; [lia..|]. intros Hok. by apply Hc.
Qed.

Lemma measured_consume k op now l l' ok :
  remaining_ok l -> (forall fp, claimed_with k fp op) -> consume_lease now l = Ok l' ->
  measured k op l l' 1 0 ok.
Proof.
  intros Hr Hcw Hc. apply consume_lease_ok in Hc as (Hfin & _ & Hrem & Hfp & Hc).
  destruct (cl_invocation_fingerprint l) as [fp|] eqn:Ef.
  - destruct Hc as (Hcl & Hco & Hr'). split.
    + intros n Hn. rewrite Hr' in Hn. apply fmap_Some in Hn as (n0 & _ & ->). lia.
    + by rewrite Ef.
    + unfold uses_left. rewrite Hfin, Ef. intros n [= <-]. exists 0.
      unfold finished. rewrite Hco. split_and!; [done|lia..].
    + intros fp' _. unfold in_status. rewrite Hcl, Hco. simpl.
      split_and!; [lia..|]. intros _. apply Hcw.
  - split; [|by rewrite Ef| |by intros fp; rewrite Ef].
    + intros n Hn. rewrite Hc in Hn. apply fmap_Some in Hn as (n0 & Hn0 & ->).
      specialize (Hr n0 Hn0). assert (n0 <> 0) by (intros ->; done). lia.
    + unfold uses_left. rewrite Hfin, Ef, Hfp. intros n Hn.
      specialize (Hr n Hn). assert (n <> 0) by (intros ->; done).
      destruct (finished l'); [exists 0; split_and!; [done|lia..]|].
      rewrite Hc, Hn. simpl. eexists. split; [done|]. lia.
Qed.

Lemma lease_moves_measured k op now l l' r :
  remaining_ok l -> lease_moves k op now l l' r ->
  measured k op l l' (b2z (is_consume_of k op && is_ok r)) (b2z (is_claim_of k op && is_ok r))
    (is_ok r).
Proof.
  intros Hr [r' Hne|e|scope id -> Hk|scope id fp l1 -> Hk Hc|scope id l1 -> Hk Hc].
  - assert (is_consume_of k op = false /\ is_claim_of k op = false) as [-> ->].
    { destruct op; simpl in *; rewrite ?bool_decide_eq_false_2 by done; done. }
    apply measured_same; [done|]. intros _ fp. by destruct op; simpl in *; try done; intros ?; destruct Hne.
  - rewrite !andb_false_r. by apply measured_same.
  - simpl. split; [done|done| |].
    + intros n Hn. exists 0. pose proof (uses_left_nonneg l n Hr Hn).
      split_and!; [done|lia..].
    + intros fp _. unfold in_status. simpl.
      destruct (bool_decide (cl_status l = LActive)), (bool_decide (cl_status l = LClaimed));
        split_and!; done || (simpl; lia).
  - apply claim_lease_ok in Hc as (Ha & Hfp & ->). simpl in *. rewrite bool_decide_eq_true_2 by done.
    simpl. split; [done|done| |].
    + unfold uses_left, finished. rewrite Ha, Hfp. intros n [= <-]. simpl. rewrite Hfp.
      exists 1. split_and!; [done|lia..].
    + intros fp' Hfp'. unfold in_status. simpl. rewrite Ha. simpl. split_and!; [lia..|].
      intros _ _. rewrite Hfp in Hfp'. by injection Hfp'.
  - simpl in *. rewrite bool_decide_eq_true_2 by done. simpl. by apply (measured_consume _ _ now).
Qed.

Lemma successes_cons p op r tr :
  successes p ((op, r) :: tr) = b2z (p op && is_ok r) + successes p tr.
Proof. unfold successes. simpl. destruct (p op && is_ok r); simpl; lia. Qed.

Lemma successes_nonneg p tr : 0 <= successes p tr.
Proof. unfold successes. lia. Qed.

Lemma lease_run_bounds ops m k l :
  m !! k = Some l -> remaining_ok l ->
  Forall (fun '(op, _) => is_issue_of k op = false) ops ->
  let '(m', tr) := lease_run m ops in
  is_Some (m' !! k) /\
  (forall n, uses_left l = Some n -> successes (is_consume_of k) tr <= n) /\
  (forall fp, cl_invocation_fingerprint l = Some fp ->
     successes (is_claim_of k) tr <= in_status l LActive /\
     successes (is_consume_of k) tr <= successes (is_claim_of k) tr + in_status l LClaimed /\
     Forall (fun '(op, r) => is_ok r = true -> claimed_with k fp op) tr).
Proof.
  revert m l. induction ops as [|[op now] ops IH]; intros m l Hk Hr Hno; cbn [lease_run].
  { split; [by eexists|]. unfold successes, in_status. simpl. split.
    - intros n. by apply uses_left_nonneg.
    - intros fp _. split_and!; [by destruct (bool_decide _)..|constructor]. }
  apply Forall_cons in Hno as [Hop Hno].
  destruct (lease_call m op now) as [m1 r] eqn:Ecall.
  destruct (lease_call_moves m op now m1 r k l Hk Hop Ecall) as (l1 & Hk1 & Hmv).
  destruct (lease_moves_measured _ _ _ _ _ _ Hr Hmv) as [Hr1 Hfp1 Huses Hcl].
  specialize (IH m1 l1 Hk1 Hr1 Hno). destruct (lease_run m1 ops) as [m2 tr].
  destruct IH as (Hs & Hu & Hf). rewrite Hfp1 in Hf. split; [done|]. split.
  - intros n Hn. destruct (Huses n Hn) as (n' & Hn' & _ & Hle). rewrite successes_cons.
    specialize (Hu n' Hn'). lia.
  - intros fp Hfp. destruct (Hcl fp Hfp) as (H1 & H2 & H3), (Hf fp Hfp) as (F1 & F2 & F3).
    rewrite !successes_cons. split_and!; [lia..|]. by constructor.
Qed.

(** A claim can succeed: the lease is active and bears a fingerprint. *)
Definition claimable (l : CapabilityLease) : bool :=
  bool_decide (cl_status l = LActive) && bool_decide (is_Some (cl_invocation_fingerprint l)).

Definition claimable_at (m : LeaseMap) (k : CapabilityLeaseKey) : Z :=
  b2z (match m !! k with Some l => claimable l | None => false end).

Lemma b2z_bounds b : 0 <= b2z b <= 1.
Proof. destruct b; simpl; lia. Qed.

(** A claim ends it, and no transition of the lease brings it back. *)
Lemma lease_moves_claimable k op now l l' r :
  lease_moves k op now l l' r ->
  b2z (is_claim_of k op && is_ok r) + b2z (claimable l') <= b2z (claimable l).
Proof.
  unfold claimable. intros [r' Hne|e|scope id -> Hk|scope id fp l1 -> Hk Hc|scope id l1 -> Hk Hc].
  - assert (is_claim_of k op = false) as ->; [|simpl; lia].
    destruct op; simpl in *; rewrite ?bool_decide_eq_false_2 by done; done.
  - rewrite andb_false_r. simpl. lia.
  - pose proof (b2z_bounds (bool_decide (cl_status l = LActive) && bool_decide (is_Some (cl_invocation_fingerprint l)))).
    simpl. lia.
  - apply claim_lease_ok in Hc as (Ha & Hfp & ->). simpl in *.
    rewrite (bool_decide_eq_true_2 _ Hk), (bool_decide_eq_true_2 _ Ha), Hfp. simpl. lia.
  - apply consume_lease_ok in Hc as (_ & _ & _ & -> & Hc). simpl.
    destruct (cl_invocation_fingerprint l); simpl; [|rewrite !andb_false_r; simpl; lia].
    destruct Hc as (-> & -> & _). simpl. lia.
Qed.

(** Over any run of store calls, a key is claimed at most once for each lease issued
    under it, counting one that was claimable at the start. *)
Lemma claims_bounded_by_issues ops m k :
  successes (is_claim_of k) (lease_run m ops).2
  <= claimable_at m k + successes (is_issue_of k) (lease_run m ops).2.
Proof.
  revert m. induction ops as [|[op now] ops IH]; intros m; cbn [lease_run snd].
  { unfold claimable_at, successes. simpl. pose proof (b2z_bounds
      (match m !! k with Some l => claimable l | None => false end)). lia. }
  destruct (lease_call m op now) as [m1 r] eqn:Ecall. specialize (IH m1).
  destruct (lease_run m1 ops) as [m2 tr]. cbn [snd] in *. rewrite !successes_cons.
  enough (b2z (is_claim_of k op && is_ok r) + claimable_at m1 k
    <= claimable_at m k + b2z (is_issue_of k op && is_ok r)) by lia.
  unfold claimable_at in *. destruct (is_issue_of k op) eqn:Hi.
  - destruct op as [l| | |]; try done. injection Ecall as <- <-. simpl.
    pose proof (b2z_bounds (match m !! k with Some l => claimable l | None => false end)).
    pose proof (b2z_bounds (match <[lease_key l:=l]> m !! k with Some l => claimable l | None => false end)).
    lia.
  - destruct (m !! k) as [l|] eqn:Hk.
    + destruct (lease_call_moves m op now m1 r k l Hk Hi Ecall) as (l1 & -> & Hmv).
      apply lease_moves_claimable in Hmv. simpl. lia.
    + assert (m1 !! k = None /\ (is_claim_of k op = true -> is_ok r = false)) as [-> Hno].
      { by eapply lease_call_missing. }
      destruct (is_claim_of k op); simpl; [rewrite Hno by done; simpl; lia | lia].
Qed.

(** The uses of a lease are bounded by what it was issued with.  Over any run
    of store calls, at any clock, in which the lease's key is not issued again:
    the lease stays in the store, and the number of successful consumes of it is
    at most the uses it had left (its remaining invocations; one if it is bound to
    a fingerprint; none once it is consumed or revoked).  For a lease bound to a
    fingerprint, moreover, at most one claim succeeds, every successful claim
    carries exactly its fingerprint, and a consume succeeds only after a
    successful claim (or if the lease was claimed at the start). *)
Theorem lease_uses_bounded ops m k l :
  m !! k = Some l -> remaining_ok l ->
  Forall (fun '(op, _) => is_issue_of k op = false) ops ->
  let '(m', tr) := lease_run m ops in
  is_Some (m' !! k) /\
  (forall n, uses_left l = Some n -> successes (is_consume_of k) tr <= n) /\
  (forall fp, cl_invocation_fingerprint l = Some fp ->
     successes (is_claim_of k) tr <= in_status l LActive /\
     successes (is_consume_of k) tr <= successes (is_claim_of k) tr + in_status l LClaimed /\
     Forall (fun '(op, r) => is_ok r = true -> claimed_with k fp op) tr).
Proof. apply lease_run_bounds. Qed.

(** ** Ambient grants *)

Definition scope_of_context (context : ExecutionContext) (l : CapabilityLease) : Prop :=
  rs_tenant_id (cl_scope l) = rs_tenant_id (ec_resource_scope context) /\
  rs_user_id (cl_scope l) = rs_user_id (ec_resource_scope context) /\
  rs_agent_id (cl_scope l) = rs_agent_id (ec_resource_scope context) /\
  rs_project_id (cl_scope l) = rs_project_id (ec_resource_scope context) /\
  rs_thread_id (cl_scope l) = rs_thread_id (ec_resource_scope context) /\
  rs_invocation_id (cl_scope l) = ec_invocation_id context.

(** A stored lease gives a caller an ambient grant exactly when it was issued
    for the caller's tenant, user, agent, project and thread and for this very
    invocation, is active, has not expired, has an invocation left, and is not
    bound to a fingerprint; no other grant is ever returned. *)
Theorem active_grants_exact m context now g :
  g ∈ active_grants_for_context m context now <->
  exists k l, m !! k = Some l /\ cl_grant l = g /\ scope_of_context context l /\
    cl_status l = LActive /\ cl_invocation_fingerprint l = None /\
    (forall t, lease_expires_at l = Some t -> now < t) /\ lease_remaining l <> Some 0.
Proof.
  unfold active_grants_for_context, active_leases_for_context, leases_for_scope.
  rewrite list_elem_of_fmap. split.
  - intros (l & -> & Hin). apply list_elem_of_In, filter_In in Hin as [Hin Hfp].
    apply filter_In in Hin as [Hin Hauth].
    apply list_elem_of_In, elem_of_sorted_values in Hin as (k & Hin & Hown).
    apply bool_decide_eq_true in Hfp. unfold lease_is_authorizing, same_scope_owner in *.
    rewrite !andb_true_iff, !negb_true_iff, !bool_decide_eq_true in *.
    destruct Hown as [[[[]]]], Hauth as [[[] Hexp] Hrem].
    exists k, l. unfold scope_of_context. split_and!; try done.
    + intros t Ht. unfold lease_is_expired in Hexp. rewrite Ht in Hexp. lia.
    + by apply bool_decide_eq_false in Hrem.
  - intros (k & l & Hk & <- & Hsc & Hst & Hfp & Hexp & Hrem). exists l. split; [done|].
    apply list_elem_of_In, filter_In. split; [|by apply bool_decide_eq_true].
    destruct Hsc as (? & ? & ? & ? & ? & ?).
    apply filter_In. split.
    + apply list_elem_of_In, elem_of_sorted_values. exists k. split; [done|].
      unfold same_scope_owner. by rewrite !bool_decide_eq_true_2.
    + unfold lease_is_authorizing. rewrite !bool_decide_eq_true_2 by done.
      rewrite bool_decide_eq_false_2 by done. unfold lease_is_expired.
      destruct (lease_expires_at l) as [t|] eqn:Et; [|done].
      specialize (Hexp t eq_refl). destruct (t <=? now) eqn:E; [lia|done].
Qed.

End Leases.

(** ** Evaluation: a lease bound to a fingerprint, and a lease of two invocations *)

Module LeaseExample.

Definition grant (n : Z) : CapabilityGrant :=
  mk_CapabilityGrant (from_uuid n) (mk_CapabilityId "files.read") PHostRuntime PHostRuntime
    (mk_GrantConstraints [ReadFilesystem] (mk_MountView []) NetworkPolicy_default [] None
       (Some 100) (Some 2)).
Definition scope : ResourceScope := ResourceScope_system (from_uuid 7).
Definition fp : InvocationFingerprint := mk_InvocationFingerprint "sha256:aa".
Definition bound : CapabilityLease := mk_CapabilityLease scope (grant 1) (Some fp) LActive.
Definition store : gmap CapabilityLeaseKey CapabilityLease := {[ lease_key bound := bound ]}.
Definition ops : list (LeaseOp * Z) :=
  [(LConsume scope (from_uuid 1), 1); (LClaim scope (from_uuid 1) fp, 2);
   (LConsume scope (from_uuid 1), 3); (LConsume scope (from_uuid 1), 4)].

End LeaseExample.

Lemma lease_uses_bounded_witness :
  successes (is_consume_of (lease_key LeaseExample.bound))
    (lease_run LeaseExample.store LeaseExample.ops).2 = 1.
Proof.
  assert (remaining_ok LeaseExample.bound) as Hr by (intros n [= <-]; done).
  assert (Forall (fun '(op, _) => is_issue_of (lease_key LeaseExample.bound) op = false)
    LeaseExample.ops) as Hno by (repeat constructor).
  pose proof (lease_uses_bounded LeaseExample.ops LeaseExample.store
    (lease_key LeaseExample.bound) LeaseExample.bound eq_refl Hr Hno) as H.
  destruct (lease_run LeaseExample.store LeaseExample.ops) as [m' tr] eqn:E.
  destruct H as (_ & Hle & _). specialize (Hle 1 eq_refl).
  apply Z.le_antisymm; [exact Hle|].
  apply (f_equal snd) in E. cbn [snd] in E |- *. rewrite <- E.
  vm_compute. discriminate.
Defined.
