(* ===== verification/LeaseStore.v ===== *)
(** * The filesystem lease store under concurrency

    [FilesystemCapabilityLeaseStore] of
    [crates/brassclaw_authorization/src/lib.rs]: a lease is one entry of the
    filesystem, and [revoke], [claim] and [consume] run a bounded
    read, change, compare-and-swap loop ([update_lease_cas]) with no lock shared
    between processes.  A process is a state machine whose steps are the single
    backend calls of the loop; any number of processes interleave, together with
    other writers.  The store is used through the interface [EntryStore], which
    the in-memory backend of [Filesystem] implements, and a backend that loses
    acknowledgements ([Lossy]: a put that was carried out answers an error); the text of a record is
    [serde_json] (class [LeaseCodec]).  The theorem: every step of a process
    either leaves all entries as they are or is the atomic transition of the
    in-memory store on the current lease, a process that returns a lease has made
    exactly that transition, and one that returns an error has made none, or one whose
    acknowledgement the backend lost. *)

From S2P Require Import Prelude External HostIds Paths HostTypes Filesystem Leases.

Open Scope Z_scope.

(** ** What a lease store needs of a filesystem *)

Class EntryStore `{BodyHash} (S : Type) : Type := {
  es_get : S -> VirtualPath -> result (option VersionedEntry) FilesystemError;
  es_put : S -> VirtualPath -> Entry -> CasExpectation -> Z ->
    S * result RecordVersion FilesystemError;
  es_ensure_index : S -> VirtualPath -> IndexSpec -> S * result unit FilesystemError }.

(** What a put asks of the entry it finds. *)
Definition expects `{BodyHash} (c : CasExpectation) (found : option (Entry * RecordVersion)) : Prop :=
  match c with
  | CasAny => True
  | CasAbsent => found = None
  | CasVersion w => exists e0, found = Some (e0, w)
  | CasVersionAndBody w h => exists e0, found = Some (e0, w) /\ h = for_body (entry_body e0)
  end.

(** The put of [e] at [key] under the condition [c] was carried out, at version [n]. *)
Record put_written `{BodyHash} (before after : string -> option (Entry * RecordVersion)) (key : string)
    (e : Entry) (c : CasExpectation) (n : RecordVersion) : Prop := {
  pw_expected : expects c (before key);
  pw_stored : after key = Some (e, n);
  pw_others : forall k, k <> key -> after k = before k;
  pw_grows : forall e0 n0, before key = Some (e0, n0) -> n0 < n }.

(** The errors with which a backend refuses a put.  After any other error the outcome is
    unknown: the acknowledgement of a put that was carried out can be lost. *)
Definition put_refused (x : FilesystemError) : bool :=
  match x with FsVersionMismatch _ _ _ | FsUnsupported _ _ => true | _ => false end.

Class EntryStoreLaws `{BodyHash} (S : Type) {ES : EntryStore S} : Type := {
  es_at : S -> string -> option (Entry * RecordVersion);
  es_get_at s v o : es_get s v = Ok o ->
    (fun e => (ve_entry e, ve_version e)) <$> o = es_at s (vp_str v);
  es_put_ok s v e c t s' n : es_put s v e c t = (s', Ok n) ->
    put_written (es_at s) (es_at s') (vp_str v) e c n;
  es_put_err s v e c t s' x : es_put s v e c t = (s', Err x) ->
    (forall k, es_at s' k = es_at s k)
    \/ put_refused x = false /\ exists n, put_written (es_at s) (es_at s') (vp_str v) e c n;
  es_index_at s v spec s' r : es_ensure_index s v spec = (s', r) ->
    forall k, es_at s' k = es_at s k }.

(** The in-memory backend. *)
#[export] Instance in_memory_store `{BodyHash} : EntryStore State := {|
  es_get s v := Ok (get s v);
  es_put := put;
  es_ensure_index := ensure_index |}.

Section InMemory.
Context `{BH : BodyHash}.

Lemma put_effect s v e c t s' n : put s v e c t = (s', Ok n) ->
  expectation_holds c (entries s !! vp_str v) /\
  (forall st, entries s !! vp_str v = Some st -> n = st_version st + 1) /\
  s' = with_entries s (<[vp_str v := mk_StoredEntry e n t]> (entries s)).
Proof.
  unfold put, put_entry. simpl.
  destruct (validate_file_namespace s v WriteFile) as [[]|]; [|done].
  destruct (check_cas v c _) as [[]|] eqn:Ec; [|done].
  destruct (next_version _ _ _) as [w|] eqn:Ew; [|done]. intros [= <- <-].
  split; [by apply check_cas_spec in Ec|]. split; [|done].
  intros st Hst. by eapply next_version_step.
Qed.

#[export] Program Instance in_memory_store_laws : EntryStoreLaws State := {|
  es_at s k := (fun st => (st_entry st, st_version st)) <$> entries s !! k |}.
Next Obligation.
  intros s v o. simpl. intros [= <-]. unfold get. by destruct (entries s !! vp_str v).
Qed.
Next Obligation.
  intros s v e c t s' n H. apply put_effect in H as (Hw & Hn & ->). simpl.
  split; simpl; [|by rewrite lookup_insert_eq| |].
  - destruct c as [|w|w h|]; simpl in *; [by rewrite Hw| | | done].
    + apply fmap_Some in Hw as (st & -> & ->). by eexists.
    + destruct Hw as (st & -> & <- & ->). by eexists.
  - intros k Hk. by rewrite lookup_insert_ne.
  - intros e0 n0 H0. apply fmap_Some in H0 as (st & Hst & [= -> ->]).
    rewrite (Hn st Hst). lia.
Qed.
Next Obligation. intros s v e c t s' x H. left. by apply put_entry_err in H as ->. Qed.
Next Obligation.
  intros s v spec s' r. simpl. unfold ensure_index.
  destruct (spec_kind spec) as [| | |[]]; repeat destruct (List.find _ _);
    by intros [= <- _] k.
Qed.

End InMemory.

(** A backend behind a connection that can lose the answer of a put: the log says which
    acknowledgements are lost ([CommitError] of a database backend). *)
Record Lossy `{BodyHash} (B : Type) : Type := mk_Lossy { lossy_store : B; lossy_drops : list bool }.
Arguments mk_Lossy {_ _} _ _.
Arguments lossy_store {_ _} _.
Arguments lossy_drops {_ _} _.

Section LossyStore.
Context `{BH : BodyHash} {B : Type} `{ES : !EntryStore B} `{ESL : !EntryStoreLaws B}.

Definition lost_acknowledgement (v : VirtualPath) : FilesystemError :=
  FsBackend v WriteFile "connection lost".

#[export] Instance lossy : EntryStore (Lossy B) := {|
  es_get (s : Lossy B) v := es_get (lossy_store s) v;
  es_put (s : Lossy B) v e c t :=
    let '(s1, r) := es_put (lossy_store s) v e c t in
    match lossy_drops s, r with
    | true :: drops, Ok _ => (mk_Lossy s1 drops, Err (lost_acknowledgement v))
    | drops, r => (mk_Lossy s1 (List.tl drops), r)
    end;
  es_ensure_index (s : Lossy B) v spec :=
    let '(s1, r) := es_ensure_index (lossy_store s) v spec in (mk_Lossy s1 (lossy_drops s), r) |}.

#[export] Program Instance lossy_laws : EntryStoreLaws (Lossy B) := {|
  es_at (s : Lossy B) k := es_at (lossy_store s) k |}.
Next Obligation. intros s v o. simpl. apply es_get_at. Qed.
Next Obligation.
  intros s v e c t s' n. simpl. destruct (es_put _ v e c t) as [s1 r] eqn:Hput.
  destruct (lossy_drops s) as [|[] drops], r; intros [= <- <-]; by eapply es_put_ok.
Qed.
Next Obligation.
  intros s v e c t s' x. simpl. destruct (es_put _ v e c t) as [s1 r] eqn:Hput.
  destruct (lossy_drops s) as [|[] drops], r; intros [= <- <-]; try by eapply es_put_err.
  right. split; [done|]. eexists. by eapply es_put_ok.
Qed.
Next Obligation.
  intros s v spec s' r. simpl. destruct (es_ensure_index _ v spec) as [s1 r1] eqn:Hi.
  intros [= <- <-]. by eapply es_index_at.
Qed.

End LossyStore.

(** ** Records and paths *)

(** [serde_json::to_vec_pretty] and [from_slice] on a lease. *)
Class LeaseCodec `{Decimal} : Type := {
  serialize_pretty : CapabilityLease -> result string string;
  deserialize : string -> result CapabilityLease string }.

Class LeaseCodecLaws `{Decimal} (LC : LeaseCodec) : Prop := {
  deserialize_serialize l b : serialize_pretty l = Ok b -> deserialize b = Ok l }.

Definition CAS_RETRY_ATTEMPTS : nat := 3.
Definition LEASES_PREFIX : string := "/authorization/leases".

Section Store.
Context `{D : Decimal} `{BH : BodyHash} {St : Type} `{ES : !EntryStore St}.
Context `{LC : !LeaseCodec} `{UT : UuidText}.

(** The view of a scope, and the [Display] text of a filesystem error. *)
Variable resolver : ResourceScope -> result MountView HostApiError.
Variable fs_display : FilesystemError -> string.

Definition lease_owner_prefix (scope : ResourceScope) : ScopedPath :=
  mk_ScopedPath (LEASES_PREFIX +:+ "/" +:+ within_tenant_segment scope).

Definition lease_path (scope : ResourceScope) (id : CapabilityGrantId) : ScopedPath :=
  mk_ScopedPath (LEASES_PREFIX +:+ "/" +:+ within_tenant_segment scope +:+ "/"
    +:+ uuid_text (as_uuid (rs_invocation_id scope)) +:+ "/"
    +:+ uuid_text (as_uuid id) +:+ ".json").

Definition resolve_with_permission (scope : ResourceScope) (path : ScopedPath)
    (operation : FilesystemOperation) : result VirtualPath FilesystemError :=
  match resolver scope with
  | Err e => Err (FsContract e)
  | Ok view => resolve_with_permission_view view path operation
  end.

Definition lease_persistence_error (e : FilesystemError) : CapabilityLeaseError :=
  match e with
  | FsVersionMismatch _ _ _ => VersionMismatch
  | _ => Persistence (fs_display e)
  end.

Definition tenant_index : IndexSpec :=
  mk_IndexSpec "authorization_by_tenant" ["tenant_id"] IndexExact.

(** The entry of a lease, with and without the tenant projection. *)
Definition opaque_lease_entry (body : string) : Entry :=
  with_content_type (Entry_bytes body) "application/json".
Definition lease_entry (l : CapabilityLease) (body : string) : Entry :=
  with_indexed (opaque_lease_entry body) "tenant_id"
    (IxText (as_str (rs_tenant_id (cl_scope l)))).

(** ** One process running [update_lease_cas] *)

Inductive LeaseTask : Type := TaskRevoke | TaskClaim (fp : InvocationFingerprint) | TaskConsume.

(** The closure the store method passes to the loop. *)
Definition mutate (task : LeaseTask) (now : Z) (l : CapabilityLease) :
    result CapabilityLease CapabilityLeaseError :=
  match task with
  | TaskRevoke => revoke_lease l
  | TaskClaim fp => claim_lease fp now l
  | TaskConsume => consume_lease now l
  end.

(** Where a process is: about to read, to declare the index, to write, to write
    again without the projection, or returned.  [attempts] counts the rounds of
    the loop still to come after this one. *)
Inductive proc : Type :=
| PRead (attempts : nat)
| PIndex (attempts : nat) (l' : CapabilityLease) (version : RecordVersion)
| PPut (attempts : nat) (l' : CapabilityLease) (body : string) (version : RecordVersion)
| PPutOpaque (attempts : nat) (l' : CapabilityLease) (body : string) (version : RecordVersion)
| PDone (r : result CapabilityLease CapabilityLeaseError).

(** An error of a write: a version mismatch goes to the next round. *)
Definition write_failed (attempts : nat) (e : FilesystemError) : proc :=
  match lease_persistence_error e with
  | VersionMismatch => PRead attempts
  | err => PDone (Err err)
  end.

Definition unsupported_cas : string :=
  "filesystem capability lease store: backend does not support versioned compare-and-swap".

Definition proc_step (scope : ResourceScope) (id : CapabilityGrantId) (task : LeaseTask) (now : Z)
    (s : St) (p : proc) : St * proc :=
  match p with
  | PRead 0 => (s, PDone (Err CasExhausted))
  | PRead (S attempts) =>
      match resolve_with_permission scope (lease_path scope id) ReadFile with
      | Err e => (s, PDone (Err (lease_persistence_error e)))
      | Ok v =>
          match es_get s v with
          | Err e => (s, PDone (Err (lease_persistence_error e)))
          | Ok None => (s, PDone (Err (UnknownLease id)))
          | Ok (Some versioned) =>
              match deserialize (entry_body (ve_entry versioned)) with
              | Err reason => (s, PDone (Err (Persistence reason)))
              | Ok l =>
                  match mutate task now l with
                  | Err e => (s, PDone (Err e))
                  | Ok l' => (s, PIndex attempts l' (ve_version versioned))
                  end
              end
          end
      end
  | PIndex attempts l' version =>
      match serialize_pretty l' with
      | Err reason => (s, PDone (Err (Persistence reason)))
      | Ok body =>
          match resolve_with_permission (cl_scope l') (lease_owner_prefix (cl_scope l')) EnsureIndex with
          | Err e => (s, write_failed attempts e)
          | Ok v =>
              let '(s1, r) := es_ensure_index s v tenant_index in
              match r with
              | Ok _ | Err (FsUnsupported _ _) => (s1, PPut attempts l' body version)
              | Err e => (s1, write_failed attempts e)
              end
          end
      end
  | PPut attempts l' body version =>
      match resolve_with_permission (cl_scope l') (lease_path (cl_scope l') (lease_id l')) WriteFile with
      | Err e => (s, write_failed attempts e)
      | Ok v =>
          let '(s1, r) := es_put s v (lease_entry l' body) (CasVersion version) now in
          match r with
          | Ok _ => (s1, PDone (Ok l'))
          | Err (FsUnsupported _ _) => (s1, PPutOpaque attempts l' body version)
          | Err e => (s1, write_failed attempts e)
          end
      end
  | PPutOpaque attempts l' body version =>
      match resolve_with_permission (cl_scope l') (lease_path (cl_scope l') (lease_id l')) WriteFile with
      | Err e => (s, write_failed attempts e)
      | Ok v =>
          let '(s1, r) := es_put s v (opaque_lease_entry body) (CasVersion version) now in
          match r with
          | Ok _ => (s1, PDone (Ok l'))
          | Err (FsUnsupported _ _) => (s1, PDone (Err (Persistence unsupported_cas)))
          | Err e => (s1, write_failed attempts e)
          end
      end
  | PDone r => (s, PDone r)
  end.

(** ** Interleaving *)

Record job : Type := mk_job {
  job_scope : ResourceScope; job_id : CapabilityGrantId; job_task : LeaseTask; job_proc : proc }.

Definition job_step (now : Z) (s : St) (j : job) : St * job :=
  let '(s', p') := proc_step (job_scope j) (job_id j) (job_task j) now s (job_proc j) in
  (s', mk_job (job_scope j) (job_id j) (job_task j) p').

Definition start (scope : ResourceScope) (id : CapabilityGrantId) (task : LeaseTask) : job :=
  mk_job scope id task (PRead CAS_RETRY_ATTEMPTS).

Definition returned (p : proc) : bool := match p with PDone _ => true | _ => false end.

(** The rounds left bound the steps left: four backend calls to a round. *)
Definition steps_left (p : proc) : nat :=
  match p with
  | PRead n => 4 * n + 1
  | PIndex n _ _ => 4 * n + 4
  | PPut n _ _ _ => 4 * n + 3
  | PPutOpaque n _ _ _ => 4 * n + 2
  | PDone _ => 0
  end.

Section Interleaving.
Context `{ESL : !EntryStoreLaws St} `{LCL : !LeaseCodecLaws LC}.

Definition decodes (e : Entry) (l : CapabilityLease) : Prop := deserialize (entry_body e) = Ok l.

(** A stored lease lies at the path its own scope and identifier name. *)
Definition placed (s : St) : Prop :=
  forall k e n l w, es_at s k = Some (e, n) -> decodes e l ->
    resolve_with_permission (cl_scope l) (lease_path (cl_scope l) (lease_id l)) WriteFile = Ok w ->
    vp_str w = k.

(** Entries stay, with versions that grow at every write. *)
Definition grows (s s' : St) : Prop :=
  forall k e n, es_at s k = Some (e, n) -> exists e' n', es_at s' k = Some (e', n') /\
    n <= n' /\ (n' = n -> e' = e).

(** A step of a process, or anything another writer does that keeps leases placed
    and does not delete. *)
Inductive sys_step : St * gmap nat job -> St * gmap nat job -> Prop :=
| sys_run s js i j now s' j' :
    js !! i = Some j -> returned (job_proc j) = false -> job_step now s j = (s', j') ->
    sys_step (s, js) (s', <[i := j']> js)
| sys_other s js s' : grows s s' -> placed s' -> sys_step (s, js) (s', js).

(** What a process knows of the entry it is about to replace. *)
Definition knows (s : St) (j : job) (l' : CapabilityLease) (version : RecordVersion) : Prop :=
  exists v now l e n,
    resolve_with_permission (job_scope j) (lease_path (job_scope j) (job_id j)) ReadFile = Ok v /\
    mutate (job_task j) now l = Ok l' /\
    (forall w, resolve_with_permission (cl_scope l') (lease_path (cl_scope l') (lease_id l'))
       WriteFile = Ok w -> vp_str w = vp_str v) /\
    es_at s (vp_str v) = Some (e, n) /\ version <= n /\ (n = version -> decodes e l).

Definition job_ok (s : St) (j : job) : Prop :=
  match job_proc j with
  | PIndex _ l' version => knows s j l' version
  | PPut _ l' body version | PPutOpaque _ l' body version =>
      knows s j l' version /\ serialize_pretty l' = Ok body
  | _ => True
  end.

Definition sys_ok (sys : St * gmap nat job) : Prop :=
  placed sys.1 /\ forall i j, sys.2 !! i = Some j -> job_ok sys.1 j.

Lemma mutate_keeps_identity task now l l' :
  mutate task now l = Ok l' -> cl_scope l' = cl_scope l /\ lease_id l' = lease_id l.
Proof.
  destruct task; cbn [mutate].
  - by intros [= <-].
  - intros (_ & _ & ->)%claim_lease_ok. done.
  - unfold consume_lease. destruct (ensure_consumable l now); [|done].
    destruct (cl_invocation_fingerprint l), (lease_remaining l) as [n|];
      [| |destruct (n - 1 =? 0); [|destruct (bool_decide _)]|destruct (bool_decide _)];
      by intros [= <-].
Qed.

Lemma knows_grows s s' j l' version : grows s s' -> knows s j l' version -> knows s' j l' version.
Proof.
  intros Hg (v & now & l & e & n & Hres & Hm & Hpath & Hat & Hle & Hdec).
  destruct (Hg _ _ _ Hat) as (e' & n' & Hat' & Hle' & Heq).
  exists v, now, l, e', n'. split_and!; [done..|lia|]. intros ->.
  assert (n = version) as -> by lia. rewrite Heq by done. by apply Hdec.
Qed.

Lemma job_ok_grows s s' j : grows s s' -> job_ok s j -> job_ok s' j.
Proof.
  intros Hg. unfold job_ok. destruct (job_proc j); try done.
  - by apply knows_grows.
  - intros [? ?]. split; [by eapply knows_grows|done].
  - intros [? ?]. split; [by eapply knows_grows|done].
Qed.

Lemma grows_same s s' : (forall k, es_at s' k = es_at s k) -> grows s s'.
Proof. intros Heq k e n Hk. exists e, n. rewrite Heq. split_and!; [done|lia|done]. Qed.

Lemma placed_same s s' : (forall k, es_at s' k = es_at s k) -> placed s -> placed s'.
Proof. intros Heq Hp k e n l w. rewrite Heq. apply Hp. Qed.

(** The atomic transition of a lease at its path. *)
Definition transition (s s' : St) (j : job) (l' : CapabilityLease) : Prop :=
  exists v now l e n e' n',
    resolve_with_permission (job_scope j) (lease_path (job_scope j) (job_id j)) ReadFile = Ok v /\
    es_at s (vp_str v) = Some (e, n) /\ decodes e l /\ mutate (job_task j) now l = Ok l' /\
    es_at s' (vp_str v) = Some (e', n') /\ decodes e' l' /\
    forall k, k <> vp_str v -> es_at s' k = es_at s k.

(** A write that is carried out replaces exactly the lease the process had read. *)
Lemma write_is_transition s j l' body version v e s' n :
  placed s -> knows s j l' version -> serialize_pretty l' = Ok body -> entry_body e = body ->
  resolve_with_permission (cl_scope l') (lease_path (cl_scope l') (lease_id l')) WriteFile = Ok v ->
  put_written (es_at s) (es_at s') (vp_str v) e (CasVersion version) n ->
  transition s s' j l' /\ grows s s' /\ placed s'.
Proof.
  intros Hpl (vr & now0 & l & e0 & n0 & Hres & Hm & Hpath & Hat & Hle & Hdec) Hser Hbody Hw
    [(e1 & Hat1) Hat' Hoth Hmono].
  specialize (Hpath v Hw) as Hv. rewrite Hv in *. rewrite Hat in Hat1.
  injection Hat1 as -> ->. specialize (Hdec eq_refl).
  assert (decodes e l') as Hdec'.
  { unfold decodes. rewrite Hbody. by apply deserialize_serialize. }
  split_and!.
  - by exists vr, now0, l, e1, version, e, n.
  - intros k ek nk Hk. destruct (decide (k = vp_str vr)) as [->|Hne].
    + exists e, n. rewrite Hat in Hk. injection Hk as <- <-. specialize (Hmono _ _ Hat).
      split_and!; [done|lia|lia].
    + exists ek, nk. rewrite Hoth by done. split_and!; [done|lia|done].
  - intros k ek nk lk w Hk Hdk Hrk. destruct (decide (k = vp_str vr)) as [->|Hne].
    + rewrite Hat' in Hk. injection Hk as <- <-. unfold decodes in *. rewrite Hdec' in Hdk.
      injection Hdk as <-. by apply Hpath.
    + rewrite Hoth in Hk by done. by eapply Hpl.
Qed.

(** The lease a process is about to write. *)
Definition writing (p : proc) : option CapabilityLease :=
  match p with PPut _ l' _ _ | PPutOpaque _ l' _ _ => Some l' | _ => None end.

(** The write of the process was carried out, and its acknowledgement lost: the caller gets
    the error of the filesystem. *)
Definition unacknowledged (s s' : St) (j : job) (err : CapabilityLeaseError) : Prop :=
  exists l' x, writing (job_proc j) = Some l' /\ put_refused x = false /\
    err = Persistence (fs_display x) /\ transition s s' j l'.

(** What one step of a process does. *)
Record step_ok (s s' : St) (j j' : job) : Prop := {
  so_grows : grows s s';
  so_placed : placed s';
  so_job : job_ok s' j';
  so_shape : job_scope j' = job_scope j /\ job_id j' = job_id j /\ job_task j' = job_task j;
  so_less : (steps_left (job_proc j') < steps_left (job_proc j))%nat;
  so_effect : match job_proc j' with
              | PDone (Ok l') => transition s s' j l'
              | PDone (Err err) => (forall k, es_at s' k = es_at s k) \/ unacknowledged s s' j err
              | _ => forall k, es_at s' k = es_at s k
              end }.

Lemma step_ok_quiet s s' j p' :
  placed s -> (forall k, es_at s' k = es_at s k) ->
  (steps_left p' < steps_left (job_proc j))%nat ->
  (forall l', p' <> PDone (Ok l')) ->
  job_ok s' (mk_job (job_scope j) (job_id j) (job_task j) p') ->
  step_ok s s' j (mk_job (job_scope j) (job_id j) (job_task j) p').
Proof.
  intros Hpl Hsame Hless Hno Hjob. split; simpl; [by apply grows_same|by eapply placed_same|done..|].
  destruct p' as [| | | |[l'|]]; try done; [by destruct (Hno l') | by left].
Qed.

Lemma write_failed_shape n e :
  write_failed n e = PRead n \/ exists err, write_failed n e = PDone (Err err).
Proof. unfold write_failed. destruct (lease_persistence_error e); eauto. Qed.

(** A failed backend call of a write leaves the loop or starts the next round. *)
Lemma step_ok_failed s s' j n e :
  placed s -> (forall k, es_at s' k = es_at s k) ->
  (4 * n + 1 < steps_left (job_proc j))%nat ->
  step_ok s s' j (mk_job (job_scope j) (job_id j) (job_task j) (write_failed n e)).
Proof.
  intros Hpl Hsame Hless.
  apply step_ok_quiet; [done..| | |]; destruct (write_failed_shape n e) as [-> |[err ->]];
    simpl; try done; lia.
Qed.

Lemma step_ok_done s s' j e :
  placed s -> (forall k, es_at s' k = es_at s k) -> returned (job_proc j) = false ->
  step_ok s s' j (mk_job (job_scope j) (job_id j) (job_task j) (PDone (Err e))).
Proof.
  intros Hpl Hsame Hr. apply step_ok_quiet; try done. destruct (job_proc j); simpl; done || lia.
Qed.

Lemma read_step_ok s j n now s' p' :
  placed s -> job_proc j = PRead n ->
  proc_step (job_scope j) (job_id j) (job_task j) now s (PRead n) = (s', p') ->
  step_ok s s' j (mk_job (job_scope j) (job_id j) (job_task j) p').
Proof.
  intros Hpl Hj Hrun. assert (returned (job_proc j) = false) as Hret by (by rewrite Hj).
  destruct n as [|n]; cbn [proc_step] in Hrun; [injection Hrun as <- <-; by apply step_ok_done|].
  destruct (resolve_with_permission (job_scope j) _ ReadFile) as [v|e] eqn:Ev;
    [|injection Hrun as <- <-; by apply step_ok_done].
  destruct (es_get s v) as [[ve|]|e] eqn:Eg; [|injection Hrun as <- <-; by apply step_ok_done..].
  destruct (deserialize _) as [l|] eqn:Ed; [|injection Hrun as <- <-; by apply step_ok_done].
  destruct (mutate _ now l) as [l'|] eqn:Em; [|injection Hrun as <- <-; by apply step_ok_done].
  injection Hrun as <- <-. apply es_get_at in Eg. simpl in Eg.
  apply step_ok_quiet; [done..|rewrite Hj; simpl; lia|done|]. simpl.
  destruct (mutate_keeps_identity _ _ _ _ Em) as [Hsc Hid].
  exists v, now, l, (ve_entry ve), (ve_version ve). split_and!; try done; simpl.
  intros w Hw. rewrite Hsc, Hid in Hw. by eapply Hpl.
Qed.

(** The two writes differ in the entry and in what an unsupported call means. *)
Lemma put_step_ok s j n l' body version v e now s1 r p' :
  placed s -> knows s j l' version -> serialize_pretty l' = Ok body -> entry_body e = body ->
  resolve_with_permission (cl_scope l') (lease_path (cl_scope l') (lease_id l')) WriteFile = Ok v ->
  es_put s v e (CasVersion version) now = (s1, r) ->
  writing (job_proc j) = Some l' -> (4 * n + 1 < steps_left (job_proc j))%nat ->
  match r with
  | Ok _ => p' = PDone (Ok l')
  | Err x => p' = write_failed n x \/
      (put_refused x = true /\ (forall l', p' <> PDone (Ok l')) /\ (steps_left p' < steps_left (job_proc j))%nat /\
       job_ok s (mk_job (job_scope j) (job_id j) (job_task j) p'))
  end ->
  step_ok s s1 j (mk_job (job_scope j) (job_id j) (job_task j) p').
Proof.
  intros Hpl Hk Hser Hbody Hw Hput Hwr Hless Hp. destruct r as [m|x].
  - subst p'. apply es_put_ok in Hput.
    destruct (write_is_transition _ _ _ _ _ _ _ _ _ Hpl Hk Hser Hbody Hw Hput)
      as (Ht & Hg & Hpl'). split; simpl; [done..|lia|done].
  - apply es_put_err in Hput as [Hsame|(Hx & m & Hput)].
    + destruct Hp as [->|(_ & Hno & Hlt & Hjob)]; [by apply step_ok_failed|].
      apply step_ok_quiet; [done..|]. eapply job_ok_grows; [by apply grows_same|done].
    + destruct Hp as [->|[? _] ]; [|congruence].
      destruct (write_is_transition _ _ _ _ _ _ _ _ _ Hpl Hk Hser Hbody Hw Hput)
        as (Ht & Hg & Hpl').
      assert (write_failed n x = PDone (Err (Persistence (fs_display x)))) as -> by (by destruct x).
      split; simpl; [done..|lia|]. right. by exists l', x.
Qed.

Lemma job_step_ok now s j s' j' :
  placed s -> job_ok s j -> returned (job_proc j) = false -> job_step now s j = (s', j') ->
  step_ok s s' j j'.
Proof.
  intros Hpl Hok Hret. unfold job_step.
  destruct (proc_step _ _ _ now s (job_proc j)) as [s1 p'] eqn:Hrun. intros [= <- <-].
  unfold job_ok in Hok. destruct (job_proc j) as [n|n l' v|n l' body v|n l' body v|r] eqn:Hj.
  - by eapply read_step_ok.
  - cbn [proc_step] in Hrun. destruct (serialize_pretty l') as [body|] eqn:Es;
      [|injection Hrun as <- <-; apply step_ok_done; [done..|by rewrite Hj]].
    destruct (resolve_with_permission _ _ EnsureIndex) as [w|e];
      [|injection Hrun as <- <-; apply step_ok_failed; [done..|rewrite Hj; simpl; lia]].
    destruct (es_ensure_index s w tenant_index) as [s2 r] eqn:Ei.
    pose proof (es_index_at _ _ _ _ _ Ei) as Hsame.
    assert (step_ok s s2 j (mk_job (job_scope j) (job_id j) (job_task j) (PPut n l' body v)))
      as Hput.
    { apply step_ok_quiet; [done..|rewrite Hj; simpl; lia|done|]. simpl.
      split; [by apply (knows_grows s); [apply grows_same|]|done]. }
    destruct r as [?|[]]; injection Hrun as <- <-; try done;
      (apply step_ok_failed; [done..|rewrite Hj; simpl; lia]).
  - cbn [proc_step] in Hrun. destruct Hok as [Hk Hser].
    destruct (resolve_with_permission _ _ WriteFile) as [w|e] eqn:Ew;
      [|injection Hrun as <- <-; apply step_ok_failed; [done..|rewrite Hj; simpl; lia]].
    destruct (es_put s w (lease_entry l' body) _ now) as [s2 r] eqn:Ep.
    assert (s2 = s1) as -> by (destruct r as [?|[]]; by injection Hrun).
    eapply (put_step_ok s j n l' body); try done;
      [reflexivity|by rewrite Hj|by rewrite Hj; simpl; lia|].
    destruct r as [?|x]; [by injection Hrun|].
    destruct x; injection Hrun as <-; try (by left).
    right. split_and!; [done|done|rewrite Hj; simpl; lia|done].
  - cbn [proc_step] in Hrun. destruct Hok as [Hk Hser].
    destruct (resolve_with_permission _ _ WriteFile) as [w|e] eqn:Ew;
      [|injection Hrun as <- <-; apply step_ok_failed; [done..|rewrite Hj; simpl; lia]].
    destruct (es_put s w (opaque_lease_entry body) _ now) as [s2 r] eqn:Ep.
    assert (s2 = s1) as -> by (destruct r as [?|[]]; by injection Hrun).
    eapply (put_step_ok s j n l' body); try done;
      [reflexivity|by rewrite Hj|by rewrite Hj; simpl; lia|].
    destruct r as [?|x]; [by injection Hrun|].
    destruct x; injection Hrun as <-; try (by left).
    right. split_and!; [done|done|rewrite Hj; simpl; lia|done].
  - done.
Qed.

Lemma sys_step_ok sys sys' : sys_ok sys -> sys_step sys sys' -> sys_ok sys'.
Proof.
  intros [Hpl Hjobs] Hstep. destruct Hstep as [s js i j now s' j' Hi Hret Hs|s js s' Hg Hpl'];
    simpl in *.
  - destruct (job_step_ok now s j s' j' Hpl (Hjobs i j Hi) Hret Hs) as [Hg Hp Hj _ _ _].
    split; simpl; [done|]. intros i' j1 H1.
    apply lookup_insert_Some in H1 as [[_ <-]|[_ H1]]; [done|].
    eapply job_ok_grows; [done|]. by eapply Hjobs.
  - split; simpl; [done|]. intros i j Hi. eapply job_ok_grows; [done|]. by eapply Hjobs.
Qed.

Definition fresh_jobs (js : gmap nat job) : Prop :=
  forall i j, js !! i = Some j -> job_proc j = PRead CAS_RETRY_ATTEMPTS.

Lemma reachable_sys_ok s0 js0 sys :
  placed s0 -> fresh_jobs js0 -> rtc sys_step (s0, js0) sys -> sys_ok sys.
Proof.
  intros Hpl Hf. apply (rtc_ind_r (fun sys => sys_ok sys)).
  - split; simpl; [done|]. intros i j Hi. unfold job_ok. by rewrite (Hf i j Hi).
  - intros sys1 sys2 _ Hstep Hok. by eapply sys_step_ok.
Qed.

Lemma reachable_steps_left s0 js0 sys :
  placed s0 -> fresh_jobs js0 -> rtc sys_step (s0, js0) sys ->
  forall i j, sys.2 !! i = Some j -> (steps_left (job_proc j) <= 4 * CAS_RETRY_ATTEMPTS + 1)%nat.
Proof.
  intros Hpl Hf Hrtc.
  enough (sys_ok sys /\ forall i j, sys.2 !! i = Some j ->
    (steps_left (job_proc j) <= 4 * CAS_RETRY_ATTEMPTS + 1)%nat) by naive_solver.
  revert sys Hrtc. apply rtc_ind_r.
  - split; [eapply reachable_sys_ok; [done..|reflexivity]|]. intros i j Hi.
    by rewrite (Hf i j Hi).
  - intros sys1 sys2 _ Hstep [Hok Hb]. split; [by eapply sys_step_ok|].
    destruct Hstep as [s js i j now s' j' Hi Hret Hs|s js s' Hg Hp]; [|done].
    destruct Hok as [Hpl1 Hjobs]. simpl in *.
    destruct (job_step_ok now s j s' j' Hpl1 (Hjobs i j Hi) Hret Hs) as [_ _ _ _ Hless _].
    intros i' j1 H1. apply lookup_insert_Some in H1 as [[_ <-]|[_ H1]]; [|by eapply Hb].
    specialize (Hb i j Hi). lia.
Qed.

(** ** Counting successful consumers *)

(** The process consumed the lease stored at [k] and reported success. *)
Definition consumed_at (k : string) (j : job) : bool :=
  match job_task j, job_proc j,
        resolve_with_permission (job_scope j) (lease_path (job_scope j) (job_id j)) ReadFile with
  | TaskConsume, PDone (Ok _), Ok v => bool_decide (vp_str v = k)
  | _, _, _ => false
  end.

Definition consumers (k : string) (js : gmap nat job) : Z :=
  Z.of_nat (size (filter (fun '(_, j) => consumed_at k j = true) js)).

Lemma consumers_insert k js i j j' :
  js !! i = Some j -> consumed_at k j = false ->
  consumers k (<[i := j']> js) = consumers k js + b2z (consumed_at k j').
Proof.
  intros Hi Hj. unfold consumers.
  assert (filter (fun '(_, j) => consumed_at k j = true) js !! i = None) as Hnone.
  { apply map_lookup_filter_None. right. intros x Hx. rewrite Hi in Hx. injection Hx as <-.
    by rewrite Hj. }
  destruct (consumed_at k j') eqn:E.
  - rewrite map_filter_insert_True by done. rewrite map_size_insert_None by done. simpl. lia.
  - rewrite map_filter_insert_False by (by rewrite E).
    rewrite map_filter_delete, delete_id by done. simpl. lia.
Qed.

(** The store call a task stands for. *)
Definition task_op (j : job) : LeaseOp :=
  match job_task j with
  | TaskRevoke => LRevoke (job_scope j) (job_id j)
  | TaskClaim fp => LClaim (job_scope j) (job_id j) fp
  | TaskConsume => LConsume (job_scope j) (job_id j)
  end.

Lemma mutate_uses j now l l' n :
  mutate (job_task j) now l = Ok l' -> remaining_ok l -> uses_left l = Some n ->
  remaining_ok l' /\ exists n', uses_left l' = Some n' /\ 0 <= n' /\
    n' + b2z (match job_task j with TaskConsume => true | _ => false end) <= n.
Proof.
  intros Hm Hr Hn. set (k := CapabilityLeaseKey_new (job_scope j) (job_id j)).
  assert (lease_moves k (task_op j) now l l' (Ok l')) as Hmv.
  { unfold task_op. destruct (job_task j); cbn [mutate] in Hm.
    - injection Hm as <-. by eapply moves_revoke.
    - by eapply moves_claim.
    - by eapply moves_consume. }
  destruct (lease_moves_measured _ _ _ _ _ _ Hr Hmv) as [Hr' _ Hu _].
  split; [done|]. destruct (Hu n Hn) as (n' & Hn' & Hpos & Hle). exists n'.
  split_and!; [done..|]. revert Hle. unfold task_op, is_consume_of.
  destruct (job_task j); simpl; [lia..|]. by rewrite bool_decide_eq_true_2 by done.
Qed.

(** The lease at [k] and the successes so far, against the uses it started with. *)
Definition within_uses (k : string) (n : Z) (sys : St * gmap nat job) : Prop :=
  exists e m l left, es_at sys.1 k = Some (e, m) /\ decodes e l /\ remaining_ok l /\
    uses_left l = Some left /\ 0 <= left /\ consumers k sys.2 + left <= n.

(** Other writers leave the entry at [k] alone. *)
Inductive quiet_step (k : string) : St * gmap nat job -> St * gmap nat job -> Prop :=
| quiet_run s js i j now s' j' :
    js !! i = Some j -> returned (job_proc j) = false -> job_step now s j = (s', j') ->
    quiet_step k (s, js) (s', <[i := j']> js)
| quiet_other s js s' :
    grows s s' -> placed s' -> es_at s' k = es_at s k -> quiet_step k (s, js) (s', js).

Lemma quiet_is_step k sys sys' : quiet_step k sys sys' -> sys_step sys sys'.
Proof. intros [s js i j now s' j' ? ? ?|s js s' ? ? ?]; [by eapply sys_run|by apply sys_other]. Qed.

Lemma not_returned_not_consumed k j : returned (job_proc j) = false -> consumed_at k j = false.
Proof. unfold consumed_at. intros Hr. by destruct (job_task j), (job_proc j). Qed.

Lemma quiet_step_within k n sys sys' :
  sys_ok sys -> quiet_step k sys sys' -> within_uses k n sys -> within_uses k n sys'.
Proof.
  intros [Hpl Hjobs] Hstep (e & m & l & left & Hat & Hdec & Hr & Hu & Hpos & Hle).
  destruct Hstep as [s js i j now s' j' Hi Hret Hs|s js s' Hg Hp Hsame]; simpl in *;
    [|by exists e, m, l, left; simpl; rewrite Hsame].
  destruct (job_step_ok now s j s' j' Hpl (Hjobs i j Hi) Hret Hs) as [_ _ _ (Hsc & Hid & Htask) _ Heff].
  pose proof (consumers_insert k js i j j' Hi (not_returned_not_consumed k j Hret)) as Hcount.
  assert ((forall k, es_at s' k = es_at s k) -> consumed_at k j' = false ->
    within_uses k n (s', <[i := j']> js)) as Hquiet.
  { intros Hsame Hno. rewrite Hno in Hcount. simpl in Hcount. exists e, m, l, left.
    simpl. rewrite Hsame, Hcount. split_and!; [done..|lia]. }
  assert (((forall k, es_at s' k = es_at s k) /\ consumed_at k j' = false)
    \/ exists l', transition s s' j l') as [[Hsame Hno]|(l' & Ht)].
  { unfold consumed_at. destruct (job_proc j') as [| | | |[l'|err]]; [left; split;
      [done|by destruct (job_task j')]..|by right; exists l'|].
    destruct Heff as [?|(l' & x & _ & _ & _ & Ht)]; [left|by right; exists l'].
    split; [done|by destruct (job_task j')]. }
  { by apply Hquiet. }
  destruct Ht as (v & now' & l0 & e0 & n0 & e1 & n1 & Hres & Hat0 & Hdec0 & Hm & Hat1 & Hdec1 & Hoth).
  unfold within_uses. simpl. rewrite Hcount.
  assert (consumed_at k j' = true -> job_task j = TaskConsume /\ vp_str v = k) as Hconsumed.
  { unfold consumed_at. rewrite Htask, Hsc, Hid, Hres.
    destruct (job_task j), (job_proc j') as [| | | |[]]; try done.
    by intros ?%bool_decide_eq_true. }
  destruct (decide (vp_str v = k)) as [Hv|Hv].
  - rewrite Hv in *. rewrite Hat in Hat0. injection Hat0 as <- <-.
    unfold decodes in *. rewrite Hdec in Hdec0. injection Hdec0 as <-.
    destruct (mutate_uses j now' l l' left Hm Hr Hu) as [Hr' (left' & Hu' & Hpos' & Hle')].
    exists e1, n1, l', left'. split_and!; [done..|].
    destruct (consumed_at k j') eqn:Hc; [|simpl; destruct (job_task j); simpl in *; lia].
    destruct (Hconsumed eq_refl) as [Htc _]. rewrite Htc in Hle'. simpl in *. lia.
  - exists e, m, l, left. rewrite Hoth by done. split_and!; [done..|].
    destruct (consumed_at k j') eqn:Hc; [by destruct (Hconsumed eq_refl)|simpl; lia].
Qed.

Lemma rtc_quiet_within k n sys sys' :
  sys_ok sys -> rtc (quiet_step k) sys sys' -> within_uses k n sys -> within_uses k n sys'.
Proof.
  intros Hok Hrtc. induction Hrtc as [|a b c Hstep _ IH]; [done|]. intros Hw.
  apply IH; [by eapply sys_step_ok, quiet_is_step|by eapply quiet_step_within].
Qed.

(** C32: The compare-and-swap loop of the filesystem lease store is atomic.  Any processes
    revoke, claim or consume leases, interleaved call by call, on a store where every
    entry that decodes to a lease lies at the path of its scope and identifier.  Other
    writers may do anything that keeps the leases so placed, deletes no entry, lowers no
    entry's version and puts no second entry under one version.  Then a step of a process
    changes no entry or is the atomic transition of the in-memory store: the entry at the
    lease's path is replaced by one that decodes to the lease after the transition,
    nothing else changes.  A step that returns success made the transition to the returned
    lease.  One that returns an error changed nothing, unless it was the conditional write
    and the backend answered it with an error other than a version mismatch or an
    unsupported call: the caller gets that error and the transition may have been made.
    Every process returns after at most [4 * CAS_RETRY_ATTEMPTS + 1] steps of its own. *)
Theorem cas_store_linearizable s0 js0 s js i j now s' j' :
  placed s0 -> fresh_jobs js0 -> rtc sys_step (s0, js0) (s, js) ->
  js !! i = Some j -> returned (job_proc j) = false -> job_step now s j = (s', j') ->
  (steps_left (job_proc j') < steps_left (job_proc j) <= 4 * CAS_RETRY_ATTEMPTS + 1)%nat /\
  match job_proc j' with
  | PDone (Ok l') => transition s s' j l'
  | PDone (Err err) => (forall k, es_at s' k = es_at s k) \/ unacknowledged s s' j err
  | _ => forall k, es_at s' k = es_at s k
  end.
Proof.
  intros Hpl Hf Hrtc Hi Hret Hs.
  destruct (reachable_sys_ok s0 js0 _ Hpl Hf Hrtc) as [Hpl' Hjobs].
  pose proof (reachable_steps_left s0 js0 _ Hpl Hf Hrtc i j Hi) as Hbound.
  destruct (job_step_ok now s j s' j' Hpl' (Hjobs i j Hi) Hret Hs) as [_ _ _ _ Hless Heff].
  by split.
Qed.

(** A lease is used at most as often as it allows, by all processes together:
    of any number of processes that run [consume] on the lease stored at a path,
    interleaved with each other and with claims and revocations, at most as many
    report success as the lease had uses left; for a lease bound to a
    fingerprint, at most one. *)
Theorem consume_bounded_across_processes k n s0 js0 s js e m l :
  placed s0 -> fresh_jobs js0 -> es_at s0 k = Some (e, m) -> decodes e l ->
  remaining_ok l -> uses_left l = Some n ->
  rtc (quiet_step k) (s0, js0) (s, js) -> consumers k js <= n.
Proof.
  intros Hpl Hf Hat Hdec Hr Hu Hrtc.
  assert (consumers k js0 = 0) as H0.
  { unfold consumers.
    assert (filter (fun '(_, j) => consumed_at k j = true) js0 = ∅) as ->; [|done].
    apply map_empty. intros i. apply map_lookup_filter_None. right. intros j Hi.
    unfold consumed_at. rewrite (Hf i j Hi). by destruct (job_task j). }
  assert (within_uses k n (s, js)) as (_ & _ & _ & left & _ & _ & _ & _ & Hpos & Hle).
  { eapply rtc_quiet_within; [|done|].
    - eapply reachable_sys_ok; [done..|reflexivity].
    - exists e, m, l, n. simpl. rewrite H0. split_and!; [done..| |lia].
      by eapply uses_left_nonneg. }
  simpl in Hle. lia.
Qed.

End Interleaving.

End Store.

(** ** Evaluation: a claim, then two processes consuming the claimed lease *)

Module LeaseStoreExample.
Import LeaseExample.

#[export] Instance fixed_eq_dec : EqDecision (@dec fixed_decimal).
Proof.
  intros [a Ha] [b Hb]. destruct (decide (a = b)) as [->|Hne].
  - left. f_equal. apply eq_pi. apply _.
  - right. by intros [= ?].
Defined.

#[export] Instance lease_eq_dec : EqDecision (@CapabilityLease fixed_decimal).
Proof.
  assert (EqDecision (@ResourceCeiling fixed_decimal)) by solve_decision.
  assert (EqDecision (@GrantConstraints fixed_decimal)) by solve_decision.
  assert (EqDecision (@CapabilityGrant fixed_decimal)) by solve_decision.
  solve_decision.
Defined.

Definition claimed : CapabilityLease := set_status bound LClaimed.
Definition consumed : CapabilityLease := set_status (set_remaining bound 0) LConsumed.

(** A codec that knows the three leases of the example. *)
#[export] Instance table_codec : LeaseCodec := {|
  serialize_pretty l :=
    if decide (l = bound) then Ok "bound" else if decide (l = claimed) then Ok "claimed"
    else if decide (l = consumed) then Ok "consumed" else Err "unknown";
  deserialize b :=
    if decide (b = "bound") then Ok bound else if decide (b = "claimed") then Ok claimed
    else if decide (b = "consumed") then Ok consumed else Err "unknown" |}.

#[export] Instance table_codec_laws : LeaseCodecLaws table_codec.
Proof.
  split. intros l b. unfold serialize_pretty, deserialize, table_codec.
  destruct (decide (l = bound)) as [->|]; [by intros [= <-]|].
  destruct (decide (l = claimed)) as [->|]; [by intros [= <-]|].
  destruct (decide (l = consumed)) as [->|]; [by intros [= <-]|done].
Qed.

#[export] Instance short_uuid : UuidText := {| uuid_text z := if z =? 1 then "1" else "7" |}.

Definition view : MountView := mk_MountView
  [mk_MountGrant (mk_MountAlias "/authorization") (mk_VirtualPath "/projects/auth")
     MountPermissions_read_write].
Definition resolver (_ : ResourceScope) : result MountView HostApiError := Ok view.
Definition text (_ : FilesystemError) : string := "filesystem error".
Definition row : string := "/projects/auth/leases/scope/7/1.json".

Definition initial (body : string) : State :=
  mk_State {[ row := mk_StoredEntry (opaque_lease_entry body) 1 0 ]} ∅ ∅.

Lemma initial_placed body : placed resolver (initial body).
Proof.
  intros k e n l w Hk Hd Hw. simpl in Hk.
  apply fmap_Some in Hk as (st & Hst & [= -> ->]).
  apply lookup_singleton_Some in Hst as [<- <-].
  assert (cl_scope l = scope /\ lease_id l = from_uuid 1) as [Hs Hi].
  { unfold decodes, deserialize, table_codec in Hd. simpl in Hd.
    repeat (destruct (decide _) in Hd; [by injection Hd as <-|]). done. }
  rewrite Hs, Hi in Hw. injection Hw as <-. reflexivity.
Qed.

Definition step now (c : State * job) : State * job := job_step resolver text now c.1 c.2.
Definition claim_job : job := start scope (from_uuid 1) (TaskClaim fp).
Definition read_done := step 1 (initial "bound", claim_job).
Definition index_done := step 2 read_done.
Definition claim_done := step 3 index_done.

Lemma run_to_index js : js !! 0%nat = Some claim_job ->
  exists js', rtc (sys_step resolver text) (initial "bound", js) (index_done.1, js') /\
    js' !! 0%nat = Some index_done.2.
Proof.
  intros H0. exists (<[0%nat := index_done.2]> (<[0%nat := read_done.2]> js)).
  split; [|apply lookup_insert_eq].
  eapply rtc_l; [by apply (sys_run resolver text _ _ 0%nat claim_job 1 read_done.1 read_done.2)|].
  eapply rtc_l; [|reflexivity].
  apply (sys_run resolver text _ _ 0%nat read_done.2 2 index_done.1 index_done.2);
    [apply lookup_insert_eq|reflexivity..].
Qed.

End LeaseStoreExample.

Import LeaseStoreExample.

(** The same step on a backend that loses the acknowledgement: the lease is claimed, and
    the caller gets an error. *)
Example lost_acknowledgement_of_claim :
  job_step LeaseStoreExample.resolver LeaseStoreExample.text 3 (mk_Lossy index_done.1 [true]) index_done.2
  = (mk_Lossy claim_done.1 [],
     mk_job LeaseExample.scope (from_uuid 1) (TaskClaim LeaseExample.fp)
       (PDone (Err (Persistence "filesystem error")))).
Proof. reflexivity. Qed.

Lemma cas_store_linearizable_witness :
  exists l', job_proc claim_done.2 = PDone (Ok l') /\
    transition resolver index_done.1 claim_done.1 index_done.2 l'.
Proof.
  destruct (run_to_index {[ 0%nat := claim_job ]}) as (js' & Hrtc & Hjob);
    [apply lookup_singleton_eq|].
  assert (fresh_jobs {[ 0%nat := claim_job ]}) as Hf.
  { intros i j [_ <-]%lookup_singleton_Some. reflexivity. }
  destruct (cas_store_linearizable resolver text (initial "bound") {[ 0%nat := claim_job ]}
      index_done.1 js' 0%nat index_done.2 3 claim_done.1 claim_done.2
      (initial_placed "bound") Hf Hrtc Hjob eq_refl (surjective_pairing _)) as [_ Hstep].
  assert (job_proc claim_done.2 = PDone (Ok LeaseStoreExample.claimed)) as Hdone by reflexivity.
  rewrite Hdone in Hstep. exists LeaseStoreExample.claimed. split; [exact Hdone|exact Hstep].
Defined.

(** Two processes consume the claimed lease; one of them has run to its end. *)
Lemma consume_bounded_across_processes_witness :
  consumers resolver LeaseStoreExample.row
    (<[0%nat := (step 3 (step 2 (step 1 (initial "claimed",
         start LeaseExample.scope (from_uuid 1) TaskConsume)))).2]>
       {[ 1%nat := start LeaseExample.scope (from_uuid 1) TaskConsume ]}) <= 1.
Proof.
  set (j := start LeaseExample.scope (from_uuid 1) TaskConsume).
  set (c1 := step 1 (initial "claimed", j)). set (c2 := step 2 c1). set (c3 := step 3 c2).
  set (js0 := <[0%nat := j]> {[ 1%nat := j ]} : gmap nat job).
  apply (consume_bounded_across_processes resolver text LeaseStoreExample.row 1
    (initial "claimed") js0 c3.1 _ (opaque_lease_entry "claimed") 1
    LeaseStoreExample.claimed (initial_placed "claimed")).
  - intros i j' Hj. apply lookup_insert_Some in Hj as [[_ <-]|[_ Hj]]; [reflexivity|].
    apply lookup_singleton_Some in Hj as [_ <-]. reflexivity.
  - reflexivity.
  - reflexivity.
  - intros n [= <-]. done.
  - reflexivity.
  - eapply rtc_l; [apply (quiet_run resolver text _ _ js0 0%nat j 1 c1.1 c1.2);
      [apply lookup_insert_eq|reflexivity..]|].
    eapply rtc_l; [apply (quiet_run resolver text _ _ _ 0%nat c1.2 2 c2.1 c2.2);
      [apply lookup_insert_eq|reflexivity..]|].
    eapply rtc_l; [apply (quiet_run resolver text _ _ _ 0%nat c2.2 3 c3.1 c3.2);
      [apply lookup_insert_eq|reflexivity..]|].
    rewrite !insert_insert_eq. reflexivity.
Defined.
