(* ===== verification/ScopedFile.v ===== *)
(** * One file of a scoped filesystem

    What the stores that keep their whole state in one entry share
    ([TurnFilesystem], [ConvStore]): the virtual path that a mount view gives the file for
    an operation ([ScopedFilesystem::resolve_with_permission]), and how conditional writes
    move an entry store: versions only grow, and one version is one body ([grows]), also
    when the write's answer is lost. *)

From S2P Require Import Prelude HostIds Paths Filesystem LeaseStore.
Open Scope Z_scope.

Section File.
(** The view of the caller's scope, and the path of the file. *)
Variable view : result MountView HostApiError.
Variable path : ScopedPath.

Definition file_path (operation : FilesystemOperation) : result VirtualPath FilesystemError :=
  match view with
  | Err e => Err (FsContract e)
  | Ok view => resolve_with_permission_view view path operation
  end.

(** The text of its virtual path, whatever the operation. *)
Definition file_key : string :=
  match view with
  | Ok view => match MountView_resolve_with_grant view path with
               | Ok (v, _) => vp_str v
               | Err _ => ""
               end
  | Err _ => ""
  end.

Lemma file_path_key operation v : file_path operation = Ok v -> vp_str v = file_key.
Proof.
  unfold file_path, file_key, resolve_with_permission_view. destruct view; [|done].
  destruct (MountView_resolve_with_grant _ _) as [[w grant]|]; [|done].
  destruct (negb _); [done|]. by intros [= <-].
Qed.
End File.

Section Growth.
Context `{BH : BodyHash} {St : Type} `{ES : !EntryStore St} `{ESL : !EntryStoreLaws St}.
Implicit Types s : St.

Lemma entries_grow_refl s : grows s s.
Proof. intros k e n Hk. exists e, n. split_and!; [done | lia | done]. Qed.
Lemma entries_grow_trans s1 s2 s3 : grows s1 s2 -> grows s2 s3 -> grows s1 s3.
Proof.
  intros H1 H2 k e n Hk. destruct (H1 k e n Hk) as (e1 & n1 & Hk1 & Hle1 & He1).
  destruct (H2 k e1 n1 Hk1) as (e2 & n2 & Hk2 & Hle2 & He2).
  exists e2, n2. split_and!; [done | lia|]. intros ->. assert (n1 = n) as -> by lia.
  by rewrite He2, He1.
Qed.

(** A put that was carried out, acknowledged or not. *)
Lemma written_grows s s' v entry cas n :
  put_written (es_at s) (es_at s') (vp_str v) entry cas n -> grows s s'.
Proof.
  intros [_ Hat Hother Hver] k e m Hk. destruct (decide (k = vp_str v)) as [->|Hne].
  - exists entry, n. split; [done|]. specialize (Hver _ _ Hk). split; [lia|]. lia.
  - exists e, m. rewrite Hother by done. split_and!; [done | lia | done].
Qed.

(** Whatever a put answers, it was carried out or changed nothing; the answer says which,
    unless it is an error other than a refusal. *)
Lemma put_effects s v entry cas now s' r : es_put s v entry cas now = (s', r) ->
  (is_ok r = false /\ forall k, es_at s' k = es_at s k)
  \/ (match r with Err x => put_refused x = false | Ok _ => True end)
     /\ exists n, put_written (es_at s) (es_at s') (vp_str v) entry cas n.
Proof.
  destruct r as [n|x].
  - intros H%es_put_ok. right. eauto.
  - intros [Hsame|[Hx Hput]]%es_put_err; eauto.
Qed.

(** What a reader saw of the file: an entry at a version, or nothing. *)
Definition seen (key : string) (version : option (Entry * RecordVersion)) s : Prop :=
  match version with Some (e, n) => es_at s key = Some (e, n) | None => True end.

Definition expectation_of (version : option (Entry * RecordVersion)) : CasExpectation :=
  match version with Some (_, n) => CasVersion n | None => CasAbsent end.

(** A conditional write that is carried out finds what the reader saw, and replaces it. *)
Lemma written_replaces s0 s s' v version entry n :
  seen (vp_str v) version s0 -> grows s0 s ->
  put_written (es_at s) (es_at s') (vp_str v) entry (expectation_of version) n ->
  es_at s (vp_str v) = version /\ es_at s' (vp_str v) = Some (entry, n).
Proof.
  intros Hseen Hg [Hexp Hat _ _]. split; [|done].
  destruct version as [[e w]|]; simpl in *; [|done]. destruct Hexp as [e0 He0].
  destruct (Hg _ _ _ Hseen) as (e' & n' & Hat' & _ & Heq). rewrite He0 in Hat'. injection Hat' as <- <-.
  rewrite He0. by rewrite Heq.
Qed.
End Growth.
