(* ===== verification/Authorization.v ===== *)
(** * Authorization

    [crates/brassclaw_authorization/src]: the grant-backed and the lease-backed
    authorizer ([lib.rs]), the instance tool policy ([instance_policy.rs]) and its
    stable-identity form ([stable_tool_policy.rs]), with the validation of
    product-account credential requirements ([host_api], [credential_requirement.rs]
    and [http.rs]) that the obligations carry.  The clock is read once per decision.
    [DispatchAuthorizer] is the interface dispatch uses.
    The theorems: an allow decision has an active grant for the caller behind it
    whose effects and resource ceiling, and the trust decision's, cover the call,
    with the obligations that the grant gives rise to, and every other call is denied with the documented reason; the enforced
    ceiling is the meet of the two; and an instance policy admits a prepared call
    exactly under the rule of the current revision. *)

From S2P Require Import Prelude External HostIds Paths HostTypes Obligations Trust Leases.
Open Scope Z_scope.

(** ** Credential requirements *)

Definition is_field_name_byte (b : Ascii.ascii) : bool :=
  is_ascii_alphanumeric b
  || existsb (fun c => bool_decide (b = c))
       ["!"%char; "#"%char; "$"%char; "%"%char; "&"%char; "'"%char; "*"%char; "+"%char; "-"%char;
        "."%char; "^"%char; "_"%char; "`"%char; "|"%char; "~"%char].

Definition valid_http_field_name (name : string) : bool :=
  negb (bool_decide (name = "")) && negb (any_byte (fun b => negb (is_field_name_byte b)) name).

Definition fragment_has_control (value : string) : bool :=
  contains_char "000"%char value || has_control value.

Definition is_unreserved_byte (b : Ascii.ascii) : bool :=
  is_ascii_alphanumeric b
  || existsb (fun c => bool_decide (b = c)) ["-"%char; "."%char; "_"%char; "~"%char].

(** [RuntimeCredentialTarget::validate_declaration]. *)
Definition target_validate_declaration (self : RuntimeCredentialTarget) : result unit HostApiError :=
  match self with
  | Header name prefix =>
      if negb (valid_http_field_name name) then
        Err (InvalidRuntimeCredentialTarget "header_name" "must be an ASCII HTTP field-name token")
      else
        match prefix with
        | Some p =>
            if fragment_has_control p then
              Err (InvalidRuntimeCredentialTarget "header_prefix"
                     "must not contain NUL/control characters")
            else Ok tt
        | None => Ok tt
        end
  | QueryParam name =>
      if is_blank name || fragment_has_control name then
        Err (InvalidRuntimeCredentialTarget "query_param_name"
               "must not be empty or contain NUL/control characters")
      else Ok tt
  | PathPlaceholder placeholder =>
      if bool_decide (placeholder = "") || bool_decide (placeholder = ".")
         || bool_decide (placeholder = "..")
         || any_byte (fun b => negb (is_unreserved_byte b)) placeholder then
        Err (InvalidRuntimeCredentialTarget "path_placeholder"
               "must be a non-empty unreserved path segment other than . or ..")
      else Ok tt
  end.

Fixpoint check_scopes (seen : list string) (scopes : list string) : result unit HostApiError :=
  match scopes with
  | [] => Ok tt
  | scope :: rest =>
      if bool_decide (scope = "") || negb (is_trimmed scope) || has_control scope
         || bool_decide (scope ∈ seen) then
        Err (InvariantViolation "credential requirement scopes are invalid")
      else check_scopes (scope :: seen) rest
  end.

Definition RuntimeCredentialAccountRequirement_new (requester_extension : ExtensionId)
    (requirement : RuntimeCredentialRequirement) :
    result RuntimeCredentialAccountRequirement HostApiError :=
  match rcr_source requirement with
  | SourceSecretHandle =>
      Err (InvariantViolation "product-account requirement source is required")
  | ProductAuthAccount _ setup =>
      let? _ := validate_network_host_pattern (host_pattern (rcr_audience requirement)) in
      let? _ := target_validate_declaration (rcr_target requirement) in
      let? _ := check_scopes [] (rcr_provider_scopes requirement) in
      let? _ := match setup with OAuth scopes => check_scopes [] scopes | ManualToken => Ok tt end in
      Ok (mk_RuntimeCredentialAccountRequirement requester_extension requirement)
  end.

Section Authorization.
Context `{D : Decimal} `{SJ : SerdeJson}.

(** ** Ceilings *)

Definition stricter_limit {T} (ltb : T -> T -> bool) (left right : option T) : option T :=
  match left, right with
  | Some l, Some r => if ltb r l then Some r else Some l
  | Some l, None => Some l
  | None, Some r => Some r
  | None, None => None
  end.

Definition intersect_sandbox_quotas (grant_quota authority_quota : option SandboxQuota) :
    option SandboxQuota :=
  match grant_quota, authority_quota with
  | None, None => None
  | Some q, None | None, Some q => Some q
  | Some g, Some a =>
      Some (mk_SandboxQuota (stricter_limit Z.ltb (cpu_time_ms g) (cpu_time_ms a))
              (stricter_limit Z.ltb (memory_bytes g) (memory_bytes a))
              (stricter_limit Z.ltb (disk_bytes g) (disk_bytes a))
              (stricter_limit Z.ltb (sq_network_egress_bytes g) (sq_network_egress_bytes a))
              (stricter_limit Z.ltb (sq_process_count g) (sq_process_count a)))
  end.

Definition intersect_resource_ceilings (grant_ceiling authority_ceiling : option ResourceCeiling) :
    option ResourceCeiling :=
  match grant_ceiling, authority_ceiling with
  | None, None => None
  | Some c, None | None, Some c => Some c
  | Some g, Some a =>
      Some (mk_ResourceCeiling (stricter_limit dec_ltb (ceil_max_usd g) (ceil_max_usd a))
              (stricter_limit Z.ltb (ceil_max_input_tokens g) (ceil_max_input_tokens a))
              (stricter_limit Z.ltb (ceil_max_output_tokens g) (ceil_max_output_tokens a))
              (stricter_limit Z.ltb (ceil_max_wall_clock_ms g) (ceil_max_wall_clock_ms a))
              (stricter_limit Z.ltb (ceil_max_output_bytes g) (ceil_max_output_bytes a))
              (intersect_sandbox_quotas (ceil_sandbox g) (ceil_sandbox a)))
  end.

Definition limit_exceeds {T} (ltb : T -> T -> bool) (grant authority : option T) : bool :=
  match grant, authority with
  | Some g, Some a => ltb a g
  | None, Some _ => true
  | None, None | Some _, None => false
  end.

Definition sandbox_quota_exceeds_authority (grant_quota authority_quota : option SandboxQuota) :
    bool :=
  match grant_quota, authority_quota with
  | None, Some _ => true
  | None, None | Some _, None => false
  | Some g, Some a =>
      limit_exceeds Z.ltb (cpu_time_ms g) (cpu_time_ms a)
      || limit_exceeds Z.ltb (memory_bytes g) (memory_bytes a)
      || limit_exceeds Z.ltb (disk_bytes g) (disk_bytes a)
      || limit_exceeds Z.ltb (sq_network_egress_bytes g) (sq_network_egress_bytes a)
      || limit_exceeds Z.ltb (sq_process_count g) (sq_process_count a)
  end.

Definition resource_ceiling_exceeds_authority
    (grant_ceiling authority_ceiling : option ResourceCeiling) : bool :=
  match grant_ceiling, authority_ceiling with
  | None, Some _ => true
  | None, None | Some _, None => false
  | Some g, Some a =>
      limit_exceeds dec_ltb (ceil_max_usd g) (ceil_max_usd a)
      || limit_exceeds Z.ltb (ceil_max_input_tokens g) (ceil_max_input_tokens a)
      || limit_exceeds Z.ltb (ceil_max_output_tokens g) (ceil_max_output_tokens a)
      || limit_exceeds Z.ltb (ceil_max_wall_clock_ms g) (ceil_max_wall_clock_ms a)
      || limit_exceeds Z.ltb (ceil_max_output_bytes g) (ceil_max_output_bytes a)
      || sandbox_quota_exceeds_authority (ceil_sandbox g) (ceil_sandbox a)
  end.

Definition effects_are_covered (required allowed : list EffectKind) : bool :=
  forallb (fun effect => bool_decide (effect ∈ allowed)) required.

Definition grant_exceeds_authority_ceiling (grant : CapabilityGrant) (ceiling : AuthorityCeiling) :
    bool :=
  negb (effects_are_covered (allowed_effects (cg_constraints grant)) (ac_allowed_effects ceiling))
  || resource_ceiling_exceeds_authority (resource_ceiling (cg_constraints grant))
       (max_resource_ceiling ceiling).

(** [estimate <= maximum] on values of a total order is [not (maximum < estimate)]. *)
Definition options_within_ceiling {T} (ltb : T -> T -> bool) (estimate maximum : option T) : bool :=
  match estimate, maximum with
  | Some e, Some m => negb (ltb m e)
  | None, Some _ => false
  | _, None => true
  end.

Definition resource_estimate_is_covered (estimate : ResourceEstimate)
    (ceiling : option ResourceCeiling) : bool :=
  match ceiling with
  | None => true
  | Some c =>
      options_within_ceiling dec_ltb (est_usd estimate) (ceil_max_usd c)
      && options_within_ceiling Z.ltb (est_input_tokens estimate) (ceil_max_input_tokens c)
      && options_within_ceiling Z.ltb (est_output_tokens estimate) (ceil_max_output_tokens c)
      && options_within_ceiling Z.ltb (est_wall_clock_ms estimate) (ceil_max_wall_clock_ms c)
      && options_within_ceiling Z.ltb (est_output_bytes estimate) (ceil_max_output_bytes c)
      && match ceil_sandbox c with
         | Some sandbox =>
             options_within_ceiling Z.ltb (est_network_egress_bytes estimate)
               (sq_network_egress_bytes sandbox)
             && options_within_ceiling Z.ltb (est_process_count estimate)
                  (sq_process_count sandbox)
         | None => true
         end
  end.

(** ** Obligations *)

Record ToolExecutionRules : Type := mk_ToolExecutionRules {
  ter_allowed_effects : list EffectKind;
  ter_mounts : MountView;
  ter_network : NetworkPolicy;
  ter_secrets : list SecretHandle;
  ter_resource_ceiling : option ResourceCeiling }.

Definition descriptor_requires_mount_policy (descriptor : CapabilityDescriptor) : bool :=
  existsb (fun effect => match effect with
     | ReadFilesystem | WriteFilesystem | DeleteFilesystem | ExecuteCode => true
     | _ => false end) (cd_effects descriptor).

Definition network_policy_is_constrained (policy : NetworkPolicy) : bool :=
  negb (bool_decide (allowed_targets policy = [])) || deny_private_ip_ranges policy
  || bool_decide (is_Some (max_egress_bytes policy)).

Definition has_effect (descriptor : CapabilityDescriptor) (effect : EffectKind) : bool :=
  bool_decide (effect ∈ cd_effects descriptor).

(** The obligation of one declared credential; [None] refuses the call. *)
Definition credential_obligation (descriptor : CapabilityDescriptor) (rules : ToolExecutionRules)
    (credential : RuntimeCredentialRequirement) : option (list Obligation) :=
  match rcr_source credential with
  | SourceSecretHandle =>
      if bool_decide (rcr_handle credential ∈ ter_secrets rules) then
        Some [InjectSecretOnce (rcr_handle credential)]
      else if rcr_required credential then None
      else Some []
  | ProductAuthAccount provider _ =>
      if rcr_required credential then
        match RuntimeCredentialAccountRequirement_new (cd_provider descriptor) credential with
        | Err _ => None
        | Ok requirement =>
            Some [InjectCredentialAccountOnce (rcr_handle credential) provider
                    (rcr_provider_scopes credential) (cd_provider descriptor) (Some requirement)]
        end
      else Some []
  end.

Definition credential_obligations (descriptor : CapabilityDescriptor) (rules : ToolExecutionRules) :
    option (list Obligation) :=
  if negb (bool_decide (cd_runtime_credentials descriptor = [])) then
    if negb (has_effect descriptor UseSecret) then None
    else List.concat (A:=Obligation) <$> mapM (credential_obligation descriptor rules) (cd_runtime_credentials descriptor)
  else if has_effect descriptor UseSecret then
    if bool_decide (cd_runtime descriptor = RuntimeFirstParty)
       && bool_decide (ter_secrets rules = []) then
      Some [FirstPartyCredentialStagedViaHostPort (cd_id descriptor)]
    else
      match ter_secrets rules with
      | [handle] => Some [InjectSecretOnce handle]
      | _ => None
      end
  else Some [].

Definition obligations_for_rules (descriptor : CapabilityDescriptor) (rules : ToolExecutionRules)
    (effective_resource_ceiling : option ResourceCeiling) : option Obligations :=
  match credential_obligations descriptor rules with
  | None => None
  | Some credentials =>
      let mounts := if descriptor_requires_mount_policy descriptor
        then [UseScopedMounts (ter_mounts rules)] else [] in
      let network := if has_effect descriptor Network
          || network_policy_is_constrained (ter_network rules)
        then [ApplyNetworkPolicy (ter_network rules)] else [] in
      let ceilings := match effective_resource_ceiling with
        | None => []
        | Some c => EnforceResourceCeiling c
            :: match ceil_max_output_bytes c with
               | Some n => [EnforceOutputLimit n] | None => [] end
        end in
      match Obligations_new (mounts ++ network ++ credentials ++ ceilings) with
      | Ok o => Some o
      | Err _ => None
      end
  end.

Definition obligations_for_grant (descriptor : CapabilityDescriptor) (grant : CapabilityGrant)
    (effective_resource_ceiling : option ResourceCeiling) : option Obligations :=
  let c := cg_constraints grant in
  obligations_for_rules descriptor
    (mk_ToolExecutionRules (allowed_effects c) (gc_mounts c) (gc_network c) (gc_secrets c)
       (resource_ceiling c)) effective_resource_ceiling.

(** ** Grants *)

Definition principal_matches_context (principal : Principal) (context : ExecutionContext) : bool :=
  match principal with
  | PTenant id => bool_decide (id = ec_tenant_id context)
  | PUser id => bool_decide (id = ec_user_id context)
  | PAgent id => bool_decide (ec_agent_id context = Some id)
  | PProject id => bool_decide (ec_project_id context = Some id)
  | PThread id => bool_decide (ec_thread_id context = Some id)
  | PExtension id => bool_decide (id = ec_extension_id context)
  | PHostRuntime | PSystem _ => false
  end.

Definition grant_is_active (grant : CapabilityGrant) (now : Z) : bool :=
  match expires_at (cg_constraints grant) with Some t => now <? t | None => true end
  && negb (bool_decide (max_invocations (cg_constraints grant) = Some 0)).

(** The filters of the loop. *)
Definition grant_applies (context : ExecutionContext) (descriptor : CapabilityDescriptor)
    (now : Z) (grant : CapabilityGrant) : bool :=
  bool_decide (cg_capability grant = cd_id descriptor)
  && principal_matches_context (cg_grantee grant) context
  && grant_is_active grant now.

Fixpoint try_grants (descriptor : CapabilityDescriptor) (estimate : ResourceEstimate)
    (authority_ceiling : option AuthorityCeiling) (grants : list CapabilityGrant) :
    option Obligations :=
  match grants with
  | [] => None
  | grant :: rest =>
      let effective := intersect_resource_ceilings (resource_ceiling (cg_constraints grant))
        (match authority_ceiling with Some c => max_resource_ceiling c | None => None end) in
      let effects_ok := match authority_ceiling with
        | Some c => effects_are_covered (cd_effects descriptor) (ac_allowed_effects c)
        | None => true end in
      if effects_are_covered (cd_effects descriptor) (allowed_effects (cg_constraints grant))
         && effects_ok && resource_estimate_is_covered estimate effective then
        match obligations_for_grant descriptor grant effective with
        | Some obligations => Some obligations
        | None => try_grants descriptor estimate authority_ceiling rest
        end
      else try_grants descriptor estimate authority_ceiling rest
  end.

Definition authorize_from_grants_with_authority_ceiling (context : ExecutionContext)
    (descriptor : CapabilityDescriptor) (estimate : ResourceEstimate)
    (grants : list CapabilityGrant) (authority_ceiling : option AuthorityCeiling) (now : Z) :
    HostDecision :=
  if is_err (ExecutionContext_validate context) then Deny InternalInvariantViolation
  else
    let applicable := List.filter (grant_applies context descriptor now) grants in
    match try_grants descriptor estimate authority_ceiling applicable with
    | Some obligations => Allow obligations
    | None =>
        if negb (bool_decide (length applicable = 0%nat)) then Deny PolicyDenied
        else Deny MissingGrant
    end.

Definition authorize_from_grants_with_trust (context : ExecutionContext)
    (descriptor : CapabilityDescriptor) (estimate : ResourceEstimate)
    (grants : list CapabilityGrant) (trust_decision : TrustDecision) (now : Z) : HostDecision :=
  if is_err (ExecutionContext_validate context) then Deny InternalInvariantViolation
  else if negb (bool_decide (ec_trust context = class (td_effective_trust trust_decision))) then
    Deny PolicyDenied
  else authorize_from_grants_with_authority_ceiling context descriptor estimate grants
         (Some (td_authority_ceiling trust_decision)) now.

Definition spawn_descriptor (descriptor : CapabilityDescriptor) : CapabilityDescriptor :=
  if has_effect descriptor SpawnProcess then descriptor
  else mk_CapabilityDescriptor _ (cd_id descriptor) (cd_provider descriptor) (cd_runtime descriptor)
         (cd_trust_ceiling descriptor) (cd_description descriptor)
         (cd_parameters_schema descriptor) (cd_effects descriptor ++ [SpawnProcess])
         (cd_default_permission descriptor) (cd_runtime_credentials descriptor)
         (cd_resource_profile descriptor).

(** ** The authorizers *)

(** [TrustAwareCapabilityDispatchAuthorizer], at one instant. *)
Class DispatchAuthorizer (A : Type) : Type := {
  authorize_dispatch_with_trust : A -> ExecutionContext -> CapabilityDescriptor ->
    ResourceEstimate -> TrustDecision -> Z -> HostDecision;
  authorize_spawn_with_trust : A -> ExecutionContext -> CapabilityDescriptor ->
    ResourceEstimate -> TrustDecision -> Z -> HostDecision;
  admit_prepared_dispatch : A -> ExecutionContext -> CapabilityDescriptor ->
    ResourceEstimate -> TrustDecision -> list Obligation -> result (option Z) DenyReason }.

Inductive GrantAuthorizer : Type := mk_GrantAuthorizer.

#[export] Instance grant_authorizer : DispatchAuthorizer GrantAuthorizer := {|
  authorize_dispatch_with_trust _ context descriptor estimate trust now :=
    authorize_from_grants_with_trust context descriptor estimate
      (cs_grants (ec_grants context)) trust now;
  authorize_spawn_with_trust _ context descriptor estimate trust now :=
    authorize_from_grants_with_trust context (spawn_descriptor descriptor) estimate
      (cs_grants (ec_grants context)) trust now;
  admit_prepared_dispatch _ _ _ _ _ _ := Ok None |}.

Record LeaseBackedAuthorizer : Type := mk_LeaseBackedAuthorizer {
  lba_leases : gmap CapabilityLeaseKey CapabilityLease }.

Definition lease_backed_authorize (self : LeaseBackedAuthorizer) (context : ExecutionContext)
    (descriptor : CapabilityDescriptor) (estimate : ResourceEstimate) (trust : TrustDecision)
    (now : Z) : HostDecision :=
  if is_err (ExecutionContext_validate context) then Deny InternalInvariantViolation
  else authorize_from_grants_with_trust context descriptor estimate
         (cs_grants (ec_grants context) ++ active_grants_for_context (lba_leases self) context now)
         trust now.

#[export] Instance lease_backed_authorizer : DispatchAuthorizer LeaseBackedAuthorizer := {|
  authorize_dispatch_with_trust := lease_backed_authorize;
  authorize_spawn_with_trust self context descriptor :=
    lease_backed_authorize self context (spawn_descriptor descriptor);
  admit_prepared_dispatch _ _ _ _ _ _ := Ok None |}.

(** ** Instance tool policy ([instance_policy.rs]) *)

Record InstanceToolRule : Type := mk_InstanceToolRule {
  enabled : bool;
  rule_revision : Z;
  execution : ToolExecutionRules }.

Inductive InstanceToolPolicyError : Type := Unavailable | Invalid | RevisionConflict.

Record InstanceToolPolicySnapshot : Type := mk_InstanceToolPolicySnapshot {
  its_revision : Z;
  its_tools : gmap CapabilityId InstanceToolRule }.

Definition snapshot_validate (self : InstanceToolPolicySnapshot) :
    result unit InstanceToolPolicyError :=
  if (its_revision self =? 0)
     || existsb (fun '(_, rule) => negb (rule_revision rule =? its_revision self))
          (map_to_list (its_tools self))
  then Err Invalid else Ok tt.

(** [LiveInstanceToolPolicy]: the lock is free or poisoned. *)
Record LiveInstanceToolPolicy : Type := mk_LiveInstanceToolPolicy {
  live_snapshot : InstanceToolPolicySnapshot; live_poisoned : bool }.

Definition LiveInstanceToolPolicy_new (snapshot : InstanceToolPolicySnapshot) :
    result LiveInstanceToolPolicy InstanceToolPolicyError :=
  let? _ := snapshot_validate snapshot in Ok (mk_LiveInstanceToolPolicy snapshot false).

Definition policy_publish (self : LiveInstanceToolPolicy) (expected_revision : Z)
    (next : InstanceToolPolicySnapshot) :
    LiveInstanceToolPolicy * result unit InstanceToolPolicyError :=
  match snapshot_validate next with
  | Err e => (self, Err e)
  | Ok _ =>
      if live_poisoned self then (self, Err Unavailable)
      else if negb (its_revision (live_snapshot self) =? expected_revision)
              || (its_revision next <=? expected_revision)
      then (self, Err RevisionConflict)
      else (mk_LiveInstanceToolPolicy next false, Ok tt)
  end.

(** [InstanceToolPolicySource]. *)
Class ToolPolicySource (A : Type) : Type := {
  current_rule : A -> CapabilityDescriptor ->
    result (option InstanceToolRule) InstanceToolPolicyError }.

#[export] Instance live_policy_source : ToolPolicySource LiveInstanceToolPolicy := {|
  current_rule self descriptor :=
    if live_poisoned self then Err Unavailable
    else Ok (its_tools (live_snapshot self) !! cd_id descriptor) |}.

Definition instance_estimate_is_covered (estimate : ResourceEstimate)
    (ceiling : option ResourceCeiling) : bool :=
  match ceiling with
  | None => true
  | Some c =>
      let other_limits := mk_ResourceCeiling (ceil_max_usd c) (ceil_max_input_tokens c)
        (ceil_max_output_tokens c) (ceil_max_wall_clock_ms c) None (ceil_sandbox c) in
      resource_estimate_is_covered estimate (Some other_limits)
      && negb (match est_output_bytes estimate, ceil_max_output_bytes c with
               | Some n, Some maximum => maximum <? n
               | _, _ => false
               end)
  end.

Definition decide_rule (context : ExecutionContext) (descriptor : CapabilityDescriptor)
    (estimate : ResourceEstimate) (trust : TrustDecision) (rule : InstanceToolRule) :
    HostDecision :=
  if is_err (ExecutionContext_validate context) then Deny InternalInvariantViolation
  else if negb (bool_decide (ec_trust context = class (td_effective_trust trust))) then
    Deny PolicyDenied
  else if rule_revision rule =? 0 then Deny InternalInvariantViolation
  else if negb (enabled rule) then Deny PolicyDenied
  else
    let ceiling := intersect_resource_ceilings (ter_resource_ceiling (execution rule))
      (max_resource_ceiling (td_authority_ceiling trust)) in
    if negb (effects_are_covered (cd_effects descriptor) (ter_allowed_effects (execution rule)))
       || negb (effects_are_covered (cd_effects descriptor)
                  (ac_allowed_effects (td_authority_ceiling trust)))
       || negb (instance_estimate_is_covered estimate ceiling)
    then Deny PolicyDenied
    else
      match obligations_for_rules descriptor (execution rule) ceiling with
      | Some obligations => Allow obligations
      | None => Deny PolicyDenied
      end.

(** [Obligation == Obligation]: decimals compare by value. *)
Definition ceiling_eqb (a b : ResourceCeiling) : bool :=
  opt_dec_eqb (ceil_max_usd a) (ceil_max_usd b)
  && bool_decide (ceil_max_input_tokens a = ceil_max_input_tokens b)
  && bool_decide (ceil_max_output_tokens a = ceil_max_output_tokens b)
  && bool_decide (ceil_max_wall_clock_ms a = ceil_max_wall_clock_ms b)
  && bool_decide (ceil_max_output_bytes a = ceil_max_output_bytes b)
  && bool_decide (ceil_sandbox a = ceil_sandbox b).

Definition obligation_eqb (a b : Obligation) : bool :=
  match a, b with
  | AuditBefore, AuditBefore | AuditAfter, AuditAfter | RedactOutput, RedactOutput => true
  | ReserveResources x, ReserveResources y => bool_decide (x = y)
  | UseScopedMounts x, UseScopedMounts y => bool_decide (x = y)
  | InjectSecretOnce x, InjectSecretOnce y => bool_decide (x = y)
  | InjectCredentialAccountOnce h p s e r, InjectCredentialAccountOnce h' p' s' e' r' =>
      bool_decide (h = h') && bool_decide (p = p') && bool_decide (s = s')
      && bool_decide (e = e') && bool_decide (r = r')
  | FirstPartyCredentialStagedViaHostPort x, FirstPartyCredentialStagedViaHostPort y =>
      bool_decide (x = y)
  | ApplyNetworkPolicy x, ApplyNetworkPolicy y => bool_decide (x = y)
  | EnforceResourceCeiling x, EnforceResourceCeiling y => ceiling_eqb x y
  | EnforceOutputLimit x, EnforceOutputLimit y => x =? y
  | _, _ => false
  end.

Fixpoint slice_eqb (a b : list Obligation) : bool :=
  match a, b with
  | [], [] => true
  | x :: a', y :: b' => obligation_eqb x y && slice_eqb a' b'
  | _, _ => false
  end.

Section InstanceAuthorizer.
Context {A : Type} `{TPS : ToolPolicySource A}.

Definition instance_decide (source : A) (context : ExecutionContext)
    (descriptor : CapabilityDescriptor) (estimate : ResourceEstimate) (trust : TrustDecision) :
    HostDecision :=
  match current_rule source descriptor with
  | Ok (Some rule) => decide_rule context descriptor estimate trust rule
  | Ok None => Deny PolicyDenied
  | Err _ => Deny InternalInvariantViolation
  end.

Definition instance_admit_prepared (source : A) (context : ExecutionContext)
    (descriptor : CapabilityDescriptor) (estimate : ResourceEstimate) (trust : TrustDecision)
    (prepared : list Obligation) : result (option Z) DenyReason :=
  match current_rule source descriptor with
  | Err _ => Err InternalInvariantViolation
  | Ok None => Err PolicyDenied
  | Ok (Some rule) =>
      match decide_rule context descriptor estimate trust rule with
      | Allow obligations =>
          if slice_eqb (as_slice obligations) prepared then Ok (Some (rule_revision rule))
          else Err PolicyDenied
      | Deny reason => Err reason
      | _ => Err PolicyDenied
      end
  end.

End InstanceAuthorizer.

(** ** Stable tool identities ([stable_tool_policy.rs]) *)

Record StableToolPolicySnapshot : Type := mk_StableToolPolicySnapshot {
  sts_revision : Z;
  sts_tools : gmap Z InstanceToolRule;
  sts_capabilities : gmap CapabilityId Z }.

(** [Uuid::is_nil] is being zero. *)
Definition stable_validate (self : StableToolPolicySnapshot) : result unit InstanceToolPolicyError :=
  if (sts_revision self =? 0)
     || existsb (fun '(id, rule) => (id =? 0) || negb (rule_revision rule =? sts_revision self))
          (map_to_list (sts_tools self))
     || existsb (fun '(_, id) => bool_decide (sts_tools self !! id = None)) 
          (map_to_list (sts_capabilities self))
  then Err Invalid else Ok tt.

Record LiveStableToolPolicy : Type := mk_LiveStableToolPolicy {
  stable_snapshot : StableToolPolicySnapshot; stable_poisoned : bool }.

Definition LiveStableToolPolicy_new (snapshot : StableToolPolicySnapshot) :
    result LiveStableToolPolicy InstanceToolPolicyError :=
  let? _ := stable_validate snapshot in Ok (mk_LiveStableToolPolicy snapshot false).

Definition stable_publish (self : LiveStableToolPolicy) (expected_revision : Z)
    (next : StableToolPolicySnapshot) :
    LiveStableToolPolicy * result unit InstanceToolPolicyError :=
  match stable_validate next with
  | Err e => (self, Err e)
  | Ok _ =>
      if stable_poisoned self then (self, Err Unavailable)
      else if negb (sts_revision (stable_snapshot self) =? expected_revision)
              || (sts_revision next <=? expected_revision)
      then (self, Err RevisionConflict)
      else if existsb (fun '(capability, id) =>
                negb (bool_decide (sts_capabilities next !! capability = Some id)))
              (map_to_list (sts_capabilities (stable_snapshot self)))
      then (self, Err Invalid)
      else (mk_LiveStableToolPolicy next false, Ok tt)
  end.

Definition tool_identity (self : LiveStableToolPolicy) (capability : CapabilityId) :
    result (option Z) InstanceToolPolicyError :=
  if stable_poisoned self then Err Unavailable
  else Ok (sts_capabilities (stable_snapshot self) !! capability).

Definition stable_rule (self : LiveStableToolPolicy) (capability : CapabilityId) :
    result (option InstanceToolRule) InstanceToolPolicyError :=
  if stable_poisoned self then Err Unavailable
  else Ok (match sts_capabilities (stable_snapshot self) !! capability with
           | None => None
           | Some id => sts_tools (stable_snapshot self) !! id
           end).

#[export] Instance stable_policy_source : ToolPolicySource LiveStableToolPolicy := {|
  current_rule self descriptor := stable_rule self (cd_id descriptor) |}.

(** ** Ceilings: what the intersection admits *)

(** Every capped amount is declared and within its cap. *)
Definition declared_within {T} (ltb : T -> T -> bool) (estimate limit : option T) : Prop :=
  forall m, limit = Some m -> exists e, estimate = Some e /\ ltb m e = false.

Definition estimate_within (estimate : ResourceEstimate) (ceiling : option ResourceCeiling) : Prop :=
  forall c, ceiling = Some c ->
    declared_within dec_ltb (est_usd estimate) (ceil_max_usd c) /\
    declared_within Z.ltb (est_input_tokens estimate) (ceil_max_input_tokens c) /\
    declared_within Z.ltb (est_output_tokens estimate) (ceil_max_output_tokens c) /\
    declared_within Z.ltb (est_wall_clock_ms estimate) (ceil_max_wall_clock_ms c) /\
    declared_within Z.ltb (est_output_bytes estimate) (ceil_max_output_bytes c) /\
    forall q, ceil_sandbox c = Some q ->
      declared_within Z.ltb (est_network_egress_bytes estimate) (sq_network_egress_bytes q) /\
      declared_within Z.ltb (est_process_count estimate) (sq_process_count q).

Lemma options_within_spec {T} (ltb : T -> T -> bool) e m :
  options_within_ceiling ltb e m = true <-> declared_within ltb e m.
Proof.
  unfold declared_within. destruct m as [m|]; [|by destruct e].
  destruct e as [e|]; simpl.
  - rewrite negb_true_iff. split; [intros H x [= <-]; eauto|].
    intros H. by destruct (H m eq_refl) as (? & [= <-] & ?).
  - split; [done|]. intros H. by destruct (H m eq_refl) as (? & ? & ?).
Qed.

Lemma resource_estimate_is_covered_spec estimate ceiling :
  resource_estimate_is_covered estimate ceiling = true <-> estimate_within estimate ceiling.
Proof.
  unfold resource_estimate_is_covered, estimate_within. destruct ceiling as [c|]; [|done].
  rewrite !andb_true_iff, !options_within_spec. split.
  - intros [[[[[]]]] Hq] c' [= <-]. split_and!; [done..|]. intros q Hc. rewrite Hc in Hq.
    by rewrite andb_true_iff, !options_within_spec in Hq.
  - intros H. destruct (H c eq_refl) as (? & ? & ? & ? & ? & Hq). split_and!; [done..|].
    destruct (ceil_sandbox c) as [q|]; [|done]. rewrite andb_true_iff, !options_within_spec.
    by apply Hq.
Qed.

Section Meet.
Context `{!DecimalLaws D}.

(** An order given by its strict comparison, as decimals and integers have. *)
Definition total_ltb {T} (ltb : T -> T -> bool) : Prop :=
  (forall x y z, ltb y x = false -> ltb x z = false -> ltb y z = false) /\
  (forall x y, ltb x y = true -> ltb y x = false).

Lemma total_Z : total_ltb Z.ltb.
Proof. split; [apply Z_ltb_step|]. intros x y. rewrite Z.ltb_lt, Z.ltb_ge. lia. Qed.

Lemma total_dec : total_ltb dec_ltb.
Proof.
  split; [apply dec_ltb_step|]. intros x y. rewrite <- not_true_iff_false, !dec_ltb_spec. lia.
Qed.

Lemma stricter_within {T} (ltb : T -> T -> bool) a b x : total_ltb ltb ->
  within ltb (stricter_limit ltb a b) x <-> within ltb a x /\ within ltb b x.
Proof.
  intros [Htr Hasym]. destruct a as [a|], b as [b|]; simpl; try tauto.
  destruct (ltb b a) eqn:E; simpl.
  - split; [|tauto]. intros H. split; [|done]. apply (Htr b); [by apply Hasym|done].
  - split; [|tauto]. intros H. split; [done|]. by apply (Htr a).
Qed.

Lemma intersect_quota_admits a b d :
  quota_admits (intersect_sandbox_quotas a b) d <-> quota_admits a d /\ quota_admits b d.
Proof.
  destruct a, b; simpl; try tauto.
  rewrite !stricter_within by apply total_Z. tauto.
Qed.

Lemma intersect_ceiling_admits a b d :
  ceiling_admits (intersect_resource_ceilings a b) d <-> ceiling_admits a d /\ ceiling_admits b d.
Proof.
  destruct a, b; simpl; try tauto.
  rewrite intersect_quota_admits, !stricter_within by auto using total_Z, total_dec. tauto.
Qed.

Lemma forall_some {T} (P : T -> Prop) c : (forall x, Some c = Some x -> P x) <-> P c.
Proof. split; [by intros H; apply H|by intros H x [= <-]]. Qed.

Lemma stricter_declared {T} (ltb : T -> T -> bool) e a b : total_ltb ltb ->
  declared_within ltb e (stricter_limit ltb a b) <->
  declared_within ltb e a /\ declared_within ltb e b.
Proof.
  intros [Htr Hasym]. unfold declared_within.
  destruct a as [a|], b as [b|]; simpl; [|by split; [split|intros [? ?]]..].
  rewrite (forall_some _ a), (forall_some _ b).
  destruct (ltb b a) eqn:E; rewrite forall_some; (split; [|tauto]);
    intros (y & -> & Hy); split; exists y; eauto.
Qed.

Lemma quota_declared (n p : option Z) (a b : option SandboxQuota) :
  let P q := declared_within Z.ltb n (sq_network_egress_bytes q) /\
             declared_within Z.ltb p (sq_process_count q) in
  (forall q, intersect_sandbox_quotas a b = Some q -> P q) <->
  (forall q, a = Some q -> P q) /\ (forall q, b = Some q -> P q).
Proof.
  destruct a as [qa|], b as [qb|]; simpl; [|by split; [split|intros [? ?]]..].
  rewrite !forall_some. simpl. rewrite !stricter_declared by apply total_Z. tauto.
Qed.

Lemma intersect_estimate_within estimate a b :
  estimate_within estimate (intersect_resource_ceilings a b) <->
  estimate_within estimate a /\ estimate_within estimate b.
Proof.
  unfold estimate_within. destruct a as [a|], b as [b|]; simpl;
    [|by split; [split|intros [? ?]]..].
  rewrite !forall_some. simpl.
  rewrite !stricter_declared by auto using total_Z, total_dec. rewrite quota_declared. tauto.
Qed.

Lemma limit_not_exceeding {T} (ltb : T -> T -> bool) g a x : total_ltb ltb ->
  limit_exceeds ltb g a = false -> within ltb g x -> within ltb a x.
Proof.
  intros [Htr _]. destruct g, a; simpl; try done. intros H1 H2. by apply (Htr _ _ _ H1).
Qed.

Lemma ceiling_not_exceeding g a d :
  resource_ceiling_exceeds_authority g a = false -> ceiling_admits g d -> ceiling_admits a d.
Proof.
  assert (forall g a, sandbox_quota_exceeds_authority g a = false ->
    quota_admits g d -> quota_admits a d) as Hquota.
  { intros [gq|] [aq|]; simpl; try done. rewrite !orb_false_iff.
    intros [[[[]]]] (? & ? & ? & ? & ?).
    split_and!; (eapply limit_not_exceeding; [apply total_Z|done..]). }
  destruct g, a; simpl; try done. rewrite !orb_false_iff.
  intros [[[[[]]]]] (? & ? & ? & ? & ? & ?).
  split_and!; try (eapply limit_not_exceeding; [apply total_Z || apply total_dec|done..]).
  by eapply Hquota.
Qed.

End Meet.

Lemma effects_are_covered_spec required allowed :
  effects_are_covered required allowed = true <-> forall e, e ∈ required -> e ∈ allowed.
Proof.
  unfold effects_are_covered. rewrite forallb_forall. split.
  - intros H e He. apply list_elem_of_In in He. specialize (H e He).
    by apply bool_decide_eq_true in H.
  - intros H e He. apply bool_decide_eq_true, H. by apply list_elem_of_In.
Qed.

(** ** Decisions from grants *)

(** The grant and the trust decision's ceiling both cover the call. *)
Definition grant_covers (descriptor : CapabilityDescriptor) (estimate : ResourceEstimate)
    (ceiling : AuthorityCeiling) (g : CapabilityGrant) : Prop :=
  (forall e, e ∈ cd_effects descriptor ->
     e ∈ allowed_effects (cg_constraints g) /\ allows_effect ceiling e = true) /\
  estimate_within estimate (resource_ceiling (cg_constraints g)) /\
  estimate_within estimate (max_resource_ceiling ceiling).

(** The obligations of a call allowed under a grant. *)
Definition grant_obligations (descriptor : CapabilityDescriptor) (ceiling : AuthorityCeiling)
    (g : CapabilityGrant) : option Obligations :=
  obligations_for_grant descriptor g
    (intersect_resource_ceilings (resource_ceiling (cg_constraints g))
       (max_resource_ceiling ceiling)).

Lemma covered_test `{!DecimalLaws D} descriptor estimate ceiling g :
  effects_are_covered (cd_effects descriptor) (allowed_effects (cg_constraints g))
  && effects_are_covered (cd_effects descriptor) (ac_allowed_effects ceiling)
  && resource_estimate_is_covered estimate
       (intersect_resource_ceilings (resource_ceiling (cg_constraints g))
          (max_resource_ceiling ceiling)) = true
  <-> grant_covers descriptor estimate ceiling g.
Proof.
  rewrite !andb_true_iff, !effects_are_covered_spec, resource_estimate_is_covered_spec,
    intersect_estimate_within. unfold grant_covers, allows_effect.
  split.
  - intros [[H1 H2] H3]. split; [|done]. intros e He. rewrite bool_decide_eq_true. auto.
  - intros [H1 H2]. split; [|done].
    split; intros e He; destruct (H1 e He) as [? Ha]; [done|]. by apply bool_decide_eq_true in Ha.
Qed.

Lemma try_grants_spec `{!DecimalLaws D} descriptor estimate ceiling gs :
  match try_grants descriptor estimate (Some ceiling) gs with
  | Some o => exists g, g ∈ gs /\ grant_covers descriptor estimate ceiling g /\
      grant_obligations descriptor ceiling g = Some o
  | None => forall g, g ∈ gs -> grant_covers descriptor estimate ceiling g ->
      grant_obligations descriptor ceiling g = None
  end.
Proof.
  induction gs as [|g gs IH]; [set_solver|]. cbn [try_grants].
  fold (grant_obligations descriptor ceiling g).
  set (test := _ && _ && resource_estimate_is_covered _ _).
  assert (test = true <-> grant_covers descriptor estimate ceiling g) as Ht by apply covered_test.
  assert (match try_grants descriptor estimate (Some ceiling) gs with
    | Some o => exists g0, g0 ∈ g :: gs /\ grant_covers descriptor estimate ceiling g0 /\
        grant_obligations descriptor ceiling g0 = Some o
    | None => forall g0, g0 ∈ gs -> grant_covers descriptor estimate ceiling g0 ->
        grant_obligations descriptor ceiling g0 = None end) as IH'.
  { destruct (try_grants _ _ _ gs); [|done]. destruct IH as (g0 & ? & ?). exists g0.
    split; [by right|done]. }
  destruct test eqn:Et.
  - assert (grant_covers descriptor estimate ceiling g) as Hc by (by apply Ht).
    destruct (grant_obligations descriptor ceiling g) as [o|] eqn:Eo.
    + exists g. split_and!; [by left|done..].
    + destruct (try_grants _ _ _ gs); [done|]. intros g0 [->|Hin]%elem_of_cons Hc0; auto.
  - destruct (try_grants _ _ _ gs); [done|]. intros g0 [->|Hin]%elem_of_cons Hc0; [|auto].
    apply Ht in Hc0. done.
Qed.

(** Credentials only stage credentials, and secrets only those the rules name. *)
Definition credential_within (rules : ToolExecutionRules) (x : Obligation) : Prop :=
  match x with
  | InjectSecretOnce h => h ∈ ter_secrets rules
  | InjectCredentialAccountOnce _ _ _ _ _ | FirstPartyCredentialStagedViaHostPort _ => True
  | _ => False
  end.

Lemma credential_obligation_within descriptor rules c l x :
  credential_obligation descriptor rules c = Some l -> x ∈ l -> credential_within rules x.
Proof.
  unfold credential_obligation. intros H Hx.
  repeat (case_match || case_bool_decide); simplify_eq/=; set_solver.
Qed.

Lemma credential_obligations_within descriptor rules l x :
  credential_obligations descriptor rules = Some l -> x ∈ l -> credential_within rules x.
Proof.
  unfold credential_obligations. intros H Hx. destruct (negb (bool_decide _)).
  - destruct (negb _); [done|]. apply fmap_Some in H as (ls & Hls & ->).
    apply list_elem_of_In, in_concat in Hx as (l' & Hl' & Hx%list_elem_of_In).
    apply list_elem_of_In in Hl'. apply mapM_Some_1 in Hls.
    apply list_elem_of_lookup in Hl' as [i Hi].
    destruct (Forall2_lookup_r _ _ _ _ _ Hls Hi) as (c & _ & Hc).
    by eapply credential_obligation_within.
  - destruct (has_effect _ _); [|by simplify_eq; apply elem_of_nil in Hx].
    destruct (_ && _); [|destruct (ter_secrets rules) as [|h []] eqn:Es; try done];
      injection H as <-; apply list_elem_of_singleton in Hx as ->; simpl; [done|].
    rewrite Es. by left.
Qed.

(** What the obligations of an allowed call under a grant are: the grant's mounts
    when the capability touches files or runs code, its network policy when the
    capability uses the network or the policy constrains anything, the ceiling the
    call is held to and its output limit, and no secret the grant does not name. *)
Record obligations_of_grant (descriptor : CapabilityDescriptor) (ceiling : AuthorityCeiling)
    (g : CapabilityGrant) (o : Obligations) : Prop := {
  og_mounts m : UseScopedMounts m ∈ as_slice o <->
    (exists e, e ∈ cd_effects descriptor /\
       e ∈ [ReadFilesystem; WriteFilesystem; DeleteFilesystem; ExecuteCode]) /\
    m = gc_mounts (cg_constraints g);
  og_network p : ApplyNetworkPolicy p ∈ as_slice o <->
    (Network ∈ cd_effects descriptor \/ allowed_targets p <> [] \/
     deny_private_ip_ranges p = true \/ is_Some (max_egress_bytes p)) /\
    p = gc_network (cg_constraints g);
  og_ceiling c : EnforceResourceCeiling c ∈ as_slice o <->
    intersect_resource_ceilings (resource_ceiling (cg_constraints g))
      (max_resource_ceiling ceiling) = Some c;
  og_output n : EnforceOutputLimit n ∈ as_slice o <->
    exists c, intersect_resource_ceilings (resource_ceiling (cg_constraints g))
      (max_resource_ceiling ceiling) = Some c /\ ceil_max_output_bytes c = Some n;
  og_secrets h : InjectSecretOnce h ∈ as_slice o -> h ∈ gc_secrets (cg_constraints g) }.

Lemma requires_mount_policy_spec descriptor :
  descriptor_requires_mount_policy descriptor = true <->
  exists e, e ∈ cd_effects descriptor /\
    e ∈ [ReadFilesystem; WriteFilesystem; DeleteFilesystem; ExecuteCode].
Proof.
  unfold descriptor_requires_mount_policy. rewrite existsb_exists.
  split; intros (e & He%list_elem_of_In & H); exists e; (split; [done|]).
  - destruct e; try discriminate H; set_solver.
  - destruct e; try reflexivity; set_solver.
Qed.

Lemma network_constrained_spec p :
  network_policy_is_constrained p = true <->
  allowed_targets p <> [] \/ deny_private_ip_ranges p = true \/ is_Some (max_egress_bytes p).
Proof.
  unfold network_policy_is_constrained.
  rewrite !orb_true_iff, negb_true_iff, bool_decide_eq_false, bool_decide_eq_true. tauto.
Qed.

Lemma elem_of_when {A} (b : bool) (x y : A) : x ∈ (if b then [y] else []) <-> b = true /\ x = y.
Proof. destruct b; rewrite ?list_elem_of_singleton; [naive_solver|set_solver]. Qed.

Lemma elem_of_ceilings (ec : option ResourceCeiling) x :
  x ∈ match ec with
      | None => []
      | Some c => EnforceResourceCeiling c
          :: match ceil_max_output_bytes c with Some n => [EnforceOutputLimit n] | None => [] end
      end <->
  exists c, ec = Some c /\ (x = EnforceResourceCeiling c \/
    exists n, ceil_max_output_bytes c = Some n /\ x = EnforceOutputLimit n).
Proof.
  destruct ec as [c|].
  - rewrite elem_of_cons. destruct (ceil_max_output_bytes c) as [n|] eqn:E;
      rewrite ?list_elem_of_singleton, ?elem_of_nil; naive_solver.
  - rewrite elem_of_nil. naive_solver.
Qed.

Lemma grant_obligations_contain descriptor ceiling g o :
  grant_obligations descriptor ceiling g = Some o -> obligations_of_grant descriptor ceiling g o.
Proof.
  unfold grant_obligations, obligations_for_grant, obligations_for_rules. cbn [ter_mounts ter_network].
  destruct (credential_obligations _ _) as [cr|] eqn:Ecr; [|done].
  destruct (Obligations_new _) as [o'|] eqn:Eo; [|done]. intros [= ->].
  apply Obligations_new_ok in Eo as [_ ->].
  pose proof (fun x => credential_obligations_within _ _ _ x Ecr) as Hcr.
  pose proof (network_constrained_spec (gc_network (cg_constraints g))) as Hn.
  split; cbn [as_slice]; intros v;
    rewrite canonical_order_permutation, !elem_of_app, !elem_of_when, elem_of_ceilings.
  - rewrite <- requires_mount_policy_spec. specialize (Hcr (UseScopedMounts v)). naive_solver.
  - specialize (Hcr (ApplyNetworkPolicy v)). unfold has_effect.
    rewrite orb_true_iff, bool_decide_eq_true, Hn. naive_solver.
  - specialize (Hcr (EnforceResourceCeiling v)). naive_solver.
  - specialize (Hcr (EnforceOutputLimit v)). naive_solver.
  - specialize (Hcr (InjectSecretOnce v)). naive_solver.
Qed.

Lemma spawn_descriptor_effects descriptor e :
  e ∈ cd_effects (spawn_descriptor descriptor) <-> e ∈ cd_effects descriptor \/ e = SpawnProcess.
Proof.
  unfold spawn_descriptor, has_effect. case_bool_decide; simpl; set_solver.
Qed.

(** The grants a lease-backed decision considers. *)
Definition candidate (self : LeaseBackedAuthorizer) (context : ExecutionContext)
    (descriptor : CapabilityDescriptor) (now : Z) (g : CapabilityGrant) : Prop :=
  (g ∈ cs_grants (ec_grants context) \/
   g ∈ active_grants_for_context (lba_leases self) context now) /\
  grant_applies context descriptor now g = true.

Lemma lease_backed_spec `{!DecimalLaws D} self context descriptor estimate td now :
  ExecutionContext_validate context = Ok tt -> ec_trust context = class (td_effective_trust td) ->
  let ceiling := td_authority_ceiling td in
  match lease_backed_authorize self context descriptor estimate td now with
  | Allow o => exists g, candidate self context descriptor now g /\
      grant_covers descriptor estimate ceiling g /\ grant_obligations descriptor ceiling g = Some o
  | Deny MissingGrant => forall g, ~ candidate self context descriptor now g
  | Deny PolicyDenied => (exists g, candidate self context descriptor now g) /\
      forall g, candidate self context descriptor now g ->
        grant_covers descriptor estimate ceiling g -> grant_obligations descriptor ceiling g = None
  | _ => False
  end.
Proof.
  intros Hv Ht ceiling. unfold lease_backed_authorize, authorize_from_grants_with_trust,
    authorize_from_grants_with_authority_ceiling. rewrite Hv. cbn [is_err is_ok negb].
  rewrite bool_decide_eq_true_2 by done. cbn [negb].
  set (applicable := List.filter _ _).
  assert (forall g, g ∈ applicable <-> candidate self context descriptor now g) as Hin.
  { intros g. unfold applicable, candidate.
    by rewrite list_elem_of_In, filter_In, <- list_elem_of_In, elem_of_app. }
  pose proof (try_grants_spec descriptor estimate ceiling applicable) as Hspec. fold ceiling.
  destruct (try_grants _ _ _ applicable) as [o|].
  - destruct Hspec as (g & Hg & Hrest). exists g. by rewrite <- Hin.
  - case_bool_decide as Hlen; cbn [negb].
    + apply length_zero_iff_nil in Hlen. intros g Hg. apply Hin in Hg. rewrite Hlen in Hg.
      by apply elem_of_nil in Hg.
    + split; [|intros g Hg; apply Hspec; by apply Hin].
      destruct applicable as [|g rest]; [done|]. exists g. apply Hin. by left.
Qed.

(** ** Properties *)


(** The ceiling a decision enforces is the meet of the grant's and the trust
    decision's: a demand passes it exactly when it passes both.  And a grant that
    [grant_exceeds_authority_ceiling] does not report asks for nothing the
    authority withholds: all its effects are allowed, and every demand its own
    ceiling admits the authority's ceiling admits. *)
Theorem enforced_ceiling_is_meet `{!DecimalLaws D} (g : CapabilityGrant) (c : AuthorityCeiling) :
  (forall demand,
     ceiling_admits (intersect_resource_ceilings (resource_ceiling (cg_constraints g))
       (max_resource_ceiling c)) demand <->
     ceiling_admits (resource_ceiling (cg_constraints g)) demand /\
     ceiling_admits (max_resource_ceiling c) demand) /\
  (grant_exceeds_authority_ceiling g c = false ->
   (forall e, e ∈ allowed_effects (cg_constraints g) -> allows_effect c e = true) /\
   (forall demand, ceiling_admits (resource_ceiling (cg_constraints g)) demand ->
      ceiling_admits (max_resource_ceiling c) demand)).
Proof.
  split; [intros demand; apply intersect_ceiling_admits|].
  unfold grant_exceeds_authority_ceiling. rewrite orb_false_iff, negb_false_iff,
    effects_are_covered_spec. intros [He Hc]. split.
  - intros e H. apply bool_decide_eq_true. auto.
  - intros demand. by apply ceiling_not_exceeding.
Qed.

(** ** Live policies *)

Inductive stable_step : LiveStableToolPolicy -> LiveStableToolPolicy -> Prop :=
| stable_step_publish p expected next p' r :
    stable_publish p expected next = (p', r) -> stable_step p p'.

Lemma stable_publish_cases p expected next p' r :
  stable_publish p expected next = (p', r) ->
  (p' = p /\ is_err r = true) \/
  (r = Ok tt /\ p' = mk_LiveStableToolPolicy next false /\ stable_validate next = Ok tt /\
   sts_revision (stable_snapshot p) = expected /\ expected < sts_revision next /\
   forall capability id, sts_capabilities (stable_snapshot p) !! capability = Some id ->
     sts_capabilities next !! capability = Some id).
Proof.
  unfold stable_publish. destruct (stable_validate next) as [[]|]; [|by intros [= <- <-]; left].
  destruct (stable_poisoned p); [by intros [= <- <-]; left|].
  destruct (sts_revision (stable_snapshot p) =? expected) eqn:E1; [|by intros [= <- <-]; left].
  destruct (sts_revision next <=? expected) eqn:E2; [by intros [= <- <-]; left|]. simpl.
  destruct (existsb _ _) eqn:E3; [by intros [= <- <-]; left|]. intros [= <- <-]. right.
  split_and!; try done; [by apply Z.eqb_eq|by apply Z.leb_gt|].
  intros capability id Hc. rewrite existsb_false_Forall, Forall_forall in E3.
  assert ((capability, id) ∈ map_to_list (sts_capabilities (stable_snapshot p))) as Hin
    by (by apply elem_of_map_to_list).
  specialize (E3 _ Hin). simpl in E3. by apply negb_false_iff, bool_decide_eq_true in E3.
Qed.

Definition stable_ok (p : LiveStableToolPolicy) : Prop :=
  stable_poisoned p = false /\ stable_validate (stable_snapshot p) = Ok tt.

Lemma stable_step_ok p p' : stable_ok p -> stable_step p p' -> stable_ok p'.
Proof.
  intros Hok Hstep. destruct Hstep as [p expected next p' r H].
  apply stable_publish_cases in H as [[-> _]|(_ & -> & Hv & _)]; [done|by split].
Qed.

(** A later policy: its revision has not decreased, equal only if nothing was
    published, and every registered capability still names the same tool. *)
Definition succeeds (p p' : LiveStableToolPolicy) : Prop :=
  stable_ok p' /\ sts_revision (stable_snapshot p) <= sts_revision (stable_snapshot p') /\
  (sts_revision (stable_snapshot p') = sts_revision (stable_snapshot p) -> p' = p) /\
  forall capability id, sts_capabilities (stable_snapshot p) !! capability = Some id ->
    sts_capabilities (stable_snapshot p') !! capability = Some id.

Lemma rtc_stable_succeeds p p' : stable_ok p -> rtc stable_step p p' -> succeeds p p'.
Proof.
  intros Hok Hrtc. induction Hrtc as [p|p1 p2 p3 Hstep _ IH]; [by split_and!|].
  pose proof (stable_step_ok _ _ Hok Hstep) as Hok2.
  destruct (IH Hok2) as (Hok3 & Hle & Heq & Hcap).
  destruct Hstep as [p expected next p' r H].
  apply stable_publish_cases in H as [[-> _]|(_ & -> & _ & Hrev & Hlt & Hkeep)]; [by split_and!|].
  simpl in *. split_and!; [done|lia|lia|]. intros capability id Hc. by apply Hcap, Hkeep.
Qed.

Lemma stable_validate_ok s : stable_validate s = Ok tt ->
  sts_revision s <> 0 /\
  (forall id rule, sts_tools s !! id = Some rule -> id <> 0 /\ rule_revision rule = sts_revision s) /\
  (forall capability id, sts_capabilities s !! capability = Some id -> is_Some (sts_tools s !! id)).
Proof.
  unfold stable_validate. destruct (_ || _) eqn:E; [done|]. intros _.
  rewrite !orb_false_iff in E. destruct E as [[E1 E2] E3].
  rewrite existsb_false_Forall, Forall_forall in E2.
  rewrite existsb_false_Forall, Forall_forall in E3. split_and!; [by apply Z.eqb_neq|..].
  - intros id rule Hr. assert ((id, rule) ∈ map_to_list (sts_tools s)) as Hin
      by (by apply elem_of_map_to_list). specialize (E2 _ Hin). simpl in E2. lia.
  - intros capability id Hc. assert ((capability, id) ∈ map_to_list (sts_capabilities s)) as Hin
      by (by apply elem_of_map_to_list). specialize (E3 _ Hin). simpl in E3.
    apply bool_decide_eq_false in E3. by destruct (sts_tools s !! id).
Qed.

Lemma decide_rule_allow `{!DecimalLaws D} context descriptor estimate td rule o :
  decide_rule context descriptor estimate td rule = Allow o ->
  ExecutionContext_validate context = Ok tt /\ ec_trust context = class (td_effective_trust td) /\
  enabled rule = true /\ rule_revision rule <> 0 /\
  (forall e, e ∈ cd_effects descriptor -> e ∈ ter_allowed_effects (execution rule) /\
     allows_effect (td_authority_ceiling td) e = true) /\
  obligations_for_rules descriptor (execution rule)
    (intersect_resource_ceilings (ter_resource_ceiling (execution rule))
       (max_resource_ceiling (td_authority_ceiling td))) = Some o.
Proof.
  unfold decide_rule. destruct (ExecutionContext_validate context) as [[]|] eqn:Ev; [|done].
  cbn [is_err is_ok negb]. case_bool_decide as Ht; [|done]. cbn [negb].
  destruct (rule_revision rule =? 0) eqn:Er; [done|]. destruct (enabled rule); [|done]. cbn [negb].
  destruct (effects_are_covered _ (ter_allowed_effects _)) eqn:E1; [|done]. cbn [negb orb].
  destruct (effects_are_covered _ (ac_allowed_effects _)) eqn:E2; [|done]. cbn [negb orb].
  destruct (instance_estimate_is_covered _ _); [|done]. cbn [negb].
  destruct (obligations_for_rules _ _ _) as [o'|]; [|done]. intros [= <-].
  rewrite effects_are_covered_spec in E1, E2.
  split_and!; try done; [by apply Z.eqb_neq|]. intros e He. split; [auto|].
  apply bool_decide_eq_true. auto.
Qed.

(** Live revocation through the stable tool policy.  However many settings are
    published after a policy was built (each one complete, or refused with the
    policy unchanged): the revision never decreases and changes with every accepted
    publication; a registered capability keeps its tool identity; and a call
    prepared earlier is admitted only under the rule that the current revision
    gives to the capability's tool, which is enabled and covers the call's effects
    together with the trust ceiling, if the obligations prepared for it are the
    ones that rule demands now; the admission returns the current revision. *)
Theorem admission_under_current_rule `{!DecimalLaws D} p p' context descriptor estimate td
    prepared revision :
  stable_ok p -> rtc stable_step p p' ->
  succeeds p p' /\
  (instance_admit_prepared p' context descriptor estimate td prepared = Ok (Some revision) ->
   exists id rule o, sts_capabilities (stable_snapshot p') !! cd_id descriptor = Some id /\
     sts_tools (stable_snapshot p') !! id = Some rule /\ enabled rule = true /\
     revision = sts_revision (stable_snapshot p') /\
     (forall e, e ∈ cd_effects descriptor -> e ∈ ter_allowed_effects (execution rule) /\
        allows_effect (td_authority_ceiling td) e = true) /\
     obligations_for_rules descriptor (execution rule)
       (intersect_resource_ceilings (ter_resource_ceiling (execution rule))
          (max_resource_ceiling (td_authority_ceiling td))) = Some o /\
     slice_eqb (as_slice o) prepared = true).
Proof.
  intros Hok Hrtc. pose proof (rtc_stable_succeeds p p' Hok Hrtc) as Hs. split; [done|].
  destruct Hs as ([Hpois Hv] & _). unfold instance_admit_prepared. cbn [current_rule stable_policy_source].
  unfold stable_rule. rewrite Hpois.
  destruct (sts_capabilities _ !! cd_id descriptor) as [id|] eqn:Ec; [|done].
  destruct (sts_tools _ !! id) as [rule|] eqn:Er; [|done].
  destruct (decide_rule _ _ _ _ rule) as [o|reason|] eqn:Ed; try done.
  destruct (slice_eqb _ _) eqn:Es; [|done]. intros [= <-].
  apply decide_rule_allow in Ed as (_ & _ & Hen & _ & Heff & Ho).
  destruct (stable_validate_ok _ Hv) as (_ & Hrev & _). destruct (Hrev id rule Er) as [_ ->].
  by exists id, rule, o.
Qed.

End Authorization.

(** ** Evaluation: reading files under one grant *)

Module AuthExample.

Definition grant (ceiling : option ResourceCeiling) : CapabilityGrant :=
  mk_CapabilityGrant (from_uuid 1) (mk_CapabilityId "files.read") (PUser (from_trusted "ada"))
    PHostRuntime
    (mk_GrantConstraints [ReadFilesystem] (mk_MountView []) NetworkPolicy_default [] ceiling
       (Some 100) (Some 2)).

Definition context : ExecutionContext :=
  mk_ExecutionContext (from_uuid 7) (from_uuid 8) None None (from_trusted "default")
    (from_trusted "ada") None None None (from_trusted "files") RuntimeFirstParty UserTrusted
    (mk_CapabilitySet [grant None]) (mk_MountView [])
    (mk_ResourceScope (from_trusted "default") (from_trusted "ada") None None None (from_uuid 7)).

Definition descriptor : CapabilityDescriptor :=
  mk_CapabilityDescriptor _ (mk_CapabilityId "files.read") (from_trusted "files")
    RuntimeFirstParty UserTrusted "reads a file" ("{}" : @json string_json) [ReadFilesystem]
    PermAllow [] None.

Definition decision (c : option ResourceCeiling) : TrustDecision :=
  mk_TrustDecision eff_user_trusted (mk_AuthorityCeiling [ReadFilesystem] c) ProvAdminConfig 0.

Definition tokens (n : Z) : ResourceCeiling :=
  mk_ResourceCeiling None (Some n) None None None None.

Definition rule : InstanceToolRule :=
  mk_InstanceToolRule true 3
    (mk_ToolExecutionRules [ReadFilesystem] (mk_MountView []) NetworkPolicy_default [] None).
Definition live : LiveStableToolPolicy :=
  mk_LiveStableToolPolicy
    (mk_StableToolPolicySnapshot 3 {[ 9 := rule ]} {[ mk_CapabilityId "files.read" := 9 ]}) false.

End AuthExample.


Lemma enforced_ceiling_is_meet_witness :
  allows_effect (mk_AuthorityCeiling [ReadFilesystem] (Some (AuthExample.tokens 10)))
    ReadFilesystem = true /\
  (forall demand, ceiling_admits (Some (AuthExample.tokens 5)) demand ->
     ceiling_admits (Some (AuthExample.tokens 10)) demand).
Proof.
  destruct (enforced_ceiling_is_meet (AuthExample.grant (Some (AuthExample.tokens 5)))
    (mk_AuthorityCeiling [ReadFilesystem] (Some (AuthExample.tokens 10)))) as [_ H].
  destruct (H eq_refl) as [He Hd]. split; [|exact Hd]. apply He. apply list_elem_of_here.
Defined.

Lemma admission_under_current_rule_witness :
  exists id, sts_capabilities (stable_snapshot AuthExample.live)
      !! cd_id AuthExample.descriptor = Some id.
Proof.
  assert (stable_ok AuthExample.live) as Hok by (split; reflexivity).
  destruct (admission_under_current_rule AuthExample.live AuthExample.live AuthExample.context
    AuthExample.descriptor ResourceEstimate_default (AuthExample.decision None)
    [UseScopedMounts (mk_MountView [])] 3 Hok (rtc_refl _ _)) as [_ H].
  destruct H as (id & rule & o & Hid & _); [reflexivity|]. exists id. exact Hid.
Defined.
