(* ===== verification/RunState.v ===== *)
(** * Run state and approval requests

    [crates/brassclaw_run_state/src/lib.rs]: the current state of every invocation
    and the approval requests it waits on, with the in-memory stores of both.  A
    record is found under the tenant, user, agent, project and thread of its scope
    and its own identifier, so another scope sees nothing of it.  A run record is
    overwritten by whatever transition comes next; an approval is decided from
    [Pending] only.  The theorems: every pending request is decided exactly once
    and a decision is final; a run record is created once and then changed only
    under its own key. *)

From S2P Require Import Prelude External HostIds Paths HostTypes Leases.

Open Scope Z_scope.

Inductive RunStatus : Type := RunRunning | BlockedApproval | BlockedAuth | RunCompleted | RunFailed.

Inductive ApprovalStatus : Type := Pending | Approved | Denied | Expired.

#[export] Instance RunStatus_eq_dec : EqDecision RunStatus.
Proof. solve_decision. Defined.
#[export] Instance ApprovalStatus_eq_dec : EqDecision ApprovalStatus.
Proof. solve_decision. Defined.

Inductive RunStateError : Type :=
| UnknownInvocation (invocation_id : InvocationId)
| InvocationAlreadyExists (invocation_id : InvocationId)
| UnknownApprovalRequest (request_id : ApprovalRequestId)
| ApprovalRequestAlreadyExists (request_id : ApprovalRequestId)
| ApprovalNotPending (request_id : ApprovalRequestId) (status : ApprovalStatus)
| RsInvalidPath (reason : string)
| RsFilesystem (reason : string)
| RsSerialization (reason : string)
| RsDeserialization (reason : string)
| RsBackend (reason : string).

Record RunRecord : Type := mk_RunRecord {
  rr_invocation_id : InvocationId;
  rr_capability_id : CapabilityId;
  rr_scope : ResourceScope;
  rr_status : RunStatus;
  rr_approval_request_id : option ApprovalRequestId;
  rr_error_kind : option string }.

Record RunStart : Type := mk_RunStart {
  start_invocation_id : InvocationId;
  start_capability_id : CapabilityId;
  start_scope : ResourceScope }.

Definition RunStateKey : Type :=
  (TenantId * UserId * option AgentId * option ProjectId * option ThreadId * InvocationId)%type.
Definition ApprovalKey : Type :=
  (TenantId * UserId * option AgentId * option ProjectId * option ThreadId
   * ApprovalRequestId)%type.

#[export] Instance RunStateKey_eq_dec : EqDecision RunStateKey := _.
#[export] Instance RunStateKey_countable : Countable RunStateKey := _.
#[export] Instance ApprovalKey_eq_dec : EqDecision ApprovalKey := _.
#[export] Instance ApprovalKey_countable : Countable ApprovalKey := _.

Definition RunStateKey_new (scope : ResourceScope) (id : InvocationId) : RunStateKey :=
  (rs_tenant_id scope, rs_user_id scope, rs_agent_id scope, rs_project_id scope,
   rs_thread_id scope, id).
Definition ApprovalKey_new (scope : ResourceScope) (id : ApprovalRequestId) : ApprovalKey :=
  (rs_tenant_id scope, rs_user_id scope, rs_agent_id scope, rs_project_id scope,
   rs_thread_id scope, id).

(** ** [InMemoryRunStateStore] *)

Abbreviation RunMap := (gmap RunStateKey RunRecord).

Definition run_start (m : RunMap) (s : RunStart) : RunMap * result RunRecord RunStateError :=
  let record := mk_RunRecord (start_invocation_id s) (start_capability_id s) (start_scope s)
    RunRunning None None in
  let key := RunStateKey_new (rr_scope record) (rr_invocation_id record) in
  match m !! key with
  | Some _ => (m, Err (InvocationAlreadyExists (rr_invocation_id record)))
  | None => (<[key := record]> m, Ok record)
  end.

Definition run_update (m : RunMap) (scope : ResourceScope) (id : InvocationId)
    (update : RunRecord -> RunRecord) : RunMap * result RunRecord RunStateError :=
  let key := RunStateKey_new scope id in
  match m !! key with
  | None => (m, Err (UnknownInvocation id))
  | Some record => (<[key := update record]> m, Ok (update record))
  end.

(** The three assignments every transition makes. *)
Definition set_run (status : RunStatus) (approval : option ApprovalRequestId)
    (error : option string) (r : RunRecord) : RunRecord :=
  mk_RunRecord (rr_invocation_id r) (rr_capability_id r) (rr_scope r) status approval error.

Definition run_block_auth m scope id (error_kind : string) :=
  run_update m scope id (set_run BlockedAuth None (Some error_kind)).
Definition run_complete m scope id := run_update m scope id (set_run RunCompleted None None).
Definition run_fail m scope id (error_kind : string) :=
  run_update m scope id (set_run RunFailed None (Some error_kind)).
Definition run_get (m : RunMap) (scope : ResourceScope) (id : InvocationId) : option RunRecord :=
  m !! RunStateKey_new scope id.

Definition run_by_uuid (a b : RunRecord) : Prop :=
  as_uuid (rr_invocation_id a) <= as_uuid (rr_invocation_id b).
#[local] Instance run_by_uuid_dec : RelDecision run_by_uuid.
Proof. intros a b. unfold run_by_uuid. apply _. Defined.

Definition run_records_for_scope (m : RunMap) (scope : ResourceScope) : list RunRecord :=
  merge_sort run_by_uuid
    (List.filter (fun r => same_scope_owner (rr_scope r) scope) (map_to_list m).*2).

Section Approvals.
Context `{D : Decimal}.

Definition run_block_approval (m : RunMap) scope id (approval : ApprovalRequest) :=
  run_update m scope id (set_run BlockedApproval (Some (ar_id approval)) None).

(** ** [InMemoryApprovalRequestStore] *)

Record ApprovalRecord : Type := mk_ApprovalRecord {
  ap_scope : ResourceScope;
  ap_request : ApprovalRequest;
  ap_status : ApprovalStatus }.

Definition set_approval (r : ApprovalRecord) (status : ApprovalStatus) : ApprovalRecord :=
  mk_ApprovalRecord (ap_scope r) (ap_request r) status.

Abbreviation ApprovalMap := (gmap ApprovalKey ApprovalRecord).

Definition approval_key (r : ApprovalRecord) : ApprovalKey :=
  ApprovalKey_new (ap_scope r) (ar_id (ap_request r)).

Definition save_pending (m : ApprovalMap) (scope : ResourceScope) (request : ApprovalRequest) :
    ApprovalMap * result ApprovalRecord RunStateError :=
  let record := mk_ApprovalRecord scope request Pending in
  match m !! approval_key record with
  | Some _ => (m, Err (ApprovalRequestAlreadyExists (ar_id request)))
  | None => (<[approval_key record := record]> m, Ok record)
  end.

Definition approval_get (m : ApprovalMap) (scope : ResourceScope) (id : ApprovalRequestId) :
    option ApprovalRecord := m !! ApprovalKey_new scope id.

Definition update_status (m : ApprovalMap) (scope : ResourceScope) (id : ApprovalRequestId)
    (status : ApprovalStatus) : ApprovalMap * result ApprovalRecord RunStateError :=
  let key := ApprovalKey_new scope id in
  match m !! key with
  | None => (m, Err (UnknownApprovalRequest id))
  | Some record =>
      if negb (bool_decide (ap_status record = Pending))
      then (m, Err (ApprovalNotPending id (ap_status record)))
      else (<[key := set_approval record status]> m, Ok (set_approval record status))
  end.

Definition approve m scope id := update_status m scope id Approved.
Definition deny m scope id := update_status m scope id Denied.

Definition discard_pending (m : ApprovalMap) (scope : ResourceScope) (id : ApprovalRequestId) :
    ApprovalMap * result ApprovalRecord RunStateError :=
  let key := ApprovalKey_new scope id in
  match m !! key with
  | None => (m, Err (UnknownApprovalRequest id))
  | Some record =>
      if negb (bool_decide (ap_status record = Pending))
      then (m, Err (ApprovalNotPending id (ap_status record)))
      else (delete key m, Ok record)
  end.

Definition approval_by_uuid (a b : ApprovalRecord) : Prop :=
  as_uuid (ar_id (ap_request a)) <= as_uuid (ar_id (ap_request b)).
#[local] Instance approval_by_uuid_dec : RelDecision approval_by_uuid.
Proof. intros a b. unfold approval_by_uuid. apply _. Defined.

Definition approval_records_for_scope (m : ApprovalMap) (scope : ResourceScope) :
    list ApprovalRecord :=
  merge_sort approval_by_uuid
    (List.filter (fun r => same_scope_owner (ap_scope r) scope) (map_to_list m).*2).

(** ** Runs of approval-store calls *)

Inductive ApprovalOp : Type :=
| ASavePending (scope : ResourceScope) (request : ApprovalRequest)
| AApprove (scope : ResourceScope) (id : ApprovalRequestId)
| ADeny (scope : ResourceScope) (id : ApprovalRequestId)
| ADiscardPending (scope : ResourceScope) (id : ApprovalRequestId).

Definition approval_call (m : ApprovalMap) (op : ApprovalOp) :
    ApprovalMap * result ApprovalRecord RunStateError :=
  match op with
  | ASavePending scope request => save_pending m scope request
  | AApprove scope id => approve m scope id
  | ADeny scope id => deny m scope id
  | ADiscardPending scope id => discard_pending m scope id
  end.

Definition approval_op_key (op : ApprovalOp) : ApprovalKey :=
  match op with
  | ASavePending scope request => ApprovalKey_new scope (ar_id request)
  | AApprove scope id | ADeny scope id | ADiscardPending scope id => ApprovalKey_new scope id
  end.

Fixpoint approval_run (m : ApprovalMap) (ops : list ApprovalOp) :
    ApprovalMap * list (ApprovalOp * result ApprovalRecord RunStateError) :=
  match ops with
  | [] => (m, [])
  | op :: rest =>
      let '(m1, r) := approval_call m op in
      let '(m2, tr) := approval_run m1 rest in
      (m2, (op, r) :: tr)
  end.

Definition is_save (op : ApprovalOp) : bool :=
  match op with ASavePending _ _ => true | _ => false end.

(** The successful calls on a key that file a request, or that settle one. *)
Definition filed (k : ApprovalKey) (c : ApprovalOp * result ApprovalRecord RunStateError) : bool :=
  bool_decide (approval_op_key c.1 = k) && is_ok c.2 && is_save c.1.
Definition settled (k : ApprovalKey) (c : ApprovalOp * result ApprovalRecord RunStateError) : bool :=
  bool_decide (approval_op_key c.1 = k) && is_ok c.2 && negb (is_save c.1).

Definition count {A} (p : A -> bool) (l : list A) : Z := Z.of_nat (length (List.filter p l)).

Lemma count_cons {A} (p : A -> bool) x l : count p (x :: l) = b2z (p x) + count p l.
Proof. unfold count. simpl. destruct (p x); simpl; lia. Qed.

(** A successful call other than [save_pending] finds its record pending. *)
Lemma update_status_cases m scope id st m' r :
  update_status m scope id st = (m', r) ->
  (exists e, m' = m /\ r = Err e) \/
  (exists rec, m !! ApprovalKey_new scope id = Some rec /\ ap_status rec = Pending /\
     m' = <[ApprovalKey_new scope id := set_approval rec st]> m /\ r = Ok (set_approval rec st)).
Proof.
  unfold update_status. destruct (m !! _) as [rec|] eqn:E; [|intros [= <- <-]; eauto].
  case_bool_decide as Hp; simpl; intros [= <- <-]; [right; by exists rec|left; by eexists].
Qed.

Lemma discard_pending_cases m scope id m' r :
  discard_pending m scope id = (m', r) ->
  (exists e, m' = m /\ r = Err e) \/
  (exists rec, m !! ApprovalKey_new scope id = Some rec /\ ap_status rec = Pending /\
     m' = delete (ApprovalKey_new scope id) m /\ r = Ok rec).
Proof.
  unfold discard_pending. destruct (m !! _) as [rec|] eqn:E; [|intros [= <- <-]; eauto].
  case_bool_decide as Hp; simpl; intros [= <- <-]; [right; by exists rec|left; by eexists].
Qed.

Lemma save_pending_cases m scope request m' r :
  save_pending m scope request = (m', r) ->
  (exists e, m' = m /\ r = Err e) \/
  (m !! ApprovalKey_new scope (ar_id request) = None /\
     m' = <[ApprovalKey_new scope (ar_id request) := mk_ApprovalRecord scope request Pending]> m /\
     r = Ok (mk_ApprovalRecord scope request Pending)).
Proof.
  unfold save_pending, approval_key. simpl.
  destruct (m !! _) as [rec|] eqn:E; intros [= <- <-]; [left; by eexists|by right].
Qed.

(** What one call does at a key: nothing, file a new request, settle a pending one. *)
Inductive approval_moves (k : ApprovalKey) (op : ApprovalOp) (o : option ApprovalRecord) :
    option ApprovalRecord -> result ApprovalRecord RunStateError -> Prop :=
| appr_other r : approval_op_key op <> k -> approval_moves k op o o r
| appr_fail e : approval_moves k op o o (Err e)
| appr_save rec : approval_op_key op = k -> is_save op = true -> o = None ->
    ap_status rec = Pending -> approval_moves k op o (Some rec) (Ok rec)
| appr_settle rec st : approval_op_key op = k -> is_save op = false -> o = Some rec ->
    ap_status rec = Pending -> (st = Approved -> exists scope id, op = AApprove scope id) ->
    st <> Pending ->
    approval_moves k op o (Some (set_approval rec st)) (Ok (set_approval rec st))
| appr_discard rec : approval_op_key op = k -> is_save op = false -> o = Some rec ->
    ap_status rec = Pending -> approval_moves k op o None (Ok rec).

Lemma approval_call_moves m op m' r k :
  approval_call m op = (m', r) -> approval_moves k op (m !! k) (m' !! k) r.
Proof.
  intros H. destruct (decide (approval_op_key op = k)) as [Hk|Hk].
  - destruct op as [scope req|scope id|scope id|scope id]; cbn [approval_call approval_op_key] in *.
    + apply save_pending_cases in H as [(e & -> & ->)|(Hn & -> & ->)]; [apply appr_fail|].
      rewrite Hk, lookup_insert_eq in *. by apply appr_save.
    + apply update_status_cases in H as [(e & -> & ->)|(rec & Hs & Hp & -> & ->)]; [apply appr_fail|].
      rewrite Hk in *. rewrite lookup_insert_eq. apply appr_settle; by eauto.
    + apply update_status_cases in H as [(e & -> & ->)|(rec & Hs & Hp & -> & ->)]; [apply appr_fail|].
      rewrite Hk in *. rewrite lookup_insert_eq. by apply appr_settle.
    + apply discard_pending_cases in H as [(e & -> & ->)|(rec & Hs & Hp & -> & ->)]; [apply appr_fail|].
      rewrite Hk in *. rewrite lookup_delete_eq. by apply appr_discard.
  - assert (m' !! k = m !! k) as ->; [|by apply appr_other].
    destruct op as [scope req|scope id|scope id|scope id]; cbn [approval_call approval_op_key] in *.
    + by apply save_pending_cases in H as [(e & -> & _)|(_ & -> & _)]; look.
    + by apply update_status_cases in H as [(e & -> & _)|(? & _ & _ & -> & _)]; look.
    + by apply update_status_cases in H as [(e & -> & _)|(? & _ & _ & -> & _)]; look.
    + by apply discard_pending_cases in H as [(e & -> & _)|(? & _ & _ & -> & _)]; look.
Qed.

Definition pending (o : option ApprovalRecord) : Z :=
  match o with Some r => b2z (bool_decide (ap_status r = Pending)) | None => 0 end.

Lemma approval_moves_pending k op o o' r :
  approval_moves k op o o' r -> b2z (settled k (op, r)) + pending o' = b2z (filed k (op, r)) + pending o.
Proof.
  unfold settled, filed. cbn [fst snd].
  intros [r' Hk|e|rec Hk Hs -> Hp|rec st Hk Hs -> Hp _ Hst|rec Hk Hs -> Hp];
    [by rewrite (bool_decide_eq_false_2 _ Hk)|by rewrite !andb_false_r|..];
    rewrite (bool_decide_eq_true_2 _ Hk), Hs; cbn [pending set_approval ap_status is_ok];
    rewrite Hp, ?(bool_decide_eq_false_2 _ Hst); done.
Qed.

Lemma approval_moves_final k op o o' r :
  approval_moves k op o o' r ->
  (forall rec, o = Some rec -> ap_status rec <> Pending -> o' = Some rec) /\
  (forall rec, o' = Some rec -> ap_status rec = Approved -> o = Some rec \/
     exists scope id, op = AApprove scope id /\ ApprovalKey_new scope id = k /\ r = Ok rec).
Proof.
  intros [r' Hk|e|rec Hk Hs -> Hp|rec st Hk Hs -> Hp Happ Hst|rec Hk Hs -> Hp]; split; intros rec'.
  all: try by intros ->. all: try by left. all: try by intros [= <-].
  - by intros [= <-]; rewrite Hp.
  - intros [= <-] Ha. simpl in Ha. destruct (Happ Ha) as (scope & id & ->). right. by exists scope, id.
Qed.

(** A pending approval request is settled exactly once and its outcome is
    final.  Over any run of calls of the approval store, for any key: the
    successful approve, deny and discard calls, with the request if it is still
    pending, are as many as the requests filed, with the one that was pending at
    the start; a record that is approved, denied or expired is never changed
    again; and a record is [Approved] at the end only if it already was, or one of
    the calls was an [approve] under this very key that returned it. *)
Theorem approval_settled_once ops m k :
  let '(m', tr) := approval_run m ops in
  count (settled k) tr + pending (m' !! k) = count (filed k) tr + pending (m !! k) /\
  (forall rec, m !! k = Some rec -> ap_status rec <> Pending -> m' !! k = Some rec) /\
  (forall rec, m' !! k = Some rec -> ap_status rec = Approved -> m !! k = Some rec \/
     exists scope id, ApprovalKey_new scope id = k /\ (AApprove scope id, Ok rec) ∈ tr).
Proof.
  revert m. induction ops as [|op ops IH]; intros m; cbn [approval_run].
  { split_and!; [done..|]. intros rec ->. by left. }
  destruct (approval_call m op) as [m1 r] eqn:E.
  apply (approval_call_moves _ _ _ _ k) in E. specialize (IH m1).
  destruct (approval_run m1 ops) as [m2 tr]. destruct IH as (Hc & Hf & Ha).
  pose proof (approval_moves_pending _ _ _ _ _ E) as Hp.
  destruct (approval_moves_final _ _ _ _ _ E) as [Hf1 Ha1].
  rewrite !count_cons. split_and!; [lia|by eauto|].
  intros rec Hrec Hst. destruct (Ha rec Hrec Hst) as [Hm1|(scope & id & Hk & Hin)].
  - destruct (Ha1 rec Hm1 Hst) as [?|(scope & id & -> & Hk & ->)]; [by left|right].
    exists scope, id. split; [done|]. constructor.
  - right. exists scope, id. split; [done|]. by constructor.
Qed.

(** ** Runs of run-state calls *)

Inductive RunOp : Type :=
| RStart (s : RunStart)
| RBlockApproval (scope : ResourceScope) (id : InvocationId) (approval : ApprovalRequest)
| RBlockAuth (scope : ResourceScope) (id : InvocationId) (error_kind : string)
| RComplete (scope : ResourceScope) (id : InvocationId)
| RFail (scope : ResourceScope) (id : InvocationId) (error_kind : string).

Definition run_call (m : RunMap) (op : RunOp) : RunMap * result RunRecord RunStateError :=
  match op with
  | RStart s => run_start m s
  | RBlockApproval scope id approval => run_block_approval m scope id approval
  | RBlockAuth scope id error_kind => run_block_auth m scope id error_kind
  | RComplete scope id => run_complete m scope id
  | RFail scope id error_kind => run_fail m scope id error_kind
  end.

Definition run_op_key (op : RunOp) : RunStateKey :=
  match op with
  | RStart s => RunStateKey_new (start_scope s) (start_invocation_id s)
  | RBlockApproval scope id _ | RBlockAuth scope id _ | RComplete scope id | RFail scope id _ =>
      RunStateKey_new scope id
  end.

(** A record names what it waits on: an approval exactly when blocked on one, an
    error exactly when blocked on credentials or failed. *)
Definition run_coherent (r : RunRecord) : Prop :=
  (is_Some (rr_approval_request_id r) <-> rr_status r = BlockedApproval) /\
  (is_Some (rr_error_kind r) <-> rr_status r = BlockedAuth \/ rr_status r = RunFailed).

Definition run_store_ok (m : RunMap) : Prop :=
  map_Forall (fun k r => k = RunStateKey_new (rr_scope r) (rr_invocation_id r) /\ run_coherent r) m.

Lemma set_run_coherent st a e r :
  (is_Some a <-> st = BlockedApproval) -> (is_Some e <-> st = BlockedAuth \/ st = RunFailed) ->
  run_coherent (set_run st a e r).
Proof. by split. Qed.

Lemma run_update_ok m scope id st a e m' r :
  run_update m scope id (set_run st a e) = (m', r) ->
  (is_Some a <-> st = BlockedApproval) -> (is_Some e <-> st = BlockedAuth \/ st = RunFailed) ->
  run_store_ok m -> run_store_ok m' /\
  (forall k, k <> RunStateKey_new scope id -> m' !! k = m !! k) /\ (forall x, r = Err x -> m' = m).
Proof.
  unfold run_update. intros H Ha He Hok. destruct (m !! _) as [rec|] eqn:E;
    injection H as <- <-; [|done].
  split_and!; [|intros k Hk; by rewrite lookup_insert_ne|done].
  apply map_Forall_insert_2; [|done]. split; [|by apply set_run_coherent].
  apply (Hok _ _ E).
Qed.

(** Every call keeps the store coherent, touches no other invocation, and changes
    nothing when it fails. *)
Lemma run_call_ok m op m' r :
  run_call m op = (m', r) -> run_store_ok m ->
  run_store_ok m' /\ (forall k, k <> run_op_key op -> m' !! k = m !! k) /\
  (forall x, r = Err x -> m' = m).
Proof.
  destruct op as [s|scope id ap|scope id e|scope id|scope id e]; cbn [run_call run_op_key].
  { unfold run_start. simpl. intros H Hok. destruct (m !! _) as [rec|] eqn:E;
      injection H as <- <-; [done|].
    split_and!; [|intros k Hk; by rewrite lookup_insert_ne|done].
    apply map_Forall_insert_2; [|done]. split; [done|]. split; simpl; split.
    all: done || (by intros [? ?]) || (by intros [?|?]). }
  all: intros H; apply (run_update_ok _ _ _ _ _ _ _ _ H); split.
  all: first [done | by intros [? ?] | by intros [?|?] | by intros _; eexists | by eauto].
Qed.

(** The records a scope sees are exactly those whose owner it is. *)
Lemma run_records_for_scope_exact m scope r :
  r ∈ run_records_for_scope m scope <->
  exists k, m !! k = Some r /\ same_scope_owner (rr_scope r) scope = true.
Proof. unfold run_records_for_scope. by rewrite elem_of_sorted_values. Qed.

Lemma approval_records_for_scope_exact m scope r :
  r ∈ approval_records_for_scope m scope <->
  exists k, m !! k = Some r /\ same_scope_owner (ap_scope r) scope = true.
Proof. unfold approval_records_for_scope. by rewrite elem_of_sorted_values. Qed.

End Approvals.
