(* ===== verification/Fingerprint.v ===== *)
(** * Invocation fingerprints

    [crates/brassclaw_host_api/src/approval.rs]: the canonical form of a JSON
    input and the fingerprint that ties an approval to one invocation.  A
    [serde_json::Map] is the list of its members in iteration order, which no code
    may depend on: [json_equiv] is JSON equality up to that order, at any depth.
    [serde_json::to_vec] and [sha2] are parameters.  The theorems: the canonical
    form exists exactly for inputs of depth at most 64, is the same for equivalent
    inputs and different for others; two invocations with one fingerprint are the
    same action on equivalent inputs unless the hash collides on them. *)

From Stdlib Require Import OrdersEx.
From S2P Require Import Prelude External HostIds Paths HostTypes.
Open Scope Z_scope.

(** ** [serde_json::Value] *)

Inductive JsonNumber : Type := PosInt (n : Z) | NegInt (n : Z) | Float (x : f64).

Inductive Value : Type :=
| VNull
| VBool (b : bool)
| VNumber (n : JsonNumber)
| VString (s : string)
| VArray (items : list Value)
| VObject (members : list (string * Value)).

#[export] Instance value_json : SerdeJson := {| json := Value |}.

(** The members of a [Map] have different keys. *)
Fixpoint json_wf (v : Value) : Prop :=
  match v with
  | VArray items => foldr (fun i P => json_wf i /\ P) True items
  | VObject members => NoDup members.*1 /\ foldr (fun m P => json_wf m.2 /\ P) True members
  | _ => True
  end.

Fixpoint json_depth (v : Value) : nat :=
  match v with
  | VArray items => foldr (fun i n => Nat.max (S (json_depth i)) n) 0%nat items
  | VObject members => foldr (fun m n => Nat.max (S (json_depth m.2)) n) 0%nat members
  | _ => 0%nat
  end.

Fixpoint Value_nested_ind (P : Value -> Prop)
    (Hnull : P VNull) (Hbool : forall b, P (VBool b)) (Hnum : forall n, P (VNumber n))
    (Hstr : forall s, P (VString s)) (Harr : forall items, Forall P items -> P (VArray items))
    (Hobj : forall ms, Forall (fun m => P m.2) ms -> P (VObject ms)) (v : Value) : P v :=
  let rec := Value_nested_ind P Hnull Hbool Hnum Hstr Harr Hobj in
  match v with
  | VNull => Hnull | VBool b => Hbool b | VNumber n => Hnum n | VString s => Hstr s
  | VArray items =>
      Harr items ((fix go l : Forall P l :=
        match l with [] => Forall_nil_2 _ | x :: l' => Forall_cons_2 _ _ _ (rec x) (go l') end) items)
  | VObject ms =>
      Hobj ms ((fix go l : Forall (fun m => P m.2) l :=
        match l with [] => Forall_nil_2 _ | x :: l' => Forall_cons_2 _ _ _ (rec x.2) (go l') end) ms)
  end.

(** ** [approval.rs] *)

Definition MAX_CANONICAL_JSON_DEPTH : Z := 64.

Definition member_le (a b : string * Value) : Prop := String_as_OT.compare a.1 b.1 <> Gt.
#[export] Instance member_le_dec : RelDecision member_le.
Proof. intros a b. unfold member_le. apply _. Defined.

Definition sort_members (ms : list (string * Value)) : list (string * Value) :=
  merge_sort member_le ms.

(** The members are canonicalized before they are sorted; every failure is the same
    error, so the order in which they are visited does not show. *)
Fixpoint canonical_json_at_depth (value : Value) (depth : Z) : result Value HostApiError :=
  if MAX_CANONICAL_JSON_DEPTH <? depth then
    Err (InvariantViolation "canonical_json: max depth exceeded")
  else
    match value with
    | VArray items =>
        let? items := try_map (fun item => canonical_json_at_depth item (depth + 1)) items in
        Ok (VArray items)
    | VObject members =>
        let? members := try_map (fun m =>
          let? v := canonical_json_at_depth m.2 (depth + 1) in Ok (m.1, v)) members in
        Ok (VObject (sort_members members))
    | _ => Ok value
    end.

Definition canonical_json_v1 (value : Value) : result Value HostApiError :=
  canonical_json_at_depth value 0.

Definition hex_digit (n : nat) : Ascii.ascii :=
  default "0"%char (String.get n "0123456789abcdef").

Fixpoint to_lower_hex (bytes : string) : string :=
  match bytes with
  | EmptyString => EmptyString
  | String b rest =>
      let n := Ascii.nat_of_ascii b in
      String (hex_digit (n / 16)) (String (hex_digit (n mod 16)) (to_lower_hex rest))
  end.

(** ** Equality of JSON up to the order of members *)

Inductive json_equiv : Value -> Value -> Prop :=
| je_refl v : json_equiv v v
| je_sym v w : json_equiv v w -> json_equiv w v
| je_trans u v w : json_equiv u v -> json_equiv v w -> json_equiv u w
| je_item l1 v w l2 : json_equiv v w -> json_equiv (VArray (l1 ++ v :: l2)) (VArray (l1 ++ w :: l2))
| je_member l1 k v w l2 :
    json_equiv v w -> json_equiv (VObject (l1 ++ (k, v) :: l2)) (VObject (l1 ++ (k, w) :: l2))
| je_order l1 l2 : l1 ≡ₚ l2 -> json_equiv (VObject l1) (VObject l2).

#[export] Instance json_equiv_equivalence : Equivalence json_equiv.
Proof.
  split; [exact je_refl | exact je_sym | exact je_trans].
Qed.

(** ** The canonical form without the depth limit *)

Fixpoint json_norm (v : Value) : Value :=
  match v with
  | VArray items => VArray (map json_norm items)
  | VObject members => VObject (sort_members (map (fun m => (m.1, json_norm m.2)) members))
  | _ => v
  end.

Definition too_deep : HostApiError := InvariantViolation "canonical_json: max depth exceeded".

(** A traversal that fails on some element with the one error there is. *)
Lemma try_map_uniform {A B E} (f : A -> result B E) (e : E) (bad : A -> bool) (g : A -> B) l :
  Forall (fun x => f x = if bad x then Err e else Ok (g x)) l ->
  try_map f l = if existsb bad l then Err e else Ok (map g l).
Proof.
  induction 1 as [|x l Hx _ IH]; simpl; [done|]. rewrite Hx. destruct (bad x); simpl; [done|].
  rewrite IH. by destruct (existsb bad l).
Qed.

Lemma deepest {A} (depth : A -> nat) (m d : Z) l :
  d <= m ->
  existsb (fun x => m <? d + 1 + Z.of_nat (depth x)) l =
  (m <? d + Z.of_nat (foldr (fun x n => Nat.max (S (depth x)) n) 0%nat l)).
Proof.
  intros Hd. induction l as [|x l IH]; simpl; [symmetry; apply Z.ltb_ge; lia|].
  rewrite IH. destruct (m <? d + 1 + Z.of_nat (depth x)) eqn:E1; simpl.
  - symmetry. apply Z.ltb_lt. apply Z.ltb_lt in E1. lia.
  - apply Z.ltb_ge in E1. apply eq_true_iff_eq. rewrite !Z.ltb_lt. lia.
Qed.

Lemma canonical_is_norm v d :
  canonical_json_at_depth v d =
  if MAX_CANONICAL_JSON_DEPTH <? d + Z.of_nat (json_depth v) then Err too_deep else Ok (json_norm v).
Proof.
  revert d. induction v as [|b|n|s|items IH|ms IH] using Value_nested_ind; intros d;
    try (simpl; by rewrite Z.add_0_r).
  all: cbn [canonical_json_at_depth json_depth json_norm].
  all: destruct (MAX_CANONICAL_JSON_DEPTH <? d) eqn:E;
    [apply Z.ltb_lt in E; rewrite (proj2 (Z.ltb_lt _ _)) by lia; done | apply Z.ltb_ge in E].
  - rewrite (try_map_uniform _ too_deep
      (fun x => MAX_CANONICAL_JSON_DEPTH <? d + 1 + Z.of_nat (json_depth x)) json_norm).
    + rewrite deepest by done. by destruct (_ <? _).
    + eapply Forall_impl; [exact IH|]. auto.
  - rewrite (try_map_uniform _ too_deep
      (fun m : string * Value => MAX_CANONICAL_JSON_DEPTH <? d + 1 + Z.of_nat (json_depth m.2))
      (fun m => (m.1, json_norm m.2))).
    + rewrite (deepest (fun m : string * Value => json_depth m.2)) by done. by destruct (_ <? _).
    + eapply Forall_impl; [exact IH|]. intros m Hm. simpl in Hm. rewrite Hm. by destruct (_ <? _).
Qed.

(** ** Sorting members *)

#[export] Instance member_le_trans : Transitive member_le.
Proof.
  intros a b c. unfold member_le.
  destruct (String_as_OT.compare_spec a.1 b.1) as [Ea|Ha|Ha]; [..|done]; [by rewrite Ea|].
  destruct (String_as_OT.compare_spec b.1 c.1) as [Eb|Hb|Hb]; [..|done].
  - intros _ _. rewrite <- Eb. unfold String_as_OT.lt in Ha. by rewrite Ha.
  - intros _ _. assert (String_as_OT.lt a.1 c.1) as H by by etransitivity.
    unfold String_as_OT.lt in H. by rewrite H.
Qed.

#[export] Instance member_le_total : Total member_le.
Proof.
  intros a b. unfold member_le.
  destruct (String_as_OT.compare_spec a.1 b.1) as [Ea|Ha|Ha]; [by left..|right].
  unfold String_as_OT.lt in Ha. by rewrite Ha.
Qed.

Lemma member_le_key a b : member_le a b -> member_le b a -> a.1 = b.1.
Proof.
  unfold member_le. destruct (String_as_OT.compare_spec a.1 b.1) as [Ea|Ha|Ha]; [done|..|done].
  intros _ H. destruct (String_as_OT.compare_spec b.1 a.1) as [Eb|Hb|Hb]; [done|..|done].
  exfalso. eapply (StrictOrder_Irreflexive (R := String_as_OT.lt)). by etransitivity.
Qed.

Lemma NoDup_fst_eq {A B} (l : list (A * B)) x y :
  NoDup l.*1 -> x ∈ l -> y ∈ l -> x.1 = y.1 -> x = y.
Proof.
  intros Hnd Hx Hy Heq. destruct x as [a b], y as [a' b']. simpl in Heq. subst a'.
  f_equal. apply list_elem_of_lookup in Hx as [i Hi]. apply list_elem_of_lookup in Hy as [j Hj].
  assert (i = j) as <-; [|congruence].
  eapply NoDup_lookup; [exact Hnd| |]; rewrite list_lookup_fmap; [by rewrite Hi | by rewrite Hj].
Qed.

Lemma sort_members_unique l1 l2 : NoDup l1.*1 -> l1 ≡ₚ l2 -> sort_members l1 = sort_members l2.
Proof.
  intros Hnd Hp. unfold sort_members.
  apply (StronglySorted_unique_strong member_le); [|apply StronglySorted_merge_sort; apply _..|].
  - intros x y Hx Hy H1 H2. rewrite merge_sort_Permutation in Hx. rewrite merge_sort_Permutation, <- Hp in Hy.
    apply (NoDup_fst_eq l1); [done..|]. by apply member_le_key.
  - by rewrite !merge_sort_Permutation.
Qed.

(** ** The canonical form decides equivalence *)

Lemma foldr_conj {A} (P : A -> Prop) l : foldr (fun x Q => P x /\ Q) True l <-> Forall P l.
Proof. induction l as [|x l IH]; simpl; [by rewrite Forall_nil|]. by rewrite Forall_cons, IH. Qed.

Lemma array_equiv (l l' : list Value) : Forall2 json_equiv l l' -> json_equiv (VArray l) (VArray l').
Proof.
  intros H. change (json_equiv (VArray ([] ++ l)) (VArray ([] ++ l'))).
  generalize (@nil Value). induction H as [|x y l l' Hxy _ IH]; intros pre; [done|].
  etransitivity; [by apply je_item|].
  specialize (IH (pre ++ [y])). by rewrite <- !app_assoc in IH.
Qed.

Lemma object_equiv (l l' : list (string * Value)) :
  Forall2 (fun a b => a.1 = b.1 /\ json_equiv a.2 b.2) l l' -> json_equiv (VObject l) (VObject l').
Proof.
  intros H. change (json_equiv (VObject ([] ++ l)) (VObject ([] ++ l'))).
  generalize (@nil (string * Value)).
  induction H as [|[k v] [k' w] l l' [Hk Hxy] _ IH]; intros pre; [done|]. simpl in Hk. subst k'.
  etransitivity; [by apply je_member|].
  specialize (IH (pre ++ [(k, w)])). by rewrite <- !app_assoc in IH.
Qed.

Lemma norm_equiv v : json_equiv v (json_norm v).
Proof.
  induction v as [|b|n|s|items IH|ms IH] using Value_nested_ind; try done; simpl.
  - apply array_equiv. by apply Forall2_fmap_r, Forall_Forall2_diag.
  - etransitivity; [|apply je_order; symmetry; apply merge_sort_Permutation].
    apply object_equiv. apply Forall2_fmap_r, Forall_Forall2_diag. eapply Forall_impl; [exact IH|done].
Qed.

Lemma equiv_same_norm v w :
  json_equiv v w ->
  (json_wf v <-> json_wf w) /\ json_depth v = json_depth w /\ (json_wf v -> json_norm v = json_norm w).
Proof.
  induction 1 as [v|v w _ (IH1 & IH2 & IH3)|u v w _ (IH1 & IH2 & IH3) _ (IH1' & IH2' & IH3')
                 |l1 v w l2 _ (IH1 & IH2 & IH3)|l1 k v w l2 _ (IH1 & IH2 & IH3)|l1 l2 Hp].
  - done.
  - split; [by symmetry|]. split; [done|]. intros Hw. symmetry. tauto.
  - split; [by rewrite IH1|]. split; [congruence|]. intros Hu. rewrite IH3 by done. tauto.
  - cbn [json_wf json_depth json_norm]. rewrite !foldr_conj, !Forall_app, !Forall_cons. split; [by rewrite IH1|].
    rewrite !foldr_app, !map_app. simpl. split; [by rewrite IH2|]. intros (_ & Hv & _). by rewrite IH3.
  - cbn [json_wf json_depth json_norm].
    rewrite !(foldr_conj (fun m => json_wf m.2)), !Forall_app, !Forall_cons, !fmap_app, !fmap_cons.
    cbn [fst snd]. split; [by rewrite IH1|].
    rewrite !foldr_app. simpl. split; [by rewrite IH2|]. intros (_ & _ & Hv & _). by rewrite IH3.
  - cbn [json_wf json_depth json_norm]. rewrite !(foldr_conj (fun m => json_wf m.2)).
    split; [by rewrite Hp|]. split.
    + induction Hp; simpl; lia.
    + intros [Hnd _]. f_equal. apply sort_members_unique; [|by apply Permutation_map].
      by rewrite <- list_fmap_compose.
Qed.

(** ** The digest token *)

Lemma hex_byte_inj b b' :
  hex_digit (Ascii.nat_of_ascii b / 16) = hex_digit (Ascii.nat_of_ascii b' / 16) ->
  hex_digit (Ascii.nat_of_ascii b mod 16) = hex_digit (Ascii.nat_of_ascii b' mod 16) -> b = b'.
Proof.
  assert (forall n m : nat, (n < 16)%nat -> (m < 16)%nat -> hex_digit n = hex_digit m -> n = m) as Hinj.
  { intros n m Hn Hm.
    do 16 (destruct n as [|n]; [do 16 (destruct m as [|m]; [done|]); lia|]). lia. }
  intros H1 H2.
  pose proof (Ascii.nat_ascii_bounded b). pose proof (Ascii.nat_ascii_bounded b').
  apply Hinj in H1; [|by apply Nat.Div0.div_lt_upper_bound..].
  apply Hinj in H2; [|by apply Nat.mod_upper_bound..].
  rewrite <- (Ascii.ascii_nat_embedding b), <- (Ascii.ascii_nat_embedding b'). f_equal.
  rewrite (Nat.div_mod_eq (Ascii.nat_of_ascii b) 16), (Nat.div_mod_eq (Ascii.nat_of_ascii b') 16). congruence.
Qed.

Lemma to_lower_hex_inj s t : to_lower_hex s = to_lower_hex t -> s = t.
Proof.
  revert t. induction s as [|b s IH]; intros [|b' t]; try done.
  cbn [to_lower_hex]. intros H. injection H as H1 H2 H3. f_equal; [by apply hex_byte_inj | by apply IH].
Qed.

Section Fingerprint.
Context `{D : Decimal}.

Record FingerprintPayload : Type := mk_FingerprintPayload {
  fpp_version : Z;
  fpp_kind : string;
  fpp_scope : ResourceScope;
  fpp_capability : CapabilityId;
  fpp_estimate : ResourceEstimate;
  fpp_input : Value }.

(** [serde_json::to_vec] of a payload and [Sha256::digest]. *)
Class FingerprintCrates : Type := {
  payload_to_vec : FingerprintPayload -> result string string;
  sha256 : string -> string }.

Context `{FC : FingerprintCrates}.

Definition sha256_digest_token (bytes : string) : string :=
  "sha256:" +:+ to_lower_hex (sha256 bytes).

Definition for_action (kind : string) (scope : ResourceScope) (capability : CapabilityId)
    (estimate : ResourceEstimate) (input : Value) : result InvocationFingerprint HostApiError :=
  let? canonical_input := canonical_json_v1 input in
  let payload := mk_FingerprintPayload 1 kind scope capability estimate canonical_input in
  let? bytes := map_err InvariantViolation (payload_to_vec payload) in
  Ok (mk_InvocationFingerprint (sha256_digest_token bytes)).

Definition for_dispatch := for_action "dispatch".
Definition for_spawn := for_action "spawn_capability".

(** ** What a fingerprint stands for *)

Lemma for_action_ok kind scope capability estimate input f :
  for_action kind scope capability estimate input = Ok f ->
  exists bytes, canonical_json_v1 input = Ok (json_norm input) /\
    payload_to_vec (mk_FingerprintPayload 1 kind scope capability estimate (json_norm input)) = Ok bytes /\
    f = mk_InvocationFingerprint (sha256_digest_token bytes).
Proof.
  unfold for_action, canonical_json_v1. rewrite canonical_is_norm.
  destruct (_ <? _); simpl; [done|]. destruct (payload_to_vec _) as [bytes|]; simpl; [|done].
  intros [= <-]. by exists bytes.
Qed.

(** C37: a fingerprint names an action and its input as JSON, not as text.  An input
    has a canonical form exactly when it is nested at most 64 deep.  The payloads
    of two invocations are equal exactly when the action kinds, scopes,
    capabilities and estimates are and the inputs are equal up to the order of
    object members at any depth; and the fingerprints are equal exactly when the
    hashes of the serialized payloads are.  So equivalent inputs always share a
    fingerprint, and only a collision of the hash or of the serializer on two
    different payloads can make an approval valid for another invocation. *)
Theorem fingerprint_names_invocation kind1 scope1 c1 est1 v1 f1 kind2 scope2 c2 est2 v2 f2 :
  json_wf v1 -> json_wf v2 ->
  for_action kind1 scope1 c1 est1 v1 = Ok f1 -> for_action kind2 scope2 c2 est2 v2 = Ok f2 ->
  (forall v, (exists w, canonical_json_v1 v = Ok w) <->
     Z.of_nat (json_depth v) <= MAX_CANONICAL_JSON_DEPTH) /\
  exists w1 w2 b1 b2,
    canonical_json_v1 v1 = Ok w1 /\ canonical_json_v1 v2 = Ok w2 /\
    let p1 := mk_FingerprintPayload 1 kind1 scope1 c1 est1 w1 in
    let p2 := mk_FingerprintPayload 1 kind2 scope2 c2 est2 w2 in
    (p1 = p2 <-> kind1 = kind2 /\ scope1 = scope2 /\ c1 = c2 /\ est1 = est2 /\ json_equiv v1 v2) /\
    payload_to_vec p1 = Ok b1 /\ payload_to_vec p2 = Ok b2 /\
    (f1 = f2 <-> sha256 b1 = sha256 b2).
Proof.
  intros Hw1 Hw2 (b1 & Hc1 & Hb1 & ->)%for_action_ok (b2 & Hc2 & Hb2 & ->)%for_action_ok. split.
  { intros v. unfold canonical_json_v1. rewrite canonical_is_norm.
    destruct (_ <? _) eqn:E; [apply Z.ltb_lt in E | apply Z.ltb_ge in E]; split;
      [by intros [w ?] | lia | intros _; lia | by eexists]. }
  exists (json_norm v1), (json_norm v2), b1, b2. split_and!; try done.
  - intros p1 p2. subst p1 p2. split_and!; try done.
    + split.
      * intros [= -> -> -> -> Hn]. split_and!; [done..|]. rewrite (norm_equiv v1), (norm_equiv v2). by rewrite Hn.
      * intros (-> & -> & -> & -> & He). f_equal. by apply equiv_same_norm.
    + split; [|intros Heq; unfold sha256_digest_token; by rewrite Heq].
      intros [= H]. by apply to_lower_hex_inj.
Qed.
End Fingerprint.

Module FingerprintExample.
Definition a1 : Value :=
  VObject [("b", VArray [VNumber (PosInt 1); VObject [("y", VNull); ("x", VBool true)]]); ("a", VString "t")].
Definition a2 : Value :=
  VObject [("a", VString "t"); ("b", VArray [VNumber (PosInt 1); VObject [("x", VBool true); ("y", VNull)]])].
(** The same items in another order. *)
Definition a3 : Value := VObject [("a", VArray [VNull; VBool true])].
Definition a4 : Value := VObject [("a", VArray [VBool true; VNull])].

Definition scope : ResourceScope := example_scope None None.

#[export] Instance crates : @FingerprintCrates fixed_decimal := {|
  payload_to_vec p := Ok (fpp_kind p +:+ cap_str (fpp_capability p));
  sha256 s := s |}.

Definition fp (kind : string) (v : Value) : result InvocationFingerprint HostApiError :=
  for_action kind scope (mk_CapabilityId "demo.run") ResourceEstimate_default v.
Definition token (bytes : string) : InvocationFingerprint :=
  mk_InvocationFingerprint (@sha256_digest_token fixed_decimal crates bytes).
End FingerprintExample.

Example canonical_sorts : canonical_json_v1 FingerprintExample.a1 = Ok FingerprintExample.a2.
Proof. by vm_compute. Qed.
Example canonical_keeps_arrays :
  canonical_json_v1 FingerprintExample.a3 <> canonical_json_v1 FingerprintExample.a4.
Proof. by vm_compute. Qed.

Lemma fingerprint_names_invocation_witness :
  json_equiv FingerprintExample.a1 FingerprintExample.a2 /\
  exists w1 w2 b1 b2,
    canonical_json_v1 FingerprintExample.a1 = Ok w1 /\ canonical_json_v1 FingerprintExample.a3 = Ok w2 /\
    FingerprintExample.fp "dispatch" FingerprintExample.a1 =
      Ok (FingerprintExample.token b1) /\
    FingerprintExample.fp "spawn" FingerprintExample.a3 =
      Ok (FingerprintExample.token b2) /\ b1 <> b2.
Proof.
  assert (json_wf FingerprintExample.a1) as H1 by (repeat split; repeat constructor; set_solver).
  assert (json_wf FingerprintExample.a3) as H3 by (repeat split; repeat constructor; set_solver).
  split.
  { etransitivity; [apply norm_equiv|]. by vm_compute (json_norm _). }
  destruct (@fingerprint_names_invocation fixed_decimal FingerprintExample.crates "dispatch" FingerprintExample.scope (mk_CapabilityId "demo.run")
    ResourceEstimate_default FingerprintExample.a1
    (FingerprintExample.token "dispatchdemo.run")
    "spawn" FingerprintExample.scope (mk_CapabilityId "demo.run")
    ResourceEstimate_default FingerprintExample.a3
    (FingerprintExample.token "spawndemo.run") H1 H3) as (_ & w1 & w2 & b1 & b2 & Hw1 & Hw2 & _ & Hb1 & Hb2 & _);
    [by vm_compute..|].
  injection Hb1 as <-. injection Hb2 as <-.
  exists w1, w2, "dispatchdemo.run", "spawndemo.run". split_and!; [exact Hw1|exact Hw2|by vm_compute..].
Defined.
