(* ===== verification/AuditEnvelopes.v ===== *)
(** * Audit envelopes

    [crates/brassclaw_host_api/src/audit.rs]: the durable record of a decision,
    its constructors for a denial and for a resolved approval, and the summary of
    an action, with the texts of the action's parts ([Display] of methods, modes
    and operations from [action.rs]).  The identifier of an event and the clock
    are arguments. *)

From stdpp Require Import pretty.
From S2P Require Import Prelude External HostIds Paths HostTypes Obligations.

Open Scope Z_scope.

Inductive AuditStage : Type :=
| Before | After | StageDenied | ApprovalRequested | ApprovalResolved
| ResourceReserved | ResourceReconciled | ResourceReleased.

Inductive ApprovalDecisionKind : Type := DecisionApproved | DecisionDenied.

Definition as_wire_str (self : ApprovalDecisionKind) : string :=
  match self with DecisionApproved => "approved" | DecisionDenied => "denied" end.

Record ActionSummary : Type := mk_ActionSummary {
  as_kind : string; as_target : option string; as_effects : list EffectKind }.

Record DecisionSummary : Type := mk_DecisionSummary {
  ds_kind : string; ds_reason : option DenyReason; ds_actor : option Principal }.

Record ActionResultSummary : Type := mk_ActionResultSummary {
  ars_success : bool; ars_status : option string; ars_output_bytes : option Z }.

Record AuditEnvelope : Type := mk_AuditEnvelope {
  ae_event_id : AuditEventId;
  ae_correlation_id : CorrelationId;
  ae_stage : AuditStage;
  ae_timestamp : Z;
  ae_tenant_id : TenantId;
  ae_user_id : UserId;
  ae_agent_id : option AgentId;
  ae_project_id : option ProjectId;
  ae_thread_id : option ThreadId;
  ae_invocation_id : InvocationId;
  ae_process_id : option ProcessId;
  ae_approval_request_id : option ApprovalRequestId;
  ae_extension_id : option ExtensionId;
  ae_action : ActionSummary;
  ae_decision : DecisionSummary;
  ae_result : option ActionResultSummary }.

(** ** Texts *)

Definition SecretUseMode_display (m : SecretUseMode) : string :=
  match m with
  | InjectIntoRequest => "inject_into_request"
  | InjectIntoEnvironment => "inject_into_environment"
  | ReadRaw => "read_raw"
  end.

Definition NetworkMethod_display (m : NetworkMethod) : string :=
  match m with
  | Get => "get" | Post => "post" | Put => "put" | Patch => "patch"
  | Delete => "delete" | Head => "head"
  end.

Definition ExtensionLifecycleOperation_display (o : ExtensionLifecycleOperation) : string :=
  match o with
  | Install => "install" | Update => "update" | Remove => "remove"
  | Enable => "enable" | Disable => "disable"
  end.

Definition network_target (method : NetworkMethod) (host : string) (port : option Z) : string :=
  match port with
  | Some port => NetworkMethod_display method +:+ ":" +:+ host +:+ ":" +:+ pretty port
  | None => NetworkMethod_display method +:+ ":" +:+ host
  end.

Definition secret_target (handle : string) (mode : SecretUseMode) : string :=
  handle +:+ ":" +:+ SecretUseMode_display mode.

Definition extension_from_principal (p : Principal) : option ExtensionId :=
  match p with PExtension id => Some id | _ => None end.

Section Audit.
Context `{D : Decimal} `{UT : UuidText}.

(** ** Summaries and envelopes *)

Definition ActionSummary_capability (kind : string) (capability : CapabilityId)
    (effects : list EffectKind) : ActionSummary :=
  mk_ActionSummary kind (Some (cap_str capability)) effects.

Definition from_action (action : Action) : ActionSummary :=
  match action with
  | ReadFile path => mk_ActionSummary "read_file" (Some (sp_str path)) [ReadFilesystem]
  | ListDir path => mk_ActionSummary "list_dir" (Some (sp_str path)) [ReadFilesystem]
  | WriteFile path _ => mk_ActionSummary "write_file" (Some (sp_str path)) [WriteFilesystem]
  | DeleteFile path => mk_ActionSummary "delete_file" (Some (sp_str path)) [DeleteFilesystem]
  | Dispatch capability _ =>
      ActionSummary_capability "dispatch" capability [DispatchCapability]
  | SpawnCapability capability _ =>
      ActionSummary_capability "spawn_capability" capability [DispatchCapability; SpawnProcess]
  | ActUseSecret handle mode =>
      mk_ActionSummary "use_secret" (Some (secret_target (as_str handle) mode)) [UseSecret]
  | ActNetwork target method _ =>
      mk_ActionSummary "network" (Some (network_target method (nt_host target) (nt_port target)))
        [Network]
  | ActReserveResources _ => mk_ActionSummary "reserve_resources" None [ModifyBudget]
  | Approve request =>
      mk_ActionSummary "approve" (Some (uuid_text (as_uuid (ar_id request)))) [ModifyApproval]
  | ExtensionLifecycle extension_id operation =>
      mk_ActionSummary "extension_lifecycle"
        (Some (as_str extension_id +:+ ":" +:+ ExtensionLifecycleOperation_display operation))
        [ModifyExtension]
  | EmitExternalEffect effect => mk_ActionSummary "emit_external_effect" None [effect]
  end.

Definition AuditEnvelope_denied (event_id : AuditEventId) (now : Z) (ctx : ExecutionContext)
    (stage : AuditStage) (action : ActionSummary) (reason : DenyReason) : AuditEnvelope :=
  mk_AuditEnvelope event_id (ec_correlation_id ctx) stage now (ec_tenant_id ctx) (ec_user_id ctx)
    (ec_agent_id ctx) (ec_project_id ctx) (ec_thread_id ctx) (ec_invocation_id ctx)
    (ec_process_id ctx) None (Some (ec_extension_id ctx)) action
    (mk_DecisionSummary "deny" (Some reason) None) None.

Definition AuditEnvelope_approval_resolved (event_id : AuditEventId) (now : Z)
    (scope : ResourceScope) (request : ApprovalRequest) (resolved_by : Principal)
    (decision : ApprovalDecisionKind) : AuditEnvelope :=
  mk_AuditEnvelope event_id (ar_correlation_id request) ApprovalResolved now
    (rs_tenant_id scope) (rs_user_id scope) (rs_agent_id scope) (rs_project_id scope)
    (rs_thread_id scope) (rs_invocation_id scope) None (Some (ar_id request))
    (extension_from_principal (ar_requested_by request)) (from_action (ar_action request))
    (mk_DecisionSummary (as_wire_str decision) None (Some resolved_by)) None.

End Audit.
