(* ===== verification/Events.v ===== *)
(** * Runtime events and durable logs

    [crates/brassclaw_events/src]: the redacted runtime event with its constructors
    and wire forms ([runtime_event.rs]), cursors, stream keys and read filters
    ([cursor.rs]), the in-memory durable logs ([in_memory.rs]), and the replay of a
    JSONL text ([jsonl.rs]).  The identifier and the time of a new event are one
    argument, [fresh].

    The theorems: a log replays the history of its own stream exactly, page by
    page, or reports the gap; the JSONL replay is the same function of the records
    as the in-memory one; every wire crossing is redacted and keeps a constructed
    event as it is. *)

From stdpp Require Import pretty.
From S2P Require Import Prelude External HostIds Paths HostTypes Obligations AuditEnvelopes.
Open Scope Z_scope.

(** ** [runtime_event.rs] *)

Record RuntimeEventId : Type := mk_RuntimeEventId { rei_uuid : Z }.

Inductive RuntimeEventKind : Type :=
| EkDispatchRequested | EkRuntimeSelected | EkDispatchSucceeded | EkDispatchFailed
| EkCapabilityActivityRequested | EkCapabilityActivitySucceeded
| EkCapabilityActivityFailed | EkModelStarted | EkModelCompleted | EkModelFailed
| EkAssistantReplyFinalized | EkLoopCompleted | EkLoopCancelled | EkLoopFailed
| EkProcessStarted | EkProcessCompleted | EkProcessFailed | EkProcessKilled
| EkHookDispatched | EkHookDecisionEmitted | EkHookFailed.

#[export] Instance RuntimeEventKind_eq_dec : EqDecision RuntimeEventKind.
Proof. solve_decision. Defined.

Record RuntimeEvent : Type := mk_RuntimeEvent {
  re_event_id : RuntimeEventId;
  re_timestamp : Z;
  re_kind : RuntimeEventKind;
  re_scope : ResourceScope;
  re_parent_invocation_id : option InvocationId;
  re_capability_id : CapabilityId;
  re_provider : option ExtensionId;
  re_runtime : option RuntimeKind;
  re_process_id : option ProcessId;
  re_output_bytes : option Z;
  re_error_kind : option string;
  re_hook_id : option string;
  re_hook_point : option string;
  re_hook_trust_class : option string;
  re_hook_decision : option string;
  re_hook_failure_category : option string;
  re_hook_failure_disposition : option string }.

(** *** Redaction *)

Definition UNCLASSIFIED_ERROR_KIND : string := "Unclassified".
Definition MAX_ERROR_KIND_LEN : Z := 64.
Definition MAX_ERROR_KIND_SEGMENT_LEN : Z := 24.
Definition UNCLASSIFIED_HOOK_LABEL : string := "unclassified".
Definition MAX_HOOK_LABEL_LEN : Z := 48.
Definition HOOK_ID_LEN : Z := 64.

Definition is_error_kind_char (byte : Ascii.ascii) : bool :=
  is_ascii_lowercase byte || is_ascii_digit byte || bool_decide (byte = "_"%char).

(** [value.as_bytes()[0].is_ascii_lowercase()] of a non-empty text. *)
Definition first_is_lowercase (value : string) : bool :=
  match value with
  | EmptyString => false
  | String.String first _ => is_ascii_lowercase first
  end.

Definition is_error_kind_segment (segment : string) : bool :=
  negb (bool_decide (segment = "") || (MAX_ERROR_KIND_SEGMENT_LEN <? str_len segment))
  && first_is_lowercase segment.

(** [value.split(['.', ':'])]. *)
Definition split_dot_colon (value : string) : list string :=
  concat (map (split_char ":"%char) (split_char dot value)).

Definition is_safe_error_kind (value : string) : bool :=
  negb (bool_decide (value = "") || (MAX_ERROR_KIND_LEN <? str_len value))
  && first_is_lowercase value
  && negb (any_byte (fun byte =>
       negb (is_error_kind_char byte)
       && negb (bool_decide (byte = dot) || bool_decide (byte = ":"%char))) value)
  && forallb is_error_kind_segment (split_dot_colon value).

Definition sanitize_error_kind (value : string) : string :=
  if is_safe_error_kind value then value else UNCLASSIFIED_ERROR_KIND.

Definition is_safe_hook_label (value : string) : bool :=
  negb (bool_decide (value = "") || (MAX_HOOK_LABEL_LEN <? str_len value))
  && first_is_lowercase value
  && negb (any_byte (fun byte => negb (is_error_kind_char byte)) value).

Definition sanitize_hook_label (value : string) : string :=
  if is_safe_hook_label value then value else UNCLASSIFIED_HOOK_LABEL.

Definition is_hook_id_char (byte : Ascii.ascii) : bool :=
  is_ascii_digit byte || ((97 <=? byte_of byte) && (byte_of byte <=? 102)).

Definition is_safe_hook_id (value : string) : bool :=
  (str_len value =? HOOK_ID_LEN)
  && negb (any_byte (fun byte => negb (is_hook_id_char byte)) value).

Definition sanitize_hook_id (value : string) : string :=
  if is_safe_hook_id value then value else UNCLASSIFIED_HOOK_LABEL.

(** *** Constructors *)

Record RuntimeEventPayload : Type := mk_RuntimeEventPayload {
  rp_kind : RuntimeEventKind;
  rp_scope : ResourceScope;
  rp_capability_id : CapabilityId;
  rp_provider : option ExtensionId;
  rp_runtime : option RuntimeKind;
  rp_process_id : option ProcessId;
  rp_output_bytes : option Z;
  rp_error_kind : option string;
  rp_hook_id : option string;
  rp_hook_point : option string;
  rp_hook_trust_class : option string;
  rp_hook_decision : option string;
  rp_hook_failure_category : option string;
  rp_hook_failure_disposition : option string }.

Definition RuntimeEvent_new (fresh : RuntimeEventId * Z) (p : RuntimeEventPayload) : RuntimeEvent :=
  {| re_event_id := fresh.1; re_timestamp := fresh.2; re_kind := rp_kind p;
     re_scope := rp_scope p; re_parent_invocation_id := None;
     re_capability_id := rp_capability_id p; re_provider := rp_provider p;
     re_runtime := rp_runtime p; re_process_id := rp_process_id p;
     re_output_bytes := rp_output_bytes p; re_error_kind := rp_error_kind p;
     re_hook_id := rp_hook_id p; re_hook_point := rp_hook_point p;
     re_hook_trust_class := rp_hook_trust_class p; re_hook_decision := rp_hook_decision p;
     re_hook_failure_category := rp_hook_failure_category p;
     re_hook_failure_disposition := rp_hook_failure_disposition p |}.

Section Constructors.
Variable fresh : RuntimeEventId * Z.
Variable scope : ResourceScope.
Variable capability_id : CapabilityId.

Definition dispatch_requested : RuntimeEvent :=
  RuntimeEvent_new fresh (mk_RuntimeEventPayload EkDispatchRequested scope capability_id
    None None None None None None None None None None None).

Definition runtime_selected (provider : ExtensionId) (runtime : RuntimeKind) : RuntimeEvent :=
  RuntimeEvent_new fresh (mk_RuntimeEventPayload EkRuntimeSelected scope capability_id
    (Some provider) (Some runtime) None None None None None None None None None).

Definition dispatch_succeeded (provider : ExtensionId) (runtime : RuntimeKind)
    (output_bytes : Z) : RuntimeEvent :=
  RuntimeEvent_new fresh (mk_RuntimeEventPayload EkDispatchSucceeded scope capability_id
    (Some provider) (Some runtime) None (Some output_bytes) None None None None None None None).

Definition dispatch_failed (provider : option ExtensionId) (runtime : option RuntimeKind)
    (error_kind : string) : RuntimeEvent :=
  RuntimeEvent_new fresh (mk_RuntimeEventPayload EkDispatchFailed scope capability_id
    provider runtime None None (Some (sanitize_error_kind error_kind))
    None None None None None None).

Definition new_metadata_only (kind : RuntimeEventKind) : RuntimeEvent :=
  RuntimeEvent_new fresh (mk_RuntimeEventPayload kind scope capability_id
    None None None None None None None None None None None).

Definition model_started : RuntimeEvent := new_metadata_only EkModelStarted.
Definition model_completed : RuntimeEvent := new_metadata_only EkModelCompleted.
Definition assistant_reply_finalized : RuntimeEvent :=
  new_metadata_only EkAssistantReplyFinalized.
Definition loop_completed : RuntimeEvent := new_metadata_only EkLoopCompleted.
Definition loop_cancelled : RuntimeEvent := new_metadata_only EkLoopCancelled.

Definition model_failed (error_kind : string) : RuntimeEvent :=
  RuntimeEvent_new fresh (mk_RuntimeEventPayload EkModelFailed scope capability_id
    None None None None (Some (sanitize_error_kind error_kind)) None None None None None None).

Definition loop_failed (error_kind : string) : RuntimeEvent :=
  RuntimeEvent_new fresh (mk_RuntimeEventPayload EkLoopFailed scope capability_id
    None None None None (Some (sanitize_error_kind error_kind)) None None None None None None).

Definition process_started (provider : ExtensionId) (runtime : RuntimeKind)
    (process_id : ProcessId) : RuntimeEvent :=
  RuntimeEvent_new fresh (mk_RuntimeEventPayload EkProcessStarted scope capability_id
    (Some provider) (Some runtime) (Some process_id) None None None None None None None None).

Definition process_completed (provider : ExtensionId) (runtime : RuntimeKind)
    (process_id : ProcessId) : RuntimeEvent :=
  RuntimeEvent_new fresh (mk_RuntimeEventPayload EkProcessCompleted scope capability_id
    (Some provider) (Some runtime) (Some process_id) None None None None None None None None).

Definition process_failed (provider : ExtensionId) (runtime : RuntimeKind)
    (process_id : ProcessId) (error_kind : string) : RuntimeEvent :=
  RuntimeEvent_new fresh (mk_RuntimeEventPayload EkProcessFailed scope capability_id
    (Some provider) (Some runtime) (Some process_id) None
    (Some (sanitize_error_kind error_kind)) None None None None None None).

Definition process_killed (provider : ExtensionId) (runtime : RuntimeKind)
    (process_id : ProcessId) : RuntimeEvent :=
  RuntimeEvent_new fresh (mk_RuntimeEventPayload EkProcessKilled scope capability_id
    (Some provider) (Some runtime) (Some process_id) None None None None None None None None).

(** [Self { kind, ..event }]. *)
Definition with_kind (kind : RuntimeEventKind) (e : RuntimeEvent) : RuntimeEvent :=
  mk_RuntimeEvent (re_event_id e) (re_timestamp e) kind (re_scope e)
    (re_parent_invocation_id e) (re_capability_id e) (re_provider e) (re_runtime e)
    (re_process_id e) (re_output_bytes e) (re_error_kind e) (re_hook_id e) (re_hook_point e)
    (re_hook_trust_class e) (re_hook_decision e) (re_hook_failure_category e)
    (re_hook_failure_disposition e).

Definition capability_activity_requested : RuntimeEvent :=
  with_kind EkCapabilityActivityRequested dispatch_requested.

Definition capability_activity_succeeded (provider : ExtensionId) (runtime : RuntimeKind)
    (output_bytes : Z) : RuntimeEvent :=
  with_kind EkCapabilityActivitySucceeded (dispatch_succeeded provider runtime output_bytes).

Definition capability_activity_failed (provider : option ExtensionId)
    (runtime : option RuntimeKind) (error_kind : string) : RuntimeEvent :=
  with_kind EkCapabilityActivityFailed (dispatch_failed provider runtime error_kind).

Definition hook_dispatched (hook_id point trust_class : string)
    (owning_extension : option ExtensionId) : RuntimeEvent :=
  RuntimeEvent_new fresh (mk_RuntimeEventPayload EkHookDispatched scope capability_id
    owning_extension None None None None (Some (sanitize_hook_id hook_id))
    (Some (sanitize_hook_label point)) (Some (sanitize_hook_label trust_class)) None None None).

Definition hook_decision_emitted (hook_id decision : string)
    (owning_extension : option ExtensionId) : RuntimeEvent :=
  RuntimeEvent_new fresh (mk_RuntimeEventPayload EkHookDecisionEmitted scope capability_id
    owning_extension None None None None (Some (sanitize_hook_id hook_id))
    None None (Some (sanitize_hook_label decision)) None None).

Definition hook_failed (hook_id category disposition : string)
    (owning_extension : option ExtensionId) : RuntimeEvent :=
  RuntimeEvent_new fresh (mk_RuntimeEventPayload EkHookFailed scope capability_id
    owning_extension None None None None (Some (sanitize_hook_id hook_id))
    None None None (Some (sanitize_hook_label category))
    (Some (sanitize_hook_label disposition))).
End Constructors.

(** *** Wire forms: [RuntimeEventWire] has the fields of the event, so the
    serialisation hook and [into_event] are functions on [RuntimeEvent]; the JSON
    text of the fields is serde's. *)

Definition redact_fields (runtime : option RuntimeKind) (e : RuntimeEvent) : RuntimeEvent :=
  {| re_event_id := re_event_id e; re_timestamp := re_timestamp e; re_kind := re_kind e;
     re_scope := re_scope e; re_parent_invocation_id := re_parent_invocation_id e;
     re_capability_id := re_capability_id e; re_provider := re_provider e;
     re_runtime := runtime; re_process_id := re_process_id e;
     re_output_bytes := re_output_bytes e;
     re_error_kind := option_map sanitize_error_kind (re_error_kind e);
     re_hook_id := option_map sanitize_hook_id (re_hook_id e);
     re_hook_point := option_map sanitize_hook_label (re_hook_point e);
     re_hook_trust_class := option_map sanitize_hook_label (re_hook_trust_class e);
     re_hook_decision := option_map sanitize_hook_label (re_hook_decision e);
     re_hook_failure_category := option_map sanitize_hook_label (re_hook_failure_category e);
     re_hook_failure_disposition :=
       option_map sanitize_hook_label (re_hook_failure_disposition e) |}.

Definition RuntimeEvent_serialize (self : RuntimeEvent) : RuntimeEvent :=
  redact_fields (re_runtime self) self.

Definition RuntimeEventWire_into_event (self : RuntimeEvent) : RuntimeEvent :=
  redact_fields (re_runtime self) self.

Inductive TrustedRuntimeKindWire : Type :=
| WireMcp | WireScript | WireFirstParty | WireSystem.

Definition RuntimeKind_from_trusted_wire (value : TrustedRuntimeKindWire) : RuntimeKind :=
  match value with
  | WireMcp | WireScript => RuntimeMcp
  | WireFirstParty => RuntimeFirstParty
  | WireSystem => RuntimeSystem
  end.

(** The wire's own runtime field replaces the event's. *)
Definition TrustedRuntimeEventWire_into_event (runtime : option TrustedRuntimeKindWire)
    (self : RuntimeEvent) : RuntimeEvent :=
  redact_fields (option_map RuntimeKind_from_trusted_wire runtime) self.

(** ** [cursor.rs] and [error.rs] *)

Record EventCursor : Type := mk_EventCursor { cursor_u64 : Z }.

Definition EventCursor_origin : EventCursor := mk_EventCursor 0.

#[export] Instance EventCursor_eq_dec : EqDecision EventCursor.
Proof. solve_decision. Defined.

Record EventStreamKey : Type := mk_EventStreamKey {
  esk_tenant_id : TenantId; esk_user_id : UserId; esk_agent_id : option AgentId }.

#[export] Instance EventStreamKey_eq_dec : EqDecision EventStreamKey.
Proof. solve_decision. Defined.
#[export] Instance EventStreamKey_countable : Countable EventStreamKey.
Proof.
  by apply (inj_countable' (fun k => (esk_tenant_id k, esk_user_id k, esk_agent_id k))
              (fun '(t, u, a) => mk_EventStreamKey t u a)); intros [].
Defined.

Definition EventStreamKey_from_scope (scope : ResourceScope) : EventStreamKey :=
  mk_EventStreamKey (rs_tenant_id scope) (rs_user_id scope) (rs_agent_id scope).

Definition EventStreamKey_matches (self : EventStreamKey) (scope : ResourceScope) : bool :=
  bool_decide (esk_tenant_id self = rs_tenant_id scope)
  && bool_decide (esk_user_id self = rs_user_id scope)
  && bool_decide (esk_agent_id self = rs_agent_id scope).

Record ReadScope : Type := mk_ReadScope {
  rds_project_id : option ProjectId;
  rds_thread_id : option ThreadId;
  rds_process_id : option ProcessId }.

Definition ReadScope_any : ReadScope := mk_ReadScope None None None.

Definition matches_optional {T} `{EqDecision T} (want have : option T) : bool :=
  match want with
  | None => true
  | Some want => bool_decide (have = Some want)
  end.

Definition matches_event (self : ReadScope) (event : RuntimeEvent) : bool :=
  matches_optional (rds_project_id self) (rs_project_id (re_scope event))
  && matches_optional (rds_thread_id self) (rs_thread_id (re_scope event))
  && matches_optional (rds_process_id self) (re_process_id event).

Definition matches_audit (self : ReadScope) (record : AuditEnvelope) : bool :=
  matches_optional (rds_project_id self) (ae_project_id record)
  && matches_optional (rds_thread_id self) (ae_thread_id record)
  && matches_optional (rds_process_id self) (ae_process_id record).

Inductive EventError : Type :=
| EventSerialize (reason : string)
| EventSinkFailed (reason : string)
| EventDurableLog (reason : string)
| ReplayGap (requested earliest : EventCursor)
| InvalidReplayRequest (reason : string).

Record EventLogEntry (T : Type) : Type := mk_EventLogEntry {
  ele_cursor : EventCursor; ele_record : T }.
Arguments mk_EventLogEntry {T} ele_cursor ele_record.
Arguments ele_cursor {T} _.
Arguments ele_record {T} _.

Record EventReplay (T : Type) : Type := mk_EventReplay {
  er_entries : list (EventLogEntry T); er_next_cursor : EventCursor }.
Arguments mk_EventReplay {T} er_entries er_next_cursor.
Arguments er_entries {T} _.
Arguments er_next_cursor {T} _.

(** ** [in_memory.rs]: one stream *)

Record StreamState (T : Type) : Type := mk_StreamState {
  ss_next_cursor : Z; ss_earliest_retained : Z; ss_entries : list (EventLogEntry T) }.
Arguments mk_StreamState {T} ss_next_cursor ss_earliest_retained ss_entries.
Arguments ss_next_cursor {T} _.
Arguments ss_earliest_retained {T} _.
Arguments ss_entries {T} _.

Definition StreamState_default {T} : StreamState T := mk_StreamState 0 0 [].

Definition cursor_of {T} (e : EventLogEntry T) : Z := cursor_u64 (ele_cursor e).

Definition StreamState_append {T} (self : StreamState T) (record : T) :
    StreamState T * result (EventLogEntry T) EventError :=
  match u64_checked_add (ss_next_cursor self) 1 with
  | None => (self, Err (EventDurableLog "event cursor overflowed u64; durable log exhausted"))
  | Some next =>
      let entry := mk_EventLogEntry (mk_EventCursor next) record in
      (mk_StreamState next (ss_earliest_retained self) (ss_entries self ++ [entry]), Ok entry)
  end.

(** [slice::partition_point] of a slice that the predicate partitions. *)
Fixpoint partition_point {A} (pred : A -> bool) (l : list A) : nat :=
  match l with
  | x :: l' => if pred x then S (partition_point pred l') else 0
  | [] => 0
  end.

(** The loop over [self.entries[start_index..]]: what was collected and the last
    cursor scanned. *)
Fixpoint scan_entries {T} (limit : nat) (is_match : T -> bool) (rest : list (EventLogEntry T))
    (entries : list (EventLogEntry T)) (last_scanned : EventCursor) :
    list (EventLogEntry T) * EventCursor :=
  match rest with
  | [] => (entries, last_scanned)
  | entry :: rest' =>
      if is_match (ele_record entry) then
        if (limit <=? length (entries ++ [entry]))%nat
        then (entries ++ [entry], ele_cursor entry)
        else scan_entries limit is_match rest' (entries ++ [entry]) (ele_cursor entry)
      else scan_entries limit is_match rest' entries (ele_cursor entry)
  end.

Definition StreamState_read_after {T} (self : StreamState T) (after : EventCursor)
    (limit : nat) (is_match : T -> bool) : result (EventReplay T) EventError :=
  if ss_next_cursor self <? cursor_u64 after then
    Err (ReplayGap after (mk_EventCursor (ss_next_cursor self)))
  else if (0 <? ss_earliest_retained self)
          && (cursor_u64 after <? Z.max 0 (ss_earliest_retained self - 1)) then
    Err (ReplayGap after (mk_EventCursor (ss_earliest_retained self)))
  else
    let start_index :=
      partition_point (fun entry => cursor_of entry <=? cursor_u64 after) (ss_entries self) in
    let '(entries, last_scanned) :=
      scan_entries limit is_match (drop start_index (ss_entries self)) [] after in
    Ok (mk_EventReplay entries
          (match last entries with Some entry => ele_cursor entry | None => last_scanned end)).

(** [bound + 1] wraps at the width of [u64], as the release build does. *)
Definition StreamState_truncate_before_or_at {T} (self : StreamState T) (cursor : EventCursor) :
    StreamState T * result unit EventError :=
  let bound := cursor_u64 cursor in
  if bound =? 0 then (self, Ok tt)
  else if ss_next_cursor self <? bound then
    (self, Err (InvalidReplayRequest
                  ("truncation cursor " +:+ pretty bound +:+ " exceeds stream head "
                   +:+ pretty (ss_next_cursor self))))
  else
    (mk_StreamState (ss_next_cursor self)
       (if ss_earliest_retained self <=? bound then (bound + 1) mod 2 ^ 64
        else ss_earliest_retained self)
       (List.filter (fun entry => bound <? cursor_of entry) (ss_entries self)),
     Ok tt).

(** ** [in_memory.rs]: the durable logs

    The two logs differ in the key of a record and in the filter, which are the
    parameters here.  The lock is held for a whole call and is never poisoned, as
    no call panics while holding it. *)

Section Log.
Context {T : Type}.
Variable key_of : T -> EventStreamKey.
Variable matches : ReadScope -> T -> bool.

Definition log_append (streams : gmap EventStreamKey (StreamState T)) (record : T) :
    gmap EventStreamKey (StreamState T) * result (EventLogEntry T) EventError :=
  let key := key_of record in
  let '(stream, r) :=
    StreamState_append (default StreamState_default (streams !! key)) record in
  (<[key := stream]> streams, r).

Definition log_read_after_cursor (streams : gmap EventStreamKey (StreamState T))
    (stream : EventStreamKey) (filter : ReadScope) (after : option EventCursor) (limit : nat) :
    result (EventReplay T) EventError :=
  if (limit =? 0)%nat then Err (InvalidReplayRequest "limit must be greater than zero")
  else
    let after := default EventCursor_origin after in
    match streams !! stream with
    | Some state => StreamState_read_after state after limit (matches filter)
    | None =>
        if 0 <? cursor_u64 after then Err (ReplayGap after EventCursor_origin)
        else Ok (mk_EventReplay [] after)
    end.

Definition log_truncate_before_or_at (streams : gmap EventStreamKey (StreamState T))
    (stream : EventStreamKey) (cursor : EventCursor) :
    gmap EventStreamKey (StreamState T) * result unit EventError :=
  match streams !! stream with
  | Some state =>
      let '(state', r) := StreamState_truncate_before_or_at state cursor in
      (<[stream := state']> streams, r)
  | None => (streams, Ok tt)
  end.

Definition log_head_cursor (streams : gmap EventStreamKey (StreamState T))
    (stream : EventStreamKey) (after : EventCursor) : result EventCursor EventError :=
  let head := match streams !! stream with Some state => ss_next_cursor state | None => 0 end in
  if head <? cursor_u64 after then Err (ReplayGap after (mk_EventCursor head))
  else Ok (mk_EventCursor head).
End Log.

Definition event_key (event : RuntimeEvent) : EventStreamKey :=
  EventStreamKey_from_scope (re_scope event).
Definition audit_key (record : AuditEnvelope) : EventStreamKey :=
  mk_EventStreamKey (ae_tenant_id record) (ae_user_id record) (ae_agent_id record).

Definition InMemoryDurableEventLog_append := log_append event_key.
Definition InMemoryDurableEventLog_read_after_cursor := log_read_after_cursor matches_event.
Definition InMemoryDurableEventLog_truncate := @log_truncate_before_or_at RuntimeEvent.
Definition InMemoryDurableEventLog_head_cursor := @log_head_cursor RuntimeEvent.
Definition InMemoryDurableAuditLog_append := log_append audit_key.
Definition InMemoryDurableAuditLog_read_after_cursor := log_read_after_cursor matches_audit.
Definition InMemoryDurableAuditLog_truncate := @log_truncate_before_or_at AuditEnvelope.

(** [InMemoryEventSink] and [InMemoryAuditSink]: a vector behind a lock. *)
Definition InMemoryEventSink_emit (events : list RuntimeEvent) (event : RuntimeEvent) :
    list RuntimeEvent * result unit EventError := (events ++ [event], Ok tt).
Definition InMemoryAuditSink_emit (records : list AuditEnvelope) (record : AuditEnvelope) :
    list AuditEnvelope * result unit EventError := (records ++ [record], Ok tt).

(** [DurableEventSink] and [DurableAuditSink]: [emit] appends and drops the entry. *)
Definition DurableEventSink_emit (streams : gmap EventStreamKey (StreamState RuntimeEvent))
    (event : RuntimeEvent) :=
  let '(streams', r) := InMemoryDurableEventLog_append streams event in
  (streams', result_map (fun _ => tt) r).
Definition DurableAuditSink_emit (streams : gmap EventStreamKey (StreamState AuditEnvelope))
    (record : AuditEnvelope) :=
  let '(streams', r) := InMemoryDurableAuditLog_append streams record in
  (streams', result_map (fun _ => tt) r).

(** ** [jsonl.rs]

    The decoder of one line (serde_json) and the text of a UTF-8 error are
    parameters. *)

Section Jsonl.
Context {T : Type}.
Variable from_str : string -> result T string.
Variable utf8_error : string -> string.

Definition jsonl_text (bytes : string) : result string EventError :=
  if utf8_valid bytes then Ok bytes else Err (EventSerialize (utf8_error bytes)).

Definition jsonl_lines (text : string) : list string :=
  List.filter (fun line => negb (is_blank line)) (str_lines text).

Definition parse_line (line : string) : result T EventError := map_err EventSerialize (from_str line).

Definition parse_jsonl (bytes : string) : result (list T) EventError :=
  let? text := jsonl_text bytes in try_map parse_line (jsonl_lines text).

Fixpoint replay_lines (after : Z) (limit : nat) (lines : list string) (current_cursor : Z)
    (entries : list (EventLogEntry T)) : result (Z * list (EventLogEntry T)) EventError :=
  match lines with
  | [] => Ok (current_cursor, entries)
  | line :: lines' =>
      let current_cursor := current_cursor + 1 in
      let? record := parse_line line in
      replay_lines after limit lines' current_cursor
        (if (after <? current_cursor) && (length entries <? limit)%nat
         then entries ++ [mk_EventLogEntry (mk_EventCursor current_cursor) record]
         else entries)
  end.

Definition replay_jsonl (bytes : string) (after : option EventCursor) (limit : nat) :
    result (EventReplay T) EventError :=
  if (limit =? 0)%nat then Err (InvalidReplayRequest "limit must be greater than zero")
  else
    let after := cursor_u64 (default EventCursor_origin after) in
    let? text := jsonl_text bytes in
    let? (current_cursor, entries) := replay_lines after limit (jsonl_lines text) 0 [] in
    if current_cursor <? after then
      Err (ReplayGap (mk_EventCursor after) (mk_EventCursor current_cursor))
    else
      Ok (mk_EventReplay entries
            (match last entries with
             | Some entry => ele_cursor entry
             | None => mk_EventCursor after
             end)).
End Jsonl.

(** ** The history of a stream

    The specification: the records appended to a stream, numbered from one, of
    which a prefix may have been truncated. *)

Section Spec.
Context {T : Type}.

Fixpoint numbered (n : nat) (l : list T) : list (EventLogEntry T) :=
  match l with
  | [] => []
  | x :: l' => mk_EventLogEntry (mk_EventCursor (Z.of_nat (S n))) x :: numbered (S n) l'
  end.

(** What a reader at cursor [c] has still to see. *)
Definition pending (m : T -> bool) (hist : list T) (c : nat) : list (EventLogEntry T) :=
  List.filter (fun e => m (ele_record e)) (numbered c (drop c hist)).

(** [st] holds the history [hist] without its first [cut] records. *)
Record stream_holds (st : StreamState T) (hist : list T) (cut : nat) : Prop := {
  sh_next : ss_next_cursor st = Z.of_nat (length hist);
  sh_earliest : ss_earliest_retained st = (if decide (cut = 0%nat) then 0 else Z.of_nat (S cut));
  sh_cut : (cut <= length hist)%nat;
  sh_entries : ss_entries st = numbered cut (drop cut hist) }.

Lemma numbered_app n l1 l2 : numbered n (l1 ++ l2) = numbered n l1 ++ numbered (n + length l1) l2.
Proof.
  revert n. induction l1 as [|x l1 IH]; intros n; simpl; [by rewrite Nat.add_0_r|].
  rewrite IH. do 3 f_equal. lia.
Qed.

Lemma numbered_drop n k l : drop k (numbered n l) = numbered (n + k) (drop k l).
Proof.
  revert n k. induction l as [|x l IH]; intros n [|k]; simpl; try done.
  - by rewrite Nat.add_0_r.
  - rewrite IH. f_equal. lia.
Qed.

Lemma numbered_drop_filter n b l :
  List.filter (fun e => Z.of_nat b <? cursor_of e) (numbered n l)
  = numbered (n `max` b) (drop (b - n) l).
Proof.
  revert n. induction l as [|x l IH]; intros n; cbn -[Z.of_nat].
  - by rewrite drop_nil.
  - rewrite IH. destruct (decide (b <= n)%nat).
    + rewrite (proj2 (Z.ltb_lt _ _)) by (simpl; lia).
      replace (b - n)%nat with 0%nat by lia. replace (b - S n)%nat with 0%nat by lia.
      rewrite !drop_0. replace (n `max` b)%nat with n by lia.
      replace (S n `max` b)%nat with (S n) by lia. done.
    + rewrite (proj2 (Z.ltb_ge _ _)) by (simpl; lia).
      replace (b - n)%nat with (S (b - S n)) by lia. simpl.
      by replace (S n `max` b)%nat with (n `max` b)%nat by lia.
Qed.

Lemma partition_numbered n c l :
  (n <= c)%nat -> (c <= n + length l)%nat ->
  partition_point (fun e => cursor_of e <=? Z.of_nat c) (numbered n l) = (c - n)%nat.
Proof.
  revert n. induction l as [|x l IH]; intros n Hn Hc; cbn -[Z.of_nat] in *; [lia|].
  destruct (decide (n = c)) as [->|].
  - rewrite (proj2 (Z.leb_gt _ _)) by (simpl; lia). lia.
  - rewrite (proj2 (Z.leb_le _ _)) by (simpl; lia). rewrite IH by lia. lia.
Qed.

Lemma scan_collects limit m (rest : list (EventLogEntry T)) acc c :
  (length acc < limit)%nat ->
  (scan_entries limit m rest acc c).1
  = acc ++ take (limit - length acc) (List.filter (fun e => m (ele_record e)) rest).
Proof.
  revert acc c. induction rest as [|e rest IH]; intros acc c Hacc; simpl.
  - by rewrite take_nil, app_nil_r.
  - destruct (m (ele_record e)); [|by apply IH].
    rewrite length_app. simpl. destruct (Nat.leb_spec limit (length acc + 1)) as [Hle|Hlt]; simpl.
    + replace (limit - length acc)%nat with 1%nat by lia. simpl. by rewrite take_0.
    + rewrite IH by (rewrite length_app; simpl; lia). rewrite length_app, <- app_assoc. simpl.
      replace (limit - length acc)%nat with (S (limit - (length acc + 1))) by lia. done.
Qed.

(** When nothing matches, the scan ends at the head of the stream. *)
Lemma scan_nothing limit m n (l : list T) acc c :
  List.filter (fun e => m (ele_record e)) (numbered n l) = [] -> cursor_u64 c = Z.of_nat n ->
  cursor_u64 (scan_entries limit m (numbered n l) acc c).2 = Z.of_nat (n + length l).
Proof.
  revert n c. induction l as [|x l IH]; intros n c HF Hc; simpl in *; [rewrite Hc; f_equal; lia|].
  destruct (m x); [done|]. rewrite IH by done. f_equal. lia.
Qed.

(** The cursor of the last entry of a page is where the rest begins. *)
Lemma page_last m n k (l : list T) e :
  (1 <= k)%nat ->
  last (take k (List.filter (fun e => m (ele_record e)) (numbered n l))) = Some e ->
  exists j, (1 <= j <= length l)%nat /\ ele_cursor e = mk_EventCursor (Z.of_nat (n + j)) /\
    List.filter (fun e => m (ele_record e)) (numbered (n + j) (drop j l))
    = drop k (List.filter (fun e => m (ele_record e)) (numbered n l)).
Proof.
  revert n k. induction l as [|x l IH]; intros n k Hk; simpl; [by rewrite take_nil|].
  set (F := List.filter _ (numbered (S n) l)) in *. destruct (m x) eqn:Hx.
  - destruct k as [|k]; [lia|]. simpl.
    destruct (take k F) as [|e1 tl] eqn:HT; simpl.
    + intros [= <-]. exists 1%nat. split; [lia|]. split; [simpl; do 2 f_equal; lia|].
      replace (n + 1)%nat with (S n) by lia. simpl. rewrite drop_0.
      change (F = drop k F). destruct k as [|k]; [done|]. by destruct F.
    + rewrite <- HT. intros Hl. destruct k as [|k]; [done|].
      destruct (IH (S n) (S k)) as (j & Hj & Hc & HF); [lia| |].
      { fold F. rewrite HT in Hl |- *. by destruct tl. }
      exists (S j). split; [lia|]. replace (n + S j)%nat with (S n + j)%nat by lia.
      split; [done|]. exact HF.
  - intros Hl. destruct (IH (S n) k Hk Hl) as (j & Hj & Hc & HF).
    exists (S j). split; [lia|]. replace (n + S j)%nat with (S n + j)%nat by lia. done.
Qed.

(** The answer of a read at cursor [c]: the next page of what is pending, and a
    cursor from which exactly the rest is pending; or the gap. *)
Definition replays (m : T -> bool) (hist : list T) (cut c limit : nat)
    (r : result (EventReplay T) EventError) : Prop :=
  if decide (length hist < c)%nat then
    r = Err (ReplayGap (mk_EventCursor (Z.of_nat c)) (mk_EventCursor (Z.of_nat (length hist))))
  else if decide (c < cut)%nat then
    r = Err (ReplayGap (mk_EventCursor (Z.of_nat c)) (mk_EventCursor (Z.of_nat (S cut))))
  else
    exists next, (c <= next <= length hist)%nat /\
      r = Ok (mk_EventReplay (take limit (pending m hist c)) (mk_EventCursor (Z.of_nat next))) /\
      pending m hist next = drop limit (pending m hist c) /\
      ((c < length hist)%nat -> (c < next)%nat).

Lemma read_after_replays st hist cut c limit m :
  stream_holds st hist cut -> (1 <= limit)%nat ->
  replays m hist cut c limit
    (StreamState_read_after st (mk_EventCursor (Z.of_nat c)) limit m).
Proof.
  intros [Hn He Hcut Hes] Hlim. unfold replays, StreamState_read_after. simpl. rewrite Hn, He, Hes.
  destruct (decide (length hist < c)%nat) as [Hgap|Hgap].
  { by rewrite (proj2 (Z.ltb_lt _ _)) by lia. }
  rewrite (proj2 (Z.ltb_ge _ _)) by lia.
  assert ((0 <? (if decide (cut = 0%nat) then 0 else Z.of_nat (S cut)))
    && (Z.of_nat c <? Z.max 0 ((if decide (cut = 0%nat) then 0 else Z.of_nat (S cut)) - 1))
    = bool_decide (c < cut)%nat) as ->.
  { destruct (decide (cut = 0%nat)) as [->|]; simpl.
    - done.
    - case_bool_decide; [apply Z.ltb_lt | apply Z.ltb_ge]; lia. }
  destruct (decide (c < cut)%nat) as [Hc|Hc].
  { rewrite bool_decide_eq_true_2 by done. f_equal. rewrite decide_False by lia. done. }
  rewrite bool_decide_eq_false_2 by done.
  rewrite partition_numbered by (rewrite ?length_drop; lia).
  rewrite numbered_drop, drop_drop. replace (cut + (c - cut))%nat with c by lia.
  pose proof (scan_collects limit m (numbered c (drop c hist)) []
                (mk_EventCursor (Z.of_nat c)) ltac:(simpl; lia)) as Hcol.
  pose proof (scan_nothing limit m c (drop c hist) [] (mk_EventCursor (Z.of_nat c))) as Hno.
  destruct (scan_entries _ _ _ _ _) as [entries ls]. simpl in Hcol, Hno.
  rewrite Nat.sub_0_r in Hcol. subst entries. fold (pending m hist c) in *.
  destruct (last (take limit (pending m hist c))) as [e|] eqn:Hl.
  - destruct (page_last m c limit (drop c hist) e Hlim Hl) as (j & Hj & Hce & HF).
    rewrite length_drop in Hj. exists (c + j)%nat. split; [lia|]. rewrite Hce.
    split; [done|]. split; [|lia]. unfold pending. rewrite <- drop_drop. exact HF.
  - assert (pending m hist c = []) as Hp.
    { apply last_None in Hl. destruct (pending m hist c); [done|]. by destruct limit; [lia|]. }
    exists (length hist). split; [lia|]. rewrite Hp, take_nil, drop_nil.
    specialize (Hno Hp eq_refl). rewrite length_drop in Hno.
    split; [|split; [|done]].
    + do 2 f_equal. destruct ls as [z]. simpl in Hno. f_equal. lia.
    + unfold pending. by rewrite drop_all.
Qed.

Lemma append_holds st hist cut r :
  stream_holds st hist cut -> Z.of_nat (length hist) < u64_max ->
  exists st' e, StreamState_append st r = (st', Ok e) /\ stream_holds st' (hist ++ [r]) cut.
Proof.
  intros [Hn He Hcut Hes] Hmax. unfold StreamState_append.
  destruct (u64_checked_add (ss_next_cursor st) 1) as [next|] eqn:Hadd.
  - checked_facts. eexists _, _. split; [done|]. split; simpl; [..|].
    + rewrite length_app. simpl. lia.
    + done.
    + rewrite length_app. lia.
    + rewrite Hes, drop_app_le, numbered_app, length_drop by done.
      replace (cut + (length hist - cut))%nat with (length hist) by lia. simpl. subst next. rewrite Hn.
      do 4 f_equal. lia.
  - unfold u64_checked_add, checked_add_max in Hadd. rewrite Hn in Hadd.
    destruct (Z.leb_spec (Z.of_nat (length hist) + 1) u64_max); [done|lia].
Qed.

Lemma append_full st hist cut r st' x :
  stream_holds st hist cut -> StreamState_append st r = (st', Err x) -> st' = st.
Proof. intros _. unfold StreamState_append. by destruct (u64_checked_add _ _); intros [= <-]. Qed.

Lemma truncate_holds st hist cut b st' r :
  stream_holds st hist cut -> Z.of_nat (length hist) < u64_max ->
  StreamState_truncate_before_or_at st (mk_EventCursor (Z.of_nat b)) = (st', r) ->
  stream_holds st' hist (if is_ok r then cut `max` b else cut)%nat.
Proof.
  intros [Hn He Hcut Hes] Hmax. unfold StreamState_truncate_before_or_at. simpl. rewrite Hn.
  destruct (Z.eqb_spec (Z.of_nat b) 0).
  { intros [= <- <-]. simpl. replace (cut `max` b)%nat with cut by lia. done. }
  destruct (Z.ltb_spec (Z.of_nat (length hist)) (Z.of_nat b)); intros [= <- <-]; simpl; [done|].
  split; simpl; [done| |lia|].
  - rewrite He. rewrite Z.mod_small by (unfold u64_max in Hmax; lia).
    destruct (decide (cut = 0%nat)) as [->|].
    + rewrite (proj2 (Z.leb_le _ _)) by lia. rewrite decide_False by lia. lia.
    + rewrite decide_False by lia. destruct (Z.leb_spec (Z.of_nat (S cut)) (Z.of_nat b)); lia.
  - rewrite Hes, numbered_drop_filter, drop_drop. f_equal. f_equal. lia.
Qed.
End Spec.

(** ** Logs: every stream holds its own history *)

Section LogSpec.
Context {T : Type}.
Variable key_of : T -> EventStreamKey.
Variable matches : ReadScope -> T -> bool.

(** A log reached by appends and truncations, with all records appended so far and
    the truncation bound of every stream. *)
Inductive log_reach :
    gmap EventStreamKey (StreamState T) -> list T -> (EventStreamKey -> nat) -> Prop :=
| lr_empty : log_reach ∅ [] (fun _ => 0%nat)
| lr_append s h cut record s' e :
    log_reach s h cut -> log_append key_of s record = (s', Ok e) ->
    log_reach s' (h ++ [record]) cut
| lr_append_full s h cut record s' x :
    log_reach s h cut -> log_append key_of s record = (s', Err x) -> log_reach s' h cut
| lr_truncate s h cut k b s' :
    log_reach s h cut ->
    log_truncate_before_or_at s k (mk_EventCursor (Z.of_nat b)) = (s', Ok tt) ->
    log_reach s' h (fun k' => if decide (k' = k /\ is_Some (s !! k)) then cut k' `max` b else cut k')%nat
| lr_truncate_refused s h cut k b s' x :
    log_reach s h cut ->
    log_truncate_before_or_at s k (mk_EventCursor (Z.of_nat b)) = (s', Err x) ->
    log_reach s' h cut.

Definition stream_history (h : list T) (k : EventStreamKey) : list T :=
  List.filter (fun r => bool_decide (key_of r = k)) h.

Definition log_holds (s : gmap EventStreamKey (StreamState T)) (h : list T)
    (cut : EventStreamKey -> nat) (k : EventStreamKey) : Prop :=
  match s !! k with
  | Some st => stream_holds st (stream_history h k) (cut k)
  | None => stream_history h k = [] /\ cut k = 0%nat
  end.

Lemma stream_history_snoc h r k :
  stream_history (h ++ [r]) k
  = if decide (key_of r = k) then stream_history h k ++ [r] else stream_history h k.
Proof.
  unfold stream_history. rewrite List.filter_app. simpl. case_decide as Hk.
  - by rewrite bool_decide_eq_true_2.
  - rewrite bool_decide_eq_false_2 by done. apply app_nil_r.
Qed.

Lemma default_holds s h cut k :
  log_holds s h cut k ->
  stream_holds (default StreamState_default (s !! k)) (stream_history h k) (cut k).
Proof.
  unfold log_holds. destruct (s !! k) as [st|]; simpl; [done|].
  intros [-> ->]. by split.
Qed.

Lemma holds_some s h cut k st :
  s !! k = Some st -> stream_holds st (stream_history h k) (cut k) -> log_holds s h cut k.
Proof. unfold log_holds. by intros ->. Qed.

Lemma holds_frame s s' h h' cut cut' k :
  s' !! k = s !! k -> stream_history h' k = stream_history h k -> cut' k = cut k ->
  log_holds s h cut k -> log_holds s' h' cut' k.
Proof. unfold log_holds. by intros -> -> ->. Qed.

Lemma append_log_holds s h cut record s' r k :
  log_append key_of s record = (s', r) -> log_holds s h cut k ->
  Z.of_nat (length (stream_history (h ++ [record]) k)) < u64_max ->
  log_holds s' (if is_ok r then h ++ [record] else h) cut k.
Proof.
  unfold log_append. intros Happ Hk Hmax. rewrite stream_history_snoc in Hmax.
  destruct (StreamState_append _ record) as [st' r'] eqn:Ha. injection Happ as <- <-.
  destruct (decide (key_of record = k)) as [<-|Hne].
  - rewrite length_app in Hmax. apply default_holds in Hk as Hd.
    destruct (append_holds _ _ _ record Hd ltac:(lia)) as (st & e & Heq & Hst).
    rewrite Heq in Ha. injection Ha as <- <-. simpl.
    eapply holds_some; [apply lookup_insert_eq|]. by rewrite stream_history_snoc, decide_True.
  - eapply holds_frame; [by apply lookup_insert_ne| |done|done].
    destruct (is_ok r'); [|done]. by rewrite stream_history_snoc, decide_False.
Qed.

Lemma truncate_log_holds s h cut k0 b s' r k :
  log_truncate_before_or_at s k0 (mk_EventCursor (Z.of_nat b)) = (s', r) -> log_holds s h cut k ->
  Z.of_nat (length (stream_history h k)) < u64_max ->
  log_holds s' h (if is_ok r then
    fun k' => if decide (k' = k0 /\ is_Some (s !! k0)) then cut k' `max` b else cut k'
    else cut)%nat k.
Proof.
  unfold log_truncate_before_or_at. intros Ht Hk Hmax.
  destruct (s !! k0) as [st|] eqn:Hk0.
  - destruct (StreamState_truncate_before_or_at st _) as [st' r'] eqn:Ha. injection Ht as <- <-.
    destruct (decide (k = k0)) as [->|Hne].
    + unfold log_holds in Hk. rewrite Hk0 in Hk.
      pose proof (truncate_holds _ _ _ _ _ _ Hk Hmax Ha) as Hst.
      eapply holds_some; [apply lookup_insert_eq|].
      destruct (is_ok r'); [|done]. rewrite decide_True by by eauto. done.
    + eapply holds_frame; [by apply lookup_insert_ne|done| |done].
      destruct (is_ok r'); [|done]. by rewrite decide_False by naive_solver.
  - injection Ht as <- <-. simpl. eapply holds_frame; [done|done| |done].
    rewrite decide_False; [done|]. by intros [_ [? ?]].
Qed.

Lemma stream_history_length h r k :
  (length (stream_history h k) <= length (stream_history (h ++ [r]) k))%nat.
Proof. rewrite stream_history_snoc. case_decide; rewrite ?length_app; lia. Qed.

Lemma log_reach_holds s h cut k :
  log_reach s h cut -> Z.of_nat (length (stream_history h k)) < u64_max -> log_holds s h cut k.
Proof.
  induction 1 as [|s h cut r s' e _ IH Ha|s h cut r s' x _ IH Ha
                  |s h cut k0 b s' _ IH Ht|s h cut k0 b s' x _ IH Ht]; intros Hmax.
  - done.
  - pose proof (stream_history_length h r k).
    apply (append_log_holds _ _ _ _ _ _ k Ha); [apply IH; lia | done].
  - destruct (decide (key_of r = k)) as [<-|Hne].
    + specialize (IH Hmax). unfold log_append in Ha.
      destruct (append_holds _ _ _ r (default_holds _ _ _ _ IH) ltac:(lia)) as (st & e & Heq & _).
      by rewrite Heq in Ha.
    + apply (append_log_holds _ _ _ _ _ _ k Ha); [by apply IH|].
      by rewrite stream_history_snoc, decide_False.
  - exact (truncate_log_holds _ _ _ _ _ _ _ k Ht (IH Hmax) Hmax).
  - exact (truncate_log_holds _ _ _ _ _ _ _ k Ht (IH Hmax) Hmax).
Qed.
End LogSpec.

(** In a durable log reached by any appends and truncations, a read of stream
    [k] at a cursor [c] answers from the records appended to [k] alone, in their
    order: the first [limit] records after [c] that the filter admits, with their
    cursors, and a next cursor from which exactly the remaining ones are pending
    (beyond [c] unless the reader is at the head), so that paging loses and repeats
    nothing; or, exactly when [c] is beyond the head or before the truncation bound,
    the replay gap.  The head cursor is the number of records appended.  It holds
    for the event log and the audit log, while a stream has fewer than [2^64 - 1]
    records. *)
Theorem log_replays_history {T} (key_of : T -> EventStreamKey) matches s h cut k filter after
    (c limit : nat) :
  log_reach key_of s h cut ->
  Z.of_nat (length (stream_history key_of h k)) < u64_max ->
  default EventCursor_origin after = mk_EventCursor (Z.of_nat c) ->
  (1 <= limit)%nat ->
  replays (matches filter) (stream_history key_of h k) (cut k) c limit
    (log_read_after_cursor matches s k filter after limit) /\
  log_head_cursor s k (mk_EventCursor (Z.of_nat c))
  = (if decide (c <= length (stream_history key_of h k))%nat
     then Ok (mk_EventCursor (Z.of_nat (length (stream_history key_of h k))))
     else Err (ReplayGap (mk_EventCursor (Z.of_nat c))
                 (mk_EventCursor (Z.of_nat (length (stream_history key_of h k)))))).
Proof.
  intros Hr Hmax Hc Hlim. pose proof (log_reach_holds key_of s h cut k Hr Hmax) as Hk.
  unfold log_read_after_cursor, log_head_cursor. rewrite Hc.
  rewrite (proj2 (Nat.eqb_neq limit 0)) by lia. unfold log_holds in Hk.
  destruct (s !! k) as [st|].
  - split; [by apply read_after_replays|]. rewrite (sh_next _ _ _ Hk). simpl.
    case_decide; [rewrite (proj2 (Z.ltb_ge _ _)) by lia | rewrite (proj2 (Z.ltb_lt _ _)) by lia];
      done.
  - destruct Hk as [-> ->]. split.
    + unfold replays. simpl. destruct c as [|c]; simpl.
      * exists 0%nat. split; [lia|]. unfold pending. simpl. rewrite take_nil, drop_nil.
        by repeat split.
      * done.
    + simpl. by destruct c.
Qed.

(** ** JSONL replay against the log *)

Section JsonlSpec.
Context {T : Type}.
Variable from_str : string -> result T string.
Variable utf8_error : string -> string.

(** The stream after appending the records in order. *)
Definition appended (hist : list T) : StreamState T :=
  foldl (fun st r => (StreamState_append st r).1) StreamState_default hist.

Lemma appended_holds hist :
  Z.of_nat (length hist) <= u64_max -> stream_holds (appended hist) hist 0.
Proof.
  unfold appended. induction hist as [|r hist IH] using rev_ind; intros Hmax; [by split|].
  rewrite length_app in Hmax. simpl in Hmax. rewrite foldl_app. simpl.
  destruct (append_holds _ _ _ r (IH ltac:(lia)) ltac:(lia)) as (st & e & Heq & Hst).
  by rewrite Heq.
Qed.

Lemma replay_lines_ok after limit lines hist n entries :
  try_map (parse_line from_str) lines = Ok hist -> (length entries <= limit)%nat ->
  replay_lines from_str after limit lines (Z.of_nat n) entries
  = Ok (Z.of_nat (n + length hist),
        entries ++ take (limit - length entries)
                     (List.filter (fun e => after <? cursor_of e) (numbered n hist))).
Proof.
  revert hist n entries. induction lines as [|line lines IH]; intros hist n entries H Hl; simpl in H.
  - injection H as <-. simpl. by rewrite take_nil, app_nil_r, Nat.add_0_r.
  - simpl. destruct (parse_line from_str line) as [record|e]; [|done].
    destruct (try_map (parse_line from_str) lines) as [recs|e] eqn:Ht; [|done].
    injection H as <-. replace (Z.of_nat n + 1) with (Z.of_nat (S n)) by lia.
    cbn -[Z.of_nat Nat.ltb]. unfold cursor_of at 1. cbn -[Z.of_nat Nat.ltb].
    destruct (after <? Z.of_nat (S n)); cbn -[Z.of_nat Nat.ltb]; [|rewrite (IH recs) by done; do 3 f_equal; lia].
    destruct (Nat.ltb_spec (length entries) limit) as [Hlt|Hge].
    + rewrite (IH recs) by (try done; rewrite length_app; simpl; lia). rewrite length_app, <- app_assoc. simpl.
      replace (limit - length entries)%nat with (S (limit - (length entries + 1))) by lia.
      do 3 f_equal. lia.
    + rewrite (IH recs) by done. replace (limit - length entries)%nat with 0%nat by lia.
      simpl. do 3 f_equal. lia.
Qed.

Lemma replay_lines_err after limit lines e n entries :
  try_map (parse_line from_str) lines = Err e ->
  replay_lines from_str after limit lines n entries = Err e.
Proof.
  revert n entries. induction lines as [|line lines IH]; intros n entries H; simpl in *; [done|].
  destruct (parse_line from_str line); [|by injection H as ->].
  destruct (try_map (parse_line from_str) lines); [done|]. injection H as ->. by apply IH.
Qed.

(** Replaying a JSONL text gives, for every cursor and page size, exactly what
    the in-memory log answers after appending the text's records in order to an
    empty stream and reading it without a filter; a text with a malformed line
    gives the parse error whatever page is asked for. *)
Theorem jsonl_replay_equals_log bytes after (c limit : nat) k filter :
  default EventCursor_origin after = mk_EventCursor (Z.of_nat c) -> (1 <= limit)%nat ->
  match parse_jsonl from_str utf8_error bytes with
  | Err e => replay_jsonl from_str utf8_error bytes after limit = Err e
  | Ok hist =>
      Z.of_nat (length hist) <= u64_max ->
      replay_jsonl from_str utf8_error bytes after limit
      = log_read_after_cursor (fun _ _ => true) {[ k := appended hist ]} k filter after limit
  end.
Proof.
  intros Hc Hlim. unfold parse_jsonl, replay_jsonl, log_read_after_cursor. rewrite Hc.
  rewrite (proj2 (Nat.eqb_neq limit 0)) by lia. simpl.
  destruct (jsonl_text utf8_error bytes) as [text|e]; [|done].
  destruct (try_map _ (jsonl_lines text)) as [hist|e] eqn:Ht;
    [|by rewrite (replay_lines_err _ _ _ _ _ _ Ht)].
  intros Hmax. rewrite lookup_singleton_eq, (replay_lines_ok _ _ _ _ 0 [] Ht) by (simpl; lia).
  rewrite numbered_drop_filter, Nat.sub_0_r. simpl. rewrite Nat.sub_0_r.
  pose proof (read_after_replays _ _ _ c limit (fun _ => true) (appended_holds hist Hmax) Hlim) as Hr.
  unfold replays in Hr. assert (pending (fun _ => true) hist c = numbered c (drop c hist)) as Hp.
  { unfold pending. by apply filter_all. }
  case_decide as Hgap; [rewrite (proj2 (Z.ltb_lt _ _)) by lia; congruence|].
  rewrite (proj2 (Z.ltb_ge _ _)) by lia. rewrite decide_False in Hr by lia.
  destruct Hr as (next & Hn & -> & Hnext & Hprog). rewrite Hp in *. do 2 f_equal.
  destruct (last (take limit (numbered c (drop c hist)))) as [e|] eqn:Hl.
  - rewrite <- Hp in Hl. destruct (page_last _ c limit (drop c hist) e Hlim Hl) as (j & Hj & -> & Hd).
    f_equal. fold (pending (fun _ : T => true) hist c) in Hd. rewrite Hp, <- Hnext in Hd.
    assert (length (numbered (c + j) (drop j (drop c hist)))
            = length (numbered next (drop next hist))) as Hlen.
    { rewrite <- (filter_all (fun _ => true) (numbered (c + j) _)) by done.
      rewrite Hd. unfold pending. by rewrite filter_all. }
    rewrite length_drop in Hj.
    assert (forall n (l : list T), length (numbered n l) = length l) as Hnl.
    { intros n l. revert n. induction l as [|x l IH]; intros n; simpl; [done|]. by rewrite IH. }
    rewrite !Hnl, !length_drop in Hlen. lia.
  - apply last_None in Hl. f_equal. f_equal.
    destruct (drop c hist) as [|x l] eqn:Hd; [|by destruct limit; [lia|]].
    apply (f_equal length) in Hd. rewrite length_drop in Hd. simpl in Hd. lia.
Qed.
End JsonlSpec.

Lemma jsonl_replay_equals_log_witness :
  replay_jsonl (fun s => Ok s) (fun s => s) (bytes_str [97; 10; 10; 98; 10])
    (Some (mk_EventCursor 1)) 1
  = log_read_after_cursor (fun _ _ => true)
      {[ mk_EventStreamKey (from_trusted "t") (from_trusted "u") None := appended ["a"; "b"] ]}
      (mk_EventStreamKey (from_trusted "t") (from_trusted "u") None) ReadScope_any
      (Some (mk_EventCursor 1)) 1.
Proof.
  exact (jsonl_replay_equals_log (fun s => Ok s) (fun s => s) (bytes_str [97; 10; 10; 98; 10])
           (Some (mk_EventCursor 1)) 1 1
           (mk_EventStreamKey (from_trusted "t") (from_trusted "u") None) ReadScope_any
           eq_refl ltac:(lia) ltac:(vm_compute; congruence)).
Defined.

(** ** A concrete log: two streams, a truncation, a read that a filter empties *)

Definition example_event (user : string) (thread : option string) : RuntimeEvent :=
  dispatch_requested (mk_RuntimeEventId 1, 0)
    (mk_ResourceScope (from_trusted "t") (from_trusted user) None None
       (option_map from_trusted thread) (from_uuid 1))
    (mk_CapabilityId "demo.run").

Definition example_history : list RuntimeEvent :=
  [example_event "u" None; example_event "v" None; example_event "u" (Some "a");
   example_event "u" None].

Definition example_log : gmap EventStreamKey (StreamState RuntimeEvent) :=
  (log_truncate_before_or_at
     (foldl (fun s e => (log_append event_key s e).1) ∅ example_history)
     (event_key (example_event "u" None)) (mk_EventCursor 1)).1.

Lemma log_replays_history_witness :
  replays (matches_event (mk_ReadScope None (Some (from_trusted "a")) None))
    (stream_history event_key example_history (event_key (example_event "u" None))) 1 1 2
    (log_read_after_cursor matches_event example_log (event_key (example_event "u" None))
       (mk_ReadScope None (Some (from_trusted "a")) None) (Some (mk_EventCursor 1)) 2).
Proof.
  assert (exists cut, log_reach event_key example_log example_history cut /\
            cut (event_key (example_event "u" None)) = 1%nat) as (cut & Hr & Hcut).
  { eexists. split.
    - eapply (lr_truncate _ _ _ _ (event_key (example_event "u" None)) 1);
        [|exact (surjective_pairing _)].
      eapply (lr_append _ _ [_; _; _]); [|exact (surjective_pairing _)].
      eapply (lr_append _ _ [_; _]); [|exact (surjective_pairing _)].
      eapply (lr_append _ _ [_]); [|exact (surjective_pairing _)].
      eapply (lr_append _ _ []); [constructor|exact (surjective_pairing _)].
    - vm_compute. done. }
  destruct (log_replays_history event_key matches_event _ _ cut (event_key (example_event "u" None))
              (mk_ReadScope None (Some (from_trusted "a")) None) (Some (mk_EventCursor 1)) 1 2 Hr)
    as [H _]; [by vm_compute|done|lia|].
  rewrite Hcut in H. exact H.
Defined.

(** The page is empty and its next cursor is the head, not the requested cursor. *)
Example filtered_page_advances :
  log_read_after_cursor matches_event example_log (event_key (example_event "u" None))
    (mk_ReadScope (Some (from_trusted "p")) None None) (Some (mk_EventCursor 1)) 2
  = Ok (mk_EventReplay [] (mk_EventCursor 3)).
Proof. by vm_compute. Qed.

(** ** Redaction *)

(** A text field that redaction leaves alone. *)
Definition clean (sanitize : string -> string) (field : option string) : Prop :=
  option_map sanitize field = field.

Record redacted (e : RuntimeEvent) : Prop := {
  rd_error_kind : clean sanitize_error_kind (re_error_kind e);
  rd_hook_id : clean sanitize_hook_id (re_hook_id e);
  rd_hook_point : clean sanitize_hook_label (re_hook_point e);
  rd_hook_trust_class : clean sanitize_hook_label (re_hook_trust_class e);
  rd_hook_decision : clean sanitize_hook_label (re_hook_decision e);
  rd_hook_failure_category : clean sanitize_hook_label (re_hook_failure_category e);
  rd_hook_failure_disposition : clean sanitize_hook_label (re_hook_failure_disposition e) }.

Lemma sanitize_error_kind_idem v : sanitize_error_kind (sanitize_error_kind v) = sanitize_error_kind v.
Proof. unfold sanitize_error_kind at 2 3. destruct (is_safe_error_kind v) eqn:H; [by unfold sanitize_error_kind; rewrite H | by vm_compute]. Qed.

Lemma sanitize_hook_label_idem v : sanitize_hook_label (sanitize_hook_label v) = sanitize_hook_label v.
Proof. unfold sanitize_hook_label at 2 3. destruct (is_safe_hook_label v) eqn:H; [by unfold sanitize_hook_label; rewrite H | by vm_compute]. Qed.

Lemma sanitize_hook_id_idem v : sanitize_hook_id (sanitize_hook_id v) = sanitize_hook_id v.
Proof. unfold sanitize_hook_id at 2 3. destruct (is_safe_hook_id v) eqn:H; [by unfold sanitize_hook_id; rewrite H | by vm_compute]. Qed.

Lemma clean_map f (o : option string) : (forall v, f (f v) = f v) -> clean f (option_map f o).
Proof. intros Hf. destruct o; simpl; [|done]. unfold clean. simpl. by rewrite Hf. Qed.

#[local] Hint Resolve clean_map sanitize_error_kind_idem sanitize_hook_label_idem
  sanitize_hook_id_idem : rust.

Lemma redact_fields_redacted rt e : redacted (redact_fields rt e).
Proof. split; simpl; auto with rust. Qed.

(** The text in a redacted [error_kind] field is a short classification token. *)
Lemma redacted_error_kind_text e v :
  redacted e -> re_error_kind e = Some v -> is_safe_error_kind v = true \/ v = UNCLASSIFIED_ERROR_KIND.
Proof.
  intros [H _ _ _ _ _ _] Hv. unfold clean in H. rewrite Hv in H. injection H as H.
  unfold sanitize_error_kind in H. destruct (is_safe_error_kind v); auto.
Qed.

Lemma redact_fixed e : redacted e -> redact_fields (re_runtime e) e = e.
Proof. intros [H1 H2 H3 H4 H5 H6 H7]. unfold clean in *. destruct e; simpl in *. unfold redact_fields. simpl. congruence. Qed.

(** Whatever fields an in-process caller assigned, the serialised event and every
    decoded one are redacted, and an event that is redacted, as every constructed
    one is, crosses the wire unchanged. *)
Theorem wire_crossing_redacts e rt :
  redacted (RuntimeEvent_serialize e) /\
  redacted (RuntimeEventWire_into_event e) /\
  redacted (TrustedRuntimeEventWire_into_event rt e) /\
  RuntimeEventWire_into_event (RuntimeEvent_serialize e) = RuntimeEvent_serialize e /\
  (redacted e -> RuntimeEventWire_into_event (RuntimeEvent_serialize e) = e).
Proof.
  repeat split; try apply redact_fields_redacted; simpl;
    try (apply clean_map; auto with rust).
  - exact (redact_fixed (RuntimeEvent_serialize e) (redact_fields_redacted _ _)).
  - intros H. unfold RuntimeEvent_serialize. rewrite redact_fixed by done. by apply redact_fixed.
Qed.

Lemma constructors_redacted fresh scope cap provider runtime pid kind hook_id p1 p2 owner oruntime :
  redacted (dispatch_requested fresh scope cap) /\
  redacted (dispatch_failed fresh scope cap owner oruntime kind) /\
  redacted (process_failed fresh scope cap provider runtime pid kind) /\
  redacted (hook_dispatched fresh scope cap hook_id p1 p2 owner) /\
  redacted (hook_decision_emitted fresh scope cap hook_id p1 owner) /\
  redacted (hook_failed fresh scope cap hook_id p1 p2 owner).
Proof.
  repeat split; try (apply (clean_map _ (Some _)); auto with rust); try done.
Qed.
