(* ===== verification/Extensions.v ===== *)
(** * Extension packages, the registry, its lifecycle and discovery

    [crates/brassclaw_extensions/src]: packages built from a validated manifest and
    their consistency check ([lib.rs]), the registry and the shared, versioned
    registry ([registry.rs]), the lifecycle service over an event sink
    ([lifecycle.rs]), and the bounded discovery of packages ([lib.rs]).  The TOML
    parser and the digest are parameters of discovery, the sink of the lifecycle
    events of the service.

    The theorems: every registry that the operations reach lists exactly the
    capabilities of its packages, each under its own package and runtime, in
    orders without repetition; a failed operation changes nothing; bounded discovery
    reads at most as many manifests as the bound and accounts for every directory. *)

From stdpp Require Import pretty.
From S2P Require Import Prelude Effects External HostIds Paths HostTypes Trust Filesystem.
Open Scope Z_scope.

(** ** Manifests and packages *)

Inductive ManifestSource : Type := HostBundled | InstalledLocal | RegistryInstalled.

#[export] Instance ManifestSource_eq_dec : EqDecision ManifestSource.
Proof. solve_decision. Defined.

Definition allows_first_party (self : ManifestSource) : bool :=
  match self with HostBundled => true | _ => false end.

Inductive CapabilityVisibility : Type := VisModel | VisHostInternal | VisApi.

Section Extensions.
Context `{D : Decimal} {J : SerdeJson} `{JV : !JsonValue J}.

Inductive ExtensionRuntime : Type :=
| RtMcp (transport : string) (command : option string) (args : list string) (url : option string)
| RtFirstParty (service : string)
| RtSystem (service : string).

Definition ExtensionRuntime_kind (self : ExtensionRuntime) : RuntimeKind :=
  match self with
  | RtMcp _ _ _ _ => RuntimeMcp
  | RtFirstParty _ => RuntimeFirstParty
  | RtSystem _ => RuntimeSystem
  end.

(** The profile, schema and port names are validated newtypes over [String]. *)
Record CapabilityDeclV2 : Type := mk_CapabilityDeclV2 {
  dv_id : CapabilityId;
  dv_implements : list string;
  dv_description : string;
  dv_effects : list EffectKind;
  dv_default_permission : PermissionMode;
  dv_visibility : CapabilityVisibility;
  dv_input_schema_ref : string;
  dv_output_schema_ref : string;
  dv_prompt_doc_ref : option string;
  dv_required_host_ports : list string;
  dv_runtime_credentials : list RuntimeCredentialRequirement;
  dv_resource_profile : option ResourceProfile }.

Record HostApiRefV2 : Type := mk_HostApiRefV2 { har_id : string; har_section : string }.
Record HookSectionEntryV2 : Type := mk_HookSectionEntryV2 { hse_local_id : string; hse_raw_toml : string }.

Record ExtensionManifest : Type := mk_ExtensionManifest {
  em_schema_version : string;
  em_id : ExtensionId;
  em_name : string;
  em_version : string;
  em_description : string;
  em_source : ManifestSource;
  em_requested_trust : RequestedTrustClass;
  em_descriptor_trust_default : TrustClass;
  em_runtime : ExtensionRuntime;
  em_host_apis : list HostApiRefV2;
  em_capabilities : list CapabilityDeclV2;
  em_hooks : list HookSectionEntryV2 }.

Definition ExtensionManifest_runtime_kind (self : ExtensionManifest) : RuntimeKind :=
  ExtensionRuntime_kind (em_runtime self).

Inductive CapabilityDescriptorSchemaMode : Type := ManifestRefs | InlineDynamic.

Record ExtensionPackage : Type := mk_ExtensionPackage {
  ep_id : ExtensionId;
  ep_root : VirtualPath;
  ep_manifest : ExtensionManifest;
  ep_capabilities : list CapabilityDescriptor;
  ep_manifest_digest : option string;
  ep_descriptor_schema_mode : CapabilityDescriptorSchemaMode }.

(** The variant of the v2 manifest parser carries the parser's message. *)
Inductive ExtensionError : Type :=
| ExtContract (error : HostApiError)
| ManifestParse (reason : string)
| InvalidManifest (reason : string)
| InvalidAssetPath (path reason : string)
| ManifestIdMismatch (root : VirtualPath) (expected actual : ExtensionId)
| DuplicateExtension (id : ExtensionId)
| ExtensionNotFound (id : ExtensionId)
| DuplicateCapability (id : CapabilityId)
| LifecycleEventSink (extension_id : ExtensionId) (operation : ExtensionLifecycleOperation)
| ManifestV2 (reason : string)
| ExtFilesystem (error : FilesystemError).

Definition invalid_package_root (root : VirtualPath) : ExtensionError :=
  InvalidManifest ("extension package root " +:+ vp_str root
                   +:+ " must be /system/extensions/<extension>").

Definition extension_id_from_package_root (root : VirtualPath) : result ExtensionId ExtensionError :=
  match strip_prefix "/system/extensions/" (vp_str root) with
  | None => Err (invalid_package_root root)
  | Some extension_id =>
      if bool_decide (extension_id = "") || contains_char slash extension_id
      then Err (invalid_package_root root)
      else map_err ExtContract (string_id_new KExtension extension_id)
  end.

Definition ensure_extension_root_matches (id : ExtensionId) (root : VirtualPath) :
    result unit ExtensionError :=
  let? expected := extension_id_from_package_root root in
  if bool_decide (expected = id) then Ok tt else Err (ManifestIdMismatch root expected id).

Definition descriptor_schema_ref (capability : CapabilityDeclV2) : json :=
  json_ref (dv_input_schema_ref capability).

(** The closure over [manifest.capabilities]; [seen] is [seen_capabilities]. *)
Fixpoint descriptors_from (manifest : ExtensionManifest) (seen : list CapabilityId)
    (capabilities : list CapabilityDeclV2) : result (list CapabilityDescriptor) ExtensionError :=
  match capabilities with
  | [] => Ok []
  | capability :: rest =>
      let expected_prefix := as_str (em_id manifest) +:+ "." in
      if negb (starts_with expected_prefix (cap_str (dv_id capability))) then
        Err (InvalidManifest ("capability id " +:+ cap_str (dv_id capability)
               +:+ " must be provider-prefixed with " +:+ expected_prefix))
      else if bool_decide (dv_id capability ∈ seen) then Err (DuplicateCapability (dv_id capability))
      else
        let? descriptors := descriptors_from manifest (dv_id capability :: seen) rest in
        Ok ({| cd_id := dv_id capability; cd_provider := em_id manifest;
               cd_runtime := ExtensionManifest_runtime_kind manifest;
               cd_trust_ceiling := em_descriptor_trust_default manifest;
               cd_description := dv_description capability;
               cd_parameters_schema := descriptor_schema_ref capability;
               cd_effects := dv_effects capability;
               cd_default_permission := dv_default_permission capability;
               cd_runtime_credentials := dv_runtime_credentials capability;
               cd_resource_profile := dv_resource_profile capability |} :: descriptors)
  end.

Definition capability_descriptors_from_manifest (manifest : ExtensionManifest) :
    result (list CapabilityDescriptor) ExtensionError :=
  descriptors_from manifest [] (em_capabilities manifest).

Definition with_schema (schema : json) (d : CapabilityDescriptor) : CapabilityDescriptor :=
  mk_CapabilityDescriptor _ (cd_id d) (cd_provider d) (cd_runtime d) (cd_trust_ceiling d)
    (cd_description d) schema (cd_effects d) (cd_default_permission d)
    (cd_runtime_credentials d) (cd_resource_profile d).

Fixpoint list_eqb {A} (eqb : A -> A -> bool) (l1 l2 : list A) : bool :=
  match l1, l2 with
  | [], [] => true
  | x :: l1', y :: l2' => eqb x y && list_eqb eqb l1' l2'
  | _, _ => false
  end.

Definition descriptors_match_except_schema (actual expected : list CapabilityDescriptor) : bool :=
  list_eqb (fun actual expected =>
    CapabilityDescriptor_eqb (with_schema (cd_parameters_schema expected) actual) expected)
    actual expected.

Definition from_manifest_with_digest (manifest : ExtensionManifest) (root : VirtualPath)
    (manifest_digest : option string) : result ExtensionPackage ExtensionError :=
  let? _ := ensure_extension_root_matches (em_id manifest) root in
  let? capabilities := capability_descriptors_from_manifest manifest in
  Ok (mk_ExtensionPackage (em_id manifest) root manifest capabilities manifest_digest ManifestRefs).

Definition from_manifest (manifest : ExtensionManifest) (root : VirtualPath) :
    result ExtensionPackage ExtensionError :=
  from_manifest_with_digest manifest root None.

Definition from_host_bundled_manifest_with_inline_dynamic_schemas (manifest : ExtensionManifest)
    (root : VirtualPath) (manifest_digest : option string)
    (capabilities : list CapabilityDescriptor) : result ExtensionPackage ExtensionError :=
  if negb (bool_decide (em_source manifest = HostBundled)) then
    Err (InvalidManifest
           "inline dynamic descriptor schemas are only supported for host-bundled packages")
  else
    let? _ := ensure_extension_root_matches (em_id manifest) root in
    let? expected := capability_descriptors_from_manifest manifest in
    if negb (descriptors_match_except_schema capabilities expected) then
      Err (InvalidManifest
             "inline dynamic capability descriptors do not match manifest declarations")
    else Ok (mk_ExtensionPackage (em_id manifest) root manifest capabilities manifest_digest
               InlineDynamic).

Definition validate_consistency (self : ExtensionPackage) : result unit ExtensionError :=
  if negb (bool_decide (ep_id self = em_id (ep_manifest self))) then
    Err (InvalidManifest ("package id " +:+ as_str (ep_id self) +:+ " does not match manifest id "
           +:+ as_str (em_id (ep_manifest self))))
  else
    let? _ := ensure_extension_root_matches (em_id (ep_manifest self)) (ep_root self) in
    let? expected := capability_descriptors_from_manifest (ep_manifest self) in
    let consistent :=
      match ep_descriptor_schema_mode self with
      | ManifestRefs => list_eqb CapabilityDescriptor_eqb (ep_capabilities self) expected
      | InlineDynamic =>
          bool_decide (em_source (ep_manifest self) = HostBundled)
          && descriptors_match_except_schema (ep_capabilities self) expected
      end in
    if negb consistent then
      Err (InvalidManifest "package capability descriptors do not match manifest declarations")
    else Ok tt.

Definition ExtensionPackage_package_identity (self : ExtensionPackage) (source : PackageSource)
    (digest signer : option string) : result PackageIdentity ExtensionError :=
  let? _ := validate_consistency self in
  let? id := map_err ExtContract (string_id_new KPackage (as_str (em_id (ep_manifest self)))) in
  Ok (mk_PackageIdentity id source digest signer).

Definition ExtensionPackage_trust_policy_input (self : ExtensionPackage) (source : PackageSource)
    (digest signer : option string) : result TrustPolicyInput ExtensionError :=
  let? identity := ExtensionPackage_package_identity self source digest signer in
  Ok (mk_TrustPolicyInput identity (em_requested_trust (ep_manifest self))
        (list_to_set (map cd_id (ep_capabilities self)))).

(** ** The registry *)

Record ExtensionRegistry : Type := mk_ExtensionRegistry {
  reg_packages : gmap ExtensionId ExtensionPackage;
  reg_capabilities : gmap CapabilityId CapabilityDescriptor;
  reg_capability_visibility : gmap CapabilityId CapabilityVisibility;
  reg_extension_order : list ExtensionId;
  reg_capability_order : list CapabilityId }.

Definition ExtensionRegistry_new : ExtensionRegistry := mk_ExtensionRegistry ∅ ∅ ∅ [] [].

Definition get_extension (self : ExtensionRegistry) (id : ExtensionId) : option ExtensionPackage :=
  reg_packages self !! id.
Definition get_capability (self : ExtensionRegistry) (id : CapabilityId) :
    option CapabilityDescriptor :=
  reg_capabilities self !! id.
Definition capability_visibility (self : ExtensionRegistry) (id : CapabilityId) :
    option CapabilityVisibility :=
  reg_capability_visibility self !! id.
Definition extensions (self : ExtensionRegistry) : list ExtensionPackage :=
  omap (get_extension self) (reg_extension_order self).
Definition capabilities (self : ExtensionRegistry) : list CapabilityDescriptor :=
  omap (get_capability self) (reg_capability_order self).

Definition existing_package (self : ExtensionRegistry) (id : ExtensionId) :
    result ExtensionPackage ExtensionError :=
  ok_or (reg_packages self !! id) (ExtensionNotFound id).

Definition belongs_to_replaced (self : ExtensionRegistry) (replacing : option ExtensionId)
    (id : CapabilityId) : bool :=
  match replacing with
  | Some rid =>
      match reg_packages self !! rid with
      | Some current => existsb (fun c => bool_decide (cd_id c = id)) (ep_capabilities current)
      | None => false
      end
  | None => false
  end.

Fixpoint check_descriptors (self : ExtensionRegistry) (package : ExtensionPackage)
    (replacing : option ExtensionId) (seen : list CapabilityId)
    (descriptors : list CapabilityDescriptor) : result unit ExtensionError :=
  match descriptors with
  | [] => Ok tt
  | descriptor :: rest =>
      if bool_decide (cd_id descriptor ∈ seen)
         || (bool_decide (is_Some (reg_capabilities self !! cd_id descriptor))
             && negb (belongs_to_replaced self replacing (cd_id descriptor))) then
        Err (DuplicateCapability (cd_id descriptor))
      else if negb (bool_decide (cd_provider descriptor = ep_id package)) then
        Err (InvalidManifest ("descriptor " +:+ cap_str (cd_id descriptor) +:+ " provider "
               +:+ as_str (cd_provider descriptor) +:+ " does not match package "
               +:+ as_str (ep_id package)))
      else check_descriptors self package replacing (cd_id descriptor :: seen) rest
  end.

Definition validate_capabilities_available (self : ExtensionRegistry) (package : ExtensionPackage)
    (replacing : option ExtensionId) : result unit ExtensionError :=
  check_descriptors self package replacing [] (ep_capabilities package).

Definition validate_insertable (self : ExtensionRegistry) (package : ExtensionPackage) :
    result unit ExtensionError :=
  let? _ := validate_consistency package in
  if bool_decide (is_Some (reg_packages self !! ep_id package))
  then Err (DuplicateExtension (ep_id package))
  else validate_capabilities_available self package None.

Definition validate_replacement (self : ExtensionRegistry) (package : ExtensionPackage) :
    result unit ExtensionError :=
  let? _ := validate_consistency package in
  let? _ := existing_package self (ep_id package) in
  validate_capabilities_available self package (Some (ep_id package)).

Definition declared_visibility (package : ExtensionPackage) (id : CapabilityId) :
    option CapabilityVisibility :=
  option_map dv_visibility
    (List.find (fun capability => bool_decide (dv_id capability = id))
       (em_capabilities (ep_manifest package))).

(** The two map insertions of the loops over [package.capabilities]. *)
Definition insert_descriptor (package : ExtensionPackage) (self : ExtensionRegistry)
    (descriptor : CapabilityDescriptor) : ExtensionRegistry :=
  mk_ExtensionRegistry (reg_packages self)
    (<[cd_id descriptor := descriptor]> (reg_capabilities self))
    (match declared_visibility package (cd_id descriptor) with
     | Some visibility => <[cd_id descriptor := visibility]> (reg_capability_visibility self)
     | None => reg_capability_visibility self
     end)
    (reg_extension_order self) (reg_capability_order self).

Definition with_orders (extension_order : list ExtensionId) (capability_order : list CapabilityId)
    (packages : gmap ExtensionId ExtensionPackage) (self : ExtensionRegistry) :
    ExtensionRegistry :=
  mk_ExtensionRegistry packages (reg_capabilities self) (reg_capability_visibility self)
    extension_order capability_order.

Definition insert_validated (self : ExtensionRegistry) (package : ExtensionPackage) :
    ExtensionRegistry :=
  with_orders (reg_extension_order self ++ [ep_id package])
    (reg_capability_order self ++ map cd_id (ep_capabilities package))
    (<[ep_id package := package]> (reg_packages self))
    (foldl (insert_descriptor package) self (ep_capabilities package)).

Definition ExtensionRegistry_insert (self : ExtensionRegistry) (package : ExtensionPackage) :
    ExtensionRegistry * result unit ExtensionError :=
  match validate_insertable self package with
  | Ok _ => (insert_validated self package, Ok tt)
  | Err e => (self, Err e)
  end.

Definition remove_capability (self : ExtensionRegistry) (id : CapabilityId) : ExtensionRegistry :=
  mk_ExtensionRegistry (reg_packages self) (delete id (reg_capabilities self))
    (delete id (reg_capability_visibility self)) (reg_extension_order self)
    (reg_capability_order self).

(** [Iterator::position]. *)
Fixpoint position {A} (p : A -> bool) (l : list A) : option nat :=
  match l with
  | [] => None
  | x :: l' => if p x then Some 0%nat else option_map S (position p l')
  end.

(** The capabilities of the new package are inserted at consecutive indices from
    where the first one of the old package stood ([Vec::insert] shifts the rest);
    the package keeps its place in [extension_order].  Without a registered package
    nothing happens. *)
Definition replace_validated (self : ExtensionRegistry) (package : ExtensionPackage) :
    ExtensionRegistry :=
  let id := ep_id package in
  match reg_packages self !! id with
  | None => self
  | Some current =>
      let current_capability_ids := map cd_id (ep_capabilities current) in
      let owned := fun c => bool_decide (c ∈ current_capability_ids) in
      let capability_insert_index :=
        default (length (reg_capability_order self)) (position owned (reg_capability_order self)) in
      let order := List.filter (fun c => negb (owned c)) (reg_capability_order self) in
      let order := take capability_insert_index order ++ map cd_id (ep_capabilities package)
                   ++ drop capability_insert_index order in
      let extension_order :=
        match position (fun e => bool_decide (e = id)) (reg_extension_order self) with
        | Some index => <[index := id]> (reg_extension_order self)
        | None => reg_extension_order self ++ [id]
        end in
      with_orders extension_order order (<[id := package]> (reg_packages self))
        (foldl (insert_descriptor package)
           (foldl remove_capability self current_capability_ids) (ep_capabilities package))
  end.

Definition ExtensionRegistry_update (self : ExtensionRegistry) (package : ExtensionPackage) :
    ExtensionRegistry * result unit ExtensionError :=
  match validate_replacement self package with
  | Ok _ => (replace_validated self package, Ok tt)
  | Err e => (self, Err e)
  end.

Definition ExtensionRegistry_remove (self : ExtensionRegistry) (id : ExtensionId) :
    ExtensionRegistry * option ExtensionPackage :=
  match reg_packages self !! id with
  | None => (self, None)
  | Some package =>
      let ids := map cd_id (ep_capabilities package) in
      (with_orders (List.filter (fun e => negb (bool_decide (e = id))) (reg_extension_order self))
         (foldl (fun order c => List.filter (fun c' => negb (bool_decide (c' = c))) order)
            (reg_capability_order self) ids)
         (delete id (reg_packages self)) (foldl remove_capability self ids),
       Some package)
  end.

(** ** The shared registry: a snapshot and a version that wraps around *)

Record SharedExtensionRegistry : Type := mk_SharedExtensionRegistry {
  shared_inner : ExtensionRegistry; shared_version : Z }.

Definition fetch_add_1 (v : Z) : Z := (v + 1) mod 2 ^ 64.

Definition SharedExtensionRegistry_new (registry : ExtensionRegistry) : SharedExtensionRegistry :=
  mk_SharedExtensionRegistry registry 0.

Definition snapshot (self : SharedExtensionRegistry) : ExtensionRegistry := shared_inner self.

(** [f] mutates the registry in place: what it leaves behind stays also when it
    fails. *)
Definition with_mut_result {R} (self : SharedExtensionRegistry)
    (f : ExtensionRegistry -> ExtensionRegistry * result R ExtensionError) :
    SharedExtensionRegistry * result R ExtensionError :=
  match f (shared_inner self) with
  | (registry, Ok r) =>
      (mk_SharedExtensionRegistry registry (fetch_add_1 (shared_version self)), Ok r)
  | (registry, Err e) => (mk_SharedExtensionRegistry registry (shared_version self), Err e)
  end.

Definition shared_insert (self : SharedExtensionRegistry) (package : ExtensionPackage) :=
  with_mut_result self (fun registry => ExtensionRegistry_insert registry package).
Definition shared_update (self : SharedExtensionRegistry) (package : ExtensionPackage) :=
  with_mut_result self (fun registry => ExtensionRegistry_update registry package).
Definition shared_upsert (self : SharedExtensionRegistry) (package : ExtensionPackage) :=
  with_mut_result self (fun registry =>
    if bool_decide (is_Some (get_extension registry (ep_id package)))
    then ExtensionRegistry_update registry package
    else ExtensionRegistry_insert registry package).
Definition shared_remove (self : SharedExtensionRegistry) (id : ExtensionId) :
    SharedExtensionRegistry * option ExtensionPackage :=
  let '(registry, removed) := ExtensionRegistry_remove (shared_inner self) id in
  (mk_SharedExtensionRegistry registry
     (if bool_decide (removed = None) then shared_version self
      else fetch_add_1 (shared_version self)),
   removed).
Definition shared_replace (self : SharedExtensionRegistry) (registry : ExtensionRegistry) :
    SharedExtensionRegistry :=
  mk_SharedExtensionRegistry registry (fetch_add_1 (shared_version self)).

(** ** Consistent packages *)

Definition package_ok (p : ExtensionPackage) : Prop := validate_consistency p = Ok tt.

(** What consistency fixes of a package's descriptors. *)
Record descriptors_ok (p : ExtensionPackage) : Prop := {
  do_nodup : NoDup (map cd_id (ep_capabilities p));
  do_provider : forall d, d ∈ ep_capabilities p -> cd_provider d = ep_id p;
  do_runtime : forall d, d ∈ ep_capabilities p ->
    cd_runtime d = ExtensionManifest_runtime_kind (ep_manifest p);
  do_prefix : forall d, d ∈ ep_capabilities p ->
    starts_with (as_str (ep_id p) +:+ ".") (cap_str (cd_id d)) = true }.

Definition same_place (d e : CapabilityDescriptor) : Prop :=
  cd_id d = cd_id e /\ cd_provider d = cd_provider e /\ cd_runtime d = cd_runtime e.

Lemma descriptor_eqb_place d e : CapabilityDescriptor_eqb d e = true -> same_place d e.
Proof.
  unfold CapabilityDescriptor_eqb, same_place. intros H.
  repeat (apply andb_true_iff in H as [H ?]). repeat split; by eapply bool_decide_eq_true_1.
Qed.

Lemma list_eqb_place (eqb : CapabilityDescriptor -> CapabilityDescriptor -> bool) l1 l2 :
  (forall d e, eqb d e = true -> same_place d e) -> list_eqb eqb l1 l2 = true ->
  Forall2 same_place l1 l2.
Proof.
  intros He. revert l2. induction l1 as [|d l1 IH]; intros [|e l2]; simpl; try done.
  intros [H1 H2]%andb_true_iff. constructor; auto.
Qed.

Lemma descriptors_from_ok manifest seen decls ds :
  descriptors_from manifest seen decls = Ok ds ->
  map cd_id ds = map dv_id decls /\ NoDup (map cd_id ds) /\
  (forall c, c ∈ seen -> c ∉ map cd_id ds) /\
  Forall (fun d => cd_provider d = em_id manifest
                   /\ cd_runtime d = ExtensionManifest_runtime_kind manifest
                   /\ starts_with (as_str (em_id manifest) +:+ ".") (cap_str (cd_id d)) = true) ds.
Proof.
  revert seen ds. induction decls as [|c decls IH]; intros seen ds; simpl.
  { intros [= <-]. repeat split; try constructor. intros c _. apply not_elem_of_nil. }
  intros H. invert_ok H. injection H as <-.
  match goal with Hd : descriptors_from _ _ _ = _ |- _ => apply IH in Hd as (Hm & Hn & Hs & HF) end.
  apply negb_false_iff in Heqb. apply bool_decide_eq_false in Heqb0. simpl. repeat split.
  - by rewrite Hm.
  - constructor; [|done]. apply Hs. by left.
  - intros x Hx Hin. apply elem_of_cons in Hin as [->|Hin]; [done|]. eapply Hs; [by right|done].
  - constructor; [|done]. done.
Qed.

Lemma same_place_ids l1 l2 : Forall2 same_place l1 l2 -> map cd_id l1 = map cd_id l2.
Proof. induction 1 as [|d e l1 l2 [H _] _ IH]; simpl; congruence. Qed.

Lemma package_ok_places p :
  package_ok p ->
  ep_id p = em_id (ep_manifest p) /\
  exists expected, capability_descriptors_from_manifest (ep_manifest p) = Ok expected
    /\ Forall2 same_place (ep_capabilities p) expected.
Proof.
  unfold package_ok, validate_consistency. intros H. invert_ok H.
  apply negb_false_iff, bool_decide_eq_true in Heqb. apply negb_false_iff in Heqb0.
  split; [done|]. eexists. split; [done|]. destruct (ep_descriptor_schema_mode p).
  - by eapply list_eqb_place, Heqb0; apply descriptor_eqb_place.
  - apply andb_true_iff in Heqb0 as [_ Hm]. eapply list_eqb_place, Hm.
    intros d e Hde. by apply descriptor_eqb_place in Hde.
Qed.

Lemma package_ok_descriptors p : package_ok p -> descriptors_ok p.
Proof.
  intros (Hid & expected & (_ & Hn & _ & HF)%descriptors_from_ok & HF2)%package_ok_places.
  assert (forall d, d ∈ ep_capabilities p -> exists e, e ∈ expected /\ same_place d e) as Hd.
  { intros d (i & Hi)%list_elem_of_lookup. destruct (Forall2_lookup_l _ _ _ _ _ HF2 Hi) as (e & He & Hde).
    exists e. split; [by eapply list_elem_of_lookup_2|done]. }
  split; [by rewrite (same_place_ids _ _ HF2)|..]; intros d (e & He & Hde1 & Hde2 & Hde3)%Hd;
    apply (proj1 (Forall_forall _ _) HF) in He as (H1 & H2 & H3); congruence.
Qed.

(** Every package that the constructors build is consistent, when JSON values and
    decimals compare equal to themselves. *)
Lemma list_eqb_refl {A} (eqb : A -> A -> bool) l :
  (forall x, eqb x x = true) -> list_eqb eqb l l = true.
Proof. intros H. induction l as [|x l IH]; simpl; [done|]. by rewrite H. Qed.

Lemma from_manifest_ok manifest root dg p :
  (forall d : CapabilityDescriptor, CapabilityDescriptor_eqb d d = true) ->
  from_manifest_with_digest manifest root dg = Ok p -> package_ok p.
Proof.
  unfold from_manifest_with_digest, package_ok, validate_consistency. intros Hrefl H.
  invert_ok H. injection H as <-. simpl. rewrite bool_decide_eq_true_2 by done. simpl.
  rewrite Heqr, Heqr0. by rewrite list_eqb_refl.
Qed.

Lemma from_host_bundled_ok manifest root dg caps p :
  from_host_bundled_manifest_with_inline_dynamic_schemas manifest root dg caps = Ok p ->
  package_ok p /\ em_source (ep_manifest p) = HostBundled.
Proof.
  unfold from_host_bundled_manifest_with_inline_dynamic_schemas, package_ok, validate_consistency.
  intros H. invert_ok H. injection H as <-. simpl.
  apply negb_false_iff in Heqb. apply negb_false_iff in Heqb0.
  rewrite bool_decide_eq_true_2 by done. simpl. rewrite Heqr, Heqr0, Heqb, Heqb0.
  by apply bool_decide_eq_true in Heqb.
Qed.

(** ** The registry invariant *)

(** The maps agree: packages are consistent and keyed by their id, the capabilities
    are exactly the packages' descriptors, each with its declared visibility. *)
Record maps_ok (r : ExtensionRegistry) : Prop := {
  mo_packages : forall id p, reg_packages r !! id = Some p -> ep_id p = id /\ package_ok p;
  mo_capabilities : forall c d, reg_capabilities r !! c = Some d <->
    exists id p, reg_packages r !! id = Some p /\ d ∈ ep_capabilities p /\ cd_id d = c;
  mo_visibility : forall c v, reg_capability_visibility r !! c = Some v <->
    exists id p, reg_packages r !! id = Some p /\ c ∈ map cd_id (ep_capabilities p)
                 /\ declared_visibility p c = Some v }.

(** The orders list the keys of the maps, each once. *)
Record orders_ok (r : ExtensionRegistry) : Prop := {
  oo_ext_nodup : NoDup (reg_extension_order r);
  oo_ext : forall id, id ∈ reg_extension_order r <-> is_Some (reg_packages r !! id);
  oo_cap_nodup : NoDup (reg_capability_order r);
  oo_cap : forall c, c ∈ reg_capability_order r <-> is_Some (reg_capabilities r !! c) }.

Definition registry_ok (r : ExtensionRegistry) : Prop := maps_ok r /\ orders_ok r.

(** The loops over descriptors. *)
Lemma insert_descriptors_packages p ds r :
  reg_packages (foldl (insert_descriptor p) r ds) = reg_packages r.
Proof. revert r. induction ds as [|d ds IH]; intros r; [done|]. simpl. by rewrite IH. Qed.

Lemma insert_descriptors_caps p ds r c d :
  NoDup (map cd_id ds) ->
  reg_capabilities (foldl (insert_descriptor p) r ds) !! c = Some d <->
  (d ∈ ds /\ cd_id d = c) \/ (c ∉ map cd_id ds /\ reg_capabilities r !! c = Some d).
Proof.
  revert r. induction ds as [|e ds IH]; intros r Hn; simpl.
  - split; [intros H; right; split; [apply not_elem_of_nil|done]
           | by intros [[?%not_elem_of_nil _]|[_ ?]]].
  - inversion Hn as [|? ? He Hn']; subst. rewrite IH by done. simpl.
    rewrite elem_of_cons, not_elem_of_cons. destruct (decide (cd_id e = c)) as [<-|Hne].
    + rewrite lookup_insert_eq. split.
      * intros [[Hd Hid]|[_ [= <-]]]; [|by left; auto]. exfalso. apply He.
        rewrite <- Hid. by apply list_elem_of_fmap_2.
      * intros [[[->|Hd] Hid]|[[? _] _]]; [by right | by left | done].
    + rewrite lookup_insert_ne by done. naive_solver.
Qed.

Lemma insert_descriptors_vis p ds r c v :
  (forall c, c ∈ map cd_id ds -> is_Some (declared_visibility p c)) ->
  reg_capability_visibility (foldl (insert_descriptor p) r ds) !! c = Some v <->
  (c ∈ map cd_id ds /\ declared_visibility p c = Some v)
  \/ (c ∉ map cd_id ds /\ reg_capability_visibility r !! c = Some v).
Proof.
  revert r. induction ds as [|e ds IH]; intros r Hv; simpl.
  - split; [intros H; right; split; [apply not_elem_of_nil|done]
           | by intros [[?%not_elem_of_nil _]|[_ ?]]].
  - rewrite IH by (intros; apply Hv; by right). simpl.
    destruct (Hv (cd_id e)) as [w Hw]; [by left|]. rewrite Hw.
    rewrite elem_of_cons. destruct (decide (cd_id e = c)) as [<-|Hne].
    + rewrite lookup_insert_eq, Hw.
      destruct (decide (cd_id e ∈ map cd_id ds)); naive_solver.
    + rewrite lookup_insert_ne by done. naive_solver.
Qed.

Lemma remove_capabilities_maps ids r c :
  reg_packages (foldl remove_capability r ids) = reg_packages r /\
  reg_capabilities (foldl remove_capability r ids) !! c
  = (if decide (c ∈ ids) then None else reg_capabilities r !! c) /\
  reg_capability_visibility (foldl remove_capability r ids) !! c
  = (if decide (c ∈ ids) then None else reg_capability_visibility r !! c).
Proof.
  revert r. induction ids as [|i ids IH]; intros r; simpl.
  - done.
  - destruct (IH (remove_capability r i)) as (-> & -> & ->). simpl.
    split; [done|]. destruct (decide (c ∈ ids)) as [Hin|Hout].
    + rewrite !decide_True by by right. done.
    + destruct (decide (c = i)) as [->|Hne].
      * rewrite !decide_True by by left. by rewrite !lookup_delete_eq.
      * rewrite !decide_False by by rewrite not_elem_of_cons. by rewrite !lookup_delete_ne.
Qed.

Lemma declared_visibility_some p c :
  package_ok p -> c ∈ map cd_id (ep_capabilities p) -> is_Some (declared_visibility p c).
Proof.
  intros (_ & expected & (Hm & _)%descriptors_from_ok & HF2)%package_ok_places Hc.
  rewrite (same_place_ids _ _ HF2), Hm in Hc.
  unfold declared_visibility. destruct (List.find _ _) as [x|] eqn:Hf; [by eexists|].
  apply list_elem_of_fmap in Hc as (x & -> & Hx). exfalso.
  apply list_elem_of_In in Hx. pose proof (List.find_none _ _ Hf x Hx) as Hn. simpl in Hn.
  by rewrite bool_decide_eq_true_2 in Hn.
Qed.

Lemma check_descriptors_ok r p rep seen ds :
  check_descriptors r p rep seen ds = Ok tt ->
  NoDup (map cd_id ds) /\ (forall c, c ∈ map cd_id ds -> c ∉ seen) /\
  (forall c, c ∈ map cd_id ds -> reg_capabilities r !! c = None \/ belongs_to_replaced r rep c = true).
Proof.
  revert seen. induction ds as [|d ds IH]; intros seen H; simpl in *.
  { split; [constructor|]. by split; intros c ?%not_elem_of_nil. }
  invert_ok H. apply IH in H as (Hn & Hs & Hc). apply orb_false_elim in Heqb as [H1 H2].
  apply bool_decide_eq_false in H1. split; [|split].
  - constructor; [|done]. intros Hin. by apply (Hs _ Hin), elem_of_cons; left.
  - intros c [->|Hin]%elem_of_cons; [done|]. apply Hs in Hin. by apply not_elem_of_cons in Hin as [_ ?].
  - intros c [->|Hin]%elem_of_cons; [|by apply Hc]. apply andb_false_iff in H2 as [H2|H2].
    + apply bool_decide_eq_false in H2. left. by apply eq_None_not_Some.
    + right. by apply negb_false_iff in H2.
Qed.

(** Adding a consistent package whose id and capabilities are free. *)
Lemma add_package_maps r p eo co :
  maps_ok r -> package_ok p -> reg_packages r !! ep_id p = None ->
  (forall c, c ∈ map cd_id (ep_capabilities p) -> reg_capabilities r !! c = None) ->
  maps_ok (with_orders eo co (<[ep_id p := p]> (reg_packages r))
             (foldl (insert_descriptor p) r (ep_capabilities p))).
Proof.
  intros [Hp Hc Hv] Hok Hfree Hcaps. pose proof (do_nodup _ (package_ok_descriptors _ Hok)) as Hn.
  split; simpl.
  - intros id q. destruct (decide (id = ep_id p)) as [->|Hne]; look; [by intros [= <-] | apply Hp].
  - intros c d. rewrite insert_descriptors_caps, Hc by done. split.
    + intros [[Hd Hid]|(Hnc & id & q & Hq & Hd & Hid)]; [by exists (ep_id p), p; look|].
      exists id, q. rewrite lookup_insert_ne by congruence. done.
    + intros (id & q & Hq & Hd & Hid). destruct (decide (id = ep_id p)) as [->|Hne].
      * rewrite lookup_insert_eq in Hq. injection Hq as <-. by left.
      * rewrite lookup_insert_ne in Hq by done. right. split; [|by exists id, q].
        intros Hin. apply Hcaps in Hin. assert (reg_capabilities r !! c = Some d); [|congruence].
        apply Hc. by exists id, q.
  - intros c v. rewrite insert_descriptors_vis, Hv by by intros; apply declared_visibility_some. split.
    + intros [[Hd Hid]|(Hnc & id & q & Hq & Hd & Hid)]; [by exists (ep_id p), p; look|].
      exists id, q. rewrite lookup_insert_ne by congruence. done.
    + intros (id & q & Hq & Hd & Hid). destruct (decide (id = ep_id p)) as [->|Hne].
      * rewrite lookup_insert_eq in Hq. injection Hq as <-. by left.
      * rewrite lookup_insert_ne in Hq by done. right. split; [|by exists id, q].
        intros Hin. apply Hcaps in Hin. apply list_elem_of_fmap in Hd as (d & -> & Hd).
        assert (reg_capabilities r !! cd_id d = Some d); [|congruence].
        apply Hc. by exists id, q.
Qed.

(** No capability belongs to two packages. *)
Lemma owner_unique r id1 p1 id2 p2 c :
  maps_ok r -> reg_packages r !! id1 = Some p1 -> reg_packages r !! id2 = Some p2 ->
  c ∈ map cd_id (ep_capabilities p1) -> c ∈ map cd_id (ep_capabilities p2) -> id1 = id2.
Proof.
  intros [Hp Hc _] H1 H2 (d1 & -> & Hd1)%list_elem_of_fmap (d2 & He & Hd2)%list_elem_of_fmap.
  destruct (Hp _ _ H1) as [<- Hok1]. destruct (Hp _ _ H2) as [<- Hok2].
  assert (reg_capabilities r !! cd_id d1 = Some d1) as Hl1 by (apply Hc; by exists (ep_id p1), p1).
  assert (reg_capabilities r !! cd_id d1 = Some d2) as Hl2 by (apply Hc; by exists (ep_id p2), p2).
  rewrite Hl1 in Hl2. injection Hl2 as <-.
  rewrite <- (do_provider _ (package_ok_descriptors _ Hok1) _ Hd1).
  by rewrite (do_provider _ (package_ok_descriptors _ Hok2) _ Hd2).
Qed.

(** Taking a package out. *)
Lemma remove_package_maps r id p eo co :
  maps_ok r -> reg_packages r !! id = Some p ->
  maps_ok (with_orders eo co (delete id (reg_packages r))
             (foldl remove_capability r (map cd_id (ep_capabilities p)))).
Proof.
  intros Hr Hid. pose proof Hr as [Hp Hc Hv]. split; simpl.
  - intros i q [Hne Hq]%lookup_delete_Some. by apply Hp.
  - intros c d. destruct (remove_capabilities_maps (map cd_id (ep_capabilities p)) r c) as (_ & -> & _).
    destruct (decide (c ∈ map cd_id (ep_capabilities p))) as [Hin|Hout].
    + split; [done|]. intros (i & q & [Hne Hq]%lookup_delete_Some & Hd & <-). destruct Hne.
      by apply (owner_unique r id p i q (cd_id d)); auto using list_elem_of_fmap_2.
    + rewrite Hc. split; intros (i & q & Hq & Hd & Hcd).
      * exists i, q. split; [|done]. apply lookup_delete_Some. split; [|done]. intros <-.
        destruct Hout. subst c. rewrite Hid in Hq. injection Hq as <-. by apply list_elem_of_fmap_2.
      * apply lookup_delete_Some in Hq as [_ Hq]. by exists i, q.
  - intros c v. destruct (remove_capabilities_maps (map cd_id (ep_capabilities p)) r c) as (_ & _ & ->).
    destruct (decide (c ∈ map cd_id (ep_capabilities p))) as [Hin|Hout].
    + split; [done|]. intros (i & q & [Hne Hq]%lookup_delete_Some & Hd & _). destruct Hne.
      by apply (owner_unique r id p i q c).
    + rewrite Hv. split; intros (i & q & Hq & Hd & Hcd).
      * exists i, q. split; [|done]. apply lookup_delete_Some. split; [|done]. intros <-.
        destruct Hout. rewrite Hid in Hq. by injection Hq as <-.
      * apply lookup_delete_Some in Hq as [_ Hq]. by exists i, q.
Qed.

Lemma insert_descriptors_some p ds r c :
  NoDup (map cd_id ds) ->
  is_Some (reg_capabilities (foldl (insert_descriptor p) r ds) !! c) <->
  c ∈ map cd_id ds \/ is_Some (reg_capabilities r !! c).
Proof.
  intros Hn. split.
  - intros [d [[Hd <-]|[_ H]]%insert_descriptors_caps]; [left; by apply list_elem_of_fmap_2 | by right | done].
  - intros H. destruct (decide (c ∈ map cd_id ds)) as [Hin|Hout].
    + apply list_elem_of_fmap in Hin as (d & -> & Hd). exists d. apply insert_descriptors_caps; auto.
    + destruct H as [?|[d Hd]]; [done|]. exists d. apply insert_descriptors_caps; auto.
Qed.

Lemma insert_preserves r p : registry_ok r -> registry_ok (ExtensionRegistry_insert r p).1.
Proof.
  intros [Hm [H1 H2 H3 H4]]. unfold ExtensionRegistry_insert, validate_insertable.
  destruct (validate_consistency p) as [[]|] eqn:Hok; [|done].
  case_bool_decide as Hex; [done|]. apply eq_None_not_Some in Hex.
  unfold validate_capabilities_available. destruct (check_descriptors _ _ _ _ _) as [[]|] eqn:Hck; [|done].
  apply check_descriptors_ok in Hck as (Hn & _ & Hfree).
  assert (forall c, c ∈ map cd_id (ep_capabilities p) -> reg_capabilities r !! c = None) as Hf.
  { intros c Hc. by destruct (Hfree c Hc). }
  split; [by apply add_package_maps|]. simpl. split; simpl.
  - apply NoDup_app. split; [done|]. split; [|apply NoDup_singleton].
    intros i Hi%H2 ->%list_elem_of_singleton. rewrite Hex in Hi. by destruct Hi.
  - intros i. rewrite elem_of_app, list_elem_of_singleton, lookup_insert_is_Some, H2.
    destruct (decide (ep_id p = i)) as [<-|]; naive_solver.
  - apply NoDup_app. split; [done|]. split; [|done].
    intros c Hc%H4 Hin%Hf. rewrite Hin in Hc. by destruct Hc.
  - intros c. rewrite elem_of_app, H4, insert_descriptors_some by done. tauto.
Qed.

Lemma filter_each ids (l : list CapabilityId) :
  foldl (fun order c => List.filter (fun c' => negb (bool_decide (c' = c))) order) l ids
  = List.filter (fun c => negb (bool_decide (c ∈ ids))) l.
Proof.
  revert l. induction ids as [|i ids IH]; intros l; simpl.
  - symmetry. by apply filter_all.
  - rewrite IH. induction l as [|c l IHl]; simpl; [done|].
    destruct (decide (c = i)) as [->|Hne].
    + rewrite bool_decide_eq_true_2, (bool_decide_eq_true_2 (i ∈ i :: ids)) by (done || by left). done.
    + rewrite bool_decide_eq_false_2 by done. simpl. rewrite IHl.
      replace (bool_decide (c ∈ i :: ids)) with (bool_decide (c ∈ ids)); [done|].
      apply bool_decide_ext. rewrite elem_of_cons. naive_solver.
Qed.

Lemma elem_of_lfilter {A} (f : A -> bool) l x : x ∈ List.filter f l <-> x ∈ l /\ f x = true.
Proof. by rewrite !list_elem_of_In, List.filter_In. Qed.

Lemma NoDup_lfilter {A} (f : A -> bool) l : NoDup l -> NoDup (List.filter f l).
Proof. rewrite !NoDup_ListNoDup. apply List.NoDup_filter. Qed.

Lemma remove_preserves r id : registry_ok r -> registry_ok (ExtensionRegistry_remove r id).1.
Proof.
  intros [Hm [H1 H2 H3 H4]]. unfold ExtensionRegistry_remove.
  destruct (reg_packages r !! id) as [p|] eqn:Hp; [|done].
  split; [by apply remove_package_maps|]. simpl. split; simpl.
  - by apply NoDup_lfilter.
  - intros i. rewrite elem_of_lfilter, H2, lookup_delete_is_Some.
    destruct (decide (i = id)) as [->|Hne].
    + rewrite bool_decide_eq_true_2 by done. naive_solver.
    + rewrite bool_decide_eq_false_2 by done. naive_solver.
  - rewrite filter_each. by apply NoDup_lfilter.
  - intros c. rewrite filter_each, elem_of_lfilter, H4.
    destruct (remove_capabilities_maps (map cd_id (ep_capabilities p)) r c) as (_ & -> & _).
    case_bool_decide; [rewrite decide_True by done | rewrite decide_False by done]; simpl.
    + split; [by intros [_ ?] | by intros [? ?]].
    + naive_solver.
Qed.

Lemma position_insert (l : list ExtensionId) id index :
  position (fun e => bool_decide (e = id)) l = Some index -> l !! index = Some id.
Proof.
  revert index. induction l as [|e l IH]; intros index H; simpl in H; [done|].
  case_bool_decide as He; [by injection H as <-; simpl; congruence|].
  destruct (position _ l); [|done]. injection H as <-. by apply IH.
Qed.

Lemma position_none (l : list ExtensionId) id :
  position (fun e => bool_decide (e = id)) l = None -> id ∉ l.
Proof.
  induction l as [|e l IH]; simpl; [intros; apply not_elem_of_nil|].
  case_bool_decide as He; [done|]. intros H. apply not_elem_of_cons. split; [congruence|].
  apply IH. by destruct (position _ l).
Qed.

Lemma with_orders_insert eo co pk eo' co' pk' p ds r :
  with_orders eo co pk (foldl (insert_descriptor p) (with_orders eo' co' pk' r) ds)
  = with_orders eo co pk (foldl (insert_descriptor p) r ds).
Proof.
  revert r. induction ds as [|d ds IH]; intros r; [done|]. simpl. rewrite <- (IH (insert_descriptor p r d)).
  done.
Qed.

Lemma place_kept (l : list ExtensionId) id :
  id ∈ l ->
  match position (fun e => bool_decide (e = id)) l with
  | Some index => <[index := id]> l
  | None => l ++ [id]
  end = l.
Proof.
  intros Hin. destruct (position _ l) as [index|] eqn:Hpos; [by apply list_insert_id, position_insert|].
  by apply position_none in Hpos.
Qed.

(** The new capabilities are free once the replaced package is out. *)
Lemma replacement_free r id p p' c :
  maps_ok r -> reg_packages r !! id = Some p ->
  check_descriptors r p' (Some id) [] (ep_capabilities p') = Ok tt ->
  c ∈ map cd_id (ep_capabilities p') -> c ∉ map cd_id (ep_capabilities p) ->
  reg_capabilities r !! c = None.
Proof.
  intros Hm Hp (_ & _ & Hfree)%check_descriptors_ok Hin Hout.
  destruct (Hfree _ Hin) as [|Hb]; [done|]. destruct Hout. unfold belongs_to_replaced in Hb.
  rewrite Hp in Hb. apply existsb_exists in Hb as (d & Hd & <-%bool_decide_eq_true).
  apply list_elem_of_fmap_2. by apply list_elem_of_In.
Qed.

Lemma update_preserves r p : registry_ok r -> registry_ok (ExtensionRegistry_update r p).1.
Proof.
  intros [Hm [H1 H2 H3 H4]]. unfold ExtensionRegistry_update, validate_replacement.
  destruct (validate_consistency p) as [[]|] eqn:Hok; [|done].
  unfold existing_package. destruct (reg_packages r !! ep_id p) as [q|] eqn:Hq; [|done]. simpl.
  unfold validate_capabilities_available. destruct (check_descriptors _ _ _ _ _) as [[]|] eqn:Hck; [|done].
  pose proof (fun c => replacement_free r _ q p c Hm Hq Hck) as Hfree. simpl. unfold replace_validated. rewrite Hq.
  set (ids := map cd_id (ep_capabilities q)) in *.
  pose proof (do_nodup _ (package_ok_descriptors _ Hok)) as Hn.
  set (order := List.filter _ (reg_capability_order r)).
  set (idx := default _ _).
  assert (forall c, c ∈ order <-> is_Some (reg_capabilities r !! c) /\ c ∉ ids) as Horder.
  { intros c. unfold order. rewrite elem_of_lfilter, H4. by rewrite negb_true_iff, bool_decide_eq_false. }
  assert (take idx order ++ map cd_id (ep_capabilities p) ++ drop idx order
          ≡ₚ map cd_id (ep_capabilities p) ++ order) as Hperm.
  { rewrite (Permutation_app_comm (map _ _) order). rewrite <- (take_drop idx order) at 3.
    rewrite <- app_assoc. f_equiv. apply Permutation_app_comm. }
  rewrite place_kept by (apply H2; by eexists).
  split.
  - assert (<[ep_id p := p]> (reg_packages r)
            = <[ep_id p := p]> (reg_packages (with_orders [] [] (delete (ep_id p) (reg_packages r))
                                  (foldl remove_capability r ids)))) as ->.
    { simpl. by rewrite insert_delete_eq. }
    rewrite <- (with_orders_insert _ _ _ [] [] (delete (ep_id p) (reg_packages r))).
    apply (add_package_maps (with_orders [] [] (delete (ep_id p) (reg_packages r))
             (foldl remove_capability r ids)) p); [by apply remove_package_maps|done| |].
    + simpl. apply lookup_delete_eq.
    + intros c Hc. simpl. destruct (remove_capabilities_maps ids r c) as (_ & -> & _).
      case_decide; [done|]. by apply Hfree.
  - split; simpl; [done| | |].
    + intros i. rewrite H2, lookup_insert_is_Some. destruct (decide (ep_id p = i)) as [<-|]; naive_solver.
    + rewrite Hperm. apply NoDup_app. split; [done|]. split; [|by apply NoDup_lfilter].
      intros c Hc [[d Hd] Hout]%Horder. by rewrite Hfree in Hd.
    + intros c. rewrite Hperm, elem_of_app, insert_descriptors_some, Horder by done.
      destruct (remove_capabilities_maps ids r c) as (_ & -> & _).
      case_decide; [|tauto]. split; [by intros [?|[_ ?]]; [left|] | intros [?|[? ?]]; [by left|done]].
Qed.

(** ** Reachable registries *)

Inductive registry_op : Type :=
| OpInsert (package : ExtensionPackage)
| OpUpdate (package : ExtensionPackage)
| OpUpsert (package : ExtensionPackage)
| OpRemove (id : ExtensionId).

(** The registry after an operation and whether it failed. *)
Definition apply_op (self : SharedExtensionRegistry) (op : registry_op) :
    SharedExtensionRegistry * bool :=
  match op with
  | OpInsert p => let '(s, r) := shared_insert self p in (s, is_ok r)
  | OpUpdate p => let '(s, r) := shared_update self p in (s, is_ok r)
  | OpUpsert p => let '(s, r) := shared_upsert self p in (s, is_ok r)
  | OpRemove id => let '(s, r) := shared_remove self id in (s, bool_decide (is_Some r))
  end.

(** From the empty registry, by operations and by publishing another registry that
    was built the same way. *)
Inductive registry_reach : SharedExtensionRegistry -> Prop :=
| rr_new : registry_reach (SharedExtensionRegistry_new ExtensionRegistry_new)
| rr_op s op : registry_reach s -> registry_reach (apply_op s op).1
| rr_replace s s' : registry_reach s -> registry_reach s' ->
    registry_reach (shared_replace s (snapshot s')).

Lemma registry_new_ok : registry_ok ExtensionRegistry_new.
Proof.
  split; split; simpl; try apply NoDup_nil_2.
  - intros id p. by rewrite lookup_empty.
  - intros c d. rewrite lookup_empty. split; [done|]. intros (id & p & H & _). by rewrite lookup_empty in H.
  - intros c v. rewrite lookup_empty. split; [done|]. intros (id & p & H & _). by rewrite lookup_empty in H.
  - intros id. rewrite lookup_empty. split; [by intros ?%not_elem_of_nil | by intros [? ?]].
  - intros c. rewrite lookup_empty. split; [by intros ?%not_elem_of_nil | by intros [? ?]].
Qed.

Lemma with_mut_inner {R} s (f : ExtensionRegistry -> ExtensionRegistry * result R ExtensionError) :
  shared_inner (with_mut_result s f).1 = (f (shared_inner s)).1.
Proof. unfold with_mut_result. by destruct (f (shared_inner s)) as [r [x|e]]. Qed.

Lemma apply_op_ok s op : registry_ok (shared_inner s) -> registry_ok (shared_inner (apply_op s op).1).
Proof.
  intros H. destruct op as [p|p|p|id]; simpl.
  - pose proof (with_mut_inner s (fun r => ExtensionRegistry_insert r p)) as Hi. unfold shared_insert.
    destruct (with_mut_result _ _). simpl in *. rewrite Hi. by apply insert_preserves.
  - pose proof (with_mut_inner s (fun r => ExtensionRegistry_update r p)) as Hi. unfold shared_update.
    destruct (with_mut_result _ _). simpl in *. rewrite Hi. by apply update_preserves.
  - unfold shared_upsert. match goal with |- context [with_mut_result s ?f] => pose proof (with_mut_inner s f) as Hi end.
    destruct (with_mut_result _ _). simpl in *. rewrite Hi.
    case_bool_decide; [by apply update_preserves | by apply insert_preserves].
  - unfold shared_remove. pose proof (remove_preserves _ id H) as Hr.
    by destruct (ExtensionRegistry_remove _ _).
Qed.

Lemma failed_op_keeps s op : (apply_op s op).2 = false -> (apply_op s op).1 = s.
Proof.
  destruct s as [r v]. destruct op as [p|p|p|id]; simpl;
    unfold shared_insert, shared_update, shared_upsert, shared_remove, with_mut_result; simpl.
  - unfold ExtensionRegistry_insert. by destruct (validate_insertable r p).
  - unfold ExtensionRegistry_update. by destruct (validate_replacement r p).
  - case_bool_decide; [unfold ExtensionRegistry_update; by destruct (validate_replacement r p)
                      | unfold ExtensionRegistry_insert; by destruct (validate_insertable r p)].
  - unfold ExtensionRegistry_remove. by destruct (reg_packages r !! id).
Qed.

Lemma registry_reach_ok s : registry_reach s -> registry_ok (snapshot s).
Proof.
  induction 1 as [|s op _ IH|s s' _ _ _ IH]; [exact registry_new_ok | by apply apply_op_ok | exact IH].
Qed.

(** In every registry that insertions, updates, upserts, removals and published
    replacements reach, a capability resolves to a descriptor exactly when the
    package registered under the descriptor's provider declares it; that package is
    consistent with its manifest, runs on the descriptor's runtime, and its id
    prefixes the capability's; the listings contain every package and every
    descriptor exactly once; and an operation that fails leaves packages,
    capabilities, orders and version as they were. *)
Theorem registry_lists_its_packages s :
  registry_reach s ->
  (forall c d, get_capability (snapshot s) c = Some d <->
     cd_id d = c /\ exists p, get_extension (snapshot s) (cd_provider d) = Some p
                              /\ d ∈ ep_capabilities p) /\
  (forall id p, get_extension (snapshot s) id = Some p ->
     ep_id p = id /\ validate_consistency p = Ok tt /\
     forall d, d ∈ ep_capabilities p ->
       get_capability (snapshot s) (cd_id d) = Some d /\ cd_provider d = id /\
       cd_runtime d = ExtensionManifest_runtime_kind (ep_manifest p) /\
       starts_with (as_str id +:+ ".") (cap_str (cd_id d)) = true /\
       capability_visibility (snapshot s) (cd_id d) = declared_visibility p (cd_id d)) /\
  NoDup (reg_capability_order (snapshot s)) /\
  (forall d, d ∈ capabilities (snapshot s) <-> get_capability (snapshot s) (cd_id d) = Some d) /\
  NoDup (reg_extension_order (snapshot s)) /\
  (forall p, p ∈ extensions (snapshot s) <-> get_extension (snapshot s) (ep_id p) = Some p) /\
  (forall op, (apply_op s op).2 = false -> (apply_op s op).1 = s).
Proof.
  intros [Hm [H1 H2 H3 H4]]%registry_reach_ok. pose proof Hm as [Hp Hc Hv]. unfold get_capability, get_extension.
  assert (forall id p, reg_packages (snapshot s) !! id = Some p -> descriptors_ok p) as Hdo.
  { intros id p [_ Hok]%Hp. by apply package_ok_descriptors. }
  split; [|split; [|split; [done|split; [|split; [done|split]]]]].
  - intros c d. rewrite Hc. split.
    + intros (id & p & Hl & Hd & Hcd). split; [done|]. exists p.
      rewrite (do_provider _ (Hdo _ _ Hl) _ Hd). by destruct (Hp _ _ Hl) as [-> _].
    + intros (Hcd & p & Hl & Hd). by exists (cd_provider d), p.
  - intros id p Hl. destruct (Hp _ _ Hl) as [Hid Hok]. split; [done|]. split; [done|]. intros d Hd.
    destruct (Hdo _ _ Hl) as [_ Hd1 Hd2 Hd3]. split; [apply Hc; by exists id, p|].
    split; [by rewrite Hd1|]. split; [by apply Hd2|]. split; [rewrite <- Hid; by apply Hd3|].
    destruct (declared_visibility_some p (cd_id d) Hok) as [v Hvis]; [by apply list_elem_of_fmap_2|].
    rewrite Hvis. apply Hv. exists id, p. split; [done|]. split; [by apply list_elem_of_fmap_2|done].
  - intros d. unfold capabilities, get_capability. rewrite list_elem_of_omap. split.
    + intros (c & _ & Hd). by apply Hc in Hd as Hd'; destruct Hd' as (_ & _ & _ & _ & ->).
    + intros Hd. exists (cd_id d). split; [|done]. apply H4. by eexists.
  - intros p. unfold extensions, get_extension. rewrite list_elem_of_omap. split.
    + intros (id & _ & Hl). by destruct (Hp _ _ Hl) as [-> _].
    + intros Hl. exists (ep_id p). split; [|done]. apply H2. by eexists.
  - intros op. apply failed_op_keeps.
Qed.

(** ** [lifecycle.rs]: the service over a registry

    The sink, when there is one, is a function from the event to its answer. *)

Record ExtensionLifecycleEvent : Type := mk_ExtensionLifecycleEvent {
  xle_operation : ExtensionLifecycleOperation;
  xle_extension_id : ExtensionId;
  xle_version : string;
  xle_runtime : RuntimeKind;
  xle_capability_count : Z;
  xle_capability_surface_changed : bool }.

Definition lifecycle_event_from_package (operation : ExtensionLifecycleOperation)
    (package : ExtensionPackage) (capability_surface_changed : bool) : ExtensionLifecycleEvent :=
  mk_ExtensionLifecycleEvent operation (ep_id package) (em_version (ep_manifest package))
    (ExtensionManifest_runtime_kind (ep_manifest package))
    (Z.of_nat (length (ep_capabilities package))) capability_surface_changed.

Record ExtensionLifecycleService : Type := mk_ExtensionLifecycleService {
  ls_registry : ExtensionRegistry; ls_disabled_extensions : gset ExtensionId }.

Definition lifecycle_sink : Type := option (ExtensionLifecycleEvent -> result unit ExtensionError).

Definition emit_lifecycle_event (sink : lifecycle_sink) (event : ExtensionLifecycleEvent) :
    result unit ExtensionError :=
  match sink with
  | Some record =>
      map_err (fun _ => LifecycleEventSink (xle_extension_id event) (xle_operation event))
        (record event)
  | None => Ok tt
  end.

Definition is_enabled (self : ExtensionLifecycleService) (id : ExtensionId) : bool :=
  bool_decide (is_Some (get_extension (ls_registry self) id))
  && negb (bool_decide (id ∈ ls_disabled_extensions self)).

(** A method either stops with an error and the unchanged service, or reaches its
    last statement. *)
Definition or_unchanged (self : ExtensionLifecycleService)
    (r : result ExtensionLifecycleService ExtensionError) :
    ExtensionLifecycleService * result unit ExtensionError :=
  match r with Ok self' => (self', Ok tt) | Err e => (self, Err e) end.

Definition lifecycle_install (sink : lifecycle_sink) (self : ExtensionLifecycleService)
    (package : ExtensionPackage) : ExtensionLifecycleService * result unit ExtensionError :=
  or_unchanged self
    (let? _ := validate_insertable (ls_registry self) package in
     let? _ := emit_lifecycle_event sink (lifecycle_event_from_package Install package true) in
     Ok (mk_ExtensionLifecycleService (insert_validated (ls_registry self) package)
           (ls_disabled_extensions self))).

Definition lifecycle_update (sink : lifecycle_sink) (self : ExtensionLifecycleService)
    (package : ExtensionPackage) : ExtensionLifecycleService * result unit ExtensionError :=
  or_unchanged self
    (let? current := existing_package (ls_registry self) (ep_id package) in
     let? _ := validate_replacement (ls_registry self) package in
     let capability_surface_changed :=
       negb (list_eqb CapabilityDescriptor_eqb (ep_capabilities current) (ep_capabilities package)) in
     let? _ := emit_lifecycle_event sink
                 (lifecycle_event_from_package Update package capability_surface_changed) in
     Ok (mk_ExtensionLifecycleService (replace_validated (ls_registry self) package)
           (ls_disabled_extensions self))).

Definition lifecycle_remove (sink : lifecycle_sink) (self : ExtensionLifecycleService)
    (id : ExtensionId) : ExtensionLifecycleService * result unit ExtensionError :=
  or_unchanged self
    (let? package := existing_package (ls_registry self) id in
     let? _ := emit_lifecycle_event sink
                 (lifecycle_event_from_package Remove package
                    (negb (bool_decide (length (ep_capabilities package) = 0%nat)))) in
     Ok (mk_ExtensionLifecycleService (ExtensionRegistry_remove (ls_registry self) id).1
           (ls_disabled_extensions self ∖ {[id]}))).

Definition lifecycle_enable (sink : lifecycle_sink) (self : ExtensionLifecycleService)
    (id : ExtensionId) : ExtensionLifecycleService * result unit ExtensionError :=
  or_unchanged self
    (let? package := existing_package (ls_registry self) id in
     let? _ := emit_lifecycle_event sink
                 (lifecycle_event_from_package Enable package
                    (bool_decide (id ∈ ls_disabled_extensions self))) in
     Ok (mk_ExtensionLifecycleService (ls_registry self) (ls_disabled_extensions self ∖ {[id]}))).

Definition lifecycle_disable (sink : lifecycle_sink) (self : ExtensionLifecycleService)
    (id : ExtensionId) : ExtensionLifecycleService * result unit ExtensionError :=
  or_unchanged self
    (let? package := existing_package (ls_registry self) id in
     let? _ := emit_lifecycle_event sink
                 (lifecycle_event_from_package Disable package
                    (negb (bool_decide (id ∈ ls_disabled_extensions self)))) in
     Ok (mk_ExtensionLifecycleService (ls_registry self) ({[id]} ∪ ls_disabled_extensions self))).

(** *** The service keeps its invariant; what each operation does to the enabled set *)

Definition lifecycle_ok (s : ExtensionLifecycleService) : Prop :=
  registry_ok (ls_registry s) /\
  forall id, id ∈ ls_disabled_extensions s -> is_Some (get_extension (ls_registry s) id).

Inductive lifecycle_op : Type :=
| LInstall (package : ExtensionPackage)
| LUpdate (package : ExtensionPackage)
| LRemove (id : ExtensionId)
| LEnable (id : ExtensionId)
| LDisable (id : ExtensionId).

Definition lifecycle_apply (sink : lifecycle_sink) (s : ExtensionLifecycleService)
    (op : lifecycle_op) : ExtensionLifecycleService * result unit ExtensionError :=
  match op with
  | LInstall p => lifecycle_install sink s p
  | LUpdate p => lifecycle_update sink s p
  | LRemove id => lifecycle_remove sink s id
  | LEnable id => lifecycle_enable sink s id
  | LDisable id => lifecycle_disable sink s id
  end.

(** The enabled extensions after a successful operation. *)
Definition enabled_after (s : ExtensionLifecycleService) (op : lifecycle_op) (id : ExtensionId) : bool :=
  match op with
  | LInstall p => bool_decide (id = ep_id p) || is_enabled s id
  | LUpdate _ => is_enabled s id
  | LRemove i | LDisable i => negb (bool_decide (id = i)) && is_enabled s id
  | LEnable i => bool_decide (id = i) || is_enabled s id
  end.

Lemma or_unchanged_ok s r s' : or_unchanged s r = (s', Ok tt) -> r = Ok s'.
Proof. destruct r; simpl; congruence. Qed.

Lemma or_unchanged_err s r s' e : or_unchanged s r = (s', Err e) -> s' = s.
Proof. destruct r; simpl; congruence. Qed.

Lemma is_enabled_true s id :
  is_enabled s id = true <->
  is_Some (get_extension (ls_registry s) id) /\ id ∉ ls_disabled_extensions s.
Proof. unfold is_enabled. by rewrite andb_true_iff, negb_true_iff, bool_decide_eq_true, bool_decide_eq_false. Qed.

Lemma is_enabled_iff s' id b :
  (is_enabled s' id = true <-> b = true) -> is_enabled s' id = b.
Proof. intros H. apply eq_true_iff_eq. exact H. Qed.

Lemma install_effect sink s p s' :
  lifecycle_ok s -> lifecycle_install sink s p = (s', Ok tt) ->
  lifecycle_ok s' /\ forall id, is_enabled s' id = enabled_after s (LInstall p) id.
Proof.
  intros [Hr Hd] H%or_unchanged_ok. invert_ok H. injection H as <-.
  pose proof (insert_preserves _ p Hr) as Hi. unfold ExtensionRegistry_insert in Hi. rewrite Heqr in Hi.
  assert (forall id, is_Some (get_extension (insert_validated (ls_registry s) p) id)
            <-> id = ep_id p \/ is_Some (get_extension (ls_registry s) id)) as Hs.
  { intros id. unfold get_extension. simpl. rewrite lookup_insert_is_Some.
    destruct (decide (ep_id p = id)) as [<-|]; naive_solver. }
  assert (ep_id p ∉ ls_disabled_extensions s) as Hnd.
  { intros [q Hq]%Hd. unfold validate_insertable in Heqr. invert_ok Heqr.
    apply bool_decide_eq_false in Heqb. apply Heqb. by exists q. }
  split.
  - split; [done|]. simpl. intros id Hid. apply Hs. auto.
  - intros id. apply is_enabled_iff. rewrite is_enabled_true. simpl. rewrite Hs.
    rewrite orb_true_iff, bool_decide_eq_true, is_enabled_true. naive_solver.
Qed.

Lemma update_effect sink s p s' :
  lifecycle_ok s -> lifecycle_update sink s p = (s', Ok tt) ->
  lifecycle_ok s' /\ forall id, is_enabled s' id = enabled_after s (LUpdate p) id.
Proof.
  intros [Hr Hd] H%or_unchanged_ok. cbv zeta in H. invert_ok H. injection H as <-.
  pose proof (update_preserves _ p Hr) as Hi. unfold ExtensionRegistry_update in Hi. rewrite Heqr0 in Hi.
  assert (forall id, is_Some (get_extension (replace_validated (ls_registry s) p) id)
            <-> is_Some (get_extension (ls_registry s) id)) as Hs.
  { intros id. unfold get_extension, replace_validated. unfold existing_package in Heqr.
    destruct (reg_packages (ls_registry s) !! ep_id p) as [q|] eqn:Hq; [|done]. simpl.
    rewrite lookup_insert_is_Some. destruct (decide (ep_id p = id)) as [<-|]; [|naive_solver].
    split; [by eexists | by left]. }
  split.
  - split; [done|]. simpl. intros id Hid. apply Hs. auto.
  - intros id. apply is_enabled_iff. simpl. rewrite !is_enabled_true. simpl. by rewrite Hs.
Qed.

Lemma remove_effect sink s i s' :
  lifecycle_ok s -> lifecycle_remove sink s i = (s', Ok tt) ->
  lifecycle_ok s' /\ forall id, is_enabled s' id = enabled_after s (LRemove i) id.
Proof.
  intros [Hr Hd] H%or_unchanged_ok. invert_ok H. injection H as <-.
  pose proof (remove_preserves _ i Hr) as Hi.
  assert (forall id, is_Some (get_extension (ExtensionRegistry_remove (ls_registry s) i).1 id)
            <-> id <> i /\ is_Some (get_extension (ls_registry s) id)) as Hs.
  { intros id. unfold get_extension, ExtensionRegistry_remove. unfold existing_package in Heqr.
    destruct (reg_packages (ls_registry s) !! i) as [q|] eqn:Hq; [|done]. simpl.
    rewrite lookup_delete_is_Some. naive_solver. }
  split.
  - split; [done|]. simpl. intros id Hid. apply Hs. set_solver.
  - intros id. apply is_enabled_iff. rewrite is_enabled_true. simpl. rewrite Hs.
    rewrite andb_true_iff, negb_true_iff, bool_decide_eq_false, is_enabled_true. set_solver.
Qed.

Lemma toggle_effect sink s i s' :
  lifecycle_ok s ->
  (lifecycle_enable sink s i = (s', Ok tt) ->
   lifecycle_ok s' /\ forall id, is_enabled s' id = enabled_after s (LEnable i) id) /\
  (lifecycle_disable sink s i = (s', Ok tt) ->
   lifecycle_ok s' /\ forall id, is_enabled s' id = enabled_after s (LDisable i) id).
Proof.
  intros [Hr Hd]. split; intros H%or_unchanged_ok; invert_ok H; injection H as <-;
    unfold existing_package in Heqr;
    (destruct (reg_packages (ls_registry s) !! i) as [q|] eqn:Hq; [|done]);
    (split; [split; [done|]; simpl; intros id Hid | intros id; apply is_enabled_iff]).
  - apply Hd. set_solver.
  - rewrite is_enabled_true. simpl. rewrite orb_true_iff, bool_decide_eq_true, is_enabled_true.
    destruct (decide (id = i)) as [->|]; [|set_solver]. split; [by left|]. intros _.
    split; [by exists q | set_solver].
  - apply elem_of_union in Hid as [->%elem_of_singleton|]; [by exists q | by apply Hd].
  - rewrite is_enabled_true. simpl.
    rewrite andb_true_iff, negb_true_iff, bool_decide_eq_false, is_enabled_true. set_solver.
Qed.

(** An operation of the lifecycle service either fails, its event sink's refusal
    included, and changes nothing, or keeps the registry consistent and the
    disabled extensions installed, and changes the set of enabled extensions at the
    operation's own extension only. *)
Theorem lifecycle_effect sink s op s' r :
  lifecycle_ok s -> lifecycle_apply sink s op = (s', r) ->
  match r with
  | Err _ => s' = s
  | Ok _ => lifecycle_ok s' /\ forall id, is_enabled s' id = enabled_after s op id
  end.
Proof.
  intros Hs H. destruct r as [[]|e].
  - destruct op; [by eapply install_effect | by eapply update_effect | by eapply remove_effect
                 | by eapply toggle_effect | by eapply toggle_effect].
  - destruct op; by eapply or_unchanged_err.
Qed.

(** ** Discovery ([lib.rs])

    The filesystem's answers are calls; the manifest parser and the digest of its
    text are parameters. *)

Record DirEntry : Type := mk_DirEntry {
  de_name : string; de_path : VirtualPath; de_file_type : FileType }.

Inductive discoverE : Type -> Type :=
| ListDir (root : VirtualPath) : discoverE (result (list DirEntry) FilesystemError)
| ReadFileBounded (path : VirtualPath) (max : Z) :
    discoverE (result (option string) FilesystemError).

Record DiscoveryQuarantine : Type := mk_DiscoveryQuarantine {
  dq_extension_id : string; dq_reason : string }.

Definition MAX_MANIFEST_BYTES : Z := 256 * 1024.

Definition by_name (left right : DirEntry) : Prop := String.leb (de_name left) (de_name right) = true.
#[local] Instance by_name_dec : RelDecision by_name.
Proof. intros left right. unfold by_name. solve_decision. Defined.

Definition extension_dir_id (entry : DirEntry) : option ExtensionId :=
  match de_file_type entry with
  | TDirectory =>
      match string_id_new KExtension (de_name entry) with Ok id => Some id | Err _ => None end
  | _ => None
  end.

Section Discovery.
Variable parse : string -> result ExtensionManifest ExtensionError.
Variable sha256_digest_token : string -> string.
Variable utf8_error : string -> string.
Variable error_text : ExtensionError -> string.

Definition load_package_entry (root : VirtualPath) (entry : DirEntry) (expected : ExtensionId) :
    prog discoverE (result ExtensionPackage ExtensionError) :=
  match VirtualPath_new (trim_end_char slash (vp_str root) +:+ "/" +:+ de_name entry
                         +:+ "/manifest.toml") with
  | Err e => Ret (Err (ExtContract e))
  | Ok manifest_path =>
      let! r := trigger (ReadFileBounded manifest_path MAX_MANIFEST_BYTES) in
      Ret (match r with
           | Err e => Err (ExtFilesystem e)
           | Ok None =>
               Err (InvalidManifest
                      ("extension manifest at " +:+ vp_str manifest_path +:+ " exceeds the "
                       +:+ pretty MAX_MANIFEST_BYTES
                       +:+ "-byte ceiling and was rejected before reading"))
           | Ok (Some text) =>
               if negb (utf8_valid text) then Err (ManifestParse (utf8_error text))
               else
                 let? manifest := parse text in
                 if negb (bool_decide (em_id manifest = expected)) then
                   Err (ManifestIdMismatch (de_path entry) expected (em_id manifest))
                 else
                   from_manifest_with_digest manifest (de_path entry)
                     (Some (sha256_digest_token text))
           end)
  end.

Fixpoint discover_entries (root : VirtualPath) (max_extensions : Z) (entries : list DirEntry)
    (registry : ExtensionRegistry) (quarantined : list DiscoveryQuarantine) (considered : Z) :
    prog discoverE (ExtensionRegistry * list DiscoveryQuarantine) :=
  match entries with
  | [] => Ret (registry, quarantined)
  | entry :: rest =>
      match extension_dir_id entry with
      | None => discover_entries root max_extensions rest registry quarantined considered
      | Some expected =>
          if max_extensions <=? considered then
            discover_entries root max_extensions rest registry
              (quarantined ++ [mk_DiscoveryQuarantine (as_str expected)
                 ("exceeded discovery bound of " +:+ pretty max_extensions
                  +:+ " extension(s); not read")]) considered
          else
            let! r := load_package_entry root entry expected in
            match r with
            | Ok package =>
                match ExtensionRegistry_insert registry package with
                | (registry', Ok _) =>
                    discover_entries root max_extensions rest registry' quarantined (considered + 1)
                | (registry', Err error) =>
                    discover_entries root max_extensions rest registry'
                      (quarantined ++ [mk_DiscoveryQuarantine (as_str expected) (error_text error)])
                      (considered + 1)
                end
            | Err error =>
                discover_entries root max_extensions rest registry
                  (quarantined ++ [mk_DiscoveryQuarantine (as_str expected) (error_text error)])
                  (considered + 1)
            end
      end
  end.

Definition discover_with_manifest_contracts_tolerant_bounded (root : VirtualPath)
    (max_extensions : Z) :
    prog discoverE (result (ExtensionRegistry * list DiscoveryQuarantine) ExtensionError) :=
  let! r := trigger (ListDir root) in
  match r with
  | Err e => Ret (Err (ExtFilesystem e))
  | Ok entries =>
      let! res := discover_entries root max_extensions (merge_sort by_name entries)
                    ExtensionRegistry_new [] 0 in
      Ret (Ok res)
  end.

Fixpoint discover_all (root : VirtualPath) (entries : list DirEntry) (registry : ExtensionRegistry) :
    prog discoverE (result ExtensionRegistry ExtensionError) :=
  match entries with
  | [] => Ret (Ok registry)
  | entry :: rest =>
      match extension_dir_id entry with
      | None => discover_all root rest registry
      | Some expected =>
          let! r := load_package_entry root entry expected in
          match r with
          | Err error => Ret (Err error)
          | Ok package =>
              match ExtensionRegistry_insert registry package with
              | (registry', Ok _) => discover_all root rest registry'
              | (_, Err error) => Ret (Err error)
              end
          end
      end
  end.

Definition discover_with_manifest_contracts (root : VirtualPath) :
    prog discoverE (result ExtensionRegistry ExtensionError) :=
  let! r := trigger (ListDir root) in
  match r with
  | Err e => Ret (Err (ExtFilesystem e))
  | Ok entries => discover_all root (merge_sort by_name entries) ExtensionRegistry_new
  end.

(** *** Reads are bounded, nothing is lost *)

Definition is_manifest_read (ev : event discoverE) : bool :=
  match ev with Ev e _ => match e with ReadFileBounded _ _ => true | ListDir _ => false end end.

Definition bounded_read (ev : event discoverE) : Prop :=
  match ev with
  | Ev e _ => match e with ReadFileBounded _ max => max = MAX_MANIFEST_BYTES | ListDir _ => True end
  end.

Definition reads (t : list (event discoverE)) : Z := Z.of_nat (length (List.filter is_manifest_read t)).

Lemma reads_app t1 t2 : reads (t1 ++ t2) = reads t1 + reads t2.
Proof. unfold reads. rewrite List.filter_app, length_app. lia. Qed.

Lemma load_package_entry_spec root entry expected t r :
  traces (load_package_entry root entry expected) t r ->
  reads t <= 1 /\ Forall bounded_read t /\ (forall p, r = Ok p -> ep_id p = expected).
Proof.
  unfold load_package_entry. destruct (VirtualPath_new _) as [path|e]; simpl.
  - intros (x & t' & -> & -> & ->). split; [by vm_compute|]. split; [by repeat constructor|].
    intros p Hp. destruct x as [[text|]|e]; try done. invert_ok Hp.
    apply negb_false_iff, bool_decide_eq_true in Heqb0. unfold from_manifest_with_digest in Hp.
    invert_ok Hp. by injection Hp as <-.
  - intros [-> ->]. split; [by vm_compute|]. by split; [constructor|].
Qed.

(** [id] was registered or quarantined. *)
Definition accounted (registry : ExtensionRegistry) (quarantined : list DiscoveryQuarantine)
    (id : ExtensionId) : Prop :=
  is_Some (get_extension registry id) \/ as_str id ∈ map dq_extension_id quarantined.

Lemma insert_grows registry p id :
  is_Some (get_extension registry id) -> is_Some (get_extension (ExtensionRegistry_insert registry p).1 id).
Proof.
  unfold ExtensionRegistry_insert, get_extension. destruct (validate_insertable registry p); [|done].
  simpl. intros H. apply lookup_insert_is_Some. destruct (decide (ep_id p = id)); auto.
Qed.

Lemma accounted_insert registry p q id :
  accounted registry q id -> accounted (ExtensionRegistry_insert registry p).1 q id.
Proof. intros [H|H]; [left; by apply insert_grows | by right]. Qed.

Lemma accounted_more registry q q' id : accounted registry q id -> accounted registry (q ++ q') id.
Proof. intros [H|H]; [by left|]. right. rewrite map_app, elem_of_app. by left. Qed.

Lemma accounted_new registry q id reason :
  accounted registry (q ++ [mk_DiscoveryQuarantine (as_str id) reason]) id.
Proof. right. rewrite map_app, elem_of_app. right. by apply list_elem_of_singleton. Qed.

#[local] Hint Resolve accounted_insert accounted_more accounted_new : rust.

(** What a run over the remaining entries does. *)
Definition discovers (max : Z) (entries : list DirEntry) (registry : ExtensionRegistry)
    (q : list DiscoveryQuarantine) (considered : Z) (t : list (event discoverE))
    (res : ExtensionRegistry * list DiscoveryQuarantine) : Prop :=
  reads t <= Z.max 0 (max - considered) /\ Forall bounded_read t /\
  (registry_ok registry -> registry_ok res.1) /\
  (forall id, accounted registry q id -> accounted res.1 res.2 id) /\
  (forall entry id, entry ∈ entries -> extension_dir_id entry = Some id -> accounted res.1 res.2 id).

Lemma discovers_step max entry expected rest registry q registry' q' considered t1 t res :
  extension_dir_id entry = Some expected -> considered < max ->
  reads t1 <= 1 -> Forall bounded_read t1 ->
  (registry_ok registry -> registry_ok registry') ->
  (forall id, accounted registry q id -> accounted registry' q' id) -> accounted registry' q' expected ->
  discovers max rest registry' q' (considered + 1) t res ->
  discovers max (entry :: rest) registry q considered (t1 ++ t) res.
Proof.
  intros He Hlt Hr Hb Hok Hacc Hexp (H1 & H2 & H3 & H4 & H5). split; [rewrite reads_app; lia|].
  split; [by apply Forall_app|]. split; [auto|]. split; [auto|].
  intros entry' id [->|Hin]%elem_of_cons Hid; [|by eapply H5]. rewrite He in Hid. injection Hid as <-. auto.
Qed.

Lemma discover_entries_spec root max entries registry q considered t res :
  0 <= max -> traces (discover_entries root max entries registry q considered) t res ->
  discovers max entries registry q considered t res.
Proof.
  intros Hmax. revert registry q considered t. induction entries as [|entry rest IH];
    intros registry q considered t; simpl.
  { intros [-> ->]. split; [unfold reads; simpl; lia|]. split; [constructor|]. do 2 (split; [done|]).
    by intros entry id ?%not_elem_of_nil. }
  destruct (extension_dir_id entry) as [expected|] eqn:He.
  - destruct (Z.leb_spec max considered) as [Hle|Hlt].
    + intros (H1 & H2 & H3 & H4 & H5)%IH. split; [done|]. split; [done|]. split; [done|].
      split; [auto with rust|]. intros entry' id [->|Hin]%elem_of_cons Hid; [|by eapply H5].
      rewrite He in Hid. injection Hid as <-. auto with rust.
    + intros (t1 & t2 & r & -> & (Hr & Hb & Hp)%load_package_entry_spec & Ht)%traces_bind.
      destruct r as [p|error].
      * pose proof (insert_preserves registry p) as Hins. pose proof (accounted_insert registry p) as Hacc.
        assert (is_ok (ExtensionRegistry_insert registry p).2 = true ->
                accounted (ExtensionRegistry_insert registry p).1 q expected) as Hnew.
        { rewrite <- (Hp p eq_refl). unfold ExtensionRegistry_insert. destruct (validate_insertable _ _); [|done].
          intros _. left. apply lookup_insert_is_Some. by left. }
        destruct (ExtensionRegistry_insert registry p) as [registry' [u|error]]; simpl in *;
          apply IH in Ht; (eapply discovers_step; [done|done|done|done|exact Hins| | |exact Ht]);
          auto with rust.
      * apply IH in Ht. eapply (discovers_step _ _ expected _ registry q registry);
          [done|done|done|done|done| | |exact Ht]; auto with rust.
  - intros (H1 & H2 & H3 & H4 & H5)%IH. do 4 (split; [done|]).
    intros entry' id [->|Hin]%elem_of_cons Hid; [congruence | by eapply H5].
Qed.

(** Tolerant discovery reads at most [max_extensions] manifests, each below the byte
    ceiling; it fails only when the root cannot be listed; otherwise the registry
    it returns is consistent and every extension directory of the listing is
    registered or quarantined. *)
Theorem discovery_bounded_and_total root max t r :
  0 <= max ->
  traces (discover_with_manifest_contracts_tolerant_bounded root max) t r ->
  reads t <= max /\ Forall bounded_read t /\
  exists listing t', t = Ev (ListDir root) listing :: t' /\
    match listing with
    | Err e => t' = [] /\ r = Err (ExtFilesystem e)
    | Ok entries => exists registry q, r = Ok (registry, q) /\ registry_ok registry /\
        forall entry id, entry ∈ entries -> extension_dir_id entry = Some id ->
          accounted registry q id
    end.
Proof.
  intros Hmax (listing & t' & -> & Ht). destruct listing as [entries|e].
  - simpl in Ht. apply traces_bind in Ht as (t1 & t2 & [registry q] & -> & Ht & [-> ->]).
    apply discover_entries_spec in Ht as (H1 & H2 & H3 & H4 & H5); [|done]. rewrite app_nil_r.
    split; [change (reads t1 <= max); lia|]. split; [by constructor|].
    eexists _, _. split; [done|]. exists registry, q. split; [done|].
    split; [apply H3, registry_new_ok|]. intros entry id Hin Hid. eapply H5; [|done].
    by rewrite merge_sort_Permutation.
  - destruct Ht as [-> ->]. split; [by vm_compute|]. split; [by repeat constructor|].
    by eexists _, [].
Qed.
End Discovery.
End Extensions.

(** ** A concrete registry *)

Definition example_decl (id : string) : CapabilityDeclV2 :=
  mk_CapabilityDeclV2 (mk_CapabilityId id) [] "run" [Network] PermAsk VisModel "in.json" "out.json"
    None [] [] None.

Definition example_manifest (id : string) (caps : list string) : ExtensionManifest :=
  mk_ExtensionManifest "reborn.extension_manifest.v2" (from_trusted id) id "0.1.0" "" InstalledLocal
    ThirdParty Sandbox (RtMcp "stdio" (Some "load") [] None) [] (map example_decl caps) [].

Definition example_package (id : string) (caps : list string) : ExtensionPackage :=
  match from_manifest (example_manifest id caps)
          (mk_VirtualPath ("/system/extensions/" +:+ id)) with
  | Ok p => p
  | Err _ => mk_ExtensionPackage (from_trusted id) (mk_VirtualPath "/") (example_manifest id caps)
               [] None ManifestRefs
  end.

Definition example_registry : SharedExtensionRegistry :=
  (apply_op (apply_op (apply_op (SharedExtensionRegistry_new ExtensionRegistry_new)
     (OpUpsert (example_package "demo" ["demo.run"; "demo.stop"]))).1
     (OpInsert (example_package "other" ["other.run"]))).1
     (OpUpsert (example_package "demo" ["demo.run"; "demo.go"]))).1.

Lemma registry_lists_its_packages_witness :
  registry_reach example_registry /\
  shared_version example_registry = 3 /\
  map cd_id (capabilities (snapshot example_registry))
  = [mk_CapabilityId "demo.run"; mk_CapabilityId "demo.go"; mk_CapabilityId "other.run"] /\
  NoDup (reg_capability_order (snapshot example_registry)).
Proof.
  assert (registry_reach example_registry) as Hr by (repeat apply rr_op; constructor).
  split; [done|]. split; [by vm_compute|]. split; [by vm_compute|].
  apply (registry_lists_its_packages example_registry Hr).
Defined.
