(* ===== verification/Dispatch.v ===== *)
(** * Capability dispatch

    [crates/brassclaw_host_api/src/dispatch.rs]: the vocabulary of the dispatch
    port, its error kinds and their event tokens.
    [crates/brassclaw_dispatcher/src/lib.rs]: the runtime dispatcher, which checks
    a request against a snapshot of the extension registry, hands it with its
    prepared reservation to the adapter of the capability's runtime, and releases
    the reservation when no adapter took it.

    The dispatcher is an interactive program; its calls are the registry snapshot,
    the adapter, the release by the reservation guard, and the event sink.  The
    theorems: the exact calls of every run, so a reservation is handed over or
    released, never both and never neither; the sink cannot influence the outcome;
    over a reachable registry two of the errors are impossible. *)

From S2P Require Import Prelude Effects External HostIds Paths HostTypes Obligations.
From S2P Require Import RuntimePolicy Budget AuditEnvelopes Events Extensions.
Open Scope Z_scope.

(** ** [dispatch.rs] *)

Inductive AuthDispatchBoundary : Type := Unproven | BeforeDispatch | DispatchAttempted.

Inductive RuntimeDispatchErrorKind : Type :=
| RkBackend | RkClient | RkExecutor | RkExitFailure | RkExtensionRuntimeMismatch
| RkFilesystemDenied | RkGuest | RkInputEncode | RkInvalidResult | RkManifest | RkMemory
| RkMethodMissing | RkNetworkDenied | RkOperationFailed | RkOutputDecode | RkOutputTooLarge
| RkPolicyDenied | RkResource | RkSecretDenied | RkUndeclaredCapability | RkUnsupportedRunner
| RkUnknown.

#[export] Instance RuntimeDispatchErrorKind_eq_dec : EqDecision RuntimeDispatchErrorKind.
Proof. solve_decision. Defined.

Definition RuntimeDispatchErrorKind_as_str (self : RuntimeDispatchErrorKind) : string :=
  match self with
  | RkBackend => "Backend" | RkClient => "Client" | RkExecutor => "Executor"
  | RkExitFailure => "ExitFailure" | RkExtensionRuntimeMismatch => "ExtensionRuntimeMismatch"
  | RkFilesystemDenied => "FilesystemDenied" | RkGuest => "Guest" | RkInputEncode => "InputEncode"
  | RkInvalidResult => "InvalidResult" | RkManifest => "Manifest" | RkMemory => "Memory"
  | RkMethodMissing => "MethodMissing" | RkNetworkDenied => "NetworkDenied"
  | RkOperationFailed => "OperationFailed" | RkOutputDecode => "OutputDecode"
  | RkOutputTooLarge => "OutputTooLarge" | RkPolicyDenied => "PolicyDenied"
  | RkResource => "Resource" | RkSecretDenied => "SecretDenied"
  | RkUndeclaredCapability => "UndeclaredCapability" | RkUnsupportedRunner => "UnsupportedRunner"
  | RkUnknown => "Unknown"
  end.

Definition RuntimeDispatchErrorKind_event_kind (self : RuntimeDispatchErrorKind) : string :=
  match self with
  | RkBackend => "backend" | RkClient => "client" | RkExecutor => "executor"
  | RkExitFailure => "exit_failure" | RkExtensionRuntimeMismatch => "extension.runtime_mismatch"
  | RkFilesystemDenied => "filesystem_denied" | RkGuest => "guest" | RkInputEncode => "input_encode"
  | RkInvalidResult => "invalid_result" | RkManifest => "manifest" | RkMemory => "memory"
  | RkMethodMissing => "method_missing" | RkNetworkDenied => "network_denied"
  | RkOperationFailed => "operation_failed" | RkOutputDecode => "output_decode"
  | RkOutputTooLarge => "output_too_large" | RkPolicyDenied => "policy_denied"
  | RkResource => "resource" | RkSecretDenied => "secret_denied"
  | RkUndeclaredCapability => "undeclared_capability" | RkUnsupportedRunner => "unsupported_runner"
  | RkUnknown => "unknown"
  end.

Inductive DispatchFailureKind : Type :=
| FkUnknownCapability | FkUnknownProvider | FkRuntimeMismatch | FkMissingRuntimeBackend
| FkUnsupportedRuntime | FkAuthRequired | FkRuntime (kind : RuntimeDispatchErrorKind).

Definition DispatchFailureKind_as_str (self : DispatchFailureKind) : string :=
  match self with
  | FkUnknownCapability => "UnknownCapability" | FkUnknownProvider => "UnknownProvider"
  | FkRuntimeMismatch => "RuntimeMismatch" | FkMissingRuntimeBackend => "MissingRuntimeBackend"
  | FkUnsupportedRuntime => "UnsupportedRuntime" | FkAuthRequired => "AuthRequired"
  | FkRuntime kind => RuntimeDispatchErrorKind_as_str kind
  end.

(** From [decision.rs]. *)
Record RuntimeCredentialAuthRequirement : Type := mk_RuntimeCredentialAuthRequirement {
  rca_requirement : option RuntimeCredentialAccountRequirement;
  rca_provider : RuntimeCredentialAccountProviderId;
  rca_requester_extension : ExtensionId;
  rca_provider_scopes : list string }.

#[export] Instance RuntimeCredentialAuthRequirement_eq_dec :
  EqDecision RuntimeCredentialAuthRequirement.
Proof. solve_decision. Defined.

Inductive DispatchError : Type :=
| UnknownCapability (capability : CapabilityId)
| UnknownProvider (capability : CapabilityId) (provider : ExtensionId)
| RuntimeMismatch (capability : CapabilityId) (descriptor_runtime package_runtime : RuntimeKind)
| MissingRuntimeBackend (runtime : RuntimeKind)
| UnsupportedRuntime (capability : CapabilityId) (runtime : RuntimeKind)
| DispatchAuthRequired (capability : CapabilityId) (required_secrets : list SecretHandle)
    (credential_requirements : list RuntimeCredentialAuthRequirement)
| McpFailed (kind : RuntimeDispatchErrorKind)
| FirstPartyFailed (kind : RuntimeDispatchErrorKind) (safe_summary : option string).

Definition failure_kind (self : DispatchError) : DispatchFailureKind :=
  match self with
  | UnknownCapability _ => FkUnknownCapability
  | UnknownProvider _ _ => FkUnknownProvider
  | RuntimeMismatch _ _ _ => FkRuntimeMismatch
  | MissingRuntimeBackend _ => FkMissingRuntimeBackend
  | UnsupportedRuntime _ _ => FkUnsupportedRuntime
  | DispatchAuthRequired _ _ _ => FkAuthRequired
  | McpFailed kind | FirstPartyFailed kind _ => FkRuntime kind
  end.

Definition DispatchError_event_kind (self : DispatchError) : string :=
  match self with
  | UnknownCapability _ => "unknown_capability"
  | UnknownProvider _ _ => "unknown_provider"
  | RuntimeMismatch _ _ _ => "runtime_mismatch"
  | MissingRuntimeBackend _ => "missing_runtime_backend"
  | UnsupportedRuntime _ _ => "unsupported_runtime"
  | DispatchAuthRequired _ _ _ => "auth_required"
  | McpFailed kind | FirstPartyFailed kind _ => RuntimeDispatchErrorKind_event_kind kind
  end.

#[export] Instance DispatchFailureKind_eq_dec : EqDecision DispatchFailureKind.
Proof. solve_decision. Defined.
#[export] Instance DispatchError_eq_dec : EqDecision DispatchError.
Proof. solve_decision. Defined.

(** The event tokens of all dispatch errors pass the redaction of the event log
    unchanged. *)
Lemma event_kind_safe (e : DispatchError) :
  sanitize_error_kind (DispatchError_event_kind e) = DispatchError_event_kind e.
Proof. destruct e as [| | | | | |[]|[]]; by vm_compute. Qed.

(** [text.is_char_boundary(end)] for [end <= text.len()]: the end of the text, or a
    byte that does not continue a character. *)
Definition is_char_boundary (text : string) (n : nat) : bool :=
  match String.get n text with
  | None => true
  | Some b => negb ((128 <=? byte_of b) && (byte_of b <? 192))
  end.

Record CapabilityDisplayText : Type := mk_CapabilityDisplayText {
  cdt_text : string; cdt_truncated : bool }.

Fixpoint boundary_at_or_below (text : string) (n : nat) : nat :=
  if is_char_boundary text n then n
  else match n with S n' => boundary_at_or_below text n' | O => O end.

Definition truncate_capability_display_text (text : string) (max_bytes : Z) :
    CapabilityDisplayText :=
  if str_len text <=? max_bytes then mk_CapabilityDisplayText text false
  else
    let n := boundary_at_or_below text (Z.to_nat max_bytes) in
    mk_CapabilityDisplayText (String.substring 0 n text) true.

Lemma boundary_le text n : (boundary_at_or_below text n <= n)%nat.
Proof. induction n as [|n IH]; simpl; destruct (is_char_boundary _ _); lia. Qed.

Section Dispatch.
Context `{D : Decimal} {J : SerdeJson} `{JV : !JsonValue J}.

Record CapabilityDispatchRequest : Type := mk_CapabilityDispatchRequest {
  dr_capability_id : CapabilityId;
  dr_scope : ResourceScope;
  dr_estimate : ResourceEstimate;
  dr_mounts : option MountView;
  dr_resource_reservation : option ResourceReservation;
  dr_input : json }.

Record CapabilityDisplayOutputPreview : Type := mk_CapabilityDisplayOutputPreview {
  dop_output_summary : option string;
  dop_output_preview : string;
  dop_output_kind : string;
  dop_subtitle : option string;
  dop_truncated : bool }.

Record CapabilityDispatchResult : Type := mk_CapabilityDispatchResult {
  cdr_capability_id : CapabilityId;
  cdr_provider : ExtensionId;
  cdr_runtime : RuntimeKind;
  cdr_output : json;
  cdr_display_preview : option CapabilityDisplayOutputPreview;
  cdr_usage : ResourceUsage;
  cdr_receipt : ResourceReceipt }.

(** ** The dispatcher ([dispatcher/src/lib.rs])

    The filesystem and the governor that an adapter request borrows are the
    dispatcher's own and not part of the model's request. *)

Record RuntimeAdapterRequest : Type := mk_RuntimeAdapterRequest {
  raq_package : ExtensionPackage;
  raq_descriptor : CapabilityDescriptor;
  raq_runtime_policy : EffectiveRuntimePolicy;
  raq_capability_id : CapabilityId;
  raq_scope : ResourceScope;
  raq_estimate : ResourceEstimate;
  raq_mounts : option MountView;
  raq_resource_reservation : option ResourceReservation;
  raq_input : json }.

Record RuntimeAdapterResult : Type := mk_RuntimeAdapterResult {
  rar_output : json;
  rar_display_preview : option CapabilityDisplayOutputPreview;
  rar_usage : ResourceUsage;
  rar_receipt : ResourceReceipt;
  rar_output_bytes : Z }.

(** The calls of a dispatch. *)
Inductive dispatchE : Type -> Type :=
| FreshEvent : dispatchE (RuntimeEventId * Z)
| EmitEvent (event : RuntimeEvent) : dispatchE (result unit EventError)
| RegistrySnapshot : dispatchE ExtensionRegistry
| AdapterDispatch (runtime : RuntimeKind) (request : RuntimeAdapterRequest) :
    dispatchE (result RuntimeAdapterResult DispatchError)
| GovernorRelease (reservation_id : ResourceReservationId) : dispatchE (result unit ResourceError).

(** The registry, the filesystem, the governor and the adapters are reached through
    the calls; what is left of the dispatcher is which adapters it has, its policy
    and whether it has a sink. *)
Record RuntimeDispatcher : Type := mk_RuntimeDispatcher {
  rdp_runtime_policy : EffectiveRuntimePolicy;
  rdp_runtime_adapters : list RuntimeKind;
  rdp_event_sink : bool }.

Definition default_runtime_policy : EffectiveRuntimePolicy :=
  mk_EffectiveRuntimePolicy LocalSingleUser SecureDefault SecureDefault FsScopedVirtual ProcNone NetDeny
    SecBrokeredHandles ApprAskAlways AuditLocalMinimal.

Definition RuntimeDispatcher_new : RuntimeDispatcher :=
  mk_RuntimeDispatcher default_runtime_policy [] false.
Definition with_runtime_policy (p : EffectiveRuntimePolicy) (self : RuntimeDispatcher) :=
  mk_RuntimeDispatcher p (rdp_runtime_adapters self) (rdp_event_sink self).
Definition with_runtime_adapter (runtime : RuntimeKind) (self : RuntimeDispatcher) :=
  mk_RuntimeDispatcher (rdp_runtime_policy self) (runtime :: rdp_runtime_adapters self)
    (rdp_event_sink self).
Definition with_event_sink (self : RuntimeDispatcher) :=
  mk_RuntimeDispatcher (rdp_runtime_policy self) (rdp_runtime_adapters self) true.

Section DispatchJson.
Variable self : RuntimeDispatcher.

(** The event is built in any case; a sink's answer is dropped. *)
Definition emit_event (event : RuntimeEventId * Z -> RuntimeEvent) : prog dispatchE unit :=
  let! fresh := trigger FreshEvent in
  if rdp_event_sink self then do! trigger (EmitEvent (event fresh)) in Ret tt else Ret tt.

Definition emit_dispatch_failure (scope : ResourceScope) (capability_id : CapabilityId)
    (provider : option ExtensionId) (runtime : option RuntimeKind) (error : DispatchError) :
    prog dispatchE unit :=
  emit_event (fun fresh =>
    dispatch_failed fresh scope capability_id provider runtime (DispatchError_event_kind error)).

(** [DispatchReservationGuard::drop] when the method returns [r]. *)
Definition drop_guard {R} (reservation : option ResourceReservation) (r : R) : prog dispatchE R :=
  match reservation with
  | Some reservation => do! trigger (GovernorRelease (rr_id reservation)) in Ret r
  | None => Ret r
  end.

Definition dispatch_json (request : CapabilityDispatchRequest) :
    prog dispatchE (result CapabilityDispatchResult DispatchError) :=
  let scope := dr_scope request in
  let capability_id := dr_capability_id request in
  let guard := dr_resource_reservation request in
  do! emit_event (fun fresh => dispatch_requested fresh scope capability_id) in
  let! registry := trigger RegistrySnapshot in
  match get_capability registry capability_id with
  | None =>
      let error := UnknownCapability capability_id in
      do! emit_dispatch_failure scope capability_id None None error in
      drop_guard guard (Err error)
  | Some descriptor =>
      let provider := cd_provider descriptor in
      match get_extension registry provider with
      | None =>
          let error := UnknownProvider capability_id provider in
          do! emit_dispatch_failure scope capability_id (Some provider)
                (Some (cd_runtime descriptor)) error in
          drop_guard guard (Err error)
      | Some package =>
          let package_runtime := ExtensionManifest_runtime_kind (ep_manifest package) in
          let runtime := cd_runtime descriptor in
          if negb (bool_decide (runtime = package_runtime)) then
            let error := RuntimeMismatch capability_id runtime package_runtime in
            do! emit_dispatch_failure scope capability_id (Some provider) (Some runtime) error in
            drop_guard guard (Err error)
          else if negb (bool_decide (runtime ∈ rdp_runtime_adapters self)) then
            let error := MissingRuntimeBackend runtime in
            do! emit_dispatch_failure scope capability_id (Some provider) (Some runtime) error in
            drop_guard guard (Err error)
          else
            do! emit_event (fun fresh => runtime_selected fresh scope capability_id provider runtime) in
            let! execution := trigger (AdapterDispatch runtime
              (mk_RuntimeAdapterRequest package descriptor (rdp_runtime_policy self) capability_id
                 scope (dr_estimate request) (dr_mounts request) guard (dr_input request))) in
            match execution with
            | Err error =>
                do! emit_dispatch_failure scope capability_id (Some provider) (Some runtime) error in
                Ret (Err error)
            | Ok execution =>
                do! emit_event (fun fresh =>
                  dispatch_succeeded fresh scope capability_id provider runtime
                    (rar_output_bytes execution)) in
                Ret (Ok (mk_CapabilityDispatchResult capability_id provider runtime
                           (rar_output execution) (rar_display_preview execution)
                           (rar_usage execution) (rar_receipt execution)))
            end
      end
  end.

(** ** The calls of a run *)

(** The calls that act: all but drawing an event id and emitting. *)
Definition acts (ev : event dispatchE) : bool :=
  match ev with
  | Ev e _ => match e with FreshEvent | EmitEvent _ => false | _ => true end
  end.

Definition emitted_kind (ev : event dispatchE) : option RuntimeEventKind :=
  match ev with Ev e _ => match e with EmitEvent event => Some (re_kind event) | _ => None end end.

Definition actions (t : list (event dispatchE)) : list (event dispatchE) := List.filter acts t.
Definition emitted (t : list (event dispatchE)) : list RuntimeEventKind := omap emitted_kind t.

(** Where a request goes: the checks of the dispatcher without its calls. *)
Definition route (request : CapabilityDispatchRequest) (registry : ExtensionRegistry) :
    result RuntimeAdapterRequest DispatchError :=
  let c := dr_capability_id request in
  let? descriptor := ok_or (get_capability registry c) (UnknownCapability c) in
  let? package := ok_or (get_extension registry (cd_provider descriptor))
                    (UnknownProvider c (cd_provider descriptor)) in
  let package_runtime := ExtensionManifest_runtime_kind (ep_manifest package) in
  if negb (bool_decide (cd_runtime descriptor = package_runtime)) then
    Err (RuntimeMismatch c (cd_runtime descriptor) package_runtime)
  else if negb (bool_decide (cd_runtime descriptor ∈ rdp_runtime_adapters self)) then
    Err (MissingRuntimeBackend (cd_runtime descriptor))
  else
    Ok (mk_RuntimeAdapterRequest package descriptor (rdp_runtime_policy self) c (dr_scope request)
          (dr_estimate request) (dr_mounts request) (dr_resource_reservation request)
          (dr_input request)).

Definition dispatch_result (request : RuntimeAdapterRequest) (x : RuntimeAdapterResult) :
    CapabilityDispatchResult :=
  mk_CapabilityDispatchResult (raq_capability_id request) (cd_provider (raq_descriptor request))
    (cd_runtime (raq_descriptor request)) (rar_output x) (rar_display_preview x) (rar_usage x)
    (rar_receipt x).

(** The guard releases the reservation, once, whatever the governor answers. *)
Definition released (reservation : option ResourceReservation) (t : list (event dispatchE)) : Prop :=
  match reservation with
  | Some res => exists x, t = [Ev (GovernorRelease (rr_id res)) x]
  | None => t = []
  end.

Lemma actions_app t1 t2 : actions (t1 ++ t2) = actions t1 ++ actions t2.
Proof. apply List.filter_app. Qed.

Lemma emitted_app t1 t2 : emitted (t1 ++ t2) = emitted t1 ++ emitted t2.
Proof. apply omap_app. Qed.

Lemma emit_event_traces {R} f kind (k : unit -> prog dispatchE R) t r :
  (forall fresh, re_kind (f fresh) = kind) ->
  traces (pbind (emit_event f) k) t r ->
  exists t1 t2, t = t1 ++ t2 /\ actions t1 = [] /\
    emitted t1 = (if rdp_event_sink self then [kind] else []) /\ traces (k tt) t2 r.
Proof.
  intros Hk (t1 & t2 & [] & -> & Ht & Hr)%traces_bind. exists t1, t2. split; [done|].
  unfold emit_event in Ht. destruct Ht as (fresh & t' & -> & Ht).
  destruct (rdp_event_sink self).
  - destruct Ht as (x & t'' & -> & [-> _]). simpl. by rewrite Hk.
  - by destruct Ht as [-> _].
Qed.

Lemma drop_guard_traces {R} reservation (r r' : R) t :
  traces (drop_guard reservation r) t r' -> r' = r /\ released reservation t /\ emitted t = [].
Proof.
  unfold drop_guard. destruct reservation as [res|]; simpl.
  - intros (x & t' & -> & -> & ->). split; [done|]. split; [by exists x|done].
  - by intros [-> ->].
Qed.

(** A failure before the adapter: one event, then the guard. *)
Lemma failure_traces {R} scope c provider runtime error reservation (r r' : R) t :
  traces (do! emit_dispatch_failure scope c provider runtime error in drop_guard reservation r) t r' ->
  r' = r /\ released reservation (actions t) /\
  emitted t = (if rdp_event_sink self then [EkDispatchFailed] else []).
Proof.
  intros (t1 & t2 & -> & H1 & H2 & (-> & H3 & H4)%drop_guard_traces)%(emit_event_traces _ EkDispatchFailed);
    [|done].
  rewrite actions_app, emitted_app, H1, H2, H4, app_nil_r. split; [done|]. split; [|done]. simpl.
  destruct reservation; [destruct H3 as [x ->]; by exists x | by rewrite H3].
Qed.

(** The kinds of the events a run emits after the first one. *)
Definition events_of (request : CapabilityDispatchRequest) (registry : ExtensionRegistry)
    (r : result CapabilityDispatchResult DispatchError) : list RuntimeEventKind :=
  EkDispatchRequested
  :: (if is_ok (route request registry) then [EkRuntimeSelected] else [])
  ++ [if is_ok r then EkDispatchSucceeded else EkDispatchFailed].

(** Every run of the dispatcher takes one registry snapshot and then does one of
    two things.  When the request does not route (unknown capability or provider,
    runtimes that disagree, no adapter) it returns that error and releases the
    prepared reservation, exactly once.  Otherwise it calls the adapter of the
    capability's own runtime, once, with the reservation and the request's scope,
    estimate, mounts and input, never releases, and returns the adapter's answer
    under the capability's provider and runtime.  The event sink sees the kinds of
    exactly this course, and its answers have no influence. *)
Theorem dispatch_routes_or_releases request t r :
  traces (dispatch_json request) t r ->
  exists registry rest,
    actions t = Ev RegistrySnapshot registry :: rest /\
    match route request registry with
    | Err e => r = Err e /\ released (dr_resource_reservation request) rest
    | Ok areq => exists answer,
        rest = [Ev (AdapterDispatch (cd_runtime (raq_descriptor areq)) areq) answer] /\
        r = result_map (dispatch_result areq) answer
    end /\
    emitted t = (if rdp_event_sink self then events_of request registry r else []).
Proof.
  intros (t1 & t2 & -> & Ha1 & He1 & registry & t3 & -> & Ht)%(emit_event_traces _ EkDispatchRequested);
    [|done].
  exists registry, (actions t3). rewrite actions_app, emitted_app, Ha1, He1. split; [done|]. simpl.
  cbn [pbind] in Ht. unfold events_of, route in *.
  destruct (get_capability registry _) as [d|]; cbn [ok_or] in *;
    [destruct (get_extension registry _) as [p|]; cbn [ok_or] in *|].
  1: destruct (negb (bool_decide (cd_runtime d = _))); [|destruct (negb (bool_decide (_ ∈ _)))].
  all: try (apply failure_traces in Ht as (-> & Hrel & ->); by destruct (rdp_event_sink self)).
  apply (emit_event_traces _ EkRuntimeSelected) in Ht as (t4 & t5 & -> & Ha4 & He4 & answer & t6 & -> & Ht); [|done].
  rewrite actions_app, emitted_app, Ha4, He4. cbn [pbind] in Ht. destruct answer as [x|e].
  - apply (emit_event_traces _ EkDispatchSucceeded) in Ht as (t7 & t8 & -> & Ha7 & He7 & -> & ->); [|done].
    rewrite app_nil_r in *. simpl. rewrite Ha7, He7. split; [by eexists|]. by destruct (rdp_event_sink self).
  - apply (emit_event_traces _ EkDispatchFailed) in Ht as (t7 & t8 & -> & Ha7 & He7 & -> & ->); [|done].
    rewrite app_nil_r in *. simpl. rewrite Ha7, He7. split; [by eexists|]. by destruct (rdp_event_sink self).
Qed.

(** Against a snapshot of a reachable registry, a request for a registered
    capability whose runtime has an adapter always routes, to the package that
    declares the capability; so the dispatcher's errors about a missing provider or
    disagreeing runtimes cannot occur there. *)
Theorem registered_capability_routes s request :
  registry_reach s ->
  match get_capability (snapshot s) (dr_capability_id request) with
  | None => route request (snapshot s) = Err (UnknownCapability (dr_capability_id request))
  | Some d =>
      if bool_decide (cd_runtime d ∈ rdp_runtime_adapters self) then
        exists areq, route request (snapshot s) = Ok areq /\ raq_descriptor areq = d /\
          d ∈ ep_capabilities (raq_package areq) /\
          get_extension (snapshot s) (cd_provider d) = Some (raq_package areq)
      else route request (snapshot s) = Err (MissingRuntimeBackend (cd_runtime d))
  end.
Proof.
  intros [[Hp Hc _] _]%registry_reach_ok. unfold route.
  destruct (get_capability (snapshot s) (dr_capability_id request)) as [d|] eqn:Hd; [|done].
  apply Hc in Hd as (id & p & Hl & Hin & Hid). destruct (Hp _ _ Hl) as [Hep Hok].
  apply package_ok_descriptors in Hok as [_ Hprov Hrt _]. rewrite <- Hep, <- (Hprov d Hin) in Hl.
  unfold get_extension. simpl. rewrite Hl. simpl. rewrite (bool_decide_eq_true_2 (cd_runtime d = _)) by auto.
  simpl. destruct (bool_decide _); simpl; [|done]. eexists. by repeat split.
Qed.
End DispatchJson.
End Dispatch.

(** ** A concrete run: the sink is down, nothing is registered, the guard releases *)

Definition example_request : CapabilityDispatchRequest :=
  mk_CapabilityDispatchRequest (mk_CapabilityId "demo.run") (example_scope None None)
    ResourceEstimate_default None
    (Some (mk_ResourceReservation (from_uuid 9) (example_scope None None) ResourceEstimate_default))
    "{}".

Definition example_dispatcher : RuntimeDispatcher :=
  with_event_sink (with_runtime_adapter RuntimeMcp RuntimeDispatcher_new).

Lemma dispatch_routes_or_releases_witness :
  exists t, traces (dispatch_json (with_event_sink RuntimeDispatcher_new) example_request) t
              (Err (UnknownCapability (mk_CapabilityId "demo.run"))) /\
    exists registry rest, actions t = Ev RegistrySnapshot registry :: rest /\
      match route (with_event_sink RuntimeDispatcher_new) example_request registry with
      | Err e => Err (UnknownCapability (mk_CapabilityId "demo.run")) = Err (A := CapabilityDispatchResult) e
                 /\ released (dr_resource_reservation example_request) rest
      | Ok _ => True
      end.
Proof.
  assert (exists t, traces (dispatch_json (with_event_sink RuntimeDispatcher_new) example_request) t
            (Err (UnknownCapability (mk_CapabilityId "demo.run")))) as [t Ht].
  { eexists. exists (mk_RuntimeEventId 0, 0). eexists. split; [done|].
    exists (Err (EventSinkFailed "down")). eexists. split; [done|].
    exists ExtensionRegistry_new. eexists. split; [done|].
    exists (mk_RuntimeEventId 1, 0). eexists. split; [done|].
    exists (Ok tt). eexists. split; [done|].
    exists (Ok tt). eexists. split; [done|]. done. }
  exists t. split; [done|].
  destruct (dispatch_routes_or_releases (with_event_sink RuntimeDispatcher_new) example_request t _ Ht)
    as (registry & rest & H1 & H2 & _).
  exists registry, rest. split; [done|]. by destruct (route _ _ _) as [areq|e].
Defined.

Lemma registered_capability_routes_witness :
  bool_decide (is_Some (get_capability (snapshot example_registry) (mk_CapabilityId "demo.run"))) = true /\
  (forall d, get_capability (snapshot example_registry) (mk_CapabilityId "demo.run") = Some d ->
     cd_runtime d = RuntimeMcp ->
     exists areq, route example_dispatcher example_request (snapshot example_registry) = Ok areq).
Proof.
  split; [by vm_compute|]. intros d Hd Hrt.
  assert (registry_reach example_registry) as Hr by (repeat apply rr_op; constructor).
  pose proof (registered_capability_routes example_dispatcher example_registry example_request Hr) as H.
  change (dr_capability_id example_request) with (mk_CapabilityId "demo.run") in H.
  rewrite Hd, bool_decide_eq_true_2 in H by (rewrite Hrt; constructor).
  destruct H as (areq & H & _). exists areq. exact H.
Defined.
