(* ===== verification/Processes.v ===== *)
(** * Background processes

    [crates/brassclaw_processes/src]: records, errors and the status transition
    ([types.rs]), the in-memory process and result stores ([memory_store.rs]),
    cancellation tokens ([cancellation.rs]), the host's query, kill and await
    operations ([host.rs]), and the background manager with its detached task
    ([services.rs]).  Methods that call several stores are interactive programs, so
    that a kill and a finishing task can interleave call by call.

    The theorems: a terminal status is final and a process starts once, in every
    sequence of store calls; a task publishes its result before its terminal status,
    whatever other tasks, kills and store failures do; an awaiting host returns within two
    rounds of a terminal status; [late_result_overwrites_kill] records the race that
    the task's status probe leaves open. *)

From S2P Require Import Prelude Effects External HostIds Paths HostTypes Obligations Budget.
From S2P Require Import Filesystem AuditEnvelopes Events.
Open Scope Z_scope.

(** ** [types.rs] *)

Inductive ProcessStatus : Type := PsRunning | PsCompleted | PsFailed | PsKilled.

#[export] Instance ProcessStatus_eq_dec : EqDecision ProcessStatus.
Proof. solve_decision. Defined.

Definition ProcessStatus_is_terminal (self : ProcessStatus) : bool :=
  negb (bool_decide (self = PsRunning)).

Record ProcessKey : Type := mk_ProcessKey {
  pk_tenant_id : TenantId;
  pk_user_id : UserId;
  pk_agent_id : option AgentId;
  pk_project_id : option ProjectId;
  pk_thread_id : option ThreadId;
  pk_process_id : ProcessId }.

#[export] Instance ProcessKey_eq_dec : EqDecision ProcessKey.
Proof. solve_decision. Defined.
#[export] Instance ProcessKey_countable : Countable ProcessKey.
Proof.
  by apply (inj_countable'
    (fun k => (pk_tenant_id k, pk_user_id k, pk_agent_id k, pk_project_id k, pk_thread_id k,
               pk_process_id k))
    (fun '(t, u, a, p, th, i) => mk_ProcessKey t u a p th i)); intros [].
Defined.

Definition ProcessKey_new (scope : ResourceScope) (process_id : ProcessId) : ProcessKey :=
  mk_ProcessKey (rs_tenant_id scope) (rs_user_id scope) (rs_agent_id scope)
    (rs_project_id scope) (rs_thread_id scope) process_id.

Definition process_same_scope_owner (left right : ResourceScope) : bool :=
  bool_decide (rs_tenant_id left = rs_tenant_id right)
  && bool_decide (rs_user_id left = rs_user_id right)
  && bool_decide (rs_agent_id left = rs_agent_id right)
  && bool_decide (rs_project_id left = rs_project_id right)
  && bool_decide (rs_thread_id left = rs_thread_id right).

Section Processes.
Context `{D : Decimal} {J : SerdeJson}.

Record ProcessRecord : Type := mk_ProcessRecord {
  pr_process_id : ProcessId;
  pr_parent_process_id : option ProcessId;
  pr_invocation_id : InvocationId;
  pr_scope : ResourceScope;
  pr_extension_id : ExtensionId;
  pr_capability_id : CapabilityId;
  pr_runtime : RuntimeKind;
  pr_status : ProcessStatus;
  pr_grants : CapabilitySet;
  pr_mounts : MountView;
  pr_estimated_resources : ResourceEstimate;
  pr_resource_reservation_id : option ResourceReservationId;
  pr_error_kind : option string }.

Record ProcessStart : Type := mk_ProcessStart {
  pst_process_id : ProcessId;
  pst_parent_process_id : option ProcessId;
  pst_invocation_id : InvocationId;
  pst_scope : ResourceScope;
  pst_extension_id : ExtensionId;
  pst_capability_id : CapabilityId;
  pst_runtime : RuntimeKind;
  pst_grants : CapabilitySet;
  pst_mounts : MountView;
  pst_estimated_resources : ResourceEstimate;
  pst_resource_reservation_id : option ResourceReservationId;
  pst_input : json }.

Record ProcessExit : Type := mk_ProcessExit {
  px_process_id : ProcessId;
  px_scope : ResourceScope;
  px_extension_id : ExtensionId;
  px_capability_id : CapabilityId;
  px_runtime : RuntimeKind;
  px_status : ProcessStatus;
  px_error_kind : option string }.

Definition ProcessExit_from_terminal (record : ProcessRecord) : ProcessExit :=
  mk_ProcessExit (pr_process_id record) (pr_scope record) (pr_extension_id record)
    (pr_capability_id record) (pr_runtime record) (pr_status record) (pr_error_kind record).

Record ProcessResultRecord : Type := mk_ProcessResultRecord {
  prr_process_id : ProcessId;
  prr_scope : ResourceScope;
  prr_status : ProcessStatus;
  prr_output : option json;
  prr_output_ref : option VirtualPath;
  prr_error_kind : option string }.

Inductive ProcessError : Type :=
| UnknownProcess (process_id : ProcessId)
| ProcessAlreadyExists (process_id : ProcessId)
| PInvalidTransition (process_id : ProcessId) (from to : ProcessStatus)
| ResourceReservationMismatch (process_id : ProcessId) (expected : ResourceReservationId)
    (actual : option ResourceReservationId)
| ResourceReservationAlreadyAssigned (process_id : ProcessId)
    (reservation_id : ResourceReservationId)
| ResourceReservationNotOwned (process_id : ProcessId)
    (reservation_id : option ResourceReservationId)
| PResource (error : ResourceError)
| ResourceCleanupFailed (original : ProcessError) (cleanup : ResourceError)
| ProcessResultStoreUnavailable
| ProcessResultUnavailable (process_id : ProcessId)
| PInvalidStoredRecord (reason : string)
| PInvalidPath (reason : string)
| PFilesystem (error : FilesystemError)
| PSerialization (reason : string)
| PDeserialization (reason : string).

Fixpoint is_filesystem_not_found (self : ProcessError) : bool :=
  match self with
  | PFilesystem (FsNotFound _ _) => true
  | ResourceCleanupFailed original _ => is_filesystem_not_found original
  | _ => false
  end.

Definition ensure_status_transition (process_id : ProcessId) (from to : ProcessStatus) :
    result unit ProcessError :=
  if negb (bool_decide (from = PsRunning)) then Err (PInvalidTransition process_id from to)
  else Ok tt.

(** ** [memory_store.rs] *)

Abbreviation process_records := (gmap ProcessKey ProcessRecord).
Abbreviation process_results := (gmap ProcessKey ProcessResultRecord).

Definition with_status (to : ProcessStatus) (error_kind : option string) (r : ProcessRecord) :
    ProcessRecord :=
  mk_ProcessRecord (pr_process_id r) (pr_parent_process_id r) (pr_invocation_id r) (pr_scope r)
    (pr_extension_id r) (pr_capability_id r) (pr_runtime r) to (pr_grants r) (pr_mounts r)
    (pr_estimated_resources r) (pr_resource_reservation_id r) error_kind.

Definition update_status (records : process_records) (scope : ResourceScope)
    (process_id : ProcessId) (to : ProcessStatus) (error_kind : option string) :
    process_records * result ProcessRecord ProcessError :=
  let key := ProcessKey_new scope process_id in
  match records !! key with
  | None => (records, Err (UnknownProcess process_id))
  | Some record =>
      match ensure_status_transition process_id (pr_status record) to with
      | Err e => (records, Err e)
      | Ok _ =>
          let record := with_status to error_kind record in
          (<[key := record]> records, Ok record)
      end
  end.

Definition record_of_start (start : ProcessStart) : ProcessRecord :=
  mk_ProcessRecord (pst_process_id start) (pst_parent_process_id start) (pst_invocation_id start)
    (pst_scope start) (pst_extension_id start) (pst_capability_id start) (pst_runtime start)
    PsRunning (pst_grants start) (pst_mounts start) (pst_estimated_resources start)
    (pst_resource_reservation_id start) None.

Definition process_start (records : process_records) (start : ProcessStart) :
    process_records * result ProcessRecord ProcessError :=
  let record := record_of_start start in
  let key := ProcessKey_new (pr_scope record) (pr_process_id record) in
  if bool_decide (is_Some (records !! key))
  then (records, Err (ProcessAlreadyExists (pr_process_id record)))
  else (<[key := record]> records, Ok record).

Definition process_complete (records : process_records) (scope : ResourceScope)
    (process_id : ProcessId) :=
  update_status records scope process_id PsCompleted None.
Definition process_fail (records : process_records) (scope : ResourceScope)
    (process_id : ProcessId) (error_kind : string) :=
  update_status records scope process_id PsFailed (Some (sanitize_error_kind error_kind)).
Definition process_kill (records : process_records) (scope : ResourceScope)
    (process_id : ProcessId) :=
  update_status records scope process_id PsKilled None.
Definition process_get (records : process_records) (scope : ResourceScope)
    (process_id : ProcessId) : option ProcessRecord :=
  records !! ProcessKey_new scope process_id.

Definition by_process_id (a b : ProcessRecord) : Prop :=
  as_uuid (pr_process_id a) <= as_uuid (pr_process_id b).
#[local] Instance by_process_id_dec : RelDecision by_process_id.
Proof. intros a b. unfold by_process_id. solve_decision. Defined.

Definition process_records_for_scope (records : process_records) (scope : ResourceScope) :
    list ProcessRecord :=
  merge_sort by_process_id
    (List.filter (fun record => process_same_scope_owner (pr_scope record) scope) (map_to_list records).*2).

Definition store_result (results : process_results) (scope : ResourceScope)
    (process_id : ProcessId) (status : ProcessStatus) (output : option json)
    (error_kind : option string) : process_results * ProcessResultRecord :=
  let record := mk_ProcessResultRecord process_id scope status output None error_kind in
  (<[ProcessKey_new scope process_id := record]> results, record).

Definition result_complete (results : process_results) scope process_id (output : json) :=
  store_result results scope process_id PsCompleted (Some output) None.
Definition result_fail (results : process_results) scope process_id (error_kind : string) :=
  store_result results scope process_id PsFailed None (Some (sanitize_error_kind error_kind)).
Definition result_kill (results : process_results) scope process_id :=
  store_result results scope process_id PsKilled None None.
Definition result_get (results : process_results) (scope : ResourceScope) (process_id : ProcessId) :
    option ProcessResultRecord :=
  results !! ProcessKey_new scope process_id.
Definition result_output (results : process_results) (scope : ResourceScope)
    (process_id : ProcessId) : option json :=
  match result_get results scope process_id with Some r => prr_output r | None => None end.

(** ** [cancellation.rs]: tokens are identities, [Arc]s of a flag *)

Record ProcessCancellationRegistry : Type := mk_ProcessCancellationRegistry {
  cr_tokens : gmap ProcessKey nat; cr_cancelled : gset nat; cr_next : nat }.

Definition token_new (self : ProcessCancellationRegistry) : ProcessCancellationRegistry * nat :=
  (mk_ProcessCancellationRegistry (cr_tokens self) (cr_cancelled self) (S (cr_next self)),
   cr_next self).

Definition token_is_cancelled (self : ProcessCancellationRegistry) (token : nat) : bool :=
  bool_decide (token ∈ cr_cancelled self).

Definition token_register (self : ProcessCancellationRegistry) (scope : ResourceScope)
    (process_id : ProcessId) : ProcessCancellationRegistry * nat :=
  let '(self, token) := token_new self in
  (mk_ProcessCancellationRegistry (<[ProcessKey_new scope process_id := token]> (cr_tokens self))
     (cr_cancelled self) (cr_next self), token).

Definition token_cancel (self : ProcessCancellationRegistry) (scope : ResourceScope)
    (process_id : ProcessId) : ProcessCancellationRegistry * bool :=
  let key := ProcessKey_new scope process_id in
  match cr_tokens self !! key with
  | Some token =>
      (mk_ProcessCancellationRegistry (delete key (cr_tokens self))
         ({[token]} ∪ cr_cancelled self) (cr_next self), true)
  | None => (self, false)
  end.

Definition token_unregister (self : ProcessCancellationRegistry) (scope : ResourceScope)
    (process_id : ProcessId) : ProcessCancellationRegistry :=
  mk_ProcessCancellationRegistry (delete (ProcessKey_new scope process_id) (cr_tokens self))
    (cr_cancelled self) (cr_next self).

(** ** The calls of the host and of the background manager *)

Record ProcessExecutionRequest : Type := mk_ProcessExecutionRequest {
  per_process_id : ProcessId;
  per_invocation_id : InvocationId;
  per_scope : ResourceScope;
  per_extension_id : ExtensionId;
  per_capability_id : CapabilityId;
  per_runtime : RuntimeKind;
  per_estimate : ResourceEstimate;
  per_mounts : MountView;
  per_resource_reservation : option ResourceReservation;
  per_input : json;
  per_cancellation : nat }.

Inductive BackgroundFailureStage : Type :=
| StoreLookup | StoreComplete | StoreFail | ResultStoreComplete | ResultStoreFail.

Record BackgroundFailure : Type := mk_BackgroundFailure {
  bf_scope : ResourceScope;
  bf_process_id : ProcessId;
  bf_stage : BackgroundFailureStage;
  bf_error : ProcessError }.

(** The executor answers an output, an error kind, or panics ([None]). *)
Inductive processE : Type -> Type :=
| PStart (start : ProcessStart) : processE (result ProcessRecord ProcessError)
| PComplete (scope : ResourceScope) (id : ProcessId) : processE (result ProcessRecord ProcessError)
| PFail (scope : ResourceScope) (id : ProcessId) (error_kind : string) :
    processE (result ProcessRecord ProcessError)
| PKill (scope : ResourceScope) (id : ProcessId) : processE (result ProcessRecord ProcessError)
| PGet (scope : ResourceScope) (id : ProcessId) :
    processE (result (option ProcessRecord) ProcessError)
| RComplete (scope : ResourceScope) (id : ProcessId) (output : json) :
    processE (result ProcessResultRecord ProcessError)
| RFail (scope : ResourceScope) (id : ProcessId) (error_kind : string) :
    processE (result ProcessResultRecord ProcessError)
| RKill (scope : ResourceScope) (id : ProcessId) :
    processE (result ProcessResultRecord ProcessError)
| RGet (scope : ResourceScope) (id : ProcessId) :
    processE (result (option ProcessResultRecord) ProcessError)
| TokenNew : processE nat
| TokenRegister (scope : ResourceScope) (id : ProcessId) : processE nat
| TokenCancel (scope : ResourceScope) (id : ProcessId) : processE bool
| TokenUnregister (scope : ResourceScope) (id : ProcessId) : processE unit
| Execute (request : ProcessExecutionRequest) : processE (option (result json string))
| Report (failure : BackgroundFailure) : processE unit
| Sleep : processE unit.

(** ** [host.rs] *)

(** Which optional parts a host or manager has. *)
Record process_parts : Type := mk_process_parts {
  has_cancellation_registry : bool; has_result_store : bool; has_error_handler : bool }.

Section Host.
Variable parts : process_parts.

Definition record_kill_side_effects (record : ProcessRecord) :
    prog processE (result unit ProcessError) :=
  let cancel : prog processE unit :=
    if has_cancellation_registry parts
    then do! trigger (TokenCancel (pr_scope record) (pr_process_id record)) in Ret tt
    else Ret tt in
  do! cancel in
  if has_result_store parts then
    let!? _ := trigger (RKill (pr_scope record) (pr_process_id record)) in Ret (Ok tt)
  else Ret (Ok tt).

Definition is_invalid_transition (e : ProcessError) : bool :=
  match e with PInvalidTransition _ _ _ => true | _ => false end.

Definition host_kill (scope : ResourceScope) (process_id : ProcessId) :
    prog processE (result ProcessRecord ProcessError) :=
  let! r := trigger (PKill scope process_id) in
  match r with
  | Ok record =>
      let!? _ := record_kill_side_effects record in Ret (Ok record)
  | Err error =>
      let! current := trigger (PGet scope process_id) in
      match current with
      | Ok (Some record) =>
          if bool_decide (pr_status record = PsKilled) then
            let!? _ := record_kill_side_effects record in
            Ret (if is_invalid_transition error then Ok record else Err error)
          else Ret (Err error)
      | _ => Ret (Err error)
      end
  end.

Definition host_status (scope : ResourceScope) (process_id : ProcessId) :=
  trigger (PGet scope process_id).

Definition host_result (scope : ResourceScope) (process_id : ProcessId) :
    prog processE (result (option ProcessResultRecord) ProcessError) :=
  if has_result_store parts then trigger (RGet scope process_id)
  else Ret (Err ProcessResultStoreUnavailable).

Definition host_output (scope : ResourceScope) (process_id : ProcessId) :
    prog processE (result (option json) ProcessError) :=
  let!? r := host_result scope process_id in
  Ret (Ok (match r with Some record => prr_output record | None => None end)).

(** One round of the loop: the answer, or the flag of the next round. *)
Definition await_result_round (scope : ResourceScope) (process_id : ProcessId)
    (terminal_without_result_seen : bool) :
    prog processE (result ProcessResultRecord ProcessError + bool) :=
  let! r := host_result scope process_id in
  match r with
  | Err e => Ret (inl (Err e))
  | Ok (Some record) => Ret (inl (Ok record))
  | Ok None =>
      let! current := trigger (PGet scope process_id) in
      match current with
      | Err e => Ret (inl (Err e))
      | Ok None => Ret (inl (Err (UnknownProcess process_id)))
      | Ok (Some record) =>
          if ProcessStatus_is_terminal (pr_status record) then
            if negb (has_result_store parts) || terminal_without_result_seen
            then Ret (inl (Err (ProcessResultUnavailable process_id)))
            else do! trigger Sleep in Ret (inr true)
          else do! trigger Sleep in Ret (inr false)
      end
  end.

(** The loop, for at most [fuel] rounds. *)
Fixpoint await_result (fuel : nat) (scope : ResourceScope) (process_id : ProcessId) (seen : bool) :
    prog processE (option (result ProcessResultRecord ProcessError)) :=
  match fuel with
  | O => Ret None
  | S fuel' =>
      let! r := await_result_round scope process_id seen in
      match r with
      | inl answer => Ret (Some answer)
      | inr seen' => await_result fuel' scope process_id seen'
      end
  end.

Fixpoint await_process (fuel : nat) (scope : ResourceScope) (process_id : ProcessId) :
    prog processE (option (result ProcessExit ProcessError)) :=
  match fuel with
  | O => Ret None
  | S fuel' =>
      let! r := trigger (PGet scope process_id) in
      match r with
      | Err e => Ret (Some (Err e))
      | Ok None => Ret (Some (Err (UnknownProcess process_id)))
      | Ok (Some record) =>
          if ProcessStatus_is_terminal (pr_status record)
          then Ret (Some (Ok (ProcessExit_from_terminal record)))
          else do! trigger Sleep in await_process fuel' scope process_id
      end
  end.

(** *** Subscriptions *)

Record ProcessSubscription : Type := mk_ProcessSubscription {
  sub_scope : ResourceScope;
  sub_process_id : ProcessId;
  sub_last_status : option ProcessStatus;
  sub_pending_initial : option ProcessRecord;
  sub_finished : bool }.

Definition subscribe (scope : ResourceScope) (process_id : ProcessId) :
    prog processE (result ProcessSubscription ProcessError) :=
  let!? r := trigger (PGet scope process_id) in
  match r with
  | None => Ret (Err (UnknownProcess process_id))
  | Some record =>
      Ret (Ok (mk_ProcessSubscription scope process_id (Some (pr_status record)) (Some record) false))
  end.

Fixpoint sub_poll (fuel : nat) (self : ProcessSubscription) :
    prog processE (option (ProcessSubscription * result (option ProcessRecord) ProcessError)) :=
  match fuel with
  | O => Ret None
  | S fuel' =>
      let! r := trigger (PGet (sub_scope self) (sub_process_id self)) in
      match r with
      | Err e => Ret (Some (self, Err e))
      | Ok None => Ret (Some (self, Err (UnknownProcess (sub_process_id self))))
      | Ok (Some record) =>
          if negb (bool_decide (Some (pr_status record) = sub_last_status self)) then
            Ret (Some (mk_ProcessSubscription (sub_scope self) (sub_process_id self)
                         (Some (pr_status record)) (sub_pending_initial self)
                         (ProcessStatus_is_terminal (pr_status record) || sub_finished self),
                       Ok (Some record)))
          else do! trigger Sleep in sub_poll fuel' self
      end
  end.

Definition sub_next (fuel : nat) (self : ProcessSubscription) :
    prog processE (option (ProcessSubscription * result (option ProcessRecord) ProcessError)) :=
  match sub_pending_initial self with
  | Some record =>
      Ret (Some (mk_ProcessSubscription (sub_scope self) (sub_process_id self)
                   (sub_last_status self) None
                   (ProcessStatus_is_terminal (pr_status record) || sub_finished self),
                 Ok (Some record)))
  | None =>
      if sub_finished self then Ret (Some (self, Ok None)) else sub_poll fuel self
  end.

(** ** [services.rs]: the background manager *)

Definition report (scope : ResourceScope) (process_id : ProcessId) (stage : BackgroundFailureStage)
    (error : ProcessError) : prog processE unit :=
  if has_error_handler parts
  then trigger (Report (mk_BackgroundFailure scope process_id stage error))
  else Ret tt.

(** [if let Some(result_store) = ... { match call { ... } } else { true }]. *)
Definition persist_result (scope : ResourceScope) (process_id : ProcessId)
    (call : processE (result ProcessResultRecord ProcessError)) (stage : BackgroundFailureStage) :
    prog processE bool :=
  if has_result_store parts then
    let! r := trigger call in
    match r with
    | Ok _ => Ret true
    | Err error => do! report scope process_id stage error in Ret false
    end
  else Ret true.

Definition settle (scope : ResourceScope) (process_id : ProcessId)
    (result_call : processE (result ProcessResultRecord ProcessError))
    (result_stage : BackgroundFailureStage)
    (status_call : processE (result ProcessRecord ProcessError))
    (status_stage : BackgroundFailureStage) : prog processE unit :=
  let! result_persisted := persist_result scope process_id result_call result_stage in
  if result_persisted then
    let! r := trigger status_call in
    match r with
    | Ok _ => Ret tt
    | Err error => report scope process_id status_stage error
    end
  else Ret tt.

(** The future given to [tokio::spawn]. *)
Definition background_task (request : ProcessExecutionRequest) : prog processE unit :=
  let scope := per_scope request in
  let process_id := per_process_id request in
  let! outcome := trigger (Execute request) in
  let! current := trigger (PGet scope process_id) in
  let! still_running :=
    match current with
    | Ok (Some record) => Ret (bool_decide (pr_status record = PsRunning))
    | Ok None => Ret false
    | Err error => do! report scope process_id StoreLookup error in Ret false
    end in
  do!
    (if still_running : bool then
       match outcome with
       | Some (Ok output) =>
           settle scope process_id (RComplete scope process_id output) ResultStoreComplete
             (PComplete scope process_id) StoreComplete
       | Some (Err kind) =>
           let error_kind := sanitize_error_kind kind in
           settle scope process_id (RFail scope process_id error_kind) ResultStoreFail
             (PFail scope process_id error_kind) StoreFail
       | None =>
           let panic_kind := "runtime_panic" in
           settle scope process_id (RFail scope process_id panic_kind) ResultStoreFail
             (PFail scope process_id panic_kind) StoreFail
       end
     else Ret tt) in
  if has_cancellation_registry parts
  then trigger (TokenUnregister scope process_id)
  else Ret tt.

(** [spawn] returns the record and the task it detaches. *)
Definition manager_spawn (start : ProcessStart) :
    prog processE (result (ProcessRecord * prog processE unit) ProcessError) :=
  let input := pst_input start in
  let!? record := trigger (PStart start) in
  let! cancellation :=
    (if has_cancellation_registry parts
     then trigger (TokenRegister (pr_scope record) (pr_process_id record))
     else trigger TokenNew) in
  let resource_reservation :=
    option_map (fun id => mk_ResourceReservation id (pr_scope record) (pr_estimated_resources record))
      (pr_resource_reservation_id record) in
  Ret (Ok (record,
    background_task
      (mk_ProcessExecutionRequest (pr_process_id record) (pr_invocation_id record)
         (pr_scope record) (pr_extension_id record) (pr_capability_id record) (pr_runtime record)
         (pr_estimated_resources record) (pr_mounts record) resource_reservation input
         cancellation))).
End Host.

(** ** Calls on a shared state

    The stores of [memory_store.rs] behind their locks, the cancellation registry,
    and failures: a store call may also report an error, having changed nothing or
    having done its work (an answer that is lost, or the reservation cleanup of
    [wrappers.rs] that fails after the record is written). *)

Record pstate : Type := mk_pstate {
  ps_records : process_records;
  ps_results : process_results;
  ps_tokens : ProcessCancellationRegistry }.

Definition store_call {A} (s s' : pstate) (x : result A ProcessError)
    (effect : process_records * result A ProcessError) : Prop :=
  (s' = mk_pstate effect.1 (ps_results s) (ps_tokens s) /\ (x = effect.2 \/ is_err x = true))
  \/ (s' = s /\ is_err x = true).

Definition result_call (s s' : pstate) (x : result ProcessResultRecord ProcessError)
    (effect : process_results * ProcessResultRecord) : Prop :=
  (s' = mk_pstate (ps_records s) effect.1 (ps_tokens s) /\ (x = Ok effect.2 \/ is_err x = true))
  \/ (s' = s /\ is_err x = true).

Definition read_call {A} (s s' : pstate) (x : result A ProcessError) (value : A) : Prop :=
  s' = s /\ (x = Ok value \/ is_err x = true).

Definition token_call {A} (s s' : pstate) (x : A) (effect : ProcessCancellationRegistry * A) : Prop :=
  s' = mk_pstate (ps_records s) (ps_results s) effect.1 /\ x = effect.2.

Definition may_answer (X : Type) (e : processE X) (s s' : pstate) : X -> Prop :=
  match e in processE X return X -> Prop with
  | PStart start => fun x => store_call s s' x (process_start (ps_records s) start)
  | PComplete scope id => fun x => store_call s s' x (process_complete (ps_records s) scope id)
  | PFail scope id kind => fun x => store_call s s' x (process_fail (ps_records s) scope id kind)
  | PKill scope id => fun x => store_call s s' x (process_kill (ps_records s) scope id)
  | PGet scope id => fun x => read_call s s' x (process_get (ps_records s) scope id)
  | RComplete scope id output => fun x => result_call s s' x (result_complete (ps_results s) scope id output)
  | RFail scope id kind => fun x => result_call s s' x (result_fail (ps_results s) scope id kind)
  | RKill scope id => fun x => result_call s s' x (result_kill (ps_results s) scope id)
  | RGet scope id => fun x => read_call s s' x (result_get (ps_results s) scope id)
  | TokenNew => fun x => token_call s s' x (token_new (ps_tokens s))
  | TokenRegister scope id => fun x => token_call s s' x (token_register (ps_tokens s) scope id)
  | TokenCancel scope id => fun x => token_call s s' x (token_cancel (ps_tokens s) scope id)
  | TokenUnregister scope id => fun _ => s' = mk_pstate (ps_records s) (ps_results s)
                                             (token_unregister (ps_tokens s) scope id)
  | Execute _ | Report _ | Sleep => fun _ => s' = s
  end.

(** *** A terminal status is final *)

(** What a call may do to a record: nothing, or settle it once. *)
Definition evolves (r r' : ProcessRecord) : Prop :=
  r' = r \/ (pr_status r = PsRunning /\
             exists st kind, ProcessStatus_is_terminal st = true /\ r' = with_status st kind r).

Lemma update_status_evolves records scope id to kind k r :
  ProcessStatus_is_terminal to = true -> records !! k = Some r ->
  exists r', (update_status records scope id to kind).1 !! k = Some r' /\ evolves r r'.
Proof.
  intros Ht Hk. unfold update_status. destruct (records !! ProcessKey_new scope id) as [q|] eqn:Hq;
    [|by exists r; split; [|left]].
  unfold ensure_status_transition. case_bool_decide as Hrun; simpl; [|by exists r; split; [|left]].
  same_or_other k (ProcessKey_new scope id).
  - rewrite Hq in Hk. injection Hk as ->. eexists. split; [done|]. right.
    split; [done|]. by exists to, kind.
  - exists r. split; [done|by left].
Qed.

Lemma start_evolves records start k r :
  records !! k = Some r ->
  exists r', (process_start records start).1 !! k = Some r' /\ evolves r r'.
Proof.
  intros Hk. exists r. split; [|by left]. unfold process_start. case_bool_decide as Hex; [done|]. simpl.
  rewrite lookup_insert_ne; [done|]. intros <-. apply Hex. by eexists.
Qed.

Lemma store_call_evolves {A} s s' (x : result A ProcessError) effect k r :
  (forall k r, ps_records s !! k = Some r -> exists r', effect.1 !! k = Some r' /\ evolves r r') ->
  store_call s s' x effect -> ps_records s !! k = Some r ->
  exists r', ps_records s' !! k = Some r' /\ evolves r r'.
Proof. intros He [[-> _]|[-> _]] Hk; [by apply He|]. exists r. split; [done|by left]. Qed.

Lemma call_evolves X (e : processE X) s s' x k r :
  may_answer X e s s' x -> ps_records s !! k = Some r ->
  exists r', ps_records s' !! k = Some r' /\ evolves r r'.
Proof.
  assert (forall s'', ps_records s'' = ps_records s -> ps_records s !! k = Some r ->
            exists r', ps_records s'' !! k = Some r' /\ evolves r r') as Hsame.
  { intros s'' -> Hk. exists r. split; [done|by left]. }
  destruct e; simpl; intros Hc Hk;
    try (eapply store_call_evolves; [|exact Hc|exact Hk]; intros; by eauto using start_evolves, update_status_evolves);
    try (apply Hsame; [|done]; unfold result_call, read_call, token_call in Hc; naive_solver).
Qed.

(** Any sequence of calls, of whatever programs. *)
Definition any_call (s s' : pstate) : Prop := exists X (e : processE X) x, may_answer X e s s' x.

Lemma evolves_trans r1 r2 r3 : evolves r1 r2 -> evolves r2 r3 -> evolves r1 r3.
Proof.
  intros [->|(Hr & st & kind & Hst & ->)]; [done|]. intros [->|(Hr' & _)]; [right; eauto|].
  simpl in Hr'. by subst st.
Qed.

(** Whatever calls of hosts, managers and tasks interleave, and whichever of them
    fail, a process record changes at most once in its life, from running to a
    terminal status, and only in its status and error kind; a record with a terminal
    status never changes again, and a start succeeds only for a key without record. *)
Theorem process_status_final s s' k r :
  rtc any_call s s' -> ps_records s !! k = Some r ->
  (exists r', ps_records s' !! k = Some r' /\ evolves r r' /\
     (ProcessStatus_is_terminal (pr_status r) = true -> r' = r)) /\
  (forall start s'' record, may_answer _ (PStart start) s' s'' (Ok record) ->
     ps_records s' !! ProcessKey_new (pst_scope start) (pst_process_id start) = None /\
     pr_status record = PsRunning).
Proof.
  intros Hr Hk. split.
  - assert (exists r', ps_records s' !! k = Some r' /\ evolves r r') as (r' & Hk' & He).
    { revert r Hk. induction Hr as [|s1 s2 s3 (X & e & x & Hc) _ IH]; intros r Hk.
      - exists r. split; [done|by left].
      - destruct (call_evolves _ _ _ _ _ _ _ Hc Hk) as (r1 & Hk1 & He1).
        destruct (IH _ Hk1) as (r2 & Hk2 & He2). exists r2. split; [done|]. by eapply evolves_trans. }
    exists r'. split; [done|]. split; [done|]. intros Ht. destruct He as [->|(Hrun & _)]; [done|].
    by rewrite Hrun in Ht.
  - intros start s'' record [[_ [Hx|Hx]]|[_ Hx]]; [|done..]. unfold process_start in Hx. simpl in Hx.
    case_bool_decide as Hex; simpl in Hx; [done|]. injection Hx as ->.
    split; [by apply eq_None_not_Some | done].
Qed.

(** *** The result is stored before the terminal status *)

(** [manager.spawn(start)] and then the task it detaches. *)
Definition spawn_and_run (parts : process_parts) (start : ProcessStart) : prog processE unit :=
  let! r := manager_spawn parts start in
  match r with Ok (_, task) => task | Err _ => Ret tt end.

Definition start_key (start : ProcessStart) : ProcessKey :=
  ProcessKey_new (pst_scope start) (pst_process_id start).

(** Who runs a program of the pool: the task of a process, or a host that kills one. *)
Inductive actor : Type := Task (k : ProcessKey) | Killer (k : ProcessKey).

Definition actor_key (a : actor) : ProcessKey := match a with Task k | Killer k => k end.

(** Tasks are started for new process identifiers ([ProcessId::new]), by managers
    that have a result store; anybody may kill anything, from any host. *)
Definition may_run (a : actor) (p : prog processE unit) (running : list actor) (_ : pstate) : Prop :=
  match a with
  | Task k => exists parts start, has_result_store parts = true /\ k = start_key start /\
      p = spawn_and_run parts start /\ a ∉ running
  | Killer k => exists parts scope id, k = ProcessKey_new scope id /\
      p = (do! host_kill parts scope id in Ret tt)
  end.

(** Every record is stored under its own key. *)
Definition keyed (s : pstate) : Prop :=
  forall k r, ps_records s !! k = Some r -> ProcessKey_new (pr_scope r) (pr_process_id r) = k.

(** The contract of [spawn]: a completed or failed process has a matching result. *)
Definition result_present (s : pstate) (k : ProcessKey) : Prop :=
  forall r, ps_records s !! k = Some r -> pr_status r = PsCompleted \/ pr_status r = PsFailed ->
    exists res, ps_results s !! k = Some res /\ prr_status res = pr_status r.

Definition results_first (s : pstate) : Prop := keyed s /\ forall k, result_present s k.

Section Tasks.

Definition is_killed (s : pstate) (k : ProcessKey) : Prop :=
  exists r, ps_records s !! k = Some r /\ pr_status r = PsKilled.

Definition records_evolve (s s' : pstate) : Prop :=
  forall k r, ps_records s !! k = Some r -> exists r', ps_records s' !! k = Some r' /\ evolves r r'.

(** All that others do to the process of a task is to kill it. *)
Definition only_killed (k : ProcessKey) (s s' : pstate) : Prop :=
  (forall r', ps_records s' !! k = Some r' -> ps_records s !! k = Some r' \/ pr_status r' = PsKilled) /\
  (ps_results s' !! k = ps_results s !! k \/ is_killed s' k).

Definition others_kept (k : ProcessKey) (s s' : pstate) : Prop :=
  forall k', k' <> k -> ps_records s' !! k' = ps_records s !! k' /\ ps_results s' !! k' = ps_results s !! k'.

Definition proc_rely (a : actor) (s s' : pstate) : Prop :=
  (keyed s -> keyed s') /\ records_evolve s s' /\
  match a with Task k => only_killed k s s' | Killer _ => True end.

Definition proc_guar (a : actor) (s s' : pstate) : Prop :=
  (keyed s -> keyed s') /\ records_evolve s s' /\ others_kept (actor_key a) s s' /\
  (result_present s (actor_key a) -> result_present s' (actor_key a)) /\
  match a with Task _ => True | Killer k => only_killed k s s' end.

Lemma killed_stays s s' k : records_evolve s s' -> is_killed s k -> is_killed s' k.
Proof.
  intros He (r & Hr & Hk). destruct (He k r Hr) as (r' & Hr' & [->|(H & _)]); [by exists r|congruence].
Qed.

Lemma evolve_refl s s' : ps_records s' = ps_records s -> records_evolve s s'.
Proof. intros H k r Hr. exists r. rewrite H. split; [done|by left]. Qed.

Lemma evolve_trans s1 s2 s3 : records_evolve s1 s2 -> records_evolve s2 s3 -> records_evolve s1 s3.
Proof.
  intros H1 H2 k r Hr. destruct (H1 k r Hr) as (r2 & Hr2 & He2).
  destruct (H2 k r2 Hr2) as (r3 & Hr3 & He3). exists r3. split; [done|by eapply evolves_trans].
Qed.

Lemma rely_refl a s : proc_rely a s s.
Proof. split; [done|]. split; [by apply evolve_refl|]. destruct a; [|done]. split; [by left|by left]. Qed.

Lemma rely_trans a s1 s2 s3 : proc_rely a s1 s2 -> proc_rely a s2 s3 -> proc_rely a s1 s3.
Proof.
  intros (Hk1 & He1 & H1) (Hk2 & He2 & H2). split; [auto|]. split; [by eapply evolve_trans|].
  destruct a as [k|k]; [|done]. destruct H1 as [Ha1 Hb1], H2 as [Ha2 Hb2]. split.
  - intros r' [H|H]%Ha2; [by apply Ha1|by right].
  - destruct Hb2 as [Hb2|Hb2]; [|by right].
    destruct Hb1 as [Hb1|Hb1]; [left; congruence|right; by eapply killed_stays].
Qed.

(** Any call preserves the keys, since records never move. *)
Lemma call_keyed X (e : processE X) s s' x : may_answer X e s s' x -> keyed s -> keyed s'.
Proof.
  intros Hc Hk. assert (forall records', (records' = ps_records s \/
    exists scope id to kind, records' = (update_status (ps_records s) scope id to kind).1) \/
    (exists start, records' = (process_start (ps_records s) start).1) ->
    forall k r, records' !! k = Some r -> ProcessKey_new (pr_scope r) (pr_process_id r) = k) as H.
  { intros records' [[->|(scope & id & to & kind & ->)]|(start & ->)] k r Hr; [by apply Hk| |].
    - revert Hr. unfold update_status.
      destruct (ps_records s !! ProcessKey_new scope id) as [q|] eqn:Hq; [|apply Hk].
      destruct (ensure_status_transition _ _ _); [|apply Hk]. simpl.
      intros [[<- <-]|[_ Hr]]%lookup_insert_Some; [|by apply Hk]. simpl. by apply Hk.
    - revert Hr. unfold process_start. case_bool_decide; [apply Hk|]. simpl.
      intros [[<- <-]|[_ Hr]]%lookup_insert_Some; [done|by apply Hk]. }
  unfold keyed. apply H. clear H.
  destruct e; simpl in Hc; unfold store_call, result_call, read_call, token_call, process_complete,
    process_fail, process_kill in Hc; naive_solver eauto 10.
Qed.

Lemma call_guar a X (e : processE X) s s' x :
  may_answer X e s s' x -> others_kept (actor_key a) s s' ->
  (result_present s (actor_key a) -> result_present s' (actor_key a)) ->
  match a with Task _ => True | Killer k => only_killed k s s' end -> proc_guar a s s'.
Proof.
  intros Hc H1 H2 H3. split; [by eapply call_keyed|]. split; [|done].
  intros k r Hr. by eapply call_evolves.
Qed.

(** A call that leaves records and results alone. *)
Lemma guar_same a X (e : processE X) s s' x :
  may_answer X e s s' x -> ps_records s' = ps_records s -> ps_results s' = ps_results s ->
  proc_guar a s s'.
Proof.
  intros Hc H1 H2. eapply call_guar; [exact Hc|..].
  - intros k' _. by rewrite H1, H2.
  - unfold result_present. by rewrite H1, H2.
  - destruct a; [done|]. unfold only_killed. rewrite H1, H2. split; by left.
Qed.

(** The process of a task until the task settles it. *)
Definition unsettled (k : ProcessKey) (s : pstate) : Prop :=
  forall r, ps_records s !! k = Some r -> pr_status r = PsRunning \/ pr_status r = PsKilled.

Lemma unsettled_stays k s s' : proc_rely (Task k) s s' -> unsettled k s -> unsettled k s'.
Proof. intros (_ & _ & Ho & _) Hu r [Hr|Hr]%Ho; [by apply Hu|by right]. Qed.

Lemma guar_result k s s' X (e : processE X) x scope id st out kind :
  may_answer X e s s' x -> k = ProcessKey_new scope id ->
  s' = mk_pstate (ps_records s) (store_result (ps_results s) scope id st out kind).1 (ps_tokens s) ->
  unsettled k s -> proc_guar (Task k) s s'.
Proof.
  intros Hc -> -> Hu. eapply call_guar; [exact Hc|..|done]; simpl.
  - intros k' Hne. simpl. by rewrite lookup_insert_ne.
  - intros _ r Hr Ht. simpl in Hr. destruct (Hu _ Hr) as [H|H]; rewrite H in Ht; by destruct Ht.
Qed.

Lemma update_status_same records scope id st kind k' :
  k' <> ProcessKey_new scope id ->
  (update_status records scope id st kind).1 !! k' = records !! k'.
Proof.
  intros Hne. unfold update_status. destruct (records !! ProcessKey_new scope id); [|done].
  destruct (ensure_status_transition _ _ _); [|done]. simpl. by rewrite lookup_insert_ne.
Qed.

Lemma update_status_own records scope id st kind r' :
  (update_status records scope id st kind).1 !! ProcessKey_new scope id = Some r' ->
  records !! ProcessKey_new scope id = Some r' \/ pr_status r' = st.
Proof.
  unfold update_status. destruct (records !! ProcessKey_new scope id) as [q|] eqn:Hq;
    [|simpl; rewrite Hq; by left].
  destruct (ensure_status_transition _ _ _); [|simpl; rewrite Hq; by left].
  simpl. look. intros [= <-]. by right.
Qed.

Lemma guar_status k s s' X (e : processE X) x scope id st kind :
  may_answer X e s s' x -> k = ProcessKey_new scope id ->
  s' = mk_pstate (update_status (ps_records s) scope id st kind).1 (ps_results s) (ps_tokens s) ->
  is_killed s k \/ (exists res, ps_results s !! k = Some res /\ prr_status res = st) ->
  proc_guar (Task k) s s'.
Proof.
  intros Hc -> -> Hst. eapply call_guar; [exact Hc|..|done]; cbn [actor_key].
  - intros k' Hne. simpl. by rewrite update_status_same.
  - intros Hp r Hr Ht. cbn [ps_records ps_results] in *.
    destruct (update_status_own _ _ _ _ _ _ Hr) as [Hr0|Hr0]; [by apply Hp|].
    destruct Hst as [(q & Hq & Hk)|(res & Hres & Hs)]; [|exists res; by rewrite Hs].
    unfold update_status in Hr. rewrite Hq in Hr. unfold ensure_status_transition in Hr.
    rewrite bool_decide_eq_false_2 in Hr by by rewrite Hk. simpl in Hr. rewrite Hq in Hr.
    injection Hr as <-. rewrite Hk in Ht. by destruct Ht.
Qed.

Abbreviation actor_rg a p s := (rg (R0 := unit) may_answer proc_rely proc_guar a p (fun _ _ => True) s).

Lemma rg_quiet_call a {X} (e : processE X) f s :
  (forall s s' x, may_answer X e s s' x -> ps_records s' = ps_records s /\ ps_results s' = ps_results s) ->
  (forall x s', actor_rg a (f x) s') -> actor_rg a (pbind (trigger e) f) s.
Proof.
  intros He Hf s1 s2 x _ Hc. destruct (He _ _ _ Hc). split; [by eapply guar_same | apply Hf].
Qed.

Lemma report_rg a parts scope id stage error f s :
  (forall s', actor_rg a (f tt) s') -> actor_rg a (pbind (report parts scope id stage error) f) s.
Proof.
  intros Hf. unfold report. destruct (has_error_handler parts); [|apply Hf].
  apply rg_quiet_call; [by intros ? ? ? ->|]. intros []. apply Hf.
Qed.

(** Settling: the result record first, then the status that it matches. *)
Lemma settle_rg k parts scope id st out kind (rc : processE (result ProcessResultRecord ProcessError))
    rstage (sc : processE (result ProcessRecord ProcessError)) sstage f s :
  has_result_store parts = true -> k = ProcessKey_new scope id ->
  (forall s s' x, may_answer _ rc s s' x -> result_call s s' x (store_result (ps_results s) scope id st out kind)) ->
  (forall s s' x, may_answer _ sc s s' x -> store_call s s' x (update_status (ps_records s) scope id st kind)) ->
  unsettled k s -> (forall s', actor_rg (Task k) (f tt) s') ->
  actor_rg (Task k) (pbind (settle parts scope id rc rstage sc sstage) f) s.
Proof.
  intros Hparts Hk Hrc Hsc Hu Hf. unfold settle, persist_result. rewrite Hparts.
  intros s1 s2 x Hr Hc. pose proof (unsettled_stays _ _ _ Hr Hu) as Hu1.
  assert (proc_guar (Task k) s1 s2) as Hg.
  { destruct (Hrc _ _ _ Hc) as [[H _]|[H _]]; [by eapply guar_result|].
    eapply guar_same; [exact Hc|by rewrite H..]. }
  split; [done|]. destruct x as [res|err].
  2:{ unfold report. destruct (has_error_handler parts); [|apply Hf].
      intros s3 s4 y _ H. split; [eapply guar_same; [exact H|by rewrite H..]|apply Hf]. }
  destruct (Hrc _ _ _ Hc) as [[H _]|[_ H]]; [|done].
  intros s3 s4 y (_ & _ & Hrec & Hres) Hc2. split.
  - destruct (Hsc _ _ _ Hc2) as [[H2 _]|[H2 _]].
    + eapply guar_status; [exact Hc2|done|exact H2|].
      destruct Hres as [Hres|Hres]; [right|by left]. rewrite Hres, H. simpl. subst k. look. by eexists.
    + eapply guar_same; [exact Hc2|by rewrite H2..].
  - destruct y; [apply Hf|by apply report_rg].
Qed.

Lemma unregister_rg a parts scope id s :
  actor_rg a (if has_cancellation_registry parts then trigger (TokenUnregister scope id) else Ret tt) s.
Proof.
  destruct (has_cancellation_registry parts); [|done].
  intros s1 s2 x _ H. split; [|done]. eapply guar_same; [exact H|by rewrite H..].
Qed.

Lemma background_task_rg k parts request s :
  has_result_store parts = true -> k = ProcessKey_new (per_scope request) (per_process_id request) ->
  unsettled k s -> actor_rg (Task k) (background_task parts request) s.
Proof.
  intros Hparts Hk Hu. pose proof (unregister_rg (Task k) parts (per_scope request)
    (per_process_id request)) as Hun.
  intros s1 s2 outcome Hr Hc. split; [eapply guar_same; [exact Hc|by rewrite Hc..]|].
  apply (unsettled_stays _ _ _ Hr) in Hu. rewrite <- Hc in Hu. clear s s1 Hr Hc.
  intros s s1 x Hr [-> Hx]. apply (unsettled_stays _ _ _ Hr) in Hu.
  split; [by eapply (guar_same _ _ (PGet _ _))|]. destruct x as [[record|]|error]; simpl.
  - case_bool_decide as Hrun; [|apply Hun].
    destruct outcome as [[output|kind]|]; (eapply settle_rg; [done|done|..]; by eauto).
  - apply Hun.
  - unfold report. destruct (has_error_handler parts); [|apply Hun].
    intros s3 s4 y _ H. split; [eapply guar_same; [exact H|by rewrite H..]|apply Hun].
Qed.

Lemma spawn_and_run_rg parts start s :
  has_result_store parts = true -> actor_rg (Task (start_key start)) (spawn_and_run parts start) s.
Proof.
  intros Hparts s1 s2 x _ Hc. split.
  - pose proof Hc as [[H _]|[H _]]; [|eapply guar_same; [exact Hc|by rewrite H..]].
    eapply call_guar; [exact Hc|..|done]; cbn [actor_key]; rewrite H; clear Hc H; simpl;
      unfold process_start; case_bool_decide as Hex; simpl; try done.
    + intros k' Hne. simpl. by rewrite lookup_insert_ne.
    + intros Hp r Hr Ht. simpl in Hr. rewrite lookup_insert_eq in Hr. injection Hr as <-.
      simpl in Ht. by destruct Ht.
  - destruct x as [record|]; [|done]. destruct Hc as [[H [Hx|]]|[_ H]]; [|done..].
    unfold process_start in H, Hx. case_bool_decide as Hex; simpl in H, Hx; [done|].
    injection Hx as ->. assert (unsettled (start_key start) s2) as Hu.
    { intros r. rewrite H. simpl. rewrite lookup_insert_eq. intros [= <-]. by left. }
    destruct (has_cancellation_registry parts); intros s3 s4 y Hr Hc;
      (split; [eapply guar_same; [exact Hc|by destruct Hc as [-> _]..]|]);
      apply background_task_rg; [done|done| |done|done|];
      apply (unsettled_stays _ _ _ Hr) in Hu; by destruct Hc as [-> _].
Qed.
(** *** A host that kills a process *)

Lemma update_status_ok records scope id st kind r :
  (update_status records scope id st kind).2 = Ok r ->
  (update_status records scope id st kind).1 !! ProcessKey_new scope id = Some r /\
  pr_status r = st.
Proof.
  unfold update_status. destruct (records !! ProcessKey_new scope id) as [q|]; [|done].
  destruct (ensure_status_transition _ _ _); [|done]. simpl. look. by intros [= <-].
Qed.

Lemma guar_kill scope id s s' x :
  may_answer _ (PKill scope id) s s' x -> proc_guar (Killer (ProcessKey_new scope id)) s s'.
Proof.
  intros Hc. pose proof Hc as [[H _]|[H _]]; [|eapply guar_same; [exact Hc|by rewrite H..]].
  eapply call_guar; [exact Hc|..]; cbn [actor_key]; rewrite H; unfold process_kill; simpl.
  - intros k' Hne. simpl. by rewrite update_status_same.
  - intros Hp r Hr Ht. simpl in Hr. destruct (update_status_own _ _ _ _ _ _ Hr) as [Hr0|Hr0].
    + by apply Hp.
    + rewrite Hr0 in Ht. by destruct Ht.
  - split; [|by left]. intros r' Hr. simpl in Hr. by apply update_status_own in Hr.
Qed.

Lemma guar_kill_result k s s' x scope id :
  k = ProcessKey_new scope id -> may_answer _ (RKill scope id) s s' x -> is_killed s k ->
  proc_guar (Killer k) s s'.
Proof.
  intros -> Hc Hk. pose proof Hc as [[H _]|[H _]]; [|eapply guar_same; [exact Hc|by rewrite H..]].
  eapply call_guar; [exact Hc|..]; cbn [actor_key]; rewrite H; simpl.
  - intros k' Hne. simpl. by rewrite lookup_insert_ne.
  - destruct Hk as (q & Hq & Hs). intros _ r Hr Ht. simpl in Hr. simplify_eq.
    rewrite Hs in Ht. by destruct Ht.
  - split; [by left|by right].
Qed.

(** The side effects of a kill: only of a process that is killed. *)
Lemma kill_side_effects_rg parts record s :
  let k := ProcessKey_new (pr_scope record) (pr_process_id record) in
  is_killed s k ->
  rg may_answer proc_rely proc_guar (Killer k) (record_kill_side_effects parts record)
    (fun _ _ => True) s.
Proof.
  intros k Hk. unfold record_kill_side_effects.
  assert (forall s', is_killed s' k -> rg may_answer proc_rely proc_guar (Killer k)
    (if has_result_store parts then
       let!? _ := trigger (RKill (pr_scope record) (pr_process_id record)) in Ret (Ok tt)
     else Ret (Ok tt) : prog processE (result unit ProcessError)) (fun _ _ => True) s') as Hkill.
  { intros s' Hk'. destruct (has_result_store parts); [|done].
    intros s1 s2 x (_ & He & _) Hc. apply (killed_stays _ _ _ He) in Hk'.
    split; [by eapply guar_kill_result|]. by destruct x. }
  destruct (has_cancellation_registry parts); [|by apply Hkill].
  intros s1 s2 x (_ & He & _) Hc. apply (killed_stays _ _ _ He) in Hk.
  assert (ps_records s2 = ps_records s1 /\ ps_results s2 = ps_results s1) as [H1 H2]
    by by destruct Hc as [-> _].
  split; [by eapply guar_same|]. apply Hkill. unfold is_killed. by rewrite H1.
Qed.

Lemma host_kill_rg parts scope id s :
  keyed s ->
  actor_rg (Killer (ProcessKey_new scope id)) (do! host_kill parts scope id in Ret tt) s.
Proof.
  intros Hkey. apply rg_bind. set (k := ProcessKey_new scope id).
  assert (forall record s' (f : result unit ProcessError ->
      prog processE (result ProcessRecord ProcessError)), keyed s' -> ps_records s' !! k = Some record ->
    pr_status record = PsKilled ->
    (forall x s'', rg may_answer proc_rely proc_guar (Killer k) (f x) (fun _ _ => True) s'') ->
    rg may_answer proc_rely proc_guar (Killer k)
      (pbind (record_kill_side_effects parts record) f)
      (fun _ _ => True) s') as Hside.
  { intros record s' f Hks Hr Hst Hf. apply rg_bind. pose proof (Hks _ _ Hr) as Hk.
    eapply rg_mono; [intros x s'' _; apply Hf|]. rewrite <- Hk.
    apply kill_side_effects_rg. exists record. by rewrite Hk. }
  intros s1 s2 x (Hks & _) Hc. apply Hks in Hkey. split; [by eapply guar_kill|].
  pose proof (call_keyed _ _ _ _ _ Hc Hkey) as Hkey2. destruct x as [record|error].
  - destruct Hc as [[H [Hx|]]|[_ H]]; [|done..].
    symmetry in Hx. apply update_status_ok in Hx as [Hrec Hst].
    apply Hside; [done| |done|by intros []]. by rewrite H.
  - intros s3 s4 y (Hks2 & _) [-> Hy]. apply Hks2 in Hkey2.
    split; [by eapply (guar_same _ _ (PGet scope id)); [split; [done|exact Hy]|..]|].
    destruct y as [[record|]|]; [|done..].
    cbn [pbind]. destruct (bool_decide (pr_status record = PsKilled)) eqn:Hst; [|done].
    apply bool_decide_eq_true in Hst.
    destruct Hy as [[= Hget]|]; [|done].
    apply Hside; [done|by symmetry|done|by intros []].
Qed.

(** C36: with result stores configured, any number of background processes are spawned
    and run to their end, and any hosts kill any of them at any time, all interleaved
    call by call, and any store call may fail, with or without having done its work.
    Then at every moment a process whose record says completed or failed has a result
    record with that same status: the manager stores the result before the status,
    no other task touches it and a kill touches only what is still running.  (A
    killed process need not have a matching result.)  Processes have identifiers of
    their own; the property and the key of every record are assumed of the records
    the stores hold at the start, as for empty stores.  The stores are the in-memory
    ones. *)
Theorem task_result_before_status s0 s ps k r :
  results_first s0 -> rtc (pool_step may_answer may_run) (s0, []) (s, ps) ->
  ps_records s !! k = Some r -> pr_status r = PsCompleted \/ pr_status r = PsFailed ->
  exists res, ps_results s !! k = Some res /\ prr_status res = pr_status r.
Proof.
  intros H0 Hreach.
  assert (pool_ok may_answer proc_rely proc_guar (fun _ _ _ => True) results_first
            (fun a b => match a, b with Task k, Task k' => k <> k' | _, _ => True end) (s, ps))
    as ((_ & HI) & _); [|by apply HI].
  eapply (pool_reach_ok may_answer proc_rely proc_guar (fun _ _ _ => True)); [..|exact Hreach]; try done.
  - apply rely_refl.
  - apply rely_trans.
  - intros a s1 s2 (Hk & _ & Ho & Hp & _) [HK HI]. split; [by apply Hk|]. intros k'.
    destruct (decide (k' = actor_key a)) as [->|Hne]; [by apply Hp|].
    unfold result_present. destruct (Ho k' Hne) as [-> ->]. apply HI.
  - intros a b s1 s2 Hab _ (Hk & He & Ho & _ & Hm). split; [done|]. split; [done|].
    destruct b as [k'|k']; [|done]. destruct (decide (k' = actor_key a)) as [->|Hne].
    + by destruct a.
    + destruct (Ho k' Hne) as [H1 H2]. unfold only_killed. rewrite H1, H2. split; by left.
  - intros a p l s1 Hm [HK _]. destruct a as [k'|k'].
    + destruct Hm as (parts & start & Hparts & -> & -> & Hl).
      split; [by apply spawn_and_run_rg|]. apply Forall_forall.
      intros [b|b] Hb; [|done].
      assert (start_key start <> b) by (intros Heq; apply Hl; by rewrite Heq). by split.
    + destruct Hm as (parts & scope & id & -> & ->). split; [by apply host_kill_rg|].
      apply Forall_forall. by intros [] _.
Qed.
End Tasks.

(** *** Awaiting *)

(** The answers of the store in a trace are records at a terminal status. *)
Definition sees_terminal (t : list (event processE)) : Prop :=
  Forall (fun ev => match ev with
    | @Ev _ _ e x =>
        match e in processE X return X -> Prop with
        | PGet _ _ => fun x => exists r, x = Ok (Some r) /\ ProcessStatus_is_terminal (pr_status r) = true
        | _ => fun _ => True
        end x
    end) t.

(** Once the store reports a terminal status, [await_result] returns after at
    most two rounds (the result record or an error), and [await_process] returns
    in the first round with a terminal status. *)
Theorem await_returns_after_terminal parts scope id t r t' r' :
  traces (await_result parts 2 scope id false) t r -> sees_terminal t ->
  traces (await_process 1 scope id) t' r' -> sees_terminal t' ->
  (exists answer, r = Some answer) /\
  (exists px, r' = Some (Ok px) /\ ProcessStatus_is_terminal (px_status px) = true).
Proof.
  intros Ht Hs Ht' Hs'. split.
  - cbn [await_result] in Ht. unfold await_result_round, host_result in Ht.
    destruct (has_result_store parts); [|destruct Ht as [_ ->]; by eexists]. cbn in Ht.
    destruct Ht as (x & t1 & -> & Ht). apply Forall_cons in Hs as [_ Hs].
    destruct x as [[rec|]|e]; [destruct Ht as [_ ->]; by eexists| |destruct Ht as [_ ->]; by eexists].
    destruct Ht as (y & t2 & -> & Ht). apply Forall_cons in Hs as [(r0 & -> & Hterm) Hs].
    rewrite Hterm in Ht. destruct Ht as (z & t3 & -> & Ht). apply Forall_cons in Hs as [_ Hs].
    destruct Ht as (x2 & t4 & -> & Ht). apply Forall_cons in Hs as [_ Hs].
    destruct x2 as [[rec|]|e]; [destruct Ht as [_ ->]; by eexists| |destruct Ht as [_ ->]; by eexists].
    destruct Ht as (y2 & t5 & -> & Ht). apply Forall_cons in Hs as [(r1 & -> & Hterm1) Hs].
    rewrite Hterm1 in Ht. destruct Ht as [_ ->]. by eexists.
  - destruct Ht' as (y & t2 & -> & Ht'). apply Forall_cons in Hs' as [(r0 & -> & Hterm) _].
    cbn in Ht'. rewrite Hterm in Ht'. destruct Ht' as [_ ->]. eexists. by split.
Qed.

(** *** The race between a kill and a finishing task *)

Definition result_store_only : process_parts := mk_process_parts false true false.

Definition request_of (start : ProcessStart) : ProcessExecutionRequest :=
  mk_ProcessExecutionRequest (pst_process_id start) (pst_invocation_id start) (pst_scope start)
    (pst_extension_id start) (pst_capability_id start) (pst_runtime start)
    (pst_estimated_resources start) (pst_mounts start) None (pst_input start) 0%nat.

(** A running process with its task, and a host that kills it. *)
Definition kill_race (start : ProcessStart) : pstate * list (nat * prog processE unit) :=
  (mk_pstate {[ start_key start := record_of_start start ]} ∅ (mk_ProcessCancellationRegistry ∅ ∅ 0%nat),
   [(0%nat, background_task result_store_only (request_of start));
    (1%nat, do! host_kill result_store_only (pst_scope start) (pst_process_id start) in Ret tt)]).

(** The task probes the status while the process runs, the kill settles status and
    result, and then the task stores its late result over the kill's: the process
    ends killed with a completed result.  The comment at the probe says that it
    prevents this. *)
Theorem late_result_overwrites_kill start output :
  exists s r res,
    rtc (pool_step may_answer (fun _ _ _ _ => False)) (kill_race start)
        (s, [(0%nat, Ret tt); (1%nat, Ret tt)]) /\
    ps_records s !! start_key start = Some r /\ pr_status r = PsKilled /\
    ps_results s !! start_key start = Some res /\ prr_status res = PsCompleted /\
    prr_output res = Some output.
Proof.
  set (k := start_key start). set (r0 := record_of_start start).
  set (rk := with_status PsKilled None r0).
  set (tok := mk_ProcessCancellationRegistry ∅ ∅ 0%nat).
  set (resk := mk_ProcessResultRecord (pst_process_id start) (pst_scope start) PsKilled None None None).
  set (resc := mk_ProcessResultRecord (pst_process_id start) (pst_scope start) PsCompleted (Some output) None None).
  assert (update_status ({[ k := r0 ]} : process_records) (pst_scope start) (pst_process_id start) PsKilled None
          = (<[ k := rk ]> {[ k := r0 ]}, Ok rk)) as Hkill.
  { unfold update_status. change (ProcessKey_new (pst_scope start) (pst_process_id start)) with k.
    by rewrite lookup_singleton_eq. }
  assert (update_status (<[ k := rk ]> ({[ k := r0 ]} : process_records)) (pst_scope start) (pst_process_id start)
            PsCompleted None
          = (<[ k := rk ]> {[ k := r0 ]}, Err (PInvalidTransition (pst_process_id start) PsKilled PsCompleted))) as Hdone.
  { unfold update_status. change (ProcessKey_new (pst_scope start) (pst_process_id start)) with k.
    by rewrite lookup_insert_eq. }
  exists (mk_pstate (<[ k := rk ]> {[ k := r0 ]}) (<[ k := resc ]> (<[ k := resk ]> ∅)) tok), rk, resc.
  split; [|simpl; rewrite !lookup_insert_eq; done].
  eapply rtc_l; [eapply (ps_call _ _ _ _ _ 0%nat _ _ _ _ (Some (Ok output))); done|].
  eapply rtc_l.
  { eapply (ps_call _ _ _ _ _ 0%nat _ _ _ _ (Ok (Some r0))); [done|]. split; [done|]. left. f_equal.
    unfold process_get. simpl. by rewrite lookup_singleton_eq. }
  eapply rtc_l.
  { eapply (ps_call _ _ _ (mk_pstate (<[ k := rk ]> {[ k := r0 ]}) ∅ tok) _ 1%nat _ _ _ _ (Ok rk)); [done|].
    left. split; [exact (f_equal (fun e => mk_pstate e.1 ∅ tok) (eq_sym Hkill)) | exact (or_introl (f_equal snd (eq_sym Hkill)))]. }
  eapply rtc_l; [eapply (ps_call _ _ _ _ _ 1%nat _ _ _ _ (Ok resk)); [done|left; split; [done|by left]]|].
  eapply rtc_l; [eapply (ps_call _ _ _ _ _ 0%nat _ _ _ _ (Ok resc)); [done|left; split; [done|by left]]|].
  eapply rtc_l.
  { eapply (ps_call _ _ _ (mk_pstate (<[ k := rk ]> {[ k := r0 ]}) (<[ k := resc ]> (<[ k := resk ]> ∅)) tok) _ 0%nat
      _ _ _ _ (Err (PInvalidTransition (pst_process_id start) PsKilled PsCompleted))); [done|].
    left. split; [exact (f_equal (fun e => mk_pstate e.1 (<[ k := resc ]> (<[ k := resk ]> ∅)) tok) (eq_sym Hdone))
                 | exact (or_introl (f_equal snd (eq_sym Hdone)))]. }
  apply rtc_refl.
Qed.
End Processes.

(** ** Concrete instances *)

Definition example_start : ProcessStart :=
  mk_ProcessStart (from_uuid 5) None (from_uuid 7) (example_scope None None) (from_trusted "demo")
    (mk_CapabilityId "demo.run") RuntimeMcp (mk_CapabilitySet []) (mk_MountView [])
    ResourceEstimate_default None "{}".

Definition example_running : pstate :=
  mk_pstate {[ start_key example_start := record_of_start example_start ]} ∅
    (mk_ProcessCancellationRegistry ∅ ∅ 0%nat).

Definition example_killed : pstate :=
  mk_pstate (process_kill (ps_records example_running) (pst_scope example_start) (from_uuid 5)).1 ∅
    (mk_ProcessCancellationRegistry ∅ ∅ 0%nat).

Lemma process_status_final_witness :
  exists r', ps_records example_killed !! start_key example_start = Some r' /\
    evolves (record_of_start example_start) r'.
Proof.
  assert (rtc any_call example_running example_killed) as Hr.
  { apply rtc_once. exists _, (PKill (pst_scope example_start) (from_uuid 5)).
    exists (process_kill (ps_records example_running) (pst_scope example_start) (from_uuid 5)).2.
    left. split; [|left]; reflexivity. }
  destruct (process_status_final example_running example_killed (start_key example_start)
              (record_of_start example_start) Hr (lookup_singleton_eq _ _)) as [(r' & H1 & H2 & _) _].
  exists r'. split; [exact H1 | exact H2].
Defined.

(** A process is spawned and its task completes, against stores that answer; then a
    host sets out to kill it. *)
Definition empty_stores : pstate :=
  mk_pstate ∅ ∅ (mk_ProcessCancellationRegistry ∅ ∅ 0%nat).

Definition example_done : ProcessRecord := with_status PsCompleted None (record_of_start example_start).

Definition example_result : ProcessResultRecord :=
  mk_ProcessResultRecord (from_uuid 5) (pst_scope example_start) PsCompleted (Some "1") None None.

Definition example_settled : pstate :=
  mk_pstate (<[ start_key example_start := example_done ]> {[ start_key example_start := record_of_start example_start ]})
    {[ start_key example_start := example_result ]} (mk_ProcessCancellationRegistry ∅ ∅ 1%nat).

Definition example_calls : list (event processE) :=
  let scope := pst_scope example_start in let id := from_uuid 5 in
  [Ev (PStart example_start) (Ok (record_of_start example_start)); Ev TokenNew 0%nat;
   Ev (Execute (request_of example_start)) (Some (Ok "1"));
   Ev (PGet scope id) (Ok (Some (record_of_start example_start)));
   Ev (RComplete scope id "1") (Ok example_result); Ev (PComplete scope id) (Ok example_done)].

Lemma example_runs :
  rtc (pool_step may_answer may_run) (empty_stores, [])
    (example_settled, [(Task (start_key example_start), Ret tt);
       (Killer (start_key example_start),
        do! host_kill result_store_only (pst_scope example_start) (from_uuid 5) in Ret tt)]).
Proof.
  eapply rtc_l.
  { apply (ps_start _ _ _ _ (Task (start_key example_start)) (spawn_and_run result_store_only example_start)).
    exists result_store_only, example_start. split_and!; try done. apply not_elem_of_nil. }
  etrans.
  { eapply (solo_run may_answer may_run 0 _ _ example_calls tt _ example_settled); [done|..].
    - do 6 (eexists _, _; split; [reflexivity|]). by split.
    - repeat (eexists; split; [first [by left; split; [|by left] | by split; [|by left] | by split | done]|]).
      done. }
  apply rtc_once. apply (ps_start _ _ _ [_]). by exists result_store_only, (pst_scope example_start), (from_uuid 5).
Qed.

Lemma task_result_before_status_witness :
  exists res, ps_results example_settled !! start_key example_start = Some res /\
    prr_status res = PsCompleted.
Proof.
  assert (results_first empty_stores) as H0 by (split; [intros k r|intros k r]; discriminate).
  exact (task_result_before_status _ _ _ _ example_done H0 example_runs (lookup_insert_eq _ _ _)
           (or_introl eq_refl)).
Defined.

Lemma await_returns_after_terminal_witness :
  exists answer, Some (Err (ProcessResultUnavailable (from_uuid 5)) : result ProcessResultRecord ProcessError)
                 = Some answer.
Proof.
  set (done_record := with_status PsCompleted None (record_of_start example_start)).
  destruct (await_returns_after_terminal result_store_only (pst_scope example_start) (from_uuid 5)
    [Ev (RGet (pst_scope example_start) (from_uuid 5)) (Ok None);
     Ev (PGet (pst_scope example_start) (from_uuid 5)) (Ok (Some done_record));
     Ev Sleep tt;
     Ev (RGet (pst_scope example_start) (from_uuid 5)) (Ok None);
     Ev (PGet (pst_scope example_start) (from_uuid 5)) (Ok (Some done_record))]
    (Some (Err (ProcessResultUnavailable (from_uuid 5))))
    [Ev (PGet (pst_scope example_start) (from_uuid 5)) (Ok (Some done_record))]
    (Some (Ok (ProcessExit_from_terminal done_record)))) as [H _].
  - exists (Ok None). eexists. split; [reflexivity|]. exists (Ok (Some done_record)). eexists.
    split; [reflexivity|]. exists tt. eexists. split; [reflexivity|]. exists (Ok None). eexists.
    split; [reflexivity|]. exists (Ok (Some done_record)). eexists. split; [reflexivity|]. by split.
  - repeat constructor; by exists done_record.
  - exists (Ok (Some done_record)). eexists. split; [reflexivity|]. by split.
  - repeat constructor; by exists done_record.
  - exact H.
Defined.
