(* ===== verification/CapabilityHost.v ===== *)
(** * The capability host

    [crates/brassclaw_capabilities/src/{requests,obligations,error,helpers,host}.rs]:
    the one place where a capability is authorized, its obligations prepared, and
    its side effect (a dispatch or a process spawn) started; and where an approved
    invocation is resumed under a lease.  Each method is an interactive program
    over the calls of [hostE]; the stores, the authorizer, the obligation handler,
    the dispatcher and the process manager answer them.

    [invoke_json] and [spawn_json] share their first half in the source text, and so
    do [resume_json] and [resume_spawn_json]; here the shared text is one definition
    ([authorize_and_admit], [resume_claim]) with the action kind as its argument. *)

From S2P Require Import Prelude Effects External HostIds Paths HostTypes Obligations Trust.
From S2P Require Import Leases Authorization RunState Fingerprint RuntimePolicy Budget Events.
From S2P Require Import Extensions Dispatch Processes.
Open Scope Z_scope.

(** ** [obligations.rs] *)

Inductive CapabilityObligationPhase : Type := PhaseInvoke | PhaseResume | PhaseSpawn.

#[export] Instance CapabilityObligationPhase_eq_dec : EqDecision CapabilityObligationPhase.
Proof. solve_decision. Defined.

Inductive CapabilityObligationFailureKind : Type :=
  OfAudit | OfMount | OfNetwork | OfOutput | OfResource | OfSecret.

(** ** [helpers.rs]: kinds *)

Inductive CapabilityActionKind : Type := KindDispatch | KindSpawn.

Inductive CapabilityRunStateTransition : Type :=
| TransFail (error_kind : string)
| TransBlockAuth (error_kind : string).

Definition transition_error_kind (self : CapabilityRunStateTransition) : string :=
  match self with TransFail k | TransBlockAuth k => k end.

Inductive ResumeContextMismatchKind : Type :=
  MismatchCapabilityId | MismatchApprovalRequestId | MismatchCapabilityAndApprovalRequestId.

Section Host.
Context `{D : Decimal} `{FC : @FingerprintCrates D}.

#[local] Existing Instance value_json | 0.

(** ** [requests.rs] *)

Record CapabilityInvocationRequest : Type := mk_CapabilityInvocationRequest {
  cir_context : ExecutionContext;
  cir_capability_id : CapabilityId;
  cir_estimate : ResourceEstimate;
  cir_input : Value;
  cir_trust_decision : TrustDecision }.

Record CapabilityResumeRequest : Type := mk_CapabilityResumeRequest {
  crr_context : ExecutionContext;
  crr_approval_request_id : ApprovalRequestId;
  crr_capability_id : CapabilityId;
  crr_estimate : ResourceEstimate;
  crr_input : Value;
  crr_trust_decision : TrustDecision }.

Record CapabilitySpawnRequest : Type := mk_CapabilitySpawnRequest {
  csr_context : ExecutionContext;
  csr_capability_id : CapabilityId;
  csr_estimate : ResourceEstimate;
  csr_input : Value;
  csr_trust_decision : TrustDecision }.

Record CapabilityInvocationResult : Type := mk_CapabilityInvocationResult {
  cires_dispatch : CapabilityDispatchResult; cires_policy_revision : option Z }.
Record CapabilitySpawnResult : Type := mk_CapabilitySpawnResult {
  csres_process : ProcessRecord; csres_policy_revision : option Z }.

(** ** [obligations.rs]: the handler's requests *)

Record CapabilityObligationRequest : Type := mk_CapabilityObligationRequest {
  cor_phase : CapabilityObligationPhase;
  cor_context : ExecutionContext;
  cor_capability_id : CapabilityId;
  cor_estimate : ResourceEstimate;
  cor_obligations : list Obligation }.

Record CapabilityObligationOutcome : Type := mk_CapabilityObligationOutcome {
  coo_mounts : option MountView; coo_resource_reservation : option ResourceReservation }.

Definition CapabilityObligationOutcome_default : CapabilityObligationOutcome :=
  mk_CapabilityObligationOutcome None None.

Inductive CapabilityObligationError : Type :=
| ObUnsupported (obligations : list Obligation)
| ObAuthRequired (credential_requirements : list RuntimeCredentialAuthRequirement)
| ObFailed (kind : CapabilityObligationFailureKind).

Definition is_post_dispatch (o : Obligation) : bool :=
  match o with
  | AuditAfter | RedactOutput | EnforceResourceCeiling _ | EnforceOutputLimit _ => true
  | _ => false
  end.

Definition post_dispatch_obligations (obligations : list Obligation) : list Obligation :=
  List.filter is_post_dispatch obligations.

(** ** [error.rs] *)

Inductive CapabilityInvocationError : Type :=
| CiUnknownCapability (capability : CapabilityId)
| CiAuthorizationDenied (capability : CapabilityId) (reason : DenyReason)
| CiUnsupportedObligations (capability : CapabilityId) (obligations : list Obligation)
| CiObligationFailed (capability : CapabilityId) (kind : CapabilityObligationFailureKind)
| CiAuthorizationRequiresApproval (capability : CapabilityId)
| CiAuthorizationRequiresAuth (capability : CapabilityId) (boundary : AuthDispatchBoundary)
    (required_secrets : list SecretHandle)
    (credential_requirements : list RuntimeCredentialAuthRequirement)
| CiInvocationFingerprint (capability : CapabilityId) (source : HostApiError)
| CiApprovalRequestMismatch (capability : CapabilityId) (field : string)
| CiApprovalFingerprintMismatch (capability : CapabilityId)
| CiApprovalNotApproved (capability : CapabilityId) (status : ApprovalStatus)
| CiApprovalStoreMissing (capability : CapabilityId) (store : string)
| CiApprovalLeaseMissing (capability : CapabilityId)
| CiResumeStoreMissing (capability : CapabilityId) (store : string)
| CiProcessManagerMissing (capability : CapabilityId)
| CiResumeNotBlocked (capability : CapabilityId) (status : RunStatus)
| CiResumeContextMismatch (capability : CapabilityId) (kind : ResumeContextMismatchKind)
| CiLease (error : CapabilityLeaseError)
| CiRunState (error : RunStateError)
| CiProcess (error : ProcessError)
| CiDispatch (kind : DispatchFailureKind) (safe_summary : option string).

Definition dispatch_error_safe_summary (error : DispatchError) : option string :=
  match error with FirstPartyFailed _ safe_summary => safe_summary | _ => None end.

(** [From<DispatchError>]. *)
Definition of_dispatch_error (error : DispatchError) : CapabilityInvocationError :=
  match error with
  | DispatchAuthRequired capability required_secrets credential_requirements =>
      CiAuthorizationRequiresAuth capability DispatchAttempted required_secrets
        credential_requirements
  | other => CiDispatch (failure_kind other) (dispatch_error_safe_summary other)
  end.

(** ** [helpers.rs] *)

Definition run_state_transition (self : CapabilityInvocationError) :
    option CapabilityRunStateTransition :=
  match self with
  | CiUnsupportedObligations _ _ => Some (TransFail "UnsupportedObligations")
  | CiObligationFailed _ _ => Some (TransFail "ObligationFailed")
  | CiAuthorizationRequiresAuth _ BeforeDispatch _ _ => Some (TransBlockAuth "AuthRequired")
  | CiAuthorizationRequiresAuth _ _ _ _ => Some (TransFail "AuthOutcomeUnresolved")
  | CiDispatch _ _ => None
  | _ => Some (TransFail "Obligation")
  end.

Definition obligation_invocation_error_kind (error : CapabilityInvocationError) : string :=
  match run_state_transition error with Some t => transition_error_kind t | None => "Dispatch" end.

Definition invocation_fingerprint_for_kind (kind : CapabilityActionKind) (scope : ResourceScope)
    (capability_id : CapabilityId) (estimate : ResourceEstimate) (input : Value) :
    result InvocationFingerprint HostApiError :=
  match kind with
  | KindDispatch => for_dispatch scope capability_id estimate input
  | KindSpawn => for_spawn scope capability_id estimate input
  end.

Definition validate_approval_request_matches_invocation (approval : ApprovalRequest)
    (context : ExecutionContext) (capability_id : CapabilityId) (estimate : ResourceEstimate)
    (expected_action : CapabilityActionKind) : result unit CapabilityInvocationError :=
  let action_matches :=
    match expected_action, ar_action approval with
    | KindDispatch, Dispatch capability estimated_resources
    | KindSpawn, SpawnCapability capability estimated_resources =>
        bool_decide (capability = capability_id) && ResourceEstimate_eqb estimated_resources estimate
    | _, _ => false
    end in
  if negb action_matches then Err (CiApprovalRequestMismatch capability_id "action")
  else if negb (bool_decide (ar_correlation_id approval = ec_correlation_id context)) then
    Err (CiApprovalRequestMismatch capability_id "correlation_id")
  else if negb (bool_decide (ar_requested_by approval = PExtension (ec_extension_id context))) then
    Err (CiApprovalRequestMismatch capability_id "requested_by")
  else Ok tt.

Definition approval_not_approved_error_kind (status : ApprovalStatus) : string :=
  match status with
  | Pending => "ApprovalPending" | Approved => "ApprovalApproved"
  | Denied => "ApprovalDenied" | Expired => "ApprovalExpired"
  end.

(** The last case is [unreachable!]; the caller has checked a mismatch. *)
Definition resume_context_mismatch_kind (capability_mismatch approval_request_mismatch : bool) :
    ResumeContextMismatchKind :=
  match capability_mismatch, approval_request_mismatch with
  | true, true => MismatchCapabilityAndApprovalRequestId
  | true, false => MismatchCapabilityId
  | false, _ => MismatchApprovalRequestId
  end.

Definition claim_error_may_be_concurrent_resume (error : CapabilityLeaseError) : bool :=
  match error with
  | InactiveLease _ LClaimed | InactiveLease _ LConsumed => true
  | _ => false
  end.

(** [host.rs]: the conversions of the obligation errors. *)
Definition prepare_obligation_error_to_invocation (capability_id : CapabilityId)
    (error : CapabilityObligationError) : CapabilityInvocationError :=
  match error with
  | ObUnsupported obligations => CiUnsupportedObligations capability_id obligations
  | ObAuthRequired credential_requirements =>
      CiAuthorizationRequiresAuth capability_id BeforeDispatch [] credential_requirements
  | ObFailed kind => CiObligationFailed capability_id kind
  end.

Definition completion_obligation_error_to_invocation (capability_id : CapabilityId)
    (error : CapabilityObligationError) : CapabilityInvocationError :=
  match error with
  | ObAuthRequired _ => CiObligationFailed capability_id OfSecret
  | other => prepare_obligation_error_to_invocation capability_id other
  end.

Definition spawn_descriptor_for_policy (descriptor : CapabilityDescriptor) : CapabilityDescriptor :=
  if bool_decide (SpawnProcess ∈ cd_effects descriptor) then descriptor
  else mk_CapabilityDescriptor _ (cd_id descriptor) (cd_provider descriptor) (cd_runtime descriptor)
         (cd_trust_ceiling descriptor) (cd_description descriptor)
         (cd_parameters_schema descriptor) (cd_effects descriptor ++ [SpawnProcess])
         (cd_default_permission descriptor) (cd_runtime_credentials descriptor)
         (cd_resource_profile descriptor).

(** ** The calls of the host *)

Inductive hostE : Type -> Type :=
| RunStateStart (start : RunStart) : hostE (result RunRecord RunStateError)
| RunStateGet (scope : ResourceScope) (id : InvocationId) :
    hostE (result (option RunRecord) RunStateError)
| RunStateBlockApproval (scope : ResourceScope) (id : InvocationId) (approval : ApprovalRequest) :
    hostE (result RunRecord RunStateError)
| RunStateBlockAuth (scope : ResourceScope) (id : InvocationId) (error_kind : string) :
    hostE (result RunRecord RunStateError)
| RunStateComplete (scope : ResourceScope) (id : InvocationId) :
    hostE (result RunRecord RunStateError)
| RunStateFail (scope : ResourceScope) (id : InvocationId) (error_kind : string) :
    hostE (result RunRecord RunStateError)
| ApprovalsSavePending (scope : ResourceScope) (approval : ApprovalRequest) :
    hostE (result ApprovalRecord RunStateError)
| ApprovalsDiscardPending (scope : ResourceScope) (id : ApprovalRequestId) :
    hostE (result ApprovalRecord RunStateError)
| ApprovalsGet (scope : ResourceScope) (id : ApprovalRequestId) :
    hostE (result (option ApprovalRecord) RunStateError)
| SavePendingAndBlockApproval (scope : ResourceScope) (id : InvocationId)
    (approval : ApprovalRequest) : hostE (result RunRecord RunStateError)
| ActiveLeases (context : ExecutionContext) : hostE (list CapabilityLease)
| LeaseClaim (scope : ResourceScope) (id : CapabilityGrantId) (fp : InvocationFingerprint) :
    hostE (result CapabilityLease CapabilityLeaseError)
| LeaseRevoke (scope : ResourceScope) (id : CapabilityGrantId) :
    hostE (result CapabilityLease CapabilityLeaseError)
| LeaseConsume (scope : ResourceScope) (id : CapabilityGrantId) :
    hostE (result CapabilityLease CapabilityLeaseError)
| Authorize (kind : CapabilityActionKind) (context : ExecutionContext)
    (descriptor : CapabilityDescriptor) (estimate : ResourceEstimate) (trust : TrustDecision) :
    hostE HostDecision
| AdmitPrepared (context : ExecutionContext) (descriptor : CapabilityDescriptor)
    (estimate : ResourceEstimate) (trust : TrustDecision) (obligations : list Obligation) :
    hostE (result (option Z) DenyReason)
| HandlerPrepare (request : CapabilityObligationRequest) :
    hostE (result CapabilityObligationOutcome CapabilityObligationError)
| HandlerComplete (request : CapabilityObligationRequest) (dispatch : CapabilityDispatchResult) :
    hostE (result CapabilityDispatchResult CapabilityObligationError)
| HandlerAbort (request : CapabilityObligationRequest) (outcome : CapabilityObligationOutcome) :
    hostE (result unit CapabilityObligationError)
| DispatchCapability (request : CapabilityDispatchRequest) :
    hostE (result CapabilityDispatchResult DispatchError)
| FreshProcessId : hostE ProcessId
| SpawnCapabilityProcess (start : ProcessStart) : hostE (result ProcessRecord ProcessError).

(** ** [CapabilityHost]

    The stores, the manager and the handler are reached through the calls; what is
    left is the registry, which of them are attached, and what the authorizer's
    [supports_operation_approval] answers. *)
Record CapabilityHost : Type := mk_CapabilityHost {
  ch_registry : ExtensionRegistry;
  ch_supports_operation_approval : bool;
  ch_run_state : bool;
  ch_approval_requests : bool;
  ch_run_state_approval_store : bool;
  ch_capability_leases : bool;
  ch_process_manager : bool;
  ch_obligation_handler : bool }.

Definition CapabilityHost_new (registry : ExtensionRegistry) (supports : bool) : CapabilityHost :=
  mk_CapabilityHost registry supports false false false false false false.
Definition with_run_state (h : CapabilityHost) : CapabilityHost :=
  mk_CapabilityHost (ch_registry h) (ch_supports_operation_approval h) true
    (ch_approval_requests h) false (ch_capability_leases h) (ch_process_manager h)
    (ch_obligation_handler h).
Definition with_approval_requests (h : CapabilityHost) : CapabilityHost :=
  mk_CapabilityHost (ch_registry h) (ch_supports_operation_approval h) (ch_run_state h)
    true false (ch_capability_leases h) (ch_process_manager h) (ch_obligation_handler h).
Definition with_run_state_approval_store (h : CapabilityHost) : CapabilityHost :=
  mk_CapabilityHost (ch_registry h) (ch_supports_operation_approval h) true true true
    (ch_capability_leases h) (ch_process_manager h) (ch_obligation_handler h).
Definition with_capability_leases (h : CapabilityHost) : CapabilityHost :=
  mk_CapabilityHost (ch_registry h) (ch_supports_operation_approval h) (ch_run_state h)
    (ch_approval_requests h) (ch_run_state_approval_store h) true (ch_process_manager h)
    (ch_obligation_handler h).
Definition with_process_manager (h : CapabilityHost) : CapabilityHost :=
  mk_CapabilityHost (ch_registry h) (ch_supports_operation_approval h) (ch_run_state h)
    (ch_approval_requests h) (ch_run_state_approval_store h) (ch_capability_leases h) true
    (ch_obligation_handler h).
Definition with_obligation_handler (h : CapabilityHost) : CapabilityHost :=
  mk_CapabilityHost (ch_registry h) (ch_supports_operation_approval h) (ch_run_state h)
    (ch_approval_requests h) (ch_run_state_approval_store h) (ch_capability_leases h)
    (ch_process_manager h) true.

(** ** [helpers.rs]: the programs *)

Definition fail_run_if_configured (run_state : bool) (scope : ResourceScope) (id : InvocationId)
    (error_kind : string) : prog hostE unit :=
  if run_state then do! trigger (RunStateFail scope id error_kind) in Ret tt else Ret tt.

Definition apply_run_state_transition_if_configured (run_state : bool) (scope : ResourceScope)
    (id : InvocationId) (error : CapabilityInvocationError) : prog hostE unit :=
  if run_state then
    match run_state_transition error with
    | None => Ret tt
    | Some (TransFail error_kind) => fail_run_if_configured true scope id error_kind
    | Some (TransBlockAuth error_kind) =>
        do! trigger (RunStateBlockAuth scope id error_kind) in Ret tt
    end
  else Ret tt.

Definition complete_run_after_side_effect (scope : ResourceScope) (id : InvocationId) :
    prog hostE unit :=
  do! trigger (RunStateComplete scope id) in Ret tt.

Definition matching_approval_lease (context : ExecutionContext) (capability_id : CapabilityId)
    (fp : InvocationFingerprint) : prog hostE (option CapabilityLease) :=
  let! leases := trigger (ActiveLeases context) in
  Ret (List.find (fun lease =>
         bool_decide (cl_scope lease = ec_resource_scope context)
         && bool_decide (cg_capability (cl_grant lease) = capability_id)
         && bool_decide (cl_invocation_fingerprint lease = Some fp)) leases).

(** ** [host.rs] *)

Section Methods.
Variable self : CapabilityHost.

Definition prepare_obligations (phase : CapabilityObligationPhase) (context : ExecutionContext)
    (capability_id : CapabilityId) (estimate : ResourceEstimate) (obligations : list Obligation) :
    prog hostE (result CapabilityObligationOutcome CapabilityInvocationError) :=
  if bool_decide (obligations = []) then Ret (Ok CapabilityObligationOutcome_default)
  else if bool_decide (phase = PhaseSpawn)
          && negb (bool_decide (post_dispatch_obligations obligations = [])) then
    Ret (Err (CiUnsupportedObligations capability_id (post_dispatch_obligations obligations)))
  else if negb (ch_obligation_handler self) then
    Ret (Err (CiUnsupportedObligations capability_id obligations))
  else
    let! r := trigger (HandlerPrepare
      (mk_CapabilityObligationRequest phase context capability_id estimate obligations)) in
    Ret (map_err (prepare_obligation_error_to_invocation capability_id) r).

Definition complete_dispatch_obligations (phase : CapabilityObligationPhase)
    (context : ExecutionContext) (capability_id : CapabilityId) (estimate : ResourceEstimate)
    (obligations : list Obligation) (dispatch : CapabilityDispatchResult) :
    prog hostE (result CapabilityDispatchResult CapabilityInvocationError) :=
  if bool_decide (obligations = []) then Ret (Ok dispatch)
  else if negb (ch_obligation_handler self) then
    if bool_decide (post_dispatch_obligations obligations = []) then Ret (Ok dispatch)
    else Ret (Err (CiUnsupportedObligations capability_id (post_dispatch_obligations obligations)))
  else
    let! r := trigger (HandlerComplete
      (mk_CapabilityObligationRequest phase context capability_id estimate obligations) dispatch) in
    Ret (map_err (completion_obligation_error_to_invocation capability_id) r).

Definition abort_obligations (phase : CapabilityObligationPhase) (context : ExecutionContext)
    (capability_id : CapabilityId) (estimate : ResourceEstimate) (obligations : list Obligation)
    (outcome : CapabilityObligationOutcome) : prog hostE unit :=
  if bool_decide (obligations = []) then Ret tt
  else if negb (ch_obligation_handler self) then Ret tt
  else
    do! trigger (HandlerAbort
      (mk_CapabilityObligationRequest phase context capability_id estimate obligations) outcome) in
    Ret tt.

(** The last two matches of the approval branch: persist the prompt and block. *)
Definition persist_and_block (scope : ResourceScope) (invocation_id : InvocationId)
    (capability_id : CapabilityId) (approval : ApprovalRequest) :
    prog hostE CapabilityInvocationError :=
  match ch_run_state self, ch_approval_requests self with
  | true, true =>
      if ch_run_state_approval_store self then
        let! r := trigger (SavePendingAndBlockApproval scope invocation_id approval) in
        match r with
        | Err error =>
            do! fail_run_if_configured true scope invocation_id "ApprovalBlock" in
            Ret (CiRunState error)
        | Ok _ => Ret (CiAuthorizationRequiresApproval capability_id)
        end
      else
        let! r := trigger (ApprovalsSavePending scope approval) in
        match r with
        | Err error =>
            do! fail_run_if_configured true scope invocation_id "ApprovalStore" in
            Ret (CiRunState error)
        | Ok _ =>
            let! r := trigger (RunStateBlockApproval scope invocation_id approval) in
            match r with
            | Err error =>
                do! trigger (ApprovalsDiscardPending scope (ar_id approval)) in
                do! fail_run_if_configured true scope invocation_id "ApprovalBlock" in
                Ret (CiRunState error)
            | Ok _ => Ret (CiAuthorizationRequiresApproval capability_id)
            end
        end
  | true, false =>
      do! fail_run_if_configured true scope invocation_id "ApprovalStoreMissing" in
      Ret (CiApprovalStoreMissing capability_id "approval_requests")
  | false, true => Ret (CiApprovalStoreMissing capability_id "run_state")
  | false, false => Ret (CiApprovalStoreMissing capability_id "run_state and approval_requests")
  end.

(** [approval.invocation_fingerprint = Some(..)]. *)
Definition set_fingerprint (approval : ApprovalRequest) (fp : InvocationFingerprint) :
    ApprovalRequest :=
  let 'mk_ApprovalRequest id correlation_id requested_by action _ reason reusable := approval in
  mk_ApprovalRequest id correlation_id requested_by action (Some fp) reason reusable.

(** The [Decision::RequireApproval] branch; it always returns an error. *)
Definition require_approval (kind : CapabilityActionKind) (context : ExecutionContext)
    (capability_id : CapabilityId) (estimate : ResourceEstimate) (input : Value)
    (approval : ApprovalRequest) : prog hostE CapabilityInvocationError :=
  let scope := ec_resource_scope context in
  let invocation_id := ec_invocation_id context in
  let fail := fail_run_if_configured (ch_run_state self) scope invocation_id in
  if negb (ch_supports_operation_approval self) then
    do! fail "UnexpectedApproval" in
    Ret (CiAuthorizationDenied capability_id InternalInvariantViolation)
  else
    match invocation_fingerprint_for_kind kind scope capability_id estimate input with
    | Err source =>
        do! fail "InvocationFingerprint" in Ret (CiInvocationFingerprint capability_id source)
    | Ok fp =>
        match validate_approval_request_matches_invocation approval context capability_id estimate
                kind with
        | Err error => do! fail "ApprovalRequestMismatch" in Ret error
        | Ok _ =>
            match ar_invocation_fingerprint approval with
            | Some existing =>
                if negb (bool_decide (existing = fp)) then
                  do! fail "InvocationFingerprintMismatch" in
                  Ret (CiApprovalFingerprintMismatch capability_id)
                else persist_and_block scope invocation_id capability_id approval
            | None =>
                persist_and_block scope invocation_id capability_id (set_fingerprint approval fp)
            end
        end
    end.

Definition phase_of (kind : CapabilityActionKind) : CapabilityObligationPhase :=
  match kind with KindDispatch => PhaseInvoke | KindSpawn => PhaseSpawn end.

Definition admission_descriptor (kind : CapabilityActionKind) (descriptor : CapabilityDescriptor) :
    CapabilityDescriptor :=
  match kind with
  | KindDispatch => descriptor | KindSpawn => spawn_descriptor_for_policy descriptor end.

(** What [invoke_json] and [spawn_json] know when they reach their side effect. *)
Record admitted : Type := mk_admitted {
  ad_descriptor : CapabilityDescriptor;
  ad_obligations : list Obligation;
  ad_outcome : CapabilityObligationOutcome;
  ad_policy_revision : option Z }.

Definition authorize_and_admit (kind : CapabilityActionKind) (context : ExecutionContext)
    (capability_id : CapabilityId) (estimate : ResourceEstimate) (input : Value)
    (trust : TrustDecision) : prog hostE (result admitted CapabilityInvocationError) :=
  let invocation_id := ec_invocation_id context in
  let scope := ec_resource_scope context in
  let fail := fail_run_if_configured (ch_run_state self) scope invocation_id in
  if is_err (ExecutionContext_validate context) then
    Ret (Err (CiAuthorizationDenied capability_id InternalInvariantViolation))
  else
    let! started :=
      (if ch_run_state self then trigger (RunStateStart (mk_RunStart invocation_id capability_id scope))
       else Ret (Ok (mk_RunRecord invocation_id capability_id scope RunRunning None None))) in
    match started with
    | Err error => Ret (Err (CiRunState error))
    | Ok _ =>
        match get_capability (ch_registry self) capability_id with
        | None =>
            do! fail "UnknownCapability" in Ret (Err (CiUnknownCapability capability_id))
        | Some descriptor =>
            let! decision := trigger (Authorize kind context descriptor estimate trust) in
            match decision with
            | Deny reason =>
                do! fail "AuthorizationDenied" in
                Ret (Err (CiAuthorizationDenied capability_id reason))
            | RequireApproval approval =>
                let! error := require_approval kind context capability_id estimate input approval in
                Ret (Err error)
            | Allow allowed =>
                let obligations := as_slice allowed in
                let! prepared :=
                  prepare_obligations (phase_of kind) context capability_id estimate obligations in
                match prepared with
                | Err error =>
                    do! apply_run_state_transition_if_configured (ch_run_state self) scope
                          invocation_id error in
                    Ret (Err error)
                | Ok outcome =>
                    let! admission := trigger (AdmitPrepared context
                      (admission_descriptor kind descriptor) estimate trust obligations) in
                    match admission with
                    | Err reason =>
                        do! abort_obligations (phase_of kind) context capability_id estimate
                              obligations outcome in
                        do! fail "PolicyChanged" in
                        Ret (Err (CiAuthorizationDenied capability_id reason))
                    | Ok policy_revision =>
                        Ret (Ok (mk_admitted descriptor obligations outcome policy_revision))
                    end
                end
            end
        end
    end.

Definition invoke_json (request : CapabilityInvocationRequest) :
    prog hostE (result CapabilityInvocationResult CapabilityInvocationError) :=
  let context := cir_context request in
  let invocation_id := ec_invocation_id context in
  let scope := ec_resource_scope context in
  let capability_id := cir_capability_id request in
  let estimate := cir_estimate request in
  let!? ad := authorize_and_admit KindDispatch context capability_id estimate (cir_input request)
                (cir_trust_decision request) in
  let! dispatched := trigger (DispatchCapability (mk_CapabilityDispatchRequest capability_id scope
    estimate (coo_mounts (ad_outcome ad)) (coo_resource_reservation (ad_outcome ad))
    (cir_input request))) in
  match dispatched with
  | Err error =>
      do! abort_obligations PhaseInvoke context capability_id estimate (ad_obligations ad)
            (ad_outcome ad) in
      let invocation_error := of_dispatch_error error in
      do! apply_run_state_transition_if_configured (ch_run_state self) scope invocation_id
            invocation_error in
      Ret (Err invocation_error)
  | Ok dispatch =>
      let! completed := complete_dispatch_obligations PhaseInvoke context capability_id estimate
                          (ad_obligations ad) dispatch in
      match completed with
      | Err error =>
          do! abort_obligations PhaseInvoke context capability_id estimate (ad_obligations ad)
                CapabilityObligationOutcome_default in
          do! fail_run_if_configured (ch_run_state self) scope invocation_id
                (obligation_invocation_error_kind error) in
          Ret (Err error)
      | Ok dispatch =>
          do! (if ch_run_state self then complete_run_after_side_effect scope invocation_id
               else Ret tt) in
          Ret (Ok (mk_CapabilityInvocationResult dispatch (ad_policy_revision ad)))
      end
  end.

(** [ProcessStart] of a spawn; [unwrap_or_else] takes the context's mounts. *)
Definition spawn_start (process_id : ProcessId) (context : ExecutionContext)
    (capability_id : CapabilityId) (estimate : ResourceEstimate) (input : Value)
    (descriptor : CapabilityDescriptor) (outcome : CapabilityObligationOutcome) : ProcessStart :=
  mk_ProcessStart process_id (ec_process_id context) (ec_invocation_id context)
    (ec_resource_scope context) (cd_provider descriptor) capability_id (cd_runtime descriptor)
    (ec_grants context) (default (ec_mounts context) (coo_mounts outcome)) estimate
    (rr_id <$> coo_resource_reservation outcome) input.

Definition spawn_json (request : CapabilitySpawnRequest) :
    prog hostE (result CapabilitySpawnResult CapabilityInvocationError) :=
  let context := csr_context request in
  let invocation_id := ec_invocation_id context in
  let scope := ec_resource_scope context in
  let capability_id := csr_capability_id request in
  let estimate := csr_estimate request in
  if negb (ch_process_manager self) then Ret (Err (CiProcessManagerMissing capability_id))
  else
    let!? ad := authorize_and_admit KindSpawn context capability_id estimate (csr_input request)
                  (csr_trust_decision request) in
    let! process_id := trigger FreshProcessId in
    let! spawned := trigger (SpawnCapabilityProcess (spawn_start process_id context capability_id
      estimate (csr_input request) (ad_descriptor ad) (ad_outcome ad))) in
    match spawned with
    | Err error =>
        do! abort_obligations PhaseSpawn context capability_id estimate (ad_obligations ad)
              (ad_outcome ad) in
        do! fail_run_if_configured (ch_run_state self) scope invocation_id "ProcessSpawn" in
        Ret (Err (CiProcess error))
    | Ok process =>
        do! (if ch_run_state self then complete_run_after_side_effect scope invocation_id
             else Ret tt) in
        Ret (Ok (mk_CapabilitySpawnResult process (ad_policy_revision ad)))
    end.

(** [authorized_context.grants.grants.push(lease.grant.clone())]. *)
Definition push_grant (context : ExecutionContext) (grant : CapabilityGrant) : ExecutionContext :=
  mk_ExecutionContext (ec_invocation_id context) (ec_correlation_id context) (ec_process_id context)
    (ec_parent_process_id context) (ec_tenant_id context) (ec_user_id context) (ec_agent_id context)
    (ec_project_id context) (ec_thread_id context) (ec_extension_id context) (ec_runtime context)
    (ec_trust context) (mk_CapabilitySet (cs_grants (ec_grants context) ++ [grant]))
    (ec_mounts context) (ec_resource_scope context).

(** What a resume knows once it holds the lease. *)
Record resumed : Type := mk_resumed {
  rs_descriptor : CapabilityDescriptor;
  rs_context : ExecutionContext;
  rs_obligations : list Obligation;
  rs_claimed : CapabilityLease;
  rs_outcome : CapabilityObligationOutcome }.

(** The checks of a resume that need no lease. *)
Definition resume_validate (kind : CapabilityActionKind) (request : CapabilityResumeRequest)
    (fp : InvocationFingerprint) :
    prog hostE (result CapabilityDescriptor CapabilityInvocationError) :=
  let context := crr_context request in
  let scope := ec_resource_scope context in
  let invocation_id := ec_invocation_id context in
  let capability_id := crr_capability_id request in
  let fail := fail_run_if_configured true scope invocation_id in
  let! got := trigger (RunStateGet scope invocation_id) in
  match got with
  | Err error => Ret (Err (CiRunState error))
  | Ok None => Ret (Err (CiRunState (UnknownInvocation invocation_id)))
  | Ok (Some run_record) =>
      if negb (bool_decide (rr_status run_record = BlockedApproval)) then
        Ret (Err (CiResumeNotBlocked capability_id (rr_status run_record)))
      else
        let capability_mismatch := negb (bool_decide (rr_capability_id run_record = capability_id)) in
        let approval_request_mismatch :=
          negb (bool_decide (rr_approval_request_id run_record
                             = Some (crr_approval_request_id request))) in
        if capability_mismatch || approval_request_mismatch then
          do! fail "ResumeContextMismatch" in
          Ret (Err (CiResumeContextMismatch capability_id
            (resume_context_mismatch_kind capability_mismatch approval_request_mismatch)))
        else
          let! got := trigger (ApprovalsGet scope (crr_approval_request_id request)) in
          match got with
          | Err error => Ret (Err (CiRunState error))
          | Ok None =>
              Ret (Err (CiRunState (UnknownApprovalRequest (crr_approval_request_id request))))
          | Ok (Some approval) =>
              if negb (bool_decide (ap_status approval = Approved)) then
                do! (if negb (bool_decide (ap_status approval = Pending))
                     then fail (approval_not_approved_error_kind (ap_status approval))
                     else Ret tt) in
                Ret (Err (CiApprovalNotApproved capability_id (ap_status approval)))
              else
                match validate_approval_request_matches_invocation (ap_request approval) context
                        capability_id (crr_estimate request) kind with
                | Err error => do! fail "ApprovalRequestMismatch" in Ret (Err error)
                | Ok _ =>
                    if negb (bool_decide (ar_invocation_fingerprint (ap_request approval) = Some fp))
                    then
                      do! fail "InvocationFingerprintMismatch" in
                      Ret (Err (CiApprovalFingerprintMismatch capability_id))
                    else
                      match get_capability (ch_registry self) capability_id with
                      | None =>
                          do! fail "UnknownCapability" in
                          Ret (Err (CiUnknownCapability capability_id))
                      | Some descriptor => Ret (Ok descriptor)
                      end
                end
          end
  end.

Definition revoke_after_failure (scope : ResourceScope) (claimed : CapabilityLease) :
    prog hostE unit :=
  do! trigger (LeaseRevoke scope (cg_id (cl_grant claimed))) in Ret tt.

Definition resume_phase (kind : CapabilityActionKind) : CapabilityObligationPhase :=
  match kind with KindDispatch => PhaseResume | KindSpawn => PhaseSpawn end.

(** From the lease to the prepared obligations. *)
Definition resume_claim (kind : CapabilityActionKind) (request : CapabilityResumeRequest)
    (fp : InvocationFingerprint) (descriptor : CapabilityDescriptor) :
    prog hostE (result resumed CapabilityInvocationError) :=
  let context := crr_context request in
  let scope := ec_resource_scope context in
  let invocation_id := ec_invocation_id context in
  let capability_id := crr_capability_id request in
  let fail := fail_run_if_configured true scope invocation_id in
  let! found := matching_approval_lease context capability_id fp in
  match found with
  | None => do! fail "ApprovalLeaseMissing" in Ret (Err (CiApprovalLeaseMissing capability_id))
  | Some lease =>
      let authorized_context := push_grant context (cl_grant lease) in
      let! decision := trigger (Authorize kind authorized_context descriptor (crr_estimate request)
                                  (crr_trust_decision request)) in
      match decision with
      | Deny reason =>
          do! fail "AuthorizationDenied" in
          Ret (Err (CiAuthorizationDenied capability_id reason))
      | RequireApproval _ =>
          do! fail "AuthorizationRequiresApproval" in
          Ret (Err (CiAuthorizationRequiresApproval capability_id))
      | Allow allowed =>
          let obligations := as_slice allowed in
          let! claim := trigger (LeaseClaim scope (cg_id (cl_grant lease)) fp) in
          match claim with
          | Err error =>
              do! (if claim_error_may_be_concurrent_resume error then Ret tt
                   else fail "ApprovalLeaseClaim") in
              Ret (Err (CiLease error))
          | Ok claimed =>
              let! prepared := prepare_obligations (resume_phase kind) authorized_context
                                 capability_id (crr_estimate request) obligations in
              match prepared with
              | Err error =>
                  do! apply_run_state_transition_if_configured true scope invocation_id error in
                  do! revoke_after_failure scope claimed in
                  Ret (Err error)
              | Ok outcome =>
                  Ret (Ok (mk_resumed descriptor authorized_context obligations claimed outcome))
              end
          end
      end
  end.

(** The stores a resume needs, the authorizer's consent, a valid context and the
    fingerprint, then the two parts above. *)
Definition resume_authorized (kind : CapabilityActionKind) (request : CapabilityResumeRequest) :
    prog hostE (result resumed CapabilityInvocationError) :=
  let capability_id := crr_capability_id request in
  let context := crr_context request in
  if negb (ch_run_state self) then Ret (Err (CiResumeStoreMissing capability_id "run_state"))
  else if negb (ch_approval_requests self) then
    Ret (Err (CiResumeStoreMissing capability_id "approval_requests"))
  else if negb (ch_capability_leases self) then
    Ret (Err (CiResumeStoreMissing capability_id "capability_leases"))
  else if negb (ch_supports_operation_approval self) then
    Ret (Err (CiAuthorizationDenied capability_id PolicyDenied))
  else if is_err (ExecutionContext_validate context) then
    Ret (Err (CiAuthorizationDenied capability_id InternalInvariantViolation))
  else
    match invocation_fingerprint_for_kind kind (ec_resource_scope context) capability_id
            (crr_estimate request) (crr_input request) with
    | Err source => Ret (Err (CiInvocationFingerprint capability_id source))
    | Ok fp =>
        let!? descriptor := resume_validate kind request fp in
        resume_claim kind request fp descriptor
    end.

Definition resume_json (request : CapabilityResumeRequest) :
    prog hostE (result CapabilityInvocationResult CapabilityInvocationError) :=
  let scope := ec_resource_scope (crr_context request) in
  let invocation_id := ec_invocation_id (crr_context request) in
  let capability_id := crr_capability_id request in
  let estimate := crr_estimate request in
  let!? rs := resume_authorized KindDispatch request in
  let! dispatched := trigger (DispatchCapability (mk_CapabilityDispatchRequest capability_id scope
    estimate (coo_mounts (rs_outcome rs)) (coo_resource_reservation (rs_outcome rs))
    (crr_input request))) in
  match dispatched with
  | Err error =>
      do! abort_obligations PhaseResume (rs_context rs) capability_id estimate (rs_obligations rs)
            (rs_outcome rs) in
      let invocation_error := of_dispatch_error error in
      do! apply_run_state_transition_if_configured true scope invocation_id invocation_error in
      do! revoke_after_failure scope (rs_claimed rs) in
      Ret (Err invocation_error)
  | Ok dispatch =>
      let! completed := complete_dispatch_obligations PhaseResume (rs_context rs) capability_id
                          estimate (rs_obligations rs) dispatch in
      match completed with
      | Err error =>
          do! abort_obligations PhaseResume (rs_context rs) capability_id estimate
                (rs_obligations rs) CapabilityObligationOutcome_default in
          do! fail_run_if_configured true scope invocation_id
                (obligation_invocation_error_kind error) in
          do! revoke_after_failure scope (rs_claimed rs) in
          Ret (Err error)
      | Ok dispatch =>
          do! trigger (LeaseConsume scope (cg_id (cl_grant (rs_claimed rs)))) in
          do! complete_run_after_side_effect scope invocation_id in
          Ret (Ok (mk_CapabilityInvocationResult dispatch None))
      end
  end.

Definition resume_spawn_json (request : CapabilityResumeRequest) :
    prog hostE (result CapabilitySpawnResult CapabilityInvocationError) :=
  let scope := ec_resource_scope (crr_context request) in
  let invocation_id := ec_invocation_id (crr_context request) in
  let capability_id := crr_capability_id request in
  let estimate := crr_estimate request in
  if negb (ch_process_manager self) then Ret (Err (CiProcessManagerMissing capability_id))
  else
    let!? rs := resume_authorized KindSpawn request in
    let! process_id := trigger FreshProcessId in
    let! spawned := trigger (SpawnCapabilityProcess (spawn_start process_id (rs_context rs)
      capability_id estimate (crr_input request) (rs_descriptor rs) (rs_outcome rs))) in
    match spawned with
    | Err error =>
        do! abort_obligations PhaseSpawn (rs_context rs) capability_id estimate (rs_obligations rs)
              (rs_outcome rs) in
        do! fail_run_if_configured true scope invocation_id "ProcessSpawn" in
        do! revoke_after_failure scope (rs_claimed rs) in
        Ret (Err (CiProcess error))
    | Ok process =>
        do! trigger (LeaseConsume scope (cg_id (cl_grant (rs_claimed rs)))) in
        do! complete_run_after_side_effect scope invocation_id in
        Ret (Ok (mk_CapabilitySpawnResult process None))
    end.
End Methods.
End Host.
