(* ===== verification/HostSafety.v ===== *)
(** * The capability host: what every run does

    The calls of the four methods of [CapabilityHost.v], exactly.  A run either is
    refused, and then starts nothing and leaves no prepared obligation and no
    claimed lease behind; or it makes the calls of an authorization in order,
    starts one side effect with what was authorized, and settles the obligations
    and the lease according to the answer. *)

From S2P Require Import Prelude Effects External HostIds Paths HostTypes Obligations Trust.
From S2P Require Import Leases Authorization RunState Fingerprint RuntimePolicy Budget Events.
From S2P Require Import Extensions Dispatch Processes CapabilityHost.
Open Scope Z_scope.

(** What is opened and closed, and the side effects. *)
Inductive mark : Type := MPrepared | MCompleted | MAborted | MClaimed | MConsumed | MRevoked | MEffect.

#[export] Instance mark_eq_dec : EqDecision mark.
Proof. solve_decision. Defined.

Section HostSafety.
Context `{D : Decimal} `{FC : @FingerprintCrates D}.
#[local] Existing Instance value_json | 0.

(** Everything but the bookkeeping: the writes of the run and approval stores, the
    listing of leases and the drawing of a process identifier. *)
Definition is_loud (ev : event hostE) : bool :=
  match ev with
  | Ev e _ =>
      match e with
      | RunStateStart _ | RunStateBlockApproval _ _ _ | RunStateBlockAuth _ _ _
      | RunStateComplete _ _ | RunStateFail _ _ _ | ApprovalsSavePending _ _
      | ApprovalsDiscardPending _ _ | SavePendingAndBlockApproval _ _ _ | ActiveLeases _
      | FreshProcessId => false
      | _ => true
      end
  end.

Definition loud (t : list (event hostE)) : list (event hostE) := List.filter is_loud t.

Lemma loud_app t1 t2 : loud (t1 ++ t2) = loud t1 ++ loud t2.
Proof. apply List.filter_app. Qed.

Definition mark_of (ev : event hostE) : option mark :=
  match ev with
  | Ev e x =>
      match e in hostE X return X -> option mark with
      | HandlerPrepare _ => fun r => if is_ok r then Some MPrepared else None
      | HandlerComplete _ _ => fun r => if is_ok r then Some MCompleted else None
      | HandlerAbort _ _ => fun _ => Some MAborted
      | LeaseClaim _ _ _ => fun r => if is_ok r then Some MClaimed else None
      | LeaseConsume _ _ => fun _ => Some MConsumed
      | LeaseRevoke _ _ => fun _ => Some MRevoked
      | DispatchCapability _ => fun _ => Some MEffect
      | SpawnCapabilityProcess _ => fun _ => Some MEffect
      | _ => fun _ => None
      end x
  end.

Definition marks (t : list (event hostE)) : list mark := omap mark_of (loud t).

Lemma marks_app t1 t2 : marks (t1 ++ t2) = marks t1 ++ marks t2.
Proof. unfold marks. by rewrite loud_app, omap_app. Qed.

(** ** Programs that only keep books *)

Definition quiet {R} (p : prog hostE R) : Prop := forall t r, traces p t r -> loud t = [].

Lemma quiet_bind {R S} (p : prog hostE R) (k : R -> prog hostE S) t r :
  quiet p -> traces (pbind p k) t r -> exists t' x, loud t = loud t' /\ traces (k x) t' r.
Proof.
  intros Hq (t1 & t2 & x & -> & H1 & H2)%traces_bind. exists t2, x. by rewrite loud_app, (Hq _ _ H1).
Qed.

Lemma fail_run_quiet rs scope id k : quiet (fail_run_if_configured rs scope id k).
Proof.
  intros t r. unfold fail_run_if_configured. destruct rs; simpl.
  - by intros (x & t' & -> & -> & _).
  - by intros [-> _].
Qed.

Lemma apply_transition_quiet rs scope id e :
  quiet (apply_run_state_transition_if_configured rs scope id e).
Proof.
  intros t r. unfold apply_run_state_transition_if_configured. destruct rs; [|by intros [-> _]].
  destruct (run_state_transition e) as [[k|k]|]; [apply fail_run_quiet| |by intros [-> _]].
  by intros (x & t' & -> & -> & _).
Qed.

Lemma complete_run_quiet (b : bool) scope id :
  quiet (if b then complete_run_after_side_effect scope id else Ret tt).
Proof. intros t r. destruct b; [by intros (x & t' & -> & -> & _) | by intros [-> _]]. Qed.

Lemma persist_quiet self scope id c approval : quiet (persist_and_block self scope id c approval).
Proof.
  intros t r. unfold persist_and_block.
  destruct (ch_run_state self), (ch_approval_requests self); [|..|by intros [-> _]|by intros [-> _]].
  - destruct (ch_run_state_approval_store self); simpl.
    + by intros ([?|?] & t' & -> & Ht); [destruct Ht as [-> _] | destruct Ht as (x & t'' & -> & -> & _)].
    + intros ([?|?] & t' & -> & Ht); [|by destruct Ht as (x & t'' & -> & -> & _)].
      destruct Ht as ([?|?] & t'' & -> & Ht); [by destruct Ht as [-> _]|].
      by destruct Ht as (x & t3 & -> & y & t4 & -> & -> & _).
  - by intros (x & t' & -> & -> & _).
Qed.

Lemma ret_quiet {R} (r : R) : quiet (Ret r).
Proof. by intros t x [-> _]. Qed.

Lemma quiet_then {R S} (p : prog hostE R) (k : R -> prog hostE S) :
  quiet p -> (forall x, quiet (k x)) -> quiet (pbind p k).
Proof.
  intros Hp Hk t r (t1 & t2 & x & -> & H1 & H2)%traces_bind. by rewrite loud_app, (Hp _ _ H1), (Hk _ _ _ H2).
Qed.

Create HintDb quiet.
#[local] Hint Resolve fail_run_quiet apply_transition_quiet complete_run_quiet persist_quiet ret_quiet
  quiet_then : quiet.

Lemma require_approval_quiet self kind context c estimate input approval :
  quiet (require_approval self kind context c estimate input approval).
Proof.
  unfold require_approval. destruct (negb _); [auto with quiet|].
  destruct (invocation_fingerprint_for_kind _ _ _ _ _); [|auto with quiet].
  destruct (validate_approval_request_matches_invocation _ _ _ _ _); [|auto with quiet].
  destruct (ar_invocation_fingerprint approval); [destruct (negb _)|]; auto with quiet.
Qed.
#[local] Hint Resolve require_approval_quiet : quiet.

Section Methods.
Variable self : CapabilityHost.

(** ** Obligations *)

(** The call that prepared [outcome]; none for an empty list. *)
Definition prepared_events (request : CapabilityObligationRequest)
    (outcome : CapabilityObligationOutcome) : list (event hostE) :=
  if bool_decide (cor_obligations request = []) then []
  else [Ev (HandlerPrepare request) (Ok outcome)].

Definition prepared_ok (request : CapabilityObligationRequest)
    (outcome : CapabilityObligationOutcome) : Prop :=
  if bool_decide (cor_obligations request = []) then outcome = CapabilityObligationOutcome_default
  else ch_obligation_handler self = true.

Definition aborted (request : CapabilityObligationRequest) (outcome : CapabilityObligationOutcome)
    (t : list (event hostE)) : Prop :=
  if bool_decide (cor_obligations request = []) then t = []
  else exists x, t = [Ev (HandlerAbort request outcome) x].

Lemma prepare_traces phase context c estimate obligations t r :
  let request := mk_CapabilityObligationRequest phase context c estimate obligations in
  traces (prepare_obligations self phase context c estimate obligations) t r ->
  match r with
  | Ok outcome => loud t = prepared_events request outcome /\ prepared_ok request outcome
  | Err _ => marks t = []
  end.
Proof.
  intros request. subst request. unfold prepare_obligations, prepared_events, prepared_ok. simpl.
  case_bool_decide; [by intros [-> ->]|]. destruct (bool_decide (phase = PhaseSpawn) && _); [by intros [-> ->]|].
  destruct (ch_obligation_handler self); simpl; [|by intros [-> ->]].
  by intros ([outcome|e] & t' & -> & -> & ->).
Qed.

Lemma abort_traces phase context c estimate obligations outcome outcome' t u :
  let request := mk_CapabilityObligationRequest phase context c estimate obligations in
  prepared_ok request outcome' ->
  traces (abort_obligations self phase context c estimate obligations outcome) t u ->
  aborted request outcome (loud t).
Proof.
  intros request. subst request. unfold prepared_ok, abort_obligations, aborted. simpl.
  case_bool_decide; [by intros _ [-> _]|]. intros ->. simpl. intros (x & t' & -> & -> & _). by exists x.
Qed.

(** The end of a dispatch: abort on failure; complete otherwise, and abort with
    nothing to undo when the completion fails. *)
Inductive finish_dispatch (request : CapabilityObligationRequest)
    (outcome : CapabilityObligationOutcome) :
    result CapabilityDispatchResult DispatchError -> list (event hostE) ->
    result CapabilityDispatchResult CapabilityInvocationError -> Prop :=
| fd_failed e t : aborted request outcome t ->
    finish_dispatch request outcome (Err e) t (Err (of_dispatch_error e))
| fd_plain d : cor_obligations request = [] -> finish_dispatch request outcome (Ok d) [] (Ok d)
| fd_completed d d' : cor_obligations request <> [] ->
    finish_dispatch request outcome (Ok d) [Ev (HandlerComplete request d) (Ok d')] (Ok d')
| fd_incomplete d e x : cor_obligations request <> [] ->
    finish_dispatch request outcome (Ok d)
      [Ev (HandlerComplete request d) (Err e);
       Ev (HandlerAbort request CapabilityObligationOutcome_default) x]
      (Err (completion_obligation_error_to_invocation (cor_capability_id request) e)).

Lemma complete_traces phase context c estimate obligations outcome d t r :
  let request := mk_CapabilityObligationRequest phase context c estimate obligations in
  prepared_ok request outcome ->
  traces (complete_dispatch_obligations self phase context c estimate obligations d) t r ->
  (obligations = [] /\ loud t = [] /\ r = Ok d) \/
  (obligations <> [] /\ exists x, loud t = [Ev (HandlerComplete request d) x] /\
     r = map_err (completion_obligation_error_to_invocation c) x).
Proof.
  intros request. subst request. unfold prepared_ok, complete_dispatch_obligations. simpl.
  case_bool_decide; [intros _ [-> ->]; by left|]. intros ->. simpl.
  intros (x & t' & -> & -> & ->). right. split; [done|]. by exists x.
Qed.

(** ** [invoke_json] and [spawn_json] *)

(** Refused before the side effect: what was prepared is aborted, what was claimed
    revoked. *)
Definition refused (ms : list mark) : Prop :=
  ms = [] \/ ms = [MPrepared; MAborted] \/ ms = [MClaimed; MRevoked].

Definition admitted_request kind context c estimate (ad : admitted) : CapabilityObligationRequest :=
  mk_CapabilityObligationRequest (phase_of kind) context c estimate (ad_obligations ad).

Definition admitted_events kind context c estimate trust (ad : admitted) : list (event hostE) :=
  Ev (Authorize kind context (ad_descriptor ad) estimate trust)
     (Allow (mk_Obligations (ad_obligations ad)))
  :: prepared_events (admitted_request kind context c estimate ad) (ad_outcome ad)
  ++ [Ev (AdmitPrepared context (admission_descriptor kind (ad_descriptor ad)) estimate trust
            (ad_obligations ad)) (Ok (ad_policy_revision ad))].

(** The capability is registered and the context consistent. *)
Definition admitted_ok kind context c estimate (ad : admitted) : Prop :=
  ExecutionContext_validate context = Ok tt /\
  get_capability (ch_registry self) c = Some (ad_descriptor ad) /\
  prepared_ok (admitted_request kind context c estimate ad) (ad_outcome ad).

Lemma marks_loud t t' : loud t = loud t' -> marks t = marks t'.
Proof. unfold marks. by intros ->. Qed.

Lemma loud_none t : loud t = [] -> marks t = [].
Proof. unfold marks. by intros ->. Qed.

(** A quiet end: the trace's marks are those already made. *)
Lemma quiet_ret_refused {R} (p : prog hostE unit) t (r r' : R) :
  quiet p -> traces (do! p in Ret r') t r -> marks t = [] /\ r = r'.
Proof.
  intros Hq (t' & x & Hl & -> & ->)%quiet_bind; [|done]. split; [by apply loud_none|done].
Qed.

Lemma authorize_and_admit_traces kind context c estimate input trust t r :
  traces (authorize_and_admit self kind context c estimate input trust) t r ->
  match r with
  | Ok ad => admitted_ok kind context c estimate ad /\
      loud t = admitted_events kind context c estimate trust ad
  | Err _ => refused (marks t)
  end.
Proof.
  unfold authorize_and_admit. destruct (ExecutionContext_validate context) as [[]|] eqn:Hv; simpl;
    [|intros [-> ->]; by left].
  intros (t1 & t2 & started & -> & Hs & Ht)%traces_bind.
  assert (loud t1 = []) as Hl1.
  { destruct (ch_run_state self); [by destruct Hs as (x & t' & -> & -> & _) | by destruct Hs as [-> _]]. }
  rewrite marks_app, (loud_none _ Hl1), loud_app, Hl1. simpl. clear Hs Hl1 t1.
  destruct started as [started|e]; [|destruct Ht as [-> ->]; by left].
  destruct (get_capability (ch_registry self) c) as [descriptor|] eqn:Hd;
    [|apply quiet_ret_refused in Ht as [Ht ->]; [by left|auto with quiet]].
  destruct Ht as (decision & t3 & -> & Ht). cbn [pbind] in Ht.
  change (marks (?ev :: t3)) with (marks t3).
  destruct decision as [allowed|reason|approval].
  - apply traces_bind in Ht as (t4 & t5 & prepared & -> & Hp & Ht).
    apply prepare_traces in Hp. destruct prepared as [outcome|e].
    + destruct Hp as [Hl Hok]. destruct Ht as (admission & t6 & -> & Ht). cbn [pbind] in Ht.
      destruct admission as [rev|reason].
      * destruct Ht as [-> ->]. split; [by split_and!|].
        cbn [loud List.filter is_loud]. rewrite List.filter_app. unfold loud in Hl. rewrite Hl.
        unfold admitted_events, admitted_request. destruct allowed. done.
      * apply traces_bind in Ht as (t7 & t8 & u & -> & Ha & Ht).
        apply (abort_traces _ _ _ _ _ _ outcome) in Ha; [|done].
        apply quiet_ret_refused in Ht as [Ht ->]; [|auto with quiet].
        rewrite marks_app. change (Ev ?e ?x :: t7 ++ t8) with ([Ev e x] ++ t7 ++ t8).
        rewrite !marks_app, Ht. unfold marks. rewrite Hl. unfold prepared_events, aborted in *.
        case_bool_decide; [rewrite Ha; by left | destruct Ha as [x ->]; right; by left].
    + apply quiet_ret_refused in Ht as [Ht ->]; [|auto with quiet].
      rewrite marks_app, Hp, Ht. by left.
  - apply quiet_ret_refused in Ht as [Ht ->]; [by left|auto with quiet].
  - apply quiet_bind in Ht as (t' & x & Hl & -> & ->); [|auto with quiet].
    left. by apply loud_none.
Qed.

(** The common end of a dispatch, followed by [undo] on failure and [keep] on
    success. *)
Lemma finish_dispatch_traces {R} phase context c estimate obligations outcome
    (answer : result CapabilityDispatchResult DispatchError)
    (failed : CapabilityInvocationError -> prog hostE R)
    (incomplete : CapabilityInvocationError -> prog hostE R)
    (done_ : CapabilityDispatchResult -> prog hostE R) t r :
  let request := mk_CapabilityObligationRequest phase context c estimate obligations in
  prepared_ok request outcome ->
  traces (match answer with
    | Err error =>
        do! abort_obligations self phase context c estimate obligations outcome in
        failed (of_dispatch_error error)
    | Ok dispatch =>
        let! completed :=
          complete_dispatch_obligations self phase context c estimate obligations dispatch in
        match completed with
        | Err error =>
            do! abort_obligations self phase context c estimate obligations
                  CapabilityObligationOutcome_default in
            incomplete error
        | Ok dispatch => done_ dispatch
        end
    end) t r ->
  exists t1 t2 r', loud t = loud t1 ++ loud t2 /\
    finish_dispatch request outcome answer (loud t1) r' /\
    match r' with
    | Ok d => traces (done_ d) t2 r
    | Err e => traces (failed e) t2 r \/ traces (incomplete e) t2 r
    end.
Proof.
  intros request Hok. destruct answer as [d|e].
  - intros (t1 & t2 & completed & -> & Hc & Ht)%traces_bind.
    apply (complete_traces _ _ _ _ _ outcome) in Hc; [|done].
    destruct Hc as [(Ho & Hl & ->)|(Ho & x & Hl & ->)].
    + exists t1, t2, (Ok d). rewrite loud_app. split; [done|]. rewrite Hl. split; [by apply fd_plain|done].
    + destruct x as [d'|e]; cbn [map_err] in Ht.
      * exists t1, t2, (Ok d'). rewrite loud_app. split; [done|]. rewrite Hl. split; [by apply fd_completed|done].
      * apply traces_bind in Ht as (t3 & t4 & u & -> & Ha & Ht).
        apply (abort_traces _ _ _ _ _ _ outcome) in Ha; [|done].
        unfold aborted in Ha. cbn [cor_obligations] in Ha. rewrite bool_decide_eq_false_2 in Ha by done.
        destruct Ha as [x Ha].
        exists (t1 ++ t3), t4, (Err (completion_obligation_error_to_invocation c e)).
        rewrite !loud_app, Hl, Ha, app_assoc. split; [done|]. split; [by apply fd_incomplete|by right].
  - intros (t1 & t2 & u & -> & Ha & Ht)%traces_bind.
    apply (abort_traces _ _ _ _ _ _ outcome) in Ha; [|done].
    exists t1, t2, (Err (of_dispatch_error e)). rewrite loud_app. split; [done|].
    split; [by apply fd_failed|by left].
Qed.

Definition dispatch_of c context estimate input (outcome : CapabilityObligationOutcome) :
    CapabilityDispatchRequest :=
  mk_CapabilityDispatchRequest c (ec_resource_scope context) estimate (coo_mounts outcome)
    (coo_resource_reservation outcome) input.

Lemma invoke_json_traces request t r :
  let context := cir_context request in
  let c := cir_capability_id request in
  let estimate := cir_estimate request in
  traces (invoke_json self request) t r ->
  (is_err r = true /\ refused (marks t)) \/
  exists ad answer tail r',
    admitted_ok KindDispatch context c estimate ad /\
    loud t = admitted_events KindDispatch context c estimate (cir_trust_decision request) ad
      ++ Ev (DispatchCapability (dispatch_of c context estimate (cir_input request) (ad_outcome ad)))
            answer :: tail /\
    finish_dispatch (admitted_request KindDispatch context c estimate ad) (ad_outcome ad) answer
      tail r' /\
    r = result_map (fun d => mk_CapabilityInvocationResult d (ad_policy_revision ad)) r'.
Proof.
  intros context c estimate. unfold invoke_json. fold context c estimate.
  intros (t1 & t2 & ad & -> & Ha & Ht)%traces_bind. apply authorize_and_admit_traces in Ha.
  destruct ad as [ad|e]; [|destruct Ht as [-> ->]; left; by rewrite app_nil_r].
  destruct Ha as [Hok Hl]. right. destruct Ht as (answer & t3 & -> & Ht). cbn [pbind] in Ht.
  apply (finish_dispatch_traces PhaseInvoke context c estimate (ad_obligations ad) (ad_outcome ad) answer
    (fun e => do! apply_run_state_transition_if_configured (ch_run_state self)
                    (ec_resource_scope context) (ec_invocation_id context) e in Ret (Err e))
    (fun e => do! fail_run_if_configured (ch_run_state self) (ec_resource_scope context)
                    (ec_invocation_id context) (obligation_invocation_error_kind e) in Ret (Err e))
    (fun d => do! (if ch_run_state self then complete_run_after_side_effect (ec_resource_scope context)
                     (ec_invocation_id context) else Ret tt) in
              Ret (Ok (mk_CapabilityInvocationResult d (ad_policy_revision ad))))) in Ht;
    [|apply Hok].
  destruct Ht as (t4 & t5 & r' & Hl3 & Hf & Ht).
  assert (loud t5 = [] /\ r = result_map (fun d => mk_CapabilityInvocationResult d (ad_policy_revision ad)) r')
    as [Hl5 Hr].
  { destruct r' as [d|e]; [|destruct Ht as [Ht|Ht]];
      apply quiet_bind in Ht as (t' & u & Hl' & -> & ->); auto with quiet. }
  exists ad, answer, (loud t4), r'. split; [exact Hok|]. split; [|by split].
  rewrite loud_app, Hl. cbn [loud List.filter is_loud]. f_equal. f_equal.
  fold (loud t3). by rewrite Hl3, Hl5, app_nil_r.
Qed.

(** The end of a spawn: abort on failure. *)
Definition finish_spawn (request : CapabilityObligationRequest)
    (outcome : CapabilityObligationOutcome) (answer : result ProcessRecord ProcessError)
    (tail : list (event hostE)) : Prop :=
  match answer with Ok _ => tail = [] | Err _ => aborted request outcome tail end.

Lemma spawn_json_traces request t r :
  let context := csr_context request in
  let c := csr_capability_id request in
  let estimate := csr_estimate request in
  traces (spawn_json self request) t r ->
  (is_err r = true /\ refused (marks t)) \/
  exists ad process_id answer tail,
    admitted_ok KindSpawn context c estimate ad /\
    loud t = admitted_events KindSpawn context c estimate (csr_trust_decision request) ad
      ++ Ev (SpawnCapabilityProcess (spawn_start process_id context c estimate (csr_input request)
               (ad_descriptor ad) (ad_outcome ad))) answer :: tail /\
    finish_spawn (admitted_request KindSpawn context c estimate ad) (ad_outcome ad) answer tail /\
    r = result_map (fun p => mk_CapabilitySpawnResult p (ad_policy_revision ad))
          (map_err CiProcess answer).
Proof.
  intros context c estimate. unfold spawn_json. fold context c estimate.
  destruct (negb _); [intros [-> ->]; left; split; [done|by left]|].
  intros (t1 & t2 & ad & -> & Ha & Ht)%traces_bind. apply authorize_and_admit_traces in Ha.
  destruct ad as [ad|e]; [|destruct Ht as [-> ->]; left; by rewrite app_nil_r].
  destruct Ha as [Hok Hl]. right.
  destruct Ht as (process_id & t3 & -> & answer & t4 & -> & Ht). cbn [pbind] in Ht.
  exists ad, process_id, answer, (loud t4). split; [exact Hok|].
  split; [by rewrite loud_app, Hl|]. destruct answer as [p|e].
  - apply quiet_bind in Ht as (t' & u & Hl' & -> & ->); auto with quiet.
  - apply traces_bind in Ht as (t5 & t6 & u & -> & Hab & Ht).
    apply (abort_traces _ _ _ _ _ _ (ad_outcome ad)) in Hab; [|apply Hok].
    apply quiet_bind in Ht as (t' & u' & Hl' & -> & ->); [|auto with quiet].
    rewrite loud_app, Hl', app_nil_r. by split.
Qed.

(** ** [resume_json] and [resume_spawn_json] *)

Definition resumed_request kind (request : CapabilityResumeRequest) (rs : resumed) :
    CapabilityObligationRequest :=
  mk_CapabilityObligationRequest (resume_phase kind) (rs_context rs) (crr_capability_id request)
    (crr_estimate request) (rs_obligations rs).

(** What a resume has checked when it claims its lease: the run waits on exactly this
    approval and capability; the approval was granted, for exactly this action; the
    fingerprint of the request's own action and input is the one approved; and
    the lease's grant is what the authorizer was shown. *)
Record resume_checked kind (request : CapabilityResumeRequest) (run : RunRecord)
    (approval : ApprovalRecord) (lease : CapabilityLease) (fp : InvocationFingerprint)
    (rs : resumed) : Prop := {
  rc_context : ExecutionContext_validate (crr_context request) = Ok tt;
  rc_fingerprint : invocation_fingerprint_for_kind kind (ec_resource_scope (crr_context request))
    (crr_capability_id request) (crr_estimate request) (crr_input request) = Ok fp;
  rc_blocked : rr_status run = BlockedApproval;
  rc_capability : rr_capability_id run = crr_capability_id request;
  rc_approval : rr_approval_request_id run = Some (crr_approval_request_id request);
  rc_approved : ap_status approval = Approved;
  rc_matches : validate_approval_request_matches_invocation (ap_request approval)
    (crr_context request) (crr_capability_id request) (crr_estimate request) kind = Ok tt;
  rc_approved_fingerprint : ar_invocation_fingerprint (ap_request approval) = Some fp;
  rc_descriptor : get_capability (ch_registry self) (crr_capability_id request)
    = Some (rs_descriptor rs);
  rc_lease : cl_scope lease = ec_resource_scope (crr_context request) /\
    cg_capability (cl_grant lease) = crr_capability_id request /\
    cl_invocation_fingerprint lease = Some fp;
  rc_grant : rs_context rs = push_grant (crr_context request) (cl_grant lease);
  rc_prepared : prepared_ok (resumed_request kind request rs) (rs_outcome rs) }.

Definition resumed_events kind (request : CapabilityResumeRequest) (run : RunRecord)
    (approval : ApprovalRecord) (lease : CapabilityLease) (fp : InvocationFingerprint)
    (rs : resumed) : list (event hostE) :=
  let scope := ec_resource_scope (crr_context request) in
  [Ev (RunStateGet scope (ec_invocation_id (crr_context request))) (Ok (Some run));
   Ev (ApprovalsGet scope (crr_approval_request_id request)) (Ok (Some approval));
   Ev (Authorize kind (rs_context rs) (rs_descriptor rs) (crr_estimate request)
         (crr_trust_decision request)) (Allow (mk_Obligations (rs_obligations rs)));
   Ev (LeaseClaim scope (lease_id lease) fp) (Ok (rs_claimed rs))]
  ++ prepared_events (resumed_request kind request rs) (rs_outcome rs).

Lemma resume_validate_traces kind request fp t r :
  traces (resume_validate self kind request fp) t r ->
  match r with
  | Err _ => marks t = []
  | Ok descriptor => exists run approval,
      loud t = [Ev (RunStateGet (ec_resource_scope (crr_context request))
                      (ec_invocation_id (crr_context request))) (Ok (Some run));
                Ev (ApprovalsGet (ec_resource_scope (crr_context request))
                      (crr_approval_request_id request)) (Ok (Some approval))] /\
      rr_status run = BlockedApproval /\ rr_capability_id run = crr_capability_id request /\
      rr_approval_request_id run = Some (crr_approval_request_id request) /\
      ap_status approval = Approved /\
      validate_approval_request_matches_invocation (ap_request approval) (crr_context request)
        (crr_capability_id request) (crr_estimate request) kind = Ok tt /\
      ar_invocation_fingerprint (ap_request approval) = Some fp /\
      get_capability (ch_registry self) (crr_capability_id request) = Some descriptor
  end.
Proof.
  unfold resume_validate. intros (got & t1 & -> & Ht). cbn [pbind] in Ht.
  destruct got as [[run|]|e]; [|by destruct Ht as [-> ->]..].
  case_bool_decide as H1; [|by destruct Ht as [-> ->]].
  case_bool_decide as H2; [|by apply quiet_ret_refused in Ht as [Ht ->]; auto with quiet].
  case_bool_decide as H3; [|by apply quiet_ret_refused in Ht as [Ht ->]; auto with quiet].
  cbn [negb orb] in Ht. destruct Ht as (got & t2 & -> & Ht). cbn [pbind] in Ht.
  change (marks (Ev _ _ :: Ev _ _ :: t2)) with (marks t2).
  destruct got as [[approval|]|e]; [|by destruct Ht as [-> ->]..].
  case_bool_decide as H4; cbn [negb] in Ht;
    [|apply quiet_ret_refused in Ht as [Ht ->]; [done | destruct (negb _); auto with quiet]].
  destruct (validate_approval_request_matches_invocation _ _ _ _ _) as [[]|e] eqn:H5;
    [|by apply quiet_ret_refused in Ht as [Ht ->]; auto with quiet].
  case_bool_decide as H6; cbn [negb] in Ht;
    [|by apply quiet_ret_refused in Ht as [Ht ->]; auto with quiet].
  destruct (get_capability _ _) as [descriptor|] eqn:H7;
    [|by apply quiet_ret_refused in Ht as [Ht ->]; auto with quiet].
  destruct Ht as [-> ->]. by exists run, approval.
Qed.

Lemma matching_lease_traces context c fp t found :
  traces (matching_approval_lease context c fp) t found ->
  loud t = [] /\ forall lease, found = Some lease ->
    cl_scope lease = ec_resource_scope context /\ cg_capability (cl_grant lease) = c /\
    cl_invocation_fingerprint lease = Some fp.
Proof.
  intros (leases & t' & -> & -> & ->). split; [done|]. intros lease [_ H]%List.find_some.
  apply andb_prop in H as [[H1%bool_decide_eq_true_1 H2%bool_decide_eq_true_1]%andb_prop
                           H3%bool_decide_eq_true_1]. by split_and!.
Qed.

Lemma revoke_traces {R} scope claimed (r r' : R) t :
  traces (do! revoke_after_failure scope claimed in Ret r') t r ->
  r = r' /\ exists x, loud t = [Ev (LeaseRevoke scope (lease_id claimed)) x].
Proof. intros (x & t' & -> & -> & ->). split; [done|]. by exists x. Qed.

Lemma resume_claim_traces kind request fp descriptor t r :
  traces (resume_claim self kind request fp descriptor) t r ->
  match r with
  | Err _ => refused (marks t)
  | Ok rs => exists lease,
      loud t = [Ev (Authorize kind (rs_context rs) descriptor (crr_estimate request)
                      (crr_trust_decision request)) (Allow (mk_Obligations (rs_obligations rs)));
                Ev (LeaseClaim (ec_resource_scope (crr_context request)) (lease_id lease) fp)
                   (Ok (rs_claimed rs))]
               ++ prepared_events (resumed_request kind request rs) (rs_outcome rs) /\
      rs_descriptor rs = descriptor /\
      rs_context rs = push_grant (crr_context request) (cl_grant lease) /\
      (cl_scope lease = ec_resource_scope (crr_context request) /\
       cg_capability (cl_grant lease) = crr_capability_id request /\
       cl_invocation_fingerprint lease = Some fp) /\
      prepared_ok (resumed_request kind request rs) (rs_outcome rs)
  end.
Proof.
  unfold resume_claim. intros (t1 & t2 & found & -> & Hf & Ht)%traces_bind.
  apply matching_lease_traces in Hf as [Hl1 Hf].
  rewrite marks_app, loud_app, Hl1, (loud_none _ Hl1). simpl. clear Hl1 t1.
  destruct found as [lease|];
    [|apply quiet_ret_refused in Ht as [Ht ->]; [by left|auto with quiet]].
  destruct Ht as (decision & t3 & -> & Ht). cbn [pbind] in Ht.
  change (marks (?ev :: t3)) with (marks t3).
  destruct decision as [allowed|reason|approval];
    [|apply quiet_ret_refused in Ht as [Ht ->]; [by left|auto with quiet]..].
  destruct Ht as (claim & t4 & -> & Ht). cbn [pbind] in Ht. destruct claim as [claimed|e].
  - apply traces_bind in Ht as (t5 & t6 & prepared & -> & Hp & Ht).
    apply prepare_traces in Hp. destruct prepared as [outcome|e].
    + destruct Ht as [-> ->]. destruct Hp as [Hl Hok]. exists lease. rewrite app_nil_r.
      destruct allowed as [obligations]. split; [|by eauto].
      cbn [loud List.filter is_loud]. fold (loud t5). by rewrite Hl.
    + apply quiet_bind in Ht as (t' & x & Hl & Ht); [|auto with quiet].
      apply revoke_traces in Ht as [-> [y Ht]]. right. right.
      change (Ev ?e ?x :: t5 ++ t6) with ([Ev e x] ++ t5 ++ t6).
      rewrite !marks_app, Hp. unfold marks. by rewrite Hl, Ht.
  - apply quiet_ret_refused in Ht as [Ht ->]; [by left|].
    destruct (claim_error_may_be_concurrent_resume e); auto with quiet.
Qed.

Lemma resume_authorized_traces kind request t r :
  traces (resume_authorized self kind request) t r ->
  match r with
  | Err _ => refused (marks t)
  | Ok rs => exists run approval lease fp,
      resume_checked kind request run approval lease fp rs /\
      loud t = resumed_events kind request run approval lease fp rs
  end.
Proof.
  unfold resume_authorized. do 4 (destruct (negb _); [intros [-> ->]; by left|]).
  destruct (ExecutionContext_validate _) as [[]|] eqn:Hv; [|intros [-> ->]; by left]. cbn [is_err is_ok negb].
  destruct (invocation_fingerprint_for_kind _ _ _ _ _) as [fp|] eqn:Hfp; [|intros [-> ->]; by left].
  intros (t1 & t2 & checked & -> & Hv' & Ht)%traces_bind. apply resume_validate_traces in Hv'.
  destruct checked as [descriptor|e]; [|destruct Ht as [-> ->]; rewrite app_nil_r; by left].
  destruct Hv' as (run & approval & Hl1 & H1 & H2 & H3 & H4 & H5 & H6 & H7).
  apply resume_claim_traces in Ht. destruct r as [rs|e].
  - destruct Ht as (lease & Hl2 & <- & Hc & Hlease & Hok). exists run, approval, lease, fp.
    split; [by split|]. by rewrite loud_app, Hl1, Hl2.
  - rewrite marks_app. unfold marks at 1. by rewrite Hl1.
Qed.

(** The end of a resume: the lease is consumed on success and revoked otherwise. *)
Definition settled_lease {R} (scope : ResourceScope) (claimed : CapabilityLease)
    (r : result R CapabilityInvocationError) (t : list (event hostE)) : Prop :=
  match r with
  | Ok _ => exists x, t = [Ev (LeaseConsume scope (lease_id claimed)) x]
  | Err _ => exists x, t = [Ev (LeaseRevoke scope (lease_id claimed)) x]
  end.

Lemma consume_traces {R} scope claimed id (r r' : R) t :
  traces (do! trigger (LeaseConsume scope (lease_id claimed)) in
          do! complete_run_after_side_effect scope id in Ret r') t r ->
  r = r' /\ exists x, loud t = [Ev (LeaseConsume scope (lease_id claimed)) x].
Proof. intros (x & t' & -> & y & t'' & -> & -> & ->). split; [done|]. by exists x. Qed.

Lemma resume_json_traces request t r :
  let scope := ec_resource_scope (crr_context request) in
  traces (resume_json self request) t r ->
  (is_err r = true /\ refused (marks t)) \/
  exists run approval lease fp rs answer tail r' last,
    resume_checked KindDispatch request run approval lease fp rs /\
    loud t = resumed_events KindDispatch request run approval lease fp rs
      ++ Ev (DispatchCapability (dispatch_of (crr_capability_id request) (crr_context request)
               (crr_estimate request) (crr_input request) (rs_outcome rs))) answer :: tail ++ last /\
    finish_dispatch (resumed_request KindDispatch request rs) (rs_outcome rs) answer tail r' /\
    settled_lease scope (rs_claimed rs) r' last /\
    r = result_map (fun d => mk_CapabilityInvocationResult d None) r'.
Proof.
  intros scope. unfold resume_json. fold scope.
  intros (t1 & t2 & rs & -> & Ha & Ht)%traces_bind. apply resume_authorized_traces in Ha.
  destruct rs as [rs|e]; [|destruct Ht as [-> ->]; left; by rewrite app_nil_r].
  destruct Ha as (run & approval & lease & fp & Hc & Hl). right.
  destruct Ht as (answer & t3 & -> & Ht). cbn [pbind] in Ht.
  set (id := ec_invocation_id (crr_context request)) in Ht.
  apply (finish_dispatch_traces PhaseResume (rs_context rs) (crr_capability_id request)
    (crr_estimate request) (rs_obligations rs) (rs_outcome rs) answer
    (fun e => do! apply_run_state_transition_if_configured true scope id e in
              do! revoke_after_failure scope (rs_claimed rs) in Ret (Err e))
    (fun e => do! fail_run_if_configured true scope id (obligation_invocation_error_kind e) in
              do! revoke_after_failure scope (rs_claimed rs) in Ret (Err e))
    (fun d => do! trigger (LeaseConsume scope (lease_id (rs_claimed rs))) in
              do! complete_run_after_side_effect scope id in
              Ret (Ok (mk_CapabilityInvocationResult d None)))) in Ht; [|apply Hc].
  destruct Ht as (t4 & t5 & r' & Hl3 & Hf & Ht).
  exists run, approval, lease, fp, rs, answer, (loud t4), r', (loud t5).
  split; [exact Hc|]. split; [|split; [exact Hf|]].
  { rewrite loud_app, Hl. cbn [loud List.filter is_loud]. f_equal. f_equal. exact Hl3. }
  destruct r' as [d|e]; [apply consume_traces in Ht as [-> Ht]; by split|].
  destruct Ht as [Ht|Ht]; apply quiet_bind in Ht as (t' & u & Hl' & Ht); auto with quiet;
    apply revoke_traces in Ht as [-> Ht]; rewrite Hl'; by split.
Qed.

Lemma resume_spawn_json_traces request t r :
  let scope := ec_resource_scope (crr_context request) in
  traces (resume_spawn_json self request) t r ->
  (is_err r = true /\ refused (marks t)) \/
  exists run approval lease fp rs process_id answer tail last,
    resume_checked KindSpawn request run approval lease fp rs /\
    loud t = resumed_events KindSpawn request run approval lease fp rs
      ++ Ev (SpawnCapabilityProcess (spawn_start process_id (rs_context rs)
               (crr_capability_id request) (crr_estimate request) (crr_input request)
               (rs_descriptor rs) (rs_outcome rs))) answer :: tail ++ last /\
    finish_spawn (resumed_request KindSpawn request rs) (rs_outcome rs) answer tail /\
    settled_lease scope (rs_claimed rs) (map_err CiProcess answer) last /\
    r = result_map (fun p => mk_CapabilitySpawnResult p None) (map_err CiProcess answer).
Proof.
  intros scope. unfold resume_spawn_json. fold scope.
  destruct (negb _); [intros [-> ->]; left; split; [done|by left]|].
  intros (t1 & t2 & rs & -> & Ha & Ht)%traces_bind. apply resume_authorized_traces in Ha.
  destruct rs as [rs|e]; [|destruct Ht as [-> ->]; left; by rewrite app_nil_r].
  destruct Ha as (run & approval & lease & fp & Hc & Hl). right.
  destruct Ht as (process_id & t3 & -> & answer & t4 & -> & Ht). cbn [pbind] in Ht.
  exists run, approval, lease, fp, rs, process_id, answer.
  rewrite loud_app, Hl. cbn [loud List.filter is_loud]. fold (loud t4). destruct answer as [p|e].
  - apply consume_traces in Ht as [-> Ht]. exists [], (loud t4). by split.
  - apply traces_bind in Ht as (t5 & t6 & u & -> & Hab & Ht).
    apply (abort_traces _ _ _ _ _ _ (rs_outcome rs)) in Hab; [|apply Hc].
    apply quiet_bind in Ht as (t' & u' & Hl' & Ht); [|auto with quiet].
    apply revoke_traces in Ht as [-> Ht]. exists (loud t5), (loud t6).
    rewrite loud_app, Hl'. by split.
Qed.

(** C1: nothing is started that was not authorized as it is started.  Every run of
    [invoke_json] and of [spawn_json] either is refused, returns an error, starts
    nothing and aborts what it prepared; or makes, besides bookkeeping, exactly
    these calls: the authorizer allows the action on the registered descriptor for
    the request's own context, estimate and trust decision; the handler prepares
    the obligations it imposed; the authorizer admits the prepared action; then one
    dispatch, or one spawn, of the request's capability, scope, estimate and input
    with the mounts and reservation the handler prepared.  A failure aborts the
    prepared obligations; a dispatch result is returned only after the handler
    completed it. *)
Theorem side_effects_authorized :
  (forall request t r, traces (invoke_json self request) t r ->
    (is_err r = true /\ refused (marks t)) \/
    exists ad answer tail r',
      let context := cir_context request in
      let c := cir_capability_id request in
      let estimate := cir_estimate request in
      admitted_ok KindDispatch context c estimate ad /\
      loud t = admitted_events KindDispatch context c estimate (cir_trust_decision request) ad
        ++ Ev (DispatchCapability (dispatch_of c context estimate (cir_input request)
                 (ad_outcome ad))) answer :: tail /\
      finish_dispatch (admitted_request KindDispatch context c estimate ad) (ad_outcome ad) answer
        tail r' /\
      r = result_map (fun d => mk_CapabilityInvocationResult d (ad_policy_revision ad)) r') /\
  (forall request t r, traces (spawn_json self request) t r ->
    (is_err r = true /\ refused (marks t)) \/
    exists ad process_id answer tail,
      let context := csr_context request in
      let c := csr_capability_id request in
      let estimate := csr_estimate request in
      admitted_ok KindSpawn context c estimate ad /\
      loud t = admitted_events KindSpawn context c estimate (csr_trust_decision request) ad
        ++ Ev (SpawnCapabilityProcess (spawn_start process_id context c estimate
                 (csr_input request) (ad_descriptor ad) (ad_outcome ad))) answer :: tail /\
      finish_spawn (admitted_request KindSpawn context c estimate ad) (ad_outcome ad) answer tail /\
      r = result_map (fun p => mk_CapabilitySpawnResult p (ad_policy_revision ad))
            (map_err CiProcess answer)).
Proof. split; [exact invoke_json_traces | exact spawn_json_traces]. Qed.

(** C2: an approval resumes exactly what was approved, under one claimed lease.
    Every run of [resume_json] and of [resume_spawn_json] either is refused, returns
    an error, starts nothing and revokes the lease if it had claimed one; or reads
    the blocked run and the granted approval, has the action allowed with the
    lease's grant, claims the lease under the fingerprint of the request's own
    action and input, which is the approved one, prepares the obligations, makes
    one side effect of just that action and input, and settles: obligations as in
    a first invocation, the lease consumed on success and revoked on failure. *)
Theorem resume_runs_what_was_approved :
  (forall request t r, traces (resume_json self request) t r ->
    (is_err r = true /\ refused (marks t)) \/
    exists run approval lease fp rs answer tail r' last,
      resume_checked KindDispatch request run approval lease fp rs /\
      loud t = resumed_events KindDispatch request run approval lease fp rs
        ++ Ev (DispatchCapability (dispatch_of (crr_capability_id request) (crr_context request)
                 (crr_estimate request) (crr_input request) (rs_outcome rs))) answer :: tail ++ last /\
      finish_dispatch (resumed_request KindDispatch request rs) (rs_outcome rs) answer tail r' /\
      settled_lease (ec_resource_scope (crr_context request)) (rs_claimed rs) r' last /\
      r = result_map (fun d => mk_CapabilityInvocationResult d None) r') /\
  (forall request t r, traces (resume_spawn_json self request) t r ->
    (is_err r = true /\ refused (marks t)) \/
    exists run approval lease fp rs process_id answer tail last,
      resume_checked KindSpawn request run approval lease fp rs /\
      loud t = resumed_events KindSpawn request run approval lease fp rs
        ++ Ev (SpawnCapabilityProcess (spawn_start process_id (rs_context rs)
                 (crr_capability_id request) (crr_estimate request) (crr_input request)
                 (rs_descriptor rs) (rs_outcome rs))) answer :: tail ++ last /\
      finish_spawn (resumed_request KindSpawn request rs) (rs_outcome rs) answer tail /\
      settled_lease (ec_resource_scope (crr_context request)) (rs_claimed rs)
        (map_err CiProcess answer) last /\
      r = result_map (fun p => mk_CapabilitySpawnResult p None) (map_err CiProcess answer)).
Proof. split; [exact resume_json_traces | exact resume_spawn_json_traces]. Qed.
End Methods.
End HostSafety.
