(* ===== verification/HostRuns.v ===== *)
(** * The capability host: concurrent resumes, and the run record

    Two consequences of the calls a run makes.  Resumes that run concurrently share
    the lease store: [log] interleaves the calls of any number of them with the
    store calls of other components, and a lease bound to a fingerprint lets one of
    them act at most.  And with the in-memory run store the record of an invocation
    ends in the state its result tells. *)

From S2P Require Import Prelude Effects External HostIds Paths HostTypes Obligations Trust.
From S2P Require Import Leases Authorization RunState Fingerprint RuntimePolicy Budget Events.
From S2P Require Import Extensions Dispatch Processes CapabilityHost HostSafety.
Open Scope Z_scope.

Section HostRuns.
Context `{D : Decimal} `{FC : @FingerprintCrates D}.
#[local] Existing Instance value_json | 0.

(** ** Unfinished runs *)

Fixpoint begins {E R} (p : prog E R) (t : list (event E)) : Prop :=
  match t with
  | [] => True
  | _ => match p with
         | Ret _ => False
         | Call e k => exists x t', t = Ev e x :: t' /\ begins (k x) t'
         end
  end.

(** Every call can be answered, so every beginning is that of a whole run. *)
Lemma hostE_answered X (e : hostE X) : inhabited X.
Proof.
  destruct e; constructor;
    first [exact [] | exact (from_uuid 0) | exact (Deny PolicyDenied) | exact (Err PolicyDenied)
          | exact (Err VersionMismatch) | exact (Err (RsBackend "")) | exact (Err (ObFailed OfAudit))
          | exact (Err (MissingRuntimeBackend RuntimeFirstParty)) | exact (Err (PInvalidPath ""))].
Qed.

Lemma some_run {R} (p : prog hostE R) : exists t r, traces p t r.
Proof.
  induction p as [r|X e k IH]; [by exists [], r|]. destruct (hostE_answered X e) as [x].
  destruct (IH x) as (t & r & Ht). exists (Ev e x :: t), r. by exists x, t.
Qed.

Lemma begins_extends {R} (p : prog hostE R) t : begins p t -> exists t' r, traces p (t ++ t') r.
Proof.
  revert t. induction p as [r|X e k IH]; intros [|ev t]; simpl; try done.
  - intros _. by exists [], r.
  - intros _. destruct (some_run (Call e k)) as (t' & r & Ht). by exists t', r.
  - intros (x & t1 & [= -> ->] & Hb). destruct (IH x t1 Hb) as (t' & r & Ht). exists t', r.
    by exists x, (t1 ++ t').
Qed.

Lemma traces_begin {R} (p : prog hostE R) t r : traces p t r -> begins p t.
Proof.
  revert t. induction p as [r'|X e k IH]; intros t; simpl; [by intros [-> _]|].
  intros (x & t' & -> & Ht). exists x, t'. split; [done|]. by apply IH.
Qed.

(** ** One effect, after the claim *)

Definition is_effect (ev : event hostE) : bool := bool_decide (mark_of ev = Some MEffect).

(** A resume, possibly unfinished, of some host. *)
Definition resuming (t : list (event hostE)) : Prop :=
  exists self request, begins (resume_json self request) t \/ begins (resume_spawn_json self request) t.

Definition claims (k : CapabilityLeaseKey) (ev : event hostE) : Prop :=
  exists scope id fp l, ev = Ev (LeaseClaim scope id fp) (Ok l) /\ CapabilityLeaseKey_new scope id = k.

Lemma effects_loud t : List.filter is_effect t = List.filter is_effect (loud t).
Proof.
  induction t as [|[X e x] t IH]; [done|]. cbn [List.filter loud].
  destruct e; cbn [is_loud]; cbn [List.filter]; by rewrite IH.
Qed.

Lemma effects_of_marks t :
  length (List.filter is_effect t) = length (List.filter (fun m => bool_decide (m = MEffect)) (marks t)).
Proof.
  rewrite effects_loud. unfold marks. generalize (loud t) as l. clear t.
  induction l as [|ev l IH]; [done|]. cbn [List.filter omap list_omap]. unfold is_effect at 1.
  destruct (mark_of ev) as [m|]; simpl; [|done].
  destruct m; simpl; by rewrite ?IH.
Qed.

(** The shape of a loud trace with one effect: the effect after a claim. *)
Definition one_effect (l : list (event hostE)) : Prop :=
  List.filter is_effect l = [] \/
  exists A ev B k, l = A ++ ev :: B /\ List.filter is_effect A = [] /\ List.filter is_effect B = [] /\
    Exists (claims k) A.

Lemma refused_no_effect t : refused (marks t) -> List.filter is_effect t = [].
Proof.
  intros H. apply length_zero_iff_nil. rewrite effects_of_marks. by destruct H as [-> | [-> | -> ] ].
Qed.

Lemma aborted_no_effect request outcome t : aborted request outcome t -> List.filter is_effect t = [].
Proof. unfold aborted. case_bool_decide; [by intros -> | by intros [x ->]]. Qed.

Lemma finish_no_effect request outcome answer t r :
  finish_dispatch request outcome answer t r -> List.filter is_effect t = [].
Proof. by intros [e t' Ha | d | d d' | d e x]; [apply aborted_no_effect in Ha | ..]. Qed.

Lemma settled_no_effect {R} scope claimed (r : result R CapabilityInvocationError) t :
  settled_lease scope claimed r t -> List.filter is_effect t = [].
Proof. destruct r; by intros [x ->]. Qed.

Lemma resumed_events_claim kind request run approval lease fp rs :
  List.filter is_effect (resumed_events kind request run approval lease fp rs) = [] /\
  Exists (claims (CapabilityLeaseKey_new (ec_resource_scope (crr_context request)) (lease_id lease)))
    (resumed_events kind request run approval lease fp rs).
Proof.
  unfold resumed_events. split.
  - rewrite List.filter_app. unfold prepared_events. by case_bool_decide.
  - apply Exists_app. left. apply Exists_cons_tl, Exists_cons_tl, Exists_cons_tl, Exists_cons_hd.
    by repeat eexists.
Qed.

Lemma resume_one_effect self request t :
  (exists r, traces (resume_json self request) t r) \/
  (exists r, traces (resume_spawn_json self request) t r) -> one_effect (loud t).
Proof.
  intros [[r Ht]|[r Ht]].
  - apply resume_json_traces in Ht as [[_ Hr]|(run & approval & lease & fp & rs & answer & tail & r' & last
      & _ & -> & Hf%finish_no_effect & Hs%settled_no_effect & _)].
    + left. rewrite <- effects_loud. by apply refused_no_effect.
    + right. destruct (resumed_events_claim KindDispatch request run approval lease fp rs) as [H1 H2].
      do 4 eexists. split_and!; [done|exact H1| |exact H2]. by rewrite List.filter_app, Hf, Hs.
  - apply resume_spawn_json_traces in Ht as [[_ Hr]|(run & approval & lease & fp & rs & id & answer & tail
      & last & _ & -> & Hf & Hs%settled_no_effect & _)].
    + left. rewrite <- effects_loud. by apply refused_no_effect.
    + right. destruct (resumed_events_claim KindSpawn request run approval lease fp rs) as [H1 H2].
      do 4 eexists. split_and!; [done|exact H1| |exact H2]. rewrite List.filter_app, Hs, app_nil_r.
      destruct answer; [by rewrite Hf | by apply aborted_no_effect in Hf].
Qed.

Lemma one_effect_prefix l l' :
  one_effect (l ++ l') ->
  (length (List.filter is_effect l) <= 1)%nat /\
  (List.filter is_effect l <> [] -> exists k, Exists (claims k) l).
Proof.
  intros [H|(A & ev & B & k & Heq & HA & HB & Hk)].
  - rewrite List.filter_app in H. apply app_eq_nil in H as [-> _]. by split; [simpl; lia|].
  - assert (length (List.filter is_effect (l ++ l')) <= 1)%nat as Hle.
    { rewrite Heq, List.filter_app, HA. cbn [List.filter]. rewrite HB. destruct (is_effect ev); simpl; lia. }
    rewrite List.filter_app, length_app in Hle. split; [lia|]. intros Hne. exists k.
    assert (l `prefix_of` A \/ A `prefix_of` l) as [[z ->]|[z ->]].
    { apply (prefix_weak_total _ _ (l ++ l')); [by apply prefix_app_r | rewrite Heq; by apply prefix_app_r]. }
    + rewrite List.filter_app in HA. by apply app_eq_nil in HA as [HA _].
    + apply Exists_app. by left.
Qed.

Lemma claims_loud k t : Exists (claims k) (loud t) -> Exists (claims k) t.
Proof.
  rewrite !Exists_exists. intros (ev & Hin & Hc). exists ev. split; [|done].
  apply list_elem_of_In, filter_In in Hin as [Hin _]. by apply list_elem_of_In.
Qed.

Lemma resuming_one_effect t :
  resuming t ->
  (length (List.filter is_effect t) <= 1)%nat /\
  (List.filter is_effect t <> [] -> exists k, Exists (claims k) t).
Proof.
  intros (self & request & Hb). rewrite effects_loud.
  assert (exists t', one_effect (loud t ++ loud t')) as [t' H].
  { destruct Hb as [(t' & r & Ht)%begins_extends|(t' & r & Ht)%begins_extends]; exists t';
      rewrite <- loud_app; apply (resume_one_effect self request); eauto. }
  apply one_effect_prefix in H as [H1 H2]. split; [done|].
  intros (k & Hk)%H2. exists k. by apply claims_loud.
Qed.

(** ** Concurrent resumes over one lease store *)

(** A step of the whole system, as far as leases are concerned: a call of one of the
    runs, or a store call of another component. *)
Inductive logged : Type :=
| ByRun (i : nat) (ev : event hostE)
| ByOther (op : LeaseOp) (r : result CapabilityLease CapabilityLeaseError).

Definition lease_op_of (ev : event hostE) :
    option (LeaseOp * result CapabilityLease CapabilityLeaseError) :=
  match ev with
  | Ev e x =>
      match e in hostE X
        return X -> option (LeaseOp * result CapabilityLease CapabilityLeaseError) with
      | LeaseClaim scope id fp => fun r => Some (LClaim scope id fp, r)
      | LeaseRevoke scope id => fun r => Some (LRevoke scope id, r)
      | LeaseConsume scope id => fun r => Some (LConsume scope id, r)
      | _ => fun _ => None
      end x
  end.

Definition logged_op (item : logged) :
    option (LeaseOp * result CapabilityLease CapabilityLeaseError) :=
  match item with ByRun _ ev => lease_op_of ev | ByOther op r => Some (op, r) end.

Definition lease_ops (log : list logged) := omap logged_op log.

Definition of_run (i : nat) (item : logged) : option (event hostE) :=
  match item with ByRun j ev => if bool_decide (i = j) then Some ev else None | ByOther _ _ => None end.

Definition run_of (i : nat) (log : list logged) : list (event hostE) := omap (of_run i) log.

(** The lease calls of the log are answered by the in-memory store, in this order and
    at some readings of the clock. *)
Definition answered_by (m : gmap CapabilityLeaseKey CapabilityLease) (log : list logged) : Prop :=
  exists nows m', lease_run m (zip (lease_ops log).*1 nows) = (m', lease_ops log).

Lemma successes_omap (p : LeaseOp -> bool) log :
  successes p (lease_ops log) =
  Z.of_nat (length (List.filter (fun item =>
    match logged_op item with Some (op, r) => p op && is_ok r | None => false end) log)).
Proof.
  unfold successes, lease_ops. f_equal. induction log as [|item log IH]; [done|].
  cbn [omap list_omap List.filter]. destruct (logged_op item) as [[op r]|]; [|done].
  cbn [List.filter]. destruct (p op && is_ok r); simpl; by rewrite IH.
Qed.

Lemma two_in_filter {A} (f : A -> bool) x y l :
  x ∈ l -> y ∈ l -> x <> y -> f x = true -> f y = true -> (2 <= length (List.filter f l))%nat.
Proof.
  intros Hx Hy Hne Hfx Hfy. change 2%nat with (length [x; y]). apply NoDup_incl_length.
  - constructor; [|constructor; [|constructor]]; simpl; [by intros [->|[]] | by intros []].
  - intros z [<-|[<-|[]]]; apply filter_In; (split; [by apply list_elem_of_In|done]).
Qed.

Lemma run_claim_logged k i log :
  Exists (claims k) (run_of i log) ->
  exists ev, ByRun i ev ∈ log /\ claims k ev.
Proof.
  rewrite Exists_exists. intros (ev & Hin & Hc). exists ev. split; [|done].
  apply list_elem_of_omap in Hin as (item & Hin & Hof). destruct item as [j ev'|op r]; [|done].
  simpl in Hof. by case_bool_decide; simplify_eq.
Qed.

Lemma two_claims_distinct k i j log :
  i <> j -> Exists (claims k) (run_of i log) -> Exists (claims k) (run_of j log) ->
  2 <= successes (is_claim_of k) (lease_ops log).
Proof.
  intros Hne (ev1 & Hin1 & Hc1)%run_claim_logged (ev2 & Hin2 & Hc2)%run_claim_logged.
  rewrite successes_omap. assert (forall i ev, claims k ev ->
    match logged_op (ByRun i ev) with Some (op, r) => is_claim_of k op && is_ok r | None => false end = true)
    as Hclaim.
  { intros n ev (scope & id & fp & l & -> & Hk). simpl. by rewrite bool_decide_eq_true_2. }
  pose proof (two_in_filter (fun item =>
    match logged_op item with Some (op, r) => is_claim_of k op && is_ok r | None => false end)
    (ByRun i ev1) (ByRun j ev2) log Hin1 Hin2) as H.
  specialize (H ltac:(congruence) (Hclaim i ev1 Hc1) (Hclaim j ev2 Hc2)). lia.
Qed.

(** The identifier of a lease is issued once: the lease is in the store at the start, or
    the log issues it, one time.  ([CapabilityGrantId] is a fresh UUID at every issue.) *)
Definition issued_once (m : gmap CapabilityLeaseKey CapabilityLease) (log : list logged)
    (k : CapabilityLeaseKey) : Prop :=
  b2z (bool_decide (is_Some (m !! k))) + successes (is_issue_of k) (lease_ops log) <= 1.

(** C3: concurrent resumes cannot use one approval twice.  Take any interleaving of any
    number of runs, finished or not, with each other and with the lease calls of other
    components (issues, revocations, claims, consumptions), over the in-memory lease
    store, whose answers the log records.  Each resume starts at most one side effect, and
    only after it claimed a lease itself; and no two of them both claim the lease of one
    key, on the condition that no identifier is issued twice: the lease of the key was
    stored at the start or is issued by the log, not both and not more than once. *)
Theorem concurrent_resumes_act_once m log k i j :
  answered_by m log -> issued_once m log k ->
  resuming (run_of i log) -> resuming (run_of j log) ->
  (forall n, n = i \/ n = j ->
     (length (List.filter is_effect (run_of n log)) <= 1)%nat /\
     (List.filter is_effect (run_of n log) <> [] -> exists k', Exists (claims k') (run_of n log))) /\
  (Exists (claims k) (run_of i log) -> Exists (claims k) (run_of j log) -> i = j).
Proof.
  intros (nows & m' & Hrun) Honce Hi Hj. split.
  { intros n [->| ->]; by apply resuming_one_effect. }
  intros Hci Hcj. destruct (decide (i = j)) as [|Hne]; [done|]. exfalso.
  pose proof (two_claims_distinct k i j log Hne Hci Hcj) as H2.
  pose proof (claims_bounded_by_issues (zip (lease_ops log).*1 nows) m k) as Hb.
  rewrite Hrun in Hb. cbn [snd] in Hb. unfold issued_once, claimable_at in *.
  destruct (m !! k) as [l|]; simpl in *; [pose proof (b2z_bounds (claimable l))|]; lia.
Qed.

(** ** The run record follows the result *)

Abbreviation Runs := (gmap RunStateKey RunRecord).

(** A call as the in-memory run store answers it.  The combined store persists the
    approval and blocks the run in one transaction; it may refuse. *)
Definition run_step (m : Runs) (ev : event hostE) (m' : Runs) : Prop :=
  match ev with
  | Ev e x =>
      match e in hostE X return X -> Prop with
      | RunStateStart s => fun r => run_start m s = (m', r)
      | RunStateGet scope id => fun r => m' = m /\ r = Ok (run_get m scope id)
      | RunStateBlockApproval scope id approval =>
          fun r => run_block_approval m scope id approval = (m', r)
      | RunStateBlockAuth scope id k => fun r => run_block_auth m scope id k = (m', r)
      | RunStateComplete scope id => fun r => run_complete m scope id = (m', r)
      | RunStateFail scope id k => fun r => run_fail m scope id k = (m', r)
      | SavePendingAndBlockApproval scope id approval => fun r =>
          if is_ok r then run_block_approval m scope id approval = (m', r) else m' = m
      | _ => fun _ => m' = m
      end x
  end.

Fixpoint run_steps (m : Runs) (t : list (event hostE)) (m' : Runs) : Prop :=
  match t with
  | [] => m' = m
  | ev :: t' => exists m1, run_step m ev m1 /\ run_steps m1 t' m'
  end.

Lemma run_steps_app m t1 t2 m' :
  run_steps m (t1 ++ t2) m' <-> exists m1, run_steps m t1 m1 /\ run_steps m1 t2 m'.
Proof.
  revert m. induction t1 as [|ev t1 IH]; intros m; simpl.
  - split; [intros H; by exists m | by intros (m1 & -> & H)].
  - split.
    + intros (m1 & H1 & (m2 & H2 & H3)%IH). exists m2. split; [by exists m1|done].
    + intros (m2 & (m1 & H1 & H2) & H3). exists m1. split; [done|]. apply IH. by exists m2.
Qed.

(** The state of a run after an invocation returned. *)
Definition run_status_of {R} (r : result R CapabilityInvocationError) : RunStatus :=
  match r with
  | Ok _ => RunCompleted
  | Err (CiAuthorizationRequiresApproval _) => BlockedApproval
  | Err (CiAuthorizationRequiresAuth _ BeforeDispatch _ _) => BlockedAuth
  | Err (CiDispatch _ _) => RunRunning
  | Err _ => RunFailed
  end.

Section Invocation.
Variable self : CapabilityHost.
Variable scope : ResourceScope.
Variable id : InvocationId.
Variable m0 : Runs.

(** The invocation's record is in [st] and no other record has changed. *)
Definition in_state (st : RunStatus) (m : Runs) : Prop :=
  (exists rec, m !! RunStateKey_new scope id = Some rec /\ rr_status rec = st) /\
  forall k, k <> RunStateKey_new scope id -> m !! k = m0 !! k.

Lemma update_in_state st st' a e m m' r :
  in_state st m -> run_update m scope id (set_run st' a e) = (m', r) ->
  in_state st' m' /\ exists rec, r = Ok rec.
Proof.
  intros [(rec & Hm & _) Hf]. unfold run_update. rewrite Hm. intros [= <- <-]. split; [|by eexists].
  split; [exists (set_run st' a e rec); by rewrite lookup_insert_eq|].
  intros k Hk. rewrite lookup_insert_ne by done. by apply Hf.
Qed.

(** [p] takes the record to [next r] when it returns [r]. *)
Definition moves {R} (p : prog hostE R) (st : RunStatus) (next : R -> RunStatus) : Prop :=
  forall m m' t r, in_state st m -> traces p t r -> run_steps m t m' -> in_state (next r) m'.

Lemma moves_ret {R} (x : R) st next : next x = st -> moves (Ret x) st next.
Proof. intros <- m m' t r Hm [-> ->]. simpl. by intros ->. Qed.

Lemma moves_bind {R S} (p : prog hostE R) (k : R -> prog hostE S) st mid next :
  moves p st mid -> (forall x, moves (k x) (mid x) next) -> moves (pbind p k) st next.
Proof.
  intros Hp Hk m m' t r Hm (t1 & t2 & x & -> & H1 & H2)%traces_bind (m1 & Hs1 & Hs2)%run_steps_app.
  by eapply (Hk x m1); [eapply (Hp m)|..].
Qed.

(** A call that is none of the run store's. *)
Lemma moves_other {X} (e : hostE X) st :
  (forall m m' x, run_step m (Ev e x) m' -> m' = m) -> moves (trigger e) st (fun _ => st).
Proof.
  intros He m m' t r Hm (x & t' & -> & -> & ->) (m1 & Hs & ->). by rewrite (He _ _ _ Hs).
Qed.

Lemma fail_moves st k : moves (fail_run_if_configured true scope id k) st (fun _ => RunFailed).
Proof.
  intros m m' t r Hm (x & t' & -> & -> & _) (m1 & Hs & ->).
  by apply (update_in_state st _ _ _ _ _ _ Hm Hs).
Qed.

Lemma block_auth_moves st k :
  moves (do! trigger (RunStateBlockAuth scope id k) in Ret tt) st (fun _ => BlockedAuth).
Proof.
  intros m m' t r Hm (x & t' & -> & -> & _) (m1 & Hs & ->).
  by apply (update_in_state st _ _ _ _ _ _ Hm Hs).
Qed.

Lemma complete_moves st : moves (complete_run_after_side_effect scope id) st (fun _ => RunCompleted).
Proof.
  intros m m' t r Hm (x & t' & -> & -> & _) (m1 & Hs & ->).
  by apply (update_in_state st _ _ _ _ _ _ Hm Hs).
Qed.

Definition after_transition (st : RunStatus) (e : CapabilityInvocationError) : RunStatus :=
  match run_state_transition e with
  | None => st | Some (TransFail _) => RunFailed | Some (TransBlockAuth _) => BlockedAuth end.

Lemma apply_moves st e :
  moves (apply_run_state_transition_if_configured true scope id e) st (fun _ => after_transition st e).
Proof.
  unfold apply_run_state_transition_if_configured, after_transition.
  destruct (run_state_transition e) as [[k|k]|];
    [apply fail_moves | apply block_auth_moves | by apply moves_ret].
Qed.

(** As [moves_bind], when [p] returns only results in [P]. *)
Lemma moves_bind_post {R S} (p : prog hostE R) (k : R -> prog hostE S) (P : R -> Prop) st mid next :
  moves p st mid -> (forall t x, traces p t x -> P x) -> (forall x, P x -> moves (k x) (mid x) next) ->
  moves (pbind p k) st next.
Proof.
  intros Hp HP Hk m m' t r Hm (t1 & t2 & x & -> & H1 & H2)%traces_bind (m1 & Hs1 & Hs2)%run_steps_app.
  by eapply (Hk x (HP _ _ H1) m1); [eapply (Hp m)|..].
Qed.

Lemma moves_fail_ret {R} k (x : R) st next :
  next x = RunFailed -> moves (do! fail_run_if_configured true scope id k in Ret x) st next.
Proof. intros Hx. eapply moves_bind; [apply fail_moves|]. intros ?. by apply moves_ret. Qed.

(** The errors for which the run-state transition is what the result says. *)
Definition transits (e : CapabilityInvocationError) : Prop :=
  after_transition RunRunning e = run_status_of (Err (A := unit) e).

Lemma prepare_error_transits c e : transits (prepare_obligation_error_to_invocation c e).
Proof. by destruct e. Qed.
Lemma dispatch_error_transits e : transits (of_dispatch_error e).
Proof. by destruct e. Qed.
Lemma completion_error_fails {R} c e :
  run_status_of (Err (A := R) (completion_obligation_error_to_invocation c e)) = RunFailed.
Proof. by destruct e. Qed.

Lemma prepare_moves phase context c estimate obligations st :
  moves (prepare_obligations self phase context c estimate obligations) st (fun _ => st).
Proof.
  unfold prepare_obligations. case_bool_decide; [by apply moves_ret|].
  destruct (bool_decide _ && _); [by apply moves_ret|]. destruct (negb _); [by apply moves_ret|].
  eapply moves_bind; [by apply moves_other|]. intros ?. by apply moves_ret.
Qed.

Lemma prepare_results phase context c estimate obligations t r :
  traces (prepare_obligations self phase context c estimate obligations) t r ->
  match r with Ok _ => True | Err e => transits e end.
Proof.
  unfold prepare_obligations. case_bool_decide; [by intros [_ ->]|].
  destruct (bool_decide _ && _); [by intros [_ ->]|]. destruct (negb _); [by intros [_ ->]|].
  intros ([o|e] & t' & _ & _ & ->); [done|]. apply prepare_error_transits.
Qed.

Lemma abort_moves phase context c estimate obligations outcome st :
  moves (abort_obligations self phase context c estimate obligations outcome) st (fun _ => st).
Proof.
  unfold abort_obligations. case_bool_decide; [by apply moves_ret|]. destruct (negb _); [by apply moves_ret|].
  eapply moves_bind; [by apply moves_other|]. intros ?. by apply moves_ret.
Qed.

Lemma complete_obligations_moves phase context c estimate obligations d st :
  moves (complete_dispatch_obligations self phase context c estimate obligations d) st (fun _ => st).
Proof.
  unfold complete_dispatch_obligations. case_bool_decide; [by apply moves_ret|].
  destruct (negb _); [case_bool_decide; by apply moves_ret|].
  eapply moves_bind; [by apply moves_other|]. intros ?. by apply moves_ret.
Qed.

Lemma complete_obligations_results {R} phase context c estimate obligations d t r :
  traces (complete_dispatch_obligations self phase context c estimate obligations d) t r ->
  match r with Ok _ => True | Err e => run_status_of (Err (A := R) e) = RunFailed end.
Proof.
  unfold complete_dispatch_obligations. case_bool_decide; [by intros [_ ->]|].
  destruct (negb _); [case_bool_decide; by intros [_ ->]|].
  intros ([o|e] & t' & _ & _ & ->); [done|]. apply completion_error_fails.
Qed.

(** ** The approval branch *)

Hypothesis configured : ch_run_state self = true.

Definition error_state (e : CapabilityInvocationError) : RunStatus := run_status_of (Err (A := unit) e).

Lemma block_approval_moves approval (f : RunStateError -> CapabilityInvocationError) e k st :
  error_state e = BlockedApproval ->
  moves (let! r := trigger (RunStateBlockApproval scope id approval) in
         match r with Err error => k error | Ok _ => Ret e end) st error_state.
Proof.
  intros He m m' t r Hm (x & t' & -> & Ht) (m1 & Hs & Hs'). cbn [pbind] in Ht.
  destruct (update_in_state st _ _ _ _ _ _ Hm Hs) as [Hm1 [rec ->]]. destruct Ht as [-> ->].
  simpl in Hs'. subst m'. by rewrite He.
Qed.

Lemma persist_moves c approval st :
  moves (persist_and_block self scope id c approval) st error_state.
Proof.
  unfold persist_and_block. rewrite configured.
  destruct (ch_approval_requests self); [|by apply moves_fail_ret].
  destruct (ch_run_state_approval_store self).
  - intros m m' t r Hm (x & t' & -> & Ht) (m1 & Hs & Hs'). cbn [pbind] in Ht. destruct x as [rec|e].
    + destruct (update_in_state st _ _ _ _ _ _ Hm Hs) as [Hm1 _]. destruct Ht as [-> ->].
      simpl in Hs'. by subst m'.
    + simpl in Hs. subst m1. by apply (moves_fail_ret "ApprovalBlock" (CiRunState e) st error_state eq_refl m m' t').
  - eapply moves_bind; [by apply moves_other|]. intros [rec|e]; [|by apply moves_fail_ret].
    by apply (block_approval_moves _ CiRunState).
Qed.

Lemma validate_error approval context c estimate kind e :
  validate_approval_request_matches_invocation approval context c estimate kind = Err e ->
  error_state e = RunFailed.
Proof.
  unfold validate_approval_request_matches_invocation. cbv zeta.
  destruct (negb _); [by intros [= <-]|]. destruct (negb _); [by intros [= <-]|].
  destruct (negb _); by intros [= <-].
Qed.

Lemma require_approval_moves kind context c estimate input approval st :
  ec_resource_scope context = scope -> ec_invocation_id context = id ->
  moves (require_approval self kind context c estimate input approval) st error_state.
Proof.
  intros Hs Hi. unfold require_approval. rewrite Hs, Hi, configured. cbv zeta.
  destruct (negb _); [by apply moves_fail_ret|].
  destruct (invocation_fingerprint_for_kind _ _ _ _ _); [|by apply moves_fail_ret].
  destruct (validate_approval_request_matches_invocation _ _ _ _ _) eqn:Hv;
    [|apply moves_fail_ret; by eapply validate_error].
  destruct (ar_invocation_fingerprint approval); [|apply persist_moves].
  destruct (negb _); [by apply moves_fail_ret|apply persist_moves].
Qed.

(** ** The whole invocation *)

Lemma authorize_and_admit_moves kind context c estimate input trust m' t r :
  ec_resource_scope context = scope -> ec_invocation_id context = id ->
  ExecutionContext_validate context = Ok tt -> m0 !! RunStateKey_new scope id = None ->
  traces (authorize_and_admit self kind context c estimate input trust) t r -> run_steps m0 t m' ->
  in_state (match r with Ok _ => RunRunning | Err e => error_state e end) m'.
Proof.
  intros Hscope Hid Hv Hnew. unfold authorize_and_admit. rewrite Hv, Hscope, Hid, configured. cbn [is_err is_ok negb].
  intros (started & t' & -> & Ht) (m1 & Hs & Hs'). cbn [pbind] in Ht. simpl in Hs.
  unfold run_start in Hs. simpl in Hs. rewrite Hnew in Hs. injection Hs as <- <-.
  revert Ht Hs'. set (next := fun r : result admitted CapabilityInvocationError =>
    match r with Ok _ => RunRunning | Err e => error_state e end).
  change (match r with Ok _ => RunRunning | Err e => error_state e end) with (next r). intros Ht Hs'.
  match type of Ht with traces ?p _ _ => assert (moves p RunRunning next) as Hmoves end.
  { clear Ht Hs'. destruct (get_capability (ch_registry self) c); [|by apply moves_fail_ret].
    eapply moves_bind; [by apply moves_other|]. intros [allowed|reason|approval].
    - eapply moves_bind_post; [apply prepare_moves|apply prepare_results|]. intros [outcome|e] Hp.
      + eapply moves_bind; [by apply moves_other|]. intros [rev|reason]; [by apply moves_ret|].
        eapply moves_bind; [apply abort_moves|]. intros ?. by apply moves_fail_ret.
      + eapply moves_bind; [apply apply_moves|]. intros ?. by apply moves_ret.
    - by apply moves_fail_ret.
    - eapply moves_bind; [by apply require_approval_moves|]. intros e. by apply moves_ret. }
  eapply Hmoves; [|exact Ht|exact Hs'].
  split; [eexists; by rewrite lookup_insert_eq|]. intros k Hk. by rewrite lookup_insert_ne.
Qed.

Lemma invoke_moves request m' t r :
  ec_resource_scope (cir_context request) = scope -> ec_invocation_id (cir_context request) = id ->
  ExecutionContext_validate (cir_context request) = Ok tt -> m0 !! RunStateKey_new scope id = None ->
  traces (invoke_json self request) t r -> run_steps m0 t m' -> in_state (run_status_of r) m'.
Proof.
  intros Hscope Hid Hv Hnew. unfold invoke_json.
  intros (t1 & t2 & ad & -> & Ha & Ht)%traces_bind (m1 & Hs1 & Hs2)%run_steps_app.
  apply (authorize_and_admit_moves _ _ _ _ _ _ m1) in Ha; [|done..].
  destruct ad as [ad|e]; [|destruct Ht as [-> ->]; simpl in Hs2; by subst m'].
  rewrite Hscope, Hid, configured in Ht.
  match type of Ht with traces ?p _ _ =>
    enough (moves p RunRunning run_status_of) as Hmv by exact (Hmv m1 m' t2 r Ha Ht Hs2) end.
  clear Ht Hs2.
  eapply moves_bind; [by apply moves_other|]. intros [d|e]; cbv zeta.
  - eapply moves_bind_post; [apply complete_obligations_moves|apply (complete_obligations_results (R := CapabilityInvocationResult))|].
    intros [d'|e] He.
    + eapply moves_bind; [apply complete_moves|]. intros ?. by apply moves_ret.
    + eapply moves_bind; [apply abort_moves|]. intros ?. by apply moves_fail_ret.
  - eapply moves_bind; [apply abort_moves|]. intros ?.
    eapply moves_bind; [apply apply_moves|]. intros ?. apply moves_ret.
    by rewrite dispatch_error_transits; destruct e.
Qed.

Lemma spawn_moves request m' t r :
  ec_resource_scope (csr_context request) = scope -> ec_invocation_id (csr_context request) = id ->
  ExecutionContext_validate (csr_context request) = Ok tt -> m0 !! RunStateKey_new scope id = None ->
  ch_process_manager self = true ->
  traces (spawn_json self request) t r -> run_steps m0 t m' -> in_state (run_status_of r) m'.
Proof.
  intros Hscope Hid Hv Hnew Hpm. unfold spawn_json. rewrite Hpm. cbn [negb].
  intros (t1 & t2 & ad & -> & Ha & Ht)%traces_bind (m1 & Hs1 & Hs2)%run_steps_app.
  apply (authorize_and_admit_moves _ _ _ _ _ _ m1) in Ha; [|done..].
  destruct ad as [ad|e]; [|destruct Ht as [-> ->]; simpl in Hs2; by subst m'].
  rewrite Hscope, Hid, configured in Ht.
  match type of Ht with traces ?p _ _ =>
    enough (moves p RunRunning run_status_of) as Hmv by exact (Hmv m1 m' t2 r Ha Ht Hs2) end.
  clear Ht Hs2.
  eapply moves_bind; [by apply moves_other|]. intros process_id.
  eapply moves_bind; [by apply moves_other|]. intros [p|e].
  - eapply moves_bind; [apply complete_moves|]. intros ?. by apply moves_ret.
  - eapply moves_bind; [apply abort_moves|]. intros ?. by apply moves_fail_ret.
Qed.
End Invocation.

(** C4: with the in-memory run store attached, the record of an invocation ends in the
    state that its result tells.  An invocation (or a spawn) of a valid context whose
    run is new creates the run's record and leaves it [Completed] on success,
    [BlockedApproval] when the caller is told to wait for an approval, [BlockedAuth]
    when credentials are missing before dispatch, [Running] when the dispatcher
    failed, and [Failed] on every other error; no other run's record changes. *)
Theorem run_record_follows_result self m m' t :
  ch_run_state self = true ->
  (forall request r,
     ExecutionContext_validate (cir_context request) = Ok tt ->
     run_get m (ec_resource_scope (cir_context request)) (ec_invocation_id (cir_context request))
       = None ->
     traces (invoke_json self request) t r -> run_steps m t m' ->
     in_state (ec_resource_scope (cir_context request)) (ec_invocation_id (cir_context request)) m
       (run_status_of r) m') /\
  (forall request r, ch_process_manager self = true ->
     ExecutionContext_validate (csr_context request) = Ok tt ->
     run_get m (ec_resource_scope (csr_context request)) (ec_invocation_id (csr_context request))
       = None ->
     traces (spawn_json self request) t r -> run_steps m t m' ->
     in_state (ec_resource_scope (csr_context request)) (ec_invocation_id (csr_context request)) m
       (run_status_of r) m').
Proof.
  intros Hrs. split; intros request r; [intros Hv Hnew Ht Hs | intros Hpm Hv Hnew Ht Hs].
  - by eapply invoke_moves.
  - by eapply spawn_moves.
Qed.
End HostRuns.

(** ** A concrete host: one registered capability *)

Module HostExample.
#[export] Existing Instance FingerprintExample.crates.
#[local] Existing Instance value_json | 0.

Definition capability : CapabilityId := mk_CapabilityId "demo.run".
Definition scope : ResourceScope := example_scope None None.

Definition descriptor : CapabilityDescriptor :=
  mk_CapabilityDescriptor _ capability (from_trusted "demo") RuntimeMcp UserTrusted "runs" VNull [ReadFilesystem]
    PermAsk [] None.

Definition registry : ExtensionRegistry := mk_ExtensionRegistry ∅ {[ capability := descriptor ]} ∅ [] [capability].

Definition context : ExecutionContext :=
  mk_ExecutionContext (from_uuid 7) (from_uuid 8) None None (from_trusted "acme") (from_trusted "ann") None None None
    (from_trusted "demo") RuntimeMcp UserTrusted (mk_CapabilitySet []) (mk_MountView []) scope.

Definition trust : TrustDecision :=
  mk_TrustDecision eff_user_trusted (mk_AuthorityCeiling [ReadFilesystem] None) ProvAdminConfig 0.

Definition host : CapabilityHost :=
  with_capability_leases (with_approval_requests (with_run_state (CapabilityHost_new registry true))).

Definition request : CapabilityInvocationRequest :=
  mk_CapabilityInvocationRequest context capability ResourceEstimate_default VNull trust.

Definition failure : CapabilityInvocationError := CiDispatch (FkRuntime RkBackend) None.

(** The dispatcher fails after everything was granted. *)
Definition failed_run : list (event hostE) :=
  [Ev (RunStateStart (mk_RunStart (from_uuid 7) capability scope))
      (Ok (mk_RunRecord (from_uuid 7) capability scope RunRunning None None));
   Ev (Authorize KindDispatch context descriptor ResourceEstimate_default trust) (Allow (mk_Obligations []));
   Ev (AdmitPrepared context descriptor ResourceEstimate_default trust []) (Ok (Some 3));
   Ev (DispatchCapability (dispatch_of capability context ResourceEstimate_default VNull
         CapabilityObligationOutcome_default)) (Err (McpFailed RkBackend))].

Lemma registered : get_capability registry capability = Some descriptor.
Proof. apply lookup_singleton_eq. Qed.

Lemma failed_run_traces : traces (invoke_json host request) failed_run (Err failure).
Proof.
  unfold invoke_json, authorize_and_admit. cbn [cir_context cir_capability_id request ch_registry host
    with_capability_leases with_approval_requests with_run_state CapabilityHost_new].
  rewrite registered. cbn -[get_capability]. do 2 eexists. split; [reflexivity|].
  do 2 eexists. split; [reflexivity|]. do 2 eexists. split; [reflexivity|].
  do 2 eexists. split; [reflexivity|]. done.
Qed.

(** The same action, resumed under an approval: the dispatcher fails again. *)
Definition fingerprint : InvocationFingerprint := FingerprintExample.token "dispatchdemo.run".

Definition approval : ApprovalRecord :=
  mk_ApprovalRecord scope
    (mk_ApprovalRequest (from_uuid 5) (from_uuid 8) (PExtension (from_trusted "demo"))
       (HostTypes.Dispatch capability ResourceEstimate_default) (Some fingerprint) "" None) Approved.

Definition lease : CapabilityLease :=
  mk_CapabilityLease scope
    (mk_CapabilityGrant (from_uuid 6) capability (PUser (from_trusted "ann")) PHostRuntime
       (mk_GrantConstraints [ReadFilesystem] (mk_MountView []) NetworkPolicy_default [] None None (Some 1)))
    (Some fingerprint) LActive.

Definition resume_request : CapabilityResumeRequest :=
  mk_CapabilityResumeRequest context (from_uuid 5) capability ResourceEstimate_default VNull trust.

(** The calls up to the claim. *)
Definition resume_start : list (event hostE) :=
  [Ev (RunStateGet scope (from_uuid 7))
      (Ok (Some (mk_RunRecord (from_uuid 7) capability scope BlockedApproval (Some (from_uuid 5)) None)));
   Ev (ApprovalsGet scope (from_uuid 5)) (Ok (Some approval));
   Ev (ActiveLeases context) [lease];
   Ev (Authorize KindDispatch (push_grant context (cl_grant lease)) descriptor ResourceEstimate_default trust)
      (Allow (mk_Obligations []))].

Definition claim_call (x : result CapabilityLease CapabilityLeaseError) : event hostE :=
  Ev (LeaseClaim scope (from_uuid 6) fingerprint) x.

Definition resume_end : list (event hostE) :=
  [Ev (DispatchCapability (dispatch_of capability context ResourceEstimate_default VNull
         CapabilityObligationOutcome_default)) (Err (McpFailed RkBackend));
   Ev (LeaseRevoke scope (from_uuid 6)) (Ok (set_status lease LRevoked))].

Definition winner : list (event hostE) :=
  resume_start ++ claim_call (Ok (set_status lease LClaimed)) :: resume_end.
Definition loser : list (event hostE) :=
  resume_start ++ [claim_call (Err (InactiveLease (from_uuid 6) LClaimed))].

Lemma fingerprint_ok :
  invocation_fingerprint_for_kind KindDispatch scope capability ResourceEstimate_default VNull = Ok fingerprint.
Proof. by vm_compute. Qed.

Lemma request_matches :
  validate_approval_request_matches_invocation (ap_request approval) context capability
    ResourceEstimate_default KindDispatch = Ok tt.
Proof.
  unfold validate_approval_request_matches_invocation.
  change (ar_action (ap_request approval)) with (HostTypes.Dispatch capability ResourceEstimate_default).
  change (ResourceEstimate_eqb ResourceEstimate_default ResourceEstimate_default) with true.
  by rewrite !bool_decide_eq_true_2.
Qed.

Lemma context_valid : ExecutionContext_validate context = Ok tt.
Proof. reflexivity. Qed.

(** Take the answer the trace gives and go on to the next call. *)
Ltac answer := do 2 eexists; split;
  [reflexivity
  | cbn -[bool_decide validate_approval_request_matches_invocation ap_request context ap_status];
    rewrite ?bool_decide_eq_true_2 by done;
    cbn -[bool_decide validate_approval_request_matches_invocation ap_request context ap_status]].

Ltac resume_to_claim :=
  unfold resume_json, resume_authorized;
  cbn [crr_context crr_capability_id crr_estimate crr_input resume_request ch_run_state
    ch_approval_requests ch_capability_leases ch_supports_operation_approval host with_capability_leases
    with_approval_requests with_run_state CapabilityHost_new negb];
  change (ec_resource_scope context) with scope; rewrite context_valid, fingerprint_ok;
  unfold resume_validate;
  cbn [crr_context crr_capability_id crr_estimate crr_approval_request_id resume_request ch_registry
    host with_capability_leases with_approval_requests with_run_state CapabilityHost_new];
  rewrite registered; cbn -[get_capability validate_approval_request_matches_invocation bool_decide];
  answer; answer; rewrite request_matches; cbn -[bool_decide]; answer; answer.

Lemma winner_traces : traces (resume_json host resume_request) winner (Err failure).
Proof. resume_to_claim. answer. answer. answer. done. Qed.

Lemma loser_traces :
  traces (resume_json host resume_request) loser (Err (CiLease (InactiveLease (from_uuid 6) LClaimed))).
Proof. resume_to_claim. answer. done. Qed.

(** The lease is issued; both resumes run at once; the second claims after the first. *)
Definition log : list logged :=
  ByOther (LIssue lease) (Ok lease) :: map (ByRun 0) resume_start ++ map (ByRun 1) resume_start
  ++ [ByRun 0 (claim_call (Ok (set_status lease LClaimed)));
      ByRun 1 (claim_call (Err (InactiveLease (from_uuid 6) LClaimed)))]
  ++ map (ByRun 0) resume_end.
End HostExample.

#[local] Existing Instance FingerprintExample.crates.
#[local] Existing Instance value_json | 0.

Lemma side_effects_authorized_witness :
  exists ad answer tail r',
    admitted_ok HostExample.host KindDispatch HostExample.context HostExample.capability
      ResourceEstimate_default ad /\
    loud HostExample.failed_run
    = admitted_events KindDispatch HostExample.context HostExample.capability ResourceEstimate_default
        HostExample.trust ad
      ++ Ev (DispatchCapability (dispatch_of HostExample.capability HostExample.context
               ResourceEstimate_default VNull (ad_outcome ad))) answer :: tail /\
    Err HostExample.failure
    = result_map (fun d => mk_CapabilityInvocationResult d (ad_policy_revision ad)) r'.
Proof.
  destruct (side_effects_authorized HostExample.host) as [H _].
  destruct (H HostExample.request HostExample.failed_run _ HostExample.failed_run_traces)
    as [[_ Hr]|(ad & answer & tail & r' & H1 & H2 & _ & H3)].
  - exfalso. destruct Hr as [Hr|[Hr|Hr]]; discriminate Hr.
  - exists ad, answer, tail, r'. split; [exact H1|]. split; [exact H2|exact H3].
Defined.

Lemma resume_runs_what_was_approved_witness :
  exists run approval lease fp rs,
    resume_checked HostExample.host KindDispatch HostExample.resume_request run approval lease fp rs.
Proof.
  destruct (resume_runs_what_was_approved HostExample.host) as [H _].
  destruct (H HostExample.resume_request HostExample.winner _ HostExample.winner_traces)
    as [[_ Hr]|(run & approval & lease & fp & rs & answer & tail & r' & last & H1 & _)].
  - exfalso. destruct Hr as [Hr|[Hr|Hr]]; discriminate Hr.
  - exists run, approval, lease, fp, rs. exact H1.
Defined.

Lemma concurrent_resumes_act_once_witness :
  answered_by ∅ HostExample.log /\
  length (List.filter is_effect (run_of 0 HostExample.log)) = 1%nat /\
  ~ Exists (claims (lease_key HostExample.lease)) (run_of 1 HostExample.log).
Proof.
  assert (answered_by ∅ HostExample.log) as Ha.
  { exists [0; 0; 0; 0], (lease_run ∅ (zip (lease_ops HostExample.log).*1 [0; 0; 0; 0])).1.
    rewrite (surjective_pairing (lease_run _ _)) at 1. f_equal; vm_compute; reflexivity. }
  assert (run_of 0 HostExample.log = HostExample.winner) as H0 by reflexivity.
  assert (run_of 1 HostExample.log = HostExample.loser) as H1 by reflexivity.
  split; [exact Ha|]. split; [rewrite H0; reflexivity|]. intros Hc.
  assert (0%nat = 1%nat); [|discriminate].
  apply (concurrent_resumes_act_once ∅ HostExample.log (lease_key HostExample.lease) 0 1).
  - exact Ha.
  - vm_compute. discriminate.
  - exists HostExample.host, HostExample.resume_request. left. rewrite H0.
    eapply traces_begin, HostExample.winner_traces.
  - exists HostExample.host, HostExample.resume_request. left. rewrite H1.
    eapply traces_begin, HostExample.loser_traces.
  - rewrite H0. apply Exists_exists. exists (HostExample.claim_call (Ok (set_status HostExample.lease LClaimed))).
    split; [apply elem_of_app; right; left|]. do 4 eexists. split; [reflexivity|reflexivity].
  - exact Hc.
Defined.

Lemma run_record_follows_result_witness :
  exists m', run_steps ∅ HostExample.failed_run m' /\
    in_state HostExample.scope (from_uuid 7) ∅ RunRunning m'.
Proof.
  eexists. assert (run_steps ∅ HostExample.failed_run
    {[RunStateKey_new HostExample.scope (from_uuid 7) :=
        mk_RunRecord (from_uuid 7) HostExample.capability HostExample.scope RunRunning None None]}) as Hs.
  { eexists. split; [reflexivity|]. eexists. split; [reflexivity|]. eexists. split; [reflexivity|].
    eexists. split; [reflexivity|]. reflexivity. }
  split; [exact Hs|].
  destruct (run_record_follows_result HostExample.host ∅
    {[RunStateKey_new HostExample.scope (from_uuid 7) :=
        mk_RunRecord (from_uuid 7) HostExample.capability HostExample.scope RunRunning None None]}
    HostExample.failed_run eq_refl) as [H _].
  exact (H HostExample.request _ HostExample.context_valid eq_refl HostExample.failed_run_traces Hs).
Defined.
