(* ===== verification/Approvals.v ===== *)
(** * Resolving approvals

    [crates/brassclaw_approvals/src/lib.rs]: [ApprovalResolver] turns the answer to
    an approval request into a lease.  It works against two interfaces, the
    approval-request store and the lease store; the in-memory stores of [RunState]
    and [Leases] implement them.  A call of the resolver is a process whose steps
    are the single store calls it makes (read the request, settle it, issue the
    lease), so that any number of calls interleave with each other and with other
    users of both stores.  Fresh identifiers and the clock are arguments of a step.
    A store call that reports an error may have taken effect all the same.
    The theorem: every lease is backed by an approved request, with the request's
    capability, requester, scope and fingerprint; of all calls racing on a request
    at most one settles it. *)

From S2P Require Import Prelude External HostIds Paths HostTypes Obligations Leases RunState AuditEnvelopes.

Open Scope Z_scope.

(** ** The two stores *)

Class ApprovalRequestStore `{Decimal} (A : Type) : Type := {
  ars_save_pending : A -> ResourceScope -> ApprovalRequest -> A * result ApprovalRecord RunStateError;
  ars_get : A -> ResourceScope -> ApprovalRequestId ->
    result (option ApprovalRecord) RunStateError;
  ars_approve : A -> ResourceScope -> ApprovalRequestId -> A * result ApprovalRecord RunStateError;
  ars_deny : A -> ResourceScope -> ApprovalRequestId -> A * result ApprovalRecord RunStateError;
  ars_discard_pending : A -> ResourceScope -> ApprovalRequestId ->
    A * result ApprovalRecord RunStateError }.

Section Effects.
Context `{D : Decimal}.

(** The pending record at [k] becomes [rec], settled as [st]. *)
Definition settled_as (at0 at1 : ApprovalKey -> option ApprovalRecord) (k : ApprovalKey)
    (st : ApprovalStatus) (rec : ApprovalRecord) : Prop :=
  exists rec0, at0 k = Some rec0 /\ ap_status rec0 = Pending /\
    rec = set_approval rec0 st /\ at1 k = Some rec /\ forall k', k' <> k -> at1 k' = at0 k'.

(** A call that succeeds settles the record; one that reports an error has changed
    nothing, or has settled it and lost the acknowledgement. *)
Definition settles (at0 at1 : ApprovalKey -> option ApprovalRecord) (k : ApprovalKey)
    (st : ApprovalStatus) (r : result ApprovalRecord RunStateError) : Prop :=
  match r with
  | Err _ => (forall k', at1 k' = at0 k') \/ exists rec, settled_as at0 at1 k st rec
  | Ok rec => settled_as at0 at1 k st rec
  end.

(** The lease is stored, and no other is touched. *)
Definition issued_as (at0 at1 : CapabilityLeaseKey -> option CapabilityLease)
    (l : CapabilityLease) : Prop :=
  at1 (lease_key l) = Some l /\ forall k, k <> lease_key l -> at1 k = at0 k.

(** A lease keeps what it authorises whatever happens to its status and count. *)
Definition same_authority (l l' : CapabilityLease) : Prop :=
  cl_scope l' = cl_scope l /\ lease_id l' = lease_id l /\
  cg_capability (cl_grant l') = cg_capability (cl_grant l) /\
  cg_grantee (cl_grant l') = cg_grantee (cl_grant l) /\
  cl_invocation_fingerprint l' = cl_invocation_fingerprint l.

End Effects.

Class ApprovalRequestStoreLaws `{Decimal} (A : Type) {AS : ApprovalRequestStore A} : Type := {
  ars_at : A -> ApprovalKey -> option ApprovalRecord;
  ars_get_at a scope id o : ars_get a scope id = Ok o -> o = ars_at a (ApprovalKey_new scope id);
  ars_approve_at a scope id a' r : ars_approve a scope id = (a', r) ->
    settles (ars_at a) (ars_at a') (ApprovalKey_new scope id) Approved r;
  ars_deny_at a scope id a' r : ars_deny a scope id = (a', r) ->
    settles (ars_at a) (ars_at a') (ApprovalKey_new scope id) Denied r;
  ars_save_at a scope req a' r k : ars_save_pending a scope req = (a', r) ->
    ars_at a' k = ars_at a k \/
    (k = ApprovalKey_new scope (ar_id req) /\ ars_at a k = None /\
     ars_at a' k = Some (mk_ApprovalRecord scope req Pending));
  ars_discard_at a scope id a' r k : ars_discard_pending a scope id = (a', r) ->
    ars_at a' k = ars_at a k \/
    (ars_at a' k = None /\ exists rec, ars_at a k = Some rec /\ ap_status rec = Pending) }.

Class CapabilityLeaseStore `{Decimal} (L : Type) : Type := {
  cls_issue : L -> CapabilityLease -> L * result CapabilityLease CapabilityLeaseError;
  cls_revoke : L -> ResourceScope -> CapabilityGrantId ->
    L * result CapabilityLease CapabilityLeaseError;
  cls_claim : L -> ResourceScope -> CapabilityGrantId -> InvocationFingerprint -> Z ->
    L * result CapabilityLease CapabilityLeaseError;
  cls_consume : L -> ResourceScope -> CapabilityGrantId -> Z ->
    L * result CapabilityLease CapabilityLeaseError }.

Class CapabilityLeaseStoreLaws `{Decimal} (L : Type) {LS : CapabilityLeaseStore L} : Type := {
  cls_at : L -> CapabilityLeaseKey -> option CapabilityLease;
  cls_issue_at s l s' r : cls_issue s l = (s', r) ->
    match r with
    | Ok l' => l' = l /\ issued_as (cls_at s) (cls_at s') l
    | Err _ => (forall k, cls_at s' k = cls_at s k) \/ issued_as (cls_at s) (cls_at s') l
    end;
  cls_revoke_at s scope id s' r k l' : cls_revoke s scope id = (s', r) ->
    cls_at s' k = Some l' -> exists l, cls_at s k = Some l /\ same_authority l l';
  cls_claim_at s scope id fp now s' r k l' : cls_claim s scope id fp now = (s', r) ->
    cls_at s' k = Some l' -> exists l, cls_at s k = Some l /\ same_authority l l';
  cls_consume_at s scope id now s' r k l' : cls_consume s scope id now = (s', r) ->
    cls_at s' k = Some l' -> exists l, cls_at s k = Some l /\ same_authority l l' }.

(** ** The in-memory stores *)

Section InMemoryStores.
Context `{D : Decimal}.

#[export] Instance in_memory_approvals :
    ApprovalRequestStore (gmap ApprovalKey ApprovalRecord) := {|
  ars_save_pending := save_pending;
  ars_get m scope id := Ok (approval_get m scope id);
  ars_approve := approve;
  ars_deny := deny;
  ars_discard_pending := discard_pending |}.

Lemma update_status_settles (m m' : gmap ApprovalKey ApprovalRecord) scope id st r :
  update_status m scope id st = (m', r) ->
  settles (fun k => m !! k) (fun k => m' !! k) (ApprovalKey_new scope id) st r.
Proof.
  intros [(e & -> & ->)|(rec & Hm & Hp & -> & ->)]%update_status_cases; [by left|].
  exists rec. look. split_and!; [done..|]. intros k' Hk. by look.
Qed.

#[export] Program Instance in_memory_approvals_laws :
    ApprovalRequestStoreLaws (gmap ApprovalKey ApprovalRecord) := {| ars_at m k := m !! k |}.
Next Obligation. simpl. by intros a scope id o [= <-]. Qed.
Next Obligation. intros a scope id a' r. apply update_status_settles. Qed.
Next Obligation. intros a scope id a' r. apply update_status_settles. Qed.
Next Obligation.
  intros a scope req a' r k [(e & -> & _)|(Hn & -> & _)]%save_pending_cases; [by left|].
  same_or_other k (ApprovalKey_new scope (ar_id req)); [by right|by left].
Qed.
Next Obligation.
  intros a scope id a' r k [(e & -> & _)|(rec & Hm & Hp & -> & _)]%discard_pending_cases;
    [by left|].
  same_or_other k (ApprovalKey_new scope id); [by eauto|by left].
Qed.

#[export] Instance in_memory_leases :
    CapabilityLeaseStore (gmap CapabilityLeaseKey CapabilityLease) := {|
  cls_issue := lease_issue;
  cls_revoke := lease_revoke;
  cls_claim := lease_claim;
  cls_consume := lease_consume |}.

Lemma same_authority_refl l : same_authority l l.
Proof. by split_and!. Qed.

Lemma consume_same_authority now l l' : consume_lease now l = Ok l' -> same_authority l l'.
Proof.
  unfold consume_lease. destruct (ensure_consumable l now); [|done].
  destruct (cl_invocation_fingerprint l) eqn:Ef, (lease_remaining l) as [n|];
    [| |destruct (n - 1 =? 0); [|destruct (bool_decide _)]|destruct (bool_decide _)];
    intros [= <-]; by split_and!.
Qed.

Lemma lease_update_authority (m m' : gmap CapabilityLeaseKey CapabilityLease) scope id f r k l' :
  (forall l l1, f l = Ok l1 -> same_authority l l1) ->
  lease_update m scope id f = (m', r) -> m' !! k = Some l' ->
  exists l, m !! k = Some l /\ same_authority l l'.
Proof.
  intros Hf. unfold lease_update. destruct (m !! _) as [l0|] eqn:E.
  - destruct (f l0) as [l1|e] eqn:E1; intros [= <- _].
    + intros [[<- <-]|[_ Hk]]%lookup_insert_Some; [by eauto|].
      exists l'. split; [done|apply same_authority_refl].
    + intros Hk. exists l'. split; [done|apply same_authority_refl].
  - intros [= <- _] Hk. exists l'. split; [done|apply same_authority_refl].
Qed.

Lemma revoke_authority l l' : revoke_lease l = Ok l' -> same_authority l l'.
Proof. intros [= <-]. by split_and!. Qed.

Lemma claim_authority fp now l l' : claim_lease fp now l = Ok l' -> same_authority l l'.
Proof. intros (_ & _ & ->)%claim_lease_ok. by split_and!. Qed.

#[export] Program Instance in_memory_leases_laws :
    CapabilityLeaseStoreLaws (gmap CapabilityLeaseKey CapabilityLease) := {| cls_at m k := m !! k |}.
Next Obligation.
  simpl. intros s l s' r [= <- <-]. unfold issued_as. look. split_and!; [done..|].
  intros k Hk. by look.
Qed.
Next Obligation.
  intros s scope id s' r k l'. apply lease_update_authority, revoke_authority.
Qed.
Next Obligation.
  intros s scope id fp now s' r k l'. apply lease_update_authority, claim_authority.
Qed.
Next Obligation.
  intros s scope id now s' r k l'. apply lease_update_authority, consume_same_authority.
Qed.

End InMemoryStores.

(** ** [ApprovalResolver] *)

Inductive ApprovedCapabilityAction : Type := ActionDispatch | ActionSpawn.

Record DenyApproval : Type := mk_DenyApproval { denied_by : Principal }.

Inductive ApprovalResolutionError : Type :=
| ResRunState (error : RunStateError)
| NotPending (status : ApprovalStatus)
| NotApproved (status : ApprovalStatus)
| MissingInvocationFingerprint
| UnsupportedAction
| ResLease (error : CapabilityLeaseError).

Section Resolver.
Context `{D : Decimal} `{UT : UuidText}.

Definition capability_for_action (action : Action) (expected : ApprovedCapabilityAction) :
    option CapabilityId :=
  match expected, action with
  | ActionDispatch, Dispatch capability _ => Some capability
  | ActionSpawn, SpawnCapability capability _ => Some capability
  | _, _ => None
  end.

Record LeaseApproval : Type := mk_LeaseApproval {
  la_issued_by : Principal;
  la_allowed_effects : list EffectKind;
  la_mounts : MountView;
  la_network : NetworkPolicy;
  la_secrets : list SecretHandle;
  la_resource_ceiling : option ResourceCeiling;
  la_expires_at : option Z;
  la_max_invocations : option Z }.

(** The lease [issue_lease_for_approved] stamps. *)
Definition approved_grant (grant_id : CapabilityGrantId) (record : ApprovalRecord)
    (capability : CapabilityId) (approval : LeaseApproval) : CapabilityGrant :=
  mk_CapabilityGrant grant_id capability (ar_requested_by (ap_request record))
    (la_issued_by approval)
    (mk_GrantConstraints (la_allowed_effects approval) (la_mounts approval) (la_network approval)
       (la_secrets approval) (la_resource_ceiling approval) (la_expires_at approval)
       (la_max_invocations approval)).

Definition approved_lease (grant_id : CapabilityGrantId) (record : ApprovalRecord)
    (capability : CapabilityId) (approval : LeaseApproval) (fp : InvocationFingerprint) :
    CapabilityLease :=
  let lease := CapabilityLease_new (ap_scope record)
    (approved_grant grant_id record capability approval) in
  mk_CapabilityLease (cl_scope lease) (cl_grant lease) (Some fp) (cl_status lease).

(** The calls of the resolver: [approve_dispatch], [approve_spawn],
    [retry_lease_issue_for_dispatch], [retry_lease_issue_for_spawn], [deny]. *)
Inductive ResolverTask : Type :=
| ApproveCapabilityAction (expected : ApprovedCapabilityAction) (approval : LeaseApproval)
| RetryLeaseIssue (expected : ApprovedCapabilityAction) (approval : LeaseApproval)
| DenyRequest (denial : DenyApproval).

Inductive Resolution : Type :=
| LeaseIssued (lease : CapabilityLease)
| RequestDenied (record : ApprovalRecord).

(** Where a call is: about to read the request, to approve it, to deny it, to
    issue the lease, or returned. *)
Inductive rproc : Type :=
| RpGet
| RpApprove (capability : CapabilityId) (fp : InvocationFingerprint)
| RpDeny
| RpIssue (record : ApprovalRecord) (capability : CapabilityId) (fp : InvocationFingerprint)
| RpDone (r : result Resolution ApprovalResolutionError).

(** The request's capability and fingerprint, in the order the code asks for them. *)
Definition approvable (record : ApprovalRecord) (expected : ApprovedCapabilityAction) :
    result (CapabilityId * InvocationFingerprint) ApprovalResolutionError :=
  let? capability := ok_or (capability_for_action (ar_action (ap_request record)) expected)
    UnsupportedAction in
  let? fp := ok_or (ar_invocation_fingerprint (ap_request record)) MissingInvocationFingerprint in
  Ok (capability, fp).

(** After the read: the status guard of the method, then its requirements. *)
Definition after_get (id : ApprovalRequestId) (task : ResolverTask)
    (r : result (option ApprovalRecord) RunStateError) : rproc :=
  match r with
  | Err e => RpDone (Err (ResRunState e))
  | Ok None => RpDone (Err (ResRunState (UnknownApprovalRequest id)))
  | Ok (Some record) =>
      match task with
      | ApproveCapabilityAction expected _ =>
          if negb (bool_decide (ap_status record = Pending))
          then RpDone (Err (NotPending (ap_status record)))
          else match approvable record expected with
               | Err e => RpDone (Err e)
               | Ok (capability, fp) => RpApprove capability fp
               end
      | RetryLeaseIssue expected _ =>
          if negb (bool_decide (ap_status record = Approved))
          then RpDone (Err (NotApproved (ap_status record)))
          else match approvable record expected with
               | Err e => RpDone (Err e)
               | Ok (capability, fp) => RpIssue record capability fp
               end
      | DenyRequest _ =>
          if negb (bool_decide (ap_status record = Pending))
          then RpDone (Err (NotPending (ap_status record)))
          else RpDeny
      end
  end.

(** [Err(RunStateError::ApprovalNotPending { status, .. })] becomes [NotPending]. *)
Definition settle_error (e : RunStateError) : ApprovalResolutionError :=
  match e with ApprovalNotPending _ status => NotPending status | _ => ResRunState e end.

(** What a step takes from outside: fresh identifiers and the clock. *)
Record fresh : Type := mk_fresh {
  fresh_grant : CapabilityGrantId; fresh_event : AuditEventId; fresh_now : Z }.

Context {A L : Type} `{AS : !ApprovalRequestStore A} `{LS : !CapabilityLeaseStore L}.

(** [audit_sink.is_some()]; the outcome of an emission is ignored. *)
Variable has_audit_sink : bool.

Record store : Type := mk_store {
  st_approvals : A; st_leases : L; st_audit : list AuditEnvelope }.

Definition emit_audit_best_effort (record : AuditEnvelope) (st : store) : store :=
  if has_audit_sink
  then mk_store (st_approvals st) (st_leases st) (st_audit st ++ [record]) else st.

Definition emit_approval_resolved (f : fresh) (record : ApprovalRecord) (resolved_by : Principal)
    (decision : ApprovalDecisionKind) (st : store) : store :=
  emit_audit_best_effort
    (AuditEnvelope_approval_resolved (fresh_event f) (fresh_now f) (ap_scope record)
       (ap_request record) resolved_by decision) st.

Definition issue_lease_for_approved (f : fresh) (record : ApprovalRecord)
    (capability : CapabilityId) (approval : LeaseApproval) (fp : InvocationFingerprint)
    (st : store) : store * result Resolution ApprovalResolutionError :=
  let '(l', r) := cls_issue (st_leases st)
    (approved_lease (fresh_grant f) record capability approval fp) in
  let st1 := mk_store (st_approvals st) l' (st_audit st) in
  match r with
  | Err e => (st1, Err (ResLease e))
  | Ok lease =>
      (emit_approval_resolved f record (la_issued_by approval) DecisionApproved st1,
       Ok (LeaseIssued lease))
  end.

Definition resolver_step (scope : ResourceScope) (id : ApprovalRequestId) (task : ResolverTask)
    (f : fresh) (st : store) (p : rproc) : store * rproc :=
  match p, task with
  | RpGet, _ => (st, after_get id task (ars_get (st_approvals st) scope id))
  | RpApprove capability fp, _ =>
      let '(a', r) := ars_approve (st_approvals st) scope id in
      (mk_store a' (st_leases st) (st_audit st),
       match r with
       | Ok approved_record => RpIssue approved_record capability fp
       | Err e => RpDone (Err (settle_error e))
       end)
  | RpDeny, DenyRequest denial =>
      let '(a', r) := ars_deny (st_approvals st) scope id in
      let st1 := mk_store a' (st_leases st) (st_audit st) in
      match r with
      | Ok denied =>
          (emit_approval_resolved f denied (denied_by denial) DecisionDenied st1,
           RpDone (Ok (RequestDenied denied)))
      | Err e => (st1, RpDone (Err (settle_error e)))
      end
  | RpIssue record capability fp, (ApproveCapabilityAction _ approval | RetryLeaseIssue _ approval) =>
      let '(st1, r) := issue_lease_for_approved f record capability approval fp st in
      (st1, RpDone r)
  | _, _ => (st, p)
  end.

(** A call that is not interleaved: at most three store calls. *)
Definition run_resolver (scope : ResourceScope) (id : ApprovalRequestId) (task : ResolverTask)
    (f : fresh) (st : store) : store * rproc :=
  let step c := resolver_step scope id task f c.1 c.2 in
  step (step (step (st, RpGet))).

(** ** Interleaving *)

Record call : Type := mk_call {
  call_scope : ResourceScope; call_id : ApprovalRequestId; call_task : ResolverTask;
  call_proc : rproc }.

Definition call_key (c : call) : ApprovalKey := ApprovalKey_new (call_scope c) (call_id c).

Definition call_step (f : fresh) (st : store) (c : call) : store * call :=
  let '(st', p') := resolver_step (call_scope c) (call_id c) (call_task c) f st (call_proc c) in
  (st', mk_call (call_scope c) (call_id c) (call_task c) p').

Section Interleaved.
Context `{ASL : !ApprovalRequestStoreLaws A} `{LSL : !CapabilityLeaseStoreLaws L}.

(** A request identifier names one request for good: it is a fresh UUID. *)
Variable named : ApprovalKey -> ResourceScope * ApprovalRequest.

(** Other users of the stores: requests are filed, settled and discarded, leases
    revoked, claimed and consumed; only the resolver issues. *)
Inductive other_step : A * L -> A * L -> Prop :=
| other_save a l scope req a' r :
    named (ApprovalKey_new scope (ar_id req)) = (scope, req) ->
    ars_save_pending a scope req = (a', r) -> other_step (a, l) (a', l)
| other_approve a l scope id a' r :
    ars_approve a scope id = (a', r) -> other_step (a, l) (a', l)
| other_deny a l scope id a' r :
    ars_deny a scope id = (a', r) -> other_step (a, l) (a', l)
| other_discard a l scope id a' r :
    ars_discard_pending a scope id = (a', r) -> other_step (a, l) (a', l)
| other_revoke a l scope id l' r :
    cls_revoke l scope id = (l', r) -> other_step (a, l) (a, l')
| other_claim a l scope id fp now l' r :
    cls_claim l scope id fp now = (l', r) -> other_step (a, l) (a, l')
| other_consume a l scope id now l' r :
    cls_consume l scope id now = (l', r) -> other_step (a, l) (a, l').

Inductive resolver_sys_step : store * gmap nat call -> store * gmap nat call -> Prop :=
| rsys_call st cs i c f st' c' :
    cs !! i = Some c -> call_step f st c = (st', c') ->
    resolver_sys_step (st, cs) (st', <[i := c']> cs)
| rsys_start st cs i scope id task :
    cs !! i = None ->
    resolver_sys_step (st, cs) (st, <[i := mk_call scope id task RpGet]> cs)
| rsys_other st cs a' l' :
    other_step (st_approvals st, st_leases st) (a', l') ->
    resolver_sys_step (st, cs) (mk_store a' l' (st_audit st), cs).

(** The lease carries what the request at [k], which is approved, asked for. *)
Definition backed_by (a : A) (k : ApprovalKey) (l : CapabilityLease) : Prop :=
  exists rec expected, ars_at a k = Some rec /\ ap_status rec = Approved /\
    cl_scope l = ap_scope rec /\
    cg_grantee (cl_grant l) = ar_requested_by (ap_request rec) /\
    capability_for_action (ar_action (ap_request rec)) expected =
      Some (cg_capability (cl_grant l)) /\
    is_Some (cl_invocation_fingerprint l) /\
    cl_invocation_fingerprint l = ar_invocation_fingerprint (ap_request rec).

Definition all_backed (st : store) : Prop :=
  forall k l, cls_at (st_leases st) k = Some l -> exists k', backed_by (st_approvals st) k' l.

(** Records are the requests their identifiers name. *)
Definition well_named (a : A) : Prop :=
  forall k rec, ars_at a k = Some rec -> named k = (ap_scope rec, ap_request rec).

(** The call settled its request: it is past its [approve], or its [deny] succeeded. *)
Definition settled_by (k : ApprovalKey) (c : call) : bool :=
  bool_decide (call_key c = k) &&
  match call_task c, call_proc c with
  | ApproveCapabilityAction _ _, (RpIssue _ _ _ | RpDone (Ok _) | RpDone (Err (ResLease _))) => true
  | DenyRequest _, RpDone (Ok _) => true
  | _, _ => false
  end.

Definition settlers (k : ApprovalKey) (cs : gmap nat call) : Z :=
  Z.of_nat (size (filter (fun '(_, c) => settled_by k c = true) cs)).

Definition is_settled (a : A) (k : ApprovalKey) : Z :=
  match ars_at a k with Some rec => b2z (negb (bool_decide (ap_status rec = Pending))) | None => 0 end.

(** What a call knows of the stores. *)
Definition call_ok (a : A) (c : call) : Prop :=
  match call_proc c with
  | RpApprove capability fp => exists expected,
      capability_for_action (ar_action (named (call_key c)).2) expected = Some capability /\
      ar_invocation_fingerprint (named (call_key c)).2 = Some fp
  | RpIssue rec capability fp => exists expected,
      ars_at a (call_key c) = Some rec /\ ap_status rec = Approved /\
      capability_for_action (ar_action (ap_request rec)) expected = Some capability /\
      ar_invocation_fingerprint (ap_request rec) = Some fp
  | RpDone (Ok (LeaseIssued l)) => backed_by a (call_key c) l /\
      match call_task c with
      | ApproveCapabilityAction _ approval | RetryLeaseIssue _ approval =>
          exists grant_id rec capability fp, l = approved_lease grant_id rec capability approval fp
      | DenyRequest _ => False
      end
  | _ => True
  end.

Definition rsys_ok (sys : store * gmap nat call) : Prop :=
  all_backed sys.1 /\ well_named (st_approvals sys.1) /\
  (forall i c, sys.2 !! i = Some c -> call_ok (st_approvals sys.1) c) /\
  (forall k, settlers k sys.2 <= is_settled (st_approvals sys.1) k).

(** ** How the stores evolve *)

(** A settled record stays as it is. *)
Definition evolves (a a' : A) : Prop :=
  forall k rec, ars_at a k = Some rec -> ap_status rec <> Pending -> ars_at a' k = Some rec.

Lemma evolves_refl a : evolves a a.
Proof. by intros k rec. Qed.

Lemma backed_evolves a a' k l : evolves a a' -> backed_by a k l -> backed_by a' k l.
Proof.
  intros He (rec & expected & Hat & Hst & Hrest). exists rec, expected. split; [|done].
  apply He; [done|by rewrite Hst].
Qed.

Lemma backed_authority a k l l' : same_authority l l' -> backed_by a k l -> backed_by a k l'.
Proof.
  intros (Hs & _ & Hc & Hg & Hf) (rec & expected & Hb). exists rec, expected.
  by rewrite Hs, Hc, Hg, Hf.
Qed.

Lemma call_ok_evolves a a' c : evolves a a' -> call_ok a c -> call_ok a' c.
Proof.
  intros He. unfold call_ok. destruct (call_proc c) as [| | |rec cap fp|[[l|rec]|e]]; try done.
  - intros (expected & Hat & Hst & Hrest). exists expected. split; [|done].
    apply He; [done|by rewrite Hst].
  - intros [Hb Hl]. split; [by eapply backed_evolves|done].
Qed.

#[local] Hint Resolve evolves_refl backed_evolves backed_authority call_ok_evolves : rust.

Lemma is_settled_range a k : 0 <= is_settled a k <= 1.
Proof. unfold is_settled. destruct (ars_at a k); [destruct (negb _)|]; simpl; lia. Qed.

Lemma is_settled_evolves a a' k : evolves a a' -> is_settled a k <= is_settled a' k.
Proof.
  intros He. pose proof (is_settled_range a' k). unfold is_settled at 1.
  destruct (ars_at a k) as [rec|] eqn:E; [|lia]. case_bool_decide as Hp; simpl; [lia|].
  unfold is_settled. rewrite (He k rec E Hp). by rewrite bool_decide_eq_false_2.
Qed.

Lemma settled_as_evolves a a' k st rec :
  settled_as (ars_at a) (ars_at a') k st rec -> evolves a a' /\ (well_named a -> well_named a').
Proof.
  intros (rec0 & Hat & Hp & -> & Hat' & Hoth). split.
  - intros k' rec' Hk' Hnp. destruct (decide (k' = k)) as [->|Hne]; [|by rewrite Hoth].
    rewrite Hat in Hk'. by injection Hk' as <-.
  - intros Hn k' rec' Hk'. destruct (decide (k' = k)) as [->|Hne].
    + rewrite Hat' in Hk'. injection Hk' as <-. apply (Hn k rec0 Hat).
    + rewrite Hoth in Hk' by done. by apply Hn.
Qed.

Lemma settles_evolves a a' k st r :
  settles (ars_at a) (ars_at a') k st r -> evolves a a' /\ (well_named a -> well_named a').
Proof.
  destruct r as [rec|e]; simpl; [apply settled_as_evolves|].
  intros [Hs|[rec Hs]]; [|by eapply settled_as_evolves].
  split; [intros k' rec' Hk' _; by rewrite Hs|]. intros Hn k' rec'. rewrite Hs. apply Hn.
Qed.

Lemma other_step_ok a l a' l' :
  other_step (a, l) (a', l') ->
  evolves a a' /\ (well_named a -> well_named a') /\
  (forall k x', cls_at l' k = Some x' -> exists x, cls_at l k = Some x /\ same_authority x x').
Proof.
  assert (forall s k x', cls_at s k = Some x' ->
    exists x, cls_at s k = Some x /\ same_authority x x') as Hid.
  { intros s k x' Hx. exists x'. split; [done|]. by split_and!. }
  intros H. inversion H as [? ? ? ? ? ? Hname Hc|? ? ? ? ? ? Hc|? ? ? ? ? ? Hc|? ? ? ? ? ? Hc
    |? ? ? ? ? ? Hc|? ? ? ? ? ? ? ? Hc|? ? ? ? ? ? ? Hc]; subst.
  - split_and!; [| |apply Hid].
    + intros k rec Hk Hp. by destruct (ars_save_at _ _ _ _ _ k Hc) as [-> |(_ & Hn & _)];
        [|rewrite Hn in Hk].
    + intros Hn k rec Hk. destruct (ars_save_at _ _ _ _ _ k Hc) as [Heq|(-> & _ & Hs)].
      * rewrite Heq in Hk. by apply Hn.
      * rewrite Hs in Hk. by injection Hk as <-.
  - apply ars_approve_at, settles_evolves in Hc as [? ?]. split_and!; [done..|apply Hid].
  - apply ars_deny_at, settles_evolves in Hc as [? ?]. split_and!; [done..|apply Hid].
  - split_and!; [| |apply Hid].
    + intros k rec Hk Hp. destruct (ars_discard_at _ _ _ _ _ k Hc) as [-> |(_ & x & Hx & Hpx)]; [done|].
      rewrite Hx in Hk. by injection Hk as <-.
    + intros Hn k rec Hk. destruct (ars_discard_at _ _ _ _ _ k Hc) as [Heq|(Hs & _)].
      * rewrite Heq in Hk. by apply Hn.
      * by rewrite Hs in Hk.
  - split_and!; [apply evolves_refl|done|]. intros k x'. by eapply cls_revoke_at.
  - split_and!; [apply evolves_refl|done|]. intros k x'. by eapply cls_claim_at.
  - split_and!; [apply evolves_refl|done|]. intros k x'. by eapply cls_consume_at.
Qed.

(** ** One step of a call *)

(** The stores stay sound, and a call that newly settles a request finds it unsettled. *)
Record call_step_ok (st st' : store) (c c' : call) : Prop := {
  cs_evolves : evolves (st_approvals st) (st_approvals st');
  cs_named : well_named (st_approvals st');
  cs_backed : all_backed st';
  cs_call : call_ok (st_approvals st') c';
  cs_settles : forall k, b2z (settled_by k c') + is_settled (st_approvals st) k
                 <= b2z (settled_by k c) + is_settled (st_approvals st') k }.

Lemma call_step_ok_quiet st c p' :
  well_named (st_approvals st) -> all_backed st ->
  (forall k, settled_by k (mk_call (call_scope c) (call_id c) (call_task c) p') =
     settled_by k c) ->
  call_ok (st_approvals st) (mk_call (call_scope c) (call_id c) (call_task c) p') ->
  call_step_ok st st c (mk_call (call_scope c) (call_id c) (call_task c) p').
Proof.
  intros Hn Hb Hs Hc. split; [apply evolves_refl|done..|]. intros k. rewrite Hs. lia.
Qed.

Lemma approvable_ok record expected cap fp :
  approvable record expected = Ok (cap, fp) ->
  capability_for_action (ar_action (ap_request record)) expected = Some cap /\
  ar_invocation_fingerprint (ap_request record) = Some fp.
Proof.
  unfold approvable. destruct (capability_for_action _ _); [|done]. simpl.
  destruct (ar_invocation_fingerprint _); [|done]. by intros [= <- <-].
Qed.

Lemma approvable_err record expected e :
  approvable record expected = Err e -> e = UnsupportedAction \/ e = MissingInvocationFingerprint.
Proof.
  unfold approvable. destruct (capability_for_action _ _); [|intros [= <-]; by left]. simpl.
  destruct (ar_invocation_fingerprint _); [done|]. intros [= <-]. by right.
Qed.

Lemma get_step_ok st c :
  well_named (st_approvals st) -> all_backed st -> call_proc c = RpGet ->
  call_step_ok st st c (mk_call (call_scope c) (call_id c) (call_task c)
    (after_get (call_id c) (call_task c) (ars_get (st_approvals st) (call_scope c) (call_id c)))).
Proof.
  intros Hn Hb Hp. unfold after_get.
  destruct (ars_get _ _ _) as [[rec|]|e] eqn:Eg.
  2,3: apply call_step_ok_quiet; [done..| |done]; intros k; unfold settled_by; simpl;
    rewrite Hp; by destruct (call_task c).
  apply ars_get_at in Eg. symmetry in Eg. change (ApprovalKey_new _ _) with (call_key c) in Eg.
  pose proof (Hn _ _ Eg) as Hname.
  apply call_step_ok_quiet; [done..| |].
  - intros k. unfold settled_by. f_equal. cbn [call_task call_proc]. rewrite Hp.
    destruct (call_task c) as [ex ap|ex ap|dn]; [|done|]; case_bool_decide; simpl; try done.
    destruct (approvable rec ex) as [[cap fp]|e] eqn:Ea; [done|].
    by destruct (approvable_err _ _ _ Ea) as [-> | ->].
  - unfold call_ok. cbn [call_proc].
    destruct (call_task c) as [ex ap|ex ap|dn]; case_bool_decide as Hst; simpl; try done;
      (destruct (approvable rec ex) as [[cap fp]|e] eqn:Ea; [|done]);
      apply approvable_ok in Ea as [Hcap Hfp]; exists ex;
      change (call_key (mk_call _ _ _ _)) with (call_key c); rewrite ?Hname; by split_and!.
Qed.

Lemma settles_is_settled a a' k st rec :
  settles (ars_at a) (ars_at a') k st (Ok rec) -> st <> Pending ->
  is_settled a k = 0 /\ is_settled a' k = 1.
Proof.
  intros (rec0 & Hat & Hp & -> & Hat' & _) Hst. unfold is_settled. rewrite Hat, Hat', Hp.
  cbn [set_approval ap_status]. by rewrite (bool_decide_eq_false_2 _ Hst).
Qed.

(** A successful [approve] or [deny] by the call itself. *)
Lemma settle_counts a a' c c' st rec :
  settles (ars_at a) (ars_at a') (call_key c) st (Ok rec) -> st <> Pending ->
  call_key c' = call_key c -> (forall k, settled_by k c = false) ->
  forall k, b2z (settled_by k c') + is_settled a k <= b2z (settled_by k c) + is_settled a' k.
Proof.
  intros Hs Hst Hk Hno k. rewrite Hno. simpl.
  destruct (settles_evolves _ _ _ _ _ Hs) as [He _].
  destruct (decide (call_key c = k)) as [<-|Hne].
  - destruct (settles_is_settled _ _ _ _ _ Hs Hst) as [-> ->].
    destruct (settled_by (call_key c) c'); simpl; lia.
  - unfold settled_by. rewrite Hk, (bool_decide_eq_false_2 _ Hne). simpl.
    by apply is_settled_evolves.
Qed.

Lemma all_backed_evolves st a' au :
  evolves (st_approvals st) a' -> all_backed st -> all_backed (mk_store a' (st_leases st) au).
Proof.
  intros He Hb k l Hk. destruct (Hb k l Hk) as [k' Hk']. eauto with rust.
Qed.

Lemma settle_error_not_lease e x : settle_error e <> ResLease x.
Proof. by destruct e. Qed.

Lemma settled_by_err k scope id task e :
  settled_by k (mk_call scope id task (RpDone (Err (settle_error e)))) = false.
Proof. unfold settled_by. simpl. by destruct task, e; rewrite ?andb_false_r. Qed.

(** A failed [approve] or [deny] ends the call; settled records stay as they are. *)
Lemma settle_failed_ok st c a' au st1 e :
  well_named (st_approvals st) -> all_backed st -> (forall k, settled_by k c = false) ->
  settles (ars_at (st_approvals st)) (ars_at a') (call_key c) st1 (Err e) ->
  call_step_ok st (mk_store a' (st_leases st) au) c
    (mk_call (call_scope c) (call_id c) (call_task c) (RpDone (Err (settle_error e)))).
Proof.
  intros Hn Hb Hno Hs. destruct (settles_evolves _ _ _ _ _ Hs) as [He Hn'].
  split; [done|by apply Hn'|by apply all_backed_evolves|done|].
  intros k. rewrite Hno, settled_by_err. simpl. by apply is_settled_evolves.
Qed.

Lemma approve_step_ok st c cap fp f st' c' :
  well_named (st_approvals st) -> all_backed st -> call_ok (st_approvals st) c ->
  call_proc c = RpApprove cap fp -> call_step f st c = (st', c') -> call_step_ok st st' c c'.
Proof.
  intros Hn Hb Hc Hp. unfold call_step. rewrite Hp. cbn [resolver_step].
  assert (forall k, settled_by k c = false) as Hno.
  { intros k. unfold settled_by. rewrite Hp. by destruct (call_task c); rewrite andb_false_r. }
  destruct (ars_approve _ _ _) as [a' [rec|e]] eqn:E; intros [= <- <-];
    apply ars_approve_at in E; [|by eapply settle_failed_ok].
  destruct (settles_evolves _ _ _ _ _ E) as [He Hn'].
  split; [done|by apply Hn'|by apply all_backed_evolves| |by eapply settle_counts].
  unfold call_ok in *. rewrite Hp in Hc. destruct Hc as (ex & Hcap & Hfp). exists ex.
  change (call_key (mk_call _ _ _ _)) with (call_key c).
  destruct E as (rec0 & Hat & Hpend & -> & Hat' & _).
  rewrite (Hn (call_key c) _ Hat) in Hcap, Hfp. by split_and!.
Qed.

Lemma emit_keeps f rec who dec st :
  st_approvals (emit_approval_resolved f rec who dec st) = st_approvals st /\
  st_leases (emit_approval_resolved f rec who dec st) = st_leases st.
Proof. unfold emit_approval_resolved, emit_audit_best_effort. by destruct has_audit_sink. Qed.

(** The audit trail is no part of the invariant. *)
Lemma call_step_ok_audit st st1 st2 c c' :
  st_approvals st2 = st_approvals st1 -> st_leases st2 = st_leases st1 ->
  call_step_ok st st1 c c' -> call_step_ok st st2 c c'.
Proof.
  intros Ha Hl [H1 H2 H3 H4 H5]. split; rewrite ?Ha; [done..| |done|done].
  intros k l. rewrite Ha, Hl. apply H3.
Qed.

Lemma deny_step_ok st c dn f st' c' :
  well_named (st_approvals st) -> all_backed st -> call_task c = DenyRequest dn ->
  call_proc c = RpDeny -> call_step f st c = (st', c') -> call_step_ok st st' c c'.
Proof.
  intros Hn Hb Ht Hp. unfold call_step. rewrite Hp, Ht. cbn [resolver_step]. rewrite <- Ht.
  assert (forall k, settled_by k c = false) as Hno.
  { intros k. unfold settled_by. rewrite Hp. by destruct (call_task c); rewrite andb_false_r. }
  destruct (ars_deny _ _ _) as [a' [rec|e]] eqn:E; intros [= <- <-];
    apply ars_deny_at in E; [|by eapply settle_failed_ok].
  destruct (settles_evolves _ _ _ _ _ E) as [He Hn'].
  eapply call_step_ok_audit; [apply emit_keeps|apply emit_keeps|].
  split; [done|by apply Hn'|by apply all_backed_evolves|done|by eapply settle_counts].
Qed.

(** Issuing the lease of an approved request. *)
Lemma issue_ok st f rec cap ap fp st' r k :
  all_backed st -> ars_at (st_approvals st) k = Some rec -> ap_status rec = Approved ->
  (exists ex, capability_for_action (ar_action (ap_request rec)) ex = Some cap) ->
  ar_invocation_fingerprint (ap_request rec) = Some fp ->
  issue_lease_for_approved f rec cap ap fp st = (st', r) ->
  st_approvals st' = st_approvals st /\ all_backed st' /\
  match r with
  | Ok (LeaseIssued l) => l = approved_lease (fresh_grant f) rec cap ap fp /\
      backed_by (st_approvals st) k l
  | Ok (RequestDenied _) => False
  | Err e => exists x, e = ResLease x
  end.
Proof.
  intros Hb Hat Hst [ex Hcap] Hfp. unfold issue_lease_for_approved.
  set (l0 := approved_lease (fresh_grant f) rec cap ap fp).
  assert (backed_by (st_approvals st) k l0) as Hl0.
  { exists rec, ex. split_and!; [done..|by eexists|by rewrite Hfp]. }
  assert (forall l' au, issued_as (cls_at (st_leases st)) (cls_at l') l0 ->
    all_backed (mk_store (st_approvals st) l' au)) as Hissued.
  { intros l' au [Hk Hoth] kl x. simpl. destruct (decide (kl = lease_key l0)) as [->|Hne].
    - rewrite Hk. intros [= <-]. by exists k.
    - rewrite Hoth by done. apply Hb. }
  destruct (cls_issue _ _) as [l' [l|e]] eqn:E; apply cls_issue_at in E; intros [= <- <-].
  - destruct E as [-> E]. apply (Hissued l' (st_audit st)) in E. set (st1 := mk_store _ _ _) in E |- *.
    destruct (emit_keeps f rec (la_issued_by ap) DecisionApproved st1) as [Ha Hl].
    rewrite Ha. split_and!; [done| |done|done]. intros kl x. rewrite Ha, Hl. apply E.
  - split_and!; [done| |by eexists]. destruct E as [E|E]; [|by apply Hissued].
    intros kl x. simpl. rewrite E. apply Hb.
Qed.

Lemma issue_step_ok st c rec cap fp f st' c' :
  well_named (st_approvals st) -> all_backed st -> call_ok (st_approvals st) c ->
  call_proc c = RpIssue rec cap fp -> call_step f st c = (st', c') -> call_step_ok st st' c c'.
Proof.
  intros Hn Hb Hc Hp. unfold call_step. rewrite Hp.
  unfold call_ok in Hc. rewrite Hp in Hc. destruct Hc as (ex & Hat & Hst & Hcap & Hfp).
  destruct (call_task c) as [ex' ap|ex' ap|dn] eqn:Ht; cbn [resolver_step].
  3: { intros [= <- <-]. rewrite <- Ht, <- Hp. apply call_step_ok_quiet; [done..|].
       unfold call_ok. simpl. rewrite Hp. by exists ex. }
  all: destruct (issue_lease_for_approved f rec cap ap fp st) as [st1 r] eqn:E;
    intros [= <- <-];
    destruct (issue_ok _ _ _ _ _ _ _ _ _ Hb Hat Hst (ex_intro _ ex Hcap) Hfp E) as (Ha & Hb1 & Hr);
    (split; rewrite ?Ha; [apply evolves_refl|done|done| |]);
    [unfold call_ok; simpl; destruct r as [[l|]|]; [|done..]; destruct Hr as [-> Hl];
       split; [done|by eauto]|].
  all: intros k; unfold settled_by; rewrite Ht, ?Hp; change (call_key (mk_call _ _ _ _)) with (call_key c);
    simpl; destruct r as [[l|]|e]; [|done|destruct Hr as [x ->]]; lia.
Qed.

Lemma call_step_sound st c f st' c' :
  well_named (st_approvals st) -> all_backed st -> call_ok (st_approvals st) c ->
  call_step f st c = (st', c') -> call_step_ok st st' c c'.
Proof.
  intros Hn Hb Hc Hs. destruct (call_proc c) as [|cap fp| |rec cap fp|r] eqn:Hp.
  - unfold call_step in Hs. rewrite Hp in Hs. simpl in Hs. injection Hs as <- <-.
    by apply get_step_ok.
  - by eapply approve_step_ok.
  - destruct (call_task c) as [| |dn] eqn:Ht; [..|by eapply deny_step_ok];
      unfold call_step in Hs; rewrite Hp, Ht in Hs; injection Hs as <- <-; rewrite <- Ht, <- Hp;
      apply call_step_ok_quiet; try done; unfold call_ok; simpl; by rewrite Hp.
  - by eapply issue_step_ok.
  - unfold call_step in Hs. rewrite Hp in Hs. simpl in Hs. injection Hs as <- <-.
    rewrite <- Hp. apply call_step_ok_quiet; [done..|]. by destruct c.
Qed.

(** ** The system *)

Lemma settlers_insert_new k cs i c :
  cs !! i = None -> settlers k (<[i := c]> cs) = settlers k cs + b2z (settled_by k c).
Proof.
  intros Hi. unfold settlers.
  assert (filter (fun '(_, c) => settled_by k c = true) cs !! i = None) as Hnone
    by (apply map_lookup_filter_None; by left).
  destruct (settled_by k c) eqn:E.
  - rewrite map_filter_insert_True by done. rewrite map_size_insert_None by done. simpl. lia.
  - rewrite map_filter_insert_False by (by rewrite E).
    rewrite map_filter_delete, delete_id by done. simpl. lia.
Qed.

Lemma settlers_insert k cs i c c' :
  cs !! i = Some c ->
  settlers k (<[i := c']> cs) + b2z (settled_by k c) = settlers k cs + b2z (settled_by k c').
Proof.
  intros Hi. rewrite <- (insert_delete_id cs i c Hi) at 2. rewrite <- insert_delete_eq.
  rewrite !settlers_insert_new by apply lookup_delete_eq. lia.
Qed.

Lemma rsys_step_ok sys sys' : rsys_ok sys -> resolver_sys_step sys sys' -> rsys_ok sys'.
Proof.
  intros (Hb & Hn & Hc & Hs) Hstep.
  destruct Hstep as [st cs i c f st' c' Hi Hcs|st cs i scope id task Hi|st cs a' l' Ho]; simpl in *.
  - destruct (call_step_sound st c f st' c' Hn Hb (Hc i c Hi) Hcs) as [He Hn' Hb' Hc' Hset].
    split_and!; [done..| |]; simpl.
    + intros i' c1 [[_ <-]|[_ H1]]%lookup_insert_Some; eauto with rust.
    + intros k. pose proof (settlers_insert k cs i c c' Hi). specialize (Hset k).
      specialize (Hs k). simpl. lia.
  - split_and!; [done..| |]; simpl.
    + intros i' c1 [[_ <-]|[_ H1]]%lookup_insert_Some; [done|by eapply Hc].
    + intros k. simpl. rewrite settlers_insert_new by done. specialize (Hs k).
      unfold settled_by. simpl. destruct task; rewrite andb_false_r; simpl; lia.
  - destruct (other_step_ok _ _ _ _ Ho) as (He & Hn' & Hl). split_and!; simpl.
    + intros k l Hk. destruct (Hl k l Hk) as (l0 & Hk0 & Hsame).
      destruct (Hb k l0 Hk0) as [k' Hk']. eauto with rust.
    + by apply Hn'.
    + eauto with rust.
    + intros k. specialize (Hs k). pose proof (is_settled_evolves _ _ k He). lia.
Qed.

Lemma reachable_rsys_ok st0 sys :
  all_backed st0 -> well_named (st_approvals st0) -> rtc resolver_sys_step (st0, ∅) sys ->
  rsys_ok sys.
Proof.
  intros Hb Hn. apply (rtc_ind_r rsys_ok).
  - split_and!; [done..| |]; [by intros i c|]. intros k.
    pose proof (is_settled_range (st_approvals st0) k). unfold settlers. simpl.
    rewrite map_filter_empty, map_size_empty. lia.
  - intros sys1 sys2 _ Hstep Hok. by eapply rsys_step_ok.
Qed.


End Interleaved.

(** An approved request whose lease could not be issued is recovered by the retry,
    which issues the lease and leaves the request as it is. *)
Lemma retry_recovers st scope id expected approval f rec cap fp l' lease :
  ars_get (st_approvals st) scope id = Ok (Some rec) -> ap_status rec = Approved ->
  approvable rec expected = Ok (cap, fp) ->
  cls_issue (st_leases st) (approved_lease (fresh_grant f) rec cap approval fp) = (l', Ok lease) ->
  exists st', run_resolver scope id (RetryLeaseIssue expected approval) f st =
      (st', RpDone (Ok (LeaseIssued lease))) /\
    st_approvals st' = st_approvals st /\ st_leases st' = l'.
Proof.
  intros Hget Hst Happ Hissue. unfold run_resolver. simpl. rewrite Hget. simpl.
  rewrite (bool_decide_eq_true_2 _ Hst), Happ. simpl.
  unfold issue_lease_for_approved. rewrite Hissue. simpl.
  eexists. split; [done|]. unfold emit_approval_resolved, emit_audit_best_effort.
  by destruct has_audit_sink.
Qed.

End Resolver.

(** ** Evaluation: an approval whose lease store fails, then the retry *)

Module ApprovalExample.

Definition scope : ResourceScope := ResourceScope_system (from_uuid 7).
Definition fp : InvocationFingerprint := mk_InvocationFingerprint "sha256:aa".
Definition request : ApprovalRequest :=
  mk_ApprovalRequest (from_uuid 3) (from_uuid 4) PHostRuntime
    (Dispatch (mk_CapabilityId "files.read") ResourceEstimate_default) (Some fp) "needed" None.
Definition terms : LeaseApproval :=
  mk_LeaseApproval PHostRuntime [ReadFilesystem] (mk_MountView []) NetworkPolicy_default []
    None (Some 100) (Some 1).

(** The in-memory lease store behind a connection that may be down. *)
Definition flaky : Type := (bool * gmap CapabilityLeaseKey CapabilityLease)%type.

#[export] Instance flaky_leases : CapabilityLeaseStore flaky := {|
  cls_issue (s : flaky) l := if s.1 then (s, Err (Persistence "unavailable"))
    else let '(m, r) := lease_issue s.2 l in ((s.1, m), r);
  cls_revoke (s : flaky) scope id := let '(m, r) := lease_revoke s.2 scope id in ((s.1, m), r);
  cls_claim (s : flaky) scope id fp now :=
    let '(m, r) := lease_claim s.2 scope id fp now in ((s.1, m), r);
  cls_consume (s : flaky) scope id now :=
    let '(m, r) := lease_consume s.2 scope id now in ((s.1, m), r) |}.

#[export] Program Instance flaky_leases_laws : CapabilityLeaseStoreLaws flaky :=
  {| cls_at (s : flaky) k := s.2 !! k |}.
Next Obligation.
  intros [[] m] l s' r; simpl; intros [= <- <-]; simpl; [by left|].
  unfold issued_as. simpl. look. split_and!; [done..|]. intros k Hk. by look.
Qed.
Next Obligation.
  intros [d m] scope id s' r k l'. simpl. destruct (lease_revoke m scope id) as [m1 r1] eqn:E.
  intros [= <- _]. exact (lease_update_authority m m1 scope id _ r1 k l' (revoke_authority) E).
Qed.
Next Obligation.
  intros [d m] scope id fp now s' r k l'. simpl.
  destruct (lease_claim m scope id fp now) as [m1 r1] eqn:E.
  intros [= <- _]. exact (lease_update_authority m m1 scope id _ r1 k l' (claim_authority fp now) E).
Qed.
Next Obligation.
  intros [d m] scope id now s' r k l'. simpl.
  destruct (lease_consume m scope id now) as [m1 r1] eqn:E.
  intros [= <- _]. exact (lease_update_authority m m1 scope id _ r1 k l' (consume_same_authority now) E).
Qed.

#[export] Instance some_uuid : UuidText := {| uuid_text _ := "u" |}.

Definition named (_ : ApprovalKey) : ResourceScope * ApprovalRequest := (scope, request).
Definition start : store :=
  mk_store (save_pending ∅ scope request).1 (false, ∅ : gmap CapabilityLeaseKey CapabilityLease) [].
Definition f : fresh := mk_fresh (from_uuid 11) (from_uuid 12) 5.
Definition c0 : call :=
  mk_call scope (from_uuid 3) (ApproveCapabilityAction ActionDispatch terms) RpGet.
Definition s1 := call_step true f start c0.
Definition s2 := call_step true f s1.1 s1.2.
Definition s3 := call_step true f s2.1 s2.2.

End ApprovalExample.

Import ApprovalExample.

(** The lease store is down: the request stays approved; once it is back, the
    retry issues the lease. *)
Example failed_issue_then_retry :
  let down := mk_store (st_approvals ApprovalExample.start) (true, ∅) [] in
  let r1 := run_resolver true scope (from_uuid 3) (ApproveCapabilityAction ActionDispatch terms) f down in
  let up := mk_store (st_approvals r1.1) (false, (st_leases r1.1).2) (st_audit r1.1) in
  let r2 := run_resolver true scope (from_uuid 3) (RetryLeaseIssue ActionDispatch terms) f up in
  r1.2 = RpDone (Err (ResLease (Persistence "unavailable"))) /\
  (exists l, r2.2 = RpDone (Ok (LeaseIssued l))) /\ length (st_audit r2.1) = 1%nat.
Proof. split_and!; [reflexivity|eexists; reflexivity|reflexivity]. Qed.

