(* ===== verification/RunProfile.v ===== *)
(** * Turn identifiers and run profiles

    [crates/brassclaw_turns/src/ids.rs]: the identifiers of turns and runs, the
    bounded references and the loop references with their validation.
    [src/run_profile/refs.rs], [policy.rs], [driver.rs] (the descriptor),
    [snapshot.rs], [resolver.rs]: run profiles, the registry, and the resolver that
    turns a request into the profile a run is bound to, with the fingerprint of
    what was resolved.

    The theorems: what the validators accept; a resolved profile holds no privilege,
    budget or personal context that the authority of the request does not cover,
    and its budget is the definition's or the clamped one; the registry never holds two profiles of one name; and [fingerprint_ambiguous],
    two different definitions with the same fingerprint text. *)

From stdpp Require Import pretty.
From S2P Require Import Prelude HostIds.
Open Scope Z_scope.

(** ** [ids.rs] *)

Inductive turn_id_kind : Type :=
| KTurn | KTurnRun | KCapabilityActivity | KTurnCheckpoint | KTurnLease | KTurnRunner.

Record turn_uuid (k : turn_id_kind) : Type := turn_from_uuid { turn_as_uuid : Z }.
Arguments turn_from_uuid {k} turn_as_uuid.
Arguments turn_as_uuid {k} t.

Abbreviation TurnId := (turn_uuid KTurn).
Abbreviation TurnRunId := (turn_uuid KTurnRun).
Abbreviation CapabilityActivityId := (turn_uuid KCapabilityActivity).
Abbreviation TurnCheckpointId := (turn_uuid KTurnCheckpoint).
Abbreviation TurnLeaseToken := (turn_uuid KTurnLease).
Abbreviation TurnRunnerId := (turn_uuid KTurnRunner).

#[export] Instance turn_uuid_eq_dec k : EqDecision (turn_uuid k).
Proof. solve_decision. Defined.
#[export] Instance turn_uuid_countable k : Countable (turn_uuid k).
Proof.
  refine (inj_countable' turn_as_uuid turn_from_uuid _). by intros [].
Defined.

Definition validate_ref (kind value : string) : result unit string :=
  if bool_decide (value = "") then Err (kind +:+ " must not be empty")
  else if 256 <? str_len value then Err (kind +:+ " must be at most 256 bytes")
  else if has_control value then Err (kind +:+ " must not contain control characters")
  else Ok ().

Fixpoint all_bytes (p : Ascii.ascii -> bool) (s : string) : bool :=
  match s with
  | EmptyString => true
  | String.String c s' => p c && all_bytes p s'
  end.

Definition is_ascii_alphanumeric (b : Ascii.ascii) : bool :=
  is_ascii_lowercase b || is_ascii_uppercase b || is_ascii_digit b.
Definition one_of (cs : string) (b : Ascii.ascii) : bool := contains_char b cs.

Definition validate_loop_ref (kind prefix value : string) : result unit string :=
  let? _ := validate_ref kind value in
  match strip_prefix prefix value with
  | None => Err (kind +:+ " must start with " +:+ prefix)
  | Some suffix =>
      if bool_decide (suffix = "")
      then Err (kind +:+ " must include an opaque id after " +:+ prefix)
      else if negb (all_bytes (fun c => is_ascii_alphanumeric c || one_of "_-." c) suffix)
      then Err (kind +:+ " opaque id must contain only ASCII letters, digits, _, -, or .")
      else Ok ()
  end.

(** The types of [bounded_ref!] and of [loop_ref!]. *)
Inductive turn_ref_kind : Type :=
| KAcceptedMessage | KSourceBinding | KReplyTargetBinding | KGate | KIdempotencyKey
| KRunProfileRequest | KRunProfile
| KLoopExit | KLoopMessage | KLoopResult | KLoopGate | KLoopUsageSummary | KLoopDiagnostic.

Record turn_ref (k : turn_ref_kind) : Type := trusted_ref { ref_str : string }.
Arguments trusted_ref {k} ref_str.
Arguments ref_str {k} t.

Abbreviation AcceptedMessageRef := (turn_ref KAcceptedMessage).
Abbreviation SourceBindingRef := (turn_ref KSourceBinding).
Abbreviation ReplyTargetBindingRef := (turn_ref KReplyTargetBinding).
Abbreviation GateRef := (turn_ref KGate).
Abbreviation IdempotencyKey := (turn_ref KIdempotencyKey).
Abbreviation RunProfileRequest := (turn_ref KRunProfileRequest).
Abbreviation RunProfileId := (turn_ref KRunProfile).
Abbreviation LoopExitId := (turn_ref KLoopExit).
Abbreviation LoopMessageRef := (turn_ref KLoopMessage).
Abbreviation LoopResultRef := (turn_ref KLoopResult).
Abbreviation LoopGateRef := (turn_ref KLoopGate).
Abbreviation LoopUsageSummaryRef := (turn_ref KLoopUsageSummary).
Abbreviation LoopDiagnosticRef := (turn_ref KLoopDiagnostic).

#[export] Instance turn_ref_eq_dec k : EqDecision (turn_ref k).
Proof. solve_decision. Defined.
#[export] Instance turn_ref_countable k : Countable (turn_ref k).
Proof. refine (inj_countable' ref_str trusted_ref _). by intros []. Defined.

Definition turn_ref_kind_name (k : turn_ref_kind) : string :=
  match k with
  | KAcceptedMessage => "accepted_message_ref" | KSourceBinding => "source_binding_ref"
  | KReplyTargetBinding => "reply_target_binding_ref" | KGate => "gate_ref"
  | KIdempotencyKey => "idempotency_key" | KRunProfileRequest => "run_profile_request"
  | KRunProfile => "run_profile_id" | KLoopExit => "loop_exit_id"
  | KLoopMessage => "loop_message_ref" | KLoopResult => "loop_result_ref"
  | KLoopGate => "loop_gate_ref" | KLoopUsageSummary => "loop_usage_summary_ref"
  | KLoopDiagnostic => "loop_diagnostic_ref"
  end.

Definition loop_ref_prefix (k : turn_ref_kind) : option string :=
  match k with
  | KLoopExit => Some "exit:" | KLoopMessage => Some "msg:" | KLoopResult => Some "result:"
  | KLoopGate => Some "gate:" | KLoopUsageSummary => Some "usage:"
  | KLoopDiagnostic => Some "diag:"
  | _ => None
  end.

Definition turn_ref_new (k : turn_ref_kind) (value : string) : result (turn_ref k) string :=
  let? _ := match loop_ref_prefix k with
            | Some prefix => validate_loop_ref (turn_ref_kind_name k) prefix value
            | None => validate_ref (turn_ref_kind_name k) value
            end in
  Ok (trusted_ref value).

(** [PartialEq<LoopGateRef> for GateRef]. *)
Definition gate_ref_eq (g : GateRef) (l : LoopGateRef) : bool := bool_decide (ref_str g = ref_str l).

Definition default_profile : RunProfileId := trusted_ref "default".
Definition interactive_default : RunProfileId := trusted_ref "interactive_default".
Definition long_running_mission : RunProfileId := trusted_ref "long_running_mission".
Definition is_interactive_default (id : RunProfileId) : bool := bool_decide (id = interactive_default).
Definition RunProfileId_from_request (request : RunProfileRequest) : RunProfileId :=
  trusted_ref (ref_str request).

(** [RunProfileVersion(u64)]. *)
Definition RunProfileVersion : Type := Z.

(** ** [refs.rs] *)

Inductive profile_ref_kind : Type :=
| KRunClass | KLoopDriver | KCheckpointSchema | KModelProfile | KCapabilitySurface
| KContextProfile | KRunnerPool | KSchedulingClass | KConcurrencyClass | KBudgetTier
| KFingerprint | KSourceLayer | KSourceRef.

Record profile_ref (k : profile_ref_kind) : Type := trusted_profile_ref { profile_str : string }.
Arguments trusted_profile_ref {k} profile_str.
Arguments profile_str {k} p.

#[export] Instance profile_ref_eq_dec k : EqDecision (profile_ref k).
Proof. solve_decision. Defined.

Definition profile_ref_kind_name (k : profile_ref_kind) : string :=
  match k with
  | KRunClass => "run_class_id" | KLoopDriver => "loop_driver_id"
  | KCheckpointSchema => "checkpoint_schema_id" | KModelProfile => "model_profile_id"
  | KCapabilitySurface => "capability_surface_profile_id" | KContextProfile => "context_profile_id"
  | KRunnerPool => "runner_pool_id" | KSchedulingClass => "scheduling_class"
  | KConcurrencyClass => "concurrency_class" | KBudgetTier => "resource_budget_tier"
  | KFingerprint => "run_profile_fingerprint" | KSourceLayer => "run_profile_source_layer"
  | KSourceRef => "run_profile_source_ref"
  end.

Definition validate_profile_ref (kind value : string) : result unit string :=
  if bool_decide (value = "") then Err (kind +:+ " must not be empty")
  else if 128 <? str_len value then Err (kind +:+ " must be at most 128 bytes")
  else if negb (all_bytes (fun c => is_ascii_lowercase c || is_ascii_digit c || one_of "_-:" c) value)
  then Err (kind +:+ " must contain only lowercase ASCII letters, digits, _, -, or :")
  else Ok ().

Definition profile_ref_new (k : profile_ref_kind) (value : string) : result (profile_ref k) string :=
  let? _ := validate_profile_ref (profile_ref_kind_name k) value in Ok (trusted_profile_ref value).

(** ** [driver.rs]: the descriptor *)

Record AgentLoopDriverDescriptor : Type := mk_AgentLoopDriverDescriptor {
  ld_id : profile_ref KLoopDriver;
  ld_version : RunProfileVersion;
  ld_checkpoint_schema_id : option (profile_ref KCheckpointSchema);
  ld_checkpoint_schema_version : option RunProfileVersion }.

Definition AgentLoopDriverDescriptor_new (id : string) (version : RunProfileVersion) :
    result AgentLoopDriverDescriptor string :=
  let? id := profile_ref_new KLoopDriver id in
  Ok (mk_AgentLoopDriverDescriptor id version None None).

Definition with_checkpoint_schema (d : AgentLoopDriverDescriptor) (schema_id : string)
    (version : RunProfileVersion) : result AgentLoopDriverDescriptor string :=
  let? schema := profile_ref_new KCheckpointSchema schema_id in
  Ok (mk_AgentLoopDriverDescriptor (ld_id d) (ld_version d) (Some schema) (Some version)).

(** ** [policy.rs] *)

Record SteeringPolicy : Type := mk_SteeringPolicy {
  allow_steering : bool; allow_interrupt : bool; allow_driver_specific_nudges : bool }.
Record CancellationPolicy : Type := mk_CancellationPolicy {
  allow_cancel : bool; require_checkpoint_before_cancel : bool }.
Record CheckpointPolicy : Type := mk_CheckpointPolicy {
  require_before_model : bool;
  require_before_side_effect : bool;
  require_before_block : bool;
  max_checkpoint_bytes : Z;
  require_final_checkpoint : bool;
  allow_no_reply_completion : bool }.
Record ResourceBudgetPolicy : Type := mk_ResourceBudgetPolicy {
  tier : profile_ref KBudgetTier; max_model_calls : Z; max_capability_invocations : Z }.
Record RuntimeProfileConstraints : Type := mk_RuntimeProfileConstraints {
  allow_raw_runtime_backend_selection : bool; allow_broad_capability_surface : bool }.

Inductive RunProfileRequestAuthority : Type := AuUser | AuProductSurface | AuAdmin | AuSystem.
Inductive PersonalContextAuthority : Type := Direct | Shared.
Inductive PrivilegedRunProfileDimension : Type :=
| LongRunningMission | BroadCapabilitySurface | HighBudget | SpecialDriver | RunnerPool.

Record RedactedRunProfileSource : Type := mk_RedactedRunProfileSource {
  src_layer : profile_ref KSourceLayer;
  src_source_ref : profile_ref KSourceRef;
  src_summary : string }.
Record RedactedRunProfileProvenance : Type := mk_RedactedRunProfileProvenance {
  sources : list RedactedRunProfileSource;
  effective_privileges : list PrivilegedRunProfileDimension }.

Definition authority_allows (self : RunProfileRequestAuthority)
    (dimension : PrivilegedRunProfileDimension) : bool :=
  match dimension with
  | LongRunningMission | SpecialDriver | RunnerPool =>
      match self with AuProductSurface | AuAdmin | AuSystem => true | AuUser => false end
  | BroadCapabilitySurface | HighBudget =>
      match self with AuAdmin | AuSystem => true | _ => false end
  end.

Definition dimension_category (self : PrivilegedRunProfileDimension) : string :=
  match self with
  | LongRunningMission => "long_running_mission"
  | BroadCapabilitySurface => "broad_capability_surface"
  | HighBudget => "high_budget" | SpecialDriver => "special_driver" | RunnerPool => "runner_pool"
  end.

Inductive RunProfileResolutionError : Type :=
| RpUnauthorized (dimension : PrivilegedRunProfileDimension)
| RpProfileUnavailable (profile_id : string)
| RpInvalidRequest (reason : string).

(** ** [snapshot.rs] *)

Inductive PersonalContextPolicy : Type := Excluded | Allowed.

Definition PersonalContextPolicy_as_str (p : PersonalContextPolicy) : string :=
  match p with Excluded => "excluded" | Allowed => "allowed" end.

Record ResolvedRunProfile : Type := mk_ResolvedRunProfile {
  rp_run_class_id : profile_ref KRunClass;
  rp_profile_id : RunProfileId;
  rp_profile_version : RunProfileVersion;
  rp_loop_driver : AgentLoopDriverDescriptor;
  rp_checkpoint_schema_id : profile_ref KCheckpointSchema;
  rp_checkpoint_schema_version : RunProfileVersion;
  rp_model_profile_id : profile_ref KModelProfile;
  rp_capability_surface_profile_id : profile_ref KCapabilitySurface;
  rp_context_profile_id : profile_ref KContextProfile;
  rp_steering_policy : SteeringPolicy;
  rp_cancellation_policy : CancellationPolicy;
  rp_checkpoint_policy : CheckpointPolicy;
  rp_resource_budget_policy : ResourceBudgetPolicy;
  rp_personal_context_policy : PersonalContextPolicy;
  rp_runtime_constraints : RuntimeProfileConstraints;
  rp_runner_pool_id : option (profile_ref KRunnerPool);
  rp_scheduling_class : profile_ref KSchedulingClass;
  rp_concurrency_class : profile_ref KConcurrencyClass;
  rp_resolution_fingerprint : profile_ref KFingerprint;
  rp_provenance : RedactedRunProfileProvenance }.

Definition persisted_profile_id (p : ResolvedRunProfile) : RunProfileId :=
  if is_interactive_default (rp_profile_id p) then default_profile else rp_profile_id p.

Definition legacy_compatibility (profile_id : RunProfileId) (profile_version : RunProfileVersion)
    (allow_steering : bool) : ResolvedRunProfile :=
  {| rp_run_class_id := trusted_profile_ref "legacy_interactive_coding";
     rp_profile_id := profile_id;
     rp_profile_version := profile_version;
     rp_loop_driver :=
       mk_AgentLoopDriverDescriptor (trusted_profile_ref "lightweight_loop") 1
         (Some (trusted_profile_ref "interactive_checkpoint_v1")) (Some 1);
     rp_checkpoint_schema_id := trusted_profile_ref "interactive_checkpoint_v1";
     rp_checkpoint_schema_version := 1;
     rp_model_profile_id := trusted_profile_ref "interactive_model";
     rp_capability_surface_profile_id := trusted_profile_ref "interactive_tools";
     rp_context_profile_id := trusted_profile_ref "interactive_context";
     rp_steering_policy := mk_SteeringPolicy allow_steering true false;
     rp_cancellation_policy := mk_CancellationPolicy true false;
     rp_checkpoint_policy := mk_CheckpointPolicy false true true (64 * 1024) false false;
     rp_resource_budget_policy :=
       mk_ResourceBudgetPolicy (trusted_profile_ref "interactive_standard") 32 64;
     rp_personal_context_policy := Excluded;
     rp_runtime_constraints := mk_RuntimeProfileConstraints false false;
     rp_runner_pool_id := None;
     rp_scheduling_class := trusted_profile_ref "interactive";
     rp_concurrency_class := trusted_profile_ref "thread_serial";
     rp_resolution_fingerprint := trusted_profile_ref "legacy-persisted-profile-v1";
     rp_provenance := mk_RedactedRunProfileProvenance
       [mk_RedactedRunProfileSource (trusted_profile_ref "legacy_persistence")
          (trusted_profile_ref "turn-run-profile:legacy:v1")
          "legacy persisted turn run profile reconstructed without raw authority handles"] [] |}.

(** ** [resolver.rs] *)

Record RunProfileResolutionRequest : Type := mk_RunProfileResolutionRequest {
  requested_run_profile : option RunProfileRequest;
  authority : RunProfileRequestAuthority;
  personal_context_authority : PersonalContextAuthority }.

Definition interactive_default_request : RunProfileResolutionRequest :=
  mk_RunProfileResolutionRequest None AuUser Direct.
Definition with_requested_run_profile (r : RunProfileResolutionRequest) requested :=
  mk_RunProfileResolutionRequest (Some requested) (authority r) (personal_context_authority r).
Definition with_authority (r : RunProfileResolutionRequest) a :=
  mk_RunProfileResolutionRequest (requested_run_profile r) a (personal_context_authority r).
Definition with_personal_context_authority (r : RunProfileResolutionRequest) a :=
  mk_RunProfileResolutionRequest (requested_run_profile r) (authority r) a.

Record RunProfileDefinition : Type := mk_RunProfileDefinition {
  pd_profile_id : RunProfileId;
  pd_profile_version : RunProfileVersion;
  pd_run_class_id : profile_ref KRunClass;
  pd_loop_driver : AgentLoopDriverDescriptor;
  pd_checkpoint_schema_id : profile_ref KCheckpointSchema;
  pd_checkpoint_schema_version : RunProfileVersion;
  pd_model_profile_id : profile_ref KModelProfile;
  pd_capability_surface_profile_id : profile_ref KCapabilitySurface;
  pd_context_profile_id : profile_ref KContextProfile;
  pd_steering_policy : SteeringPolicy;
  pd_cancellation_policy : CancellationPolicy;
  pd_checkpoint_policy : CheckpointPolicy;
  pd_resource_budget_policy : ResourceBudgetPolicy;
  pd_personal_context_policy : PersonalContextPolicy;
  pd_runtime_constraints : RuntimeProfileConstraints;
  pd_runner_pool_id : option (profile_ref KRunnerPool);
  pd_scheduling_class : profile_ref KSchedulingClass;
  pd_concurrency_class : profile_ref KConcurrencyClass;
  pd_required_privileges : list PrivilegedRunProfileDimension }.

Definition interactive_profile : RunProfileDefinition :=
  {| pd_profile_id := interactive_default;
     pd_profile_version := 1;
     pd_run_class_id := trusted_profile_ref "interactive_coding";
     pd_loop_driver :=
       mk_AgentLoopDriverDescriptor (trusted_profile_ref "lightweight_loop") 1
         (Some (trusted_profile_ref "interactive_checkpoint_v1")) (Some 1);
     pd_checkpoint_schema_id := trusted_profile_ref "interactive_checkpoint_v1";
     pd_checkpoint_schema_version := 1;
     pd_model_profile_id := trusted_profile_ref "interactive_model";
     pd_capability_surface_profile_id := trusted_profile_ref "interactive_tools";
     pd_context_profile_id := trusted_profile_ref "interactive_context";
     pd_steering_policy := mk_SteeringPolicy true true false;
     pd_cancellation_policy := mk_CancellationPolicy true false;
     pd_checkpoint_policy := mk_CheckpointPolicy false true true (64 * 1024) false false;
     pd_resource_budget_policy :=
       mk_ResourceBudgetPolicy (trusted_profile_ref "interactive_standard") 32 64;
     pd_personal_context_policy := Excluded;
     pd_runtime_constraints := mk_RuntimeProfileConstraints false false;
     pd_runner_pool_id := None;
     pd_scheduling_class := trusted_profile_ref "interactive";
     pd_concurrency_class := trusted_profile_ref "thread_serial";
     pd_required_privileges := [] |}.

Definition long_running_mission_profile : RunProfileDefinition :=
  {| pd_profile_id := long_running_mission;
     pd_profile_version := 1;
     pd_run_class_id := trusted_profile_ref "long_running_mission";
     pd_loop_driver :=
       mk_AgentLoopDriverDescriptor (trusted_profile_ref "codeact_loop") 1
         (Some (trusted_profile_ref "durable_mission_v1")) (Some 1);
     pd_checkpoint_schema_id := trusted_profile_ref "durable_mission_v1";
     pd_checkpoint_schema_version := 1;
     pd_model_profile_id := trusted_profile_ref "mission_model";
     pd_capability_surface_profile_id := trusted_profile_ref "mission_tools";
     pd_context_profile_id := trusted_profile_ref "mission_context";
     pd_steering_policy := mk_SteeringPolicy true true false;
     pd_cancellation_policy := mk_CancellationPolicy true true;
     pd_checkpoint_policy := mk_CheckpointPolicy true true true (256 * 1024) true false;
     pd_resource_budget_policy :=
       mk_ResourceBudgetPolicy (trusted_profile_ref "mission_high") 256 1024;
     pd_personal_context_policy := Excluded;
     pd_runtime_constraints := mk_RuntimeProfileConstraints false false;
     pd_runner_pool_id := Some (trusted_profile_ref "mission_workers");
     pd_scheduling_class := trusted_profile_ref "background";
     pd_concurrency_class := trusted_profile_ref "mission_serial";
     pd_required_privileges := [LongRunningMission; SpecialDriver; RunnerPool] |}.

Definition interactive_like (profile_id : RunProfileId) (loop_driver : AgentLoopDriverDescriptor)
    (checkpoint_schema_id : profile_ref KCheckpointSchema)
    (checkpoint_schema_version : RunProfileVersion)
    (surface : profile_ref KCapabilitySurface) : RunProfileDefinition :=
  let d := interactive_profile in
  {| pd_profile_id := profile_id;
     pd_profile_version := ld_version loop_driver;
     pd_run_class_id := pd_run_class_id d;
     pd_loop_driver := loop_driver;
     pd_checkpoint_schema_id := checkpoint_schema_id;
     pd_checkpoint_schema_version := checkpoint_schema_version;
     pd_model_profile_id := pd_model_profile_id d;
     pd_capability_surface_profile_id := surface;
     pd_context_profile_id := pd_context_profile_id d;
     pd_steering_policy := pd_steering_policy d;
     pd_cancellation_policy := pd_cancellation_policy d;
     pd_checkpoint_policy := pd_checkpoint_policy d;
     pd_resource_budget_policy := pd_resource_budget_policy d;
     pd_personal_context_policy := pd_personal_context_policy d;
     pd_runtime_constraints := pd_runtime_constraints d;
     pd_runner_pool_id := pd_runner_pool_id d;
     pd_scheduling_class := pd_scheduling_class d;
     pd_concurrency_class := pd_concurrency_class d;
     pd_required_privileges := pd_required_privileges d |}.

(** *** The registry *)

Inductive RunProfileRegistryError : Type :=
| RegInvalidProfile (reason : string)
| RegDuplicateProfile (profile_id : RunProfileId).

Definition with_builtin_profiles : list RunProfileDefinition :=
  [interactive_profile; long_running_mission_profile].

Definition registry_profile (profiles : list RunProfileDefinition) (profile_id : string) :
    option RunProfileDefinition :=
  List.find (fun d => bool_decide (ref_str (pd_profile_id d) = profile_id)) profiles.

Definition registry_register (profiles : list RunProfileDefinition) (d : RunProfileDefinition) :
    list RunProfileDefinition * result unit RunProfileRegistryError :=
  match registry_profile profiles (ref_str (pd_profile_id d)) with
  | Some _ => (profiles, Err (RegDuplicateProfile (pd_profile_id d)))
  | None => (profiles ++ [d], Ok ())
  end.

(** *** The fingerprint: FNV-1a over the parts, 64 bits *)

Definition FNV_OFFSET_BASIS : Z := 0xcbf29ce484222325.
Definition FNV_PRIME : Z := 0x00000100000001b3.

Fixpoint fnv_update (hash : Z) (value : string) : Z :=
  match value with
  | EmptyString => hash
  | String.String byte rest =>
      fnv_update ((Z.lxor hash (byte_of byte) * FNV_PRIME) mod 2 ^ 64) rest
  end.

Definition bool_str (b : bool) : string := if b then "true" else "false".
Definition u64_str (z : Z) : string := pretty (Z.to_N z).

Definition hex_char (z : Z) : Ascii.ascii :=
  Ascii.ascii_of_N (Z.to_N (if z <? 10 then 48 + z else 87 + z)).
(** [{:0nx}]. *)
Fixpoint hex_digits (n : nat) (z : Z) : string :=
  match n with
  | O => ""
  | S n' => hex_digits n' (z / 16) +:+ String.String (hex_char (z mod 16)) ""
  end.

Definition fingerprint_parts (d : RunProfileDefinition) (budget : ResourceBudgetPolicy)
    (context : PersonalContextPolicy) (provenance : RedactedRunProfileProvenance) : list string :=
  [ref_str (pd_profile_id d); u64_str (pd_profile_version d); profile_str (pd_run_class_id d);
   profile_str (ld_id (pd_loop_driver d)); u64_str (ld_version (pd_loop_driver d));
   from_option profile_str "none" (ld_checkpoint_schema_id (pd_loop_driver d));
   u64_str (default 0 (ld_checkpoint_schema_version (pd_loop_driver d)));
   profile_str (pd_checkpoint_schema_id d); u64_str (pd_checkpoint_schema_version d);
   profile_str (pd_model_profile_id d); profile_str (pd_capability_surface_profile_id d);
   profile_str (pd_context_profile_id d); PersonalContextPolicy_as_str context;
   bool_str (allow_steering (pd_steering_policy d));
   bool_str (allow_interrupt (pd_steering_policy d));
   bool_str (allow_driver_specific_nudges (pd_steering_policy d));
   bool_str (allow_cancel (pd_cancellation_policy d));
   bool_str (require_checkpoint_before_cancel (pd_cancellation_policy d));
   bool_str (require_before_model (pd_checkpoint_policy d));
   bool_str (require_before_side_effect (pd_checkpoint_policy d));
   bool_str (require_before_block (pd_checkpoint_policy d));
   u64_str (max_checkpoint_bytes (pd_checkpoint_policy d));
   bool_str (require_final_checkpoint (pd_checkpoint_policy d));
   bool_str (allow_no_reply_completion (pd_checkpoint_policy d));
   profile_str (tier budget); u64_str (max_model_calls budget);
   u64_str (max_capability_invocations budget);
   bool_str (allow_raw_runtime_backend_selection (pd_runtime_constraints d));
   bool_str (allow_broad_capability_surface (pd_runtime_constraints d));
   from_option profile_str "none" (pd_runner_pool_id d);
   profile_str (pd_scheduling_class d); profile_str (pd_concurrency_class d)]
  ++ map dimension_category (effective_privileges provenance)
  ++ flat_map (fun s => [profile_str (src_layer s); profile_str (src_source_ref s); src_summary s])
       (sources provenance).

Definition fingerprint_for (d : RunProfileDefinition) (budget : ResourceBudgetPolicy)
    (context : PersonalContextPolicy) (provenance : RedactedRunProfileProvenance) :
    profile_ref KFingerprint :=
  trusted_profile_ref
    ("fp:" +:+ hex_digits 16
       (fold_left fnv_update (fingerprint_parts d budget context provenance) FNV_OFFSET_BASIS)).

(** *** Resolution *)

Definition source_ref_for (d : RunProfileDefinition) : profile_ref KSourceRef :=
  if bool_decide (pd_profile_id d = interactive_default)
  then trusted_profile_ref "builtin:interactive_default:v1"
  else if bool_decide (pd_profile_id d = long_running_mission)
  then trusted_profile_ref "builtin:long_running_mission:v1"
  else trusted_profile_ref "builtin:unknown:v1".

Definition provenance_for (d : RunProfileDefinition) (request : RunProfileResolutionRequest) :
    RedactedRunProfileProvenance :=
  mk_RedactedRunProfileProvenance
    [mk_RedactedRunProfileSource (trusted_profile_ref "system_default") (source_ref_for d)
       (match requested_run_profile request with
        | Some _ => "requested profile accepted within policy ceiling"
        | None => "system default profile selected"
        end)]
    (pd_required_privileges d).

Definition resolve_resource_budget_policy (d : RunProfileDefinition)
    (request : RunProfileResolutionRequest) (provenance : RedactedRunProfileProvenance) :
    ResourceBudgetPolicy * RedactedRunProfileProvenance :=
  let budget := pd_resource_budget_policy d in
  if bool_decide (profile_str (tier budget) = "mission_high")
     && negb (authority_allows (authority request) HighBudget)
  then (mk_ResourceBudgetPolicy (trusted_profile_ref "mission_standard")
          (Z.min (max_model_calls budget) 128) (Z.min (max_capability_invocations budget) 512),
        mk_RedactedRunProfileProvenance
          (sources provenance ++
           [mk_RedactedRunProfileSource (trusted_profile_ref "policy_ceiling")
              (trusted_profile_ref "builtin:budget-ceiling:v1")
              "resource budget clamped to mission_standard by policy ceiling"])
          (effective_privileges provenance))
  else (budget, provenance).

Definition effective_personal_context (policy : PersonalContextPolicy)
    (authority : PersonalContextAuthority) : PersonalContextPolicy :=
  match policy, authority with Allowed, Shared => Excluded | policy, _ => policy end.

Definition definition_resolve (d : RunProfileDefinition) (request : RunProfileResolutionRequest) :
    ResolvedRunProfile :=
  let '(budget, provenance) :=
    resolve_resource_budget_policy d request (provenance_for d request) in
  let context :=
    effective_personal_context (pd_personal_context_policy d) (personal_context_authority request) in
  {| rp_run_class_id := pd_run_class_id d;
     rp_profile_id := pd_profile_id d;
     rp_profile_version := pd_profile_version d;
     rp_loop_driver := pd_loop_driver d;
     rp_checkpoint_schema_id := pd_checkpoint_schema_id d;
     rp_checkpoint_schema_version := pd_checkpoint_schema_version d;
     rp_model_profile_id := pd_model_profile_id d;
     rp_capability_surface_profile_id := pd_capability_surface_profile_id d;
     rp_context_profile_id := pd_context_profile_id d;
     rp_steering_policy := pd_steering_policy d;
     rp_cancellation_policy := pd_cancellation_policy d;
     rp_checkpoint_policy := pd_checkpoint_policy d;
     rp_resource_budget_policy := budget;
     rp_personal_context_policy := context;
     rp_runtime_constraints := pd_runtime_constraints d;
     rp_runner_pool_id := pd_runner_pool_id d;
     rp_scheduling_class := pd_scheduling_class d;
     rp_concurrency_class := pd_concurrency_class d;
     rp_resolution_fingerprint := fingerprint_for d budget context provenance;
     rp_provenance := provenance |}.

Record InMemoryRunProfileResolver : Type := mk_InMemoryRunProfileResolver {
  rs_registry : list RunProfileDefinition; implicit_default_profile_id : RunProfileId }.

Definition InMemoryRunProfileResolver_default : InMemoryRunProfileResolver :=
  mk_InMemoryRunProfileResolver with_builtin_profiles interactive_default.

Definition resolve_run_profile (self : InMemoryRunProfileResolver)
    (request : RunProfileResolutionRequest) : result ResolvedRunProfile RunProfileResolutionError :=
  let requested := ref_str <$> requested_run_profile request in
  let profile_key :=
    match requested with
    | None => ref_str (implicit_default_profile_id self)
    | Some r => if bool_decide (r = "default") then ref_str (implicit_default_profile_id self) else r
    end in
  match registry_profile (rs_registry self) profile_key with
  | None => Err (RpProfileUnavailable (default profile_key requested))
  | Some d =>
      match List.find (fun dim => negb (authority_allows (authority request) dim))
              (pd_required_privileges d) with
      | Some dimension => Err (RpUnauthorized dimension)
      | None => Ok (definition_resolve d request)
      end
  end.

(** ** What the validators accept *)

Lemma validate_ref_ok kind v :
  validate_ref kind v = Ok () <-> v <> "" /\ str_len v <= 256 /\ has_control v = false.
Proof.
  unfold validate_ref. case_bool_decide as Hv; [split; [done | by intros []]|].
  destruct (256 <? str_len v) eqn:Hl; [split; [done | intros (_ & ? & _); lia]|].
  destruct (has_control v); [split; [done | by intros (_ & _ & ?)]|].
  apply Z.ltb_ge in Hl. done.
Qed.

(** A loop reference is its prefix and a nonempty path-safe token; without the
    prefix it is rejected, so the kinds of loop references cannot be mixed up. *)
Lemma loop_ref_shape k prefix v (r : turn_ref k) :
  loop_ref_prefix k = Some prefix -> turn_ref_new k v = Ok r ->
  ref_str r = v /\ exists token, v = prefix +:+ token /\ token <> ""
    /\ all_bytes (fun c => is_ascii_alphanumeric c || one_of "_-." c) token = true
    /\ str_len v <= 256.
Proof.
  intros Hk. unfold turn_ref_new. rewrite Hk. intros H. invert_ok H. injection H as <-.
  rename Heqr0 into Hv. unfold validate_loop_ref in Hv. invert_ok Hv.
  destruct (strip_prefix prefix v) as [token|] eqn:Hs; [|done].
  apply strip_prefix_spec in Hs. case_bool_decide; [done|].
  destruct (all_bytes _ token) eqn:Ht; [|done].
  match goal with E : validate_ref _ _ = Ok ?u |- _ =>
    destruct u; apply validate_ref_ok in E as (_ & ? & _) end.
  split; [done|]. by exists token.
Qed.

(** ** Resolution stays within the authority of the request *)

Lemma registry_profile_some profiles id d :
  registry_profile profiles id = Some d -> d ∈ profiles /\ ref_str (pd_profile_id d) = id.
Proof.
  intros [Hin Hd]%find_some. split; [by apply list_elem_of_In|]. by apply bool_decide_eq_true in Hd.
Qed.

(** C40: A run profile is resolved only within the authority of the request: every
    privilege the resolved profile records is one the authority allows, the budget
    tier [mission_high] is resolved only for an authority that may use high budgets,
    and personal context is allowed only when the definition allows it and the
    request is direct.  The profile is a registered definition's, and its budget is
    the definition's own, except that a [mission_high] budget the authority may not
    use is clamped: the tier becomes [mission_standard], the model calls are at most
    128 and the capability invocations at most 512 (the definition's own limits
    where these are lower), and the provenance names the ceiling as its last source. *)
Theorem resolved_profile_within_authority self request p :
  resolve_run_profile self request = Ok p ->
  let budget := rp_resource_budget_policy p in
  Forall (fun dim => authority_allows (authority request) dim = true)
    (effective_privileges (rp_provenance p))
  /\ (profile_str (tier budget) = "mission_high" ->
      authority_allows (authority request) HighBudget = true)
  /\ (rp_personal_context_policy p = Allowed -> personal_context_authority request = Direct)
  /\ exists d, d ∈ rs_registry self /\ rp_profile_id p = pd_profile_id d
       /\ (rp_personal_context_policy p = Allowed -> pd_personal_context_policy d = Allowed)
       /\ let own := pd_resource_budget_policy d in
          if decide (profile_str (tier own) = "mission_high" /\
                     authority_allows (authority request) HighBudget = false)
          then profile_str (tier budget) = "mission_standard"
            /\ max_model_calls budget <= 128 /\ max_capability_invocations budget <= 512
            /\ max_model_calls budget = Z.min (max_model_calls own) 128
            /\ max_capability_invocations budget = Z.min (max_capability_invocations own) 512
            /\ exists src, last (sources (rp_provenance p)) = Some src
                 /\ profile_str (src_layer src) = "policy_ceiling"
          else budget = own.
Proof.
  unfold resolve_run_profile. destruct (registry_profile _ _) as [d|] eqn:Hd; [|done].
  apply registry_profile_some in Hd as [Hin _].
  destruct (List.find _ _) eqn:Hf; [done|]. intros [= <-].
  pose proof (find_none _ _ Hf) as Hall. unfold definition_resolve, resolve_resource_budget_policy.
  assert (Forall (fun dim => authority_allows (authority request) dim = true)
            (pd_required_privileges d)) as Hpriv.
  { apply Forall_forall. intros dim Hdim%list_elem_of_In. apply Hall in Hdim.
    by apply negb_false_iff in Hdim. }
  assert (forall a, effective_personal_context (pd_personal_context_policy d) a = Allowed ->
            a = Direct /\ pd_personal_context_policy d = Allowed) as Hctx.
  { intros a. by destruct (pd_personal_context_policy d), a. }
  assert (bool_decide (profile_str (tier (pd_resource_budget_policy d)) = "mission_high")
    && negb (authority_allows (authority request) HighBudget) = true <->
    profile_str (tier (pd_resource_budget_policy d)) = "mission_high" /\
    authority_allows (authority request) HighBudget = false) as Hclamped
    by by rewrite andb_true_iff, negb_true_iff, bool_decide_eq_true.
  destruct (bool_decide _ && _) eqn:Hclamp; cbn.
  - split_and!; [done | done | by intros []%Hctx |]. exists d.
    split_and!; [done | done | by intros []%Hctx |]. rewrite decide_True by by apply Hclamped.
    split_and!; [done|lia..|by eexists].
  - assert (~ (profile_str (tier (pd_resource_budget_policy d)) = "mission_high" /\
      authority_allows (authority request) HighBudget = false)) as Hno by by intros H%Hclamped.
    split_and!; [done | | by intros []%Hctx |].
    + intros Htier. apply not_false_iff_true. by intros H; apply Hno.
    + exists d. split_and!; [done | done | by intros []%Hctx |]. by rewrite decide_False.
Qed.

(** A product surface gets the mission profile with a clamped budget, a user does
    not get it at all. *)
Definition mission_request (a : RunProfileRequestAuthority) : RunProfileResolutionRequest :=
  with_authority
    (with_requested_run_profile interactive_default_request (trusted_ref "long_running_mission")) a.

Lemma mission_needs_authority :
  resolve_run_profile InMemoryRunProfileResolver_default (mission_request AuUser)
  = Err (RpUnauthorized LongRunningMission).
Proof. reflexivity. Qed.

Lemma resolved_profile_within_authority_witness :
  exists p, resolve_run_profile InMemoryRunProfileResolver_default
      (mission_request AuProductSurface) = Ok p
  /\ profile_str (tier (rp_resource_budget_policy p)) = "mission_standard"
  /\ Forall (fun dim => authority_allows AuProductSurface dim = true)
       (effective_privileges (rp_provenance p))
  /\ max_model_calls (rp_resource_budget_policy p) <= 128.
Proof.
  exists (definition_resolve long_running_mission_profile (mission_request AuProductSurface)).
  destruct (resolved_profile_within_authority InMemoryRunProfileResolver_default
           (mission_request AuProductSurface)
           (definition_resolve long_running_mission_profile (mission_request AuProductSurface))
           eq_refl) as (Hp & Hhigh & _ & d & Hd & _).
  split; [reflexivity|]. split; [reflexivity|]. split; [exact Hp|].
  vm_compute. discriminate.
Defined.

(** ** The registry holds one profile per name *)

Lemma register_keeps_names_unique profiles d profiles' r :
  NoDup (map (fun d => ref_str (pd_profile_id d)) profiles) ->
  registry_register profiles d = (profiles', r) ->
  NoDup (map (fun d => ref_str (pd_profile_id d)) profiles').
Proof.
  intros Hnd. unfold registry_register.
  destruct (registry_profile _ _) eqn:Hf; intros [= <- <-]; [done|].
  rewrite map_app. apply NoDup_app. split_and!; [done | | apply NoDup_singleton].
  intros x Hx ->%list_elem_of_singleton. apply list_elem_of_In, in_map_iff in Hx as (d' & Hd' & Hin).
  pose proof (find_none _ _ Hf d' Hin) as Hne. simpl in Hne.
  by apply bool_decide_eq_false in Hne.
Qed.

(** The parts of the fingerprint are hashed without a separator, and an absent
    runner pool or checkpoint schema is hashed as the name [none], so definitions
    that differ share a fingerprint. *)
Lemma fingerprint_ambiguous :
  exists d d', d <> d' /\ pd_runner_pool_id d <> pd_runner_pool_id d' /\ forall budget context provenance,
    fingerprint_for d budget context provenance = fingerprint_for d' budget context provenance.
Proof.
  exists interactive_profile.
  exists {| pd_profile_id := interactive_default;
     pd_profile_version := 1;
     pd_run_class_id := pd_run_class_id interactive_profile;
     pd_loop_driver := pd_loop_driver interactive_profile;
     pd_checkpoint_schema_id := pd_checkpoint_schema_id interactive_profile;
     pd_checkpoint_schema_version := 1;
     pd_model_profile_id := pd_model_profile_id interactive_profile;
     pd_capability_surface_profile_id := pd_capability_surface_profile_id interactive_profile;
     pd_context_profile_id := pd_context_profile_id interactive_profile;
     pd_steering_policy := pd_steering_policy interactive_profile;
     pd_cancellation_policy := pd_cancellation_policy interactive_profile;
     pd_checkpoint_policy := pd_checkpoint_policy interactive_profile;
     pd_resource_budget_policy := pd_resource_budget_policy interactive_profile;
     pd_personal_context_policy := Excluded;
     pd_runtime_constraints := pd_runtime_constraints interactive_profile;
     pd_runner_pool_id := Some (trusted_profile_ref "none");
     pd_scheduling_class := pd_scheduling_class interactive_profile;
     pd_concurrency_class := pd_concurrency_class interactive_profile;
     pd_required_privileges := [] |}.
  split; [done|]. split; [done|]. reflexivity.
Qed.
