(* ===== verification/TurnTypes.v ===== *)
(** * Turns: vocabulary

    [crates/brassclaw_turns/src/]: scopes and actors ([scope.rs]), statuses,
    failures, errors and rejections ([status.rs]), requests and responses
    ([request.rs], [response.rs], [runner.rs], [native_auth_wait.rs]), admission
    buckets and limits ([admission.rs]), lifecycle events and their projection
    ([events.rs]), checkpoint records ([checkpoint_state.rs]), the persisted records
    and the idempotency replays ([store.rs]), model route snapshots
    ([run_profile/host.rs]).

    The replays of answers are treated in [TurnReplay], the paging of events in
    [TurnEvents]. *)

From S2P Require Import Prelude External HostIds HostTypes Dispatch RunProfile.
Open Scope Z_scope.

(** [uuid::Uuid::parse_str], which reads back what [Display] prints. *)
Class UuidParse (U : UuidText) : Type := {
  uuid_parse : string -> option Z;
  uuid_parse_text : forall u, uuid_parse (uuid_text u) = Some u }.

Definition TurnTimestamp : Type := Z.

(** ** [scope.rs] *)

Inductive TurnThreadOwner : Type :=
| ActorFallback
| ExplicitUser (owner_user_id : UserId)
| Ownerless.

Record TurnScope : Type := mk_TurnScope {
  ts_tenant_id : TenantId;
  ts_agent_id : option AgentId;
  ts_project_id : option ProjectId;
  ts_thread_id : ThreadId;
  ts_thread_owner : TurnThreadOwner }.

Record TurnActor : Type := mk_TurnActor { ta_user_id : UserId }.

#[export] Instance TurnThreadOwner_eq_dec : EqDecision TurnThreadOwner.
Proof. solve_decision. Defined.
#[export] Instance TurnThreadOwner_countable : Countable TurnThreadOwner.
Proof.
  refine (inj_countable'
    (fun o => match o with
              | ActorFallback => inl (inl ()) | Ownerless => inl (inr ()) | ExplicitUser u => inr u
              end)
    (fun x => match x with
              | inl (inl _) => ActorFallback | inl (inr _) => Ownerless | inr u => ExplicitUser u
              end) _).
  by intros [].
Defined.
#[export] Instance TurnScope_eq_dec : EqDecision TurnScope.
Proof. solve_decision. Defined.
#[export] Instance TurnScope_countable : Countable TurnScope.
Proof.
  refine (inj_countable'
    (fun s => (ts_tenant_id s, ts_agent_id s, ts_project_id s, ts_thread_id s, ts_thread_owner s))
    (fun '(t, a, p, th, o) => mk_TurnScope t a p th o) _).
  by intros [].
Defined.
#[export] Instance TurnActor_eq_dec : EqDecision TurnActor.
Proof. solve_decision. Defined.

Definition TurnThreadOwner_explicit (owner : option UserId) : TurnThreadOwner :=
  match owner with Some u => ExplicitUser u | None => Ownerless end.
Definition is_actor_fallback (o : TurnThreadOwner) : bool :=
  match o with ActorFallback => true | _ => false end.
Definition explicit_owner_user_id (s : TurnScope) : option UserId :=
  match ts_thread_owner s with ExplicitUser u => Some u | _ => None end.
Definition has_explicit_thread_owner (s : TurnScope) : bool :=
  negb (is_actor_fallback (ts_thread_owner s)).
Definition TurnScope_new tenant agent project thread : TurnScope :=
  mk_TurnScope tenant agent project thread ActorFallback.
Definition TurnScope_new_with_owner tenant agent project thread owner : TurnScope :=
  mk_TurnScope tenant agent project thread (TurnThreadOwner_explicit owner).

(** [to_resource_scope]; the identifier of the invocation is a fresh one. *)
Definition to_resource_scope (self : TurnScope) (fresh : InvocationId) : ResourceScope :=
  {| rs_tenant_id := ts_tenant_id self;
     rs_user_id := default (from_trusted SYSTEM_RESERVED_ID) (explicit_owner_user_id self);
     rs_agent_id := ts_agent_id self;
     rs_project_id := ts_project_id self;
     rs_thread_id := Some (ts_thread_id self);
     rs_invocation_id := fresh |}.

(** ** [status.rs] *)

Inductive TurnStatus : Type :=
| Queued | Running | BlockedApproval | BlockedAuth | BlockedResource | BlockedDependentRun
| CancelRequested | Cancelled | Completed | Failed | RecoveryRequired.

#[export] Instance TurnStatus_eq_dec : EqDecision TurnStatus.
Proof. solve_decision. Defined.

Definition is_terminal (s : TurnStatus) : bool :=
  match s with Cancelled | Completed | Failed | RecoveryRequired => true | _ => false end.
Definition keeps_active_lock (s : TurnStatus) : bool := negb (is_terminal s).

Inductive TurnActiveRunRefState : Type := RefMissing | RefNonterminal | RefTerminal.

(** *** Admission classes, buckets and limits: [admission.rs] *)

Record TurnAdmissionClass : Type := trusted_class { class_str : string }.

#[export] Instance TurnAdmissionClass_eq_dec : EqDecision TurnAdmissionClass.
Proof. solve_decision. Defined.

Definition is_lower_digit_underscore (c : Ascii.ascii) : bool :=
  is_ascii_lowercase c || is_ascii_digit c || one_of "_" c.

Definition validate_admission_class (value : string) : result unit string :=
  if bool_decide (value = "") then Err "turn admission class must not be empty"
  else if 128 <? str_len value then Err "turn admission class must be at most 128 bytes"
  else if has_control value then Err "turn admission class must not contain control characters"
  else if negb (all_bytes is_lower_digit_underscore value)
  then Err "turn admission class must contain only lowercase ASCII letters, digits, or _"
  else Ok ().

Definition TurnAdmissionClass_new (value : string) : result TurnAdmissionClass string :=
  let? _ := validate_admission_class value in Ok (trusted_class value).
Definition class_interactive : TurnAdmissionClass := trusted_class "interactive".
Definition class_mission : TurnAdmissionClass := trusted_class "mission".
Definition class_admin_system : TurnAdmissionClass := trusted_class "admin_system".

Inductive TurnAdmissionAxisKind : Type := AxTenant | AxActorUser | AxProject | AxAgent.
Inductive TurnAdmissionBucketKind : Type := BkTotal | BkClass.

Inductive TurnAdmissionBucketScope : Type :=
| BsTenant (tenant_id : TenantId)
| BsActorUser (tenant_id : TenantId) (user_id : UserId)
| BsProject (tenant_id : TenantId) (project_id : option ProjectId)
| BsAgent (tenant_id : TenantId) (agent_id : option AgentId).

Record TurnAdmissionBucket : Type := mk_TurnAdmissionBucket {
  ab_axis_kind : TurnAdmissionAxisKind;
  ab_bucket_kind : TurnAdmissionBucketKind;
  ab_admission_class : option TurnAdmissionClass;
  ab_scope : TurnAdmissionBucketScope }.

#[export] Instance TurnAdmissionAxisKind_eq_dec : EqDecision TurnAdmissionAxisKind.
Proof. solve_decision. Defined.
#[export] Instance TurnAdmissionBucketKind_eq_dec : EqDecision TurnAdmissionBucketKind.
Proof. solve_decision. Defined.
#[export] Instance TurnAdmissionBucketScope_eq_dec : EqDecision TurnAdmissionBucketScope.
Proof. solve_decision. Defined.
#[export] Instance TurnAdmissionBucket_eq_dec : EqDecision TurnAdmissionBucket.
Proof. solve_decision. Defined.

Record TurnAdmissionLimit : Type := mk_TurnAdmissionLimit {
  al_max_active : option Z; al_retry_after_ms : option Z }.

Definition TurnAdmissionLimit_unlimited : TurnAdmissionLimit := mk_TurnAdmissionLimit None None.
Definition TurnAdmissionLimit_max_active (n : Z) : TurnAdmissionLimit :=
  mk_TurnAdmissionLimit (Some n) None.
Definition limit_with_retry_after_ms (l : TurnAdmissionLimit) (ms : Z) : TurnAdmissionLimit :=
  mk_TurnAdmissionLimit (al_max_active l) (Some ms).

(** [TurnAdmissionLimitProvider::limit_for]; [None] is [TurnAdmissionLimitUnavailable]. *)
Definition TurnAdmissionLimitProvider : Type := TurnAdmissionBucket -> option TurnAdmissionLimit.

Definition AllowAllTurnAdmissionLimitProvider : TurnAdmissionLimitProvider :=
  fun _ => Some TurnAdmissionLimit_unlimited.

Definition limit_selector : Type :=
  (TurnAdmissionAxisKind * TurnAdmissionBucketKind * option TurnAdmissionClass)%type.
Definition selector_from_bucket (b : TurnAdmissionBucket) : limit_selector :=
  (ab_axis_kind b, ab_bucket_kind b, ab_admission_class b).

(** The limits are a map; the first entry of the list is the last insertion. *)
Record StaticTurnAdmissionLimitProvider : Type := mk_StaticTurnAdmissionLimitProvider {
  sp_limits : list (limit_selector * TurnAdmissionLimit); sp_unavailable : bool }.

Definition with_total_limit (p : StaticTurnAdmissionLimitProvider) axis n :=
  mk_StaticTurnAdmissionLimitProvider
    (((axis, BkTotal, None), TurnAdmissionLimit_max_active n) :: sp_limits p) (sp_unavailable p).
Definition with_class_limit (p : StaticTurnAdmissionLimitProvider) axis class n :=
  mk_StaticTurnAdmissionLimitProvider
    (((axis, BkClass, Some class), TurnAdmissionLimit_max_active n) :: sp_limits p)
    (sp_unavailable p).
Definition static_limit_for (p : StaticTurnAdmissionLimitProvider) : TurnAdmissionLimitProvider :=
  fun bucket =>
    if sp_unavailable p then None
    else Some (from_option snd TurnAdmissionLimit_unlimited
                 (List.find (fun '(k, _) => bool_decide (k = selector_from_bucket bucket))
                    (sp_limits p))).

Record TurnAdmissionCapacityDenial : Type := mk_TurnAdmissionCapacityDenial {
  cd_axis_kind : TurnAdmissionAxisKind;
  cd_bucket_kind : TurnAdmissionBucketKind;
  cd_admission_class : option TurnAdmissionClass;
  cd_limit : Z;
  cd_active_count : Z;
  cd_retry_after_ms : option Z }.

Record TurnAdmissionReservationRecord : Type := mk_TurnAdmissionReservationRecord {
  av_run_id : TurnRunId;
  av_admission_class : TurnAdmissionClass;
  av_buckets : list TurnAdmissionBucket;
  av_released : bool }.

Definition total_and_class (class : TurnAdmissionClass) (axis : TurnAdmissionAxisKind)
    (scope : TurnAdmissionBucketScope) : list TurnAdmissionBucket :=
  [mk_TurnAdmissionBucket axis BkTotal None scope;
   mk_TurnAdmissionBucket axis BkClass (Some class) scope].

Definition admission_buckets (scope : TurnScope) (actor : TurnActor) (class : TurnAdmissionClass) :
    list TurnAdmissionBucket :=
  let tenant := ts_tenant_id scope in
  total_and_class class AxTenant (BsTenant tenant)
  ++ total_and_class class AxActorUser (BsActorUser tenant (ta_user_id actor))
  ++ total_and_class class AxProject (BsProject tenant (ts_project_id scope))
  ++ total_and_class class AxAgent (BsAgent tenant (ts_agent_id scope)).

(** *** Profiles bound to a run *)

Record TurnRunProfile : Type := mk_TurnRunProfile {
  tp_id : RunProfileId;
  tp_version : RunProfileVersion;
  tp_admission_class : TurnAdmissionClass;
  tp_allow_steering : bool;
  tp_auto_queue_followups : bool;
  tp_resolved : ResolvedRunProfile }.

Definition TurnRunProfile_from_resolved (resolved : ResolvedRunProfile) : TurnRunProfile :=
  mk_TurnRunProfile (persisted_profile_id resolved) (rp_profile_version resolved)
    class_interactive (allow_steering (rp_steering_policy resolved)) false resolved.

(** What [Deserialize] makes of the wire form, in which [resolved] may be absent. *)
Definition TurnRunProfile_of_wire (id : RunProfileId) (version : RunProfileVersion)
    (class : TurnAdmissionClass) (steering followups : bool)
    (resolved : option ResolvedRunProfile) : TurnRunProfile :=
  mk_TurnRunProfile id version class steering followups
    (default (legacy_compatibility id version steering) resolved).

(** *** Blocking, failures, cancellation *)

Inductive BlockedReason : Type :=
| BrApproval (gate_ref : GateRef)
| BrAuth (gate_ref : GateRef) (credential_requirements : list RuntimeCredentialAuthRequirement)
| BrResource (gate_ref : GateRef)
| BrAwaitDependentRun (gate_ref : GateRef).

Definition BlockedReason_status (r : BlockedReason) : TurnStatus :=
  match r with
  | BrApproval _ => BlockedApproval | BrAuth _ _ => BlockedAuth | BrResource _ => BlockedResource
  | BrAwaitDependentRun _ => BlockedDependentRun
  end.
Definition BlockedReason_gate_ref (r : BlockedReason) : GateRef :=
  match r with BrApproval g | BrAuth g _ | BrResource g | BrAwaitDependentRun g => g end.
Definition BlockedReason_credential_requirements (r : BlockedReason) :
    list RuntimeCredentialAuthRequirement :=
  match r with BrAuth _ reqs => reqs | _ => [] end.

Record SanitizedFailure : Type := trusted_failure { sf_category : string }.

Definition validate_sanitized_category (kind value : string) : result unit string :=
  if bool_decide (value = "") then Err (kind +:+ " must not be empty")
  else if 256 <? str_len value then Err (kind +:+ " must be at most 256 bytes")
  else if has_control value then Err (kind +:+ " must not contain control characters")
  else if negb (all_bytes is_lower_digit_underscore value)
  then Err (kind +:+ " must contain only lowercase ASCII letters, digits, or underscores")
  else Ok ().
Definition SanitizedFailure_new (category : string) : result SanitizedFailure string :=
  let? _ := validate_sanitized_category "failure_category" category in Ok (trusted_failure category).

Inductive SanitizedCancelReason : Type :=
| CrUserRequested | CrSuperseded | CrTimeout | CrOperatorRequested | CrPolicy.
Definition CancelReason_category (r : SanitizedCancelReason) : string :=
  match r with
  | CrUserRequested => "user_requested" | CrSuperseded => "superseded" | CrTimeout => "timeout"
  | CrOperatorRequested => "operator_requested" | CrPolicy => "policy"
  end.

Inductive AdmissionRejectionReason : Type :=
| ArTenantLimit | ArProfileRejected | ArPolicy | ArUnauthorized | ArUnavailable.
Definition AdmissionRejectionReason_category (r : AdmissionRejectionReason) : string :=
  match r with
  | ArTenantLimit => "tenant_limit" | ArProfileRejected => "profile_rejected" | ArPolicy => "policy"
  | ArUnauthorized => "unauthorized" | ArUnavailable => "unavailable"
  end.

Record AdmissionRejection : Type := mk_AdmissionRejection {
  rj_reason : AdmissionRejectionReason;
  rj_retry_after_ms : option Z;
  rj_capacity_denial : option TurnAdmissionCapacityDenial }.

Definition AdmissionRejection_new (reason : AdmissionRejectionReason) : AdmissionRejection :=
  mk_AdmissionRejection reason None None.
Definition rejection_with_retry_after_ms (r : AdmissionRejection) (ms : Z) : AdmissionRejection :=
  mk_AdmissionRejection (rj_reason r) (Some ms) (rj_capacity_denial r).
Definition with_capacity_denial (r : AdmissionRejection) (d : TurnAdmissionCapacityDenial) :
    AdmissionRejection :=
  mk_AdmissionRejection (rj_reason r) (cd_retry_after_ms d) (Some d).

(** [EventCursor(u64)]. *)
Definition EventCursor : Type := Z.

Record ThreadBusy : Type := mk_ThreadBusy {
  tb_active_run_id : TurnRunId; tb_status : TurnStatus; tb_event_cursor : EventCursor }.

Inductive TurnErrorCategory : Type :=
| CtThreadBusy | CtAdmissionRejected | CtScopeNotFound | CtUnauthorized | CtInvalidRequest
| CtUnavailable | CtConflict | CtCapacityExceeded.

Inductive TurnCapacityResource : Type := SpawnTreeDescendants | SubmitTurn | Replayed.
Definition TurnCapacityResource_as_str (r : TurnCapacityResource) : string :=
  match r with
  | SpawnTreeDescendants => "spawn_tree_descendants" | SubmitTurn => "submit_turn"
  | Replayed => "replayed"
  end.

Inductive TurnError : Type :=
| TeThreadBusy (busy : ThreadBusy)
| TeAdmissionRejected (rejection : AdmissionRejection)
| TeScopeNotFound
| TeUnauthorized
| TeInvalidRequest (reason : string)
| TeUnavailable (reason : string)
| TeConflict (reason : string)
| TeCapacityExceeded (resource : TurnCapacityResource) (cap : Z)
| TeInvalidTransition (from to : TurnStatus)
| TeLeaseMismatch.

Definition TurnError_category (e : TurnError) : TurnErrorCategory :=
  match e with
  | TeThreadBusy _ => CtThreadBusy
  | TeAdmissionRejected rejection =>
      match rj_reason rejection with
      | ArTenantLimit => CtAdmissionRejected
      | ArProfileRejected => CtInvalidRequest
      | ArPolicy | ArUnauthorized => CtUnauthorized
      | ArUnavailable => CtUnavailable
      end
  | TeScopeNotFound => CtScopeNotFound
  | TeUnauthorized => CtUnauthorized
  | TeInvalidRequest _ => CtInvalidRequest
  | TeUnavailable _ => CtUnavailable
  | TeConflict _ | TeInvalidTransition _ _ | TeLeaseMismatch => CtConflict
  | TeCapacityExceeded _ _ => CtCapacityExceeded
  end.

Definition is_expected_admission_outcome (e : TurnError) : bool :=
  match e with TeThreadBusy _ | TeAdmissionRejected _ => true | _ => false end.

Definition category_status_code (c : TurnErrorCategory) : Z :=
  match c with
  | CtThreadBusy | CtConflict => 409
  | CtAdmissionRejected | CtCapacityExceeded => 429
  | CtScopeNotFound => 404 | CtUnauthorized => 403 | CtInvalidRequest => 400 | CtUnavailable => 503
  end.
Definition adapter_status_code (e : TurnError) : Z := category_status_code (TurnError_category e).

(** ** [request.rs], [response.rs] *)

Inductive ResumeTurnPrecondition : Type :=
| AnyBlockedGate | BlockedApprovalGate | BlockedAuthGate | BlockedResourceGate
| BlockedDependentRunGate.

Definition required_status (p : ResumeTurnPrecondition) : option TurnStatus :=
  match p with
  | AnyBlockedGate => None
  | BlockedApprovalGate => Some BlockedApproval
  | BlockedAuthGate => Some BlockedAuth
  | BlockedResourceGate => Some BlockedResource
  | BlockedDependentRunGate => Some BlockedDependentRun
  end.

Record SubmitTurnRequest : Type := mk_SubmitTurnRequest {
  sq_scope : TurnScope;
  sq_actor : TurnActor;
  sq_accepted_message_ref : AcceptedMessageRef;
  sq_source_binding_ref : SourceBindingRef;
  sq_reply_target_binding_ref : ReplyTargetBindingRef;
  sq_requested_run_profile : option RunProfileRequest;
  sq_idempotency_key : IdempotencyKey;
  sq_received_at : TurnTimestamp;
  sq_requested_run_id : option TurnRunId;
  sq_parent_run_id : option TurnRunId;
  sq_subagent_depth : Z;
  sq_spawn_tree_root_run_id : option TurnRunId }.

Record SubmitChildRunRequest : Type := mk_SubmitChildRunRequest {
  cq_parent_scope : TurnScope;
  cq_parent_run_id : TurnRunId;
  cq_child_scope : TurnScope;
  cq_actor : TurnActor;
  cq_accepted_message_ref : AcceptedMessageRef;
  cq_source_binding_ref : SourceBindingRef;
  cq_reply_target_binding_ref : ReplyTargetBindingRef;
  cq_requested_run_profile : option RunProfileRequest;
  cq_idempotency_key : IdempotencyKey;
  cq_received_at : TurnTimestamp;
  cq_requested_run_id : option TurnRunId;
  cq_spawn_tree_descendant_cap : Z }.

Record ResumeTurnRequest : Type := mk_ResumeTurnRequest {
  rq_scope : TurnScope;
  rq_actor : TurnActor;
  rq_run_id : TurnRunId;
  rq_gate_resolution_ref : GateRef;
  rq_source_binding_ref : SourceBindingRef;
  rq_reply_target_binding_ref : ReplyTargetBindingRef;
  rq_idempotency_key : IdempotencyKey;
  rq_precondition : ResumeTurnPrecondition }.

Record CancelRunRequest : Type := mk_CancelRunRequest {
  xq_scope : TurnScope;
  xq_actor : TurnActor;
  xq_run_id : TurnRunId;
  xq_reason : SanitizedCancelReason;
  xq_idempotency_key : IdempotencyKey }.

Record GetRunStateRequest : Type := mk_GetRunStateRequest {
  gq_scope : TurnScope; gq_run_id : TurnRunId }.

#[export] Instance ResumeTurnPrecondition_eq_dec : EqDecision ResumeTurnPrecondition.
Proof. solve_decision. Defined.
#[export] Instance ResumeTurnRequest_eq_dec : EqDecision ResumeTurnRequest.
Proof. solve_decision. Defined.

(** [SubmitTurnResponse] has the one variant [Accepted]. *)
Record SubmitTurnResponse : Type := Accepted {
  sr_turn_id : TurnId;
  sr_run_id : TurnRunId;
  sr_status : TurnStatus;
  sr_resolved_run_profile_id : RunProfileId;
  sr_resolved_run_profile_version : RunProfileVersion;
  sr_event_cursor : EventCursor;
  sr_accepted_message_ref : AcceptedMessageRef;
  sr_reply_target_binding_ref : ReplyTargetBindingRef }.

Record ResumeTurnResponse : Type := mk_ResumeTurnResponse {
  rr_run_id : TurnRunId; rr_status : TurnStatus; rr_event_cursor : EventCursor }.

Record CancelRunResponse : Type := mk_CancelRunResponse {
  xr_run_id : TurnRunId;
  xr_status : TurnStatus;
  xr_event_cursor : EventCursor;
  xr_already_terminal : bool;
  xr_actor : option TurnActor }.

(** ** Model routes and checkpoint references: [run_profile/host.rs] *)

Definition validate_bounded_loop_string (value label : string) (max_bytes : Z) (max_text : string) :
    result unit string :=
  if bool_decide (value = "") then Err (label +:+ " must not be empty")
  else if max_bytes <? str_len value
  then Err (label +:+ " must be at most " +:+ max_text +:+ " bytes")
  else if has_control value then Err (label +:+ " must not contain NUL/control characters")
  else Ok ().

Definition FORBIDDEN_MODEL_ROUTE_MARKERS : list string :=
  ["access_token"; "api_key"; "apikey"; "authorization"; "password"; "passwd"; "secret"].
Definition FORBIDDEN_EXACT_MODEL_ROUTE_MARKERS : list string := ["bearer"].

Fixpoint map_bytes (f : Ascii.ascii -> Ascii.ascii) (s : string) : string :=
  match s with
  | EmptyString => EmptyString
  | String.String c s' => String.String (f c) (map_bytes f s')
  end.

(** [to_ascii_lowercase], [replace('-', "_")]. *)
Definition lower_byte (c : Ascii.ascii) : Ascii.ascii :=
  if is_ascii_uppercase c then Ascii.ascii_of_N (Ascii.N_of_ascii c + 32) else c.
Definition dash_to_underscore (c : Ascii.ascii) : Ascii.ascii :=
  if decide (c = "-"%char) then "_"%char else c.

(** [split(p)] on a predicate of characters; the empty pieces are filtered out. *)
Fixpoint split_where (p : Ascii.ascii -> bool) (s : string) : list string :=
  match s with
  | EmptyString => [EmptyString]
  | String.String c s' =>
      if p c then EmptyString :: split_where p s'
      else match split_where p s' with
           | hd :: tl => String.String c hd :: tl
           | [] => [String.String c EmptyString]
           end
  end.

Definition model_route_marker_tokens (value : string) : list string :=
  List.filter (fun t => negb (bool_decide (t = "")))
    (split_where (fun c => negb (is_ascii_alphanumeric c) && negb (one_of "-_" c)) value).

Definition token_contains_sensitive_marker (token marker : string) : bool :=
  let normalized := map_bytes dash_to_underscore token in
  bool_decide (normalized = marker) || starts_with (marker +:+ "_") normalized
  || ends_with ("_" +:+ marker) normalized || contains_str ("_" +:+ marker +:+ "_") normalized.

Definition reject_sensitive_model_route_markers (label value : string) : result unit string :=
  let lower := map_bytes lower_byte value in
  if existsb (fun token =>
       bool_decide (token ∈ FORBIDDEN_EXACT_MODEL_ROUTE_MARKERS)
       || existsb (token_contains_sensitive_marker token) FORBIDDEN_MODEL_ROUTE_MARKERS
       || starts_with "sk-" token) (model_route_marker_tokens lower)
  then Err (label +:+ " contains a forbidden marker") else Ok ().

Definition validate_model_selection_identity_value (label value : string) : result unit string :=
  if bool_decide (value = "") || negb (is_trimmed value) || has_control value
  then Err (label +:+ " must contain normalized nonempty text without control characters")
  else reject_sensitive_model_route_markers label value.

Definition validate_model_route_component_value (label value : string) (max_bytes : Z)
    (max_text : string) (allowed : Ascii.ascii -> bool) : result unit string :=
  let? _ := validate_bounded_loop_string value label max_bytes max_text in
  if negb (is_trimmed value) then Err (label +:+ " must not contain surrounding whitespace")
  else if negb (all_bytes allowed value) then Err (label +:+ " contains unsupported characters")
  else let? _ := reject_sensitive_model_route_markers label value in Ok ().

Record LoopModelRouteSnapshot : Type := mk_LoopModelRouteSnapshot {
  mr_provider_id : string; mr_model_id : string;
  mr_config_version : string; mr_auth_version : string }.

#[export] Instance LoopModelRouteSnapshot_eq_dec : EqDecision LoopModelRouteSnapshot.
Proof. solve_decision. Defined.

Definition version_byte (c : Ascii.ascii) : bool := is_ascii_alphanumeric c || one_of "_-.:" c.

Definition LoopModelRouteSnapshot_validate (s : LoopModelRouteSnapshot) : result unit string :=
  let? _ := validate_model_selection_identity_value "provider_id" (mr_provider_id s) in
  let? _ := validate_model_selection_identity_value "model_id" (mr_model_id s) in
  let? _ := validate_model_route_component_value "config_version" (mr_config_version s) 128 "128"
              version_byte in
  let? _ := validate_model_route_component_value "auth_version" (mr_auth_version s) 128 "128"
              version_byte in
  Ok ().

Record LoopCheckpointStateRef : Type := trusted_state_ref { state_ref_str : string }.

Definition LoopCheckpointStateRef_new (value : string) : result LoopCheckpointStateRef string :=
  let label := "loop checkpoint state ref" in
  let? _ := validate_bounded_loop_string value label 256 "256" in
  if negb (starts_with "checkpoint:" value) then Err (label +:+ " must start with `checkpoint:`")
  else if contains_char slash value || contains_char backslash value || contains_str ".." value
  then Err (label +:+ " must not contain path separators or parent-directory markers")
  else Ok (trusted_state_ref value).

Definition legacy_unknown : LoopCheckpointStateRef := trusted_state_ref "checkpoint:unknown".

Inductive LoopCheckpointKind : Type := BeforeModel | BeforeSideEffect | BeforeBlock | Final.

(** ** [native_auth_wait.rs] *)

Inductive NativeAuthWaitPhase : Type := Waiting | Resolved.
Inductive NativeAuthWaitFormat : Type := V1.

Record NativeAuthWait : Type := mk_NativeAuthWait {
  nw_format : NativeAuthWaitFormat; nw_invocation_id : Z; nw_phase : NativeAuthWaitPhase }.

Record BlockNativeAuthRequest : Type := mk_BlockNativeAuthRequest {
  nq_scope : TurnScope;
  nq_run_id : TurnRunId;
  nq_runner_id : TurnRunnerId;
  nq_lease_token : TurnLeaseToken;
  nq_gate_ref : GateRef;
  nq_boundary : AuthDispatchBoundary;
  nq_credential_requirements : list RuntimeCredentialAuthRequirement }.

Definition NativeAuthWait_is_waiting (w : NativeAuthWait) : bool :=
  match nw_phase w with Waiting => true | Resolved => false end.
Definition NativeAuthWait_resolve (w : NativeAuthWait) : NativeAuthWait :=
  mk_NativeAuthWait (nw_format w) (nw_invocation_id w) Resolved.

Section Native.
Context {U : UuidText} {P : UuidParse U}.

Definition native_auth_gate (invocation_id : Z) : result GateRef TurnError :=
  if invocation_id =? 0
  then Err (TeInvalidRequest "native authentication occurrence is missing")
  else map_err TeInvalidRequest
         (turn_ref_new KGate ("gate:auth:native:" +:+ uuid_text invocation_id)).

Definition NativeAuthWait_new (gate : GateRef) : result NativeAuthWait TurnError :=
  let? invocation_id :=
    ok_or (strip_prefix "gate:auth:native:" (ref_str gate) ≫= uuid_parse)
      (TeInvalidRequest "native authentication occurrence is missing") in
  let? canonical := native_auth_gate invocation_id in
  if negb (bool_decide (ref_str canonical = ref_str gate))
  then Err (TeInvalidRequest "native authentication occurrence reference is not canonical")
  else Ok (mk_NativeAuthWait V1 invocation_id Waiting).

Definition NativeAuthWait_gate_ref (w : NativeAuthWait) : result GateRef TurnError :=
  native_auth_gate (nw_invocation_id w).

(** [Deserialize]: the stored occurrence must still have a gate. *)
Definition NativeAuthWait_of_wire (w : NativeAuthWait) : result NativeAuthWait TurnError :=
  let? _ := native_auth_gate (nw_invocation_id w) in Ok w.

End Native.

(** ** [events.rs] *)

Inductive TurnEventKind : Type :=
| EkSubmitted | EkResumed | EkRunnerClaimed | EkRunnerHeartbeat | EkRecoveryRequired | EkBlocked
| EkCancelRequested | EkCancelled | EkCompleted | EkFailed.

#[export] Instance TurnEventKind_eq_dec : EqDecision TurnEventKind.
Proof. solve_decision. Defined.

Inductive TurnBlockedGateKind : Type := GkApproval | GkAuth | GkResource | GkAwaitDependentRun.

Definition gate_kind_from_status (s : TurnStatus) : option TurnBlockedGateKind :=
  match s with
  | BlockedApproval => Some GkApproval
  | BlockedAuth => Some GkAuth
  | BlockedResource => Some GkResource
  | BlockedDependentRun => Some GkAwaitDependentRun
  | _ => None
  end.

Record TurnBlockedGateMetadata : Type := mk_TurnBlockedGateMetadata {
  bg_gate_ref : GateRef;
  bg_gate_kind : TurnBlockedGateKind;
  bg_credential_requirements : list RuntimeCredentialAuthRequirement }.

Record TurnLifecycleEvent : Type := mk_TurnLifecycleEvent {
  le_cursor : EventCursor;
  le_scope : TurnScope;
  le_occurred_at : option TurnTimestamp;
  le_owner_user_id : option UserId;
  le_run_id : TurnRunId;
  le_status : TurnStatus;
  le_kind : TurnEventKind;
  le_blocked_gate : option TurnBlockedGateMetadata;
  le_sanitized_reason : option string }.

Definition lifecycle_owner_user_id (scope : TurnScope) (fallback : option UserId) : option UserId :=
  match explicit_owner_user_id scope with Some u => Some u | None => fallback end.

Definition blocked_gate_of (kind : TurnEventKind) (status : TurnStatus) (gate : option GateRef)
    (reqs : list RuntimeCredentialAuthRequirement) : option TurnBlockedGateMetadata :=
  if bool_decide (kind = EkBlocked)
  then g ← gate; k ← gate_kind_from_status status; Some (mk_TurnBlockedGateMetadata g k reqs)
  else None.

Definition into_public_projection_entry (e : TurnLifecycleEvent) : TurnLifecycleEvent :=
  mk_TurnLifecycleEvent (le_cursor e) (le_scope e) (le_occurred_at e) None (le_run_id e)
    (le_status e) (le_kind e) None (le_sanitized_reason e).

(** [TurnRunState] of [status.rs]. *)
Record TurnRunState : Type := mk_TurnRunState {
  st_scope : TurnScope;
  st_actor : option TurnActor;
  st_turn_id : TurnId;
  st_run_id : TurnRunId;
  st_status : TurnStatus;
  st_accepted_message_ref : AcceptedMessageRef;
  st_source_binding_ref : SourceBindingRef;
  st_reply_target_binding_ref : ReplyTargetBindingRef;
  st_resolved_run_profile_id : RunProfileId;
  st_resolved_run_profile_version : RunProfileVersion;
  st_resolved_model_route : option LoopModelRouteSnapshot;
  st_received_at : TurnTimestamp;
  st_checkpoint_id : option TurnCheckpointId;
  st_gate_ref : option GateRef;
  st_credential_requirements : list RuntimeCredentialAuthRequirement;
  st_failure : option SanitizedFailure;
  st_event_cursor : EventCursor }.

Definition event_from_run_state (state : TurnRunState) (kind : TurnEventKind)
    (reason : option string) (now : TurnTimestamp) : TurnLifecycleEvent :=
  mk_TurnLifecycleEvent (st_event_cursor state) (st_scope state) (Some now)
    (lifecycle_owner_user_id (st_scope state) (ta_user_id <$> st_actor state))
    (st_run_id state) (st_status state) kind
    (blocked_gate_of kind (st_status state) (st_gate_ref state) (st_credential_requirements state))
    reason.

Definition MAX_IN_MEMORY_EVENTS : nat := Z.to_nat 10000.
Definition MAX_TURN_EVENT_PROJECTION_LIMIT : nat := Z.to_nat 1000.

(** [InMemoryTurnEventSink::publish]. *)
Definition sink_publish (events : list TurnLifecycleEvent) (e : TurnLifecycleEvent) :
    list TurnLifecycleEvent :=
  let events := events ++ [e] in
  drop (length events - MAX_IN_MEMORY_EVENTS) events.

Record TurnEventProjectionCursor : Type := mk_TurnEventProjectionCursor {
  pc_event : EventCursor; pc_scope : TurnScope }.

Record TurnEventProjectionRequest : Type := mk_TurnEventProjectionRequest {
  pq_scope : TurnScope;
  pq_owner_user_id : option UserId;
  pq_after : option TurnEventProjectionCursor;
  pq_limit : nat }.

Record TurnEventProjectionSnapshot : Type := mk_TurnEventProjectionSnapshot {
  ps_entries : list TurnLifecycleEvent;
  ps_next_cursor : TurnEventProjectionCursor;
  ps_truncated : bool }.

Record TurnEventPage : Type := mk_TurnEventPage {
  pg_entries : list TurnLifecycleEvent;
  pg_next_cursor : EventCursor;
  pg_truncated : bool;
  pg_rebase_required : option EventCursor }.

Inductive TurnEventProjectionError : Type :=
| PeInvalidRequest (reason : string)
| PeRebaseRequired (requested earliest : TurnEventProjectionCursor)
| PeSource (operation : string).

Definition by_cursor (a b : TurnLifecycleEvent) : Prop := le_cursor a <= le_cursor b.
#[export] Instance by_cursor_dec : RelDecision by_cursor.
Proof. intros a b. unfold by_cursor. apply _. Defined.

Definition event_visible (scope : TurnScope) (owner : option UserId) (e : TurnLifecycleEvent) :
    bool :=
  bool_decide (le_scope e = scope)
  && match owner with Some o => bool_decide (le_owner_user_id e = Some o) | None => true end.

Definition scoped_events (events : list TurnLifecycleEvent) (scope : TurnScope)
    (owner : option UserId) : list TurnLifecycleEvent :=
  merge_sort by_cursor (List.filter (event_visible scope owner) events).

Definition rebase_cursor (floor after : EventCursor) (latest : option EventCursor) :
    option EventCursor :=
  if (0 <? floor) && (after <? floor) then Some floor
  else match latest with
       | Some l => if l <? after then Some l else None
       | None => if floor <? after then Some floor else None
       end.

Definition project_turn_events (events : list TurnLifecycleEvent) (scope : TurnScope)
    (owner : option UserId) (after : option EventCursor) (limit : nat) (floor : EventCursor) :
    TurnEventPage :=
  let after := default 0 after in
  let scoped := scoped_events events scope owner in
  match rebase_cursor floor after (le_cursor <$> last scoped) with
  | Some c => mk_TurnEventPage [] c false (Some c)
  | None =>
      let matching := List.filter (fun e => after <? le_cursor e) scoped in
      let truncated := bool_decide (limit < length matching)%nat in
      let entries := if truncated then take limit matching else matching in
      mk_TurnEventPage entries (from_option le_cursor after (last entries)) truncated None
  end.

(** [TurnEventProjectionService::read] over the source [source]. *)
Definition projection_read
    (source : TurnScope -> option UserId -> option EventCursor -> nat -> result TurnEventPage TurnError)
    (request : TurnEventProjectionRequest) :
    result TurnEventProjectionSnapshot TurnEventProjectionError :=
  if bool_decide (pq_limit request = 0%nat)
     || bool_decide (MAX_TURN_EVENT_PROJECTION_LIMIT < pq_limit request)%nat
  then Err (PeInvalidRequest "limit must be between 1 and MAX_TURN_EVENT_PROJECTION_LIMIT")
  else
  let origin := mk_TurnEventProjectionCursor 0 (pq_scope request) in
  let early :=
    cursor ← pq_after request;
    if bool_decide (pc_scope cursor = pq_scope request) then None
    else Some (Err (PeRebaseRequired cursor origin)) in
  match early with
  | Some r => r
  | None =>
      let? page := map_err (fun _ => PeSource "read_turn_events_after")
        (source (pq_scope request) (pq_owner_user_id request)
           (pc_event <$> pq_after request) (pq_limit request)) in
      match pg_rebase_required page with
      | Some c =>
          Err (PeRebaseRequired (default origin (pq_after request))
                 (mk_TurnEventProjectionCursor c (pq_scope request)))
      | None =>
          Ok (mk_TurnEventProjectionSnapshot (map into_public_projection_entry (pg_entries page))
                (mk_TurnEventProjectionCursor (pg_next_cursor page) (pq_scope request))
                (pg_truncated page))
      end
  end.

(** ** [runner.rs] *)

Record ClaimRunRequest : Type := mk_ClaimRunRequest {
  kq_runner_id : TurnRunnerId; kq_lease_token : TurnLeaseToken; kq_scope_filter : option TurnScope }.

Record ClaimedTurnRun : Type := mk_ClaimedTurnRun {
  cl_state : TurnRunState;
  cl_resolved_run_profile : ResolvedRunProfile;
  cl_runner_id : TurnRunnerId;
  cl_lease_token : TurnLeaseToken }.

(** The run, runner and lease every request of a runner names. *)
Record LeaseRef : Type := mk_LeaseRef {
  lr_run_id : TurnRunId; lr_runner_id : TurnRunnerId; lr_lease_token : TurnLeaseToken }.

Inductive TurnRunnerOutcome : Type :=
| RoCompleted
| RoCancelled
| RoBlocked (checkpoint_id : TurnCheckpointId) (state_ref : LoopCheckpointStateRef)
    (reason : BlockedReason)
| RoFailed (failure : SanitizedFailure).

(** From [loop_exit.rs]. *)
Inductive LoopExitMapping : Type :=
| RunnerOutcome (outcome : TurnRunnerOutcome)
| MapRecoveryRequired (failure : SanitizedFailure).

(** ** [checkpoint_state.rs]: checkpoint records of the turn store *)

Record LoopCheckpointRecord : Type := mk_LoopCheckpointRecord {
  lc_checkpoint_id : TurnCheckpointId;
  lc_scope : TurnScope;
  lc_turn_id : TurnId;
  lc_run_id : TurnRunId;
  lc_state_ref : LoopCheckpointStateRef;
  lc_schema_id : profile_ref KCheckpointSchema;
  lc_schema_version : RunProfileVersion;
  lc_kind : LoopCheckpointKind;
  lc_gate_ref : option LoopGateRef;
  lc_created_at : TurnTimestamp }.

Record PutLoopCheckpointRequest : Type := mk_PutLoopCheckpointRequest {
  plc_scope : TurnScope;
  plc_turn_id : TurnId;
  plc_run_id : TurnRunId;
  plc_state_ref : LoopCheckpointStateRef;
  plc_schema_id : profile_ref KCheckpointSchema;
  plc_schema_version : RunProfileVersion;
  plc_kind : LoopCheckpointKind;
  plc_gate_ref : option LoopGateRef }.

Record GetLoopCheckpointRequest : Type := mk_GetLoopCheckpointRequest {
  glc_scope : TurnScope;
  glc_turn_id : TurnId;
  glc_run_id : TurnRunId;
  glc_checkpoint_id : TurnCheckpointId }.

(** ** [store.rs] *)

(** [TurnActiveLockKey] wraps the scope. *)
Definition TurnActiveLockKey : Type := TurnScope.
#[export] Instance TurnActiveLockKey_eq_dec : EqDecision TurnActiveLockKey := TurnScope_eq_dec.
#[export] Instance TurnActiveLockKey_countable : Countable TurnActiveLockKey := TurnScope_countable.

(** [TurnLockVersion::incremented]. *)
Definition lock_version_incremented (v : Z) : Z := Z.min (v + 1) u64_max.

Record TurnRecord : Type := mk_TurnRecord {
  tn_turn_id : TurnId;
  tn_scope : TurnScope;
  tn_actor : TurnActor;
  tn_accepted_message_ref : AcceptedMessageRef;
  tn_source_binding_ref : SourceBindingRef;
  tn_reply_target_binding_ref : ReplyTargetBindingRef;
  tn_created_at : TurnTimestamp }.

Record TurnActiveLockRecord : Type := mk_TurnActiveLockRecord {
  lk_key : TurnActiveLockKey;
  lk_run_id : TurnRunId;
  lk_status : TurnStatus;
  lk_lock_version : Z;
  lk_acquired_at : TurnTimestamp;
  lk_updated_at : TurnTimestamp }.

Record TurnCheckpointRecord : Type := mk_TurnCheckpointRecord {
  ck_checkpoint_id : TurnCheckpointId;
  ck_run_id : TurnRunId;
  ck_scope : option TurnScope;
  ck_sequence : Z;
  ck_status : TurnStatus;
  ck_gate_ref : GateRef;
  ck_kind : LoopCheckpointKind;
  ck_state_ref : LoopCheckpointStateRef;
  ck_created_at : TurnTimestamp }.

Record TurnRunRecord : Type := mk_TurnRunRecord {
  tr_run_id : TurnRunId;
  tr_turn_id : TurnId;
  tr_scope : TurnScope;
  tr_accepted_message_ref : AcceptedMessageRef;
  tr_source_binding_ref : SourceBindingRef;
  tr_reply_target_binding_ref : ReplyTargetBindingRef;
  tr_status : TurnStatus;
  tr_profile : TurnRunProfile;
  tr_resolved_model_route : option LoopModelRouteSnapshot;
  tr_checkpoint_id : option TurnCheckpointId;
  tr_gate_ref : option GateRef;
  tr_credential_requirements : list RuntimeCredentialAuthRequirement;
  tr_failure : option SanitizedFailure;
  tr_event_cursor : EventCursor;
  tr_runner_id : option TurnRunnerId;
  tr_lease_token : option TurnLeaseToken;
  tr_lease_expires_at : option TurnTimestamp;
  tr_last_heartbeat_at : option TurnTimestamp;
  tr_claim_count : Z;
  tr_received_at : TurnTimestamp;
  tr_parent_run_id : option TurnRunId;
  tr_subagent_depth : Z;
  tr_spawn_tree_root_run_id : option TurnRunId;
  tr_claimed_child_reservation_released : option bool;
  tr_native_auth_wait : option NativeAuthWait }.

(** [SpawnTreeReservationKey]: the tenant, agent and project of the scope, and the
    root run. *)
Definition SpawnTreeReservationKey : Type :=
  (TenantId * option AgentId * option ProjectId * TurnRunId)%type.
#[export] Instance SpawnTreeReservationKey_eq_dec : EqDecision SpawnTreeReservationKey := _.
#[export] Instance SpawnTreeReservationKey_countable : Countable SpawnTreeReservationKey := _.
Definition SpawnTreeReservationKey_new (scope : TurnScope) (root : TurnRunId) :
    SpawnTreeReservationKey := (ts_tenant_id scope, ts_agent_id scope, ts_project_id scope, root).
Definition reservation_root (k : SpawnTreeReservationKey) : TurnRunId := k.2.

Record SpawnTreeReservation : Type := mk_SpawnTreeReservation {
  sv_scope : TurnScope; sv_root_run_id : TurnRunId; sv_descendant_count : Z }.

Inductive TurnIdempotencyOperationKind : Type := OpSubmit | OpResume | OpCancel.
#[export] Instance TurnIdempotencyOperationKind_eq_dec : EqDecision TurnIdempotencyOperationKind.
Proof. solve_decision. Defined.
#[export] Instance TurnIdempotencyOperationKind_countable : Countable TurnIdempotencyOperationKind.
Proof.
  refine (inj_countable'
    (fun o => match o with OpSubmit => None | OpResume => Some true | OpCancel => Some false end)
    (fun x => match x with None => OpSubmit | Some true => OpResume | Some false => OpCancel end) _).
  by intros [].
Defined.

Inductive TurnIdempotencyOutcomeKind : Type :=
| OkAccepted | OkThreadBusy | OkAdmissionRejected | OkResumed | OkCancelRecorded | OkScopeNotFound
| OkUnauthorized | OkInvalidRequest | OkUnavailable | OkConflict | OkCapacityExceeded.
#[export] Instance TurnIdempotencyOutcomeKind_eq_dec : EqDecision TurnIdempotencyOutcomeKind.
Proof. solve_decision. Defined.

Definition outcome_from_error (e : TurnError) : TurnIdempotencyOutcomeKind :=
  match e with
  | TeThreadBusy _ => OkThreadBusy
  | TeAdmissionRejected _ => OkAdmissionRejected
  | TeScopeNotFound => OkScopeNotFound
  | TeUnauthorized => OkUnauthorized
  | TeInvalidRequest _ => OkInvalidRequest
  | TeUnavailable _ => OkUnavailable
  | TeCapacityExceeded _ _ => OkCapacityExceeded
  | TeConflict _ | TeInvalidTransition _ _ | TeLeaseMismatch => OkConflict
  end.

Record TurnIdempotencyErrorReplay : Type := mk_TurnIdempotencyErrorReplay {
  er_category : TurnErrorCategory;
  er_adapter_status_code : Z;
  er_capacity_resource : option TurnCapacityResource;
  er_capacity_cap : option Z }.

Definition ErrorReplay_from_error (e : TurnError) : TurnIdempotencyErrorReplay :=
  let '(resource, cap) :=
    match e with TeCapacityExceeded r c => (Some r, Some c) | _ => (None, None) end in
  mk_TurnIdempotencyErrorReplay (TurnError_category e) (adapter_status_code e) resource cap.

Definition ErrorReplay_to_error (r : TurnIdempotencyErrorReplay) : TurnError :=
  match er_category r with
  | CtScopeNotFound => TeScopeNotFound
  | CtUnauthorized => TeUnauthorized
  | CtInvalidRequest => TeInvalidRequest "replayed invalid request"
  | CtUnavailable => TeUnavailable "replayed unavailable"
  | CtConflict => TeConflict "replayed conflict"
  | CtCapacityExceeded =>
      TeCapacityExceeded (default Replayed (er_capacity_resource r)) (default 0 (er_capacity_cap r))
  | CtThreadBusy => TeConflict "replayed malformed thread-busy idempotency record"
  | CtAdmissionRejected => TeConflict "replayed malformed admission idempotency record"
  end.

Inductive TurnIdempotencyReplay : Type :=
| SubmitAccepted (response : SubmitTurnResponse)
| SubmitThreadBusy (busy : ThreadBusy)
| SubmitAdmissionRejected (rejection : AdmissionRejection)
| ResumeSucceeded (response : ResumeTurnResponse)
| NativeAuthResumeSucceeded (request : ResumeTurnRequest) (response : ResumeTurnResponse)
| NativeAuthResumeRejected (request : ResumeTurnRequest) (error : TurnIdempotencyErrorReplay)
| CancelRecorded (response : CancelRunResponse)
| ErrorReplay (error : TurnIdempotencyErrorReplay).

Record TurnIdempotencyRecord : Type := mk_TurnIdempotencyRecord {
  id_scope : TurnScope;
  id_operation : TurnIdempotencyOperationKind;
  id_key : IdempotencyKey;
  id_turn_id : option TurnId;
  id_run_id : option TurnRunId;
  id_outcome : TurnIdempotencyOutcomeKind;
  id_replay : TurnIdempotencyReplay;
  id_created_at : TurnTimestamp;
  id_expires_at : option TurnTimestamp }.

Definition replay_submit (r : TurnIdempotencyRecord) : option (result SubmitTurnResponse TurnError) :=
  if negb (bool_decide (id_operation r = OpSubmit)) then None
  else match id_replay r with
       | SubmitAccepted response => Some (Ok response)
       | SubmitThreadBusy _ => None
       | SubmitAdmissionRejected rejection => Some (Err (TeAdmissionRejected rejection))
       | ErrorReplay error => Some (Err (ErrorReplay_to_error error))
       | _ => None
       end.

Definition native_resume_request (r : TurnIdempotencyRecord) : option ResumeTurnRequest :=
  match id_replay r with
  | NativeAuthResumeSucceeded request _ | NativeAuthResumeRejected request _ => Some request
  | _ => None
  end.

Definition native_resume_record_is_valid (r : TurnIdempotencyRecord) : bool :=
  match native_resume_request r with
  | None => true
  | Some request =>
      bool_decide (id_operation r = OpResume) && bool_decide (id_scope r = rq_scope request)
      && bool_decide (id_run_id r = Some (rq_run_id request))
      && bool_decide (id_key r = rq_idempotency_key request)
      && match id_replay r with
         | NativeAuthResumeSucceeded _ response =>
             bool_decide (rr_run_id response = rq_run_id request)
             && bool_decide (rr_status response = Running)
             && bool_decide (rq_precondition request = BlockedAuthGate)
             && bool_decide (id_outcome r = OkResumed)
         | NativeAuthResumeRejected _ error =>
             bool_decide (id_outcome r = outcome_from_error (ErrorReplay_to_error error))
         | _ => false
         end
  end.

Definition replay_resume (r : TurnIdempotencyRecord) : option (result ResumeTurnResponse TurnError) :=
  if negb (bool_decide (id_operation r = OpResume)) then None
  else match id_replay r with
       | ResumeSucceeded response | NativeAuthResumeSucceeded _ response => Some (Ok response)
       | NativeAuthResumeRejected _ error | ErrorReplay error =>
           Some (Err (ErrorReplay_to_error error))
       | _ => None
       end.

Definition replay_cancel (r : TurnIdempotencyRecord) : option (result CancelRunResponse TurnError) :=
  if negb (bool_decide (id_operation r = OpCancel)) then None
  else match id_replay r with
       | CancelRecorded response => Some (Ok response)
       | ErrorReplay error => Some (Err (ErrorReplay_to_error error))
       | _ => None
       end.

Record TurnPersistenceSnapshot : Type := mk_TurnPersistenceSnapshot {
  sn_turns : list TurnRecord;
  sn_runs : list TurnRunRecord;
  sn_active_locks : list TurnActiveLockRecord;
  sn_checkpoints : list TurnCheckpointRecord;
  sn_loop_checkpoints : list LoopCheckpointRecord;
  sn_idempotency_records : list TurnIdempotencyRecord;
  sn_events : list TurnLifecycleEvent;
  sn_event_retention_floor : EventCursor;
  sn_admission_reservations : list TurnAdmissionReservationRecord;
  sn_spawn_tree_reservations : list SpawnTreeReservation }.
