(* ===== verification/TurnStore.v ===== *)
(** * The in-memory turn store

    [crates/brassclaw_turns/src/memory.rs]: the state of all turns behind one mutex
    ([Inner]), and the operations on it.  An operation that holds the mutex from
    beginning to end is a function on [Inner]; the submissions, which release it
    while the admission policy and the profile resolver run, are programs whose
    calls are the critical sections.  Every other store of turn states (the
    filesystem store and the database one) loads a snapshot, runs these operations
    on it, and writes the snapshot back.

    The clock is read once per critical section and is the argument [now]; fresh
    identifiers are arguments; where the code goes through a hash map and the order
    shows in the result, the order is an argument.  A poisoned mutex (a panic inside
    a critical section) is not modelled. *)

From S2P Require Import Prelude Effects External HostIds HostTypes Dispatch RunProfile TurnTypes.
Open Scope Z_scope.

(** [DateTime::checked_add_signed] of chrono. *)
Class Chrono : Type := {
  checked_add_signed : Z -> Z -> option Z;
  checked_add_signed_some : forall t d t', checked_add_signed t d = Some t' -> t' = t + d }.

(** ** The records *)

Record RunRecord : Type := mk_RunRecord {
  r_scope : TurnScope;
  r_actor : TurnActor;
  r_turn_id : TurnId;
  r_run_id : TurnRunId;
  r_status : TurnStatus;
  r_profile : TurnRunProfile;
  r_resolved_model_route : option LoopModelRouteSnapshot;
  r_accepted_message_ref : AcceptedMessageRef;
  r_source_binding_ref : SourceBindingRef;
  r_reply_target_binding_ref : ReplyTargetBindingRef;
  r_checkpoint_id : option TurnCheckpointId;
  r_gate_ref : option GateRef;
  r_credential_requirements : list RuntimeCredentialAuthRequirement;
  r_failure : option SanitizedFailure;
  r_event_cursor : EventCursor;
  r_runner_id : option TurnRunnerId;
  r_lease_token : option TurnLeaseToken;
  r_lease_expires_at : option TurnTimestamp;
  r_last_heartbeat_at : option TurnTimestamp;
  r_claim_count : Z;
  r_received_at : TurnTimestamp;
  r_parent_run_id : option TurnRunId;
  r_subagent_depth : Z;
  r_spawn_tree_root_run_id : option TurnRunId;
  r_claimed_child_reservation_released : option bool;
  r_native_auth_wait : option NativeAuthWait }.

Definition set_status (status : TurnStatus) (r : RunRecord) : RunRecord :=
  mk_RunRecord
    (r_scope r) (r_actor r) (r_turn_id r) (r_run_id r) status (r_profile r)
    (r_resolved_model_route r) (r_accepted_message_ref r) (r_source_binding_ref r)
    (r_reply_target_binding_ref r) (r_checkpoint_id r) (r_gate_ref r)
    (r_credential_requirements r) (r_failure r) (r_event_cursor r) (r_runner_id r)
    (r_lease_token r) (r_lease_expires_at r) (r_last_heartbeat_at r) (r_claim_count r)
    (r_received_at r) (r_parent_run_id r) (r_subagent_depth r) (r_spawn_tree_root_run_id r)
    (r_claimed_child_reservation_released r) (r_native_auth_wait r).
Definition set_event_cursor (cursor : EventCursor) (r : RunRecord) : RunRecord :=
  mk_RunRecord
    (r_scope r) (r_actor r) (r_turn_id r) (r_run_id r) (r_status r) (r_profile r)
    (r_resolved_model_route r) (r_accepted_message_ref r) (r_source_binding_ref r)
    (r_reply_target_binding_ref r) (r_checkpoint_id r) (r_gate_ref r)
    (r_credential_requirements r) (r_failure r) cursor (r_runner_id r) (r_lease_token r)
    (r_lease_expires_at r) (r_last_heartbeat_at r) (r_claim_count r) (r_received_at r)
    (r_parent_run_id r) (r_subagent_depth r) (r_spawn_tree_root_run_id r)
    (r_claimed_child_reservation_released r) (r_native_auth_wait r).
Definition set_lease (runner : option TurnRunnerId) (lease : option TurnLeaseToken) (expires : option TurnTimestamp)
    (r : RunRecord) : RunRecord :=
  mk_RunRecord
    (r_scope r) (r_actor r) (r_turn_id r) (r_run_id r) (r_status r) (r_profile r)
    (r_resolved_model_route r) (r_accepted_message_ref r) (r_source_binding_ref r)
    (r_reply_target_binding_ref r) (r_checkpoint_id r) (r_gate_ref r)
    (r_credential_requirements r) (r_failure r) (r_event_cursor r) runner lease expires
    (r_last_heartbeat_at r) (r_claim_count r) (r_received_at r) (r_parent_run_id r)
    (r_subagent_depth r) (r_spawn_tree_root_run_id r) (r_claimed_child_reservation_released r)
    (r_native_auth_wait r).
Definition set_heartbeat (at_ : option TurnTimestamp) (r : RunRecord) : RunRecord :=
  mk_RunRecord
    (r_scope r) (r_actor r) (r_turn_id r) (r_run_id r) (r_status r) (r_profile r)
    (r_resolved_model_route r) (r_accepted_message_ref r) (r_source_binding_ref r)
    (r_reply_target_binding_ref r) (r_checkpoint_id r) (r_gate_ref r)
    (r_credential_requirements r) (r_failure r) (r_event_cursor r) (r_runner_id r)
    (r_lease_token r) (r_lease_expires_at r) at_ (r_claim_count r) (r_received_at r)
    (r_parent_run_id r) (r_subagent_depth r) (r_spawn_tree_root_run_id r)
    (r_claimed_child_reservation_released r) (r_native_auth_wait r).
Definition set_lease_expires_at (expires : option TurnTimestamp) (r : RunRecord) : RunRecord :=
  mk_RunRecord
    (r_scope r) (r_actor r) (r_turn_id r) (r_run_id r) (r_status r) (r_profile r)
    (r_resolved_model_route r) (r_accepted_message_ref r) (r_source_binding_ref r)
    (r_reply_target_binding_ref r) (r_checkpoint_id r) (r_gate_ref r)
    (r_credential_requirements r) (r_failure r) (r_event_cursor r) (r_runner_id r)
    (r_lease_token r) expires (r_last_heartbeat_at r) (r_claim_count r) (r_received_at r)
    (r_parent_run_id r) (r_subagent_depth r) (r_spawn_tree_root_run_id r)
    (r_claimed_child_reservation_released r) (r_native_auth_wait r).
Definition set_claim_count (n : Z) (r : RunRecord) : RunRecord :=
  mk_RunRecord
    (r_scope r) (r_actor r) (r_turn_id r) (r_run_id r) (r_status r) (r_profile r)
    (r_resolved_model_route r) (r_accepted_message_ref r) (r_source_binding_ref r)
    (r_reply_target_binding_ref r) (r_checkpoint_id r) (r_gate_ref r)
    (r_credential_requirements r) (r_failure r) (r_event_cursor r) (r_runner_id r)
    (r_lease_token r) (r_lease_expires_at r) (r_last_heartbeat_at r) n (r_received_at r)
    (r_parent_run_id r) (r_subagent_depth r) (r_spawn_tree_root_run_id r)
    (r_claimed_child_reservation_released r) (r_native_auth_wait r).
Definition set_route (route : option LoopModelRouteSnapshot) (r : RunRecord) : RunRecord :=
  mk_RunRecord
    (r_scope r) (r_actor r) (r_turn_id r) (r_run_id r) (r_status r) (r_profile r) route
    (r_accepted_message_ref r) (r_source_binding_ref r) (r_reply_target_binding_ref r)
    (r_checkpoint_id r) (r_gate_ref r) (r_credential_requirements r) (r_failure r)
    (r_event_cursor r) (r_runner_id r) (r_lease_token r) (r_lease_expires_at r)
    (r_last_heartbeat_at r) (r_claim_count r) (r_received_at r) (r_parent_run_id r)
    (r_subagent_depth r) (r_spawn_tree_root_run_id r) (r_claimed_child_reservation_released r)
    (r_native_auth_wait r).
Definition set_gate (gate : option GateRef) (reqs : list RuntimeCredentialAuthRequirement)
    (r : RunRecord) : RunRecord :=
  mk_RunRecord
    (r_scope r) (r_actor r) (r_turn_id r) (r_run_id r) (r_status r) (r_profile r)
    (r_resolved_model_route r) (r_accepted_message_ref r) (r_source_binding_ref r)
    (r_reply_target_binding_ref r) (r_checkpoint_id r) gate reqs (r_failure r) (r_event_cursor r)
    (r_runner_id r) (r_lease_token r) (r_lease_expires_at r) (r_last_heartbeat_at r)
    (r_claim_count r) (r_received_at r) (r_parent_run_id r) (r_subagent_depth r)
    (r_spawn_tree_root_run_id r) (r_claimed_child_reservation_released r) (r_native_auth_wait r).
Definition set_checkpoint (checkpoint : option TurnCheckpointId) (r : RunRecord) : RunRecord :=
  mk_RunRecord
    (r_scope r) (r_actor r) (r_turn_id r) (r_run_id r) (r_status r) (r_profile r)
    (r_resolved_model_route r) (r_accepted_message_ref r) (r_source_binding_ref r)
    (r_reply_target_binding_ref r) checkpoint (r_gate_ref r) (r_credential_requirements r)
    (r_failure r) (r_event_cursor r) (r_runner_id r) (r_lease_token r) (r_lease_expires_at r)
    (r_last_heartbeat_at r) (r_claim_count r) (r_received_at r) (r_parent_run_id r)
    (r_subagent_depth r) (r_spawn_tree_root_run_id r) (r_claimed_child_reservation_released r)
    (r_native_auth_wait r).
Definition set_failure (failure : option SanitizedFailure) (r : RunRecord) : RunRecord :=
  mk_RunRecord
    (r_scope r) (r_actor r) (r_turn_id r) (r_run_id r) (r_status r) (r_profile r)
    (r_resolved_model_route r) (r_accepted_message_ref r) (r_source_binding_ref r)
    (r_reply_target_binding_ref r) (r_checkpoint_id r) (r_gate_ref r)
    (r_credential_requirements r) failure (r_event_cursor r) (r_runner_id r) (r_lease_token r)
    (r_lease_expires_at r) (r_last_heartbeat_at r) (r_claim_count r) (r_received_at r)
    (r_parent_run_id r) (r_subagent_depth r) (r_spawn_tree_root_run_id r)
    (r_claimed_child_reservation_released r) (r_native_auth_wait r).
Definition set_bindings (source : SourceBindingRef) (reply : ReplyTargetBindingRef)
    (r : RunRecord) : RunRecord :=
  mk_RunRecord
    (r_scope r) (r_actor r) (r_turn_id r) (r_run_id r) (r_status r) (r_profile r)
    (r_resolved_model_route r) (r_accepted_message_ref r) source reply (r_checkpoint_id r)
    (r_gate_ref r) (r_credential_requirements r) (r_failure r) (r_event_cursor r) (r_runner_id r)
    (r_lease_token r) (r_lease_expires_at r) (r_last_heartbeat_at r) (r_claim_count r)
    (r_received_at r) (r_parent_run_id r) (r_subagent_depth r) (r_spawn_tree_root_run_id r)
    (r_claimed_child_reservation_released r) (r_native_auth_wait r).
Definition set_released (released : option bool) (r : RunRecord) : RunRecord :=
  mk_RunRecord
    (r_scope r) (r_actor r) (r_turn_id r) (r_run_id r) (r_status r) (r_profile r)
    (r_resolved_model_route r) (r_accepted_message_ref r) (r_source_binding_ref r)
    (r_reply_target_binding_ref r) (r_checkpoint_id r) (r_gate_ref r)
    (r_credential_requirements r) (r_failure r) (r_event_cursor r) (r_runner_id r)
    (r_lease_token r) (r_lease_expires_at r) (r_last_heartbeat_at r) (r_claim_count r)
    (r_received_at r) (r_parent_run_id r) (r_subagent_depth r) (r_spawn_tree_root_run_id r)
    released (r_native_auth_wait r).
Definition set_native (wait : option NativeAuthWait) (r : RunRecord) : RunRecord :=
  mk_RunRecord
    (r_scope r) (r_actor r) (r_turn_id r) (r_run_id r) (r_status r) (r_profile r)
    (r_resolved_model_route r) (r_accepted_message_ref r) (r_source_binding_ref r)
    (r_reply_target_binding_ref r) (r_checkpoint_id r) (r_gate_ref r)
    (r_credential_requirements r) (r_failure r) (r_event_cursor r) (r_runner_id r)
    (r_lease_token r) (r_lease_expires_at r) (r_last_heartbeat_at r) (r_claim_count r)
    (r_received_at r) (r_parent_run_id r) (r_subagent_depth r) (r_spawn_tree_root_run_id r)
    (r_claimed_child_reservation_released r) wait.

(** The keys of the idempotency maps. *)
Definition SubmitIdempotencyKey : Type := (TurnScope * IdempotencyKey)%type.
Definition RunIdempotencyKey : Type := (TurnScope * TurnRunId * IdempotencyKey)%type.
Definition PersistedIdempotencyKey : Type :=
  (TurnScope * TurnIdempotencyOperationKind * option TurnRunId * IdempotencyKey)%type.
#[export] Instance SubmitIdempotencyKey_eq_dec : EqDecision SubmitIdempotencyKey := _.
#[export] Instance SubmitIdempotencyKey_countable : Countable SubmitIdempotencyKey := _.
#[export] Instance RunIdempotencyKey_eq_dec : EqDecision RunIdempotencyKey := _.
#[export] Instance RunIdempotencyKey_countable : Countable RunIdempotencyKey := _.
#[export] Instance PersistedIdempotencyKey_eq_dec : EqDecision PersistedIdempotencyKey := _.
#[export] Instance PersistedIdempotencyKey_countable : Countable PersistedIdempotencyKey := _.

Record Limits : Type := mk_Limits {
  max_events : nat;
  max_terminal_records : nat;
  max_idempotency_records : nat;
  runner_lease_ttl : Z }.

(** [InMemoryTurnStateStoreLimits::default]; durations are in nanoseconds. *)
Definition Limits_default : Limits :=
  mk_Limits (Z.to_nat 10000) (Z.to_nat 10000) (Z.to_nat 10000) (90 * 1000000000).

(** The idempotency fields of [Inner]. *)
Record Idempotency : Type := mk_Idempotency {
  im_submit : gmap SubmitIdempotencyKey (result SubmitTurnResponse TurnError);
  im_submit_in_flight : gset SubmitIdempotencyKey;
  im_resume : gmap RunIdempotencyKey (result ResumeTurnResponse TurnError);
  im_cancel : gmap RunIdempotencyKey (result CancelRunResponse TurnError);
  im_records : gmap PersistedIdempotencyKey TurnIdempotencyRecord;
  im_submit_order : list SubmitIdempotencyKey;
  im_resume_order : list RunIdempotencyKey;
  im_cancel_order : list RunIdempotencyKey;
  im_record_order : list PersistedIdempotencyKey }.

Definition set_submit (m : gmap SubmitIdempotencyKey (result SubmitTurnResponse TurnError)) (order : list SubmitIdempotencyKey)
    (im : Idempotency) : Idempotency :=
  mk_Idempotency
    m (im_submit_in_flight im) (im_resume im) (im_cancel im) (im_records im) order
    (im_resume_order im) (im_cancel_order im) (im_record_order im).
Definition set_in_flight (keys : gset SubmitIdempotencyKey) (im : Idempotency) : Idempotency :=
  mk_Idempotency
    (im_submit im) keys (im_resume im) (im_cancel im) (im_records im) (im_submit_order im)
    (im_resume_order im) (im_cancel_order im) (im_record_order im).
Definition set_resume (m : gmap RunIdempotencyKey (result ResumeTurnResponse TurnError)) (order : list RunIdempotencyKey)
    (im : Idempotency) : Idempotency :=
  mk_Idempotency
    (im_submit im) (im_submit_in_flight im) m (im_cancel im) (im_records im) (im_submit_order im)
    order (im_cancel_order im) (im_record_order im).
Definition set_cancel (m : gmap RunIdempotencyKey (result CancelRunResponse TurnError)) (order : list RunIdempotencyKey)
    (im : Idempotency) : Idempotency :=
  mk_Idempotency
    (im_submit im) (im_submit_in_flight im) (im_resume im) m (im_records im) (im_submit_order im)
    (im_resume_order im) order (im_record_order im).
Definition set_persisted (m : gmap PersistedIdempotencyKey TurnIdempotencyRecord) (order : list PersistedIdempotencyKey)
    (im : Idempotency) : Idempotency :=
  mk_Idempotency
    (im_submit im) (im_submit_in_flight im) (im_resume im) (im_cancel im) m (im_submit_order im)
    (im_resume_order im) (im_cancel_order im) order.

Record Inner : Type := mk_Inner {
  in_cursor : Z;
  in_turns : gmap TurnId TurnRecord;
  in_records : gmap TurnRunId RunRecord;
  in_queued_runs : list TurnRunId;
  in_terminal_runs : list TurnRunId;
  in_active_locks : gmap TurnActiveLockKey TurnActiveLockRecord;
  in_checkpoints : list TurnCheckpointRecord;
  in_loop_checkpoints : gmap TurnCheckpointId LoopCheckpointRecord;
  in_idempotency : Idempotency;
  in_events : list TurnLifecycleEvent;
  in_event_retention_floor : EventCursor;
  in_admission_reservations : gmap TurnRunId TurnAdmissionReservationRecord;
  in_tree_reservations : gmap SpawnTreeReservationKey Z;
  in_limits : Limits }.

Definition with_cursor (cursor : Z) (s : Inner) : Inner :=
  mk_Inner
    cursor (in_turns s) (in_records s) (in_queued_runs s) (in_terminal_runs s) (in_active_locks s)
    (in_checkpoints s) (in_loop_checkpoints s) (in_idempotency s) (in_events s)
    (in_event_retention_floor s) (in_admission_reservations s) (in_tree_reservations s)
    (in_limits s).
Definition with_turns (turns : gmap TurnId TurnRecord) (s : Inner) : Inner :=
  mk_Inner
    (in_cursor s) turns (in_records s) (in_queued_runs s) (in_terminal_runs s) (in_active_locks s)
    (in_checkpoints s) (in_loop_checkpoints s) (in_idempotency s) (in_events s)
    (in_event_retention_floor s) (in_admission_reservations s) (in_tree_reservations s)
    (in_limits s).
Definition with_records (records : gmap TurnRunId RunRecord) (s : Inner) : Inner :=
  mk_Inner
    (in_cursor s) (in_turns s) records (in_queued_runs s) (in_terminal_runs s) (in_active_locks s)
    (in_checkpoints s) (in_loop_checkpoints s) (in_idempotency s) (in_events s)
    (in_event_retention_floor s) (in_admission_reservations s) (in_tree_reservations s)
    (in_limits s).
Definition with_queued (queue : list TurnRunId) (s : Inner) : Inner :=
  mk_Inner
    (in_cursor s) (in_turns s) (in_records s) queue (in_terminal_runs s) (in_active_locks s)
    (in_checkpoints s) (in_loop_checkpoints s) (in_idempotency s) (in_events s)
    (in_event_retention_floor s) (in_admission_reservations s) (in_tree_reservations s)
    (in_limits s).
Definition with_terminal (runs : list TurnRunId) (s : Inner) : Inner :=
  mk_Inner
    (in_cursor s) (in_turns s) (in_records s) (in_queued_runs s) runs (in_active_locks s)
    (in_checkpoints s) (in_loop_checkpoints s) (in_idempotency s) (in_events s)
    (in_event_retention_floor s) (in_admission_reservations s) (in_tree_reservations s)
    (in_limits s).
Definition with_locks (locks : gmap TurnActiveLockKey TurnActiveLockRecord) (s : Inner) : Inner :=
  mk_Inner
    (in_cursor s) (in_turns s) (in_records s) (in_queued_runs s) (in_terminal_runs s) locks
    (in_checkpoints s) (in_loop_checkpoints s) (in_idempotency s) (in_events s)
    (in_event_retention_floor s) (in_admission_reservations s) (in_tree_reservations s)
    (in_limits s).
Definition with_checkpoints (checkpoints : list TurnCheckpointRecord) (s : Inner) : Inner :=
  mk_Inner
    (in_cursor s) (in_turns s) (in_records s) (in_queued_runs s) (in_terminal_runs s)
    (in_active_locks s) checkpoints (in_loop_checkpoints s) (in_idempotency s) (in_events s)
    (in_event_retention_floor s) (in_admission_reservations s) (in_tree_reservations s)
    (in_limits s).
Definition with_loop_checkpoints (m : gmap TurnCheckpointId LoopCheckpointRecord)
    (s : Inner) : Inner :=
  mk_Inner
    (in_cursor s) (in_turns s) (in_records s) (in_queued_runs s) (in_terminal_runs s)
    (in_active_locks s) (in_checkpoints s) m (in_idempotency s) (in_events s)
    (in_event_retention_floor s) (in_admission_reservations s) (in_tree_reservations s)
    (in_limits s).
Definition with_idempotency (idem : Idempotency) (s : Inner) : Inner :=
  mk_Inner
    (in_cursor s) (in_turns s) (in_records s) (in_queued_runs s) (in_terminal_runs s)
    (in_active_locks s) (in_checkpoints s) (in_loop_checkpoints s) idem (in_events s)
    (in_event_retention_floor s) (in_admission_reservations s) (in_tree_reservations s)
    (in_limits s).
Definition with_events (events : list TurnLifecycleEvent) (floor : EventCursor)
    (s : Inner) : Inner :=
  mk_Inner
    (in_cursor s) (in_turns s) (in_records s) (in_queued_runs s) (in_terminal_runs s)
    (in_active_locks s) (in_checkpoints s) (in_loop_checkpoints s) (in_idempotency s) events floor
    (in_admission_reservations s) (in_tree_reservations s) (in_limits s).
Definition with_admission (m : gmap TurnRunId TurnAdmissionReservationRecord)
    (s : Inner) : Inner :=
  mk_Inner
    (in_cursor s) (in_turns s) (in_records s) (in_queued_runs s) (in_terminal_runs s)
    (in_active_locks s) (in_checkpoints s) (in_loop_checkpoints s) (in_idempotency s)
    (in_events s) (in_event_retention_floor s) m (in_tree_reservations s) (in_limits s).
Definition with_tree (m : gmap SpawnTreeReservationKey Z) (s : Inner) : Inner :=
  mk_Inner
    (in_cursor s) (in_turns s) (in_records s) (in_queued_runs s) (in_terminal_runs s)
    (in_active_locks s) (in_checkpoints s) (in_loop_checkpoints s) (in_idempotency s)
    (in_events s) (in_event_retention_floor s) (in_admission_reservations s) m (in_limits s).

Definition Idempotency_default : Idempotency :=
  mk_Idempotency ∅ ∅ ∅ ∅ ∅ [] [] [] [].
Definition Inner_new (limits : Limits) : Inner :=
  mk_Inner 0 ∅ ∅ [] [] ∅ [] ∅ Idempotency_default [] 0 ∅ ∅ limits.

(** ** Projections of a record *)

Definition record_state (r : RunRecord) : TurnRunState :=
  {| st_scope := r_scope r; st_actor := Some (r_actor r); st_turn_id := r_turn_id r;
     st_run_id := r_run_id r; st_status := r_status r;
     st_accepted_message_ref := r_accepted_message_ref r;
     st_source_binding_ref := r_source_binding_ref r;
     st_reply_target_binding_ref := r_reply_target_binding_ref r;
     st_resolved_run_profile_id := tp_id (r_profile r);
     st_resolved_run_profile_version := tp_version (r_profile r);
     st_resolved_model_route := r_resolved_model_route r; st_received_at := r_received_at r;
     st_checkpoint_id := r_checkpoint_id r; st_gate_ref := r_gate_ref r;
     st_credential_requirements := r_credential_requirements r; st_failure := r_failure r;
     st_event_cursor := r_event_cursor r |}.

Definition persistence_record (r : RunRecord) : TurnRunRecord :=
  {| tr_run_id := r_run_id r; tr_turn_id := r_turn_id r; tr_scope := r_scope r;
     tr_accepted_message_ref := r_accepted_message_ref r;
     tr_source_binding_ref := r_source_binding_ref r;
     tr_reply_target_binding_ref := r_reply_target_binding_ref r; tr_status := r_status r;
     tr_profile := r_profile r; tr_resolved_model_route := r_resolved_model_route r;
     tr_checkpoint_id := r_checkpoint_id r; tr_gate_ref := r_gate_ref r;
     tr_credential_requirements := r_credential_requirements r; tr_failure := r_failure r;
     tr_event_cursor := r_event_cursor r; tr_runner_id := r_runner_id r;
     tr_lease_token := r_lease_token r; tr_lease_expires_at := r_lease_expires_at r;
     tr_last_heartbeat_at := r_last_heartbeat_at r; tr_claim_count := r_claim_count r;
     tr_received_at := r_received_at r; tr_parent_run_id := r_parent_run_id r;
     tr_subagent_depth := r_subagent_depth r;
     tr_spawn_tree_root_run_id := r_spawn_tree_root_run_id r;
     tr_claimed_child_reservation_released := r_claimed_child_reservation_released r;
     tr_native_auth_wait := r_native_auth_wait r |}.

Definition same_scope_envelope (candidate scope : TurnScope) : bool :=
  bool_decide (ts_tenant_id candidate = ts_tenant_id scope)
  && bool_decide (ts_agent_id candidate = ts_agent_id scope)
  && bool_decide (ts_project_id candidate = ts_project_id scope).

Definition native_waiting (r : RunRecord) : bool :=
  from_option NativeAuthWait_is_waiting false (r_native_auth_wait r).
Definition has_native (r : RunRecord) : bool := bool_decide (is_Some (r_native_auth_wait r)).

(** ** Small steps on [Inner] *)

Definition next_cursor (s : Inner) : Inner * EventCursor :=
  let c := Z.min (in_cursor s + 1) u64_max in (with_cursor c s, c).

Definition push_event (r : RunRecord) (kind : TurnEventKind) (reason : option string)
    (now : TurnTimestamp) (s : Inner) : Inner :=
  let event := mk_TurnLifecycleEvent (r_event_cursor r) (r_scope r) (Some now)
    (lifecycle_owner_user_id (r_scope r) (Some (ta_user_id (r_actor r)))) (r_run_id r)
    (r_status r) kind
    (blocked_gate_of kind (r_status r) (r_gate_ref r) (r_credential_requirements r)) reason in
  let events := in_events s ++ [event] in
  let excess := (length events - max_events (in_limits s))%nat in
  let floor :=
    if bool_decide (excess = 0%nat) then in_event_retention_floor s
    else from_option (fun last => Z.max (in_event_retention_floor s) (le_cursor last))
           (in_event_retention_floor s) (events !! (excess - 1)%nat) in
  with_events (drop excess events) floor s.

Definition update_active_lock (r : RunRecord) (now : TurnTimestamp) (s : Inner) : Inner :=
  match in_active_locks s !! r_scope r with
  | Some lock =>
      if bool_decide (lk_run_id lock = r_run_id r)
      then with_locks (<[r_scope r := mk_TurnActiveLockRecord (lk_key lock) (lk_run_id lock)
             (r_status r) (lock_version_incremented (lk_lock_version lock)) (lk_acquired_at lock)
             now]> (in_active_locks s)) s
      else s
  | None => s
  end.

Definition touch_active_lock (r : RunRecord) (now : TurnTimestamp) (s : Inner) : Inner :=
  match in_active_locks s !! r_scope r with
  | Some lock =>
      if bool_decide (lk_run_id lock = r_run_id r)
      then with_locks (<[r_scope r := mk_TurnActiveLockRecord (lk_key lock) (lk_run_id lock)
             (lk_status lock) (lk_lock_version lock) (lk_acquired_at lock) now]>
             (in_active_locks s)) s
      else s
  | None => s
  end.

Definition release_active_lock (r : RunRecord) (s : Inner) : Inner :=
  match in_active_locks s !! r_scope r with
  | Some lock =>
      if bool_decide (lk_run_id lock = r_run_id r)
      then with_locks (delete (r_scope r) (in_active_locks s)) s else s
  | None => s
  end.

Definition thread_busy (key : TurnActiveLockKey) (s : Inner) : option ThreadBusy :=
  lock ← in_active_locks s !! key;
  record ← in_records s !! lk_run_id lock;
  if keeps_active_lock (r_status record)
  then Some (mk_ThreadBusy (lk_run_id lock) (r_status record) (r_event_cursor record))
  else None.

Definition remove_queued_run (id : TurnRunId) (s : Inner) : Inner :=
  with_queued (List.filter (fun q => negb (bool_decide (q = id))) (in_queued_runs s)) s.

Definition release_admission (id : TurnRunId) (s : Inner) : Inner :=
  with_admission
    (alter (fun v => mk_TurnAdmissionReservationRecord (av_run_id v) (av_admission_class v)
              (av_buckets v) true) id (in_admission_reservations s)) s.

Definition mark_terminal (id : TurnRunId) (s : Inner) : Inner :=
  let s := release_admission id s in with_terminal (in_terminal_runs s ++ [id]) s.

Definition take_record (id : TurnRunId) (s : Inner) : option (RunRecord * Inner) :=
  r ← in_records s !! id; Some (r, with_records (delete id (in_records s)) s).
Definition put_record (r : RunRecord) (s : Inner) : Inner :=
  with_records (<[r_run_id r := r]> (in_records s)) s.

Definition record_checkpoint (r : RunRecord) (id : TurnCheckpointId)
    (state_ref : LoopCheckpointStateRef) (gate : GateRef) (now : TurnTimestamp) (s : Inner) : Inner :=
  let sequence :=
    Z.of_nat (length (List.filter (fun c => bool_decide (ck_run_id c = r_run_id r))
                        (in_checkpoints s))) + 1 in
  with_checkpoints (in_checkpoints s ++
    [mk_TurnCheckpointRecord id (r_run_id r) (Some (r_scope r)) sequence (r_status r) gate
       BeforeBlock state_ref now]) s.

Definition active_admission_count (bucket : TurnAdmissionBucket) (s : Inner) : Z :=
  Z.of_nat (length (List.filter
    (fun v => negb (av_released v) && existsb (fun b => bool_decide (b = bucket)) (av_buckets v))
    (map_to_list (in_admission_reservations s)).*2)).

Definition active_admission_reservations (s : Inner) : list TurnAdmissionReservationRecord :=
  List.filter (fun v => negb (av_released v)) (map_to_list (in_admission_reservations s)).*2.

(** The check of one bucket in [reserve_admission]. *)
Definition check_bucket (limit_for : TurnAdmissionLimitProvider) (s : Inner)
    (bucket : TurnAdmissionBucket) : result unit AdmissionRejection :=
  match limit_for bucket with
  | None => Err (AdmissionRejection_new ArUnavailable)
  | Some limit =>
      match al_max_active limit with
      | None => Ok ()
      | Some max_active =>
          let active_count := active_admission_count bucket s in
          if max_active <=? active_count
          then Err (with_capacity_denial (AdmissionRejection_new ArTenantLimit)
                 (mk_TurnAdmissionCapacityDenial (ab_axis_kind bucket) (ab_bucket_kind bucket)
                    (ab_admission_class bucket) max_active active_count (al_retry_after_ms limit)))
          else Ok ()
      end
  end.

Definition reserve_admission (id : TurnRunId) (class : TurnAdmissionClass) (scope : TurnScope)
    (actor : TurnActor) (limit_for : TurnAdmissionLimitProvider) (s : Inner) :
    Inner * result unit AdmissionRejection :=
  let buckets := admission_buckets scope actor class in
  match try_map (check_bucket limit_for s) buckets with
  | Err rejection => (s, Err rejection)
  | Ok _ =>
      (with_admission (<[id := mk_TurnAdmissionReservationRecord id class buckets false]>
         (in_admission_reservations s)) s, Ok ())
  end.

Definition ensure_active_lease (r : RunRecord) (runner : TurnRunnerId) (lease : TurnLeaseToken)
    (now : TurnTimestamp) : result unit TurnError :=
  if negb (bool_decide (r_runner_id r = Some runner))
     || negb (bool_decide (r_lease_token r = Some lease))
  then Err TeLeaseMismatch
  else if from_option (fun expires => expires <=? now) false (r_lease_expires_at r)
  then Err (TeConflict "turn run lease expired")
  else Ok ().

(** ** Pruning of terminal records *)

Definition count_child (r : RunRecord) (counts : gmap TurnRunId nat) : gmap TurnRunId nat :=
  match r_parent_run_id r with
  | Some parent => <[parent := S (default 0%nat (counts !! parent))]> counts
  | None => counts
  end.
Definition child_counts (records : gmap TurnRunId RunRecord) : gmap TurnRunId nat :=
  map_fold (fun _ r counts => count_child r counts) ∅ records.

Definition reserved_roots (tree : gmap SpawnTreeReservationKey Z) : gset TurnRunId :=
  set_map reservation_root (dom tree).

(** The status and marker a record must have to be pruned. *)
Definition prunable_record (records : gmap TurnRunId RunRecord) (id : TurnRunId) :
    option RunRecord :=
  r ← records !! id;
  if is_terminal (r_status r)
     && negb (bool_decide (r_claimed_child_reservation_released r = Some false))
  then Some r else None.

(** The heap of [Reverse] pairs is a list sorted by cursor and identifier; its
    minimum is popped. *)
Definition heap_entry : Type := (EventCursor * TurnRunId)%type.
Definition heap_le (a b : heap_entry) : bool :=
  (a.1 <? b.1) || ((a.1 =? b.1) && (turn_as_uuid a.2 <=? turn_as_uuid b.2)).
Fixpoint heap_push (x : heap_entry) (heap : list heap_entry) : list heap_entry :=
  match heap with
  | [] => [x]
  | y :: heap' => if heap_le x y then x :: heap else y :: heap_push x heap'
  end.

Section Prune.
Variable max_terminal : nat.
Variable reserved terminal : gset TurnRunId.

Definition push_eligible (records : gmap TurnRunId RunRecord) (counts : gmap TurnRunId nat)
    (heap : list heap_entry) (id : TurnRunId) : list heap_entry :=
  if bool_decide (id ∈ reserved) then heap
  else if negb (bool_decide (default 0%nat (counts !! id) = 0%nat)) then heap
  else match prunable_record records id with
       | Some r => heap_push (r_event_cursor r, id) heap
       | None => heap
       end.

Record prune_state : Type := mk_prune_state {
  pr_records : gmap TurnRunId RunRecord;
  pr_admission : gmap TurnRunId TurnAdmissionReservationRecord;
  pr_counts : gmap TurnRunId nat;
  pr_heap : list heap_entry }.

(** One round of the [while] loop: [None] when the loop ends. *)
Definition prune_round (p : prune_state) : option prune_state :=
  if bool_decide (length (pr_heap p) <= max_terminal)%nat then None
  else match pr_heap p with
  | [] => None
  | (_, id) :: heap =>
      match pr_records p !! id with
      | None => Some (mk_prune_state (pr_records p) (pr_admission p) (pr_counts p) heap)
      | Some record =>
          let records := delete id (pr_records p) in
          let admission := delete id (pr_admission p) in
          match r_parent_run_id record with
          | None => Some (mk_prune_state records admission (pr_counts p) heap)
          | Some parent =>
              match pr_counts p !! parent with
              | None => Some (mk_prune_state records admission (pr_counts p) heap)
              | Some count =>
                  let counts := <[parent := (count - 1)%nat]> (pr_counts p) in
                  let heap :=
                    if bool_decide ((count - 1)%nat = 0%nat) && bool_decide (parent ∈ terminal)
                    then push_eligible records counts heap parent else heap in
                  Some (mk_prune_state records admission counts heap)
              end
          end
      end
  end.

Fixpoint prune_loop (fuel : nat) (p : prune_state) : prune_state :=
  match fuel with
  | O => p
  | S fuel => match prune_round p with Some p' => prune_loop fuel p' | None => p end
  end.

End Prune.

Definition prune_start (s : Inner) : prune_state :=
  let counts := child_counts (in_records s) in
  let heap :=
    foldl (push_eligible (reserved_roots (in_tree_reservations s)) (in_records s) counts) []
      (remove_dups (in_terminal_runs s)) in
  mk_prune_state (in_records s) (in_admission_reservations s) counts heap.

(** The rounds needed: each one pops an entry, and pushes one only after it has
    removed a record. *)
Definition prune_fuel (p : prune_state) : nat := (size (pr_records p) + length (pr_heap p))%nat.

Definition prune_terminal_records (s : Inner) : Inner :=
  if bool_decide (length (in_terminal_runs s) <= max_terminal_records (in_limits s))%nat then s
  else
  let start := prune_start s in
  let p := prune_loop (max_terminal_records (in_limits s))
             (reserved_roots (in_tree_reservations s)) (list_to_set (in_terminal_runs s))
             (prune_fuel start) start in
  let s := with_admission (pr_admission p) (with_records (pr_records p) s) in
  with_terminal
    (List.filter (fun id => bool_decide (is_Some (pr_records p !! id))) (in_terminal_runs s)) s.

(** ** Idempotency *)

Definition persisted_submit_key (key : SubmitIdempotencyKey) : PersistedIdempotencyKey :=
  (key.1, OpSubmit, None, key.2).
Definition persisted_run_key (op : TurnIdempotencyOperationKind) (key : RunIdempotencyKey) :
    PersistedIdempotencyKey := (key.1.1, op, Some key.1.2, key.2).
Definition persisted_key_for_record (r : TurnIdempotencyRecord) : PersistedIdempotencyKey :=
  (id_scope r, id_operation r,
   match id_operation r with OpSubmit => None | OpResume | OpCancel => id_run_id r end, id_key r).

Definition submit_idempotency_record (key : SubmitIdempotencyKey)
    (r : result SubmitTurnResponse TurnError) (created_at : TurnTimestamp) : TurnIdempotencyRecord :=
  let '(turn_id, run_id, outcome, replay) :=
    match r with
    | Ok response => (Some (sr_turn_id response), Some (sr_run_id response), OkAccepted,
                      SubmitAccepted response)
    | Err (TeThreadBusy busy) => (None, Some (tb_active_run_id busy), OkThreadBusy,
                                  SubmitThreadBusy busy)
    | Err (TeAdmissionRejected rejection) => (None, None, OkAdmissionRejected,
                                              SubmitAdmissionRejected rejection)
    | Err error => (None, None, outcome_from_error error,
                    ErrorReplay (ErrorReplay_from_error error))
    end in
  mk_TurnIdempotencyRecord key.1 OpSubmit key.2 turn_id run_id outcome replay created_at None.

Definition resume_idempotency_record (key : RunIdempotencyKey)
    (r : result ResumeTurnResponse TurnError) (created_at : TurnTimestamp)
    (original : option ResumeTurnRequest) : TurnIdempotencyRecord :=
  let '(outcome, replay) :=
    match r with
    | Ok response => (OkResumed, ResumeSucceeded response)
    | Err error => (outcome_from_error error, ErrorReplay (ErrorReplay_from_error error))
    end in
  let replay :=
    match original, r with
    | Some request, Ok response => NativeAuthResumeSucceeded request response
    | Some request, Err error => NativeAuthResumeRejected request (ErrorReplay_from_error error)
    | None, _ => replay
    end in
  mk_TurnIdempotencyRecord key.1.1 OpResume key.2 None (Some key.1.2) outcome replay created_at None.

Definition cancel_idempotency_record (key : RunIdempotencyKey)
    (r : result CancelRunResponse TurnError) (created_at : TurnTimestamp) : TurnIdempotencyRecord :=
  let '(outcome, replay) :=
    match r with
    | Ok response => (OkCancelRecorded, CancelRecorded response)
    | Err error => (outcome_from_error error, ErrorReplay (ErrorReplay_from_error error))
    end in
  mk_TurnIdempotencyRecord key.1.1 OpCancel key.2 None (Some key.1.2) outcome replay created_at None.

(** The two loops of [prune_ordered_map]. *)
Fixpoint evict {K V} `{Countable K} (max_len : nat) (m : gmap K V) (order : list K) :
    gmap K V * list K * list K :=
  if bool_decide (size m <= max_len)%nat then (m, order, [])
  else match order with
       | [] => (m, [], [])
       | key :: order =>
           let '(m', order', removed) := evict max_len (delete key m) order in
           (m', order', if bool_decide (is_Some (m !! key)) then key :: removed else removed)
       end.

Fixpoint drop_missing {K V} `{Countable K} (m : gmap K V) (order : list K) : list K :=
  match order with
  | [] => []
  | key :: order' => if bool_decide (is_Some (m !! key)) then order else drop_missing m order'
  end.

Definition prune_ordered_map {K V} `{Countable K} (m : gmap K V) (order : list K) (max_len : nat) :
    gmap K V * list K * list K :=
  let '(m, order, removed) := evict max_len m order in (m, drop_missing m order, removed).

Definition push_order {K V} `{Countable K} (m : gmap K V) (order : list K) (key : K) : list K :=
  if bool_decide (is_Some (m !! key)) then order else order ++ [key].

Definition remember_persisted_idempotency (r : TurnIdempotencyRecord) (im : Idempotency) :
    Idempotency :=
  let key := persisted_key_for_record r in
  set_persisted (<[key := r]> (im_records im)) (push_order (im_records im) (im_record_order im) key)
    im.

Definition remove_persisted (keys : list PersistedIdempotencyKey) (im : Idempotency) : Idempotency :=
  set_persisted (foldl (fun m key => delete key m) (im_records im) keys) (im_record_order im) im.

Definition prune_idempotency_records (max : nat) (im : Idempotency) : Idempotency :=
  let '(m, order, _) := prune_ordered_map (im_records im) (im_record_order im) (max * 3) in
  set_persisted m order im.

Definition remember_submit_idempotency (key : SubmitIdempotencyKey)
    (r : result SubmitTurnResponse TurnError) (created_at : TurnTimestamp) (s : Inner) : Inner :=
  let max := max_idempotency_records (in_limits s) in
  let im := in_idempotency s in
  let order := push_order (im_submit im) (im_submit_order im) key in
  let im := remember_persisted_idempotency (submit_idempotency_record key r created_at) im in
  let '(m, order, removed) := prune_ordered_map (<[key := r]> (im_submit im)) order max in
  let im := remove_persisted (map persisted_submit_key removed) (set_submit m order im) in
  with_idempotency (prune_idempotency_records max im) s.

Definition remember_resume_idempotency (key : RunIdempotencyKey)
    (r : result ResumeTurnResponse TurnError) (created_at : TurnTimestamp)
    (original : option ResumeTurnRequest) (s : Inner) : Inner :=
  let max := max_idempotency_records (in_limits s) in
  let im := in_idempotency s in
  let order := push_order (im_resume im) (im_resume_order im) key in
  let im := remember_persisted_idempotency (resume_idempotency_record key r created_at original) im in
  let '(m, order, removed) := prune_ordered_map (<[key := r]> (im_resume im)) order max in
  let im := remove_persisted (map (persisted_run_key OpResume) removed) (set_resume m order im) in
  with_idempotency (prune_idempotency_records max im) s.

Definition remember_cancel_idempotency (key : RunIdempotencyKey)
    (r : result CancelRunResponse TurnError) (created_at : TurnTimestamp) (s : Inner) : Inner :=
  let max := max_idempotency_records (in_limits s) in
  let im := in_idempotency s in
  let order := push_order (im_cancel im) (im_cancel_order im) key in
  let im := remember_persisted_idempotency (cancel_idempotency_record key r created_at) im in
  let '(m, order, removed) := prune_ordered_map (<[key := r]> (im_cancel im)) order max in
  let im := remove_persisted (map (persisted_run_key OpCancel) removed) (set_cancel m order im) in
  with_idempotency (prune_idempotency_records max im) s.

(** ** Transitions

    [with_record] is the frame of the transitions: the record is taken out of the
    map, changed, and put back whatever the result. *)

Definition with_record {A} (id : TurnRunId) (s : Inner)
    (f : RunRecord -> Inner -> RunRecord * Inner * result A TurnError) :
    Inner * result A TurnError :=
  match take_record id s with
  | None => (s, Err TeScopeNotFound)
  | Some (r, s) => let '(r, s, res) := f r s in (put_record r s, res)
  end.

(** [record.event_cursor = self.next_cursor()]. *)
Definition advance (r : RunRecord) (s : Inner) : RunRecord * Inner :=
  let '(s, c) := next_cursor s in (set_event_cursor c r, s).

(** The common end of every transition to a terminal status: the lease is dropped,
    the lock and the queue entry released, the event recorded. *)
Definition finish_record (status : TurnStatus) (failure : option SanitizedFailure)
    (kind : TurnEventKind) (reason : option string) (now : TurnTimestamp)
    (r : RunRecord) (s : Inner) : RunRecord * Inner :=
  let r := set_lease None None None (set_failure failure (set_status status r)) in
  let '(r, s) := advance r s in
  let s := remove_queued_run (r_run_id r) (release_active_lock r s) in
  let s := push_event r kind reason now s in
  (r, mark_terminal (r_run_id r) s).

(** The common end of [block_run] and [block_claimed_record]. *)
Definition block_record (checkpoint_id : TurnCheckpointId) (state_ref : LoopCheckpointStateRef)
    (reason : BlockedReason) (now : TurnTimestamp) (r : RunRecord) (s : Inner) :
    RunRecord * Inner :=
  let r := set_checkpoint (Some checkpoint_id) (set_status (BlockedReason_status reason) r) in
  let r := set_gate (Some (BlockedReason_gate_ref reason))
             (BlockedReason_credential_requirements reason) r in
  let r := set_lease None None None r in
  let '(r, s) := advance r s in
  let s := record_checkpoint r checkpoint_id state_ref (BlockedReason_gate_ref reason) now s in
  let s := update_active_lock r now s in
  (r, push_event r EkBlocked None now s).

Section Time.
Context {T : Chrono}.

Definition next_lease_expiry (now : TurnTimestamp) (s : Inner) : TurnTimestamp :=
  default now (checked_add_signed now (runner_lease_ttl (in_limits s))).

(** [pop_matching_queued_run]: at most one round through the queue. *)
Fixpoint pop_matching (n : nat) (filter : option TurnScope) (records : gmap TurnRunId RunRecord)
    (queue : list TurnRunId) : option TurnRunId * list TurnRunId :=
  match n with
  | O => (None, queue)
  | S n =>
      match queue with
      | [] => (None, [])
      | id :: queue =>
          match records !! id with
          | None => pop_matching n filter records queue
          | Some r =>
              if negb (bool_decide (r_status r = Queued)) then pop_matching n filter records queue
              else if from_option (fun scope => bool_decide (scope = r_scope r)) true filter
              then (Some id, queue)
              else pop_matching n filter records (queue ++ [id])
          end
      end
  end.

Definition pop_matching_queued_run (filter : option TurnScope) (s : Inner) :
    option TurnRunId * Inner :=
  let '(id, queue) := pop_matching (length (in_queued_runs s)) filter (in_records s)
                        (in_queued_runs s) in
  (id, with_queued queue s).

Definition claim_next_run (req : ClaimRunRequest) (now : TurnTimestamp) (s : Inner) :
    Inner * result (option ClaimedTurnRun) TurnError :=
  let '(id, s) := pop_matching_queued_run (kq_scope_filter req) s in
  match id with
  | None => (s, Ok None)
  | Some id =>
      with_record id s (fun r s =>
        let r := set_lease (Some (kq_runner_id req)) (Some (kq_lease_token req))
                   (Some (next_lease_expiry now s)) (set_status Running r) in
        let r := set_heartbeat (Some now) r in
        let r := set_claim_count (Z.min (r_claim_count r + 1) u64_max) r in
        let '(r, s) := advance r s in
        let s := update_active_lock r now s in
        let claimed := mk_ClaimedTurnRun (record_state r) (tp_resolved (r_profile r))
                         (kq_runner_id req) (kq_lease_token req) in
        (r, push_event r EkRunnerClaimed None now s, Ok (Some claimed)))
  end.

Definition heartbeat (req : LeaseRef) (now : TurnTimestamp) (s : Inner) :
    Inner * result EventCursor TurnError :=
  with_record (lr_run_id req) s (fun r s =>
    match ensure_active_lease r (lr_runner_id req) (lr_lease_token req) now with
    | Err e => (r, s, Err e)
    | Ok _ =>
        let native_suspended := native_waiting r && bool_decide (r_status r = BlockedAuth) in
        if negb (bool_decide (r_status r = Running) || native_suspended)
        then (r, s, Err (TeInvalidTransition (r_status r) Running))
        else
        let r := set_lease_expires_at (Some (next_lease_expiry now s)) (set_heartbeat (Some now) r) in
        let s := touch_active_lock r now s in
        if native_suspended then (r, s, Ok (r_event_cursor r))
        else
        let '(r, s) := advance r s in
        (r, push_event r EkRunnerHeartbeat None now s, Ok (r_event_cursor r))
    end).

Definition record_model_route_snapshot (req : LeaseRef) (snapshot : LoopModelRouteSnapshot)
    (now : TurnTimestamp) (s : Inner) : Inner * result TurnRunState TurnError :=
  with_record (lr_run_id req) s (fun r s =>
    match ensure_active_lease r (lr_runner_id req) (lr_lease_token req) now with
    | Err e => (r, s, Err e)
    | Ok _ =>
        if negb (bool_decide (r_status r = Running))
        then (r, s, Err (TeInvalidTransition (r_status r) Running))
        else match LoopModelRouteSnapshot_validate snapshot with
        | Err reason => (r, s, Err (TeInvalidRequest reason))
        | Ok _ =>
            match r_resolved_model_route r with
            | Some existing =>
                if negb (bool_decide (existing = snapshot))
                then (r, s, Err (TeConflict "run already has a different resolved model route"))
                else (r, s, Ok (record_state r))
            | None =>
                let r := set_route (Some snapshot) r in
                (r, touch_active_lock r now s, Ok (record_state r))
            end
        end
    end).

Definition block_run (req : LeaseRef) (checkpoint_id : TurnCheckpointId)
    (state_ref : LoopCheckpointStateRef) (reason : BlockedReason) (now : TurnTimestamp)
    (s : Inner) : Inner * result TurnRunState TurnError :=
  with_record (lr_run_id req) s (fun r s =>
    match ensure_active_lease r (lr_runner_id req) (lr_lease_token req) now with
    | Err e => (r, s, Err e)
    | Ok _ =>
        if has_native r
        then (r, s, Err (TeUnavailable
               "native authentication custody cannot become a loop checkpoint"))
        else if negb (bool_decide (r_status r = Running))
        then (r, s, Err (TeInvalidTransition (r_status r) (BlockedReason_status reason)))
        else let '(r, s) := block_record checkpoint_id state_ref reason now r s in
             (r, s, Ok (record_state r))
    end).

Definition terminal_transition (req : LeaseRef) (status : TurnStatus)
    (failure : option SanitizedFailure) (kind : TurnEventKind) (now : TurnTimestamp) (s : Inner) :
    Inner * result TurnRunState TurnError :=
  let '(s', res) :=
    with_record (lr_run_id req) s (fun r s =>
      match ensure_active_lease r (lr_runner_id req) (lr_lease_token req) now with
      | Err e => (r, s, Err e)
      | Ok _ =>
          if bool_decide (r_status r = CancelRequested) || is_terminal (r_status r)
          then (r, s, Err (TeInvalidTransition (r_status r) status))
          else let '(r, s) := finish_record status failure kind (sf_category <$> failure) now r s in
               (r, s, Ok (record_state r))
      end) in
  (if bool_decide (is_Some (in_records s !! lr_run_id req)) then prune_terminal_records s' else s',
   res).

Definition complete_run (req : LeaseRef) (now : TurnTimestamp) (s : Inner) :=
  terminal_transition req Completed None EkCompleted now s.
Definition fail_run (req : LeaseRef) (failure : SanitizedFailure) (now : TurnTimestamp) (s : Inner) :=
  terminal_transition req Failed (Some failure) EkFailed now s.

Definition cancel_run (req : LeaseRef) (now : TurnTimestamp) (s : Inner) :
    Inner * result TurnRunState TurnError :=
  let '(s', res) :=
    with_record (lr_run_id req) s (fun r s =>
      match ensure_active_lease r (lr_runner_id req) (lr_lease_token req) now with
      | Err e => (r, s, Err e)
      | Ok _ =>
          if negb (bool_decide (r_status r = CancelRequested))
          then (r, s, Err (TeInvalidTransition (r_status r) Cancelled))
          else let '(r, s) := finish_record Cancelled None EkCancelled None now r s in
               (r, s, Ok (record_state r))
      end) in
  (if bool_decide (is_Some (in_records s !! lr_run_id req)) then prune_terminal_records s' else s',
   res).

(** *** Loop exits: [AppliedLoopTransition] *)

Inductive AppliedLoopTransition : Type :=
| Applied (record : RunRecord) (state : TurnRunState) (prune_terminal : bool)
| Rejected (record : RunRecord) (error : TurnError).

Definition complete_claimed_record (now : TurnTimestamp) (r : RunRecord) (s : Inner) :
    Inner * AppliedLoopTransition :=
  if negb (bool_decide (r_status r = Running))
  then (s, Rejected r (TeInvalidTransition (r_status r) Completed))
  else let '(r, s) := finish_record Completed None EkCompleted None now r s in
       (s, Applied r (record_state r) true).

Definition cancel_claimed_record (now : TurnTimestamp) (r : RunRecord) (s : Inner) :
    Inner * AppliedLoopTransition :=
  if negb (bool_decide (r_status r = CancelRequested))
  then (s, Rejected r (TeInvalidTransition (r_status r) Cancelled))
  else let '(r, s) := finish_record Cancelled None EkCancelled None now r s in
       (s, Applied r (record_state r) true).

Definition block_claimed_record (checkpoint_id : TurnCheckpointId)
    (state_ref : LoopCheckpointStateRef) (reason : BlockedReason) (now : TurnTimestamp)
    (r : RunRecord) (s : Inner) : Inner * AppliedLoopTransition :=
  if has_native r
  then (s, Rejected r (TeUnavailable
         "native authentication custody cannot become a loop checkpoint"))
  else if negb (bool_decide (r_status r = Running))
  then (s, Rejected r (TeInvalidTransition (r_status r) (BlockedReason_status reason)))
  else let '(r, s) := block_record checkpoint_id state_ref reason now r s in
       (s, Applied r (record_state r) false).

Definition fail_claimed_record (failure : SanitizedFailure) (now : TurnTimestamp) (r : RunRecord)
    (s : Inner) : Inner * AppliedLoopTransition :=
  let waiting := bool_decide (r_status r = BlockedAuth) && native_waiting r in
  let native_cancel := bool_decide (r_status r = CancelRequested) && has_native r in
  if negb (bool_decide (r_status r = Running) || waiting || native_cancel)
  then (s, Rejected r (TeInvalidTransition (r_status r) Failed))
  else let '(r, s) := finish_record Failed (Some failure) EkFailed (Some (sf_category failure)) now
                        r s in
       (s, Applied r (record_state r) true).

Definition cancel_or_fail_claimed_record (failure : SanitizedFailure) (now : TurnTimestamp)
    (r : RunRecord) (s : Inner) : Inner * AppliedLoopTransition :=
  match r_status r with
  | Running => fail_claimed_record failure now r s
  | BlockedAuth =>
      if native_waiting r then fail_claimed_record failure now r s
      else (s, Rejected r (TeInvalidTransition (r_status r) Failed))
  | CancelRequested =>
      if has_native r then fail_claimed_record failure now r s else cancel_claimed_record now r s
  | from => (s, Rejected r (TeInvalidTransition from Failed))
  end.

Definition commit_transition (t : Inner * AppliedLoopTransition) :
    Inner * result TurnRunState TurnError :=
  match t with
  | (s, Applied r state prune) =>
      let s := put_record r s in
      (if prune then prune_terminal_records s else s, Ok state)
  | (s, Rejected r error) => (put_record r s, Err error)
  end.

Definition apply_validated_loop_exit (req : LeaseRef) (mapping : LoopExitMapping)
    (now : TurnTimestamp) (s : Inner) : Inner * result TurnRunState TurnError :=
  match take_record (lr_run_id req) s with
  | None => (s, Err TeScopeNotFound)
  | Some (r, s) =>
      commit_transition
        match ensure_active_lease r (lr_runner_id req) (lr_lease_token req) now with
        | Err error => (s, Rejected r error)
        | Ok _ =>
            match mapping with
            | RunnerOutcome RoCompleted => complete_claimed_record now r s
            | RunnerOutcome RoCancelled =>
                cancel_or_fail_claimed_record (trusted_failure "interrupted_unexpectedly") now r s
            | RunnerOutcome (RoBlocked checkpoint_id state_ref reason) =>
                block_claimed_record checkpoint_id state_ref reason now r s
            | RunnerOutcome (RoFailed failure) => fail_claimed_record failure now r s
            | MapRecoveryRequired failure => cancel_or_fail_claimed_record failure now r s
            end
        end
  end.

Definition record_runner_failure (req : LeaseRef) (failure : SanitizedFailure)
    (now : TurnTimestamp) (s : Inner) : Inner * result TurnRunState TurnError :=
  match take_record (lr_run_id req) s with
  | None => (s, Err TeScopeNotFound)
  | Some (r, s) =>
      commit_transition
        match ensure_active_lease r (lr_runner_id req) (lr_lease_token req) now with
        | Err error => (s, Rejected r error)
        | Ok _ => cancel_or_fail_claimed_record failure now r s
        end
  end.

Definition relinquish_run (req : LeaseRef) (now : TurnTimestamp) (s : Inner) :
    Inner * result TurnRunState TurnError :=
  let '(s, res) :=
    with_record (lr_run_id req) s (fun r s =>
      match ensure_active_lease r (lr_runner_id req) (lr_lease_token req) now with
      | Err e => (r, s, Err e)
      | Ok _ =>
          if has_native r
          then (r, s, Err (TeUnavailable
                 "native authentication custody requires supervised settlement"))
          else match r_status r with
          | Running =>
              let r := set_lease None None None (set_failure None (set_status Queued r)) in
              let '(r, s) := advance r s in
              let s := update_active_lock r now s in
              (r, push_event r EkRunnerHeartbeat None now s, Ok (record_state r))
          | CancelRequested =>
              let '(r, s) := finish_record Cancelled None EkCancelled None now r s in
              (r, s, Ok (record_state r))
          | from => (r, s, Err (TeInvalidTransition from Queued))
          end
      end) in
  match res with
  | Ok state =>
      if is_terminal (st_status state) then (prune_terminal_records s, res)
      else (with_queued (in_queued_runs s ++ [lr_run_id req]) s, res)
  | Err _ => (s, res)
  end.

(** *** Expired leases *)

Record LeaseExpiredOutcome : Type := mk_LeaseExpiredOutcome {
  eo_status : TurnStatus;
  eo_failure : option SanitizedFailure;
  eo_event_kind : TurnEventKind;
  eo_event_detail : option string }.

Definition expired_lease_terminal_outcome (status : TurnStatus) (native_custody : bool) :
    LeaseExpiredOutcome :=
  if bool_decide (status = CancelRequested) && negb native_custody
  then mk_LeaseExpiredOutcome Cancelled None EkCancelled None
  else
  let category :=
    if native_custody && bool_decide (status = CancelRequested)
    then "native_cancel_ack_expired" else "lease_expired" in
  mk_LeaseExpiredOutcome Failed (Some (trusted_failure category)) EkFailed (Some category).

Definition lease_expired (req_now : TurnTimestamp) (filter : option TurnScope) (r : RunRecord) :
    bool :=
  (bool_decide (r_status r = Running) || bool_decide (r_status r = CancelRequested)
   || (bool_decide (r_status r = BlockedAuth) && native_waiting r))
  && from_option (fun scope => bool_decide (scope = r_scope r)) true filter
  && from_option (fun expires => expires <=? req_now) false (r_lease_expires_at r).

(** One iteration of the recovery loop. *)
Definition recover_one (now : TurnTimestamp) (acc : Inner * list TurnRunState) (id : TurnRunId) :
    Inner * list TurnRunState :=
  let '(s, recovered) := acc in
  match take_record id s with
  | None => acc
  | Some (r, s) =>
      let outcome := expired_lease_terminal_outcome (r_status r) (has_native r) in
      let '(r, s) := finish_record (eo_status outcome) (eo_failure outcome) (eo_event_kind outcome)
                       (eo_event_detail outcome) now r s in
      (put_record r s, recovered ++ [record_state r])
  end.

(** [order] is the order in which the map of the records is walked. *)
Definition recover_expired_leases (req_now : TurnTimestamp) (filter : option TurnScope)
    (order : list TurnRunId) (now : TurnTimestamp) (s : Inner) : Inner * list TurnRunState :=
  let expired :=
    List.filter (fun id => from_option (lease_expired req_now filter) false (in_records s !! id))
      order in
  let '(s, recovered) := foldl (recover_one now) (s, []) expired in
  (prune_terminal_records s, recovered).

(** *** Cancellation by the owner *)

Definition request_cancel_once (req : CancelRunRequest) (prune_terminal : bool)
    (now : TurnTimestamp) (s : Inner) : Inner * result CancelRunResponse TurnError :=
  let '(s', res) :=
    with_record (xq_run_id req) s (fun r s =>
      let already :=
        Ok (mk_CancelRunResponse (r_run_id r) (r_status r) (r_event_cursor r) true
              (Some (r_actor r))) in
      if negb (bool_decide (r_scope r = xq_scope req)) then (r, s, Err TeScopeNotFound)
      else if negb (bool_decide (r_actor r = xq_actor req)) then (r, s, Err TeUnauthorized)
      else if is_terminal (r_status r) then (r, s, already)
      else
      let next :=
        match r_status r with
        | BlockedAuth =>
            if native_waiting r then Some (CancelRequested, EkCancelRequested)
            else Some (Cancelled, EkCancelled)
        | Queued | BlockedApproval | BlockedResource | BlockedDependentRun =>
            Some (Cancelled, EkCancelled)
        | Running | CancelRequested => Some (CancelRequested, EkCancelRequested)
        | _ => None
        end in
      match next with
      | None => (r, s, already)
      | Some (status, kind) =>
          let r := set_status status r in
          let '(r, s) :=
            if is_terminal status
            then let r := set_failure None r in
                 (r, remove_queued_run (r_run_id r) (release_active_lock r s))
            else (r, update_active_lock r now s) in
          let '(r, s) := advance r s in
          let response := mk_CancelRunResponse (r_run_id r) (r_status r) (r_event_cursor r) false
                            (Some (r_actor r)) in
          let s := push_event r kind (Some (CancelReason_category (xq_reason req))) now s in
          let s := if is_terminal (r_status r) then mark_terminal (r_run_id r) s else s in
          (r, s, Ok response)
      end) in
  (if prune_terminal && bool_decide (is_Some (in_records s !! xq_run_id req))
   then prune_terminal_records s' else s', res).

Definition request_cancel (req : CancelRunRequest) (now : TurnTimestamp) (s : Inner) :
    Inner * result CancelRunResponse TurnError :=
  let key := (xq_scope req, xq_run_id req, xq_idempotency_key req) in
  match im_cancel (in_idempotency s) !! key with
  | Some res => (s, res)
  | None =>
      let '(s, res) := request_cancel_once req true now s in
      (remember_cancel_idempotency key res now s, res)
  end.

Definition get_run_state (req : GetRunStateRequest) (s : Inner) : result TurnRunState TurnError :=
  match in_records s !! gq_run_id req with
  | Some r => if bool_decide (r_scope r = gq_scope req) then Ok (record_state r)
              else Err TeScopeNotFound
  | None => Err TeScopeNotFound
  end.

(** [store.rs]: [active_run_ref_state] over this store. *)
Definition active_run_ref_state (scope : TurnScope) (active : option TurnRunId) (s : Inner) :
    result TurnActiveRunRefState TurnError :=
  match active with
  | None => Ok RefMissing
  | Some id =>
      match get_run_state (mk_GetRunStateRequest scope id) s with
      | Ok state => if is_terminal (st_status state) then Ok RefTerminal else Ok RefNonterminal
      | Err TeScopeNotFound => Ok RefMissing
      | Err e => Err e
      end
  end.

(** *** Loop checkpoints *)

Definition put_loop_checkpoint (req : PutLoopCheckpointRequest) (id : TurnCheckpointId)
    (now : TurnTimestamp) (s : Inner) : Inner * result LoopCheckpointRecord TurnError :=
  let record := mk_LoopCheckpointRecord id (plc_scope req) (plc_turn_id req) (plc_run_id req)
    (plc_state_ref req) (plc_schema_id req) (plc_schema_version req) (plc_kind req)
    (plc_gate_ref req) now in
  (with_loop_checkpoints (<[id := record]> (in_loop_checkpoints s)) s, Ok record).

Definition get_loop_checkpoint (req : GetLoopCheckpointRequest) (s : Inner) :
    option LoopCheckpointRecord :=
  record ← in_loop_checkpoints s !! glc_checkpoint_id req;
  if bool_decide (lc_scope record = glc_scope req) && bool_decide (lc_turn_id record = glc_turn_id req)
     && bool_decide (lc_run_id record = glc_run_id req)
     && bool_decide (lc_checkpoint_id record = glc_checkpoint_id req)
  then Some record else None.

(** *** Queries of the approval surface; [order] is the walk of the record map *)

Definition by_run_uuid (a b : TurnRunState) : Prop :=
  turn_as_uuid (st_run_id a) <= turn_as_uuid (st_run_id b).
#[local] Instance by_run_uuid_dec : RelDecision by_run_uuid.
Proof. intros a b. unfold by_run_uuid. apply _. Defined.

Definition blocked_approval_runs_for_actor (scope : TurnScope) (actor : TurnActor) (s : Inner) :
    list TurnRunState :=
  merge_sort by_run_uuid
    (map record_state
      (List.filter (fun r => bool_decide (r_scope r = scope) && bool_decide (r_actor r = actor)
                             && bool_decide (r_status r = BlockedApproval)
                             && bool_decide (is_Some (r_gate_ref r)))
         (map_to_list (in_records s)).*2)).

Definition id_le (a b : TurnRunId) : Prop := turn_as_uuid a <= turn_as_uuid b.
#[local] Instance id_le_dec : RelDecision id_le.
Proof. intros a b. unfold id_le. apply _. Defined.

Definition approval_run_for_actor_and_gate (scope : TurnScope) (actor : TurnActor) (gate : GateRef)
    (order : list TurnRunId) (s : Inner) : option TurnRunId :=
  let mine r := bool_decide (r_scope r = scope) && bool_decide (r_actor r = actor) in
  let active :=
    List.find (fun r => mine r && bool_decide (r_status r = BlockedApproval)
                        && bool_decide (r_gate_ref r = Some gate))
      (omap (fun id => in_records s !! id) order) in
  match active with
  | Some r => Some (r_run_id r)
  | None =>
      let historical :=
        omap (fun c => r ← in_records s !! ck_run_id c; if mine r then Some (r_run_id r) else None)
          (List.filter (fun c => bool_decide (ck_status c = BlockedApproval)
                                 && bool_decide (ck_gate_ref c = gate)
                                 && from_option (fun stored => bool_decide (stored = scope)) true
                                      (ck_scope c)) (in_checkpoints s)) in
      head (merge_sort id_le historical)
  end.

(** *** Children *)

Definition by_received_at (a b : TurnRunRecord) : Prop := tr_received_at a <= tr_received_at b.
#[local] Instance by_received_at_dec : RelDecision by_received_at.
Proof. intros a b. unfold by_received_at. apply _. Defined.

Definition children_of (scope : TurnScope) (id : TurnRunId) (order : list TurnRunId) (s : Inner) :
    list TurnRunRecord :=
  match in_records s !! id with
  | None => []
  | Some parent =>
      if negb (bool_decide (r_scope parent = scope)) then []
      else merge_sort by_received_at
             (map persistence_record
               (List.filter (fun r => same_scope_envelope (r_scope r) scope
                                      && bool_decide (r_parent_run_id r = Some id))
                  (omap (fun id => in_records s !! id) order)))
  end.

Definition get_run_record (scope : TurnScope) (id : TurnRunId) (s : Inner) : option TurnRunRecord :=
  r ← in_records s !! id;
  if bool_decide (r_scope r = scope) then Some (persistence_record r) else None.

Definition invalid_lineage (reason : string) : TurnError := TeInvalidRequest reason.

Definition pending_claimed_reservations (scope : TurnScope) (root : TurnRunId) (s : Inner) : Z :=
  Z.of_nat (length (List.filter
    (fun r => bool_decide (r_claimed_child_reservation_released r = Some false)
              && bool_decide (r_spawn_tree_root_run_id r = Some root)
              && same_scope_envelope (r_scope r) scope) (map_to_list (in_records s)).*2)).

(** The walk up the ancestors.  Each step visits another record, so one more step
    than there are records is enough. *)
Fixpoint ancestry (fuel : nat) (records : gmap TurnRunId RunRecord) (visited : gset TurnRunId)
    (current : option TurnRunId) : option (result unit TurnError) :=
  match current with
  | None => Some (Ok ())
  | Some id =>
      match fuel with
      | O => None
      | S fuel =>
          if bool_decide (id ∈ visited)
          then Some (Err (invalid_lineage "cycle in child admission ancestry"))
          else match records !! id with
          | None => Some (Err TeScopeNotFound)
          | Some r =>
              if bool_decide (r_status r = CancelRequested) || bool_decide (r_status r = Cancelled)
              then Some (Err (TeInvalidRequest
                     "cannot admit a child of a cancelled or cancelling ancestor"))
              else ancestry fuel records ({[id]} ∪ visited) (r_parent_run_id r)
          end
      end
  end.

Definition ensure_uncancelled_ancestry (parent : TurnRunId) (s : Inner) : result unit TurnError :=
  default (Ok ()) (ancestry (size (in_records s) + 2) (in_records s) ∅ (Some parent)).

(** The canonical root of a spawn tree, as [reserve_tree_descendants] and
    [release_tree_descendants] find it. *)
Definition canonical_root (scope : TurnScope) (root_run_id : TurnRunId) (s : Inner) :
    result TurnRunId TurnError :=
  match in_records s !! root_run_id with
  | None => Err TeScopeNotFound
  | Some root =>
      if negb (same_scope_envelope (r_scope root) scope) then Err TeUnauthorized
      else
      let canonical := default (r_run_id root) (r_spawn_tree_root_run_id root) in
      if negb (bool_decide (canonical = r_run_id root))
      then Err (TeInvalidRequest "root_run_id must identify the spawn tree root")
      else Ok canonical
  end.

Definition reserve_tree_descendants (scope : TurnScope) (root_run_id : TurnRunId) (delta cap : Z)
    (s : Inner) : Inner * result SpawnTreeReservation TurnError :=
  if delta =? 0 then (s, Err (TeInvalidRequest "reservation delta must be greater than zero"))
  else match canonical_root scope root_run_id s with
  | Err e => (s, Err e)
  | Ok canonical =>
      let key := SpawnTreeReservationKey_new scope canonical in
      match u64_checked_add (default 0 (in_tree_reservations s !! key)) delta with
      | None => (s, Err (TeCapacityExceeded SpawnTreeDescendants cap))
      | Some next =>
          if cap <? next then (s, Err (TeCapacityExceeded SpawnTreeDescendants cap))
          else (with_tree (<[key := next]> (in_tree_reservations s)) s,
                Ok (mk_SpawnTreeReservation scope canonical next))
      end
  end.

Definition release_tree_descendants (scope : TurnScope) (root_run_id : TurnRunId) (delta : Z)
    (s : Inner) : Inner * result unit TurnError :=
  match canonical_root scope root_run_id s with
  | Err e => (s, Err e)
  | Ok canonical =>
      let key := SpawnTreeReservationKey_new scope canonical in
      let pending := pending_claimed_reservations scope canonical s in
      match in_tree_reservations s !! key with
      | None =>
          if 0 <? pending then (s, Err (invalid_lineage "claimed child reservation count is missing"))
          else (s, Ok ())
      | Some previous =>
          if previous <? delta
          then (s, Err (TeInvalidRequest "release delta exceeds current reservation count"))
          else if previous - delta <? pending
          then (s, Err (TeInvalidRequest
                 "unkeyed release would consume a claimed child's reservation"))
          else if negb (previous - delta =? 0)
          then (with_tree (<[key := previous - delta]> (in_tree_reservations s)) s, Ok ())
          else
          let s := with_tree (delete key (in_tree_reservations s)) s in
          if from_option (fun r => is_terminal (r_status r)) false (in_records s !! canonical)
          then
            let s := if bool_decide (canonical ∈ in_terminal_runs s) then s
                     else with_terminal (in_terminal_runs s ++ [canonical]) s in
            (prune_terminal_records s, Ok ())
          else (s, Ok ())
      end
  end.

Definition release_claimed_child_reservation (scope : TurnScope) (child : TurnRunId) (s : Inner) :
    Inner * result unit TurnError :=
  match in_records s !! child with
  | None => (s, Err TeScopeNotFound)
  | Some record =>
      if negb (bool_decide (r_scope record = scope)) then (s, Err TeScopeNotFound)
      else if negb (is_terminal (r_status record)) || bool_decide (r_parent_run_id record = None)
              || (r_subagent_depth record =? 0)
      then (s, Err (TeInvalidRequest "only a terminal child can release its reservation"))
      else match r_claimed_child_reservation_released record with
      | Some true => (s, Ok ())
      | None => (s, Err (TeUnavailable "untracked child reservation requires reconciliation"))
      | Some false =>
          match r_spawn_tree_root_run_id record with
          | None => (s, Err (invalid_lineage "claimed child reservation has no distinct root"))
          | Some root_id =>
              if bool_decide (root_id = child)
              then (s, Err (invalid_lineage "claimed child reservation has no distinct root"))
              else match in_records s !! root_id with
              | None => (s, Err TeScopeNotFound)
              | Some root =>
                  if negb (same_scope_envelope (r_scope root) scope)
                     || negb (bool_decide
                          (default (r_run_id root) (r_spawn_tree_root_run_id root) = root_id))
                  then (s, Err (invalid_lineage "claimed child reservation root differs"))
                  else
                  let key := SpawnTreeReservationKey_new (r_scope root) root_id in
                  let pending := pending_claimed_reservations scope root_id s in
                  match in_tree_reservations s !! key with
                  | None => (s, Err (invalid_lineage "claimed child reservation is missing"))
                  | Some current =>
                      if (pending =? 0) || (current <? pending)
                      then (s, Err (invalid_lineage
                             "claimed child reservation count is inconsistent"))
                      else match u64_checked_sub current 1 with
                      | None => (s, Err (invalid_lineage "claimed child reservation is exhausted"))
                      | Some next =>
                          let s := with_records
                            (<[child := set_released (Some true) record]> (in_records s)) s in
                          let s := with_tree (if next =? 0 then delete key (in_tree_reservations s)
                                              else <[key := next]> (in_tree_reservations s)) s in
                          (prune_terminal_records s, Ok ())
                      end
                  end
              end
          end
      end
  end.

Section Uuid.
Context {U : UuidText} {P : UuidParse U}.

(** *** Native authentication waits *)

Definition block_native_auth (req : BlockNativeAuthRequest) (now : TurnTimestamp) (s : Inner) :
    Inner * result TurnRunState TurnError :=
  match nq_boundary req with
  | BeforeDispatch =>
      match NativeAuthWait_new (nq_gate_ref req) with
      | Err e => (s, Err e)
      | Ok wait =>
      match NativeAuthWait_gate_ref wait with
      | Err e => (s, Err e)
      | Ok gate =>
      with_record (nq_run_id req) s (fun r s =>
        let block :=
          if negb (bool_decide (r_status r = Running)) || bool_decide (is_Some (r_checkpoint_id r))
          then (r, s, Err (TeInvalidTransition (r_status r) BlockedAuth))
          else
          let r := set_native (Some wait)
                     (set_gate (Some gate) (nq_credential_requirements req)
                        (set_status BlockedAuth r)) in
          let '(r, s) := advance r s in
          let s := update_active_lock r now s in
          (r, push_event r EkBlocked None now s, Ok (record_state r)) in
        if negb (bool_decide (r_scope r = nq_scope req)) then (r, s, Err TeScopeNotFound)
        else match ensure_active_lease r (nq_runner_id req) (nq_lease_token req) now with
        | Err e => (r, s, Err e)
        | Ok _ =>
            match r_native_auth_wait r with
            | None => block
            | Some original =>
                match NativeAuthWait_gate_ref original with
                | Err e => (r, s, Err e)
                | Ok original_gate =>
                    if bool_decide (original_gate = gate)
                    then
                      if NativeAuthWait_is_waiting original
                         && bool_decide (r_status r = BlockedAuth)
                         && bool_decide (r_gate_ref r = Some gate)
                         && bool_decide (r_credential_requirements r = nq_credential_requirements req)
                      then (r, s, Ok (record_state r))
                      else (r, s, Err (TeInvalidRequest
                             "original native authentication wait cannot be replaced or replayed"))
                    else if NativeAuthWait_is_waiting original
                    then (r, s, Err (TeInvalidRequest
                           "another native authentication wait remains unresolved"))
                    else block
                end
            end
        end)
      end
      end
  | _ => (s, Err (TeInvalidRequest "native auth waiting requires host-proven preflight"))
  end.

(** *** Resumption *)

Definition resumable (p : ResumeTurnPrecondition) (status : TurnStatus) : bool :=
  match required_status p with
  | Some required => bool_decide (status = required)
  | None => match status with
            | BlockedApproval | BlockedAuth | BlockedResource => true
            | _ => false
            end
  end.

Definition native_conflict (req : ResumeTurnRequest) (r : RunRecord) (wait : NativeAuthWait) :
    result bool TurnError :=
  if negb (bool_decide (rq_precondition req = BlockedAuthGate))
     || negb (NativeAuthWait_is_waiting wait) || negb (bool_decide (r_status r = BlockedAuth))
  then Ok true
  else let? gate := NativeAuthWait_gate_ref wait in
  Ok (negb (bool_decide (gate = rq_gate_resolution_ref req))
      || negb (bool_decide (r_source_binding_ref r = rq_source_binding_ref req))
      || negb (bool_decide (r_reply_target_binding_ref r = rq_reply_target_binding_ref req))).

Definition resume_turn_once (req : ResumeTurnRequest) (now : TurnTimestamp) (s : Inner) :
    Inner * result ResumeTurnResponse TurnError :=
  with_record (rq_run_id req) s (fun r s =>
    if negb (bool_decide (r_scope r = rq_scope req)) then (r, s, Err TeScopeNotFound)
    else if negb (resumable (rq_precondition req) (r_status r))
    then (r, s, Err (TeInvalidTransition (r_status r) Queued))
    else if negb (bool_decide (r_actor r = rq_actor req)) then (r, s, Err TeUnauthorized)
    else if negb (bool_decide (r_gate_ref r = Some (rq_gate_resolution_ref req)))
    then (r, s, Err (TeInvalidRequest "gate resolution reference mismatch"))
    else match r_native_auth_wait r with
    | Some wait =>
        match native_conflict req r wait with
        | Err e => (r, s, Err e)
        | Ok true => (r, s, Err (TeInvalidRequest
                       "native authentication continuation conflicts with the original wait"))
        | Ok false =>
            match r_runner_id r, r_lease_token r with
            | None, _ => (r, s, Err (TeUnavailable "native auth runner is missing"))
            | _, None => (r, s, Err (TeUnavailable "native auth lease is missing"))
            | Some runner, Some lease =>
                match ensure_active_lease r runner lease now with
                | Err e => (r, s, Err e)
                | Ok _ =>
                    let r := set_native (Some (NativeAuthWait_resolve wait)) r in
                    let r := set_gate None [] (set_status Running r) in
                    let '(r, s) := advance r s in
                    let s := update_active_lock r now s in
                    (r, push_event r EkResumed None now s,
                     Ok (mk_ResumeTurnResponse (r_run_id r) (r_status r) (r_event_cursor r)))
                end
            end
        end
    | None =>
        let r := set_gate None [] (set_status Queued r) in
        let r := set_bindings (rq_source_binding_ref req) (rq_reply_target_binding_ref req) r in
        let '(r, s) := advance r s in
        let s := update_active_lock r now s in
        let s := with_queued (in_queued_runs s ++ [r_run_id r]) s in
        (r, push_event r EkResumed None now s,
         Ok (mk_ResumeTurnResponse (r_run_id r) (r_status r) (r_event_cursor r)))
    end).

Definition resume_turn (req : ResumeTurnRequest) (now : TurnTimestamp) (s : Inner) :
    Inner * result ResumeTurnResponse TurnError :=
  let key := (rq_scope req, rq_run_id req, rq_idempotency_key req) in
  let native := from_option has_native false (in_records s !! rq_run_id req) in
  match im_resume (in_idempotency s) !! key with
  | Some res =>
      let original :=
        im_records (in_idempotency s) !! persisted_run_key OpResume key ≫= native_resume_request in
      match original with
      | Some original =>
          if negb (bool_decide (original = req))
          then (s, Err (TeConflict "native auth resume identity has different original inputs"))
          else (s, res)
      | None =>
          if native then (s, Err (TeUnavailable "native auth resume original is unproven"))
          else (s, res)
      end
  | None =>
      let '(s, res) := resume_turn_once req now s in
      (remember_resume_idempotency key res now (if native then Some req else None) s, res)
  end.

(** *** Cancellation of a tree *)

Definition child_cancel (req : CancelRunRequest) (child : RunRecord) :
    result CancelRunRequest TurnError :=
  let? key := map_err TeInvalidRequest
    (turn_ref_new KIdempotencyKey
       (ref_str (xq_idempotency_key req) +:+ "-" +:+ uuid_text (turn_as_uuid (r_run_id child)))) in
  Ok (mk_CancelRunRequest (r_scope child) (xq_actor req) (r_run_id child) (xq_reason req) key).

Definition cancel_walk_state : Type :=
  (list TurnRunId * gset TurnRunId * list CancelRunRequest)%type.

(** The children of one run of the walk. *)
Fixpoint visit_children (req : CancelRunRequest) (children : list RunRecord)
    (w : cancel_walk_state) : result cancel_walk_state TurnError :=
  match children with
  | [] => Ok w
  | child :: children =>
      let '(stack, visited, requests) := w in
      if bool_decide (r_run_id child ∈ visited)
      then Err (invalid_lineage "cycle or duplicate in cancellation tree")
      else
      let stack := r_run_id child :: stack in
      let visited := {[r_run_id child]} ∪ visited in
      if is_terminal (r_status child) && negb (bool_decide (r_status child = Cancelled))
      then visit_children req children (stack, visited, requests)
      else
      let? r := child_cancel req child in
      visit_children req children (stack, visited, requests ++ [r])
  end.

(** [children] of the source: the records of the envelope by parent, in the order of
    the walk of the map. *)
Definition tree_children (scope : TurnScope) (order : list TurnRunId)
    (records : gmap TurnRunId RunRecord) (parent : TurnRunId) : list RunRecord :=
  List.filter (fun r => same_scope_envelope (r_scope r) scope
                        && bool_decide (r_parent_run_id r = Some parent))
    (omap (fun id => records !! id) order).

Fixpoint cancel_walk (fuel : nat) (req : CancelRunRequest) (children : TurnRunId -> list RunRecord)
    (w : cancel_walk_state) : option (result (list CancelRunRequest) TurnError) :=
  match w with
  | ([], _, requests) => Some (Ok requests)
  | (parent :: stack, visited, requests) =>
      match fuel with
      | O => None
      | S fuel =>
          match visit_children req (children parent) (stack, visited, requests) with
          | Err e => Some (Err e)
          | Ok w => cancel_walk fuel req children w
          end
      end
  end.

Definition by_cancel_uuid (a b : CancelRunRequest) : Prop :=
  turn_as_uuid (xq_run_id a) <= turn_as_uuid (xq_run_id b).
#[local] Instance by_cancel_uuid_dec : RelDecision by_cancel_uuid.
Proof. intros a b. unfold by_cancel_uuid. apply _. Defined.

(** The transitions on the candidate, stopped by the first failure. *)
Fixpoint cancel_all (requests : list CancelRunRequest) (now : TurnTimestamp) (candidate : Inner) :
    result (Inner * list (CancelRunRequest * CancelRunResponse)) TurnError :=
  match requests with
  | [] => Ok (candidate, [])
  | req :: requests =>
      let key := (xq_scope req, xq_run_id req, xq_idempotency_key req) in
      let? step :=
        match im_cancel (in_idempotency candidate) !! key with
        | Some res => let? response := res in Ok (candidate, response)
        | None =>
            match request_cancel_once req false now candidate with
            | (candidate, Ok response) =>
                Ok (remember_cancel_idempotency key (Ok response) now candidate, response)
            | (_, Err e) => Err e
            end
        end in
      let? rest := cancel_all requests now step.1 in
      Ok (rest.1, (req, step.2) :: rest.2)
  end.

Definition request_cancel_tree (req : CancelRunRequest) (order : list TurnRunId)
    (now : TurnTimestamp) (s : Inner) :
    Inner * result (list (CancelRunRequest * CancelRunResponse)) TurnError :=
  match in_records s !! xq_run_id req with
  | None => (s, Err TeScopeNotFound)
  | Some root =>
      if negb (bool_decide (r_scope root = xq_scope req)) then (s, Err TeScopeNotFound)
      else if negb (bool_decide (r_actor root = xq_actor req)) then (s, Err TeUnauthorized)
      else
      match cancel_walk (size (in_records s) + 1) req
              (tree_children (xq_scope req) order (in_records s))
              ([xq_run_id req], {[xq_run_id req]}, []) with
      | None => (s, Err (invalid_lineage "cycle or duplicate in cancellation tree"))
      | Some (Err e) => (s, Err e)
      | Some (Ok requests) =>
          match cancel_all (req :: merge_sort by_cancel_uuid requests) now s with
          | Err e => (s, Err e)
          | Ok (candidate, responses) => (prune_terminal_records candidate, Ok responses)
          end
      end
  end.

End Uuid.
End Time.

(** ** Submission

    A submission enters under its idempotency key, which waits while another
    submission of the key is in flight; every later critical section first looks
    for a result remembered in the meantime. *)

Definition profile_resolution_error_to_turn_error (e : RunProfileResolutionError) : TurnError :=
  TeAdmissionRejected (AdmissionRejection_new
    match e with
    | RpUnauthorized _ => ArUnauthorized
    | RpProfileUnavailable _ | RpInvalidRequest _ => ArProfileRejected
    end).

(** What a critical section of a submission says: return, or go on. *)
Inductive Step (A : Type) : Type :=
| Return (res : result SubmitTurnResponse TurnError)
| Continue (a : A).
Arguments Return {A} res.
Arguments Continue {A} a.

Definition leave_in_flight (key : SubmitIdempotencyKey) (s : Inner) : Inner :=
  let im := in_idempotency s in
  with_idempotency (set_in_flight (im_submit_in_flight im ∖ {[key]}) im) s.

(** The result is remembered and the key leaves the set in flight. *)
Definition settle (key : SubmitIdempotencyKey) (res : result SubmitTurnResponse TurnError)
    (at_ : TurnTimestamp) (s : Inner) : Inner :=
  leave_in_flight key (remember_submit_idempotency key res at_ s).

Definition remembered (key : SubmitIdempotencyKey) (s : Inner) :
    option (result SubmitTurnResponse TurnError) := im_submit (in_idempotency s) !! key.

(** [None]: wait, another submission of the key is in flight. *)
Definition enter_submit (key : SubmitIdempotencyKey) (s : Inner) : option (Inner * Step unit) :=
  match remembered key s with
  | Some res => Some (s, Return res)
  | None =>
      let im := in_idempotency s in
      if bool_decide (key ∈ im_submit_in_flight im) then None
      else Some (with_idempotency (set_in_flight ({[key]} ∪ im_submit_in_flight im) im) s,
                 Continue ())
  end.

Definition submit_key (req : SubmitTurnRequest) : SubmitIdempotencyKey :=
  (sq_scope req, sq_idempotency_key req).

Definition names_lineage (req : SubmitTurnRequest) : bool :=
  bool_decide (is_Some (sq_parent_run_id req)) || negb (sq_subagent_depth req =? 0)
  || bool_decide (is_Some (sq_spawn_tree_root_run_id req)).

Definition reject_lineage (req : SubmitTurnRequest) (s : Inner) :
    Inner * result SubmitTurnResponse TurnError :=
  let key := submit_key req in
  match remembered key s with
  | Some res => (leave_in_flight key s, res)
  | None =>
      let res := Err (TeInvalidRequest "child runs must be submitted through submit_child_turn") in
      (settle key res (sq_received_at req) s, res)
  end.

Definition after_admission (key : SubmitIdempotencyKey) (received_at : TurnTimestamp)
    (admission : result unit AdmissionRejection) (s : Inner) : Inner * Step unit :=
  match remembered key s with
  | Some res => (leave_in_flight key s, Return res)
  | None =>
      match admission with
      | Err rejection =>
          let res := Err (TeAdmissionRejected rejection) in
          (settle key res received_at s, Return res)
      | Ok _ => (s, Continue ())
      end
  end.

(** A new run: its turn, its lock, its place in the queue, its record and event. *)
Definition new_record (req : SubmitTurnRequest) (released : option bool) (profile : TurnRunProfile)
    (turn_id : TurnId) (run_id : TurnRunId) (cursor : EventCursor) : RunRecord :=
  {| r_scope := sq_scope req; r_actor := sq_actor req; r_turn_id := turn_id; r_run_id := run_id;
     r_status := Queued; r_profile := profile; r_resolved_model_route := None;
     r_accepted_message_ref := sq_accepted_message_ref req;
     r_source_binding_ref := sq_source_binding_ref req;
     r_reply_target_binding_ref := sq_reply_target_binding_ref req;
     r_checkpoint_id := None; r_gate_ref := None; r_credential_requirements := [];
     r_failure := None; r_event_cursor := cursor; r_runner_id := None; r_lease_token := None;
     r_lease_expires_at := None; r_last_heartbeat_at := None; r_claim_count := 0;
     r_received_at := sq_received_at req; r_parent_run_id := sq_parent_run_id req;
     r_subagent_depth := sq_subagent_depth req;
     r_spawn_tree_root_run_id := sq_spawn_tree_root_run_id req;
     r_claimed_child_reservation_released := released; r_native_auth_wait := None |}.

Definition new_turn (req : SubmitTurnRequest) (turn_id : TurnId) : TurnRecord :=
  mk_TurnRecord turn_id (sq_scope req) (sq_actor req) (sq_accepted_message_ref req)
    (sq_source_binding_ref req) (sq_reply_target_binding_ref req) (sq_received_at req).

Definition accept_run (req : SubmitTurnRequest) (released : option bool) (profile : TurnRunProfile)
    (turn_id : TurnId) (run_id : TurnRunId) (now : TurnTimestamp) (s : Inner) :
    Inner * result SubmitTurnResponse TurnError :=
  let key := submit_key req in
  let '(s, cursor) := next_cursor s in
  let record := new_record req released profile turn_id run_id cursor in
  let s := with_turns (<[turn_id := new_turn req turn_id]> (in_turns s)) s in
  let s := with_locks (<[sq_scope req := mk_TurnActiveLockRecord (sq_scope req) run_id Queued 1
             (sq_received_at req) (sq_received_at req)]> (in_active_locks s)) s in
  let s := with_queued (in_queued_runs s ++ [run_id]) s in
  let s := with_records (<[run_id := record]> (in_records s)) s in
  let s := push_event record EkSubmitted None now s in
  let res := Ok (Accepted turn_id run_id Queued (tp_id profile) (tp_version profile) cursor
                   (sq_accepted_message_ref req) (sq_reply_target_binding_ref req)) in
  (settle key res (sq_received_at req) s, res).

(** A run submitted by itself has no lineage. *)
Definition without_lineage (req : SubmitTurnRequest) : SubmitTurnRequest :=
  mk_SubmitTurnRequest (sq_scope req) (sq_actor req) (sq_accepted_message_ref req)
    (sq_source_binding_ref req) (sq_reply_target_binding_ref req) (sq_requested_run_profile req)
    (sq_idempotency_key req) (sq_received_at req) (sq_requested_run_id req) None 0 None.

(** The fresh identifiers of a section. *)
Record Fresh : Type := mk_Fresh { fresh_turn_id : TurnId; fresh_run_id : TurnRunId }.

Section Submit.
Variable limit_for : TurnAdmissionLimitProvider.

Definition commit_submit (req : SubmitTurnRequest)
    (resolution : result ResolvedRunProfile RunProfileResolutionError) (fresh : Fresh)
    (now : TurnTimestamp) (s : Inner) : Inner * result SubmitTurnResponse TurnError :=
  let key := submit_key req in
  match remembered key s with
  | Some res => (leave_in_flight key s, res)
  | None =>
  match resolution with
  | Err error =>
      let res := Err (profile_resolution_error_to_turn_error error) in
      (settle key res (sq_received_at req) s, res)
  | Ok resolved =>
  let profile := TurnRunProfile_from_resolved resolved in
  match thread_busy (sq_scope req) s with
  | Some busy => (leave_in_flight key s, Err (TeThreadBusy busy))
  | None =>
  let run_id := default (fresh_run_id fresh) (sq_requested_run_id req) in
  if bool_decide (is_Some (in_records s !! run_id))
  then let res := Err (TeConflict "requested_run_id already bound") in
       (settle key res (sq_received_at req) s, res)
  else
  match reserve_admission run_id (tp_admission_class profile) (sq_scope req) (sq_actor req)
          limit_for s with
  | (s, Err rejection) =>
      let res := Err (TeAdmissionRejected rejection) in
      (settle key res (sq_received_at req) s, res)
  | (s, Ok _) =>
      accept_run (without_lineage req) None profile (fresh_turn_id fresh) run_id now s
  end
  end
  end
  end.

(** *** Children *)

Definition child_key (req : SubmitChildRunRequest) : SubmitIdempotencyKey :=
  (cq_child_scope req, cq_idempotency_key req).

Definition ensure_claimed_child_parent (req : SubmitChildRunRequest)
    (claimed : option ClaimedTurnRun) (now : TurnTimestamp) (s : Inner) : result unit TurnError :=
  match claimed with
  | None => Ok ()
  | Some claimed =>
      if negb (bool_decide (st_run_id (cl_state claimed) = cq_parent_run_id req))
         || negb (bool_decide (st_scope (cl_state claimed) = cq_parent_scope req))
      then Err TeLeaseMismatch
      else match in_records s !! cq_parent_run_id req with
      | None => Err TeScopeNotFound
      | Some record =>
          if negb (bool_decide (r_scope record = cq_parent_scope req)) then Err TeScopeNotFound
          else if negb (bool_decide (r_turn_id record = st_turn_id (cl_state claimed)))
          then Err TeLeaseMismatch
          else if negb (bool_decide (r_actor record = cq_actor req))
          then Err (TeConflict "child admission actor differs from the claimed parent")
          else
          let? _ := ensure_active_lease record (cl_runner_id claimed) (cl_lease_token claimed) now in
          if negb (bool_decide (r_status record = Running))
             || bool_decide (r_lease_expires_at record = None)
          then Err (TeConflict "child admission requires a running claimed parent")
          else Ok ()
      end
  end.

Definition enter_child (req : SubmitChildRunRequest) (claimed : option ClaimedTurnRun)
    (now : TurnTimestamp) (s : Inner) : option (Inner * Step unit) :=
  match ensure_claimed_child_parent req claimed now s with
  | Err e => Some (s, Return (Err e))
  | Ok _ => enter_submit (child_key req) s
  end.

(** The checks on the parent that the second and the last section share. *)
Definition child_parent (req : SubmitChildRunRequest) (s : Inner) : result RunRecord TurnError :=
  match in_records s !! cq_parent_run_id req with
  | None => Err TeScopeNotFound
  | Some parent =>
      if negb (bool_decide (r_scope parent = cq_parent_scope req)) then Err TeScopeNotFound
      else if negb (same_scope_envelope (r_scope parent) (cq_child_scope req))
      then Err TeUnauthorized
      else
      let? _ := ensure_uncancelled_ancestry (cq_parent_run_id req) s in
      if r_subagent_depth parent =? u32_max
      then Err (invalid_lineage "subagent depth would overflow")
      else Ok parent
  end.

Definition child_template (req : SubmitChildRunRequest) (parent : RunRecord) : SubmitTurnRequest :=
  {| sq_scope := cq_child_scope req; sq_actor := cq_actor req;
     sq_accepted_message_ref := cq_accepted_message_ref req;
     sq_source_binding_ref := cq_source_binding_ref req;
     sq_reply_target_binding_ref := cq_reply_target_binding_ref req;
     sq_requested_run_profile := cq_requested_run_profile req;
     sq_idempotency_key := cq_idempotency_key req; sq_received_at := cq_received_at req;
     sq_requested_run_id := cq_requested_run_id req; sq_parent_run_id := Some (r_run_id parent);
     sq_subagent_depth := r_subagent_depth parent + 1;
     sq_spawn_tree_root_run_id :=
       Some (default (r_run_id parent) (r_spawn_tree_root_run_id parent)) |}.

(** A section of a child's submission: the claim is checked again, then the
    remembered result. *)
Definition child_section {A} (req : SubmitChildRunRequest) (claimed : option ClaimedTurnRun)
    (now : TurnTimestamp) (s : Inner) (k : Inner -> Inner * Step A) : Inner * Step A :=
  match ensure_claimed_child_parent req claimed now s with
  | Err e => (s, Return (Err e))
  | Ok _ =>
      match remembered (child_key req) s with
      | Some res => (leave_in_flight (child_key req) s, Return res)
      | None => k s
      end
  end.

Definition settle_child {A} (req : SubmitChildRunRequest) (e : TurnError) (s : Inner) :
    Inner * Step A :=
  (settle (child_key req) (Err e) (cq_received_at req) s, Return (Err e)).

Definition derive_template (req : SubmitChildRunRequest) (claimed : option ClaimedTurnRun)
    (now : TurnTimestamp) (s : Inner) : Inner * Step SubmitTurnRequest :=
  child_section req claimed now s (fun s =>
    match child_parent req s with
    | Err e => settle_child req e s
    | Ok parent => (s, Continue (child_template req parent))
    end).

Definition child_after_admission (req : SubmitChildRunRequest) (claimed : option ClaimedTurnRun)
    (admission : result unit AdmissionRejection) (now : TurnTimestamp) (s : Inner) :
    Inner * Step unit :=
  child_section req claimed now s (fun s =>
    match admission with
    | Err rejection => settle_child req (TeAdmissionRejected rejection) s
    | Ok _ => (s, Continue ())
    end).

(** The root of the parent's spawn tree. *)
Definition child_root (req : SubmitChildRunRequest) (parent : RunRecord) (s : Inner) :
    result TurnRunId TurnError :=
  let root_run_id := default (r_run_id parent) (r_spawn_tree_root_run_id parent) in
  match in_records s !! root_run_id with
  | None => Err TeScopeNotFound
  | Some root =>
      if negb (same_scope_envelope (r_scope root) (cq_child_scope req)) then Err TeUnauthorized
      else if negb (bool_decide
                (default (r_run_id root) (r_spawn_tree_root_run_id root) = r_run_id root))
      then Err (invalid_lineage "root_run_id must identify the spawn tree root")
      else Ok root_run_id
  end.

Definition commit_child (req : SubmitChildRunRequest) (claimed : option ClaimedTurnRun)
    (resolution : result ResolvedRunProfile RunProfileResolutionError) (fresh : Fresh)
    (now : TurnTimestamp) (s : Inner) : Inner * result SubmitTurnResponse TurnError :=
  let '(s, step) := child_section (A := Empty_set) req claimed now s (fun s =>
    match resolution with
    | Err error => settle_child req (profile_resolution_error_to_turn_error error) s
    | Ok resolved =>
    let profile := TurnRunProfile_from_resolved resolved in
    match child_parent req s with
    | Err e => settle_child req e s
    | Ok parent =>
    match child_root req parent s with
    | Err e => settle_child req e s
    | Ok root_run_id =>
    match thread_busy (cq_child_scope req) s with
    | Some busy => (leave_in_flight (child_key req) s, Return (Err (TeThreadBusy busy)))
    | None =>
    let run_id := default (fresh_run_id fresh) (cq_requested_run_id req) in
    if bool_decide (is_Some (in_records s !! run_id))
    then settle_child req (TeConflict "requested_run_id already bound") s
    else
    let reservation_key := SpawnTreeReservationKey_new (cq_child_scope req) root_run_id in
    let previous := default 0 (in_tree_reservations s !! reservation_key) in
    let cap := cq_spawn_tree_descendant_cap req in
    match u64_checked_add previous 1 with
    | None => settle_child req (TeCapacityExceeded SpawnTreeDescendants cap) s
    | Some next =>
    if cap <? next then settle_child req (TeCapacityExceeded SpawnTreeDescendants cap) s
    else
    let s := with_tree (<[reservation_key := next]> (in_tree_reservations s)) s in
    match reserve_admission run_id (tp_admission_class profile) (cq_child_scope req) (cq_actor req)
            limit_for s with
    | (s, Err rejection) =>
        let s := with_tree (if previous =? 0 then delete reservation_key (in_tree_reservations s)
                            else <[reservation_key := previous]> (in_tree_reservations s)) s in
        settle_child req (TeAdmissionRejected rejection) s
    | (s, Ok _) =>
        let released := match claimed with Some _ => Some false | None => None end in
        let '(s, res) := accept_run (child_template req parent) released profile
                           (fresh_turn_id fresh) run_id now s in
        (s, Return res)
    end
    end
    end
    end
    end
    end) in
  match step with
  | Return res => (s, res)
  | Continue e => match e with end
  end.

End Submit.

(** *** The submissions as programs *)

Inductive turnE : Type -> Type :=
| CheckSubmit (req : SubmitTurnRequest) : turnE (result unit AdmissionRejection)
| ResolveProfile (req : RunProfileResolutionRequest) :
    turnE (result ResolvedRunProfile RunProfileResolutionError)
| EnterSubmit (key : SubmitIdempotencyKey) : turnE (Step unit)
| RejectLineage (req : SubmitTurnRequest) : turnE (result SubmitTurnResponse TurnError)
| AfterAdmission (req : SubmitTurnRequest) (admission : result unit AdmissionRejection) :
    turnE (Step unit)
| CommitSubmit (req : SubmitTurnRequest)
    (resolution : result ResolvedRunProfile RunProfileResolutionError) :
    turnE (result SubmitTurnResponse TurnError)
| EnterChild (req : SubmitChildRunRequest) (claimed : option ClaimedTurnRun) : turnE (Step unit)
| DeriveTemplate (req : SubmitChildRunRequest) (claimed : option ClaimedTurnRun) :
    turnE (Step SubmitTurnRequest)
| ChildAfterAdmission (req : SubmitChildRunRequest) (claimed : option ClaimedTurnRun)
    (admission : result unit AdmissionRejection) : turnE (Step unit)
| CommitChild (req : SubmitChildRunRequest) (claimed : option ClaimedTurnRun)
    (resolution : result ResolvedRunProfile RunProfileResolutionError) :
    turnE (result SubmitTurnResponse TurnError)
| DropInFlight (key : SubmitIdempotencyKey) : turnE unit.

Definition resolution_request (requested : option RunProfileRequest) : RunProfileResolutionRequest :=
  mk_RunProfileResolutionRequest requested (authority interactive_default_request)
    (personal_context_authority interactive_default_request).

(** [SubmitInFlightGuard]: when the guard goes out of scope it takes the key out of
    the set again. *)
Definition guarded_in_flight (key : SubmitIdempotencyKey)
    (body : prog turnE (result SubmitTurnResponse TurnError)) :
    prog turnE (result SubmitTurnResponse TurnError) :=
  let! res := body in
  do! trigger (DropInFlight key) in
  Ret res.

Definition submit_turn (req : SubmitTurnRequest) : prog turnE (result SubmitTurnResponse TurnError) :=
  let! entered := trigger (EnterSubmit (submit_key req)) in
  match entered with
  | Return res => Ret res
  | Continue _ =>
      guarded_in_flight (submit_key req)
        (if names_lineage req then trigger (RejectLineage req)
         else
         let! admission := trigger (CheckSubmit req) in
         let! step := trigger (AfterAdmission req admission) in
         match step with
         | Return res => Ret res
         | Continue _ =>
             let! resolution :=
               trigger (ResolveProfile (resolution_request (sq_requested_run_profile req))) in
             trigger (CommitSubmit req resolution)
         end)
  end.

Definition submit_child_with_claim (req : SubmitChildRunRequest) (claimed : option ClaimedTurnRun) :
    prog turnE (result SubmitTurnResponse TurnError) :=
  let! entered := trigger (EnterChild req claimed) in
  match entered with
  | Return res => Ret res
  | Continue _ =>
      guarded_in_flight (child_key req)
        (let! template := trigger (DeriveTemplate req claimed) in
         match template with
         | Return res => Ret res
         | Continue template =>
             let! admission := trigger (CheckSubmit template) in
             let! step := trigger (ChildAfterAdmission req claimed admission) in
             match step with
             | Return res => Ret res
             | Continue _ =>
                 let! resolution :=
                   trigger (ResolveProfile (resolution_request (sq_requested_run_profile template))) in
                 trigger (CommitChild req claimed resolution)
             end
         end)
  end.

Definition submit_child_turn (req : SubmitChildRunRequest) := submit_child_with_claim req None.
Definition submit_claimed_child_turn (req : SubmitChildRunRequest) (parent : ClaimedTurnRun) :=
  submit_child_with_claim req (Some parent).

