(* ===== verification/TurnSnapshot.v ===== *)
(** * Turns: the persisted snapshot

    [persistence_snapshot] and [from_persistence_snapshot] of
    [crates/brassclaw_turns/src/memory.rs]: the whole state as sorted lists of
    records, and the state that is built from such lists, with the checks on them.
    The durable stores write the first and start from the second.

    A hash map is listed in the order of [map_to_list]; the sorts that follow compare
    by keys that are unique, so that the order of the listing does not show. *)

From S2P Require Import Prelude Effects External HostIds HostTypes Dispatch RunProfile TurnTypes.
From S2P Require Import TurnStore.
Open Scope Z_scope.

(** ** Orderings: [Ordering::then_with] and the comparisons of the standard library *)

Definition then_with (c d : comparison) : comparison := match c with Eq => d | _ => c end.
Definition cmp_str (a b : string) : comparison := String.compare a b.
Definition cmp_bool (a b : bool) : comparison :=
  match a, b with false, true => Lt | true, false => Gt | _, _ => Eq end.
Definition cmp_option {A} (cmp : A -> A -> comparison) (a b : option A) : comparison :=
  match a, b with
  | None, None => Eq | None, Some _ => Lt | Some _, None => Gt | Some a, Some b => cmp a b
  end.

(** [sort_by] and [sort_by_key]: stable. *)
Definition in_order {A} (cmp : A -> A -> comparison) (a b : A) : Prop := cmp a b <> Gt.
#[export] Instance in_order_dec {A} (cmp : A -> A -> comparison) : RelDecision (in_order cmp).
Proof. intros a b. unfold in_order. apply _. Defined.
Definition sort_by {A} (cmp : A -> A -> comparison) (l : list A) : list A :=
  merge_sort (in_order cmp) l.

Definition cmp_pair {A} (f g : A -> Z) (a b : A) : comparison :=
  then_with (f a ?= f b) (g a ?= g b).

Definition operation_rank (op : TurnIdempotencyOperationKind) : Z :=
  match op with OpSubmit => 0 | OpResume => 1 | OpCancel => 2 end.

Definition compare_idempotency_records (a b : TurnIdempotencyRecord) : comparison :=
  let sa := id_scope a in
  let sb := id_scope b in
  then_with (id_created_at a ?= id_created_at b)
  (then_with (cmp_str (as_str (ts_tenant_id sa)) (as_str (ts_tenant_id sb)))
  (then_with (cmp_option cmp_str (as_str <$> ts_agent_id sa) (as_str <$> ts_agent_id sb))
  (then_with (cmp_option cmp_str (as_str <$> ts_project_id sa) (as_str <$> ts_project_id sb))
  (then_with (cmp_str (as_str (ts_thread_id sa)) (as_str (ts_thread_id sb)))
  (then_with (cmp_bool (has_explicit_thread_owner sa) (has_explicit_thread_owner sb))
  (then_with (cmp_option cmp_str (as_str <$> explicit_owner_user_id sa)
                (as_str <$> explicit_owner_user_id sb))
  (then_with (operation_rank (id_operation a) ?= operation_rank (id_operation b))
  (then_with (cmp_option Z.compare (turn_as_uuid <$> id_run_id a) (turn_as_uuid <$> id_run_id b))
     (cmp_str (ref_str (id_key a)) (ref_str (id_key b))))))))))).

(** ** [persistence_snapshot] *)

Section Snapshot.
Context {U : UuidText}.

Definition values {K V} `{Countable K} (m : gmap K V) : list V := (map_to_list m).*2.

(** A reservation whose root has no record is left out. *)
Definition snapshot_reservation (records : gmap TurnRunId RunRecord)
    (entry : SpawnTreeReservationKey * Z) : option SpawnTreeReservation :=
  root ← records !! reservation_root entry.1;
  Some (mk_SpawnTreeReservation (r_scope root) (reservation_root entry.1) entry.2).

Definition persistence_snapshot (s : Inner) : TurnPersistenceSnapshot :=
  {| sn_turns := sort_by (cmp_pair tn_created_at (fun t => turn_as_uuid (tn_turn_id t)))
       (values (in_turns s));
     sn_runs := sort_by (cmp_pair tr_event_cursor (fun r => turn_as_uuid (tr_run_id r)))
       (map persistence_record (values (in_records s)));
     sn_active_locks := sort_by (cmp_pair lk_acquired_at (fun l => turn_as_uuid (lk_run_id l)))
       (values (in_active_locks s));
     sn_checkpoints := sort_by (cmp_pair ck_created_at ck_sequence) (in_checkpoints s);
     sn_loop_checkpoints := sort_by (cmp_pair lc_created_at (fun c => turn_as_uuid (lc_checkpoint_id c)))
       (values (in_loop_checkpoints s));
     sn_idempotency_records := sort_by compare_idempotency_records
       (values (im_records (in_idempotency s)));
     sn_events := in_events s;
     sn_event_retention_floor := in_event_retention_floor s;
     sn_admission_reservations :=
       sort_by (fun a b => cmp_str (uuid_text (turn_as_uuid (av_run_id a)))
                             (uuid_text (turn_as_uuid (av_run_id b))))
         (values (in_admission_reservations s));
     sn_spawn_tree_reservations :=
       sort_by (fun a b => cmp_str (uuid_text (turn_as_uuid (sv_root_run_id a)))
                             (uuid_text (turn_as_uuid (sv_root_run_id b))))
         (omap (snapshot_reservation (in_records s)) (map_to_list (in_tree_reservations s))) |}.

(** ** [from_persistence_snapshot] *)

(** [collect] into a map, and [insert] in a loop: a later entry replaces an earlier
    one. *)
Definition collect {X K V} `{Countable K} (key : X -> K) (value : X -> V) (l : list X) : gmap K V :=
  foldl (fun m x => <[key x := value x]> m) ∅ l.

Definition native_custody_valid (run : TurnRunRecord) (wait : NativeAuthWait) :
    result bool TurnError :=
  let owns_claim := bool_decide (is_Some (tr_runner_id run))
    && bool_decide (is_Some (tr_lease_token run)) && bool_decide (is_Some (tr_lease_expires_at run)) in
  let status := tr_status run in
  let? valid_live :=
    if NativeAuthWait_is_waiting wait
    then if bool_decide (status = BlockedAuth) || bool_decide (status = CancelRequested)
         then let? gate := NativeAuthWait_gate_ref wait in
              Ok (bool_decide (tr_gate_ref run = Some gate))
         else Ok false
    else Ok ((bool_decide (status = Running) || bool_decide (status = CancelRequested))
             && bool_decide (tr_gate_ref run = None)
             && bool_decide (tr_credential_requirements run = [])) in
  Ok (negb (bool_decide (status = Queued)
            || (negb (is_terminal status)
                && (negb owns_claim || negb valid_live
                    || bool_decide (is_Some (tr_checkpoint_id run)))))).

Definition restored_record (run : TurnRunRecord) (actor : TurnActor) : RunRecord :=
  {| r_scope := tr_scope run; r_actor := actor; r_turn_id := tr_turn_id run;
     r_run_id := tr_run_id run; r_status := tr_status run; r_profile := tr_profile run;
     r_resolved_model_route := tr_resolved_model_route run;
     r_accepted_message_ref := tr_accepted_message_ref run;
     r_source_binding_ref := tr_source_binding_ref run;
     r_reply_target_binding_ref := tr_reply_target_binding_ref run;
     r_checkpoint_id := tr_checkpoint_id run; r_gate_ref := tr_gate_ref run;
     r_credential_requirements := tr_credential_requirements run; r_failure := tr_failure run;
     r_event_cursor := tr_event_cursor run; r_runner_id := tr_runner_id run;
     r_lease_token := tr_lease_token run; r_lease_expires_at := tr_lease_expires_at run;
     r_last_heartbeat_at := tr_last_heartbeat_at run; r_claim_count := tr_claim_count run;
     r_received_at := tr_received_at run; r_parent_run_id := tr_parent_run_id run;
     r_subagent_depth := tr_subagent_depth run;
     r_spawn_tree_root_run_id := tr_spawn_tree_root_run_id run;
     r_claimed_child_reservation_released := tr_claimed_child_reservation_released run;
     r_native_auth_wait := tr_native_auth_wait run |}.

(** One run of the loop: its checks, and its actor from the turn. *)
Definition restore_run (turns : gmap TurnId TurnRecord) (run : TurnRunRecord) :
    result RunRecord TurnError :=
  let? valid := match tr_native_auth_wait run with
                | Some wait => native_custody_valid run wait
                | None => Ok true
                end in
  if negb valid then Err (TeUnavailable "stored native authentication custody is invalid")
  else if bool_decide (is_Some (tr_claimed_child_reservation_released run))
          && (bool_decide (tr_parent_run_id run = None) || (tr_subagent_depth run =? 0)
              || bool_decide (tr_spawn_tree_root_run_id run = None))
  then Err (invalid_lineage "claimed child reservation marker has no lineage")
  else match turns !! tr_turn_id run with
  | None => Err (TeUnavailable "turn run references missing turn record")
  | Some turn => Ok (restored_record run (tn_actor turn))
  end.

Record restored_runs : Type := mk_restored_runs {
  rs_cursor : Z;
  rs_records : gmap TurnRunId RunRecord;
  rs_queued : list TurnRunId;
  rs_terminal : list TurnRunId }.

Fixpoint restore_runs (turns : gmap TurnId TurnRecord) (runs : list TurnRunRecord)
    (acc : restored_runs) : result restored_runs TurnError :=
  match runs with
  | [] => Ok acc
  | run :: runs =>
      let? record := restore_run turns run in
      restore_runs turns runs
        (mk_restored_runs (Z.max (rs_cursor acc) (tr_event_cursor run))
           (<[tr_run_id run := record]> (rs_records acc))
           (if bool_decide (tr_status run = Queued) then rs_queued acc ++ [tr_run_id run]
            else rs_queued acc)
           (if is_terminal (tr_status run) then rs_terminal acc ++ [tr_run_id run]
            else rs_terminal acc))
  end.

(** One idempotency record, in order. *)
Definition restore_answer (r : TurnIdempotencyRecord) (im : Idempotency) : Idempotency :=
  let key := persisted_key_for_record r in
  let im := set_persisted (<[key := r]> (im_records im)) (im_record_order im ++ [key]) im in
  match id_operation r with
  | OpSubmit =>
      match replay_submit r with
      | Some replay =>
          let key := (id_scope r, id_key r) in
          set_submit (<[key := replay]> (im_submit im)) (im_submit_order im ++ [key]) im
      | None => im
      end
  | OpResume =>
      match id_run_id r, replay_resume r with
      | Some run_id, Some replay =>
          let key := (id_scope r, run_id, id_key r) in
          set_resume (<[key := replay]> (im_resume im)) (im_resume_order im ++ [key]) im
      | _, _ => im
      end
  | OpCancel =>
      match id_run_id r, replay_cancel r with
      | Some run_id, Some replay =>
          let key := (id_scope r, run_id, id_key r) in
          set_cancel (<[key := replay]> (im_cancel im)) (im_cancel_order im ++ [key]) im
      | _, _ => im
      end
  end.

Fixpoint restore_answers (records : list TurnIdempotencyRecord) (im : Idempotency) :
    result Idempotency TurnError :=
  match records with
  | [] => Ok im
  | r :: records =>
      if negb (native_resume_record_is_valid r)
      then Err (TeUnavailable "stored native auth resume identity is invalid")
      else restore_answers records (restore_answer r im)
  end.

Definition restore_reservation (records : gmap TurnRunId RunRecord)
    (m : gmap TurnRunId TurnAdmissionReservationRecord) (v : TurnAdmissionReservationRecord) :
    gmap TurnRunId TurnAdmissionReservationRecord :=
  match records !! av_run_id v with
  | None => m
  | Some r =>
      <[av_run_id v := mk_TurnAdmissionReservationRecord (av_run_id v) (av_admission_class v)
                         (av_buckets v) (av_released v || is_terminal (r_status r))]> m
  end.

(** A live run gets its canonical reservation when it has another or none. *)
Definition canonical_reservation (m : gmap TurnRunId TurnAdmissionReservationRecord) (r : RunRecord) :
    gmap TurnRunId TurnAdmissionReservationRecord :=
  if keeps_active_lock (r_status r)
  then
    let class := tp_admission_class (r_profile r) in
    let buckets := admission_buckets (r_scope r) (r_actor r) class in
    let canonical := mk_TurnAdmissionReservationRecord (r_run_id r) class buckets false in
    if from_option (fun v => av_released v || negb (bool_decide (av_admission_class v = class))
                             || negb (bool_decide (av_buckets v = buckets))) true
         (m !! r_run_id r)
    then <[r_run_id r := canonical]> m else m
  else m.

Definition from_persistence_snapshot (snapshot : TurnPersistenceSnapshot) (limits : Limits) :
    result Inner TurnError :=
  let turns := collect tn_turn_id id (sn_turns snapshot) in
  let? runs := restore_runs turns (sn_runs snapshot) (mk_restored_runs 0 ∅ [] []) in
  let locks := collect lk_key id (sn_active_locks snapshot) in
  let? im := restore_answers (sort_by compare_idempotency_records (sn_idempotency_records snapshot))
               Idempotency_default in
  let loop_checkpoints := collect lc_checkpoint_id id (sn_loop_checkpoints snapshot) in
  let events := sn_events snapshot in
  let cursor := Z.max (rs_cursor runs) (foldr Z.max 0 (map le_cursor events)) in
  let cursor := Z.max cursor (sn_event_retention_floor snapshot) in
  let records := rs_records runs in
  let admission := foldl (restore_reservation records) ∅ (sn_admission_reservations snapshot) in
  let admission := foldl canonical_reservation admission (values records) in
  let tree := collect (fun v => SpawnTreeReservationKey_new (sv_scope v) (sv_root_run_id v))
                sv_descendant_count (sn_spawn_tree_reservations snapshot) in
  Ok (mk_Inner cursor turns records (rs_queued runs) (rs_terminal runs) locks
        (sn_checkpoints snapshot) loop_checkpoints im events (sn_event_retention_floor snapshot)
        admission tree limits).

End Snapshot.
