(* ===== verification/TurnExec.v ===== *)
(** * Turns: one critical section at a time

    Every operation on the turn state is one critical section of [memory.rs] or a
    sequence of them.  [turn_op] names them, [turn_exec] runs one on the state, and
    [turn_step] is the transition relation of a store on which any number of callers
    act; a restart from the persisted snapshot ([from_persistence_snapshot] of
    [persistence_snapshot], as the durable stores do around every operation) is one of
    the transitions.  [reachable] are the states all of this can lead to. *)

From S2P Require Import Prelude Effects External HostIds HostTypes Dispatch RunProfile TurnTypes.
From S2P Require Import TurnStore TurnSnapshot.
Open Scope Z_scope.

(** What a critical section takes from outside: the clock, fresh identifiers, and
    the order in which the map of the records is walked. *)
Record Env : Type := mk_Env {
  env_now : TurnTimestamp; env_fresh : Fresh; env_order : list TurnRunId }.

Section Exec.
Context {T : Chrono} {U : UuidText} {P : UuidParse U}.
Variable limit_for : TurnAdmissionLimitProvider.

(** A critical section of a submission; [None] while it waits.  The two calls to
    other components leave the store alone. *)
Definition exec_section (env : Env) {X} (e : turnE X) (s : Inner) : option (Inner * option X) :=
  let now := env_now env in
  match e in turnE X return option (Inner * option X) with
  | CheckSubmit _ => Some (s, None)
  | ResolveProfile _ => Some (s, None)
  | EnterSubmit key => '(s, x) ← enter_submit key s; Some (s, Some x)
  | RejectLineage req => let '(s, x) := reject_lineage req s in Some (s, Some x)
  | AfterAdmission req admission =>
      let '(s, x) := after_admission (submit_key req) (sq_received_at req) admission s in
      Some (s, Some x)
  | CommitSubmit req resolution =>
      let '(s, x) := commit_submit limit_for req resolution (env_fresh env) now s in Some (s, Some x)
  | EnterChild req claimed => '(s, x) ← enter_child req claimed now s; Some (s, Some x)
  | DeriveTemplate req claimed =>
      let '(s, x) := derive_template req claimed now s in Some (s, Some x)
  | ChildAfterAdmission req claimed admission =>
      let '(s, x) := child_after_admission req claimed admission now s in Some (s, Some x)
  | CommitChild req claimed resolution =>
      let '(s, x) := commit_child limit_for req claimed resolution (env_fresh env) now s in
      Some (s, Some x)
  | DropInFlight key => Some (leave_in_flight key s, Some ())
  end.

Inductive turn_op : Type :=
| OpSection {X : Type} (e : turnE X)
| OpResumeTurn (req : ResumeTurnRequest)
| OpRequestCancel (req : CancelRunRequest)
| OpRequestCancelTree (req : CancelRunRequest)
| OpClaimNextRun (req : ClaimRunRequest)
| OpHeartbeat (req : LeaseRef)
| OpRecoverExpiredLeases (now : TurnTimestamp) (filter : option TurnScope)
| OpRecordModelRoute (req : LeaseRef) (snapshot : LoopModelRouteSnapshot)
| OpBlockRun (req : LeaseRef) (checkpoint_id : TurnCheckpointId)
    (state_ref : LoopCheckpointStateRef) (reason : BlockedReason)
| OpBlockNativeAuth (req : BlockNativeAuthRequest)
| OpCompleteRun (req : LeaseRef)
| OpCancelRun (req : LeaseRef)
| OpFailRun (req : LeaseRef) (failure : SanitizedFailure)
| OpRecordRunnerFailure (req : LeaseRef) (failure : SanitizedFailure)
| OpRelinquishRun (req : LeaseRef)
| OpApplyLoopExit (req : LeaseRef) (mapping : LoopExitMapping)
| OpReserveTree (scope : TurnScope) (root : TurnRunId) (delta cap : Z)
| OpReleaseTree (scope : TurnScope) (root : TurnRunId) (delta : Z)
| OpReleaseClaimedChild (scope : TurnScope) (child : TurnRunId)
| OpPutLoopCheckpoint (req : PutLoopCheckpointRequest) (id : TurnCheckpointId)
| OpRestart.

Definition ok_option {A E} (r : result A E) : option A :=
  match r with Ok a => Some a | Err _ => None end.

Definition turn_exec (env : Env) (op : turn_op) (s : Inner) : option Inner :=
  let now := env_now env in
  match op with
  | OpSection e => fst <$> exec_section env e s
  | OpResumeTurn req => Some (resume_turn req now s).1
  | OpRequestCancel req => Some (request_cancel req now s).1
  | OpRequestCancelTree req => Some (request_cancel_tree req (env_order env) now s).1
  | OpClaimNextRun req => Some (claim_next_run req now s).1
  | OpHeartbeat req => Some (heartbeat req now s).1
  | OpRecoverExpiredLeases req_now filter =>
      Some (recover_expired_leases req_now filter (env_order env) now s).1
  | OpRecordModelRoute req snapshot => Some (record_model_route_snapshot req snapshot now s).1
  | OpBlockRun req checkpoint_id state_ref reason =>
      Some (block_run req checkpoint_id state_ref reason now s).1
  | OpBlockNativeAuth req => Some (block_native_auth req now s).1
  | OpCompleteRun req => Some (complete_run req now s).1
  | OpCancelRun req => Some (cancel_run req now s).1
  | OpFailRun req failure => Some (fail_run req failure now s).1
  | OpRecordRunnerFailure req failure => Some (record_runner_failure req failure now s).1
  | OpRelinquishRun req => Some (relinquish_run req now s).1
  | OpApplyLoopExit req mapping => Some (apply_validated_loop_exit req mapping now s).1
  | OpReserveTree scope root delta cap => Some (reserve_tree_descendants scope root delta cap s).1
  | OpReleaseTree scope root delta => Some (release_tree_descendants scope root delta s).1
  | OpReleaseClaimedChild scope child => Some (release_claimed_child_reservation scope child s).1
  | OpPutLoopCheckpoint req id => Some (put_loop_checkpoint req id now s).1
  | OpRestart => ok_option (from_persistence_snapshot (persistence_snapshot s) (in_limits s))
  end.

(** What the outside guarantees: a fresh turn identifier is new, the map is walked
    through all of its keys, and the numbers are in the range of their types. *)
Definition env_ok (env : Env) (s : Inner) : Prop :=
  in_turns s !! fresh_turn_id (env_fresh env) = None
  /\ env_order env ≡ₚ (map_to_list (in_records s)).*1.

Definition op_ok (op : turn_op) : Prop :=
  match op with
  | OpSection (CommitChild req _ _) => in_u32 (cq_spawn_tree_descendant_cap req)
  | OpReserveTree _ _ delta cap => in_u32 delta /\ in_u32 cap
  | OpReleaseTree _ _ delta => in_u32 delta
  | _ => True
  end.

Inductive turn_step (s s' : Inner) : Prop :=
| turn_step_exec env op :
    env_ok env s -> op_ok op -> turn_exec env op s = Some s' -> turn_step s s'.

(** The operations of any number of callers, one critical section after the other. *)
Fixpoint executes (ops : list (Env * turn_op)) (s s' : Inner) : Prop :=
  match ops with
  | [] => s' = s
  | (env, op) :: ops =>
      exists s1, env_ok env s /\ op_ok op /\ turn_exec env op s = Some s1 /\ executes ops s1 s'
  end.

Definition reachable (limits : Limits) (s : Inner) : Prop := rtc turn_step (Inner_new limits) s.

End Exec.
