(* ===== verification/TurnInvariants.v ===== *)
(** * Turns: the invariants of the store

    What holds in every state the store of [TurnStore] can reach: the records, the
    thread locks, the queue, the terminal list, the admission reservations, the
    turns, the lineage of the runs, the spawn-tree reservations and the event log
    agree with each other.  Every operation is shown to move one record at a time
    between live statuses ([live_move]) or to a terminal one ([final_move]), to add
    a record, or to prune terminal leaves; the invariants are proved once for each of
    these moves. *)

From S2P Require Import Prelude Effects External HostIds HostTypes Dispatch RunProfile TurnTypes.
From S2P Require Import TurnStore TurnSnapshot TurnExec.
Open Scope Z_scope.

(** ** Counting the values of a map *)

Section Count.
Context {K : Type} `{Countable K} {A : Type}.
Implicit Types m : gmap K A.

Definition count_values (f : A -> bool) m : nat := length (List.filter f (map_to_list m).*2).

Lemma filter_Permutation (f : A -> bool) l l' : l ≡ₚ l' -> List.filter f l ≡ₚ List.filter f l'.
Proof.
  induction 1 as [|x l l' _ IH|x y l|l l1 l2 _ IH1 _ IH2]; simpl; [done | | |by etrans].
  - destruct (f x); by rewrite IH.
  - destruct (f x), (f y); try done. by constructor.
Qed.

Lemma count_insert_new f m k x :
  m !! k = None -> count_values f (<[k := x]> m) = ((if f x then 1 else 0) + count_values f m)%nat.
Proof.
  intros Hk. unfold count_values.
  rewrite (Permutation_length (filter_Permutation f _ _
             (fmap_Permutation snd _ _ (map_to_list_insert m k x Hk)))).
  simpl. by destruct (f x).
Qed.

Lemma count_delete f m k x :
  m !! k = Some x -> count_values f m = ((if f x then 1 else 0) + count_values f (delete k m))%nat.
Proof.
  intros Hk. rewrite <- (insert_delete_id m k x Hk) at 1.
  apply count_insert_new, lookup_delete_eq.
Qed.

Lemma count_insert f m k x y :
  m !! k = Some x ->
  (count_values f (<[k := y]> m) + (if f x then 1 else 0))%nat
  = (count_values f m + (if f y then 1 else 0))%nat.
Proof.
  intros Hk. rewrite (count_delete f m k x Hk).
  rewrite <- insert_delete_eq, count_insert_new by apply lookup_delete_eq. lia.
Qed.

Lemma count_zero f m : (forall k x, m !! k = Some x -> f x = false) -> count_values f m = 0%nat.
Proof.
  intros Hm. unfold count_values. rewrite filter_none; [done|].
  intros i x Hi. apply list_elem_of_lookup_2, list_elem_of_fmap in Hi as ([k y] & -> & Hin).
  apply elem_of_map_to_list in Hin. by eapply Hm.
Qed.

Lemma count_pos f m k x : m !! k = Some x -> f x = true -> (0 < count_values f m)%nat.
Proof. intros Hk Hx. rewrite (count_delete f m k x Hk), Hx. lia. Qed.

Lemma count_pos_inv f m : (0 < count_values f m)%nat -> exists k x, m !! k = Some x /\ f x = true.
Proof.
  intros Hc. unfold count_values in Hc.
  destruct (List.filter f _) as [|x l] eqn:E; [simpl in Hc; lia|].
  assert (x ∈ List.filter f (map_to_list m).*2) as Hx by (rewrite E; by left).
  apply list_elem_of_In, filter_In in Hx as [Hx Hf]. apply list_elem_of_In in Hx.
  apply list_elem_of_fmap in Hx as ([k y] & -> & Hin). apply elem_of_map_to_list in Hin. eauto.
Qed.

Lemma count_mono f g m :
  (forall k x, m !! k = Some x -> f x = true -> g x = true) ->
  (count_values f m <= count_values g m)%nat.
Proof.
  induction m as [|k x m Hk IH] using map_ind; intros Hm; [done|].
  rewrite !count_insert_new by done.
  assert (count_values f m <= count_values g m)%nat.
  { apply IH. intros j y Hj. apply Hm with j. by rewrite lookup_insert_ne by congruence. }
  specialize (Hm k x (lookup_insert_eq _ _ _)). destruct (f x); [rewrite Hm by done|]; lia.
Qed.

Lemma count_ext f g m :
  (forall k x, m !! k = Some x -> f x = g x) -> count_values f m = count_values g m.
Proof.
  intros Hm. apply Nat.le_antisymm; apply count_mono; intros k x Hk; rewrite (Hm k x Hk); done.
Qed.

End Count.

(** ** The invariants *)

Section Invariants.
Context {T : Chrono} {U : UuidText} {P : UuidParse U}.
Implicit Types (records : gmap TurnRunId RunRecord) (r : RunRecord) (s : Inner).

(** The statuses in which a runner holds a lease. *)
Definition leased r : bool :=
  bool_decide (r_status r = Running) || bool_decide (r_status r = CancelRequested)
  || (bool_decide (r_status r = BlockedAuth) && native_waiting r).

(** The custody of a native authentication wait, as [from_persistence_snapshot]
    demands it of what it loads. *)
Definition native_ok r : Prop :=
  forall w, r_native_auth_wait r = Some w ->
    (exists gate, NativeAuthWait_gate_ref w = Ok gate)
    /\ r_status r <> Queued
    /\ (is_terminal (r_status r) = false ->
        r_checkpoint_id r = None
        /\ if NativeAuthWait_is_waiting w
           then (r_status r = BlockedAuth \/ r_status r = CancelRequested)
                /\ exists gate, NativeAuthWait_gate_ref w = Ok gate /\ r_gate_ref r = Some gate
           else (r_status r = Running \/ r_status r = CancelRequested)
                /\ r_gate_ref r = None /\ r_credential_requirements r = []).

Record run_ok r : Prop := {
  ro_runner : is_Some (r_runner_id r) <-> leased r = true;
  ro_lease : is_Some (r_lease_token r) <-> leased r = true;
  ro_expires : is_Some (r_lease_expires_at r) <-> leased r = true;
  ro_gate : is_Some (gate_kind_from_status (r_status r)) -> is_Some (r_gate_ref r);
  ro_native : native_ok r }.

Definition keyed records : Prop := forall id r, records !! id = Some r -> r_run_id r = id.

Definition live r : Prop := is_terminal (r_status r) = false.

(** A thread's lock is the lock of its one live run. *)
Record locks_ok records (locks : gmap TurnActiveLockKey TurnActiveLockRecord) : Prop := {
  lo_live : forall id r, records !! id = Some r -> live r ->
    exists l, locks !! r_scope r = Some l /\ lk_run_id l = id /\ lk_status l = r_status r;
  lo_lock : forall k l, locks !! k = Some l ->
    lk_key l = k /\ exists r, records !! lk_run_id l = Some r /\ r_scope r = k /\ live r }.

Definition queue_ok records (queue : list TurnRunId) : Prop :=
  NoDup queue /\ forall id, id ∈ queue <-> exists r, records !! id = Some r /\ r_status r = Queued.

Definition terminal_ok records (runs : list TurnRunId) : Prop :=
  NoDup runs /\ forall id, id ∈ runs <-> exists r, records !! id = Some r /\ ~ live r.

(** The reservation of a run is its canonical one, released exactly when the run is
    terminal. *)
Definition reservation_of r : TurnAdmissionReservationRecord :=
  mk_TurnAdmissionReservationRecord (r_run_id r) (tp_admission_class (r_profile r))
    (admission_buckets (r_scope r) (r_actor r) (tp_admission_class (r_profile r)))
    (is_terminal (r_status r)).
Definition admission_ok records (m : gmap TurnRunId TurnAdmissionReservationRecord) : Prop :=
  m = reservation_of <$> records.

Record turns_ok records (turns : gmap TurnId TurnRecord) : Prop := {
  to_run : forall id r, records !! id = Some r ->
    exists t, turns !! r_turn_id r = Some t /\ tn_actor t = r_actor r /\ tn_scope t = r_scope r;
  to_turn : forall k t, turns !! k = Some t -> tn_turn_id t = k }.

Definition same_envelope (a b : TurnScope) : Prop :=
  ts_tenant_id a = ts_tenant_id b /\ ts_agent_id a = ts_agent_id b
  /\ ts_project_id a = ts_project_id b.

(** A child's parent exists, one level up in the same envelope, and shares its
    root. *)
Definition lineage_of records r : Prop :=
  match r_parent_run_id r with
  | None =>
      r_subagent_depth r = 0 /\ r_spawn_tree_root_run_id r = None
      /\ r_claimed_child_reservation_released r = None
  | Some p =>
      exists parent, records !! p = Some parent
        /\ r_subagent_depth r = r_subagent_depth parent + 1
        /\ same_envelope (r_scope r) (r_scope parent)
        /\ r_spawn_tree_root_run_id r = Some (default p (r_spawn_tree_root_run_id parent))
  end.
Definition lineage_ok records : Prop :=
  forall id r, records !! id = Some r -> lineage_of records r /\ in_u32 (r_subagent_depth r).

(** The claimed children of a tree that still own their slot. *)
Definition pending_in (key : SpawnTreeReservationKey) r : bool :=
  bool_decide (r_claimed_child_reservation_released r = Some false)
  && bool_decide (SpawnTreeReservationKey_new (r_scope r) (default (r_run_id r)
                    (r_spawn_tree_root_run_id r)) = key).

Record tree_ok records (tree : gmap SpawnTreeReservationKey Z) : Prop := {
  tk_key : forall k n, tree !! k = Some n ->
    0 < n <= u32_max
    /\ exists r, records !! reservation_root k = Some r /\ r_parent_run_id r = None
         /\ k = SpawnTreeReservationKey_new (r_scope r) (reservation_root k);
  tk_pending : forall k,
    Z.of_nat (count_values (pending_in k) records) <= default 0 (tree !! k) }.

(** The log ends at the cursor; cursors grow strictly from the retention floor on
    until the counter is exhausted. *)
Record events_ok (cursor : Z) records (events : list TurnLifecycleEvent) (floor : Z) : Prop := {
  eo_floor : 0 <= floor <= cursor;
  eo_cursor : cursor <= u64_max;
  eo_top : from_option le_cursor floor (last events) = cursor;
  eo_events : Forall (fun e => le_cursor e <= cursor) events;
  eo_runs : forall id r, records !! id = Some r -> 0 < r_event_cursor r <= cursor;
  eo_sorted : cursor < u64_max -> StronglySorted Z.lt (floor :: map le_cursor events) }.

Record inv s : Prop := {
  inv_keyed : keyed (in_records s);
  inv_runs : forall id r, in_records s !! id = Some r -> run_ok r;
  inv_locks : locks_ok (in_records s) (in_active_locks s);
  inv_queue : queue_ok (in_records s) (in_queued_runs s);
  inv_terminal : terminal_ok (in_records s) (in_terminal_runs s);
  inv_admission : admission_ok (in_records s) (in_admission_reservations s);
  inv_turns : turns_ok (in_records s) (in_turns s);
  inv_lineage : lineage_ok (in_records s);
  inv_tree : tree_ok (in_records s) (in_tree_reservations s);
  inv_events : events_ok (in_cursor s) (in_records s) (in_events s) (in_event_retention_floor s) }.

Lemma inv_new limits : inv (Inner_new limits).
Proof.
  split; simpl; try (intros ??; by rewrite lookup_empty).
  - split; intros ??; by rewrite lookup_empty.
  - split; [constructor|]. intros id. split; [by intros ?%elem_of_nil | by intros (? & [=] & _)].
  - split; [constructor|]. intros id. split; [by intros ?%elem_of_nil | by intros (? & [=] & _)].
  - unfold admission_ok. by rewrite fmap_empty.
  - split; intros ??; by rewrite lookup_empty.
  - split; [intros ??; by rewrite lookup_empty|]. intros k. rewrite lookup_empty.
    rewrite count_zero; [done|]. intros ??. by rewrite lookup_empty.
  - split; try done. all: try (by apply Forall_nil). intros _. repeat constructor.
Qed.

(** ** One record changes *)

(** The fields of a record that no transition changes. *)
Record same_run r r' : Prop := {
  sr_scope : r_scope r' = r_scope r;
  sr_actor : r_actor r' = r_actor r;
  sr_turn : r_turn_id r' = r_turn_id r;
  sr_run : r_run_id r' = r_run_id r;
  sr_profile : r_profile r' = r_profile r;
  sr_parent : r_parent_run_id r' = r_parent_run_id r;
  sr_depth : r_subagent_depth r' = r_subagent_depth r;
  sr_root : r_spawn_tree_root_run_id r' = r_spawn_tree_root_run_id r;
  sr_released : r_claimed_child_reservation_released r'
                = r_claimed_child_reservation_released r }.

(** One event with the next cursor is added to the log, the oldest ones dropped. *)
Definition logged s s' r' : Prop :=
  exists e, in_cursor s' = Z.min (in_cursor s + 1) u64_max
    /\ r_event_cursor r' = in_cursor s' /\ le_cursor e = in_cursor s'
    /\ le_run_id e = r_run_id r' /\ le_status e = r_status r' /\ le_scope e = r_scope r'
    /\ exists n, in_events s' = drop n (in_events s ++ [e])
         /\ in_event_retention_floor s'
            = from_option (fun last => Z.max (in_event_retention_floor s) (le_cursor last))
                (in_event_retention_floor s) (last (take n (in_events s ++ [e]))).

(** The log after a change of [r] to [r']: nothing recorded and the cursor kept, or
    an event. *)
Definition events_after s s' r r' : Prop :=
  (in_cursor s' = in_cursor s /\ in_events s' = in_events s
   /\ in_event_retention_floor s' = in_event_retention_floor s
   /\ r_event_cursor r' = r_event_cursor r)
  \/ logged s s' r'.

(** What both kinds of change leave alone. *)
Record moved s s' r r' : Prop := {
  mv_records : in_records s' = <[r_run_id r := r']> (in_records s);
  mv_turns : in_turns s' = in_turns s;
  mv_tree : in_tree_reservations s' = in_tree_reservations s;
  mv_limits : in_limits s' = in_limits s;
  mv_events : events_after s s' r r' }.

Record live_move s s' r r' : Prop := {
  lm_moved : moved s s' r r';
  lm_locks : exists l, in_active_locks s' = <[r_scope r := l]> (in_active_locks s)
               /\ lk_key l = r_scope r /\ lk_run_id l = r_run_id r /\ lk_status l = r_status r';
  lm_queue : NoDup (in_queued_runs s') /\ forall id, id ∈ in_queued_runs s' <->
               (id = r_run_id r /\ r_status r' = Queued)
               \/ (id <> r_run_id r /\ id ∈ in_queued_runs s);
  lm_terminal : in_terminal_runs s' = in_terminal_runs s;
  lm_admission : in_admission_reservations s' = in_admission_reservations s }.

Record final_move s s' r r' : Prop := {
  fm_moved : moved s s' r r';
  fm_locks : in_active_locks s' = delete (r_scope r) (in_active_locks s);
  fm_queue : in_queued_runs s'
             = List.filter (fun q => negb (bool_decide (q = r_run_id r))) (in_queued_runs s);
  fm_terminal : in_terminal_runs s' = in_terminal_runs s ++ [r_run_id r];
  fm_admission : in_admission_reservations s'
    = alter (fun v => mk_TurnAdmissionReservationRecord (av_run_id v) (av_admission_class v)
                        (av_buckets v) true) (r_run_id r) (in_admission_reservations s) }.

(** *** The event log *)

Lemma snoc_split {A} (l : list A) x l1 l2 :
  l ++ [x] = l1 ++ l2 -> (l2 = [] /\ l1 = l ++ [x]) \/ exists l0, l2 = l0 ++ [x] /\ l = l1 ++ l0.
Proof.
  destruct l2 as [|y l0 _] using rev_ind; intros Heq; [left; by rewrite app_nil_r in Heq|right].
  rewrite app_assoc in Heq. apply app_inj_tail in Heq as [-> ->]. by exists l0.
Qed.

Lemma logged_ok s s' id r' :
  events_ok (in_cursor s) (in_records s) (in_events s) (in_event_retention_floor s) ->
  in_records s' = <[id := r']> (in_records s) -> logged s s' r' ->
  events_ok (in_cursor s') (in_records s') (in_events s') (in_event_retention_floor s').
Proof.
  intros [Hf Hc Htop Hall Hruns Hsort] Hrec (e & Hc' & Hr' & He & _ & _ & _ & n & Hevs & Hfl).
  assert (in_cursor s <= in_cursor s' <= u64_max) as Hle by lia.
  pose proof (take_drop n (in_events s ++ [e])) as Hsplit. symmetry in Hsplit.
  set (A := take n (in_events s ++ [e])) in *. set (B := drop n (in_events s ++ [e])) in *.
  assert (Forall (fun e0 => le_cursor e0 <= in_cursor s') (A ++ B)) as HAB.
  { rewrite <- Hsplit. apply Forall_app. split; [|repeat constructor; lia].
    eapply Forall_impl; [done|]. simpl. lia. }
  apply Forall_app in HAB as [HA HB].
  assert (0 <= in_event_retention_floor s' <= in_cursor s') as Hfl'.
  { rewrite Hfl. destruct (last A) as [x|] eqn:Hx; simpl; [|lia].
    apply last_Some_elem_of in Hx. rewrite Forall_forall in HA. specialize (HA _ Hx). simpl in HA.
    lia. }
  split; [done | lia | | by rewrite Hevs | |].
  + rewrite Hevs. destruct (snoc_split _ _ _ _ Hsplit) as [[HB0 HA0]|(B0 & HB0 & _)].
    * rewrite HB0. simpl. rewrite Hfl, HA0, last_snoc. simpl. lia.
    * rewrite HB0, last_snoc. done.
  + intros j r1. rewrite Hrec. same_or_other j id; [|intros Hr1%Hruns; lia].
    intros [= <-]. assert (0 < u64_max) by done. lia.
  + intros Hlt. assert (in_cursor s < u64_max) as Hlt0 by lia. specialize (Hsort Hlt0).
    assert (StronglySorted Z.lt (in_event_retention_floor s :: map le_cursor (A ++ B))) as Hss.
    { rewrite <- Hsplit, map_app. rewrite app_comm_cons. apply StronglySorted_app.
      split_and!; [|done|repeat constructor].
      intros x y Hx ->%list_elem_of_singleton. apply elem_of_cons in Hx as [->|Hx]; [lia|].
      apply list_elem_of_fmap in Hx as (e0 & -> & He0). rewrite Forall_forall in Hall.
      specialize (Hall _ He0). simpl in Hall. lia. }
    rewrite Hevs, Hfl. destruct A as [|x A' _] using rev_ind; [done|].
    rewrite last_snoc. simpl. rewrite <- app_assoc, map_app in Hss.
    rewrite app_comm_cons in Hss. apply StronglySorted_app in Hss as (Hx & _ & Hss2).
    rewrite Z.max_r; [done|]. apply Z.lt_le_incl, Hx; by left.
Qed.

Lemma events_after_ok s s' r r' :
  events_ok (in_cursor s) (in_records s) (in_events s) (in_event_retention_floor s) ->
  in_records s !! r_run_id r = Some r ->
  in_records s' = <[r_run_id r := r']> (in_records s) -> events_after s s' r r' ->
  events_ok (in_cursor s') (in_records s') (in_events s') (in_event_retention_floor s').
Proof.
  intros He Hr Hrec [(-> & -> & -> & Hr')|Hlog]; [|by eapply logged_ok].
  destruct He as [Hf Hc Htop Hall Hruns Hsort].
  split; try done. intros id r1. rewrite Hrec. same_or_other id (r_run_id r); [|by apply Hruns].
  intros [= <-]. rewrite Hr'. by eapply Hruns.
Qed.

(** *** What depends on the identity of the runs only *)

Section Same.
Variables (records : gmap TurnRunId RunRecord) (id : TurnRunId) (r r' : RunRecord).
Hypothesis Hr : records !! id = Some r.
Hypothesis Hsame : same_run r r'.

Lemma same_keyed : keyed records -> keyed (<[id := r']> records).
Proof.
  intros Hk j x. same_or_other j id; [|apply Hk]. intros [= <-].
  rewrite (sr_run _ _ Hsame). by apply Hk.
Qed.

Lemma same_turns turns : turns_ok records turns -> turns_ok (<[id := r']> records) turns.
Proof.
  intros [Ht Hk]. split; [|done]. intros j x. same_or_other j id; [|apply Ht]. intros [= <-].
  destruct Hsame as [-> -> -> _ _ _ _ _ _]. by eapply Ht.
Qed.

Lemma same_lineage : lineage_ok records -> lineage_ok (<[id := r']> records).
Proof.
  intros Hl.
  assert (forall x, lineage_of records x -> lineage_of (<[id := r']> records) x) as Hup.
  { intros x. unfold lineage_of. destruct (r_parent_run_id x) as [p|]; [|done].
    intros (parent & Hp & Hd & He & Hroot). destruct (decide (p = id)) as [->|Hne].
    - exists r'. rewrite lookup_insert_eq. replace parent with r in * by congruence.
      destruct Hsame as [-> _ _ _ _ _ -> -> _]. done.
    - exists parent. by rewrite lookup_insert_ne. }
  intros j x. same_or_other j id; [|intros Hx; destruct (Hl j x Hx); by split; [apply Hup|]].
  intros [= <-]. destruct (Hl id r Hr) as [Hlr Hd].
  destruct Hsame as [Es _ _ _ _ Ep Ed Eroot Erel]. rewrite Ed. split; [|done].
  apply Hup in Hlr. unfold lineage_of in *. by rewrite Ep, Ed, Eroot, Erel, Es.
Qed.

Lemma same_pending k : count_values (pending_in k) (<[id := r']> records)
                       = count_values (pending_in k) records.
Proof.
  pose proof (count_insert (pending_in k) records id r r' Hr) as Hc.
  replace (pending_in k r') with (pending_in k r) in Hc; [lia|].
  unfold pending_in. by destruct Hsame as [-> _ _ -> _ _ _ -> ->].
Qed.

Lemma same_tree tree : tree_ok records tree -> tree_ok (<[id := r']> records) tree.
Proof.
  intros [Hk Hp]. split; [|intros k; rewrite same_pending; apply Hp].
  intros k n Hkn. destruct (Hk k n Hkn) as [Hn (x & Hx & Hpar & Heq)]. split; [done|].
  destruct (decide (reservation_root k = id)) as [E|Hne].
  - exists r'. rewrite E, lookup_insert_eq. replace x with r in * by congruence.
    destruct Hsame as [-> _ _ _ _ -> _ _ _]. by rewrite <- E.
  - exists x. by rewrite lookup_insert_ne.
Qed.

End Same.

(** *** Live and final moves *)

Lemma negb_decide_true {Q} `{Decision Q} : negb (bool_decide Q) = true <-> ~ Q.
Proof. rewrite negb_true_iff. apply bool_decide_eq_false. Qed.

Lemma elem_of_remove_queued (id q : TurnRunId) l :
  q ∈ List.filter (fun q => negb (bool_decide (q = id))) l <-> q ∈ l /\ q <> id.
Proof. by rewrite list_elem_of_In, filter_In, <- list_elem_of_In, negb_decide_true. Qed.

Lemma NoDup_List_filter {A} (f : A -> bool) l : NoDup l -> NoDup (List.filter f l).
Proof.
  induction 1 as [|x l Hx Hnd IH]; simpl; [constructor|]. destruct (f x); [|done].
  constructor; [|done]. intros Hin. apply Hx. apply list_elem_of_In, filter_In in Hin as [Hin _].
  by apply list_elem_of_In.
Qed.

Section Moves.
Variables (s s' : Inner) (r r' : RunRecord).
Hypothesis Hinv : inv s.
Hypothesis Hr : in_records s !! r_run_id r = Some r.
Hypothesis Hlive : live r.
Hypothesis Hsame : same_run r r'.
Hypothesis Hok : run_ok r'.

Lemma moved_runs : moved s s' r r' -> forall id x, in_records s' !! id = Some x -> run_ok x.
Proof.
  intros [-> _ _ _ _] id x. same_or_other id (r_run_id r); [by intros [= <-]|].
  by apply (inv_runs s Hinv).
Qed.

Lemma moved_events_ok : moved s s' r r' ->
  events_ok (in_cursor s') (in_records s') (in_events s') (in_event_retention_floor s').
Proof.
  intros [Hrec _ _ _ Hev]. apply (events_after_ok s s' r r'); [apply Hinv | done..].
Qed.

Lemma inv_live : live r' -> live_move s s' r r' -> inv s'.
Proof.
  intros Hlive' [Hmv (l & Hlocks & Hlk & Hlr & Hls) [Hnd Hq] Hterm Hadm].
  pose proof Hmv as [Hrec Hturns Htree _ _]. pose proof Hinv as [Kk Kr Kl Kq Kt Ka Ktu Kli Ktr Ke].
  split; [| by eapply moved_runs | | | | | | | | by apply moved_events_ok]; rewrite Hrec.
  - by eapply same_keyed.
  - rewrite Hlocks. split.
    + intros id x. same_or_other id (r_run_id r).
      * intros [= <-] _. exists l. by rewrite (sr_scope _ _ Hsame), lookup_insert_eq.
      * intros Hx Hlx. destruct (lo_live _ _ Kl id x Hx Hlx) as (lx & Hlx1 & Hlx2 & Hlx3).
        exists lx. rewrite lookup_insert_ne; [done|]. intros Heq.
        destruct (lo_live _ _ Kl _ _ Hr Hlive) as (l0 & Hl0 & Hl0r & _).
        rewrite Heq in Hl0. congruence.
    + intros k lx. destruct (decide (k = r_scope r)) as [->|Hne].
      * rewrite lookup_insert_eq. intros [= <-]. split; [done|]. exists r'.
        rewrite Hlr, lookup_insert_eq. by rewrite (sr_scope _ _ Hsame).
      * rewrite lookup_insert_ne by done. intros Hlx.
        destruct (lo_lock _ _ Kl k lx Hlx) as [Hkey (x & Hx & Hxs & Hxl)]. split; [done|].
        exists x. rewrite lookup_insert_ne; [done|]. intros Heq.
        rewrite <- Heq, Hr in Hx. congruence.
  - split; [done|]. intros id. rewrite Hq. same_or_other id (r_run_id r).
    + split; [intros [[_ ?]|[[] _]]; [by exists r' | done] |]. intros (x & [= <-] & Hx). by left.
    + rewrite <- (proj2 Kq id). tauto.
  - rewrite Hterm. destruct Kt as [Ktn Kt]. split; [done|]. intros id. rewrite Kt.
    same_or_other id (r_run_id r); [|done].
    split; intros (x & Hx & Hnl); exfalso; apply Hnl; congruence.
  - unfold admission_ok. rewrite Hadm, Ka, fmap_insert. symmetry. apply insert_id.
    rewrite lookup_fmap, Hr. simpl. f_equal. unfold reservation_of.
    destruct Hsame as [-> -> _ -> -> _ _ _ _]. by rewrite Hlive', Hlive.
  - rewrite Hturns. by eapply same_turns.
  - by eapply same_lineage.
  - rewrite Htree. by eapply same_tree.
Qed.

Lemma inv_final : ~ live r' -> final_move s s' r r' -> inv s'.
Proof.
  intros Hlive' [Hmv Hlocks Hq Hterm Hadm].
  pose proof Hmv as [Hrec Hturns Htree _ _]. pose proof Hinv as [Kk Kr Kl Kq Kt Ka Ktu Kli Ktr Ke].
  split; [| by eapply moved_runs | | | | | | | | by apply moved_events_ok]; rewrite Hrec.
  - by eapply same_keyed.
  - rewrite Hlocks. split.
    + intros id x. same_or_other id (r_run_id r); [by intros [= <-]|].
      intros Hx Hlx. destruct (lo_live _ _ Kl id x Hx Hlx) as (lx & Hlx1 & Hlx2 & Hlx3).
      exists lx. rewrite lookup_delete_ne; [done|]. intros Heq.
      destruct (lo_live _ _ Kl _ _ Hr Hlive) as (l0 & Hl0 & Hl0r & _).
      rewrite Heq in Hl0. congruence.
    + intros k lx [Hne Hlx]%lookup_delete_Some.
      destruct (lo_lock _ _ Kl k lx Hlx) as [Hkey (x & Hx & Hxs & Hxl)]. split; [done|].
      exists x. rewrite lookup_insert_ne; [done|]. intros Heq. rewrite <- Heq, Hr in Hx. congruence.
  - destruct Kq as [Kqn Kq]. rewrite Hq. split; [by apply NoDup_List_filter|]. intros id.
    rewrite elem_of_remove_queued, Kq. same_or_other id (r_run_id r); [|tauto].
    split; [by intros [_ []]|]. intros (x & [= <-] & Hx). exfalso. apply Hlive'. unfold live.
    by rewrite Hx.
  - rewrite Hterm. destruct Kt as [Ktn Kt]. split.
    + apply NoDup_app. split_and!; [done | | apply NoDup_singleton].
      intros x Hx ->%list_elem_of_singleton. apply Kt in Hx as (y & Hy & Hnl). congruence.
    + intros id. rewrite elem_of_app, list_elem_of_singleton, Kt.
      same_or_other id (r_run_id r); [|tauto].
      split; [intros _; by exists r' | by right].
  - unfold admission_ok. rewrite Hadm, Ka. apply map_eq. intros id.
    destruct (decide (id = r_run_id r)) as [->|Hne].
    + rewrite lookup_alter_eq, !lookup_fmap, lookup_insert_eq, Hr. simpl. f_equal.
      unfold reservation_of. destruct Hsame as [-> -> _ -> -> _ _ _ _]. simpl. f_equal.
      symmetry. by apply not_false_is_true.
    + by rewrite lookup_alter_ne, !lookup_fmap, lookup_insert_ne by done.
  - rewrite Hturns. by eapply same_turns.
  - by eapply same_lineage.
  - rewrite Htree. by eapply same_tree.
Qed.

End Moves.

(** *** A new run *)

Record admitted s s' r : Prop := {
  ad_new : in_records s !! r_run_id r = None;
  ad_turn : in_turns s !! r_turn_id r = None;
  ad_lock : in_active_locks s !! r_scope r = None;
  ad_status : r_status r = Queued;
  ad_ok : run_ok r;
  ad_lineage : lineage_of (in_records s) r;
  ad_depth : in_u32 (r_subagent_depth r);
  ad_records : in_records s' = <[r_run_id r := r]> (in_records s);
  ad_turns : exists t, in_turns s' = <[r_turn_id r := t]> (in_turns s)
               /\ tn_turn_id t = r_turn_id r /\ tn_actor t = r_actor r /\ tn_scope t = r_scope r;
  ad_locks : exists l, in_active_locks s' = <[r_scope r := l]> (in_active_locks s)
               /\ lk_key l = r_scope r /\ lk_run_id l = r_run_id r /\ lk_status l = Queued;
  ad_queue : in_queued_runs s' = in_queued_runs s ++ [r_run_id r];
  ad_terminal : in_terminal_runs s' = in_terminal_runs s;
  ad_admission : in_admission_reservations s'
                 = <[r_run_id r := reservation_of r]> (in_admission_reservations s);
  ad_tree : tree_ok (in_records s') (in_tree_reservations s');
  ad_limits : in_limits s' = in_limits s;
  ad_events : logged s s' r }.

Lemma inv_admitted s s' r : inv s -> admitted s s' r -> inv s'.
Proof.
  intros [Kk Kr Kl Kq Kt Ka Ktu Kli Ktr Ke]
    [Hnew Hturn Hlock Hst Hok Hlin Hdep Hrec (t & Hts & Ht1 & Ht2 & Ht3)
     (l & Hlocks & Hl1 & Hl2 & Hl3) Hq Hterm Hadm Htree _ Hev].
  assert (live r) as Hlive by (unfold live; by rewrite Hst).
  split; [| | | | | | | | done | by eapply logged_ok]; rewrite Hrec.
  - intros id x. same_or_other id (r_run_id r); [by intros [= <-] | apply Kk].
  - intros id x. same_or_other id (r_run_id r); [by intros [= <-] | apply Kr].
  - rewrite Hlocks. split.
    + intros id x. same_or_other id (r_run_id r).
      * intros [= <-] _. exists l. rewrite lookup_insert_eq. by rewrite Hst.
      * intros Hx Hlx. destruct (lo_live _ _ Kl id x Hx Hlx) as (lx & Hlx1 & Hlx2 & Hlx3).
        exists lx. rewrite lookup_insert_ne by congruence. done.
    + intros k lx. destruct (decide (k = r_scope r)) as [->|Hne].
      * rewrite lookup_insert_eq. intros [= <-]. split; [done|]. exists r.
        by rewrite Hl2, lookup_insert_eq.
      * rewrite lookup_insert_ne by done. intros Hlx.
        destruct (lo_lock _ _ Kl k lx Hlx) as [Hkey (x & Hx & Hxs & Hxl)]. split; [done|].
        exists x. rewrite lookup_insert_ne; [done|]. congruence.
  - destruct Kq as [Kqn Kq]. rewrite Hq. split.
    + apply NoDup_app. split_and!; [done | | apply NoDup_singleton].
      intros x Hx ->%list_elem_of_singleton. apply Kq in Hx as (y & Hy & _). congruence.
    + intros id. rewrite elem_of_app, list_elem_of_singleton, Kq.
      same_or_other id (r_run_id r); [|tauto]. split; [by exists r | by right].
  - rewrite Hterm. destruct Kt as [Ktn Kt]. split; [done|]. intros id. rewrite Kt.
    same_or_other id (r_run_id r); [|done].
    split; intros (x & Hx & Hnl); [congruence|]. injection Hx as <-. done.
  - unfold admission_ok. by rewrite Hadm, Ka, fmap_insert.
  - rewrite Hts. destruct Ktu as [Ktu1 Ktu2]. split.
    + intros id x. same_or_other id (r_run_id r).
      * intros [= <-]. exists t. by rewrite lookup_insert_eq.
      * intros Hx. destruct (Ktu1 id x Hx) as (tx & Htx & ?). exists tx.
        rewrite lookup_insert_ne by congruence. done.
    + intros k tx. destruct (decide (k = r_turn_id r)) as [->|Hne].
      * rewrite lookup_insert_eq. by intros [= <-].
      * rewrite lookup_insert_ne by done. apply Ktu2.
  - assert (forall x, lineage_of (in_records s) x ->
              lineage_of (<[r_run_id r := r]> (in_records s)) x) as Hup.
    { intros x. unfold lineage_of. destruct (r_parent_run_id x) as [p|]; [|done].
      intros (parent & Hp & H). exists parent. rewrite lookup_insert_ne by congruence. done. }
    intros id x. same_or_other id (r_run_id r).
    + intros [= <-]. split; [by apply Hup | done].
    + intros Hx. destruct (Kli id x Hx). split; [by apply Hup | done].
Qed.

(** *** Pruning: terminal records without children, slot or reservation go away *)

Record pruned s s' : Prop := {
  pn_sub : in_records s' ⊆ in_records s;
  pn_gone : forall id r, in_records s !! id = Some r -> in_records s' !! id = None ->
    ~ live r /\ r_claimed_child_reservation_released r <> Some false
    /\ (id ∉ reserved_roots (in_tree_reservations s))
    /\ forall j c, in_records s' !! j = Some c -> r_parent_run_id c <> Some id;
  pn_admission : forall id, in_admission_reservations s' !! id
    = match in_records s' !! id with Some _ => in_admission_reservations s !! id | None => None end;
  pn_terminal : in_terminal_runs s'
    = List.filter (fun id => bool_decide (is_Some (in_records s' !! id))) (in_terminal_runs s);
  pn_locks : in_active_locks s' = in_active_locks s;
  pn_queue : in_queued_runs s' = in_queued_runs s;
  pn_turns : in_turns s' = in_turns s;
  pn_tree : in_tree_reservations s' = in_tree_reservations s;
  pn_limits : in_limits s' = in_limits s;
  pn_cursor : in_cursor s' = in_cursor s;
  pn_events : in_events s' = in_events s;
  pn_floor : in_event_retention_floor s' = in_event_retention_floor s }.

Lemma pruned_live s s' id r :
  pruned s s' -> in_records s !! id = Some r -> live r -> in_records s' !! id = Some r.
Proof.
  intros Hp Hr Hl. destruct (in_records s' !! id) as [x|] eqn:Hx.
  - pose proof (lookup_weaken _ _ _ _ Hx (pn_sub _ _ Hp)). congruence.
  - by destruct (pn_gone _ _ Hp id r Hr Hx) as [[] _].
Qed.

Lemma pruned_count s s' k :
  pruned s s' -> count_values (pending_in k) (in_records s')
                 = count_values (pending_in k) (in_records s).
Proof.
  intros [Hsub Hgone _ _ _ _ _ _ _ _ _ _].
  assert (forall m, m ⊆ in_records s ->
    (forall id r, in_records s !! id = Some r -> m !! id = None ->
       r_claimed_child_reservation_released r <> Some false) ->
    count_values (pending_in k) m = count_values (pending_in k) (in_records s)) as H.
  { clear. intros m Hsub Hgone. rewrite <- (map_difference_union m (in_records s)) by done.
    assert (forall id r, (in_records s ∖ m) !! id = Some r -> pending_in k r = false) as Hz.
    { intros id r [Hr Hn]%lookup_difference_Some. specialize (Hgone id r Hr Hn).
      unfold pending_in. by rewrite bool_decide_eq_false_2. }
    assert (m ##ₘ in_records s ∖ m) as Hd.
    { apply map_disjoint_spec. intros i x y Hx [_ Hy]%lookup_difference_Some. congruence. }
    revert Hz Hd. generalize (in_records s ∖ m) as d. clear.
    induction d as [|id r d Hid IH] using map_ind; intros Hz Hd; [by rewrite map_union_empty|].
    apply map_disjoint_insert_r in Hd as [Hm Hd].
    rewrite <- insert_union_r by done. rewrite count_insert_new.
    - rewrite (Hz id r) by apply lookup_insert_eq. apply IH; [|done].
      intros j x Hj. apply Hz with j. rewrite lookup_insert_ne by congruence. done.
    - by rewrite lookup_union_None. }
  apply H; [done|]. intros id r Hr Hn. by destruct (Hgone id r Hr Hn) as (_ & ? & _).
Qed.

Lemma inv_pruned s s' : inv s -> pruned s s' -> inv s'.
Proof.
  intros Hinv Hp. pose proof Hinv as [Kk Kr Kl Kq Kt Ka Ktu Kli Ktr Ke].
  pose proof Hp as [Hsub Hgone Hadm Hterm Hlocks Hq Hturns Htree _ Hc He Hf].
  assert (forall id r, in_records s' !! id = Some r -> in_records s !! id = Some r) as Hw
    by (intros id r Hr; by eapply lookup_weaken).
  split.
  - intros id r Hr. by apply Kk, Hw.
  - intros id r Hr. by eapply Kr, Hw.
  - rewrite Hlocks. split; [intros id r Hr; by apply Kl, Hw|].
    intros k l Hl. destruct (lo_lock _ _ Kl k l Hl) as [Hk (r & Hr & Hs & Hlv)]. split; [done|].
    exists r. split; [by eapply pruned_live | done].
  - rewrite Hq. destruct Kq as [Kqn Kq]. split; [done|]. intros id. rewrite Kq.
    split; intros (r & Hr & Hst); exists r; (split; [|done]); [|by apply Hw].
    eapply pruned_live; [done..|]. unfold live. by rewrite Hst.
  - rewrite Hterm. destruct Kt as [Ktn Kt]. split; [by apply NoDup_List_filter|]. intros id.
    rewrite list_elem_of_In, filter_In, <- list_elem_of_In, Kt, bool_decide_eq_true. split.
    + intros [(r & Hr & Hl) [x Hx]]. exists x. split; [done|].
      rewrite (Hw id x Hx) in Hr. congruence.
    + intros (r & Hr & Hl). split; [|by exists r]. exists r. split; [by apply Hw | done].
  - unfold admission_ok. apply map_eq. intros id. rewrite Hadm, lookup_fmap.
    destruct (in_records s' !! id) as [r|] eqn:Hr; [|done]. rewrite Ka, lookup_fmap.
    by rewrite (Hw id r Hr).
  - rewrite Hturns. destruct Ktu as [Ktu1 Ktu2]. split; [|done].
    intros id r Hr. by eapply Ktu1, Hw.
  - intros id r Hr. destruct (Kli id r (Hw id r Hr)) as [Hl Hd]. split; [|done].
    unfold lineage_of in *. destruct (r_parent_run_id r) as [p|] eqn:Hpar; [|done].
    destruct Hl as (parent & Hpr & H). exists parent. split; [|done].
    destruct (in_records s' !! p) as [x|] eqn:Hx.
    + rewrite (Hw p x Hx) in Hpr. congruence.
    + destruct (Hgone p parent Hpr Hx) as (_ & _ & _ & Hch). by destruct (Hch id r Hr).
  - rewrite Htree. destruct Ktr as [Ktr1 Ktr2]. split.
    + intros k n Hk. destruct (Ktr1 k n Hk) as [Hn (r & Hr & Hpar & Hkey)]. split; [done|].
      exists r. split; [|done]. destruct (in_records s' !! reservation_root k) as [x|] eqn:Hx.
      * rewrite (Hw _ x Hx) in Hr. congruence.
      * destruct (Hgone _ r Hr Hx) as (_ & _ & Hres & _). exfalso. apply Hres.
        unfold reserved_roots. apply elem_of_map. exists k. split; [done|]. by apply elem_of_dom.
    + intros k. rewrite (pruned_count s s' k Hp). apply Ktr2.
  - rewrite Hc, He, Hf. destruct Ke as [K1 K2 K3 K4 K5 K6]. split; try done.
    intros id r Hr. by eapply K5, Hw.
Qed.

(** *** Changes of the spawn-tree reservations alone, and of nothing the invariants
    speak of *)

Record retree s s' : Prop := {
  rt_tree : tree_ok (in_records s') (in_tree_reservations s');
  rt_records : in_records s' = in_records s
    \/ exists id r, in_records s !! id = Some r /\ ~ live r
         /\ r_claimed_child_reservation_released r = Some false
         /\ in_records s' = <[id := set_released (Some true) r]> (in_records s);
  rt_locks : in_active_locks s' = in_active_locks s;
  rt_queue : in_queued_runs s' ≡ₚ in_queued_runs s;
  rt_terminal : in_terminal_runs s' ≡ₚ in_terminal_runs s;
  rt_admission : in_admission_reservations s' = in_admission_reservations s;
  rt_turns : in_turns s' = in_turns s;
  rt_limits : in_limits s' = in_limits s;
  rt_cursor : in_cursor s' = in_cursor s;
  rt_events : in_events s' = in_events s;
  rt_floor : in_event_retention_floor s' = in_event_retention_floor s }.

Lemma inv_retree s s' : inv s -> retree s s' -> inv s'.
Proof.
  intros [Kk Kr Kl Kq Kt Ka Ktu Kli Ktr Ke] [Htree Hrec Hlocks Hq Hterm Hadm Hturns _ Hc He Hf].
  destruct Hrec as [Hrec|(id & r & Hr & Hnl & Hrel & Hrec)].
  { split; rewrite ?Hrec, ?Hlocks, ?Hadm, ?Hturns, ?Hc, ?He, ?Hf; try done.
    - destruct Kq as [Kqn Kq]. split; [by rewrite Hq|]. intros id. rewrite Hq. apply Kq.
    - destruct Kt as [Ktn Kt]. split; [by rewrite Hterm|]. intros id. rewrite Hterm. apply Kt.
    - by rewrite <- Hrec. }
  set (r' := set_released (Some true) r) in *.
  assert (forall x, lineage_of (in_records s) x -> lineage_of (in_records s') x) as Hup.
  { intros x. unfold lineage_of. destruct (r_parent_run_id x) as [p|]; [|done].
    intros (parent & Hp & H). rewrite Hrec. same_or_other p id; [|by exists parent].
    exists r'. split; [done|]. replace parent with r in * by congruence. done. }
  split; rewrite ?Hlocks, ?Hadm, ?Hturns, ?Hc, ?He, ?Hf; try done; rewrite Hrec.
  - intros j x. same_or_other j id; [intros [= <-]; simpl; by apply Kk | apply Kk].
  - intros j x. same_or_other j id; [|apply Kr]. intros [= <-]. by destruct (Kr id r Hr); split.
  - destruct Kl as [Kl1 Kl2]. split.
    + intros j x. same_or_other j id; [by intros [= <-] | apply Kl1].
    + intros k l Hl. destruct (Kl2 k l Hl) as [? (x & Hx & ? & ?)]. split; [done|]. exists x.
      rewrite lookup_insert_ne; [done|]. intros Heq. rewrite <- Heq in Hx. congruence.
  - destruct Kq as [Kqn Kq]. split; [by rewrite Hq|]. intros j. rewrite Hq, Kq.
    same_or_other j id; [|done].
    split; intros (x & Hx & Hst); exfalso; apply Hnl; unfold live.
    + replace r with x by congruence. by rewrite Hst.
    + injection Hx as <-. simpl in Hst. by rewrite Hst.
  - destruct Kt as [Ktn Kt]. split; [by rewrite Hterm|]. intros j. rewrite Hterm, Kt.
    same_or_other j id; [|done]. split; intros (x & Hx & Hst); [by exists r' | by exists r].
  - unfold admission_ok. rewrite Ka, fmap_insert. symmetry. apply insert_id.
    rewrite lookup_fmap, Hr. done.
  - destruct Ktu as [Ktu1 Ktu2]. split; [|done]. intros j x. same_or_other j id; [|apply Ktu1].
    intros [= <-]. apply (Ktu1 _ _ Hr).
  - intros j x. rewrite <- Hrec. intros Hx. assert (lineage_of (in_records s') x
      /\ in_u32 (r_subagent_depth x)) as H; [|done].
    rewrite Hrec in Hx. revert Hx. same_or_other j id; [|intros Hx; destruct (Kli j x Hx); auto].
    intros [= <-]. destruct (Kli id r Hr) as [Hl Hd]. split; [|done]. apply Hup in Hl.
    unfold lineage_of in *. simpl. destruct (r_parent_run_id r); [done|].
    destruct Hl as (_ & _ & Hm). congruence.
  - destruct Ke as [K1 K2 K3 K4 K5 K6]. split; try done.
    intros j x. same_or_other j id; [|apply K5]. intros [= <-]. apply (K5 _ _ Hr).
Qed.
End Invariants.
