(* ===== verification/TurnPrune.v ===== *)
(** * Turns: pruning of terminal records

    [prune_terminal_records] of [memory.rs] keeps the number of prunable records
    bounded by removing the oldest leaves first, and a parent becomes a leaf when its
    last child goes.  The theorems: the loop ends by its own condition within the
    fuel of the model; it removes terminal records only, which own no slot, are not
    the root of a reservation and have no children left, so that no run is orphaned;
    and afterwards at most the configured number of records is prunable. *)

From S2P Require Import Prelude Effects External HostIds HostTypes Dispatch RunProfile TurnTypes.
From S2P Require Import TurnStore TurnSnapshot TurnExec TurnInvariants.
Open Scope Z_scope.

Lemma heap_push_perm x h : heap_push x h ≡ₚ x :: h.
Proof.
  induction h as [|y h IH]; simpl; [done|]. destruct (heap_le x y); [done|].
  rewrite IH. by constructor.
Qed.

Definition child_of (q : TurnRunId) (r : RunRecord) : bool :=
  bool_decide (r_parent_run_id r = Some q).

Lemma count_child_default q r counts :
  default 0%nat (count_child r counts !! q)
  = ((if child_of q r then 1 else 0) + default 0%nat (counts !! q))%nat.
Proof.
  unfold count_child, child_of. destruct (r_parent_run_id r) as [p|]; [|done].
  destruct (decide (p = q)) as [->|Hne].
  - by rewrite lookup_insert_eq, bool_decide_eq_true_2.
  - rewrite lookup_insert_ne, bool_decide_eq_false_2 by congruence. done.
Qed.

Lemma child_counts_spec records q :
  default 0%nat (child_counts records !! q) = count_values (child_of q) records.
Proof.
  unfold child_counts. revert q.
  apply (map_fold_weak_ind (fun counts m => forall q,
           default 0%nat (counts !! q) = count_values (child_of q) m)); [done|].
  intros id r m counts Hid IH q. rewrite count_child_default, IH.
  by rewrite count_insert_new.
Qed.

Section Prune.
Context {T : Chrono} {U : UuidText} {P : UuidParse U}.
Variable s : Inner.
Hypothesis Hs : inv s.

Let reserved := reserved_roots (in_tree_reservations s).
Let terminal : gset TurnRunId := list_to_set (in_terminal_runs s).
Let max := max_terminal_records (in_limits s).

Record prune_ok (p : prune_state) : Prop := {
  pk_sub : pr_records p ⊆ in_records s;
  pk_gone : forall id r, in_records s !! id = Some r -> pr_records p !! id = None ->
    ~ live r /\ r_claimed_child_reservation_released r <> Some false /\ (id ∉ reserved)
    /\ forall j c, pr_records p !! j = Some c -> r_parent_run_id c <> Some id;
  pk_admission : forall id, pr_admission p !! id
    = match pr_records p !! id with
      | Some _ => in_admission_reservations s !! id
      | None => None
      end;
  pk_counts : forall q, default 0%nat (pr_counts p !! q) = count_values (child_of q) (pr_records p);
  pk_heap : forall c id, (c, id) ∈ pr_heap p ->
    (id ∉ reserved) /\ count_values (child_of id) (pr_records p) = 0%nat
    /\ exists r, prunable_record (pr_records p) id = Some r /\ c = r_event_cursor r;
  pk_nodup : NoDup (pr_heap p).*2 }.

Lemma prunable_some records id r :
  prunable_record records id = Some r <->
  records !! id = Some r /\ ~ live r /\ r_claimed_child_reservation_released r <> Some false.
Proof.
  unfold prunable_record, live. destruct (records !! id) as [x|]; simpl; [|split; [done | by intros []]].
  destruct (is_terminal (r_status x)) eqn:Ht; simpl.
  - case_bool_decide as Hm; simpl; split; intros H; try done.
    + destruct H as ([= ->] & _ & []). done.
    + injection H as ->. by rewrite Ht.
    + by destruct H as ([= ->] & _).
  - split; [done|]. intros ([= ->] & [] & _). done.
Qed.

Lemma push_eligible_ok records admission counts h id :
  prune_ok (mk_prune_state records admission counts h) -> (id ∉ h.*2) ->
  prune_ok (mk_prune_state records admission counts (push_eligible reserved records counts h id)).
Proof.
  intros Hp Hid. unfold push_eligible. case_bool_decide as Hres; [done|].
  case_bool_decide as Hc; [|done]. simpl.
  destruct (prunable_record records id) as [r|] eqn:Hr; [|done].
  destruct Hp as [H1 H2 H3 H4 H5 H6]. split; try done; simpl in *.
  - intros c j Hj. rewrite heap_push_perm in Hj. apply elem_of_cons in Hj as [[= -> ->]|Hj]; [|eauto].
    split; [done|]. split; [|eauto]. by rewrite <- H4.
  - rewrite heap_push_perm. simpl. by constructor.
Qed.

Lemma push_eligible_ids records counts h id :
  (push_eligible reserved records counts h id).*2 ⊆ id :: h.*2.
Proof.
  unfold push_eligible. repeat (case_bool_decide; simpl; try set_solver).
  destruct (prunable_record records id); [|set_solver]. rewrite heap_push_perm. simpl. set_solver.
Qed.

Lemma push_eligible_fold records admission counts l h :
  prune_ok (mk_prune_state records admission counts h) -> NoDup l -> (forall id, id ∈ l -> id ∉ h.*2) ->
  prune_ok (mk_prune_state records admission counts
              (foldl (push_eligible reserved records counts) h l)).
Proof.
  revert h. induction l as [|id l IH]; intros h Hp Hnd Hdis; simpl; [done|].
  apply NoDup_cons in Hnd as [Hid Hnd]. apply IH; [|done|].
  - apply push_eligible_ok; [done|]. apply Hdis. by left.
  - intros j Hj Hin. apply push_eligible_ids in Hin. apply elem_of_cons in Hin as [->|Hin]; [done|].
    apply (Hdis j); [by right | done].
Qed.

Lemma prune_empty_ok :
  prune_ok (mk_prune_state (in_records s) (in_admission_reservations s)
              (child_counts (in_records s)) []).
Proof.
  split; simpl; try done.
  - intros id r Hr Hn. congruence.
  - intros id. destruct (in_records s !! id) as [r|] eqn:Hr; [done|].
    by rewrite (inv_admission _ Hs), lookup_fmap, Hr.
  - intros q. apply child_counts_spec.
  - by intros c id ?%elem_of_nil.
  - constructor.
Qed.

Lemma prune_start_ok : prune_ok (prune_start s).
Proof.
  apply push_eligible_fold; [apply prune_empty_ok|apply NoDup_remove_dups|].
  intros ? _. apply not_elem_of_nil.
Qed.

Lemma count_none_parent (records : gmap TurnRunId RunRecord) q :
  count_values (child_of q) records = 0%nat ->
  forall j c, records !! j = Some c -> r_parent_run_id c <> Some q.
Proof.
  intros H0 j c Hj Hpar. assert (0 < count_values (child_of q) records)%nat; [|lia].
  eapply count_pos; [done|]. unfold child_of. by apply bool_decide_eq_true_2.
Qed.

(** Removing the leaf at the top of the heap keeps everything but the counts. *)
Lemma remove_leaf records admission counts c id h record :
  prune_ok (mk_prune_state records admission counts ((c, id) :: h)) -> records !! id = Some record ->
  forall counts', (forall q, default 0%nat (counts' !! q)
                             = count_values (child_of q) (delete id records)) ->
  prune_ok (mk_prune_state (delete id records) (delete id admission) counts' h).
Proof.
  intros [H1 H2 H3 H4 H5 H6] Hrec counts' Hcounts. simpl in *.
  destruct (H5 c id) as (Hres & H0 & r & Hr & _); [by left|].
  apply prunable_some in Hr as (Hr & Hl & Hm). apply NoDup_cons in H6 as [Hid H6].
  split; simpl; try done.
  - etrans; [apply delete_subseteq | done].
  - intros j x Hx [-> |Hj]%lookup_delete_None.
    + assert (in_records s !! j = Some r) as Hjr by by eapply lookup_weaken.
      replace x with r by congruence. split_and!; try done.
      intros k y [_ Hy]%lookup_delete_Some. by eapply count_none_parent.
    + destruct (H2 j x Hx Hj) as (? & ? & ? & Hch). split_and!; try done.
      intros k y [_ Hy]%lookup_delete_Some. by eapply Hch.
  - intros j. same_or_other j id; [done|]. apply H3.
  - intros c' j Hj. destruct (H5 c' j) as (Hres' & H0' & x & Hx & Hc'); [by right|].
    assert (j <> id) as Hne.
    { intros ->. apply Hid. apply list_elem_of_fmap. by exists (c', id). }
    split; [done|]. split.
    + rewrite (count_delete _ records id record Hrec) in H0'. lia.
    + exists x. split; [|done]. apply prunable_some in Hx as (Hx & ? & ?). apply prunable_some.
      by rewrite lookup_delete_ne.
Qed.

Lemma prune_round_ok p p' :
  prune_ok p -> prune_round max reserved terminal p = Some p' ->
  prune_ok p' /\ (prune_fuel p' < prune_fuel p)%nat.
Proof.
  intros Hp. unfold prune_round. case_bool_decide; [done|].
  destruct p as [records admission counts [|[c id] h]]; simpl; [done|].
  destruct (pk_heap _ Hp c id) as (_ & _ & r & Hr & _); [by left|]. simpl in Hr.
  apply prunable_some in Hr as (Hr & _ & _). rewrite Hr.
  pose proof (pk_counts _ Hp) as Hcounts. simpl in Hcounts.
  assert (size (delete id records) < size records)%nat as Hsize.
  { rewrite map_size_delete, Hr. pose proof (map_size_ne_0_lookup_2 records id).
    destruct (size records) eqn:E; [|lia]. apply map_size_empty_inv in E. subst. by rewrite lookup_empty in Hr. }
  destruct (r_parent_run_id r) as [q|] eqn:Hq.
  - pose proof (Hcounts q) as Hcq. rewrite (count_delete _ records id r Hr) in Hcq.
    unfold child_of in Hcq at 1. rewrite bool_decide_eq_true_2 in Hcq by done.
    destruct (counts !! q) as [n|] eqn:Hn; simpl in Hcq; [|lia].
    assert (forall k, default 0%nat (<[q := (n - 1)%nat]> counts !! k)
                      = count_values (child_of k) (delete id records)) as Hc'.
    { intros k. same_or_other k q; simpl; [lia|]. rewrite Hcounts, (count_delete _ records id r Hr).
      unfold child_of at 1. rewrite bool_decide_eq_false_2 by congruence. done. }
    pose proof (remove_leaf _ _ _ _ _ _ _ Hp Hr _ Hc') as Hok.
    intros [= <-]. unfold prune_fuel. simpl.
    destruct (bool_decide _ && bool_decide _); [|split; [done | lia]]. split.
    + apply push_eligible_ok; [done|]. intros ([c' j] & -> & Hj)%list_elem_of_fmap.
      destruct (pk_heap _ Hp c' j) as (_ & H0 & _); [by right|]. simpl in H0.
      by apply (count_none_parent _ _ H0 id r).
    + unfold push_eligible. repeat case_bool_decide; simpl; try lia.
      destruct (prunable_record _ _); [|lia]. rewrite heap_push_perm. simpl. lia.
  - intros [= <-]. unfold prune_fuel. simpl. split; [|lia].
    apply (remove_leaf _ _ _ _ _ _ _ Hp Hr). intros k. rewrite Hcounts, (count_delete _ records id r Hr).
    unfold child_of at 1. rewrite bool_decide_eq_false_2 by congruence. done.
Qed.

(** With the fuel of the model the loop ends by its own condition. *)
Lemma prune_loop_ok fuel p :
  prune_ok p -> (prune_fuel p <= fuel)%nat ->
  prune_ok (prune_loop max reserved terminal fuel p)
  /\ prune_round max reserved terminal (prune_loop max reserved terminal fuel p) = None.
Proof.
  revert p. induction fuel as [|fuel IH]; intros p Hp Hf; simpl.
  - split; [done|]. destruct (prune_round max reserved terminal p) as [p'|] eqn:Hr; [|done].
    apply prune_round_ok in Hr as [_ ?]; [lia | done].
  - destruct (prune_round max reserved terminal p) as [p'|] eqn:Hr; [|done].
    apply prune_round_ok in Hr as [Hp' ?]; [|done]. apply IH; [done | lia].
Qed.

(** *** The heap holds every prunable leaf *)

Definition prunable_leaf (records : gmap TurnRunId RunRecord) (id : TurnRunId) : Prop :=
  (id ∉ reserved) /\ count_values (child_of id) records = 0%nat
  /\ is_Some (prunable_record records id).

Definition complete (records : gmap TurnRunId RunRecord) (h : list heap_entry)
    (rest : list TurnRunId) : Prop :=
  forall id, prunable_leaf records id -> id ∈ h.*2 \/ id ∈ rest.

Lemma push_eligible_complete records admission counts h id rest :
  prune_ok (mk_prune_state records admission counts h) -> complete records h (id :: rest) ->
  complete records (push_eligible reserved records counts h id) rest.
Proof.
  intros Hp Hc j Hj. destruct (Hc j Hj) as [Hin|[-> |Hin]%elem_of_cons]; [left|left|by right].
  - unfold push_eligible. do 2 (case_bool_decide; simpl; try done).
    destruct (prunable_record records id); [|done]. rewrite heap_push_perm. by right.
  - destruct Hj as (Hres & H0 & [r Hr]). unfold push_eligible.
    pose proof (pk_counts _ Hp id) as Hcnt. simpl in Hcnt.
    rewrite bool_decide_eq_false_2, Hcnt, bool_decide_eq_true_2, Hr by done. simpl.
    rewrite heap_push_perm. by left.
Qed.

Lemma push_eligible_complete_fold records admission counts l h :
  prune_ok (mk_prune_state records admission counts h) -> NoDup l -> (forall id, id ∈ l -> id ∉ h.*2) ->
  complete records h l ->
  complete records (foldl (push_eligible reserved records counts) h l) [].
Proof.
  revert h. induction l as [|id l IH]; intros h Hp Hnd Hdis Hc; simpl; [done|].
  apply NoDup_cons in Hnd as [Hid Hnd]. apply IH; [|done| |by eapply push_eligible_complete].
  - apply push_eligible_ok; [done|]. apply Hdis. by left.
  - intros j Hj Hin. apply push_eligible_ids in Hin. apply elem_of_cons in Hin as [->|Hin]; [done|].
    apply (Hdis j); [by right | done].
Qed.

Lemma prune_start_complete : complete (pr_records (prune_start s)) (pr_heap (prune_start s)) [].
Proof.
  apply (push_eligible_complete_fold _ (in_admission_reservations s));
    [|apply NoDup_remove_dups|intros ? _; apply not_elem_of_nil|].
  - apply prune_empty_ok.
  - intros id (_ & _ & [r Hr]). right. apply elem_of_remove_dups.
    apply prunable_some in Hr as (Hr & Hl & _). apply (proj2 (inv_terminal _ Hs)). eauto.
Qed.

Lemma leaf_after_remove (records : gmap TurnRunId RunRecord) id r j :
  records !! id = Some r -> prunable_leaf (delete id records) j ->
  prunable_leaf records j /\ j <> id \/ r_parent_run_id r = Some j.
Proof.
  intros Hr (Hres & H0 & [x Hx]). apply prunable_some in Hx as ([Hne Hx]%lookup_delete_Some & Hx').
  destruct (decide (r_parent_run_id r = Some j)) as [|Hpar]; [by right | left].
  split; [|done]. split; [done|]. split.
  - rewrite (count_delete _ records id r Hr), H0. unfold child_of. by rewrite bool_decide_eq_false_2.
  - exists x. by apply prunable_some.
Qed.

Lemma prune_round_complete p p' :
  prune_ok p -> complete (pr_records p) (pr_heap p) [] ->
  prune_round max reserved terminal p = Some p' -> complete (pr_records p') (pr_heap p') [].
Proof.
  intros Hp Hc Hround. pose proof (prune_round_ok p p' Hp Hround) as [Hp' _]. revert Hround.
  unfold prune_round. case_bool_decide; [done|].
  destruct p as [records admission counts [|[c id] h]]; simpl in *; [done|].
  destruct (pk_heap _ Hp c id) as (_ & _ & r & Hr & _); [by left|]. simpl in Hr.
  apply prunable_some in Hr as (Hr & _ & _). rewrite Hr.
  assert (forall j, prunable_leaf records j -> j <> id -> j ∈ h.*2) as Hold.
  { intros j Hj Hne. by destruct (Hc j Hj) as [[ |]%elem_of_cons|?%elem_of_nil]. }
  pose proof (pk_counts _ Hp) as Hcounts. simpl in Hcounts.
  destruct (r_parent_run_id r) as [q|] eqn:Hq.
  - pose proof (Hcounts q) as Hcq. rewrite (count_delete _ records id r Hr) in Hcq.
    unfold child_of in Hcq at 1. rewrite bool_decide_eq_true_2 in Hcq by done.
    destruct (counts !! q) as [n|] eqn:Hn; simpl in Hcq; [|lia].
    intros [= <-]. simpl in *. intros j Hj. left.
    destruct (leaf_after_remove records id r j Hr Hj) as [[Hj' Hne]|Hpar].
    + destruct (bool_decide _ && bool_decide _); [|by apply Hold].
      unfold push_eligible. do 2 (case_bool_decide; simpl; try by apply Hold).
      destruct (prunable_record _ q); [|by apply Hold]. rewrite heap_push_perm. right. by apply Hold.
    + rewrite Hq in Hpar. injection Hpar as ->. destruct Hj as (Hres & H0 & [x Hx]).
      rewrite bool_decide_eq_true_2 by lia. rewrite bool_decide_eq_true_2.
      * simpl. unfold push_eligible. rewrite bool_decide_eq_false_2 by done.
        rewrite lookup_insert_eq. simpl. rewrite bool_decide_eq_true_2 by lia. simpl. rewrite Hx.
        rewrite heap_push_perm. by left.
      * apply prunable_some in Hx as ([_ Hx]%lookup_delete_Some & Hl & _).
        apply elem_of_list_to_set, (proj2 (inv_terminal _ Hs)). exists x.
        split; [|done]. by eapply lookup_weaken, (pk_sub _ Hp).
  - intros [= <-]. simpl. intros j Hj. left.
    destruct (leaf_after_remove records id r j Hr Hj) as [[Hj' Hne]|Hpar]; [by apply Hold|congruence].
Qed.

Lemma prune_loop_complete fuel p :
  prune_ok p -> complete (pr_records p) (pr_heap p) [] ->
  let p' := prune_loop max reserved terminal fuel p in complete (pr_records p') (pr_heap p') [].
Proof.
  revert p. induction fuel as [|fuel IH]; intros p Hp Hc; simpl; [done|].
  destruct (prune_round max reserved terminal p) as [p'|] eqn:Hr; [|done].
  apply IH; [by eapply prune_round_ok | by eapply prune_round_complete].
Qed.

Lemma prune_bounded (ids : list TurnRunId) :
  NoDup ids -> (forall id, id ∈ ids -> prunable_leaf (in_records (prune_terminal_records s)) id) ->
  (length ids <= max)%nat.
Proof.
  intros Hnd Hids. unfold prune_terminal_records in Hids. revert Hids. case_bool_decide as Hlen.
  - intros Hids. transitivity (length (in_terminal_runs s)); [|done].
    apply submseteq_length, NoDup_submseteq; [done|]. intros id (_ & _ & [r Hr])%Hids.
    apply prunable_some in Hr as (Hr & Hl & _). apply (proj2 (inv_terminal _ Hs)). eauto.
  - simpl. fold max reserved terminal. intros Hids.
    destruct (prune_loop_ok (prune_fuel (prune_start s)) (prune_start s) prune_start_ok)
      as [Hok Hend]; [done|].
    pose proof (prune_loop_complete (prune_fuel (prune_start s)) _ prune_start_ok
                  prune_start_complete) as Hc. simpl in Hc.
    set (p := prune_loop max reserved terminal _ _) in *.
    transitivity (length (pr_heap p).*2)%nat.
    + apply submseteq_length, NoDup_submseteq; [done|].
      intros id Hid. by destruct (Hc id (Hids id Hid)) as [|?%elem_of_nil].
    + rewrite length_fmap. unfold prune_round in Hend. case_bool_decide as Hm; [done|].
      destruct (pr_heap p) as [|[c id] h] eqn:Hh; [simpl in Hm; lia|].
      destruct (pk_heap _ Hok c id) as (_ & _ & r & Hr & _); [rewrite Hh; by left|].
      apply prunable_some in Hr as (Hr & _). rewrite Hr in Hend.
      destruct (r_parent_run_id r); [|done]. by destruct (pr_counts p !! _).
Qed.

Lemma prune_pruned : pruned s (prune_terminal_records s).
Proof.
  unfold prune_terminal_records. case_bool_decide as Hlen.
  - split; try done; [congruence | |].
    + intros id. destruct (in_records s !! id) as [r|] eqn:Hr; [done|].
      by rewrite (inv_admission _ Hs), lookup_fmap, Hr.
    + symmetry. apply filter_all. intros i id Hi%list_elem_of_lookup_2.
      apply (proj2 (inv_terminal _ Hs)) in Hi as (r & Hr & _). apply bool_decide_eq_true_2. by exists r.
  - destruct (prune_loop_ok (prune_fuel (prune_start s)) (prune_start s) prune_start_ok) as [[]_];
      [done|]. by split.
Qed.

End Prune.
