(* ===== verification/TurnSteps.v ===== *)
(** * Turns: every operation is a sequence of permitted changes

    The specification of the turn store ([change]): a run is admitted, moves between
    live statuses or to a terminal one for a [cause] that permits it, terminal
    leaves are pruned, or the spawn-tree reservations change.  Every critical
    section of [TurnStore] is shown to be a sequence of such changes, so what holds
    of the changes holds of the store; the invariants are the first instance. *)

From S2P Require Import Prelude Effects External HostIds HostTypes Dispatch RunProfile TurnTypes.
From S2P Require Import TurnStore TurnSnapshot TurnExec TurnInvariants TurnPrune.
Open Scope Z_scope.

Section Steps.
Context {T : Chrono} {U : UuidText} {P : UuidParse U}.
Implicit Types (r : RunRecord) (s : Inner).

(** ** The specification *)

(** Who moves a run: a runner that claims it from the queue, the runner that holds
    its lease, its owner, or the recovery of an expired lease. *)
Inductive cause : Type :=
| ByClaim (runner : TurnRunnerId) (lease : TurnLeaseToken)
| ByRunner (runner : TurnRunnerId) (lease : TurnLeaseToken) (now : TurnTimestamp)
| ByOwner (actor : TurnActor)
| ByExpiry (now : TurnTimestamp).

(** The moves of the runner that holds the lease. *)
Definition runner_moves r (to : TurnStatus) : bool :=
  match r_status r, to with
  | Running, (Running | Completed | Failed) => true
  | Running, (Queued | BlockedApproval | BlockedResource | BlockedDependentRun) =>
      negb (has_native r)
  | Running, BlockedAuth => true
  | BlockedAuth, (BlockedAuth | Completed | Failed) => native_waiting r
  | CancelRequested, Cancelled => true
  | CancelRequested, Failed => has_native r
  | _, _ => false
  end.

(** The moves of the owner: resume and cancel. *)
Definition owner_moves r (to : TurnStatus) : bool :=
  match r_status r, to with
  | (BlockedApproval | BlockedAuth | BlockedResource | BlockedDependentRun), Queued =>
      negb (has_native r)
  | BlockedAuth, (Running | CancelRequested) => native_waiting r
  | (Queued | BlockedApproval | BlockedResource | BlockedDependentRun), Cancelled => true
  | BlockedAuth, Cancelled => negb (native_waiting r)
  | (Running | CancelRequested), CancelRequested => true
  | _, _ => false
  end.

Definition permitted (c : cause) r r' : Prop :=
  match c with
  | ByClaim runner lease =>
      r_status r = Queued /\ r_status r' = Running
      /\ r_runner_id r' = Some runner /\ r_lease_token r' = Some lease
  | ByRunner runner lease now =>
      r_runner_id r = Some runner /\ r_lease_token r = Some lease
      /\ (forall e, r_lease_expires_at r = Some e -> now < e)
      /\ runner_moves r (r_status r') = true
  | ByOwner actor => r_actor r = actor /\ owner_moves r (r_status r') = true
  | ByExpiry now =>
      leased r = true /\ (exists e, r_lease_expires_at r = Some e /\ e <= now)
      /\ r_status r' = eo_status (expired_lease_terminal_outcome (r_status r) (has_native r))
  end.

(** What an operation is entitled to: the causes for which it may move which record to
    which. *)
Definition authority : Type := cause -> RunRecord -> RunRecord -> Prop.

(** No move at all. *)
Definition nobody : authority := fun _ _ _ => False.

(** The run of a request, moved by the runner and the lease the request names, under a
    condition on the statuses. *)
Definition by_lease (run : TurnRunId) (runner : TurnRunnerId) (lease : TurnLeaseToken)
    (now : TurnTimestamp) (moves : TurnStatus -> TurnStatus -> Prop) : authority :=
  fun c r r' => c = ByRunner runner lease now /\ r_run_id r = run /\ moves (r_status r) (r_status r').

Definition by_lease_ref (req : LeaseRef) : TurnTimestamp -> (TurnStatus -> TurnStatus -> Prop) -> authority :=
  by_lease (lr_run_id req) (lr_runner_id req) (lr_lease_token req).

Definition stays (from to : TurnStatus) : Prop := to = from.
Definition ends_in (l : list TurnStatus) (from to : TurnStatus) : Prop := to ∈ l.

Definition granted (au : authority) (c : cause) r r' : Prop := au c r r' /\ permitted c r r'.

Inductive change (au : authority) s s' : Prop :=
| ch_retree : retree s s' -> change au s s'
| ch_pruned : pruned s s' -> change au s s'
| ch_admitted r : admitted s s' r -> change au s s'
| ch_live c r r' :
    in_records s !! r_run_id r = Some r -> live r -> live r' -> same_run r r' -> run_ok r' ->
    granted au c r r' -> live_move s s' r r' -> change au s s'
| ch_final c r r' :
    in_records s !! r_run_id r = Some r -> live r -> ~ live r' -> same_run r r' -> run_ok r' ->
    granted au c r r' -> final_move s s' r r' -> change au s s'.

Lemma change_inv {au} s s' : inv s -> change au s s' -> inv s'.
Proof.
  intros Hs [Hc|Hc|r Hc|c r r' Hr Hl Hl' Hsame Hok _ Hc|c r r' Hr Hl Hl' Hsame Hok _ Hc].
  - by eapply inv_retree.
  - by eapply inv_pruned.
  - by eapply inv_admitted.
  - by eapply inv_live.
  - by eapply inv_final.
Qed.

Definition changes (au : authority) : Inner -> Inner -> Prop := rtc (change au).

Lemma changes_inv {au} s s' : inv s -> changes au s s' -> inv s'.
Proof. intros Hs H. induction H as [|s s1 s' Hc _ IH]; [done|]. by apply IH, (change_inv (au := au) s). Qed.

(** What is done with less authority is done with more. *)
Lemma changes_mono (au au' : authority) s s' :
  (forall c r r', au c r r' -> au' c r r') -> changes au s s' -> changes au' s s'.
Proof.
  intros Hau. assert (forall c r r', granted au c r r' -> granted au' c r r') as Hg.
  { intros c r r' [Ha Hp]. split; [by apply Hau | done]. }
  apply rtc_congruence with (f := fun s => s). intros s1 s2
    [Hc|Hc|r Hc|c r r' Hr Hl Hl' Hsame Hok Hp Hc|c r r' Hr Hl Hl' Hsame Hok Hp Hc].
  - by apply ch_retree.
  - by apply ch_pruned.
  - by eapply ch_admitted.
  - eapply ch_live; eauto.
  - eapply ch_final; eauto.
Qed.

(** ** The small steps as updates of one field *)

Definition lock_update r (now : TurnTimestamp)
    (locks : gmap TurnActiveLockKey TurnActiveLockRecord) :=
  match locks !! r_scope r with
  | Some lock =>
      if bool_decide (lk_run_id lock = r_run_id r)
      then <[r_scope r := mk_TurnActiveLockRecord (lk_key lock) (lk_run_id lock) (r_status r)
               (lock_version_incremented (lk_lock_version lock)) (lk_acquired_at lock) now]> locks
      else locks
  | None => locks
  end.
Definition lock_touch r (now : TurnTimestamp)
    (locks : gmap TurnActiveLockKey TurnActiveLockRecord) :=
  match locks !! r_scope r with
  | Some lock =>
      if bool_decide (lk_run_id lock = r_run_id r)
      then <[r_scope r := mk_TurnActiveLockRecord (lk_key lock) (lk_run_id lock) (lk_status lock)
               (lk_lock_version lock) (lk_acquired_at lock) now]> locks
      else locks
  | None => locks
  end.
Definition lock_release r (locks : gmap TurnActiveLockKey TurnActiveLockRecord) :=
  match locks !! r_scope r with
  | Some lock => if bool_decide (lk_run_id lock = r_run_id r) then delete (r_scope r) locks else locks
  | None => locks
  end.

Lemma with_locks_id s : with_locks (in_active_locks s) s = s.
Proof. by destruct s. Qed.
Lemma update_active_lock_eq r now s :
  update_active_lock r now s = with_locks (lock_update r now (in_active_locks s)) s.
Proof.
  unfold update_active_lock, lock_update. destruct (in_active_locks s !! r_scope r) as [l|].
  - destruct (bool_decide _); [done|]. by rewrite with_locks_id.
  - by rewrite with_locks_id.
Qed.
Lemma touch_active_lock_eq r now s :
  touch_active_lock r now s = with_locks (lock_touch r now (in_active_locks s)) s.
Proof.
  unfold touch_active_lock, lock_touch. destruct (in_active_locks s !! r_scope r) as [l|].
  - destruct (bool_decide _); [done|]. by rewrite with_locks_id.
  - by rewrite with_locks_id.
Qed.
Lemma release_active_lock_eq r s :
  release_active_lock r s = with_locks (lock_release r (in_active_locks s)) s.
Proof.
  unfold release_active_lock, lock_release. destruct (in_active_locks s !! r_scope r) as [l|].
  - destruct (bool_decide _); [done|]. by rewrite with_locks_id.
  - by rewrite with_locks_id.
Qed.

(** Taking a record out and putting the same one back changes nothing. *)
Lemma put_taken s r :
  in_records s !! r_run_id r = Some r ->
  put_record r (with_records (delete (r_run_id r) (in_records s)) s) = s.
Proof.
  intros Hr. unfold put_record. simpl. rewrite insert_delete_eq, insert_id by done. by destruct s.
Qed.

Lemma pushed s s1 s' r' kind reason now :
  in_cursor s' = Z.min (in_cursor s + 1) u64_max -> r_event_cursor r' = in_cursor s' ->
  in_events s1 = in_events s -> in_event_retention_floor s1 = in_event_retention_floor s ->
  in_events s' = in_events (push_event r' kind reason now s1) ->
  in_event_retention_floor s' = in_event_retention_floor (push_event r' kind reason now s1) ->
  logged s s' r'.
Proof.
  intros Hc Hr' He1 Hf1 He Hf. unfold push_event in He, Hf. simpl in He, Hf.
  rewrite He1 in He, Hf. rewrite Hf1 in Hf.
  match type of He with _ = drop ?n (_ ++ [?e]) => exists e; set (k := n) in *; set (ev := e) in * end.
  split; [exact Hc|]. split; [exact Hr'|]. split; [exact Hr'|]. do 3 (split; [done|]).
  exists k. split; [done|].
  rewrite Hf. case_bool_decide as Hk; [by rewrite Hk|].
  assert (k <= length (in_events s ++ [ev]))%nat as Hle by (unfold k; lia).
  rewrite last_lookup, length_take, Nat.min_l by lia.
  rewrite lookup_take_lt by lia. by replace (k - 1)%nat with (pred k) by lia.
Qed.

(** ** Moves of one record *)

Section Move.
Variables (s : Inner) (r : RunRecord).
Hypothesis Hs : inv s.
Hypothesis Hr : in_records s !! r_run_id r = Some r.

Lemma own_lock : live r ->
  exists l, in_active_locks s !! r_scope r = Some l /\ lk_key l = r_scope r
    /\ lk_run_id l = r_run_id r /\ lk_status l = r_status r.
Proof.
  intros Hl. destruct (lo_live _ _ (inv_locks _ Hs) _ _ Hr Hl) as (l & Hk & Hrun & Hst).
  exists l. split; [done|]. split; [|done]. by apply (lo_lock _ _ (inv_locks _ Hs)).
Qed.

(** The effect of a move on the queue. *)
Definition queue_after (r' : RunRecord) (queue' : list TurnRunId) : Prop :=
  NoDup queue' /\ forall id, id ∈ queue' <->
    (id = r_run_id r /\ r_status r' = Queued) \/ (id <> r_run_id r /\ id ∈ in_queued_runs s).

Lemma not_queued : r_status r <> Queued -> r_run_id r ∉ in_queued_runs s.
Proof. intros Hq (x & Hx & Hst)%(proj2 (inv_queue _ Hs)). congruence. Qed.

Lemma queue_stays r' :
  r_status r <> Queued -> r_status r' <> Queued -> queue_after r' (in_queued_runs s).
Proof.
  intros H1%not_queued H2. split; [apply (inv_queue _ Hs)|]. intros id.
  split; [intros Hid; right; split; congruence | by intros [[_ ?]|[_ ?]]].
Qed.

Lemma queue_pushed r' :
  r_status r <> Queued -> r_status r' = Queued ->
  queue_after r' (in_queued_runs s ++ [r_run_id r]).
Proof.
  intros H1%not_queued H2. split.
  - apply NoDup_app. split_and!; [apply (inv_queue _ Hs) | | apply NoDup_singleton].
    intros x Hx ->%list_elem_of_singleton. done.
  - intros id. rewrite elem_of_app, list_elem_of_singleton. split.
    + intros [Hid| ->]; [right; split; congruence | by left].
    + intros [[-> _]|[_ ?]]; [by right | by left].
Qed.

(** The lock of the run after a move. *)
Definition lock_after (r' : RunRecord) (locks' : gmap TurnActiveLockKey TurnActiveLockRecord) : Prop :=
  exists l, locks' = <[r_scope r := l]> (in_active_locks s)
    /\ lk_key l = r_scope r /\ lk_run_id l = r_run_id r /\ lk_status l = r_status r'.

Lemma lock_updated r' now :
  live r -> same_run r r' -> lock_after r' (lock_update r' now (in_active_locks s)).
Proof.
  intros Hl Hsame. destruct (own_lock Hl) as (l & Hk & Hkey & Hrun & _). unfold lock_update.
  rewrite (sr_scope _ _ Hsame), Hk, (sr_run _ _ Hsame), bool_decide_eq_true_2 by done.
  by eexists.
Qed.

Lemma lock_touched r' now :
  live r -> same_run r r' -> r_status r' = r_status r ->
  lock_after r' (lock_touch r' now (in_active_locks s)).
Proof.
  intros Hl Hsame Hst. destruct (own_lock Hl) as (l & Hk & Hkey & Hrun & Hls). unfold lock_touch.
  rewrite (sr_scope _ _ Hsame), Hk, (sr_run _ _ Hsame), bool_decide_eq_true_2 by done.
  eexists. split; [done|]. simpl. by rewrite Hst.
Qed.

Lemma live_step {au} c s' s1 r' kind reason now :
  live r -> live r' -> same_run r r' -> run_ok r' -> granted au c r r' ->
  in_records s' = <[r_run_id r' := r']> (delete (r_run_id r) (in_records s)) ->
  in_turns s' = in_turns s -> in_tree_reservations s' = in_tree_reservations s ->
  in_limits s' = in_limits s -> in_terminal_runs s' = in_terminal_runs s ->
  in_admission_reservations s' = in_admission_reservations s ->
  lock_after r' (in_active_locks s') -> queue_after r' (in_queued_runs s') ->
  in_cursor s' = Z.min (in_cursor s + 1) u64_max -> r_event_cursor r' = in_cursor s' ->
  in_events s1 = in_events s -> in_event_retention_floor s1 = in_event_retention_floor s ->
  in_events s' = in_events (push_event r' kind reason now s1) ->
  in_event_retention_floor s' = in_event_retention_floor (push_event r' kind reason now s1) ->
  change au s s'.
Proof.
  intros Hl Hl' Hsame Hok Hp Hrec Ht Htr Hlim Hterm Hadm Hlk Hq Hc Hrc He1 Hf1 He Hf.
  apply (ch_live au s s' c r r'); try done. split; try done.
  - split; try done.
    + rewrite Hrec. rewrite (sr_run _ _ Hsame). apply insert_delete_eq.
    + right. by eapply pushed.
Qed.

(** A move that records no event and keeps the status. *)
Lemma touch_step {au} c s' r' :
  live r -> r_status r' = r_status r -> r_status r <> Queued -> same_run r r' -> run_ok r' ->
  granted au c r r' -> r_event_cursor r' = r_event_cursor r ->
  in_records s' = <[r_run_id r' := r']> (delete (r_run_id r) (in_records s)) ->
  in_turns s' = in_turns s -> in_tree_reservations s' = in_tree_reservations s ->
  in_limits s' = in_limits s -> in_terminal_runs s' = in_terminal_runs s ->
  in_admission_reservations s' = in_admission_reservations s ->
  lock_after r' (in_active_locks s') ->
  in_queued_runs s' = in_queued_runs s -> in_cursor s' = in_cursor s ->
  in_events s' = in_events s -> in_event_retention_floor s' = in_event_retention_floor s ->
  change au s s'.
Proof.
  intros Hl Hst Hnq Hsame Hok Hp Hrc Hrec Ht Htr Hlim Hterm Hadm Hlk Hq Hc He Hf.
  apply (ch_live au s s' c r r'); try done; [unfold live; by rewrite Hst|]. split; try done.
  - split; try done; [|by left].
    rewrite Hrec. rewrite (sr_run _ _ Hsame). apply insert_delete_eq.
  - rewrite Hq. apply queue_stays; congruence.
Qed.

Lemma final_step {au} c s' s1 r' kind reason now :
  live r -> ~ live r' -> same_run r r' -> run_ok r' -> granted au c r r' ->
  in_records s' = <[r_run_id r' := r']> (delete (r_run_id r) (in_records s)) ->
  in_turns s' = in_turns s -> in_tree_reservations s' = in_tree_reservations s ->
  in_limits s' = in_limits s ->
  in_active_locks s' = lock_release r' (in_active_locks s) ->
  in_queued_runs s' = in_queued_runs (remove_queued_run (r_run_id r') s) ->
  in_terminal_runs s' = in_terminal_runs s ++ [r_run_id r'] ->
  in_admission_reservations s' = in_admission_reservations (release_admission (r_run_id r') s) ->
  in_cursor s' = Z.min (in_cursor s + 1) u64_max -> r_event_cursor r' = in_cursor s' ->
  in_events s1 = in_events s -> in_event_retention_floor s1 = in_event_retention_floor s ->
  in_events s' = in_events (push_event r' kind reason now s1) ->
  in_event_retention_floor s' = in_event_retention_floor (push_event r' kind reason now s1) ->
  change au s s'.
Proof.
  intros Hl Hl' Hsame Hok Hp Hrec Ht Htr Hlim Hlk Hq Hterm Hadm Hc Hrc He1 Hf1 He Hf.
  apply (ch_final au s s' c r r'); try done. pose proof (sr_run _ _ Hsame) as Erun. split.
  - split; try done.
    + rewrite Hrec, Erun. apply insert_delete_eq.
    + right. by eapply pushed.
  - destruct (own_lock Hl) as (l & Hk & Hkey & Hrun & _). unfold lock_release in Hlk.
    by rewrite (sr_scope _ _ Hsame), Hk, Erun, bool_decide_eq_true_2 in Hlk by done.
  - rewrite Hq, Erun. done.
  - by rewrite Hterm, Erun.
  - by rewrite Hadm, Erun.
Qed.

(** *** The lease *)

Lemma lease_held runner lease now :
  ensure_active_lease r runner lease now = Ok () ->
  r_runner_id r = Some runner /\ r_lease_token r = Some lease
  /\ (forall e, r_lease_expires_at r = Some e -> now < e).
Proof.
  unfold ensure_active_lease. case_bool_decide; [|done]. case_bool_decide; [|done]. simpl.
  destruct (r_lease_expires_at r) as [e|]; simpl.
  - destruct (e <=? now) eqn:He; [done|]. intros _. split_and!; try done. intros ? [= <-]. lia.
  - done.
Qed.

Lemma lease_leased runner lease now :
  ensure_active_lease r runner lease now = Ok () -> leased r = true.
Proof.
  intros (_ & Hl & _)%lease_held. apply (ro_lease _ (inv_runs _ Hs _ _ Hr)). by exists lease.
Qed.

End Move.

Lemma leased_live r : leased r = true -> live r /\ r_status r <> Queued.
Proof. unfold leased, live. by destruct (r_status r). Qed.

Lemma with_record_changes {au A} id s (f : RunRecord -> Inner -> RunRecord * Inner * result A TurnError) :
  inv s ->
  (forall r, in_records s !! r_run_id r = Some r -> r_run_id r = id ->
     let s0 := with_records (delete (r_run_id r) (in_records s)) s in
     let '(r', s1, _) := f r s0 in (r' = r /\ s1 = s0) \/ changes au s (put_record r' s1)) ->
  changes au s (with_record id s f).1.
Proof.
  intros Hs Hf. unfold with_record, take_record.
  destruct (in_records s !! id) as [r|] eqn:Hr; simpl; [|done].
  pose proof (inv_keyed _ Hs id r Hr) as Hid. subst id. specialize (Hf r Hr eq_refl). simpl in Hf.
  destruct (f r _) as [[r' s1] res]. simpl.
  destruct Hf as [[-> ->]|Hc]; [|done]. rewrite put_taken by done. done.
Qed.

(** ** The operations of a runner *)

(** The frame of an operation under a lease: after the lease check, [r] is a record
    of the store whose lease is held. *)
Ltac under_lease Hs r Hr :=
  apply with_record_changes; [exact Hs|]; intros r Hr Hid; simpl;
  match goal with
  | |- context [ensure_active_lease r ?runner ?lease ?now] =>
      destruct (ensure_active_lease r runner lease now) as [[]|] eqn:Hlease; [|by left];
      pose proof (lease_held r runner lease now Hlease) as Hheld;
      pose proof (lease_leased _ r Hs Hr runner lease now Hlease) as Hleased;
      pose proof (proj1 (leased_live r Hleased)) as Hlive;
      pose proof (inv_runs _ Hs _ _ Hr) as Hok
  end.

Ltac same := split; reflexivity.

(** [split]s a permission of the lease holder into the move it makes. *)
Lemma by_runner req now (moves : TurnStatus -> TurnStatus -> Prop) r r' :
  r_run_id r = lr_run_id req ->
  r_runner_id r = Some (lr_runner_id req) /\ r_lease_token r = Some (lr_lease_token req)
  /\ (forall e, r_lease_expires_at r = Some e -> now < e) ->
  runner_moves r (r_status r') = true -> moves (r_status r) (r_status r') ->
  granted (by_lease_ref req now moves) (ByRunner (lr_runner_id req) (lr_lease_token req) now) r r'.
Proof. intros ? (? & ? & ?) ? ?. done. Qed.

Lemma heartbeat_changes req now s : inv s -> changes (by_lease_ref req now stays) s (heartbeat req now s).1.
Proof.
  intros Hs. unfold heartbeat. under_lease Hs r Hr.
  destruct (bool_decide (r_status r = Running) || _) eqn:Hst; [|by left].
  rewrite !touch_active_lock_eq.
  assert (runner_moves r (r_status r) = true /\ r_status r <> Queued) as [Hmv Hnq].
  { unfold runner_moves. destruct (r_status r) eqn:E; simpl in Hst;
      rewrite ?andb_false_r in Hst; try done. by rewrite andb_true_r in Hst. }
  set (r1 := set_lease_expires_at _ _).
  assert (run_ok r1) as Hok1.
  { by destruct Hok as [H1 H2 H3 H4 H5]; split. }
  destruct (native_waiting r && _) eqn:Hns; right; apply rtc_once.
  - eapply (touch_step s r Hs Hr (ByRunner _ _ now) _ r1); try done; [by apply by_runner|].
    by apply (lock_touched s r Hs Hr r1).
  - eapply (live_step s r Hr (ByRunner _ _ now) _ _ (set_event_cursor _ r1)
              EkRunnerHeartbeat None now); try reflexivity; try done.
    + destruct Hok1 as [H1 H2 H3 H4 H5]. by split.
    + by apply by_runner.
    + by apply (lock_touched s r Hs Hr r1).
    + simpl. by apply queue_stays.
Qed.

Lemma route_changes req snapshot now s :
  inv s -> changes (by_lease_ref req now stays) s (record_model_route_snapshot req snapshot now s).1.
Proof.
  intros Hs. unfold record_model_route_snapshot. under_lease Hs r Hr.
  case_bool_decide as Hst; [|by left]. simpl.
  destruct (LoopModelRouteSnapshot_validate snapshot); [|by left].
  destruct (r_resolved_model_route r) as [existing|] eqn:Hroute.
  { destruct (bool_decide (existing = snapshot)); by left. }
  right. rewrite touch_active_lock_eq. apply rtc_once. set (r1 := set_route _ r).
  assert (same_run r r1) as Hsame by by split.
  eapply (touch_step s r Hs Hr (ByRunner _ _ now) _ r1); try done.
  - congruence.
  - by destruct Hok as [H1 H2 H3 H4 H5]; split.
  - apply by_runner; [done | done | | done]. simpl. unfold runner_moves. by rewrite Hst.
  - by apply (lock_touched s r Hs Hr r1).
Qed.

(** A record without a lease in a status that needs none. *)
Lemma unleased_ok r' :
  leased r' = false -> r_runner_id r' = None -> r_lease_token r' = None ->
  r_lease_expires_at r' = None ->
  (is_Some (gate_kind_from_status (r_status r')) -> is_Some (r_gate_ref r')) -> native_ok r' ->
  run_ok r'.
Proof.
  intros Hl H1 H2 H3 Hg Hn. split; try done; rewrite Hl, ?H1, ?H2, ?H3;
    split; try done; by intros [? ?].
Qed.

Lemma no_native_ok r : has_native r = false -> native_ok r.
Proof. unfold has_native. intros Hn w Hw. by rewrite Hw in Hn. Qed.

Lemma has_native_false r : has_native r = false -> native_waiting r = false.
Proof. unfold has_native, native_waiting. by destruct (r_native_auth_wait r). Qed.

Lemma block_record_step req s r checkpoint_id state_ref reason now (moves : TurnStatus -> TurnStatus -> Prop) :
  r_run_id r = lr_run_id req -> moves Running (BlockedReason_status reason) -> inv s -> in_records s !! r_run_id r = Some r ->
  ensure_active_lease r (lr_runner_id req) (lr_lease_token req) now = Ok () ->
  has_native r = false -> r_status r = Running ->
  let '(r', s1) := block_record checkpoint_id state_ref reason now r
                     (with_records (delete (r_run_id r) (in_records s)) s) in
  change (by_lease_ref req now moves) s (put_record r' s1).
Proof.
  intros Hid Hmoves Hs Hr Hlease Hnat Hst. simpl. rewrite update_active_lock_eq.
  set (r1 := set_event_cursor _ _). assert (same_run r r1) as Hsame by by split.
  assert (live r) as Hlive by (unfold live; by rewrite Hst).
  eapply (live_step s r Hr (ByRunner (lr_runner_id req) (lr_lease_token req) now) _ _ r1
            EkBlocked None now); try reflexivity; try done.
  - by destruct reason.
  - apply unleased_ok; try done; [|by apply no_native_ok].
    change (leased r1) with (leased (set_status (BlockedReason_status reason) r)).
    unfold leased. simpl. unfold native_waiting. simpl. fold (native_waiting r).
    rewrite (has_native_false r Hnat). by destruct reason.
  - apply by_runner; [done | by apply lease_held | | by rewrite Hst].
    unfold runner_moves. rewrite Hst. simpl. destruct reason; simpl; by rewrite ?Hnat.
  - by apply (lock_updated s r Hs Hr r1).
  - simpl. apply queue_stays; try done; [congruence|]. by destruct reason.
Qed.

Lemma block_run_changes req checkpoint_id state_ref reason now s :
  inv s -> changes (by_lease_ref req now (ends_in [BlockedReason_status reason])) s
             (block_run req checkpoint_id state_ref reason now s).1.
Proof.
  intros Hs. unfold block_run. under_lease Hs r Hr.
  destruct (has_native r) eqn:Hnat; [by left|].
  case_bool_decide as Hst; [|by left]. right. apply rtc_once.
  apply (block_record_step req s r checkpoint_id state_ref reason now); try done. by left.
Qed.

(** ** Transitions to a terminal status *)

Lemma finished_ok r r' :
  run_ok r -> ~ live r' -> r_native_auth_wait r' = r_native_auth_wait r ->
  r_runner_id r' = None -> r_lease_token r' = None -> r_lease_expires_at r' = None -> run_ok r'.
Proof.
  intros Hok Hl Hnat H1 H2 H3.
  assert (is_terminal (r_status r') = true) as Ht by by apply not_false_is_true.
  apply unleased_ok; try done.
  - unfold leased. by destruct (r_status r').
  - by destruct (r_status r'); intros [? ?].
  - intros w. rewrite Hnat. intros Hw. destruct (ro_native _ Hok w Hw) as (Hg & _ & _).
    split; [done|]. split; [|congruence]. by destruct (r_status r').
Qed.

Lemma finish_step {au} c s r status failure kind reason now :
  inv s -> in_records s !! r_run_id r = Some r -> live r -> is_terminal status = true ->
  (forall r', r_status r' = status -> granted au c r r') ->
  let '(r', s1) := finish_record status failure kind reason now r
                     (with_records (delete (r_run_id r) (in_records s)) s) in
  change au s (put_record r' s1).
Proof.
  intros Hs Hr Hlive Hst Hp. simpl. rewrite release_active_lock_eq.
  set (r1 := set_event_cursor _ _). assert (same_run r r1) as Hsame by by split.
  assert (~ live r1) as Hl1 by (unfold live; simpl; congruence).
  eapply (final_step s r Hs Hr c _ _ r1 kind reason now); try reflexivity; try done.
  - by apply (finished_ok r r1 (inv_runs _ Hs _ _ Hr)).
  - by apply Hp.
Qed.

Lemma prune_changes au s s' : inv s -> changes au s s' -> changes au s (prune_terminal_records s').
Proof.
  intros Hs Hc. eapply rtc_r; [exact Hc|]. apply ch_pruned, prune_pruned. by eapply changes_inv.
Qed.

Lemma maybe_prune_changes {au} (b : bool) s s' :
  inv s -> changes au s s' -> changes au s (if b then prune_terminal_records s' else s').
Proof. destruct b; [apply prune_changes | done]. Qed.

(** A move of the lease holder to a terminal status. *)
Lemma runner_finish req s r status failure kind reason now (moves : TurnStatus -> TurnStatus -> Prop) :
  r_run_id r = lr_run_id req -> moves (r_status r) status -> inv s -> in_records s !! r_run_id r = Some r ->
  ensure_active_lease r (lr_runner_id req) (lr_lease_token req) now = Ok () ->
  is_terminal status = true -> runner_moves r status = true ->
  let '(r', s1) := finish_record status failure kind reason now r
                     (with_records (delete (r_run_id r) (in_records s)) s) in
  change (by_lease_ref req now moves) s (put_record r' s1).
Proof.
  intros Hid Hmoves Hs Hr Hlease Hst Hmv.
  apply (finish_step (ByRunner (lr_runner_id req) (lr_lease_token req) now)); try done.
  - apply leased_live. by eapply lease_leased.
  - intros r' Hr'. apply by_runner; [done | by apply lease_held | by rewrite Hr' | by rewrite Hr'].
Qed.

Lemma terminal_transition_changes req status failure kind now s :
  inv s -> (status = Completed \/ status = Failed) ->
  changes (by_lease_ref req now (ends_in [status])) s
    (terminal_transition req status failure kind now s).1.
Proof.
  intros Hs Hst. unfold terminal_transition.
  match goal with |- context [with_record ?id s ?f] =>
    assert (changes (by_lease_ref req now (ends_in [status])) s (with_record id s f).1) as Hc; [|destruct (with_record id s f) as [s' res]] end.
  - under_lease Hs r Hr. destruct (bool_decide _ || _) eqn:Hb; [by left|]. right. apply rtc_once.
    apply (runner_finish req s r status failure kind _ now); try done.
    + by left.
    + by destruct Hst as [-> | ->].
    + unfold leased in Hleased. unfold runner_moves.
      destruct (r_status r), Hst as [-> | ->]; simpl in *; done.
  - by apply maybe_prune_changes.
Qed.

Lemma cancel_run_changes req now s :
  inv s -> changes (by_lease_ref req now (ends_in [Cancelled])) s (cancel_run req now s).1.
Proof.
  intros Hs. unfold cancel_run.
  match goal with |- context [with_record ?id s ?f] =>
    assert (changes (by_lease_ref req now (ends_in [Cancelled])) s (with_record id s f).1) as Hc; [|destruct (with_record id s f) as [s' res]] end.
  - under_lease Hs r Hr. case_bool_decide as Hst; [|by left]. right. apply rtc_once.
    apply (runner_finish req s r Cancelled None EkCancelled None now); try done; [by left|].
    unfold runner_moves. by rewrite Hst.
  - by apply maybe_prune_changes.
Qed.

(** ** Loop exits *)

Definition transition_ok (au : authority) s r (t : Inner * AppliedLoopTransition) : Prop :=
  match t with
  | (s1, Applied r' _ _) => change au s (put_record r' s1)
  | (s1, Rejected r' _) => r' = r /\ s1 = with_records (delete (r_run_id r) (in_records s)) s
  end.

Lemma commit_changes {au} s r t :
  inv s -> in_records s !! r_run_id r = Some r -> transition_ok au s r t ->
  changes au s (commit_transition t).1.
Proof.
  intros Hs Hr. destruct t as [s1 [r' st prune|r' e]]; simpl.
  - intros Hc%rtc_once. by apply maybe_prune_changes.
  - intros [-> ->]. by rewrite put_taken.
Qed.

Section Exit.
Variables (req : LeaseRef) (s : Inner) (r : RunRecord) (now : TurnTimestamp).
Variable targets : list TurnStatus.
Hypothesis Hid : r_run_id r = lr_run_id req.
Hypothesis Hs : inv s.
Hypothesis Hr : in_records s !! r_run_id r = Some r.
Hypothesis Hlease : ensure_active_lease r (lr_runner_id req) (lr_lease_token req) now = Ok ().
Let s0 := with_records (delete (r_run_id r) (in_records s)) s.
Let au := by_lease_ref req now (ends_in targets).

Lemma complete_claimed_ok : Completed ∈ targets -> transition_ok au s r (complete_claimed_record now r s0).
Proof.
  intros Ht. unfold complete_claimed_record. case_bool_decide as Hst; [|done].
  apply (runner_finish req s r Completed None EkCompleted None now); try done.
  unfold runner_moves. by rewrite Hst.
Qed.

Lemma cancel_claimed_ok : Cancelled ∈ targets -> transition_ok au s r (cancel_claimed_record now r s0).
Proof.
  intros Ht. unfold cancel_claimed_record. case_bool_decide as Hst; [|done].
  apply (runner_finish req s r Cancelled None EkCancelled None now); try done.
  unfold runner_moves. by rewrite Hst.
Qed.

Lemma block_claimed_ok checkpoint_id state_ref reason :
  BlockedReason_status reason ∈ targets ->
  transition_ok au s r (block_claimed_record checkpoint_id state_ref reason now r s0).
Proof.
  intros Ht. unfold block_claimed_record. destruct (has_native r) eqn:Hnat; [done|].
  case_bool_decide as Hst; [|done].
  by apply (block_record_step req s r checkpoint_id state_ref reason now).
Qed.

Lemma fail_claimed_ok failure :
  Failed ∈ targets -> transition_ok au s r (fail_claimed_record failure now r s0).
Proof.
  intros Ht. unfold fail_claimed_record. destruct (negb _) eqn:Hb; [done|].
  apply (runner_finish req s r Failed (Some failure) EkFailed _ now); try done.
  unfold runner_moves. by destruct (r_status r), (native_waiting r), (has_native r).
Qed.

Lemma cancel_or_fail_claimed_ok failure :
  Cancelled ∈ targets -> Failed ∈ targets ->
  transition_ok au s r (cancel_or_fail_claimed_record failure now r s0).
Proof.
  intros Hc Hf. unfold cancel_or_fail_claimed_record. destruct (r_status r) eqn:Hst; try done;
    [by apply fail_claimed_ok| | ].
  - destruct (native_waiting r); [by apply fail_claimed_ok | done].
  - destruct (has_native r); [by apply fail_claimed_ok | by apply cancel_claimed_ok].
Qed.

End Exit.

(** The frame of [apply_validated_loop_exit] and [record_runner_failure]. *)
Lemma claimed_changes {au} req s now (f : RunRecord -> Inner -> Inner * AppliedLoopTransition) :
  inv s ->
  (forall r, in_records s !! r_run_id r = Some r -> r_run_id r = lr_run_id req ->
     ensure_active_lease r (lr_runner_id req) (lr_lease_token req) now = Ok () ->
     transition_ok au s r (f r (with_records (delete (r_run_id r) (in_records s)) s))) ->
  changes au s
    match take_record (lr_run_id req) s with
    | None => (s, Err (A := TurnRunState) TeScopeNotFound)
    | Some (r, s) =>
        commit_transition
          match ensure_active_lease r (lr_runner_id req) (lr_lease_token req) now with
          | Err error => (s, Rejected r error)
          | Ok _ => f r s
          end
    end.1.
Proof.
  intros Hs Hf. unfold take_record.
  destruct (in_records s !! lr_run_id req) as [r|] eqn:Hr; simpl; [|done].
  pose proof (inv_keyed _ Hs _ _ Hr) as Hid. rewrite <- Hid in Hr. rewrite <- Hid.
  apply (commit_changes s r); [done..|].
  destruct (ensure_active_lease r _ _ now) as [[]|] eqn:Hlease; [by apply Hf | done].
Qed.

(** Where the loop's exit may take the run. *)
Definition mapping_targets (mapping : LoopExitMapping) : list TurnStatus :=
  match mapping with
  | RunnerOutcome RoCompleted => [Completed]
  | RunnerOutcome (RoBlocked _ _ reason) => [BlockedReason_status reason]
  | RunnerOutcome (RoFailed _) => [Failed]
  | RunnerOutcome RoCancelled | MapRecoveryRequired _ => [Cancelled; Failed]
  end.

Lemma loop_exit_changes req mapping now s :
  inv s -> changes (by_lease_ref req now (ends_in (mapping_targets mapping))) s
             (apply_validated_loop_exit req mapping now s).1.
Proof.
  intros Hs. apply (claimed_changes req s now (fun r s => match mapping with
    | RunnerOutcome RoCompleted => complete_claimed_record now r s
    | RunnerOutcome RoCancelled =>
        cancel_or_fail_claimed_record (trusted_failure "interrupted_unexpectedly") now r s
    | RunnerOutcome (RoBlocked checkpoint_id state_ref reason) =>
        block_claimed_record checkpoint_id state_ref reason now r s
    | RunnerOutcome (RoFailed failure) => fail_claimed_record failure now r s
    | MapRecoveryRequired failure => cancel_or_fail_claimed_record failure now r s
    end)); [done|].
  intros r Hr Hid Hlease.
  assert (forall a b : TurnStatus, a ∈ [a; b]) as H1 by (intros; by left).
  assert (forall a b : TurnStatus, b ∈ [a; b]) as H2 by (intros; right; by left).
  assert (forall a : TurnStatus, a ∈ [a]) as H0 by (intros; by left).
  destruct mapping as [[]|];
    eauto using complete_claimed_ok, cancel_or_fail_claimed_ok, block_claimed_ok, fail_claimed_ok.
Qed.

Lemma runner_failure_changes req failure now s :
  inv s -> changes (by_lease_ref req now (ends_in [Cancelled; Failed])) s
             (record_runner_failure req failure now s).1.
Proof.
  intros Hs. apply (claimed_changes req s now (cancel_or_fail_claimed_record failure now)); [done|].
  intros r Hr Hid Hlease. apply (cancel_or_fail_claimed_ok req); try done; [by left | by right; left].
Qed.

(** A record handed back to the queue without a lease. *)
Lemma requeued_ok r' :
  r_status r' = Queued -> r_native_auth_wait r' = None -> r_runner_id r' = None ->
  r_lease_token r' = None -> r_lease_expires_at r' = None -> run_ok r'.
Proof.
  intros Hst Hn H1 H2 H3. apply unleased_ok; try done.
  - unfold leased. by rewrite Hst.
  - rewrite Hst. by intros [? ?].
  - intros w. by rewrite Hn.
Qed.

Lemma has_native_none r : has_native r = false -> r_native_auth_wait r = None.
Proof. unfold has_native. by destruct (r_native_auth_wait r). Qed.

Lemma relinquish_changes req now s :
  inv s -> changes (by_lease_ref req now (ends_in [Queued; Cancelled])) s (relinquish_run req now s).1.
Proof.
  intros Hs. unfold relinquish_run, with_record, take_record.
  destruct (in_records s !! lr_run_id req) as [r|] eqn:Hr; simpl; [|done].
  pose proof (inv_keyed _ Hs _ _ Hr) as Hid. rewrite <- Hid in Hr. rewrite <- Hid.
  destruct (ensure_active_lease r _ _ now) as [[]|e] eqn:Hlease; simpl; [|by rewrite put_taken].
  destruct (has_native r) eqn:Hnat; simpl; [by rewrite put_taken|].
  pose proof (lease_leased _ r Hs Hr _ _ _ Hlease) as Hleased.
  destruct (leased_live _ Hleased) as [Hlive Hnq].
  destruct (r_status r) eqn:Hst; simpl; try by rewrite put_taken.
  - rewrite update_active_lock_eq. apply rtc_once. set (r1 := set_event_cursor _ _).
    assert (same_run r r1) as Hsame by by split.
    eapply (live_step s r Hr (ByRunner (lr_runner_id req) (lr_lease_token req) now) _ _ r1
              EkRunnerHeartbeat None now); try reflexivity; try done.
    + apply requeued_ok; try done. by apply has_native_none.
    + apply by_runner; [done | by apply lease_held | | by left].
      unfold runner_moves. rewrite Hst. simpl. by rewrite Hnat.
    + by apply (lock_updated s r Hs Hr r1).
    + simpl. apply queue_pushed; [done..| congruence | done].
  - apply prune_changes; [done|]. apply rtc_once.
    apply (runner_finish req s r Cancelled None EkCancelled None now); try done; [by right; left|].
    unfold runner_moves. by rewrite Hst.
Qed.

(** ** Recovery of expired leases *)

(** The recovery of the leases that have expired at [now], of one scope or of all. *)
Definition by_recovery (now : TurnTimestamp) (filter : option TurnScope) : authority :=
  fun c r r' => c = ByExpiry now /\ forall scope, filter = Some scope -> r_scope r = scope.

Lemma recover_one_step now s recovered id r req_now filter :
  inv s -> in_records s !! id = Some r -> lease_expired req_now filter r = true ->
  change (by_recovery req_now filter) s (recover_one now (s, recovered) id).1.
Proof.
  intros Hs Hr Hexp. pose proof (inv_keyed _ Hs _ _ Hr) as Hid. subst id.
  unfold recover_one, take_record. rewrite Hr. simpl.
  unfold lease_expired in Hexp. apply andb_true_iff in Hexp as [[Hst Hfil]%andb_true_iff Hexp].
  fold (leased r) in Hst. destruct (r_lease_expires_at r) as [e|] eqn:He; [|done]. simpl in Hexp.
  apply (finish_step (ByExpiry req_now)); try done.
  - by apply leased_live.
  - unfold expired_lease_terminal_outcome. by destruct (bool_decide _ && _).
  - intros r' Hr'. split.
    { split; [done|]. intros scope ->. symmetry. by apply bool_decide_eq_true in Hfil. }
    split; [done|]. split; [|done]. exists e. split; [done | lia].
Qed.

(** A record other than the one that moves stays as it is. *)
Lemma recover_one_other now s recovered id j :
  j <> id -> keyed (in_records s) ->
  in_records (recover_one now (s, recovered) id).1 !! j = in_records s !! j.
Proof.
  intros Hne Hk. unfold recover_one, take_record.
  destruct (in_records s !! id) as [r|] eqn:Hr; [|done]. simpl. rewrite release_active_lock_eq.
  simpl. rewrite (Hk id r Hr). by rewrite lookup_insert_ne, lookup_delete_ne.
Qed.

Lemma recover_fold_changes req_now filter now l :
  forall s recovered, NoDup l -> inv s ->
    (forall id, id ∈ l -> exists r, in_records s !! id = Some r
                                    /\ lease_expired req_now filter r = true) ->
    changes (by_recovery req_now filter) s (foldl (recover_one now) (s, recovered) l).1.
Proof.
  induction l as [|id l IH]; intros s recovered Hnd Hs Hl; [done|]. cbn [foldl].
  apply NoDup_cons in Hnd as [Hid Hnd].
  destruct (Hl id) as (r & Hr & Hexp); [by left|].
  pose proof (recover_one_step now s recovered id r req_now filter Hs Hr Hexp) as Hstep.
  eapply rtc_l; [exact Hstep|].
  pose proof (fun j Hj => recover_one_other now s recovered id j Hj (inv_keyed _ Hs)) as Hother.
  destruct (recover_one now (s, recovered) id) as [s1 recovered1]. simpl in *.
  apply IH; [done | by eapply change_inv|].
  intros j Hj. rewrite Hother; [|congruence]. apply Hl. by right.
Qed.

Lemma order_nodup s order : order ≡ₚ (map_to_list (in_records s)).*1 -> NoDup order.
Proof. intros ->. apply NoDup_fst_map_to_list. Qed.

Lemma recover_changes req_now filter order now s :
  inv s -> order ≡ₚ (map_to_list (in_records s)).*1 ->
  changes (by_recovery req_now filter) s (recover_expired_leases req_now filter order now s).1.
Proof.
  intros Hs Hord. unfold recover_expired_leases.
  set (expired := List.filter _ order).
  pose proof (recover_fold_changes req_now filter now expired s []) as Hc.
  destruct (foldl (recover_one now) (s, []) expired) as [s' recovered]. simpl in *.
  apply prune_changes; [done|]. apply Hc; [|done|].
  - apply NoDup_List_filter. by eapply order_nodup.
  - intros id Hid. apply list_elem_of_In, filter_In in Hid as [_ Hid].
    destruct (in_records s !! id) as [r|]; [|done]. by exists r.
Qed.

End Steps.
