(* ===== verification/TurnOps.v ===== *)
(** * Turns: claims, owners, trees and submissions refine the permitted changes

    The rest of the simulation of [TurnSteps]: a claim takes a run from the queue
    (and finds one whenever one matches), the owner cancels, cancels a tree and
    resumes, a runner waits for a native authentication, spawn-tree slots are
    reserved and released, and a submission admits a run.  The last theorem puts the
    operations together: every critical section is a sequence of permitted changes. *)

From S2P Require Import Prelude Effects External HostIds HostTypes Dispatch RunProfile TurnTypes.
From S2P Require Import TurnStore TurnSnapshot TurnExec TurnInvariants TurnPrune TurnSteps.
Open Scope Z_scope.

(** ** The claim *)

Section Claim.
Implicit Types (records : gmap TurnRunId RunRecord) (queue : list TurnRunId).

Definition in_filter (filter : option TurnScope) (r : RunRecord) : bool :=
  from_option (fun scope => bool_decide (scope = r_scope r)) true filter.

Definition all_queued records queue : Prop :=
  forall id, id ∈ queue -> exists r, records !! id = Some r /\ r_status r = Queued.

(** The queue loses exactly the run that is found. *)
Lemma pop_matching_perm n filter records queue :
  all_queued records queue ->
  match pop_matching n filter records queue with
  | (Some id, queue') => id :: queue' ≡ₚ queue
      /\ exists r, records !! id = Some r /\ r_status r = Queued /\ in_filter filter r = true
  | (None, queue') => queue' ≡ₚ queue
  end.
Proof.
  revert queue. induction n as [|n IH]; intros queue Hq; simpl; [done|].
  destruct queue as [|id queue]; [done|].
  destruct (Hq id) as (r & Hr & Hst); [by left|]. rewrite Hr, bool_decide_eq_true_2 by done. simpl.
  fold (in_filter filter r). destruct (in_filter filter r) eqn:Hf; [by eauto|].
  assert (queue ++ [id] ≡ₚ id :: queue) as Hperm by by rewrite Permutation_app_comm.
  specialize (IH (queue ++ [id])). destruct (pop_matching n filter records _) as [[j|] queue'].
  - destruct IH as [IH ?]; [intros x; rewrite Hperm; apply Hq|]. by rewrite <- Hperm.
  - rewrite <- Hperm. apply IH. intros x; rewrite Hperm; apply Hq.
Qed.

(** After one round through the queue nothing that matches has been passed over. *)
Lemma pop_matching_none n filter records queue queue' :
  all_queued records queue -> (n <= length queue)%nat ->
  pop_matching n filter records queue = (None, queue') ->
  forall id r, id ∈ take n queue -> records !! id = Some r -> in_filter filter r = false.
Proof.
  revert queue. induction n as [|n IH]; intros queue Hq Hn Hpop id r Hid Hr; [by apply elem_of_nil in Hid|].
  destruct queue as [|j queue]; [by apply elem_of_nil in Hid|]. simpl in *.
  destruct (Hq j) as (x & Hx & Hst); [by left|]. rewrite Hx, bool_decide_eq_true_2 in Hpop by done.
  simpl in Hpop. fold (in_filter filter x) in Hpop. destruct (in_filter filter x) eqn:Hf; [done|].
  apply elem_of_cons in Hid as [-> |Hid]; [congruence|].
  apply (IH (queue ++ [j])) with id; try done.
  - intros y. rewrite Permutation_app_comm. apply Hq.
  - rewrite length_app. simpl. lia.
  - by rewrite take_app_le by lia.
Qed.

End Claim.

Section Ops.
Context {T : Chrono} {U : UuidText} {P : UuidParse U}.
Implicit Types (r : RunRecord) (s : Inner).

Lemma queue_all_queued s : inv s -> all_queued (in_records s) (in_queued_runs s).
Proof. intros Hs id Hid. by apply (proj2 (inv_queue _ Hs)). Qed.

(** What changes none of the fields the invariants speak of. *)
Lemma quiet_change {au} s s' :
  inv s -> in_records s' = in_records s -> in_active_locks s' = in_active_locks s ->
  in_queued_runs s' ≡ₚ in_queued_runs s -> in_terminal_runs s' ≡ₚ in_terminal_runs s ->
  in_admission_reservations s' = in_admission_reservations s -> in_turns s' = in_turns s ->
  in_tree_reservations s' = in_tree_reservations s -> in_limits s' = in_limits s ->
  in_cursor s' = in_cursor s -> in_events s' = in_events s ->
  in_event_retention_floor s' = in_event_retention_floor s -> change au s s'.
Proof.
  intros Hs Hrec Hl Hq Ht Ha Htu Htr Hlim Hc He Hf. apply ch_retree. split; try done; [|by left].
  rewrite Hrec, Htr. apply Hs.
Qed.

Lemma queued_not_native r : run_ok r -> r_status r = Queued -> r_native_auth_wait r = None.
Proof.
  intros Hok Hst. destruct (r_native_auth_wait r) as [w|] eqn:Hw; [|done].
  by destruct (ro_native _ Hok w Hw) as (_ & [] & _).
Qed.

(** A queued run of the filter, taken by the runner and under the lease of the request. *)
Definition by_claim (req : ClaimRunRequest) : authority :=
  fun c r r' => c = ByClaim (kq_runner_id req) (kq_lease_token req)
    /\ in_filter (kq_scope_filter req) r = true.

Lemma claim_changes req now s : inv s -> changes (by_claim req) s (claim_next_run req now s).1.
Proof.
  intros Hs. unfold claim_next_run, pop_matching_queued_run.
  pose proof (pop_matching_perm (length (in_queued_runs s)) (kq_scope_filter req) _ _
                (queue_all_queued s Hs)) as Hpop.
  destruct (pop_matching _ _ _ _) as [[id|] queue'].
  2: { apply rtc_once, quiet_change; try done. }
  destruct Hpop as (Hperm & r & Hr & Hst & Hfil). unfold with_record, take_record. simpl. rewrite Hr. simpl.
  pose proof (inv_keyed _ Hs _ _ Hr) as Hid. subst id.
  rewrite update_active_lock_eq. apply rtc_once. set (r1 := set_event_cursor _ _).
  assert (same_run r r1) as Hsame by by split.
  assert (live r) as Hlive by (unfold live; by rewrite Hst).
  eapply (live_step s r Hr (ByClaim (kq_runner_id req) (kq_lease_token req)) _ _ r1
            EkRunnerClaimed None now); try reflexivity; try done.
  - split; simpl; try (split; [done | by eexists]); [by intros [? ?]|].
    intros w. simpl. by rewrite (queued_not_native r (inv_runs _ Hs _ _ Hr) Hst).
  - by apply (lock_updated s r Hs Hr r1).
  - simpl. pose proof (proj1 (inv_queue _ Hs)) as Hnd. rewrite <- Hperm in Hnd.
    apply NoDup_cons in Hnd as [Hni Hnd]. split; [done|]. intros id. rewrite <- Hperm, elem_of_cons.
    split; [|by intros [[_ ?]|[? [? | ?] ] ] ]. intros Hin. right. split; [congruence | by right].
Qed.

(** ** Cancellation *)

Lemma run_not_leased r : run_ok r -> leased r = false ->
  r_runner_id r = None /\ r_lease_token r = None /\ r_lease_expires_at r = None.
Proof.
  intros [H1 H2 H3 _ _] Hl. rewrite Hl in H1, H2, H3.
  repeat split; apply eq_None_not_Some; [by rewrite H1 | by rewrite H2 | by rewrite H3].
Qed.

(** A leased run asked to cancel keeps its lease and its native wait. *)
Lemma cancel_requested_ok r r' :
  run_ok r -> live r -> leased r = true -> r_status r' = CancelRequested ->
  r_runner_id r' = r_runner_id r -> r_lease_token r' = r_lease_token r ->
  r_lease_expires_at r' = r_lease_expires_at r -> r_native_auth_wait r' = r_native_auth_wait r ->
  r_checkpoint_id r' = r_checkpoint_id r -> r_gate_ref r' = r_gate_ref r ->
  r_credential_requirements r' = r_credential_requirements r -> run_ok r'.
Proof.
  intros [H1 H2 H3 H4 H5] Hlive Hl Hst E1 E2 E3 E4 E5 E6 E7.
  assert (leased r' = true) as Hl' by (unfold leased; by rewrite Hst).
  rewrite Hl in H1, H2, H3. split; rewrite ?E1, ?E2, ?E3, ?Hl'; try done.
  - rewrite Hst. by intros [? ?].
  - intros w. rewrite E4, E5, E6, E7, Hst. intros Hw. destruct (H5 w Hw) as (Hg & Hnq & Hlv).
    split; [done|]. split; [done|]. intros _. destruct (Hlv Hlive) as [Hck Hphase].
    split; [done|]. destruct (NativeAuthWait_is_waiting w).
    + split; [by right | apply Hphase].
    + split; [by right | apply Hphase].
Qed.

(** What the owner's cancellation does to a live status. *)
Definition cancel_target r : option (TurnStatus * TurnEventKind) :=
  match r_status r with
  | BlockedAuth => if native_waiting r then Some (CancelRequested, EkCancelRequested)
                   else Some (Cancelled, EkCancelled)
  | Queued | BlockedApproval | BlockedResource | BlockedDependentRun => Some (Cancelled, EkCancelled)
  | Running | CancelRequested => Some (CancelRequested, EkCancelRequested)
  | _ => None
  end.

Lemma cancel_target_ok r status kind :
  run_ok r -> cancel_target r = Some (status, kind) ->
  live r /\ owner_moves r status = true
  /\ (status = CancelRequested /\ leased r = true /\ r_status r <> Queued
      \/ status = Cancelled /\ leased r = false).
Proof.
  unfold cancel_target, owner_moves, leased, live. intros Hok.
  destruct (r_status r) eqn:Hst; try done; simpl; try destruct (native_waiting r);
    intros [= <- <-]; simpl; split_and!; try done; auto.
Qed.

(** The run of the request, in its scope, cancelled or asked to cancel by its actor. *)
Definition by_cancel (req : CancelRunRequest) : authority :=
  fun c r r' => c = ByOwner (xq_actor req) /\ r_run_id r = xq_run_id req /\ r_scope r = xq_scope req
    /\ r_status r' ∈ [CancelRequested; Cancelled].

Lemma cancel_once_changes req prune now s :
  inv s -> changes (by_cancel req) s (request_cancel_once req prune now s).1.
Proof.
  intros Hs. unfold request_cancel_once.
  match goal with |- context [with_record ?id s ?f] =>
    assert (changes (by_cancel req) s (with_record id s f).1) as Hc;
      [|destruct (with_record id s f) as [s' res]] end;
    [|by apply maybe_prune_changes].
  apply with_record_changes; [done|]. intros r Hr Hid. simpl.
  pose proof (inv_runs _ Hs _ _ Hr) as Hok.
  case_bool_decide as Hscope; simpl; [|by left].
  case_bool_decide as Hactor; simpl; [|by left].
  destruct (is_terminal (r_status r)) eqn:Hterm; [by left|].
  fold (cancel_target r). destruct (cancel_target r) as [[status kind]|] eqn:Ht; [|by left].
  destruct (cancel_target_ok r status kind Hok Ht) as (Hlive & Hmv & [(-> & Hl & Hnq)|[-> Hl] ]);
    simpl; right; apply rtc_once.
  - rewrite update_active_lock_eq. set (r1 := set_event_cursor _ _).
    eapply (live_step s r Hr (ByOwner (r_actor r)) _ _ r1 kind _ now); try reflexivity; try done.
    + by apply (cancel_requested_ok r).
    + rewrite Hactor. split; [|done]. split_and!; try done. by left.
    + by apply (lock_updated s r Hs Hr (set_status CancelRequested r)).
    + simpl. by apply queue_stays.
  - rewrite release_active_lock_eq. set (r1 := set_event_cursor _ _).
    eapply (final_step s r Hs Hr (ByOwner (r_actor r)) _ _ r1 kind _ now); try reflexivity; try done.
    + destruct (run_not_leased r Hok Hl) as (? & ? & ?). by apply (finished_ok r).
    + rewrite Hactor. split; [|done]. split_and!; try done. by right; left.
Qed.

Lemma quiet_changes {au} s s' im : inv s -> changes au s s' -> changes au s (with_idempotency im s').
Proof.
  intros Hs Hc. eapply rtc_r; [exact Hc|]. apply quiet_change; try done. by eapply changes_inv.
Qed.

Lemma remember_cancel_eq key res at_ s :
  exists im, remember_cancel_idempotency key res at_ s = with_idempotency im s.
Proof. unfold remember_cancel_idempotency. destruct (prune_ordered_map _ _ _) as [[??]?]. by eexists. Qed.
Lemma remember_resume_eq key res at_ original s :
  exists im, remember_resume_idempotency key res at_ original s = with_idempotency im s.
Proof. unfold remember_resume_idempotency. destruct (prune_ordered_map _ _ _) as [[??]?]. by eexists. Qed.
Lemma remember_submit_eq key res at_ s :
  exists im, remember_submit_idempotency key res at_ s = with_idempotency im s.
Proof. unfold remember_submit_idempotency. destruct (prune_ordered_map _ _ _) as [[??]?]. by eexists. Qed.

Lemma request_cancel_changes req now s :
  inv s -> changes (by_cancel req) s (request_cancel req now s).1.
Proof.
  intros Hs. unfold request_cancel. destruct (im_cancel _ !! _); [done|].
  pose proof (cancel_once_changes req true now s Hs) as Hc.
  destruct (request_cancel_once req true now s) as [s' res]. simpl in *.
  destruct (remember_cancel_eq (xq_scope req, xq_run_id req, xq_idempotency_key req) res now s')
    as [im ->]. by apply quiet_changes.
Qed.

Lemma cancel_all_changes requests now s s' responses :
  inv s -> cancel_all requests now s = Ok (s', responses) ->
  changes (fun c r r' => exists q, q ∈ requests /\ by_cancel q c r r') s s'.
Proof.
  revert s s' responses. induction requests as [|req requests IH]; intros s s' responses Hs; simpl.
  { by intros [= -> <-]. }
  assert (forall s1 s2, changes (fun c r r' => exists q, q ∈ requests /\ by_cancel q c r r') s1 s2 ->
    changes (fun c r r' => exists q, q ∈ req :: requests /\ by_cancel q c r r') s1 s2) as Hmore.
  { intros s1 s2. apply changes_mono. intros c r r' (q & Hq & Hby). exists q. split; [by right | done]. }
  set (key := (xq_scope req, xq_run_id req, xq_idempotency_key req)).
  destruct (im_cancel _ !! key) as [[response|]|]; simpl; [|done|].
  - destruct (cancel_all requests now s) as [[s1 rest]|] eqn:Hrest; simpl; [|done].
    intros [= <- <-]. eapply Hmore, IH; [done | exact Hrest].
  - pose proof (cancel_once_changes req false now s Hs) as Hc.
    destruct (request_cancel_once req false now s) as [s1 [response|]]; simpl; [|done].
    destruct (remember_cancel_eq key (Ok response) now s1) as [im ->].
    destruct (cancel_all requests now _) as [[s2 rest]|] eqn:Hrest; simpl; [|done].
    intros [= <- <-]. apply (quiet_changes _ _ im Hs) in Hc. etrans.
    + eapply changes_mono; [|exact Hc]. intros c r r' Hby. exists req. split; [by left | done].
    + eapply Hmore, IH; [by eapply changes_inv | exact Hrest].
Qed.

(** The requests that a tree's cancellation makes for the descendants. *)
Definition asked_for (req q : CancelRunRequest) : Prop :=
  xq_actor q = xq_actor req /\ same_scope_envelope (xq_scope q) (xq_scope req) = true.

Lemma visit_children_asks req children w w' :
  (forall r, r ∈ children -> same_scope_envelope (r_scope r) (xq_scope req) = true) ->
  visit_children req children w = Ok w' ->
  Forall (asked_for req) w.2 -> Forall (asked_for req) w'.2.
Proof.
  revert w. induction children as [|child children IH]; intros w Henv; [by intros [= <-]|].
  destruct w as [[stack visited] requests]. cbn [visit_children snd].
  assert (forall r, r ∈ children -> same_scope_envelope (r_scope r) (xq_scope req) = true) as Henv'
    by (intros; apply Henv; by right).
  case_bool_decide; [done|]. destruct (_ && _); [by apply (IH (_, _, _))|].
  unfold child_cancel at 1. destruct (map_err _ _) as [key|]; simpl; [|done].
  intros Hvis Hw. eapply IH; [done | exact Hvis|]. simpl. apply Forall_app. split; [done|].
  repeat constructor. apply Henv. by left.
Qed.

Lemma cancel_walk_asks fuel req order records w requests :
  cancel_walk fuel req (tree_children (xq_scope req) order records) w = Some (Ok requests) ->
  Forall (asked_for req) w.2 -> Forall (asked_for req) requests.
Proof.
  revert w. induction fuel as [|fuel IH]; intros [[[|p stack] visited] asked]; cbn [cancel_walk];
    try by intros [= <-]. all: try done.
  destruct (visit_children req _ _) as [w'|] eqn:Hvis; [|done]. intros Hwalk Hw.
  eapply IH; [exact Hwalk|]. eapply visit_children_asks; [|exact Hvis | exact Hw].
  intros r Hr. unfold tree_children in Hr.
  apply list_elem_of_In, filter_In in Hr as [_ Hr]. by apply andb_true_iff in Hr as [Hr _].
Qed.

(** The actor's own runs in the tenant, agent and project of the request, cancelled or
    asked to cancel by it. *)
Definition by_tree_cancel (req : CancelRunRequest) : authority :=
  fun c r r' => c = ByOwner (xq_actor req) /\ same_scope_envelope (r_scope r) (xq_scope req) = true
    /\ r_status r' ∈ [CancelRequested; Cancelled].

Lemma cancel_tree_changes req order now s :
  inv s -> changes (by_tree_cancel req) s (request_cancel_tree req order now s).1.
Proof.
  intros Hs. unfold request_cancel_tree.
  destruct (in_records s !! xq_run_id req) as [root|]; [|done].
  do 2 (destruct (negb _); [done|]).
  destruct (cancel_walk _ _ _ _) as [[requests|]|] eqn:Hwalk; try done.
  destruct (cancel_all _ now s) as [[s' responses]|] eqn:Hall; simpl; [|done].
  apply prune_changes; [done|]. apply cancel_walk_asks in Hwalk; [|constructor].
  eapply changes_mono; [|by eapply cancel_all_changes].
  intros c r r' (q & Hq & -> & _ & Hsc & Hst).
  assert (asked_for req q) as [Hactor Henv].
  { apply elem_of_cons in Hq as [->|Hq].
    - split; [done|]. unfold same_scope_envelope. by rewrite !bool_decide_eq_true_2.
    - rewrite merge_sort_Permutation in Hq. by eapply Forall_forall in Hwalk. }
  unfold by_tree_cancel. by rewrite Hactor, Hsc.
Qed.

(** ** Resumption and native waits *)

Lemma resolve_gate w : NativeAuthWait_gate_ref (NativeAuthWait_resolve w) = NativeAuthWait_gate_ref w.
Proof. done. Qed.

Lemma native_resume_ok r r' w :
  run_ok r -> r_status r = BlockedAuth -> r_native_auth_wait r = Some w ->
  NativeAuthWait_is_waiting w = true -> r_status r' = Running ->
  r_native_auth_wait r' = Some (NativeAuthWait_resolve w) ->
  r_gate_ref r' = None -> r_credential_requirements r' = [] ->
  r_checkpoint_id r' = r_checkpoint_id r -> r_runner_id r' = r_runner_id r ->
  r_lease_token r' = r_lease_token r -> r_lease_expires_at r' = r_lease_expires_at r -> run_ok r'.
Proof.
  intros [H1 H2 H3 H4 H5] Hst Hw Hwait Hst' Hw' Hg Hc Hck E1 E2 E3.
  assert (leased r = true) as Hl by (unfold leased, native_waiting; by rewrite Hst, Hw).
  assert (leased r' = true) as Hl' by (unfold leased; by rewrite Hst').
  rewrite Hl in H1, H2, H3. split; rewrite ?E1, ?E2, ?E3, ?Hl'; try done.
  - rewrite Hst'. by intros [? ?].
  - intros w'. rewrite Hw'. intros [= <-]. destruct (H5 w Hw) as (Hgate & _ & Hlv).
    split; [done|]. rewrite Hst'. split; [done|]. intros _. destruct Hlv as [Hnone _]; [by rewrite Hst|].
    split; [congruence|]. split; [by left | done].
Qed.

Lemma resumable_blocked p status :
  resumable p status = true ->
  status = BlockedApproval \/ status = BlockedAuth \/ status = BlockedResource
  \/ status = BlockedDependentRun.
Proof.
  unfold resumable. destruct (required_status p) as [required|] eqn:Hp.
  - intros ->%bool_decide_eq_true. destruct p; simplify_eq/=; auto.
  - destruct status; auto; done.
Qed.

Lemma native_conflict_ok req r w :
  native_conflict req r w = Ok false ->
  NativeAuthWait_is_waiting w = true /\ r_status r = BlockedAuth.
Proof.
  unfold native_conflict. destruct (NativeAuthWait_is_waiting w); simpl; rewrite ?orb_true_r; [|done].
  case_bool_decide; simpl; [|by rewrite ?orb_true_r]. by case_bool_decide.
Qed.

(** The blocked run of the request, in its scope and at its gate, resumed by its actor. *)
Definition by_resume (req : ResumeTurnRequest) : authority :=
  fun c r r' => c = ByOwner (rq_actor req) /\ r_run_id r = rq_run_id req /\ r_scope r = rq_scope req
    /\ r_gate_ref r = Some (rq_gate_resolution_ref req)
    /\ resumable (rq_precondition req) (r_status r) = true /\ r_status r' ∈ [Queued; Running].

Lemma resume_once_changes req now s :
  inv s -> changes (by_resume req) s (resume_turn_once req now s).1.
Proof.
  intros Hs. unfold resume_turn_once. apply with_record_changes; [done|]. intros r Hr Hid. simpl.
  pose proof (inv_runs _ Hs _ _ Hr) as Hok.
  case_bool_decide as Hscope; simpl; [|by left].
  destruct (resumable _ _) eqn:Hres; simpl; [|by left].
  case_bool_decide as Hactor; simpl; [|by left].
  case_bool_decide as Hgate; simpl; [|by left]. pose proof Hres as Hprecondition.
  apply resumable_blocked in Hres.
  assert (live r /\ r_status r <> Queued) as [Hlive Hnq]
    by (unfold live; destruct Hres as [-> | [-> | [-> | -> ] ] ]; done).
  destruct (r_native_auth_wait r) as [w|] eqn:Hw.
  - destruct (native_conflict req r w) as [[]|] eqn:Hnc; [by left | | by left].
    apply native_conflict_ok in Hnc as [Hwait Hst].
    destruct (r_runner_id r) as [runner|] eqn:Hrun; [|by left].
    destruct (r_lease_token r) as [lease|] eqn:Htok; [|by left].
    destruct (ensure_active_lease r runner lease now) as [[]|]; [|by left].
    right. apply rtc_once. simpl. rewrite update_active_lock_eq. set (r1 := set_event_cursor _ _).
    eapply (live_step s r Hr (ByOwner (r_actor r)) _ _ r1 EkResumed None now);
      try reflexivity; try done.
    + by apply (native_resume_ok r r1 w).
    + rewrite Hactor. split; [split_and!; try done; by right; left|].
      split; [done|]. unfold owner_moves, native_waiting. by rewrite Hst, Hw.
    + by apply (lock_updated s r Hs Hr r1).
    + simpl. by apply queue_stays.
  - right. apply rtc_once. simpl. rewrite update_active_lock_eq. set (r1 := set_event_cursor _ _).
    assert (leased r = false) as Hl.
    { unfold leased, native_waiting. rewrite Hw. simpl. rewrite andb_false_r, orb_false_r.
      by destruct Hres as [-> | [-> | [-> | -> ] ] ]. }
    destruct (run_not_leased r Hok Hl) as (? & ? & ?).
    eapply (live_step s r Hr (ByOwner (r_actor r)) _ _ r1 EkResumed None now);
      try reflexivity; try done.
    + by apply requeued_ok.
    + rewrite Hactor. split; [split_and!; try done; by left|].
      split; [done|]. unfold owner_moves, has_native. rewrite Hw.
      by destruct Hres as [-> | [-> | [-> | -> ] ] ].
    + by apply (lock_updated s r Hs Hr r1).
    + simpl. by apply queue_pushed.
Qed.

Lemma resume_changes req now s : inv s -> changes (by_resume req) s (resume_turn req now s).1.
Proof.
  intros Hs. unfold resume_turn. destruct (im_resume _ !! _) as [res|].
  - destruct (_ ≫= native_resume_request) as [original|];
      [by destruct (negb _) | by destruct (from_option _ _ _)].
  - pose proof (resume_once_changes req now s Hs) as Hc.
    destruct (resume_turn_once req now s) as [s' res]. simpl in *.
    match goal with |- context [remember_resume_idempotency ?k ?r ?a ?o s'] =>
      destruct (remember_resume_eq k r a o s') as [im ->] end.
    by apply quiet_changes.
Qed.

Lemma native_new_waiting gate w : NativeAuthWait_new gate = Ok w -> NativeAuthWait_is_waiting w = true.
Proof.
  unfold NativeAuthWait_new. destruct (ok_or _ _) as [id|]; simpl; [|done].
  destruct (native_auth_gate id); simpl; [|done]. destruct (negb _); [done|]. by intros [= <-].
Qed.

Lemma native_block_ok r r' w gate :
  run_ok r -> r_status r = Running -> r_checkpoint_id r = None ->
  NativeAuthWait_is_waiting w = true -> NativeAuthWait_gate_ref w = Ok gate ->
  r_status r' = BlockedAuth -> r_native_auth_wait r' = Some w -> r_gate_ref r' = Some gate ->
  r_checkpoint_id r' = r_checkpoint_id r -> r_runner_id r' = r_runner_id r ->
  r_lease_token r' = r_lease_token r -> r_lease_expires_at r' = r_lease_expires_at r -> run_ok r'.
Proof.
  intros [H1 H2 H3 H4 H5] Hst Hck Hwait Hgate Hst' Hw' Hg' Hck' E1 E2 E3.
  assert (leased r = true) as Hl by (unfold leased; by rewrite Hst).
  assert (leased r' = true) as Hl' by (unfold leased, native_waiting; by rewrite Hst', Hw').
  rewrite Hl in H1, H2, H3. split; rewrite ?E1, ?E2, ?E3, ?Hl', ?Hg'; try done.
  intros w'. rewrite Hw'. intros [= <-]. split; [eauto|]. rewrite Hst', Hwait. split; [done|].
  intros _. split; [congruence|]. split; [by left | eauto].
Qed.

Definition by_native_block (req : BlockNativeAuthRequest) (now : TurnTimestamp) : authority :=
  by_lease (nq_run_id req) (nq_runner_id req) (nq_lease_token req) now (ends_in [BlockedAuth]).

Lemma native_block_changes req now s :
  inv s -> changes (by_native_block req now) s (block_native_auth req now s).1.
Proof.
  intros Hs. unfold block_native_auth. destruct (nq_boundary req); try done.
  destruct (NativeAuthWait_new _) as [w|] eqn:Hnew; [|done].
  destruct (NativeAuthWait_gate_ref w) as [gate|] eqn:Hgate; [|done].
  apply native_new_waiting in Hnew. apply with_record_changes; [done|]. intros r Hr Hid. simpl.
  set (t := if _ || _ then _ else _).
  destruct (negb (bool_decide (r_scope r = _))); [by left|].
  destruct (ensure_active_lease r _ _ now) as [[]|] eqn:Hlease; [|by left].
  assert (let '(r', s1, _) := t in
          (r' = r /\ s1 = with_records (delete (r_run_id r) (in_records s)) s)
          \/ changes (by_native_block req now) s (put_record r' s1)) as Ht.
  { unfold t. case_bool_decide as Hst; simpl; [|by left]. case_bool_decide as Hck; [by left|].
    apply eq_None_not_Some in Hck. right. apply rtc_once. simpl. rewrite update_active_lock_eq.
    set (r1 := set_event_cursor _ _). assert (live r) as Hlive by (unfold live; by rewrite Hst).
    eapply (live_step s r Hr (ByRunner (nq_runner_id req) (nq_lease_token req) now) _ _ r1
              EkBlocked None now); try reflexivity; try done.
    - by apply (native_block_ok r r1 w gate (inv_runs _ Hs _ _ Hr)).
    - destruct (lease_held _ _ _ _ Hlease) as (? & ? & ?).
      split; [split_and!; try done; by left|]. split_and!; try done.
      unfold runner_moves. by rewrite Hst.
    - by apply (lock_updated s r Hs Hr r1).
    - simpl. apply queue_stays; [done | done | congruence | done]. }
  destruct (r_native_auth_wait r) as [original|]; [|exact Ht].
  destruct (NativeAuthWait_gate_ref original) as [original_gate|]; [|by left].
  destruct (bool_decide (original_gate = gate)); [by destruct (_ && _); left|].
  destruct (NativeAuthWait_is_waiting original); [by left | exact Ht].
Qed.

End Ops.
