(* ===== verification/TurnRestore.v ===== *)
(** * Turns: a restart changes nothing

    [from_persistence_snapshot] of the [persistence_snapshot] of a store that satisfies
    the invariants: every check on the stored records passes, and the store that is
    built has the same records, turns, locks, reservations and events, the same cursor,
    and the same queue and terminal runs up to their order. *)

From S2P Require Import Prelude Effects External HostIds HostTypes Dispatch RunProfile TurnTypes.
From S2P Require Import TurnStore TurnSnapshot TurnExec TurnInvariants TurnPrune TurnSteps TurnOps.
Open Scope Z_scope.

(** ** Lists of the entries of a map *)

Lemma sort_by_perm {A} (cmp : A -> A -> comparison) l : sort_by cmp l ≡ₚ l.
Proof. apply merge_sort_Permutation. Qed.

Section Collect.
Context {K : Type} `{Countable K} {X V : Type}.
Implicit Types (m : gmap K V).

Lemma collect_fold (key : X -> K) (value : X -> V) l (acc : gmap K V) :
  NoDup (map key l) -> (forall x, x ∈ l -> acc !! key x = None) ->
  map_to_list (foldl (fun m x => <[key x := value x]> m) acc l)
  ≡ₚ map (fun x => (key x, value x)) l ++ map_to_list acc.
Proof.
  revert acc. induction l as [|x l IH]; intros acc Hnd Hacc; [done|]. simpl in *.
  apply NoDup_cons in Hnd as [Hx Hnd]. rewrite IH; [| done |].
  - rewrite map_to_list_insert by (apply Hacc; by left). by rewrite Permutation_middle.
  - intros y Hy. rewrite lookup_insert_ne; [apply Hacc; by right|].
    intros E. apply Hx. rewrite E. by apply list_elem_of_fmap_2.
Qed.

(** The entries of a map, in any order, give the map back. *)
Lemma collect_entries (key : X -> K) (value : X -> V) l m :
  map (fun x => (key x, value x)) l ≡ₚ map_to_list m -> collect key value l = m.
Proof.
  intros Hl. apply map_to_list_inj. rewrite <- Hl. unfold collect. rewrite collect_fold.
  - by rewrite map_to_list_empty, app_nil_r.
  - replace (map key l) with (map fst (map (fun x => (key x, value x)) l)) by by rewrite map_map.
    rewrite Hl. apply NoDup_fst_map_to_list.
  - intros x _. apply lookup_empty.
Qed.

Lemma fold_entries (l : list X) (key : X -> K) (f : gmap K V -> X -> gmap K V) (value : X -> V) :
  (forall acc x, x ∈ l -> f acc x = <[key x := value x]> acc) ->
  foldl f ∅ l = collect key value l.
Proof.
  unfold collect. generalize (∅ : gmap K V) as acc. induction l as [|x l IH]; intros acc Hf; [done|].
  simpl. rewrite Hf by by left. apply IH. intros acc' y Hy. apply Hf. by right.
Qed.
End Collect.

(** A map whose values know their keys. *)
Lemma values_entries {K V} `{Countable K} (key : V -> K) (m : gmap K V) :
  (forall k v, m !! k = Some v -> key v = k) ->
  map (fun v => (key v, v)) (values m) ≡ₚ map_to_list m.
Proof.
  intros Hk. unfold values. rewrite <- list_fmap_compose.
  replace (_ <$> map_to_list m) with (map_to_list m); [done|].
  transitivity (id <$> map_to_list m); [by rewrite list_fmap_id|].
  apply list_fmap_ext. intros i [k v] Hi. simpl.
  apply list_elem_of_lookup_2, elem_of_map_to_list in Hi. by rewrite (Hk k v Hi).
Qed.

Lemma collect_values {K V} `{Countable K} (key : V -> K) (m : gmap K V) l :
  (forall k v, m !! k = Some v -> key v = k) -> l ≡ₚ values m -> collect key id l = m.
Proof.
  intros Hk Hl. apply collect_entries. rewrite Hl. by apply values_entries.
Qed.

Lemma elem_values {K V} `{Countable K} (m : gmap K V) v : v ∈ values m <-> exists k, m !! k = Some v.
Proof.
  unfold values. rewrite list_elem_of_fmap. split.
  - intros ([k w] & -> & Hin). apply elem_of_map_to_list in Hin. by exists k.
  - intros [k Hk]. exists (k, v). split; [done|]. by apply elem_of_map_to_list.
Qed.

(** ** The runs *)

Section Restore.
Context {T : Chrono} {U : UuidText} {P : UuidParse U}.
Implicit Types (r : RunRecord) (s : Inner).

Lemma restored_same r : restored_record (persistence_record r) (r_actor r) = r.
Proof. by destruct r. Qed.

Lemma custody_valid r w :
  run_ok r -> r_native_auth_wait r = Some w -> native_custody_valid (persistence_record r) w = Ok true.
Proof.
  intros Hok Hw. destruct (ro_native _ Hok w Hw) as ((gate & Hg) & Hnq & Hlive).
  unfold native_custody_valid. simpl. rewrite Hg.
  destruct (is_terminal (r_status r)) eqn:Ht; simpl.
  { rewrite (bool_decide_eq_false_2 (r_status r = Queued)) by done. simpl.
    repeat case_match; by simplify_eq. }
  destruct (Hlive eq_refl) as [Hck Hst]. rewrite Hck, (bool_decide_eq_false_2 (is_Some None)) by by intros [? [=]].
  rewrite (bool_decide_eq_false_2 (r_status r = Queued)) by done.
  assert (leased r = true) as Hleased.
  { unfold leased, native_waiting. rewrite Hw. simpl. destruct (NativeAuthWait_is_waiting w).
    - destruct Hst as [[-> | ->] _]; by rewrite ?orb_true_r.
    - destruct Hst as [[-> | ->] _]; by rewrite ?orb_true_r. }
  rewrite (bool_decide_eq_true_2 (is_Some (r_runner_id r))) by by apply (ro_runner _ Hok).
  rewrite (bool_decide_eq_true_2 (is_Some (r_lease_token r))) by by apply (ro_lease _ Hok).
  rewrite (bool_decide_eq_true_2 (is_Some (r_lease_expires_at r))) by by apply (ro_expires _ Hok).
  simpl.
  destruct (NativeAuthWait_is_waiting w).
  - destruct Hst as [Hst (gate' & Hg' & ->)]. rewrite Hg in Hg'. injection Hg' as <-.
    destruct Hst as [-> | ->]; simpl; by rewrite bool_decide_eq_true_2.
  - destruct Hst as [[-> | ->] [-> ->]]; done.
Qed.

Lemma restore_run_ok s id r :
  inv s -> in_records s !! id = Some r ->
  restore_run (in_turns s) (persistence_record r) = Ok r.
Proof.
  intros Hs Hr. unfold restore_run. cbn [persistence_record tr_native_auth_wait].
  pose proof (inv_runs _ Hs _ _ Hr) as Hok.
  assert (match r_native_auth_wait r with
          | Some wait => native_custody_valid (persistence_record r) wait
          | None => Ok true end = Ok true) as ->.
  { destruct (r_native_auth_wait r) as [w|] eqn:Hw; [by apply custody_valid | done]. }
  cbn [negb persistence_record tr_claimed_child_reservation_released tr_parent_run_id
       tr_subagent_depth tr_spawn_tree_root_run_id tr_turn_id].
  destruct (inv_lineage _ Hs _ _ Hr) as [Hl Hd]. unfold lineage_of in Hl.
  assert (bool_decide (is_Some (r_claimed_child_reservation_released r))
          && (bool_decide (r_parent_run_id r = None) || (r_subagent_depth r =? 0)
              || bool_decide (r_spawn_tree_root_run_id r = None)) = false) as ->.
  { destruct (r_parent_run_id r) as [p|] eqn:Hp.
    - destruct Hl as (parent & Hparent & Hdepth & _ & Hroot). rewrite Hroot.
      destruct (inv_lineage _ Hs _ _ Hparent) as [_ Hd']. unfold in_u32 in Hd'.
      rewrite (proj2 (Z.eqb_neq _ _)) by lia. apply andb_false_r.
    - destruct Hl as (_ & _ & ->). done. }
  destruct (to_run _ _ (inv_turns _ Hs) _ _ Hr) as (t & -> & -> & _). by rewrite restored_same.
Qed.

Lemma restore_runs_ok turns l acc :
  Forall (fun r => restore_run turns (persistence_record r) = Ok r) l ->
  restore_runs turns (map persistence_record l) acc
  = Ok (mk_restored_runs
          (foldl Z.max (rs_cursor acc) (map r_event_cursor l))
          (foldl (fun m r => <[r_run_id r := r]> m) (rs_records acc) l)
          (rs_queued acc ++ map r_run_id (List.filter (fun r => bool_decide (r_status r = Queued)) l))
          (rs_terminal acc ++ map r_run_id (List.filter (fun r => is_terminal (r_status r)) l))).
Proof.
  revert acc. induction l as [|r l IH]; intros acc Hl.
  { simpl. rewrite !app_nil_r. by destruct acc. }
  apply Forall_cons in Hl as [Hr Hl]. cbn [map restore_runs]. rewrite Hr, IH by done. clear Hr IH.
  simpl. f_equal. f_equal.
  - case_bool_decide; simpl; [by rewrite <- app_assoc | done].
  - destruct (is_terminal (r_status r)); simpl; [by rewrite <- app_assoc | done].
Qed.

Lemma fold_max_le l a b : a <= b -> Forall (fun x => x <= b) l -> foldl Z.max a l <= b.
Proof.
  revert a. induction l as [|x l IH]; intros a Ha Hl; [done|]. apply Forall_cons in Hl as [Hx Hl].
  simpl. apply IH; [lia | done].
Qed.
Lemma fold_max_ge l a : a <= foldl Z.max a l.
Proof. revert a. induction l as [|x l IH]; intros a; [done|]. simpl. specialize (IH (a `max` x)). lia. Qed.

Lemma foldr_max_le l b : 0 <= b -> Forall (fun x => x <= b) l -> foldr Z.max 0 l <= b.
Proof. intros Hb. induction 1 as [|x l Hx _ IH]; simpl; lia. Qed.
Lemma foldr_max_elem l x : x ∈ l -> x <= foldr Z.max 0 l.
Proof.
  induction l as [|y l IH]; [by intros ?%elem_of_nil|].
  intros [-> | Hx]%elem_of_cons; simpl; [lia | specialize (IH Hx); lia].
Qed.

(** The cursor is the cursor of the last event, or the floor when there is none. *)
Lemma restored_cursor s l :
  inv s -> l ≡ₚ values (in_records s) ->
  Z.max (Z.max (foldl Z.max 0 (map r_event_cursor l)) (foldr Z.max 0 (map le_cursor (in_events s))))
    (in_event_retention_floor s) = in_cursor s.
Proof.
  intros Hs Hl. destruct (inv_events _ Hs) as [Hf Hc Htop Hev Hruns _].
  assert (foldl Z.max 0 (map r_event_cursor l) <= in_cursor s) as H1.
  { apply fold_max_le; [lia|]. apply Forall_fmap. rewrite Hl. apply Forall_forall.
    intros r [k Hk]%elem_values. apply Hruns in Hk. simpl. lia. }
  pose proof (fold_max_ge (map r_event_cursor l) 0) as H0.
  assert (foldr Z.max 0 (map le_cursor (in_events s)) <= in_cursor s) as H2.
  { apply foldr_max_le; [lia|]. by apply Forall_fmap. }
  destruct (last (in_events s)) as [e|] eqn:He; simpl in Htop; [|lia].
  apply last_Some_elem_of in He.
  pose proof (foldr_max_elem (map le_cursor (in_events s)) (le_cursor e)
                (list_elem_of_fmap_2 _ _ _ He)). lia.
Qed.

(** The runs of a status, in any order, are those the queue or the terminal list
    holds. *)
Lemma restored_list (f : RunRecord -> bool) s l (ids : list TurnRunId) :
  inv s -> l ≡ₚ values (in_records s) -> NoDup ids ->
  (forall id, id ∈ ids <-> exists r, in_records s !! id = Some r /\ f r = true) ->
  map r_run_id (List.filter f l) ≡ₚ ids.
Proof.
  intros Hs Hl Hnd Hids. apply NoDup_Permutation; [| done |].
  - assert (NoDup (map r_run_id l)) as Hl1.
    { rewrite Hl. unfold values. rewrite <- list_fmap_compose.
      replace (_ <$> map_to_list _) with ((map_to_list (in_records s)).*1);
        [apply NoDup_fst_map_to_list|].
      apply list_fmap_ext. intros i [k r] Hi. simpl.
      apply list_elem_of_lookup_2, elem_of_map_to_list in Hi. symmetry. by apply (inv_keyed _ Hs). }
    clear -Hl1. induction l as [|r l IH]; [constructor|]. simpl in *.
    apply NoDup_cons in Hl1 as [Hr Hl]. destruct (f r); [|by apply IH]. simpl.
    apply NoDup_cons. split; [|by apply IH]. intros Hin. apply Hr.
    apply list_elem_of_fmap in Hin as (x & -> & Hx). apply list_elem_of_In, filter_In in Hx as [Hx _].
    by apply list_elem_of_fmap_2, list_elem_of_In.
  - intros id. rewrite Hids, list_elem_of_fmap. split.
    + intros (r & -> & Hr). apply list_elem_of_In, filter_In in Hr as [Hr Hf].
      apply list_elem_of_In in Hr. rewrite Hl in Hr. apply elem_values in Hr as [k Hk].
      exists r. by rewrite (inv_keyed _ Hs _ _ Hk).
    + intros (r & Hr & Hf). exists r. split; [by rewrite (inv_keyed _ Hs _ _ Hr)|].
      apply list_elem_of_In, filter_In. split; [|done]. apply list_elem_of_In. rewrite Hl.
      apply elem_values. by exists id.
Qed.

Lemma reservation_id s id v :
  inv s -> in_admission_reservations s !! id = Some v ->
  av_run_id v = id /\ exists r, in_records s !! id = Some r /\ v = reservation_of r.
Proof.
  intros Hs. rewrite (inv_admission _ Hs), lookup_fmap.
  destruct (in_records s !! id) as [r|] eqn:Hr; [|done]. intros [= <-].
  split; [by apply (inv_keyed _ Hs) | by exists r].
Qed.

Lemma restored_admission s l :
  inv s -> l ≡ₚ values (in_admission_reservations s) ->
  foldl canonical_reservation (foldl (restore_reservation (in_records s)) ∅ l) (values (in_records s))
  = in_admission_reservations s.
Proof.
  intros Hs Hl. rewrite (fold_entries l av_run_id _ id).
  - rewrite (collect_values av_run_id (in_admission_reservations s) l); [| | done].
    + assert (forall rs, (forall r, r ∈ rs -> exists k, in_records s !! k = Some r) ->
        foldl canonical_reservation (in_admission_reservations s) rs
        = in_admission_reservations s) as Hfold.
      { induction rs as [|r rs IH]; intros Hrs; [done|]. simpl.
        destruct (Hrs r) as [k Hk]; [by left|]. pose proof (inv_keyed _ Hs _ _ Hk) as Hid.
        replace (canonical_reservation (in_admission_reservations s) r)
          with (in_admission_reservations s); [apply IH; intros; apply Hrs; by right|].
        unfold canonical_reservation, keeps_active_lock.
        destruct (is_terminal (r_status r)) eqn:Ht; [done|]. simpl.
        rewrite (inv_admission _ Hs), lookup_fmap, Hid, Hk. simpl.
        rewrite Ht, !bool_decide_eq_true_2 by reflexivity. simpl. symmetry. apply (inv_admission _ Hs). }
      apply Hfold. intros r Hr. by apply elem_values.
    + intros k v Hv. by apply (reservation_id s).
  - intros acc v Hv. rewrite Hl in Hv. apply elem_values in Hv as [k Hk].
    destruct (reservation_id s k v Hs Hk) as (Hid & r & Hr & ->). simpl in Hid. subst k.
    unfold restore_reservation. simpl. rewrite Hr, orb_diag. done.
Qed.

Lemma restored_tree s l :
  inv s -> l ≡ₚ omap (snapshot_reservation (in_records s)) (map_to_list (in_tree_reservations s)) ->
  collect (fun v => SpawnTreeReservationKey_new (sv_scope v) (sv_root_run_id v)) sv_descendant_count l
  = in_tree_reservations s.
Proof.
  intros Hs Hl. apply collect_entries. rewrite Hl. clear Hl.
  assert (forall kvs, (forall kv, kv ∈ kvs -> in_tree_reservations s !! kv.1 = Some kv.2) ->
    map (fun v => (SpawnTreeReservationKey_new (sv_scope v) (sv_root_run_id v), sv_descendant_count v))
      (omap (snapshot_reservation (in_records s)) kvs) = kvs) as Hmap.
  { induction kvs as [|[k n] kvs IH]; intros Hkv; [done|].
    destruct (tk_key _ _ (inv_tree _ Hs) k n) as (_ & r & Hr & _ & Hk); [apply (Hkv (k, n)); by left|].
    cbn [omap list_omap]. unfold snapshot_reservation at 1. simpl. rewrite Hr. simpl. f_equal.
    - f_equal. symmetry. exact Hk.
    - apply IH. intros kv ?. apply Hkv. by right. }
  rewrite Hmap; [done|]. intros [k n] Hin. by apply elem_of_map_to_list in Hin.
Qed.

(** The state after a restart, given what is made of the answers. *)
Definition restarted s (queue terminal : list TurnRunId) (im : Idempotency) limits : Inner :=
  mk_Inner (in_cursor s) (in_turns s) (in_records s) queue terminal (in_active_locks s)
    (sn_checkpoints (persistence_snapshot s))
    (collect lc_checkpoint_id id (sn_loop_checkpoints (persistence_snapshot s))) im (in_events s)
    (in_event_retention_floor s) (in_admission_reservations s) (in_tree_reservations s) limits.

Lemma restart_state s limits :
  inv s -> exists queue terminal,
    queue ≡ₚ in_queued_runs s /\ terminal ≡ₚ in_terminal_runs s
    /\ from_persistence_snapshot (persistence_snapshot s) limits
       = let? im := restore_answers (sort_by compare_idempotency_records
                      (sn_idempotency_records (persistence_snapshot s))) Idempotency_default in
         Ok (restarted s queue terminal im limits).
Proof.
  intros Hs.
  destruct (Permutation_map_inv persistence_record (values (in_records s))
              (sort_by_perm (cmp_pair tr_event_cursor (fun x => turn_as_uuid (tr_run_id x))) _))
    as (l & Hruns & Hl). symmetry in Hl.
  exists (map r_run_id (List.filter (fun r => bool_decide (r_status r = Queued)) l)).
  exists (map r_run_id (List.filter (fun r => is_terminal (r_status r)) l)). split_and!.
  - apply (restored_list _ s); [done | done | apply (inv_queue _ Hs)|]. intros id.
    rewrite (proj2 (inv_queue _ Hs) id). by setoid_rewrite bool_decide_eq_true.
  - apply (restored_list _ s); [done | done | apply (inv_terminal _ Hs)|]. intros id.
    rewrite (proj2 (inv_terminal _ Hs) id). by setoid_rewrite not_false_iff_true.
  - unfold from_persistence_snapshot. cbn [persistence_snapshot sn_turns sn_runs sn_active_locks
      sn_checkpoints sn_loop_checkpoints sn_idempotency_records sn_events sn_event_retention_floor
      sn_admission_reservations sn_spawn_tree_reservations].
    rewrite (collect_values tn_turn_id (in_turns s)); [| apply (inv_turns _ Hs) | apply sort_by_perm].
    rewrite Hruns, restore_runs_ok.
    2: { apply Forall_forall. intros r Hr. rewrite Hl in Hr. apply elem_values in Hr as [k Hk].
         by apply (restore_run_ok s k). }
    cbn [rs_cursor rs_records rs_queued rs_terminal app].
    change (foldl (fun m r => <[r_run_id r := r]> m) ∅ l) with (collect r_run_id id l).
    rewrite (collect_values r_run_id (in_records s)); [| intros; by apply (inv_keyed _ Hs) | done].
    rewrite (collect_values lk_key (in_active_locks s));
      [| intros k lk Hk; by apply (lo_lock _ _ (inv_locks _ Hs) k lk) | apply sort_by_perm].
    rewrite (restored_admission s) by (done || apply sort_by_perm).
    rewrite (restored_tree s) by (done || apply sort_by_perm).
    rewrite (restored_cursor s) by done. done.
Qed.

Lemma restart_changes {au} s s' :
  inv s -> from_persistence_snapshot (persistence_snapshot s) (in_limits s) = Ok s' -> changes au s s'.
Proof.
  intros Hs. destruct (restart_state s (in_limits s) Hs) as (queue & terminal & Hq & Ht & ->).
  destruct (restore_answers _ _) as [im|]; [|done]. intros [= <-].
  by apply rtc_once, quiet_change.
Qed.

End Restore.
