(* ===== verification/TurnAdmission.v ===== *)
(** * Turns: spawn trees, submissions, and the whole store

    The slots of a spawn tree and the admission of new runs as permitted changes,
    and with them the simulation: every critical section of [TurnStore] is a
    sequence of changes the specification of [TurnSteps] permits, so every reachable
    state satisfies the invariants. *)

From S2P Require Import Prelude Effects External HostIds HostTypes Dispatch RunProfile TurnTypes.
From S2P Require Import TurnStore TurnSnapshot TurnExec TurnInvariants TurnPrune TurnSteps TurnOps.
From S2P Require Import TurnRestore.
Open Scope Z_scope.

Section Admission.
Context {T : Chrono} {U : UuidText} {P : UuidParse U}.
Implicit Types (records : gmap TurnRunId RunRecord) (r : RunRecord) (s : Inner).

(** ** Roots *)

Lemma same_scope_envelope_true a b : same_scope_envelope a b = true <-> same_envelope a b.
Proof.
  unfold same_scope_envelope, same_envelope. rewrite !andb_true_iff, !bool_decide_eq_true. tauto.
Qed.

Lemma same_envelope_key a b root :
  same_envelope a b -> SpawnTreeReservationKey_new a root = SpawnTreeReservationKey_new b root.
Proof. unfold SpawnTreeReservationKey_new. by intros (-> & -> & ->). Qed.

Lemma same_envelope_trans a b c : same_envelope a b -> same_envelope b c -> same_envelope a c.
Proof. unfold same_envelope. by intros (-> & -> & ->). Qed.

(** Every child's root is a record without a parent, in the same envelope. *)
Lemma root_spec records :
  lineage_ok records -> forall id r p, records !! id = Some r -> r_parent_run_id r = Some p ->
  exists root x, r_spawn_tree_root_run_id r = Some root /\ records !! root = Some x
    /\ r_parent_run_id x = None /\ r_subagent_depth x = 0 /\ same_envelope (r_scope r) (r_scope x).
Proof.
  intros Hl id r. remember (Z.to_nat (r_subagent_depth r)) as n eqn:Hn. revert id r Hn.
  induction n as [n IH] using lt_wf_ind. intros id r Hn p Hr Hp.
  destruct (Hl id r Hr) as [Hlr Hd]. unfold lineage_of in Hlr. rewrite Hp in Hlr.
  destruct Hlr as (parent & Hpr & Hdep & Henv & Hroot). destruct (Hl p parent Hpr) as [Hlp Hdp].
  unfold in_u32 in *. destruct (r_parent_run_id parent) as [q|] eqn:Hq.
  - destruct (IH (Z.to_nat (r_subagent_depth parent))) with p parent q
      as (root & x & Hrp & Hx & Hpx & Hdx & Hex); [lia | done..|].
    exists root, x. rewrite Hroot, Hrp. split_and!; try done.
    by eapply same_envelope_trans.
  - unfold lineage_of in Hlp. rewrite Hq in Hlp. destruct Hlp as (Hd0 & Hnone & _).
    exists p, parent. rewrite Hroot, Hnone. done.
Qed.

Lemma root_no_parent records id r :
  keyed records -> lineage_ok records -> records !! id = Some r ->
  default (r_run_id r) (r_spawn_tree_root_run_id r) = r_run_id r -> r_parent_run_id r = None.
Proof.
  intros Hk Hl Hr Hroot. destruct (r_parent_run_id r) as [p|] eqn:Hp; [|done].
  destruct (root_spec _ Hl id r p Hr Hp) as (root & x & Hrr & Hx & Hpx & _ & _).
  rewrite Hrr in Hroot. simpl in Hroot. rewrite (Hk id r Hr) in Hroot. congruence.
Qed.

Lemma pending_count s scope root :
  inv s ->
  pending_claimed_reservations scope root s
  = Z.of_nat (count_values (pending_in (SpawnTreeReservationKey_new scope root)) (in_records s)).
Proof.
  intros Hs. unfold pending_claimed_reservations. f_equal. fold (count_values (K := TurnRunId)
    (fun r => bool_decide (r_claimed_child_reservation_released r = Some false)
              && bool_decide (r_spawn_tree_root_run_id r = Some root)
              && same_scope_envelope (r_scope r) scope) (in_records s)).
  apply count_ext. intros id r Hr. unfold pending_in.
  destruct (bool_decide (r_claimed_child_reservation_released r = Some false)) eqn:Hrel; [|done].
  apply bool_decide_eq_true in Hrel. simpl.
  destruct (inv_lineage _ Hs id r Hr) as [Hlin _].
  destruct (r_parent_run_id r) as [p|] eqn:Hp.
  2: { unfold lineage_of in Hlin. rewrite Hp in Hlin. destruct Hlin as (_ & _ & ?). congruence. }
  destruct (root_spec _ (inv_lineage _ Hs) id r p Hr Hp) as (rt & x & Hrt & _). rewrite Hrt. simpl.
  apply eq_bool_prop_intro.
  unfold same_scope_envelope, SpawnTreeReservationKey_new.
  rewrite !andb_True, !bool_decide_spec. split.
  - by intros ([= ->] & (-> & ->) & ->).
  - by intros [= -> -> -> ->].
Qed.

(** ** Slots *)

Lemma tree_insert_ok records tree key n r :
  tree_ok records tree -> 0 < n <= u32_max -> records !! reservation_root key = Some r ->
  r_parent_run_id r = None -> key = SpawnTreeReservationKey_new (r_scope r) (reservation_root key) ->
  Z.of_nat (count_values (pending_in key) records) <= n -> tree_ok records (<[key := n]> tree).
Proof.
  intros [Hk Hp] Hn Hr Hpar Hkey Hpend. split.
  - intros k m. destruct (decide (k = key)) as [->|Hne].
    + rewrite lookup_insert_eq. intros [= <-]. split; [done|]. eauto.
    + rewrite lookup_insert_ne by done. apply Hk.
  - intros k. destruct (decide (k = key)) as [->|Hne].
    + by rewrite lookup_insert_eq.
    + rewrite lookup_insert_ne by done. apply Hp.
Qed.

Lemma tree_delete_ok records tree key :
  tree_ok records tree -> Z.of_nat (count_values (pending_in key) records) <= 0 ->
  tree_ok records (delete key tree).
Proof.
  intros [Hk Hp] Hpend. split.
  - intros k m [_ Hm]%lookup_delete_Some. by apply Hk.
  - intros k. destruct (decide (k = key)) as [->|Hne].
    + by rewrite lookup_delete_eq.
    + rewrite lookup_delete_ne by done. apply Hp.
Qed.

Lemma canonical_root_ok scope root s canonical :
  inv s -> canonical_root scope root s = Ok canonical ->
  exists r, in_records s !! canonical = Some r /\ r_parent_run_id r = None
    /\ SpawnTreeReservationKey_new scope canonical = SpawnTreeReservationKey_new (r_scope r) canonical.
Proof.
  intros Hs. unfold canonical_root. destruct (in_records s !! root) as [r|] eqn:Hr; [|done].
  destruct (same_scope_envelope _ _) eqn:Henv; simpl; [|done]. case_bool_decide as Hroot; [|done].
  simpl. intros [= <-]. rewrite Hroot, (inv_keyed _ Hs _ _ Hr). exists r. split; [done|].
  split; [by eapply root_no_parent; [apply Hs.. | | ]|].
  symmetry. apply same_envelope_key. by apply same_scope_envelope_true.
Qed.

Lemma retree_change {au} s tree :
  inv s -> tree_ok (in_records s) tree -> change au s (with_tree tree s).
Proof. intros Hs Ht. apply ch_retree. split; try done. by left. Qed.

Lemma reserve_tree_changes {au} scope root delta cap s :
  inv s -> in_u32 delta -> in_u32 cap ->
  changes au s (reserve_tree_descendants scope root delta cap s).1.
Proof.
  intros Hs Hd Hcap. unfold reserve_tree_descendants. destruct (delta =? 0) eqn:Hd0; [done|].
  destruct (canonical_root scope root s) as [canonical|] eqn:Hc; [|done].
  destruct (canonical_root_ok _ _ _ _ Hs Hc) as (r & Hr & Hpar & Hkey).
  set (key := SpawnTreeReservationKey_new scope canonical) in *.
  set (previous := default 0 (in_tree_reservations s !! key)).
  destruct (u64_checked_add previous delta) as [next|] eqn:Hnext; [|done].
  apply checked_add_max_some in Hnext as [-> _]. destruct (cap <? _) eqn:Hle; [done|].
  pose proof (tk_pending _ _ (inv_tree _ Hs) key) as Hpend. fold previous in Hpend.
  unfold in_u32 in *. apply rtc_once, retree_change; [done|].
  apply (tree_insert_ok _ _ _ _ r); [apply Hs | lia | done.. | lia].
Qed.

Lemma with_terminal_id s : with_terminal (in_terminal_runs s) s = s.
Proof. by destruct s. Qed.

Lemma release_tree_changes {au} scope root delta s :
  inv s -> in_u32 delta -> changes au s (release_tree_descendants scope root delta s).1.
Proof.
  intros Hs Hd. unfold release_tree_descendants.
  destruct (canonical_root scope root s) as [canonical|] eqn:Hc; [|done].
  destruct (canonical_root_ok _ _ _ _ Hs Hc) as (r & Hr & Hpar & Hkey).
  rewrite pending_count by done. set (key := SpawnTreeReservationKey_new scope canonical) in *.
  set (pending := Z.of_nat _).
  destruct (in_tree_reservations s !! key) as [previous|] eqn:Hprev; [|by destruct (0 <? pending)].
  destruct (previous <? delta) eqn:H1; [done|]. destruct (_ <? pending) eqn:H2; [done|].
  destruct (tk_key _ _ (inv_tree _ Hs) key previous Hprev) as [Hrange _]. unfold in_u32 in Hd.
  destruct (previous - delta =? 0) eqn:H3; simpl.
  - assert (change au s (with_tree (delete key (in_tree_reservations s)) s)) as Hstep.
    { apply retree_change; [done|]. apply tree_delete_ok; [apply Hs|]. fold pending. lia. }
    rewrite Hr. simpl. destruct (is_terminal (r_status r)) eqn:Ht; [|by apply rtc_once].
    rewrite bool_decide_eq_true_2; [by apply prune_changes, rtc_once|].
    apply (proj2 (inv_terminal _ Hs)). exists r. split; [done|]. unfold live. congruence.
  - apply rtc_once, retree_change; [done|].
    apply (tree_insert_ok _ _ _ _ r); [apply Hs | lia | done..|]. fold pending. lia.
Qed.

(** A child gives its slot back: one claimed child fewer, one slot fewer. *)
Lemma released_pending records child r k :
  records !! child = Some r -> r_claimed_child_reservation_released r = Some false ->
  (count_values (pending_in k) (<[child := set_released (Some true) r]> records)
   + (if pending_in k r then 1 else 0) = count_values (pending_in k) records)%nat.
Proof.
  intros Hr Hrel. rewrite (count_insert _ _ _ _ _ Hr). unfold pending_in at 2. simpl. lia.
Qed.

Lemma released_tree_ok records tree child r :
  tree_ok records tree -> records !! child = Some r ->
  r_claimed_child_reservation_released r = Some false ->
  tree_ok (<[child := set_released (Some true) r]> records) tree.
Proof.
  intros [Hk Hp] Hr Hrel. split.
  - intros k n Hkn. destruct (Hk k n Hkn) as [Hn (x & Hx & Hpar & Heq)]. split; [done|].
    destruct (decide (reservation_root k = child)) as [E|Hne].
    + exists (set_released (Some true) r). rewrite E, lookup_insert_eq in *.
      replace x with r in * by congruence. done.
    + exists x. by rewrite lookup_insert_ne.
  - intros k. pose proof (released_pending records child r k Hr Hrel). specialize (Hp k). lia.
Qed.

(** The state after a claimed child has given its slot back, before the pruning. *)
Definition slot_returned s (child : TurnRunId) r (key : SpawnTreeReservationKey) (n : Z) : Inner :=
  with_tree (if n =? 0 then delete key (in_tree_reservations s)
             else <[key := n]> (in_tree_reservations s))
    (with_records (<[child := set_released (Some true) r]> (in_records s)) s).

Lemma slot_returned_retree s child r root_id root key current :
  inv s -> in_records s !! child = Some r -> ~ live r ->
  r_claimed_child_reservation_released r = Some false ->
  r_spawn_tree_root_run_id r = Some root_id -> root_id <> child ->
  in_records s !! root_id = Some root -> same_envelope (r_scope root) (r_scope r) ->
  default (r_run_id root) (r_spawn_tree_root_run_id root) = root_id ->
  key = SpawnTreeReservationKey_new (r_scope r) root_id ->
  in_tree_reservations s !! key = Some current ->
  retree s (slot_returned s child r key (current - 1)).
Proof.
  intros Hs Hr Hnl Hrel Hroot Hne Hrt Henv Hcan Hkey Hcur.
  assert (pending_in key r = true) as Hmine.
  { unfold pending_in. rewrite Hrel, Hroot, Hkey. by rewrite !bool_decide_eq_true_2. }
  pose proof (released_pending _ child r key Hr Hrel) as Hcnt. rewrite Hmine in Hcnt.
  destruct (tk_key _ _ (inv_tree _ Hs) key current Hcur) as [Hrange _].
  pose proof (tk_pending _ _ (inv_tree _ Hs) key) as Hpend. rewrite Hcur in Hpend. simpl in Hpend.
  pose proof (released_tree_ok _ _ child r (inv_tree _ Hs) Hr Hrel) as Htree.
  split; try done; simpl.
  - destruct (current - 1 =? 0) eqn:Hz.
    + apply tree_delete_ok; [done | lia].
    + apply (tree_insert_ok _ _ _ _ root); [done | lia | | | | lia].
      * rewrite Hkey. simpl. rewrite lookup_insert_ne by congruence. done.
      * eapply (root_no_parent _ root_id root); [apply Hs | apply Hs | done|].
        rewrite Hcan. symmetry. by apply (inv_keyed _ Hs).
      * rewrite Hkey. symmetry. by apply same_envelope_key.
  - right. by exists child, r.
Qed.

Lemma release_claimed_changes {au} scope child s :
  inv s -> changes au s (release_claimed_child_reservation scope child s).1.
Proof.
  intros Hs. unfold release_claimed_child_reservation.
  destruct (in_records s !! child) as [r|] eqn:Hr; [|done].
  case_bool_decide as Hscope; simpl; [|done].
  destruct (is_terminal (r_status r)) eqn:Ht; simpl; [|done].
  destruct (_ || _); [done|]. destruct (r_claimed_child_reservation_released r) as [[]|] eqn:Hrel;
    try done.
  destruct (r_spawn_tree_root_run_id r) as [root_id|] eqn:Hroot; [|done].
  case_bool_decide as Hne; [done|]. destruct (in_records s !! root_id) as [root|] eqn:Hrt; [|done].
  destruct (same_scope_envelope _ _) eqn:Henv; simpl; [|done]. case_bool_decide as Hcan; simpl; [|done].
  apply same_scope_envelope_true in Henv.
  rewrite (same_envelope_key _ _ root_id Henv).
  destruct (in_tree_reservations s !! _) as [current|] eqn:Hcur; [|done].
  destruct (_ || _) eqn:Hb; [done|].
  destruct (u64_checked_sub current 1) as [next|] eqn:Hnext; [|done]. simpl.
  assert (next = current - 1) as ->.
  { unfold u64_checked_sub, checked_sub_nonneg in Hnext. destruct (1 <=? current); congruence. }
  apply prune_changes; [done|]. apply rtc_once, ch_retree.
  apply (slot_returned_retree s child r root_id root); try done; [|by rewrite Hscope..].
  unfold live. congruence.
Qed.

(** ** Submissions *)

Lemma settle_eq key res at_ s : exists im, settle key res at_ s = with_idempotency im s.
Proof.
  unfold settle, leave_in_flight. destruct (remember_submit_eq key res at_ s) as [im ->]. by eexists.
Qed.

Lemma settle_change {au} key res at_ s : inv s -> change au s (settle key res at_ s).
Proof. intros Hs. destruct (settle_eq key res at_ s) as [im ->]. by apply quiet_change. Qed.

Lemma leave_change {au} key s : inv s -> change au s (leave_in_flight key s).
Proof. intros Hs. by apply quiet_change. Qed.

Lemma thread_busy_none scope s :
  inv s -> thread_busy scope s = None -> in_active_locks s !! scope = None.
Proof.
  intros Hs. unfold thread_busy. destruct (in_active_locks s !! scope) as [l|] eqn:Hl; [|done]. simpl.
  destruct (lo_lock _ _ (inv_locks _ Hs) _ _ Hl) as [_ (r & Hr & _ & Hlive)]. rewrite Hr. simpl.
  unfold keeps_active_lock. by rewrite Hlive.
Qed.

Lemma reserve_admission_ok id class scope actor limit_for s s' :
  reserve_admission id class scope actor limit_for s = (s', Ok ()) ->
  s' = with_admission (<[id := mk_TurnAdmissionReservationRecord id class
         (admission_buckets scope actor class) false]> (in_admission_reservations s)) s.
Proof. unfold reserve_admission. destruct (try_map _ _); by intros [= <-]. Qed.

Lemma reserve_admission_err id class scope actor limit_for s s' rejection :
  reserve_admission id class scope actor limit_for s = (s', Err rejection) -> s' = s.
Proof. unfold reserve_admission. destruct (try_map _ _); by intros [= <-]. Qed.

(** A record of a new run: queued, without a lease or a native wait. *)
Lemma new_record_ok req released profile turn_id run_id cursor :
  run_ok (new_record req released profile turn_id run_id cursor).
Proof. by apply requeued_ok. Qed.

Section Accept.
Variables (req : SubmitTurnRequest) (released : option bool) (profile : TurnRunProfile)
  (turn_id : TurnId) (run_id : TurnRunId) (now : TurnTimestamp) (s s1 : Inner).
Let record := new_record req released profile turn_id run_id (Z.min (in_cursor s + 1) u64_max).

Lemma accept_change {au} :
  inv s -> in_records s !! run_id = None -> in_turns s !! turn_id = None ->
  thread_busy (sq_scope req) s = None -> in_u32 (sq_subagent_depth req) ->
  lineage_of (in_records s) record ->
  tree_ok (<[run_id := record]> (in_records s)) (in_tree_reservations s1) ->
  in_records s1 = in_records s -> in_turns s1 = in_turns s -> in_active_locks s1 = in_active_locks s ->
  in_queued_runs s1 = in_queued_runs s -> in_terminal_runs s1 = in_terminal_runs s ->
  in_limits s1 = in_limits s -> in_cursor s1 = in_cursor s -> in_events s1 = in_events s ->
  in_event_retention_floor s1 = in_event_retention_floor s ->
  in_admission_reservations s1
  = <[run_id := mk_TurnAdmissionReservationRecord run_id (tp_admission_class profile)
        (admission_buckets (sq_scope req) (sq_actor req) (tp_admission_class profile)) false]>
      (in_admission_reservations s) ->
  change au s (accept_run req released profile turn_id run_id now s1).1.
Proof.
  intros Hs Hrun Hturn Hbusy Hdep Hlin Htree Er Et El Eq Ete Elim Ec Ee Ef Ea.
  unfold accept_run. simpl. rewrite Ec. fold record.
  match goal with |- change _ s (settle ?k ?r ?a ?x) => destruct (settle_eq k r a x) as [im ->] end.
  apply (ch_admitted _ s _ record). split; try done; simpl.
  - by apply thread_busy_none.
  - apply new_record_ok.
  - by rewrite Er.
  - exists (new_turn req turn_id). rewrite Et. done.
  - eexists. rewrite El. done.
  - by rewrite Eq.
  - by rewrite Er.
  - by eapply (pushed s _ _ record EkSubmitted None now).
Qed.

End Accept.

(** A run that owns no claimed slot. *)
Lemma tree_new_ok records tree id r :
  tree_ok records tree -> records !! id = None -> r_claimed_child_reservation_released r <> Some false ->
  tree_ok (<[id := r]> records) tree.
Proof.
  intros [Hk Hp] Hid Hrel. split.
  - intros k n Hkn. destruct (Hk k n Hkn) as [Hn (x & Hx & H)]. split; [done|]. exists x.
    rewrite lookup_insert_ne; [done|]. congruence.
  - intros k. rewrite count_insert_new by done. unfold pending_in at 1.
    rewrite bool_decide_eq_false_2 by done. apply Hp.
Qed.

(** A child takes the next slot of its tree. *)
Lemma tree_child_ok records tree id r root x key n :
  keyed records -> tree_ok records tree -> records !! id = None ->
  r_spawn_tree_root_run_id r = Some root -> records !! root = Some x -> r_parent_run_id x = None ->
  same_envelope (r_scope x) (r_scope r) ->
  key = SpawnTreeReservationKey_new (r_scope r) root ->
  n = default 0 (tree !! key) + 1 -> n <= u32_max ->
  tree_ok (<[id := r]> records) (<[key := n]> tree).
Proof.
  intros Hkeyed Htree Hid Hroot Hx Hpar Henv Hkey Hn Hmax.
  pose proof (tk_pending _ _ Htree) as Hp.
  assert (forall k, Z.of_nat (count_values (pending_in k) (<[id := r]> records))
            <= Z.of_nat (count_values (pending_in k) records) + (if bool_decide (k = key) then 1 else 0))
    as Hcnt.
  { intros k. rewrite count_insert_new by done. unfold pending_in at 1. rewrite Hroot. simpl. rewrite <- Hkey.
    destruct (bool_decide (r_claimed_child_reservation_released r = _)); simpl;
      repeat case_bool_decide; try congruence; lia. }
  pose proof (tk_key _ _ Htree) as Hk. split.
  - intros k m. destruct (decide (k = key)) as [-> |Hne].
    + rewrite lookup_insert_eq. intros [= <-]. split.
      * destruct (tree !! key) as [v|] eqn:Hv; simpl in *; [destruct (Hk key v Hv); lia | lia].
      * exists x. subst key. simpl. rewrite lookup_insert_ne by congruence. split_and!; try done.
        symmetry. by apply same_envelope_key.
    + rewrite lookup_insert_ne by done. intros Hkm. destruct (Hk k m Hkm) as [? (y & Hy & H)].
      split; [done|]. exists y. rewrite lookup_insert_ne; [done|]. congruence.
  - intros k. specialize (Hcnt k). specialize (Hp k). destruct (decide (k = key)) as [-> |Hne].
    + rewrite lookup_insert_eq. simpl. rewrite bool_decide_eq_true_2 in Hcnt by done. lia.
    + rewrite lookup_insert_ne by done. rewrite bool_decide_eq_false_2 in Hcnt by done. lia.
Qed.

Section Commit.
Variable limit_for : TurnAdmissionLimitProvider.

Lemma commit_submit_changes {au} req resolution fresh now s :
  inv s -> in_turns s !! fresh_turn_id fresh = None ->
  changes au s (commit_submit limit_for req resolution fresh now s).1.
Proof.
  intros Hs Hturn. unfold commit_submit.
  destruct (remembered _ s); [by apply rtc_once, leave_change|].
  destruct resolution as [resolved|]; [|by apply rtc_once, settle_change].
  destruct (thread_busy (sq_scope req) s) eqn:Hbusy; [by apply rtc_once, leave_change|].
  set (run_id := default _ _). case_bool_decide as Hrun; [by apply rtc_once, settle_change|].
  apply eq_None_not_Some in Hrun.
  destruct (reserve_admission _ _ _ _ _ _) as [s1 [[]|rejection]] eqn:Hadm.
  - apply reserve_admission_ok in Hadm as ->. apply rtc_once.
    apply (accept_change (without_lineage req)); try done.
    simpl. apply tree_new_ok; [apply Hs | done | done].
  - apply reserve_admission_err in Hadm as ->. by apply rtc_once, settle_change.
Qed.

Lemma child_parent_ok req s parent :
  child_parent req s = Ok parent ->
  in_records s !! cq_parent_run_id req = Some parent
  /\ same_envelope (r_scope parent) (cq_child_scope req) /\ r_subagent_depth parent <> u32_max.
Proof.
  unfold child_parent. destruct (in_records s !! _) as [r|]; [|done].
  destruct (negb _); [done|]. destruct (same_scope_envelope _ _) eqn:Henv; simpl; [|done].
  destruct (ensure_uncancelled_ancestry _ _); simpl; [|done].
  destruct (_ =? u32_max) eqn:Hd; [done|]. intros [= <-]. split; [done|].
  split; [by apply same_scope_envelope_true | lia].
Qed.

Lemma child_root_ok req parent s root :
  inv s -> child_root req parent s = Ok root ->
  root = default (r_run_id parent) (r_spawn_tree_root_run_id parent)
  /\ exists x, in_records s !! root = Some x /\ r_parent_run_id x = None
       /\ same_envelope (r_scope x) (cq_child_scope req).
Proof.
  intros Hs. unfold child_root. set (id := default _ _).
  destruct (in_records s !! id) as [x|] eqn:Hx; [|done].
  destruct (same_scope_envelope _ _) eqn:Henv; simpl; [|done]. case_bool_decide as Hc; [|done].
  intros [= <-]. split; [done|]. exists x. split; [done|].
  split; [|by apply same_scope_envelope_true]. by eapply root_no_parent; [apply Hs | apply Hs | |].
Qed.

Lemma child_section_changes {au A} req claimed now s (k : Inner -> Inner * Step A) :
  inv s -> changes au s (k s).1 -> changes au s (child_section req claimed now s k).1.
Proof.
  intros Hs Hk. unfold child_section. destruct (ensure_claimed_child_parent _ _ _ _); [|done].
  destruct (remembered _ s); [by apply rtc_once, leave_change | done].
Qed.

(** A rejected reservation is taken back from the tree. *)
Lemma tree_restored s key n :
  inv s ->
  let previous := default 0 (in_tree_reservations s !! key) in
  (if previous =? 0 then delete key (<[key := n]> (in_tree_reservations s))
   else <[key := previous]> (<[key := n]> (in_tree_reservations s))) = in_tree_reservations s.
Proof.
  intros Hs. simpl. destruct (in_tree_reservations s !! key) as [v|] eqn:Hv; simpl.
  - destruct (tk_key _ _ (inv_tree _ Hs) key v Hv) as [Hr _]. destruct (v =? 0) eqn:Hz; [lia|].
    rewrite insert_insert_eq. by apply insert_id.
  - by apply delete_insert_id.
Qed.

Lemma with_tree_id s : with_tree (in_tree_reservations s) s = s.
Proof. by destruct s. Qed.

Lemma child_lineage_ok req s parent released profile turn_id run_id cursor :
  inv s -> in_records s !! cq_parent_run_id req = Some parent ->
  same_envelope (r_scope parent) (cq_child_scope req) ->
  lineage_of (in_records s)
    (new_record (child_template req parent) released profile turn_id run_id cursor).
Proof.
  intros Hs Hp (H1 & H2 & H3). unfold lineage_of. simpl. rewrite (inv_keyed _ Hs _ _ Hp).
  exists parent. split; [done|]. split; [done|]. split; [|done]. by split_and!.
Qed.

Lemma commit_child_changes {au} req claimed resolution fresh now s :
  inv s -> in_turns s !! fresh_turn_id fresh = None -> in_u32 (cq_spawn_tree_descendant_cap req) ->
  changes au s (commit_child limit_for req claimed resolution fresh now s).1.
Proof.
  intros Hs Hturn Hcap. unfold commit_child.
  match goal with |- context [child_section req claimed now s ?k] =>
    pose proof (child_section_changes (au := au) req claimed now s k Hs) as Hc;
    destruct (child_section req claimed now s k) as [s' [res|[]]] end.
  cbn [fst] in *. apply Hc. clear Hc s' res. unfold settle_child.
  destruct resolution as [resolved|]; [|by apply rtc_once, settle_change].
  destruct (child_parent req s) as [parent|] eqn:Hparent; [|by apply rtc_once, settle_change].
  destruct (child_root req parent s) as [root|] eqn:Hroot; [|by apply rtc_once, settle_change].
  destruct (thread_busy _ s) eqn:Hbusy; [by apply rtc_once, leave_change|].
  set (run_id := default _ (cq_requested_run_id req)).
  case_bool_decide as Hrun; [by apply rtc_once, settle_change|]. apply eq_None_not_Some in Hrun.
  apply child_parent_ok in Hparent as (Hp & Henv & Hdep).
  apply child_root_ok in Hroot as (Hroot & x & Hx & Hxp & Hxenv); [|done].
  set (key := SpawnTreeReservationKey_new _ root).
  set (previous := default 0 (in_tree_reservations s !! key)).
  destruct (u64_checked_add previous 1) as [next|] eqn:Hnext; [|by apply rtc_once, settle_change].
  apply checked_add_max_some in Hnext as [-> _].
  destruct (_ <? previous + 1) eqn:Hle; [by apply rtc_once, settle_change|].
  destruct (reserve_admission _ _ _ _ _ _) as [s1 [[]|rejection]] eqn:Hadm.
  - apply reserve_admission_ok in Hadm as ->.
    match goal with |- context [accept_run ?q ?a ?b ?c ?d now ?s1] =>
      assert (change au s (accept_run q a b c d now s1).1) as Hstep end.
    { destruct (inv_lineage _ Hs _ _ Hp) as [_ Hd]. unfold in_u32 in *.
      apply accept_change; try done; simpl; [unfold in_u32; lia | by apply child_lineage_ok|].
      apply (tree_child_ok _ _ run_id _ root x key (previous + 1));
        [apply Hs | apply Hs | done | simpl; by rewrite Hroot | done | done | done | done | done | lia]. }
    destruct (accept_run _ _ _ _ _ _ _) as [s2 res]. by apply rtc_once.
  - apply reserve_admission_err in Hadm as ->. simpl. unfold previous at 1 3.
    match goal with |- context [with_tree ?t (with_tree ?u s)] =>
      change (with_tree t (with_tree u s)) with (with_tree t s) end.
    unfold previous. rewrite (tree_restored s key _ Hs). rewrite with_tree_id.
    by apply rtc_once, settle_change.
Qed.

Lemma enter_submit_changes {au} key s s' step :
  inv s -> enter_submit key s = Some (s', step) -> changes au s s'.
Proof.
  intros Hs. unfold enter_submit. destruct (remembered key s); [by intros [= <- _]|].
  case_bool_decide; [done|]. intros [= <- _]. by apply rtc_once, quiet_change.
Qed.

Lemma reject_lineage_changes {au} req s : inv s -> changes au s (reject_lineage req s).1.
Proof.
  intros Hs. unfold reject_lineage.
  destruct (remembered _ s); apply rtc_once; [by apply leave_change | by apply settle_change].
Qed.

Lemma after_admission_changes {au} key at_ admission s :
  inv s -> changes au s (after_admission key at_ admission s).1.
Proof.
  intros Hs. unfold after_admission. destruct (remembered _ s); [by apply rtc_once, leave_change|].
  destruct admission; [done | by apply rtc_once, settle_change].
Qed.

Lemma derive_template_changes {au} req claimed now s :
  inv s -> changes au s (derive_template req claimed now s).1.
Proof.
  intros Hs. apply child_section_changes; [done|].
  destruct (child_parent req s); [done | by apply rtc_once, settle_change].
Qed.

Lemma child_after_admission_changes {au} req claimed admission now s :
  inv s -> changes au s (child_after_admission req claimed admission now s).1.
Proof.
  intros Hs. apply child_section_changes; [done|].
  destruct admission; [done | by apply rtc_once, settle_change].
Qed.

Lemma exec_section_changes {au} env {X} (e : turnE X) s s' x :
  inv s -> env_ok env s -> op_ok (OpSection e) -> exec_section limit_for env e s = Some (s', x) ->
  changes au s s'.
Proof.
  intros Hs [Hturn _] Hop. destruct e; simpl.
  - by intros [= <- _].
  - by intros [= <- _].
  - destruct (enter_submit key s) as [[s1 step]|] eqn:He; simpl; [|done]. intros [= <- _].
    by eapply enter_submit_changes.
  - pose proof (reject_lineage_changes (au := au) req s Hs). destruct (reject_lineage req s).
    by intros [= <- _].
  - pose proof (after_admission_changes (au := au) (submit_key req) (sq_received_at req) admission s Hs).
    destruct (after_admission _ _ _ _). by intros [= <- _].
  - pose proof (commit_submit_changes (au := au) req resolution (env_fresh env) (env_now env) s Hs Hturn).
    destruct (commit_submit _ _ _ _ _ _). by intros [= <- _].
  - unfold enter_child. destruct (ensure_claimed_child_parent _ _ _ _); simpl; [|by intros [= <- _]].
    destruct (enter_submit _ s) as [[s1 step]|] eqn:He; simpl; [|done]. intros [= <- _].
    by eapply enter_submit_changes.
  - pose proof (derive_template_changes (au := au) req claimed (env_now env) s Hs).
    destruct (derive_template _ _ _ _). by intros [= <- _].
  - pose proof (child_after_admission_changes (au := au) req claimed admission (env_now env) s Hs).
    destruct (child_after_admission _ _ _ _ _). by intros [= <- _].
  - pose proof (commit_child_changes (au := au) req claimed resolution (env_fresh env) (env_now env) s Hs Hturn Hop).
    destruct (commit_child _ _ _ _ _ _ _). by intros [= <- _].
  - intros [= <- _]. by apply rtc_once, leave_change.
Qed.

(** What an operation is entitled to, at the reading [now] of the clock: the claim of a
    queued run for the runner of the request; a move of the named run by the runner and
    the lease the request names, to the statuses the operation stands for; the owner's
    resumption or cancellation; the recovery of expired leases.  Submissions, tree slots,
    checkpoints and a restart move no run. *)
Definition authorizes (now : TurnTimestamp) (op : turn_op) : authority :=
  match op with
  | OpClaimNextRun req => by_claim req
  | OpHeartbeat req | OpRecordModelRoute req _ => by_lease_ref req now stays
  | OpBlockRun req _ _ reason => by_lease_ref req now (ends_in [BlockedReason_status reason])
  | OpBlockNativeAuth req => by_native_block req now
  | OpCompleteRun req => by_lease_ref req now (ends_in [Completed])
  | OpCancelRun req => by_lease_ref req now (ends_in [Cancelled])
  | OpFailRun req _ => by_lease_ref req now (ends_in [Failed])
  | OpRecordRunnerFailure req _ => by_lease_ref req now (ends_in [Cancelled; Failed])
  | OpRelinquishRun req => by_lease_ref req now (ends_in [Queued; Cancelled])
  | OpApplyLoopExit req mapping => by_lease_ref req now (ends_in (mapping_targets mapping))
  | OpResumeTurn req => by_resume req
  | OpRequestCancel req => by_cancel req
  | OpRequestCancelTree req => by_tree_cancel req
  | OpRecoverExpiredLeases req_now filter => by_recovery req_now filter
  | OpSection _ | OpReserveTree _ _ _ _ | OpReleaseTree _ _ _ | OpReleaseClaimedChild _ _
  | OpPutLoopCheckpoint _ _ | OpRestart => nobody
  end.

Lemma turn_exec_changes env op s s' :
  inv s -> env_ok env s -> op_ok op -> turn_exec limit_for env op s = Some s' ->
  changes (authorizes (env_now env) op) s s'.
Proof.
  intros Hs Henv Hop. destruct op; cbn [turn_exec authorizes].
  1: { destruct (exec_section limit_for env e s) as [[s1 x]|] eqn:He; simpl; [|done].
       intros [= <-]. by eapply exec_section_changes. }
  20: { unfold ok_option. destruct (from_persistence_snapshot _ _) as [s1|] eqn:He; [|done].
        intros [= <-]. by apply restart_changes. }
  all: intros [= <-]; unfold complete_run, fail_run;
    eauto using resume_changes, request_cancel_changes, cancel_tree_changes,
         claim_changes, heartbeat_changes, route_changes, block_run_changes, native_block_changes,
         cancel_run_changes, runner_failure_changes, relinquish_changes, loop_exit_changes,
         release_claimed_changes, terminal_transition_changes, release_tree_changes.
  - apply recover_changes; [done | apply Henv].
  - destruct Hop. by apply reserve_tree_changes.
  - by apply rtc_once, quiet_change.
Qed.

(** One step of the store, by whatever operation. *)
Definition anybody : authority := fun c r r' => exists now op, authorizes now op c r r'.

Lemma turn_step_changes s s' : inv s -> turn_step limit_for s s' -> changes anybody s s'.
Proof.
  intros Hs [env op Henv Hop Hex]. eapply changes_mono; [|by eapply turn_exec_changes].
  intros c r r' Hau. by exists (env_now env), op.
Qed.

Lemma reachable_changes limits s : reachable limit_for limits s -> changes anybody (Inner_new limits) s.
Proof.
  intros Hr. enough (inv s /\ changes anybody (Inner_new limits) s) as [_ ?]; [done|].
  revert s Hr. apply rtc_ind_r; [split; [apply inv_new | done]|].
  intros s s' _ Hstep [Hs Hc]. apply turn_step_changes in Hstep; [|done].
  split; [by eapply changes_inv | by etrans].
Qed.

Lemma reachable_inv limits s : reachable limit_for limits s -> inv s.
Proof. intros Hr%reachable_changes. eapply changes_inv; [apply inv_new | exact Hr]. Qed.

End Commit.
End Admission.
