(* ===== verification/TurnSafety.v ===== *)
(** * Turns: what the store promises

    The properties of the turn store, in every state it can reach: one active run
    per thread; an operation moves only the runs it is entitled to, for a cause that
    permits it, and no terminal run; an accepted run keeps every admission bucket within its limit; the
    slots of a spawn tree cover the claimed children that own one; pruning ends and
    orphans nobody; a runner that asks for work gets a queued run when there is one;
    the event log is gapless in order. *)

From S2P Require Import Prelude Effects External HostIds HostTypes Dispatch RunProfile TurnTypes.
From S2P Require Import TurnStore TurnSnapshot TurnExec TurnInvariants TurnPrune TurnSteps TurnOps TurnAdmission.
Open Scope Z_scope.

Section Safety.
Context {T : Chrono} {U : UuidText} {P : UuidParse U}.
Variable limit_for : TurnAdmissionLimitProvider.
Implicit Types (r : RunRecord) (s : Inner).

(** ** One active run per thread *)

(** C6: In every reachable state a thread has at most one run that is not terminal:
    two live runs of one scope are the same run, the thread's lock names it with its
    status, and a lock without a live run of its scope does not exist.  Queued runs,
    and only they, are in the queue, once. *)
Theorem one_active_run_per_thread limits s :
  reachable limit_for limits s ->
  (forall i j a b, in_records s !! i = Some a -> in_records s !! j = Some b ->
     live a -> live b -> r_scope a = r_scope b -> i = j)
  /\ (forall i a, in_records s !! i = Some a ->
        (live a <-> exists l, in_active_locks s !! r_scope a = Some l /\ lk_run_id l = i
                              /\ lk_status l = r_status a))
  /\ (forall k l, in_active_locks s !! k = Some l ->
        exists a, in_records s !! lk_run_id l = Some a /\ r_scope a = k /\ live a)
  /\ NoDup (in_queued_runs s)
  /\ forall i, i ∈ in_queued_runs s <-> exists a, in_records s !! i = Some a /\ r_status a = Queued.
Proof.
  intros Hs%reachable_inv. pose proof (inv_locks _ Hs) as [Hlive Hlock]. split_and!.
  - intros i j a b Ha Hb Hla Hlb Hsc.
    destruct (Hlive i a Ha Hla) as (l & Hl & <- & _). destruct (Hlive j b Hb Hlb) as (l' & Hl' & <- & _).
    rewrite Hsc in Hl. congruence.
  - intros i a Ha. split; [by apply Hlive|]. intros (l & Hl & <- & _).
    destruct (Hlock _ l Hl) as [_ (b & Hb & _ & Hlb)]. congruence.
  - intros k l Hl. by apply Hlock.
  - apply (inv_queue _ Hs).
  - apply (inv_queue _ Hs).
Qed.

(** ** Who may move a run *)

(** One step of a run under an authority: it moves, while it is live, for a cause that the
    authority covers and that permits the move; when it is terminal only its spawn slot
    may be marked as given back. *)
Inductive run_step (au : authority) r r' : Prop :=
| rs_move c : live r -> same_run r r' -> granted au c r r' -> run_step au r r'
| rs_release : ~ live r -> r_claimed_child_reservation_released r = Some false ->
    r' = set_released (Some true) r -> run_step au r r'.

Lemma change_run_step {au} s s' id r r' :
  inv s -> change au s s' -> in_records s !! id = Some r -> in_records s' !! id = Some r' ->
  rtc (run_step au) r r'.
Proof.
  intros Hs Hc Hr Hr'. assert (in_records s' !! id = Some r -> rtc (run_step au) r r') as Hsame.
  { intros H. by replace r' with r by congruence. }
  destruct Hc as [Hc|Hc|x Hc|c x x' Hx Hl Hl' Hx' _ Hp Hm|c x x' Hx Hl Hl' Hx' _ Hp Hm].
  - destruct (rt_records _ _ Hc) as [E|(j & x & Hx & Hnl & Hrel & E)]; rewrite E in Hr', Hsame;
      [by apply Hsame|].
    destruct (decide (id = j)) as [->|Hne]; [|by rewrite lookup_insert_ne in Hsame; eauto].
    rewrite lookup_insert_eq in Hr'. apply rtc_once, rs_release; congruence.
  - pose proof (lookup_weaken _ _ _ _ Hr' (pn_sub _ _ Hc)). by replace r' with r by congruence.
  - rewrite (ad_records _ _ _ Hc) in Hsame. apply Hsame. rewrite lookup_insert_ne; [done|].
    intros <-. pose proof (ad_new _ _ _ Hc). congruence.
  - rewrite (mv_records _ _ _ _ (lm_moved _ _ _ _ Hm)) in Hr', Hsame.
    destruct (decide (id = r_run_id x)) as [->|Hne]; [|by rewrite lookup_insert_ne in Hsame; eauto].
    rewrite lookup_insert_eq in Hr'. apply rtc_once. injection Hr' as <-.
    replace r with x by congruence. by apply (rs_move _ _ _ c).
  - rewrite (mv_records _ _ _ _ (fm_moved _ _ _ _ Hm)) in Hr', Hsame.
    destruct (decide (id = r_run_id x)) as [->|Hne]; [|by rewrite lookup_insert_ne in Hsame; eauto].
    rewrite lookup_insert_eq in Hr'. apply rtc_once. injection Hr' as <-.
    replace r with x by congruence. by apply (rs_move _ _ _ c).
Qed.

(** A run keeps its turn. *)
Lemma run_steps_turn {au} r r' : rtc (run_step au) r r' -> r_turn_id r' = r_turn_id r.
Proof.
  induction 1 as [|a b c Hab _ IH]; [done|]. rewrite IH.
  destruct Hab as [c' _ Hsame _|_ _ ->]; [by rewrite (sr_turn _ _ Hsame) | done].
Qed.

(** The turns of a run stay, so a run identifier used again is told apart by its
    turn. *)
Lemma change_turns {au} s s' k : change au s s' -> is_Some (in_turns s !! k) -> is_Some (in_turns s' !! k).
Proof.
  intros Hc Hk. destruct Hc as [Hc|Hc|x Hc|c x x' _ _ _ _ _ _ Hm|c x x' _ _ _ _ _ _ Hm].
  - by rewrite (rt_turns _ _ Hc).
  - by rewrite (pn_turns _ _ Hc).
  - destruct (ad_turns _ _ _ Hc) as (t & -> & _). apply lookup_insert_is_Some'. auto.
  - by rewrite (mv_turns _ _ _ _ (lm_moved _ _ _ _ Hm)).
  - by rewrite (mv_turns _ _ _ _ (fm_moved _ _ _ _ Hm)).
Qed.

(** A run whose turn is old was there before. *)
Lemma change_back {au} s s' id r' :
  inv s -> change au s s' -> in_records s' !! id = Some r' -> is_Some (in_turns s !! r_turn_id r') ->
  exists r, in_records s !! id = Some r /\ r_turn_id r = r_turn_id r' /\ rtc (run_step au) r r'.
Proof.
  intros Hs Hstep Hr' Ht. destruct (in_records s !! id) as [r|] eqn:Hr.
  { pose proof (change_run_step s s' id r r' Hs Hstep Hr Hr') as Hsteps. exists r.
    split; [done|]. split; [|done]. symmetry. by eapply run_steps_turn. }
  exfalso. destruct Hstep as [Hc|Hc|x Hc|c x x' Hx _ _ _ _ _ Hm|c x x' Hx _ _ _ _ _ Hm].
  - destruct (rt_records _ _ Hc) as [E|(j & x & Hx & _ & _ & E)]; rewrite E in Hr'; [congruence|].
    destruct (decide (id = j)) as [->|Hne]; [congruence|]. rewrite lookup_insert_ne in Hr'; congruence.
  - pose proof (lookup_weaken _ _ _ _ Hr' (pn_sub _ _ Hc)). congruence.
  - rewrite (ad_records _ _ _ Hc) in Hr'.
    destruct (decide (id = r_run_id x)) as [->|Hne];
      [|rewrite lookup_insert_ne in Hr'; congruence].
    rewrite lookup_insert_eq in Hr'. injection Hr' as <-.
    rewrite (ad_turn _ _ _ Hc) in Ht. by destruct Ht.
  - rewrite (mv_records _ _ _ _ (lm_moved _ _ _ _ Hm)) in Hr'.
    destruct (decide (id = r_run_id x)) as [->|Hne]; [congruence|].
    rewrite lookup_insert_ne in Hr'; congruence.
  - rewrite (mv_records _ _ _ _ (fm_moved _ _ _ _ Hm)) in Hr'.
    destruct (decide (id = r_run_id x)) as [->|Hne]; [congruence|].
    rewrite lookup_insert_ne in Hr'; congruence.
Qed.

Lemma changes_turns {au} s s' k : changes au s s' -> is_Some (in_turns s !! k) -> is_Some (in_turns s' !! k).
Proof. induction 1 as [|a b c Hab _ IH]; [done|]. intros Ht. by eapply IH, change_turns. Qed.

Lemma changes_back {au} s s' id r' :
  inv s -> changes au s s' -> in_records s' !! id = Some r' -> is_Some (in_turns s !! r_turn_id r') ->
  exists r, in_records s !! id = Some r /\ r_turn_id r = r_turn_id r' /\ rtc (run_step au) r r'.
Proof.
  intros Hs Hc Hr'. induction Hc as [s|s s1 s' Hc _ IH]; intros Ht; [by exists r'|].
  destruct IH as (r1 & Hr1 & Ht1 & Hsteps1);
    [by eapply change_inv | done | by eapply change_turns|].
  destruct (change_back s s1 id r1 Hs Hc Hr1) as (r & Hr & Htr & Hsteps); [by rewrite Ht1|].
  exists r. split; [done|]. split; [congruence|]. by etrans.
Qed.

(** The history of a run under the operations of the store: each operation moves it by
    steps under its own authority, or not at all. *)
Fixpoint run_history (ops : list (Env * turn_op)) r r' : Prop :=
  match ops with
  | [] => r' = r
  | (env, op) :: ops =>
      exists r1, rtc (run_step (authorizes (env_now env) op)) r r1 /\ run_history ops r1 r'
  end.

Lemma executes_history ops s s' id r' :
  inv s -> executes limit_for ops s s' -> in_records s' !! id = Some r' ->
  is_Some (in_turns s !! r_turn_id r') ->
  exists r, in_records s !! id = Some r /\ r_turn_id r = r_turn_id r' /\ run_history ops r r'.
Proof.
  revert s. induction ops as [|[env op] ops IH]; intros s Hs; cbn [executes run_history].
  { intros ->. by exists r'. }
  intros (s1 & Henv & Hop & Hex & Hrest) Hr' Ht.
  pose proof (turn_exec_changes limit_for env op s s1 Hs Henv Hop Hex) as Hc.
  destruct (IH s1) as (r1 & Hr1 & Ht1 & Hh);
    [by eapply changes_inv | done | done | by eapply changes_turns|].
  destruct (changes_back s s1 id r1 Hs Hc Hr1) as (r & Hr & Htr & Hsteps); [by rewrite Ht1|].
  exists r. split; [done|]. split; [congruence|]. by exists r1.
Qed.

(** A terminal run only gives its slot back. *)
Lemma terminal_steps au r r' :
  rtc (run_step au) r r' -> ~ live r -> r' = r \/ r' = set_released (Some true) r.
Proof.
  intros Hsteps Hnl.
  assert (forall a, rtc (run_step au) a r' -> ~ live a -> r_claimed_child_reservation_released a <> Some false ->
            r' = a) as Hend.
  { intros a Ha Hna Hm. inversion Ha as [|? b ? [c' Hl _ _|_ Hrel _] _]; by subst. }
  inversion Hsteps as [|? b ? [c' Hl _ _|_ Hrel ->] Hrest]; subst; [by left | done |].
  right. by apply Hend.
Qed.

Lemma terminal_history ops r r' :
  run_history ops r r' -> ~ live r -> r' = r \/ r' = set_released (Some true) r.
Proof.
  revert r. induction ops as [|[env op] ops IH]; intros r; cbn [run_history]; [by left|].
  intros (r1 & Hsteps & Hh) Hnl. destruct (terminal_steps _ r r1 Hsteps Hnl) as [->| ->].
  - by apply IH.
  - destruct (IH _ Hh Hnl) as [->| ->]; by right.
Qed.

(** C5: Every operation moves runs by its own authority only.  Take operations from a
    reachable store, and a run (same turn) before and after.  Operation by operation, the
    run was left alone or moved by steps the operation is entitled to at its clock, from a
    status its cause may move a run from: a claim takes a queued run of its filter for the
    requesting runner and lease; heartbeat, route, block, complete, cancel, fail,
    relinquish and loop exit move only the run they name, to the statuses they stand for,
    and only while the request's runner and lease hold it, not expired; resume and cancel
    move only the run they name, in the scope they name, owned by the requesting actor (a
    resume: blocked at that gate); a tree's cancellation moves the actor's own runs of the
    tenant, agent and project; recovery ends runs whose lease expired.  Submissions, tree
    slots, checkpoints and restarts move none.  Scope, actor, profile and lineage stay.  A
    terminal run never moves; only its spawn slot is returned. *)
Theorem runs_move_with_authority limits ops s s' id r r' :
  reachable limit_for limits s -> executes limit_for ops s s' ->
  in_records s !! id = Some r -> in_records s' !! id = Some r' -> r_turn_id r' = r_turn_id r ->
  run_history ops r r' /\ (~ live r -> r' = r \/ r' = set_released (Some true) r).
Proof.
  intros Hs%reachable_inv Hex Hr Hr' Hturn.
  destruct (executes_history ops s s' id r' Hs Hex Hr') as (r0 & Hr0 & _ & Hh).
  { rewrite Hturn. destruct (to_run _ _ (inv_turns _ Hs) id r Hr) as (t & Ht & _). by exists t. }
  replace r0 with r in Hh by congruence. split; [done|]. by eapply terminal_history.
Qed.

(** ** Admission stays within the limits *)

Lemma count_fmap {K A B} `{Countable K} (f : B -> bool) (g : A -> B) (m : gmap K A) :
  count_values f (g <$> m) = count_values (fun x => f (g x)) m.
Proof.
  unfold count_values. rewrite map_to_list_fmap. generalize (map_to_list m).
  induction l as [|[k x] l IH]; simpl; [done|]. destruct (f (g x)); simpl; [f_equal|]; apply IH.
Qed.

Definition buckets_of r : list TurnAdmissionBucket :=
  admission_buckets (r_scope r) (r_actor r) (tp_admission_class (r_profile r)).
Definition in_bucket (b : TurnAdmissionBucket) r : bool :=
  negb (is_terminal (r_status r)) && existsb (fun x => bool_decide (x = b)) (buckets_of r).

(** The runs that are active in a bucket. *)
Definition live_in_bucket (b : TurnAdmissionBucket) s : Z :=
  Z.of_nat (count_values (in_bucket b) (in_records s)).

(** The reservations count the live runs. *)
Lemma active_count b s : inv s -> active_admission_count b s = live_in_bucket b s.
Proof.
  intros Hs. unfold active_admission_count, live_in_bucket. f_equal. rewrite (inv_admission _ Hs).
  apply (count_fmap (K := TurnRunId)
    (fun v => negb (av_released v) && existsb (fun x => bool_decide (x = b)) (av_buckets v))
    reservation_of (in_records s)).
Qed.

Lemma try_map_each {A B E} (f : A -> result B E) l l' x :
  try_map f l = Ok l' -> x ∈ l -> exists y, f x = Ok y.
Proof.
  intros Hl%try_map_ok [i Hi]%list_elem_of_lookup.
  destruct (Forall2_lookup_l _ _ _ _ _ Hl Hi) as (y & _ & Hy). by exists y.
Qed.

(** A reservation that succeeds leaves room in every bucket of the run. *)
Lemma reserve_room id class scope actor s s1 b :
  inv s -> reserve_admission id class scope actor limit_for s = (s1, Ok ()) ->
  b ∈ admission_buckets scope actor class ->
  exists l, limit_for b = Some l /\ forall m, al_max_active l = Some m -> live_in_bucket b s < m.
Proof.
  intros Hs. unfold reserve_admission. destruct (try_map _ _) eqn:Ht; [|done]. intros _ Hb.
  destruct (try_map_each _ _ _ b Ht Hb) as [y Hy]. unfold check_bucket in Hy.
  destruct (limit_for b) as [l|]; [|done]. exists l. split; [done|]. intros m Hm. rewrite Hm in Hy.
  rewrite active_count in Hy by done. destruct (m <=? _) eqn:Hle; [done | lia].
Qed.

Lemma accept_records req released profile turn_id run_id now s :
  in_records (accept_run req released profile turn_id run_id now s).1
  = <[run_id := new_record req released profile turn_id run_id (Z.min (in_cursor s + 1) u64_max)]>
      (in_records s).
Proof.
  unfold accept_run. simpl.
  match goal with |- in_records (remember_submit_idempotency ?k ?r ?a ?x) = _ =>
    destruct (remember_submit_eq k r a x) as [im ->] end.
  done.
Qed.

Lemma new_in_bucket s id r b :
  in_records s !! id = None ->
  Z.of_nat (count_values (in_bucket b) (<[id := r]> (in_records s))) <= live_in_bucket b s + 1.
Proof. intros Hid. rewrite count_insert_new by done. unfold live_in_bucket. destruct (in_bucket b r); lia. Qed.

(** C7: A run is accepted only where its thread has no active run and every
    admission bucket has room: the run of the response is new, queued and bound to
    the scope, actor and profile of the request, and afterwards the number of live
    runs in each of its buckets (tenant, user, project and agent, in total and for
    its class) is within the limit of the bucket, whatever runs were submitted,
    finished or pruned before. *)
Theorem accepted_within_limits limits req resolution fresh now s s' response :
  reachable limit_for limits s -> remembered (submit_key req) s = None ->
  commit_submit limit_for req resolution fresh now s = (s', Ok response) ->
  in_active_locks s !! sq_scope req = None /\ in_records s !! sr_run_id response = None
  /\ exists resolved r, resolution = Ok resolved
       /\ in_records s' = <[sr_run_id response := r]> (in_records s)
       /\ r_status r = Queued /\ r_scope r = sq_scope req /\ r_actor r = sq_actor req
       /\ r_profile r = TurnRunProfile_from_resolved resolved /\ r_parent_run_id r = None
       /\ forall b, b ∈ buckets_of r ->
            exists l, limit_for b = Some l
              /\ forall m, al_max_active l = Some m -> live_in_bucket b s' <= m.
Proof.
  intros Hs%reachable_inv Hrem. unfold commit_submit. rewrite Hrem.
  destruct resolution as [resolved|]; [|done].
  destruct (thread_busy _ s) eqn:Hbusy; [done|]. set (run_id := default _ _).
  case_bool_decide as Hrun; [done|]. apply eq_None_not_Some in Hrun.
  destruct (reserve_admission _ _ _ _ _ _) as [s1 [[]|]] eqn:Hadm; [|done].
  pose proof (reserve_admission_ok _ _ _ _ _ _ _ Hadm) as ->.
  pose proof (fun b => reserve_room _ _ _ _ _ _ b Hs Hadm) as Hroom. clear Hadm.
  match goal with |- accept_run ?q ?a ?b ?c ?d ?n ?x = _ -> _ =>
    pose proof (accept_records q a b c d n x) as Hrec end.
  intros Hacc. rewrite Hacc in Hrec. simpl in Hrec.
  assert (sr_run_id response = run_id) as ->.
  { unfold accept_run in Hacc. simpl in Hacc. by injection Hacc as _ <-. }
  split; [by apply thread_busy_none|]. split; [done|].
  eexists resolved, _. split; [done|]. split; [exact Hrec|]. do 5 (split; [done|]).
  intros b Hb. destruct (Hroom b Hb) as (l & Hl & Hm). exists l. split; [done|]. intros m Hmax.
  specialize (Hm m Hmax). unfold live_in_bucket. rewrite Hrec.
  pose proof (new_in_bucket s run_id (new_record (without_lineage req) None
    (TurnRunProfile_from_resolved resolved) (fresh_turn_id fresh) run_id
    (Z.min (in_cursor s + 1) u64_max)) b Hrun). lia.
Qed.

(** ** Spawn slots *)

Lemma pending_slot_exists s id r :
  inv s -> in_records s !! id = Some r -> r_claimed_child_reservation_released r = Some false ->
  exists p root x n, r_parent_run_id r = Some p /\ r_spawn_tree_root_run_id r = Some root
    /\ 0 < r_subagent_depth r /\ root <> id /\ in_records s !! root = Some x
    /\ r_parent_run_id x = None /\ r_spawn_tree_root_run_id x = None
    /\ same_envelope (r_scope r) (r_scope x)
    /\ in_tree_reservations s !! SpawnTreeReservationKey_new (r_scope r) root = Some n
    /\ 0 < pending_claimed_reservations (r_scope r) root s <= n.
Proof.
  intros Hs Hr Hrel. destruct (inv_lineage _ Hs id r Hr) as [Hlin _].
  destruct (r_parent_run_id r) as [p|] eqn:Hp.
  2: { unfold lineage_of in Hlin. rewrite Hp in Hlin. destruct Hlin as (_ & _ & ?). congruence. }
  destruct (root_spec _ (inv_lineage _ Hs) id r p Hr Hp) as (root & x & Hroot & Hx & Hxp & Hxd & Henv).
  unfold lineage_of in Hlin. rewrite Hp in Hlin. destruct Hlin as (parent & Hpar & Hd & _ & _).
  destruct (inv_lineage _ Hs p parent Hpar) as [_ Hdp]. unfold in_u32 in Hdp.
  destruct (inv_lineage _ Hs root x Hx) as [Hlx _]. unfold lineage_of in Hlx. rewrite Hxp in Hlx.
  set (key := SpawnTreeReservationKey_new (r_scope r) root).
  assert (0 < count_values (pending_in key) (in_records s))%nat as Hpos.
  { eapply count_pos; [exact Hr|]. unfold pending_in. rewrite Hrel, Hroot. simpl. fold key.
    by rewrite !bool_decide_eq_true_2. }
  pose proof (tk_pending _ _ (inv_tree _ Hs) key) as Hle.
  destruct (in_tree_reservations s !! key) as [n|] eqn:Hn; simpl in Hle; [|lia].
  exists p, root, x, n. rewrite (pending_count s (r_scope r) root Hs). fold key.
  split_and!; try done; try lia; try apply Hlx; try congruence.
Qed.

(** The number of slots of a tree. *)
Definition slots (scope : TurnScope) (root : TurnRunId) s : Z :=
  default 0 (in_tree_reservations s !! SpawnTreeReservationKey_new scope root).

(** A claimed child's slot in its spawn tree is returned exactly once.  In every
    reachable state the slots of a tree cover the claimed children that still own
    one; when such a child is terminal the release succeeds, none of its error
    branches is possible, and takes one slot of its tree and of no other; releasing
    it again changes no slot, whether the record is still there (success) or pruned
    (not found). *)
Theorem claimed_slot_returned_once limits s child r :
  reachable limit_for limits s -> in_records s !! child = Some r -> ~ live r ->
  r_claimed_child_reservation_released r = Some false ->
  let '(s1, res) := release_claimed_child_reservation (r_scope r) child s in
  exists root, r_spawn_tree_root_run_id r = Some root /\ res = Ok ()
    /\ 0 < pending_claimed_reservations (r_scope r) root s <= slots (r_scope r) root s
    /\ slots (r_scope r) root s1 = slots (r_scope r) root s - 1
    /\ (forall scope other, SpawnTreeReservationKey_new scope other
                            <> SpawnTreeReservationKey_new (r_scope r) root ->
          slots scope other s1 = slots scope other s)
    /\ let '(s2, again) := release_claimed_child_reservation (r_scope r) child s1 in
       s2 = s1 /\ (again = Ok () \/ again = Err TeScopeNotFound).
Proof.
  intros Hs%reachable_inv Hr Hnl Hrel.
  destruct (pending_slot_exists s child r Hs Hr Hrel)
    as (p & root & x & n & Hp & Hroot & Hd & Hne & Hx & Hxp & Hxr & Henv & Hn & Hpend).
  assert (is_terminal (r_status r) = true) as Ht by by apply not_false_is_true.
  assert (same_envelope (r_scope x) (r_scope r)) as Henv' by (destruct Henv as (? & ? & ?); done).
  set (key := SpawnTreeReservationKey_new (r_scope r) root) in *.
  set (s0 := slot_returned s child r key (n - 1)).
  assert (retree s s0) as Hre.
  { apply (slot_returned_retree s child r root x); try done. rewrite Hxr. by apply (inv_keyed _ Hs). }
  pose proof (prune_pruned s0 (inv_retree _ _ Hs Hre)) as Hpr.
  assert (release_claimed_child_reservation (r_scope r) child s
          = (prune_terminal_records s0, Ok ())) as ->.
  { unfold release_claimed_child_reservation. rewrite Hr, bool_decide_eq_true_2 by done. simpl.
    rewrite Ht, Hp. simpl. destruct (r_subagent_depth r =? 0) eqn:Hd0; [lia|]. rewrite Hrel, Hroot.
    simpl. rewrite bool_decide_eq_false_2 by done. rewrite Hx.
    rewrite (proj2 (same_scope_envelope_true _ _) Henv'), Hxr. simpl.
    rewrite bool_decide_eq_true_2 by (by apply (inv_keyed _ Hs)). simpl.
    rewrite (same_envelope_key _ _ root Henv'). fold key. rewrite Hn.
    destruct (_ || _) eqn:Hb; [lia|]. unfold u64_checked_sub, checked_sub_nonneg.
    destruct (1 <=? n) eqn:Hn1; [done | lia]. }
  set (s1 := prune_terminal_records s0) in *.
  assert (forall k, default 0 (in_tree_reservations s1 !! k)
            = if decide (k = key) then n - 1 else default 0 (in_tree_reservations s !! k)) as Hslots.
  { intros k. rewrite (pn_tree _ _ Hpr). simpl. destruct (decide (k = key)) as [-> |Hk].
    - destruct (n - 1 =? 0) eqn:Hz; [rewrite lookup_delete_eq; simpl; lia | by rewrite lookup_insert_eq].
    - destruct (n - 1 =? 0); [by rewrite lookup_delete_ne | by rewrite lookup_insert_ne]. }
  exists root. split; [done|]. split; [done|]. unfold slots. fold key. rewrite Hn, Hslots. simpl.
  rewrite decide_True by done. split; [lia|]. split; [done|]. split.
  - intros scope other Hk. rewrite Hslots. by rewrite decide_False.
  - unfold release_claimed_child_reservation. destruct (in_records s1 !! child) as [r1|] eqn:Hr1; [|auto].
    pose proof (lookup_weaken _ _ _ _ Hr1 (pn_sub _ _ Hpr)) as Hr0. simpl in Hr0.
    rewrite lookup_insert_eq in Hr0. injection Hr0 as <-. simpl.
    rewrite bool_decide_eq_true_2 by done. simpl. rewrite Ht, Hp. simpl.
    destruct (r_subagent_depth r =? 0) eqn:Hd0; [lia|]. auto.
Qed.

(** ** Pruning *)

(** C38: Pruning ends by the condition of its own loop (the heap of leaves is within
    the configured bound, or empty) within as many rounds as there are records and
    leaves; afterwards at most the configured number of prunable leaves remains.
    Every record that went was terminal, owned no spawn slot and was not the root of
    a reservation, its admission reservation went with it, every live run stayed as
    it was, and no run that stayed lost its parent. *)
Theorem pruning_ends_and_orphans_nobody limits s :
  reachable limit_for limits s ->
  let s' := prune_terminal_records s in
  let reserved := reserved_roots (in_tree_reservations s) in
  let max := max_terminal_records (in_limits s) in
  prune_round max reserved (list_to_set (in_terminal_runs s))
    (prune_loop max reserved (list_to_set (in_terminal_runs s)) (prune_fuel (prune_start s))
       (prune_start s)) = None
  /\ (forall ids, NoDup ids ->
        (forall id, id ∈ ids -> (id ∉ reserved) /\ is_Some (prunable_record (in_records s') id)
           /\ forall j c, in_records s' !! j = Some c -> r_parent_run_id c <> Some id) ->
        (length ids <= max)%nat)
  /\ in_records s' ⊆ in_records s
  /\ (forall id r, in_records s !! id = Some r -> in_records s' !! id = None ->
        ~ live r /\ r_claimed_child_reservation_released r <> Some false /\ (id ∉ reserved)
        /\ in_admission_reservations s' !! id = None /\ (id ∉ in_terminal_runs s'))
  /\ (forall id r p, in_records s' !! id = Some r -> r_parent_run_id r = Some p ->
        is_Some (in_records s' !! p)).
Proof.
  intros Hs%reachable_inv. simpl. pose proof (prune_pruned s Hs) as Hp.
  pose proof (inv_pruned _ _ Hs Hp) as Hs'. split_and!.
  - by eapply prune_loop_ok; [apply prune_start_ok|].
  - intros ids Hnd Hids. apply (prune_bounded s Hs ids Hnd). intros id Hid.
    destruct (Hids id Hid) as (Hres & Hsome & Hch). split_and!; try done.
    apply count_zero. intros j c Hc. unfold child_of. apply bool_decide_eq_false_2. by eapply Hch.
  - apply Hp.
  - intros id r Hr Hn. destruct (pn_gone _ _ Hp id r Hr Hn) as (? & ? & ? & _). split_and!; try done.
    + by rewrite (pn_admission _ _ Hp), Hn.
    + intros (x & Hx & _)%(proj2 (inv_terminal _ Hs')). congruence.
  - intros id r p Hr Hpar. destruct (inv_lineage _ Hs' id r Hr) as [Hl _].
    unfold lineage_of in Hl. rewrite Hpar in Hl. destruct Hl as (x & Hx & _). by exists x.
Qed.

(** ** Claims *)

(** C39: A runner that asks for work gets some whenever there is any: if a queued run
    is within the scope filter of the request, the claim succeeds with a queued run
    of the filter (the one that waited longest when there is no filter), which then
    runs under the lease of the runner until the expiry computed from the clock; the
    claim answers that there is no work only if no queued run matches. *)
Theorem queued_run_is_claimed limits req now s :
  reachable limit_for limits s ->
  match claim_next_run req now s with
  | (s', Ok (Some claimed)) =>
      exists r r', let id := st_run_id (cl_state claimed) in
        in_records s !! id = Some r /\ r_status r = Queued
        /\ in_filter (kq_scope_filter req) r = true
        /\ (kq_scope_filter req = None -> head (in_queued_runs s) = Some id)
        /\ in_records s' !! id = Some r' /\ r_status r' = Running
        /\ r_runner_id r' = Some (kq_runner_id req) /\ r_lease_token r' = Some (kq_lease_token req)
        /\ r_lease_expires_at r' = Some (next_lease_expiry now s)
        /\ (id ∉ in_queued_runs s')
  | (_, Ok None) => forall id r, in_records s !! id = Some r -> r_status r = Queued ->
                      in_filter (kq_scope_filter req) r = false
  | (_, Err _) => False
  end.
Proof.
  intros Hs%reachable_inv. unfold claim_next_run, pop_matching_queued_run.
  pose proof (queue_all_queued s Hs) as Hq.
  pose proof (pop_matching_perm (length (in_queued_runs s)) (kq_scope_filter req) _ _ Hq) as Hpop.
  pose proof (pop_matching_none (length (in_queued_runs s)) (kq_scope_filter req) (in_records s)
                (in_queued_runs s)) as Hnone.
  assert (forall id queue', pop_matching (length (in_queued_runs s)) (kq_scope_filter req)
            (in_records s) (in_queued_runs s) = (Some id, queue') ->
          kq_scope_filter req = None -> head (in_queued_runs s) = Some id) as Hhead.
  { intros id queue' Hpm Hf. rewrite Hf in Hpm. destruct (in_queued_runs s) as [|j queue]; [done|].
    simpl in Hpm. destruct (Hq j) as (x & Hx & Hst); [by left|].
    rewrite Hx, bool_decide_eq_true_2 in Hpm by done. simpl in *. congruence. }
  destruct (pop_matching _ _ _ _) as [[id|] queue'].
  - destruct Hpop as (Hperm & r & Hr & Hst & Hf). unfold with_record, take_record. simpl. rewrite Hr.
    simpl. rewrite update_active_lock_eq. pose proof (inv_keyed _ Hs _ _ Hr) as Hid. rewrite Hid.
    eexists r, _. split; [done|]. split; [done|]. split; [done|]. split; [by eapply Hhead|].
    split; [apply lookup_insert_eq|]. do 4 (split; [done|]).
    simpl. pose proof (proj1 (inv_queue _ Hs)) as Hnd. rewrite <- Hperm in Hnd.
    by apply NoDup_cons in Hnd as [? _].
  - intros id r Hr Hst. apply (Hnone queue' Hq (le_n _) eq_refl id r); [|done].
    rewrite firstn_all. apply (proj2 (inv_queue _ Hs)). eauto.
Qed.

End Safety.
