(* ===== verification/TurnEvents.v ===== *)
(** * Turns: reading the event log

    [read_turn_events_after] of the stores ([project_turn_events] of [events.rs]) over
    the log the in-memory store keeps: a reader that follows the cursors of the
    pages sees every event of its scope after its position exactly once and in
    order, and a reader that is told to rebase is told so once. *)

From S2P Require Import Prelude Effects External HostIds HostTypes Dispatch RunProfile TurnTypes.
From S2P Require Import TurnStore TurnSnapshot TurnExec TurnInvariants TurnAdmission.
Open Scope Z_scope.

Definition read_turn_events_after (scope : TurnScope) (owner : option UserId)
    (after : option EventCursor) (limit : nat) (s : Inner) : TurnEventPage :=
  project_turn_events (in_events s) scope owner after limit (in_event_retention_floor s).

(** A reader that follows the cursors until a page is not truncated; [None] when it
    is told to rebase, or has no fuel. *)
Fixpoint read_pages (fuel : nat) (scope : TurnScope) (owner : option UserId) (after : EventCursor)
    (limit : nat) (s : Inner) : option (list TurnLifecycleEvent) :=
  match fuel with
  | O => None
  | S fuel =>
      let page := read_turn_events_after scope owner (Some after) limit s in
      match pg_rebase_required page with
      | Some _ => None
      | None =>
          if pg_truncated page
          then rest ← read_pages fuel scope owner (pg_next_cursor page) limit s;
               Some (pg_entries page ++ rest)
          else Some (pg_entries page)
      end
  end.

(** ** Lists in strict cursor order *)

Definition increasing (l : list TurnLifecycleEvent) : Prop := StronglySorted Z.lt (map le_cursor l).

Lemma increasing_cons e l :
  increasing (e :: l) <-> increasing l /\ Forall (fun x => le_cursor e < le_cursor x) l.
Proof.
  unfold increasing. simpl. split.
  - intros H. inversion H as [|? ? Hl Hall]; subst. split; [done|]. by rewrite Forall_map in Hall.
  - intros [Hl Hall]. constructor; [done|]. by rewrite Forall_map.
Qed.

Lemma increasing_filter f l : increasing l -> increasing (List.filter f l).
Proof.
  induction l as [|e l IH]; simpl; [done|]. intros [Hl Hall]%increasing_cons.
  destruct (f e); [|by apply IH]. apply increasing_cons. split; [by apply IH|].
  apply Forall_forall. intros x Hx. apply list_elem_of_In, filter_In in Hx as [Hx _].
  rewrite Forall_forall in Hall. apply Hall. by apply list_elem_of_In.
Qed.

#[local] Instance by_cursor_trans : Transitive by_cursor.
Proof. intros a b c. unfold by_cursor. lia. Qed.
#[local] Instance by_cursor_total : Total by_cursor.
Proof. intros a b. unfold by_cursor. lia. Qed.

Lemma increasing_by_cursor l : increasing l -> StronglySorted by_cursor l.
Proof.
  induction l as [|e l IH]; [constructor|]. intros [Hl Hall]%increasing_cons.
  constructor; [by apply IH|]. eapply Forall_impl; [exact Hall|]. unfold by_cursor. simpl. lia.
Qed.

Lemma increasing_inj l x y :
  increasing l -> x ∈ l -> y ∈ l -> le_cursor x = le_cursor y -> x = y.
Proof.
  induction l as [|e l IH]; [by intros _ ?%elem_of_nil|]. intros [Hl Hall]%increasing_cons.
  rewrite Forall_forall in Hall. intros [-> |Hx]%elem_of_cons [-> |Hy]%elem_of_cons Heq; try done.
  - specialize (Hall y Hy). simpl in Hall. lia.
  - specialize (Hall x Hx). simpl in Hall. lia.
  - by apply IH.
Qed.

(** On a log in order the sort of the projection changes nothing. *)
Lemma scoped_increasing events scope owner :
  increasing events -> scoped_events events scope owner = List.filter (event_visible scope owner) events.
Proof.
  intros Hev. pose proof (increasing_filter (event_visible scope owner) events Hev) as Hf.
  apply (StronglySorted_unique_strong by_cursor).
  - intros x y Hx Hy H1 H2. unfold scoped_events in Hx. rewrite merge_sort_Permutation in Hx.
    eapply increasing_inj; [exact Hf | done..|]. unfold by_cursor in *. lia.
  - apply StronglySorted_merge_sort; apply _.
  - by apply increasing_by_cursor.
  - apply merge_sort_Permutation.
Qed.

Definition after_cursor (c : EventCursor) (l : list TurnLifecycleEvent) : list TurnLifecycleEvent :=
  List.filter (fun e => c <? le_cursor e) l.

Lemma after_take_last l n c e :
  increasing l -> last (take n (after_cursor c l)) = Some e ->
  after_cursor (le_cursor e) l = drop n (after_cursor c l).
Proof.
  intros Hl Hlast.
  assert (c < le_cursor e) as Hce.
  { apply last_Some_elem_of in Hlast. apply elem_of_take in Hlast as (i & Hi & _).
    apply list_elem_of_lookup_2, list_elem_of_In, filter_In in Hi as [_ Hi]. lia. }
  replace (after_cursor (le_cursor e) l) with (after_cursor (le_cursor e) (after_cursor c l)).
  2: { unfold after_cursor. clear Hl Hlast. induction l as [|x l IH]; simpl; [done|].
       destruct (c <? le_cursor x) eqn:H1; simpl; rewrite IH; destruct (le_cursor e <? le_cursor x) eqn:H2;
         try done; lia. }
  assert (increasing (after_cursor c l)) as Hinc by by apply increasing_filter.
  revert n Hlast Hinc. generalize (after_cursor c l). clear. intros l.
  induction l as [|x l IH]; intros n Hlast Hinc; [by rewrite take_nil in Hlast|].
  destruct n as [|n]; [done|]. simpl in Hlast. apply increasing_cons in Hinc as [Hl Hall]. simpl.
  destruct (last (take n l)) as [y|] eqn:Hy.
  - assert (y = e) as ->.
    { rewrite last_cons, Hy in Hlast. congruence. }
    apply last_Some_elem_of in Hy as Hin. apply elem_of_take in Hin as (i & Hi & _).
    rewrite Forall_forall in Hall. apply list_elem_of_lookup_2, Hall in Hi. simpl in Hi.
    destruct (le_cursor e <? le_cursor x) eqn:Hc; [lia|]. by apply IH.
  - apply last_None in Hy. rewrite Hy in Hlast. simpl in Hlast. injection Hlast as ->.
    rewrite Z.ltb_irrefl. assert (n = 0%nat \/ l = []) as [-> | ->].
    { destruct n, l; simpl in Hy; try done; auto. }
    + simpl. apply filter_all. intros i y Hi%list_elem_of_lookup_2. rewrite Forall_forall in Hall.
      specialize (Hall y Hi). simpl in Hall. lia.
    + simpl. by rewrite drop_nil.
Qed.

(** ** Paging *)

Section Paging.
Context {T : Chrono} {U : UuidText} {P : UuidParse U}.
Variable limit_for : TurnAdmissionLimitProvider.
Variables (scope : TurnScope) (owner : option UserId) (limit : nat) (s : Inner).
Hypothesis Hlimit : (0 < limit)%nat.
Hypothesis Hs : events_ok (in_cursor s) (in_records s) (in_events s) (in_event_retention_floor s).
Hypothesis Hcursor : in_cursor s < u64_max.

Let visible := List.filter (event_visible scope owner) (in_events s).

Lemma log_increasing : increasing (in_events s)
  /\ Forall (fun e => in_event_retention_floor s < le_cursor e) (in_events s).
Proof.
  pose proof (eo_sorted _ _ _ _ Hs Hcursor) as Hso. inversion Hso as [|? ? H1 H2]; subst.
  split; [done|]. by rewrite Forall_map in H2.
Qed.

Lemma scoped_visible : scoped_events (in_events s) scope owner = visible.
Proof. apply scoped_increasing, log_increasing. Qed.

Lemma page_at after :
  rebase_cursor (in_event_retention_floor s) after (le_cursor <$> last visible) = None ->
  let page := read_turn_events_after scope owner (Some after) limit s in
  let rest := after_cursor after visible in
  pg_rebase_required page = None
  /\ pg_truncated page = bool_decide (limit < length rest)%nat
  /\ pg_entries page = take limit rest
  /\ (pg_truncated page = true -> after_cursor (pg_next_cursor page) visible = drop limit rest
        /\ rebase_cursor (in_event_retention_floor s) (pg_next_cursor page)
             (le_cursor <$> last visible) = None).
Proof.
  intros Hre. unfold read_turn_events_after, project_turn_events. simpl.
  rewrite scoped_visible, Hre. simpl. fold (after_cursor after visible).
  set (rest := after_cursor after visible). split; [done|]. split; [done|].
  destruct (bool_decide (limit < length rest)%nat) eqn:Htr.
  - apply bool_decide_eq_true in Htr. split; [done|]. intros _.
    assert (is_Some (last (take limit rest))) as [e He].
    { apply last_is_Some. intros Hn%(f_equal length). rewrite length_take in Hn. simpl in Hn. lia. }
    rewrite He. simpl. assert (increasing visible) as Hinc by apply increasing_filter, log_increasing.
    split; [by apply after_take_last|].
    assert (e ∈ visible) as Hin.
    { apply last_Some_elem_of in He. apply elem_of_take in He as (i & Hi & _).
      apply list_elem_of_lookup_2, list_elem_of_In, filter_In in Hi as [Hi _]. by apply list_elem_of_In. }
    assert (e ∈ in_events s) as Hin'.
    { apply list_elem_of_In, filter_In in Hin as [Hi _]. by apply list_elem_of_In. }
    destruct log_increasing as [_ Hfl]. rewrite Forall_forall in Hfl. specialize (Hfl e Hin'). simpl in Hfl.
    unfold rebase_cursor. destruct (_ && _) eqn:Hb; [lia|].
    destruct visible as [|v l] eqn:Hv; [by apply elem_of_nil in Hin|].
    destruct (last (v :: l)) as [w|] eqn:Hw; [|by apply last_None in Hw]. simpl.
    assert (le_cursor e <= le_cursor w) as Hew; [|destruct (le_cursor w <? le_cursor e) eqn:?; [lia | done]].
    apply last_Some in Hw as [l' Hw]. rewrite Hw in Hin, Hinc.
    apply elem_of_app in Hin as [Hin| ->%list_elem_of_singleton]; [|lia].
    unfold increasing in Hinc. rewrite map_app in Hinc. apply StronglySorted_app in Hinc as (Hlt & _ & _).
    apply Z.lt_le_incl, Hlt; [by apply list_elem_of_fmap_2 | by left].
  - apply bool_decide_eq_false in Htr. split; [|done]. by rewrite take_ge by lia.
Qed.

Lemma read_pages_all fuel after :
  rebase_cursor (in_event_retention_floor s) after (le_cursor <$> last visible) = None ->
  (length (after_cursor after visible) < fuel)%nat ->
  read_pages fuel scope owner after limit s = Some (after_cursor after visible).
Proof.
  revert after. induction fuel as [|fuel IH]; intros after Hre Hf; [lia|]. cbn [read_pages].
  destruct (page_at after Hre) as (H1 & H2 & H3 & H4). rewrite H1.
  destruct (pg_truncated _) eqn:Ht.
  - destruct (H4 eq_refl) as [H5 H6]. symmetry in H2. apply bool_decide_eq_true in H2.
    rewrite IH; [|done|].
    + rewrite H3, H5. simpl. by rewrite take_drop.
    + rewrite H5, length_drop. lia.
  - symmetry in H2. apply bool_decide_eq_false in H2. rewrite H3. by rewrite take_ge by lia.
Qed.

Lemma rebase_once after c :
  rebase_cursor (in_event_retention_floor s) after (le_cursor <$> last visible) = Some c ->
  rebase_cursor (in_event_retention_floor s) c (le_cursor <$> last visible) = None.
Proof.
  assert (forall w, last visible = Some w -> in_event_retention_floor s < le_cursor w) as Hw.
  { intros w Hw%last_Some_elem_of. apply list_elem_of_In, filter_In in Hw as [Hw _].
    apply list_elem_of_In in Hw. destruct log_increasing as [_ Hfl]. rewrite Forall_forall in Hfl.
    by apply Hfl. }
  unfold rebase_cursor. destruct (last visible) as [w|]; simpl.
  - specialize (Hw w eq_refl). destruct (_ && _) eqn:Hb.
    + intros [= <-]. rewrite Z.ltb_irrefl, andb_false_r. destruct (le_cursor w <? in_event_retention_floor s) eqn:?; [lia | done].
    + destruct (le_cursor w <? after) eqn:Hlt; [|done]. intros [= <-].
      rewrite Z.ltb_irrefl. by destruct (le_cursor w <? in_event_retention_floor s) eqn:?; [lia | rewrite andb_false_r].
  - destruct (_ && _) eqn:Hb; [|destruct (_ <? after) eqn:Hlt; [|done] ]; intros [= <-];
      by rewrite Z.ltb_irrefl, andb_false_r.
Qed.

End Paging.

Section Theorem_.
Context {T : Chrono} {U : UuidText} {P : UuidParse U}.
Variable limit_for : TurnAdmissionLimitProvider.

(** The event log of a reachable store can be read without loss: its cursors are
    strictly increasing from the retention floor to the store's cursor (until the
    64-bit counter is exhausted), a reader that is told to rebase and follows is not
    told so again, and a reader that is not and follows the cursors of the pages,
    whatever the page size, gets after at most one page per event exactly the
    events of its scope and owner after its position, each once, in order. *)
Theorem paging_returns_every_event_once limits s scope owner after limit :
  reachable limit_for limits s -> in_cursor s < u64_max -> (0 < limit)%nat ->
  StronglySorted Z.lt (in_event_retention_floor s :: map le_cursor (in_events s))
  /\ from_option le_cursor (in_event_retention_floor s) (last (in_events s)) = in_cursor s
  /\ let page := read_turn_events_after scope owner (Some after) limit s in
     match pg_rebase_required page with
     | Some c => pg_rebase_required (read_turn_events_after scope owner (Some c) limit s) = None
     | None => read_pages (S (length (in_events s))) scope owner after limit s
               = Some (List.filter (fun e => event_visible scope owner e && (after <? le_cursor e))
                         (in_events s))
     end.
Proof.
  intros Hs%reachable_inv Hc Hl. pose proof (inv_events _ Hs) as He.
  split; [by apply He|]. split; [by apply He|]. cbv zeta.
  set (visible := List.filter (event_visible scope owner) (in_events s)).
  assert (forall c, rebase_cursor (in_event_retention_floor s) c (le_cursor <$> last visible) = None ->
            pg_rebase_required (read_turn_events_after scope owner (Some c) limit s) = None) as Hnone.
  { intros c Hre. by apply (page_at scope owner limit s Hl He Hc c). }
  destruct (rebase_cursor (in_event_retention_floor s) after (le_cursor <$> last visible)) as [c|] eqn:Hre.
  - assert (pg_rebase_required (read_turn_events_after scope owner (Some after) limit s) = Some c) as ->.
    { unfold read_turn_events_after, project_turn_events. simpl.
      rewrite (scoped_visible scope owner s He Hc). fold visible. by rewrite Hre. }
    apply Hnone. by eapply rebase_once.
  - rewrite (Hnone after Hre). rewrite (read_pages_all scope owner limit s Hl He Hc _ after Hre).
    + f_equal. unfold after_cursor, visible. clear. induction (in_events s) as [|e l IH]; simpl; [done|].
      destruct (event_visible scope owner e); simpl; [|exact IH].
      destruct (after <? le_cursor e); [f_equal|]; exact IH.
    + apply Nat.lt_succ_r. unfold after_cursor. etrans; [apply List.filter_length_le|].
      apply List.filter_length_le.
Qed.

End Theorem_.
