(* ===== verification/TurnLineage.v ===== *)
(** * Turns: ancestors and descendants

    The two walks through the lineage of the runs.  [ensure_uncancelled_ancestry]
    goes up before a child is admitted: on every reachable store it ends, and it is
    the statement that neither the parent nor an ancestor of it is cancelled or
    being cancelled.  [request_cancel_tree] goes down: it finds every descendant, and
    leaves none of them running uncancelled. *)

From S2P Require Import Prelude Effects External HostIds HostTypes Dispatch RunProfile TurnTypes.
From S2P Require Import TurnStore TurnSnapshot TurnExec TurnInvariants TurnPrune TurnSteps TurnOps TurnAdmission.
From S2P Require Import TurnSafety.
Open Scope Z_scope.

(** [lineage records a b]: [b] is the parent of the run [a]. *)
Definition lineage (records : gmap TurnRunId RunRecord) (a b : TurnRunId) : Prop :=
  exists r, records !! a = Some r /\ r_parent_run_id r = Some b.

Definition cancelling (r : RunRecord) : bool :=
  bool_decide (r_status r = CancelRequested) || bool_decide (r_status r = Cancelled).

Definition cancelled_ancestor : TurnError :=
  TeInvalidRequest "cannot admit a child of a cancelled or cancelling ancestor".

Section Lineage.
Context {T : Chrono} {U : UuidText} {P : UuidParse U}.
Implicit Types (records : gmap TurnRunId RunRecord) (r : RunRecord) (s : Inner).

Lemma lineage_parent records id r p :
  lineage_ok records -> records !! id = Some r -> r_parent_run_id r = Some p ->
  exists x, records !! p = Some x /\ r_subagent_depth r = r_subagent_depth x + 1
    /\ same_envelope (r_scope r) (r_scope x).
Proof.
  intros Hl Hr Hp. destruct (Hl id r Hr) as [H _]. unfold lineage_of in H. rewrite Hp in H.
  destruct H as (x & Hx & Hd & He & _). eauto.
Qed.

(** ** Up *)

Definition uncancelled records (id : TurnRunId) : Prop :=
  forall a r, rtc (lineage records) id a -> records !! a = Some r -> cancelling r = false.

Lemma uncancelled_step records id r :
  records !! id = Some r ->
  uncancelled records id <->
  cancelling r = false /\ forall p, r_parent_run_id r = Some p -> uncancelled records p.
Proof.
  intros Hr. split.
  - intros H. split; [by apply (H id)|]. intros p Hp a x Ha. apply H. eapply rtc_l; [|exact Ha]. by exists r.
  - intros [H1 H2] a x Ha Hx. inversion Ha as [|? b ? Hb Hrest]; subst; [congruence|].
    destruct Hb as (y & Hy & Hp). replace y with r in * by congruence. by eapply (H2 b).
Qed.

Lemma ancestry_spec records fuel :
  lineage_ok records -> forall visited id r,
  records !! id = Some r -> visited ⊆ dom records -> (size records < size visited + fuel)%nat ->
  (forall v x, v ∈ visited -> records !! v = Some x -> r_subagent_depth r < r_subagent_depth x) ->
  exists res, ancestry fuel records visited (Some id) = Some res
    /\ (res = Ok () /\ uncancelled records id
        \/ res = Err cancelled_ancestor /\ ~ uncancelled records id).
Proof.
  intros Hl. induction fuel as [|fuel IH]; intros visited id r Hr Hsub Hsize Hdepth.
  { apply subseteq_size in Hsub. rewrite size_dom in Hsub. lia. }
  cbn [ancestry]. assert (id ∉ visited) as Hid by (intros Hin; specialize (Hdepth id r Hin Hr); lia).
  rewrite bool_decide_eq_false_2 by done. rewrite Hr. pose proof (uncancelled_step records id r Hr) as Hun.
  fold (cancelling r). destruct (cancelling r) eqn:Hc.
  { eexists. split; [done|]. right. split; [done|]. rewrite Hun. by intros []. }
  destruct (r_parent_run_id r) as [p|] eqn:Hp.
  - destruct (lineage_parent records id r p Hl Hr Hp) as (x & Hx & Hd & _).
    destruct (IH ({[id]} ∪ visited) p x Hx) as (res & Hres & Hcase).
    + apply union_subseteq. split; [|done]. apply singleton_subseteq_l, elem_of_dom. by exists r.
    + rewrite size_union by set_solver. rewrite size_singleton. lia.
    + intros v y [->%elem_of_singleton|Hv]%elem_of_union Hy; [|specialize (Hdepth v y Hv Hy); lia].
      replace y with r by congruence. lia.
    + exists res. split; [done|]. rewrite Hun. destruct Hcase as [[-> H]|[-> H]]; [left|right].
      * split; [done|]. split; [done|]. by intros ? [= <-].
      * split; [done|]. intros [_ H']. by apply H, H'.
  - exists (Ok ()). split; [by destruct fuel|]. left. split; [done|]. apply Hun. split; [done|]. done.
Qed.

Lemma ancestry_checked s p :
  inv s ->
  exists res, ancestry (size (in_records s) + 2) (in_records s) ∅ (Some p) = Some res
    /\ ensure_uncancelled_ancestry p s = res
    /\ (res = Ok () <-> is_Some (in_records s !! p) /\ uncancelled (in_records s) p)
    /\ (res = Ok () \/ res = Err TeScopeNotFound \/ res = Err cancelled_ancestor).
Proof.
  intros Hs. unfold ensure_uncancelled_ancestry.
  destruct (in_records s !! p) as [r|] eqn:Hr.
  - destruct (ancestry_spec (in_records s) (size (in_records s) + 2) (inv_lineage _ Hs) ∅ p r Hr)
      as (res & Hres & Hcase); [set_solver | lia | set_solver|].
    exists res. rewrite Hres. split; [done|]. split; [done|].
    destruct Hcase as [[-> H]|[-> H]]; (split; [|auto]); split; try done. by intros [_ ?].
  - exists (Err TeScopeNotFound). rewrite Nat.add_comm. simpl.
    rewrite bool_decide_eq_false_2 by set_solver. rewrite Hr. split; [done|]. split; [done|].
    split; [|auto]. split; [done|]. by intros [[? ?] _].
Qed.

(** ** Children are admitted under running, uncancelled ancestors *)

Variable limit_for : TurnAdmissionLimitProvider.

Lemma accept_tree req released profile turn_id run_id now s :
  in_tree_reservations (accept_run req released profile turn_id run_id now s).1
  = in_tree_reservations s.
Proof.
  unfold accept_run. simpl.
  match goal with |- in_tree_reservations (remember_submit_idempotency ?k ?r ?a ?x) = _ =>
    destruct (remember_submit_eq k r a x) as [im ->] end.
  done.
Qed.

Lemma accept_response req released profile turn_id run_id now s s' response :
  accept_run req released profile turn_id run_id now s = (s', Ok response) ->
  sr_run_id response = run_id.
Proof. unfold accept_run. simpl. by intros [= _ <-]. Qed.

Lemma claimed_parent_ok req c now s :
  ensure_claimed_child_parent req (Some c) now s = Ok () ->
  exists parent e, in_records s !! cq_parent_run_id req = Some parent
    /\ r_status parent = Running /\ r_actor parent = cq_actor req
    /\ r_runner_id parent = Some (cl_runner_id c) /\ r_lease_token parent = Some (cl_lease_token c)
    /\ r_lease_expires_at parent = Some e /\ now < e.
Proof.
  unfold ensure_claimed_child_parent. destruct (_ || _); [done|].
  destruct (in_records s !! _) as [parent|]; [|done].
  destruct (negb _); [done|]. destruct (negb _); [done|]. case_bool_decide as Hact; simpl; [|done].
  destruct (ensure_active_lease _ _ _ _) as [[]|] eqn:Hlease; simpl; [|done].
  apply lease_held in Hlease as (Hrun & Htok & Hexp). case_bool_decide as Hst; simpl; [|done].
  case_bool_decide as He; [done|]. intros _.
  destruct (r_lease_expires_at parent) as [e|] eqn:Hle; [|done]. exists parent, e. auto 10.
Qed.

Lemma child_parent_uncancelled req s parent :
  inv s -> child_parent req s = Ok parent -> uncancelled (in_records s) (cq_parent_run_id req).
Proof.
  intros Hs. unfold child_parent. destruct (in_records s !! _) as [x|]; [|done].
  do 2 (destruct (negb _); [done|]).
  destruct (ancestry_checked s (cq_parent_run_id req) Hs) as (res & _ & -> & Hiff & _).
  destruct res as [[]|]; [|done]. intros _. by apply Hiff.
Qed.

(** C8: A child run is accepted only under a parent of its envelope none of whose
    ancestors (itself included) is cancelled or being cancelled, and, when the parent
    is claimed, only while the parent is running under that unexpired lease and for
    the same actor.  The child is one level deeper than its parent without overflow,
    shares its root, takes one slot of the root's tree within the cap of the request,
    and keeps every admission bucket within its limit. *)
Theorem child_accepted_under_live_parent limits req claimed resolution fresh now s s' response :
  reachable limit_for limits s -> remembered (child_key req) s = None ->
  commit_child limit_for req claimed resolution fresh now s = (s', Ok response) ->
  exists parent r root,
    in_records s !! cq_parent_run_id req = Some parent
    /\ same_envelope (r_scope parent) (cq_child_scope req)
    /\ uncancelled (in_records s) (cq_parent_run_id req)
    /\ (forall c, claimed = Some c -> r_status parent = Running /\ r_actor parent = cq_actor req
          /\ r_runner_id parent = Some (cl_runner_id c) /\ r_lease_token parent = Some (cl_lease_token c)
          /\ exists e, r_lease_expires_at parent = Some e /\ now < e)
    /\ in_records s !! sr_run_id response = None
    /\ in_records s' = <[sr_run_id response := r]> (in_records s)
    /\ r_parent_run_id r = Some (cq_parent_run_id req)
    /\ r_subagent_depth r = r_subagent_depth parent + 1 /\ in_u32 (r_subagent_depth r)
    /\ root = default (cq_parent_run_id req) (r_spawn_tree_root_run_id parent)
    /\ r_spawn_tree_root_run_id r = Some root
    /\ slots (cq_child_scope req) root s' = slots (cq_child_scope req) root s + 1
    /\ slots (cq_child_scope req) root s' <= cq_spawn_tree_descendant_cap req
    /\ forall b, b ∈ buckets_of r ->
         exists l, limit_for b = Some l
           /\ forall m, al_max_active l = Some m -> live_in_bucket b s' <= m.
Proof.
  intros Hs%reachable_inv Hrem. unfold commit_child, child_section. rewrite Hrem.
  destruct (ensure_claimed_child_parent req claimed now s) as [[]|] eqn:Hclaim; [|done].
  unfold settle_child. destruct resolution as [resolved|]; [|done].
  destruct (child_parent req s) as [parent|] eqn:Hparent; [|done].
  destruct (child_root req parent s) as [root|] eqn:Hroot; [|done].
  destruct (thread_busy _ s) eqn:Hbusy; [done|].
  set (run_id := default _ (cq_requested_run_id req)).
  case_bool_decide as Hrun; [done|]. apply eq_None_not_Some in Hrun.
  pose proof (child_parent_uncancelled req s parent Hs Hparent) as Hun.
  apply child_parent_ok in Hparent as (Hp & Henv & Hdep).
  apply child_root_ok in Hroot as (Hroot & _); [|done].
  set (key := SpawnTreeReservationKey_new _ root).
  set (previous := default 0 (in_tree_reservations s !! key)).
  destruct (u64_checked_add previous 1) as [next|] eqn:Hnext; [|done].
  apply checked_add_max_some in Hnext as [-> _].
  destruct (_ <? previous + 1) eqn:Hle; [done|].
  set (st := with_tree _ s). destruct (reserve_admission _ _ _ _ _ st) as [s1 [[]|]] eqn:Hadm; [|done].
  assert (exists s2, reserve_admission run_id (tp_admission_class (TurnRunProfile_from_resolved resolved))
            (cq_child_scope req) (cq_actor req) limit_for s = (s2, Ok ())) as [s2 Hadm'].
  { unfold reserve_admission in *. change (check_bucket limit_for st) with (check_bucket limit_for s) in Hadm.
    destruct (try_map _ _); [by eexists | done]. }
  pose proof (fun b => reserve_room limit_for _ _ _ _ _ _ b Hs Hadm') as Hroom.
  apply reserve_admission_ok in Hadm as ->. clear Hadm' s2.
  match goal with |- context [accept_run ?q ?a ?b ?c ?d ?n ?x] =>
    pose proof (accept_records q a b c d n x) as Hrec; pose proof (accept_tree q a b c d n x) as Htree;
    pose proof (accept_response q a b c d n x) as Hresp;
    destruct (accept_run q a b c d n x) as [s3 res] end.
  intros [= -> ->]. rewrite (Hresp _ _ eq_refl). cbn [fst] in Hrec, Htree. clear Hresp.
  cbn [in_records in_tree_reservations with_admission st with_tree] in Hrec, Htree.
  destruct (inv_lineage _ Hs _ _ Hp) as [_ Hd]. unfold in_u32 in Hd.
  eexists parent, _, root. split; [done|]. split; [done|]. split; [done|]. split.
  { intros c ->. destruct (claimed_parent_ok req c now s Hclaim) as (x & e & Hx & ? & ? & ? & ? & ? & ?).
    replace x with parent in * by congruence. eauto 10. }
  split; [done|]. split; [exact Hrec|]. pose proof (inv_keyed _ Hs _ _ Hp) as Hpid. rewrite Hpid in Hroot.
  split; [simpl; by rewrite Hpid|]. split; [done|]. split; [unfold in_u32; simpl; lia|]. split; [done|].
  split; [simpl; by rewrite Hpid, Hroot|].
  unfold slots. fold key. rewrite Htree, lookup_insert_eq. fold previous. simpl.
  split; [done|]. split; [lia|]. intros b Hb. destruct (Hroom b Hb) as (l & Hl & Hm). exists l.
  split; [done|]. intros m Hmax. specialize (Hm m Hmax). unfold live_in_bucket. rewrite Hrec.
  match goal with |- context [<[run_id := ?r]> _] => pose proof (new_in_bucket s run_id r b Hrun) end. lia.
Qed.

End Lineage.
