(* ===== verification/TurnCancel.v ===== *)
(** * Turns: cancelling a tree

    [request_cancel_tree] of [memory.rs]: the walk that collects the requests visits
    every descendant of the run once and ends, and the cancellations it makes, all or
    none of them, leave no descendant running uncancelled. *)

From S2P Require Import Prelude Effects External HostIds HostTypes Dispatch RunProfile TurnTypes.
From S2P Require Import TurnStore TurnSnapshot TurnExec TurnInvariants TurnPrune TurnSteps TurnOps TurnAdmission.
From S2P Require Import TurnSafety TurnLineage.
Open Scope Z_scope.

Section Cancel.
Context {T : Chrono} {U : UuidText} {P : UuidParse U}.
Implicit Types (records : gmap TurnRunId RunRecord) (r : RunRecord) (s : Inner).

(** ** The walk *)

Section Walk.
Variables (s : Inner) (req : CancelRunRequest) (order : list TurnRunId) (root : RunRecord).
Hypothesis Hs : inv s.
Hypothesis Horder : order ≡ₚ (map_to_list (in_records s)).*1.
Hypothesis Hroot : in_records s !! xq_run_id req = Some root.
Hypothesis Hscope : r_scope root = xq_scope req.

Let records := in_records s.
Let rid := xq_run_id req.
Let children := tree_children (xq_scope req) order records.

(** [d] is a descendant of the run, or the run. *)
Definition below (d : TurnRunId) : Prop := rtc (lineage records) d rid.

Lemma children_spec p x :
  below p -> x ∈ children p <-> records !! r_run_id x = Some x /\ r_parent_run_id x = Some p.
Proof.
  intros Hp. unfold children, tree_children.
  rewrite list_elem_of_In, filter_In, <- list_elem_of_In, list_elem_of_omap, andb_true_iff,
    bool_decide_eq_true, same_scope_envelope_true. split.
  - intros [(id & Hid & Hx) [_ Hpar]]. by rewrite (inv_keyed _ Hs _ _ Hx).
  - intros [Hx Hpar]. split.
    + exists (r_run_id x). split; [|done]. rewrite Horder. apply list_elem_of_fmap.
      exists (r_run_id x, x). split; [done|]. by apply elem_of_map_to_list.
    + split; [|done].
      assert (forall d r, below d -> records !! d = Some r -> same_envelope (r_scope r) (xq_scope req)) as Henv.
      { intros d r Hd. revert r. unfold below in Hd.
        remember rid as e eqn:He. induction Hd as [|d e' e (y & Hy & Hyp) _ IH]; intros r Hr.
        - subst. unfold rid in Hr. replace r with root by (unfold records in Hr; congruence).
          by rewrite Hscope.
        - replace r with y by congruence.
          destruct (lineage_parent records d y e' (inv_lineage _ Hs) Hy Hyp) as (z & Hz & _ & Hyz).
          eapply same_envelope_trans; [exact Hyz|]. by apply IH. }
      apply (Henv (r_run_id x)); [|done]. eapply rtc_l; [|exact Hp]. by exists x.
Qed.

Lemma children_nodup p : NoDup (map r_run_id (children p)).
Proof.
  unfold children, tree_children. pose proof (order_nodup s order Horder) as Hnd. clear -Hnd Hs.
  induction order as [|id l IH]; simpl; [constructor|]. apply NoDup_cons in Hnd as [Hid Hnd].
  destruct (records !! id) as [x|] eqn:Hx; simpl; [|by apply IH].
  destruct (_ && _); [|by apply IH]. simpl. constructor; [|by apply IH].
  rewrite (inv_keyed _ Hs _ _ Hx). intros Hin. apply list_elem_of_In, in_map_iff in Hin as (y & Hy & Hin).
  apply filter_In in Hin as [Hin _]. apply list_elem_of_In, list_elem_of_omap in Hin as (j & Hj & Hyj).
  rewrite (inv_keyed _ Hs _ _ Hyj) in Hy. congruence.
Qed.

Lemma below_depth d r : below d -> records !! d = Some r -> r_subagent_depth root <= r_subagent_depth r.
Proof.
  intros Hd. unfold below in Hd. revert r. remember rid as e eqn:He.
  induction Hd as [|d e' e (y & Hy & Hyp) _ IH]; intros r Hr.
  - subst. unfold rid, records in Hr. replace r with root by congruence. lia.
  - replace r with y by congruence.
    destruct (lineage_parent records d y e' (inv_lineage _ Hs) Hy Hyp) as (z & Hz & Hdz & _).
    specialize (IH He z Hz). lia.
Qed.

(** A request of the walk is for a record below the run. *)
Definition asks (q : CancelRunRequest) (x : RunRecord) : Prop :=
  xq_run_id q = r_run_id x /\ xq_scope q = r_scope x /\ xq_actor q = xq_actor req.

Lemma child_cancel_asks x q : child_cancel req x = Ok q -> asks q x.
Proof. unfold child_cancel. destruct (map_err _ _); simpl; [|done]. by intros [= <-]. Qed.

(** The state of the walk: [popped] are the runs whose children were visited. *)
Record walking (popped : list TurnRunId) (w : cancel_walk_state) : Prop := {
  wk_nodup : NoDup (w.1.1 ++ popped);
  wk_visited : forall d, d ∈ w.1.2 <-> d ∈ w.1.1 ++ popped;
  wk_below : forall d, d ∈ w.1.2 -> below d /\ is_Some (records !! d);
  wk_parent : forall d, d ∈ w.1.2 -> d = rid \/ exists r p, records !! d = Some r
                /\ r_parent_run_id r = Some p /\ p ∈ popped;
  wk_children : forall p x, p ∈ popped -> records !! r_run_id x = Some x ->
                  r_parent_run_id x = Some p -> r_run_id x ∈ w.1.2;
  wk_requests : forall d x, d ∈ w.1.2 -> d <> rid -> records !! d = Some x -> live x ->
                  exists q, q ∈ w.2 /\ asks q x;
  wk_only : forall q, q ∈ w.2 -> below (xq_run_id q);
  wk_root : rid ∈ w.1.2 }.

(** Visiting the children [todo] of [p], the ones before them being done. *)
Record visiting (popped : list TurnRunId) (p : TurnRunId) (todo : list RunRecord)
    (w : cancel_walk_state) : Prop := {
  vs_nodup : NoDup (w.1.1 ++ p :: popped);
  vs_visited : forall d, d ∈ w.1.2 <-> d ∈ w.1.1 ++ p :: popped;
  vs_below : forall d, d ∈ w.1.2 -> below d /\ is_Some (records !! d);
  vs_parent : forall d, d ∈ w.1.2 -> d = rid \/ exists r q, records !! d = Some r
                /\ r_parent_run_id r = Some q /\ q ∈ p :: popped;
  vs_children : forall q x, q ∈ popped -> records !! r_run_id x = Some x ->
                  r_parent_run_id x = Some q -> r_run_id x ∈ w.1.2;
  vs_done : forall x, records !! r_run_id x = Some x -> r_parent_run_id x = Some p ->
              r_run_id x ∈ w.1.2 \/ x ∈ todo;
  vs_todo : forall x, x ∈ todo -> records !! r_run_id x = Some x /\ r_parent_run_id x = Some p
              /\ (r_run_id x ∉ w.1.2);
  vs_todo_nodup : NoDup (map r_run_id todo);
  vs_requests : forall d x, d ∈ w.1.2 -> d <> rid -> records !! d = Some x -> live x ->
                  exists q, q ∈ w.2 /\ asks q x;
  vs_only : forall q, q ∈ w.2 -> below (xq_run_id q);
  vs_root : rid ∈ w.1.2 }.

Lemma visit_children_ok popped p todo w w' :
  below p -> visiting popped p todo w -> visit_children req todo w = Ok w' ->
  walking (p :: popped) w'.
Proof.
  intros Hp. revert w. induction todo as [|x todo IH]; intros w Hv.
  { cbn [visit_children]. intros [= <-]. destruct Hv as [V1 V2 V3 V4 V5 V6 V7 V8 V9 V10 V11].
    split; try done. intros q x [-> |Hq]%elem_of_cons Hx Hpar; [|by eapply V5].
    by destruct (V6 x Hx Hpar) as [|?%elem_of_nil]. }
  destruct w as [[stack visited] requests]. cbn [visit_children].
  destruct Hv as [V1 V2 V3 V4 V5 V6 V7 V8 V9 V10 V11]. simpl in *.
  destruct (V7 x) as (Hx & Hpar & Hnx); [by left|]. rewrite bool_decide_eq_false_2 by done.
  apply NoDup_cons in V8 as [Hx8 V8].
  assert (r_run_id x <> rid) as Hxr.
  { intros E. pose proof (below_depth p) as Hbd.
    destruct (lineage_parent records _ x p (inv_lineage _ Hs) Hx Hpar) as (z & Hz & Hdz & _).
    specialize (Hbd z Hp Hz). unfold records in Hx. rewrite E in Hx. unfold rid in Hx.
    assert (x = root) as -> by congruence. lia. }
  assert (forall requests', (forall q, q ∈ requests -> q ∈ requests') ->
            (live x -> exists q, q ∈ requests' /\ asks q x) ->
            (forall q, q ∈ requests' -> below (xq_run_id q)) ->
            visiting popped p todo (r_run_id x :: stack, {[r_run_id x]} ∪ visited, requests')) as Hnext.
  { intros requests' Hsub Hask Honly. split; simpl.
    - constructor; [|done]. by rewrite <- V2.
    - intros d. rewrite elem_of_union, elem_of_singleton, elem_of_cons, V2. done.
    - intros d [->%elem_of_singleton|Hd]%elem_of_union; [|by apply V3].
      split; [|by exists x]. eapply rtc_l; [|exact Hp]. by exists x.
    - intros d [->%elem_of_singleton|Hd]%elem_of_union; [|by apply V4].
      right. exists x, p. split; [done|]. split; [done|]. by left.
    - intros q y Hq Hy Hyp. apply elem_of_union_r. by eapply V5.
    - intros y Hy Hyp. destruct (V6 y Hy Hyp) as [|[-> |]%elem_of_cons]; [| |by right].
      + left. by apply elem_of_union_r.
      + left. apply elem_of_union_l. by apply elem_of_singleton.
    - intros y Hy. destruct (V7 y) as (? & ? & Hny); [by right|]. split_and!; try done.
      intros [E%elem_of_singleton|]%elem_of_union; [|done]. apply Hx8. rewrite <- E.
      apply list_elem_of_In, in_map. by apply list_elem_of_In.
    - done.
    - intros d y [->%elem_of_singleton|Hd]%elem_of_union Hne Hy Hly.
      + replace y with x in * by congruence. by apply Hask.
      + destruct (V9 d y Hd Hne Hy Hly) as (q & Hq & Hqa). eauto.
    - done.
    - by apply elem_of_union_r. }
  destruct (is_terminal (r_status x) && _) eqn:Hterm.
  - apply IH, Hnext; [done | | done]. apply andb_true_iff in Hterm as [Hterm _].
    unfold live. congruence.
  - destruct (child_cancel req x) as [q|] eqn:Hq; simpl; [|done]. apply child_cancel_asks in Hq.
    apply IH, Hnext.
    + intros q' Hq'. apply elem_of_app. by left.
    + intros _. exists q. split; [|done]. apply elem_of_app. right. by left.
    + intros q' [Hq'| ->%list_elem_of_singleton]%elem_of_app; [by apply V10|].
      rewrite (proj1 Hq). eapply rtc_l; [|exact Hp]. by exists x.
Qed.

Lemma walk_visits popped p stack visited requests :
  walking popped (p :: stack, visited, requests) ->
  below p /\ visiting popped p (children p) (stack, visited, requests).
Proof.
  intros [W1 W2 W3 W4 W5 W6 W7 W8]. simpl in *.
  assert (p ∈ visited) as Hpv by (apply W2; by left).
  destruct (W3 p Hpv) as [Hp _]. split; [done|].
  assert (stack ++ p :: popped ≡ₚ p :: stack ++ popped) as Hperm by by rewrite <- Permutation_middle.
  assert (p ∉ popped) as Hnp.
  { apply NoDup_cons in W1 as [H _]. intros Hin. apply H, elem_of_app. by right. }
  split; simpl; try done.
  - by rewrite Hperm.
  - intros d. rewrite W2. by rewrite Hperm.
  - intros d Hd. destruct (W4 d Hd) as [|(r & q & ? & ? & ?)]; [by left|]. right. exists r, q.
    split; [done|]. split; [done|]. by right.
  - intros x Hx Hpar. right. by apply children_spec.
  - intros x Hx. apply (children_spec p x Hp) in Hx as [Hx Hpar]. split; [done|]. split; [done|].
    intros Hv. destruct (W4 _ Hv) as [E|(r & q & Hr & Hq & Hpop)].
    + pose proof (below_depth p) as Hbd.
      destruct (lineage_parent records _ x p (inv_lineage _ Hs) Hx Hpar) as (z & Hz & Hdz & _).
      specialize (Hbd z Hp Hz). unfold records in Hx. rewrite E in Hx. unfold rid in Hx.
      assert (x = root) as -> by congruence. lia.
    + replace r with x in * by congruence. congruence.
  - apply children_nodup.
Qed.

(** The walk ends within the fuel of the model, and with success only when every
    descendant was visited. *)
Lemma cancel_walk_ok fuel : forall popped w,
  walking popped w -> (size records < fuel + length popped)%nat ->
  exists res, cancel_walk fuel req children w = Some res
    /\ forall requests, res = Ok requests ->
         exists popped' visited, walking popped' ([], visited, requests).
Proof.
  induction fuel as [|fuel IH]; intros popped w Hw Hf.
  - exfalso. assert (length popped <= size records)%nat; [|lia].
    rewrite <- length_map_to_list, <- (length_fmap fst). apply submseteq_length, NoDup_submseteq.
    + apply (wk_nodup _ _) in Hw. by apply NoDup_app in Hw as (_ & _ & ?).
    + intros d Hd. assert (d ∈ w.1.2) as Hv by (apply (wk_visited _ _ Hw), elem_of_app; by right).
      destruct (wk_below _ _ Hw d Hv) as [_ [r Hr]]. apply list_elem_of_fmap. exists (d, r).
      split; [done|]. by apply elem_of_map_to_list.
  - destruct w as [[[|p stack] visited] requests]; cbn [cancel_walk].
    + exists (Ok requests). split; [done|]. intros ? [= <-]. by exists popped, visited.
    + destruct (walk_visits _ _ _ _ _ Hw) as [Hp Hv].
      destruct (visit_children req (children p) _) as [w'|e] eqn:Hvis; [|by exists (Err e)].
      pose proof (visit_children_ok _ _ _ _ _ Hp Hv Hvis) as Hw'.
      apply (IH _ w' Hw'). simpl. lia.
Qed.

Lemma walk_start : walking [] ([rid], {[rid]}, []).
Proof.
  split; simpl; try set_solver.
  - apply NoDup_singleton.
  - intros d ->%elem_of_singleton. split; [by apply rtc_refl | by exists root].
Qed.

Lemma walk_complete popped visited requests :
  walking popped ([], visited, requests) ->
  forall d x, below d -> d <> rid -> records !! d = Some x -> live x ->
  exists q, q ∈ requests /\ asks q x.
Proof.
  intros Hw d x Hd Hne Hx Hl. refine (wk_requests _ _ Hw d x _ Hne Hx Hl). simpl. clear Hne Hx Hl x.
  unfold below in Hd. remember rid as e eqn:He.
  induction Hd as [|d p e (y & Hy & Hpar) _ IH]; [subst; apply (wk_root _ _ Hw)|].
  specialize (IH He). apply (wk_visited _ _ Hw) in IH. simpl in IH.
  pose proof (inv_keyed _ Hs _ _ Hy) as Hk. rewrite <- Hk in Hy |- *.
  by apply (wk_children _ _ Hw p y).
Qed.

End Walk.
(** ** The cancellations *)

(** Asked to cancel, or over. *)
Definition stopped r : Prop := r_status r = CancelRequested \/ ~ live r.
Definition settled s (d : TurnRunId) : Prop := forall r, in_records s !! d = Some r -> stopped r.

Lemma cancel_once_effect req now s s' response :
  inv s -> request_cancel_once req false now s = (s', Ok response) ->
  (forall d, d <> xq_run_id req -> in_records s' !! d = in_records s !! d)
  /\ settled s' (xq_run_id req) /\ in_idempotency s' = in_idempotency s.
Proof.
  intros Hs. unfold request_cancel_once, with_record, take_record.
  destruct (in_records s !! xq_run_id req) as [r|] eqn:Hr; simpl; [|done].
  pose proof (inv_keyed _ Hs _ _ Hr) as Hid. pose proof (inv_runs _ Hs _ _ Hr) as Hok. rewrite <- Hid in *.
  destruct (negb (bool_decide (r_scope r = _))); simpl; [done|].
  destruct (negb (bool_decide (r_actor r = _))); simpl; [done|].
  assert (stopped r -> forall resp : CancelRunResponse,
    (put_record r (with_records (delete (r_run_id r) (in_records s)) s), Ok (E := TurnError) resp) = (s', Ok response) ->
    (forall d, d <> r_run_id r -> in_records s' !! d = in_records s !! d)
    /\ settled s' (r_run_id r) /\ in_idempotency s' = in_idempotency s) as Hkept.
  { intros Hst resp. rewrite put_taken by done. intros [= -> _]. split; [done|]. split; [|done].
    intros x Hx. by replace x with r by congruence. }
  destruct (is_terminal (r_status r)) eqn:Hterm; [apply Hkept; right; unfold live; congruence|].
  fold (cancel_target r). destruct (cancel_target r) as [[status kind]|] eqn:Ht.
  2: { exfalso. unfold cancel_target in Ht. destruct (r_status r); try done. by destruct (native_waiting r). }
  destruct (cancel_target_ok r status kind Hok Ht) as (_ & _ & [(-> & _ & _)|[-> _] ]); simpl.
  - rewrite update_active_lock_eq. simpl. intros [= <- _]. simpl. split_and!; [|intros x; simpl|done].
    + intros d Hd. by rewrite lookup_insert_ne, lookup_delete_ne.
    + rewrite lookup_insert_eq. intros [= <-]. by left.
  - rewrite release_active_lock_eq. simpl. intros [= <- _]. simpl. split_and!; [|intros x; simpl|done].
    + intros d Hd. by rewrite lookup_insert_ne, lookup_delete_ne.
    + rewrite lookup_insert_eq. intros [= <-]. right. by unfold live.
Qed.

Lemma evict_subseteq {K V} `{Countable K} (max : nat) (order : list K) : forall m : gmap K V,
  (evict max m order).1.1 ⊆ m.
Proof.
  induction order as [|k order IH]; intros m; cbn [evict]; case_bool_decide; try done.
  specialize (IH (delete k m)). destruct (evict max (delete k m) order) as [[m' o] rem]. simpl in *.
  etrans; [exact IH | apply delete_subseteq].
Qed.

Lemma remember_cancel_lookup key res at_ s k v :
  im_cancel (in_idempotency (remember_cancel_idempotency key res at_ s)) !! k = Some v ->
  (k = key /\ v = res) \/ im_cancel (in_idempotency s) !! k = Some v.
Proof.
  unfold remember_cancel_idempotency, prune_ordered_map. simpl.
  set (m := <[key := res]> (im_cancel (in_idempotency s))).
  set (order := push_order _ _ _). pose proof (evict_subseteq (max_idempotency_records (in_limits s)) order m)
    as Hsub. destruct (evict _ m order) as [[m' o] removed]. simpl in *.
  unfold prune_idempotency_records, prune_ordered_map. destruct (evict _ _ _) as [[? ?] ?]. simpl.
  intros Hk. pose proof (lookup_weaken _ _ _ _ Hk Hsub) as Hm. unfold m in Hm.
  apply lookup_insert_Some in Hm as [[-> ->]|[_ ?]]; auto.
Qed.

Lemma cancel_all_settles (D : TurnRunId -> Prop) now requests : forall s s' responses,
  inv s ->
  (forall scope d k resp, D d -> im_cancel (in_idempotency s) !! (scope, d, k) = Some (Ok resp) ->
     settled s d) ->
  (forall q, q ∈ requests -> D (xq_run_id q)) ->
  cancel_all requests now s = Ok (s', responses) ->
  (forall d, settled s d -> settled s' d) /\ forall q, q ∈ requests -> settled s' (xq_run_id q).
Proof.
  induction requests as [|req requests IH]; intros s s' responses Hs Hmem HD.
  { simpl. intros [= -> <-]. split; [done|]. by intros q ?%elem_of_nil. }
  cbn [cancel_all]. set (key := (xq_scope req, xq_run_id req, xq_idempotency_key req)).
  assert (D (xq_run_id req)) as HDr by (apply HD; by left).
  assert (forall q, q ∈ requests -> D (xq_run_id q)) as HD' by (intros q Hq; apply HD; by right).
  destruct (im_cancel (in_idempotency s) !! key) as [[response|]|] eqn:Hkey; simpl; [|done|].
  - destruct (cancel_all requests now s) as [[s1 rest]|] eqn:Hrest; simpl; [|done].
    intros [= <- <-]. destruct (IH s s1 rest Hs Hmem HD' Hrest) as [Hmono Hall]. split; [done|].
    intros q [-> |Hq]%elem_of_cons; [|by apply Hall]. apply Hmono. by eapply Hmem.
  - destruct (request_cancel_once req false now s) as [s1 [response|]] eqn:Honce; simpl; [|done].
    pose proof (cancel_once_changes req false now s Hs) as Hc. rewrite Honce in Hc. simpl in Hc.
    destruct (cancel_once_effect req now s s1 response Hs Honce) as (Hother & Hset & Hidem).
    set (s2 := remember_cancel_idempotency key (Ok response) now s1).
    assert (in_records s2 = in_records s1) as Hrec.
    { unfold s2. by destruct (remember_cancel_eq key (Ok response) now s1) as [im ->]. }
    assert (forall d, settled s d -> settled s2 d) as Hmono2.
    { intros d Hd x. rewrite Hrec. destruct (decide (d = xq_run_id req)) as [->|Hne]; [apply Hset|].
      rewrite Hother by done. apply Hd. }
    assert (settled s2 (xq_run_id req)) as Hset2 by (intros x; rewrite Hrec; apply Hset).
    destruct (cancel_all requests now s2) as [[s3 rest]|] eqn:Hrest; simpl; [|done].
    intros [= <- <-]. destruct (IH s2 s3 rest) as [Hmono Hall]; try done.
    + eapply changes_inv; [exact Hs|].
      unfold s2. destruct (remember_cancel_eq key (Ok response) now s1) as [im ->]. by apply quiet_changes.
    + intros scope d k resp Hd Hk. apply remember_cancel_lookup in Hk as [[[= -> -> ->] _]|Hk]; [done|].
      apply Hmono2. rewrite Hidem in Hk. by eapply Hmem.
    + split; [auto|]. intros q [-> |Hq]%elem_of_cons; [by apply Hmono | by apply Hall].
Qed.

Variable limit_for : TurnAdmissionLimitProvider.

(** C9: Cancelling a tree is complete and atomic.  On a reachable store, for any walk
    order of the record map, the walk through the descendants ends; the request then
    either fails and changes nothing, or afterwards the run and every run below it
    (children of children included) is gone, over, or asked to cancel, so that
    none of them is queued, running or blocked uncancelled.  Only where a
    cancellation of such a run is already remembered is it relied on to have been
    effective. *)
Theorem cancel_tree_stops_every_descendant limits req order now s s' res :
  reachable limit_for limits s -> order ≡ₚ (map_to_list (in_records s)).*1 ->
  (forall scope d k resp, rtc (lineage (in_records s)) d (xq_run_id req) ->
     im_cancel (in_idempotency s) !! (scope, d, k) = Some (Ok resp) -> settled s d) ->
  request_cancel_tree req order now s = (s', res) ->
  match res with
  | Ok _ => forall d r, rtc (lineage (in_records s)) d (xq_run_id req) ->
              in_records s' !! d = Some r -> stopped r
  | Err _ => s' = s
  end
  /\ (is_Some (in_records s !! xq_run_id req) ->
      from_option r_scope (xq_scope req) (in_records s !! xq_run_id req) = xq_scope req ->
      is_Some (cancel_walk (size (in_records s) + 1) req
                 (tree_children (xq_scope req) order (in_records s))
                 ([xq_run_id req], {[xq_run_id req]}, []))).
Proof.
  intros Hs%reachable_inv Hord Hmem Htree. split.
  2: { intros [root Hroot] Hsc. rewrite Hroot in Hsc. simpl in Hsc.
       destruct (cancel_walk_ok s req order root Hs Hord Hroot Hsc (size (in_records s) + 1) []
                   ([xq_run_id req], {[xq_run_id req]}, [])) as (res' & -> & _);
         [by eapply walk_start | simpl; lia | by eexists]. }
  revert Htree. unfold request_cancel_tree.
  destruct (in_records s !! xq_run_id req) as [root|] eqn:Hroot; [|by intros [= <- <-]].
  case_bool_decide as Hsc; cbn [negb]; [|by intros [= <- <-]].
  destruct (negb _); [by intros [= <- <-]|].
  destruct (cancel_walk_ok s req order root Hs Hord Hroot Hsc (size (in_records s) + 1) []
              ([xq_run_id req], {[xq_run_id req]}, [])) as (wres & -> & Hwalk);
    [by eapply walk_start | simpl; lia|].
  destruct wres as [requests|]; [|by intros [= <- <-]].
  destruct (Hwalk requests eq_refl) as (popped & visited & Hw).
  destruct (cancel_all _ now s) as [[s1 responses]|] eqn:Hall; [|by intros [= <- <-]].
  intros [= <- <-].
  match type of Hall with cancel_all ?l _ _ = _ =>
    destruct (cancel_all_settles (fun d => rtc (lineage (in_records s)) d (xq_run_id req))
                now l s s1 responses Hs Hmem) as [Hmono Hset]; [|exact Hall|] end.
  { intros q [-> |Hq]%elem_of_cons; [by apply rtc_refl|]. rewrite merge_sort_Permutation in Hq.
    by apply (wk_only _ _ _ _ Hw). }
  intros d r Hd Hr. assert (settled s1 d) as Hd1; [|].
  { destruct (decide (d = xq_run_id req)) as [->|Hne]; [apply Hset; by left|].
    destruct (in_records s !! d) as [x|] eqn:Hx.
    - destruct (decide (is_terminal (r_status x) = true)) as [Ht|Ht].
      + apply Hmono. intros y Hy. replace y with x by congruence. right. unfold live. congruence.
      + destruct (walk_complete s req Hs popped visited requests Hw d x Hd Hne Hx) as (q & Hq & Hqa & _);
          [by apply not_true_is_false|].
        rewrite <- (inv_keyed _ Hs _ _ Hx), <- Hqa. apply Hset. right. by rewrite merge_sort_Permutation.
    - apply Hmono. intros y Hy. congruence. }
  apply Hd1. eapply lookup_weaken; [exact Hr|]. apply (prune_pruned s1).
  eapply changes_inv; [exact Hs|]. by eapply cancel_all_changes.
Qed.

End Cancel.
