(* ===== verification/TurnIdempotency.v ===== *)
(** * Turns: the idempotency maps

    The idempotency maps of [memory.rs] and the records made of them ([store.rs]).
    Every answered submission, resumption and cancellation is remembered under its
    key, in order; the oldest answer of its kind is forgotten when there are too
    many; and every remembered answer has the persisted record from which it is
    replayed after a restart.  This is the invariant of the maps ([im_ok]), which
    remembering an answer and restoring all of them keep. *)

From S2P Require Import Prelude Effects External HostIds HostTypes Dispatch RunProfile TurnTypes.
From S2P Require Import TurnStore TurnSnapshot TurnExec TurnInvariants TurnPrune TurnSteps TurnOps.
From S2P Require Import TurnRestore TurnAdmission.
Open Scope Z_scope.

Lemma size_list_to_set_le {A} `{Countable A} (l : list A) :
  (size (list_to_set l : gset A) <= length l)%nat.
Proof.
  induction l as [|x l IH]; [done|]; simpl.
  rewrite size_union_alt, size_singleton.
  pose proof (subseteq_size (list_to_set l ∖ {[x]} : gset A) (list_to_set l) ltac:(set_solver)). lia.
Qed.

Lemma size_set_map_le {A B} `{Countable A, Countable B} (f : A -> B) (X : gset A) :
  (size (set_map (D := gset B) f X) <= size X)%nat.
Proof. unfold set_map. etrans; [apply size_list_to_set_le|]. by rewrite length_fmap. Qed.

(** ** Maps with an order of insertion *)

Section Ordered.
Context {K : Type} `{Countable K} {V : Type}.
Implicit Types (m : gmap K V) (order : list K).

Definition ordered m order : Prop := NoDup order /\ forall k, k ∈ order <-> is_Some (m !! k).

Lemma ordered_empty : ordered ∅ [].
Proof.
  split; [constructor|]. intros k. rewrite lookup_empty. split; [by intros ?%elem_of_nil|].
  by intros [? [=]].
Qed.

Lemma ordered_size m order : ordered m order -> size m = length order.
Proof.
  intros [Hnd Hk]. rewrite <- size_dom. replace (dom m) with (list_to_set order : gset K).
  - by apply size_list_to_set.
  - apply set_eq. intros k. by rewrite elem_of_list_to_set, elem_of_dom.
Qed.

Lemma ordered_insert m order k v : ordered m order -> ordered (<[k := v]> m) (push_order m order k).
Proof.
  intros [Hnd Hk]. unfold push_order. case_bool_decide as Hin.
  - split; [done|]. intros j. rewrite Hk. same_or_other j k; [|done]. split; [by eexists | by intros _].
  - split.
    + apply NoDup_app. split_and!; [done | |apply NoDup_singleton].
      intros j Hj ->%list_elem_of_singleton. by apply Hin, Hk.
    + intros j. rewrite elem_of_app, list_elem_of_singleton, Hk. same_or_other j k.
      * split; [by eexists | by right].
      * split; [by intros [|] | by left].
Qed.

Lemma ordered_tail m k order : ordered m (k :: order) -> ordered (delete k m) order.
Proof.
  intros [[Hnot Hnd]%NoDup_cons Hk]. split; [done|]. intros j. same_or_other j k.
  - split; [done | by intros [? [=]]].
  - rewrite <- Hk, elem_of_cons. naive_solver.
Qed.

Lemma evict_ordered max m order : ordered m order ->
  let '(m', order', removed) := evict max m order in
  ordered m' order' /\ order = removed ++ order' /\ (size m' <= max)%nat
  /\ (forall k, m' !! k = if bool_decide (k ∈ removed) then None else m !! k)
  /\ length removed = (size m - max)%nat.
Proof.
  revert m. induction order as [|key order IH]; intros m Ho; simpl.
  - pose proof (ordered_size m [] Ho) as Hs. simpl in Hs. rewrite bool_decide_eq_true_2 by lia.
    split_and!; try done; [lia|]. simpl. lia.
  - case_bool_decide as Hsz; [split_and!; try done; simpl; lia|].
    pose proof (ordered_tail _ _ _ Ho) as Ht. specialize (IH _ Ht).
    assert (is_Some (m !! key)) as Hkey by (apply Ho; by left).
    assert (size (delete key m) = pred (size m)) as Hd.
    { rewrite map_size_delete. destruct Hkey as [v ->]. lia. }
    destruct (evict max (delete key m) order) as [[m' order'] removed].
    destruct IH as (Ho' & -> & Hle & Hlk & Hlen). rewrite bool_decide_eq_true_2 by done.
    split_and!; try done; [|simpl; lia]. intros k. rewrite Hlk. same_or_other k key.
    + rewrite (bool_decide_eq_true_2 (key ∈ key :: _)) by by left. by case_bool_decide.
    + assert (k ∈ key :: removed <-> k ∈ removed) as E by (rewrite elem_of_cons; naive_solver).
      by rewrite (bool_decide_ext _ _ E).
Qed.

Lemma drop_missing_ordered m order : ordered m order -> drop_missing m order = order.
Proof.
  intros [_ Hk]. destruct order as [|k order]; [done|]. simpl.
  rewrite bool_decide_eq_true_2; [done|]. apply Hk. by left.
Qed.

(** What [prune_ordered_map] removes is a prefix of the order, and no more than is
    too much. *)
Lemma prune_ordered_map_ok max m order : ordered m order ->
  let '(m', order', removed) := prune_ordered_map m order max in
  ordered m' order' /\ order = removed ++ order' /\ (size m' <= max)%nat
  /\ (forall k, m' !! k = if bool_decide (k ∈ removed) then None else m !! k)
  /\ length removed = (size m - max)%nat.
Proof.
  intros Ho%(evict_ordered max). unfold prune_ordered_map.
  destruct (evict max m order) as [[m' order'] removed]. destruct Ho as (Ho & ?).
  by rewrite drop_missing_ordered.
Qed.

Lemma insert_size m k v : (size (<[k := v]> m) <= S (size m))%nat.
Proof. rewrite map_size_insert. destruct (m !! k); simpl; lia. Qed.

Lemma foldl_delete_lookup m ks k :
  foldl (fun m key => delete key m) m ks !! k = if bool_decide (k ∈ ks) then None else m !! k.
Proof.
  revert m. induction ks as [|j ks IH]; intros m; simpl; [done|]. rewrite IH. same_or_other k j.
  - rewrite (bool_decide_eq_true_2 (j ∈ j :: _)) by by left. by case_bool_decide.
  - assert (k ∈ j :: ks <-> k ∈ ks) as E by (rewrite elem_of_cons; naive_solver).
    by rewrite (bool_decide_ext _ _ E).
Qed.

End Ordered.

(** ** The answers of one kind

    [m] holds the answers in the order [order]; the answer to [k] is backed by the
    persisted record at [pk k]. *)

Section Family.
Context {K : Type} `{Countable K} {V : Type}.
Variables (pk : K -> PersistedIdempotencyKey) (backs : K -> V -> TurnIdempotencyRecord -> Prop).
Context {Hinj : Inj (=) (=) pk}.
Implicit Types (m : gmap K V) (records : gmap PersistedIdempotencyKey TurnIdempotencyRecord).

Record family_ok (max : nat) m (order : list K) records : Prop := {
  fo_ordered : ordered m order;
  fo_size : (size m <= max)%nat;
  fo_backed : forall k v, m !! k = Some v -> exists r, records !! pk k = Some r /\ backs k v r;
  fo_only : forall k, is_Some (records !! pk k) -> is_Some (m !! k) }.

Lemma family_remember max m order records k v r :
  family_ok max m order records -> backs k v r ->
  let '(m', order', removed) := prune_ordered_map (<[k := v]> m) (push_order m order k) max in
  family_ok max m' order'
    (foldl (fun acc key => delete key acc) (<[pk k := r]> records) (map pk removed)).
Proof.
  intros [Ho Hs Hb Hk] Hr.
  pose proof (prune_ordered_map_ok max _ _ (ordered_insert m order k v Ho)) as Hp.
  destruct (prune_ordered_map _ _ _) as [[m' order'] removed].
  destruct Hp as (Ho' & _ & Hs' & Hlk & _).
  assert (forall j, bool_decide (pk j ∈ map pk removed) = bool_decide (j ∈ removed)) as Hin.
  { intros j. apply bool_decide_ext. rewrite list_elem_of_fmap.
    split; [by intros (? & ->%(inj pk) & ?) | by eexists]. }
  split; [done | done | |].
  - intros j w. rewrite Hlk, foldl_delete_lookup, Hin. destruct (bool_decide _); [done|].
    same_or_other j k; [intros [= <-]; by eexists|]. intros Hj.
    rewrite lookup_insert_ne by (intros ?%(inj pk); congruence). by apply Hb.
  - intros j. rewrite Hlk, foldl_delete_lookup, Hin. destruct (bool_decide _); [by intros [? [=]]|].
    same_or_other j k; [done|].
    rewrite !lookup_insert_ne by (done || intros ?%(inj pk); congruence). apply Hk.
Qed.

(** Another kind of answer, whose persisted keys are apart, does not matter. *)
Lemma family_other max m order records records' :
  family_ok max m order records -> (forall k, records' !! pk k = records !! pk k) ->
  family_ok max m order records'.
Proof.
  intros [Ho Hs Hb Hk] He. split; try done; intros k; rewrite He; [apply Hb | apply Hk].
Qed.

(** Only the oldest answers are forgotten, and only to make room. *)
Lemma family_forgets max m order records k v j w :
  family_ok max m order records -> m !! j = Some w -> j <> k ->
  let '(m', _, _) := prune_ordered_map (<[k := v]> m) (push_order m order k) max in
  m' !! j = Some w \/ (m' !! j = None /\ m !! k = None /\ size m = max /\ head order = Some j).
Proof.
  intros [Ho Hs Hb Hk] Hj Hne.
  pose proof (prune_ordered_map_ok max _ _ (ordered_insert m order k v Ho)) as Hp.
  destruct (prune_ordered_map _ _ _) as [[m' order'] removed].
  destruct Hp as (_ & Hsplit & _ & Hlk & Hlen). rewrite Hlk, lookup_insert_ne by done.
  case_bool_decide as Hin; [right; split; [done|] | by left].
  assert (0 < length removed)%nat as Hpos by (destruct removed; [by apply elem_of_nil in Hin | simpl; lia]).
  rewrite map_size_insert in Hlen.
  assert (m !! k = None) as Hnew by (destruct (m !! k); [simpl in Hlen; lia | done]).
  rewrite Hnew in Hlen. simpl in Hlen. split; [done|]. split; [lia|].
  destruct removed as [|x [|y removed]]; simpl in *; [lia | | lia].
  apply list_elem_of_singleton in Hin as <-. unfold push_order in Hsplit.
  rewrite Hnew, bool_decide_eq_false_2 in Hsplit by by intros [? [=]].
  destruct order as [|z order]; simpl in Hsplit; [|by injection Hsplit as ->].
  exfalso. assert (j ∈ ([] : list K)) as []%elem_of_nil. by apply Ho; eexists.
Qed.

Lemma family_remembers max m order k v :
  (1 <= max)%nat -> ordered m order -> (size m <= max)%nat -> m !! k = None ->
  let '(m', _, _) := prune_ordered_map (<[k := v]> m) (push_order m order k) max in
  m' !! k = Some v.
Proof.
  intros Hmax Ho Hs Hnew.
  pose proof (prune_ordered_map_ok max _ _ (ordered_insert m order k v Ho)) as Hp.
  destruct (prune_ordered_map _ _ _) as [[m' order'] removed].
  destruct Hp as (_ & Hsplit & _ & Hlk & Hlen). rewrite Hlk, lookup_insert_eq.
  case_bool_decide as Hin; [exfalso|done].
  pose proof (ordered_size m order Ho) as Hlo. pose proof (insert_size m k v) as Hi.
  unfold push_order in Hsplit. rewrite Hnew, bool_decide_eq_false_2 in Hsplit by by intros [? [=]].
  assert (length removed <= 1)%nat by lia.
  destruct removed as [|x [|y removed]]; simpl in *; [by apply elem_of_nil in Hin | | lia].
  apply list_elem_of_singleton in Hin. subst x.
  destruct order as [|z order]; simpl in *.
  - rewrite map_size_insert, Hnew in Hlen. simpl in Hlen. lia.
  - injection Hsplit as -> _. assert (is_Some (m !! k)) as Hk by (apply Ho; by left).
    rewrite Hnew in Hk. by destruct Hk.
Qed.

(** The answers restored from the records [l]: [h] is what the loop makes of one. *)
Variables (pkey : TurnIdempotencyRecord -> PersistedIdempotencyKey).
Variables (h : TurnIdempotencyRecord -> option (K * V)) (same : V -> V -> Prop).

Lemma restored_keys l :
  NoDup (map pkey l) -> (forall x k v, x ∈ l -> h x = Some (k, v) -> pkey x = pk k) ->
  NoDup (omap h l).*1.
Proof.
  induction l as [|x l IH]; intros Hnd Hh; [constructor|]. simpl in *.
  apply NoDup_cons in Hnd as [Hx Hnd].
  assert (NoDup (omap h l).*1) as IH' by (apply IH; [done|]; intros; eapply Hh; [by right | done]).
  destruct (h x) as [[k v]|] eqn:Hhx; [|done]. simpl. apply NoDup_cons. split; [|done].
  intros ([k' v'] & Hk & Hin)%list_elem_of_fmap. simpl in Hk. subst k'.
  apply list_elem_of_omap in Hin as (y & Hy & Hhy). apply Hx.
  assert (pkey x = pk k) as -> by (eapply Hh; [by left | exact Hhx]).
  replace (pk k) with (pkey y) by (eapply Hh; [by right | exact Hhy]).
  by apply list_elem_of_fmap_2.
Qed.

Lemma collected (l : list (K * V)) k v :
  NoDup l.*1 -> collect fst snd l !! k = Some v <-> (k, v) ∈ l.
Proof.
  intros Hnd. rewrite <- elem_of_map_to_list. unfold collect. rewrite collect_fold.
  - rewrite map_to_list_empty, app_nil_r, list_elem_of_fmap. split.
    + intros ([k' v'] & [= -> ->] & Hin). done.
    + intros Hin. by exists (k, v).
  - exact Hnd.
  - intros x _. apply lookup_empty.
Qed.

Lemma family_restored max m order records l :
  family_ok max m order records -> l ≡ₚ values records ->
  (forall k x, records !! k = Some x -> pkey x = k) ->
  (forall x k v, x ∈ l -> h x = Some (k, v) -> pkey x = pk k) ->
  (forall k v x, backs k v x -> exists v', h x = Some (k, v') /\ backs k v' x /\ same v v') ->
  let m' := collect fst snd (omap h l) in
  family_ok max m' (omap h l).*1 records
  /\ (forall k v, m !! k = Some v -> exists v', m' !! k = Some v' /\ same v v')
  /\ (forall k, is_Some (m' !! k) -> is_Some (m !! k)).
Proof.
  intros [Ho Hs Hb Hk] Hl Hpkey Hh Hbacks m'.
  assert (NoDup (map pkey l)) as Hnd.
  { rewrite Hl. unfold values. rewrite <- list_fmap_compose.
    replace (_ <$> map_to_list _) with ((map_to_list records).*1); [apply NoDup_fst_map_to_list|].
    apply list_fmap_ext. intros i [k x] Hi. simpl.
    apply list_elem_of_lookup_2, elem_of_map_to_list in Hi. symmetry. by apply Hpkey. }
  pose proof (restored_keys l Hnd Hh) as Hnd'.
  assert (forall k v, m' !! k = Some v <-> exists x, records !! pk k = Some x /\ h x = Some (k, v)) as Hm'.
  { intros k v. unfold m'. rewrite collected by done. rewrite list_elem_of_omap. split.
    - intros (x & Hx & Hhx). exists x. split; [|done].
      pose proof (Hh x k v Hx Hhx) as Hp. rewrite Hl in Hx. apply elem_values in Hx as [k0 Hx].
      rewrite (Hpkey _ _ Hx) in Hp. congruence.
    - intros (x & Hx & Hhx). exists x. split; [|done]. rewrite Hl. apply elem_values. by eexists. }
  assert (forall k v, m !! k = Some v -> exists v', m' !! k = Some v' /\ same v v') as Hfwd.
  { intros k v Hv. destruct (Hb k v Hv) as (x & Hx & Hbx). destruct (Hbacks k v x Hbx) as (v' & ? & _ & ?).
    exists v'. split; [|done]. apply Hm'. by exists x. }
  assert (forall k, is_Some (m' !! k) -> is_Some (m !! k)) as Hbwd.
  { intros k [v (x & Hx & _)%Hm']. apply Hk. by eexists. }
  split; [split|done].
  - split; [done|]. intros k. rewrite list_elem_of_fmap. split.
    + intros ([k' v] & -> & Hin). exists v. by apply collected.
    + intros [v Hv]. exists (k, v). split; [done|]. by apply collected in Hv.
  - etrans; [|exact Hs]. rewrite <- !size_dom. apply subseteq_size. intros k.
    rewrite !elem_of_dom. apply Hbwd.
  - intros k v (x & Hx & Hhx)%Hm'. exists x. split; [done|].
    destruct (Hk k) as [v0 Hv0]; [by eexists|]. destruct (Hb k v0 Hv0) as (y & Hy & Hby).
    destruct (Hbacks k v0 y Hby) as (v' & Hhy & Hby' & _). congruence.
  - intros k Hk'. destruct (Hk k Hk') as [v Hv]. destruct (Hfwd k v Hv) as (v' & -> & _). by eexists.
Qed.

End Family.

(** ** Persisted errors *)

Definition capacity_of (e : TurnError) : option (TurnCapacityResource * Z) :=
  match e with TeCapacityExceeded resource cap => Some (resource, cap) | _ => None end.

(** What a caller sees of an error: its category, the status code it is reported
    with, the capacity that was exceeded, and the rejection of an admission. *)
Record alike (e e' : TurnError) : Prop := {
  al_category : TurnError_category e' = TurnError_category e;
  al_status : adapter_status_code e' = adapter_status_code e;
  al_capacity : capacity_of e' = capacity_of e;
  al_rejection : forall rejection, e = TeAdmissionRejected rejection -> e' = e }.

Definition same_answer {A} (res res' : result A TurnError) : Prop :=
  match res, res' with
  | Ok a, Ok a' => a' = a
  | Err e, Err e' => alike e e'
  | _, _ => False
  end.

(** The answers that are persisted with an [ErrorReplay]. *)
Definition plain_result {A} (res : result A TurnError) : Prop :=
  match res with Err e => is_expected_admission_outcome e = false | Ok _ => True end.

Definition not_busy (res : result SubmitTurnResponse TurnError) : Prop :=
  forall busy, res <> Err (TeThreadBusy busy).

Lemma error_replay_alike e :
  is_expected_admission_outcome e = false -> alike e (ErrorReplay_to_error (ErrorReplay_from_error e)).
Proof. by destruct e; intros; try done; split. Qed.

Lemma submit_replays key res at_ : not_busy res ->
  exists res', replay_submit (submit_idempotency_record key res at_) = Some res' /\ same_answer res res'.
Proof.
  intros Hb. destruct res as [a|e]; [by eexists|].
  destruct e; try (eexists; split; [done|]; simpl; by apply error_replay_alike).
  - by destruct (Hb busy).
  - eexists. by split.
Qed.

Lemma resume_replays key res at_ original : plain_result res ->
  exists res', replay_resume (resume_idempotency_record key res at_ original) = Some res'
    /\ same_answer res res'.
Proof.
  intros Hp. destruct res as [a|e], original as [req|]; try by eexists.
  all: eexists; split; [done|]; by apply error_replay_alike.
Qed.

Lemma cancel_replays key res at_ : plain_result res ->
  exists res', replay_cancel (cancel_idempotency_record key res at_) = Some res'
    /\ same_answer res res'.
Proof.
  intros Hp. destruct res as [a|e]; [by eexists|].
  eexists; split; [done|]; by apply error_replay_alike.
Qed.

Section Replay.
Context {T : Chrono} {U : UuidText} {P : UuidParse U}.
Implicit Types (r : RunRecord) (s : Inner).

Lemma lease_plain r runner lease now e :
  ensure_active_lease r runner lease now = Err e -> is_expected_admission_outcome e = false.
Proof.
  unfold ensure_active_lease. repeat (case_match; try done). all: by intros [= <-].
Qed.

Lemma gate_plain w e :
  NativeAuthWait_gate_ref w = Err e -> is_expected_admission_outcome e = false.
Proof.
  unfold NativeAuthWait_gate_ref, native_auth_gate, map_err.
  repeat (case_match; try done). all: by intros [= <-].
Qed.

Lemma conflict_plain req r w e :
  native_conflict req r w = Err e -> is_expected_admission_outcome e = false.
Proof.
  unfold native_conflict. case_match; [done|].
  destruct (NativeAuthWait_gate_ref w) eqn:Hg; [done|]. intros [= <-]. by eapply gate_plain.
Qed.
#[local] Hint Resolve lease_plain gate_plain conflict_plain : rust.

Lemma resume_once_plain req now s : plain_result (resume_turn_once req now s).2.
Proof.
  unfold resume_turn_once, with_record. destruct (take_record _ s) as [[r s0]|]; [|done].
  repeat (case_match; try done). all: simplify_eq; simpl; try done. all: eauto with rust.
Qed.

Lemma cancel_once_plain req prune now s : plain_result (request_cancel_once req prune now s).2.
Proof.
  unfold request_cancel_once, with_record. destruct (take_record _ s) as [[r s0]|]; [|done].
  repeat (case_match; try done). all: simplify_eq; simpl; done.
Qed.

Lemma conflict_precondition req r w :
  native_conflict req r w = Ok false -> rq_precondition req = BlockedAuthGate.
Proof. unfold native_conflict. by case_bool_decide. Qed.

(** The answer to a resumption of a run in native custody. *)
Lemma native_resume_answer req now s a :
  inv s -> from_option has_native false (in_records s !! rq_run_id req) = true ->
  (resume_turn_once req now s).2 = Ok a ->
  rr_run_id a = rq_run_id req /\ rr_status a = Running /\ rq_precondition req = BlockedAuthGate.
Proof.
  intros Hs Hn. unfold resume_turn_once, with_record, take_record.
  destruct (in_records s !! rq_run_id req) as [r|] eqn:Hr; [|done].
  pose proof (inv_keyed _ Hs _ _ Hr) as Hid. simpl in Hn. unfold has_native in Hn.
  apply bool_decide_eq_true in Hn as [w Hw]. simpl. rewrite Hw.
  destruct (native_conflict req r w) as [[]|e] eqn:Hc.
  - repeat (case_match; try done); by simplify_eq.
  - apply conflict_precondition in Hc.
    repeat (case_match; try done); simplify_eq; simpl. all: intros [= <-]; simpl; try done.
  - repeat (case_match; try done); by simplify_eq.
Qed.

(** ** The invariant of the idempotency maps *)

Definition submit_backs (key : SubmitIdempotencyKey) (res : result SubmitTurnResponse TurnError)
    (x : TurnIdempotencyRecord) : Prop :=
  not_busy res /\ exists at_, x = submit_idempotency_record key res at_.
Definition resume_backs (key : RunIdempotencyKey) (res : result ResumeTurnResponse TurnError)
    (x : TurnIdempotencyRecord) : Prop :=
  plain_result res /\ native_resume_record_is_valid x = true
  /\ exists at_ original, x = resume_idempotency_record key res at_ original.
Definition cancel_backs (key : RunIdempotencyKey) (res : result CancelRunResponse TurnError)
    (x : TurnIdempotencyRecord) : Prop :=
  plain_result res /\ exists at_, x = cancel_idempotency_record key res at_.

Record im_ok (max : nat) (im : Idempotency) : Prop := {
  io_submit : family_ok persisted_submit_key submit_backs max (im_submit im) (im_submit_order im)
                (im_records im);
  io_resume : family_ok (persisted_run_key OpResume) resume_backs max (im_resume im)
                (im_resume_order im) (im_records im);
  io_cancel : family_ok (persisted_run_key OpCancel) cancel_backs max (im_cancel im)
                (im_cancel_order im) (im_records im);
  io_shape : forall k, is_Some (im_records im !! k) ->
    (exists key, k = persisted_submit_key key) \/ (exists key, k = persisted_run_key OpResume key)
    \/ exists key, k = persisted_run_key OpCancel key }.

#[export] Instance persisted_submit_key_inj : Inj (=) (=) persisted_submit_key.
Proof. intros [a b] [c d] [= -> ->]. done. Qed.
#[export] Instance persisted_run_key_inj op : Inj (=) (=) (persisted_run_key op).
Proof. intros [[a b] c] [[d e] f] [= -> -> ->]. done. Qed.

(** The persisted records are no more than the answers, so their own bound never
    evicts one. *)
Lemma im_records_size max im : im_ok max im -> (size (im_records im) <= max * 3)%nat.
Proof.
  intros [Hs Hr Hc Hshape].
  assert (forall {K V} `{Countable K} (pk : K -> PersistedIdempotencyKey) (m : gmap K V),
    (size m <= max)%nat -> (size (set_map (D := gset PersistedIdempotencyKey) pk (dom m)) <= max)%nat)
    as Him.
  { intros K V ?? pk m Hm. etrans; [|exact Hm]. rewrite <- size_dom. apply size_set_map_le. }
  pose proof (Him _ _ _ _ persisted_submit_key _ (fo_size _ _ _ _ _ _ Hs)) as H1.
  pose proof (Him _ _ _ _ (persisted_run_key OpResume) _ (fo_size _ _ _ _ _ _ Hr)) as H2.
  pose proof (Him _ _ _ _ (persisted_run_key OpCancel) _ (fo_size _ _ _ _ _ _ Hc)) as H3.
  set (A := set_map _ _) in H1. set (B := set_map _ _) in H2. set (C := set_map _ _) in H3.
  assert (dom (im_records im) ⊆ A ∪ B ∪ C) as Hsub.
  { intros k Hk%elem_of_dom. destruct (Hshape k Hk) as [[key ->]|[[key ->]|[key ->] ] ].
    - do 2 (apply elem_of_union; left). apply elem_of_map. exists key. split; [done|].
      by apply elem_of_dom, (fo_only _ _ _ _ _ _ Hs).
    - apply elem_of_union; left; apply elem_of_union; right. apply elem_of_map. exists key.
      split; [done|]. by apply elem_of_dom, (fo_only _ _ _ _ _ _ Hr).
    - apply elem_of_union; right. apply elem_of_map. exists key.
      split; [done|]. by apply elem_of_dom, (fo_only _ _ _ _ _ _ Hc). }
  rewrite <- size_dom. pose proof (subseteq_size _ _ Hsub) as Hle.
  pose proof (size_union_alt (A ∪ B) C). pose proof (size_union_alt A B).
  pose proof (subseteq_size (C ∖ (A ∪ B)) C ltac:(set_solver)).
  pose proof (subseteq_size (B ∖ A) B ltac:(set_solver)). lia.
Qed.

(** [prune_idempotency_records] keeps every record. *)
Lemma prune_records_same max im :
  (size (im_records im) <= max * 3)%nat ->
  exists order, prune_idempotency_records max im = set_persisted (im_records im) order im.
Proof.
  intros Hs. unfold prune_idempotency_records, prune_ordered_map.
  assert (evict (max * 3) (im_records im) (im_record_order im)
          = (im_records im, im_record_order im, [])) as ->.
  { destruct (im_record_order im); simpl; by rewrite bool_decide_eq_true_2. }
  by eexists.
Qed.

Lemma im_ok_same max im im' :
  im_ok max im ->
  im_submit im' = im_submit im -> im_resume im' = im_resume im -> im_cancel im' = im_cancel im ->
  im_records im' = im_records im -> im_submit_order im' = im_submit_order im ->
  im_resume_order im' = im_resume_order im -> im_cancel_order im' = im_cancel_order im ->
  im_ok max im'.
Proof. intros [????] E1 E2 E3 E4 E5 E6 E7. split; rewrite ?E1, ?E2, ?E3, ?E4, ?E5, ?E6, ?E7; done. Qed.

Lemma im_ok_pruned max im : im_ok max im -> im_ok max (prune_idempotency_records max im).
Proof.
  intros H. destruct (prune_records_same max im (im_records_size _ _ H)) as [order ->].
  by eapply im_ok_same.
Qed.

Definition limit s : nat := max_idempotency_records (in_limits s).
Definition idempotent s : Prop := im_ok (limit s) (in_idempotency s).

(** The persisted records after an answer is remembered and others are forgotten. *)
Lemma forgotten_elsewhere {K} (pk : K -> PersistedIdempotencyKey) removed k x k0
    (records : gmap PersistedIdempotencyKey TurnIdempotencyRecord) :
  (forall j, pk j <> k0) ->
  foldl (fun acc key => delete key acc) (<[pk k := x]> records) (map pk removed) !! k0
  = records !! k0.
Proof.
  intros Hne. rewrite foldl_delete_lookup, bool_decide_eq_false_2.
  - by rewrite lookup_insert_ne.
  - intros (j & Hj & _)%list_elem_of_fmap. by destruct (Hne j).
Qed.

Lemma forgotten_shape {K} (pk : K -> PersistedIdempotencyKey) removed k x k0
    (records : gmap PersistedIdempotencyKey TurnIdempotencyRecord) :
  is_Some (foldl (fun acc key => delete key acc) (<[pk k := x]> records) (map pk removed) !! k0) ->
  k0 = pk k \/ is_Some (records !! k0).
Proof.
  rewrite foldl_delete_lookup. destruct (bool_decide _); [by intros [? [=] ] |].
  same_or_other k0 (pk k); auto.
Qed.

Lemma remember_persisted_at x key im :
  persisted_key_for_record x = key ->
  remember_persisted_idempotency x im
  = set_persisted (<[key := x]> (im_records im))
      (push_order (im_records im) (im_record_order im) key) im.
Proof. by intros <-. Qed.

Lemma submit_record_key key res at_ :
  persisted_key_for_record (submit_idempotency_record key res at_) = persisted_submit_key key.
Proof. unfold submit_idempotency_record. by destruct res as [|[]]. Qed.
Lemma resume_record_key key res at_ original :
  persisted_key_for_record (resume_idempotency_record key res at_ original)
  = persisted_run_key OpResume key.
Proof. unfold resume_idempotency_record. by destruct res. Qed.
Lemma cancel_record_key key res at_ :
  persisted_key_for_record (cancel_idempotency_record key res at_) = persisted_run_key OpCancel key.
Proof. unfold cancel_idempotency_record. by destruct res. Qed.

Lemma remember_submit_ok key res at_ s :
  idempotent s -> not_busy res -> idempotent (remember_submit_idempotency key res at_ s).
Proof.
  intros [Hs Hr Hc Hshape] Hb. unfold idempotent, remember_submit_idempotency, limit.
  pose proof (family_remember persisted_submit_key submit_backs _ _ _ _ key res
                (submit_idempotency_record key res at_) Hs) as Hf.
  specialize (Hf (conj Hb (ex_intro _ at_ eq_refl))). fold (limit s).
  rewrite (remember_persisted_at _ _ _ (submit_record_key key res at_)). cbv zeta. cbn [set_persisted im_submit].
  destruct (prune_ordered_map _ _ _) as [[m order] removed]. simpl.
  apply im_ok_pruned. split; simpl.
  - exact Hf.
  - eapply family_other; [exact Hr|]. intros k. by apply forgotten_elsewhere.
  - eapply family_other; [exact Hc|]. intros k. by apply forgotten_elsewhere.
  - intros k0 [-> |Hk]%forgotten_shape; [left; by eexists | by apply Hshape].
Qed.

(** The maps before the last pruning, and what they hold of the new answer. *)
Lemma remember_resume_parts key res at_ original s :
  idempotent s -> plain_result res ->
  native_resume_record_is_valid (resume_idempotency_record key res at_ original) = true ->
  exists im, remember_resume_idempotency key res at_ original s
             = with_idempotency (prune_idempotency_records (limit s) im) s
    /\ im_ok (limit s) im
    /\ ((1 <= limit s)%nat -> im_resume (in_idempotency s) !! key = None ->
        im_resume im !! key = Some res
        /\ im_records im !! persisted_run_key OpResume key
           = Some (resume_idempotency_record key res at_ original)).
Proof.
  intros [Hs Hr Hc Hshape] Hp Hv. unfold remember_resume_idempotency. fold (limit s).
  set (x := resume_idempotency_record key res at_ original) in *.
  pose proof (family_remember (persisted_run_key OpResume) resume_backs _ _ _ _ key res x Hr) as Hf.
  specialize (Hf (conj Hp (conj Hv (ex_intro _ at_ (ex_intro _ original eq_refl))))).
  pose proof (family_remembers (limit s) (im_resume (in_idempotency s))
                (im_resume_order (in_idempotency s)) key res) as Hnew.
  pose proof (prune_ordered_map_ok (limit s) _ _
                (ordered_insert _ _ key res (fo_ordered _ _ _ _ _ _ Hr))) as Hprune.
  rewrite (remember_persisted_at _ _ _ (resume_record_key key res at_ original)). cbv zeta. cbn [set_persisted im_resume].
  destruct (prune_ordered_map _ _ _) as [[m order] removed].
  destruct Hprune as (_ & _ & _ & Hlk & _).
  eexists. split; [done|]. split.
  - split; simpl.
    + eapply family_other; [exact Hs|]. intros k. by apply forgotten_elsewhere.
    + exact Hf.
    + eapply family_other; [exact Hc|]. intros k. by apply forgotten_elsewhere.
    + intros k0 [-> |Hk]%forgotten_shape; [right; left; by eexists | by apply Hshape].
  - intros Hmax Hno. specialize (Hnew Hmax (fo_ordered _ _ _ _ _ _ Hr) (fo_size _ _ _ _ _ _ Hr) Hno).
    split; [exact Hnew|]. simpl. rewrite foldl_delete_lookup, bool_decide_eq_false_2.
    + apply lookup_insert_eq.
    + intros (j & <-%(inj (persisted_run_key OpResume)) & Hj)%list_elem_of_fmap.
      rewrite Hlk, bool_decide_eq_true_2 in Hnew by done. done.
Qed.

Lemma remember_resume_ok key res at_ original s :
  idempotent s -> plain_result res ->
  native_resume_record_is_valid (resume_idempotency_record key res at_ original) = true ->
  idempotent (remember_resume_idempotency key res at_ original s).
Proof.
  intros Hs Hp Hv. destruct (remember_resume_parts key res at_ original s Hs Hp Hv)
    as (im & -> & Him & _). by apply im_ok_pruned.
Qed.

Lemma remember_cancel_ok key res at_ s :
  idempotent s -> plain_result res -> idempotent (remember_cancel_idempotency key res at_ s).
Proof.
  intros [Hs Hr Hc Hshape] Hp. unfold idempotent, remember_cancel_idempotency, limit.
  pose proof (family_remember (persisted_run_key OpCancel) cancel_backs _ _ _ _ key res
                (cancel_idempotency_record key res at_) Hc) as Hf.
  specialize (Hf (conj Hp (ex_intro _ at_ eq_refl))). fold (limit s).
  rewrite (remember_persisted_at _ _ _ (cancel_record_key key res at_)). cbv zeta. cbn [set_persisted im_cancel].
  destruct (prune_ordered_map _ _ _) as [[m order] removed]. simpl.
  apply im_ok_pruned. split; simpl.
  - eapply family_other; [exact Hs|]. intros k. by apply forgotten_elsewhere.
  - eapply family_other; [exact Hr|]. intros k. by apply forgotten_elsewhere.
  - exact Hf.
  - intros k0 [-> |Hk]%forgotten_shape; [right; right; by eexists | by apply Hshape].
Qed.

(** ** Restored answers *)

(** A replayed answer is one the record would have been made of. *)
Lemma error_replay_again e :
  is_expected_admission_outcome e = false ->
  let e' := ErrorReplay_to_error (ErrorReplay_from_error e) in
  is_expected_admission_outcome e' = false /\ outcome_from_error e' = outcome_from_error e
  /\ ErrorReplay_from_error e' = ErrorReplay_from_error e.
Proof. by destruct e. Qed.

Lemma submit_backs_replay key res x :
  submit_backs key res x ->
  exists res', replay_submit x = Some res' /\ submit_backs key res' x /\ same_answer res res'.
Proof.
  intros [Hb [at_ ->] ]. destruct (submit_replays key res at_ Hb) as (res' & Hr & Hsame).
  exists res'. split; [done|]. split; [|done]. destruct res as [a|e].
  - injection Hr as <-. split; [done | by exists at_].
  - destruct e as [busy| | | | | | | | |]; [by destruct (Hb busy)|..].
    all: simpl in Hr; injection Hr as <-; split; [by intros ? [=] | by exists at_].
Qed.

Lemma resume_backs_replay key res x :
  resume_backs key res x ->
  exists res', replay_resume x = Some res' /\ resume_backs key res' x /\ same_answer res res'.
Proof.
  intros (Hp & Hv & at_ & original & ->).
  destruct (resume_replays key res at_ original Hp) as (res' & Hr & Hsame).
  exists res'. split; [done|]. split; [|done]. destruct res as [a|e].
  - destruct original; injection Hr as <-; (split; [done|]); (split; [done|]); by eexists _, _.
  - pose proof (error_replay_again e Hp) as (H1 & H2 & H3).
    destruct original as [req|]; injection Hr as <-; (split; [done|]); (split; [done|]).
    + exists at_, (Some req). unfold resume_idempotency_record. by rewrite H2, H3.
    + exists at_, None. unfold resume_idempotency_record. by rewrite H2, H3.
Qed.

Lemma cancel_backs_replay key res x :
  cancel_backs key res x ->
  exists res', replay_cancel x = Some res' /\ cancel_backs key res' x /\ same_answer res res'.
Proof.
  intros (Hp & at_ & ->).
  destruct (cancel_replays key res at_ Hp) as (res' & Hr & Hsame).
  exists res'. split; [done|]. split; [|done]. destruct res as [a|e].
  - injection Hr as <-. split; [done|]. by exists at_.
  - pose proof (error_replay_again e Hp) as (H1 & H2 & H3).
    injection Hr as <-. split; [done|]. exists at_. unfold cancel_idempotency_record. by rewrite H2, H3.
Qed.

(** The kinds of persisted records. *)
Lemma record_cases max im k x :
  im_ok max im -> im_records im !! k = Some x ->
  (exists key res, k = persisted_submit_key key /\ im_submit im !! key = Some res
     /\ submit_backs key res x)
  \/ (exists key res, k = persisted_run_key OpResume key /\ im_resume im !! key = Some res
        /\ resume_backs key res x)
  \/ (exists key res, k = persisted_run_key OpCancel key /\ im_cancel im !! key = Some res
        /\ cancel_backs key res x).
Proof.
  intros [Hs Hr Hc Hshape] Hk. destruct (Hshape k) as [[key ->]|[[key ->]|[key ->] ] ]; [by eexists|..].
  - left. destruct (fo_only _ _ _ _ _ _ Hs key) as [res Hres]; [by eexists|].
    destruct (fo_backed _ _ _ _ _ _ Hs key res Hres) as (y & Hy & Hb). exists key, res.
    split; [done|]. split; [done|]. congruence.
  - right; left. destruct (fo_only _ _ _ _ _ _ Hr key) as [res Hres]; [by eexists|].
    destruct (fo_backed _ _ _ _ _ _ Hr key res Hres) as (y & Hy & Hb). exists key, res.
    split; [done|]. split; [done|]. congruence.
  - right; right. destruct (fo_only _ _ _ _ _ _ Hc key) as [res Hres]; [by eexists|].
    destruct (fo_backed _ _ _ _ _ _ Hc key res Hres) as (y & Hy & Hb). exists key, res.
    split; [done|]. split; [done|]. congruence.
Qed.

(** What the loop of the restart makes of one record, by kind. *)
Definition submit_entry (x : TurnIdempotencyRecord) :
    option (SubmitIdempotencyKey * result SubmitTurnResponse TurnError) :=
  match id_operation x with
  | OpSubmit => res ← replay_submit x; Some (id_scope x, id_key x, res)
  | _ => None
  end.
Definition resume_entry (x : TurnIdempotencyRecord) :
    option (RunIdempotencyKey * result ResumeTurnResponse TurnError) :=
  match id_operation x with
  | OpResume => run ← id_run_id x; res ← replay_resume x; Some (id_scope x, run, id_key x, res)
  | _ => None
  end.
Definition cancel_entry (x : TurnIdempotencyRecord) :
    option (RunIdempotencyKey * result CancelRunResponse TurnError) :=
  match id_operation x with
  | OpCancel => run ← id_run_id x; res ← replay_cancel x; Some (id_scope x, run, id_key x, res)
  | _ => None
  end.

Definition add_entries {K V} `{Countable K} (m : gmap K V) (l : list (K * V)) : gmap K V :=
  foldl (fun m x => <[x.1 := x.2]> m) m l.

Lemma restore_answers_fold l im :
  Forall (fun x => native_resume_record_is_valid x = true) l ->
  exists im', restore_answers l im = Ok im'
    /\ im_records im' = foldl (fun m x => <[persisted_key_for_record x := x]> m) (im_records im) l
    /\ im_submit im' = add_entries (im_submit im) (omap submit_entry l)
    /\ im_submit_order im' = im_submit_order im ++ (omap submit_entry l).*1
    /\ im_resume im' = add_entries (im_resume im) (omap resume_entry l)
    /\ im_resume_order im' = im_resume_order im ++ (omap resume_entry l).*1
    /\ im_cancel im' = add_entries (im_cancel im) (omap cancel_entry l)
    /\ im_cancel_order im' = im_cancel_order im ++ (omap cancel_entry l).*1
    /\ im_submit_in_flight im' = im_submit_in_flight im.
Proof.
  revert im. induction l as [|x l IH]; intros im Hl.
  { exists im. simpl. by rewrite !app_nil_r. }
  apply Forall_cons in Hl as [Hx Hl]. cbn [restore_answers]. rewrite Hx. cbn [negb].
  destruct (IH (restore_answer x im) Hl) as (im' & -> & E1 & E2 & E3 & E4 & E5 & E6 & E7 & E8).
  exists im'. split; [done|]. rewrite E1, E2, E3, E4, E5, E6, E7, E8. clear.
  cbn [foldl omap list_omap]. unfold restore_answer.
  assert (submit_entry x = match id_operation x with
    | OpSubmit => res ← replay_submit x; Some (id_scope x, id_key x, res) | _ => None end) as -> by done.
  assert (resume_entry x = match id_operation x with
    | OpResume => run ← id_run_id x; res ← replay_resume x; Some (id_scope x, run, id_key x, res)
    | _ => None end) as -> by done.
  assert (cancel_entry x = match id_operation x with
    | OpCancel => run ← id_run_id x; res ← replay_cancel x; Some (id_scope x, run, id_key x, res)
    | _ => None end) as -> by done.
  destruct (id_operation x).
  - destruct (replay_submit x); simpl; split_and!; try done; by rewrite <- app_assoc.
  - destruct (id_run_id x); simpl; [|done].
    destruct (replay_resume x); simpl; split_and!; try done; by rewrite <- app_assoc.
  - destruct (id_run_id x); simpl; [|done].
    destruct (replay_cancel x); simpl; split_and!; try done; by rewrite <- app_assoc.
Qed.

Lemma record_key max im k x :
  im_ok max im -> im_records im !! k = Some x -> persisted_key_for_record x = k.
Proof.
  intros Him Hk. destruct (record_cases max im k x Him Hk)
    as [(key & res & -> & _ & Hb)|[(key & res & -> & _ & Hb)|(key & res & -> & _ & Hb)] ].
  - destruct Hb as [_ [at_ ->] ]. apply submit_record_key.
  - destruct Hb as (_ & _ & at_ & original & ->). apply resume_record_key.
  - destruct Hb as (_ & at_ & ->). apply cancel_record_key.
Qed.

Lemma record_valid max im k x :
  im_ok max im -> im_records im !! k = Some x -> native_resume_record_is_valid x = true.
Proof.
  intros Him Hk. destruct (record_cases max im k x Him Hk)
    as [(key & res & _ & _ & Hb)|[(key & res & _ & _ & Hb)|(key & res & _ & _ & Hb)] ].
  - destruct Hb as [_ [at_ ->] ]. unfold submit_idempotency_record. by destruct res as [|[]].
  - apply Hb.
  - destruct Hb as (_ & at_ & ->). unfold cancel_idempotency_record. by destruct res.
Qed.

Lemma submit_entry_of key res x :
  submit_backs key res x ->
  exists res', submit_entry x = Some (key, res') /\ submit_backs key res' x /\ same_answer res res'.
Proof.
  intros Hb. destruct (submit_backs_replay key res x Hb) as (res' & Hr & Hb' & Hs). exists res'.
  split; [|done]. destruct Hb as [_ [at_ ->] ]. unfold submit_entry. rewrite Hr.
  unfold submit_idempotency_record. destruct key. by destruct res as [|[]].
Qed.
Lemma resume_entry_of key res x :
  resume_backs key res x ->
  exists res', resume_entry x = Some (key, res') /\ resume_backs key res' x /\ same_answer res res'.
Proof.
  intros Hb. destruct (resume_backs_replay key res x Hb) as (res' & Hr & Hb' & Hs). exists res'.
  split; [|done]. destruct Hb as (_ & _ & at_ & original & ->). unfold resume_entry. rewrite Hr.
  unfold resume_idempotency_record. destruct key as [[??]?]. by destruct res.
Qed.
Lemma cancel_entry_of key res x :
  cancel_backs key res x ->
  exists res', cancel_entry x = Some (key, res') /\ cancel_backs key res' x /\ same_answer res res'.
Proof.
  intros Hb. destruct (cancel_backs_replay key res x Hb) as (res' & Hr & Hb' & Hs). exists res'.
  split; [|done]. destruct Hb as (_ & at_ & ->). unfold cancel_entry. rewrite Hr.
  unfold cancel_idempotency_record. destruct key as [[??]?]. by destruct res.
Qed.

(** Every answer of [m] is in [m'], as a caller sees it, and no other. *)
Definition same_answers {K A} `{Countable K} (m m' : gmap K (result A TurnError)) : Prop :=
  (forall k res, m !! k = Some res -> exists res', m' !! k = Some res' /\ same_answer res res')
  /\ forall k, is_Some (m' !! k) -> is_Some (m !! k).

Lemma restored_answers max im l :
  im_ok max im -> l ≡ₚ values (im_records im) ->
  exists im', restore_answers l Idempotency_default = Ok im' /\ im_ok max im'
    /\ im_records im' = im_records im /\ im_submit_in_flight im' = ∅
    /\ same_answers (im_submit im) (im_submit im') /\ same_answers (im_resume im) (im_resume im')
    /\ same_answers (im_cancel im) (im_cancel im').
Proof.
  intros Him Hl. assert (Forall (fun x => native_resume_record_is_valid x = true) l) as Hv.
  { rewrite Hl. apply Forall_forall. intros x [k Hk]%elem_values. by eapply record_valid. }
  destruct (restore_answers_fold l Idempotency_default Hv)
    as (im' & Hres & E1 & E2 & E3 & E4 & E5 & E6 & E7 & E8).
  exists im'. split; [done|].
  assert (im_records im' = im_records im) as Hrec.
  { rewrite E1. apply (collect_values persisted_key_for_record); [|done].
    intros k x. by apply (record_key max). }
  destruct (family_restored persisted_submit_key submit_backs persisted_key_for_record submit_entry
    same_answer _ _ _ _ l (io_submit _ _ Him) Hl (fun k x => record_key max im k x Him)) as (S1 & S2 & S3).
  { intros x k v _. unfold submit_entry, persisted_key_for_record. destruct (id_operation x); try done.
    destruct (replay_submit x); [|done]. by intros [= <- <-]. }
  { apply submit_entry_of. }
  destruct (family_restored (persisted_run_key OpResume) resume_backs persisted_key_for_record
    resume_entry same_answer _ _ _ _ l (io_resume _ _ Him) Hl (fun k x => record_key max im k x Him))
    as (R1 & R2 & R3).
  { intros x k v _. unfold resume_entry, persisted_key_for_record. destruct (id_operation x); try done.
    destruct (id_run_id x), (replay_resume x); try done. by intros [= <- <-]. }
  { apply resume_entry_of. }
  destruct (family_restored (persisted_run_key OpCancel) cancel_backs persisted_key_for_record
    cancel_entry same_answer _ _ _ _ l (io_cancel _ _ Him) Hl (fun k x => record_key max im k x Him))
    as (C1 & C2 & C3).
  { intros x k v _. unfold cancel_entry, persisted_key_for_record. destruct (id_operation x); try done.
    destruct (id_run_id x), (replay_cancel x); try done. by intros [= <- <-]. }
  { apply cancel_entry_of. }
  split; [|split_and!; [done | done | |..] ].
  - split; rewrite ?E2, ?E3, ?E4, ?E5, ?E6, ?E7, ?Hrec; [exact S1 | exact R1 | exact C1 | apply Him].
  - rewrite E2. by split.
  - rewrite E4. by split.
  - rewrite E6. by split.
Qed.

End Replay.
