(* ===== verification/TurnReplay.v ===== *)
(** * Turns: idempotent answers

    Every operation of the turn store keeps the invariant of the idempotency maps
    ([TurnIdempotency]), restarts included.  The theorems: the replay of a persisted
    answer keeps what a caller can see of it; a repeated request gets the first answer
    and changes nothing, when nothing that records answers came in between; a restart loses nothing. *)

From S2P Require Import Prelude Effects External HostIds HostTypes Dispatch RunProfile TurnTypes.
From S2P Require Import TurnStore TurnSnapshot TurnExec TurnInvariants TurnPrune TurnSteps TurnOps.
From S2P Require Import TurnRestore TurnAdmission TurnIdempotency.
Open Scope Z_scope.

(** What an operation leaves alone. *)
Create Rewrite HintDb sides.
Create HintDb answers.

Section Replay.
Context {T : Chrono} {U : UuidText} {P : UuidParse U}.
Implicit Types (r : RunRecord) (s : Inner).

(** ** What the other operations leave alone *)


Definition side s : Idempotency * gmap TurnCheckpointId LoopCheckpointRecord * Limits :=
  (in_idempotency s, in_loop_checkpoints s, in_limits s).

Lemma side_prune s : side (prune_terminal_records s) = side s.
Proof. unfold prune_terminal_records. by destruct (bool_decide _). Qed.
Lemma side_push r kind reason now s : side (push_event r kind reason now s) = side s.
Proof. done. Qed.
Lemma side_update r now s : side (update_active_lock r now s) = side s.
Proof. by rewrite update_active_lock_eq. Qed.
Lemma side_touch r now s : side (touch_active_lock r now s) = side s.
Proof. by rewrite touch_active_lock_eq. Qed.
Lemma side_release r s : side (release_active_lock r s) = side s.
Proof. by rewrite release_active_lock_eq. Qed.
Lemma side_terminal id s : side (mark_terminal id s) = side s.
Proof. done. Qed.
Lemma side_dequeue id s : side (remove_queued_run id s) = side s.
Proof. done. Qed.
Lemma side_queued q s : side (with_queued q s) = side s.
Proof. done. Qed.
Lemma side_put r s : side (put_record r s) = side s.
Proof. done. Qed.
Lemma side_cursor c s : side (with_cursor c s) = side s.
Proof. done. Qed.
Lemma side_checkpoint r id state_ref gate now s :
  side (record_checkpoint r id state_ref gate now s) = side s.
Proof. done. Qed.
Lemma side_records m s : side (with_records m s) = side s.
Proof. done. Qed.
#[local] Hint Rewrite side_prune side_push side_update side_touch side_release side_terminal
  side_dequeue side_queued side_put side_cursor side_checkpoint side_records : sides.

(** [sides] closes a goal [side _ = side s] on a branch of an operation. *)
Ltac sides := cbn [fst snd]; autorewrite with sides; try done.

Lemma side_with_record {A} id s (f : RunRecord -> Inner -> RunRecord * Inner * result A TurnError) :
  (forall r s0, side (f r s0).1.2 = side s0) -> side (with_record id s f).1 = side s.
Proof.
  intros Hf. unfold with_record, take_record. destruct (in_records s !! id) as [r|]; [|done].
  simpl. set (s0 := with_records _ s). specialize (Hf r s0). destruct (f r s0) as [[r' s'] res].
  simpl in *. rewrite side_put, Hf. done.
Qed.

Lemma side_finish status failure kind reason now r s :
  side (finish_record status failure kind reason now r s).2 = side s.
Proof. unfold finish_record, advance, next_cursor. sides. Qed.
Lemma side_block id state_ref reason now r s :
  side (block_record id state_ref reason now r s).2 = side s.
Proof. unfold block_record, advance, next_cursor. sides. Qed.
#[local] Hint Rewrite side_finish side_block : sides.

Lemma side_heartbeat req now s : side (heartbeat req now s).1 = side s.
Proof.
  apply side_with_record. intros r s0. destruct (ensure_active_lease _ _ _ _); [|done].
  unfold advance, next_cursor. cbv zeta. repeat (case_match; sides).
Qed.
Lemma side_route req snapshot now s : side (record_model_route_snapshot req snapshot now s).1 = side s.
Proof. apply side_with_record. intros r s0. repeat (case_match; sides). Qed.
Lemma side_claim req now s : side (claim_next_run req now s).1 = side s.
Proof.
  unfold claim_next_run, pop_matching_queued_run. destruct (pop_matching _ _ _ _) as [[id|] queue]; [|done].
  rewrite side_with_record; [done|]. intros r s0. unfold advance, next_cursor. sides.
Qed.

Lemma side_block_run req id state_ref reason now s :
  side (block_run req id state_ref reason now s).1 = side s.
Proof.
  apply side_with_record. intros r s0. pose proof (side_block id state_ref reason now r s0).
  destruct (block_record _ _ _ _ _ _). repeat (case_match; sides).
Qed.
Lemma side_native_block req now s : side (block_native_auth req now s).1 = side s.
Proof.
  unfold block_native_auth. repeat (case_match; try done). apply side_with_record. intros r s0.
  unfold advance, next_cursor. cbv zeta. repeat (case_match; sides).
Qed.
(** An operation that ends with what [with_record] leaves, pruned or queued again. *)
Ltac side_record :=
  match goal with |- context [with_record ?id ?s ?f] =>
    let Hw := fresh in
    pose proof (side_with_record id s f) as Hw; destruct (with_record id s f) as [? ?];
    simpl in *; rewrite <- Hw; [| intros ? ?; repeat (case_match; sides); simplify_eq/=; sides]
  end; repeat (case_match; sides); simplify_eq/=; sides.

Lemma side_transition req status failure kind now s :
  side (terminal_transition req status failure kind now s).1 = side s.
Proof. unfold terminal_transition. side_record. Qed.
Lemma side_cancel_run req now s : side (cancel_run req now s).1 = side s.
Proof. unfold cancel_run. side_record. Qed.
Lemma side_relinquish req now s : side (relinquish_run req now s).1 = side s.
Proof. unfold relinquish_run. side_record. Qed.
Lemma side_cancel_once req prune now s : side (request_cancel_once req prune now s).1 = side s.
Proof. unfold request_cancel_once. side_record. Qed.
Lemma side_resume_once req now s : side (resume_turn_once req now s).1 = side s.
Proof.
  apply side_with_record. intros r s0. unfold advance, next_cursor. repeat (case_match; sides).
Qed.

Lemma side_commit s0 t : side t.1 = side s0 -> side (commit_transition t).1 = side s0.
Proof. destruct t as [s [r state [] |r e] ]; simpl; intros; sides. Qed.
Lemma side_fail failure now r s : side (fail_claimed_record failure now r s).1 = side s.
Proof.
  unfold fail_claimed_record. pose proof (side_finish Failed (Some failure) EkFailed
    (Some (sf_category failure)) now r s). destruct (finish_record _ _ _ _ _ _ _). by case_match.
Qed.
Lemma side_cancel_claimed now r s : side (cancel_claimed_record now r s).1 = side s.
Proof.
  unfold cancel_claimed_record. pose proof (side_finish Cancelled None EkCancelled None now r s).
  destruct (finish_record _ _ _ _ _ _ _). by case_match.
Qed.
Lemma side_cancel_or_fail failure now r s :
  side (cancel_or_fail_claimed_record failure now r s).1 = side s.
Proof.
  unfold cancel_or_fail_claimed_record.
  repeat case_match; auto using side_fail, side_cancel_claimed.
Qed.
Lemma side_complete now r s : side (complete_claimed_record now r s).1 = side s.
Proof.
  unfold complete_claimed_record. pose proof (side_finish Completed None EkCompleted None now r s).
  destruct (finish_record _ _ _ _ _ _ _). by case_match.
Qed.
Lemma side_block_claimed id state_ref reason now r s :
  side (block_claimed_record id state_ref reason now r s).1 = side s.
Proof.
  unfold block_claimed_record. pose proof (side_block id state_ref reason now r s).
  destruct (block_record _ _ _ _ _ _). by repeat case_match.
Qed.

Lemma side_loop_exit req mapping now s : side (apply_validated_loop_exit req mapping now s).1 = side s.
Proof.
  unfold apply_validated_loop_exit, take_record. destruct (in_records s !! _) as [r|]; [|done].
  simpl. set (s0 := with_records _ s). change (side s) with (side s0). apply side_commit.
  repeat case_match; auto using side_complete, side_cancel_or_fail, side_block_claimed, side_fail.
Qed.
Lemma side_runner_failure req failure now s : side (record_runner_failure req failure now s).1 = side s.
Proof.
  unfold record_runner_failure, take_record. destruct (in_records s !! _) as [r|]; [|done].
  simpl. set (s0 := with_records _ s). change (side s) with (side s0). apply side_commit.
  case_match; auto using side_cancel_or_fail.
Qed.

Lemma side_recover req_now filter order now s :
  side (recover_expired_leases req_now filter order now s).1 = side s.
Proof.
  unfold recover_expired_leases. set (l := List.filter _ order).
  enough (forall acc, side (foldl (recover_one now) acc l).1 = side acc.1) as H.
  { specialize (H (s, [])). destruct (foldl _ _ _). cbn [fst] in *. by rewrite side_prune. }
  induction l as [|id l IH]; intros acc; [done|]. cbn [foldl]. rewrite IH. clear IH.
  destruct acc as [s0 rec]. unfold recover_one, take_record.
  destruct (in_records s0 !! id) as [r|]; [|done]. simpl.
  by rewrite side_put, side_terminal, side_push, side_dequeue, side_release.
Qed.

Lemma side_reserve_tree scope root delta cap s :
  side (reserve_tree_descendants scope root delta cap s).1 = side s.
Proof. unfold reserve_tree_descendants. by repeat case_match. Qed.
Lemma side_release_tree scope root delta s : side (release_tree_descendants scope root delta s).1 = side s.
Proof. unfold release_tree_descendants. repeat case_match; simplify_eq/=; sides. Qed.
Lemma side_release_claimed scope child s :
  side (release_claimed_child_reservation scope child s).1 = side s.
Proof. unfold release_claimed_child_reservation. repeat case_match; simplify_eq/=; sides. Qed.

(** ** Every operation keeps the invariant *)

(** The loop checkpoints are stored under their own identifiers. *)
Definition checkpoints_ok s : Prop :=
  forall id c, in_loop_checkpoints s !! id = Some c -> lc_checkpoint_id c = id.

Record answers_ok limits s : Prop := {
  ao_limits : in_limits s = limits;
  ao_idempotent : idempotent s;
  ao_checkpoints : checkpoints_ok s }.

Lemma answers_side limits s s' : answers_ok limits s -> side s' = side s -> answers_ok limits s'.
Proof.
  intros [Hl Hi Hc] Hside. unfold side in Hside. injection Hside as E1 E2 E3.
  split; [congruence | | unfold checkpoints_ok; by rewrite E2].
  unfold idempotent, limit. by rewrite E1, E3.
Qed.

Lemma answers_new limits : answers_ok limits (Inner_new limits).
Proof.
  split; [done | | intros id c; simpl; by rewrite lookup_empty].
  assert (forall {K V} `{Countable K} (pk : K -> PersistedIdempotencyKey)
            (backs : K -> V -> TurnIdempotencyRecord -> Prop) max,
            family_ok pk backs max (∅ : gmap K V) [] ∅) as Hf.
  { intros. split; [apply ordered_empty | rewrite map_size_empty; lia | |].
    - intros k v. by rewrite lookup_empty.
    - intros k. rewrite lookup_empty. by intros [? [=] ]. }
  split; try apply Hf. intros k. simpl. rewrite lookup_empty. by intros [? [=] ].
Qed.

Lemma answers_set limits s im :
  answers_ok limits s -> im_ok (limit s) im -> answers_ok limits (with_idempotency im s).
Proof. intros [Hl Hi Hc] Him. by split. Qed.

Lemma answers_leave limits key s : answers_ok limits s -> answers_ok limits (leave_in_flight key s).
Proof. intros H. apply answers_set; [done|]. by eapply im_ok_same; [apply (ao_idempotent _ _ H)|..]. Qed.

Lemma answers_submit limits key res at_ s :
  answers_ok limits s -> not_busy res -> answers_ok limits (remember_submit_idempotency key res at_ s).
Proof.
  intros H Hb. pose proof (remember_submit_ok key res at_ s (ao_idempotent _ _ H) Hb) as Hi.
  destruct (remember_submit_eq key res at_ s) as [im E]. rewrite E in *. by apply answers_set.
Qed.
Lemma answers_settle limits key res at_ s :
  answers_ok limits s -> not_busy res -> answers_ok limits (settle key res at_ s).
Proof. intros. by apply answers_leave, answers_submit. Qed.

Lemma answers_cancel limits key res at_ s :
  answers_ok limits s -> plain_result res ->
  answers_ok limits (remember_cancel_idempotency key res at_ s).
Proof.
  intros H Hp. pose proof (remember_cancel_ok key res at_ s (ao_idempotent _ _ H) Hp) as Hi.
  destruct (remember_cancel_eq key res at_ s) as [im E]. rewrite E in *. by apply answers_set.
Qed.

Lemma request_cancel_answers limits req now s :
  answers_ok limits s -> answers_ok limits (request_cancel req now s).1.
Proof.
  intros H. unfold request_cancel. destruct (im_cancel _ !! _); [done|].
  pose proof (side_cancel_once req true now s) as Hside.
  pose proof (cancel_once_plain req true now s) as Hp.
  destruct (request_cancel_once req true now s) as [s' res]. simpl in *.
  apply answers_cancel; [|done]. by eapply answers_side.
Qed.

Lemma cancel_all_answers limits requests now s s' responses :
  answers_ok limits s -> cancel_all requests now s = Ok (s', responses) -> answers_ok limits s'.
Proof.
  revert s s' responses. induction requests as [|req requests IH]; intros s s' responses Hs.
  { cbn [cancel_all]. by intros [= <- _]. }
  cbn [cancel_all]. cbv zeta. destruct (im_cancel _ !! _) as [[response|]|].
  - cbn [fst]. destruct (cancel_all requests now s) as [[s1 rest]|] eqn:E; [|done].
    intros [= <- _]. by eapply IH.
  - done.
  - pose proof (side_cancel_once req false now s) as Hside.
    destruct (request_cancel_once req false now s) as [s1 [response|] ]; [|done]. cbn [fst snd] in *.
    match goal with |- context [cancel_all requests now ?x] => set (s2 := x) in * end.
    destruct (cancel_all requests now s2) as [[s3 rest]|] eqn:E; [|done].
    intros [= <- _]. eapply IH; [|exact E]. apply answers_cancel; [|done]. by eapply answers_side.
Qed.

Lemma cancel_tree_answers limits req order now s :
  answers_ok limits s -> answers_ok limits (request_cancel_tree req order now s).1.
Proof.
  intros H. unfold request_cancel_tree. repeat (case_match; try done). simplify_eq.
  eapply answers_side; [by eapply cancel_all_answers | apply side_prune].
Qed.

Lemma native_record_valid req now s :
  inv s -> let native := from_option has_native false (in_records s !! rq_run_id req) in
  native_resume_record_is_valid
    (resume_idempotency_record (rq_scope req, rq_run_id req, rq_idempotency_key req)
       (resume_turn_once req now s).2 now (if native then Some req else None)) = true.
Proof.
  intros Hs native. destruct native eqn:Hn; [|by destruct (resume_turn_once req now s).2].
  pose proof (resume_once_plain req now s) as Hp.
  pose proof (native_resume_answer req now s) as Ha.
  destruct (resume_turn_once req now s).2 as [a|e] eqn:Hres.
  - destruct (Ha a Hs Hn eq_refl) as (E1 & E2 & E3).
    unfold native_resume_record_is_valid. simpl. rewrite E1, E2, E3.
    by rewrite !bool_decide_eq_true_2.
  - unfold native_resume_record_is_valid. simpl. rewrite !bool_decide_eq_true_2; try done.
    by destruct e.
Qed.

Lemma resume_answers limits req now s :
  inv s -> answers_ok limits s -> answers_ok limits (resume_turn req now s).1.
Proof.
  intros Hs H. unfold resume_turn. destruct (im_resume _ !! _); [by repeat case_match|].
  pose proof (side_resume_once req now s) as Hside.
  pose proof (resume_once_plain req now s) as Hp. pose proof (native_record_valid req now s Hs) as Hv.
  set (original := if from_option has_native false (in_records s !! rq_run_id req)
                   then Some req else None) in *.
  destruct (resume_turn_once req now s) as [s' res]. simpl in *.
  assert (answers_ok limits s') as H' by by eapply answers_side.
  pose proof (remember_resume_ok _ res now original s' (ao_idempotent _ _ H') Hp Hv) as Hi.
  destruct (remember_resume_eq (rq_scope req, rq_run_id req, rq_idempotency_key req) res now original s')
    as [im E]. rewrite E in *. by apply answers_set.
Qed.

(** *** Submissions *)

Lemma ancestry_not_busy fuel records visited current e :
  ancestry fuel records visited current = Some (Err e) -> is_expected_admission_outcome e = false.
Proof.
  revert visited current. induction fuel as [|fuel IH]; intros visited current; simpl;
    repeat (case_match; try done); try (by intros [= <-]); eauto.
Qed.
Lemma uncancelled_plain parent s e :
  ensure_uncancelled_ancestry parent s = Err e -> is_expected_admission_outcome e = false.
Proof.
  unfold ensure_uncancelled_ancestry. destruct (ancestry _ _ _ _) as [[|]|] eqn:Ha; simpl; try done.
  intros [= <-]. by eapply ancestry_not_busy.
Qed.
Lemma child_parent_plain req s e :
  child_parent req s = Err e -> is_expected_admission_outcome e = false.
Proof.
  unfold child_parent. destruct (ensure_uncancelled_ancestry _ s) eqn:Ha.
  - repeat (case_match; try done); by intros [= <-].
  - apply uncancelled_plain in Ha. repeat (case_match; try done); by intros [= <-].
Qed.
Lemma child_root_plain req parent s e :
  child_root req parent s = Err e -> is_expected_admission_outcome e = false.
Proof. unfold child_root. repeat (case_match; try done); by intros [= <-]. Qed.
Lemma plain_not_busy e :
  is_expected_admission_outcome e = false -> not_busy (Err e).
Proof. by intros He busy [= ->]. Qed.
Lemma profile_not_busy e : not_busy (Err (profile_resolution_error_to_turn_error e)).
Proof. by intros busy. Qed.
#[local] Hint Resolve answers_settle answers_leave plain_not_busy child_parent_plain child_root_plain
  profile_not_busy : answers.
#[local] Hint Extern 1 (not_busy _) => (by intros ? [=]) : answers.

Lemma reserve_admission_side id class scope actor limit_for s :
  side (reserve_admission id class scope actor limit_for s).1 = side s.
Proof. unfold reserve_admission. by repeat case_match. Qed.

Lemma accept_answers limits req released profile turn_id run_id now s :
  answers_ok limits s -> answers_ok limits (accept_run req released profile turn_id run_id now s).1.
Proof. intros H. apply answers_settle; [by eapply answers_side | by intros ? [=] ]. Qed.

Lemma enter_answers limits key s s' step :
  answers_ok limits s -> enter_submit key s = Some (s', step) -> answers_ok limits s'.
Proof.
  intros H. unfold enter_submit. destruct (remembered key s); [by intros [= <- _]|].
  case_bool_decide; [done|]. intros [= <- _]. apply answers_set; [done|].
  by eapply im_ok_same; [apply (ao_idempotent _ _ H)|..].
Qed.

Variable limit_for : TurnAdmissionLimitProvider.

Lemma commit_submit_answers limits req resolution fresh now s :
  answers_ok limits s -> answers_ok limits (commit_submit limit_for req resolution fresh now s).1.
Proof.
  intros H. unfold commit_submit. destruct (remembered _ s); [simpl; auto with answers|].
  destruct resolution as [resolved|e]; [|simpl; auto with answers].
  destruct (thread_busy _ s); [simpl; auto with answers|]. case_bool_decide; [simpl; auto with answers|].
  match goal with |- context [reserve_admission ?a ?b ?c ?d ?e s] =>
    pose proof (reserve_admission_side a b c d e s) as Hside;
    destruct (reserve_admission a b c d e s) as [s1 [|] ] end; simpl in Hside.
  - apply accept_answers. by eapply answers_side.
  - simpl. apply answers_settle; [by eapply answers_side | auto with answers].
Qed.

Lemma child_section_answers {A} limits req claimed now s (k : Inner -> Inner * Step A) :
  answers_ok limits s -> answers_ok limits (k s).1 ->
  answers_ok limits (child_section req claimed now s k).1.
Proof.
  intros H Hk. unfold child_section. destruct (ensure_claimed_child_parent _ _ _ _); [|done].
  destruct (remembered _ s); [simpl; auto with answers | done].
Qed.

Lemma commit_child_answers limits req claimed resolution fresh now s :
  answers_ok limits s ->
  answers_ok limits (commit_child limit_for req claimed resolution fresh now s).1.
Proof.
  intros H. unfold commit_child.
  match goal with |- context [child_section req claimed now s ?k] =>
    assert (answers_ok limits (child_section req claimed now s k).1) as Hc;
    [apply child_section_answers; [done|] | destruct (child_section req claimed now s k) as [s' [|[] ] ]; done]
  end.
  unfold settle_child.
  destruct resolution as [resolved|e]; [|simpl; auto with answers].
  destruct (child_parent req s) as [parent|e] eqn:Hparent; [|simpl; eauto with answers].
  destruct (child_root req parent s) as [root|e] eqn:Hroot; [|simpl; eauto with answers].
  destruct (thread_busy _ s); [simpl; auto with answers|].
  case_bool_decide; [simpl; auto with answers|].
  destruct (u64_checked_add _ _) as [next|]; [|simpl; auto with answers].
  destruct (_ <? _); [simpl; auto with answers|].
  match goal with |- context [reserve_admission ?a ?b ?c ?d ?e ?x] =>
    pose proof (reserve_admission_side a b c d e x) as Hside;
    destruct (reserve_admission a b c d e x) as [s1 [|] ] end; simpl in Hside.
  - match goal with |- context [accept_run ?a ?b ?c ?d ?e ?f s1] =>
      pose proof (accept_answers limits a b c d e f s1) as Ha;
      destruct (accept_run a b c d e f s1) as [s2 res] end.
    apply Ha. by eapply answers_side.
  - apply answers_settle; [by eapply answers_side | auto with answers].
Qed.

Lemma section_answers limits env {X} (e : turnE X) s s' x :
  answers_ok limits s -> exec_section limit_for env e s = Some (s', x) -> answers_ok limits s'.
Proof.
  intros H. destruct e; simpl.
  - by intros [= <- _].
  - by intros [= <- _].
  - destruct (enter_submit key s) as [[s1 step]|] eqn:He; simpl; [|done]. intros [= <- _].
    by eapply enter_answers.
  - unfold reject_lineage. destruct (remembered _ s); intros [= <- _]; auto with answers.
  - unfold after_admission. destruct (remembered _ s), admission; intros [= <- _]; auto with answers.
  - pose proof (commit_submit_answers limits req resolution (env_fresh env) (env_now env) s H).
    destruct (commit_submit _ _ _ _ _ _). by intros [= <- _].
  - unfold enter_child. destruct (ensure_claimed_child_parent _ _ _ _); simpl; [|by intros [= <- _]].
    destruct (enter_submit _ s) as [[s1 step]|] eqn:He; simpl; [|done]. intros [= <- _].
    by eapply enter_answers.
  - assert (answers_ok limits (derive_template req claimed (env_now env) s).1) as Hd.
    { apply child_section_answers; [done|]. destruct (child_parent req s) eqn:Hp; [done|].
      simpl. eauto with answers. }
    destruct (derive_template _ _ _ _). by intros [= <- _].
  - assert (answers_ok limits (child_after_admission req claimed admission (env_now env) s).1) as Hd.
    { apply child_section_answers; [done|]. destruct admission; [done|]. simpl. auto with answers. }
    destruct (child_after_admission _ _ _ _ _). by intros [= <- _].
  - pose proof (commit_child_answers limits req claimed resolution (env_fresh env) (env_now env) s H).
    destruct (commit_child _ _ _ _ _ _ _). by intros [= <- _].
  - intros [= <- _]. auto with answers.
Qed.

(** *** Restarts *)

Lemma restart_answers limits s :
  inv s -> answers_ok limits s ->
  exists queue terminal im,
    from_persistence_snapshot (persistence_snapshot s) limits
      = Ok (restarted s queue terminal im limits)
    /\ queue ≡ₚ in_queued_runs s /\ terminal ≡ₚ in_terminal_runs s
    /\ answers_ok limits (restarted s queue terminal im limits)
    /\ im_records im = im_records (in_idempotency s) /\ im_submit_in_flight im = ∅
    /\ same_answers (im_submit (in_idempotency s)) (im_submit im)
    /\ same_answers (im_resume (in_idempotency s)) (im_resume im)
    /\ same_answers (im_cancel (in_idempotency s)) (im_cancel im).
Proof.
  intros Hs [Hl Hi Hc]. destruct (restart_state s limits Hs) as (queue & terminal & Hq & Ht & E).
  destruct (restored_answers _ _ (sort_by compare_idempotency_records
              (sn_idempotency_records (persistence_snapshot s))) Hi) as (im & Him & Hok & H).
  { simpl. by rewrite !sort_by_perm. }
  rewrite Him in E. exists queue, terminal, im. split_and!; try done; try apply H.
  split; [done | |].
  - unfold idempotent, limit in *. simpl. by rewrite Hl in Hok.
  - intros id c. simpl. by rewrite (collect_values lc_checkpoint_id (in_loop_checkpoints s));
      [apply Hc | exact Hc | apply sort_by_perm].
Qed.

Lemma exec_answers limits env op s s' :
  inv s -> answers_ok limits s -> turn_exec limit_for env op s = Some s' -> answers_ok limits s'.
Proof.
  intros Hs H. destruct op; cbn [turn_exec].
  1: { destruct (exec_section limit_for env e s) as [[s1 x]|] eqn:He; simpl; [|done].
       intros [= <-]. by eapply section_answers. }
  20: { unfold ok_option. rewrite (ao_limits _ _ H).
        destruct (restart_answers limits s Hs H) as (queue & terminal & im & -> & _ & _ & Ha & _).
        by intros [= <-]. }
  1-3: intros [= <-]; eauto using resume_answers, request_cancel_answers, cancel_tree_answers.
  16: { intros [= <-]. destruct H as [Hl Hi Hc]. split; [done | done|]. intros j c.
        simpl. same_or_other j id; [by intros [= <-] | apply Hc]. }
  all: intros [= <-]; eapply answers_side; [exact H|]; unfold complete_run, fail_run.
  all: auto using side_claim, side_heartbeat, side_recover, side_route, side_block_run,
         side_native_block, side_transition, side_cancel_run, side_runner_failure, side_relinquish,
         side_loop_exit, side_reserve_tree, side_release_tree, side_release_claimed.
Qed.

Lemma reachable_answers limits s : reachable limit_for limits s -> answers_ok limits s.
Proof.
  intros Hr. enough (inv s /\ answers_ok limits s) as [_ ?]; [done|].
  revert s Hr. apply rtc_ind_r; [split; [apply inv_new | apply answers_new]|].
  intros s s' _ Hstep [Hs Ha]. pose proof (turn_step_changes limit_for s s' Hs Hstep) as Hc.
  destruct Hstep as [env op _ _ Hex]. split; [by eapply changes_inv | by eapply exec_answers].
Qed.

(** ** What the callers rely on *)

(** C17: the persisted form of an answer is replayed as the answer, after any restart.
    An accepted submission, a resumption and a cancellation come back as they were; a
    rejected admission comes back with its reason; any other error comes back with the
    same category, the same status code and the same exceeded capacity, whatever
    submission, resumption or cancellation on whatever store it came from.  Only a busy
    thread, which is not remembered, has no replay. *)
Theorem persisted_answers_replay :
  (forall key res at_, not_busy res ->
     exists res', replay_submit (submit_idempotency_record key res at_) = Some res'
       /\ same_answer res res')
  /\ (forall key busy at_,
        replay_submit (submit_idempotency_record key (Err (TeThreadBusy busy)) at_) = None)
  /\ (forall s req now key at_ original,
        exists res', replay_resume (resume_idempotency_record key (resume_turn_once req now s).2 at_
                                      original) = Some res'
          /\ same_answer (resume_turn_once req now s).2 res')
  /\ (forall s req prune now key at_,
        exists res', replay_cancel (cancel_idempotency_record key
                                      (request_cancel_once req prune now s).2 at_) = Some res'
          /\ same_answer (request_cancel_once req prune now s).2 res').
Proof.
  split_and!.
  - intros. by apply submit_replays.
  - done.
  - intros. apply resume_replays, resume_once_plain.
  - intros. apply cancel_replays, cancel_once_plain.
Qed.

(** What is remembered of a new answer. *)
Lemma remembered_cancel key res at_ s :
  idempotent s -> (1 <= limit s)%nat -> im_cancel (in_idempotency s) !! key = None ->
  im_cancel (in_idempotency (remember_cancel_idempotency key res at_ s)) !! key = Some res.
Proof.
  intros [_ _ Hc _] Hmax Hnew. unfold remember_cancel_idempotency. fold (limit s).
  pose proof (family_remembers (limit s) _ _ key res Hmax (fo_ordered _ _ _ _ _ _ Hc)
                (fo_size _ _ _ _ _ _ Hc) Hnew) as Hf.
  cbv zeta. cbn [remember_persisted_idempotency set_persisted im_cancel].
  destruct (prune_ordered_map _ _ _) as [[m order] removed].
  unfold prune_idempotency_records. by destruct (prune_ordered_map _ _ _) as [[??]?].
Qed.

Lemma remembered_submit key res at_ s :
  idempotent s -> (1 <= limit s)%nat -> remembered key s = None ->
  remembered key (settle key res at_ s) = Some res.
Proof.
  intros [Hc _ _ _] Hmax Hnew. unfold settle, remembered, leave_in_flight, remember_submit_idempotency.
  fold (limit s).
  pose proof (family_remembers (limit s) _ _ key res Hmax (fo_ordered _ _ _ _ _ _ Hc)
                (fo_size _ _ _ _ _ _ Hc) Hnew) as Hf.
  cbv zeta. cbn [remember_persisted_idempotency set_persisted im_submit].
  destruct (prune_ordered_map _ _ _) as [[m order] removed].
  unfold prune_idempotency_records. by destruct (prune_ordered_map _ _ _) as [[??]?].
Qed.

(** The answer to a resumption, and the original request of its record. *)
Lemma remembered_resume key res at_ original s :
  idempotent s -> plain_result res ->
  native_resume_record_is_valid (resume_idempotency_record key res at_ original) = true ->
  (1 <= limit s)%nat -> im_resume (in_idempotency s) !! key = None ->
  let im := in_idempotency (remember_resume_idempotency key res at_ original s) in
  im_resume im !! key = Some res
  /\ im_records im !! persisted_run_key OpResume key ≫= native_resume_request = original.
Proof.
  intros Hi Hp Hv Hmax Hnew.
  destruct (remember_resume_parts key res at_ original s Hi Hp Hv) as (im & -> & Him & Hl).
  destruct (Hl Hmax Hnew) as [Hres Hrec].
  destruct (prune_records_same _ im (im_records_size _ _ Him)) as [order ->]. simpl.
  rewrite Hrec. split; [done|]. simpl. by destruct original, res.
Qed.

Lemma resume_keeps_plain_run req now s :
  inv s -> from_option has_native false (in_records s !! rq_run_id req) = false ->
  from_option has_native false (in_records (resume_turn_once req now s).1 !! rq_run_id req) = false.
Proof.
  intros Hs Hn. unfold resume_turn_once, with_record, take_record.
  destruct (in_records s !! rq_run_id req) as [r|] eqn:Hr; [|simpl; by rewrite Hr].
  pose proof (inv_keyed _ Hs _ _ Hr) as Hid. simpl in Hn. pose proof (has_native_none _ Hn) as Hw.
  simpl. rewrite Hw.
  repeat match goal with |- context [if ?b then _ else _] => destruct b end; simpl.
  all: rewrite ?update_active_lock_eq; simpl; rewrite <- Hid, lookup_insert_eq; exact Hn.
Qed.

Lemma commit_submit_remembers req resolution fresh now s s' res :
  idempotent s -> (1 <= limit s)%nat ->
  commit_submit limit_for req resolution fresh now s = (s', res) -> not_busy res ->
  remembered (submit_key req) s' = Some res.
Proof.
  intros Hi Hmax Hc Hb. unfold commit_submit in Hc.
  destruct (remembered (submit_key req) s) as [old|] eqn:Hold; [injection Hc as <- <-; exact Hold|].
  destruct resolution as [resolved|e]; [|injection Hc as <- <-; by apply remembered_submit].
  destruct (thread_busy _ s) as [busy|]; [injection Hc as <- <-; by destruct (Hb busy)|].
  case_bool_decide; [injection Hc as <- <-; by apply remembered_submit|].
  match type of Hc with context [reserve_admission ?a ?b ?c ?d ?e s] =>
    pose proof (reserve_admission_side a b c d e s) as Hside;
    destruct (reserve_admission a b c d e s) as [s1 [|] ] end; simpl in Hside.
  all: unfold side in Hside; injection Hside as E1 E2 E3.
  - unfold accept_run, next_cursor in Hc. injection Hc as <- <-. apply remembered_submit.
    + unfold idempotent, limit. simpl. by rewrite E1, E3.
    + unfold limit. simpl. by rewrite E3.
    + unfold remembered. simpl. by rewrite E1.
  - injection Hc as <- <-. apply remembered_submit.
    + unfold idempotent, limit. by rewrite E1, E3.
    + unfold limit. by rewrite E3.
    + unfold remembered. by rewrite E1.
Qed.

Lemma resume_repeats req now now' s :
  inv s -> idempotent s -> (1 <= limit s)%nat ->
  let '(s', res) := resume_turn req now s in resume_turn req now' s' = (s', res).
Proof.
  intros Hs Hi Hmax. unfold resume_turn at 1.
  set (key := (rq_scope req, rq_run_id req, rq_idempotency_key req)).
  destruct (im_resume (in_idempotency s) !! key) as [old|] eqn:Hold.
  - destruct (im_records (in_idempotency s) !! _ ≫= native_resume_request) as [original|] eqn:Ho.
    + destruct (negb _) eqn:Hne; unfold resume_turn; fold key; by rewrite Hold, Ho, Hne.
    + destruct (from_option has_native false _) eqn:Hn; unfold resume_turn; fold key;
        by rewrite Hold, Ho, Hn.
  - pose proof (side_resume_once req now s) as Hside. unfold side in Hside.
    injection Hside as E1 _ E3.
    pose proof (resume_once_plain req now s) as Hp. pose proof (native_record_valid req now s Hs) as Hv.
    pose proof (resume_keeps_plain_run req now s Hs) as Hkeep. cbv zeta in Hv. fold key in Hv.
    destruct (resume_turn_once req now s) as [s1 res]. cbn [fst snd] in *.
    set (native := from_option has_native false (in_records s !! rq_run_id req)) in *.
    assert (idempotent s1) as Hi1 by (unfold idempotent, limit; by rewrite E1, E3).
    assert (1 <= limit s1)%nat as Hmax1 by (unfold limit; by rewrite E3).
    assert (im_resume (in_idempotency s1) !! key = None) as Hold1 by by rewrite E1.
    destruct (remembered_resume key res now (if native then Some req else None) s1 Hi1 Hp Hv Hmax1 Hold1)
      as [Hres Hrec].
    destruct (remember_resume_eq key res now (if native then Some req else None) s1) as [im E].
    unfold resume_turn. fold key. rewrite E in *. cbn [with_idempotency in_idempotency in_records] in *.
    match goal with |- context [im_resume im !! ?k] =>
      replace (im_resume im !! k) with (Some res) by (symmetry; exact Hres) end.
    match goal with |- context [im_records im !! ?k ≫= ?f] =>
      replace (im_records im !! k ≫= f) with (if native then Some req else None)
        by (symmetry; exact Hrec) end.
    destruct native; [by rewrite bool_decide_eq_true_2|].
    by rewrite Hkeep.
Qed.

(** The operations that answer no idempotent request: those of the runners, the recovery,
    the spawn-tree slots and the checkpoints. *)
Definition answers_nothing (op : turn_op) : bool :=
  match op with
  | OpSection _ | OpResumeTurn _ | OpRequestCancel _ | OpRequestCancelTree _ | OpRestart => false
  | _ => true
  end.

Lemma exec_keeps_answers env op s s' :
  answers_nothing op = true -> turn_exec limit_for env op s = Some s' ->
  in_idempotency s' = in_idempotency s.
Proof.
  intros Hop. enough (forall s', turn_exec limit_for env op s = Some s' ->
    in_idempotency s' = in_idempotency s \/ side s' = side s) as H.
  { intros Hex. destruct (H s' Hex) as [?|Hside]; [done|]. unfold side in Hside. by injection Hside. }
  destruct op; try done; cbn [turn_exec]; intros s1 [= <-]; unfold complete_run, fail_run; [right..|by left];
    auto using side_claim, side_heartbeat, side_recover, side_route, side_block_run,
         side_native_block, side_transition, side_cancel_run, side_runner_failure, side_relinquish,
         side_loop_exit, side_reserve_tree, side_release_tree, side_release_claimed.
Qed.

Lemma executes_keep_answers ops s s' :
  Forall (fun '(_, op) => answers_nothing op = true) ops -> executes limit_for ops s s' ->
  in_idempotency s' = in_idempotency s.
Proof.
  intros Hops. revert s. induction Hops as [|[env op] ops Hop _ IH]; intros s; cbn [executes].
  - by intros ->.
  - intros (s1 & _ & _ & Hex & Hrest). rewrite (IH s1 Hrest). by eapply exec_keeps_answers.
Qed.

(** Whether the run of the request waits for a native authentication. *)
Definition run_native (req : ResumeTurnRequest) s : bool :=
  from_option has_native false (in_records s !! rq_run_id req).

(** A remembered resumption depends on the answers and on that alone. *)
Lemma resume_replay_stable req now now' s s' res :
  is_Some (im_resume (in_idempotency s) !! (rq_scope req, rq_run_id req, rq_idempotency_key req)) ->
  in_idempotency s' = in_idempotency s ->
  run_native req s' = run_native req s -> resume_turn req now s = (s, res) ->
  resume_turn req now' s' = (s', res).
Proof.
  intros [old Hold] Him Hn. unfold resume_turn. fold (run_native req s). fold (run_native req s').
  rewrite Him, Hold, Hn.
  destruct (_ ≫= native_resume_request); [destruct (negb _) | destruct (run_native req s)];
    by intros [= <-].
Qed.

(** The first time, a run that waits natively has its request remembered with it. *)
Lemma resume_first_stable req now now' s s' s'' res :
  inv s -> idempotent s -> (1 <= limit s)%nat ->
  im_resume (in_idempotency s) !! (rq_scope req, rq_run_id req, rq_idempotency_key req) = None ->
  resume_turn req now s = (s', res) -> in_idempotency s'' = in_idempotency s' ->
  run_native req s'' = run_native req s -> resume_turn req now' s'' = (s'', res).
Proof.
  intros Hs Hi Hmax Hold Hrun Him Hn. unfold resume_turn in Hrun.
  fold (run_native req s) in Hrun. set (key := (rq_scope req, rq_run_id req, rq_idempotency_key req)) in *.
  rewrite Hold in Hrun. pose proof (side_resume_once req now s) as Hside. unfold side in Hside.
  injection Hside as E1 _ E3.
  pose proof (resume_once_plain req now s) as Hp. pose proof (native_record_valid req now s Hs) as Hv.
  cbv zeta in Hv. fold key in Hv. fold (run_native req s) in Hv.
  destruct (resume_turn_once req now s) as [s1 res1]. cbn [fst snd] in *. injection Hrun as <- <-.
  assert (idempotent s1) as Hi1 by (unfold idempotent, limit; by rewrite E1, E3).
  assert (1 <= limit s1)%nat as Hmax1 by (unfold limit; by rewrite E3).
  assert (im_resume (in_idempotency s1) !! key = None) as Hold1 by by rewrite E1.
  destruct (remembered_resume key res1 now (if run_native req s then Some req else None) s1 Hi1 Hp Hv Hmax1 Hold1)
    as [Hres Hrec].
  unfold resume_turn. fold key. fold (run_native req s''). rewrite Him, Hn.
  match goal with |- context [im_resume ?im !! ?k] =>
    replace (im_resume im !! k) with (Some res1) by (symmetry; exact Hres) end.
  match goal with |- context [im_records ?im !! ?k ≫= ?f] =>
    replace (im_records im !! k ≫= f) with (if run_native req s then Some req else None)
      by (symmetry; exact Hrec) end.
  destruct (run_native req s); [by rewrite bool_decide_eq_true_2 | done].
Qed.

Lemma resume_repeats_later req now now' s s' s'' res :
  inv s -> idempotent s -> (1 <= limit s)%nat ->
  resume_turn req now s = (s', res) -> in_idempotency s'' = in_idempotency s' ->
  run_native req s'' = run_native req s -> resume_turn req now' s'' = (s'', res).
Proof.
  intros Hs Hi Hmax Hrun Him Hn.
  destruct (im_resume (in_idempotency s) !! (rq_scope req, rq_run_id req, rq_idempotency_key req))
    as [old|] eqn:Hold; [|by eapply resume_first_stable].
  assert (s' = s) as ->.
  { unfold resume_turn in Hrun. rewrite Hold in Hrun. repeat case_match; by simplify_eq. }
  eapply resume_replay_stable; [by rewrite Hold | done | done | exact Hrun].
Qed.

(** C10: a repeated request is answered once.  Take a reachable store that may remember at
    least one answer, a request made on it, and any number of operations after it that
    answer no request of this kind themselves (those of runners, recovery, spawn-tree slots
    and checkpoints), at any times.  A cancellation that is sent again then gets the first
    answer and leaves the store as it is.  So does a resumption, when it is sent again at
    once, or later if its run waits for a native authentication exactly if it did before
    the first one.  A submission that its last critical section answered, with anything but
    a busy thread, gets the same answer when it enters again, before anything is checked,
    and the store stays as it is.  (Other requests in between may push a remembered answer
    out; nothing is claimed then.) *)
Theorem repeated_request_answered_once limits s ops s' s'' :
  reachable limit_for limits s -> (1 <= max_idempotency_records limits)%nat ->
  Forall (fun '(_, op) => answers_nothing op = true) ops -> executes limit_for ops s' s'' ->
  (forall req now now' res,
     request_cancel req now s = (s', res) -> request_cancel req now' s'' = (s'', res))
  /\ (forall req now now' res,
        resume_turn req now s = (s', res) ->
        ops = [] \/ run_native req s'' = run_native req s ->
        resume_turn req now' s'' = (s'', res))
  /\ (forall req resolution fresh now res,
        commit_submit limit_for req resolution fresh now s = (s', res) -> not_busy res ->
        enter_submit (submit_key req) s'' = Some (s'', Return res)).
Proof.
  intros Hr Hmax Hops Hex. pose proof (reachable_inv _ _ _ Hr) as Hs.
  destruct (reachable_answers _ _ Hr) as [Hl Hi _].
  assert (1 <= limit s)%nat as Hmax' by (unfold limit; by rewrite Hl).
  pose proof (executes_keep_answers ops s' s'' Hops Hex) as Him. split_and!.
  - intros req now now' res. unfold request_cancel.
    set (key := (xq_scope req, xq_run_id req, xq_idempotency_key req)). rewrite Him.
    destruct (im_cancel (in_idempotency s) !! key) as [old|] eqn:Hold; [intros [= <- <-]; by rewrite Hold|].
    pose proof (side_cancel_once req true now s) as Hside. unfold side in Hside.
    destruct (request_cancel_once req true now s) as [s1 res1]. injection Hside as E1 _ E3.
    intros [= <- <-]. rewrite remembered_cancel; [done| | |].
    + unfold idempotent, limit. by rewrite E1, E3.
    + unfold limit. by rewrite E3.
    + by rewrite E1.
  - intros req now now' res Hrun [->|Hn]; [|by eapply resume_repeats_later].
    cbn [executes] in Hex. subst s''. pose proof (resume_repeats req now now' s Hs Hi Hmax') as H.
    by rewrite Hrun in H.
  - intros req resolution fresh now res Hc Hb.
    pose proof (commit_submit_remembers req resolution fresh now s s' res Hi Hmax' Hc Hb) as Hrem.
    unfold enter_submit, remembered in *. by rewrite Him, Hrem.
Qed.

(** C11: a restart loses nothing.  The snapshot of every reachable store passes every
    check of the restart; the store built from it has the same runs, turns, locks,
    reservations, spawn-tree slots, loop checkpoints and events, the same cursor, the
    same queue, terminal runs and checkpoints up to their order, and remembers exactly
    the answers that were remembered, as a caller sees them; no submission is in
    flight. *)
Theorem restart_loses_nothing limits s :
  reachable limit_for limits s ->
  exists s', from_persistence_snapshot (persistence_snapshot s) limits = Ok s'
    /\ in_records s' = in_records s /\ in_turns s' = in_turns s
    /\ in_active_locks s' = in_active_locks s
    /\ in_admission_reservations s' = in_admission_reservations s
    /\ in_tree_reservations s' = in_tree_reservations s
    /\ in_loop_checkpoints s' = in_loop_checkpoints s
    /\ in_events s' = in_events s /\ in_event_retention_floor s' = in_event_retention_floor s
    /\ in_cursor s' = in_cursor s
    /\ in_queued_runs s' ≡ₚ in_queued_runs s /\ in_terminal_runs s' ≡ₚ in_terminal_runs s
    /\ in_checkpoints s' ≡ₚ in_checkpoints s
    /\ im_records (in_idempotency s') = im_records (in_idempotency s)
    /\ same_answers (im_submit (in_idempotency s)) (im_submit (in_idempotency s'))
    /\ same_answers (im_resume (in_idempotency s)) (im_resume (in_idempotency s'))
    /\ same_answers (im_cancel (in_idempotency s)) (im_cancel (in_idempotency s'))
    /\ im_submit_in_flight (in_idempotency s') = ∅.
Proof.
  intros Hr. pose proof (reachable_answers _ _ Hr) as Ha.
  destruct (restart_answers limits s (reachable_inv _ _ _ Hr) Ha)
    as (queue & terminal & im & -> & Hq & Ht & _ & H1 & H2 & H3 & H4 & H5).
  eexists. split; [done|]. split_and!; try done; simpl.
  - apply (collect_values lc_checkpoint_id); [apply Ha | apply sort_by_perm].
  - apply sort_by_perm.
Qed.

End Replay.
