(* ===== verification/LoopExit.v ===== *)
(** * Loop exits

    [loop_exit.rs] of [brassclaw_turns]: what a loop driver may report when it stops
    ([LoopExit] and its four payloads, with the wire rules of the reference lists and
    of the validation policy), how a report is judged against the evidence the host
    holds ([LoopExit_validate] and its helpers), and [LoopExitApplier], which gathers
    that evidence, judges the report and asks the transition port for one transition
    under the claimed lease.  The evidence port and the transition port are calls of
    an interactive program ([exitE]).

    [accepted] says, without the code's order of checks, when a report must be
    believed.  The theorem: the applier asks for at most one transition, last, under
    the claimed lease, for what the driver reported exactly when the evidence the host
    answered supports it, and for a failure otherwise; and over the turn store a run
    is completed, cancelled or blocked this way only if the report said so and was
    believed. *)

From S2P Require Import Prelude Effects External HostIds HostTypes Dispatch RunProfile TurnTypes TurnStore.

Open Scope Z_scope.

(** ** Reports *)

Inductive LoopCompletionKind : Type := FinalReply | AskUserReply | NoReply | DelegatedResult | ResultOnly.

#[export] Instance LoopCompletionKind_eq_dec : EqDecision LoopCompletionKind.
Proof. solve_decision. Defined.

Record LoopCompleted : Type := mk_LoopCompleted {
  lx_completion_kind : LoopCompletionKind;
  lx_reply_message_refs : list LoopMessageRef;
  lx_result_refs : list LoopResultRef;
  lx_final_checkpoint_id : option TurnCheckpointId;
  lx_usage_summary_ref : option LoopUsageSummaryRef;
  lx_completed_exit_id : LoopExitId }.

Definition is_empty {A} (l : list A) : bool := match l with [] => true | _ => false end.

Definition has_durable_completion_ref (c : LoopCompleted) : bool :=
  negb (is_empty (lx_reply_message_refs c)) || negb (is_empty (lx_result_refs c)).

Inductive LoopBlockedKind : Type := LbApproval | LbAuth | LbResource | LbAwaitDependentRun.

Record LoopBlocked : Type := mk_LoopBlocked {
  lx_blocked_kind : LoopBlockedKind;
  lx_gate_ref : LoopGateRef;
  lx_credential_requirements : list RuntimeCredentialAuthRequirement;
  lx_blocked_checkpoint_id : TurnCheckpointId;
  lx_state_ref : LoopCheckpointStateRef;
  lx_blocked_exit_id : LoopExitId }.

Definition to_blocked_reason (k : LoopBlockedKind) (gate_ref : LoopGateRef)
    (credential_requirements : list RuntimeCredentialAuthRequirement) : result BlockedReason unit :=
  match turn_ref_new KGate (ref_str gate_ref) with
  | Err _ => Err tt
  | Ok gate_ref =>
      Ok match k with
         | LbApproval => BrApproval gate_ref
         | LbAuth => BrAuth gate_ref credential_requirements
         | LbResource => BrResource gate_ref
         | LbAwaitDependentRun => BrAwaitDependentRun gate_ref
         end
  end.

Inductive LoopCancelledReasonKind : Type := HostCancellation | HostInterrupt.

Record LoopCancelled : Type := mk_LoopCancelled {
  lx_cancelled_reason_kind : LoopCancelledReasonKind;
  lx_cancelled_checkpoint_id : option TurnCheckpointId;
  lx_interrupted_message_refs : list LoopMessageRef;
  lx_cancelled_exit_id : LoopExitId }.

Inductive LoopFailureKind : Type :=
| LfModelError | LfContextBuildFailed | LfCapabilityProtocolError | LfEffectOutcomeUnresolved
| LfIterationLimit | LfInvalidModelOutput | LfCheckpointRejected | LfCheckpointUnavailable
| LfTranscriptWriteFailed | LfDriverBug | LfInterruptedUnexpectedly | LfNoProgressDetected
| LfPolicyDenied | LfCompactionUnavailable.

Definition LoopFailureKind_as_str (k : LoopFailureKind) : string :=
  match k with
  | LfModelError => "model_error"
  | LfContextBuildFailed => "context_build_failed"
  | LfCapabilityProtocolError => "capability_protocol_error"
  | LfEffectOutcomeUnresolved => "effect_outcome_unresolved"
  | LfIterationLimit => "iteration_limit"
  | LfInvalidModelOutput => "invalid_model_output"
  | LfCheckpointRejected => "checkpoint_rejected"
  | LfCheckpointUnavailable => "checkpoint_unavailable"
  | LfTranscriptWriteFailed => "transcript_write_failed"
  | LfDriverBug => "driver_bug"
  | LfInterruptedUnexpectedly => "interrupted_unexpectedly"
  | LfNoProgressDetected => "no_progress_detected"
  | LfPolicyDenied => "policy_denied"
  | LfCompactionUnavailable => "compaction_unavailable"
  end.
Definition to_sanitized_failure (k : LoopFailureKind) : SanitizedFailure :=
  trusted_failure (LoopFailureKind_as_str k).

Record LoopFailed : Type := mk_LoopFailed {
  lx_failed_reason_kind : LoopFailureKind;
  lx_failed_checkpoint_id : option TurnCheckpointId;
  lx_failed_usage_summary_ref : option LoopUsageSummaryRef;
  lx_diagnostic_ref : option LoopDiagnosticRef;
  lx_failed_exit_id : LoopExitId }.

Inductive LoopExit : Type :=
| LxCompleted (exit : LoopCompleted)
| LxBlocked (exit : LoopBlocked)
| LxCancelled (exit : LoopCancelled)
| LxFailed (exit : LoopFailed).

Definition LoopExit_exit_id (exit : LoopExit) : LoopExitId :=
  match exit with
  | LxCompleted c => lx_completed_exit_id c
  | LxBlocked b => lx_blocked_exit_id b
  | LxCancelled c => lx_cancelled_exit_id c
  | LxFailed f => lx_failed_exit_id f
  end.

Definition cancelled_for_observed_interrupt (exit_id : LoopExitId) : LoopExit :=
  LxCancelled (mk_LoopCancelled HostInterrupt None [] exit_id).
Definition LoopExit_failed (reason_kind : LoopFailureKind) (exit_id : LoopExitId) : LoopExit :=
  LxFailed (mk_LoopFailed reason_kind None None None exit_id).

(** [deserialize_bounded_unique_refs], on the list that was read. *)
Definition MAX_LOOP_EXIT_REF_COUNT : Z := 64.

Fixpoint first_repeat {A} `{Countable A} (seen : gset A) (l : list A) : bool :=
  match l with
  | [] => false
  | x :: l => bool_decide (x ∈ seen) || first_repeat ({[x]} ∪ seen) l
  end.

Definition deserialize_bounded_unique_refs {k} (values : list (turn_ref k)) :
    result (list (turn_ref k)) string :=
  if MAX_LOOP_EXIT_REF_COUNT <? Z.of_nat (length values)
  then Err "loop exit ref list must contain at most 64 entries"
  else if first_repeat ∅ values
  then Err "loop exit ref list must not contain duplicates"
  else Ok values.

(** ** Policies and decisions *)

Record LoopExitValidationPolicy : Type := mk_LoopExitValidationPolicy {
  vp_require_final_checkpoint : bool;
  vp_allow_no_reply_completion : bool;
  vp_final_checkpoint_verified : bool;
  vp_host_cancellation_observed : bool;
  vp_completion_refs_verified : bool;
  vp_blocked_evidence_verified : bool;
  vp_failure_evidence_verified : bool }.

Definition policy_default : LoopExitValidationPolicy :=
  mk_LoopExitValidationPolicy false false false false false false false.
Definition with_final_checkpoint_required (p : LoopExitValidationPolicy) (required : bool) :
    LoopExitValidationPolicy :=
  mk_LoopExitValidationPolicy required (vp_allow_no_reply_completion p)
    (vp_final_checkpoint_verified p) (vp_host_cancellation_observed p)
    (vp_completion_refs_verified p) (vp_blocked_evidence_verified p)
    (vp_failure_evidence_verified p).

(** [Deserialize]: the wire form has the same fields. *)
Definition deserialize_policy (wire : LoopExitValidationPolicy) :
    result LoopExitValidationPolicy string :=
  if vp_allow_no_reply_completion wire || vp_final_checkpoint_verified wire ||
     vp_host_cancellation_observed wire || vp_completion_refs_verified wire ||
     vp_blocked_evidence_verified wire || vp_failure_evidence_verified wire
  then Err ("loop exit validation policy wire payload cannot mint host-verified evidence or " +:+
            "relaxed completion policy")
  else Ok (with_final_checkpoint_required policy_default (vp_require_final_checkpoint wire)).

Inductive LoopExitViolationKind : Type :=
| MissingCompletionReference | MismatchedCompletionReferenceKind | UnverifiedCompletionReference
| MissingFinalCheckpoint | UnverifiedBlockedEvidence | UnverifiedFailureEvidence
| CancellationNotObserved | NoReplyNotAllowed.

Definition violation_category (k : LoopExitViolationKind) : string :=
  match k with
  | MissingCompletionReference => "missing_completion_reference"
  | MismatchedCompletionReferenceKind => "mismatched_completion_reference_kind"
  | UnverifiedCompletionReference => "unverified_completion_reference"
  | MissingFinalCheckpoint => "missing_final_checkpoint"
  | UnverifiedBlockedEvidence => "unverified_blocked_evidence"
  | UnverifiedFailureEvidence => "unverified_failure_evidence"
  | CancellationNotObserved => "cancellation_not_observed"
  | NoReplyNotAllowed => "no_reply_not_allowed"
  end.
Definition failure_category (k : LoopExitViolationKind) : string :=
  match k with
  | CancellationNotObserved => "interrupted_unexpectedly"
  | _ => "driver_protocol_violation"
  end.

Record LoopExitValidationDecision : Type := mk_LoopExitValidationDecision {
  vd_exit_id : LoopExitId;
  vd_mapping : LoopExitMapping;
  vd_violation : option LoopExitViolationKind }.

Definition trusted_decision (exit_id : LoopExitId) (outcome : TurnRunnerOutcome) :
    LoopExitValidationDecision :=
  mk_LoopExitValidationDecision exit_id (RunnerOutcome outcome) None.

Definition invalid_exit_decision (exit_id : LoopExitId) (kind : LoopExitViolationKind) :
    LoopExitValidationDecision :=
  let failure := trusted_failure (failure_category kind) in
  mk_LoopExitValidationDecision exit_id (RunnerOutcome (RoFailed failure)) (Some kind).

Definition completion_kind_ref_violation (exit : LoopCompleted) (policy : LoopExitValidationPolicy) :
    option LoopExitViolationKind :=
  match lx_completion_kind exit with
  | FinalReply | AskUserReply =>
      if is_empty (lx_reply_message_refs exit) then Some MissingCompletionReference else None
  | DelegatedResult | ResultOnly =>
      if is_empty (lx_result_refs exit) then Some MissingCompletionReference
      else if negb (is_empty (lx_reply_message_refs exit))
      then Some MismatchedCompletionReferenceKind else None
  | NoReply =>
      if has_durable_completion_ref exit then Some MismatchedCompletionReferenceKind
      else if negb (vp_allow_no_reply_completion policy) then Some NoReplyNotAllowed else None
  end.

Definition checkpoint_missing (policy : LoopExitValidationPolicy) (id : option TurnCheckpointId) :
    bool :=
  vp_require_final_checkpoint policy &&
  (bool_decide (id = None) || negb (vp_final_checkpoint_verified policy)).

Definition validate_completed_exit (exit_id : LoopExitId) (exit : LoopCompleted)
    (policy : LoopExitValidationPolicy) : LoopExitValidationDecision :=
  match completion_kind_ref_violation exit policy with
  | Some kind_violation => invalid_exit_decision exit_id kind_violation
  | None =>
      if has_durable_completion_ref exit && negb (vp_completion_refs_verified policy)
      then invalid_exit_decision exit_id UnverifiedCompletionReference
      else if checkpoint_missing policy (lx_final_checkpoint_id exit)
      then invalid_exit_decision exit_id MissingFinalCheckpoint
      else trusted_decision exit_id RoCompleted
  end.

Definition validate_cancelled_exit (exit_id : LoopExitId) (exit : LoopCancelled)
    (policy : LoopExitValidationPolicy) : LoopExitValidationDecision :=
  if negb (vp_host_cancellation_observed policy)
  then invalid_exit_decision exit_id CancellationNotObserved
  else if checkpoint_missing policy (lx_cancelled_checkpoint_id exit)
  then invalid_exit_decision exit_id MissingFinalCheckpoint
  else trusted_decision exit_id RoCancelled.

Definition validate_failed_exit (exit_id : LoopExitId) (exit : LoopFailed)
    (policy : LoopExitValidationPolicy) : LoopExitValidationDecision :=
  if negb (vp_failure_evidence_verified policy)
  then invalid_exit_decision exit_id UnverifiedFailureEvidence
  else if checkpoint_missing policy (lx_failed_checkpoint_id exit)
  then invalid_exit_decision exit_id MissingFinalCheckpoint
  else trusted_decision exit_id (RoFailed (to_sanitized_failure (lx_failed_reason_kind exit))).

Definition LoopExit_validate (exit : LoopExit) (policy : LoopExitValidationPolicy) :
    LoopExitValidationDecision :=
  let exit_id := LoopExit_exit_id exit in
  match exit with
  | LxCompleted c => validate_completed_exit exit_id c policy
  | LxBlocked b =>
      if vp_blocked_evidence_verified policy
      then match to_blocked_reason (lx_blocked_kind b) (lx_gate_ref b)
                   (lx_credential_requirements b) with
           | Ok reason => trusted_decision exit_id
               (RoBlocked (lx_blocked_checkpoint_id b) (lx_state_ref b) reason)
           | Err _ => invalid_exit_decision exit_id UnverifiedBlockedEvidence
           end
      else invalid_exit_decision exit_id UnverifiedBlockedEvidence
  | LxCancelled c => validate_cancelled_exit exit_id c policy
  | LxFailed f => validate_failed_exit exit_id f policy
  end.

(** ** The applier *)

(** Every evidence request names the scope, the turn and the run. *)
Record EvidenceSubject : Type := mk_EvidenceSubject {
  ev_scope : TurnScope; ev_turn_id : TurnId; ev_run_id : TurnRunId }.

(** The questions [LoopExitEvidencePort] is asked, and the calls of the applier. *)
Inductive evidence_request : Type :=
| VerifyCompletionRefs (subject : EvidenceSubject) (reply_message_refs : list LoopMessageRef)
    (result_refs : list LoopResultRef)
| VerifyFinalCheckpoint (subject : EvidenceSubject) (checkpoint_id : TurnCheckpointId)
| VerifyBlockedEvidence (subject : EvidenceSubject) (blocked : LoopBlocked)
| VerifyFailureEvidence (subject : EvidenceSubject) (failed : LoopFailed)
| IsCancellationObserved (subject : EvidenceSubject).

Inductive exitE : Type -> Type :=
| AskEvidence (q : evidence_request) : exitE (result bool TurnError)
| ApplyValidatedLoopExit (lease : LeaseRef) (mapping : LoopExitMapping) :
    exitE (result TurnRunState TurnError).

Definition verify_terminal_final_checkpoint (subject : EvidenceSubject)
    (profile : ResolvedRunProfile) (checkpoint_id : option TurnCheckpointId) :
    prog exitE (result bool TurnError) :=
  if negb (require_final_checkpoint (rp_checkpoint_policy profile)) then Ret (Ok true)
  else match checkpoint_id with
       | None => Ret (Ok false)
       | Some id => trigger (AskEvidence (VerifyFinalCheckpoint subject id))
       end.

Definition evidence_subject (claimed : ClaimedTurnRun) : EvidenceSubject :=
  mk_EvidenceSubject (st_scope (cl_state claimed)) (st_turn_id (cl_state claimed))
    (st_run_id (cl_state claimed)).

Definition derive_policy (claimed : ClaimedTurnRun) (exit : LoopExit) :
    prog exitE (result LoopExitValidationPolicy TurnError) :=
  let subject := evidence_subject claimed in
  let profile := cl_resolved_run_profile claimed in
  let policy := mk_LoopExitValidationPolicy
                  (require_final_checkpoint (rp_checkpoint_policy profile))
                  (allow_no_reply_completion (rp_checkpoint_policy profile)) in
  match exit with
  | LxCompleted c =>
      let!? refs := trigger (AskEvidence (VerifyCompletionRefs subject (lx_reply_message_refs c)
                               (lx_result_refs c))) in
      let!? final := verify_terminal_final_checkpoint subject profile (lx_final_checkpoint_id c) in
      Ret (Ok (policy final false refs false false))
  | LxBlocked b =>
      let!? blocked := trigger (AskEvidence (VerifyBlockedEvidence subject b)) in
      Ret (Ok (policy false false false blocked false))
  | LxCancelled c =>
      let!? observed := trigger (AskEvidence (IsCancellationObserved subject)) in
      let!? final := verify_terminal_final_checkpoint subject profile
                       (lx_cancelled_checkpoint_id c) in
      Ret (Ok (policy final observed false false false))
  | LxFailed f =>
      let!? failure := trigger (AskEvidence (VerifyFailureEvidence subject f)) in
      let!? final := verify_terminal_final_checkpoint subject profile
                       (lx_failed_checkpoint_id f) in
      Ret (Ok (policy final false false false failure))
  end.

Definition claimed_lease (claimed : ClaimedTurnRun) : LeaseRef :=
  mk_LeaseRef (st_run_id (cl_state claimed)) (cl_runner_id claimed) (cl_lease_token claimed).

Definition LoopExitApplier_apply (claimed : ClaimedTurnRun) (exit : LoopExit) :
    prog exitE (result TurnRunState TurnError) :=
  let!? policy := derive_policy claimed exit in
  let decision := LoopExit_validate exit policy in
  trigger (ApplyValidatedLoopExit (claimed_lease claimed) (vd_mapping decision)).

(** ** When a report must be believed *)

Definition answers (t : list (event exitE)) : list (evidence_request * result bool TurnError) :=
  omap (fun ev => match ev with
                  | Ev e x => match e in exitE X return X -> _ with
                              | AskEvidence q => fun x => Some (q, x)
                              | ApplyValidatedLoopExit _ _ => fun _ => None
                              end x
                  end) t.
Definition transitions (t : list (event exitE)) : list (LeaseRef * LoopExitMapping) :=
  omap (fun ev => match ev with
                  | Ev e _ => match e with
                              | AskEvidence _ => None
                              | ApplyValidatedLoopExit lease mapping => Some (lease, mapping)
                              end
                  end) t.

Section Accepted.
Variable claimed : ClaimedTurnRun.
Variable t : list (event exitE).

Definition confirmed (q : EvidenceSubject -> evidence_request) : Prop :=
  (q (evidence_subject claimed), Ok true) ∈ answers t.

Definition checkpointed (id : option TurnCheckpointId) : Prop :=
  require_final_checkpoint (rp_checkpoint_policy (cl_resolved_run_profile claimed)) = true ->
  exists c, id = Some c /\ confirmed (fun su => VerifyFinalCheckpoint su c).

(** The references fit the kind of completion. *)
Definition completion_shape (c : LoopCompleted) : Prop :=
  match lx_completion_kind c with
  | FinalReply | AskUserReply => lx_reply_message_refs c <> []
  | DelegatedResult | ResultOnly => lx_result_refs c <> [] /\ lx_reply_message_refs c = []
  | NoReply =>
      lx_result_refs c = [] /\ lx_reply_message_refs c = [] /\
      allow_no_reply_completion (rp_checkpoint_policy (cl_resolved_run_profile claimed)) = true
  end.

Definition accepted (exit : LoopExit) : Prop :=
  match exit with
  | LxCompleted c =>
      completion_shape c /\
      (lx_completion_kind c = NoReply \/
       confirmed (fun su => VerifyCompletionRefs su (lx_reply_message_refs c) (lx_result_refs c))) /\
      checkpointed (lx_final_checkpoint_id c)
  | LxBlocked b =>
      confirmed (fun su => VerifyBlockedEvidence su b) /\
      validate_ref "gate_ref" (ref_str (lx_gate_ref b)) = Ok tt
  | LxCancelled c => confirmed IsCancellationObserved /\ checkpointed (lx_cancelled_checkpoint_id c)
  | LxFailed f =>
      confirmed (fun su => VerifyFailureEvidence su f) /\ checkpointed (lx_failed_checkpoint_id f)
  end.

(** How a report that is not believed is recorded. *)
Definition refusal (exit : LoopExit) (category : string) : Prop :=
  match exit with
  | LxCancelled _ =>
      (confirmed IsCancellationObserved /\ category = "driver_protocol_violation") \/
      (~ confirmed IsCancellationObserved /\ category = "interrupted_unexpectedly")
  | _ => category = "driver_protocol_violation"
  end.

End Accepted.

Definition reported (exit : LoopExit) : TurnRunnerOutcome :=
  match exit with
  | LxCompleted _ => RoCompleted
  | LxBlocked b =>
      let gate := trusted_ref (ref_str (lx_gate_ref b)) in
      RoBlocked (lx_blocked_checkpoint_id b) (lx_state_ref b)
        match lx_blocked_kind b with
        | LbApproval => BrApproval gate
        | LbAuth => BrAuth gate (lx_credential_requirements b)
        | LbResource => BrResource gate
        | LbAwaitDependentRun => BrAwaitDependentRun gate
        end
  | LxCancelled _ => RoCancelled
  | LxFailed f => RoFailed (trusted_failure (LoopFailureKind_as_str (lx_failed_reason_kind f)))
  end.

(** The verdict the applier must reach on the evidence [t]. *)
Definition verdict (claimed : ClaimedTurnRun) (t : list (event exitE)) (exit : LoopExit)
    (mapping : LoopExitMapping) : Prop :=
  (accepted claimed t exit /\ mapping = RunnerOutcome (reported exit)) \/
  (~ accepted claimed t exit /\ exists category,
     refusal claimed t exit category /\ mapping = RunnerOutcome (RoFailed (trusted_failure category))).

(** ** The judgement *)

Lemma is_empty_spec {A} (l : list A) : is_empty l = bool_decide (l = []).
Proof. by destruct l. Qed.

Lemma shape_spec claimed c final observed refs blocked failure :
  let policy := rp_checkpoint_policy (cl_resolved_run_profile claimed) in
  completion_kind_ref_violation c
    (mk_LoopExitValidationPolicy (require_final_checkpoint policy)
       (allow_no_reply_completion policy) final observed refs blocked failure) = None <->
  completion_shape claimed c.
Proof.
  intros policy. unfold completion_kind_ref_violation, completion_shape, has_durable_completion_ref.
  destruct (lx_completion_kind c), (lx_reply_message_refs c), (lx_result_refs c); simpl;
    try (fold policy; destruct (allow_no_reply_completion policy)); simpl;
    split; intros H; destruct_and?; try done; split_and?; done.
Qed.

Lemma durable_spec claimed c :
  completion_shape claimed c ->
  has_durable_completion_ref c = negb (bool_decide (lx_completion_kind c = NoReply)).
Proof.
  unfold completion_shape, has_durable_completion_ref.
  destruct (lx_completion_kind c), (lx_reply_message_refs c), (lx_result_refs c); simpl;
    intros H; destruct_and?; done.
Qed.

(** The final checkpoint was asked for after [t0], and answered in [t1]. *)
Lemma final_checkpoint_traces claimed id t0 t1 r rest :
  (forall c, (VerifyFinalCheckpoint (evidence_subject claimed) c, Ok true) ∉ answers t0) ->
  traces (verify_terminal_final_checkpoint (evidence_subject claimed)
            (cl_resolved_run_profile claimed) id) t1 r ->
  transitions t1 = [] /\
  forall final, r = Ok final ->
    let policy := rp_checkpoint_policy (cl_resolved_run_profile claimed) in
    (checkpoint_missing (mk_LoopExitValidationPolicy (require_final_checkpoint policy)
       (allow_no_reply_completion policy) final rest.1.1.1 rest.1.1.2 rest.1.2 rest.2) id = false <->
     checkpointed claimed (t0 ++ t1) id) /\
    forall q, (q, Ok true) ∈ answers t1 -> exists c, q = VerifyFinalCheckpoint (evidence_subject claimed) c.
Proof.
  intros H0. unfold verify_terminal_final_checkpoint, checkpoint_missing, checkpointed, confirmed.
  destruct (require_final_checkpoint _); simpl.
  - destruct id as [c|]; simpl.
    + intros (x & t' & -> & -> & ->). split; [done|]. intros final ->. simpl. split.
      * unfold answers. rewrite omap_app. fold (answers t0). simpl. split.
        -- destruct final; [|done]. intros _ _. exists c. split; [done|]. set_solver.
        -- intros H. destruct (H eq_refl) as (c' & [= <-] & Hin).
           apply elem_of_app in Hin as [Hin|Hin]; [by destruct (H0 c)|].
           apply list_elem_of_singleton in Hin. by injection Hin as <-.
      * intros q [= -> <-]%list_elem_of_singleton. eauto.
    + intros [-> ->]. split; [done|]. intros final [= <-]. split; [naive_solver|].
      intros q Hq. by apply elem_of_nil in Hq.
  - intros [-> ->]. split; [done|]. intros final [= <-]. split; [done|].
    intros q Hq. by apply elem_of_nil in Hq.
Qed.

Lemma answers_app t1 t2 : answers (t1 ++ t2) = answers t1 ++ answers t2.
Proof. apply omap_app. Qed.
Lemma transitions_app t1 t2 : transitions (t1 ++ t2) = transitions t1 ++ transitions t2.
Proof. apply omap_app. Qed.

(** The first question of a report, asked alone and then with the checkpoint's. *)
Lemma first_answer claimed (q : EvidenceSubject -> evidence_request) b t1 :
  (forall c, q (evidence_subject claimed) <> VerifyFinalCheckpoint (evidence_subject claimed) c) ->
  (forall q', (q', Ok true) ∈ answers t1 ->
     exists c, q' = VerifyFinalCheckpoint (evidence_subject claimed) c) ->
  confirmed claimed ([Ev (AskEvidence (q (evidence_subject claimed))) (Ok b)] ++ t1) q <-> b = true.
Proof.
  intros Hq H1. unfold confirmed. rewrite answers_app. simpl. split.
  - intros [[= <-]|Hin]%elem_of_cons; [done|]. apply H1 in Hin as [c Hc]. by destruct (Hq c).
  - intros ->. set_solver.
Qed.

Lemma first_answer_alone claimed (q : EvidenceSubject -> evidence_request) b c :
  q (evidence_subject claimed) <> VerifyFinalCheckpoint (evidence_subject claimed) c ->
  (VerifyFinalCheckpoint (evidence_subject claimed) c, Ok true) ∉
    answers [Ev (AskEvidence (q (evidence_subject claimed))) (Ok b)].
Proof. intros Hq [= ? _]%list_elem_of_singleton. congruence. Qed.

Lemma refused_by claimed t exit exit_id kind :
  ~ accepted claimed t exit -> refusal claimed t exit (failure_category kind) ->
  verdict claimed t exit (vd_mapping (invalid_exit_decision exit_id kind)).
Proof. intros Ha Hr. right. split; [done|]. by exists (failure_category kind). Qed.

Lemma trusted_by claimed t exit exit_id :
  accepted claimed t exit ->
  verdict claimed t exit (vd_mapping (trusted_decision exit_id (reported exit))).
Proof. intros Ha. by left. Qed.

Section Verdicts.
Variable claimed : ClaimedTurnRun.
Let policy := rp_checkpoint_policy (cl_resolved_run_profile claimed).
Let host := mk_LoopExitValidationPolicy (require_final_checkpoint policy)
              (allow_no_reply_completion policy).

Lemma completed_verdict c t final refs :
  (confirmed claimed t (fun su => VerifyCompletionRefs su (lx_reply_message_refs c) (lx_result_refs c))
     <-> refs = true) ->
  (checkpoint_missing (host final false refs false false) (lx_final_checkpoint_id c) = false <->
   checkpointed claimed t (lx_final_checkpoint_id c)) ->
  verdict claimed t (LxCompleted c)
    (vd_mapping (validate_completed_exit (lx_completed_exit_id c) c (host final false refs false false))).
Proof.
  intros Hrefs Hfinal. unfold validate_completed_exit.
  destruct (completion_kind_ref_violation c _) as [k|] eqn:Ek.
  { apply refused_by.
    - intros (Hs & _). by apply (shape_spec claimed c final false refs false false) in Hs; fold policy host in Hs; rewrite Ek in Hs.
    - unfold completion_kind_ref_violation in Ek. by destruct k; repeat case_match. }
  apply shape_spec in Ek. rewrite (durable_spec _ _ Ek).
  destruct (decide (lx_completion_kind c = NoReply)) as [Hn|Hn]; cbn [negb andb].
  - rewrite bool_decide_true by done. cbn [negb andb].
    destruct (checkpoint_missing _ _) eqn:Ec.
    + apply refused_by; [|done]. intros (_ & _ & Hc). by apply Hfinal in Hc.
    + apply (trusted_by claimed t (LxCompleted c)). split_and!; [done|by left|by apply Hfinal].
  - rewrite bool_decide_false by done. cbn [negb andb vp_completion_refs_verified host].
    destruct refs; cbn [negb].
    + destruct (checkpoint_missing _ _) eqn:Ec.
      * apply refused_by; [|done]. intros (_ & _ & Hc). by apply Hfinal in Hc.
      * apply (trusted_by claimed t (LxCompleted c)). split_and!; [done| |by apply Hfinal].
        right. by apply Hrefs.
    + apply refused_by; [|done]. intros (_ & [?|Hc] & _); [done|]. by apply Hrefs in Hc.
Qed.

Lemma cancelled_verdict c t final observed :
  (confirmed claimed t IsCancellationObserved <-> observed = true) ->
  (checkpoint_missing (host final observed false false false) (lx_cancelled_checkpoint_id c) = false <->
   checkpointed claimed t (lx_cancelled_checkpoint_id c)) ->
  verdict claimed t (LxCancelled c)
    (vd_mapping (validate_cancelled_exit (lx_cancelled_exit_id c) c
                   (host final observed false false false))).
Proof.
  intros Hobs Hfinal. unfold validate_cancelled_exit. cbn [vp_host_cancellation_observed host].
  destruct observed; cbn [negb].
  - destruct (checkpoint_missing _ _) eqn:Ec.
    + apply refused_by; [intros [_ Hc]; by apply Hfinal in Hc|]. left. by split; [apply Hobs|].
    + apply (trusted_by claimed t (LxCancelled c)). by split; [apply Hobs|apply Hfinal].
  - apply refused_by; [intros [Hc _]; by apply Hobs in Hc|]. right. split; [|done].
    intros Hc. by apply Hobs in Hc.
Qed.

Lemma failed_verdict f t final failure :
  (confirmed claimed t (fun su => VerifyFailureEvidence su f) <-> failure = true) ->
  (checkpoint_missing (host final false false false failure) (lx_failed_checkpoint_id f) = false <->
   checkpointed claimed t (lx_failed_checkpoint_id f)) ->
  verdict claimed t (LxFailed f)
    (vd_mapping (validate_failed_exit (lx_failed_exit_id f) f (host final false false false failure))).
Proof.
  intros Hev Hfinal. unfold validate_failed_exit. cbn [vp_failure_evidence_verified host].
  destruct failure; cbn [negb].
  - destruct (checkpoint_missing _ _) eqn:Ec.
    + apply refused_by; [|done]. intros [_ Hc]. by apply Hfinal in Hc.
    + apply (trusted_by claimed t (LxFailed f)). by split; [apply Hev|apply Hfinal].
  - apply refused_by; [|done]. intros [Hc _]. by apply Hev in Hc.
Qed.

Lemma blocked_verdict b t blocked :
  (confirmed claimed t (fun su => VerifyBlockedEvidence su b) <-> blocked = true) ->
  verdict claimed t (LxBlocked b)
    (vd_mapping (LoopExit_validate (LxBlocked b) (host false false false blocked false))).
Proof.
  intros Hev. cbn [LoopExit_validate vp_blocked_evidence_verified host].
  destruct blocked; [|apply refused_by; [|done]; intros [Hc _]; by apply Hev in Hc].
  unfold to_blocked_reason, turn_ref_new. cbn [loop_ref_prefix turn_ref_kind_name].
  destruct (validate_ref "gate_ref" _) as [[]|] eqn:Eg.
  - apply (trusted_by claimed t (LxBlocked b)). by split; [apply Hev|].
  - apply refused_by; [|done]. intros [_ Hg]. by rewrite Eg in Hg.
Qed.

End Verdicts.

(** ** The evidence is gathered, then judged *)

(** A question that is not about the checkpoint, then perhaps the checkpoint's. *)
Lemma two_questions claimed (q : EvidenceSubject -> evidence_request) id
    (k : bool -> bool -> LoopExitValidationPolicy) t r :
  (forall c, q (evidence_subject claimed) <> VerifyFinalCheckpoint (evidence_subject claimed) c) ->
  traces (let!? b := trigger (AskEvidence (q (evidence_subject claimed))) in
          let!? final := verify_terminal_final_checkpoint (evidence_subject claimed)
                           (cl_resolved_run_profile claimed) id in
          Ret (Ok (k b final))) t r ->
  transitions t = [] /\
  match r with
  | Err e => exists t0 q', t = t0 ++ [Ev (AskEvidence q') (Err e)]
  | Ok policy => exists b final, policy = k b final /\ (confirmed claimed t q <-> b = true) /\
      forall rest, let p := rp_checkpoint_policy (cl_resolved_run_profile claimed) in
        checkpoint_missing (mk_LoopExitValidationPolicy (require_final_checkpoint p)
          (allow_no_reply_completion p) final rest.1.1.1 rest.1.1.2 rest.1.2 rest.2) id = false <->
        checkpointed claimed t id
  end.
Proof.
  intros Hq. simpl. intros (x & t' & -> & Ht). destruct x as [b|e].
  - apply traces_bind in Ht as (t1 & t2 & final & -> & Hf & Ht).
    change (Ev (AskEvidence (q (evidence_subject claimed))) (Ok b) :: t1 ++ t2)
      with ([Ev (AskEvidence (q (evidence_subject claimed))) (Ok b)] ++ (t1 ++ t2)).
    pose proof (fun rest => final_checkpoint_traces claimed id _ t1 final rest
                  (fun c => first_answer_alone claimed q b c (Hq c)) Hf) as H.
    destruct (H (false, false, false, false)) as [Htr _].
    destruct final as [final|e]; simpl in Ht; destruct Ht as [-> ->]; rewrite app_nil_r.
    + rewrite transitions_app, Htr. split; [done|]. exists b, final. split; [done|]. split.
      * apply first_answer; [done|].
        destruct (H (false, false, false, false)) as [_ H2]. by apply (H2 final).
      * intros rest. destruct (H rest) as [_ H2]. by apply (H2 final).
    + rewrite transitions_app, Htr. split; [done|]. revert Hf. unfold verify_terminal_final_checkpoint.
      repeat case_match; simpl; intros Hf; destruct_and?; try done.
      destruct Hf as (y & t3 & -> & -> & <-). by eexists [_], _.
  - simpl in Ht. destruct Ht as [-> ->]. split; [done|]. by exists [], (q (evidence_subject claimed)).
Qed.

Lemma derive_policy_traces claimed exit t r :
  traces (derive_policy claimed exit) t r ->
  transitions t = [] /\
  match r with
  | Err e => exists t0 q, t = t0 ++ [Ev (AskEvidence q) (Err e)]
  | Ok policy => verdict claimed t exit (vd_mapping (LoopExit_validate exit policy))
  end.
Proof.
  destruct exit as [c|b|c|f]; unfold derive_policy.
  - intros [Ht H]%(two_questions claimed (fun su => VerifyCompletionRefs su _ _) _
                     (fun refs final => _)); [|done].
    split; [done|]. destruct r as [policy|]; [|done]. destruct H as (refs & final & -> & Hr & Hf).
    apply completed_verdict; [done|]. apply (Hf (false, refs, false, false)).
  - simpl. intros (x & t' & -> & Ht). destruct x as [v|e]; simpl in Ht; destruct Ht as [-> ->].
    + split; [done|]. apply blocked_verdict.
      apply (first_answer claimed (fun su => VerifyBlockedEvidence su b) v []); [done|].
      intros q' Hq. by apply elem_of_nil in Hq.
    + split; [done|]. by eexists [], _.
  - intros [Ht H]%(two_questions claimed IsCancellationObserved _ (fun observed final => _)); [|done].
    split; [done|]. destruct r as [policy|]; [|done]. destruct H as (obs & final & -> & Hr & Hf).
    apply cancelled_verdict; [done|]. apply (Hf (obs, false, false, false)).
  - intros [Ht H]%(two_questions claimed (fun su => VerifyFailureEvidence su f) _
                     (fun failure final => _)); [|done].
    split; [done|]. destruct r as [policy|]; [|done]. destruct H as (fl & final & -> & Hr & Hf).
    apply failed_verdict; [done|]. apply (Hf (false, false, false, fl)).
Qed.

(** ** Over the turn store *)

(** Every transition of [t] is answered by the store, which takes [s] to [s']. *)
Fixpoint answered_by (now : TurnTimestamp) (s : Inner) (t : list (event exitE)) (s' : Inner) : Prop :=
  match t with
  | [] => s' = s
  | Ev e x :: t =>
      match e in exitE X return X -> Prop with
      | AskEvidence _ => fun _ => answered_by now s t s'
      | ApplyValidatedLoopExit lease mapping => fun x =>
          exists s1, apply_validated_loop_exit lease mapping now s = (s1, x) /\
                     answered_by now s1 t s'
      end x
  end.

Lemma answered_by_questions now s t1 t2 s' :
  transitions t1 = [] -> answered_by now s (t1 ++ t2) s' -> answered_by now s t2 s'.
Proof.
  induction t1 as [|[X [q|lease mapping] x] t1 IH]; [done| |done].
  intros Ht H. by apply IH.
Qed.

Lemma finish_record_state status failure kind reason now r s :
  let '(r', _) := finish_record status failure kind reason now r s in
  st_status (record_state r') = status /\ st_failure (record_state r') = failure.
Proof. done. Qed.

Lemma block_record_state checkpoint_id state_ref reason now r s :
  let '(r', _) := block_record checkpoint_id state_ref reason now r s in
  st_status (record_state r') = BlockedReason_status reason.
Proof. done. Qed.

(** What the store may have done with the run [rec] when it answered [state]. *)
Definition settled (rec : RunRecord) (mapping : LoopExitMapping) (state : TurnRunState) : Prop :=
  match st_status state with
  | Completed => r_status rec = Running /\ mapping = RunnerOutcome RoCompleted
  | Cancelled =>
      r_status rec = CancelRequested /\ has_native rec = false /\
      (mapping = RunnerOutcome RoCancelled \/ exists f, mapping = MapRecoveryRequired f)
  | Failed => exists failure, st_failure state = Some failure /\
      (mapping = RunnerOutcome (RoFailed failure) \/ mapping = MapRecoveryRequired failure \/
       (mapping = RunnerOutcome RoCancelled /\ sf_category failure = "interrupted_unexpectedly" /\
        (r_status rec <> CancelRequested \/ has_native rec = true)))
  | status => r_status rec = Running /\ exists checkpoint_id state_ref reason,
      mapping = RunnerOutcome (RoBlocked checkpoint_id state_ref reason) /\
      status = BlockedReason_status reason
  end.

Lemma commit_ok tr s' state :
  commit_transition tr = (s', Ok state) -> exists s1 r prune, tr = (s1, Applied r state prune).
Proof. destruct tr as [s1 [r state' prune|r e]]; [|done]. intros H. exists s1, r, prune. by simplify_eq/=. Qed.

(** Case analysis on the transition of a claimed record that ends in [Applied]. *)
Ltac applied :=
  repeat match goal with
  | |- (_, Rejected _ _) = (_, Applied _ _ _) -> _ => discriminate
  | |- context [finish_record ?st ?f ?k ?re ?now ?r ?s] =>
      let H := fresh "Hst" in
      pose proof (finish_record_state st f k re now r s) as H;
      destruct (finish_record st f k re now r s) as [? ?]; destruct H as [Hstatus Hfailure]
  | |- context [block_record ?c ?sr ?re ?now ?r ?s] =>
      pose proof (block_record_state c sr re now r s) as Hstatus;
      destruct (block_record c sr re now r s) as [? ?]
  | |- context [if bool_decide ?P then _ else _] => case_bool_decide; cbn [negb andb orb]
  | |- context [if negb (bool_decide ?P) then _ else _] => case_bool_decide; cbn [negb andb orb]
  | |- context [if ?b then _ else _] => destruct b eqn:?
  end.

Lemma complete_settles now rec s s1 r state prune :
  complete_claimed_record now rec s = (s1, Applied r state prune) ->
  settled rec (RunnerOutcome RoCompleted) state.
Proof.
  unfold complete_claimed_record. applied. intros [= _ _ <- _]. unfold settled.
  by rewrite Hstatus.
Qed.

Lemma block_settles ck sr reason now rec s s1 r state prune :
  block_claimed_record ck sr reason now rec s = (s1, Applied r state prune) ->
  settled rec (RunnerOutcome (RoBlocked ck sr reason)) state.
Proof.
  unfold block_claimed_record. applied. intros [= _ _ <- _]. unfold settled. rewrite Hstatus.
  destruct reason; (split; [done|]); by eexists _, _, _.
Qed.

Lemma fail_settles mapping failure now rec s s1 r state prune :
  mapping = RunnerOutcome (RoFailed failure) \/ mapping = MapRecoveryRequired failure \/
    (mapping = RunnerOutcome RoCancelled /\ sf_category failure = "interrupted_unexpectedly" /\
     (r_status rec <> CancelRequested \/ has_native rec = true)) ->
  fail_claimed_record failure now rec s = (s1, Applied r state prune) -> settled rec mapping state.
Proof.
  intros Hm. unfold fail_claimed_record. cbv zeta. applied. intros [= _ _ <- _]. unfold settled.
  rewrite Hstatus. by exists failure.
Qed.

Lemma cancel_or_fail_settles mapping failure now rec s s1 r state prune :
  mapping = MapRecoveryRequired failure \/
    (mapping = RunnerOutcome RoCancelled /\ sf_category failure = "interrupted_unexpectedly") ->
  cancel_or_fail_claimed_record failure now rec s = (s1, Applied r state prune) ->
  settled rec mapping state.
Proof.
  intros Hm. unfold cancel_or_fail_claimed_record. destruct (r_status rec) eqn:Hr; try done.
  - apply fail_settles. right. destruct Hm as [?|[? ?]]; [by left|right]. by rewrite Hr; auto.
  - destruct (native_waiting rec); [|done]. apply fail_settles. right.
    destruct Hm as [?|[? ?]]; [by left|right]. by rewrite Hr; auto.
  - destruct (has_native rec) eqn:Hn.
    + apply fail_settles. right. destruct Hm as [?|[? ?]]; [by left|right]. by auto.
    + unfold cancel_claimed_record. applied. intros [= _ _ <- _]. unfold settled. rewrite Hstatus.
      split_and!; [done..|]. destruct Hm as [->|[-> _]]; eauto.
Qed.

Lemma apply_settles lease mapping now s s' state :
  apply_validated_loop_exit lease mapping now s = (s', Ok state) ->
  exists rec, in_records s !! lr_run_id lease = Some rec /\
    ensure_active_lease rec (lr_runner_id lease) (lr_lease_token lease) now = Ok tt /\
    settled rec mapping state.
Proof.
  unfold apply_validated_loop_exit, take_record.
  destruct (in_records s !! lr_run_id lease) as [rec|]; [cbn [mbind option_bind]|done].
  intros (s1 & r & prune & H)%commit_ok. exists rec. split; [done|]. revert H.
  destruct (ensure_active_lease rec _ _ now) as [[]|e] eqn:El; [|done]. intros H. split; [done|].
  destruct mapping as [[| |ck sr reason|failure]|failure].
  - by eapply complete_settles.
  - eapply cancel_or_fail_settles; [|exact H]. by right.
  - by eapply block_settles.
  - eapply fail_settles; [|exact H]. by left.
  - eapply cancel_or_fail_settles; [|exact H]. by left.
Qed.

(** What the run became, in terms of the report and the evidence [t]. *)
Definition believed (claimed : ClaimedTurnRun) (t : list (event exitE)) (exit : LoopExit)
    (rec : RunRecord) (state : TurnRunState) : Prop :=
  match st_status state with
  | Completed =>
      r_status rec = Running /\ accepted claimed t exit /\ reported exit = RoCompleted
  | Cancelled =>
      r_status rec = CancelRequested /\ accepted claimed t exit /\ reported exit = RoCancelled
  | Failed => exists failure, st_failure state = Some failure /\
      ((accepted claimed t exit /\ reported exit = RoFailed failure) \/
       (~ accepted claimed t exit /\ refusal claimed t exit (sf_category failure)) \/
       (accepted claimed t exit /\ reported exit = RoCancelled /\
        sf_category failure = "interrupted_unexpectedly" /\
        (r_status rec <> CancelRequested \/ has_native rec = true)))
  | status =>
      r_status rec = Running /\ accepted claimed t exit /\
      exists checkpoint_id state_ref reason,
        reported exit = RoBlocked checkpoint_id state_ref reason /\
        status = BlockedReason_status reason
  end.

Lemma settled_believed claimed t exit rec mapping state :
  verdict claimed t exit mapping -> settled rec mapping state -> believed claimed t exit rec state.
Proof.
  intros [[Ha ->]|(Hn & category & Hr & ->)]; unfold settled, believed.
  - destruct (st_status state); try (intros (Hs & ck & sr & reason & [= Hrep] & Hst); split_and!; [done..|];
      by exists ck, sr, reason).
    + intros (Hs & _ & [[= Hrep]|[f ?]]); done.
    + intros [Hs [= Hrep]]. done.
    + intros (failure & Hf & [[= Hrep]|[?|([= Hrep] & Hc & Hs)]]); [|done|].
      * exists failure. split; [done|]. by left.
      * exists failure. split; [done|]. by right; right.
  - destruct (st_status state); try (intros (Hs & ck & sr & reason & ? & Hst); done).
    + by intros (Hs & _ & [?|[f ?]]).
    + by intros [Hs ?].
    + intros (failure & Hf & [[= <-]|[?|(? & _)]]); [|done|done].
      eexists. split; [done|]. right; left. by split.
Qed.

Lemma traces_trigger {X} (e : exitE X) t r : traces (trigger e) t r -> t = [Ev e r].
Proof. by intros (x & t' & -> & -> & ->). Qed.

(** C13: [LoopExitApplier::apply] asks for at most one transition, as its last call and
    under the claimed run's own lease; whatever the driver reported, the outcome it asks
    for is the reported one exactly when the host's evidence supports the report
    (references of the right kind that were confirmed, an allowed silent completion, an
    observed cancellation, confirmed blocking or failure, a confirmed final checkpoint
    when the profile requires one) and a failure of the right category otherwise.  When
    the evidence port fails, that error is returned and nothing is asked.  Over the turn
    store a success means that the run was held by that lease and became completed,
    blocked or cancelled only because the report said so and was supported. *)
Theorem loop_exit_follows_evidence claimed exit now s t r s' :
  traces (LoopExitApplier_apply claimed exit) t r -> answered_by now s t s' ->
  (exists t0 q e, t = t0 ++ [Ev (AskEvidence q) (Err e)] /\ transitions t0 = [] /\
     r = Err e /\ s' = s) \/
  (exists t0 mapping,
     t = t0 ++ [Ev (ApplyValidatedLoopExit (claimed_lease claimed) mapping) r] /\
     transitions t0 = [] /\ verdict claimed t0 exit mapping /\
     forall state, r = Ok state ->
       exists rec, in_records s !! st_run_id (cl_state claimed) = Some rec /\
         ensure_active_lease rec (cl_runner_id claimed) (cl_lease_token claimed) now = Ok tt /\
         believed claimed t0 exit rec state).
Proof.
  unfold LoopExitApplier_apply.
  intros (t1 & t2 & policy & -> & [Htr Hp]%derive_policy_traces & Ht)%traces_bind Hs.
  apply answered_by_questions in Hs; [|done]. destruct policy as [policy|e].
  - right. exists t1, (vd_mapping (LoopExit_validate exit policy)).
    apply traces_trigger in Ht as ->. split_and!; [done..|]. intros state ->.
    destruct Hs as (s1 & Ha & ->). apply apply_settles in Ha as (rec & Hrec & Hl & Hset).
    exists rec. split_and!; [done..|]. by eapply settled_believed.
  - left. simpl in Ht. destruct Ht as [-> ->]. destruct Hp as (t0 & q & ->). exists t0, q, e.
    rewrite app_nil_r. rewrite transitions_app in Htr. by apply app_eq_nil in Htr as [? _].
Qed.

(** ** What the wire can bring *)

Lemma first_repeat_spec {A} `{Countable A} (seen : gset A) l :
  first_repeat seen l = false <-> NoDup l /\ forall x, x ∈ l -> x ∉ seen.
Proof.
  revert seen. induction l as [|x l IH]; intros seen; simpl.
  - split; [|done]. intros _. split; [constructor|]. intros x Hx. by apply elem_of_nil in Hx.
  - rewrite orb_false_iff, bool_decide_eq_false, IH, NoDup_cons. set_solver.
Qed.

(** A reference list that is read has at most 64 entries, none twice. *)
Lemma deserialized_refs_unique {k} (values l : list (turn_ref k)) :
  deserialize_bounded_unique_refs values = Ok l <->
  l = values /\ NoDup values /\ Z.of_nat (length values) <= 64.
Proof.
  unfold deserialize_bounded_unique_refs, MAX_LOOP_EXIT_REF_COUNT.
  destruct (Z.ltb_spec 64 (Z.of_nat (length values))); [split; [done|lia]|].
  destruct (first_repeat ∅ values) eqn:E.
  - split; [done|]. intros (_ & Hd & _). assert (first_repeat ∅ values = false) as E'.
    { apply first_repeat_spec. set_solver. }
    congruence.
  - apply first_repeat_spec in E as [Hd _]. naive_solver.
Qed.

(** No policy that is read from the wire lets any report through. *)
Lemma wire_policy_refuses wire policy exit :
  deserialize_policy wire = Ok policy -> vd_violation (LoopExit_validate exit policy) <> None.
Proof.
  unfold deserialize_policy. destruct (_ || _); [done|]. intros [= <-].
  destruct exit as [c|b|c|f]; try done. cbn [LoopExit_validate]. unfold validate_completed_exit.
  destruct (completion_kind_ref_violation _ _) as [kind|] eqn:Ek; [done|].
  assert (has_durable_completion_ref c = true) as ->; [|done].
  revert Ek. unfold completion_kind_ref_violation, has_durable_completion_ref.
  by destruct (lx_completion_kind c), (lx_reply_message_refs c), (lx_result_refs c).
Qed.
