(* ===== verification/TurnFilesystem.v ===== *)
(** * Turns: the filesystem store

    [crates/brassclaw_turns/src/filesystem_store.rs]: the whole turn state as one
    snapshot under [/turns/state.json].  A mutation reads the snapshot, rebuilds the
    in-memory store, runs the operation on it and writes the new snapshot back on the
    condition that nobody else wrote in between, a bounded number of times.

    A method is a program whose calls are the reads and writes of the entry and the run
    of the operation on the private store; the filesystem is any store that satisfies
    [EntryStoreLaws].  The lock that orders the callers of one process is not modelled:
    every interleaving of the callers is.  The theorems: whatever calls are interleaved,
    the entry is always the snapshot of a reachable store, every write is one operation
    on the store the entry held at that moment, and the caller gets the outcome of that
    operation, or an error after no write or one of unknown outcome. *)

From S2P Require Import Prelude Effects External HostIds Paths HostTypes Filesystem Leases LeaseStore.
From S2P Require Import ScopedFile.
From S2P Require Import Dispatch RunProfile TurnTypes TurnStore TurnSnapshot TurnExec.
From S2P Require Import TurnInvariants TurnPrune TurnSteps TurnOps TurnRestore TurnAdmission.
From S2P Require Import TurnSafety TurnIdempotency TurnReplay.
Open Scope Z_scope.

(** ** [PartialEq] of the snapshot *)

#[export] Instance AgentLoopDriverDescriptor_eq_dec : EqDecision AgentLoopDriverDescriptor. Proof. solve_decision. Defined.
#[export] Instance SteeringPolicy_eq_dec : EqDecision SteeringPolicy. Proof. solve_decision. Defined.
#[export] Instance CancellationPolicy_eq_dec : EqDecision CancellationPolicy. Proof. solve_decision. Defined.
#[export] Instance CheckpointPolicy_eq_dec : EqDecision CheckpointPolicy. Proof. solve_decision. Defined.
#[export] Instance ResourceBudgetPolicy_eq_dec : EqDecision ResourceBudgetPolicy. Proof. solve_decision. Defined.
#[export] Instance RuntimeProfileConstraints_eq_dec : EqDecision RuntimeProfileConstraints. Proof. solve_decision. Defined.
#[export] Instance PrivilegedRunProfileDimension_eq_dec : EqDecision PrivilegedRunProfileDimension. Proof. solve_decision. Defined.
#[export] Instance RedactedRunProfileSource_eq_dec : EqDecision RedactedRunProfileSource. Proof. solve_decision. Defined.
#[export] Instance RedactedRunProfileProvenance_eq_dec : EqDecision RedactedRunProfileProvenance. Proof. solve_decision. Defined.
#[export] Instance PersonalContextPolicy_eq_dec : EqDecision PersonalContextPolicy. Proof. solve_decision. Defined.
#[export] Instance ResolvedRunProfile_eq_dec : EqDecision ResolvedRunProfile. Proof. solve_decision. Defined.
#[export] Instance TurnRunProfile_eq_dec : EqDecision TurnRunProfile. Proof. solve_decision. Defined.
#[export] Instance TurnRecord_eq_dec : EqDecision TurnRecord. Proof. solve_decision. Defined.
#[export] Instance TurnActiveLockRecord_eq_dec : EqDecision TurnActiveLockRecord. Proof. solve_decision. Defined.
#[export] Instance SpawnTreeReservation_eq_dec : EqDecision SpawnTreeReservation. Proof. solve_decision. Defined.
#[export] Instance TurnAdmissionReservationRecord_eq_dec : EqDecision TurnAdmissionReservationRecord. Proof. solve_decision. Defined.
#[export] Instance LoopCheckpointKind_eq_dec : EqDecision LoopCheckpointKind. Proof. solve_decision. Defined.
#[export] Instance LoopCheckpointStateRef_eq_dec : EqDecision LoopCheckpointStateRef. Proof. solve_decision. Defined.
#[export] Instance LoopCheckpointRecord_eq_dec : EqDecision LoopCheckpointRecord. Proof. solve_decision. Defined.
#[export] Instance TurnCheckpointRecord_eq_dec : EqDecision TurnCheckpointRecord. Proof. solve_decision. Defined.
#[export] Instance SanitizedFailure_eq_dec : EqDecision SanitizedFailure. Proof. solve_decision. Defined.
#[export] Instance NativeAuthWaitPhase_eq_dec : EqDecision NativeAuthWaitPhase. Proof. solve_decision. Defined.
#[export] Instance NativeAuthWaitFormat_eq_dec : EqDecision NativeAuthWaitFormat. Proof. solve_decision. Defined.
#[export] Instance NativeAuthWait_eq_dec : EqDecision NativeAuthWait. Proof. solve_decision. Defined.
#[export] Instance TurnRunRecord_eq_dec : EqDecision TurnRunRecord. Proof. solve_decision. Defined.
#[export] Instance TurnBlockedGateKind_eq_dec : EqDecision TurnBlockedGateKind. Proof. solve_decision. Defined.
#[export] Instance TurnBlockedGateMetadata_eq_dec : EqDecision TurnBlockedGateMetadata. Proof. solve_decision. Defined.
#[export] Instance TurnLifecycleEvent_eq_dec : EqDecision TurnLifecycleEvent. Proof. solve_decision. Defined.
#[export] Instance TurnErrorCategory_eq_dec : EqDecision TurnErrorCategory. Proof. solve_decision. Defined.
#[export] Instance TurnCapacityResource_eq_dec : EqDecision TurnCapacityResource. Proof. solve_decision. Defined.
#[export] Instance TurnIdempotencyErrorReplay_eq_dec : EqDecision TurnIdempotencyErrorReplay. Proof. solve_decision. Defined.
#[export] Instance AdmissionRejectionReason_eq_dec : EqDecision AdmissionRejectionReason. Proof. solve_decision. Defined.
#[export] Instance TurnAdmissionCapacityDenial_eq_dec : EqDecision TurnAdmissionCapacityDenial. Proof. solve_decision. Defined.
#[export] Instance AdmissionRejection_eq_dec : EqDecision AdmissionRejection. Proof. solve_decision. Defined.
#[export] Instance ThreadBusy_eq_dec : EqDecision ThreadBusy. Proof. solve_decision. Defined.
#[export] Instance SubmitTurnResponse_eq_dec : EqDecision SubmitTurnResponse. Proof. solve_decision. Defined.
#[export] Instance ResumeTurnResponse_eq_dec : EqDecision ResumeTurnResponse. Proof. solve_decision. Defined.
#[export] Instance CancelRunResponse_eq_dec : EqDecision CancelRunResponse. Proof. solve_decision. Defined.
#[export] Instance TurnIdempotencyReplay_eq_dec : EqDecision TurnIdempotencyReplay. Proof. solve_decision. Defined.
#[export] Instance TurnIdempotencyRecord_eq_dec : EqDecision TurnIdempotencyRecord. Proof. solve_decision. Defined.
#[export] Instance TurnPersistenceSnapshot_eq_dec : EqDecision TurnPersistenceSnapshot. Proof. solve_decision. Defined.

(** ** The mutations of a turn store *)

Inductive store_call : Type -> Type :=
| StSubmitTurn (req : SubmitTurnRequest) : store_call SubmitTurnResponse
| StSubmitChild (req : SubmitChildRunRequest) (claimed : option ClaimedTurnRun) :
    store_call SubmitTurnResponse
| StResumeTurn (req : ResumeTurnRequest) : store_call ResumeTurnResponse
| StRequestCancel (req : CancelRunRequest) : store_call CancelRunResponse
| StRequestCancelTree (req : CancelRunRequest) :
    store_call (list (CancelRunRequest * CancelRunResponse))
| StReserveTree (scope : TurnScope) (root : TurnRunId) (delta cap : Z) :
    store_call SpawnTreeReservation
| StReleaseTree (scope : TurnScope) (root : TurnRunId) (delta : Z) : store_call unit
| StReleaseClaimedChild (scope : TurnScope) (child : TurnRunId) : store_call unit
| StPutLoopCheckpoint (req : PutLoopCheckpointRequest) : store_call LoopCheckpointRecord
| StClaimNextRun (req : ClaimRunRequest) : store_call (option ClaimedTurnRun)
| StHeartbeat (req : LeaseRef) : store_call EventCursor
| StRecoverExpiredLeases (now : TurnTimestamp) (filter : option TurnScope) :
    store_call (list TurnRunState)
| StRecordModelRoute (req : LeaseRef) (snapshot : LoopModelRouteSnapshot) : store_call TurnRunState
| StBlockNativeAuth (req : BlockNativeAuthRequest) : store_call TurnRunState
| StBlockRun (req : LeaseRef) (checkpoint_id : TurnCheckpointId)
    (state_ref : LoopCheckpointStateRef) (reason : BlockedReason) : store_call TurnRunState
| StCompleteRun (req : LeaseRef) : store_call TurnRunState
| StCancelRun (req : LeaseRef) : store_call TurnRunState
| StFailRun (req : LeaseRef) (failure : SanitizedFailure) : store_call TurnRunState
| StRecordRunnerFailure (req : LeaseRef) (failure : SanitizedFailure) : store_call TurnRunState
| StRelinquishRun (req : LeaseRef) : store_call TurnRunState
| StApplyLoopExit (req : LeaseRef) (mapping : LoopExitMapping) : store_call TurnRunState.

Definition snapshot_default : TurnPersistenceSnapshot :=
  mk_TurnPersistenceSnapshot [] [] [] [] [] [] [] 0 [] [].

(** [serde_json::to_vec_pretty] and [from_slice] on a snapshot. *)
Class SnapshotCodec : Type := {
  snapshot_to_vec : TurnPersistenceSnapshot -> result string string;
  snapshot_from_slice : string -> result TurnPersistenceSnapshot string }.
Class SnapshotCodecLaws (SC : SnapshotCodec) : Prop := {
  snapshot_from_to sn body : snapshot_to_vec sn = Ok body -> snapshot_from_slice body = Ok sn }.

Definition FILESYSTEM_CAS_RETRIES : nat := 8.
Definition snapshot_path : ScopedPath := mk_ScopedPath "/turns/state.json".

Section Store.
Context {T : Chrono} {U : UuidText} {P : UuidParse U} `{BH : BodyHash} `{SC : SnapshotCodec}.
Variable limit_for : TurnAdmissionLimitProvider.
Variable limits : Limits.

(** *** The operation on a private store *)

(** The critical section of a mutation that is one; [None] for the submissions.  The
    checkpoint identifier is fresh. *)
Definition store_exec (env : Env) (fresh_checkpoint : TurnCheckpointId) {A} (c : store_call A)
    (s : Inner) : option (Inner * result A TurnError) :=
  let now := env_now env in
  match c in store_call A return option (Inner * result A TurnError) with
  | StSubmitTurn _ => None
  | StSubmitChild _ _ => None
  | StResumeTurn req => Some (resume_turn req now s)
  | StRequestCancel req => Some (request_cancel req now s)
  | StRequestCancelTree req => Some (request_cancel_tree req (env_order env) now s)
  | StReserveTree scope root delta cap => Some (reserve_tree_descendants scope root delta cap s)
  | StReleaseTree scope root delta => Some (release_tree_descendants scope root delta s)
  | StReleaseClaimedChild scope child => Some (release_claimed_child_reservation scope child s)
  | StPutLoopCheckpoint req => Some (put_loop_checkpoint req fresh_checkpoint now s)
  | StClaimNextRun req => Some (claim_next_run req now s)
  | StHeartbeat req => Some (heartbeat req now s)
  | StRecoverExpiredLeases req_now filter =>
      let '(s, recovered) := recover_expired_leases req_now filter (env_order env) now s in
      Some (s, Ok recovered)
  | StRecordModelRoute req snapshot => Some (record_model_route_snapshot req snapshot now s)
  | StBlockNativeAuth req => Some (block_native_auth req now s)
  | StBlockRun req checkpoint_id state_ref reason =>
      Some (block_run req checkpoint_id state_ref reason now s)
  | StCompleteRun req => Some (complete_run req now s)
  | StCancelRun req => Some (cancel_run req now s)
  | StFailRun req failure => Some (fail_run req failure now s)
  | StRecordRunnerFailure req failure => Some (record_runner_failure req failure now s)
  | StRelinquishRun req => Some (relinquish_run req now s)
  | StApplyLoopExit req mapping => Some (apply_validated_loop_exit req mapping now s)
  end.

(** A submission on a store nobody else has: its sections one after the other, the
    resolver answering what was resolved before ([PreResolvedRunProfileResolver]). *)
Inductive private_run (resolved : result ResolvedRunProfile RunProfileResolutionError) {R : Type} :
    prog turnE R -> Inner -> Inner -> R -> Prop :=
| pr_ret r s : private_run resolved (Ret r) s s r
| pr_check req k answer s s' r :
    private_run resolved (k answer) s s' r -> private_run resolved (Call (CheckSubmit req) k) s s' r
| pr_resolve req k s s' r :
    private_run resolved (k resolved) s s' r -> private_run resolved (Call (ResolveProfile req) k) s s' r
| pr_section X (e : turnE X) k env x s s1 s' r :
    env_ok env s -> op_ok (OpSection e) -> exec_section limit_for env e s = Some (s1, Some x) ->
    private_run resolved (k x) s1 s' r -> private_run resolved (Call e k) s s' r.

(** The numbers of a request are in the range of their types. *)
Definition call_ok {A} (c : store_call A) : Prop :=
  match c with
  | StSubmitChild req _ => in_u32 (cq_spawn_tree_descendant_cap req)
  | StReserveTree _ _ delta cap => in_u32 delta /\ in_u32 cap
  | StReleaseTree _ _ delta => in_u32 delta
  | _ => True
  end.

Inductive store_run : forall {A}, store_call A ->
    result ResolvedRunProfile RunProfileResolutionError ->
    Inner -> Inner -> result A TurnError -> Prop :=
| run_submit req resolved s s' out :
    private_run resolved (submit_turn req) s s' out ->
    store_run (StSubmitTurn req) resolved s s' out
| run_child req claimed resolved s s' out :
    private_run resolved (submit_child_with_claim req claimed) s s' out ->
    store_run (StSubmitChild req claimed) resolved s s' out
| run_section A (c : store_call A) resolved env fresh s s' out :
    env_ok env s -> call_ok c -> store_exec env fresh c s = Some (s', out) ->
    store_run c resolved s s' out.

(** *** The programs of the store *)

Inductive fsE : Type -> Type :=
| FsGet : fsE (result (option VersionedEntry) FilesystemError)
| FsPut (entry : Entry) (cas : CasExpectation) : fsE (result RecordVersion FilesystemError)
| FsResolve (req : RunProfileResolutionRequest) :
    fsE (result ResolvedRunProfile RunProfileResolutionError)
| FsRun {A} (c : store_call A) (resolved : result ResolvedRunProfile RunProfileResolutionError)
    (s : Inner) : fsE (Inner * result A TurnError).

Definition fs_unavailable : TurnError :=
  TeUnavailable "turn state persistence temporarily unavailable".

Definition deserialize_snapshot (body : string) : result TurnPersistenceSnapshot TurnError :=
  map_err (fun error => TeUnavailable ("turn-state snapshot deserialization failed: " +:+ error))
    (snapshot_from_slice body).
Definition snapshot_entry (sn : TurnPersistenceSnapshot) : result Entry TurnError :=
  let? body := map_err (fun error =>
    TeUnavailable ("turn-state snapshot serialization failed: " +:+ error)) (snapshot_to_vec sn) in
  Ok (mk_Entry body "application/json" None ∅).

Definition read_snapshot_unlocked :
    prog fsE (result (TurnPersistenceSnapshot * option RecordVersion) TurnError) :=
  let! found := trigger FsGet in
  Ret match found with
      | Ok (Some versioned) =>
          let? sn := deserialize_snapshot (entry_body (ve_entry versioned)) in
          Ok (sn, Some (ve_version versioned))
      | Ok None => Ok (snapshot_default, None)
      | Err _ => Err fs_unavailable
      end.

Definition build_in_memory_store (sn : TurnPersistenceSnapshot) : result Inner TurnError :=
  from_persistence_snapshot sn limits.

(** [apply]: [n] is the number of rounds left. *)
Fixpoint apply_loop {A} (n : nat) (c : store_call A)
    (resolved : result ResolvedRunProfile RunProfileResolutionError) :
    prog fsE (result A TurnError) :=
  match n with
  | O => Ret (Err (TeUnavailable "turn state filesystem CAS retries exhausted"))
  | S n =>
      let!? read := read_snapshot_unlocked in
      match build_in_memory_store read.1 with
      | Err e => Ret (Err e)
      | Ok store =>
          let! ran := trigger (FsRun c resolved store) in
          let new_snapshot := persistence_snapshot ran.1 in
          if bool_decide (new_snapshot = read.1) then Ret ran.2
          else match snapshot_entry new_snapshot with
          | Err e => Ret (Err e)
          | Ok entry =>
              let cas := match read.2 with Some v => CasVersion v | None => CasAbsent end in
              let! written := trigger (FsPut entry cas) in
              match written with
              | Ok _ => Ret ran.2
              | Err (FsVersionMismatch _ _ _) => apply_loop n c resolved
              | Err _ => Ret (Err fs_unavailable)
              end
          end
      end
  end.

Definition unresolved : result ResolvedRunProfile RunProfileResolutionError :=
  Err (RpInvalidRequest "").

(** The mutating methods: a submission resolves its profile first, once. *)
Definition fs_apply {A} (c : store_call A) : prog fsE (result A TurnError) :=
  match c in store_call A return prog fsE (result A TurnError) with
  | StSubmitTurn req =>
      let! resolved := trigger (FsResolve (resolution_request (sq_requested_run_profile req))) in
      apply_loop FILESYSTEM_CAS_RETRIES (StSubmitTurn req) resolved
  | StSubmitChild req claimed =>
      let! resolved := trigger (FsResolve (resolution_request (cq_requested_run_profile req))) in
      apply_loop FILESYSTEM_CAS_RETRIES (StSubmitChild req claimed) resolved
  | c => apply_loop FILESYSTEM_CAS_RETRIES c unresolved
  end.

(** *** The reading methods *)

Definition fs_read {A} (f : Inner -> result A TurnError) : prog fsE (result A TurnError) :=
  let!? read := read_snapshot_unlocked in
  Ret (let? store := build_in_memory_store read.1 in f store).

Definition fs_get_run_state (req : GetRunStateRequest) := fs_read (get_run_state req).
Definition fs_get_loop_checkpoint (req : GetLoopCheckpointRequest) :=
  fs_read (fun s => Ok (get_loop_checkpoint req s)).

Definition fs_project {A} (f : TurnPersistenceSnapshot -> A) : prog fsE (result A TurnError) :=
  let!? read := read_snapshot_unlocked in Ret (Ok (f read.1)).

Definition project_run_record (sn : TurnPersistenceSnapshot) (scope : TurnScope) (id : TurnRunId) :
    option TurnRunRecord :=
  List.find (fun r => bool_decide (tr_run_id r = id) && bool_decide (tr_scope r = scope)) (sn_runs sn).

Definition project_children_of (sn : TurnPersistenceSnapshot) (scope : TurnScope) (id : TurnRunId) :
    list TurnRunRecord :=
  match List.find (fun r => bool_decide (tr_run_id r = id)) (sn_runs sn) with
  | None => []
  | Some parent =>
      if negb (bool_decide (tr_scope parent = scope)) then []
      else sort_by (fun a b => tr_received_at a ?= tr_received_at b)
        (List.filter (fun r => bool_decide (tr_parent_run_id r = Some id)
                               && same_scope_envelope (tr_scope r) scope) (sn_runs sn))
  end.

Definition fs_children_of (scope : TurnScope) (id : TurnRunId) :=
  fs_project (fun sn => project_children_of sn scope id).
Definition fs_get_run_record (scope : TurnScope) (id : TurnRunId) :=
  fs_project (fun sn => project_run_record sn scope id).
Definition fs_read_turn_events_after (scope : TurnScope) (owner : option UserId)
    (after : option EventCursor) (limit : nat) :=
  fs_project (fun sn => project_turn_events (sn_events sn) scope owner after limit
                          (sn_event_retention_floor sn)).

End Store.

(** ** Every interleaving of the callers *)

Section Linear.
Context {T : Chrono} {U : UuidText} {P : UuidParse U} `{BH : BodyHash} `{SC : SnapshotCodec}.
Context {SCL : SnapshotCodecLaws SC}.
Context {St : Type} `{ES : !EntryStore St} `{ESL : !EntryStoreLaws St}.
Variable limit_for : TurnAdmissionLimitProvider.
Variable limits : Limits.
(** The view of the system scope. *)
Variable system_view : result MountView HostApiError.
Implicit Types (s : St) (st : Inner).

Definition scoped_path : FilesystemOperation -> result VirtualPath FilesystemError :=
  file_path system_view snapshot_path.

(** What a call may do. *)
Definition fs_handle X (e : fsE X) s s' : X -> Prop :=
  match e in fsE X return X -> Prop with
  | FsGet => fun x =>
      s' = s /\ x = match scoped_path ReadFile with Ok v => es_get s v | Err e => Err e end
  | FsPut entry cas => fun x =>
      match scoped_path WriteFile with
      | Ok v => exists now, es_put s v entry cas now = (s', x)
      | Err e => s' = s /\ x = Err e
      end
  | FsResolve _ => fun _ => s' = s
  | FsRun c resolved st => fun x => s' = s /\ store_run limit_for c resolved st x.1 x.2
  end.

(** The virtual path of the snapshot, and what is stored there. *)
Definition snapshot_key : string := file_key system_view snapshot_path.

Lemma scoped_path_key operation v : scoped_path operation = Ok v -> vp_str v = snapshot_key.
Proof. apply file_path_key. Qed.

Definition contents s : option TurnPersistenceSnapshot :=
  match es_at s snapshot_key with
  | None => Some snapshot_default
  | Some (entry, _) => ok_option (deserialize_snapshot (entry_body entry))
  end.

Definition durable s : Prop :=
  exists st, reachable limit_for limits st /\ contents s = Some (persistence_snapshot st).

(** The call [c] was made on the store the entry held, and its store is held now. *)
Definition commits {A} (c : store_call A) s s' : Prop :=
  exists st st1 st2 resolved out,
    reachable limit_for limits st /\ contents s = Some (persistence_snapshot st)
    /\ from_persistence_snapshot (persistence_snapshot st) limits = Ok st1
    /\ store_run limit_for c resolved st1 st2 out
    /\ contents s' = Some (persistence_snapshot st2).

Lemma private_run_steps resolved R (p : prog turnE R) st st' r :
  private_run limit_for resolved p st st' r -> rtc (turn_step limit_for) st st'.
Proof.
  induction 1 as [| | |X e k env x s s1 s' r Henv Hop Hex _ IH]; [done..|].
  eapply rtc_l; [|exact IH]. apply (turn_step_exec _ s s1 env (OpSection e)); [done..|].
  simpl. by rewrite Hex.
Qed.

(** The critical section of a mutation, as a step of the store. *)
Definition op_of (fresh : TurnCheckpointId) {A} (c : store_call A) : option turn_op :=
  match c with
  | StSubmitTurn _ | StSubmitChild _ _ => None
  | StResumeTurn req => Some (OpResumeTurn req)
  | StRequestCancel req => Some (OpRequestCancel req)
  | StRequestCancelTree req => Some (OpRequestCancelTree req)
  | StReserveTree scope root delta cap => Some (OpReserveTree scope root delta cap)
  | StReleaseTree scope root delta => Some (OpReleaseTree scope root delta)
  | StReleaseClaimedChild scope child => Some (OpReleaseClaimedChild scope child)
  | StPutLoopCheckpoint req => Some (OpPutLoopCheckpoint req fresh)
  | StClaimNextRun req => Some (OpClaimNextRun req)
  | StHeartbeat req => Some (OpHeartbeat req)
  | StRecoverExpiredLeases now filter => Some (OpRecoverExpiredLeases now filter)
  | StRecordModelRoute req snapshot => Some (OpRecordModelRoute req snapshot)
  | StBlockNativeAuth req => Some (OpBlockNativeAuth req)
  | StBlockRun req id state_ref reason => Some (OpBlockRun req id state_ref reason)
  | StCompleteRun req => Some (OpCompleteRun req)
  | StCancelRun req => Some (OpCancelRun req)
  | StFailRun req failure => Some (OpFailRun req failure)
  | StRecordRunnerFailure req failure => Some (OpRecordRunnerFailure req failure)
  | StRelinquishRun req => Some (OpRelinquishRun req)
  | StApplyLoopExit req mapping => Some (OpApplyLoopExit req mapping)
  end.

Lemma store_exec_op env fresh A (c : store_call A) st st' out :
  call_ok c -> store_exec env fresh c st = Some (st', out) ->
  exists op, op_of fresh c = Some op /\ op_ok op /\ turn_exec limit_for env op st = Some st'.
Proof.
  destruct c; intros Hok Hex; cbn [store_exec] in Hex; try done.
  all: eexists; split; [reflexivity|]; split; [exact Hok || exact I|]; cbn [turn_exec].
  all: try exact (f_equal (option_map fst) Hex).
  destruct (recover_expired_leases _ _ _ _ _). by injection Hex as <- _.
Qed.

Lemma store_run_steps A (c : store_call A) resolved st st' out :
  store_run limit_for c resolved st st' out -> rtc (turn_step limit_for) st st'.
Proof.
  intros [ req res s s' o Hrun | req claimed res s s' o Hrun | B c0 res env fresh s s' o Henv Hok Hex].
  - by eapply private_run_steps.
  - by eapply private_run_steps.
  - destruct (store_exec_op env fresh B c0 s s' o Hok Hex) as (op & _ & Hop & Hstep).
    apply rtc_once. by apply (turn_step_exec _ s s' env op).
Qed.

(** A restart is a step: some turn identifier is new. *)
Lemma restart_step st st1 :
  reachable limit_for limits st -> from_persistence_snapshot (persistence_snapshot st) limits = Ok st1 ->
  reachable limit_for limits st1.
Proof.
  intros Hr Hst1. eapply rtc_r; [exact Hr|].
  pose (used := set_map (D := gset Z) turn_as_uuid (dom (in_turns st))).
  pose (env := mk_Env 0 (mk_Fresh (turn_from_uuid (fresh used)) (turn_from_uuid 0))
                 (map_to_list (in_records st)).*1).
  apply (turn_step_exec _ st st1 env OpRestart).
  - split; [|done]. simpl. apply not_elem_of_dom. intros Hin. apply (is_fresh used).
    apply elem_of_map. by exists (turn_from_uuid (fresh used)).
  - done.
  - simpl. by rewrite (ao_limits _ _ (reachable_answers limit_for limits st Hr)), Hst1.
Qed.

Lemma commits_durable A (c : store_call A) s s' : commits c s s' -> durable s'.
Proof.
  intros (st & st1 & st2 & resolved & out & Hr & _ & Hst1 & Hrun & Hs'). exists st2. split; [|done].
  unfold reachable. etrans; [exact (restart_step st st1 Hr Hst1)|]. by eapply store_run_steps.
Qed.

Lemma new_snapshot : persistence_snapshot (Inner_new limits) = snapshot_default.
Proof. done. Qed.

Lemma empty_durable s : es_at s snapshot_key = None -> durable s.
Proof.
  intros Hn. exists (Inner_new limits). split; [apply rtc_refl|]. unfold contents. by rewrite Hn.
Qed.

(** *** Rely and guarantee *)

Definition call_label : Type := {A : Type & store_call A}.
Definition call_result : Type := {A : Type & result A TurnError}.

Definition result_of {A} (r : result A TurnError) : call_result :=
  existT (P := fun A => result A TurnError) A r.

Definition fs_job (a : call_label) : prog fsE call_result :=
  let! r := fs_apply limits (projT2 a) in Ret (result_of r).

Definition fs_guar (a : call_label) s s' : Prop :=
  grows s s' /\ (contents s' = contents s \/ commits (projT2 a) s s').
Definition fs_rely (a : call_label) s s' : Prop := grows s s' /\ (durable s -> durable s').

Lemma same_guar a s : fs_guar a s s.
Proof. split; [apply entries_grow_refl | by left]. Qed.

Lemma guar_durable a s s' : fs_guar a s s' -> durable s -> durable s'.
Proof.
  intros [_ [Hc|Hc] ] Hd; [|by eapply commits_durable]. destruct Hd as (st & Hr & Hs).
  exists st. by rewrite Hc.
Qed.

(** What a reader knows: the snapshot of a reachable store, at a version or absent. *)
Definition read_of s (sn : TurnPersistenceSnapshot) (version : option RecordVersion) : Prop :=
  match version with
  | Some n => exists e, es_at s snapshot_key = Some (e, n)
                /\ ok_option (deserialize_snapshot (entry_body e)) = Some sn
  | None => sn = snapshot_default
  end.

Lemma read_contents s x sn version :
  x = match scoped_path ReadFile with Ok v => es_get s v | Err e => Err e end ->
  match x with
  | Ok (Some versioned) =>
      let? sn := deserialize_snapshot (entry_body (ve_entry versioned)) in
      Ok (sn, Some (ve_version versioned))
  | Ok None => Ok (snapshot_default, None)
  | Err _ => Err fs_unavailable
  end = Ok (sn, version) ->
  contents s = Some sn /\ read_of s sn version.
Proof.
  intros -> Hx. destruct (scoped_path ReadFile) as [v|] eqn:Hv; [|done].
  pose proof (scoped_path_key _ _ Hv) as Hkey. destruct (es_get s v) as [o|] eqn:Hget; [|done].
  pose proof (es_get_at s v o Hget) as Hat. rewrite Hkey in Hat. unfold contents, read_of.
  destruct o as [ve|]; simpl in Hat; rewrite <- Hat.
  - destruct (deserialize_snapshot _) as [sn'|] eqn:Hd; [|done]. injection Hx as <- <-.
    split; [done|]. exists (ve_entry ve). by rewrite Hd.
  - by injection Hx as <- <-.
Qed.

(** A conditional write that is carried out replaces what was read. *)
Lemma put_contents s0 s v sn version new entry s' n :
  scoped_path WriteFile = Ok v -> read_of s0 sn version -> grows s0 s ->
  snapshot_entry new = Ok entry ->
  put_written (es_at s) (es_at s') (vp_str v) entry
    match version with Some w => CasVersion w | None => CasAbsent end n ->
  contents s = Some sn /\ contents s' = Some new.
Proof.
  intros Hv Hread Hg Hentry [Hexp Hat _ _]. pose proof (scoped_path_key _ _ Hv) as Hkey.
  rewrite Hkey in Hexp, Hat. split.
  - unfold contents. destruct version as [w|]; simpl in Hread, Hexp.
    + destruct Hread as (e & Hat0 & Hsn). destruct Hexp as [e0 He0]. destruct (Hg _ _ _ Hat0) as (e' & n' & Hat' & _ & Heq).
      rewrite He0 in Hat'. injection Hat' as <- <-. rewrite Heq in He0 by done. by rewrite He0.
    + by rewrite Hexp, Hread.
  - unfold contents. rewrite Hat.
    unfold snapshot_entry, map_err in Hentry. destruct (snapshot_to_vec new) as [body|] eqn:Hb; [|done].
    injection Hentry as <-. simpl. unfold deserialize_snapshot, map_err.
    by rewrite (snapshot_from_to _ _ Hb).
Qed.

Lemma rg_apply A (c : store_call A) n resolved s :
  durable s ->
  rg fs_handle fs_rely fs_guar (existT A c)
    (pbind (apply_loop limits n c resolved) (fun r => Ret (result_of r))) (fun _ _ => True) s.
Proof.
  revert s. induction n as [|n IH]; intros s Hd; [done|].
  cbn [apply_loop]. unfold read_snapshot_unlocked. cbn [pbind trigger rg].
  intros s1 s2 x [_ Hd1] [-> Hx]. split; [apply same_guar|]. specialize (Hd1 Hd).
  destruct (match x with
            | Ok (Some versioned) =>
                let? sn := deserialize_snapshot (entry_body (ve_entry versioned)) in
                Ok (sn, Some (ve_version versioned))
            | Ok None => Ok (snapshot_default, None)
            | Err _ => Err fs_unavailable
            end) as [[sn version]|e] eqn:Hread; [|done].
  destruct (read_contents s1 x sn version Hx Hread) as [Hcon Hof]. cbn [fst snd].
  destruct (build_in_memory_store limits sn) as [store|e] eqn:Hbuild; [|done].
  cbn [pbind trigger rg]. intros s3 s4 [st2 out] [Hg3 Hd3] [-> Hrun]. split; [apply same_guar|].
  cbn [fst snd] in *. destruct (bool_decide _); [done|].
  destruct (snapshot_entry (persistence_snapshot st2)) as [entry|e] eqn:Hentry; [|done].
  cbn [pbind trigger rg]. intros s5 s6 y [Hg5 Hd5] Hput. simpl in Hput.
  assert (durable s5) as Hd5' by auto.
  destruct (scoped_path WriteFile) as [v|e] eqn:Hv.
  2: { destruct Hput as [-> ->]. split; [apply same_guar|]. by destruct e; try apply IH. }
  destruct Hput as [now Hput].
  assert (fs_guar (existT A c) s5 s6) as Hguar.
  { destruct (put_effects _ _ _ _ _ _ _ Hput) as [[_ Hsame]|[_ [m Hw] ] ].
    - split; [by apply grows_same|]. left. unfold contents. by rewrite Hsame.
    - split; [by eapply written_grows|]. right.
      destruct (put_contents s1 s5 v sn version (persistence_snapshot st2) entry s6 m Hv Hof)
        as [Hc5 Hc6]; [by eapply entries_grow_trans | done | done|].
      destruct Hd5' as (st & Hr & Hst). exists st, store, st2, resolved, out.
      assert (sn = persistence_snapshot st) as -> by congruence. done. }
  split; [done|]. destruct y as [m|e]; [done|]. destruct e; try done. apply IH. by eapply guar_durable.
Qed.

Lemma rg_job a s : durable s -> rg fs_handle fs_rely fs_guar a (fs_job a) (fun _ _ => True) s.
Proof.
  intros Hd. destruct a as [A c]. unfold fs_job. cbn [projT1 projT2].
  destruct c; try by apply rg_apply.
  - unfold fs_apply. cbn [pbind trigger rg]. intros s1 s2 x [Hg Hd1] ->. split; [apply same_guar|].
    apply rg_apply. auto.
  - unfold fs_apply. cbn [pbind trigger rg]. intros s1 s2 x [Hg Hd1] ->. split; [apply same_guar|].
    apply rg_apply. auto.
Qed.

(** *** What a call returns *)

(** The put was carried out, or may have been: it was not refused. *)
Definition writes (ev : event fsE) : bool :=
  match ev with
  | @Ev _ X e x =>
      match e in fsE X return X -> bool with
      | FsPut _ _ => fun r => match r with Ok _ => true | Err x => negb (put_refused x) end
      | _ => fun _ => false
      end x
  end.
Definition no_write (t : list (event fsE)) : Prop := Forall (fun ev => writes ev = false) t.

(** The calls [t] of the mutation [c] that returned [r]: the last thing was the run of
    [c] with the outcome [r], or that run and the one write of its store, or nothing was
    written and [r] is an error, or the last thing was the write of a run's store, which
    the filesystem answered with an error that does not say whether it was carried out. *)
Inductive settled {A} (c : store_call A) (t : list (event fsE)) (r : result A TurnError) : Prop :=
| settled_unchanged t0 resolved store st' :
    t = t0 ++ [Ev (FsRun c resolved store) (st', r)] -> no_write t0 -> settled c t r
| settled_written t0 resolved store st' entry cas n :
    t = t0 ++ [Ev (FsRun c resolved store) (st', r); Ev (FsPut entry cas) (Ok n)] ->
    snapshot_entry (persistence_snapshot st') = Ok entry -> no_write t0 -> settled c t r
| settled_failed e : r = Err e -> no_write t -> settled c t r
| settled_unknown t0 resolved store st' out entry cas x :
    t = t0 ++ [Ev (FsRun c resolved store) (st', out); Ev (FsPut entry cas) (Err x)] ->
    r = Err fs_unavailable -> put_refused x = false ->
    snapshot_entry (persistence_snapshot st') = Ok entry -> no_write t0 -> settled c t r.

Lemma settled_prefix A (c : store_call A) t1 t r : no_write t1 -> settled c t r -> settled c (t1 ++ t) r.
Proof.
  intros H1 [t0 resolved store st' -> H0|t0 resolved store st' entry cas n -> He H0|e -> Ht
    |t0 resolved store st' out entry cas x -> -> Hx He H0].
  - eapply (settled_unchanged _ _ _ (t1 ++ t0)); [by rewrite <- app_assoc | by apply Forall_app].
  - eapply (settled_written _ _ _ (t1 ++ t0)); [by rewrite <- app_assoc | done | by apply Forall_app].
  - eapply settled_failed; [done|]. by apply Forall_app.
  - eapply (settled_unknown _ _ _ (t1 ++ t0)); [by rewrite <- app_assoc | done.. | by apply Forall_app].
Qed.

Lemma apply_settled A (c : store_call A) n resolved t r :
  traces (apply_loop limits n c resolved) t r -> settled c t r.
Proof.
  revert t. induction n as [|n IH]; intros t.
  { intros [-> ->]. eapply settled_failed; [done | constructor]. }
  cbn [apply_loop]. unfold read_snapshot_unlocked. cbn [pbind trigger traces].
  intros (x & t1 & -> & Ht). change (Ev FsGet x :: t1) with ([Ev FsGet x] ++ t1).
  apply settled_prefix; [by repeat constructor|]. revert Ht.
  match goal with |- context [match ?y with Ok read => _ | Err e => Ret (Err e) end] =>
    destruct y as [[sn version]|e] end.
  2: { intros [-> ->]. eapply settled_failed; [done | constructor]. }
  destruct (build_in_memory_store limits _) as [store|e].
  2: { intros [-> ->]. eapply settled_failed; [done | constructor]. }
  cbn [pbind trigger traces fst snd]. intros ([st' out] & t2 & -> & Ht). revert Ht. cbn [fst snd].
  destruct (bool_decide _).
  { intros [-> ->]. by eapply (settled_unchanged _ _ _ []); [|constructor]. }
  destruct (snapshot_entry _) as [entry|e] eqn:Hentry.
  2: { intros [-> ->]. eapply settled_failed; [done | by repeat constructor]. }
  cbn [pbind trigger traces]. intros (y & t3 & -> & Ht). revert Ht. destruct y as [m|e].
  { intros [-> ->]. by eapply (settled_written _ _ _ []); [|done|constructor]. }
  destruct (put_refused e) eqn:He.
  - assert (forall t3 : list (event fsE), settled c t3 r ->
      settled c (Ev (FsRun c resolved store) (st', out) :: Ev (FsPut entry
        match version with Some v => CasVersion v | None => CasAbsent end) (Err e) :: t3) r) as Hpre.
    { intros t4 Ht4. apply (settled_prefix _ _ [_; _]); [|done].
      repeat constructor. simpl. by rewrite He. }
    destruct e; try done; [|intros [-> ->]; apply Hpre; eapply settled_failed; [done | constructor] ].
    intros Ht. by apply Hpre, IH.
  - destruct e; try done;
      intros [-> ->]; by eapply (settled_unknown _ _ _ []); [|done..|constructor].
Qed.

Lemma call_settled A (c : store_call A) t r : traces (fs_apply limits c) t r -> settled c t r.
Proof.
  destruct c; try apply apply_settled.
  all: unfold fs_apply; cbn [pbind trigger traces]; intros (x & t1 & -> & Ht).
  all: apply (settled_prefix _ _ [_]); [by repeat constructor | by eapply apply_settled].
Qed.

(** A call that nobody disturbs on an absent entry: one read, one run, one write. *)
Lemma first_call A (c : store_call A) s v store st' out entry now s' n :
  fs_apply limits c = apply_loop limits FILESYSTEM_CAS_RETRIES c unresolved ->
  scoped_path ReadFile = Ok v -> scoped_path WriteFile = Ok v -> es_get s v = Ok None ->
  build_in_memory_store limits snapshot_default = Ok store ->
  store_run limit_for c unresolved store st' out ->
  persistence_snapshot st' <> snapshot_default ->
  snapshot_entry (persistence_snapshot st') = Ok entry ->
  es_put s v entry CasAbsent now = (s', Ok n) ->
  rtc (pool_step fs_handle (fun a p _ _ => p = fs_job a)) (s, [])
    (s', [(existT A c, Ret (result_of out))]).
Proof.
  intros Happly Hr Hw Hget Hbuild Hrun Hnew Hentry Hput.
  eapply rtc_l; [by apply (ps_start _ _ s [] (existT A c))|].
  unfold fs_job. cbn [projT1 projT2]. rewrite Happly. unfold FILESYSTEM_CAS_RETRIES.
  cbn [apply_loop app]. unfold read_snapshot_unlocked. cbn [pbind trigger].
  eapply rtc_l.
  { eapply (ps_call _ _ s s _ 0%nat (existT A c)) with (x := Ok None); [reflexivity|].
    split; [done|]. by rewrite Hr. }
  cbn [list_insert insert fst snd]. rewrite Hbuild. cbn [pbind trigger].
  eapply rtc_l.
  { eapply (ps_call _ _ s s _ 0%nat (existT A c)) with (x := (st', out)); [reflexivity|].
    by split. }
  cbn [list_insert insert fst snd]. rewrite bool_decide_eq_false_2 by done. rewrite Hentry.
  cbn [pbind trigger].
  eapply rtc_l.
  { eapply (ps_call _ _ s s' _ 0%nat (existT A c)) with (x := Ok n); [reflexivity|].
    simpl. rewrite Hw. by exists now. }
  apply rtc_refl.
Qed.


(** ** The direct projections *)

Lemma find_unique {A} (f : A -> bool) l x :
  x ∈ l -> f x = true -> (forall y, y ∈ l -> f y = true -> y = x) -> List.find f l = Some x.
Proof.
  intros Hx Hf Huniq. destruct (List.find f l) as [y|] eqn:Hy.
  - apply find_some in Hy as [Hin Hfy]. f_equal. apply Huniq; [by apply list_elem_of_In | done].
  - apply list_elem_of_In in Hx. by rewrite (find_none _ _ Hy x Hx) in Hf.
Qed.

Lemma snapshot_runs st r :
  inv st -> r ∈ sn_runs (persistence_snapshot st) <->
  exists x, in_records st !! tr_run_id r = Some x /\ r = persistence_record x.
Proof.
  intros Hs. simpl. rewrite sort_by_perm, list_elem_of_fmap. split.
  - intros (x & -> & [k Hk]%elem_values). exists x. simpl.
    by rewrite (inv_keyed _ Hs _ _ Hk).
  - intros (x & Hx & ->). exists x. split; [done|]. apply elem_values. by eexists.
Qed.

Lemma find_run st id (f : TurnRunRecord -> bool) :
  inv st -> List.find (fun r => bool_decide (tr_run_id r = id) && f r) (sn_runs (persistence_snapshot st))
  = x ← in_records st !! id; if f (persistence_record x) then Some (persistence_record x) else None.
Proof.
  intros Hs. destruct (in_records st !! id) as [x|] eqn:Hx; simpl.
  - pose proof (inv_keyed _ Hs _ _ Hx) as Hid.
    assert (persistence_record x ∈ sn_runs (persistence_snapshot st)) as Hin.
    { apply snapshot_runs; [done|]. exists x. simpl. by rewrite Hid. }
    destruct (f (persistence_record x)) eqn:Hf.
    + apply find_unique; [done | simpl; by rewrite Hf, bool_decide_eq_true_2|].
      intros y Hy%snapshot_runs [Hid' _]%andb_true_iff; [|done]. apply bool_decide_eq_true in Hid'.
      destruct Hy as (x' & Hx' & ->). rewrite Hid' in Hx'. by simplify_eq.
    + destruct (List.find _ _) as [y|] eqn:Hy; [exfalso|done]. apply find_some in Hy as [Hin' Hfy].
      apply andb_true_iff in Hfy as [Hid'%bool_decide_eq_true Hfy].
      apply list_elem_of_In, snapshot_runs in Hin' as (x' & Hx' & ->); [|done].
      rewrite Hid' in Hx'. simplify_eq. congruence.
  - destruct (List.find _ _) as [y|] eqn:Hy; [exfalso|done]. apply find_some in Hy as [Hin' Hfy].
    apply andb_true_iff in Hfy as [Hid'%bool_decide_eq_true _].
    apply list_elem_of_In, snapshot_runs in Hin' as (x' & Hx' & _); [|done]. congruence.
Qed.

Lemma sort_by_sorted {A} (key : A -> Z) l :
  Sorted (fun a b => key a <= key b) (sort_by (fun a b => key a ?= key b) l).
Proof.
  assert (Total (in_order (fun a b => key a ?= key b))) as Htotal.
  { intros a b. unfold in_order. destruct (Z.compare_spec (key a) (key b)); [by left.. | right].
    destruct (Z.compare_spec (key b) (key a)); [done | done | lia]. }
  pose proof (Sorted_merge_sort (in_order (fun a b => key a ?= key b)) l) as Hsorted.
  unfold sort_by. induction Hsorted as [|a l' _ IH Hhd]; constructor; [done|].
  destruct Hhd as [|b l' Hab]; constructor. unfold in_order in Hab.
  destruct (Z.compare_spec (key a) (key b)); [lia | lia | done].
Qed.

Lemma filter_map_perm (f : RunRecord -> bool) (g : TurnRunRecord -> bool) l l' :
  l ≡ₚ map persistence_record l' -> (forall r, g (persistence_record r) = f r) ->
  List.filter g l ≡ₚ map persistence_record (List.filter f l').
Proof.
  intros Hl Hg. rewrite (filter_Permutation g l _ Hl). clear Hl.
  induction l' as [|r l' IH]; [done|]. simpl. rewrite Hg. destruct (f r); [|done]. simpl. by rewrite IH.
Qed.

(** What the filesystem store reads straight from the snapshot is what the
    in-memory store answers: the record of a run in its exact scope, and the children of
    a run, in the order of their reception. *)
Theorem projections_agree st scope id order :
  reachable limit_for limits st -> order ≡ₚ (map_to_list (in_records st)).*1 ->
  project_run_record (persistence_snapshot st) scope id = get_run_record scope id st
  /\ project_children_of (persistence_snapshot st) scope id ≡ₚ children_of scope id order st
  /\ Sorted (fun a b => tr_received_at a <= tr_received_at b)
       (project_children_of (persistence_snapshot st) scope id).
Proof.
  intros Hr Horder. pose proof (reachable_inv _ _ _ Hr) as Hs. split_and!.
  - unfold project_run_record, get_run_record. rewrite find_run by done.
    destruct (in_records st !! id) as [x|]; [|done]. simpl. by case_bool_decide.
  - pose proof (find_run st id (fun _ => true) Hs) as Hfind. unfold project_children_of, children_of.
    assert (forall l : list TurnRunRecord, List.find (fun r => bool_decide (tr_run_id r = id)) l
      = List.find (fun r => bool_decide (tr_run_id r = id) && true) l) as Htrue.
    { induction l as [|r l IH]; [done|]. simpl. rewrite andb_true_r. by case_match. }
    rewrite Htrue, Hfind. destruct (in_records st !! id) as [parent|]; [|done].
    cbn [mbind option_bind persistence_record tr_scope]. case_bool_decide; [|done]. cbn [negb].
    rewrite sort_by_perm, merge_sort_Permutation. apply filter_map_perm.
    + simpl. rewrite sort_by_perm. apply fmap_Permutation. unfold values.
      rewrite Horder. clear.
      assert (forall l : list (TurnRunId * RunRecord),
        (forall k r, (k, r) ∈ l -> in_records st !! k = Some r) ->
        omap (fun id => in_records st !! id) l.*1 = l.*2) as ->; [|done|].
      { induction l as [|[k r] l IH]; intros Hl; [done|]. cbn. rewrite (Hl k r) by by left.
        f_equal. apply IH. intros. apply Hl. by right. }
      intros k r. by rewrite elem_of_map_to_list.
    + intros r. simpl. by rewrite andb_comm.
  - unfold project_children_of. destruct (List.find _ _); [|constructor].
    destruct (negb _); [constructor|].
    apply sort_by_sorted.
Qed.

End Linear.
