(* ===== verification/TurnLifecycle.v ===== *)
(** * Publication of turn events

    [lifecycle.rs] of [brassclaw_turns].  [DefaultTurnLifecycleEventBus] hands a
    committed event or state to its required observers and then to its best-effort
    sinks.  [LifecyclePublishingTurnStateStore] decorates a turn store: after a call has
    committed it publishes the event of the call, once per event, a failed publication
    being kept as a deferred error (calls of the coordinator), returned (transitions of a
    runner) or logged (claims and recoveries).  Publications of one event exclude each
    other with a gate that lives as long as somebody owns it: the map holds weak
    references, and the strong references are the [Arc]s the tasks own.

    The methods are interactive programs over [turnsE]; every mutex-protected section is
    one call, with its function on the shared state [lstate], so that the programs of any
    number of tasks interleave.  A mutex is poisoned from the start or never (no section
    can panic).  [turnsE] also has the calls of the coordinator, which sits on top of this
    store ([TurnCoordinator]).  A task that is dropped in the middle of a publication is
    not modelled.

    The theorem here: the bus calls every interested observer and every sink exactly
    once, in order, whatever they answer, and returns the first observer's error. *)

From S2P Require Import Prelude Effects External HostIds HostTypes Dispatch RunProfile TurnTypes TurnStore TurnFilesystem.

Open Scope Z_scope.

(** ** The bus *)

(** Observers and sinks are named by their subscription. *)
Inductive busE : Type -> Type :=
| ObserveEvent (observer : nat) (event : TurnLifecycleEvent) : busE (result unit TurnError)
| ObserveState (observer : nat) (state : TurnRunState) : busE (result unit TurnError)
| SinkPublish (sink : nat) (event : TurnLifecycleEvent) : busE (result unit TurnError).

(** [TurnLifecycleEventSubscribers]; the two tests are the observers' own. *)
Record Subscribers : Type := mk_Subscribers {
  sb_required : list nat;
  sb_best_effort : list nat;
  sb_observes_event : nat -> TurnLifecycleEvent -> bool;
  sb_observes_state : nat -> TurnRunState -> bool }.

Definition subscribe_required (o : nat) (b : Subscribers) : Subscribers :=
  mk_Subscribers (sb_required b ++ [o]) (sb_best_effort b) (sb_observes_event b) (sb_observes_state b).
Definition subscribe_best_effort (k : nat) (b : Subscribers) : Subscribers :=
  mk_Subscribers (sb_required b) (sb_best_effort b ++ [k]) (sb_observes_event b) (sb_observes_state b).

(** The errors of the sinks are logged. *)
Fixpoint fanout_best_effort (sinks : list nat) (event : TurnLifecycleEvent) : prog busE unit :=
  match sinks with
  | [] => Ret tt
  | k :: sinks => do! trigger (SinkPublish k event) in fanout_best_effort sinks event
  end.

(** The loop over the required observers; the first error is kept. *)
Fixpoint notify_required (observers : list nat) (observes : nat -> bool)
    (call : nat -> busE (result unit TurnError)) (first : option TurnError) :
    prog busE (option TurnError) :=
  match observers with
  | [] => Ret first
  | o :: observers =>
      if negb (observes o) then notify_required observers observes call first
      else
        let! r := trigger (call o) in
        let first := match r, first with Err e, None => Some e | _, _ => first end in
        notify_required observers observes call first
  end.

Definition publish_with (b : Subscribers) (observes : nat -> bool)
    (call : nat -> busE (result unit TurnError)) (event : TurnLifecycleEvent) :
    prog busE (result unit TurnError) :=
  let! first := notify_required (sb_required b) observes call None in
  do! fanout_best_effort (sb_best_effort b) event in
  Ret match first with Some e => Err e | None => Ok tt end.

Definition publish_event (b : Subscribers) (event : TurnLifecycleEvent) :
    prog busE (result unit TurnError) :=
  publish_with b (fun o => sb_observes_event b o event) (fun o => ObserveEvent o event) event.
Definition publish_state (b : Subscribers) (state : TurnRunState) (event : TurnLifecycleEvent) :
    prog busE (result unit TurnError) :=
  publish_with b (fun o => sb_observes_state b o state) (fun o => ObserveState o state) event.

(** ** Events of calls *)

Record LifecycleEventKey : Type := mk_LifecycleEventKey {
  ek_scope : TurnScope; ek_run_id : TurnRunId; ek_cursor : EventCursor }.
#[export] Instance LifecycleEventKey_eq_dec : EqDecision LifecycleEventKey.
Proof. solve_decision. Defined.
#[export] Instance LifecycleEventKey_countable : Countable LifecycleEventKey.
Proof.
  refine (inj_countable' (fun k => (ek_scope k, ek_run_id k, (ek_cursor k : Z)))
            (fun p => mk_LifecycleEventKey p.1.1 p.1.2 p.2) _).
  by intros [].
Defined.

Definition key_of_event (e : TurnLifecycleEvent) : LifecycleEventKey :=
  mk_LifecycleEventKey (le_scope e) (le_run_id e) (le_cursor e).

Definition submit_event (req : SubmitTurnRequest) (resp : SubmitTurnResponse) : TurnLifecycleEvent :=
  mk_TurnLifecycleEvent (sr_event_cursor resp) (sq_scope req) (Some (sq_received_at req))
    (lifecycle_owner_user_id (sq_scope req) (Some (ta_user_id (sq_actor req))))
    (sr_run_id resp) (sr_status resp) EkSubmitted None None.

Definition child_submit_event (req : SubmitChildRunRequest) (resp : SubmitTurnResponse) :
    TurnLifecycleEvent :=
  mk_TurnLifecycleEvent (sr_event_cursor resp) (cq_child_scope req) (Some (cq_received_at req))
    (lifecycle_owner_user_id (cq_child_scope req) (Some (ta_user_id (cq_actor req))))
    (sr_run_id resp) (sr_status resp) EkSubmitted None None.

Definition resume_event (req : ResumeTurnRequest) (resp : ResumeTurnResponse) (now : TurnTimestamp) :
    TurnLifecycleEvent :=
  mk_TurnLifecycleEvent (rr_event_cursor resp) (rq_scope req) (Some now)
    (lifecycle_owner_user_id (rq_scope req) (Some (ta_user_id (rq_actor req))))
    (rr_run_id resp) (rr_status resp) EkResumed None None.

Definition cancel_event (req : CancelRunRequest) (resp : CancelRunResponse) (now : TurnTimestamp) :
    option TurnLifecycleEvent :=
  if xr_already_terminal resp then None
  else
    let kind := if bool_decide (xr_status resp = CancelRequested) then EkCancelRequested
                else EkCancelled in
    Some (mk_TurnLifecycleEvent (xr_event_cursor resp) (xq_scope req) (Some now)
            (lifecycle_owner_user_id (xq_scope req) (ta_user_id <$> xr_actor resp))
            (xr_run_id resp) (xr_status resp) kind None
            (Some (CancelReason_category (xq_reason req)))).

Definition event_kind_for_state (state : TurnRunState) : TurnEventKind :=
  match st_status state with
  | Running => EkRunnerClaimed
  | BlockedApproval | BlockedAuth | BlockedResource | BlockedDependentRun => EkBlocked
  | Completed => EkCompleted
  | Cancelled => EkCancelled
  | Failed => EkFailed
  | RecoveryRequired => EkRecoveryRequired
  | Queued | CancelRequested => EkRunnerHeartbeat
  end.

Definition sanitized_reason_for_state (state : TurnRunState) : option string :=
  match st_status state with
  | Failed | RecoveryRequired => sf_category <$> st_failure state
  | _ => None
  end.

(** ** The shared state *)

Definition task : Type := nat.
Definition gate : Type := nat.

Record lstate : Type := mk_lstate {
  ls_delivered : gset LifecycleEventKey;
  ls_deferred : gmap LifecycleEventKey TurnError;
  (** weak references; [ls_arcs] has the strong one a task owns, with the event's key *)
  ls_gates : gmap LifecycleEventKey gate;
  ls_arcs : gmap task (LifecycleEventKey * gate);
  ls_locked : gmap gate task;
  ls_next_gate : gate;
  (** the coordinator's run identifiers *)
  ls_prepared : gmap TurnRunId TurnScope;
  (** which mutexes are poisoned *)
  ls_poison_delivered : bool;
  ls_poison_deferred : bool;
  ls_poison_gates : bool;
  ls_poison_prepared : bool;
  (** history: the events the bus acknowledged, the run identifiers that were minted or
      named in a request, and whether a submission crossed a prepared scope *)
  ls_acked : list LifecycleEventKey;
  ls_seen : gset TurnRunId;
  ls_crossed : bool }.

Definition with_delivered d s := mk_lstate d (ls_deferred s) (ls_gates s) (ls_arcs s) (ls_locked s)
  (ls_next_gate s) (ls_prepared s) (ls_poison_delivered s) (ls_poison_deferred s) (ls_poison_gates s)
  (ls_poison_prepared s) (ls_acked s) (ls_seen s) (ls_crossed s).
Definition with_deferred d s := mk_lstate (ls_delivered s) d (ls_gates s) (ls_arcs s) (ls_locked s)
  (ls_next_gate s) (ls_prepared s) (ls_poison_delivered s) (ls_poison_deferred s) (ls_poison_gates s)
  (ls_poison_prepared s) (ls_acked s) (ls_seen s) (ls_crossed s).
Definition with_gates g a n s := mk_lstate (ls_delivered s) (ls_deferred s) g a (ls_locked s)
  n (ls_prepared s) (ls_poison_delivered s) (ls_poison_deferred s) (ls_poison_gates s)
  (ls_poison_prepared s) (ls_acked s) (ls_seen s) (ls_crossed s).
Definition with_locked l s := mk_lstate (ls_delivered s) (ls_deferred s) (ls_gates s) (ls_arcs s) l
  (ls_next_gate s) (ls_prepared s) (ls_poison_delivered s) (ls_poison_deferred s) (ls_poison_gates s)
  (ls_poison_prepared s) (ls_acked s) (ls_seen s) (ls_crossed s).
Definition with_prepared p seen s := mk_lstate (ls_delivered s) (ls_deferred s) (ls_gates s)
  (ls_arcs s) (ls_locked s) (ls_next_gate s) p (ls_poison_delivered s) (ls_poison_deferred s)
  (ls_poison_gates s) (ls_poison_prepared s) (ls_acked s) seen (ls_crossed s).
Definition with_acked l s := mk_lstate (ls_delivered s) (ls_deferred s) (ls_gates s) (ls_arcs s)
  (ls_locked s) (ls_next_gate s) (ls_prepared s) (ls_poison_delivered s) (ls_poison_deferred s)
  (ls_poison_gates s) (ls_poison_prepared s) l (ls_seen s) (ls_crossed s).
Definition with_crossed c s := mk_lstate (ls_delivered s) (ls_deferred s) (ls_gates s) (ls_arcs s)
  (ls_locked s) (ls_next_gate s) (ls_prepared s) (ls_poison_delivered s) (ls_poison_deferred s)
  (ls_poison_gates s) (ls_poison_prepared s) (ls_acked s) (ls_seen s) c.

Definition try_begin_publish (key : LifecycleEventKey) (s : lstate) : result bool TurnError :=
  if ls_poison_delivered s then Err (TeUnavailable "turn lifecycle event cursor mutex poisoned")
  else Ok (negb (bool_decide (key ∈ ls_delivered s))).

Definition mark_event_cursor_delivered (key : LifecycleEventKey) (s : lstate) :
    lstate * result unit TurnError :=
  if ls_poison_delivered s
  then (s, Err (TeUnavailable "turn lifecycle event cursor mutex poisoned"))
  else
    let s := with_delivered ({[key]} ∪ ls_delivered s) s in
    if ls_poison_deferred s
    then (s, Err (TeUnavailable "turn lifecycle publication error mutex poisoned"))
    else (with_deferred (delete key (ls_deferred s)) s, Ok tt).

(** [errors.insert(key, error)] of [publish_event_once_deferred]. *)
Definition defer_publication_error (key : LifecycleEventKey) (error : TurnError) (s : lstate) :
    lstate * result unit TurnError :=
  if ls_poison_deferred s
  then (s, Err (TeUnavailable "turn lifecycle publication error mutex poisoned"))
  else (with_deferred (<[key := error]> (ls_deferred s)) s, Ok tt).

Definition lifecycle_publication_error (key : LifecycleEventKey) (s : lstate) : option TurnError :=
  if ls_poison_deferred s
  then Some (TeUnavailable "turn lifecycle publication error mutex poisoned")
  else ls_deferred s !! key.

(** Somebody owns an [Arc] of the gate. *)
Definition strong (s : lstate) (g : gate) : Prop :=
  Exists (fun o => o.2.2 = g) (map_to_list (ls_arcs s)).

Definition publication_gate (me : task) (key : LifecycleEventKey) (s : lstate) :
    lstate * result gate TurnError :=
  if ls_poison_gates s
  then (s, Err (TeUnavailable "turn lifecycle publication gate mutex poisoned"))
  else
    let gates := filter (fun kg => strong s kg.2) (ls_gates s) in
    match gates !! key with
    | Some g => (with_gates gates (<[me := (key, g)]> (ls_arcs s)) (ls_next_gate s) s, Ok g)
    | None =>
        let g := ls_next_gate s in
        (with_gates (<[key := g]> gates) (<[me := (key, g)]> (ls_arcs s)) (S g) s, Ok g)
    end.

(** ** The publishing store *)

Record TurnRunWake : Type := mk_TurnRunWake {
  wk_scope : TurnScope; wk_run_id : TurnRunId; wk_status : TurnStatus; wk_event_cursor : EventCursor }.

(** The calls of the publishing store and, from [LsNotify] on, of the coordinator.  A
    call that takes or gives back a gate names the task that makes it. *)
Inductive turnsE : Type -> Type :=
| LsInner {A : Type} (c : store_call A) : turnsE (result A TurnError)
| LsNow : turnsE TurnTimestamp
| LsGate (me : task) (key : LifecycleEventKey) : turnsE (result gate TurnError)
| LsLock (me : task) (g : gate) : turnsE unit
| LsUnlock (me : task) (g : gate) : turnsE unit
| LsDropGate (me : task) : turnsE unit
| LsTryBegin (key : LifecycleEventKey) : turnsE (result bool TurnError)
| LsPublishEvent (event : TurnLifecycleEvent) : turnsE (result unit TurnError)
| LsPublishState (state : TurnRunState) (event : TurnLifecycleEvent) : turnsE (result unit TurnError)
| LsMarkDelivered (key : LifecycleEventKey) : turnsE (result unit TurnError)
| LsDeferError (key : LifecycleEventKey) (error : TurnError) : turnsE (result unit TurnError)
| LsNotify (wake : TurnRunWake) : turnsE unit
| LsPublicationError (key : LifecycleEventKey) : turnsE (option TurnError)
| CoPrepare (scope : TurnScope) : turnsE (result TurnRunId TurnError)
| CoCheckScope (run_id : TurnRunId) (allowed : list TurnScope) : turnsE (result unit TurnError)
| CoConsume (run_id : TurnRunId) : turnsE (result (option TurnScope) TurnError).

Section Publishing.
Variable me : task.

(** [let gate = publication_gate(..)?; let _publication = gate.lock().await;] before
    [body]; both are dropped at the end of the scope, the guard first. *)
Definition with_gate (key : LifecycleEventKey) (body : prog turnsE (result unit TurnError)) :
    prog turnsE (result unit TurnError) :=
  let!? gate := trigger (LsGate me key) in
  do! trigger (LsLock me gate) in
  let! r := body in
  do! trigger (LsUnlock me gate) in
  do! trigger (LsDropGate me) in
  Ret r.

Definition publish_event_once_deferred (event : TurnLifecycleEvent) :
    prog turnsE (result unit TurnError) :=
  let key := key_of_event event in
  with_gate key (
    let!? begin := trigger (LsTryBegin key) in
    if negb begin then Ret (Ok tt)
    else
      let! published := trigger (LsPublishEvent event) in
      match published with
      | Ok _ => trigger (LsMarkDelivered key)
      | Err error => trigger (LsDeferError key error)
      end).

Definition publish_state_once (state : TurnRunState) (event : TurnLifecycleEvent) :
    prog turnsE (result unit TurnError) :=
  let key := key_of_event event in
  with_gate key (
    let!? begin := trigger (LsTryBegin key) in
    if negb begin then Ret (Ok tt)
    else
      let! published := trigger (LsPublishState state event) in
      match published with
      | Ok _ => trigger (LsMarkDelivered key)
      | Err error => Ret (Err error)
      end).

(** The errors are logged. *)
Definition publish_state_once_best_effort (state : TurnRunState) (event : TurnLifecycleEvent) :
    prog turnsE unit :=
  let! _ := publish_state_once state event in Ret tt.

(** The loop of [request_cancel_tree]; the first error is kept. *)
Fixpoint publish_cancellations (responses : list (CancelRunRequest * CancelRunResponse))
    (failure : option TurnError) : prog turnsE (option TurnError) :=
  match responses with
  | [] => Ret failure
  | (req, resp) :: responses =>
      let! now := trigger LsNow in
      match cancel_event req resp now with
      | None => publish_cancellations responses failure
      | Some event =>
          let! r := publish_event_once_deferred event in
          publish_cancellations responses
            match r, failure with Err e, None => Some e | _, _ => failure end
      end
  end.

Fixpoint publish_recovered (recovered : list TurnRunState) : prog turnsE unit :=
  match recovered with
  | [] => Ret tt
  | state :: recovered =>
      let! now := trigger LsNow in
      do! publish_state_once_best_effort state
            (event_from_run_state state (event_kind_for_state state)
               (sanitized_reason_for_state state) now) in
      publish_recovered recovered
  end.

(** A transition of a runner: the call, then the publication of the state it answered. *)
Definition committed (c : store_call TurnRunState) (kind : TurnRunState -> TurnEventKind)
    (reason : TurnRunState -> option string) : prog turnsE (result TurnRunState TurnError) :=
  let!? state := trigger (LsInner c) in
  let! now := trigger LsNow in
  let!? _ := publish_state_once state (event_from_run_state state (kind state) (reason state) now) in
  Ret (Ok state).

Definition no_reason (state : TurnRunState) : option string := None.

(** The methods of the store, one per mutation ([StPutLoopCheckpoint] belongs to another
    trait, which this store does not have, and stands for a call of the inner store). *)
Definition publishing_call {A} (c : store_call A) : prog turnsE (result A TurnError) :=
  match c in store_call A return prog turnsE (result A TurnError) with
  | StSubmitTurn req =>
      let!? response := trigger (LsInner (StSubmitTurn req)) in
      let!? _ := publish_event_once_deferred (submit_event req response) in
      Ret (Ok response)
  | StSubmitChild req claimed =>
      let!? response := trigger (LsInner (StSubmitChild req claimed)) in
      let!? _ := publish_event_once_deferred (child_submit_event req response) in
      Ret (Ok response)
  | StResumeTurn req =>
      let!? response := trigger (LsInner (StResumeTurn req)) in
      let! now := trigger LsNow in
      let!? _ := publish_event_once_deferred (resume_event req response now) in
      Ret (Ok response)
  | StRequestCancel req =>
      let!? response := trigger (LsInner (StRequestCancel req)) in
      let! now := trigger LsNow in
      match cancel_event req response now with
      | None => Ret (Ok response)
      | Some event =>
          let!? _ := publish_event_once_deferred event in
          Ret (Ok response)
      end
  | StRequestCancelTree req =>
      let!? responses := trigger (LsInner (StRequestCancelTree req)) in
      let! failure := publish_cancellations responses None in
      Ret match failure with Some error => Err error | None => Ok responses end
  | StClaimNextRun req =>
      let!? claimed := trigger (LsInner (StClaimNextRun req)) in
      match claimed with
      | None => Ret (Ok None)
      | Some claimed =>
          let! now := trigger LsNow in
          do! publish_state_once_best_effort (cl_state claimed)
                (event_from_run_state (cl_state claimed) EkRunnerClaimed None now) in
          Ret (Ok (Some claimed))
      end
  | StRecoverExpiredLeases req_now filter =>
      let!? recovered := trigger (LsInner (StRecoverExpiredLeases req_now filter)) in
      do! publish_recovered recovered in
      Ret (Ok recovered)
  | StBlockNativeAuth req => committed (StBlockNativeAuth req) (fun _ => EkBlocked) no_reason
  | StBlockRun req checkpoint_id state_ref reason =>
      committed (StBlockRun req checkpoint_id state_ref reason) (fun _ => EkBlocked) no_reason
  | StCompleteRun req => committed (StCompleteRun req) (fun _ => EkCompleted) no_reason
  | StCancelRun req => committed (StCancelRun req) (fun _ => EkCancelled) no_reason
  | StFailRun req failure =>
      committed (StFailRun req failure) (fun _ => EkFailed) sanitized_reason_for_state
  | StRecordRunnerFailure req failure =>
      committed (StRecordRunnerFailure req failure) event_kind_for_state sanitized_reason_for_state
  | StRelinquishRun req =>
      committed (StRelinquishRun req) event_kind_for_state sanitized_reason_for_state
  | StApplyLoopExit req mapping =>
      committed (StApplyLoopExit req mapping) event_kind_for_state sanitized_reason_for_state
  | c => trigger (LsInner c)
  end.

End Publishing.

(** ** The bus reaches everyone *)

Definition first_error (xs : list (result unit TurnError)) : option TurnError :=
  head (omap (fun x => match x with Err e => Some e | Ok _ => None end) xs).

Lemma fanout_traces sinks event t r :
  traces (fanout_best_effort sinks event) t r ->
  exists ys, length ys = length sinks /\
    t = zip_with (fun k y => Ev (SinkPublish k event) y) sinks ys.
Proof.
  revert t. induction sinks as [|k sinks IH]; intros t; simpl.
  - intros [-> _]. by exists [].
  - intros (y & t' & -> & (ys & Hl & ->)%IH). exists (y :: ys). simpl. by rewrite Hl.
Qed.

Lemma notify_traces observers observes call first t r :
  traces (notify_required observers observes call first) t r ->
  exists xs, length xs = length (List.filter observes observers) /\
    t = zip_with (fun o x => Ev (call o) x) (List.filter observes observers) xs /\
    r = match first with Some e => Some e | None => first_error xs end.
Proof.
  revert first t. induction observers as [|o observers IH]; intros first t; simpl.
  - intros [-> ->]. exists []. split_and!; [done..|]. by destruct first.
  - destruct (observes o); simpl.
    + intros (x & t' & -> & (xs & Hl & -> & ->)%IH). exists (x :: xs). simpl. rewrite Hl.
      split_and!; [done..|]. by destruct x, first.
    + apply IH.
Qed.

(** Publishing to [DefaultTurnLifecycleEventBus] calls every required observer that
    is interested, once and in the order of subscription, and then every best-effort
    sink, once and in order, whatever the ones before answered; the result is the error
    of the first observer that failed, and the answers of the sinks do not matter. *)
Theorem bus_reaches_everyone b observes call event t r :
  traces (publish_with b observes call event) t r ->
  exists xs ys,
    length xs = length (List.filter observes (sb_required b)) /\
    length ys = length (sb_best_effort b) /\
    t = zip_with (fun o x => Ev (call o) x) (List.filter observes (sb_required b)) xs ++
        zip_with (fun k y => Ev (SinkPublish k event) y) (sb_best_effort b) ys /\
    r = match first_error xs with Some e => Err e | None => Ok tt end.
Proof.
  intros (t1 & t2 & first & -> & (xs & Hx & -> & ->)%notify_traces & H)%traces_bind.
  apply traces_bind in H as (t3 & t4 & u & -> & (ys & Hy & ->)%fanout_traces & [-> ->]).
  exists xs, ys. by rewrite app_nil_r.
Qed.
