(* ===== verification/TurnCoordinator.v ===== *)
(** * The turn coordinator

    [coordinator.rs] of [brassclaw_turns]: [DefaultTurnCoordinator] over the publishing
    store of [TurnLifecycle].  It keeps the run identifiers it handed out with the scope
    they were prepared under, submits, resumes and cancels through the store, wakes the
    workers, and turns a publication that failed into the error of the call.

    The admission policy and the profile resolver are arguments of the store call; the
    wake notifier's errors and panics are logged, so that its call has no answer.  Minted
    run identifiers are new.

    The theorems hold for any number of tasks that run the coordinator's methods and the
    runners' transitions concurrently over one publishing store: the observers
    acknowledge no event twice, a success means that they acknowledged the event of the
    call, and no prepared identifier is submitted outside its scope. *)

From S2P Require Import Prelude Effects External HostIds HostTypes Dispatch RunProfile TurnTypes TurnStore.
From S2P Require Import TurnFilesystem TurnLifecycle.

Open Scope Z_scope.

(** ** Prepared identifiers *)

Definition prepared_unavailable : TurnError := TeUnavailable "prepared run identity state unavailable".

(** [memory] says whether [try_reserve] finds room. *)
Definition record_prepared_run_id (run_id : TurnRunId) (scope : TurnScope) (memory : bool)
    (s : lstate) : lstate * result unit TurnError :=
  if ls_poison_prepared s then (s, Err prepared_unavailable)
  else if bool_decide (is_Some (ls_prepared s !! run_id))
  then (s, Err (TeUnavailable "prepared run identity collision"))
  else if negb memory
  then (s, Err (TeUnavailable "prepared run identity capacity unavailable"))
  else (with_prepared (<[run_id := scope]> (ls_prepared s)) ({[run_id]} ∪ ls_seen s) s, Ok tt).

Definition check_prepared_run_scope (run_id : TurnRunId) (allowed : list TurnScope) (s : lstate) :
    result unit TurnError :=
  if ls_poison_prepared s then Err prepared_unavailable
  else match ls_prepared s !! run_id with
       | Some origin => if bool_decide (origin ∈ allowed) then Ok tt else Err TeUnauthorized
       | None => Ok tt
       end.

(** Replacing the empty map by a new one changes nothing here. *)
Definition consume_prepared_run_id (run_id : TurnRunId) (s : lstate) :
    lstate * result (option TurnScope) TurnError :=
  if ls_poison_prepared s then (s, Err prepared_unavailable)
  else (with_prepared (delete run_id (ls_prepared s)) (ls_seen s) s, Ok (ls_prepared s !! run_id)).

(** ** Wakes *)

Definition submit_wake (scope : TurnScope) (resp : SubmitTurnResponse) : TurnRunWake :=
  mk_TurnRunWake scope (sr_run_id resp) (sr_status resp) (sr_event_cursor resp).
Definition resume_wake (scope : TurnScope) (resp : ResumeTurnResponse) : TurnRunWake :=
  mk_TurnRunWake scope (rr_run_id resp) (rr_status resp) (rr_event_cursor resp).
Definition cancel_wake (scope : TurnScope) (resp : CancelRunResponse) : TurnRunWake :=
  mk_TurnRunWake scope (xr_run_id resp) (xr_status resp) (xr_event_cursor resp).

Definition key_of_wake (w : TurnRunWake) : LifecycleEventKey :=
  mk_LifecycleEventKey (wk_scope w) (wk_run_id w) (wk_event_cursor w).

Definition deferred_publication_error (wake : TurnRunWake) : prog turnsE (result unit TurnError) :=
  let! error := trigger (LsPublicationError (key_of_wake wake)) in
  Ret match error with Some error => Err error | None => Ok tt end.

(** ** The methods *)

Section Coordinator.
Variable me : task.

Definition prepare_turn (scope : TurnScope) : prog turnsE (result TurnRunId TurnError) :=
  trigger (CoPrepare scope).

Definition abort_prepared_turn (run_id : TurnRunId) : prog turnsE (result unit TurnError) :=
  let!? _ := trigger (CoConsume run_id) in Ret (Ok tt).

(** What follows an accepted submission. *)
Definition after_submit (scope : TurnScope) (prepared_id : option TurnRunId)
    (response : SubmitTurnResponse) : prog turnsE (result SubmitTurnResponse TurnError) :=
  let wake := submit_wake scope response in
  do! trigger (LsNotify wake) in
  let!? _ := match prepared_id with
             | Some id => let!? _ := trigger (CoConsume id) in Ret (Ok tt)
             | None => Ret (Ok tt)
             end in
  let!? _ := deferred_publication_error wake in
  Ret (Ok response).

Definition co_submit_turn (req : SubmitTurnRequest) : prog turnsE (result SubmitTurnResponse TurnError) :=
  let!? _ := match sq_requested_run_id req, sq_parent_run_id req with
             | Some requested, None => trigger (CoCheckScope requested [sq_scope req])
             | _, _ => Ret (Ok tt)
             end in
  let!? response := publishing_call me (StSubmitTurn req) in
  after_submit (sq_scope req) (sq_requested_run_id req) response.

(** [submit_child_run] and, with the parent's claim, [submit_claimed_child_run]. *)
Definition co_submit_child_run (req : SubmitChildRunRequest) (claimed : option ClaimedTurnRun) :
    prog turnsE (result SubmitTurnResponse TurnError) :=
  let!? _ := match cq_requested_run_id req with
             | Some requested =>
                 trigger (CoCheckScope requested [cq_parent_scope req; cq_child_scope req])
             | None => Ret (Ok tt)
             end in
  let!? response := publishing_call me (StSubmitChild req claimed) in
  after_submit (cq_child_scope req) (cq_requested_run_id req) response.

Definition co_resume_turn (req : ResumeTurnRequest) : prog turnsE (result ResumeTurnResponse TurnError) :=
  let!? response := publishing_call me (StResumeTurn req) in
  let wake := resume_wake (rq_scope req) response in
  do! (if bool_decide (rr_status response = Queued) then trigger (LsNotify wake) else Ret tt) in
  let!? _ := deferred_publication_error wake in
  Ret (Ok response).

(** A cancellation wakes on [CancelRequested] and on any terminal status. *)
Definition cancel_wakes (resp : CancelRunResponse) : bool :=
  bool_decide (xr_status resp = CancelRequested) || is_terminal (xr_status resp).

Definition after_cancel (req : CancelRunRequest) (response : CancelRunResponse) :
    prog turnsE (result unit TurnError) :=
  let wake := cancel_wake (xq_scope req) response in
  do! (if cancel_wakes response then trigger (LsNotify wake) else Ret tt) in
  if negb (xr_already_terminal response) then deferred_publication_error wake else Ret (Ok tt).

Definition co_cancel_run (req : CancelRunRequest) : prog turnsE (result CancelRunResponse TurnError) :=
  let!? response := publishing_call me (StRequestCancel req) in
  let!? _ := after_cancel req response in
  Ret (Ok response).

Fixpoint after_cancellations (responses : list (CancelRunRequest * CancelRunResponse))
    (failure : option TurnError) : prog turnsE (option TurnError) :=
  match responses with
  | [] => Ret failure
  | (req, response) :: responses =>
      let! r := after_cancel req response in
      after_cancellations responses match r, failure with Err e, None => Some e | _, _ => failure end
  end.

Definition co_cancel_tree (req : CancelRunRequest) :
    prog turnsE (result (list (CancelRunRequest * CancelRunResponse)) TurnError) :=
  let!? responses := publishing_call me (StRequestCancelTree req) in
  let! failure := after_cancellations responses None in
  Ret match failure with Some error => Err error | None => Ok responses end.

End Coordinator.

(** ** What a call may do *)

(** A submission under a prepared identifier outside its scope. *)
Definition outside (s : lstate) (requested : option TurnRunId) (allowed : list TurnScope) : bool :=
  match requested ≫= (fun id => ls_prepared s !! id) with
  | Some origin => negb (bool_decide (origin ∈ allowed))
  | None => false
  end.
Definition crosses {A} (c : store_call A) (s : lstate) : bool :=
  match c with
  | StSubmitTurn req =>
      match sq_parent_run_id req with
      | None => outside s (sq_requested_run_id req) [sq_scope req]
      | Some _ => false
      end
  | StSubmitChild req _ =>
      outside s (cq_requested_run_id req) [cq_parent_scope req; cq_child_scope req]
  | _ => false
  end.

Definition acknowledge (key : LifecycleEventKey) (x : result unit TurnError) (s : lstate) : lstate :=
  match x with Ok _ => with_acked (ls_acked s ++ [key]) s | Err _ => s end.

Definition turns_handle X (e : turnsE X) (s s' : lstate) : X -> Prop :=
  match e in turnsE X return X -> Prop with
  | LsInner c => fun _ => s' = with_crossed (ls_crossed s || crosses c s) s
  | LsNow => fun _ => s' = s
  | LsGate me key => fun x => publication_gate me key s = (s', x)
  | LsLock me g => fun _ => ls_locked s !! g = None /\ s' = with_locked (<[g := me]> (ls_locked s)) s
  | LsUnlock me g => fun _ => s' = with_locked (delete g (ls_locked s)) s
  | LsDropGate me => fun _ => s' = with_gates (ls_gates s) (delete me (ls_arcs s)) (ls_next_gate s) s
  | LsTryBegin key => fun x => s' = s /\ x = try_begin_publish key s
  | LsPublishEvent event => fun x => s' = acknowledge (key_of_event event) x s
  | LsPublishState _ event => fun x => s' = acknowledge (key_of_event event) x s
  | LsMarkDelivered key => fun x => mark_event_cursor_delivered key s = (s', x)
  | LsDeferError key error => fun x => defer_publication_error key error s = (s', x)
  | LsNotify _ => fun _ => s' = s
  | LsPublicationError key => fun x => s' = s /\ x = lifecycle_publication_error key s
  | CoPrepare scope => fun x =>
      exists run_id memory, (run_id ∉ ls_seen s) /\
        exists r, record_prepared_run_id run_id scope memory s = (s', r) /\
          x = (let? _ := r in Ok run_id)
  | CoCheckScope run_id allowed => fun x =>
      s' = with_prepared (ls_prepared s) ({[run_id]} ∪ ls_seen s) s /\
      x = check_prepared_run_scope run_id allowed s
  | CoConsume run_id => fun x => consume_prepared_run_id run_id s = (s', x)
  end.

(** The event is acknowledged, or the coordinator will find an error. *)
Definition tracked (k : LifecycleEventKey) (s : lstate) : Prop :=
  k ∈ ls_delivered s \/ is_Some (ls_deferred s !! k).

Definition poisons (s : lstate) : bool * bool * bool * bool :=
  (ls_poison_delivered s, ls_poison_deferred s, ls_poison_gates s, ls_poison_prepared s).

Record Inv (s : lstate) : Prop := {
  inv_gate_inj k1 k2 g : ls_gates s !! k1 = Some g -> ls_gates s !! k2 = Some g -> k1 = k2;
  inv_gate_old k g : ls_gates s !! k = Some g -> (g < ls_next_gate s)%nat;
  inv_arcs a k g : ls_arcs s !! a = Some (k, g) -> ls_gates s !! k = Some g;
  inv_locked g a : ls_locked s !! g = Some a -> exists k, ls_arcs s !! a = Some (k, g);
  inv_nodup : NoDup (ls_acked s);
  inv_acked k : k ∈ ls_acked s ->
    k ∈ ls_delivered s \/ exists g a, ls_locked s !! g = Some a /\ ls_arcs s !! a = Some (k, g);
  inv_delivered k : k ∈ ls_delivered s -> k ∈ ls_acked s;
  inv_seen id : is_Some (ls_prepared s !! id) -> id ∈ ls_seen s;
  inv_crossed : ls_crossed s = false }.

(** What the steps of others leave to the task [a]. *)
Record quiet (a : task) (s s' : lstate) : Prop := {
  q_arcs : ls_arcs s' !! a = ls_arcs s !! a;
  q_locked g : ls_locked s' !! g = Some a <-> ls_locked s !! g = Some a;
  q_key k g : ls_arcs s !! a = Some (k, g) -> ls_locked s !! g = Some a ->
    (k ∈ ls_delivered s' <-> k ∈ ls_delivered s) /\ (k ∈ ls_acked s' <-> k ∈ ls_acked s);
  q_acked k : k ∈ ls_acked s -> k ∈ ls_acked s';
  q_tracked k : tracked k s -> tracked k s';
  q_seen id : id ∈ ls_seen s -> id ∈ ls_seen s';
  q_prepared id : id ∈ ls_seen s ->
    ls_prepared s' !! id = ls_prepared s !! id \/ ls_prepared s' !! id = None;
  q_poison : poisons s' = poisons s }.

Lemma quiet_refl a s : quiet a s s.
Proof. split; auto; done. Qed.

Lemma quiet_trans a s1 s2 s3 : quiet a s1 s2 -> quiet a s2 s3 -> quiet a s1 s3.
Proof.
  intros H1 H2. split.
  - by rewrite (q_arcs _ _ _ H2), (q_arcs _ _ _ H1).
  - intros g. by rewrite (q_locked _ _ _ H2), (q_locked _ _ _ H1).
  - intros k g Ha Hl. destruct (q_key _ _ _ H1 k g Ha Hl) as [Hd1 Hk1].
    rewrite <- Hd1, <- Hk1. apply (q_key _ _ _ H2 k g).
    + by rewrite (q_arcs _ _ _ H1).
    + by apply (q_locked _ _ _ H1).
  - intros k Hk. by apply (q_acked _ _ _ H2), (q_acked _ _ _ H1).
  - intros k Hk. by apply (q_tracked _ _ _ H2), (q_tracked _ _ _ H1).
  - intros id Hid. by apply (q_seen _ _ _ H2), (q_seen _ _ _ H1).
  - intros id Hid. destruct (q_prepared _ _ _ H2 id) as [->| ->]; [by apply (q_seen _ _ _ H1)| |by right].
    by apply (q_prepared _ _ _ H1).
  - by rewrite (q_poison _ _ _ H2), (q_poison _ _ _ H1).
Qed.

(** Labels are the tasks. *)
Definition turns_rely (a : task) (s s' : lstate) : Prop := Inv s -> Inv s' /\ quiet a s s'.
Definition turns_guar (a : task) (s s' : lstate) : Prop :=
  Inv s -> Inv s' /\ forall b, b <> a -> quiet b s s'.

Lemma turns_guar_same a s : turns_guar a s s.
Proof. intros HI. split; [done|]. intros b _. apply quiet_refl. Qed.

(** ** Each call keeps the invariant and the others' knowledge *)

Lemma strong_owned s a k g : ls_arcs s !! a = Some (k, g) -> strong s g.
Proof.
  intros Ha. unfold strong. apply Exists_exists. exists (a, (k, g)). split; [|done].
  by apply elem_of_map_to_list.
Qed.

Lemma strong_gates s k g :
  filter (fun kg : LifecycleEventKey * gate => strong s kg.2) (ls_gates s) !! k = Some g ->
  ls_gates s !! k = Some g.
Proof. by intros [? _]%map_lookup_filter_Some. Qed.

(** Two owners of gates for one event own the same gate. *)
Lemma one_gate s a b k g g' :
  Inv s -> ls_arcs s !! a = Some (k, g) -> ls_arcs s !! b = Some (k, g') -> g = g'.
Proof. intros HI Ha%(inv_arcs s HI) Hb%(inv_arcs s HI). congruence. Qed.

(** The holder of a gate holds it for the event of its own [Arc]. *)
Lemma one_holder s a b k g g' :
  Inv s -> ls_arcs s !! a = Some (k, g) -> ls_locked s !! g = Some a ->
  ls_arcs s !! b = Some (k, g') -> ls_locked s !! g' = Some b -> a = b.
Proof.
  intros HI Ha Hla Hb Hlb. assert (g = g') as <- by by eapply one_gate. congruence.
Qed.

Lemma guar_gate a key s s' x :
  ls_arcs s !! a = None -> publication_gate a key s = (s', x) ->
  turns_guar a s s' /\
  (Inv s -> forall g, x = Ok g -> ls_arcs s' !! a = Some (key, g)).
Proof.
  intros Ha. unfold publication_gate. destruct (ls_poison_gates s).
  { intros [= <- <-]. split; [apply turns_guar_same | done]. }
  set (gates := filter _ (ls_gates s)).
  assert (forall gs g n, (forall k g, gates !! k = Some g -> gs !! k = Some g) ->
            gs !! key = Some g -> (ls_next_gate s <= n)%nat ->
            (forall k1 k2 g, gs !! k1 = Some g -> gs !! k2 = Some g -> k1 = k2) ->
            (forall k g, gs !! k = Some g -> (g < n)%nat) ->
            turns_guar a s (with_gates gs (<[a := (key, g)]> (ls_arcs s)) n s)) as Hgen.
  { intros gs g n Hgs Hkey Hn Hinj Hold HI. split.
    - split; simpl; try apply HI; [done|done| | |].
      + intros b k g'. same_or_other b a; [by intros [= <- <-]|]. intros Hb.
        apply Hgs. unfold gates. apply map_lookup_filter_Some.
        split; [by apply (inv_arcs s HI b) | by apply (strong_owned s b k)].
      + intros g' b Hl. destruct (inv_locked s HI g' b Hl) as [k Hk]. exists k.
        rewrite lookup_insert_ne; [done|]. intros <-. congruence.
      + intros k Hk. destruct (inv_acked s HI k Hk) as [?|(g' & b & Hl & Hb)]; [by left|right].
        exists g', b. split; [done|]. rewrite lookup_insert_ne; [done|]. intros <-. congruence.
    - intros b Hb. split; simpl; auto; try done; by rewrite lookup_insert_ne. }
  destruct (gates !! key) as [g|] eqn:Eg; intros [= <- <-].
  - split; [|intros _ g' [= <-]; simpl; by look]. intros HI. apply Hgen; [done|done|lia| | |done].
    + intros k1 k2 g' H1%strong_gates H2%strong_gates. by apply (inv_gate_inj s HI k1 k2 g').
    + intros k g' Hk%strong_gates. by apply (inv_gate_old s HI k).
  - split; [|intros _ g' [= <-]; simpl; by look]. intros HI.
    assert (forall k g, gates !! k = Some g -> (g < ls_next_gate s)%nat) as Hlt.
    { intros k g Hk%strong_gates. by apply (inv_gate_old s HI k). }
    apply Hgen; [| |lia| | |done].
    + intros k g Hk. rewrite lookup_insert_ne; [done|]. intros <-. congruence.
    + by look.
    + intros k1 k2 g. rewrite !lookup_insert_Some. intros [[<- <-]|[_ H1]] [[<- ?]|[_ H2]]; try done.
      * apply Hlt in H2. lia.
      * apply Hlt in H1. lia.
      * apply strong_gates in H1, H2. by apply (inv_gate_inj s HI k1 k2 g).
    + intros k g. rewrite lookup_insert_Some. intros [[_ <-]|[_ Hk%Hlt]]; lia.
Qed.

Lemma guar_lock a k g s :
  ls_arcs s !! a = Some (k, g) -> ls_locked s !! g = None ->
  turns_guar a s (with_locked (<[g := a]> (ls_locked s)) s).
Proof.
  intros Ha Hl HI. split.
  - split; simpl; try apply HI.
    + intros g' b. same_or_other g' g; [|apply (inv_locked s HI)]. intros [= <-]. by exists k.
    + intros k' Hk. destruct (inv_acked s HI k' Hk) as [?|(g' & b & Hlb & Hb)]; [by left|right].
      exists g', b. split; [|done]. rewrite lookup_insert_ne; [done|]. intros <-. congruence.
  - intros b Hb. split; simpl; auto; try done. intros g'. same_or_other g' g; [|done]. split.
    + intros [= <-]. done.
    + congruence.
Qed.

(** What the owner of a gate knows while it holds it. *)
Definition holds (a : task) (k : LifecycleEventKey) (g : gate) (s : lstate) : Prop :=
  ls_arcs s !! a = Some (k, g) /\ ls_locked s !! g = Some a /\
  (k ∈ ls_acked s -> k ∈ ls_delivered s).

Lemma lock_holds a k g s :
  Inv s -> ls_arcs s !! a = Some (k, g) -> ls_locked s !! g = None ->
  holds a k g (with_locked (<[g := a]> (ls_locked s)) s).
Proof.
  intros HI Ha Hl. split_and!; simpl; [done|by look|]. intros Hk.
  destruct (inv_acked s HI k Hk) as [?|(g' & b & Hlb & Hb)]; [done|].
  assert (g = g') as <- by by eapply one_gate. congruence.
Qed.

Lemma guar_unlock a k g s :
  holds a k g s -> turns_guar a s (with_locked (delete g (ls_locked s)) s).
Proof.
  intros (Ha & Hl & Hk) HI. split.
  - split; simpl; try apply HI.
    + intros g' b [_ Hb]%lookup_delete_Some. by apply (inv_locked s HI).
    + intros k' Hk'. destruct (inv_acked s HI k' Hk') as [?|(g' & b & Hlb & Hb)]; [by left|].
      destruct (decide (g' = g)) as [->|Hne].
      * assert (b = a) as -> by congruence. assert (k' = k) as -> by congruence. left. auto.
      * right. exists g', b. by rewrite lookup_delete_ne.
  - intros b Hb. split; simpl; auto; try done. intros g'. rewrite lookup_delete_Some.
    split; [by intros [_ ?]|]. intros Hg. split; [|done]. intros <-. congruence.
Qed.

Lemma guar_drop a k g s :
  ls_arcs s !! a = Some (k, g) -> (forall g, ls_locked s !! g <> Some a) ->
  turns_guar a s (with_gates (ls_gates s) (delete a (ls_arcs s)) (ls_next_gate s) s).
Proof.
  intros Ha Hl HI. split.
  - split; simpl; try apply HI.
    + intros b k' g' [_ Hb]%lookup_delete_Some. by apply (inv_arcs s HI b).
    + intros g' b Hlb. destruct (inv_locked s HI g' b Hlb) as [k' Hk']. exists k'.
      rewrite lookup_delete_ne; [done|]. intros <-. by apply Hl in Hlb.
    + intros k' Hk'. destruct (inv_acked s HI k' Hk') as [?|(g' & b & Hlb & Hb)]; [by left|right].
      exists g', b. split; [done|]. rewrite lookup_delete_ne; [done|]. intros <-. by apply Hl in Hlb.
  - intros b Hb. split; simpl; auto; try done. by rewrite lookup_delete_ne.
Qed.

(** The holder of the gate may have the event acknowledged once. *)
Lemma guar_publish a k g s x :
  holds a k g s -> k ∉ ls_delivered s -> turns_guar a s (acknowledge k x s).
Proof.
  intros (Ha & Hl & Hk) Hd. destruct x as [[]|e]; [|apply turns_guar_same]. intros HI.
  assert (k ∉ ls_acked s) as Hn by auto. split.
  - split; simpl; try apply HI.
    + apply NoDup_app. split; [apply HI|]. split; [|apply NoDup_singleton].
      intros k' Hk' ->%list_elem_of_singleton. done.
    + intros k' [Hk'| ->%list_elem_of_singleton]%elem_of_app; [by apply (inv_acked s HI)|].
      right. by exists g, a.
    + intros k' Hk'. apply elem_of_app. left. by apply (inv_delivered s HI).
  - intros b Hb. split; simpl; auto; try done.
    + intros k' g' Hkb Hlb. split; [done|]. rewrite elem_of_app. split; [|by left].
      intros [?| ->%list_elem_of_singleton]; [done|]. destruct Hb. symmetry. by eapply one_holder.
    + intros k' Hk'. apply elem_of_app. by left.
Qed.

Lemma guar_mark a k g s s' x :
  ls_arcs s !! a = Some (k, g) -> ls_locked s !! g = Some a -> k ∈ ls_acked s ->
  mark_event_cursor_delivered k s = (s', x) -> turns_guar a s s'.
Proof.
  intros Ha Hl Hk. unfold mark_event_cursor_delivered.
  destruct (ls_poison_delivered s); [intros [= <- _]; apply turns_guar_same|].
  assert (forall m, (forall k', k' <> k -> m !! k' = ls_deferred s !! k') ->
            turns_guar a s (with_deferred m (with_delivered ({[k]} ∪ ls_delivered s) s))) as Hgen.
  { intros m Hm HI. split.
    - split; simpl; try apply HI.
      + intros k' Hk'. destruct (inv_acked s HI k' Hk') as [?|?]; [left; set_solver|by right].
      + intros k' [->%elem_of_singleton|Hk']%elem_of_union; [done|]. by apply (inv_delivered s HI).
    - intros b Hb. split; simpl; auto; try done.
      + intros k' g' Hkb Hlb. split; [|done]. rewrite elem_of_union, elem_of_singleton.
        split; [|by right]. intros [->|?]; [|done]. destruct Hb. symmetry. by eapply one_holder.
      + intros k' [Hk'|Hk']; unfold tracked; simpl; [left; set_solver|].
        destruct (decide (k' = k)) as [->|Hne]; [left; set_solver|right]. by rewrite Hm. }
  destruct (ls_poison_deferred _); intros [= <- _].
  - by apply (Hgen (ls_deferred s)).
  - apply (Hgen (delete k (ls_deferred s))). intros k' Hne. by rewrite lookup_delete_ne.
Qed.

Lemma guar_defer a k e s s' x : defer_publication_error k e s = (s', x) -> turns_guar a s s'.
Proof.
  unfold defer_publication_error. destruct (ls_poison_deferred s); intros [= <- _]; [apply turns_guar_same|].
  intros HI. split; [by split; simpl; apply HI|]. intros b Hb. split; simpl; auto; try done.
  intros k' [Hk'|Hk']; [by left|right]. simpl. same_or_other k' k; [by eexists|done].
Qed.

Lemma guar_prepared a p seen s :
  (forall id, id ∈ ls_seen s -> id ∈ seen) -> (forall id, is_Some (p !! id) -> id ∈ seen) ->
  (forall id, id ∈ ls_seen s -> p !! id = ls_prepared s !! id \/ p !! id = None) ->
  turns_guar a s (with_prepared p seen s).
Proof.
  intros Hs Hp Hk HI. split; [by split; simpl; try apply HI|]. intros b Hb. by split; simpl; auto.
Qed.

Lemma guar_prepare a run_id scope memory s s' r :
  run_id ∉ ls_seen s -> record_prepared_run_id run_id scope memory s = (s', r) -> turns_guar a s s'.
Proof.
  intros Hn. unfold record_prepared_run_id. destruct (ls_poison_prepared s); [intros [= <- _]; apply turns_guar_same|].
  case_bool_decide; [intros [= <- _]; apply turns_guar_same|].
  destruct memory; simpl; intros [= <- _]; [|apply turns_guar_same]. intros HI.
  apply guar_prepared; [set_solver| | |done].
  - intros id. same_or_other id run_id; [set_solver|]. intros Hid%(inv_seen s HI). set_solver.
  - intros id Hid. left. rewrite lookup_insert_ne; [done|]. by intros <-.
Qed.

Lemma guar_check a run_id s :
  turns_guar a s (with_prepared (ls_prepared s) ({[run_id]} ∪ ls_seen s) s).
Proof.
  intros HI. apply guar_prepared; [set_solver| |by left|done].
  intros id Hid%(inv_seen s HI). set_solver.
Qed.

Lemma guar_consume a run_id s s' r : consume_prepared_run_id run_id s = (s', r) -> turns_guar a s s'.
Proof.
  unfold consume_prepared_run_id. destruct (ls_poison_prepared s); intros [= <- _]; [apply turns_guar_same|].
  intros HI. apply guar_prepared; [done| | |done].
  - intros id [sc [_ Hid]%lookup_delete_Some]. by apply (inv_seen s HI).
  - intros id _. destruct (decide (id = run_id)) as [->|Hne]; [right|left].
    + apply lookup_delete_eq.
    + by apply lookup_delete_ne.
Qed.

Lemma guar_inner a {A} (c : store_call A) s :
  crosses c s = false -> turns_guar a s (with_crossed (ls_crossed s || crosses c s) s).
Proof.
  intros Hc HI. rewrite Hc, orb_false_r. split; [by split; simpl; try apply HI|].
  intros b Hb. by split; simpl; auto.
Qed.

(** *** What every step keeps *)

Record lgrows (s s' : lstate) : Prop := {
  g_acked k : k ∈ ls_acked s -> k ∈ ls_acked s';
  g_tracked k : tracked k s -> tracked k s';
  g_seen id : id ∈ ls_seen s -> id ∈ ls_seen s';
  g_prepared id : id ∈ ls_seen s ->
    ls_prepared s' !! id = ls_prepared s !! id \/ ls_prepared s' !! id = None;
  g_poison : poisons s' = poisons s }.

Lemma lgrows_refl s : lgrows s s.
Proof. split; auto. Qed.

Lemma lgrows_trans s1 s2 s3 : lgrows s1 s2 -> lgrows s2 s3 -> lgrows s1 s3.
Proof.
  intros [A1 T1 S1 P1 Q1] [A2 T2 S2 P2 Q2]. split; auto; [|congruence].
  intros id Hid. destruct (P2 id (S1 id Hid)) as [->| ->]; auto.
Qed.

Lemma quiet_lgrows a s s' : quiet a s s' -> lgrows s s'.
Proof. by intros []. Qed.

Lemma handle_grows X (e : turnsE X) s s' x : turns_handle X e s s' x -> lgrows s s'.
Proof.
  destruct e; simpl.
  - intros ->. by split; simpl; auto.
  - intros ->. apply lgrows_refl.
  - unfold publication_gate. destruct (ls_poison_gates s); [intros [= <- _]; apply lgrows_refl|].
    destruct (filter _ _ !! key); intros [= <- _]; by split; simpl; auto.
  - intros [_ ->]. by split; simpl; auto.
  - intros ->. by split; simpl; auto.
  - intros ->. by split; simpl; auto.
  - intros [-> _]. apply lgrows_refl.
  - intros ->. destruct x; [|apply lgrows_refl]. split; simpl; auto. intros k Hk. apply elem_of_app. by left.
  - intros ->. destruct x; [|apply lgrows_refl]. split; simpl; auto. intros k Hk. apply elem_of_app. by left.
  - unfold mark_event_cursor_delivered. destruct (ls_poison_delivered s) eqn:E1; [intros [= <- _]; apply lgrows_refl|].
    destruct (ls_poison_deferred _) eqn:E2; intros [= <- _]; split; simpl; auto; unfold tracked; simpl.
    + intros k [?|?]; [left; set_solver|by right].
    + intros k [?|?]; [left; set_solver|]. destruct (decide (k = key)) as [->|]; [left; set_solver|].
      right. by rewrite lookup_delete_ne.
  - unfold defer_publication_error. destruct (ls_poison_deferred s) eqn:E; intros [= <- _]; [apply lgrows_refl|].
    split; simpl; auto. intros k [?|?]; [by left|right]. simpl. same_or_other k key; [by eexists|done].
  - intros ->. apply lgrows_refl.
  - intros [-> _]. apply lgrows_refl.
  - intros (run_id & memory & Hn & r & Hr & _). revert Hr. unfold record_prepared_run_id.
    repeat case_match; intros [= <- _]; try apply lgrows_refl. split; simpl; auto; [set_solver|].
    intros id Hid. left. rewrite lookup_insert_ne; [done|]. by intros <-.
  - intros [-> _]. split; simpl; auto. set_solver.
  - unfold consume_prepared_run_id. destruct (ls_poison_prepared s); intros [= <- _]; [apply lgrows_refl|].
    split; simpl; auto. intros id Hid. destruct (decide (id = run_id)) as [->|Hne]; [right|left].
    + apply lookup_delete_eq.
    + by apply lookup_delete_ne.
Qed.

(** ** The programs *)

Abbreviation rgt := (rg turns_handle turns_rely turns_guar).

Lemma rg_call a {X R} (e : turnsE X) (k : X -> prog turnsE R) Q s :
  Inv s ->
  (forall s1 s2 x, Inv s1 -> quiet a s s1 -> turns_handle X e s1 s2 x ->
     turns_guar a s1 s2 /\ (Inv s2 -> lgrows s s2 -> rgt a (k x) Q s2)) ->
  rgt a (Call e k) Q s.
Proof.
  intros HI H s1 s2 x Hr Hh. destruct (Hr HI) as [HI1 Hq].
  destruct (H s1 s2 x HI1 Hq Hh) as [Hg Hk]. split; [done|]. apply Hk; [by apply Hg|].
  apply lgrows_trans with s1; [by eapply quiet_lgrows | by eapply handle_grows].
Qed.

(** A task that owns no gate. *)
Definition idle (a : task) (s : lstate) : Prop := ls_arcs s !! a = None.

Lemma idle_quiet a s s' : quiet a s s' -> idle a s -> idle a s'.
Proof. intros Hq Hi. unfold idle. by rewrite (q_arcs _ _ _ Hq). Qed.

Lemma holds_quiet a k g s s' : quiet a s s' -> holds a k g s -> holds a k g s'.
Proof.
  intros Hq (Ha & Hl & Hk). destruct (q_key _ _ _ Hq k g Ha Hl) as [Hd Hac].
  split_and!; [by rewrite (q_arcs _ _ _ Hq) | by apply (q_locked _ _ _ Hq)|]. rewrite Hac, Hd. done.
Qed.

(** What a publication leaves behind: the event is acknowledged ([strict]), or it is
    acknowledged or has a deferred error. *)
Definition published (strict : bool) (k : LifecycleEventKey) (s : lstate) : Prop :=
  if strict then k ∈ ls_acked s else tracked k s.

Lemma published_grows strict k s s' : lgrows s s' -> published strict k s -> published strict k s'.
Proof. intros Hg. destruct strict; [apply (g_acked _ _ Hg) | apply (g_tracked _ _ Hg)]. Qed.

Definition after_publish (a : task) (strict : bool) (k : LifecycleEventKey) (s0 : lstate)
    (r : result unit TurnError) (s : lstate) : Prop :=
  Inv s /\ lgrows s0 s /\ idle a s /\ (r = Ok tt -> published strict k s).

Lemma rg_with_gate a strict key body s :
  Inv s -> idle a s ->
  (forall g s1, Inv s1 -> holds a key g s1 ->
     rgt a body (fun r s2 => Inv s2 /\ lgrows s1 s2 /\ holds a key g s2 /\
                             (r = Ok tt -> published strict key s2)) s1) ->
  rgt a (with_gate a key body) (after_publish a strict key s) s.
Proof.
  intros HI Hi Hbody. unfold with_gate. cbn [pbind trigger].
  apply rg_call; [done|]. intros s1 s2 x HI1 Hq1 Hh1. simpl in Hh1.
  destruct (guar_gate a key s1 s2 x (idle_quiet _ _ _ Hq1 Hi) Hh1) as [Hg1 Harc].
  split; [done|]. intros HI2 Hgr2. destruct x as [g|e].
  2: { split_and!; [done..| |done]. revert Hh1. unfold publication_gate.
       destruct (ls_poison_gates s1); [|by destruct (filter _ _ !! key)].
       intros [= <- _]. by eapply idle_quiet. }
  specialize (Harc HI1 g eq_refl). cbn [pbind].
  apply rg_call; [done|]. intros s3 s4 [] HI3 Hq3 [Hfree ->].
  assert (ls_arcs s3 !! a = Some (key, g)) as Ha3 by by rewrite (q_arcs _ _ _ Hq3).
  split; [by eapply guar_lock|]. intros HI4 Hgr4. cbn [pbind].
  assert (lgrows s (with_locked (<[g:=a]> (ls_locked s3)) s3)) as Hgr by by eapply lgrows_trans.
  apply rg_bind. eapply rg_mono; [|apply (Hbody g); [done|by apply lock_holds] ].
  cbn beta. clear - Hgr. intros r s5 (HI5 & Hgr5 & Hh5 & Hpub).
  cbn [pbind trigger]. apply rg_call; [done|]. intros s6 s7 [] HI6 Hq6 ->.
  pose proof (holds_quiet _ _ _ _ _ Hq6 Hh5) as Hh6.
  split; [by eapply guar_unlock|]. intros HI7 Hgr7. cbn [pbind].
  apply rg_call; [done|]. intros s8 s9 [] HI8 Hq8 ->.
  assert (ls_arcs s8 !! a = Some (key, g)) as Ha8.
  { rewrite (q_arcs _ _ _ Hq8). apply Hh6. }
  assert (forall g', ls_locked s8 !! g' <> Some a) as Hno.
  { intros g' Hg'. apply (q_locked _ _ _ Hq8) in Hg'. simpl in Hg'.
    apply lookup_delete_Some in Hg' as [Hne Hg']. apply (inv_locked _ HI6) in Hg' as [k' Hk'].
    destruct Hh6 as [Ha6 _]. congruence. }
  split; [by eapply guar_drop|]. intros HI9 Hgr9. split_and!; [done| | |].
  - eapply lgrows_trans; [exact Hgr|]. eapply lgrows_trans; [exact Hgr5|].
    eapply lgrows_trans; [exact Hgr7|]. exact Hgr9.
  - apply lookup_delete_eq.
  - intros Hr. eapply published_grows; [|by apply Hpub]. by eapply lgrows_trans.
Qed.

(** The test before a publication: skip it, or hold the gate of an event that nobody has
    acknowledged. *)
Lemma rg_try_begin a key g {R} (k : result bool TurnError -> prog turnsE R) Q s :
  Inv s -> holds a key g s ->
  (forall e s2, Inv s2 -> lgrows s s2 -> holds a key g s2 -> rgt a (k (Err e)) Q s2) ->
  (forall s2, Inv s2 -> lgrows s s2 -> holds a key g s2 -> key ∈ ls_delivered s2 ->
     rgt a (k (Ok false)) Q s2) ->
  (forall s2, Inv s2 -> lgrows s s2 -> holds a key g s2 -> key ∉ ls_delivered s2 ->
     ls_poison_delivered s2 = false -> rgt a (k (Ok true)) Q s2) ->
  rgt a (Call (LsTryBegin key) k) Q s.
Proof.
  intros HI Hh He Hskip Hgo. apply rg_call; [done|]. intros s1 s2 x HI1 Hq [-> ->].
  split; [apply turns_guar_same|]. intros HI2 Hgr. pose proof (holds_quiet _ _ _ _ _ Hq Hh).
  unfold try_begin_publish. destruct (ls_poison_delivered s1) eqn:E; [by apply He|].
  case_bool_decide; simpl; [by apply Hskip | by apply Hgo].
Qed.

(** The bus acknowledged the event and it is marked. *)
Lemma rg_mark a strict key g s0 s :
  Inv s -> lgrows s0 s -> ls_arcs s !! a = Some (key, g) -> ls_locked s !! g = Some a ->
  key ∈ ls_acked s -> ls_poison_delivered s = false ->
  rgt a (trigger (LsMarkDelivered key))
    (fun r s2 => Inv s2 /\ lgrows s0 s2 /\ holds a key g s2 /\ (r = Ok tt -> published strict key s2)) s.
Proof.
  intros HI Hgr Ha Hl Hk Hp. apply rg_call; [done|]. intros s1 s2 x HI1 Hq Hm. simpl in Hm.
  assert (ls_arcs s1 !! a = Some (key, g)) as Ha1 by by rewrite (q_arcs _ _ _ Hq).
  assert (ls_locked s1 !! g = Some a) as Hl1 by by apply (q_locked _ _ _ Hq).
  assert (key ∈ ls_acked s1) as Hk1 by by apply (q_acked _ _ _ Hq).
  split; [by eapply guar_mark|]. intros HI2 Hgr2. split; [done|]. split; [by eapply lgrows_trans|].
  assert (ls_poison_delivered s1 = false) as Hp1.
  { pose proof (q_poison _ _ _ Hq) as Hpo. unfold poisons in Hpo. congruence. }
  revert Hm. unfold mark_event_cursor_delivered. rewrite Hp1.
  destruct (ls_poison_deferred _); intros [= <- <-].
  - split; [|done]. split_and!; [done|done|]. simpl. set_solver.
  - split; [split_and!; [done|done|]; simpl; set_solver|]. intros _.
    destruct strict; simpl; [done|]. left. simpl. set_solver.
Qed.

(** The bus is asked: its acknowledgement is the first of the event. *)
Lemma rg_ask_bus a key g (e : turnsE (result unit TurnError)) (k : result unit TurnError -> prog turnsE (result unit TurnError)) Q s :
  (forall s s' x, turns_handle _ e s s' x -> s' = acknowledge key x s) ->
  Inv s -> holds a key g s -> key ∉ ls_delivered s -> ls_poison_delivered s = false ->
  (forall s2, Inv s2 -> lgrows s s2 -> ls_arcs s2 !! a = Some (key, g) -> ls_locked s2 !! g = Some a ->
     key ∈ ls_acked s2 -> ls_poison_delivered s2 = false -> rgt a (k (Ok tt)) Q s2) ->
  (forall error s2, Inv s2 -> lgrows s s2 -> holds a key g s2 -> rgt a (k (Err error)) Q s2) ->
  rgt a (Call e k) Q s.
Proof.
  intros He HI Hh Hd Hp Hok Herr. apply rg_call; [done|]. intros s1 s2 x HI1 Hq ->%He.
  pose proof (holds_quiet _ _ _ _ _ Hq Hh) as Hh1.
  assert (key ∉ ls_delivered s1) as Hd1.
  { destruct Hh as (Ha & Hl & _). by rewrite (proj1 (q_key _ _ _ Hq key g Ha Hl)). }
  split; [by eapply guar_publish|]. intros HI2 Hgr. destruct x as [[]|error]; [|by apply Herr].
  apply Hok; [done|done|apply Hh1|apply Hh1| |].
  - simpl. apply elem_of_app. right. by apply list_elem_of_singleton.
  - pose proof (q_poison _ _ _ Hq) as Hpo. unfold poisons in Hpo. simpl. congruence.
Qed.

Lemma rg_publish_event a event s :
  Inv s -> idle a s ->
  rgt a (publish_event_once_deferred a event) (after_publish a false (key_of_event event) s) s.
Proof.
  intros HI Hi. unfold publish_event_once_deferred. apply rg_with_gate; [done|done|].
  clear s HI Hi. intros g s HI Hh. cbn [pbind trigger].
  apply (rg_try_begin a (key_of_event event) g); [done|done|..].
  - intros e s2 HI2 Hgr Hh2. by split_and!.
  - intros s2 HI2 Hgr Hh2 Hd. split_and!; [done..|]. intros _. by left.
  - intros s2 HI2 Hgr Hh2 Hd Hp. cbn [negb pbind].
    apply (rg_ask_bus a (key_of_event event) g); [done..| |].
    + intros s3 HI3 Hgr3 Ha Hl Hk Hp3. apply rg_mark; try done. by eapply lgrows_trans.
    + intros error s3 HI3 Hgr3 Hh3. apply rg_call; [done|]. intros s4 s5 x HI4 Hq Hd5. simpl in Hd5.
      split; [by eapply guar_defer|]. intros HI5 Hgr5.
      split_and!; [done|eapply lgrows_trans; [|exact Hgr5]; by eapply lgrows_trans| |].
      * pose proof (holds_quiet _ _ _ _ _ Hq Hh3) as Hh4. revert Hd5. unfold defer_publication_error.
        destruct (ls_poison_deferred s4); intros [= <- _]; done.
      * intros ->. revert Hd5. unfold defer_publication_error.
        destruct (ls_poison_deferred s4); intros [= <-]. right. simpl. rewrite lookup_insert_eq. by eexists.
Qed.

Lemma rg_publish_state a state event s :
  Inv s -> idle a s ->
  rgt a (publish_state_once a state event) (after_publish a true (key_of_event event) s) s.
Proof.
  intros HI Hi. unfold publish_state_once. apply rg_with_gate; [done|done|].
  clear s HI Hi. intros g s HI Hh. cbn [pbind trigger].
  apply (rg_try_begin a (key_of_event event) g); [done|done|..].
  - intros e s2 HI2 Hgr Hh2. by split_and!.
  - intros s2 HI2 Hgr Hh2 Hd. split_and!; [done..|]. intros _. by apply (inv_delivered s2 HI2).
  - intros s2 HI2 Hgr Hh2 Hd Hp. cbn [negb pbind].
    apply (rg_ask_bus a (key_of_event event) g); [done..| |].
    + intros s3 HI3 Hgr3 Ha Hl Hk Hp3. apply rg_mark; try done. by eapply lgrows_trans.
    + intros error s3 HI3 Hgr3 Hh3. split_and!; [done|by eapply lgrows_trans|done|done].
Qed.

(** *** The publishing store *)

(** Between two publications. *)
Definition ready (a : task) (s0 s : lstate) : Prop := Inv s /\ lgrows s0 s /\ idle a s.

Lemma ready_refl a s : Inv s -> idle a s -> ready a s s.
Proof. intros HI Hi. by split_and!; [|apply lgrows_refl|]. Qed.

Lemma ready_trans a s1 s2 s3 : ready a s1 s2 -> ready a s2 s3 -> ready a s1 s3.
Proof. intros (_ & H1 & _) (HI & H2 & Hi). split_and!; [done|by eapply lgrows_trans|done]. Qed.

(** A call that changes nothing. *)
Lemma rg_silent a s0 {X R} (e : turnsE X) (k : X -> prog turnsE R) Q s :
  (forall s s' x, turns_handle X e s s' x -> s' = s) -> ready a s0 s ->
  (forall x s1, ready a s0 s1 -> turns_handle X e s1 s1 x -> lgrows s s1 -> rgt a (k x) Q s1) ->
  rgt a (Call e k) Q s.
Proof.
  intros He (HI & Hgr & Hi) Hk. apply rg_call; [done|]. intros s1 s2 x HI1 Hq Hh.
  pose proof (He _ _ _ Hh) as ->. split; [apply turns_guar_same|]. intros _ Hg.
  apply Hk; [|done|done]. split_and!; [done|by eapply lgrows_trans|by eapply idle_quiet].
Qed.

Lemma rg_inner a s0 {A R} (c : store_call A) (k : result A TurnError -> prog turnsE R) Q s :
  ready a s0 s -> (forall s1, lgrows s s1 -> crosses c s1 = false) ->
  (forall x s2, ready a s0 s2 -> rgt a (k x) Q s2) ->
  rgt a (Call (LsInner c) k) Q s.
Proof.
  intros (HI & Hgr & Hi) Hc Hk. apply rg_call; [done|]. intros s1 s2 x HI1 Hq ->.
  split; [apply guar_inner, Hc; by eapply quiet_lgrows|]. intros HI2 Hg.
  apply Hk. split_and!; [done|by eapply lgrows_trans|exact (idle_quiet _ _ _ Hq Hi)].
Qed.

(** The events a call publishes with its answer: with a deferred error, or at once. *)
Definition cancel_keys (rs : list (CancelRunRequest * CancelRunResponse)) : list LifecycleEventKey :=
  omap (fun r => if xr_already_terminal r.2 then None
                 else Some (key_of_wake (cancel_wake (xq_scope r.1) r.2))) rs.

Definition deferred_keys {A} (c : store_call A) : A -> list LifecycleEventKey :=
  match c in store_call A return A -> list LifecycleEventKey with
  | StSubmitTurn req => fun x => [key_of_wake (submit_wake (sq_scope req) x)]
  | StSubmitChild req _ => fun x => [key_of_wake (submit_wake (cq_child_scope req) x)]
  | StResumeTurn req => fun x => [key_of_wake (resume_wake (rq_scope req) x)]
  | StRequestCancel req => fun x => cancel_keys [(req, x)]
  | StRequestCancelTree _ => fun xs => cancel_keys xs
  | _ => fun _ => []
  end.

Definition key_of_state (state : TurnRunState) : LifecycleEventKey :=
  mk_LifecycleEventKey (st_scope state) (st_run_id state) (st_event_cursor state).

Definition strict_keys {A} (c : store_call A) : A -> list LifecycleEventKey :=
  match c in store_call A return A -> list LifecycleEventKey with
  | StBlockNativeAuth _ | StBlockRun _ _ _ _ | StCompleteRun _ | StCancelRun _ | StFailRun _ _
  | StRecordRunnerFailure _ _ | StRelinquishRun _ | StApplyLoopExit _ _ => fun x => [key_of_state x]
  | _ => fun _ => []
  end.

Definition publishes {A} (c : store_call A) (r : result A TurnError) (s : lstate) : Prop :=
  forall x, r = Ok x ->
    (forall k, k ∈ deferred_keys c x -> tracked k s) /\ (forall k, k ∈ strict_keys c x -> k ∈ ls_acked s).

Lemma rg_publish_deferred a s0 event {R} (k : result unit TurnError -> prog turnsE R) Q s :
  ready a s0 s ->
  (forall r s2, ready a s0 s2 -> lgrows s s2 -> (r = Ok tt -> tracked (key_of_event event) s2) ->
     rgt a (k r) Q s2) ->
  rgt a (pbind (publish_event_once_deferred a event) k) Q s.
Proof.
  intros (HI & Hgr & Hi) Hk. apply rg_bind. eapply rg_mono; [|by apply rg_publish_event].
  intros r s2 (HI2 & Hgr2 & Hi2 & Hp). apply Hk; [|done|done].
  split_and!; [done|by eapply lgrows_trans|done].
Qed.

Lemma rg_publish_strict a s0 state event {R} (k : result unit TurnError -> prog turnsE R) Q s :
  ready a s0 s ->
  (forall r s2, ready a s0 s2 -> (r = Ok tt -> key_of_event event ∈ ls_acked s2) -> rgt a (k r) Q s2) ->
  rgt a (pbind (publish_state_once a state event) k) Q s.
Proof.
  intros (HI & Hgr & Hi) Hk. apply rg_bind. eapply rg_mono; [|by apply rg_publish_state].
  intros r s2 (HI2 & Hgr2 & Hi2 & Hp). apply Hk; [|done].
  split_and!; [done|by eapply lgrows_trans|done].
Qed.

Lemma rg_committed a s0 c kind reason s :
  ready a s0 s -> (forall s1, crosses c s1 = false) ->
  rgt a (committed a c kind reason)
    (fun r s2 => ready a s0 s2 /\ forall x, r = Ok x -> key_of_state x ∈ ls_acked s2) s.
Proof.
  intros Hr Hc. unfold committed. cbn [pbind trigger]. apply (rg_inner a s0); [done|done|].
  clear s Hr. intros [state|e] s Hr; cbn [pbind]; [|by split].
  apply (rg_silent a s0); [done|done|]. intros now s1 Hr1 _ _. cbn [pbind].
  apply (rg_publish_strict a s0); [done|]. intros [[]|e] s2 Hr2 Hp; [|by split].
  split; [done|]. intros x [= <-]. by apply Hp.
Qed.

Lemma rg_cancellations a s0 responses failure s :
  ready a s0 s ->
  rgt a (publish_cancellations a responses failure)
    (fun r s2 => ready a s0 s2 /\ lgrows s s2 /\
       (r = None -> failure = None /\ forall k, k ∈ cancel_keys responses -> tracked k s2)) s.
Proof.
  revert failure s. induction responses as [|[req resp] responses IH]; intros failure s Hr.
  { split_and!; [done|apply lgrows_refl|]. intros ->. split; [done|]. intros k Hk. by apply elem_of_nil in Hk. }
  cbn [publish_cancellations pbind trigger]. apply (rg_silent a s0); [done|done|].
  intros now s1 Hr1 _ Hg1. cbn [pbind]. unfold cancel_event, cancel_keys. cbn [omap list_omap snd fst].
  destruct (xr_already_terminal resp) eqn:Et.
  - eapply rg_mono; [|by apply IH]. intros r s2 (Hr2 & Hg2 & Hk). split_and!; [done|by eapply lgrows_trans|done].
  - apply (rg_publish_deferred a s0); [done|]. intros r s2 Hr2 Hg2 Hp.
    eapply rg_mono; [|by apply IH]. intros r' s3 (Hr3 & Hg3 & Hk).
    split_and!; [done|eapply lgrows_trans; [|exact Hg3]; by eapply lgrows_trans|].
    intros Hn. destruct (Hk Hn) as [Hf Hks]. destruct r as [[]|e]; [|by destruct failure].
    split; [done|]. intros k [->|Hin]%elem_of_cons; [|by apply Hks].
    apply (g_tracked _ _ Hg3). by apply Hp.
Qed.

Lemma rg_recovered a s0 recovered s :
  ready a s0 s -> rgt a (publish_recovered a recovered) (fun _ s2 => ready a s0 s2) s.
Proof.
  revert s. induction recovered as [|state recovered IH]; intros s Hr; [done|].
  cbn [publish_recovered pbind trigger]. apply (rg_silent a s0); [done|done|].
  intros now s1 Hr1 _ _. cbn [pbind]. unfold publish_state_once_best_effort. apply rg_bind.
  apply (rg_publish_strict a s0); [done|]. intros r s2 Hr2 _. by apply IH.
Qed.

Lemma publishes_err {A} (c : store_call A) e s : publishes c (Err e) s.
Proof. by intros x. Qed.

Lemma publishes_none {A} (c : store_call A) x s :
  deferred_keys c x = [] -> strict_keys c x = [] -> publishes c (Ok x) s.
Proof.
  intros Hd Hs y [= <-]. rewrite Hd, Hs. split; intros k Hk; by apply elem_of_nil in Hk.
Qed.

Lemma publishes_deferred {A} (c : store_call A) x s :
  strict_keys c x = [] -> (forall k, k ∈ deferred_keys c x -> tracked k s) -> publishes c (Ok x) s.
Proof.
  intros Hs Hd y [= <-]. split; [done|]. rewrite Hs. intros k Hk. by apply elem_of_nil in Hk.
Qed.

Lemma publishes_strict (c : store_call TurnRunState) r s :
  (forall x, deferred_keys c x = []) -> (forall x, strict_keys c x = [key_of_state x]) ->
  (forall x, r = Ok x -> key_of_state x ∈ ls_acked s) -> publishes c r s.
Proof.
  intros Hd Hs Hk x Hx. rewrite Hd, Hs. split; intros k Hin; [by apply elem_of_nil in Hin|].
  apply list_elem_of_singleton in Hin as ->. by apply Hk.
Qed.

Section Calls.
Variables (a : task) (s0 s : lstate).
Hypothesis Hr : ready a s0 s.

Definition delivers {A} (c : store_call A) (r : result A TurnError) (s2 : lstate) : Prop :=
  ready a s0 s2 /\ publishes c r s2.

Lemma rg_plain {A} (c : store_call A) :
  (forall s1, crosses c s1 = false) -> (forall x, deferred_keys c x = []) ->
  (forall x, strict_keys c x = []) -> rgt a (trigger (LsInner c)) (delivers c) s.
Proof.
  intros Hx Hd Hs. apply (rg_inner a s0); [done|done|]. intros x s2 Hr2. split; [done|].
  destruct x; [by apply publishes_none | apply publishes_err].
Qed.

Lemma rg_strict (c : store_call TurnRunState) kind reason :
  (forall s1, crosses c s1 = false) -> (forall x, deferred_keys c x = []) ->
  (forall x, strict_keys c x = [key_of_state x]) ->
  rgt a (committed a c kind reason) (delivers c) s.
Proof.
  intros Hx Hd Hs. eapply rg_mono; [|by apply rg_committed]. intros r s2 [Hr2 Hk].
  split; [done|]. by apply publishes_strict.
Qed.

(** The call answers [x], perhaps the clock is read, and one event is published. *)
Lemma rg_one_event {A} (c : store_call A) x event s1 :
  ready a s0 s1 -> deferred_keys c x = [key_of_event event] -> strict_keys c x = [] ->
  rgt a (let!? _ := publish_event_once_deferred a event in Ret (Ok x)) (delivers c) s1.
Proof.
  intros Hr1 Hd Hs. apply (rg_publish_deferred a s0); [done|]. intros [[]|e] s2 Hr2 _ Hp.
  - split; [done|]. apply publishes_deferred; [done|]. rewrite Hd.
    intros k ->%list_elem_of_singleton. by apply Hp.
  - split; [done|]. apply publishes_err.
Qed.

Lemma rg_publishing {A} (c : store_call A) :
  (forall s1, lgrows s s1 -> crosses c s1 = false) -> rgt a (publishing_call a c) (delivers c) s.
Proof.
  intros Hc.
  destruct c; cbn [publishing_call]; try (apply rg_plain; done); try (apply rg_strict; done);
    cbn [pbind trigger]; (apply (rg_inner a s0); [done|done|]); intros [x|e] s2 Hr2;
    try (split; [done|apply publishes_err]).
  - by apply rg_one_event.
  - by apply rg_one_event.
  - apply (rg_silent a s0); [done|done|]. intros now s3 Hr3 _ _. by apply rg_one_event.
  - apply (rg_silent a s0); [done|done|]. intros now s3 Hr3 _ _. cbn [pbind].
    unfold cancel_event. destruct (xr_already_terminal x) eqn:Et.
    + split; [done|]. apply publishes_none; [|done]. cbn. by rewrite Et.
    + apply rg_one_event; [done| |done]. cbn. by rewrite Et.
  - apply rg_bind. eapply rg_mono; [|by apply (rg_cancellations a s0)].
    intros failure s3 (Hr3 & _ & Hk). split; [done|].
    destruct failure; [apply publishes_err|]. apply publishes_deferred; [done|]. by apply Hk.
  - destruct x as [claimed|]; [|by split; [|apply publishes_none] ].
    apply (rg_silent a s0); [done|done|]. intros now s3 Hr3 _ _. cbn [pbind].
    unfold publish_state_once_best_effort. apply rg_bind.
    apply (rg_publish_strict a s0); [done|]. intros r s4 Hr4 _. by split; [|apply publishes_none].
  - apply rg_bind. eapply rg_mono; [|by apply (rg_recovered a s0)]. intros [] s3 Hr3.
    by split; [|apply publishes_none].
Qed.

End Calls.

(** *** The coordinator *)

(** The scope of a prepared identifier was found to be allowed. *)
Definition fenced (requested : option TurnRunId) (allowed : list TurnScope) (s : lstate) : Prop :=
  match requested with
  | None => True
  | Some id => id ∈ ls_seen s /\ forall origin, ls_prepared s !! id = Some origin -> origin ∈ allowed
  end.

Lemma fenced_grows requested allowed s s' :
  lgrows s s' -> fenced requested allowed s -> fenced requested allowed s'.
Proof.
  intros Hg. destruct requested as [id|]; [|done]. intros [Hs Hf]. split; [by apply (g_seen _ _ Hg)|].
  intros origin. destruct (g_prepared _ _ Hg id Hs) as [->| ->]; [apply Hf | done].
Qed.

Lemma fenced_outside requested allowed s : fenced requested allowed s -> outside s requested allowed = false.
Proof.
  unfold outside. destruct requested as [id|]; [simpl|done]. intros [_ Hf].
  destruct (ls_prepared s !! id) as [origin|]; [|done]. by rewrite bool_decide_true by by apply Hf.
Qed.

Lemma rg_check a s0 run_id allowed {R} (k : result unit TurnError -> prog turnsE R) Q s :
  ready a s0 s ->
  (forall x s2, ready a s0 s2 -> (x = Ok tt -> fenced (Some run_id) allowed s2) -> rgt a (k x) Q s2) ->
  rgt a (Call (CoCheckScope run_id allowed) k) Q s.
Proof.
  intros (HI & Hgr & Hi) Hk. apply rg_call; [done|]. intros s1 s2 x HI1 Hq [-> ->].
  split; [apply guar_check|]. intros HI2 Hg.
  apply Hk; [split_and!; [done|by eapply lgrows_trans|exact (idle_quiet _ _ _ Hq Hi)]|].
  unfold check_prepared_run_scope. destruct (ls_poison_prepared s1); [done|]. intros Hx.
  split; simpl; [set_solver|]. intros origin Ho. rewrite Ho in Hx. by case_bool_decide.
Qed.

Lemma rg_consume a s0 id {R} (k : result (option TurnScope) TurnError -> prog turnsE R) Q s :
  ready a s0 s -> (forall x s2, ready a s0 s2 -> lgrows s s2 -> rgt a (k x) Q s2) ->
  rgt a (Call (CoConsume id) k) Q s.
Proof.
  intros (HI & Hgr & Hi) Hk. apply rg_call; [done|]. intros s1 s2 x HI1 Hq Hx. simpl in Hx.
  split; [by eapply guar_consume|]. intros HI2 Hg. apply Hk; [|done].
  split_and!; [done|by eapply lgrows_trans|]. unfold idle. replace (ls_arcs s2) with (ls_arcs s1).
  - exact (idle_quiet _ _ _ Hq Hi).
  - revert Hx. unfold consume_prepared_run_id. by destruct (ls_poison_prepared s1); intros [= <- _].
Qed.

(** No error is found for a tracked event: it was acknowledged. *)
Lemma rg_deferred_error a s0 wake Q s :
  ready a s0 s -> tracked (key_of_wake wake) s ->
  (forall r s2, ready a s0 s2 -> lgrows s s2 -> (r = Ok tt -> key_of_wake wake ∈ ls_acked s2) ->
     Q r s2) ->
  rgt a (deferred_publication_error wake) Q s.
Proof.
  intros Hr Ht Hk. unfold deferred_publication_error. cbn [pbind trigger].
  apply (rg_silent a s0); [by intros ? ? ? [-> _]|done|]. intros x s1 Hr1 [_ ->] Hg. apply Hk; [done|done|].
  unfold lifecycle_publication_error. destruct (ls_poison_deferred s1); [done|].
  destruct (ls_deferred s1 !! key_of_wake wake) as [e|] eqn:He; [done|]. intros _.
  destruct (g_tracked _ _ Hg _ Ht) as [Hd|Hd]; [|by rewrite He in Hd; destruct Hd].
  apply (inv_delivered s1); [apply Hr1 | done].
Qed.

Definition acknowledged {A} (keys : A -> list LifecycleEventKey) (a : task) (s0 : lstate)
    (r : result A TurnError) (s : lstate) : Prop :=
  ready a s0 s /\ forall x, r = Ok x -> forall k, k ∈ keys x -> k ∈ ls_acked s.

Lemma acknowledged_err {A} keys a s0 e s : ready a s0 s -> acknowledged (A := A) keys a s0 (Err e) s.
Proof. by intros Hr. Qed.

Lemma acknowledged_one {A} (keys : A -> list LifecycleEventKey) a s0 x k s :
  ready a s0 s -> keys x = [k] -> k ∈ ls_acked s -> acknowledged keys a s0 (Ok x) s.
Proof. intros Hr Hk Ha. split; [done|]. intros y [= <-]. rewrite Hk. by intros k' ->%list_elem_of_singleton. Qed.

Definition submit_keys (scope : TurnScope) (resp : SubmitTurnResponse) : list LifecycleEventKey :=
  [key_of_wake (submit_wake scope resp)].
Definition resume_keys (scope : TurnScope) (resp : ResumeTurnResponse) : list LifecycleEventKey :=
  [key_of_wake (resume_wake scope resp)].

Lemma rg_after_submit a s0 scope prepared resp s :
  ready a s0 s -> tracked (key_of_wake (submit_wake scope resp)) s ->
  rgt a (after_submit scope prepared resp) (acknowledged (submit_keys scope) a s0) s.
Proof.
  intros Hr Ht. unfold after_submit. cbn [pbind trigger]. apply (rg_silent a s0); [done|done|].
  intros [] s1 Hr1 _ Hg1. apply (g_tracked _ _ Hg1) in Ht. clear s Hr Hg1.
  assert (forall s2, ready a s0 s2 -> lgrows s1 s2 ->
            rgt a (let!? _ := deferred_publication_error (submit_wake scope resp) in Ret (Ok resp))
              (acknowledged (submit_keys scope) a s0) s2) as Hend.
  { intros s2 Hr2 Hg2. apply rg_bind, (rg_deferred_error a s0); [done|by apply (g_tracked _ _ Hg2)|].
    intros [[]|e] s3 Hr3 _ Hk; [|by apply acknowledged_err].
    eapply acknowledged_one; [done|done|]. by apply Hk. }
  destruct prepared as [id|]; cbn [pbind]; [|by apply Hend; [|apply lgrows_refl] ].
  cbn [trigger pbind]. apply (rg_consume a s0); [done|]. intros [o|e] s2 Hr2 Hg2; cbn [pbind].
  - by apply Hend.
  - by apply acknowledged_err.
Qed.

Lemma rg_co_submit a s0 req s :
  ready a s0 s ->
  rgt a (co_submit_turn a req) (acknowledged (submit_keys (sq_scope req)) a s0) s.
Proof.
  intros Hr. unfold co_submit_turn.
  assert (forall s1, ready a s0 s1 ->
            (sq_parent_run_id req = None -> fenced (sq_requested_run_id req) [sq_scope req] s1) ->
            rgt a (let!? response := publishing_call a (StSubmitTurn req) in
                   after_submit (sq_scope req) (sq_requested_run_id req) response)
              (acknowledged (submit_keys (sq_scope req)) a s0) s1) as Hgo.
  { intros s1 Hr1 Hf. apply rg_bind. eapply rg_mono; [|apply (rg_publishing a s0); [done|] ].
    - intros [resp|e] s2 [Hr2 Hp]; [|by apply acknowledged_err].
      apply rg_after_submit; [done|]. destruct (Hp resp eq_refl) as [Hd _]. apply Hd.
      by apply list_elem_of_singleton.
    - intros s2 Hg. cbn [crosses]. destruct (sq_parent_run_id req); [done|].
      apply fenced_outside. eapply fenced_grows; [done|]. by apply Hf. }
  destruct (sq_requested_run_id req) as [id|] eqn:Eid, (sq_parent_run_id req) as [p|] eqn:Ep; cbn [pbind].
  - by apply Hgo.
  - cbn [trigger pbind]. apply (rg_check a s0); [done|]. intros [[]|e] s2 Hr2 Hf.
    + apply Hgo; [done|]. intros _. by apply Hf.
    + by apply acknowledged_err.
  - by apply Hgo.
  - by apply Hgo.
Qed.

Lemma rg_co_child a s0 req claimed s :
  ready a s0 s ->
  rgt a (co_submit_child_run a req claimed) (acknowledged (submit_keys (cq_child_scope req)) a s0) s.
Proof.
  intros Hr. unfold co_submit_child_run.
  assert (forall s1, ready a s0 s1 ->
            fenced (cq_requested_run_id req) [cq_parent_scope req; cq_child_scope req] s1 ->
            rgt a (let!? response := publishing_call a (StSubmitChild req claimed) in
                   after_submit (cq_child_scope req) (cq_requested_run_id req) response)
              (acknowledged (submit_keys (cq_child_scope req)) a s0) s1) as Hgo.
  { intros s1 Hr1 Hf. apply rg_bind. eapply rg_mono; [|apply (rg_publishing a s0); [done|] ].
    - intros [resp|e] s2 [Hr2 Hp]; [|by apply acknowledged_err].
      apply rg_after_submit; [done|]. destruct (Hp resp eq_refl) as [Hd _]. apply Hd.
      by apply list_elem_of_singleton.
    - intros s2 Hg. cbn [crosses]. apply fenced_outside. by eapply fenced_grows. }
  destruct (cq_requested_run_id req) as [id|] eqn:Eid; cbn [pbind].
  - cbn [trigger pbind]. apply (rg_check a s0); [done|]. intros [[]|e] s2 Hr2 Hf.
    + apply Hgo; [done|]. by apply Hf.
    + by apply acknowledged_err.
  - by apply Hgo.
Qed.

Lemma rg_notify_if a s0 (b : bool) wake {R} (k : unit -> prog turnsE R) Q s :
  ready a s0 s -> (forall s1, ready a s0 s1 -> lgrows s s1 -> rgt a (k tt) Q s1) ->
  rgt a (pbind (if b then trigger (LsNotify wake) else Ret tt) k) Q s.
Proof.
  intros Hr Hk. destruct b; cbn [pbind trigger]; [|by apply Hk; [|apply lgrows_refl] ].
  apply (rg_silent a s0); [done|done|]. intros [] s1 Hr1 _ Hg. by apply Hk.
Qed.

Lemma rg_co_resume a s0 req s :
  ready a s0 s ->
  rgt a (co_resume_turn a req) (acknowledged (resume_keys (rq_scope req)) a s0) s.
Proof.
  intros Hr. unfold co_resume_turn. apply rg_bind. eapply rg_mono; [|by apply (rg_publishing a s0)].
  intros [resp|e] s2 [Hr2 Hp]; [|by apply acknowledged_err].
  destruct (Hp resp eq_refl) as [Hd _]. apply (rg_notify_if a s0); [done|]. intros s3 Hr3 Hg3.
  apply rg_bind, (rg_deferred_error a s0); [done| |].
  - apply (g_tracked _ _ Hg3), Hd. by apply list_elem_of_singleton.
  - intros [[]|e] s4 Hr4 _ Hk; [|by apply acknowledged_err].
    eapply acknowledged_one; [done|done|]. by apply Hk.
Qed.

Lemma rg_after_cancel a s0 req resp {R} (k : result unit TurnError -> prog turnsE R) Q s :
  ready a s0 s -> (forall key, key ∈ cancel_keys [(req, resp)] -> tracked key s) ->
  (forall r s2, ready a s0 s2 -> lgrows s s2 ->
     (r = Ok tt -> forall key, key ∈ cancel_keys [(req, resp)] -> key ∈ ls_acked s2) -> rgt a (k r) Q s2) ->
  rgt a (pbind (after_cancel req resp) k) Q s.
Proof.
  intros Hr Ht Hk. unfold after_cancel. apply rg_bind.
  apply (rg_notify_if a s0); [done|]. intros s1 Hr1 Hg1. revert Ht Hk. unfold cancel_keys. cbn.
  destruct (xr_already_terminal resp); cbn [negb]; intros Ht Hk.
  - apply Hk; [done|done|]. intros _ key Hin. by apply elem_of_nil in Hin.
  - apply (rg_deferred_error a s0); [done| |].
    + apply (g_tracked _ _ Hg1), Ht. by apply list_elem_of_singleton.
    + intros r s2 Hr2 Hg2 Ha. apply Hk; [done|by eapply lgrows_trans|].
      intros Hx key ->%list_elem_of_singleton. by apply Ha.
Qed.

Lemma rg_co_cancel a s0 req s :
  ready a s0 s ->
  rgt a (co_cancel_run a req) (acknowledged (fun resp => cancel_keys [(req, resp)]) a s0) s.
Proof.
  intros Hr. unfold co_cancel_run. apply rg_bind. eapply rg_mono; [|by apply (rg_publishing a s0)].
  intros [resp|e] s2 [Hr2 Hp]; [|by apply acknowledged_err].
  destruct (Hp resp eq_refl) as [Hd _]. apply (rg_after_cancel a s0); [done|done|].
  intros [[]|e] s3 Hr3 _ Hk; [|by apply acknowledged_err].
  split; [done|]. intros x [= <-]. by apply Hk.
Qed.

Lemma cancel_keys_cons r rs k : k ∈ cancel_keys (r :: rs) <-> k ∈ cancel_keys [r] \/ k ∈ cancel_keys rs.
Proof.
  unfold cancel_keys. cbn. destruct (xr_already_terminal r.2); set_solver.
Qed.

Lemma rg_after_cancellations a s0 responses failure s :
  ready a s0 s -> (forall k, k ∈ cancel_keys responses -> tracked k s) ->
  rgt a (after_cancellations responses failure)
    (fun r s2 => ready a s0 s2 /\ lgrows s s2 /\
       (r = None -> failure = None /\ forall k, k ∈ cancel_keys responses -> k ∈ ls_acked s2)) s.
Proof.
  revert failure s. induction responses as [|[req resp] responses IH]; intros failure s Hr Ht.
  { split_and!; [done|apply lgrows_refl|]. intros ->. split; [done|]. intros k Hk. by apply elem_of_nil in Hk. }
  cbn [after_cancellations]. apply (rg_after_cancel a s0); [done| |].
  { intros k Hk. apply Ht, cancel_keys_cons. by left. }
  intros r s2 Hr2 Hg2 Hk. eapply rg_mono; [|apply IH; [done|] ].
  - intros r' s3 (Hr3 & Hg3 & Hks). split_and!; [done|by eapply lgrows_trans|]. intros Hn.
    destruct (Hks Hn) as [Hf Hall]. destruct r as [[]|e]; [|by destruct failure]. split; [done|].
    intros k [Hin|Hin]%cancel_keys_cons; [|by apply Hall]. apply (g_acked _ _ Hg3). by apply Hk.
  - intros k Hin. apply (g_tracked _ _ Hg2), Ht, cancel_keys_cons. by right.
Qed.

Lemma rg_co_cancel_tree a s0 req s :
  ready a s0 s -> rgt a (co_cancel_tree a req) (acknowledged cancel_keys a s0) s.
Proof.
  intros Hr. unfold co_cancel_tree. apply rg_bind. eapply rg_mono; [|by apply (rg_publishing a s0)].
  intros [resps|e] s2 [Hr2 Hp]; [|by apply acknowledged_err].
  destruct (Hp resps eq_refl) as [Hd _]. apply rg_bind.
  eapply rg_mono; [|by apply (rg_after_cancellations a s0)].
  intros failure s3 (Hr3 & _ & Hk). destruct failure as [e|]; [by apply acknowledged_err|].
  split; [done|]. intros x [= <-]. by apply Hk.
Qed.

(** ** Any number of tasks *)

(** A submission reaches the store through the coordinator only. *)
Definition submits {A} (c : store_call A) : bool :=
  match c with StSubmitTurn _ | StSubmitChild _ _ => true | _ => false end.

(** The calls of the coordinator, and the other calls of the publishing store. *)
Inductive turn_job : Type -> Type :=
| JobPrepare (scope : TurnScope) : turn_job TurnRunId
| JobAbort (run_id : TurnRunId) : turn_job unit
| JobSubmit (req : SubmitTurnRequest) : turn_job SubmitTurnResponse
| JobSubmitChild (req : SubmitChildRunRequest) (claimed : option ClaimedTurnRun) :
    turn_job SubmitTurnResponse
| JobResume (req : ResumeTurnRequest) : turn_job ResumeTurnResponse
| JobCancel (req : CancelRunRequest) : turn_job CancelRunResponse
| JobCancelTree (req : CancelRunRequest) : turn_job (list (CancelRunRequest * CancelRunResponse))
| JobStore {A} (c : store_call A) (ok : submits c = false) : turn_job A.

Definition run_job (me : task) {A} (j : turn_job A) : prog turnsE (result A TurnError) :=
  match j in turn_job A return prog turnsE (result A TurnError) with
  | JobPrepare scope => prepare_turn scope
  | JobAbort run_id => abort_prepared_turn run_id
  | JobSubmit req => co_submit_turn me req
  | JobSubmitChild req claimed => co_submit_child_run me req claimed
  | JobResume req => co_resume_turn me req
  | JobCancel req => co_cancel_run me req
  | JobCancelTree req => co_cancel_tree me req
  | JobStore c _ => publishing_call me c
  end.

(** The events of the answer [x] of a job; a claim, a heartbeat or a recovery promises
    none. *)
Definition job_keys {A} (j : turn_job A) : A -> list LifecycleEventKey :=
  match j in turn_job A return A -> list LifecycleEventKey with
  | JobPrepare _ => fun _ => []
  | JobAbort _ => fun _ => []
  | JobSubmit req => submit_keys (sq_scope req)
  | JobSubmitChild req _ => submit_keys (cq_child_scope req)
  | JobResume req => resume_keys (rq_scope req)
  | JobCancel req => fun resp => cancel_keys [(req, resp)]
  | JobCancelTree _ => cancel_keys
  | JobStore c _ => strict_keys c
  end.

(** A job with what it returned. *)
Definition outcome : Type := {A : Type & (turn_job A * result A TurnError)%type}.
Definition finished {A} (j : turn_job A) (r : result A TurnError) : outcome := existT A (j, r).
Definition task_program (me : task) {A} (j : turn_job A) : prog turnsE outcome :=
  let! r := run_job me j in Ret (finished j r).

(** A new task has a number of its own. *)
Definition may_start (me : task) (p : prog turnsE outcome) (running : list task) (s : lstate) : Prop :=
  (me ∉ running) /\ idle me s /\ exists A (j : turn_job A), p = task_program me j.

Definition reaches (s : lstate) (conf : lstate * list (task * prog turnsE outcome)) : Prop :=
  rtc (pool_step turns_handle may_start) (s, []) conf.

(** A new publishing store and coordinator; some mutexes may be poisoned. *)
Definition lstate_new (delivered deferred gates prepared : bool) : lstate :=
  mk_lstate ∅ ∅ ∅ ∅ ∅ 0%nat ∅ delivered deferred gates prepared [] ∅ false.

Lemma Inv_new d1 d2 d3 d4 : Inv (lstate_new d1 d2 d3 d4).
Proof.
  split; simpl; try done.
  - constructor.
  - intros k Hk. by apply elem_of_nil in Hk.
  - by intros id [? Hid].
Qed.

Lemma rg_run_job a {A} (j : turn_job A) s :
  Inv s -> idle a s -> rgt a (run_job a j) (acknowledged (job_keys j) a s) s.
Proof.
  intros HI Hi. pose proof (ready_refl a s HI Hi) as Hr. destruct j; cbn [run_job job_keys].
  - apply rg_call; [done|]. intros s1 s2 x HI1 Hq (id & memory & Hn & r & Hrec & ->).
    split; [by eapply guar_prepare|]. intros HI2 Hg. split.
    + split_and!; [done|done|]. pose proof (idle_quiet _ _ _ Hq Hi) as Hi1. revert Hrec.
      unfold record_prepared_run_id. by repeat case_match; intros [= <- _].
    + intros x _ k Hk. by apply elem_of_nil in Hk.
  - unfold abort_prepared_turn. cbn [pbind trigger]. apply (rg_consume a s); [done|].
    intros [o|e] s2 Hr2 _; [|by apply acknowledged_err]. split; [done|].
    intros x _ k Hk. by apply elem_of_nil in Hk.
  - by apply rg_co_submit.
  - by apply rg_co_child.
  - by apply rg_co_resume.
  - by apply rg_co_cancel.
  - by apply rg_co_cancel_tree.
  - eapply rg_mono; [|apply (rg_publishing a s); [done|] ].
    + intros r s2 [Hr2 Hp]. split; [done|]. intros x Hx. by apply Hp.
    + intros s1 _. by destruct c.
Qed.

Definition kept (me : task) (o : outcome) (s : lstate) : Prop :=
  let '(existT A (j, r)) := o in
  Inv s /\ forall x, r = Ok x -> forall k, k ∈ job_keys j x -> k ∈ ls_acked s.

Lemma pool_kept s conf :
  Inv s -> reaches s conf ->
  Inv conf.1 /\
  forall i me A (j : turn_job A) x, conf.2 !! i = Some (me, Ret (finished j (Ok x))) ->
    forall k, k ∈ job_keys j x -> k ∈ ls_acked conf.1.
Proof.
  intros HI Hr.
  assert (pool_ok turns_handle turns_rely turns_guar kept Inv (fun a b => a <> b) conf) as (Hi & Hrg & _).
  { eapply pool_reach_ok; [| | | | | |exact HI|exact Hr].
    - intros a s1 H1. split; [done|apply quiet_refl].
    - intros a s1 s2 s3 H1 H2 HI1. destruct (H1 HI1) as [HI2 Hq1], (H2 HI2) as [HI3 Hq2].
      split; [done|]. by eapply quiet_trans.
    - intros a [A [j r] ] s1 s2 Hrel [H1 Hk]. destruct (Hrel H1) as [H2 Hq]. split; [done|].
      intros x Hx k Hin. apply (q_acked _ _ _ Hq). by apply (Hk x Hx).
    - intros a s1 s2 Hg H1. by apply Hg.
    - intros a b s1 s2 Hne H1 Hg _. destruct (Hg H1) as [H2 Hq]. split; [done|]. by apply Hq.
    - intros a p l s1 (Hn & Hidle & A & j & ->) H1. split.
      + apply rg_bind. eapply rg_mono; [|by apply rg_run_job].
        intros r s2 [(H2 & _) Hk]. by split.
      + apply Forall_forall. intros b Hb. split; [|intros Heq; symmetry in Heq; revert Heq]; by intros <-. }
  split; [done|]. intros i me A j x Hl. by apply (Hrg i me _ Hl).
Qed.

(** A reachable pool can take the next step of a task. *)
Lemma reaches_step s conf i me {X} (e : turnsE X) k x s' :
  reaches s conf -> conf.2 !! i = Some (me, Call e k) -> turns_handle X e conf.1 s' x ->
  reaches s (s', <[i := (me, k x)]> conf.2).
Proof.
  intros Hr Hl Hh. unfold reaches. eapply rtc_r; [exact Hr|]. destruct conf as [s1 ps]. by eapply ps_call.
Qed.

(** C15: whatever tasks run the coordinator's methods and the runners' transitions over one
    publishing store, and however their steps interleave, no event is acknowledged by the
    bus twice: the store asks the bus only for events that were not acknowledged before,
    and an event is marked delivered only after its acknowledgement.  A publication that
    failed is not marked, so that a retry publishes it again. *)
Theorem acknowledged_at_most_once d1 d2 d3 d4 conf :
  reaches (lstate_new d1 d2 d3 d4) conf ->
  NoDup (ls_acked conf.1) /\
  (forall k, k ∈ ls_delivered conf.1 -> k ∈ ls_acked conf.1) /\
  (forall i me event k, conf.2 !! i = Some (me, Call (LsPublishEvent event) k) ->
     key_of_event event ∉ ls_acked conf.1) /\
  (forall i me state event k, conf.2 !! i = Some (me, Call (LsPublishState state event) k) ->
     key_of_event event ∉ ls_acked conf.1).
Proof.
  intros Hr. destruct (pool_kept _ _ (Inv_new d1 d2 d3 d4) Hr) as [HI _].
  assert (forall i me (e : turnsE (result unit TurnError)) k key,
            conf.2 !! i = Some (me, Call e k) ->
            turns_handle _ e conf.1 (acknowledge key (Ok tt) conf.1) (Ok tt) ->
            key ∉ ls_acked conf.1) as Hnext.
  { intros i me e k key Hl Hh Hin.
    destruct (pool_kept _ _ (Inv_new d1 d2 d3 d4) (reaches_step _ _ _ _ _ _ _ _ Hr Hl Hh)) as [HI' _].
    pose proof (inv_nodup _ HI') as Hnd. simpl in Hnd. apply NoDup_app in Hnd as (_ & Hnot & _).
    apply (Hnot key Hin). by apply list_elem_of_singleton. }
  split_and!; [apply HI|apply HI|..].
  - intros i me event k Hl. by apply (Hnext i me _ k _ Hl).
  - intros i me state event k Hl. by apply (Hnext i me _ k _ Hl).
Qed.

(** C14: when a call of the coordinator (submission, child submission, resume, cancellation,
    cancellation of a tree) or a settling transition of a runner has returned a success,
    the required observers have acknowledged the event of that very answer: a publication
    that failed, in this task or in a concurrent one for the same event, comes back as the
    error of the call, never as a success. *)
Theorem success_means_acknowledged d1 d2 d3 d4 conf i me A (j : turn_job A) x :
  reaches (lstate_new d1 d2 d3 d4) conf ->
  conf.2 !! i = Some (me, Ret (finished j (Ok x))) ->
  forall k, k ∈ job_keys j x -> k ∈ ls_acked conf.1.
Proof. intros Hr. by apply (pool_kept _ _ (Inv_new d1 d2 d3 d4) Hr). Qed.

(** C16: a run identifier that the coordinator handed out under a scope is never submitted
    to the store as a root run of another scope, nor as a child whose parent and child
    scopes are both other ones, as long as the reservation stands; the check and the
    submission may be separated by any steps of other tasks. *)
Theorem prepared_ids_stay_in_scope d1 d2 d3 d4 conf i me A (c : store_call A) k :
  reaches (lstate_new d1 d2 d3 d4) conf ->
  conf.2 !! i = Some (me, Call (LsInner c) k) -> crosses c conf.1 = false.
Proof.
  intros Hr Hl.
  pose proof (reaches_step _ _ _ _ _ _ (Err TeUnauthorized) _ Hr Hl eq_refl) as Hr'.
  destruct (pool_kept _ _ (Inv_new d1 d2 d3 d4) Hr') as [HI _].
  pose proof (inv_crossed _ HI) as Hc. simpl in Hc. by apply orb_false_iff in Hc as [_ Hc].
Qed.

(** ** Wakes *)

Definition wakes (t : list (event turnsE)) : list TurnRunWake :=
  omap (fun ev => match ev with Ev e _ => match e with LsNotify w => Some w | _ => None end end) t.

Lemma wakes_app t1 t2 : wakes (t1 ++ t2) = wakes t1 ++ wakes t2.
Proof. apply omap_app. Qed.

(** A program that never wakes anybody. *)
Definition no_wake (X : Type) (e : turnsE X) : Prop := match e with LsNotify _ => False | _ => True end.
Definition wakeless {R} (p : prog turnsE R) : Prop := calls_in no_wake p.

Lemma wakeless_bind {R S} (p : prog turnsE R) (f : R -> prog turnsE S) :
  wakeless p -> (forall r, wakeless (f r)) -> wakeless (pbind p f).
Proof. apply calls_in_bind. Qed.

Lemma wakeless_traces {R} (p : prog turnsE R) t r : wakeless p -> traces p t r -> wakes t = [].
Proof.
  intros Hp Ht. pose proof (calls_in_traces _ _ _ _ Hp Ht) as Hall. clear Ht.
  induction Hall as [|[X e x] t He _ IH]; [done|]. simpl. fold (wakes t). rewrite IH. by destruct e.
Qed.

Ltac wakeless :=
  repeat match goal with
  | |- wakeless (pbind _ _) => apply wakeless_bind; [|intros ?]
  | |- wakeless (Ret _) => exact I
  | |- wakeless (trigger _) => split; [exact I|intros ?; exact I]
  | |- wakeless (match ?x with _ => _ end) => destruct x
  | |- wakeless _ => solve [auto]
  end.

Lemma wakeless_event me event : wakeless (publish_event_once_deferred me event).
Proof. unfold publish_event_once_deferred, with_gate. wakeless. Qed.
Lemma wakeless_state me state event : wakeless (publish_state_once me state event).
Proof. unfold publish_state_once, with_gate. wakeless. Qed.

Lemma wakeless_publishing me {A} (c : store_call A) : wakeless (publishing_call me c).
Proof.
  pose proof (wakeless_event me) as He. pose proof (wakeless_state me) as Hs.
  assert (forall rs failure, wakeless (publish_cancellations me rs failure)) as Hc.
  { induction rs as [|[req resp] rs IH]; intros failure; cbn [publish_cancellations]; wakeless. }
  assert (forall rs, wakeless (publish_recovered me rs)) as Hrec.
  { induction rs as [|state rs IH]; cbn [publish_recovered]; unfold publish_state_once_best_effort; wakeless. }
  destruct c; cbn [publishing_call]; unfold committed, publish_state_once_best_effort; wakeless.
Qed.

(** The wakes a success means. *)
Definition job_wakes {A} (j : turn_job A) : A -> list TurnRunWake :=
  match j in turn_job A return A -> list TurnRunWake with
  | JobSubmit req => fun x => [submit_wake (sq_scope req) x]
  | JobSubmitChild req _ => fun x => [submit_wake (cq_child_scope req) x]
  | JobResume req => fun x =>
      if bool_decide (rr_status x = Queued) then [resume_wake (rq_scope req) x] else []
  | JobCancel req => fun x => if cancel_wakes x then [cancel_wake (xq_scope req) x] else []
  | JobCancelTree _ => fun xs =>
      omap (fun r => if cancel_wakes r.2 then Some (cancel_wake (xq_scope r.1) r.2) else None) xs
  | _ => fun _ => []
  end.

(** [H] is a trace of a program that wakes nobody. *)
Ltac no_wakes H :=
  match type of H with
  | traces _ ?t _ =>
      let E := fresh in
      assert (wakes t = []) as E
        by (eapply wakeless_traces; [|exact H]; unfold deferred_publication_error; wakeless);
      rewrite E; clear E
  end.

Lemma notify_if_traces (b : bool) w {R} (k : unit -> prog turnsE R) t r :
  traces (pbind (if b then trigger (LsNotify w) else Ret tt) k) t r ->
  exists t', wakes t = (if b then [w] else []) ++ wakes t' /\ traces (k tt) t' r.
Proof. destruct b; simpl; [intros ([] & t' & -> & Ht)|]; eauto. Qed.

Lemma publishing_traces me {A R} (c : store_call A) (k : result A TurnError -> prog turnsE R) t r :
  traces (pbind (publishing_call me c) k) t r ->
  exists t' x, wakes t = wakes t' /\ traces (k x) t' r.
Proof.
  intros (t1 & t2 & x & -> & H1 & H2)%traces_bind. exists t2, x.
  by rewrite wakes_app, (wakeless_traces _ _ _ (wakeless_publishing me c) H1).
Qed.

Lemma after_submit_traces scope prepared resp t x :
  traces (after_submit scope prepared resp) t (Ok x) ->
  x = resp /\ wakes t = [submit_wake scope resp].
Proof.
  unfold after_submit. intros ([] & t' & -> & Ht). cbn [pbind] in Ht. simpl. fold (wakes t').
  assert (wakes t' = [] /\ x = resp) as [-> ->]; [|done]. split.
  - eapply wakeless_traces; [|exact Ht]. unfold deferred_publication_error. wakeless.
  - apply traces_bind in Ht as (t1 & t2 & [[]|e] & -> & _ & Ht); [|by destruct Ht].
    apply traces_bind in Ht as (t3 & t4 & [[]|e] & -> & _ & Ht); [|by destruct Ht].
    destruct Ht as [_ Ht]. congruence.
Qed.

Lemma after_cancel_traces req resp t r :
  traces (after_cancel req resp) t r ->
  wakes t = if cancel_wakes resp then [cancel_wake (xq_scope req) resp] else [].
Proof.
  unfold after_cancel. intros (t' & -> & Ht)%notify_if_traces.
  no_wakes Ht. apply app_nil_r.
Qed.

Lemma after_cancellations_traces responses failure t r :
  traces (after_cancellations responses failure) t r ->
  wakes t = omap (fun r => if cancel_wakes r.2 then Some (cancel_wake (xq_scope r.1) r.2) else None) responses.
Proof.
  revert failure t. induction responses as [|[req resp] responses IH]; intros failure t; simpl.
  - by intros [-> _].
  - intros (t1 & t2 & x & -> & H1%after_cancel_traces & H2%IH)%traces_bind.
    rewrite wakes_app, H1, H2. by destruct (cancel_wakes resp).
Qed.

(** A call of the coordinator that succeeds wakes the workers exactly as its answer
    says: once for an accepted submission, once for a resume that queued the run (a live
    native continuation keeps its runner), and once for each cancellation that was
    requested or is terminal; nothing else wakes anybody. *)
Theorem success_wakes_as_answered me A (j : turn_job A) t x :
  traces (run_job me j) t (Ok x) -> wakes t = job_wakes j x.
Proof.
  destruct j; cbn [run_job job_wakes].
  - intros Ht. eapply wakeless_traces; [|exact Ht]. unfold prepare_turn. wakeless.
  - intros Ht. eapply wakeless_traces; [|exact Ht]. unfold abort_prepared_turn. wakeless.
  - unfold co_submit_turn. intros (t1 & t2 & [[]|e] & -> & H1 & H2)%traces_bind; [|by destruct H2].
    rewrite wakes_app. no_wakes H1.
    apply publishing_traces in H2 as (t' & [resp|e] & -> & H2); [|by destruct H2].
    by apply after_submit_traces in H2 as [-> ->].
  - unfold co_submit_child_run. intros (t1 & t2 & [[]|e] & -> & H1 & H2)%traces_bind; [|by destruct H2].
    rewrite wakes_app. no_wakes H1.
    apply publishing_traces in H2 as (t' & [resp|e] & -> & H2); [|by destruct H2].
    by apply after_submit_traces in H2 as [-> ->].
  - unfold co_resume_turn. intros (t' & [resp|e] & -> & Ht)%publishing_traces; [|by destruct Ht].
    apply notify_if_traces in Ht as (t2 & -> & Ht).
    no_wakes Ht. rewrite app_nil_r. apply traces_bind in Ht as (t3 & t4 & [[]|e] & -> & _ & Ht); [|by destruct Ht].
    destruct Ht as [_ Hx]. injection Hx as ->. by case_bool_decide.
  - unfold co_cancel_run. intros (t' & [resp|e] & -> & Ht)%publishing_traces; [|by destruct Ht].
    apply traces_bind in Ht as (t1 & t2 & [[]|e] & -> & H1%after_cancel_traces & H2); [|by destruct H2].
    destruct H2 as [-> Hx]. injection Hx as ->. by rewrite app_nil_r.
  - unfold co_cancel_tree. intros (t' & [resps|e] & -> & Ht)%publishing_traces; [|by destruct Ht].
    apply traces_bind in Ht as (t1 & t2 & failure & -> & H1%after_cancellations_traces & H2).
    destruct H2 as [-> Hx]. destruct failure; [done|]. injection Hx as ->. by rewrite app_nil_r.
  - intros Ht. eapply wakeless_traces; [|exact Ht]. apply wakeless_publishing.
Qed.
