(* ===== verification/Triggers.v ===== *)
(** * Triggers: records, schedules and the repository

    [lib.rs] and [trusted_submit.rs] of [brassclaw_triggers].  A trigger is a stored
    prompt with a cron schedule; the poller ([TriggerPoller]) claims the slot of a due
    trigger, submits its prompt as a turn and records how that went, and users manage
    their triggers with tools ([TriggerTools]).  The repository is the table between
    them, here the in-memory one, whose operations run under one mutex.

    The [cron] crate, the digest and the text forms of instants and identifiers are
    classes of operations.  An expression is parsed anew at every use, and parsing looks
    at the clock: an operation takes the reading it makes as an argument.  Instants are
    nanoseconds, identifiers of triggers the 128-bit number of their ULID.

    The theorems here: what a stored record always satisfies, that no operation of the
    repository touches another trigger, and that the pages of the active scan add up to
    the active triggers. *)

From stdpp Require Import pretty.
From S2P Require Import Prelude HostIds HostTypes RunProfile TurnSnapshot.
Open Scope Z_scope.

Abbreviation Timestamp := Z.

(** ** The crates the triggers use *)

(** [Schedule::from_str] with the text of its error, and the items of
    [schedule.after(&t)] in order. *)
Class Cron : Type := {
  cron_schedule : Type;
  Schedule_from_str : string -> result cron_schedule string;
  schedule_after : cron_schedule -> Timestamp -> nat -> option Timestamp }.

(** The iterator yields instants after the one it starts from. *)
Class CronLaws (C : Cron) : Prop := {
  schedule_after_later : forall s t n u, schedule_after s t n = Some u -> t < u }.

(** [hex::encode(Sha256::digest(..))], [to_rfc3339_opts(Nanos, true)] and the text of a
    ULID, with its parser. *)
Class FireText : Type := {
  sha256_hex : string -> string;
  rfc3339_nanos : Timestamp -> string;
  ulid_text : Z -> string;
  ulid_from_str : string -> result Z string }.

(** ** Errors and identifiers *)

Inductive TriggerError : Type :=
| TgInvalidTriggerId (reason : string)
| TgInvalidFireIdentityComponent (label reason : string)
| TgInvalidRecord (reason : string)
| TgInvalidPollerConfig (reason : string)
| TgInvalidSchedule (reason : string)
| TgInvalidMaterialization (reason : string)
| TgBackend (reason : string)
| TgNotFound.

#[export] Instance TriggerError_eq_dec : EqDecision TriggerError.
Proof. solve_decision. Defined.

Definition TriggerError_display (e : TriggerError) : string :=
  match e with
  | TgInvalidTriggerId r => "invalid trigger id: " +:+ r
  | TgInvalidFireIdentityComponent l r => "invalid fire identity component " +:+ l +:+ ": " +:+ r
  | TgInvalidRecord r => "invalid trigger record: " +:+ r
  | TgInvalidPollerConfig r => "invalid trigger poller configuration: " +:+ r
  | TgInvalidSchedule r => "invalid schedule: " +:+ r
  | TgInvalidMaterialization r => "invalid trigger materialization: " +:+ r
  | TgBackend r => "trigger repository backend unavailable: " +:+ r
  | TgNotFound => "trigger not found"
  end.

Definition MIN_FIRE_CADENCE_SECS : Z := 60.
Definition MAX_DUE_TRIGGER_POLL_LIMIT : nat := 128.
Definition MAX_TRIGGER_LIST_LIMIT : nat := 100.
Definition MAX_TRIGGER_NAME_BYTES : Z := 256.
Definition MAX_TRIGGER_PROMPT_BYTES : Z := 32 * 1024.

Record TriggerId : Type := trigger_id { tid_ulid : Z }.

#[export] Instance TriggerId_eq_dec : EqDecision TriggerId.
Proof. solve_decision. Defined.
#[export] Instance TriggerId_countable : Countable TriggerId.
Proof. refine (inj_countable' tid_ulid trigger_id _). by intros []. Defined.

Definition TriggerId_parse `{FireText} (value : string) : result TriggerId TriggerError :=
  match ulid_from_str value with
  | Ok u => Ok (trigger_id u)
  | Err e => Err (TgInvalidTriggerId e)
  end.

Definition is_lower_hex (c : Ascii.ascii) : bool :=
  let b := byte_of c in ((48 <=? b) && (b <=? 57)) || ((97 <=? b) && (b <=? 102)).

Definition validate_lower_hex_identifier (label value : string) : result string TriggerError :=
  if (str_len value =? 64) && negb (any_byte (fun c => negb (is_lower_hex c)) value) then Ok value
  else Err (TgInvalidFireIdentityComponent label "must be 64 lowercase hex characters").

Record TriggerRouteThreadId : Type := route_thread_unchecked { route_thread_str : string }.
Record TriggerExternalEventId : Type := external_event_unchecked { external_event_str : string }.
Record TriggerInboundContentRef : Type := content_ref_unchecked { content_ref_str : string }.

Definition TriggerRouteThreadId_new (value : string) : result TriggerRouteThreadId TriggerError :=
  result_map route_thread_unchecked (validate_lower_hex_identifier "route thread id" value).
Definition TriggerExternalEventId_new (value : string) : result TriggerExternalEventId TriggerError :=
  result_map external_event_unchecked (validate_lower_hex_identifier "external event id" value).

Definition validate_inbound_content_ref (value : string) : result unit TriggerError :=
  if bool_decide (value = "") then
    Err (TgInvalidMaterialization "inbound content ref must not be empty")
  else if 512 <? str_len value then
    Err (TgInvalidMaterialization "inbound content ref must be at most 512 bytes")
  else if has_control value then
    Err (TgInvalidMaterialization "inbound content ref must not contain control characters")
  else Ok tt.

Definition TriggerInboundContentRef_new (value : string) : result TriggerInboundContentRef TriggerError :=
  let? _ := validate_inbound_content_ref value in Ok (content_ref_unchecked value).

(** ** Cron expressions *)

(** [str::trim]: white space goes from the front while there is some, and the text ends
    where only white space is left. *)
Fixpoint trim_front (fuel : nat) (s : string) : string :=
  match fuel with
  | O => s
  | S fuel => match strip_white s with Some t => trim_front fuel t | None => s end
  end.
Fixpoint trim_back (s : string) : string :=
  match s with
  | EmptyString => EmptyString
  | String.String c t => if is_blank s then EmptyString else String.String c (trim_back t)
  end.
Definition trim (s : string) : string := trim_back (trim_front (String.length s) s).

(** [split_whitespace]: [word] is the part read so far. *)
Fixpoint words (fuel : nat) (word s : string) : list string :=
  let done := if bool_decide (word = "") then [] else [word] in
  match fuel, s with
  | O, _ | _, EmptyString => done
  | S fuel, String.String c t =>
      match strip_white s with
      | Some rest => done ++ words fuel "" rest
      | None => words fuel (word +:+ String.String c EmptyString) t
      end
  end.
Definition split_whitespace (s : string) : list string := words (S (String.length s)) "" s.

Definition space : Ascii.ascii := " "%char.

(** [field.parse::<u32>() == Ok(0)]: zeros, with a plus sign at most. *)
Definition parses_to_zero (field : string) : bool :=
  let digits := match strip_prefix "+" field with Some t => t | None => field end in
  negb (bool_decide (digits = "")) && negb (any_byte (fun c => negb (byte_of c =? 48)) digits).

Definition reject_sub_minute_seconds_field (field : string) : result unit TriggerError :=
  if parses_to_zero (trim field) then Ok tt
  else Err (TgInvalidSchedule "cron schedules must not use second-level cadence; use second field `0`").

Definition normalize_cron_expression (expression : string) : result string TriggerError :=
  let trimmed := trim expression in
  if bool_decide (trimmed = "") then Err (TgInvalidSchedule "cron expression must not be empty")
  else
    let fields := split_whitespace trimmed in
    match length fields with
    | 5%nat => Ok ("0 " +:+ join_char space fields +:+ " *")
    | 6%nat =>
        let? _ := reject_sub_minute_seconds_field (hd "" fields) in
        Ok (join_char space fields +:+ " *")
    | 7%nat =>
        let? _ := reject_sub_minute_seconds_field (hd "" fields) in
        Ok trimmed
    | count => Err (TgInvalidSchedule ("expected 5, 6, or 7 cron fields, got " +:+ pretty (N.of_nat count)))
    end.

Section Schedules.
Context {C : Cron}.

(** [schedule.upcoming(Utc)] starts from the clock's reading [now]. *)
Definition reject_sub_minute_cadence (now : Timestamp) (s : cron_schedule) : result unit TriggerError :=
  match schedule_after s now 0 with
  | None => Err (TgInvalidSchedule "cron expression has no upcoming fire time")
  | Some first =>
      match schedule_after s now 1 with
      | None => Ok tt
      | Some second =>
          if Z.quot (second - first) 1000000000 <? MIN_FIRE_CADENCE_SECS
          then Err (TgInvalidSchedule "schedule can fire more frequently than once per minute")
          else Ok tt
      end
  end.

Definition parse_cron_schedule (now : Timestamp) (expression : string) : result cron_schedule TriggerError :=
  let? normalized := normalize_cron_expression expression in
  let? s := map_err (fun e => TgInvalidSchedule ("invalid cron expression: " +:+ e))
              (Schedule_from_str normalized) in
  let? _ := reject_sub_minute_cadence now s in
  Ok s.

End Schedules.

Inductive TriggerSchedule : Type := TsCron (expression : string).

#[export] Instance TriggerSchedule_eq_dec : EqDecision TriggerSchedule.
Proof. solve_decision. Defined.

Definition TriggerSchedule_validate `{Cron} (now : Timestamp) (self : TriggerSchedule) :
    result unit TriggerError :=
  match self with TsCron e => let? _ := parse_cron_schedule now e in Ok tt end.

Definition TriggerSchedule_cron `{Cron} (now : Timestamp) (expression : string) :
    result TriggerSchedule TriggerError :=
  let s := TsCron expression in
  let? _ := TriggerSchedule_validate now s in Ok s.

Definition next_slot_after `{Cron} (now : Timestamp) (self : TriggerSchedule) (after : Timestamp) :
    result (option Timestamp) TriggerError :=
  match self with
  | TsCron e => let? s := parse_cron_schedule now e in Ok (schedule_after s after 0)
  end.

(** ** Records *)

Inductive TriggerSourceKind : Type := SourceSchedule.
Inductive TriggerState : Type := TgScheduled | TgPaused | TgCompleted.
Inductive TriggerCompletionPolicy : Type := Recurring | CompleteAfterFirstFire.
Inductive TriggerRunStatus : Type := RunOk | RunError.

#[export] Instance TriggerSourceKind_eq_dec : EqDecision TriggerSourceKind.
Proof. solve_decision. Defined.
#[export] Instance TriggerState_eq_dec : EqDecision TriggerState.
Proof. solve_decision. Defined.

Record TriggerRecord : Type := mk_TriggerRecord {
  tg_trigger_id : TriggerId;
  tg_tenant_id : TenantId;
  tg_creator_user_id : UserId;
  tg_agent_id : option AgentId;
  tg_project_id : option ProjectId;
  tg_name : string;
  tg_source : TriggerSourceKind;
  tg_schedule : TriggerSchedule;
  tg_completion_policy : TriggerCompletionPolicy;
  tg_prompt : string;
  tg_state : TriggerState;
  tg_next_run_at : Timestamp;
  tg_last_run_at : option Timestamp;
  tg_last_fired_slot : option Timestamp;
  tg_last_status : option TriggerRunStatus;
  tg_active_fire_slot : option Timestamp;
  tg_active_run_ref : option TurnRunId;
  tg_created_at : Timestamp }.

(** The fields the repository changes. *)
Definition tg_with_active (slot : option Timestamp) (run : option TurnRunId) (r : TriggerRecord) : TriggerRecord :=
  mk_TriggerRecord (tg_trigger_id r) (tg_tenant_id r) (tg_creator_user_id r) (tg_agent_id r)
    (tg_project_id r) (tg_name r) (tg_source r) (tg_schedule r) (tg_completion_policy r)
    (tg_prompt r) (tg_state r) (tg_next_run_at r) (tg_last_run_at r) (tg_last_fired_slot r)
    (tg_last_status r) slot run (tg_created_at r).
Definition tg_with_status (status : TriggerRunStatus) (r : TriggerRecord) : TriggerRecord :=
  mk_TriggerRecord (tg_trigger_id r) (tg_tenant_id r) (tg_creator_user_id r) (tg_agent_id r)
    (tg_project_id r) (tg_name r) (tg_source r) (tg_schedule r) (tg_completion_policy r)
    (tg_prompt r) (tg_state r) (tg_next_run_at r) (tg_last_run_at r) (tg_last_fired_slot r)
    (Some status) (tg_active_fire_slot r) (tg_active_run_ref r) (tg_created_at r).
Definition tg_with_next (next : Timestamp) (r : TriggerRecord) : TriggerRecord :=
  mk_TriggerRecord (tg_trigger_id r) (tg_tenant_id r) (tg_creator_user_id r) (tg_agent_id r)
    (tg_project_id r) (tg_name r) (tg_source r) (tg_schedule r) (tg_completion_policy r)
    (tg_prompt r) (tg_state r) next (tg_last_run_at r) (tg_last_fired_slot r)
    (tg_last_status r) (tg_active_fire_slot r) (tg_active_run_ref r) (tg_created_at r).
Definition tg_with_fired (at_ slot : Timestamp) (r : TriggerRecord) : TriggerRecord :=
  mk_TriggerRecord (tg_trigger_id r) (tg_tenant_id r) (tg_creator_user_id r) (tg_agent_id r)
    (tg_project_id r) (tg_name r) (tg_source r) (tg_schedule r) (tg_completion_policy r)
    (tg_prompt r) (tg_state r) (tg_next_run_at r) (Some at_) (Some slot)
    (tg_last_status r) (tg_active_fire_slot r) (tg_active_run_ref r) (tg_created_at r).
Definition tg_with_state (st : TriggerState) (r : TriggerRecord) : TriggerRecord :=
  mk_TriggerRecord (tg_trigger_id r) (tg_tenant_id r) (tg_creator_user_id r) (tg_agent_id r)
    (tg_project_id r) (tg_name r) (tg_source r) (tg_schedule r) (tg_completion_policy r)
    (tg_prompt r) st (tg_next_run_at r) (tg_last_run_at r) (tg_last_fired_slot r)
    (tg_last_status r) (tg_active_fire_slot r) (tg_active_run_ref r) (tg_created_at r).
Definition tg_with_name (name : string) (r : TriggerRecord) : TriggerRecord :=
  mk_TriggerRecord (tg_trigger_id r) (tg_tenant_id r) (tg_creator_user_id r) (tg_agent_id r)
    (tg_project_id r) name (tg_source r) (tg_schedule r) (tg_completion_policy r)
    (tg_prompt r) (tg_state r) (tg_next_run_at r) (tg_last_run_at r) (tg_last_fired_slot r)
    (tg_last_status r) (tg_active_fire_slot r) (tg_active_run_ref r) (tg_created_at r).
Definition tg_with_schedule (s : TriggerSchedule) (next : Timestamp) (r : TriggerRecord) : TriggerRecord :=
  mk_TriggerRecord (tg_trigger_id r) (tg_tenant_id r) (tg_creator_user_id r) (tg_agent_id r)
    (tg_project_id r) (tg_name r) (tg_source r) s (tg_completion_policy r)
    (tg_prompt r) (tg_state r) next (tg_last_run_at r) (tg_last_fired_slot r)
    (tg_last_status r) (tg_active_fire_slot r) (tg_active_run_ref r) (tg_created_at r).
Definition tg_with_prompt (prompt : string) (r : TriggerRecord) : TriggerRecord :=
  mk_TriggerRecord (tg_trigger_id r) (tg_tenant_id r) (tg_creator_user_id r) (tg_agent_id r)
    (tg_project_id r) (tg_name r) (tg_source r) (tg_schedule r) (tg_completion_policy r)
    prompt (tg_state r) (tg_next_run_at r) (tg_last_run_at r) (tg_last_fired_slot r)
    (tg_last_status r) (tg_active_fire_slot r) (tg_active_run_ref r) (tg_created_at r).
Definition tg_with_policy (policy : TriggerCompletionPolicy) (r : TriggerRecord) : TriggerRecord :=
  mk_TriggerRecord (tg_trigger_id r) (tg_tenant_id r) (tg_creator_user_id r) (tg_agent_id r)
    (tg_project_id r) (tg_name r) (tg_source r) (tg_schedule r) policy
    (tg_prompt r) (tg_state r) (tg_next_run_at r) (tg_last_run_at r) (tg_last_fired_slot r)
    (tg_last_status r) (tg_active_fire_slot r) (tg_active_run_ref r) (tg_created_at r).

Definition TriggerRecord_validate `{Cron} (now : Timestamp) (self : TriggerRecord) : result unit TriggerError :=
  if is_blank (tg_name self) then Err (TgInvalidRecord "trigger name must not be empty")
  else if MAX_TRIGGER_NAME_BYTES <? str_len (tg_name self)
  then Err (TgInvalidRecord "trigger name must be at most 256 bytes")
  else if is_blank (tg_prompt self) then Err (TgInvalidRecord "trigger prompt must not be empty")
  else if MAX_TRIGGER_PROMPT_BYTES <? str_len (tg_prompt self)
  then Err (TgInvalidRecord "trigger prompt must be at most 32768 bytes")
  else if bool_decide (is_Some (tg_active_run_ref self)) && bool_decide (tg_active_fire_slot self = None)
  then Err (TgInvalidRecord "active_run_ref requires active_fire_slot")
  else TriggerSchedule_validate now (tg_schedule self).

Definition is_due_at (self : TriggerRecord) (now : Timestamp) : bool :=
  bool_decide (tg_state self = TgScheduled) && (tg_next_run_at self <=? now).

Definition has_active_fire (self : TriggerRecord) : bool :=
  bool_decide (is_Some (tg_active_fire_slot self)) || bool_decide (is_Some (tg_active_run_ref self)).

(** ** Fires *)

Section Fires.
Context {T : FireText}.

(** [value.len() as u64] in big-endian order, and the length-prefixed field. *)
Fixpoint be_bytes (n : nat) (z : Z) : string :=
  match n with
  | O => EmptyString
  | S n => be_bytes n (z / 256) +:+ bytes_str [z mod 256]
  end.
Definition length_prefixed (value : string) : string := be_bytes 8 (str_len value) +:+ value.

Definition IDENTITY_VERSION_LABEL : string := "brassclaw.trigger-fire.v1".
Definition ROUTE_THREAD_DOMAIN : string := "route-thread".
Definition EXTERNAL_EVENT_DOMAIN : string := "external-event".

(** What [derive_fire_digest] feeds to the hasher. *)
Definition fire_preimage (domain_label : string) (tenant_id : TenantId) (id : TriggerId)
    (fire_slot : Timestamp) : string :=
  IDENTITY_VERSION_LABEL +:+ bytes_str [0] +:+ domain_label +:+ bytes_str [0]
  +:+ length_prefixed (as_str tenant_id) +:+ length_prefixed (ulid_text (tid_ulid id))
  +:+ length_prefixed (rfc3339_nanos fire_slot).

Definition derive_fire_digest (domain_label : string) (tenant_id : TenantId) (id : TriggerId)
    (fire_slot : Timestamp) : string :=
  sha256_hex (fire_preimage domain_label tenant_id id fire_slot).

Record TriggerFireIdentity : Type := mk_TriggerFireIdentity {
  fi_tenant_id : TenantId;
  fi_trigger_id : TriggerId;
  fi_fire_slot : Timestamp;
  fi_route_thread_id : TriggerRouteThreadId;
  fi_external_event_id : TriggerExternalEventId }.

Definition TriggerFireIdentity_new (tenant_id : TenantId) (id : TriggerId) (fire_slot : Timestamp) :
    TriggerFireIdentity :=
  mk_TriggerFireIdentity tenant_id id fire_slot
    (route_thread_unchecked (derive_fire_digest ROUTE_THREAD_DOMAIN tenant_id id fire_slot))
    (external_event_unchecked (derive_fire_digest EXTERNAL_EVENT_DOMAIN tenant_id id fire_slot)).

Record TriggerFire : Type := mk_TriggerFire {
  fire_identity : TriggerFireIdentity;
  fire_creator_user_id : UserId;
  fire_agent_id : option AgentId;
  fire_project_id : option ProjectId;
  fire_prompt : string }.

(** [ScheduleTriggerSourceProvider::evaluate]; [clock] is the reading of the schedule's
    validation, [now] the argument. *)
Definition schedule_evaluate `{Cron} (clock : Timestamp) (record : TriggerRecord) (now : Timestamp) :
    result (option TriggerFire) TriggerError :=
  let? _ := TriggerRecord_validate clock record in
  if negb (bool_decide (tg_source record = SourceSchedule)) || negb (is_due_at record now) then Ok None
  else
    Ok (Some (mk_TriggerFire
      (TriggerFireIdentity_new (tg_tenant_id record) (tg_trigger_id record) (tg_next_run_at record))
      (tg_creator_user_id record) (tg_agent_id record) (tg_project_id record) (tg_prompt record))).

(** [trusted_submit.rs] *)
Definition TRIGGER_TRUSTED_ADAPTER_KIND : string := "trigger".
Definition TRIGGER_TRUSTED_ADAPTER_INSTALLATION_ID : string := "reborn-trigger-poller".
Definition TRIGGER_TRUSTED_EXTERNAL_ACTOR_NAMESPACE : string := "user".

Record TriggerTrustedInboundBinding : Type := mk_TriggerTrustedInboundBinding {
  tb_adapter_kind : string;
  tb_adapter_installation_id : string;
  tb_external_actor_namespace : string;
  tb_external_actor_id : string;
  tb_external_conversation_id : string;
  tb_route_thread_id : string;
  tb_external_event_id : string }.

Definition binding_for_fire (fire : TriggerFire) : TriggerTrustedInboundBinding :=
  mk_TriggerTrustedInboundBinding TRIGGER_TRUSTED_ADAPTER_KIND TRIGGER_TRUSTED_ADAPTER_INSTALLATION_ID
    TRIGGER_TRUSTED_EXTERNAL_ACTOR_NAMESPACE (as_str (fire_creator_user_id fire))
    ("trigger-" +:+ ulid_text (tid_ulid (fi_trigger_id (fire_identity fire))))
    (route_thread_str (fi_route_thread_id (fire_identity fire)))
    (external_event_str (fi_external_event_id (fire_identity fire))).

Record TriggerMaterializedPrompt : Type := mk_TriggerMaterializedPrompt {
  mp_content_ref : TriggerInboundContentRef;
  mp_trusted_inbound_binding : TriggerTrustedInboundBinding }.

Definition materialized_for_fire (fire : TriggerFire) (content_ref : TriggerInboundContentRef) :
    TriggerMaterializedPrompt :=
  mk_TriggerMaterializedPrompt content_ref (binding_for_fire fire).

End Fires.

(** ** Requests and answers of the repository *)

Record ClaimDueFireRequest : Type := mk_ClaimDueFireRequest {
  cd_tenant_id : TenantId; cd_trigger_id : TriggerId; cd_fire_slot : Timestamp; cd_now : Timestamp }.

Record ClaimedTriggerFire : Type := mk_ClaimedTriggerFire {
  cf_record : TriggerRecord; cf_fire_slot : Timestamp }.

Inductive ClaimDueFireOutcome : Type :=
| FireClaimed (c : ClaimedTriggerFire)
| FireNotFound
| FireNotDue (record : TriggerRecord)
| FireAlreadyActive (active_fire_slot : option Timestamp) (active_run_ref : option TurnRunId).

Record FireAcceptedRequest : Type := mk_FireAcceptedRequest {
  fa_tenant_id : TenantId; fa_trigger_id : TriggerId; fa_fire_slot : Timestamp;
  fa_run_id : TurnRunId; fa_submitted_at : Timestamp; fa_next_run_at : Timestamp }.

Record FireReplayedRequest : Type := mk_FireReplayedRequest {
  fr_tenant_id : TenantId; fr_trigger_id : TriggerId; fr_fire_slot : Timestamp;
  fr_original_run_id : TurnRunId; fr_replayed_at : Timestamp; fr_next_run_at : Timestamp }.

Record FireRetryableFailedRequest : Type := mk_FireRetryableFailedRequest {
  ff_tenant_id : TenantId; ff_trigger_id : TriggerId; ff_fire_slot : Timestamp }.

Record FirePermanentFailedRequest : Type := mk_FirePermanentFailedRequest {
  fp_tenant_id : TenantId; fp_trigger_id : TriggerId; fp_fire_slot : Timestamp;
  fp_next_run_at : Timestamp }.

Record FireTerminalFailedRequest : Type := mk_FireTerminalFailedRequest {
  ft_tenant_id : TenantId; ft_trigger_id : TriggerId; ft_fire_slot : Timestamp }.

Record ClearActiveFireRequest : Type := mk_ClearActiveFireRequest {
  ca_tenant_id : TenantId; ca_trigger_id : TriggerId; ca_fire_slot : Timestamp; ca_run_id : TurnRunId }.

Record ActiveTriggerScanCursor : Type := mk_ActiveTriggerScanCursor {
  sc_active_fire_slot : Timestamp; sc_tenant_id : TenantId; sc_trigger_id : TriggerId }.

Definition cursor_from_active_record (record : TriggerRecord) : option ActiveTriggerScanCursor :=
  slot ← tg_active_fire_slot record;
  Some (mk_ActiveTriggerScanCursor slot (tg_tenant_id record) (tg_trigger_id record)).

Record TriggerUpdatePatch : Type := mk_TriggerUpdatePatch {
  up_name : option string;
  up_schedule : option TriggerSchedule;
  up_prompt : option string;
  up_completion_policy : option TriggerCompletionPolicy }.

Definition TriggerUpdatePatch_validate `{Cron} (now : Timestamp) (self : TriggerUpdatePatch) :
    result unit TriggerError :=
  let? _ := match up_schedule self with
            | Some s => TriggerSchedule_validate now s
            | None => Ok tt
            end in
  let? _ := match up_name self with
            | Some name =>
                if is_blank name then Err (TgInvalidRecord "name must not be empty")
                else if MAX_TRIGGER_NAME_BYTES <? str_len name
                then Err (TgInvalidRecord "name must be at most 256 bytes")
                else Ok tt
            | None => Ok tt
            end in
  match up_prompt self with
  | Some prompt =>
      if is_blank prompt then Err (TgInvalidRecord "prompt must not be empty")
      else if MAX_TRIGGER_PROMPT_BYTES <? str_len prompt
      then Err (TgInvalidRecord "prompt must be at most 32768 bytes")
      else Ok tt
  | None => Ok tt
  end.

(** ** The in-memory repository *)

Abbreviation TriggerRepositoryKey := (TenantId * TriggerId)%type.
Definition key_of_record (r : TriggerRecord) : TriggerRepositoryKey := (tg_tenant_id r, tg_trigger_id r).

Record TriggerRepository : Type := mk_TriggerRepository {
  repo_poisoned : bool;
  repo_records : gmap TriggerRepositoryKey TriggerRecord }.

Definition tg_with_records (m : gmap TriggerRepositoryKey TriggerRecord) (s : TriggerRepository) :
    TriggerRepository := mk_TriggerRepository (repo_poisoned s) m.

Definition lock_state (s : TriggerRepository) :
    result (gmap TriggerRepositoryKey TriggerRecord) TriggerError :=
  if repo_poisoned s then Err (TgBackend "trigger repository mutex poisoned") else Ok (repo_records s).

Definition tg_upsert `{Cron} (now : Timestamp) (record : TriggerRecord) (s : TriggerRepository) :
    TriggerRepository * result unit TriggerError :=
  match (let? _ := TriggerRecord_validate now record in lock_state s) with
  | Ok m => (tg_with_records (<[key_of_record record := record]> m) s, Ok tt)
  | Err e => (s, Err e)
  end.

Definition tg_get (tenant_id : TenantId) (id : TriggerId) (s : TriggerRepository) :
    result (option TriggerRecord) TriggerError :=
  let? m := lock_state s in Ok (m !! (tenant_id, id)).

Definition compare_created (a b : TriggerRecord) : comparison :=
  then_with (tg_created_at a ?= tg_created_at b)
    (tid_ulid (tg_trigger_id a) ?= tid_ulid (tg_trigger_id b)).

Definition tg_list (tenant_id : TenantId) (s : TriggerRepository) : result (list TriggerRecord) TriggerError :=
  let? m := lock_state s in
  Ok (sort_by compare_created
        (List.filter (fun r => bool_decide (tg_tenant_id r = tenant_id)) (map_to_list m).*2)).

Definition in_caller_scope (tenant_id : TenantId) (user : UserId) (agent : option AgentId)
    (project : option ProjectId) (r : TriggerRecord) : bool :=
  bool_decide (tg_tenant_id r = tenant_id) && bool_decide (tg_creator_user_id r = user)
  && bool_decide (tg_agent_id r = agent) && bool_decide (tg_project_id r = project).

Definition tg_list_scoped (tenant_id : TenantId) (user : UserId) (agent : option AgentId)
    (project : option ProjectId) (limit : nat) (s : TriggerRepository) :
    result (list TriggerRecord) TriggerError :=
  if bool_decide (limit = 0%nat) then Ok []
  else
    let? m := lock_state s in
    Ok (take (limit `min` MAX_TRIGGER_LIST_LIMIT)
          (sort_by compare_created
             (List.filter (in_caller_scope tenant_id user agent project) (map_to_list m).*2))).

Definition tg_remove (tenant_id : TenantId) (id : TriggerId) (s : TriggerRepository) :
    TriggerRepository * result (option TriggerRecord) TriggerError :=
  match lock_state s with
  | Ok m => (tg_with_records (delete (tenant_id, id) m) s, Ok (m !! (tenant_id, id)))
  | Err e => (s, Err e)
  end.

Definition tg_remove_scoped (tenant_id : TenantId) (user : UserId) (agent : option AgentId)
    (project : option ProjectId) (id : TriggerId) (s : TriggerRepository) :
    TriggerRepository * result (option TriggerRecord) TriggerError :=
  match lock_state s with
  | Err e => (s, Err e)
  | Ok m =>
      match m !! (tenant_id, id) with
      | None => (s, Ok None)
      | Some r =>
          if negb (bool_decide (tg_creator_user_id r = user)) || negb (bool_decide (tg_agent_id r = agent))
             || negb (bool_decide (tg_project_id r = project))
          then (s, Ok None)
          else (tg_with_records (delete (tenant_id, id) m) s, Ok (Some r))
      end
  end.

(** The sort keys of the two trusted scans: an instant, the tenant and the trigger. *)
Abbreviation scan_key := (Timestamp * TenantId * TriggerId)%type.
Definition cmp_scan_key (a b : scan_key) : comparison :=
  let '(ta, na, ia) := a in
  let '(tb, nb, ib) := b in
  then_with (ta ?= tb) (then_with (cmp_str (as_str na) (as_str nb)) (tid_ulid ia ?= tid_ulid ib)).

Definition due_key (r : TriggerRecord) : scan_key := (tg_next_run_at r, tg_tenant_id r, tg_trigger_id r).

(** The selected keys are looked up again under the same lock. *)
Definition tg_list_due (now : Timestamp) (limit : nat) (s : TriggerRepository) :
    result (list TriggerRecord) TriggerError :=
  if bool_decide (limit = 0%nat) then Ok []
  else
    let? m := lock_state s in
    Ok (omap (fun p => m !! p.2)
          (take (limit `min` MAX_DUE_TRIGGER_POLL_LIMIT)
             (sort_by (fun a b => cmp_scan_key a.1 b.1)
                (map (fun p => (due_key p.2, p.1))
                   (List.filter (fun p => is_due_at p.2 now && negb (has_active_fire p.2))
                      (map_to_list m)))))).

Definition cursor_key (c : ActiveTriggerScanCursor) : scan_key :=
  (sc_active_fire_slot c, sc_tenant_id c, sc_trigger_id c).

Definition after_cursor (after : option ActiveTriggerScanCursor) (k : scan_key) : bool :=
  match after with
  | Some c => match cmp_scan_key k (cursor_key c) with Gt => true | _ => false end
  | None => true
  end.

(** The records with an active slot, with their keys. *)
Definition active_entries (m : gmap TriggerRepositoryKey TriggerRecord) : list (scan_key * TriggerRecord) :=
  omap (fun r => slot ← tg_active_fire_slot r; Some ((slot, tg_tenant_id r, tg_trigger_id r), r))
    (map_to_list m).*2.

Definition tg_list_active_after (after : option ActiveTriggerScanCursor) (limit : nat)
    (s : TriggerRepository) : result (list TriggerRecord) TriggerError :=
  if bool_decide (limit = 0%nat) then Ok []
  else
    let? m := lock_state s in
    Ok (map snd
          (take (limit `min` MAX_DUE_TRIGGER_POLL_LIMIT)
             (sort_by (fun a b => cmp_scan_key a.1 b.1)
                (List.filter (fun p => after_cursor after p.1) (active_entries m))))).

Definition tg_list_active (limit : nat) (s : TriggerRepository) := tg_list_active_after None limit s.

Definition tg_claim_due_fire (req : ClaimDueFireRequest) (s : TriggerRepository) :
    TriggerRepository * result ClaimDueFireOutcome TriggerError :=
  match lock_state s with
  | Err e => (s, Err e)
  | Ok m =>
      let key := (cd_tenant_id req, cd_trigger_id req) in
      match m !! key with
      | None => (s, Ok FireNotFound)
      | Some r =>
          if negb (bool_decide (tg_state r = TgScheduled))
             || negb (tg_next_run_at r =? cd_fire_slot req) || (cd_now req <? cd_fire_slot req)
          then (s, Ok (FireNotDue r))
          else if has_active_fire r
          then (s, Ok (FireAlreadyActive (tg_active_fire_slot r) (tg_active_run_ref r)))
          else
            let r' := tg_with_active (Some (cd_fire_slot req)) None r in
            (tg_with_records (<[key := r']> m) s,
             Ok (FireClaimed (mk_ClaimedTriggerFire r' (cd_fire_slot req))))
      end
  end.

(** The closures refuse before they write. *)
Definition update_claimed_fire (tenant_id : TenantId) (id : TriggerId) (fire_slot : Timestamp)
    (update : TriggerRecord -> result TriggerRecord TriggerError) (s : TriggerRepository) :
    TriggerRepository * result (option TriggerRecord) TriggerError :=
  match lock_state s with
  | Err e => (s, Err e)
  | Ok m =>
      match m !! (tenant_id, id) with
      | None => (s, Ok None)
      | Some r =>
          if negb (bool_decide (tg_active_fire_slot r = Some fire_slot)) then (s, Ok None)
          else match update r with
               | Ok r' => (tg_with_records (<[(tenant_id, id) := r']> m) s, Ok (Some r'))
               | Err e => (s, Err e)
               end
      end
  end.

Definition reject_non_future_next_run_at (fire_slot next_run_at : Timestamp) : result unit TriggerError :=
  if fire_slot <? next_run_at then Ok tt
  else Err (TgInvalidRecord "fire result next_run_at must be after the claimed fire slot").
Definition reject_run_ref_rewrite (active incoming : TurnRunId) : result unit TriggerError :=
  if bool_decide (active = incoming) then Ok tt
  else Err (TgInvalidRecord "fire result must not rewrite an existing active_run_ref").
Definition reject_failed_result_after_active_run (active : option TurnRunId) : result unit TriggerError :=
  if bool_decide (active = None) then Ok tt
  else Err (TgInvalidRecord "fire failure result must not clear an accepted active_run_ref").

(** The common closure of [mark_fire_accepted] and [mark_fire_replayed]. *)
Definition record_run (slot : Timestamp) (run : TurnRunId) (at_ next : Timestamp) (r : TriggerRecord) :
    result TriggerRecord TriggerError :=
  match tg_active_run_ref r with
  | Some active => let? _ := reject_run_ref_rewrite active run in Ok r
  | None =>
      let? _ := reject_non_future_next_run_at slot next in
      Ok (tg_with_active (Some slot) (Some run)
            (tg_with_next next (tg_with_status RunOk (tg_with_fired at_ slot r))))
  end.

Definition mark_fire_accepted (req : FireAcceptedRequest) :=
  update_claimed_fire (fa_tenant_id req) (fa_trigger_id req) (fa_fire_slot req)
    (record_run (fa_fire_slot req) (fa_run_id req) (fa_submitted_at req) (fa_next_run_at req)).
Definition mark_fire_replayed (req : FireReplayedRequest) :=
  update_claimed_fire (fr_tenant_id req) (fr_trigger_id req) (fr_fire_slot req)
    (record_run (fr_fire_slot req) (fr_original_run_id req) (fr_replayed_at req) (fr_next_run_at req)).

Definition mark_fire_retryable_failed (req : FireRetryableFailedRequest) :=
  update_claimed_fire (ff_tenant_id req) (ff_trigger_id req) (ff_fire_slot req) (fun r =>
    let? _ := reject_failed_result_after_active_run (tg_active_run_ref r) in
    if ff_fire_slot req <? tg_next_run_at r
    then Err (TgInvalidRecord "retryable fire failure must leave next_run_at at or before the failed fire slot")
    else Ok (tg_with_active None None (tg_with_status RunError r))).

Definition mark_fire_permanently_failed (req : FirePermanentFailedRequest) :=
  update_claimed_fire (fp_tenant_id req) (fp_trigger_id req) (fp_fire_slot req) (fun r =>
    let? _ := reject_failed_result_after_active_run (tg_active_run_ref r) in
    let? _ := reject_non_future_next_run_at (fp_fire_slot req) (fp_next_run_at req) in
    Ok (tg_with_active None None (tg_with_next (fp_next_run_at req) (tg_with_status RunError r)))).

Definition mark_fire_terminally_failed (req : FireTerminalFailedRequest) :=
  update_claimed_fire (ft_tenant_id req) (ft_trigger_id req) (ft_fire_slot req) (fun r =>
    let? _ := reject_failed_result_after_active_run (tg_active_run_ref r) in
    Ok (tg_with_active None None (tg_with_status RunError (tg_with_state TgCompleted r)))).

Definition clear_active_fire (req : ClearActiveFireRequest) (s : TriggerRepository) :
    TriggerRepository * result (option TriggerRecord) TriggerError :=
  match lock_state s with
  | Err e => (s, Err e)
  | Ok m =>
      match m !! (ca_tenant_id req, ca_trigger_id req) with
      | None => (s, Ok None)
      | Some r =>
          if negb (bool_decide (tg_active_fire_slot r = Some (ca_fire_slot req)))
             || negb (bool_decide (tg_active_run_ref r = Some (ca_run_id req)))
          then (s, Ok None)
          else
            let r' := tg_with_active None None r in
            (tg_with_records (<[(ca_tenant_id req, ca_trigger_id req) := r']> m) s, Ok (Some r'))
      end
  end.

Definition option_apply {A B} (f : A -> B -> B) (o : option A) (b : B) : B :=
  match o with Some a => f a b | None => b end.

(** The new name is written before the schedule's slot is looked for, and stays written
    when there is none.  [after] and [now] are the two readings of the clock. *)
Definition tg_update `{Cron} (after now : Timestamp) (tenant_id : TenantId) (id : TriggerId)
    (patch : TriggerUpdatePatch) (s : TriggerRepository) :
    TriggerRepository * result (option TriggerRecord) TriggerError :=
  match lock_state s with
  | Err e => (s, Err e)
  | Ok m =>
      match m !! (tenant_id, id) with
      | None => (s, Ok None)
      | Some r =>
          let named := option_apply tg_with_name (up_name patch) r in
          let scheduled :=
            match up_schedule patch with
            | None => Ok named
            | Some sch =>
                match next_slot_after now sch after with
                | Err e => Err (TgInvalidSchedule (TriggerError_display e))
                | Ok None => Err (TgInvalidSchedule "no future slot")
                | Ok (Some next) => Ok (tg_with_schedule sch next named)
                end
            end in
          match scheduled with
          | Err e => (tg_with_records (<[(tenant_id, id) := named]> m) s, Err e)
          | Ok r1 =>
              let r' := option_apply tg_with_policy (up_completion_policy patch)
                          (option_apply tg_with_prompt (up_prompt patch) r1) in
              (tg_with_records (<[(tenant_id, id) := r']> m) s, Ok (Some r'))
          end
      end
  end.

Definition tg_set_state (tenant_id : TenantId) (id : TriggerId) (state : TriggerState)
    (s : TriggerRepository) : TriggerRepository * result (option TriggerRecord) TriggerError :=
  match lock_state s with
  | Err e => (s, Err e)
  | Ok m =>
      match m !! (tenant_id, id) with
      | None => (s, Ok None)
      | Some r =>
          let r' := tg_with_state state r in
          (tg_with_records (<[(tenant_id, id) := r']> m) s, Ok (Some r'))
      end
  end.

(** The in-memory repository has no table of runs. *)
Record TriggerRunRecord : Type := mk_TriggerRunRecord {
  trr_run_id : string; trr_fire_slot : option Timestamp; trr_started_at : Timestamp;
  trr_finished_at : option Timestamp; trr_status : TriggerRunStatus }.
Definition tg_list_runs (_ : TenantId) (_ : TriggerId) (_ : nat) (_ : TriggerRepository) :
    result (list TriggerRunRecord) TriggerError := Ok [].

(** ** The scan order is linear *)

Class LinearCmp {A} (cmp : A -> A -> comparison) : Prop := {
  lc_eq a b : cmp a b = Eq -> a = b;
  lc_refl a : cmp a a = Eq;
  lc_opp a b : cmp b a = CompOpp (cmp a b);
  lc_trans a b c : cmp a b = Lt -> cmp b c = Lt -> cmp a c = Lt }.

#[export] Instance Z_linear : LinearCmp Z.compare.
Proof.
  split; [apply Z.compare_eq | apply Z.compare_refl | intros; by rewrite Z.compare_antisym |].
  intros a b c. rewrite !Z.compare_lt_iff. lia.
Qed.

#[export] Instance str_linear : LinearCmp cmp_str.
Proof.
  split; unfold cmp_str.
  - by intros a b ?%String.compare_eq_iff.
  - intros a. induction a as [|x a IH]; simpl; [done|]. unfold Ascii.compare. by rewrite N.compare_refl.
  - intros a b. by rewrite String.compare_antisym.
  - intros a. induction a as [|x a IH]; intros [|y b] [|z c]; simpl; try done.
    unfold Ascii.compare.
    destruct (N.compare_spec (Ascii.N_of_ascii x) (Ascii.N_of_ascii y)) as [E1|E1|E1]; [| |done];
    destruct (N.compare_spec (Ascii.N_of_ascii y) (Ascii.N_of_ascii z)) as [E2|E2|E2]; [| | | | |done];
    destruct (N.compare_spec (Ascii.N_of_ascii x) (Ascii.N_of_ascii z)) as [E3|E3|E3];
      try done; try lia; intros H1 H2; try done. by eapply IH.
Qed.

Lemma cmp_scan_key_linear : LinearCmp cmp_scan_key.
Proof.
  split.
  - intros [[ta [na]] [ia]] [[tb [nb]] [ib]]. unfold cmp_scan_key, then_with. simpl.
    destruct (ta ?= tb) eqn:E1; try done. destruct (cmp_str na nb) eqn:E2; try done. intros E3.
    apply lc_eq in E1, E2, E3. by subst.
  - intros [[ta na] ia]. unfold cmp_scan_key. by rewrite !lc_refl.
  - intros [[ta na] ia] [[tb nb] ib]. unfold cmp_scan_key.
    rewrite (lc_opp ta), (lc_opp (cmp := cmp_str) (as_str na)), (lc_opp (tid_ulid ia)).
    destruct (ta ?= tb), (cmp_str _ _), (tid_ulid ia ?= _); done.
  - intros [[ta na] ia] [[tb nb] ib] [[tc nc] ic]. unfold cmp_scan_key, then_with.
    destruct (ta ?= tb) eqn:E1, (tb ?= tc) eqn:E2; try done.
    + apply lc_eq in E1 as ->, E2 as ->. rewrite lc_refl.
      destruct (cmp_str (as_str na) (as_str nb)) eqn:E3,
               (cmp_str (as_str nb) (as_str nc)) eqn:E4; try done.
      * apply lc_eq in E3 as ->. rewrite E4. apply lc_trans.
      * apply lc_eq in E3 as ->. by rewrite E4.
      * apply lc_eq in E4 as <-. by rewrite E3.
      * by rewrite (lc_trans _ _ _ E3 E4).
    + apply lc_eq in E1 as ->. by rewrite E2.
    + apply lc_eq in E2 as <-. by rewrite E1.
    + by rewrite (lc_trans _ _ _ E1 E2).
Qed.
#[export] Existing Instance cmp_scan_key_linear.

Section SortBy.
(** Sorting with a linear order on keys that differ, the sorted list is strict. *)
Context {A K} (ck : K -> K -> comparison) (key : A -> K) `{!LinearCmp ck}.
Let le := in_order (fun a b => ck (key a) (key b)).

#[local] Instance le_trans' : Transitive le.
Proof.
  unfold le, in_order. intros a b c. destruct (ck (key a) (key b)) eqn:E1; [| |done].
  - apply lc_eq in E1. by rewrite E1.
  - intros _. destruct (ck (key b) (key c)) eqn:E2; [| |done].
    + apply lc_eq in E2. by rewrite <- E2, E1.
    + by rewrite (lc_trans _ _ _ E1 E2).
Qed.
#[local] Instance le_total' : Total le.
Proof.
  intros a b. unfold le, in_order. rewrite (lc_opp (key a) (key b)).
  destruct (ck (key a) (key b)); [by left | by left | by right].
Qed.

Lemma sort_by_key_sorted l : StronglySorted le (sort_by (fun a b => ck (key a) (key b)) l).
Proof. apply (StronglySorted_merge_sort le). Qed.

Lemma le_key_antisym a b : le a b -> le b a -> key a = key b.
Proof.
  unfold le, in_order. rewrite (lc_opp (key a) (key b)).
  destruct (ck (key a) (key b)) eqn:E; simpl; [|done|done]. intros _ _. by apply lc_eq.
Qed.

(** Filtering commutes with sorting. *)
Lemma filter_sort_by (f : A -> bool) l :
  (forall a b, a ∈ l -> b ∈ l -> key a = key b -> a = b) ->
  sort_by (fun a b => ck (key a) (key b)) (List.filter f l)
  = List.filter f (sort_by (fun a b => ck (key a) (key b)) l).
Proof.
  intros Hinj. apply (StronglySorted_unique_strong le).
  - intros a b Ha Hb H1 H2. unfold sort_by in Ha, Hb.
    rewrite merge_sort_Permutation, list_elem_of_In, filter_In in Ha.
    rewrite list_elem_of_In, filter_In, <- list_elem_of_In, merge_sort_Permutation in Hb.
    rewrite <- list_elem_of_In in Ha. apply Hinj; [tauto | tauto | by apply le_key_antisym].
  - apply sort_by_key_sorted.
  - pose proof (sort_by_key_sorted l) as Hs. induction Hs as [|a l' Hs IH Ha]; simpl; [constructor|].
    destruct (f a); [|done]. constructor; [done|]. rewrite Forall_forall in *.
    intros b Hb. rewrite list_elem_of_In, filter_In, <- list_elem_of_In in Hb. apply Ha, Hb.
  - unfold sort_by. rewrite merge_sort_Permutation.
    assert (forall l1 l2, l1 ≡ₚ l2 -> List.filter f l1 ≡ₚ List.filter f l2) as Hp.
    { intros l1 l2 Hp. induction Hp; simpl; repeat case_match; eauto using perm_skip, perm_swap, perm_trans. }
    symmetry. apply Hp, merge_sort_Permutation.
Qed.
End SortBy.

(** ** The pages of the active scan *)

Definition repo_keyed (s : TriggerRepository) : Prop :=
  forall k r, repo_records s !! k = Some r -> key_of_record r = k.

Definition last_cursor (page : list TriggerRecord) : option ActiveTriggerScanCursor :=
  last page ≫= cursor_from_active_record.

(** Page after page, each from the last record of the page before. *)
Fixpoint scan_pages (fuel : nat) (after : option ActiveTriggerScanCursor) (limit : nat)
    (s : TriggerRepository) : result (list (list TriggerRecord)) TriggerError :=
  match fuel with
  | O => Ok []
  | S fuel =>
      let? page := tg_list_active_after after limit s in
      match page with
      | [] => Ok []
      | _ => let? rest := scan_pages fuel (last_cursor page) limit s in Ok (page :: rest)
      end
  end.

Definition is_active (r : TriggerRecord) : bool := bool_decide (is_Some (tg_active_fire_slot r)).

Definition scan_list (m : gmap TriggerRepositoryKey TriggerRecord) : list (scan_key * TriggerRecord) :=
  sort_by (fun a b => cmp_scan_key a.1 b.1) (active_entries m).

Lemma active_entries_records m :
  map snd (active_entries m) = List.filter is_active (map_to_list m).*2.
Proof.
  unfold active_entries. induction ((map_to_list m).*2) as [|r l IH]; [done|].
  cbn [omap list_omap List.filter]. unfold is_active at 1.
  destruct (tg_active_fire_slot r); cbn; [f_equal; exact IH | exact IH].
Qed.

Lemma active_entry m k r :
  (k, r) ∈ active_entries m ->
  r ∈ (map_to_list m).*2 /\ exists slot, tg_active_fire_slot r = Some slot /\
    k = (slot, tg_tenant_id r, tg_trigger_id r).
Proof.
  unfold active_entries. intros (r' & Hr & He)%list_elem_of_omap.
  destruct (tg_active_fire_slot r') as [slot|] eqn:Ha; [|done]. injection He as <- <-. eauto.
Qed.

Lemma active_keys_differ m p q :
  (forall k r, m !! k = Some r -> key_of_record r = k) ->
  p ∈ active_entries m -> q ∈ active_entries m -> p.1 = q.1 -> p = q.
Proof.
  destruct p as [k1 r1], q as [k2 r2]. simpl.
  intros Hm [H1 (s1 & Ha1 & ->)]%active_entry [H2 (s2 & Ha2 & ->)]%active_entry Heq.
  injection Heq as -> Ht Hi. f_equal; [by rewrite Ht, Hi|].
  apply list_elem_of_fmap in H1 as ([k1 ?] & -> & H1), H2 as ([k2 ?] & -> & H2).
  apply elem_of_map_to_list in H1, H2. simpl in *.
  pose proof (Hm _ _ H1). pose proof (Hm _ _ H2). unfold key_of_record in *. congruence.
Qed.

(** What comes after the cursor of an element of the sorted list is its tail. *)
Lemma filter_after_cursor m l1 x l2 c :
  (forall k r, m !! k = Some r -> key_of_record r = k) ->
  scan_list m = l1 ++ x :: l2 -> cursor_key c = x.1 ->
  List.filter (fun p => after_cursor (Some c) p.1) (scan_list m) = l2.
Proof.
  intros Hm Hl Hc. pose proof (sort_by_key_sorted cmp_scan_key fst (active_entries m)) as Hs.
  fold (scan_list m) in Hs.
  assert (forall y, y ∈ scan_list m -> y ∈ active_entries m) as Hin.
  { intros y. unfold scan_list, sort_by. by rewrite merge_sort_Permutation. }
  assert (NoDup (scan_list m)) as Hnd.
  { unfold scan_list, sort_by. rewrite merge_sort_Permutation. apply NoDup_fmap_1 with (f := snd).
    rewrite active_entries_records. apply NoDup_ListNoDup, List.NoDup_filter, NoDup_ListNoDup.
    apply NoDup_fmap_2_strong; [|apply NoDup_map_to_list]. intros [k1 r1] [k2 r2] H1 H2. simpl. intros <-.
    apply elem_of_map_to_list in H1, H2. pose proof (Hm _ _ H1). pose proof (Hm _ _ H2). congruence. }
  rewrite Hl in *. apply StronglySorted_app in Hs as (Hcross & _ & Hs2).
  apply StronglySorted_inv in Hs2 as [_ Hx]. apply NoDup_app in Hnd as (_ & _ & [Hnx _]%NoDup_cons).
  rewrite List.filter_app. cbn [List.filter after_cursor]. rewrite Hc, (lc_refl x.1), (filter_none _ l1), (filter_all _ l2); [done|..].
  - intros i y Hy%list_elem_of_lookup_2. rewrite (lc_opp x.1 y.1).
    rewrite Forall_forall in Hx. specialize (Hx y Hy). unfold in_order in Hx.
    destruct (cmp_scan_key x.1 y.1) eqn:E; [|done|done]. apply lc_eq in E. exfalso. apply Hnx.
    rewrite (active_keys_differ m x y); [done|done|..|done]; apply Hin, elem_of_app; right; [by left|by right].
  - intros i y Hy%list_elem_of_lookup_2. specialize (Hcross y x Hy (list_elem_of_here _ _)).
    unfold in_order in Hcross. by destruct (cmp_scan_key y.1 x.1).
Qed.

Lemma scan_pages_rest fuel after limit s l1 l2 :
  repo_poisoned s = false -> repo_keyed s -> (0 < limit)%nat ->
  scan_list (repo_records s) = l1 ++ l2 ->
  match last l1, after with
  | None, None => True
  | Some x, Some c => cursor_key c = x.1
  | _, _ => False
  end ->
  (length l2 <= fuel)%nat ->
  exists pages, scan_pages fuel after limit s = Ok pages /\ concat pages = map snd l2 /\
    Forall (fun page => page <> [] /\ (length page <= limit `min` MAX_DUE_TRIGGER_POLL_LIMIT)%nat) pages.
Proof.
  intros Hp Hk Hlim. revert after l1 l2. induction fuel as [|fuel IH]; intros after l1 l2 Hl Hafter Hfuel.
  { destruct l2; simpl in Hfuel; [|lia]. by exists []. }
  assert (tg_list_active_after after limit s
          = Ok (map snd (take (limit `min` MAX_DUE_TRIGGER_POLL_LIMIT) l2))) as Hpage.
  { unfold tg_list_active_after. rewrite bool_decide_eq_false_2 by lia. unfold lock_state. rewrite Hp.
    do 3 f_equal. rewrite (filter_sort_by cmp_scan_key fst).
    2: { intros p q. by apply active_keys_differ. }
    fold (scan_list (repo_records s)).
    destruct (last l1) as [x|] eqn:Hlast, after as [c|]; try done.
    - apply last_Some in Hlast as [l0 ->]. rewrite <- app_assoc in Hl.
      by apply (filter_after_cursor _ l0 x).
    - apply last_None in Hlast as ->. rewrite Hl. by apply filter_all. }
  cbn [scan_pages]. rewrite Hpage. set (n := (limit `min` MAX_DUE_TRIGGER_POLL_LIMIT)%nat) in *.
  assert (0 < n)%nat as Hn by (unfold n, MAX_DUE_TRIGGER_POLL_LIMIT; lia).
  destruct l2 as [|y l2']; [rewrite take_nil; by exists []|].
  remember (y :: l2') as l2 eqn:Hl2.
  assert (exists x, last (take n l2) = Some x /\ x ∈ scan_list (repo_records s)) as (x & Hlast & Hx).
  { destruct (last (take n l2)) as [x|] eqn:E.
    - exists x. split; [done|]. rewrite Hl. apply last_Some_elem_of in E. apply elem_of_app. right.
      by eapply elem_of_take in E as (i & E%list_elem_of_lookup_2 & _).
    - apply last_None in E. subst l2. destruct n; [lia | done]. }
  unfold scan_list, sort_by in Hx. rewrite merge_sort_Permutation in Hx.
  destruct x as [kx rx]. pose proof (active_entry _ _ _ Hx) as (_ & slot & Hslot & Hkx).
  destruct (IH (last_cursor (map snd (take n l2))) (l1 ++ take n l2) (drop n l2)) as (pages & -> & Hcat & Hall).
  - by rewrite Hl, <- app_assoc, take_drop.
  - rewrite last_app, Hlast. unfold last_cursor. rewrite fmap_last, Hlast. simpl.
    unfold cursor_from_active_record. rewrite Hslot. simpl. by rewrite Hkx.
  - rewrite length_drop. subst l2. simpl in *. lia.
  - exists (map snd (take n l2) :: pages). destruct (map snd (take n l2)) as [|r page] eqn:Hmap.
    { subst l2. destruct n; [lia | done]. }
    split; [done|]. split; [|constructor; [|done] ].
    + change (concat ((r :: page) :: pages)) with ((r :: page) ++ concat pages).
      by rewrite Hcat, <- Hmap, <- map_app, take_drop.
    + split; [done|]. rewrite <- Hmap, length_map, length_take. lia.
Qed.

(** The scan the poller uses to clean up finished fires misses nothing: while the
    repository does not change, the pages it lists, each from the last record of the
    page before until one is empty, are within the limit, and together they are exactly
    the records with an active fire, each once, ordered by fire slot, tenant and
    trigger. *)
Theorem active_scan_complete s limit fuel :
  repo_poisoned s = false -> repo_keyed s -> (0 < limit)%nat ->
  (length (List.filter is_active (map_to_list (repo_records s)).*2) <= fuel)%nat ->
  exists pages, scan_pages fuel None limit s = Ok pages /\
    concat pages ≡ₚ List.filter is_active (map_to_list (repo_records s)).*2 /\
    concat pages = map snd (scan_list (repo_records s)) /\
    Forall (fun page => page <> [] /\ (length page <= limit `min` MAX_DUE_TRIGGER_POLL_LIMIT)%nat) pages.
Proof.
  intros Hp Hk Hlim Hfuel.
  assert (scan_list (repo_records s) ≡ₚ active_entries (repo_records s)) as Hperm.
  { unfold scan_list, sort_by. apply merge_sort_Permutation. }
  destruct (scan_pages_rest fuel None limit s [] (scan_list (repo_records s))) as (pages & H1 & H2 & H3);
    [done..| |].
  - rewrite Hperm. by rewrite <- active_entries_records, length_map in Hfuel.
  - exists pages. split_and!; [done| |done|done]. rewrite H2, Hperm. by rewrite active_entries_records.
Qed.

(** ** The text of a fire's identity is its own *)

Lemma append_inj_len (s1 s2 t1 t2 : string) :
  String.length s1 = String.length s2 -> s1 +:+ t1 = s2 +:+ t2 -> s1 = s2 /\ t1 = t2.
Proof.
  revert s2. induction s1 as [|c s1 IH]; intros [|d s2]; simpl; try done.
  intros [= Hlen] Heq. rewrite !append_cons in Heq. injection Heq as -> Heq.
  destruct (IH s2 Hlen Heq) as [-> ->]. done.
Qed.

Lemma bytes_one_length z : String.length (bytes_str [z]) = 1%nat.
Proof. done. Qed.

Lemma byte_inj z z' : 0 <= z < 256 -> 0 <= z' < 256 -> bytes_str [z] = bytes_str [z'] -> z = z'.
Proof.
  unfold bytes_str. simpl. intros H H' Heq. injection Heq as Heq.
  apply (f_equal Ascii.N_of_ascii) in Heq. rewrite !Ascii.N_ascii_embedding in Heq by lia. lia.
Qed.

Lemma be_bytes_length n z : String.length (be_bytes n z) = n.
Proof.
  revert z. induction n as [|n IH]; intros z; [done|]. cbn [be_bytes].
  rewrite append_length, IH, bytes_one_length. lia.
Qed.

Lemma be_bytes_inj n z z' :
  0 <= z < 256 ^ Z.of_nat n -> 0 <= z' < 256 ^ Z.of_nat n -> be_bytes n z = be_bytes n z' -> z = z'.
Proof.
  revert z z'. induction n as [|n IH]; intros z z' Hz Hz'; [simpl in *; lia|]. cbn [be_bytes]. intros Heq.
  apply append_inj_len in Heq as [H1 H2]; [|by rewrite !be_bytes_length].
  apply byte_inj in H2; [|apply Z.mod_pos_bound; lia..].
  rewrite Nat2Z.inj_succ, Z.pow_succ_r in Hz, Hz' by lia.
  apply IH in H1; [|split; [apply Z.div_pos; lia | apply Z.div_lt_upper_bound; lia]..].
  rewrite (Z.div_mod z 256), (Z.div_mod z' 256) by lia. by rewrite H1, H2.
Qed.

Lemma length_prefixed_inj (s s' t t' : string) :
  str_len s <= u64_max -> str_len s' <= u64_max ->
  length_prefixed s +:+ t = length_prefixed s' +:+ t' -> s = s' /\ t = t'.
Proof.
  unfold length_prefixed. intros Hs Hs'. rewrite !append_assoc. intros Heq.
  apply append_inj_len in Heq as [H1 H2]; [|by rewrite !be_bytes_length].
  apply be_bytes_inj in H1; [|unfold u64_max, str_len in *; simpl in *; lia..].
  apply append_inj_len in H2; [done|]. unfold str_len in H1. lia.
Qed.

Lemma until_nul (d d' t t' : string) :
  contains_char (Ascii.ascii_of_N 0) d = false -> contains_char (Ascii.ascii_of_N 0) d' = false ->
  d +:+ bytes_str [0] +:+ t = d' +:+ bytes_str [0] +:+ t' -> d = d' /\ t = t'.
Proof.
  revert d'. induction d as [|c d IH]; intros [|c' d'] Hd Hd' Heq.
  - split; [done|]. by injection Heq.
  - injection Heq as <- _. done.
  - injection Heq as -> _. done.
  - rewrite !append_cons in Heq. injection Heq as -> Heq. simpl in Hd, Hd'.
    apply orb_false_iff in Hd as [_ Hd], Hd' as [_ Hd']. by destruct (IH d' Hd Hd' Heq) as [-> ->].
Qed.

(** The texts of identifiers (of 128 bits) and of instants (about 262,000 years around
    the epoch, the range of [chrono]) are unambiguous and short. *)
Definition is_ulid (id : TriggerId) : Prop := 0 <= tid_ulid id < 2 ^ 128.
Definition is_instant (t : Timestamp) : Prop := - 2 ^ 73 <= t < 2 ^ 73.

Class FireTextLaws (T : FireText) : Prop := {
  ulid_text_inj a b : is_ulid a -> is_ulid b -> ulid_text (tid_ulid a) = ulid_text (tid_ulid b) -> a = b;
  ulid_text_len a : str_len (ulid_text a) = 26;
  rfc3339_inj a b : is_instant a -> is_instant b -> rfc3339_nanos a = rfc3339_nanos b -> a = b;
  rfc3339_len a : str_len (rfc3339_nanos a) <= 64 }.

(** The bytes hashed for a fire's route thread and external event determine the
    domain label, the tenant, the trigger and the slot: two fires, or the two identifiers
    of one fire, are never digests of the same bytes, whatever tenant names are chosen
    (of any length a tenant can have), so that they agree only if SHA-256 collides. *)
Theorem fire_preimage_injective `{!FireText} `{!FireTextLaws _} d d' tenant tenant' id id' slot slot' :
  contains_char (Ascii.ascii_of_N 0) d = false -> contains_char (Ascii.ascii_of_N 0) d' = false ->
  str_len (as_str tenant) <= u64_max -> str_len (as_str tenant') <= u64_max ->
  is_ulid id -> is_ulid id' -> is_instant slot -> is_instant slot' ->
  fire_preimage d tenant id slot = fire_preimage d' tenant' id' slot' ->
  d = d' /\ tenant = tenant' /\ id = id' /\ slot = slot'.
Proof.
  intros Hd Hd' Ht Ht' Hi Hi' Hs Hs' Heq. unfold fire_preimage in Heq.
  apply append_inj_len in Heq as [_ Heq]; [|done]. apply append_inj_len in Heq as [_ Heq]; [|done].
  apply until_nul in Heq as [-> Heq]; [|done..].
  apply length_prefixed_inj in Heq as [Htn Heq]; [|done..].
  apply length_prefixed_inj in Heq as [Hid Heq]; [|by rewrite ulid_text_len..].
  rewrite <- (append_nil_r (length_prefixed (rfc3339_nanos slot))),
          <- (append_nil_r (length_prefixed (rfc3339_nanos slot'))) in Heq.
  apply length_prefixed_inj in Heq as [Hsl _];
    [|unfold u64_max; eapply Z.le_trans; [apply rfc3339_len | done]..].
  apply ulid_text_inj in Hid; [|done..]. apply rfc3339_inj in Hsl; [|done..].
  destruct tenant, tenant'; simpl in *; subst. done.
Qed.

(** ** What an operation may change *)

Section Cases.
Implicit Types (s : TriggerRepository) (r : TriggerRecord).

Lemma update_claimed_cases tenant id slot upd s s' x :
  update_claimed_fire tenant id slot upd s = (s', x) ->
  (s' = s /\ forall r, x <> Ok (Some r)) \/
  exists r r', repo_poisoned s = false /\ repo_records s !! (tenant, id) = Some r /\
    tg_active_fire_slot r = Some slot /\ upd r = Ok r' /\
    s' = tg_with_records (<[(tenant, id) := r']> (repo_records s)) s /\ x = Ok (Some r').
Proof.
  unfold update_claimed_fire, lock_state. destruct (repo_poisoned s) eqn:Hp; [intros [= <- <-]; by left|].
  destruct (repo_records s !! _) as [r|] eqn:Hr; [|intros [= <- <-]; by left].
  case_bool_decide; simpl; [|intros [= <- <-]; by left].
  destruct (upd r) as [r'|e] eqn:Hu; intros [= <- <-]; [|by left]. right. by exists r, r'.
Qed.

Lemma claim_cases req s s' x :
  tg_claim_due_fire req s = (s', x) ->
  (s' = s /\ forall c, x <> Ok (FireClaimed c)) \/
  exists r, repo_poisoned s = false /\
    repo_records s !! (cd_tenant_id req, cd_trigger_id req) = Some r /\
    tg_state r = TgScheduled /\ tg_next_run_at r = cd_fire_slot req /\ cd_fire_slot req <= cd_now req /\
    tg_active_fire_slot r = None /\ tg_active_run_ref r = None /\
    let r' := tg_with_active (Some (cd_fire_slot req)) None r in
    s' = tg_with_records (<[(cd_tenant_id req, cd_trigger_id req) := r']> (repo_records s)) s /\
    x = Ok (FireClaimed (mk_ClaimedTriggerFire r' (cd_fire_slot req))).
Proof.
  unfold tg_claim_due_fire, lock_state. destruct (repo_poisoned s) eqn:Hp; [intros [= <- <-]; by left|].
  destruct (repo_records s !! _) as [r|] eqn:Hr; [|intros [= <- <-]; by left].
  case_bool_decide; simpl; [|intros [= <- <-]; by left].
  destruct (Z.eqb_spec (tg_next_run_at r) (cd_fire_slot req)); simpl; [|intros [= <- <-]; by left].
  destruct (Z.ltb_spec (cd_now req) (cd_fire_slot req)); [intros [= <- <-]; by left|].
  unfold has_active_fire. case_bool_decide as Ha; [intros [= <- <-]; by left|].
  case_bool_decide as Hb; [intros [= <- <-]; by left|]. simpl. intros [= <- <-]. right.
  apply eq_None_not_Some in Ha, Hb. by exists r.
Qed.

Lemma clear_cases req s s' x :
  clear_active_fire req s = (s', x) ->
  (s' = s /\ forall r, x <> Ok (Some r)) \/
  exists r, repo_poisoned s = false /\
    repo_records s !! (ca_tenant_id req, ca_trigger_id req) = Some r /\
    tg_active_fire_slot r = Some (ca_fire_slot req) /\ tg_active_run_ref r = Some (ca_run_id req) /\
    s' = tg_with_records (<[(ca_tenant_id req, ca_trigger_id req) := tg_with_active None None r]>
           (repo_records s)) s /\ x = Ok (Some (tg_with_active None None r)).
Proof.
  unfold clear_active_fire, lock_state. destruct (repo_poisoned s) eqn:Hp; [intros [= <- <-]; by left|].
  destruct (repo_records s !! _) as [r|] eqn:Hr; [|intros [= <- <-]; by left].
  case_bool_decide; simpl; [|intros [= <- <-]; by left].
  case_bool_decide; simpl; intros [= <- <-]; [|by left]. right. by exists r.
Qed.

(** The texts of a record, and of a patch, are within their bounds. *)
Definition name_ok (name : string) : Prop := is_blank name = false /\ str_len name <= MAX_TRIGGER_NAME_BYTES.
Definition prompt_ok (prompt : string) : Prop :=
  is_blank prompt = false /\ str_len prompt <= MAX_TRIGGER_PROMPT_BYTES.
Definition texts_ok (r : TriggerRecord) : Prop := name_ok (tg_name r) /\ prompt_ok (tg_prompt r).
Definition patch_ok (patch : TriggerUpdatePatch) : Prop :=
  (forall name, up_name patch = Some name -> name_ok name) /\
  (forall prompt, up_prompt patch = Some prompt -> prompt_ok prompt).

Lemma validated_record `{!Cron} now r : TriggerRecord_validate now r = Ok tt -> texts_ok r.
Proof.
  unfold TriggerRecord_validate. destruct (is_blank (tg_name r)) eqn:Hn; [done|].
  destruct (Z.ltb_spec MAX_TRIGGER_NAME_BYTES (str_len (tg_name r))); [done|].
  destruct (is_blank (tg_prompt r)) eqn:Hp; [done|].
  destruct (Z.ltb_spec MAX_TRIGGER_PROMPT_BYTES (str_len (tg_prompt r))); [done|]. by intros _.
Qed.

Lemma validated_patch `{!Cron} now patch : TriggerUpdatePatch_validate now patch = Ok tt -> patch_ok patch.
Proof.
  unfold TriggerUpdatePatch_validate. intros Hv. invert_ok Hv. split; intros x Hx.
  - rewrite Hx in Heqr0. destruct (is_blank x) eqn:E; [done|].
    destruct (Z.ltb_spec MAX_TRIGGER_NAME_BYTES (str_len x)); [done|]. by split.
  - rewrite Hx in Hv. destruct (is_blank x) eqn:E; [done|].
    destruct (Z.ltb_spec MAX_TRIGGER_PROMPT_BYTES (str_len x)); [done|]. by split.
Qed.

(** A user's edit keeps the fire of the record; a new schedule starts after [after]. *)
Definition edits (after : Timestamp) (patch : TriggerUpdatePatch) (r r' : TriggerRecord) : Prop :=
  key_of_record r' = key_of_record r /\
  tg_active_fire_slot r' = tg_active_fire_slot r /\ tg_active_run_ref r' = tg_active_run_ref r /\
  (patch_ok patch -> texts_ok r -> texts_ok r') /\
  (tg_next_run_at r' = tg_next_run_at r \/ after < tg_next_run_at r').

Lemma update_cases `{!Cron} `{!CronLaws _} after now tenant id patch s s' x :
  tg_update after now tenant id patch s = (s', x) ->
  s' = s \/
  exists r r', repo_poisoned s = false /\ repo_records s !! (tenant, id) = Some r /\ edits after patch r r' /\
    s' = tg_with_records (<[(tenant, id) := r']> (repo_records s)) s.
Proof.
  unfold tg_update, lock_state. destruct (repo_poisoned s) eqn:Hp; [intros [= <- <-]; by left|].
  destruct (repo_records s !! _) as [r|] eqn:Hr; [|intros [= <- <-]; by left].
  set (named := option_apply tg_with_name (up_name patch) r).
  assert (edits after patch r named) as Hn.
  { unfold named, edits, patch_ok, texts_ok. destruct (up_name patch) as [n|]; split_and!; try done; [|by left..].
    intros [Hnm _] [_ ?]. by split; [apply Hnm|]. }
  intros Heq. right. exists r.
  assert (forall r1 : TriggerRecord, edits after patch r r1 -> edits after patch r
            (option_apply tg_with_policy (up_completion_policy patch)
               (option_apply tg_with_prompt (up_prompt patch) r1))) as Hrest.
  { intros r1 (H1 & H2 & H3 & H4 & H5). unfold edits.
    destruct (up_completion_policy patch), (up_prompt patch) as [pr|] eqn:Hpr; split_and!; try done;
      intros Hpok Hok; destruct (H4 Hpok Hok) as [Hok1 _]; (split; [exact Hok1|]); by apply Hpok. }
  destruct (up_schedule patch) as [sch|].
  - destruct (next_slot_after now sch after) as [[next|]|e] eqn:Hnext; injection Heq as <- _;
      [|by exists named|by exists named].
    eexists. split_and!; [done|done| |done]. apply Hrest. destruct Hn as (H1 & H2 & H3 & H4 & _).
    split_and!; [done..|]. right. simpl. destruct sch as [e]. unfold next_slot_after in Hnext.
    destruct (parse_cron_schedule now e); [|done]. injection Hnext as Hnext. by eapply schedule_after_later.
  - injection Heq as <- _. eexists. split_and!; [done|done|by apply Hrest|done].
Qed.

Lemma set_state_cases tenant id st s s' x :
  tg_set_state tenant id st s = (s', x) ->
  s' = s \/
  exists r, repo_poisoned s = false /\ repo_records s !! (tenant, id) = Some r /\
    s' = tg_with_records (<[(tenant, id) := tg_with_state st r]> (repo_records s)) s.
Proof.
  unfold tg_set_state, lock_state. destruct (repo_poisoned s) eqn:Hp; [intros [= <- <-]; by left|].
  destruct (repo_records s !! _) as [r|] eqn:Hr; intros [= <- <-]; [right; by exists r | by left].
Qed.

Lemma remove_cases tenant id s s' x :
  tg_remove tenant id s = (s', x) ->
  s' = s \/ s' = tg_with_records (delete (tenant, id) (repo_records s)) s.
Proof. unfold tg_remove. destruct (lock_state s) eqn:E; intros [= <- <-]; [right|by left].
  unfold lock_state in E. destruct (repo_poisoned s); [done|]. by injection E as <-. Qed.

Lemma remove_scoped_cases tenant user agent project id s s' x :
  tg_remove_scoped tenant user agent project id s = (s', x) ->
  (s' = s /\ forall r, x <> Ok (Some r)) \/
  exists r, repo_records s !! (tenant, id) = Some r /\ x = Ok (Some r) /\
    tg_creator_user_id r = user /\ tg_agent_id r = agent /\ tg_project_id r = project /\
    s' = tg_with_records (delete (tenant, id) (repo_records s)) s.
Proof.
  unfold tg_remove_scoped, lock_state. destruct (repo_poisoned s); [intros [= <- <-]; by left|].
  destruct (repo_records s !! _) as [r|] eqn:Hr; [|intros [= <- <-]; by left].
  repeat (case_bool_decide; simpl; [|intros [= <- <-]; by left]). intros [= <- <-]. right. by exists r.
Qed.

End Cases.
