(* ===== verification/TriggerPoller.v ===== *)
(** * The trigger poller

    [worker.rs] and [worker/] of [brassclaw_triggers].  A tick of a worker first cleans
    up: it pages through the triggers with an active fire, asks whether their runs have
    ended, and clears those that have.  Then it goes through the due triggers: it claims
    a fire slot, evaluates the source, materializes the prompt, submits it, and records
    the outcome on the trigger.

    The methods are interactive programs over [trigE]; each call of the repository is one
    step (the in-memory repository holds its mutex for the whole call), so that ticks of
    several workers and the users' tools ([TriggerTools]) interleave ([TriggerPool]).
    [trigE] has the calls of all of them.  The [debug_assert] of the cleanup is not
    modelled.

    The theorem here: a tick settles every fire that it claims, before it claims
    another one, with at most one submission in between. *)

From S2P Require Import Prelude Effects HostIds HostTypes RunProfile TurnSnapshot Triggers.
Open Scope Z_scope.

(** ** [config.rs], [ports.rs], [report.rs] *)

Record TriggerPollerWorkerConfig : Type := mk_TriggerPollerWorkerConfig {
  wc_poll_interval : Z;
  wc_fires_per_tick : nat;
  wc_max_concurrent_fires_per_trigger : nat }.

Definition TriggerPollerWorkerConfig_default : TriggerPollerWorkerConfig :=
  mk_TriggerPollerWorkerConfig (30 * 1000000000) 32 1.

Definition TriggerPollerWorkerConfig_validate (self : TriggerPollerWorkerConfig) : result unit TriggerError :=
  if wc_poll_interval self =? 0 then Err (TgInvalidPollerConfig "poll_interval must be non-zero")
  else if bool_decide (wc_fires_per_tick self = 0%nat)
  then Err (TgInvalidPollerConfig "fires_per_tick must be non-zero")
  else if negb (bool_decide (wc_max_concurrent_fires_per_trigger self = 1%nat))
  then Err (TgInvalidPollerConfig "V1 supports exactly one concurrent fire per trigger")
  else Ok tt.

Record TrustedTriggerSubmitRequest : Type := mk_TrustedTriggerSubmitRequest {
  tq_fire : TriggerFire;
  tq_materialized_prompt : TriggerMaterializedPrompt;
  tq_received_at : Timestamp }.

Inductive TrustedTriggerFireSubmitOutcome : Type :=
| SubmitAccepted (run_id : TurnRunId) (submitted_at : Timestamp)
| SubmitReplayed (original_run_id : TurnRunId) (replayed_at : Timestamp).

Record TriggerActiveRunStateRequest : Type := mk_TriggerActiveRunStateRequest {
  rs_tenant : TenantId; rs_trigger : TriggerId; rs_slot : Timestamp; rs_run : TurnRunId }.

Inductive TriggerActiveRunState : Type := RunMissing | RunNonterminal | RunTerminal.

Inductive TriggerPollerFailureReason : Type :=
| PfBackend | PfInvalidTriggerId | PfInvalidFireIdentityComponent | PfInvalidRecord
| PfInvalidPollerConfig | PfInvalidSchedule | PfInvalidMaterialization | PfNotFound
| PfSourceNoFire | PfActiveRunLookup.

Inductive TriggerPollerFireOutcome : Type :=
| PoSubmitted (run_id : TurnRunId)
| PoReplayed (original_run_id : TurnRunId)
| PoRetryableFailed (reason : TriggerPollerFailureReason)
| PoPermanentFailed (reason : TriggerPollerFailureReason)
| PoClearedTerminalActive (run_id : TurnRunId)
| PoActiveRunLookupFailed (run_id : TurnRunId) (reason : TriggerPollerFailureReason)
| PoSkippedAlreadyCleared (run_id : TurnRunId)
| PoSkippedAlreadyActive (active_fire_slot : Timestamp) (active_run_ref : option TurnRunId)
| PoDueFireFailed (reason : TriggerPollerFailureReason)
| PoSkippedNotDue
| PoSkippedNotFound.

Record TriggerPollerFireReport : Type := mk_TriggerPollerFireReport {
  pf_tenant_id : TenantId; pf_trigger_id : TriggerId; pf_fire_slot : Timestamp;
  pf_outcome : TriggerPollerFireOutcome }.

Record TriggerPollerTickReport : Type := mk_TriggerPollerTickReport {
  pt_now : Timestamp; pt_active_records : nat; pt_due_records : nat;
  pt_results : list TriggerPollerFireReport }.

(** ** [failure.rs] *)

Inductive SubmitFailureKind : Type := SfRetryable | SfPermanent.

Inductive FireFailureDisposition : Type :=
| FdRetryable | FdPermanentReschedule (next_run_at : Timestamp) | FdPermanentTerminal.

Definition disposition_from_kind (kind : SubmitFailureKind) (next_run_at : Timestamp) : FireFailureDisposition :=
  match kind with SfRetryable => FdRetryable | SfPermanent => FdPermanentReschedule next_run_at end.

Definition classify_failure (error : TriggerError) : SubmitFailureKind * TriggerPollerFailureReason :=
  match error with
  | TgBackend _ => (SfRetryable, PfBackend)
  | TgInvalidTriggerId _ => (SfPermanent, PfInvalidTriggerId)
  | TgInvalidFireIdentityComponent _ _ => (SfPermanent, PfInvalidFireIdentityComponent)
  | TgInvalidRecord _ => (SfPermanent, PfInvalidRecord)
  | TgInvalidPollerConfig _ => (SfPermanent, PfInvalidPollerConfig)
  | TgInvalidSchedule _ => (SfPermanent, PfInvalidSchedule)
  | TgInvalidMaterialization _ => (SfPermanent, PfInvalidMaterialization)
  | TgNotFound => (SfPermanent, PfNotFound)
  end.

Definition next_run_at_after_fire `{Cron} (clock : Timestamp) (record : TriggerRecord)
    (fire_slot : Timestamp) : result Timestamp TriggerError :=
  let? next := next_slot_after clock (tg_schedule record) fire_slot in
  ok_or next (TgInvalidSchedule "schedule has no next fire slot after claimed fire").

(** ** The calls *)

Abbreviation tg_task := nat.
Abbreviation worker_id := nat.

Inductive trigE : Type -> Type :=
(* the repository *)
| TrUpsert (record : TriggerRecord) : trigE (result unit TriggerError)
| TrGet (tenant : TenantId) (id : TriggerId) : trigE (result (option TriggerRecord) TriggerError)
| TrListScoped (tenant : TenantId) (user : UserId) (agent : option AgentId) (project : option ProjectId)
    (limit : nat) : trigE (result (list TriggerRecord) TriggerError)
| TrRemove (tenant : TenantId) (id : TriggerId) : trigE (result (option TriggerRecord) TriggerError)
| TrRemoveScoped (tenant : TenantId) (user : UserId) (agent : option AgentId) (project : option ProjectId)
    (id : TriggerId) : trigE (result (option TriggerRecord) TriggerError)
| TrListDue (now : Timestamp) (limit : nat) : trigE (result (list TriggerRecord) TriggerError)
| TrListActiveAfter (after : option ActiveTriggerScanCursor) (limit : nat) :
    trigE (result (list TriggerRecord) TriggerError)
| TrClaim (me : tg_task) (req : ClaimDueFireRequest) : trigE (result ClaimDueFireOutcome TriggerError)
| TrAccepted (req : FireAcceptedRequest) : trigE (result (option TriggerRecord) TriggerError)
| TrReplayed (req : FireReplayedRequest) : trigE (result (option TriggerRecord) TriggerError)
| TrRetryable (req : FireRetryableFailedRequest) : trigE (result (option TriggerRecord) TriggerError)
| TrPermanent (req : FirePermanentFailedRequest) : trigE (result (option TriggerRecord) TriggerError)
| TrTerminal (req : FireTerminalFailedRequest) : trigE (result (option TriggerRecord) TriggerError)
| TrClear (req : ClearActiveFireRequest) : trigE (result (option TriggerRecord) TriggerError)
| TrUpdate (tenant : TenantId) (id : TriggerId) (patch : TriggerUpdatePatch) :
    trigE (result (option TriggerRecord) TriggerError)
| TrSetState (tenant : TenantId) (id : TriggerId) (state : TriggerState) :
    trigE (result (option TriggerRecord) TriggerError)
| TrListRuns (tenant : TenantId) (id : TriggerId) (limit : nat) :
    trigE (result (list TriggerRunRecord) TriggerError)
(* the clock, and the random part of a new ULID *)
| TrNow : trigE Timestamp
| TrNewId (me : tg_task) : trigE TriggerId
(* the worker: its tick guard and its scan cursor *)
| TrLockTick (me : tg_task) (w : worker_id) : trigE unit
| TrUnlockTick (me : tg_task) (w : worker_id) : trigE unit
| TrCursor (w : worker_id) : trigE (result (option ActiveTriggerScanCursor) TriggerError)
| TrSetCursor (w : worker_id) (c : option ActiveTriggerScanCursor) : trigE (result unit TriggerError)
(* the ports *)
| TrEvaluate (record : TriggerRecord) (now : Timestamp) : trigE (result (option TriggerFire) TriggerError)
| TrMaterialize (fire : TriggerFire) : trigE (result TriggerMaterializedPrompt TriggerError)
| TrSubmit (req : TrustedTriggerSubmitRequest) :
    trigE (result TrustedTriggerFireSubmitOutcome TriggerError)
| TrLookup (requests : list TriggerActiveRunStateRequest) :
    trigE (list (result TriggerActiveRunState TriggerError))
| TrCreateHook (record : TriggerRecord) : trigE (result unit TriggerError).

Section Worker.
Context {C : Cron}.
Variable me : tg_task.

(** ** [due_fire.rs] *)

Definition persist_failed_fire (record : TriggerRecord) (fire_slot : Timestamp)
    (disposition : FireFailureDisposition) (reason : TriggerPollerFailureReason) :
    prog trigE (result TriggerPollerFireOutcome TriggerError) :=
  let tenant := tg_tenant_id record in
  let id := tg_trigger_id record in
  match disposition with
  | FdRetryable =>
      let!? _ := trigger (TrRetryable (mk_FireRetryableFailedRequest tenant id fire_slot)) in
      Ret (Ok (PoRetryableFailed reason))
  | FdPermanentTerminal =>
      let!? _ := trigger (TrTerminal (mk_FireTerminalFailedRequest tenant id fire_slot)) in
      Ret (Ok (PoPermanentFailed reason))
  | FdPermanentReschedule next_run_at =>
      let!? _ := trigger (TrPermanent (mk_FirePermanentFailedRequest tenant id fire_slot next_run_at)) in
      Ret (Ok (PoPermanentFailed reason))
  end.

(** A failure after the next slot is known. *)
Definition persist_error (record : TriggerRecord) (fire_slot next_run_at : Timestamp) (error : TriggerError) :
    prog trigE (result TriggerPollerFireOutcome TriggerError) :=
  let '(kind, reason) := classify_failure error in
  persist_failed_fire record fire_slot (disposition_from_kind kind next_run_at) reason.

Definition submit_fire (record : TriggerRecord) (fire_slot now next_run_at : Timestamp)
    (fire : TriggerFire) (prompt : TriggerMaterializedPrompt) :
    prog trigE (result TriggerPollerFireOutcome TriggerError) :=
  let tenant := tg_tenant_id record in
  let id := tg_trigger_id record in
  let! submitted := trigger (TrSubmit (mk_TrustedTriggerSubmitRequest fire prompt now)) in
  match submitted with
  | Ok (SubmitAccepted run_id submitted_at) =>
      let!? updated := trigger (TrAccepted
        (mk_FireAcceptedRequest tenant id fire_slot run_id submitted_at next_run_at)) in
      Ret match updated with
          | None => Err (TgBackend "claimed trigger fire was not present when persisting accepted submit result")
          | Some _ => Ok (PoSubmitted run_id)
          end
  | Ok (SubmitReplayed original_run_id replayed_at) =>
      let!? updated := trigger (TrReplayed
        (mk_FireReplayedRequest tenant id fire_slot original_run_id replayed_at next_run_at)) in
      Ret match updated with
          | None => Err (TgBackend "claimed trigger fire was not present when persisting replayed submit result")
          | Some _ => Ok (PoReplayed original_run_id)
          end
  | Err error => persist_error record fire_slot next_run_at error
  end.

Definition process_claimed_fire (record : TriggerRecord) (fire_slot now : Timestamp) :
    prog trigE (result TriggerPollerFireOutcome TriggerError) :=
  let! clock := trigger TrNow in
  match next_run_at_after_fire clock record fire_slot with
  | Err error =>
      persist_failed_fire record fire_slot FdPermanentTerminal (classify_failure error).2
  | Ok next_run_at =>
      let! evaluated := trigger (TrEvaluate record now) in
      match evaluated with
      | Err error => persist_error record fire_slot next_run_at error
      | Ok None =>
          persist_failed_fire record fire_slot (FdPermanentReschedule next_run_at) PfSourceNoFire
      | Ok (Some fire) =>
          let! materialized := trigger (TrMaterialize fire) in
          match materialized with
          | Err error => persist_error record fire_slot next_run_at error
          | Ok prompt => submit_fire record fire_slot now next_run_at fire prompt
          end
      end
  end.

Definition process_due_record (record : TriggerRecord) (now : Timestamp) :
    prog trigE (result TriggerPollerFireOutcome TriggerError) :=
  let!? claimed := trigger (TrClaim me (mk_ClaimDueFireRequest (tg_tenant_id record)
                     (tg_trigger_id record) (tg_next_run_at record) now)) in
  match claimed with
  | FireClaimed c => process_claimed_fire (cf_record c) (cf_fire_slot c) now
  | FireAlreadyActive (Some slot) run => Ret (Ok (PoSkippedAlreadyActive slot run))
  | FireAlreadyActive None _ =>
      Ret (Err (TgBackend "AlreadyActive claim outcome did not include active_fire_slot"))
  | FireNotDue _ => Ret (Ok PoSkippedNotDue)
  | FireNotFound => Ret (Ok PoSkippedNotFound)
  end.

(** ** [active_cleanup.rs] *)

Definition list_active_cleanup_page (w : worker_id) (config : TriggerPollerWorkerConfig) :
    prog trigE (result (option ActiveTriggerScanCursor * list TriggerRecord) TriggerError) :=
  let limit := wc_fires_per_tick config in
  let!? cursor := trigger (TrCursor w) in
  let!? records := trigger (TrListActiveAfter cursor limit) in
  match records, cursor with
  | [], Some _ =>
      let!? records := trigger (TrListActiveAfter None limit) in
      Ret (Ok (None, records))
  | _, _ => Ret (Ok (cursor, records))
  end.

Record ActiveLookupItem : Type := mk_ActiveLookupItem {
  li_record : TriggerRecord; li_fire_slot : Timestamp;
  li_record_cursor : ActiveTriggerScanCursor; li_run_id : TurnRunId }.

Definition report_of (record : TriggerRecord) (slot : Timestamp) (o : TriggerPollerFireOutcome) :
    TriggerPollerFireReport :=
  mk_TriggerPollerFireReport (tg_tenant_id record) (tg_trigger_id record) slot o.

Definition lookup_request (i : ActiveLookupItem) : TriggerActiveRunStateRequest :=
  mk_TriggerActiveRunStateRequest (tg_tenant_id (li_record i)) (tg_trigger_id (li_record i))
    (li_fire_slot i) (li_run_id i).

(** The first loop: claims without a run are reported and move the cursor (nothing holds
    it back yet); the others are looked up. *)
Fixpoint sort_active (records : list TriggerRecord) (next : option ActiveTriggerScanCursor) :
    option ActiveTriggerScanCursor * list TriggerPollerFireReport * list ActiveLookupItem :=
  match records with
  | [] => (next, [], [])
  | record :: records =>
      match tg_active_fire_slot record, cursor_from_active_record record with
      | Some slot, Some cursor =>
          match tg_active_run_ref record with
          | None =>
              let '(next', reports, items) := sort_active records (Some cursor) in
              (next', report_of record slot (PoSkippedAlreadyActive slot None) :: reports, items)
          | Some run =>
              let '(next', reports, items) := sort_active records next in
              (next', reports, mk_ActiveLookupItem record slot cursor run :: items)
          end
      | _, _ => sort_active records next
      end
  end.

(** The second loop, over the items and the results at their positions; [held] is
    [first_unadvanced_cursor]. *)
Fixpoint clear_items (items : list ActiveLookupItem) (results : list (result TriggerActiveRunState TriggerError))
    (next held : option ActiveTriggerScanCursor) :
    prog trigE (result (option ActiveTriggerScanCursor * list TriggerPollerFireReport) TriggerError) :=
  match items with
  | [] => Ret (Ok (next, []))
  | item :: items =>
      let record := li_record item in
      let slot := li_fire_slot item in
      let run := li_run_id item in
      let advanced := match held with None => Some (li_record_cursor item) | Some _ => next end in
      match default (Err (TgBackend "active run lookup returned too few results")) (head results) with
      | Err _ =>
          let held := match held with None => Some (li_record_cursor item) | Some _ => held end in
          let!? rest := clear_items items (tail results) next held in
          Ret (Ok (rest.1, report_of record slot (PoActiveRunLookupFailed run PfActiveRunLookup) :: rest.2))
      | Ok RunTerminal =>
          let!? cleared := trigger (TrClear
            (mk_ClearActiveFireRequest (tg_tenant_id record) (tg_trigger_id record) slot run)) in
          let outcome := match cleared with
                         | Some _ => PoClearedTerminalActive run
                         | None => PoSkippedAlreadyCleared run
                         end in
          let!? rest := clear_items items (tail results) advanced held in
          Ret (Ok (rest.1, report_of record slot outcome :: rest.2))
      | Ok RunMissing | Ok RunNonterminal =>
          let!? rest := clear_items items (tail results) advanced held in
          Ret (Ok (rest.1, report_of record slot (PoSkippedAlreadyActive slot (tg_active_run_ref record)) :: rest.2))
      end
  end.

Definition clear_terminal_active_fires (w : worker_id) (config : TriggerPollerWorkerConfig) :
    prog trigE (result (nat * list TriggerPollerFireReport) TriggerError) :=
  let!? page := list_active_cleanup_page w config in
  let '(cursor, records) := page in
  let '(next, reports, items) := sort_active records cursor in
  let! results := trigger (TrLookup (map lookup_request items)) in
  let!? rest := clear_items items results next None in
  let!? _ := trigger (TrSetCursor w rest.1) in
  Ret (Ok (length records, reports ++ rest.2)).

(** ** [worker.rs] *)

(** The loop over the due records; an error of one is a line of the report. *)
Fixpoint process_due_records (records : list TriggerRecord) (now : Timestamp) :
    prog trigE (list TriggerPollerFireReport) :=
  match records with
  | [] => Ret []
  | record :: records =>
      let! r := process_due_record record now in
      let outcome := match r with
                     | Ok outcome => outcome
                     | Err error => PoDueFireFailed (classify_failure error).2
                     end in
      let! reports := process_due_records records now in
      Ret (report_of record (tg_next_run_at record) outcome :: reports)
  end.

Definition tick_body (w : worker_id) (config : TriggerPollerWorkerConfig) (now : Timestamp) :
    prog trigE (result TriggerPollerTickReport TriggerError) :=
  let!? cleaned := clear_terminal_active_fires w config in
  let!? due := trigger (TrListDue now (wc_fires_per_tick config)) in
  let! reports := process_due_records due now in
  Ret (Ok (mk_TriggerPollerTickReport now cleaned.1 (length due) (cleaned.2 ++ reports))).

Definition tick_once (w : worker_id) (config : TriggerPollerWorkerConfig) (now : Timestamp) :
    prog trigE (result TriggerPollerTickReport TriggerError) :=
  do! trigger (TrLockTick me w) in
  let! r := tick_body w config now in
  do! trigger (TrUnlockTick me w) in
  Ret r.

(** One round of [run_trigger_poller] (of [reborn_composition]): the tick takes the
    clock's reading. *)
Definition poller_round (w : worker_id) (config : TriggerPollerWorkerConfig) :
    prog trigE (result TriggerPollerTickReport TriggerError) :=
  let! now := trigger TrNow in tick_once w config now.

End Worker.

(** ** Claims and their settlements in a tick *)

Inductive fire_act : Type :=
| ActClaim (key : TriggerRepositoryKey) (slot : Timestamp)
| ActSubmit
| ActSettle (key : TriggerRepositoryKey) (slot : Timestamp).

Definition act_of (ev : event trigE) : option fire_act :=
  match ev with
  | Ev e x =>
      match e in trigE X return X -> option fire_act with
      | TrClaim _ _ => fun x =>
          match x with
          | Ok (FireClaimed c) => Some (ActClaim (key_of_record (cf_record c)) (cf_fire_slot c))
          | _ => None
          end
      | TrSubmit _ => fun _ => Some ActSubmit
      | TrAccepted q => fun _ => Some (ActSettle (fa_tenant_id q, fa_trigger_id q) (fa_fire_slot q))
      | TrReplayed q => fun _ => Some (ActSettle (fr_tenant_id q, fr_trigger_id q) (fr_fire_slot q))
      | TrRetryable q => fun _ => Some (ActSettle (ff_tenant_id q, ff_trigger_id q) (ff_fire_slot q))
      | TrPermanent q => fun _ => Some (ActSettle (fp_tenant_id q, fp_trigger_id q) (fp_fire_slot q))
      | TrTerminal q => fun _ => Some (ActSettle (ft_tenant_id q, ft_trigger_id q) (ft_fire_slot q))
      | _ => fun _ => None
      end x
  end.
Definition acts (t : list (event trigE)) : list fire_act := omap act_of t.

Lemma acts_nil : acts [] = [].
Proof. done. Qed.
Lemma acts_app t1 t2 : acts (t1 ++ t2) = acts t1 ++ acts t2.
Proof. apply omap_app. Qed.

Lemma acts_cons ev t : acts (ev :: t) = match act_of ev with Some a => a :: acts t | None => acts t end.
Proof. unfold acts. simpl. by destruct (act_of ev). Qed.

(** The acts between a claim and its settlement. *)
Definition settled_fire (l : list fire_act) : Prop :=
  exists key slot, l = [ActClaim key slot; ActSettle key slot] \/
                   l = [ActClaim key slot; ActSubmit; ActSettle key slot].

Definition no_act (X : Type) (e : trigE X) : Prop := forall x, act_of (Ev e x) = None.

Lemma no_acts {R} (p : prog trigE R) t r : calls_in no_act p -> traces p t r -> acts t = [].
Proof.
  intros Hp Ht. pose proof (calls_in_traces _ _ _ _ Hp Ht) as Hall. clear Ht.
  induction Hall as [|[X e x] t He _ IH]; [done|]. by rewrite acts_cons, He, IH.
Qed.

Ltac actless :=
  repeat match goal with
  | |- calls_in _ (pbind _ _) => apply calls_in_bind; [|intros ?]
  | |- calls_in _ (Ret _) => exact I
  | |- calls_in _ (trigger _) => split; [by intros ?|intros ?; exact I]
  | |- calls_in _ (match ?x with _ => _ end) => destruct x
  | |- calls_in _ _ => solve [auto]
  end.

Lemma clear_items_actless items results next held : calls_in no_act (clear_items items results next held).
Proof.
  revert results next held. induction items as [|item items IH]; intros results next held; cbn [clear_items];
    [exact I|]. actless.
Qed.

Lemma cleanup_actless w config : calls_in no_act (clear_terminal_active_fires w config).
Proof.
  unfold clear_terminal_active_fires, list_active_cleanup_page.
  apply calls_in_bind; [actless|]. intros [ [cursor records]|e]; [|exact I].
  destruct (sort_active records cursor) as [ [next reports] items]. pose proof (clear_items_actless items).
  actless.
Qed.

Section Settled.
Context {C : Cron}.

Lemma persist_acts record slot d reason t r :
  traces (persist_failed_fire record slot d reason) t r ->
  acts t = [ActSettle (key_of_record record) slot].
Proof.
  destruct d; cbn [persist_failed_fire]; intros (t1 & t2 & x & -> & (y & t' & -> & -> & ->) & H2)%traces_bind;
    destruct y; destruct H2 as [-> _]; reflexivity.
Qed.

Lemma persist_error_acts record slot next e t r :
  traces (persist_error record slot next e) t r -> acts t = [ActSettle (key_of_record record) slot].
Proof. unfold persist_error. destruct (classify_failure e). apply persist_acts. Qed.

Lemma process_claimed_acts record slot now t r :
  traces (process_claimed_fire record slot now) t r ->
  acts t = [ActSettle (key_of_record record) slot] \/
  acts t = [ActSubmit; ActSettle (key_of_record record) slot].
Proof.
  unfold process_claimed_fire. intros (clock & t1 & -> & Ht). cbn [pbind] in Ht. rewrite ?acts_cons; cbn [act_of].
  destruct (next_run_at_after_fire clock record slot) as [next|e]; [|left; by eapply persist_acts].
  destruct Ht as ([ [fire|]|e] & t2 & -> & Ht); cbn [pbind] in Ht; rewrite ?acts_cons; cbn [act_of];
    [|left; by eapply persist_acts|left; by eapply persist_error_acts].
  destruct Ht as ([prompt|e] & t3 & -> & Ht); cbn [pbind] in Ht; rewrite ?acts_cons; cbn [act_of];
    [|left; by eapply persist_error_acts].
  right. unfold submit_fire in Ht. destruct Ht as (y & t4 & -> & Ht); cbn [pbind] in Ht.
  rewrite ?acts_cons; cbn [act_of]. f_equal.
  destruct y as [ [run at_|run at_]|e]; [..|by eapply persist_error_acts];
    destruct Ht as ([u|e] & t5 & -> & Ht); cbn [pbind] in Ht; by destruct Ht as [-> _].
Qed.

Lemma process_due_acts me record now t r :
  traces (process_due_record me record now) t r -> acts t = [] \/ settled_fire (acts t).
Proof.
  unfold process_due_record. intros (x & t' & -> & Ht). cbn [pbind] in Ht.
  destruct x as [ [c| | |[slot|] run]|e]; rewrite ?acts_cons; cbn [act_of];
    try (destruct Ht as [-> _]; by left).
  right. exists (key_of_record (cf_record c)), (cf_fire_slot c).
  destruct (process_claimed_acts _ _ _ _ _ Ht) as [->| ->]; [by left|by right].
Qed.

Lemma process_all_acts me records now t r :
  traces (process_due_records me records now) t r ->
  exists fires, acts t = concat fires /\ Forall settled_fire fires.
Proof.
  revert t r. induction records as [|record records IH]; intros t r; cbn [process_due_records].
  { intros [-> _]. by exists []. }
  intros (t1 & t' & x & -> & H1%process_due_acts & (t2 & t3 & y & -> & H2%IH & H3)%traces_bind)%traces_bind.
  destruct H3 as [-> _]. destruct H2 as (fires & H2 & Hf). rewrite app_nil_r, acts_app, H2.
  destruct H1 as [->|H1]; [by exists fires|]. exists (acts t1 :: fires). by split; [|constructor].
Qed.

(** C27: a tick leaves no fire half done.  Whatever the repository, the source, the
    materializer, the submitter and the run lookup answer, the claims that succeed in a
    tick are each followed by one call that settles that very fire (accepted, replayed,
    retryable, permanent or terminal), before the next claim, with at most one
    submission in between; and nothing is submitted or settled that was not claimed. *)
Theorem tick_settles_claims me w config now t r :
  traces (tick_once me w config now) t r ->
  exists fires, acts t = concat fires /\ Forall settled_fire fires.
Proof.
  unfold tick_once. intros ([] & t1 & -> & Ht). cbn [pbind] in Ht.
  apply traces_bind in Ht as (t2 & t3 & x & -> & H1 & H2). destruct H2 as ([] & t4 & -> & H2).
  destruct H2 as [-> _].
  rewrite acts_cons, acts_app, acts_cons. cbn [act_of]. rewrite acts_nil, app_nil_r. unfold tick_body in H1.
  apply traces_bind in H1 as (t5 & t6 & cleaned & -> & Hc & H1).
  rewrite acts_app, (no_acts _ _ _ (cleanup_actless w config) Hc).
  destruct cleaned as [cleaned|e]; [|destruct H1 as [-> _]; by exists []].
  destruct H1 as ([due|e] & t7 & -> & H1); cbn [pbind] in H1; [|destruct H1 as [-> _]; by exists []].
  apply traces_bind in H1 as (t8 & t9 & reports & -> & H1%process_all_acts & [-> _]).
  destruct H1 as (fires & H1 & Hf). exists fires. rewrite app_nil_r. by split; [exact H1|].
Qed.

End Settled.
