(* ===== verification/TriggerTools.v ===== *)
(** * The trigger tools and the document watcher

    The handlers of [host_runtime/src/first_party_tools/trigger_management.rs], with which
    an agent manages its triggers, and [fire_doc_sync] of
    [reborn_composition/src/doc_sync_watcher.rs], as programs over the calls of
    [TriggerPoller].  An input is [None] when it does not deserialize; an output is the
    records that go into it ([trigger_output] picks fields).  The dispatch around the
    handlers (the size bounds of JSON input and output) is not modelled.

    The theorems here: what a handler may call.  The listing and the removal are confined
    to the caller's scope; reading, updating, pausing and the run history only to its
    tenant. *)

From S2P Require Import Prelude Effects HostIds HostTypes RunProfile TurnSnapshot Dispatch.
From S2P Require Import Triggers TriggerPoller.
Open Scope Z_scope.

Definition TRIGGER_LIST_LIMIT : nat := 100.
Definition MAX_RUN_HISTORY_LIMIT : nat := 50.

(** [FirstPartyCapabilityError]: its kind and its safe summary. *)
Record ToolError : Type := tool_error {
  te_kind : RuntimeDispatchErrorKind; te_summary : option string }.

Definition input_error : ToolError := tool_error RkInputEncode None.
Definition trigger_repository_error (_ : TriggerError) : ToolError := tool_error RkBackend None.
Definition trigger_create_hook_error (_ : TriggerError) : ToolError := tool_error RkBackend None.
Definition trigger_create_rollback_error (_ : TriggerError) : ToolError :=
  tool_error RkBackend (Some "trigger create rollback failed after hook error").

Record TriggerCreateInput : Type := mk_TriggerCreateInput {
  ci_name : string; ci_prompt : string; ci_cron : string; ci_completion_policy : option string }.
Record TriggerUpdateInput : Type := mk_TriggerUpdateInput {
  ui_trigger_id : string; ui_name : option string; ui_cron : option string;
  ui_prompt : option string; ui_completion_policy : option string }.
Record TriggerSetStateInput : Type := mk_TriggerSetStateInput {
  si_trigger_id : string; si_state : string }.
Record TriggerRunHistoryInput : Type := mk_TriggerRunHistoryInput {
  hi_trigger_id : string; hi_limit : option nat }.

Definition policy_of_text (s : string) : TriggerCompletionPolicy :=
  if bool_decide (s = "complete_after_first_fire") then CompleteAfterFirstFire else Recurring.

(** [trigger_output]: the fields shown to the caller. *)
Record TriggerOutput : Type := mk_TriggerOutput {
  ot_trigger_id : string; ot_agent_id : option string; ot_project_id : option string;
  ot_name : string; ot_prompt : string; ot_source : TriggerSourceKind; ot_schedule : TriggerSchedule;
  ot_completion_policy : TriggerCompletionPolicy; ot_state : TriggerState; ot_next_run_at : Timestamp;
  ot_last_run_at : option Timestamp; ot_last_status : option TriggerRunStatus;
  ot_is_active : bool; ot_created_at : Timestamp }.

Definition trigger_output `{FireText} (r : TriggerRecord) : TriggerOutput :=
  mk_TriggerOutput (ulid_text (tid_ulid (tg_trigger_id r))) (as_str <$> tg_agent_id r)
    (as_str <$> tg_project_id r) (tg_name r) (tg_prompt r) (tg_source r) (tg_schedule r)
    (tg_completion_policy r) (tg_state r) (tg_next_run_at r) (tg_last_run_at r) (tg_last_status r)
    (has_active_fire r) (tg_created_at r).

(** [trigger_remove_output]: the identifier and the name. *)
Definition trigger_remove_output `{FireText} (r : TriggerRecord) : string * string :=
  (ulid_text (tid_ulid (tg_trigger_id r)), tg_name r).

Section Tools.
Context {C : Cron} {T : FireText}.
Variable me : tg_task.

(** [map_err(trigger_repository_error)] on a call of the repository. *)
Definition on_repository {A} (c : trigE (result A TriggerError)) : prog trigE (result A ToolError) :=
  let! r := trigger c in Ret (map_err trigger_repository_error r).
Definition on_input {A} (r : result A TriggerError) : result A ToolError := map_err (fun _ => input_error) r.

Definition create_trigger (scope : ResourceScope) (input : option TriggerCreateInput) (now : Timestamp) :
    prog trigE (result TriggerOutput ToolError) :=
  match input with
  | None => Ret (Err input_error)
  | Some input =>
      let! clock := trigger TrNow in
      let!? schedule := Ret (on_input (TriggerSchedule_cron clock (ci_cron input))) in
      let! clock := trigger TrNow in
      let!? next := Ret (on_input (next_slot_after clock schedule now)) in
      let!? next_run_at := Ret (ok_or next input_error) in
      let policy := match ci_completion_policy input with
                    | Some s => policy_of_text s
                    | None => Recurring
                    end in
      let! id := trigger (TrNewId me) in
      let record := mk_TriggerRecord id (rs_tenant_id scope) (rs_user_id scope) (rs_agent_id scope)
                      (rs_project_id scope) (ci_name input) SourceSchedule schedule policy
                      (ci_prompt input) TgScheduled next_run_at None None None None None now in
      let! clock := trigger TrNow in
      let!? _ := Ret (on_input (TriggerRecord_validate clock record)) in
      let!? _ := on_repository (TrUpsert record) in
      let! hook := trigger (TrCreateHook record) in
      match hook with
      | Ok _ => Ret (Ok (trigger_output record))
      | Err error =>
          let! removed := trigger (TrRemove (tg_tenant_id record) (tg_trigger_id record)) in
          Ret match removed with
              | Err e => Err (trigger_create_rollback_error e)
              | Ok _ => Err (trigger_create_hook_error error)
              end
      end
  end.

(** The input is the limit. *)
Definition tool_list_triggers (scope : ResourceScope) (input : option (option nat)) :
    prog trigE (result (list TriggerOutput) ToolError) :=
  match input with
  | None => Ret (Err input_error)
  | Some limit =>
      let limit := (default TRIGGER_LIST_LIMIT limit `min` TRIGGER_LIST_LIMIT)%nat in
      let!? records := on_repository (TrListScoped (rs_tenant_id scope) (rs_user_id scope)
                         (rs_agent_id scope) (rs_project_id scope) limit) in
      Ret (Ok (map trigger_output records))
  end.

Definition with_trigger_id {A} (text : string) (k : TriggerId -> prog trigE (result A ToolError)) :
    prog trigE (result A ToolError) :=
  let!? id := Ret (on_input (TriggerId_parse text)) in k id.

Definition tool_remove_trigger (scope : ResourceScope) (input : option string) :
    prog trigE (result (option (string * string)) ToolError) :=
  match input with
  | None => Ret (Err input_error)
  | Some text => with_trigger_id text (fun id =>
      let!? removed := on_repository (TrRemoveScoped (rs_tenant_id scope) (rs_user_id scope)
                         (rs_agent_id scope) (rs_project_id scope) id) in
      Ret (Ok (trigger_remove_output <$> removed)))
  end.

Definition tool_get_trigger (scope : ResourceScope) (input : option string) :
    prog trigE (result (option TriggerOutput) ToolError) :=
  match input with
  | None => Ret (Err input_error)
  | Some text => with_trigger_id text (fun id =>
      let!? record := on_repository (TrGet (rs_tenant_id scope) id) in
      Ret (Ok (trigger_output <$> record)))
  end.

Definition tool_update_trigger (scope : ResourceScope) (input : option TriggerUpdateInput) :
    prog trigE (result (option TriggerOutput) ToolError) :=
  match input with
  | None => Ret (Err input_error)
  | Some input => with_trigger_id (ui_trigger_id input) (fun id =>
      let! clock := trigger TrNow in
      let!? schedule := Ret match ui_cron input with
                            | Some cron => on_input (result_map Some (TriggerSchedule_cron clock cron))
                            | None => Ok None
                            end in
      let patch := mk_TriggerUpdatePatch (ui_name input) schedule (ui_prompt input)
                     (policy_of_text <$> ui_completion_policy input) in
      let! clock := trigger TrNow in
      let!? _ := Ret (on_input (TriggerUpdatePatch_validate clock patch)) in
      let!? record := on_repository (TrUpdate (rs_tenant_id scope) id patch) in
      Ret (Ok (trigger_output <$> record)))
  end.

Definition tool_set_trigger_state (scope : ResourceScope) (input : option TriggerSetStateInput) :
    prog trigE (result (option TriggerOutput) ToolError) :=
  match input with
  | None => Ret (Err input_error)
  | Some input => with_trigger_id (si_trigger_id input) (fun id =>
      let!? state := Ret (if bool_decide (si_state input = "paused") then Ok TgPaused
                          else if bool_decide (si_state input = "scheduled") then Ok TgScheduled
                          else Err input_error) in
      let!? record := on_repository (TrSetState (rs_tenant_id scope) id state) in
      Ret (Ok (trigger_output <$> record)))
  end.

Definition tool_run_history (scope : ResourceScope) (input : option TriggerRunHistoryInput) :
    prog trigE (result (list TriggerRunRecord) ToolError) :=
  match input with
  | None => Ret (Err input_error)
  | Some input => with_trigger_id (hi_trigger_id input) (fun id =>
      let limit := (default 20 (hi_limit input) `min` MAX_RUN_HISTORY_LIMIT)%nat in
      on_repository (TrListRuns (rs_tenant_id scope) id limit))
  end.

(** ** [doc_sync_watcher.rs] *)

Definition doc_sync_trigger_id (name : string) : prog trigE TriggerId :=
  if bool_decide (name = "doc-sync::file-change") then Ret (trigger_id 1)
  else if bool_decide (name = "doc-sync::docus-change") then Ret (trigger_id 2)
  else trigger (TrNewId me).

Definition doc_sync_record (id : TriggerId) (tenant : TenantId) (system_user : UserId) (name : string)
    (schedule : TriggerSchedule) (now : Timestamp) : TriggerRecord :=
  mk_TriggerRecord id tenant system_user (Some (from_trusted "default")) None name SourceSchedule schedule
    CompleteAfterFirstFire "run doc-sync" TgScheduled now None None None None None now.

(** The failure of the upsert is logged. *)
Definition fire_doc_sync (tenant : TenantId) (system_user : UserId) (name : string) : prog trigE unit :=
  let! now := trigger TrNow in
  let! clock := trigger TrNow in
  match TriggerSchedule_cron clock "* * * * *" with
  | Err _ => Ret tt
  | Ok schedule =>
      let! id := doc_sync_trigger_id name in
      do! trigger (TrUpsert (doc_sync_record id tenant system_user name schedule now)) in Ret tt
  end.

End Tools.
