(* ===== verification/TriggerPool.v ===== *)
(** * Pollers and users over one repository

    Any number of poller ticks and tool calls run concurrently over one trigger
    repository; the state also has the clock, the cursors and guards of the workers, and,
    for the statements, which identifiers were drawn, who claimed which fire, which
    submissions are not settled yet, which slots were accepted with which run, and whether
    a submission ever broke the rule.  The
    clock may advance at every step.  The source provider is the schedule's; the
    materializer, the submitter, the run lookup and the create hook may answer anything.

    The repository is never poisoned half way: no section of it can panic.  New
    identifiers are new.  The document watcher is left out of the pool, because it writes
    over the record of a running fire; what that does is stated on its own.

    The theorems: each slot of a trigger is accepted at most once and in order, nothing is
    submitted that was already accepted or while another submission of the trigger is in
    flight, a tick's report of a submission is true, and the tools
    read and write in their caller's tenant only. *)

From S2P Require Import Prelude Effects HostIds HostTypes RunProfile TurnSnapshot Dispatch.
From S2P Require Import Triggers TriggerPoller TriggerTools.
Open Scope Z_scope.

Record tworld : Type := mk_tworld {
  tw_repo : TriggerRepository;
  tw_clock : Timestamp;
  tw_cursors : gmap worker_id (option ActiveTriggerScanCursor);
  tw_ticking : gmap worker_id tg_task;
  tw_drawn : gmap TriggerId tg_task;
  tw_seen : gset TriggerRepositoryKey;
  tw_owner : gmap TriggerRepositoryKey (tg_task * Timestamp);
  tw_inflight : gset TriggerRepositoryKey;
  tw_accepted : list (TriggerRepositoryKey * Timestamp * TurnRunId);
  tw_crossed : bool }.

Definition tw_at (t : Timestamp) (s : tworld) : tworld :=
  mk_tworld (tw_repo s) t (tw_cursors s) (tw_ticking s) (tw_drawn s) (tw_seen s) (tw_owner s)
    (tw_inflight s) (tw_accepted s) (tw_crossed s).
Definition tw_with_repo (r : TriggerRepository) (s : tworld) : tworld :=
  mk_tworld r (tw_clock s) (tw_cursors s) (tw_ticking s) (tw_drawn s) (tw_seen s) (tw_owner s)
    (tw_inflight s) (tw_accepted s) (tw_crossed s).
Definition tw_with_workers (c : gmap worker_id (option ActiveTriggerScanCursor)) (l : gmap worker_id tg_task)
    (s : tworld) : tworld :=
  mk_tworld (tw_repo s) (tw_clock s) c l (tw_drawn s) (tw_seen s) (tw_owner s) (tw_inflight s) (tw_accepted s) (tw_crossed s).
Definition tw_with_ids (d : gmap TriggerId tg_task) (n : gset TriggerRepositoryKey) (s : tworld) : tworld :=
  mk_tworld (tw_repo s) (tw_clock s) (tw_cursors s) (tw_ticking s) d n (tw_owner s) (tw_inflight s)
    (tw_accepted s) (tw_crossed s).
Definition tw_with_claims (o : gmap TriggerRepositoryKey (tg_task * Timestamp))
    (f : gset TriggerRepositoryKey) (a : list (TriggerRepositoryKey * Timestamp * TurnRunId))
    (s : tworld) : tworld :=
  mk_tworld (tw_repo s) (tw_clock s) (tw_cursors s) (tw_ticking s) (tw_drawn s) (tw_seen s) o f a (tw_crossed s).

(** A submission of an accepted slot, or while another one is in flight. *)
Definition tw_submit (key : TriggerRepositoryKey) (slot : Timestamp) (s : tworld) : tworld :=
  mk_tworld (tw_repo s) (tw_clock s) (tw_cursors s) (tw_ticking s) (tw_drawn s) (tw_seen s) (tw_owner s)
    ({[key]} ∪ tw_inflight s) (tw_accepted s)
    (tw_crossed s || bool_decide (key ∈ tw_inflight s)
     || bool_decide ((key, slot) ∈ map fst (tw_accepted s))).

(** A settlement that was recorded ends the claim, and a first acceptance is noted. *)
Definition settle (key : TriggerRepositoryKey) (slot : Timestamp) (run : option TurnRunId)
    (x : result (option TriggerRecord) TriggerError) (s : tworld) : tworld :=
  match x with
  | Ok (Some _) =>
      tw_with_claims (delete key (tw_owner s)) (tw_inflight s ∖ {[key]})
        match run, repo_records (tw_repo s) !! key ≫= tg_active_run_ref with
        | Some run, None => tw_accepted s ++ [(key, slot, run)]
        | _, _ => tw_accepted s
        end s
  | _ => s
  end.

(** A call of the repository that is one of its functions. *)
Definition repo_call {A} (f : TriggerRepository -> TriggerRepository * A) (s s' : tworld) (x : A) : Prop :=
  s' = tw_with_repo (f (tw_repo s)).1 s /\ x = (f (tw_repo s)).2.

Definition settle_call (key : TriggerRepositoryKey) (slot : Timestamp) (run : option TurnRunId)
    (f : TriggerRepository -> TriggerRepository * result (option TriggerRecord) TriggerError)
    (s s' : tworld) (x : result (option TriggerRecord) TriggerError) : Prop :=
  x = (f (tw_repo s)).2 /\
  s' = tw_with_repo (f (tw_repo s)).1 (settle key slot run x s).

Section Pool.
Context {C : Cron} {T : FireText}.

Definition trig_effect X (e : trigE X) (s s' : tworld) : X -> Prop :=
  match e in trigE X return X -> Prop with
  | TrUpsert record => fun x =>
      x = (tg_upsert (tw_clock s) record (tw_repo s)).2 /\
      s' = tw_with_repo (tg_upsert (tw_clock s) record (tw_repo s)).1
             (tw_with_ids (tw_drawn s)
                (if is_ok x then {[key_of_record record]} ∪ tw_seen s else tw_seen s) s)
  | TrGet tenant id => fun x => s' = s /\ x = tg_get tenant id (tw_repo s)
  | TrListScoped tenant user agent project limit => fun x =>
      s' = s /\ x = tg_list_scoped tenant user agent project limit (tw_repo s)
  | TrRemove tenant id => repo_call (tg_remove tenant id) s s'
  | TrRemoveScoped tenant user agent project id =>
      repo_call (tg_remove_scoped tenant user agent project id) s s'
  | TrListDue now limit => fun x => s' = s /\ x = tg_list_due now limit (tw_repo s)
  | TrListActiveAfter after limit => fun x =>
      s' = s /\ x = tg_list_active_after after limit (tw_repo s)
  | TrClaim me req => fun x =>
      let key := (cd_tenant_id req, cd_trigger_id req) in
      x = (tg_claim_due_fire req (tw_repo s)).2 /\
      s' = tw_with_repo (tg_claim_due_fire req (tw_repo s)).1
             match x with
             | Ok (FireClaimed c) =>
                 tw_with_claims (<[key := (me, cf_fire_slot c)]> (tw_owner s)) (tw_inflight s) (tw_accepted s) s
             | _ => s
             end
  | TrAccepted q =>
      settle_call (fa_tenant_id q, fa_trigger_id q) (fa_fire_slot q) (Some (fa_run_id q)) (mark_fire_accepted q) s s'
  | TrReplayed q =>
      settle_call (fr_tenant_id q, fr_trigger_id q) (fr_fire_slot q) (Some (fr_original_run_id q))
        (mark_fire_replayed q) s s'
  | TrRetryable q =>
      settle_call (ff_tenant_id q, ff_trigger_id q) (ff_fire_slot q) None (mark_fire_retryable_failed q) s s'
  | TrPermanent q =>
      settle_call (fp_tenant_id q, fp_trigger_id q) (fp_fire_slot q) None (mark_fire_permanently_failed q) s s'
  | TrTerminal q =>
      settle_call (ft_tenant_id q, ft_trigger_id q) (ft_fire_slot q) None (mark_fire_terminally_failed q) s s'
  | TrClear q => repo_call (clear_active_fire q) s s'
  | TrUpdate tenant id patch => repo_call (tg_update (tw_clock s) (tw_clock s) tenant id patch) s s'
  | TrSetState tenant id state => repo_call (tg_set_state tenant id state) s s'
  | TrListRuns tenant id limit => fun x => s' = s /\ x = tg_list_runs tenant id limit (tw_repo s)
  | TrNow => fun x => s' = s /\ x = tw_clock s
  | TrNewId me => fun x =>
      tw_drawn s !! x = None /\ s' = tw_with_ids (<[x := me]> (tw_drawn s)) (tw_seen s) s
  | TrLockTick me w => fun _ =>
      tw_ticking s !! w = None /\ s' = tw_with_workers (tw_cursors s) (<[w := me]> (tw_ticking s)) s
  | TrUnlockTick me w => fun _ => s' = tw_with_workers (tw_cursors s) (delete w (tw_ticking s)) s
  | TrCursor w => fun x => s' = s /\ x = Ok (default None (tw_cursors s !! w))
  | TrSetCursor w c => fun x =>
      s' = tw_with_workers (<[w := c]> (tw_cursors s)) (tw_ticking s) s /\ x = Ok tt
  | TrEvaluate record now => fun x => s' = s /\ x = schedule_evaluate (tw_clock s) record now
  | TrMaterialize _ => fun _ => s' = s
  | TrSubmit q => fun _ =>
      let i := fire_identity (tq_fire q) in
      s' = tw_submit (fi_tenant_id i, fi_trigger_id i) (fi_fire_slot i) s
  | TrLookup _ => fun _ => s' = s
  | TrCreateHook _ => fun _ => s' = s
  end.

(** The clock may have advanced when a call is made. *)
Definition trig_handle X (e : trigE X) (s s' : tworld) (x : X) : Prop :=
  exists t, tw_clock s <= t /\ trig_effect X e (tw_at t s) s' x.

(** ** The invariant *)

Record tinv (s : tworld) : Prop := {
  ti_keyed k r : repo_records (tw_repo s) !! k = Some r -> key_of_record r = k /\ k ∈ tw_seen s;
  ti_ref k r run : repo_records (tw_repo s) !! k = Some r -> tg_active_run_ref r = Some run ->
    exists slot, tg_active_fire_slot r = Some slot /\ (k, slot, run) ∈ tw_accepted s;
  ti_drawn k : k ∈ tw_seen s -> is_Some (tw_drawn s !! k.2);
  ti_owner k a slot : tw_owner s !! k = Some (a, slot) ->
    k ∈ tw_seen s /\ slot <= tw_clock s /\
    (forall r, repo_records (tw_repo s) !! k = Some r ->
       tg_active_fire_slot r = Some slot /\ tg_active_run_ref r = None) /\
    (forall slot' run, (k, slot', run) ∈ tw_accepted s -> slot' < slot);
  ti_inflight k : k ∈ tw_inflight s -> is_Some (tw_owner s !! k);
  ti_accepted k slot run : (k, slot, run) ∈ tw_accepted s ->
    k ∈ tw_seen s /\ slot <= tw_clock s /\
    (forall r, repo_records (tw_repo s) !! k = Some r -> slot < tg_next_run_at r);
  ti_ordered : StronglySorted (fun x y : TriggerRepositoryKey * Timestamp * TurnRunId =>
    x.1.1 = y.1.1 -> x.1.2 < y.1.2) (tw_accepted s);
  ti_crossed : tw_crossed s = false;
  ti_texts k r : repo_records (tw_repo s) !! k = Some r -> texts_ok r }.

(** What the steps of others leave to the task [a]. *)
Record tquiet (a : tg_task) (s s' : tworld) : Prop := {
  tq_owner k slot : tw_owner s !! k = Some (a, slot) ->
    tw_owner s' !! k = Some (a, slot) /\ (k ∈ tw_inflight s' <-> k ∈ tw_inflight s);
  tq_accepted x : x ∈ tw_accepted s -> x ∈ tw_accepted s';
  tq_clock : tw_clock s <= tw_clock s';
  tq_drawn id : tw_drawn s !! id = Some a ->
    tw_drawn s' !! id = Some a /\ forall tenant, (tenant, id) ∈ tw_seen s' <-> (tenant, id) ∈ tw_seen s }.

Lemma tquiet_refl a s : tquiet a s s.
Proof. split; done. Qed.

Lemma tquiet_trans a s1 s2 s3 : tquiet a s1 s2 -> tquiet a s2 s3 -> tquiet a s1 s3.
Proof.
  intros H1 H2. split.
  - intros k slot [Ho Hf]%(tq_owner _ _ _ H1). destruct (tq_owner _ _ _ H2 _ _ Ho) as [Ho' Hf'].
    split; [done|]. by rewrite Hf', Hf.
  - intros x Hx. by apply (tq_accepted _ _ _ H2), (tq_accepted _ _ _ H1).
  - pose proof (tq_clock _ _ _ H1). pose proof (tq_clock _ _ _ H2). lia.
  - intros id [Hd Hs]%(tq_drawn _ _ _ H1). destruct (tq_drawn _ _ _ H2 _ Hd) as [Hd' Hs'].
    split; [done|]. intros tenant. by rewrite Hs', Hs.
Qed.

Definition trig_rely (a : tg_task) (s s' : tworld) : Prop := tinv s -> tinv s' /\ tquiet a s s'.
Definition trig_guar (a : tg_task) (s s' : tworld) : Prop :=
  tinv s -> tinv s' /\ forall b, b <> a -> tquiet b s s'.

(** A step that leaves the claims and the identifiers alone is quiet for everybody. *)
Lemma quiet_world s s' :
  tw_owner s' = tw_owner s -> tw_inflight s' = tw_inflight s -> tw_accepted s' = tw_accepted s ->
  tw_clock s <= tw_clock s' -> tw_drawn s' = tw_drawn s -> tw_seen s' = tw_seen s ->
  forall b, tquiet b s s'.
Proof. intros Ho Hf Ha Hc Hd Hs b. split; rewrite ?Ho, ?Hf, ?Ha, ?Hd, ?Hs; done. Qed.

Lemma tinv_at t s : tw_clock s <= t -> tinv s -> tinv (tw_at t s).
Proof.
  intros Ht [H1 H2 H3 H4 H5 H6 H7 H8 H9]. split; simpl; try done.
  - intros k a slot (Hs & Hc & Hr & Ha)%H4. split_and!; [done|lia|done|done].
  - intros k slot run (Hs & Hc & Hn)%H6. split_and!; [done|lia|done].
Qed.

(** ** Each kind of step keeps the invariant *)

(** A record is edited: by a user, or when its finished run is cleared. *)
Lemma tinv_edit s k r r' :
  tinv s -> repo_records (tw_repo s) !! k = Some r -> key_of_record r' = key_of_record r ->
  tg_active_run_ref r' = None \/
    (tg_active_run_ref r' = tg_active_run_ref r /\ tg_active_fire_slot r' = tg_active_fire_slot r) ->
  tw_owner s !! k = None \/
    (tg_active_run_ref r' = tg_active_run_ref r /\ tg_active_fire_slot r' = tg_active_fire_slot r) ->
  tg_next_run_at r' = tg_next_run_at r \/ tw_clock s < tg_next_run_at r' -> (texts_ok r -> texts_ok r') ->
  tinv (tw_with_repo (tg_with_records (<[k := r']> (repo_records (tw_repo s))) (tw_repo s)) s).
Proof.
  intros [H1 H2 H3 H4 H5 H6 H7 H8 H9] Hr Hk Href Hown Hnext Htexts. split; simpl; try done.
  - intros k' x. same_or_other k' k; [|apply H1]. intros [= <-]. rewrite Hk. by apply H1.
  - intros k' x run. same_or_other k' k; [|apply H2]. intros [= <-] Hrun.
    destruct Href as [Href|[E1 E2] ]; [congruence|]. rewrite E1 in Hrun. rewrite E2. by apply (H2 k r).
  - intros k' a slot Ho. destruct (H4 _ _ _ Ho) as (Hs & Hc & Hall & Ha). split_and!; [done|done| |done].
    intros x. same_or_other k' k; [|apply Hall]. intros [= <-].
    destruct Hown as [Hn|[E1 E2] ]; [congruence|]. rewrite E1, E2. by apply Hall.
  - intros k' slot run Hin. destruct (H6 _ _ _ Hin) as (Hs & Hc & Hn). split_and!; [done|done|].
    intros x. same_or_other k' k; [|apply Hn]. intros [= <-]. specialize (Hn _ Hr). lia.
  - intros k' x. same_or_other k' k; [|apply H9]. intros [= <-]. by apply Htexts, (H9 k).
Qed.

Lemma tinv_delete s k :
  tinv s -> tinv (tw_with_repo (tg_with_records (delete k (repo_records (tw_repo s))) (tw_repo s)) s).
Proof.
  intros [H1 H2 H3 H4 H5 H6 H7 H8 H9]. split; simpl; try done.
  - intros k' x [_ Hx]%lookup_delete_Some. by apply H1.
  - intros k' x run [_ Hx]%lookup_delete_Some. by apply (H2 k').
  - intros k' a slot Ho. destruct (H4 _ _ _ Ho) as (Hs & Hc & Hall & Ha). split_and!; [done|done| |done].
    intros x [_ Hx]%lookup_delete_Some. by apply Hall.
  - intros k' slot run Hin. destruct (H6 _ _ _ Hin) as (Hs & Hc & Hn). split_and!; [done|done|].
    intros x [_ Hx]%lookup_delete_Some. by apply Hn.
  - intros k' x [_ Hx]%lookup_delete_Some. by apply (H9 k').
Qed.

Lemma tinv_claim s k r a slot :
  tinv s -> repo_records (tw_repo s) !! k = Some r -> tg_active_fire_slot r = None ->
  tg_active_run_ref r = None -> tg_next_run_at r = slot -> slot <= tw_clock s ->
  tw_owner s !! k = None /\
  tinv (tw_with_repo (tg_with_records (<[k := tg_with_active (Some slot) None r]> (repo_records (tw_repo s))) (tw_repo s))
          (tw_with_claims (<[k := (a, slot)]> (tw_owner s)) (tw_inflight s) (tw_accepted s) s)).
Proof.
  intros [H1 H2 H3 H4 H5 H6 H7 H8 H9] Hr Hact Href Hnext Hclock.
  assert (tw_owner s !! k = None) as Ho.
  { destruct (tw_owner s !! k) as [ [b sl]|] eqn:Ho; [|done]. destruct (H4 _ _ _ Ho) as (_ & _ & Hall & _).
    destruct (Hall _ Hr). congruence. }
  split; [done|]. split; simpl; try done.
  - intros k' x. same_or_other k' k; [|apply H1]. intros [= <-]. by apply (H1 k r).
  - intros k' x run. same_or_other k' k; [|apply H2]. by intros [= <-].
  - intros k' b sl. same_or_other k' k.
    + intros [= <- <-]. destruct (H1 _ _ Hr). split_and!; [done|done|by intros x [= <-]|].
      intros slot' run Hin. destruct (H6 _ _ _ Hin) as (_ & _ & Hn). specialize (Hn _ Hr). lia.
    + intros Hb. destruct (H4 _ _ _ Hb) as (Hs & Hc & Hall & Ha). split_and!; [done|done| |done].
      intros x. look. apply Hall.
  - intros k' Hk'. same_or_other k' k; [done|]. by apply H5.
  - intros k' sl run Hin. destruct (H6 _ _ _ Hin) as (Hs & Hc & Hn). split_and!; [done|done|].
    intros x. same_or_other k' k; [|apply Hn]. intros [= <-]. apply (Hn _ Hr).
  - intros k' x. same_or_other k' k; [|apply H9]. intros [= <-]. apply (H9 _ _ Hr).
Qed.

(** The claim ends without a run. *)
Lemma tinv_fail s k r r' a slot :
  tinv s -> tw_owner s !! k = Some (a, slot) -> repo_records (tw_repo s) !! k = Some r ->
  key_of_record r' = key_of_record r -> tg_active_run_ref r' = None ->
  tg_next_run_at r' = tg_next_run_at r \/ slot < tg_next_run_at r' -> (texts_ok r -> texts_ok r') ->
  tinv (tw_with_repo (tg_with_records (<[k := r']> (repo_records (tw_repo s))) (tw_repo s))
          (tw_with_claims (delete k (tw_owner s)) (tw_inflight s ∖ {[k]}) (tw_accepted s) s)).
Proof.
  intros [H1 H2 H3 H4 H5 H6 H7 H8 H9] Ho Hr Hk Href Hnext Htexts. destruct (H4 _ _ _ Ho) as (Hks & Hkc & Hkr & Hka).
  split; simpl; try done.
  - intros k' x. same_or_other k' k; [|apply H1]. intros [= <-]. rewrite Hk. by apply H1.
  - intros k' x run. same_or_other k' k; [|apply H2]. intros [= <-]. congruence.
  - intros k' b sl [Hne Hb]%lookup_delete_Some. destruct (H4 _ _ _ Hb) as (Hs & Hc & Hall & Ha).
    split_and!; [done|done| |done]. intros x. look. apply Hall.
  - intros k' [Hf Hne]%elem_of_difference. rewrite lookup_delete_ne by set_solver. by apply H5.
  - intros k' sl run Hin. destruct (H6 _ _ _ Hin) as (Hs & Hc & Hn). split_and!; [done|done|].
    intros x. same_or_other k' k; [|apply Hn]. intros [= <-]. specialize (Hn _ Hr). specialize (Hka _ _ Hin). lia.
  - intros k' x. same_or_other k' k; [|apply H9]. intros [= <-]. by apply Htexts, (H9 k).
Qed.

(** The claim ends with a run. *)
Lemma tinv_accept s k r r' a slot run :
  tinv s -> tw_owner s !! k = Some (a, slot) -> repo_records (tw_repo s) !! k = Some r ->
  key_of_record r' = key_of_record r -> tg_active_run_ref r' = Some run ->
  tg_active_fire_slot r' = Some slot -> slot < tg_next_run_at r' -> (texts_ok r -> texts_ok r') ->
  tinv (tw_with_repo (tg_with_records (<[k := r']> (repo_records (tw_repo s))) (tw_repo s))
          (tw_with_claims (delete k (tw_owner s)) (tw_inflight s ∖ {[k]})
             (tw_accepted s ++ [(k, slot, run)]) s)).
Proof.
  intros [H1 H2 H3 H4 H5 H6 H7 H8 H9] Ho Hr Hk Href Hslot Hnext Htexts. destruct (H4 _ _ _ Ho) as (Hks & Hkc & Hkr & Hka).
  split; simpl; try done.
  - intros k' x. same_or_other k' k; [|apply H1]. intros [= <-]. rewrite Hk. by apply H1.
  - intros k' x run'. same_or_other k' k.
    + intros [= <-] ?. exists slot. split; [done|]. apply elem_of_app. right. apply list_elem_of_singleton. congruence.
    + intros Hx Hrun. destruct (H2 _ _ _ Hx Hrun) as (sl & ? & ?). exists sl. split; [done|].
      apply elem_of_app. by left.
  - intros k' b sl [Hne Hb]%lookup_delete_Some. destruct (H4 _ _ _ Hb) as (Hs & Hc & Hall & Ha).
    split_and!; [done|done| |].
    + intros x. look. apply Hall.
    + intros sl' run' [Hin|Hin%list_elem_of_singleton]%elem_of_app; [by eapply Ha|]. congruence.
  - intros k' [Hf Hne]%elem_of_difference. rewrite lookup_delete_ne by set_solver. by apply H5.
  - intros k' sl run' [Hin|Hin%list_elem_of_singleton]%elem_of_app.
    + destruct (H6 _ _ _ Hin) as (Hs & Hc & Hn). split_and!; [done|done|].
      intros x. same_or_other k' k; [|apply Hn]. intros [= <-]. specialize (Hka _ _ Hin). lia.
    + injection Hin as -> -> ->. split_and!; [done|done|]. intros x. look. by intros [= <-].
  - apply StronglySorted_app_2; [|done|by repeat constructor].
    intros [ [k1 s1] r1] y Hx ->%list_elem_of_singleton. simpl. intros ->. by eapply Hka.
  - intros k' x. same_or_other k' k; [|apply H9]. intros [= <-]. by apply Htexts, (H9 k).
Qed.

(** A trigger is created under an identifier that was never used. *)
Lemma tinv_create s r a :
  tinv s -> tw_drawn s !! tg_trigger_id r = Some a -> (key_of_record r ∉ tw_seen s) ->
  tg_active_run_ref r = None -> texts_ok r ->
  tinv (tw_with_repo (tg_with_records (<[key_of_record r := r]> (repo_records (tw_repo s))) (tw_repo s))
          (tw_with_ids (tw_drawn s) ({[key_of_record r]} ∪ tw_seen s) s)).
Proof.
  intros [H1 H2 H3 H4 H5 H6 H7 H8 H9] Hd Hn Href Htexts. split; simpl; try done.
  - intros k x. same_or_other k (key_of_record r); [intros [= <-]; set_solver|].
    intros [? ?]%H1. set_solver.
  - intros k x run. same_or_other k (key_of_record r); [intros [= <-]; congruence|]. apply H2.
  - intros k [->%elem_of_singleton|Hk]%elem_of_union; [by exists a | by apply H3].
  - intros k b sl Hb. destruct (H4 _ _ _ Hb) as (Hs & Hc & Hall & Ha).
    assert (k <> key_of_record r) by (by intros ->). split_and!; [set_solver|done| |done].
    intros x. look. apply Hall.
  - intros k sl run Hin. destruct (H6 _ _ _ Hin) as (Hs & Hc & Hnx).
    assert (k <> key_of_record r) by (by intros ->). split_and!; [set_solver|done|].
    intros x. look. apply Hnx.
  - intros k x. same_or_other k (key_of_record r); [by intros [= <-]|]. apply H9.
Qed.

(** ** The proof rule for a call *)

Abbreviation rgt := (rg trig_handle trig_rely trig_guar).

Definition others_quiet (a : tg_task) (s s' : tworld) : Prop := forall b, b <> a -> tquiet b s s'.

Lemma rg_trig {R} a {X} (e : trigE X) (k : X -> prog trigE R) Q s :
  tinv s ->
  (forall s1 s2 x, tinv s1 -> tquiet a s s1 -> trig_effect X e s1 s2 x ->
     (tinv s2 /\ others_quiet a s1 s2) /\ (tinv s2 -> rgt a (k x) Q s2)) ->
  rgt a (Call e k) Q s.
Proof.
  intros HI H s0 s2 x Hrel (t & Ht & Heff). destruct (Hrel HI) as [HI0 Hq0].
  destruct (H (tw_at t s0) s2 x) as [ [HI2 Hg] Hk]; [by apply tinv_at| |done|].
  - eapply tquiet_trans; [exact Hq0|]. by apply quiet_world.
  - split; [|by apply Hk]. intros _. split; [done|]. intros b Hb.
    eapply tquiet_trans; [|by apply Hg]. by apply quiet_world.
Qed.

(** A call that changes nothing. *)
Lemma rg_look {R} a {X} (e : trigE X) (k : X -> prog trigE R) Q s :
  tinv s -> (forall s1 s2 x, trig_effect X e s1 s2 x -> s2 = s1) ->
  (forall s1 x, tinv s1 -> tquiet a s s1 -> trig_effect X e s1 s1 x -> rgt a (k x) Q s1) ->
  rgt a (Call e k) Q s.
Proof.
  intros HI Hsame H. apply rg_trig; [done|]. intros s1 s2 x HI1 Hq Heff. pose proof (Hsame _ _ _ Heff) as ->.
  split; [split; [done|intros b _; apply tquiet_refl] |]. intros _. by apply H.
Qed.

(** What a task knows of the past. *)
Definition since (s s' : tworld) : Prop :=
  (forall x, x ∈ tw_accepted s -> x ∈ tw_accepted s') /\ tw_clock s <= tw_clock s'.

Lemma since_refl s : since s s.
Proof. by split. Qed.
Lemma since_trans s1 s2 s3 : since s1 s2 -> since s2 s3 -> since s1 s3.
Proof. intros [H1 C1] [H2 C2]. split; [auto|lia]. Qed.
Lemma since_quiet a s s' : tquiet a s s' -> since s s'.
Proof. intros H. split; [apply H | apply H]. Qed.

(** The world behind a call that touched neither the claims nor the identifiers. *)
Definition same_claims (s s' : tworld) : Prop :=
  tw_owner s' = tw_owner s /\ tw_inflight s' = tw_inflight s /\ tw_accepted s' = tw_accepted s /\
  tw_clock s' = tw_clock s /\ tw_drawn s' = tw_drawn s /\ tw_seen s' = tw_seen s.

Lemma same_claims_quiet s s' b : same_claims s s' -> tquiet b s s'.
Proof. intros (Ho & Hf & Ha & Hc & Hd & Hs). apply quiet_world; try done. by rewrite Hc. Qed.

(** [a]'s claims change only at [k], which it owns (or nobody does), and nothing else. *)
Lemma own_claim_quiet a b s k o f acc r :
  b <> a -> (forall b' sl, tw_owner s !! k = Some (b', sl) -> b' = a) ->
  (forall k', k' <> k -> o !! k' = tw_owner s !! k') -> (forall k', k' <> k -> k' ∈ f <-> k' ∈ tw_inflight s) ->
  (forall x, x ∈ tw_accepted s -> x ∈ acc) ->
  tquiet b s (tw_with_repo r (tw_with_claims o f acc s)).
Proof.
  intros Hb Hk Ho Hf Hacc. split; simpl; [|done|done|done].
  intros k' sl Hown. assert (k' <> k) as Hne by (intros ->; apply Hb; by eapply Hk).
  rewrite Ho by done. split; [done|]. by apply Hf.
Qed.

(** Clearing, editing and removing. *)
Lemma effect_clear q s s' x :
  tinv s -> trig_effect _ (TrClear q) s s' x -> tinv s' /\ same_claims s s'.
Proof.
  intros HI [-> ->]. destruct (clear_active_fire q (tw_repo s)) as [rp x] eqn:E. simpl.
  apply clear_cases in E as [ [-> _]|(r & _ & Hr & Hs & Hrun & -> & _)].
  - split; [|by repeat split]. by destruct HI; split.
  - split; [|by repeat split]. apply (tinv_edit s _ r); try done; [by left| |by left]. left.
    destruct (tw_owner s !! _) as [ [b sl]|] eqn:Ho; [|done].
    destruct (ti_owner s HI _ _ _ Ho) as (_ & _ & Hall & _). destruct (Hall _ Hr). congruence.
Qed.

Lemma tinv_same_repo s : tinv s -> tinv (tw_with_repo (tw_repo s) s).
Proof. by intros [H1 H2 H3 H4 H5 H6 H7 H8 H9]; split. Qed.

Lemma effect_update `{!CronLaws C} tenant id patch s s' x :
  patch_ok patch -> tinv s -> trig_effect _ (TrUpdate tenant id patch) s s' x ->
  tinv s' /\ same_claims s s'.
Proof.
  intros Hpatch HI [-> ->]. destruct (tg_update _ _ tenant id patch (tw_repo s)) as [rp x] eqn:E. simpl.
  split; [|by repeat split]. apply update_cases in E as [->|(r & r' & _ & Hr & He & ->)]; [by apply tinv_same_repo|].
  destruct He as (Hk & Ha & Href & Ht & Hnext). apply (tinv_edit s _ r); auto.
Qed.

Lemma effect_set_state tenant id st s s' x :
  tinv s -> trig_effect _ (TrSetState tenant id st) s s' x -> tinv s' /\ same_claims s s'.
Proof.
  intros HI [-> ->]. destruct (tg_set_state tenant id st (tw_repo s)) as [rp x] eqn:E. simpl.
  split; [|by repeat split]. apply set_state_cases in E as [->|(r & _ & Hr & ->)]; [by apply tinv_same_repo|].
  apply (tinv_edit s _ r); auto.
Qed.

Lemma effect_remove tenant id s s' x :
  tinv s -> trig_effect _ (TrRemove tenant id) s s' x -> tinv s' /\ same_claims s s'.
Proof.
  intros HI [-> ->]. destruct (tg_remove tenant id (tw_repo s)) as [rp x] eqn:E. simpl.
  split; [|by repeat split]. apply remove_cases in E as [->| ->]; [by apply tinv_same_repo|by apply tinv_delete].
Qed.

Lemma effect_remove_scoped tenant user agent project id s s' x :
  tinv s -> trig_effect _ (TrRemoveScoped tenant user agent project id) s s' x -> tinv s' /\ same_claims s s'.
Proof.
  intros HI [-> ->]. destruct (tg_remove_scoped tenant user agent project id (tw_repo s)) as [rp x] eqn:E. simpl.
  split; [|by repeat split].
  apply remove_scoped_cases in E as [[-> _]|(r & _ & _ & _ & _ & _ & ->)]; [by apply tinv_same_repo|by apply tinv_delete].
Qed.

Lemma rg_same {R} a {X} (e : trigE X) (k : X -> prog trigE R) Q s :
  tinv s -> (forall s1 s2 x, tinv s1 -> trig_effect X e s1 s2 x -> tinv s2 /\ same_claims s1 s2) ->
  (forall s2 x, tinv s2 -> tquiet a s s2 -> rgt a (k x) Q s2) ->
  rgt a (Call e k) Q s.
Proof.
  intros HI Hstep H. apply rg_trig; [done|]. intros s1 s2 x HI1 Hq Heff.
  destruct (Hstep _ _ _ HI1 Heff) as [HI2 Hs]. split.
  - split; [done|]. intros b _. by apply same_claims_quiet.
  - intros _. apply H; [done|]. eapply tquiet_trans; [exact Hq|]. by apply same_claims_quiet.
Qed.

(** ** Settlements of one's own claim *)

Lemma with_repo_claims_id s : tw_with_repo (tw_repo s) s = s.
Proof. by destruct s. Qed.

(** A settlement that fails its claim. *)
Lemma effect_fail a k slot upd (s s' : tworld) x :
  tinv s -> tw_owner s !! k = Some (a, slot) ->
  settle_call k slot None (update_claimed_fire k.1 k.2 slot upd) s s' x ->
  (forall r r', upd r = Ok r' -> tg_active_run_ref r = None ->
     key_of_record r' = key_of_record r /\ tg_active_run_ref r' = None /\
     (tg_next_run_at r' = tg_next_run_at r \/ slot < tg_next_run_at r') /\ (texts_ok r -> texts_ok r')) ->
  tinv s' /\ others_quiet a s s' /\ since s s'.
Proof.
  intros HI Ho [-> ->] Hupd. destruct (update_claimed_fire _ _ _ _ _) as [rp x] eqn:E. simpl.
  apply update_claimed_cases in E as [ [-> Hx]|(r & r' & _ & Hr & Hs & Hu & -> & ->)].
  - unfold settle. replace (match x with Ok (Some _) => _ | _ => s end) with s
      by (destruct x as [ [r|]|]; [by destruct (Hx r)|done..]).
    rewrite with_repo_claims_id. split_and!; [done|intros b _; apply tquiet_refl|apply since_refl].
  - destruct k as [tenant id]. cbn [fst snd] in *.
    destruct (ti_owner s HI _ _ _ Ho) as (_ & _ & Hall & _). destruct (Hall _ Hr) as [_ Href].
    destruct (Hupd _ _ Hu Href) as (H1 & H2 & H3 & H4). split_and!.
    + by eapply tinv_fail.
    + intros b Hb. apply (own_claim_quiet a b s (tenant, id)); [done|congruence| |set_solver|done].
      intros k' Hk'. by rewrite lookup_delete_ne.
    + done.
Qed.

(** A settlement that records a run. *)
Lemma effect_run a k slot run at_ next (s s' : tworld) x :
  tinv s -> tw_owner s !! k = Some (a, slot) ->
  settle_call k slot (Some run) (update_claimed_fire k.1 k.2 slot (record_run slot run at_ next)) s s' x ->
  tinv s' /\ others_quiet a s s' /\ since s s' /\
  forall r, x = Ok (Some r) -> (k, slot, run) ∈ tw_accepted s'.
Proof.
  intros HI Ho [-> ->]. destruct (update_claimed_fire _ _ _ _ _) as [rp x] eqn:E. simpl.
  apply update_claimed_cases in E as [ [-> Hx]|(r & r' & _ & Hr & Hs & Hu & -> & ->)].
  - unfold settle. replace (match x with Ok (Some _) => _ | _ => s end) with s
      by (destruct x as [ [r|]|]; [by destruct (Hx r)|done..]).
    rewrite with_repo_claims_id.
    split_and!; [done|intros b _; apply tquiet_refl|apply since_refl|by intros r ->; destruct (Hx r)].
  - destruct k as [tenant id]. cbn [fst snd] in *.
    destruct (ti_owner s HI _ _ _ Ho) as (_ & _ & Hall & _). destruct (Hall _ Hr) as [_ Href].
    unfold record_run in Hu. rewrite Href in Hu. unfold reject_non_future_next_run_at in Hu.
    destruct (Z.ltb_spec slot next); [|done]. injection Hu as <-.
    unfold settle. rewrite Hr. simpl. rewrite Href. split_and!.
    + by eapply tinv_accept.
    + intros b Hb. apply (own_claim_quiet a b s (tenant, id)); [done|congruence| |set_solver|set_solver].
      intros k' Hk'. by rewrite lookup_delete_ne.
    + split; [|done]. simpl. set_solver.
    + intros _ _. simpl. set_solver.
Qed.

(** ** The poller *)

(** A line of a report is true of the world: a run it names was recorded for that slot. *)
Definition told (key : TriggerRepositoryKey) (slot : Timestamp) (o : TriggerPollerFireOutcome) (s : tworld) : Prop :=
  match o with
  | PoSubmitted run | PoReplayed run => (key, slot, run) ∈ tw_accepted s
  | _ => True
  end.

Definition told_after (s0 : tworld) (key : TriggerRepositoryKey) (slot : Timestamp)
    (r : result TriggerPollerFireOutcome TriggerError) (s : tworld) : Prop :=
  tinv s /\ since s0 s /\ match r with Ok o => told key slot o s | Err _ => True end.

Lemma told_since key slot o s s' : since s s' -> told key slot o s -> told key slot o s'.
Proof. intros [H _]. destruct o; simpl; auto. Qed.

Lemma rg_persist a record slot d reason s :
  tinv s -> tw_owner s !! key_of_record record = Some (a, slot) ->
  rgt a (persist_failed_fire record slot d reason) (told_after s (key_of_record record) slot) s.
Proof.
  intros HI Ho. destruct d as [|next|]; cbn [persist_failed_fire]; (apply rg_trig; [done|]);
    intros s1 s2 x HI1 Hq Heff; destruct (tq_owner _ _ _ Hq _ _ Ho) as [Ho1 _];
    (eapply (effect_fail a (key_of_record record) slot) in Heff as (HI2 & Hoq & Hsi); [|done|done|]);
    cbn [fst snd].
  1, 3, 5: split; [done|]; intros _;
    (assert (since s s2) by (eapply since_trans; [by eapply since_quiet|exact Hsi]));
    cbn [pbind]; destruct x; (split; [done|]); by split.
  - intros r r' Hu Href. rewrite Href in Hu. simpl in Hu. destruct (_ <? _); [done|]. injection Hu as <-. auto.
  - intros r r' Hu Href. rewrite Href in Hu. simpl in Hu. unfold reject_non_future_next_run_at in Hu.
    simpl in Hu. destruct (Z.ltb_spec slot next); [|done]. injection Hu as <-. auto.
  - intros r r' Hu Href. rewrite Href in Hu. simpl in Hu. injection Hu as <-. auto.
Qed.

Lemma rg_persist_error a record slot next e s :
  tinv s -> tw_owner s !! key_of_record record = Some (a, slot) ->
  rgt a (persist_error record slot next e) (told_after s (key_of_record record) slot) s.
Proof. unfold persist_error. destruct (classify_failure e). apply rg_persist. Qed.

(** The postcondition may be stated from an earlier world. *)
Lemma told_after_since s0 s key slot r s' :
  since s0 s -> told_after s key slot r s' -> told_after s0 key slot r s'.
Proof. intros H (HI & Hs & Hr). split_and!; [done|by eapply since_trans|done]. Qed.

Lemma effect_submit a q k slot s s' x :
  tinv s -> tw_owner s !! k = Some (a, slot) -> (k ∉ tw_inflight s) ->
  (fi_tenant_id (fire_identity (tq_fire q)), fi_trigger_id (fire_identity (tq_fire q))) = k ->
  fi_fire_slot (fire_identity (tq_fire q)) = slot ->
  trig_effect _ (TrSubmit q) s s' x ->
  tinv s' /\ others_quiet a s s' /\ since s s' /\ tw_owner s' !! k = Some (a, slot).
Proof.
  intros HI Ho Hn Hk Hs Heff. cbn [trig_effect] in Heff. cbv zeta in Heff. rewrite Hk, Hs in Heff. subst s'.
  destruct (ti_owner s HI _ _ _ Ho) as (_ & _ & _ & Hacc).
  split_and!; [|intros b Hb|done|done].
  - destruct HI as [H1 H2 H3 H4 H5 H6 H7 H8 H9]. split; simpl; try done.
    + intros k' [->%elem_of_singleton|Hk']%elem_of_union; [by eexists|by apply H5].
    + rewrite H8, bool_decide_eq_false_2 by done. apply bool_decide_eq_false_2.
      intros ([ [k' sl] run] & Heq & Hin)%list_elem_of_fmap. injection Heq as -> ->.
      specialize (Hacc _ _ Hin). lia.
  - split; simpl; try done. intros k' sl Hb'. split; [done|]. assert (k' <> k) by congruence. set_solver.
Qed.

Lemma rg_submit_fire a record slot now next fire prompt s :
  tinv s -> tw_owner s !! key_of_record record = Some (a, slot) ->
  (key_of_record record ∉ tw_inflight s) ->
  (fi_tenant_id (fire_identity fire), fi_trigger_id (fire_identity fire)) = key_of_record record ->
  fi_fire_slot (fire_identity fire) = slot ->
  rgt a (submit_fire record slot now next fire prompt) (told_after s (key_of_record record) slot) s.
Proof.
  intros HI Ho Hn Hk Hs. unfold submit_fire. apply rg_trig; [done|]. intros s1 s2 x HI1 Hq Heff.
  destruct (tq_owner _ _ _ Hq _ _ Ho) as [Ho1 Hf1].
  apply (effect_submit a _ (key_of_record record) slot) in Heff as (HI2 & Hoq & Hsi & Ho2);
    [|done|done|by rewrite Hf1|done|done].
  split; [done|]. intros _. assert (since s s2) as Hs2.
  { eapply since_trans; [by eapply since_quiet|exact Hsi]. }
  cbn [pbind]. destruct x as [ [run at_|run at_]|e].
  3: { eapply rg_mono; [|by apply rg_persist_error]. intros r s'. by apply told_after_since. }
  all: (apply rg_trig; [done|]); intros s3 s4 y HI3 Hq3 Heff; destruct (tq_owner _ _ _ Hq3 _ _ Ho2) as [Ho3 _];
    apply (effect_run a (key_of_record record) slot run at_ next) in Heff as (HI4 & Hoq4 & Hsi4 & Hacc);
      [|done|done];
    (split; [done|]); intros _;
    (assert (since s s4) as Hs4 by (eapply since_trans; [exact Hs2|];
       eapply since_trans; [by eapply since_quiet|exact Hsi4]));
    cbn [pbind]; destruct y as [ [r|]|e]; split_and!; try done; by apply (Hacc r).
Qed.

Lemma schedule_evaluate_identity clock record now fire :
  schedule_evaluate clock record now = Ok (Some fire) ->
  (fi_tenant_id (fire_identity fire), fi_trigger_id (fire_identity fire)) = key_of_record record /\
  fi_fire_slot (fire_identity fire) = tg_next_run_at record.
Proof.
  unfold schedule_evaluate. destruct (TriggerRecord_validate clock record); [|done].
  destruct (_ || _); [done|]. by intros [= <-].
Qed.

Lemma rg_process_claimed a record slot now s :
  tinv s -> tw_owner s !! key_of_record record = Some (a, slot) ->
  (key_of_record record ∉ tw_inflight s) -> tg_next_run_at record = slot ->
  rgt a (process_claimed_fire record slot now) (told_after s (key_of_record record) slot) s.
Proof.
  intros HI Ho Hn Hslot. unfold process_claimed_fire.
  apply rg_look; [done|by intros ? ? ? [-> _]|]. intros s1 clock HI1 Hq1 _. cbn [pbind].
  destruct (tq_owner _ _ _ Hq1 _ _ Ho) as [Ho1 Hf1].
  assert (forall r s', told_after s1 (key_of_record record) slot r s' ->
            told_after s (key_of_record record) slot r s') as Hw1.
  { intros r s'. apply told_after_since. by eapply since_quiet. }
  destruct (next_run_at_after_fire clock record slot) as [next|e].
  2: { eapply rg_mono; [exact Hw1|by apply rg_persist]. }
  apply rg_look; [done|by intros ? ? ? [-> _]|]. intros s2 ev HI2 Hq2 [_ Hev]. cbn [pbind].
  destruct (tq_owner _ _ _ Hq2 _ _ Ho1) as [Ho2 Hf2].
  assert (forall r s', told_after s2 (key_of_record record) slot r s' ->
            told_after s (key_of_record record) slot r s') as Hw2.
  { intros r s' H. apply Hw1. eapply told_after_since; [by eapply since_quiet|exact H]. }
  destruct ev as [ [fire|]|e].
  2: { eapply rg_mono; [exact Hw2|by apply rg_persist]. }
  2: { eapply rg_mono; [exact Hw2|by apply rg_persist_error]. }
  symmetry in Hev. apply schedule_evaluate_identity in Hev as [Hk Hsl].
  apply rg_look; [done|by intros ? ? ? ->|]. intros s3 m HI3 Hq3 _. cbn [pbind].
  destruct (tq_owner _ _ _ Hq3 _ _ Ho2) as [Ho3 Hf3].
  assert (forall r s', told_after s3 (key_of_record record) slot r s' ->
            told_after s (key_of_record record) slot r s') as Hw3.
  { intros r s' H. apply Hw2. eapply told_after_since; [by eapply since_quiet|exact H]. }
  eapply rg_mono; [exact Hw3|]. destruct m as [prompt|e]; [|by apply rg_persist_error].
  apply rg_submit_fire; try done; [by rewrite Hf3, Hf2, Hf1|by rewrite Hsl].
Qed.

Lemma effect_claim a req s s' x :
  tinv s -> cd_now req <= tw_clock s ->
  trig_effect _ (TrClaim a req) s s' x ->
  tinv s' /\ others_quiet a s s' /\ since s s' /\
  forall c, x = Ok (FireClaimed c) ->
    key_of_record (cf_record c) = (cd_tenant_id req, cd_trigger_id req) /\
    cf_fire_slot c = cd_fire_slot req /\ tg_next_run_at (cf_record c) = cf_fire_slot c /\
    tw_owner s' !! key_of_record (cf_record c) = Some (a, cf_fire_slot c) /\
    (key_of_record (cf_record c) ∉ tw_inflight s').
Proof.
  intros HI Hnow [-> ->]. destruct (tg_claim_due_fire req (tw_repo s)) as [rp x] eqn:E. simpl.
  apply claim_cases in E as [ [-> Hx]|(r & _ & Hr & _ & Hnext & Hle & Hact & Href & -> & ->)].
  - replace (match x with Ok (FireClaimed c) => _ | _ => s end) with s
      by (destruct x as [ [c| | |]|]; [by destruct (Hx c)|done..]).
    rewrite with_repo_claims_id.
    split_and!; [done|intros b _; apply tquiet_refl|apply since_refl|by intros c ->; destruct (Hx c)].
  - destruct (tinv_claim s _ r a (cd_fire_slot req) HI Hr Hact Href Hnext) as [Ho HI']; [lia|].
    pose proof (ti_keyed s HI _ _ Hr) as [Hk _]. split_and!; [done| |done|].
    + intros b Hb. apply (own_claim_quiet a b s (cd_tenant_id req, cd_trigger_id req)); [done|congruence| |done|done].
      intros k' Hk'. by rewrite lookup_insert_ne.
    + intros c [= <-]. simpl. change (key_of_record (tg_with_active (Some (cd_fire_slot req)) None r))
        with (key_of_record r). rewrite Hk. split_and!; [done|done|done|by rewrite lookup_insert_eq|].
      intros [? Hin]%(ti_inflight s HI). congruence.
Qed.

Lemma rg_process_due a record now s :
  tinv s -> now <= tw_clock s ->
  rgt a (process_due_record a record now) (told_after s (key_of_record record) (tg_next_run_at record)) s.
Proof.
  intros HI Hnow. unfold process_due_record. apply rg_trig; [done|]. intros s1 s2 x HI1 Hq Heff.
  apply effect_claim in Heff as (HI2 & Hoq & Hsi & Hc);
    [|done|simpl; pose proof (tq_clock _ _ _ Hq); lia].
  split; [done|]. intros _. assert (since s s2) as Hs2.
  { eapply since_trans; [by eapply since_quiet|exact Hsi]. }
  cbn [pbind]. destruct x as [ [c| | |[sl|] run]|e]; try by split_and!.
  destruct (Hc c eq_refl) as (Hk & Hsl & Hn & Ho & Hf). simpl in Hk, Hsl.
  eapply rg_mono; [|by apply rg_process_claimed]. intros r s'. rewrite Hk, Hsl. by apply told_after_since.
Qed.

Definition report_told (s : tworld) (rep : TriggerPollerFireReport) : Prop :=
  told (pf_tenant_id rep, pf_trigger_id rep) (pf_fire_slot rep) (pf_outcome rep) s.

Definition reports_after (s0 : tworld) (l : list TriggerPollerFireReport) (s : tworld) : Prop :=
  tinv s /\ since s0 s /\ Forall (report_told s) l.

Lemma reports_since s s' l : since s s' -> Forall (report_told s) l -> Forall (report_told s') l.
Proof. intros Hs Hl. eapply Forall_impl; [exact Hl|]. intros rep. by apply told_since. Qed.

Lemma rg_process_all a records now s :
  tinv s -> now <= tw_clock s ->
  rgt a (process_due_records a records now) (reports_after s) s.
Proof.
  revert s. induction records as [|record records IH]; intros s HI Hnow; cbn [process_due_records].
  { split_and!; [done|apply since_refl|constructor]. }
  apply rg_bind. eapply rg_mono; [|by apply rg_process_due]. intros r s1 (HI1 & Hs1 & Hr).
  apply rg_bind. eapply rg_mono; [|apply IH; [done|destruct Hs1; lia] ].
  intros reports s2 (HI2 & Hs2 & Hall). split_and!; [done|by eapply since_trans|].
  constructor; [|done]. destruct r as [o|e]; [|done]. by eapply told_since.
Qed.

(** The cleanup reports no submission. *)
Definition quiet_report (rep : TriggerPollerFireReport) : Prop := forall s, report_told s rep.

Lemma sort_active_quiet records next : Forall quiet_report (sort_active records next).1.2.
Proof.
  revert next. induction records as [|record records IH]; intros next; cbn [sort_active]; [constructor|].
  destruct (tg_active_fire_slot record) as [slot|]; [|apply IH].
  destruct (cursor_from_active_record record) as [c|]; [|apply IH].
  destruct (tg_active_run_ref record) as [run|].
  - specialize (IH next). by destruct (sort_active records next) as [ [next' reports] items].
  - specialize (IH (Some c)). destruct (sort_active records (Some c)) as [ [next' reports] items].
    by constructor.
Qed.

Definition cleanup_after {A} (s0 : tworld) (r : result (A * list TriggerPollerFireReport) TriggerError)
    (s : tworld) : Prop :=
  tinv s /\ since s0 s /\ match r with Ok p => Forall quiet_report p.2 | Err _ => True end.

Lemma rg_clear_items a items results next held s :
  tinv s -> rgt a (clear_items items results next held) (cleanup_after s) s.
Proof.
  revert results next held s. induction items as [|item items IH]; intros results next held s HI; cbn [clear_items].
  { split_and!; [done|apply since_refl|constructor]. }
  assert (forall s1 o next' held', tinv s1 -> since s s1 ->
            quiet_report (report_of (li_record item) (li_fire_slot item) o) ->
            rgt a (let!? rest := clear_items items (tail results) next' held' in
                   Ret (Ok (rest.1, report_of (li_record item) (li_fire_slot item) o :: rest.2)))
              (cleanup_after s) s1) as Hrest.
  { intros s1 o next' held' HI1 Hs1 Hq. apply rg_bind. eapply rg_mono; [|by apply IH].
    intros [rest|e] s2 (HI2 & Hs2 & Hr); split_and!; try done; [by eapply since_trans|by constructor|by eapply since_trans]. }
  destruct (default _ (head results)) as [ [| |]|e]; try (apply Hrest; [done|apply since_refl|done]).
  apply rg_same; [done|intros ? ? ?; apply effect_clear|]. intros s2 x HI2 Hq2. cbn [pbind].
  destruct x as [x|e]; [|split_and!; [done|by eapply since_quiet|done] ].
  apply Hrest; [done|by eapply since_quiet|by destruct x].
Qed.

Lemma rg_cleanup a w config s :
  tinv s -> rgt a (clear_terminal_active_fires w config) (cleanup_after s) s.
Proof.
  intros HI. unfold clear_terminal_active_fires. apply rg_bind.
  apply (rg_mono _ _ _ _ _ (fun _ s' => tinv s' /\ since s s')).
  - intros [ [cursor records]|e] s1 [HI1 Hs1]; [|by split_and!].
    pose proof (sort_active_quiet records cursor) as Hsort.
    destruct (sort_active records cursor) as [ [next reports] items]. simpl in Hsort.
    apply rg_look; [done|by intros ? ? ? ->|]. intros s2 results HI2 Hq2 _. cbn [pbind].
    apply rg_bind. eapply rg_mono; [|by apply rg_clear_items].
    intros [rest|e] s3 (HI3 & Hs3 & Hr).
    2: { split_and!; [done| |done]. eapply since_trans; [exact Hs1|].
         eapply since_trans; [by eapply since_quiet|done]. }
    apply rg_same; [done|by intros s4 s5 y HI4 [-> _]; split; [destruct HI4; by split|by repeat split]|].
    intros s4 y HI4 Hq4. cbn [pbind].
    assert (since s s4) as Hs4.
    { eapply since_trans; [exact Hs1|]. eapply since_trans; [by eapply since_quiet|].
      eapply since_trans; [exact Hs3|by eapply since_quiet]. }
    destruct y; split_and!; try done. simpl. by apply Forall_app.
  - unfold list_active_cleanup_page. apply rg_look; [done|by intros ? ? ? [-> _]|].
    intros s1 c HI1 Hq1 _. cbn [pbind]. destruct c as [c|e]; [|by split; [|eapply since_quiet] ].
    apply rg_look; [done|by intros ? ? ? [-> _]|]. intros s2 l HI2 Hq2 _. cbn [pbind].
    assert (since s s2) as Hs2 by (eapply since_trans; by eapply since_quiet).
    destruct l as [ [|r l]|e], c as [c|]; try by split.
    apply rg_look; [done|by intros ? ? ? [-> _]|]. intros s3 l' HI3 Hq3 _. cbn [pbind].
    assert (since s s3) by (eapply since_trans; [done|by eapply since_quiet]).
    by destruct l'.
Qed.

Lemma rg_round a w config s :
  tinv s ->
  rgt a (poller_round a w config) (fun r s' => tinv s' /\ since s s' /\
    match r with Ok rep => Forall (report_told s') (pt_results rep) | Err _ => True end) s.
Proof.
  intros HI. unfold poller_round. apply rg_look; [done|by intros ? ? ? [-> _]|]. cbn [pbind].
  intros s1 now HI1 Hq1 [_ ->]. unfold tick_once. apply rg_same; [done| |].
  { intros s2 s3 [] HI2 [_ ->]; split; [destruct HI2; by split|by repeat split]. }
  intros s2 [] HI2 Hq2. cbn [pbind]. apply rg_bind.
  assert (since s s2) as Hs2 by (eapply since_trans; by eapply since_quiet).
  apply (rg_mono _ _ _ _ _ (fun r s' => tinv s' /\ since s s' /\
    match r with Ok rep => Forall (report_told s') (pt_results rep) | Err _ => True end)).
  { intros r s3 (HI3 & Hs3 & Hr). apply rg_same; [done| |].
    - intros s4 s5 [] HI4 ->; split; [destruct HI4; by split|by repeat split].
    - intros s4 [] HI4 Hq4. split_and!; [done|eapply since_trans; [done|by eapply since_quiet]|].
      destruct r; [|done]. eapply reports_since; [by eapply since_quiet|done]. }
  unfold tick_body. apply rg_bind. eapply rg_mono; [|by apply rg_cleanup].
  intros [cleaned|e] s3 (HI3 & Hs3 & Hcl); [|split_and!; [done|by eapply since_trans|done] ].
  apply rg_look; [done|by intros ? ? ? [-> _]|]. intros s4 due HI4 Hq4 _. cbn [pbind].
  assert (since s s4) as Hs4.
  { eapply since_trans; [exact Hs2|]. eapply since_trans; [exact Hs3|by eapply since_quiet]. }
  destruct due as [due|e]; [|by split_and!]. apply rg_bind. eapply rg_mono; [|apply rg_process_all; [done|] ].
  - intros reports s5 (HI5 & Hs5 & Hall). split_and!; [done|by eapply since_trans|]. simpl.
    apply Forall_app. split; [|done]. eapply Forall_impl; [exact Hcl|]. auto.
  - pose proof (tq_clock _ _ _ Hq2). destruct Hs3. pose proof (tq_clock _ _ _ Hq4). lia.
Qed.

(** ** The tools *)

(** Calls that leave the claims and the identifiers alone. *)
Definition harmless (X : Type) (e : trigE X) : Prop :=
  forall s s' x, tinv s -> trig_effect X e s s' x -> tinv s' /\ same_claims s s'.

Lemma rg_harmless {R} a (p : prog trigE R) s :
  calls_in harmless p -> tinv s -> rgt a p (fun _ s' => tinv s') s.
Proof.
  revert s. induction p as [r|X e k IH]; intros s; [done|]. intros [He Hk] HI.
  apply rg_same; [done|exact He|]. intros s2 x HI2 _. by apply IH.
Qed.

Lemma harmless_look X (e : trigE X) : (forall s s' x, trig_effect X e s s' x -> s' = s) -> harmless X e.
Proof. intros H s s' x HI Heff. rewrite (H _ _ _ Heff). split; [done|by repeat split]. Qed.

Section WithCron.
Context {CL : CronLaws C}.

Lemma harmless_update tenant id patch : patch_ok patch -> harmless _ (TrUpdate tenant id patch).
Proof. intros H s s' x. by apply effect_update. Qed.
Lemma harmless_set_state tenant id st : harmless _ (TrSetState tenant id st).
Proof. intros s s' x. apply effect_set_state. Qed.
Lemma harmless_remove tenant id : harmless _ (TrRemove tenant id).
Proof. intros s s' x. apply effect_remove. Qed.
Lemma harmless_remove_scoped tenant user agent project id :
  harmless _ (TrRemoveScoped tenant user agent project id).
Proof. intros s s' x. apply effect_remove_scoped. Qed.

Lemma rg_new_id {R} a (k : TriggerId -> prog trigE R) Q s :
  tinv s ->
  (forall s2 id, tinv s2 -> tw_drawn s2 !! id = Some a ->
     (forall tenant, (tenant, id) ∉ tw_seen s2) -> rgt a (k id) Q s2) ->
  rgt a (Call (TrNewId a) k) Q s.
Proof.
  intros HI H. apply rg_trig; [done|]. intros s1 s2 id HI1 Hq [Hn ->]. split; [split|].
  - destruct HI1 as [H1 H2 H3 H4 H5 H6 H7 H8 H9]. split; simpl; try done.
    intros k' [b Hb]%H3. destruct (decide (k'.2 = id)) as [->|Hne]; [by rewrite lookup_insert_eq|].
    rewrite lookup_insert_ne by done. by exists b.
  - intros b Hb. split; simpl; try done. intros id' Hid'. split; [|done].
    rewrite lookup_insert_ne; [done|congruence].
  - intros HI2. apply H; [done|simpl; by rewrite lookup_insert_eq|]. simpl. intros tenant Hin.
    apply (ti_drawn s1 HI1) in Hin as [b Hb]. simpl in Hb. congruence.
Qed.

Lemma effect_create a record s s' x :
  tinv s -> tw_drawn s !! tg_trigger_id record = Some a -> (key_of_record record ∉ tw_seen s) ->
  tg_active_run_ref record = None -> trig_effect _ (TrUpsert record) s s' x ->
  tinv s' /\ others_quiet a s s'.
Proof.
  intros HI Hd Hn Href [-> ->]. unfold tg_upsert.
  destruct (let? _ := TriggerRecord_validate (tw_clock s) record in lock_state (tw_repo s)) as [m|e] eqn:E.
  - destruct (TriggerRecord_validate (tw_clock s) record) as [[]|] eqn:Hv; [|done].
    apply validated_record in Hv. unfold lock_state in E.
    destruct (repo_poisoned (tw_repo s)); [done|]. injection E as <-. simpl. split; [by eapply tinv_create|].
    intros b Hb. split; simpl; try done. intros id Hid. split; [done|]. intros tenant.
    rewrite elem_of_union, elem_of_singleton. split; [|by right]. intros [Heq|?]; [|done].
    exfalso. apply Hb. injection Heq as _ ->. congruence.
  - simpl. replace (tw_with_repo _ _) with s by (by destruct s). split; [done|]. intros b _. apply tquiet_refl.
Qed.

Ltac harmless_call :=
  split; [first [ by apply harmless_update | apply harmless_set_state | apply harmless_remove_scoped
                | apply harmless_remove
                | apply harmless_look; by intros ? ? ? [-> _] | apply harmless_look; by intros ? ? ? -> ]
         |intros ?; exact I].

Ltac harmless_prog :=
  repeat match goal with
  | |- calls_in _ (pbind _ _) => apply calls_in_bind; [|intros ?]
  | |- calls_in _ (Ret _) => exact I
  | |- calls_in _ (trigger _) => harmless_call
  | |- calls_in _ (match ?x with _ => _ end) => destruct x
  | |- calls_in _ (on_repository _) => unfold on_repository
  end.

Lemma update_harmless scope input : calls_in harmless (tool_update_trigger scope input).
Proof.
  destruct input as [input|]; [|exact I]. unfold tool_update_trigger, with_trigger_id.
  apply calls_in_bind; [exact I|]. intros [id|]; [|exact I].
  apply calls_in_bind; [harmless_call|]. intros c1. cbn [pbind]. destruct (ui_cron input).
  all: match goal with |- calls_in _ match ?o with _ => _ end => destruct o | _ => idtac end; try exact I.
  all: split; [apply harmless_look; by intros ? ? ? [-> _] |]; intros c2; cbn [pbind]; unfold on_input.
  all: destruct (TriggerUpdatePatch_validate c2 _) as [[]|] eqn:Hv; [|exact I]; apply validated_patch in Hv.
  all: cbn [map_err]; harmless_prog.
Qed.

Lemma rg_create a scope input now s : tinv s -> rgt a (create_trigger a scope input now) (fun _ s' => tinv s') s.
Proof.
  intros HI. unfold create_trigger. destruct input as [input|]; [|done].
  apply rg_look; [done|by intros ? ? ? [-> _]|]. intros s1 c1 HI1 _ _. cbn [pbind].
  destruct (on_input _) as [schedule|]; [|done]. apply rg_look; [done|by intros ? ? ? [-> _]|].
  intros s2 c2 HI2 _ _. cbn [pbind]. destruct (on_input _) as [next|]; [|done].
  destruct (ok_or _ _) as [next_run_at|]; [|done]. apply rg_new_id; [done|]. intros s3 id HI3 Hd Hn. cbn [pbind].
  apply rg_look; [done|by intros ? ? ? [-> _]|]. intros s4 c4 HI4 Hq4 _. cbn [pbind].
  destruct (tq_drawn _ _ _ Hq4 _ Hd) as [Hd4 Hn4]. destruct (on_input _); [|done].
  apply rg_trig; [done|]. intros s5 s6 x HI5 Hq5 Heff.
  destruct (tq_drawn _ _ _ Hq5 _ Hd4) as [Hd5 Hn5]. split.
  - refine (effect_create a _ _ _ _ HI5 _ _ _ Heff); [done| |done]. unfold key_of_record. cbn [tg_tenant_id tg_trigger_id]. rewrite Hn5, Hn4. apply Hn.
  - intros HI6. apply rg_harmless; [|done]. cbn [pbind]. destruct x; [|exact I]. harmless_prog.
Qed.

Lemma tools_harmless scope :
  (forall i, calls_in harmless (tool_list_triggers scope i)) /\
  (forall i, calls_in harmless (tool_remove_trigger scope i)) /\
  (forall i, calls_in harmless (tool_get_trigger scope i)) /\
  (forall i, calls_in harmless (tool_update_trigger scope i)) /\
  (forall i, calls_in harmless (tool_set_trigger_state scope i)) /\
  (forall i, calls_in harmless (tool_run_history scope i)).
Proof.
  pose proof (update_harmless scope) as Hupdate.
  unfold tool_list_triggers, tool_remove_trigger, tool_get_trigger,
    tool_set_trigger_state, tool_run_history, with_trigger_id.
  split_and!; intros i; [harmless_prog..|apply Hupdate|harmless_prog|harmless_prog].
Qed.

(** ** The pool *)

(** A round of a worker, or a tool call under a scope. *)
Inductive trig_job : Type -> Type :=
| JobRound (w : worker_id) (config : TriggerPollerWorkerConfig) :
    trig_job (result TriggerPollerTickReport TriggerError)
| JobCreate (scope : ResourceScope) (input : option TriggerCreateInput) : trig_job (result TriggerOutput ToolError)
| JobList (scope : ResourceScope) (input : option (option nat)) : trig_job (result (list TriggerOutput) ToolError)
| JobRemove (scope : ResourceScope) (input : option string) :
    trig_job (result (option (string * string)) ToolError)
| JobGet (scope : ResourceScope) (input : option string) : trig_job (result (option TriggerOutput) ToolError)
| JobUpdate (scope : ResourceScope) (input : option TriggerUpdateInput) :
    trig_job (result (option TriggerOutput) ToolError)
| JobSetState (scope : ResourceScope) (input : option TriggerSetStateInput) :
    trig_job (result (option TriggerOutput) ToolError)
| JobRunHistory (scope : ResourceScope) (input : option TriggerRunHistoryInput) :
    trig_job (result (list TriggerRunRecord) ToolError).

(** The handler of a creation reads the clock for its [now]. *)
Definition run_trig_job (a : tg_task) {X} (j : trig_job X) : prog trigE X :=
  match j with
  | JobRound w config => poller_round a w config
  | JobCreate scope input => let! now := trigger TrNow in create_trigger a scope input now
  | JobList scope input => tool_list_triggers scope input
  | JobRemove scope input => tool_remove_trigger scope input
  | JobGet scope input => tool_get_trigger scope input
  | JobUpdate scope input => tool_update_trigger scope input
  | JobSetState scope input => tool_set_trigger_state scope input
  | JobRunHistory scope input => tool_run_history scope input
  end.

Definition trig_outcome : Type := {X : Type & (trig_job X * X)%type}.
Definition trig_finished {X} (j : trig_job X) (x : X) : trig_outcome := existT X (j, x).
Definition trig_program (a : tg_task) {X} (j : trig_job X) : prog trigE trig_outcome :=
  let! x := run_trig_job a j in Ret (trig_finished j x).

Definition trig_may_start (a : tg_task) (p : prog trigE trig_outcome) (running : list tg_task) (_ : tworld) : Prop :=
  (a ∉ running) /\ exists X (j : trig_job X), p = trig_program a j.

Definition trig_reaches (s : tworld) (conf : tworld * list (tg_task * prog trigE trig_outcome)) : Prop :=
  rtc (pool_step trig_handle trig_may_start) (s, []) conf.

(** A new repository and new workers. *)
Definition tworld_new (poisoned : bool) (now : Timestamp) : tworld :=
  mk_tworld (mk_TriggerRepository poisoned ∅) now ∅ ∅ ∅ ∅ ∅ ∅ [] false.

Lemma tinv_new poisoned now : tinv (tworld_new poisoned now).
Proof.
  split; simpl; try done; try (by intros k x H; set_solver). by constructor.
Qed.

(** What a finished job leaves true. *)
Definition job_told {X} (j : trig_job X) : X -> tworld -> Prop :=
  match j in trig_job X return X -> tworld -> Prop with
  | JobRound _ _ => fun r s =>
      match r with Ok rep => Forall (report_told s) (pt_results rep) | Err _ => True end
  | _ => fun _ _ => True
  end.

Definition outcome_told (a : tg_task) (o : trig_outcome) (s : tworld) : Prop :=
  let '(existT X (j, x)) := o in tinv s /\ job_told j x s.

Lemma rg_trig_job a {X} (j : trig_job X) s :
  tinv s -> rgt a (run_trig_job a j) (fun x s' => tinv s' /\ job_told j x s') s.
Proof.
  intros HI. assert (forall p : prog trigE X, rgt a p (fun _ s' => tinv s') s ->
    (forall x s', job_told j x s') -> rgt a p (fun x s' => tinv s' /\ job_told j x s') s) as Hplain.
  { intros p Hp Hj. eapply rg_mono; [|exact Hp]. by split. }
  destruct j as [w config|scope input|scope input|scope input|scope input|scope input|scope input|scope input].
  1: { eapply rg_mono; [|by apply rg_round]. by intros r s' (H1 & _ & H3). }
  1: { apply Hplain; [|done]. cbn [run_trig_job].
       apply rg_look; [done|by intros ? ? ? [-> _]|]. intros s1 now HI1 _ _. by apply rg_create. }
  all: (apply Hplain; [|done]); (apply rg_harmless; [|done]); apply (tools_harmless scope).
Qed.

Lemma trig_pool_ok s conf :
  tinv s -> trig_reaches s conf ->
  tinv conf.1 /\
  forall i a X (j : trig_job X) x, conf.2 !! i = Some (a, Ret (trig_finished j x)) -> job_told j x conf.1.
Proof.
  intros HI Hr.
  assert (pool_ok trig_handle trig_rely trig_guar outcome_told tinv (fun a b => a <> b) conf) as (Hi & Hrg & _).
  { eapply pool_reach_ok; [| | | | | |exact HI|exact Hr].
    - intros a s1 H1. split; [done|apply tquiet_refl].
    - intros a s1 s2 s3 H1 H2 HI1. destruct (H1 HI1) as [HI2 Hq1], (H2 HI2) as [HI3 Hq2].
      split; [done|]. by eapply tquiet_trans.
    - intros a [X [j x] ] s1 s2 Hrel [H1 Hj]. destruct (Hrel H1) as [H2 Hq]. split; [done|].
      destruct j; try done. simpl in *. destruct x; [|done]. eapply reports_since; [by eapply since_quiet|done].
    - intros a s1 s2 Hg H1. by apply Hg.
    - intros a b s1 s2 Hne H1 Hg _. destruct (Hg H1) as [H2 Hq]. split; [done|]. apply Hq. congruence.
    - intros a p l s1 (Hn & X & j & ->) H1. split.
      + apply rg_bind. eapply rg_mono; [|by apply rg_trig_job]. intros x s2 H2. exact H2.
      + apply Forall_forall. intros b Hb. split; congruence. }
  split; [done|]. intros i a X j x Hl. by apply (Hrg i a _ Hl).
Qed.

Lemma trig_reaches_step s conf i a {X} (e : trigE X) k x s' :
  trig_reaches s conf -> conf.2 !! i = Some (a, Call e k) -> trig_handle X e conf.1 s' x ->
  trig_reaches s (s', <[i := (a, k x)]> conf.2).
Proof.
  intros Hr Hl Hh. unfold trig_reaches. eapply rtc_r; [exact Hr|]. destruct conf as [s1 ps]. by eapply ps_call.
Qed.

(** ** The theorems *)

(** C25: however many pollers run their ticks and however the users create, reschedule,
    pause, resume and remove triggers meanwhile, a slot of a trigger is recorded as run at
    most once: the slots accepted for one trigger strictly increase in the order in which
    they were accepted, and a run that a trigger shows as active was accepted for the slot
    it shows. *)
Theorem slots_run_once poisoned now conf :
  trig_reaches (tworld_new poisoned now) conf ->
  NoDup (map fst (tw_accepted conf.1)) /\
  StronglySorted (fun x y : TriggerRepositoryKey * Timestamp * TurnRunId =>
    x.1.1 = y.1.1 -> x.1.2 < y.1.2) (tw_accepted conf.1) /\
  forall k r run, repo_records (tw_repo conf.1) !! k = Some r -> tg_active_run_ref r = Some run ->
    exists slot, tg_active_fire_slot r = Some slot /\ (k, slot, run) ∈ tw_accepted conf.1.
Proof.
  intros Hr. destruct (trig_pool_ok _ _ (tinv_new poisoned now) Hr) as [HI _]. split_and!; [|apply HI|apply HI].
  pose proof (ti_ordered _ HI) as Hs. induction Hs as [|[kx run] l Hs IH Hx]; simpl; [constructor|].
  constructor; [|done]. intros ([ky run'] & Heq & Hy)%list_elem_of_fmap. simpl in Heq. subst ky.
  rewrite Forall_forall in Hx. specialize (Hx _ Hy eq_refl). simpl in Hx. lia.
Qed.

(** C29: every trigger that is stored is well formed, whatever pollers and tools did to the
    repository: it is kept under its own tenant and identifier, its name and its prompt
    are not blank and within 256 bytes and 32 KiB, and it shows a run only together with
    the fire slot the run was started for. *)
Theorem stored_triggers_well_formed poisoned now conf k r :
  trig_reaches (tworld_new poisoned now) conf -> repo_records (tw_repo conf.1) !! k = Some r ->
  key_of_record r = k /\ name_ok (tg_name r) /\ prompt_ok (tg_prompt r) /\
  (is_Some (tg_active_run_ref r) -> is_Some (tg_active_fire_slot r)).
Proof.
  intros Hr Hk. destruct (trig_pool_ok _ _ (tinv_new poisoned now) Hr) as [HI _].
  destruct (ti_texts _ HI _ _ Hk) as [Hn Hp]. split_and!; [by apply (ti_keyed _ HI)|done|done|].
  intros [run Hrun]. destruct (ti_ref _ HI _ _ _ Hk Hrun) as (slot & -> & _). by exists slot.
Qed.

(** C26: a fire is submitted only while no other submission of its trigger is in flight
    (submitted, and not recorded as accepted, replayed or failed yet), and only for a slot
    that no run was accepted for; the reading of the schedule, the claim and the submission
    may be separated by any steps of other pollers and of users. *)
Theorem submissions_exclusive poisoned now conf i a req k :
  trig_reaches (tworld_new poisoned now) conf ->
  conf.2 !! i = Some (a, Call (TrSubmit req) k) ->
  let id := fire_identity (tq_fire req) in
  let key := (fi_tenant_id id, fi_trigger_id id) in
  (key ∉ tw_inflight conf.1) /\ forall run, (key, fi_fire_slot id, run) ∉ tw_accepted conf.1.
Proof.
  intros Hr Hl id key.
  assert (trig_handle _ (TrSubmit req) conf.1
            (tw_submit key (fi_fire_slot id) (tw_at (tw_clock conf.1) conf.1)) (Err TgNotFound)) as Hh.
  { by exists (tw_clock conf.1). }
  pose proof (trig_reaches_step _ _ _ _ _ _ _ _ Hr Hl Hh) as Hr'.
  destruct (trig_pool_ok _ _ (tinv_new poisoned now) Hr') as [HI _].
  pose proof (ti_crossed _ HI) as Hc. simpl in Hc.
  apply orb_false_iff in Hc as [ [_ Hf%bool_decide_eq_false]%orb_false_iff Ha%bool_decide_eq_false].
  split; [done|]. intros run Hin. apply Ha. apply list_elem_of_fmap. by exists (key, fi_fire_slot id, run).
Qed.

(** The report of a tick is true: every line that says a fire was submitted or
    replayed with a run names a run that the repository recorded for that very slot of
    that trigger, whatever happened to the trigger between the claim and the report. *)
Theorem tick_report_true poisoned now conf i a w config rep :
  trig_reaches (tworld_new poisoned now) conf ->
  conf.2 !! i = Some (a, Ret (trig_finished (JobRound w config) (Ok rep))) ->
  Forall (report_told conf.1) (pt_results rep).
Proof. intros Hr. apply (trig_pool_ok _ _ (tinv_new poisoned now) Hr). Qed.

(** *** The tools stay in their scope *)

Definition in_tenant (tenant : TenantId) (X : Type) (e : trigE X) : Prop :=
  forall s s' x, trig_effect X e s s' x ->
    forall k, k.1 <> tenant -> repo_records (tw_repo s') !! k = repo_records (tw_repo s) !! k.

Lemma in_tenant_look tenant X (e : trigE X) :
  (forall s s' x, trig_effect X e s s' x -> tw_repo s' = tw_repo s) -> in_tenant tenant X e.
Proof. intros H s s' x Heff k _. by rewrite (H _ _ _ Heff). Qed.

Lemma in_tenant_path {R} tenant (p : prog trigE R) t r s s' :
  calls_in (in_tenant tenant) p -> traces p t r -> path trig_handle s t s' ->
  forall k, k.1 <> tenant -> repo_records (tw_repo s') !! k = repo_records (tw_repo s) !! k.
Proof.
  revert s t. induction p as [r'|X e k IH]; intros s t; simpl.
  - intros _ [-> _] ->. done.
  - intros [He Hk] (x & t' & -> & Ht) (s1 & (c & Hc & Heff) & Hp) key Hkey.
    rewrite (IH x s1 t' (Hk x) Ht Hp key Hkey). by apply (He _ _ _ Heff).
Qed.

Lemma in_tenant_upsert r : in_tenant (tg_tenant_id r) _ (TrUpsert r).
Proof.
  intros s s' x [-> ->] k Hk. unfold tg_upsert.
  destruct (let? _ := TriggerRecord_validate (tw_clock s) r in lock_state (tw_repo s)) as [m|e] eqn:E; [|done].
  destruct (TriggerRecord_validate (tw_clock s) r); [|done]. unfold lock_state in E.
  destruct (repo_poisoned (tw_repo s)); [done|]. injection E as <-. simpl.
  rewrite lookup_insert_ne; [done|]. intros <-. by apply Hk.
Qed.
Lemma in_tenant_remove tenant id : in_tenant tenant _ (TrRemove tenant id).
Proof.
  intros s s' x [-> ->] k Hk. destruct (tg_remove tenant id (tw_repo s)) as [rp x] eqn:E.
  apply remove_cases in E as [->| ->]; simpl; [done|]. rewrite lookup_delete_ne; [done|]. intros <-. by apply Hk.
Qed.
Lemma in_tenant_remove_scoped tenant user agent project id :
  in_tenant tenant _ (TrRemoveScoped tenant user agent project id).
Proof.
  intros s s' x [-> ->] k Hk. destruct (tg_remove_scoped _ _ _ _ _ (tw_repo s)) as [rp x] eqn:E.
  apply remove_scoped_cases in E as [[-> _]|(r & _ & _ & _ & _ & _ & ->)]; simpl; [done|].
  rewrite lookup_delete_ne; [done|]. intros <-. by apply Hk.
Qed.
Lemma in_tenant_update tenant id patch : in_tenant tenant _ (TrUpdate tenant id patch).
Proof.
  intros s s' x [-> ->] k Hk. destruct (tg_update _ _ tenant id patch (tw_repo s)) as [rp x] eqn:E.
  apply update_cases in E as [->|(r & r' & _ & _ & _ & ->)]; simpl; [done|].
  rewrite lookup_insert_ne; [done|]. intros <-. by apply Hk.
Qed.
Lemma in_tenant_set_state tenant id st : in_tenant tenant _ (TrSetState tenant id st).
Proof.
  intros s s' x [-> ->] k Hk. destruct (tg_set_state tenant id st (tw_repo s)) as [rp x] eqn:E.
  apply set_state_cases in E as [->|(r & _ & _ & ->)]; simpl; [done|].
  rewrite lookup_insert_ne; [done|]. intros <-. by apply Hk.
Qed.

Ltac tenant_prog :=
  repeat match goal with
  | |- calls_in _ (pbind _ _) => apply calls_in_bind; [|intros ?]
  | |- calls_in _ (Ret _) => exact I
  | |- calls_in _ (trigger _) =>
      split; [first [ apply in_tenant_update | apply in_tenant_set_state | apply in_tenant_remove_scoped
                    | apply in_tenant_remove | apply in_tenant_upsert
                    | apply in_tenant_look; by intros ? ? ? [-> _] | apply in_tenant_look; by intros ? ? ? ->
                    | apply in_tenant_look; by intros ? ? ? [_ ->] ]
             |intros ?; exact I]
  | |- calls_in _ (match ?x with _ => _ end) => destruct x
  | |- calls_in _ (on_repository _) => unfold on_repository
  end.

(** The scope of a tool call; a round has none. *)
Definition job_scope {X} (j : trig_job X) : option ResourceScope :=
  match j with
  | JobRound _ _ => None
  | JobCreate scope _ | JobList scope _ | JobRemove scope _ | JobGet scope _ | JobUpdate scope _
  | JobSetState scope _ | JobRunHistory scope _ => Some scope
  end.

Lemma job_in_tenant a {X} (j : trig_job X) scope :
  job_scope j = Some scope -> calls_in (in_tenant (rs_tenant_id scope)) (run_trig_job a j).
Proof.
  destruct j; intros [= ->]; cbn [run_trig_job];
    unfold create_trigger, tool_list_triggers, tool_remove_trigger, tool_get_trigger, tool_update_trigger,
      tool_set_trigger_state, tool_run_history, with_trigger_id; tenant_prog.
Qed.

Definition caller_owns (scope : ResourceScope) (r : TriggerRecord) : bool :=
  in_caller_scope (rs_tenant_id scope) (rs_user_id scope) (rs_agent_id scope) (rs_project_id scope) r.

(** A call that names no tenant but this one: it asks for triggers of the tenant, or only
    for the time or a new identifier. *)
Definition names_only (tenant : TenantId) X (e : trigE X) : Prop :=
  match e with
  | TrNow | TrNewId _ => True
  | TrUpsert r | TrCreateHook r => tg_tenant_id r = tenant
  | TrGet t _ | TrListScoped t _ _ _ _ | TrRemove t _ | TrRemoveScoped t _ _ _ _
  | TrUpdate t _ _ | TrSetState t _ _ | TrListRuns t _ _ => t = tenant
  | _ => False
  end.

Definition event_names_only (tenant : TenantId) (ev : event trigE) : Prop :=
  match ev with @Ev _ X e _ => names_only tenant X e end.

Lemma calls_in_names {R} tenant (p : prog trigE R) t r :
  calls_in (names_only tenant) p -> traces p t r -> Forall (event_names_only tenant) t.
Proof.
  revert t. induction p as [r'|X e k IH]; intros t; simpl; [by intros _ [-> _]|].
  intros [He Hk] (x & t' & -> & Ht). constructor; [exact He | by eapply IH].
Qed.

Lemma job_names_only a {X} (j : trig_job X) scope :
  job_scope j = Some scope -> calls_in (names_only (rs_tenant_id scope)) (run_trig_job a j).
Proof.
  destruct j; intros [= ->]; cbn [run_trig_job];
    unfold create_trigger, tool_list_triggers, tool_remove_trigger, tool_get_trigger, tool_update_trigger,
      tool_set_trigger_state, tool_run_history, with_trigger_id, on_repository;
    repeat match goal with
    | |- calls_in _ (pbind _ _) => apply calls_in_bind; [|intros ?]
    | |- calls_in _ (Ret _) => exact I
    | |- calls_in _ (trigger _) => split; [by simpl | intros ?; exact I]
    | |- calls_in _ (match ?x with _ => _ end) => destruct x
    end.
Qed.

(** A stored trigger of the tenant, as a tool shows it. *)
Definition shows (tenant : TenantId) s (id : TriggerId) (rec : TriggerRecord) (o : TriggerOutput) : Prop :=
  repo_records (tw_repo s) !! (tenant, id) = Some rec /\ o = trigger_output rec.

(** The next call of a trace, with its effect. *)
Ltac tool_call Ht Hp s1 x Hx :=
  let t' := fresh "t" in let c := fresh "c" in let Hc := fresh "Hc" in
  destruct Ht as (x & t' & -> & Ht); destruct Hp as (s1 & (c & Hc & Hx) & Hp); cbn [pbind] in Ht.
(** The tool returned before a call. *)
Ltac tool_end Ht Hp := destruct Ht as [-> ->]; simpl in Hp; subst.

Lemma list_shows scope input t x s s' :
  traces (tool_list_triggers scope input) t x -> path trig_handle s t s' ->
  forall l o, x = Ok l -> o ∈ l -> exists k rec, repo_records (tw_repo s) !! k = Some rec /\
    caller_owns scope rec = true /\ o = trigger_output rec.
Proof.
  intros Ht Hp l o -> Ho. destruct input as [limit|]; [|by destruct Ht].
  tool_call Ht Hp s1 y Hy. destruct Hy as [-> Hy].
  destruct y as [records|e]; cbn in Ht; [|by destruct Ht]. destruct Ht as [_ [= ->]].
  apply list_elem_of_fmap in Ho as (rec & -> & Hrec). symmetry in Hy. unfold tg_list_scoped in Hy.
  case_bool_decide; [injection Hy as <-; by apply elem_of_nil in Hrec|]. unfold lock_state in Hy.
  destruct (repo_poisoned _); [done|]. injection Hy as <-.
  apply elem_of_take in Hrec as (i & Hrec%list_elem_of_lookup_2 & _).
  apply elem_of_sorted_values in Hrec as (k & Hk & Hf). by exists k, rec.
Qed.

(** What a removal did: nothing, and it answers no trigger; or one trigger, the caller's
    own, is gone, and is the one that was asked for and is answered. *)
Definition removed_own scope (input : option string) (x : result (option (string * string)) ToolError) s s' : Prop :=
  (repo_records (tw_repo s') = repo_records (tw_repo s) /\ forall o, x <> Ok (Some o))
  \/ exists text id rec, input = Some text /\ TriggerId_parse text = Ok id
      /\ repo_records (tw_repo s) !! (rs_tenant_id scope, id) = Some rec /\ caller_owns scope rec = true
      /\ repo_records (tw_repo s') = delete (rs_tenant_id scope, id) (repo_records (tw_repo s))
      /\ x = Ok (Some (trigger_remove_output rec)).

Lemma remove_confined scope input t x s s' :
  repo_keyed (tw_repo s) ->
  traces (tool_remove_trigger scope input) t x -> path trig_handle s t s' -> removed_own scope input x s s'.
Proof.
  intros Hkeyed Ht Hp. destruct input as [text|]; [|tool_end Ht Hp; by left].
  unfold tool_remove_trigger, with_trigger_id in Ht. cbn [pbind] in Ht.
  destruct (TriggerId_parse text) as [id|e] eqn:Hid; cbn in Ht; [|tool_end Ht Hp; by left].
  tool_call Ht Hp s1 y Hy. destruct Hy as [-> ->]. cbn [tw_at tw_repo] in *.
  destruct (tg_remove_scoped _ _ _ _ _ (tw_repo s)) as [rp y] eqn:E.
  apply remove_scoped_cases in E as [[-> Hno]|(rec & Hr & -> & Hu & Ha & Hpr & ->)]; cbn [fst snd] in *.
  - left. destruct y as [[r|]|e]; [by destruct (Hno r)|..]; cbn in Ht; tool_end Ht Hp; by split.
  - cbn in Ht. tool_end Ht Hp. right. exists text, id, rec. split_and!; try done.
    pose proof (Hkeyed _ _ Hr) as Hkey. unfold key_of_record in Hkey.
    assert (tg_tenant_id rec = rs_tenant_id scope) as Htn by congruence.
    unfold caller_owns, in_caller_scope. by rewrite !bool_decide_eq_true_2.
Qed.

Lemma get_shows scope input t x s s' :
  traces (tool_get_trigger scope input) t x -> path trig_handle s t s' ->
  forall o, x = Ok (Some o) -> exists id rec, shows (rs_tenant_id scope) s id rec o.
Proof.
  intros Ht Hp o ->. destruct input as [text|]; [|by destruct Ht].
  unfold tool_get_trigger, with_trigger_id in Ht. cbn [pbind] in Ht.
  destruct (TriggerId_parse text) as [id|e]; cbn in Ht; [|by destruct Ht].
  tool_call Ht Hp s1 y Hy. destruct Hy as [-> Hy]. unfold tg_get, lock_state in Hy. cbn [tw_at tw_repo] in Hy.
  destruct (repo_poisoned _); subst y; cbn in Ht; destruct Ht as [_ Ht]; [done|].
  destruct (_ !! _) as [rec|] eqn:Hrec; [|done]. injection Ht as ->. by exists id, rec.
Qed.

(** A change of one stored trigger answers the trigger as it is stored now. *)
Lemma update_answers after now tenant id patch rp rp' rec :
  tg_update after now tenant id patch rp = (rp', Ok (Some rec)) -> repo_records rp' !! (tenant, id) = Some rec.
Proof.
  unfold tg_update, lock_state. destruct (repo_poisoned rp); [done|].
  destruct (repo_records rp !! _) as [r|]; [|done].
  match goal with |- context [match ?x with Ok r1 => _ | Err e => (_, Err e) end] => destruct x as [r1|e] end;
    [|done].
  intros [= <- <-]. apply lookup_insert_eq.
Qed.
Lemma set_state_answers tenant id st rp rp' rec :
  tg_set_state tenant id st rp = (rp', Ok (Some rec)) -> repo_records rp' !! (tenant, id) = Some rec.
Proof.
  unfold tg_set_state, lock_state. destruct (repo_poisoned rp); [done|].
  destruct (repo_records rp !! _) as [r|]; [|done]. intros [= <- <-]. apply lookup_insert_eq.
Qed.

Lemma set_state_shows scope input t x s s' :
  traces (tool_set_trigger_state scope input) t x -> path trig_handle s t s' ->
  forall o, x = Ok (Some o) -> exists id rec, shows (rs_tenant_id scope) s' id rec o.
Proof.
  intros Ht Hp o ->. destruct input as [input|]; [|by destruct Ht].
  unfold tool_set_trigger_state, with_trigger_id in Ht. cbn [pbind] in Ht.
  destruct (TriggerId_parse _) as [id|e]; cbn in Ht; [|by destruct Ht].
  match type of Ht with context [if ?b then Ok TgPaused else ?y] =>
    destruct (if b then Ok TgPaused else y) as [st|e] end; cbn in Ht; [|by destruct Ht].
  tool_call Ht Hp s1 y Hy. destruct Hy as [-> ->].
  destruct (tg_set_state _ id st _) as [rp z] eqn:E. cbn [fst snd] in *.
  destruct z as [[rec|]|e]; cbn in Ht; destruct Ht as [-> [= ->]]. simpl in Hp. subst s'.
  exists id, rec. split; [|done]. by eapply set_state_answers.
Qed.

Lemma update_shows scope input t x s s' :
  traces (tool_update_trigger scope input) t x -> path trig_handle s t s' ->
  forall o, x = Ok (Some o) -> exists id rec, shows (rs_tenant_id scope) s' id rec o.
Proof.
  intros Ht Hp o ->. destruct input as [input|]; [|by destruct Ht].
  unfold tool_update_trigger, with_trigger_id in Ht. cbn [pbind] in Ht.
  destruct (TriggerId_parse _) as [id|e]; cbn in Ht; [|by destruct Ht].
  tool_call Ht Hp s1 clock Hclock.
  match type of Ht with traces (match ?y with _ => _ end) _ _ => destruct y as [sch|e] end;
    cbn in Ht; [|by destruct Ht].
  tool_call Ht Hp s2 clock2 Hclock2.
  match type of Ht with traces (match ?y with _ => _ end) _ _ => destruct y as [[]|e] end;
    cbn in Ht; [|by destruct Ht].
  tool_call Ht Hp s3 y Hy. destruct Hy as [-> ->].
  match type of Ht with context [tg_update ?a ?b ?c id ?d ?e] =>
    destruct (tg_update a b c id d e) as [rp z] eqn:E end. cbn [fst snd] in *.
  destruct z as [[rec|]|e]; cbn in Ht; destruct Ht as [-> [= ->]]. simpl in Hp. subst s'.
  exists id, rec. split; [|done]. by eapply update_answers.
Qed.

(** C28: no tool reads or writes a trigger of another tenant.  A tool call that runs on its
    own makes only repository calls that name the caller's tenant, and leaves every record
    of the other tenants as it is.  A listing shows only stored triggers of exactly the
    caller's tenant, user, agent and project.  A removal takes away at most one trigger,
    the one that was asked for, only if it is of exactly that scope, and answers it; any
    other answer changes no record.  Reading a trigger shows a stored one of the caller's
    tenant; updating, pausing and resuming answer one of that tenant as it is stored
    then. *)
Theorem tools_confined a X (j : trig_job X) scope t x s s' :
  job_scope j = Some scope -> traces (run_trig_job a j) t x -> path trig_handle s t s' -> repo_keyed (tw_repo s) ->
  Forall (event_names_only (rs_tenant_id scope)) t /\
  (forall k, k.1 <> rs_tenant_id scope -> repo_records (tw_repo s') !! k = repo_records (tw_repo s) !! k) /\
  match j in trig_job X return X -> Prop with
  | JobList _ _ => fun r =>
      forall l o, r = Ok l -> o ∈ l -> exists k rec, repo_records (tw_repo s) !! k = Some rec /\
        caller_owns scope rec = true /\ o = trigger_output rec
  | JobRemove _ input => fun r => removed_own scope input r s s'
  | JobGet _ _ => fun r =>
      forall o, r = Ok (Some o) -> exists id rec, shows (rs_tenant_id scope) s id rec o
  | JobUpdate _ _ | JobSetState _ _ => fun r =>
      forall o, r = Ok (Some o) -> exists id rec, shows (rs_tenant_id scope) s' id rec o
  | JobCreate _ _ | JobRunHistory _ _ | JobRound _ _ => fun _ => True
  end x.
Proof.
  intros Hj Ht Hp Hkeyed. split; [by eapply calls_in_names; [apply (job_names_only a)|]|]. split.
  { by eapply in_tenant_path; [by apply job_in_tenant| |]. }
  destruct j; try exact I; injection Hj as ->; cbn [run_trig_job] in Ht.
  - by eapply list_shows.
  - by eapply remove_confined.
  - by eapply get_shows.
  - by eapply update_shows.
  - by eapply set_state_shows.
Qed.

End WithCron.
End Pool.
