(* ===== verification/TriggerExample.v ===== *)
(** * Triggers: runs of the model, and what the code does against its documents

    The witnesses of the theorems of [Triggers], [TriggerPoller] and [TriggerPool]: a
    cron with one slot each minute, a run of a creation and of a poller's round over one
    repository, computed call by call.  Then what modelling showed: the completion
    policy is never read, a fire that was rescheduled under its claim can be wedged, the
    document watcher drops the claim of a running fire, and the tools that are described
    as scoped to the caller act on any trigger of the tenant. *)

From S2P Require Import Prelude Effects HostIds HostTypes RunProfile TurnSnapshot Dispatch.
From S2P Require Import Triggers TriggerPoller TriggerTools TriggerPool.
Open Scope Z_scope.

Module TriggerExample.

Definition minute : Timestamp := 60 * 1000000000.

(** Every expression fires at each full minute. *)
#[local] Instance minute_cron : Cron := {|
  cron_schedule := unit;
  Schedule_from_str := fun _ => Ok tt;
  schedule_after := fun _ t n => Some ((t / minute + 1 + Z.of_nat n) * minute) |}.

#[local] Instance minute_cron_laws : CronLaws minute_cron.
Proof.
  split. intros [] t n u [= <-]. pose proof (Z.mod_pos_bound t minute eq_refl).
  pose proof (Z.div_mod t minute ltac:(done)). unfold minute in *. nia.
Qed.

(** Identifiers and instants in bytes; the digest keeps the text. *)
#[local] Instance plain_text : FireText := {|
  sha256_hex := fun s => s;
  rfc3339_nanos := fun t => be_bytes 32 (t + 2 ^ 73);
  ulid_text := be_bytes 26;
  ulid_from_str := fun s => if bool_decide (s = "") then Err "invalid length" else Ok 0 |}.

Lemma wide_enough : 2 ^ 128 <= 256 ^ Z.of_nat 26 /\ 2 ^ 73 + 2 ^ 73 <= 256 ^ Z.of_nat 32.
Proof. split; vm_compute; discriminate. Qed.

#[local] Instance plain_text_laws : FireTextLaws plain_text.
Proof.
  destruct wide_enough as [W1 W2]. split.
  - intros [a] [b] [Ha1 Ha2] [Hb1 Hb2] Heq. cbn [tid_ulid] in *. f_equal.
    apply (be_bytes_inj 26 a b); [split; [done|by eapply Z.lt_le_trans].. | exact Heq].
  - intros a. unfold str_len. cbn [ulid_text plain_text]. by rewrite be_bytes_length.
  - intros a b [Ha1 Ha2] [Hb1 Hb2] Heq. apply (Z.add_cancel_r a b (2 ^ 73)).
    assert (forall t, - 2 ^ 73 <= t -> t < 2 ^ 73 -> 0 <= t + 2 ^ 73 < 256 ^ Z.of_nat 32) as Hrange.
    { generalize (2 ^ 73), (256 ^ Z.of_nat 32), W2. lia. }
    apply (be_bytes_inj 32); [by apply Hrange..|exact Heq].
  - intros a. unfold str_len. cbn [rfc3339_nanos plain_text]. by rewrite be_bytes_length.
Qed.

(** ** Runs *)

(** One answer of each call, when the clock reads [t]: every prompt is materialized,
    submitted and accepted, and every run has ended. *)
Definition do_call (t : Timestamp) {X} (e : trigE X) (s : tworld) : option (tworld * X) :=
  let s := tw_at t s in
  let settled k slot run f :=
    let r : TriggerRepository * result (option TriggerRecord) TriggerError := f (tw_repo s) in
    Some (tw_with_repo r.1 (settle k slot run r.2 s), r.2) in
  match e in trigE X return option (tworld * X) with
  | TrUpsert record =>
      let r := tg_upsert t record (tw_repo s) in
      Some (tw_with_repo r.1 (tw_with_ids (tw_drawn s)
              (if is_ok r.2 then {[key_of_record record]} ∪ tw_seen s else tw_seen s) s), r.2)
  | TrGet tenant id => Some (s, tg_get tenant id (tw_repo s))
  | TrListScoped tenant user agent project limit =>
      Some (s, tg_list_scoped tenant user agent project limit (tw_repo s))
  | TrRemove tenant id => let r := tg_remove tenant id (tw_repo s) in Some (tw_with_repo r.1 s, r.2)
  | TrRemoveScoped tenant user agent project id =>
      let r := tg_remove_scoped tenant user agent project id (tw_repo s) in Some (tw_with_repo r.1 s, r.2)
  | TrListDue now limit => Some (s, tg_list_due now limit (tw_repo s))
  | TrListActiveAfter after limit => Some (s, tg_list_active_after after limit (tw_repo s))
  | TrClaim me req =>
      let r := tg_claim_due_fire req (tw_repo s) in
      Some (tw_with_repo r.1
              match r.2 with
              | Ok (FireClaimed c) =>
                  tw_with_claims (<[(cd_tenant_id req, cd_trigger_id req) := (me, cf_fire_slot c)]> (tw_owner s))
                    (tw_inflight s) (tw_accepted s) s
              | _ => s
              end, r.2)
  | TrAccepted q =>
      settled (fa_tenant_id q, fa_trigger_id q) (fa_fire_slot q) (Some (fa_run_id q)) (mark_fire_accepted q)
  | TrReplayed q =>
      settled (fr_tenant_id q, fr_trigger_id q) (fr_fire_slot q) (Some (fr_original_run_id q)) (mark_fire_replayed q)
  | TrRetryable q => settled (ff_tenant_id q, ff_trigger_id q) (ff_fire_slot q) None (mark_fire_retryable_failed q)
  | TrPermanent q => settled (fp_tenant_id q, fp_trigger_id q) (fp_fire_slot q) None (mark_fire_permanently_failed q)
  | TrTerminal q => settled (ft_tenant_id q, ft_trigger_id q) (ft_fire_slot q) None (mark_fire_terminally_failed q)
  | TrClear q => let r := clear_active_fire q (tw_repo s) in Some (tw_with_repo r.1 s, r.2)
  | TrUpdate tenant id patch =>
      let r := tg_update t t tenant id patch (tw_repo s) in Some (tw_with_repo r.1 s, r.2)
  | TrSetState tenant id state => let r := tg_set_state tenant id state (tw_repo s) in Some (tw_with_repo r.1 s, r.2)
  | TrListRuns tenant id limit => Some (s, tg_list_runs tenant id limit (tw_repo s))
  | TrNow => Some (s, t)
  | TrNewId me =>
      if bool_decide (tw_drawn s !! trigger_id 0 = None)
      then Some (tw_with_ids (<[trigger_id 0 := me]> (tw_drawn s)) (tw_seen s) s, trigger_id 0) else None
  | TrLockTick me w =>
      if bool_decide (tw_ticking s !! w = None)
      then Some (tw_with_workers (tw_cursors s) (<[w := me]> (tw_ticking s)) s, tt) else None
  | TrUnlockTick me w => Some (tw_with_workers (tw_cursors s) (delete w (tw_ticking s)) s, tt)
  | TrCursor w => Some (s, Ok (default None (tw_cursors s !! w)))
  | TrSetCursor w c => Some (tw_with_workers (<[w := c]> (tw_cursors s)) (tw_ticking s) s, Ok tt)
  | TrEvaluate record now => Some (s, schedule_evaluate t record now)
  | TrMaterialize fire => Some (s, Ok (materialized_for_fire fire (content_ref_unchecked "prompt")))
  | TrSubmit q =>
      let i := fire_identity (tq_fire q) in
      Some (tw_submit (fi_tenant_id i, fi_trigger_id i) (fi_fire_slot i) s,
            Ok (SubmitAccepted (turn_from_uuid 7) t))
  | TrLookup requests => Some (s, map (fun _ => Ok RunTerminal) requests)
  | TrCreateHook _ => Some (s, Ok tt)
  end.

Lemma do_call_handle t X (e : trigE X) s s' x :
  tw_clock s <= t -> do_call t e s = Some (s', x) -> trig_handle X e s s' x.
Proof.
  intros Ht Hd. exists t. split; [done|].
  destruct e; cbn [do_call] in Hd; cbv zeta in Hd;
    try (case_bool_decide; [|done]); injection Hd as <- <-; by repeat split.
Qed.

(** At most [n] calls of a program, all when the clock reads [t]. *)
Fixpoint exec (t : Timestamp) (n : nat) {R} (p : prog trigE R) (s : tworld) : option (tworld * prog trigE R) :=
  match n, p with
  | O, _ | _, Ret _ => Some (s, p)
  | S n, Call e k => match do_call t e s with Some (s', x) => exec t n (k x) s' | None => None end
  end.

Lemma do_call_clock t X (e : trigE X) s s' x : do_call t e s = Some (s', x) -> tw_clock s' = t.
Proof.
  intros Hd. destruct e; cbn [do_call] in Hd; cbv zeta in Hd;
    try (case_bool_decide; [|done]); injection Hd as <- <-; try done; cbn;
    unfold settle; by repeat case_match.
Qed.

Lemma exec_steps t n i a p s s' p' ps :
  tw_clock s <= t -> exec t n p s = Some (s', p') -> ps !! i = Some (a, p) ->
  rtc (pool_step trig_handle trig_may_start) (s, ps) (s', <[i := (a, p')]> ps).
Proof.
  revert p s ps. induction n as [|n IH]; intros p s ps Ht He Hl.
  { injection He as <- <-. by rewrite list_insert_id. }
  destruct p as [r|X e k]; cbn [exec] in He; [injection He as <- <-; by rewrite list_insert_id|].
  destruct (do_call t e s) as [ [s1 x]|] eqn:Hd; [|done].
  eapply rtc_l; [eapply ps_call; [exact Hl|by eapply do_call_handle]|].
  rewrite <- (list_insert_insert_eq ps i (a, p') (a, k x)).
  eapply IH; [by rewrite (do_call_clock _ _ _ _ _ _ Hd)|exact He|].
  apply list_lookup_insert_eq. by eapply lookup_lt_Some.
Qed.

Definition tenant : TenantId := from_trusted "t".
Definition scope : ResourceScope :=
  mk_ResourceScope tenant (from_trusted "u") None None None (from_uuid 0).
Definition create_input : TriggerCreateInput := mk_TriggerCreateInput "daily" "summarize" "* * * * *" None.
Definition config : TriggerPollerWorkerConfig := TriggerPollerWorkerConfig_default.

Definition creation : prog trigE trig_outcome := trig_program 0%nat (JobCreate scope (Some create_input)).
Definition round : prog trigE trig_outcome := trig_program 1%nat (JobRound 0%nat config).

Definition run_to (t : Timestamp) (n : nat) (p : prog trigE trig_outcome) (s : tworld) :
    tworld * prog trigE trig_outcome := default (s, p) (exec t n p s).

(** The world after the creation, in the middle of a round three minutes later (before
    the submission), and after the round. *)
Definition created := run_to 0 30 creation (tworld_new false 0).
Definition submitting := run_to (3 * minute) 11 round created.1.
Definition rounded := run_to (3 * minute) 30 round created.1.

Definition runs (t : Timestamp) (n : nat) (p : prog trigE trig_outcome) (s : tworld) : bool :=
  match exec t n p s with Some _ => true | None => false end.

Lemma run_to_steps t n i a p s ps :
  tw_clock s <= t -> runs t n p s = true -> ps !! i = Some (a, p) ->
  rtc (pool_step trig_handle trig_may_start) (s, ps)
    ((run_to t n p s).1, <[i := (a, (run_to t n p s).2)]> ps).
Proof.
  intros Ht Hr Hl. unfold runs in Hr. unfold run_to. destruct (exec t n p s) as [ [s' p']|] eqn:He; [|done].
  by eapply exec_steps.
Qed.

Lemma created_reached : trig_reaches (tworld_new false 0) (created.1, [(0%nat, created.2)]).
Proof.
  unfold trig_reaches. eapply rtc_l.
  { apply (ps_start _ _ _ [] 0%nat creation). split; [apply not_elem_of_nil|].
    by exists _, (JobCreate scope (Some create_input)). }
  apply (run_to_steps 0 30 0%nat 0%nat creation (tworld_new false 0) [(0%nat, creation)]);
    [done | vm_compute; reflexivity | done].
Qed.

Lemma created_clock : tw_clock created.1 = 0.
Proof. vm_compute. reflexivity. Qed.

Lemma round_reached n :
  runs (3 * minute) n round created.1 = true ->
  let c := run_to (3 * minute) n round created.1 in
  trig_reaches (tworld_new false 0) (c.1, [(0%nat, created.2); (1%nat, c.2)]).
Proof.
  intros Hr c. unfold trig_reaches. etransitivity; [exact created_reached|]. eapply rtc_l.
  { apply (ps_start _ _ _ _ 1%nat round). split; [|by exists _, (JobRound 0%nat config)].
    intros [H|H%elem_of_nil]%elem_of_cons; [discriminate H|done]. }
  apply (run_to_steps (3 * minute) n 1%nat 1%nat round created.1 [(0%nat, created.2); (1%nat, round)]);
    [rewrite created_clock; by vm_compute | exact Hr | done].
Qed.

Lemma rounded_reached :
  trig_reaches (tworld_new false 0) (rounded.1, [(0%nat, created.2); (1%nat, rounded.2)]).
Proof. unfold rounded. apply (round_reached 30). vm_compute. reflexivity. Qed.

Lemma pending_reached :
  trig_reaches (tworld_new false 0) (submitting.1, [(0%nat, created.2); (1%nat, submitting.2)]).
Proof. unfold submitting. apply (round_reached 11). vm_compute. reflexivity. Qed.

Lemma rounded_accepted : length (tw_accepted rounded.1) = 1%nat.
Proof. vm_compute. reflexivity. Qed.

Lemma rounded_stored : exists r, repo_records (tw_repo rounded.1) !! (tenant, trigger_id 0) = Some r.
Proof.
  assert (match repo_records (tw_repo rounded.1) !! (tenant, trigger_id 0) with Some _ => true | None => false end
          = true) as H by (vm_compute; reflexivity).
  destruct (_ !! _) as [r|]; [by exists r|done].
Qed.

Opaque created submitting rounded.

Lemma stored_triggers_well_formed_witness :
  exists r, repo_records (tw_repo rounded.1) !! (tenant, trigger_id 0) = Some r /\ name_ok (tg_name r).
Proof.
  destruct rounded_stored as [r Hr]. exists r. split; [exact Hr|].
  exact (proj1 (proj2 (stored_triggers_well_formed false 0 _ (tenant, trigger_id 0) r rounded_reached Hr))).
Defined.

Lemma slots_run_once_witness :
  length (tw_accepted rounded.1) = 1%nat /\ NoDup (map fst (tw_accepted rounded.1)).
Proof.
  split; [exact rounded_accepted|]. exact (proj1 (slots_run_once false 0 _ rounded_reached)).
Defined.

Definition pending_submit (p : prog trigE trig_outcome) : bool :=
  match p with Call (TrSubmit _) _ => true | _ => false end.
Lemma pending_submit_true p : pending_submit p = true -> exists req k, p = Call (TrSubmit req) k.
Proof. destruct p as [r|X e k]; [done|]. destruct e; try done. intros _. by eexists _, _. Qed.

Lemma submitting_pending : exists req k, submitting.2 = Call (TrSubmit req) k.
Proof. apply pending_submit_true. vm_compute. reflexivity. Qed.

Lemma submissions_exclusive_witness :
  exists req k, submitting.2 = Call (TrSubmit req) k /\
    let id := fire_identity (tq_fire req) in
    (fi_tenant_id id, fi_trigger_id id) ∉ tw_inflight submitting.1.
Proof.
  destruct submitting_pending as (req & k & Heq). exists req, k. split; [exact Heq|].
  exact (proj1 (submissions_exclusive false 0 _ 1%nat 1%nat req k pending_reached
                  (f_equal (fun p => Some (1%nat, p)) Heq))).
Defined.

Definition round_report (p : prog trigE trig_outcome) : option TriggerPollerTickReport :=
  match p with Ret (existT _ (JobRound 0 c, Ok rep)) => Some rep | _ => None end.
Lemma round_report_some p rep :
  round_report p = Some rep -> exists c, p = Ret (trig_finished (JobRound 0%nat c) (Ok rep)).
Proof.
  destruct p as [ [X [j x] ]|]; [|done]. destruct j; try done. simpl. destruct w; [|done].
  destruct x as [r|]; [|done]. intros [= ->]. by eexists.
Qed.

Lemma rounded_report : exists rep, round_report rounded.2 = Some rep /\
  map pf_outcome (pt_results rep) = [PoSubmitted (turn_from_uuid 7)].
Proof.
  assert (fmap (fun rep => map pf_outcome (pt_results rep)) (round_report rounded.2)
          = Some [PoSubmitted (turn_from_uuid 7)]) as H by (vm_compute; reflexivity).
  destruct (round_report rounded.2) as [rep|]; [|done]. exists rep. split; [done|]. by injection H.
Qed.

Lemma tick_report_true_witness : exists rep,
  map pf_outcome (pt_results rep) = [PoSubmitted (turn_from_uuid 7)] /\
  Forall (report_told rounded.1) (pt_results rep).
Proof.
  destruct rounded_report as (rep & Hrep & Hout). exists rep. split; [exact Hout|].
  destruct (round_report_some _ _ Hrep) as [c Hc].
  exact (tick_report_true false 0 _ 1%nat 1%nat 0%nat c rep rounded_reached
           (f_equal (fun p => Some (1%nat, p)) Hc)).
Defined.

(** *** A tick whose trigger cannot be materialized *)

Lemma tick_settles_claims_witness :
  exists t r, traces (tick_once 1%nat 0%nat config 0) t r /\
    (0 < length (acts t))%nat /\ exists fires, acts t = concat fires /\ Forall settled_fire fires.
Proof.
  set (rec := mk_TriggerRecord (trigger_id 0) tenant (from_trusted "u") None None "n" SourceSchedule
                (TsCron "* * * * *") Recurring "p" TgScheduled 0 None None None None None 0).
  set (t := [Ev (TrLockTick 1%nat 0%nat) tt; Ev (TrCursor 0%nat) (Ok None);
             Ev (TrListActiveAfter None 32%nat) (Ok []); Ev (TrLookup []) [];
             Ev (TrSetCursor 0%nat None) (Ok tt); Ev (TrListDue 0 32%nat) (Ok [rec]);
             Ev (TrClaim 1%nat (mk_ClaimDueFireRequest tenant (trigger_id 0) 0 0))
                (Ok (FireClaimed (mk_ClaimedTriggerFire rec 0)));
             Ev TrNow 0; Ev (TrEvaluate rec 0) (Err (TgBackend ""));
             Ev (TrRetryable (mk_FireRetryableFailedRequest tenant (trigger_id 0) 0)) (Ok None);
             Ev (TrUnlockTick 1%nat 0%nat) tt] : list (event trigE)).
  assert (exists r, traces (tick_once 1%nat 0%nat config 0) t r) as [r Ht].
  { eexists. do 11 (eexists _, _; split; [reflexivity|]). cbn. split; reflexivity. }
  exists t, r. split; [exact Ht|]. split; [vm_compute; lia|].
  exact (tick_settles_claims 1%nat 0%nat config 0 t r Ht).
Defined.

(** *** Two active triggers, a page each *)

Definition active_record (n : Z) : TriggerRecord :=
  mk_TriggerRecord (trigger_id n) tenant (from_trusted "u") None None "n" SourceSchedule
    (TsCron "* * * * *") Recurring "p" TgScheduled 0 None None None (Some n) None 0.
Definition two_active : TriggerRepository :=
  mk_TriggerRepository false
    (<[(tenant, trigger_id 1) := active_record 1]> {[(tenant, trigger_id 2) := active_record 2]}).

Lemma two_active_keyed : repo_keyed two_active.
Proof.
  intros k r. simpl. intros [ [<- <-]|[_ [<- <-]%lookup_singleton_Some] ]%lookup_insert_Some; done.
Qed.

Lemma active_scan_complete_witness :
  exists pages, scan_pages 2 None 1 two_active = Ok pages /\ length (concat pages) = 2%nat.
Proof.
  assert (length (List.filter is_active (map_to_list (repo_records two_active)).*2) = 2%nat) as Hlen
    by (vm_compute; reflexivity).
  destruct (active_scan_complete two_active 1 2 eq_refl two_active_keyed ltac:(lia) ltac:(by rewrite Hlen))
    as (pages & H1 & H2 & _).
  exists pages. split; [exact H1|]. by rewrite H2, Hlen.
Defined.

Lemma fire_preimage_injective_witness :
  fire_preimage ROUTE_THREAD_DOMAIN tenant (trigger_id 5) 60 = fire_preimage ROUTE_THREAD_DOMAIN tenant (trigger_id 5) 60 /\
  trigger_id 5 = trigger_id 5.
Proof.
  split; [reflexivity|].
  refine (proj1 (proj2 (proj2 (fire_preimage_injective ROUTE_THREAD_DOMAIN ROUTE_THREAD_DOMAIN tenant tenant
    (trigger_id 5) (trigger_id 5) 60 60 _ _ _ _ _ _ _ _ _)))); try reflexivity;
    first [by vm_compute | split; by vm_compute].
Defined.

(** *** A removal by the creator *)

(** The answer names a removed trigger. *)
Definition some_removed {A E} (x : result (option A) E) : bool :=
  match x with Ok (Some _) => true | _ => false end.

Lemma tools_confined_witness :
  exists t x s', traces (run_trig_job 2%nat (JobRemove scope (Some "0"))) t x /\
    some_removed x = true /\ removed_own scope (Some "0") x created.1 s'.
Proof.
  set (j := JobRemove scope (Some "0")).
  set (c := TrRemoveScoped tenant (from_trusted "u") None None (trigger_id 0)).
  set (r := tg_remove_scoped tenant (from_trusted "u") None None (trigger_id 0) (tw_repo created.1)).
  set (s' := tw_with_repo r.1 (tw_at 0 created.1)).
  set (t := [Ev c r.2] : list (event trigE)).
  assert (some_removed r.2 = true) as Hok by (vm_compute; reflexivity).
  assert (exists x, traces (run_trig_job 2%nat j) t x /\ some_removed x = true) as (x & Ht & Hx).
  { unfold t. destruct r.2 as [[rec|]|]; [|discriminate Hok..].
    exists (Ok (Some (trigger_remove_output rec))). split; [|reflexivity].
    eexists _, _; split; [reflexivity|]. cbn. split; reflexivity. }
  exists t, x, s'. split; [exact Ht|]. split; [exact Hx|].
  refine (proj2 (proj2 (tools_confined 2%nat _ j scope t x created.1 s' eq_refl Ht _ _))).
  - exists s'. split; [|reflexivity]. exists 0. split; [by rewrite created_clock|]. by split.
  - exact (fun k rec H => proj1 (ti_keyed _ (proj1 (trig_pool_ok _ _ (tinv_new false 0) created_reached)) k rec H)).
Defined.

End TriggerExample.

(** ** What the code does against its documents *)

Module TriggerFindings.
Section Findings.
Context {C : Cron}.

(** The completion policy is stored and shown, but nothing reads it: a trigger that is to
    complete after its first fire is still scheduled after the fire was accepted, and once
    its run has ended it is claimed again at its next slot. *)
Theorem one_shot_fires_again (q : FireAcceptedRequest) s s1 s2 r r1 r2 now :
  repo_records s !! (fa_tenant_id q, fa_trigger_id q) = Some r ->
  tg_completion_policy r = CompleteAfterFirstFire -> tg_state r = TgScheduled -> tg_active_run_ref r = None ->
  mark_fire_accepted q s = (s1, Ok (Some r1)) ->
  clear_active_fire (mk_ClearActiveFireRequest (fa_tenant_id q) (fa_trigger_id q) (fa_fire_slot q) (fa_run_id q)) s1
    = (s2, Ok (Some r2)) ->
  fa_next_run_at q <= now ->
  exists c, (tg_claim_due_fire (mk_ClaimDueFireRequest (fa_tenant_id q) (fa_trigger_id q) (fa_next_run_at q) now) s2).2
    = Ok (FireClaimed c).
Proof.
  intros Hr _ Hst Href Hacc Hclear Hnow. unfold mark_fire_accepted in Hacc.
  apply update_claimed_cases in Hacc as [ [_ Hx]|(r0 & r0' & Hp & Hr0 & Hs & Hu & -> & Heq)]; [by destruct (Hx r1)|].
  rewrite Hr in Hr0. injection Hr0 as <-. unfold record_run in Hu. rewrite Href in Hu.
  destruct (reject_non_future_next_run_at _ _); [|done]. injection Hu as <-.
  apply clear_cases in Hclear as [ [_ Hx]|(r3 & _ & Hr3 & _ & _ & -> & _)]; [by destruct (Hx r2)|].
  simpl in Hr3. rewrite lookup_insert_eq in Hr3. injection Hr3 as <-.
  unfold tg_claim_due_fire, lock_state. simpl. rewrite Hp, lookup_insert_eq. simpl.
  rewrite bool_decide_eq_true_2 by done. rewrite Z.eqb_refl. simpl.
  destruct (Z.ltb_spec now (fa_next_run_at q)); [lia|]. simpl. by eexists.
Qed.

(** A fire that is claimed when its trigger gets a new schedule cannot fail and be
    retried: the repository refuses the settlement and leaves the claim.  From then on no
    slot of the trigger can be claimed, and the cleanup, which looks for a run, cannot
    clear it. *)
Theorem rescheduled_fire_is_wedged (q : FireRetryableFailedRequest) s r :
  repo_poisoned s = false ->
  repo_records s !! (ff_tenant_id q, ff_trigger_id q) = Some r ->
  tg_active_fire_slot r = Some (ff_fire_slot q) -> tg_active_run_ref r = None ->
  ff_fire_slot q < tg_next_run_at r ->
  (mark_fire_retryable_failed q s).1 = s /\
  (exists e, (mark_fire_retryable_failed q s).2 = Err e) /\
  (forall slot now, (tg_claim_due_fire (mk_ClaimDueFireRequest (ff_tenant_id q) (ff_trigger_id q) slot now) s).1 = s) /\
  forall slot run,
    clear_active_fire (mk_ClearActiveFireRequest (ff_tenant_id q) (ff_trigger_id q) slot run) s = (s, Ok None).
Proof.
  intros Hp Hr Hact Href Hnext. split_and!.
  - destruct (mark_fire_retryable_failed q s) as [s' x] eqn:E. unfold mark_fire_retryable_failed in E.
    apply update_claimed_cases in E as [ [-> _]|(r0 & r' & _ & Hr0 & _ & Hu & _)]; [done|].
    rewrite Hr in Hr0. injection Hr0 as <-. rewrite Href in Hu. simpl in Hu.
    destruct (Z.ltb_spec (ff_fire_slot q) (tg_next_run_at r)); [done|lia].
  - unfold mark_fire_retryable_failed, update_claimed_fire, lock_state. rewrite Hp, Hr, Hact, Href.
    rewrite bool_decide_eq_true_2 by done. simpl.
    destruct (Z.ltb_spec (ff_fire_slot q) (tg_next_run_at r)); [by eexists|lia].
  - intros slot now. destruct (tg_claim_due_fire _ s) as [s' x] eqn:E.
    apply claim_cases in E as [ [-> _]|(r0 & _ & Hr0 & _ & _ & _ & Hn & _)]; [done|].
    simpl in Hr0. rewrite Hr in Hr0. injection Hr0 as <-. congruence.
  - intros slot run. destruct (clear_active_fire _ s) as [s' x] eqn:E.
    unfold clear_active_fire, lock_state in E. rewrite Hp in E. cbn [ca_tenant_id ca_trigger_id] in E.
    rewrite Hr, Href, Hact in E. simpl in E. rewrite orb_true_r in E. by injection E as <- <-.
Qed.

(** The document watcher writes its record over the one of a running fire, without the
    claim: the fire is due again at once and can be claimed a second time while the first
    claim is still being submitted. *)
Theorem doc_sync_upsert_drops_claim clock tenant user name schedule id now s :
  repo_poisoned s = false ->
  TriggerRecord_validate clock (doc_sync_record id tenant user name schedule now) = Ok tt ->
  let s' := (tg_upsert clock (doc_sync_record id tenant user name schedule now) s).1 in
  exists c, (tg_claim_due_fire (mk_ClaimDueFireRequest tenant id now now) s').2 = Ok (FireClaimed c).
Proof.
  intros Hp Hv s'. unfold s', tg_upsert. rewrite Hv. unfold lock_state. rewrite Hp. simpl.
  unfold tg_claim_due_fire, lock_state. simpl. rewrite Hp.
  change (key_of_record (doc_sync_record id tenant user name schedule now)) with (tenant, id).
  rewrite lookup_insert_eq. simpl. rewrite Z.eqb_refl, Z.ltb_irrefl.
  simpl. by eexists.
Qed.

(** [trigger_set_state] and [trigger_update] are declared for caller-scoped triggers; they
    look at the tenant only, so that any user of the tenant pauses, resumes or rewrites
    the trigger of another one. *)
Theorem set_state_ignores_the_user `{!FireText} scope text id w r :
  TriggerId_parse text = Ok id -> repo_poisoned (tw_repo w) = false ->
  repo_records (tw_repo w) !! (rs_tenant_id scope, id) = Some r -> tg_creator_user_id r <> rs_user_id scope ->
  exists t x w', traces (tool_set_trigger_state scope (Some (mk_TriggerSetStateInput text "paused"))) t x /\
    path trig_handle w t w' /\
    repo_records (tw_repo w') !! (rs_tenant_id scope, id) = Some (tg_with_state TgPaused r).
Proof.
  intros Hid Hp Hr _. unfold tool_set_trigger_state, with_trigger_id. cbn [si_trigger_id si_state].
  rewrite Hid. cbn [pbind on_input map_err]. rewrite bool_decide_eq_true_2 by done. cbn [pbind].
  set (c := TrSetState (rs_tenant_id scope) id TgPaused).
  set (rp := tg_set_state (rs_tenant_id scope) id TgPaused (tw_repo w)).
  exists [Ev c rp.2]. eexists. exists (tw_with_repo rp.1 (tw_at (tw_clock w) w)). split_and!.
  - exists rp.2, []. split; [done|]. unfold rp, tg_set_state, lock_state. rewrite Hp, Hr. by split.
  - eexists. split; [|done]. exists (tw_clock w). split; [done|]. by split.
  - unfold rp, tg_set_state, lock_state. rewrite Hp, Hr. simpl. by rewrite lookup_insert_eq.
Qed.

(** A rescheduling that finds no slot fails, but the new name has been written. *)
Theorem failed_update_keeps_the_name now tenant id patch sch name s r :
  repo_poisoned s = false -> repo_records s !! (tenant, id) = Some r ->
  up_name patch = Some name -> up_schedule patch = Some sch ->
  next_slot_after now sch now = Ok None ->
  (exists e, (tg_update now now tenant id patch s).2 = Err e) /\
  repo_records (tg_update now now tenant id patch s).1 !! (tenant, id) = Some (tg_with_name name r).
Proof.
  intros Hp Hr Hn Hs Hnext. unfold tg_update, lock_state. rewrite Hp, Hr, Hn, Hs, Hnext. simpl.
  split; [by eexists|]. by rewrite lookup_insert_eq.
Qed.

End Findings.
End TriggerFindings.
