(* ===== verification/ConvTypes.v ===== *)
(** * Conversations: vocabulary

    [crates/brassclaw_conversations/src/]: the bounded identifiers of adapters, their
    actors, conversations and events ([ids.rs]), the errors ([error.rs]), the requests and
    answers ([types.rs]), and the state of the conversation services with the keys of its
    maps and its records ([memory.rs]).

    The macro [bounded_string_id!] becomes one record indexed by the identifier's kind.
    The theorem here: the fingerprint of a conversation names it. *)

From stdpp Require Import pretty.
From S2P Require Import Prelude External HostIds HostTypes RunProfile TurnTypes.
Open Scope Z_scope.

(** ** Errors: [error.rs] *)

Inductive InboundTurnError : Type :=
| IeInvalidExternalRef (kind reason : string)
| IeBindingRequired (adapter_kind external_actor_id : string)
| IeAccessDenied (actor_id thread_id : string)
| IeBindingConflict (thread_id : string)
| IeThreadNotFound (thread_id : string)
| IeStatePoisoned
| IeInvalidCanonicalRef (reason : string)
| IeTurnSubmissionFailed (error : TurnError)
| IeDurableState (reason : string).

(** ** Identifiers: [ids.rs] *)

Definition validate_external_id (kind value : string) : result unit InboundTurnError :=
  if bool_decide (value = "") then Err (IeInvalidExternalRef kind "must not be empty")
  else if 512 <? str_len value then Err (IeInvalidExternalRef kind "must be at most 512 bytes")
  else if contains_char "000"%char value || has_control value
  then Err (IeInvalidExternalRef kind "must not contain NUL/control characters")
  else Ok tt.

Inductive ext_id_kind : Type :=
| KAdapterKind | KAdapterInstallation | KExternalEvent | KInboundContent.

Record ext_id (k : ext_id_kind) : Type := trusted_ext_id { ext_str : string }.
Arguments trusted_ext_id {k} ext_str.
Arguments ext_str {k} e.

Abbreviation AdapterKind := (ext_id KAdapterKind).
Abbreviation AdapterInstallationId := (ext_id KAdapterInstallation).
Abbreviation ExternalEventId := (ext_id KExternalEvent).
Abbreviation InboundMessageContentRef := (ext_id KInboundContent).

Definition ext_id_kind_name (k : ext_id_kind) : string :=
  match k with
  | KAdapterKind => "adapter_kind" | KAdapterInstallation => "adapter_installation_id"
  | KExternalEvent => "external_event_id" | KInboundContent => "inbound_message_content_ref"
  end.

Definition ext_id_new (k : ext_id_kind) (value : string) : result (ext_id k) InboundTurnError :=
  let? _ := validate_external_id (ext_id_kind_name k) value in Ok (trusted_ext_id value).

#[export] Instance ext_id_eq_dec k : EqDecision (ext_id k).
Proof. solve_decision. Defined.
#[export] Instance ext_id_countable k : Countable (ext_id k).
Proof. refine (inj_countable' ext_str trusted_ext_id _). by intros []. Defined.

Record ExternalActorRef : Type := mk_ExternalActorRef { xa_kind : string; xa_id : string }.

#[export] Instance ExternalActorRef_eq_dec : EqDecision ExternalActorRef.
Proof. solve_decision. Defined.
#[export] Instance ExternalActorRef_countable : Countable ExternalActorRef.
Proof.
  refine (inj_countable' (fun a => (xa_kind a, xa_id a)) (fun '(k, i) => mk_ExternalActorRef k i) _).
  by intros [].
Defined.

Definition ExternalActorRef_new (kind id : string) : result ExternalActorRef InboundTurnError :=
  let? _ := validate_external_id "external_actor_kind" kind in
  let? _ := validate_external_id "external_actor_id" id in
  Ok (mk_ExternalActorRef kind id).

Record ExternalConversationRef : Type := mk_ExternalConversationRef {
  xc_space_id : option string;
  xc_conversation_id : string;
  xc_thread_id : option string;
  xc_message_id : option string }.

Record ExternalConversationIdentity : Type := mk_ExternalConversationIdentity {
  xi_space_id : option string;
  xi_conversation_id : string;
  xi_thread_id : option string }.

#[export] Instance ExternalConversationRef_eq_dec : EqDecision ExternalConversationRef.
Proof. solve_decision. Defined.
#[export] Instance ExternalConversationIdentity_eq_dec : EqDecision ExternalConversationIdentity.
Proof. solve_decision. Defined.
#[export] Instance ExternalConversationIdentity_countable : Countable ExternalConversationIdentity.
Proof.
  refine (inj_countable' (fun i => (xi_space_id i, xi_conversation_id i, xi_thread_id i))
    (fun '(s, c, t) => mk_ExternalConversationIdentity s c t) _).
  by intros [].
Defined.

(** [if let Some(value) = &o { validate_external_id(kind, value)?; }] *)
Definition validate_optional_id (kind : string) (o : option string) : result unit InboundTurnError :=
  match o with Some value => validate_external_id kind value | None => Ok tt end.

Definition ExternalConversationRef_new (space_id : option string) (conversation_id : string)
    (thread_id message_id : option string) : result ExternalConversationRef InboundTurnError :=
  let? _ := validate_optional_id "external_space_id" space_id in
  let? _ := validate_external_id "external_conversation_id" conversation_id in
  let? _ := validate_optional_id "external_thread_id" thread_id in
  let? _ := validate_optional_id "external_message_id" message_id in
  Ok (mk_ExternalConversationRef space_id conversation_id thread_id message_id).

Definition without_message_id (self : ExternalConversationRef) : ExternalConversationRef :=
  mk_ExternalConversationRef (xc_space_id self) (xc_conversation_id self) (xc_thread_id self) None.

Definition identity (self : ExternalConversationRef) : ExternalConversationIdentity :=
  mk_ExternalConversationIdentity (xc_space_id self) (xc_conversation_id self) (xc_thread_id self).

(** What [Deserialize] makes of the fields of the wire form. *)
Definition ExternalConversationIdentity_of_wire (space_id : option string)
    (conversation_id : string) (thread_id : option string) :
    result ExternalConversationIdentity InboundTurnError :=
  result_map identity (ExternalConversationRef_new space_id conversation_id thread_id None).

Fixpoint length_prefixed_fingerprint (parts : list string) : string :=
  match parts with
  | [] => ""
  | part :: parts =>
      pretty (N.of_nat (String.length part)) +:+ ":" +:+ part +:+ "|"
      +:+ length_prefixed_fingerprint parts
  end.

Definition conversation_fingerprint (self : ExternalConversationRef) : string :=
  length_prefixed_fingerprint
    [default "" (xc_space_id self); xc_conversation_id self; default "" (xc_thread_id self)].

(** ** Requests and answers: [types.rs] *)

Inductive ConversationRouteKind : Type := Direct | Shared.

#[export] Instance ConversationRouteKind_eq_dec : EqDecision ConversationRouteKind.
Proof. solve_decision. Defined.

Record ResolveConversationRequest : Type := mk_ResolveConversationRequest {
  cr_tenant_id : TenantId;
  cr_adapter_kind : AdapterKind;
  cr_adapter_installation_id : AdapterInstallationId;
  cr_external_actor_ref : ExternalActorRef;
  cr_external_conversation_ref : ExternalConversationRef;
  cr_external_event_id : ExternalEventId;
  cr_route_kind : ConversationRouteKind;
  cr_requested_agent_id : option AgentId;
  cr_requested_project_id : option ProjectId }.

Inductive ThreadAccessDecision : Type := AccessAllowed.

Record ConversationBindingResolution : Type := mk_ConversationBindingResolution {
  cb_tenant_id : TenantId;
  cb_actor : TurnActor;
  cb_turn_scope : TurnScope;
  cb_source_binding_ref : SourceBindingRef;
  cb_reply_target_binding_ref : ReplyTargetBindingRef;
  cb_access : ThreadAccessDecision }.

Record LinkConversationRequest : Type := mk_LinkConversationRequest {
  lk_tenant_id : TenantId;
  lk_adapter_kind : AdapterKind;
  lk_adapter_installation_id : AdapterInstallationId;
  lk_external_actor_ref : ExternalActorRef;
  lk_external_conversation_ref : ExternalConversationRef;
  lk_route_kind : ConversationRouteKind;
  lk_target_thread_id : ThreadId;
  lk_target_agent_id : option AgentId;
  lk_target_project_id : option ProjectId }.

Record LinkedConversationBinding : Type := mk_LinkedConversationBinding {
  lb_thread_id : ThreadId;
  lb_source_binding_ref : SourceBindingRef;
  lb_reply_target_binding_ref : ReplyTargetBindingRef }.

Record ValidateReplyTargetRequest : Type := mk_ValidateReplyTargetRequest {
  vr_tenant_id : TenantId;
  vr_actor_user_id : UserId;
  vr_adapter_kind : AdapterKind;
  vr_adapter_installation_id : AdapterInstallationId;
  vr_external_actor_ref : ExternalActorRef;
  vr_current_thread_id : ThreadId;
  vr_reply_target_binding_ref : ReplyTargetBindingRef }.

Record ReplyTargetBinding : Type := mk_ReplyTargetBinding {
  rb_tenant_id : TenantId;
  rb_actor_user_id : UserId;
  rb_thread_id : ThreadId;
  rb_adapter_kind : AdapterKind;
  rb_adapter_installation_id : AdapterInstallationId;
  rb_external_conversation_ref : ExternalConversationRef }.

Inductive MessageIdempotencyStatus : Type := Inserted | Duplicate.

#[export] Instance MessageIdempotencyStatus_eq_dec : EqDecision MessageIdempotencyStatus.
Proof. solve_decision. Defined.

Record AcceptedInboundMessageLookup : Type := mk_AcceptedInboundMessageLookup {
  lu_tenant_id : TenantId;
  lu_adapter_kind : AdapterKind;
  lu_adapter_installation_id : AdapterInstallationId;
  lu_external_actor_ref : ExternalActorRef;
  lu_external_conversation_ref : ExternalConversationRef;
  lu_external_event_id : ExternalEventId }.

Record AcceptInboundMessageRequest : Type := mk_AcceptInboundMessageRequest {
  aq_tenant_id : TenantId;
  aq_thread_id : ThreadId;
  aq_actor : TurnActor;
  aq_adapter_kind : AdapterKind;
  aq_adapter_installation_id : AdapterInstallationId;
  aq_external_actor_ref : ExternalActorRef;
  aq_source_binding_ref : SourceBindingRef;
  aq_reply_target_binding_ref : ReplyTargetBindingRef;
  aq_external_conversation_ref : ExternalConversationRef;
  aq_external_event_id : ExternalEventId;
  aq_route_kind : ConversationRouteKind;
  aq_content_ref : InboundMessageContentRef;
  aq_received_at : TurnTimestamp;
  aq_requested_run_profile : option RunProfileRequest }.

Record AcceptedInboundMessage : Type := mk_AcceptedInboundMessage {
  am_tenant_id : TenantId;
  am_thread_id : ThreadId;
  am_actor : TurnActor;
  am_message_ref : AcceptedMessageRef;
  am_source_binding_ref : SourceBindingRef;
  am_reply_target_binding_ref : ReplyTargetBindingRef;
  am_received_at : TurnTimestamp;
  am_requested_run_profile : option RunProfileRequest;
  am_idempotency : MessageIdempotencyStatus }.

(** [let mut duplicate = m.clone(); duplicate.idempotency = Duplicate] *)
Definition as_duplicate (m : AcceptedInboundMessage) : AcceptedInboundMessage :=
  mk_AcceptedInboundMessage (am_tenant_id m) (am_thread_id m) (am_actor m) (am_message_ref m)
    (am_source_binding_ref m) (am_reply_target_binding_ref m) (am_received_at m)
    (am_requested_run_profile m) Duplicate.

Record AcceptedInboundMessageReplay : Type := mk_AcceptedInboundMessageReplay {
  rp_resolution : ConversationBindingResolution;
  rp_accepted_message : AcceptedInboundMessage }.

Record ThreadMessageRecord : Type := mk_ThreadMessageRecord {
  tm_accepted : AcceptedInboundMessage;
  tm_actor : TurnActor;
  tm_external_event_id : ExternalEventId;
  tm_content_ref : InboundMessageContentRef;
  tm_received_at : TurnTimestamp }.

Record InboundTurnRequest : Type := mk_InboundTurnRequest {
  iq_tenant_id : TenantId;
  iq_adapter_kind : AdapterKind;
  iq_adapter_installation_id : AdapterInstallationId;
  iq_external_actor_ref : ExternalActorRef;
  iq_external_conversation_ref : ExternalConversationRef;
  iq_external_event_id : ExternalEventId;
  iq_route_kind : ConversationRouteKind;
  iq_content_ref : InboundMessageContentRef;
  iq_requested_agent_id : option AgentId;
  iq_requested_project_id : option ProjectId;
  iq_received_at : TurnTimestamp;
  iq_requested_run_profile : option RunProfileRequest }.

Record TrustedInboundTurnRequest : Type := mk_TrustedInboundTurnRequest {
  tr_request : InboundTurnRequest;
  tr_trusted_agent_id : option AgentId;
  tr_trusted_project_id : option ProjectId }.

Record InboundTurnResponse : Type := mk_InboundTurnResponse {
  ir_resolution : ConversationBindingResolution;
  ir_accepted_message : AcceptedInboundMessage;
  ir_turn_submission : option SubmitTurnResponse;
  ir_replayed_turn_submission : bool }.

(** ** The keys of the maps: [memory.rs] *)

Record ActorKey : Type := mk_ActorKey {
  ak_tenant_id : TenantId;
  ak_adapter_kind : AdapterKind;
  ak_adapter_installation_id : AdapterInstallationId;
  ak_external_actor_ref : ExternalActorRef }.

Record BindingKey : Type := mk_BindingKey {
  bk_tenant_id : TenantId;
  bk_adapter_kind : AdapterKind;
  bk_adapter_installation_id : AdapterInstallationId;
  bk_external_conversation_identity : ExternalConversationIdentity }.

Record ExternalEventRouteKey : Type := mk_ExternalEventRouteKey {
  er_tenant_id : TenantId;
  er_adapter_kind : AdapterKind;
  er_adapter_installation_id : AdapterInstallationId;
  er_external_event_id : ExternalEventId }.

Record ThreadKey : Type := mk_ThreadKey { tk_tenant_id : TenantId; tk_thread_id : ThreadId }.

Record AcceptedMessageReplayKey : Type := mk_AcceptedMessageReplayKey {
  pk_tenant_id : TenantId;
  pk_adapter_kind : AdapterKind;
  pk_adapter_installation_id : AdapterInstallationId;
  pk_external_actor_ref : ExternalActorRef;
  pk_external_event_id : ExternalEventId }.

Record MessageIdempotencyKey : Type := mk_MessageIdempotencyKey {
  mk_tenant_id : TenantId;
  mk_source_binding_ref : string;
  mk_external_event_id : ExternalEventId }.

#[export] Instance ActorKey_eq_dec : EqDecision ActorKey.
Proof. solve_decision. Defined.
#[export] Instance ActorKey_countable : Countable ActorKey.
Proof.
  refine (inj_countable' (fun k => (ak_tenant_id k, ak_adapter_kind k, ak_adapter_installation_id k,
    ak_external_actor_ref k)) (fun '(t, a, i, x) => mk_ActorKey t a i x) _). by intros [].
Defined.
#[export] Instance BindingKey_eq_dec : EqDecision BindingKey.
Proof. solve_decision. Defined.
#[export] Instance BindingKey_countable : Countable BindingKey.
Proof.
  refine (inj_countable' (fun k => (bk_tenant_id k, bk_adapter_kind k, bk_adapter_installation_id k,
    bk_external_conversation_identity k)) (fun '(t, a, i, x) => mk_BindingKey t a i x) _). by intros [].
Defined.
#[export] Instance ExternalEventRouteKey_eq_dec : EqDecision ExternalEventRouteKey.
Proof. solve_decision. Defined.
#[export] Instance ExternalEventRouteKey_countable : Countable ExternalEventRouteKey.
Proof.
  refine (inj_countable' (fun k => (er_tenant_id k, er_adapter_kind k, er_adapter_installation_id k,
    er_external_event_id k)) (fun '(t, a, i, x) => mk_ExternalEventRouteKey t a i x) _). by intros [].
Defined.
#[export] Instance ThreadKey_eq_dec : EqDecision ThreadKey.
Proof. solve_decision. Defined.
#[export] Instance ThreadKey_countable : Countable ThreadKey.
Proof.
  refine (inj_countable' (fun k => (tk_tenant_id k, tk_thread_id k)) (fun '(t, i) => mk_ThreadKey t i) _).
  by intros [].
Defined.
#[export] Instance AcceptedMessageReplayKey_eq_dec : EqDecision AcceptedMessageReplayKey.
Proof. solve_decision. Defined.
#[export] Instance AcceptedMessageReplayKey_countable : Countable AcceptedMessageReplayKey.
Proof.
  refine (inj_countable' (fun k => (pk_tenant_id k, pk_adapter_kind k, pk_adapter_installation_id k,
    pk_external_actor_ref k, pk_external_event_id k))
    (fun '(t, a, i, x, e) => mk_AcceptedMessageReplayKey t a i x e) _). by intros [].
Defined.
#[export] Instance MessageIdempotencyKey_eq_dec : EqDecision MessageIdempotencyKey.
Proof. solve_decision. Defined.
#[export] Instance MessageIdempotencyKey_countable : Countable MessageIdempotencyKey.
Proof.
  refine (inj_countable' (fun k => (mk_tenant_id k, mk_source_binding_ref k, mk_external_event_id k))
    (fun '(t, s, e) => mk_MessageIdempotencyKey t s e) _). by intros [].
Defined.

Definition BindingKey_from_request (request : ResolveConversationRequest) : BindingKey :=
  mk_BindingKey (cr_tenant_id request) (cr_adapter_kind request)
    (cr_adapter_installation_id request) (identity (cr_external_conversation_ref request)).

(** ** The records of the state *)

Record ThreadRecord : Type := mk_ThreadRecord {
  th_agent_id : option AgentId;
  th_project_id : option ProjectId;
  th_participants : gset UserId }.

Record ReplyRouteAccess : Type := mk_ReplyRouteAccess {
  ra_owner_actor_key : ActorKey; ra_shared : bool }.

Definition ReplyRouteAccess_new (owner_actor_key : ActorKey) (route_kind : ConversationRouteKind) :
    ReplyRouteAccess :=
  mk_ReplyRouteAccess owner_actor_key (bool_decide (route_kind = Shared)).
Definition allow_shared (self : ReplyRouteAccess) : ReplyRouteAccess :=
  mk_ReplyRouteAccess (ra_owner_actor_key self) true.
Definition route_allows (self : ReplyRouteAccess) (actor_key : ActorKey)
    (route_kind : ConversationRouteKind) : bool :=
  bool_decide (ra_owner_actor_key self = actor_key)
  || (ra_shared self && bool_decide (route_kind = Shared)).

Record BindingTarget : Type := mk_BindingTarget {
  bt_thread_id : ThreadId;
  bt_agent_id : option AgentId;
  bt_project_id : option ProjectId;
  bt_owner_user_id : option UserId }.

Record BindingRecord : Type := mk_BindingRecord {
  br_tenant_id : TenantId;
  br_adapter_kind : AdapterKind;
  br_adapter_installation_id : AdapterInstallationId;
  br_external_conversation_ref : ExternalConversationRef;
  br_external_conversation_identity : ExternalConversationIdentity;
  br_thread_id : ThreadId;
  br_agent_id : option AgentId;
  br_project_id : option ProjectId;
  br_owner_user_id : option UserId;
  br_route_access : ReplyRouteAccess;
  br_source_binding_ref : SourceBindingRef;
  br_reply_target_binding_ref : ReplyTargetBindingRef }.

Definition with_binding_owner (b : BindingRecord) (owner : option UserId) : BindingRecord :=
  mk_BindingRecord (br_tenant_id b) (br_adapter_kind b) (br_adapter_installation_id b)
    (br_external_conversation_ref b) (br_external_conversation_identity b) (br_thread_id b)
    (br_agent_id b) (br_project_id b) owner (br_route_access b) (br_source_binding_ref b)
    (br_reply_target_binding_ref b).
Definition with_binding_access (b : BindingRecord) (access : ReplyRouteAccess) : BindingRecord :=
  mk_BindingRecord (br_tenant_id b) (br_adapter_kind b) (br_adapter_installation_id b)
    (br_external_conversation_ref b) (br_external_conversation_identity b) (br_thread_id b)
    (br_agent_id b) (br_project_id b) (br_owner_user_id b) access (br_source_binding_ref b)
    (br_reply_target_binding_ref b).

Definition BindingRecord_resolution (self : BindingRecord) (actor_user_id : UserId)
    (tenant_id : TenantId) : ConversationBindingResolution :=
  let turn_scope :=
    match br_owner_user_id self with
    | Some owner_user_id =>
        TurnScope_new_with_owner tenant_id (br_agent_id self) (br_project_id self)
          (br_thread_id self) (Some owner_user_id)
    | None => TurnScope_new tenant_id (br_agent_id self) (br_project_id self) (br_thread_id self)
    end in
  mk_ConversationBindingResolution tenant_id (mk_TurnActor actor_user_id) turn_scope
    (br_source_binding_ref self) (br_reply_target_binding_ref self) AccessAllowed.

Record ReplyTargetRecord : Type := mk_ReplyTargetRecord {
  rt_tenant_id : TenantId;
  rt_adapter_kind : AdapterKind;
  rt_adapter_installation_id : AdapterInstallationId;
  rt_external_conversation_ref : ExternalConversationRef;
  rt_thread_id : ThreadId;
  rt_source_binding_ref : SourceBindingRef;
  rt_reply_target_binding_ref : ReplyTargetBindingRef;
  rt_route_access : ReplyRouteAccess }.

Definition ReplyTargetRecord_from_binding (binding : BindingRecord)
    (external_conversation_ref : ExternalConversationRef) : ReplyTargetRecord :=
  mk_ReplyTargetRecord (br_tenant_id binding) (br_adapter_kind binding)
    (br_adapter_installation_id binding) external_conversation_ref (br_thread_id binding)
    (br_source_binding_ref binding) (br_reply_target_binding_ref binding) (br_route_access binding).
Definition with_reply_target (self : ReplyTargetRecord)
    (reply_target_binding_ref : ReplyTargetBindingRef)
    (external_conversation_ref : ExternalConversationRef) : ReplyTargetRecord :=
  mk_ReplyTargetRecord (rt_tenant_id self) (rt_adapter_kind self) (rt_adapter_installation_id self)
    external_conversation_ref (rt_thread_id self) (rt_source_binding_ref self)
    reply_target_binding_ref (rt_route_access self).
Definition with_reply_access (r : ReplyTargetRecord) (access : ReplyRouteAccess) :
    ReplyTargetRecord :=
  mk_ReplyTargetRecord (rt_tenant_id r) (rt_adapter_kind r) (rt_adapter_installation_id r)
    (rt_external_conversation_ref r) (rt_thread_id r) (rt_source_binding_ref r)
    (rt_reply_target_binding_ref r) access.

Record StoredAcceptedMessageReplay : Type := mk_StoredAcceptedMessageReplay {
  sa_external_conversation_identity : ExternalConversationIdentity;
  sa_replay : AcceptedInboundMessageReplay }.

(** ** The state: [InMemoryState] *)

Record InMemoryState : Type := mk_InMemoryState {
  cs_persistence_revision : Z;
  cs_pairings : gmap ActorKey UserId;
  cs_bindings : gmap BindingKey BindingRecord;
  cs_source_bindings : gmap string BindingRecord;
  cs_reply_targets : gmap string ReplyTargetRecord;
  cs_threads : gmap ThreadKey ThreadRecord;
  cs_external_event_routes : gmap ExternalEventRouteKey ExternalConversationIdentity;
  cs_message_idempotency : gmap MessageIdempotencyKey AcceptedInboundMessage;
  cs_message_replays : gmap AcceptedMessageReplayKey StoredAcceptedMessageReplay;
  cs_submission_keys : gmap AcceptedMessageRef IdempotencyKey;
  cs_submitted_message_responses : gmap AcceptedMessageRef SubmitTurnResponse;
  cs_messages : list ThreadMessageRecord }.

Definition InMemoryState_default : InMemoryState := mk_InMemoryState 0 ∅ ∅ ∅ ∅ ∅ ∅ ∅ ∅ ∅ ∅ [].

Definition set_revision (r : Z) (s : InMemoryState) : InMemoryState :=
  mk_InMemoryState r (cs_pairings s) (cs_bindings s) (cs_source_bindings s) (cs_reply_targets s)
    (cs_threads s) (cs_external_event_routes s) (cs_message_idempotency s) (cs_message_replays s)
    (cs_submission_keys s) (cs_submitted_message_responses s) (cs_messages s).
Definition set_pairings m (s : InMemoryState) : InMemoryState :=
  mk_InMemoryState (cs_persistence_revision s) m (cs_bindings s) (cs_source_bindings s)
    (cs_reply_targets s) (cs_threads s) (cs_external_event_routes s) (cs_message_idempotency s)
    (cs_message_replays s) (cs_submission_keys s) (cs_submitted_message_responses s) (cs_messages s).
(** The three maps of the bindings. *)
Definition set_routes b sb rt (s : InMemoryState) : InMemoryState :=
  mk_InMemoryState (cs_persistence_revision s) (cs_pairings s) b sb rt (cs_threads s)
    (cs_external_event_routes s) (cs_message_idempotency s) (cs_message_replays s)
    (cs_submission_keys s) (cs_submitted_message_responses s) (cs_messages s).
Definition set_threads m (s : InMemoryState) : InMemoryState :=
  mk_InMemoryState (cs_persistence_revision s) (cs_pairings s) (cs_bindings s)
    (cs_source_bindings s) (cs_reply_targets s) m (cs_external_event_routes s)
    (cs_message_idempotency s) (cs_message_replays s) (cs_submission_keys s)
    (cs_submitted_message_responses s) (cs_messages s).
Definition set_event_routes m (s : InMemoryState) : InMemoryState :=
  mk_InMemoryState (cs_persistence_revision s) (cs_pairings s) (cs_bindings s)
    (cs_source_bindings s) (cs_reply_targets s) (cs_threads s) m (cs_message_idempotency s)
    (cs_message_replays s) (cs_submission_keys s) (cs_submitted_message_responses s) (cs_messages s).
(** The three records of an accepted message. *)
Definition set_messages idem rep l (s : InMemoryState) : InMemoryState :=
  mk_InMemoryState (cs_persistence_revision s) (cs_pairings s) (cs_bindings s)
    (cs_source_bindings s) (cs_reply_targets s) (cs_threads s) (cs_external_event_routes s) idem rep
    (cs_submission_keys s) (cs_submitted_message_responses s) l.
Definition set_submission_keys m (s : InMemoryState) : InMemoryState :=
  mk_InMemoryState (cs_persistence_revision s) (cs_pairings s) (cs_bindings s)
    (cs_source_bindings s) (cs_reply_targets s) (cs_threads s) (cs_external_event_routes s)
    (cs_message_idempotency s) (cs_message_replays s) m (cs_submitted_message_responses s)
    (cs_messages s).
Definition set_submitted m (s : InMemoryState) : InMemoryState :=
  mk_InMemoryState (cs_persistence_revision s) (cs_pairings s) (cs_bindings s)
    (cs_source_bindings s) (cs_reply_targets s) (cs_threads s) (cs_external_event_routes s)
    (cs_message_idempotency s) (cs_message_replays s) (cs_submission_keys s) m (cs_messages s).

(** ** The fingerprint names the conversation *)

Lemma pretty_N_go_no_colon n s : contains_char ":" s = false -> contains_char ":" (pretty_N_go n s) = false.
Proof.
  revert s. induction (N.lt_wf_0 n) as [n _ IH]. intros s Hs.
  destruct (decide (n = 0%N)) as [->|Hn]; [done|].
  rewrite pretty_N_go_step by lia. apply IH; [apply N.div_lt; lia|].
  cbn [contains_char]. rewrite Hs, orb_false_r. apply bool_decide_eq_false.
  unfold pretty_N_char. by repeat case_match.
Qed.

Lemma pretty_N_no_colon (n : N) : contains_char ":" (pretty n) = false.
Proof. unfold pretty, pretty_N. case_decide; [done|]. by apply pretty_N_go_no_colon. Qed.

Lemma colon_inj (a b s t : string) :
  contains_char ":" a = false -> contains_char ":" b = false ->
  a +:+ ":" +:+ s = b +:+ ":" +:+ t -> a = b /\ s = t.
Proof.
  revert b. induction a as [|c a IH]; intros [|d b]; cbn [contains_char]; rewrite ?append_nil_l, ?append_cons.
  - intros _ _ H. by injection H.
  - intros _ [Hd _]%orb_false_iff [= Hc _]. by rewrite <- Hc in Hd.
  - intros [Hc _]%orb_false_iff _ [= Hd _]. by rewrite Hd in Hc.
  - intros [_ Ha]%orb_false_iff [_ Hb]%orb_false_iff [= -> H]. by destruct (IH b Ha Hb H) as [-> ->].
Qed.

Lemma append_inj_length (a b s t : string) :
  String.length a = String.length b -> a +:+ s = b +:+ t -> a = b /\ s = t.
Proof.
  revert b. induction a as [|c a IH]; intros [|d b]; cbn [String.length]; try done.
  rewrite !append_cons. intros [= Hl] [= -> H]. by destruct (IH b Hl H) as [-> ->].
Qed.

Lemma parts_prefixed_inj parts parts' :
  length_prefixed_fingerprint parts = length_prefixed_fingerprint parts' -> parts = parts'.
Proof.
  assert (forall (n : N) s, pretty n +:+ ":" +:+ s <> "") as Hne.
  { intros n s H. destruct (pretty n); rewrite ?append_nil_l, ?append_cons in H; discriminate. }
  revert parts'. induction parts as [|p parts IH]; intros [|q parts']; cbn [length_prefixed_fingerprint].
  - done.
  - intros H. by destruct (Hne _ _ (eq_sym H)).
  - intros H. by destruct (Hne _ _ H).
  - intros [Hn%(inj pretty) H]%colon_inj; [|apply pretty_N_no_colon..].
    apply append_inj_length in H as [-> H]; [|lia]. apply append_inj_length in H as [_ H]; [|done].
    by rewrite (IH _ H).
Qed.

Lemma valid_optional_id kind o : validate_optional_id kind o = Ok tt -> o <> Some "".
Proof. by intros H ->. Qed.

Lemma ExternalConversationRef_new_ok sp c th m x :
  ExternalConversationRef_new sp c th m = Ok x ->
  x = mk_ExternalConversationRef sp c th m /\ sp <> Some "" /\ th <> Some "".
Proof.
  unfold ExternalConversationRef_new.
  destruct (validate_optional_id "external_space_id" sp) as [[]|] eqn:Hs; [|done].
  destruct (validate_external_id "external_conversation_id" c) as [[]|]; [|done].
  destruct (validate_optional_id "external_thread_id" th) as [[]|] eqn:Ht; [|done].
  destruct (validate_optional_id "external_message_id" m) as [[]|]; [|done].
  intros [= <-]. split_and!; [done | by eapply valid_optional_id..].
Qed.

Lemma default_empty_inj (o o' : option string) :
  o <> Some "" -> o' <> Some "" -> default "" o = default "" o' -> o = o'.
Proof. destruct o, o'; simpl; congruence. Qed.

(** The fingerprint of an external conversation names it: for references that the
    constructor accepts, two fingerprints are equal exactly when the space, the
    conversation and the thread are, whatever bytes they contain and whether or not they
    are present, and whatever the message. *)
Theorem fingerprint_names_conversation sp c th m x sp' c' th' m' y :
  ExternalConversationRef_new sp c th m = Ok x ->
  ExternalConversationRef_new sp' c' th' m' = Ok y ->
  conversation_fingerprint x = conversation_fingerprint y <-> identity x = identity y.
Proof.
  intros (-> & Hs & Ht)%ExternalConversationRef_new_ok (-> & Hs' & Ht')%ExternalConversationRef_new_ok.
  unfold conversation_fingerprint, identity. cbn [xc_space_id xc_conversation_id xc_thread_id]. split.
  - intros [= H1 H2 H3]%parts_prefixed_inj. apply default_empty_inj in H1 as ->; [|done..].
    by apply default_empty_inj in H3 as ->; subst.
  - by intros [= -> -> ->].
Qed.

(** A space that ends the way the length prefix of a conversation begins. *)
Lemma fingerprint_names_conversation_witness :
  conversation_fingerprint (mk_ExternalConversationRef (Some "T1|2:") "C1" None (Some "m1"))
  <> conversation_fingerprint (mk_ExternalConversationRef (Some "T1") "2:|C1" None None).
Proof.
  intros H.
  apply (fingerprint_names_conversation (Some "T1|2:") "C1" None (Some "m1") _ (Some "T1") "2:|C1" None None
    _ eq_refl eq_refl) in H. discriminate H.
Defined.
