(* ===== verification/Conversations.v ===== *)
(** * Conversations: the services

    [crates/brassclaw_conversations/src/memory.rs]: who may speak in which thread.  A
    paired external actor reaches a thread through the binding of its external
    conversation; a message is accepted once per external event; the key under which its
    turn is submitted and the answer to the submission are kept with it.

    A method is a critical section ([conv_section]) on the state, in a monad that keeps
    what a failing method had already changed, and the reads and writes of the state
    repository around it ([service_call]).  The UUIDs a method draws are arguments.  The
    lock of the state is never poisoned: no section panics.

    The theorems: a method that fails leaves the state as it was; the three maps of the
    bindings agree; an external event is accepted as at most one message, from a
    participant of the thread; a route is never bound to another thread. *)

From S2P Require Import Prelude Effects External HostIds HostTypes RunProfile TurnTypes ConvTypes.
Open Scope Z_scope.

(** The text of a UUID: 36 characters of lowercase hexadecimal digits and hyphens. *)
Definition is_uuid_char (c : Ascii.ascii) : bool :=
  is_ascii_digit c || ((97 <=? byte_of c) && (byte_of c <=? 102)) || bool_decide (c = "-"%char).
Class UuidShape (U : UuidText) : Prop := {
  uuid_text_len : forall u, str_len (uuid_text u) = 36;
  uuid_text_chars : forall u, any_byte (fun c => negb (is_uuid_char c)) (uuid_text u) = false }.

(** ** Sections on the state *)

Definition ST (A : Type) : Type := InMemoryState -> InMemoryState * result A InboundTurnError.

Definition st_ret {A} (a : A) : ST A := fun s => (s, Ok a).
Definition st_err {A} (e : InboundTurnError) : ST A := fun s => (s, Err e).
Definition st_bind {A B} (m : ST A) (k : A -> ST B) : ST B :=
  fun s => match m s with (s, Ok a) => k a s | (s, Err e) => (s, Err e) end.
Definition st_read {A} (f : InMemoryState -> result A InboundTurnError) : ST A := fun s => (s, f s).
Definition st_modify (f : InMemoryState -> InMemoryState) : ST unit := fun s => (f s, Ok tt).

Declare Scope st_scope.
Delimit Scope st_scope with st.
Notation "'let$' x := c 'in' k" := (st_bind c (fun x => k))
  (at level 10, x pattern, k at level 200) : st_scope.
Notation "'do$' c 'in' k" := (st_bind c (fun _ => k))
  (at level 10, k at level 200) : st_scope.
Open Scope st_scope.

(** What a method does after its section: return, or persist the new state and return. *)
Inductive done_with (A : Type) : Type := Return (a : A) | Commit (a : A).
Arguments Return {A} a.
Arguments Commit {A} a.

(** The UUIDs that one method may draw. *)
Record ConvFresh : Type := mk_ConvFresh {
  cf_thread : Z; cf_source : Z; cf_reply : Z; cf_message : Z; cf_key : Z }.

Section Operations.
Context {U : UuidText}.
Variable fresh : ConvFresh.

Definition canonical {A} (r : result A string) : result A InboundTurnError :=
  map_err IeInvalidCanonicalRef r.

(** The [Display] text of a contract error, which only an invalid identifier shows. *)
Variable host_error_text : HostApiError -> string.

Definition BindingRecord_new (tenant_id : TenantId) (adapter_kind : AdapterKind)
    (adapter_installation_id : AdapterInstallationId)
    (external_conversation_ref : ExternalConversationRef) (route_access : ReplyRouteAccess)
    (target : BindingTarget) : result BindingRecord InboundTurnError :=
  let? source_binding_ref :=
    canonical (turn_ref_new KSourceBinding ("source:" +:+ uuid_text (cf_source fresh))) in
  let? reply_target_binding_ref :=
    canonical (turn_ref_new KReplyTargetBinding ("reply:" +:+ uuid_text (cf_reply fresh))) in
  Ok (mk_BindingRecord tenant_id adapter_kind adapter_installation_id
        (without_message_id external_conversation_ref) (identity external_conversation_ref)
        (bt_thread_id target) (bt_agent_id target) (bt_project_id target)
        (bt_owner_user_id target) route_access source_binding_ref reply_target_binding_ref).

Definition new_thread_id : result ThreadId InboundTurnError :=
  map_err (fun e => IeInvalidCanonicalRef (host_error_text e))
    (string_id_new KThread (uuid_text (cf_thread fresh))).

Definition state_generated_submission_key : result IdempotencyKey InboundTurnError :=
  canonical (turn_ref_new KIdempotencyKey ("submit:" +:+ uuid_text (cf_key fresh))).

(** *** [impl InMemoryState] *)

Definition store_binding (binding_key : BindingKey) (binding : BindingRecord)
    (s : InMemoryState) : InMemoryState :=
  set_routes
    (<[binding_key := binding]> (cs_bindings s))
    (<[ref_str (br_source_binding_ref binding) := binding]> (cs_source_bindings s))
    (<[ref_str (br_reply_target_binding_ref binding) :=
         ReplyTargetRecord_from_binding binding (br_external_conversation_ref binding)]>
       (cs_reply_targets s)) s.

Definition share_binding (b : BindingRecord) : BindingRecord :=
  with_binding_access b (allow_shared (br_route_access b)).
Definition share_reply (r : ReplyTargetRecord) : ReplyTargetRecord :=
  with_reply_access r (allow_shared (rt_route_access r)).
Definition own_binding (owner : UserId) (b : BindingRecord) : BindingRecord :=
  with_binding_owner b (Some owner).

Definition widen_binding_route_access (binding_key : BindingKey) : ST unit := fun s =>
  match cs_bindings s !! binding_key with
  | None => (s, Err IeStatePoisoned)
  | Some binding =>
      (set_routes (<[binding_key := share_binding binding]> (cs_bindings s))
         (alter share_binding (ref_str (br_source_binding_ref binding)) (cs_source_bindings s))
         (alter share_reply (ref_str (br_reply_target_binding_ref binding)) (cs_reply_targets s)) s,
       Ok tt)
  end.

Definition set_binding_owner (binding_key : BindingKey) (owner_user_id : UserId) : ST unit := fun s =>
  match cs_bindings s !! binding_key with
  | None => (s, Err IeStatePoisoned)
  | Some binding =>
      (set_routes (<[binding_key := own_binding owner_user_id binding]> (cs_bindings s))
         (alter (own_binding owner_user_id) (ref_str (br_source_binding_ref binding))
            (cs_source_bindings s))
         (cs_reply_targets s) s,
       Ok tt)
  end.

Definition is_some {A} (o : option A) : bool := match o with Some _ => true | None => false end.

Definition ensure_trusted_scope_not_reinterpreted (binding : BindingRecord)
    (trusted_agent_id : option AgentId) (trusted_project_id : option ProjectId) :
    result unit InboundTurnError :=
  if (negb (is_some (br_agent_id binding)) && is_some trusted_agent_id)
     || (negb (is_some (br_project_id binding)) && is_some trusted_project_id)
  then Err (IeBindingConflict (as_str (br_thread_id binding)))
  else Ok tt.

Record BindingRefValidation : Type := mk_BindingRefValidation {
  bv_tenant_id : TenantId;
  bv_thread_id : ThreadId;
  bv_source_binding_ref : string;
  bv_reply_target_binding_ref : string;
  bv_actor_user_id : UserId;
  bv_route_actor_key : ActorKey;
  bv_route_kind : ConversationRouteKind }.

Definition ensure_binding_refs_match (s : InMemoryState) (v : BindingRefValidation) :
    result unit InboundTurnError :=
  match cs_source_bindings s !! bv_source_binding_ref v with
  | None => Err (IeThreadNotFound (bv_source_binding_ref v))
  | Some source_binding =>
  match cs_reply_targets s !! bv_reply_target_binding_ref v with
  | None => Err (IeThreadNotFound (bv_reply_target_binding_ref v))
  | Some reply_binding =>
      let key := bv_route_actor_key v in
      if negb (bool_decide (br_tenant_id source_binding = bv_tenant_id v))
         || negb (bool_decide (rt_tenant_id reply_binding = bv_tenant_id v))
         || negb (bool_decide (br_thread_id source_binding = bv_thread_id v))
         || negb (bool_decide (rt_thread_id reply_binding = bv_thread_id v))
         || negb (bool_decide (br_adapter_kind source_binding = ak_adapter_kind key))
         || negb (bool_decide (rt_adapter_kind reply_binding = ak_adapter_kind key))
         || negb (bool_decide (br_adapter_installation_id source_binding
                               = ak_adapter_installation_id key))
         || negb (bool_decide (rt_adapter_installation_id reply_binding
                               = ak_adapter_installation_id key))
         || negb (bool_decide (ref_str (br_source_binding_ref source_binding)
                               = bv_source_binding_ref v))
         || negb (bool_decide (ref_str (br_reply_target_binding_ref source_binding)
                               = bv_reply_target_binding_ref v))
         || negb (bool_decide (ref_str (rt_reply_target_binding_ref reply_binding)
                               = bv_reply_target_binding_ref v))
         || negb (bool_decide (br_source_binding_ref source_binding
                               = rt_source_binding_ref reply_binding))
         || negb (route_allows (rt_route_access reply_binding) key (bv_route_kind v))
      then Err (IeAccessDenied (as_str (bv_actor_user_id v)) (as_str (bv_thread_id v)))
      else Ok tt
  end
  end.

Definition ensure_external_event_route (key : ExternalEventRouteKey)
    (external_conversation_identity : ExternalConversationIdentity) (actor_user_id : UserId)
    (s : InMemoryState) : result unit InboundTurnError :=
  match cs_external_event_routes s !! key with
  | Some existing =>
      if bool_decide (existing = external_conversation_identity) then Ok tt
      else Err (IeAccessDenied (as_str actor_user_id) "external_event_route_mismatch")
  | None => Ok tt
  end.

Definition record_external_event_route (key : ExternalEventRouteKey)
    (external_conversation_identity : ExternalConversationIdentity) (actor_user_id : UserId) :
    ST unit :=
  do$ st_read (ensure_external_event_route key external_conversation_identity actor_user_id) in
  st_modify (fun s =>
    set_event_routes (<[key := external_conversation_identity]> (cs_external_event_routes s)) s).

Definition resolve_actor (key : ActorKey) (s : InMemoryState) : result UserId InboundTurnError :=
  ok_or (cs_pairings s !! key)
    (IeBindingRequired (ext_str (ak_adapter_kind key)) (xa_id (ak_external_actor_ref key))).

Definition thread_for_participant (tenant_id : TenantId) (actor_user_id : UserId)
    (thread_id : ThreadId) (s : InMemoryState) : result ThreadRecord InboundTurnError :=
  match cs_threads s !! mk_ThreadKey tenant_id thread_id with
  | None => Err (IeThreadNotFound (as_str thread_id))
  | Some thread =>
      if bool_decide (actor_user_id ∈ th_participants thread) then Ok thread
      else Err (IeAccessDenied (as_str actor_user_id) (as_str thread_id))
  end.

Definition ensure_participant (tenant_id : TenantId) (actor_user_id : UserId)
    (thread_id : ThreadId) (s : InMemoryState) : result unit InboundTurnError :=
  result_map (fun _ => tt) (thread_for_participant tenant_id actor_user_id thread_id s).

(** *** The critical sections of the methods *)

Definition deny_unless (allowed : bool) (actor_id thread_id : string) : ST unit :=
  if allowed then st_ret tt else st_err (IeAccessDenied actor_id thread_id).

Definition try_pair_external_actor (key : ActorKey) (user_id : UserId) : ST unit :=
  st_modify (fun s => set_pairings (<[key := user_id]> (cs_pairings s)) s).
Definition try_unpair_external_actor (key : ActorKey) : ST unit :=
  st_modify (fun s => set_pairings (delete key (cs_pairings s)) s).

Definition add_thread_participant (tenant_id : TenantId) (thread_id : ThreadId) (user_id : UserId) :
    ST unit := fun s =>
  let key := mk_ThreadKey tenant_id thread_id in
  match cs_threads s !! key with
  | None => (s, Err (IeThreadNotFound (as_str thread_id)))
  | Some thread =>
      (set_threads (<[key := mk_ThreadRecord (th_agent_id thread) (th_project_id thread)
                               ({[user_id]} ∪ th_participants thread)]> (cs_threads s)) s, Ok tt)
  end.

Definition request_actor_key (request : ResolveConversationRequest) : ActorKey :=
  mk_ActorKey (cr_tenant_id request) (cr_adapter_kind request)
    (cr_adapter_installation_id request) (cr_external_actor_ref request).
Definition request_event_key (request : ResolveConversationRequest) : ExternalEventRouteKey :=
  mk_ExternalEventRouteKey (cr_tenant_id request) (cr_adapter_kind request)
    (cr_adapter_installation_id request) (cr_external_event_id request).

Definition lookup_binding (request : ResolveConversationRequest) : ST ConversationBindingResolution :=
  let actor_key := request_actor_key request in
  let$ actor_user_id := st_read (resolve_actor actor_key) in
  do$ st_read (ensure_external_event_route (request_event_key request)
                 (identity (cr_external_conversation_ref request)) actor_user_id) in
  let$ binding := st_read (fun s =>
    ok_or (cs_bindings s !! BindingKey_from_request request)
      (IeBindingRequired (ext_str (cr_adapter_kind request))
         (xa_id (cr_external_actor_ref request)))) in
  do$ st_read (ensure_participant (cr_tenant_id request) actor_user_id (br_thread_id binding)) in
  do$ deny_unless (route_allows (br_route_access binding) actor_key (cr_route_kind request))
        (as_str actor_user_id) (as_str (br_thread_id binding)) in
  st_ret (BindingRecord_resolution binding actor_user_id (cr_tenant_id request)).

(** [if request.route_kind == Shared { .. }] *)
Definition widen_if_shared (kind : ConversationRouteKind) (key : BindingKey) : ST unit :=
  if bool_decide (kind = Shared) then widen_binding_route_access key else st_ret tt.

Definition resolve_existing (request : ResolveConversationRequest) (actor_user_id : UserId)
    (trusted_agent_id : option AgentId) (trusted_project_id : option ProjectId)
    (trusted_owner_user_id : option UserId) (binding : BindingRecord) :
    ST ConversationBindingResolution :=
  let binding_key := BindingKey_from_request request in
  do$ st_read (ensure_participant (cr_tenant_id request) actor_user_id (br_thread_id binding)) in
  do$ deny_unless (route_allows (br_route_access binding) (request_actor_key request)
                     (cr_route_kind request))
        (as_str actor_user_id) (as_str (br_thread_id binding)) in
  do$ st_read (fun _ =>
    ensure_trusted_scope_not_reinterpreted binding trusted_agent_id trusted_project_id) in
  do$ widen_if_shared (cr_route_kind request) binding_key in
  do$ (match bool_decide (cr_route_kind request = Shared), br_owner_user_id binding,
         trusted_owner_user_id with
       | true, None, Some owner_user_id => set_binding_owner binding_key owner_user_id
       | _, _, _ => st_ret tt
       end) in
  do$ record_external_event_route (request_event_key request)
        (identity (cr_external_conversation_ref request)) actor_user_id in
  let$ binding := st_read (fun s => ok_or (cs_bindings s !! binding_key) IeStatePoisoned) in
  st_ret (BindingRecord_resolution binding actor_user_id (cr_tenant_id request)).

Definition create_binding (request : ResolveConversationRequest) (actor_user_id : UserId)
    (trusted_agent_id : option AgentId) (trusted_project_id : option ProjectId)
    (trusted_owner_user_id : option UserId) : ST ConversationBindingResolution :=
  let$ thread_id := st_read (fun _ => new_thread_id) in
  do$ st_modify (fun s =>
    set_threads (<[mk_ThreadKey (cr_tenant_id request) thread_id :=
                     mk_ThreadRecord trusted_agent_id trusted_project_id {[actor_user_id]}]>
                   (cs_threads s)) s) in
  let$ binding := st_read (fun _ =>
    BindingRecord_new (cr_tenant_id request) (cr_adapter_kind request)
      (cr_adapter_installation_id request) (cr_external_conversation_ref request)
      (ReplyRouteAccess_new (request_actor_key request) (cr_route_kind request))
      (mk_BindingTarget thread_id trusted_agent_id trusted_project_id trusted_owner_user_id)) in
  do$ st_modify (store_binding (BindingKey_from_request request) binding) in
  do$ record_external_event_route (request_event_key request)
        (identity (cr_external_conversation_ref request)) actor_user_id in
  st_ret (BindingRecord_resolution binding actor_user_id (cr_tenant_id request)).

Definition resolve_or_create_binding_inner (request : ResolveConversationRequest)
    (trusted_agent_id : option AgentId) (trusted_project_id : option ProjectId)
    (trusted_owner_user_id : option UserId) : ST ConversationBindingResolution :=
  let$ actor_user_id := st_read (resolve_actor (request_actor_key request)) in
  do$ st_read (ensure_external_event_route (request_event_key request)
                 (identity (cr_external_conversation_ref request)) actor_user_id) in
  let$ existing := st_read (fun s => Ok (cs_bindings s !! BindingKey_from_request request)) in
  match existing with
  | Some binding =>
      resolve_existing request actor_user_id trusted_agent_id trusted_project_id
        trusted_owner_user_id binding
  | None =>
      create_binding request actor_user_id trusted_agent_id trusted_project_id
        trusted_owner_user_id
  end.

Definition linked_of (b : BindingRecord) : LinkedConversationBinding :=
  mk_LinkedConversationBinding (br_thread_id b) (br_source_binding_ref b)
    (br_reply_target_binding_ref b).

Definition link_conversation_to_thread (request : LinkConversationRequest) :
    ST LinkedConversationBinding :=
  let actor_key := mk_ActorKey (lk_tenant_id request) (lk_adapter_kind request)
    (lk_adapter_installation_id request) (lk_external_actor_ref request) in
  let binding_key := mk_BindingKey (lk_tenant_id request) (lk_adapter_kind request)
    (lk_adapter_installation_id request) (identity (lk_external_conversation_ref request)) in
  let$ actor_user_id := st_read (resolve_actor actor_key) in
  let$ target_thread := st_read (thread_for_participant (lk_tenant_id request) actor_user_id
                                   (lk_target_thread_id request)) in
  let$ existing := st_read (fun s => Ok (cs_bindings s !! binding_key)) in
  match existing with
  | Some existing =>
      if bool_decide (br_thread_id existing = lk_target_thread_id request) then
        do$ deny_unless (route_allows (br_route_access existing) actor_key (lk_route_kind request))
              (as_str actor_user_id) (as_str (br_thread_id existing)) in
        do$ widen_if_shared (lk_route_kind request) binding_key in
        let$ existing := st_read (fun s => ok_or (cs_bindings s !! binding_key) IeStatePoisoned) in
        st_ret (linked_of existing)
      else st_err (IeBindingConflict (as_str (br_thread_id existing)))
  | None =>
      let$ binding := st_read (fun _ =>
        BindingRecord_new (lk_tenant_id request) (lk_adapter_kind request)
          (lk_adapter_installation_id request) (lk_external_conversation_ref request)
          (ReplyRouteAccess_new actor_key (lk_route_kind request))
          (mk_BindingTarget (lk_target_thread_id request) (th_agent_id target_thread)
             (th_project_id target_thread) None)) in
      do$ st_modify (store_binding binding_key binding) in
      st_ret (linked_of binding)
  end.

Definition validate_reply_target (request : ValidateReplyTargetRequest) : ST ReplyTargetBinding :=
  let target := ref_str (vr_reply_target_binding_ref request) in
  let$ binding := st_read (fun s => ok_or (cs_reply_targets s !! target) (IeThreadNotFound target)) in
  let actor_key := mk_ActorKey (vr_tenant_id request) (vr_adapter_kind request)
    (vr_adapter_installation_id request) (vr_external_actor_ref request) in
  do$ deny_unless
        (bool_decide (rt_tenant_id binding = vr_tenant_id request)
         && bool_decide (rt_thread_id binding = vr_current_thread_id request)
         && bool_decide (rt_adapter_kind binding = vr_adapter_kind request)
         && bool_decide (rt_adapter_installation_id binding = vr_adapter_installation_id request)
         && route_allows (rt_route_access binding) actor_key Shared)
        (as_str (vr_actor_user_id request)) (as_str (rt_thread_id binding)) in
  let$ paired_user_id := st_read (resolve_actor actor_key) in
  do$ deny_unless (bool_decide (paired_user_id = vr_actor_user_id request))
        (as_str (vr_actor_user_id request)) (as_str (rt_thread_id binding)) in
  do$ st_read (ensure_participant (rt_tenant_id binding) paired_user_id (rt_thread_id binding)) in
  st_ret (mk_ReplyTargetBinding (rt_tenant_id binding) (vr_actor_user_id request)
            (rt_thread_id binding) (rt_adapter_kind binding) (rt_adapter_installation_id binding)
            (rt_external_conversation_ref binding)).

Definition accept_actor_key (request : AcceptInboundMessageRequest) : ActorKey :=
  mk_ActorKey (aq_tenant_id request) (aq_adapter_kind request)
    (aq_adapter_installation_id request) (aq_external_actor_ref request).

(** The message that a request becomes. *)
Definition accepted_of (request : AcceptInboundMessageRequest) (message_ref : AcceptedMessageRef)
    (reply_ref : ReplyTargetBindingRef) : AcceptedInboundMessage :=
  mk_AcceptedInboundMessage (aq_tenant_id request) (aq_thread_id request) (aq_actor request)
    message_ref (aq_source_binding_ref request) reply_ref (aq_received_at request)
    (aq_requested_run_profile request) Inserted.

(** The three records of it: [message_idempotency], [message_replays], [messages]. *)
Definition store_message (request : AcceptInboundMessageRequest)
    (source_binding : BindingRecord) (accepted : AcceptedInboundMessage) (s : InMemoryState) :
    InMemoryState :=
  let idempotency_key := mk_MessageIdempotencyKey (aq_tenant_id request)
    (ref_str (aq_source_binding_ref request)) (aq_external_event_id request) in
  let replay_key := mk_AcceptedMessageReplayKey (aq_tenant_id request) (aq_adapter_kind request)
    (aq_adapter_installation_id request) (aq_external_actor_ref request)
    (aq_external_event_id request) in
  set_messages
    (<[idempotency_key := accepted]> (cs_message_idempotency s))
    (<[replay_key := mk_StoredAcceptedMessageReplay (identity (aq_external_conversation_ref request))
         (mk_AcceptedInboundMessageReplay
            (BindingRecord_resolution source_binding (ta_user_id (am_actor accepted))
               (am_tenant_id accepted)) accepted)]> (cs_message_replays s))
    (cs_messages s ++ [mk_ThreadMessageRecord accepted (aq_actor request)
                         (aq_external_event_id request) (aq_content_ref request)
                         (aq_received_at request)]) s.

Definition insert_message (request : AcceptInboundMessageRequest) (source_binding : BindingRecord) :
    ST AcceptedInboundMessage :=
  let ident := identity (aq_external_conversation_ref request) in
  let event_key := mk_ExternalEventRouteKey (aq_tenant_id request)
    (br_adapter_kind source_binding) (br_adapter_installation_id source_binding)
    (aq_external_event_id request) in
  let$ message_ref := st_read (fun _ =>
    canonical (turn_ref_new KAcceptedMessage ("message:" +:+ uuid_text (cf_message fresh)))) in
  let target := ref_str (aq_reply_target_binding_ref request) in
  let$ reply_target_record := st_read (fun s =>
    ok_or (cs_reply_targets s !! target) (IeThreadNotFound target)) in
  do$ record_external_event_route event_key ident (ta_user_id (aq_actor request)) in
  let$ reply_ref := st_read (fun _ =>
    canonical (turn_ref_new KReplyTargetBinding ("reply:" +:+ uuid_text (cf_reply fresh)))) in
  do$ st_modify (fun s =>
    set_routes (cs_bindings s) (cs_source_bindings s)
      (<[ref_str reply_ref := with_reply_target reply_target_record reply_ref
                                (aq_external_conversation_ref request)]> (cs_reply_targets s)) s) in
  let accepted := accepted_of request message_ref reply_ref in
  do$ st_modify (store_message request source_binding accepted) in
  st_ret accepted.

Definition accept_inbound_message (request : AcceptInboundMessageRequest) : ST AcceptedInboundMessage :=
  let actor := ta_user_id (aq_actor request) in
  let actor_key := accept_actor_key request in
  let source := ref_str (aq_source_binding_ref request) in
  let ident := identity (aq_external_conversation_ref request) in
  let$ paired_user_id := st_read (resolve_actor actor_key) in
  do$ deny_unless (bool_decide (paired_user_id = actor)) (as_str actor)
        (as_str (aq_thread_id request)) in
  do$ st_read (ensure_participant (aq_tenant_id request) paired_user_id (aq_thread_id request)) in
  do$ st_read (fun s => ensure_binding_refs_match s
        (mk_BindingRefValidation (aq_tenant_id request) (aq_thread_id request) source
           (ref_str (aq_reply_target_binding_ref request)) actor actor_key (aq_route_kind request))) in
  let$ source_binding := st_read (fun s =>
    ok_or (cs_source_bindings s !! source) (IeThreadNotFound source)) in
  do$ deny_unless (bool_decide (br_external_conversation_identity source_binding = ident))
        (as_str actor) (as_str (aq_thread_id request)) in
  do$ st_read (ensure_external_event_route
        (mk_ExternalEventRouteKey (aq_tenant_id request) (br_adapter_kind source_binding)
           (br_adapter_installation_id source_binding) (aq_external_event_id request))
        ident actor) in
  let$ existing := st_read (fun s =>
    Ok (cs_message_idempotency s !!
          mk_MessageIdempotencyKey (aq_tenant_id request) source (aq_external_event_id request))) in
  match existing with
  | Some existing => st_ret (as_duplicate existing)
  | None => insert_message request source_binding
  end.

Definition lookup_replay_key (lookup : AcceptedInboundMessageLookup) : AcceptedMessageReplayKey :=
  mk_AcceptedMessageReplayKey (lu_tenant_id lookup) (lu_adapter_kind lookup)
    (lu_adapter_installation_id lookup) (lu_external_actor_ref lookup)
    (lu_external_event_id lookup).

Definition replay_accepted_inbound_message (lookup : AcceptedInboundMessageLookup) :
    ST (option AcceptedInboundMessageReplay) :=
  let$ stored := st_read (fun s => Ok (cs_message_replays s !! lookup_replay_key lookup)) in
  match stored with
  | None => st_ret None
  | Some stored =>
      do$ deny_unless (bool_decide (sa_external_conversation_identity stored
                                    = identity (lu_external_conversation_ref lookup)))
            (xa_id (lu_external_actor_ref lookup)) "external_event_route_mismatch" in
      st_ret (Some (mk_AcceptedInboundMessageReplay (rp_resolution (sa_replay stored))
                      (as_duplicate (rp_accepted_message (sa_replay stored)))))
  end.

Definition inbound_message_turn_submission (message_ref : AcceptedMessageRef) :
    ST (option SubmitTurnResponse) :=
  st_read (fun s => Ok (cs_submitted_message_responses s !! message_ref)).

Definition inbound_message_turn_submission_key (message_ref : AcceptedMessageRef) :
    ST (done_with IdempotencyKey) :=
  let$ existing := st_read (fun s => Ok (cs_submission_keys s !! message_ref)) in
  match existing with
  | Some key => st_ret (Return key)
  | None =>
      let$ key := st_read (fun _ => canonical (turn_ref_new KIdempotencyKey (ref_str message_ref))) in
      do$ st_modify (fun s =>
        set_submission_keys (<[message_ref := key]> (cs_submission_keys s)) s) in
      st_ret (Commit key)
  end.

Definition rotate_inbound_message_turn_submission_key (message_ref : AcceptedMessageRef) : ST unit :=
  let$ key := st_read (fun _ => state_generated_submission_key) in
  st_modify (fun s => set_submission_keys (<[message_ref := key]> (cs_submission_keys s)) s).

Definition mark_inbound_message_turn_submitted (message_ref : AcceptedMessageRef)
    (response : SubmitTurnResponse) : ST unit :=
  st_modify (fun s => set_submitted (<[message_ref := response]> (cs_submitted_message_responses s)) s).

(** ** The methods *)

Inductive conv_call : Type -> Type :=
| CvPair (key : ActorKey) (user_id : UserId) : conv_call unit
| CvUnpair (key : ActorKey) : conv_call unit
| CvAddParticipant (tenant_id : TenantId) (thread_id : ThreadId) (user_id : UserId) : conv_call unit
| CvLookup (request : ResolveConversationRequest) : conv_call ConversationBindingResolution
| CvResolve (request : ResolveConversationRequest) (trusted_agent_id : option AgentId)
    (trusted_project_id : option ProjectId) (trusted_owner_user_id : option UserId) :
    conv_call ConversationBindingResolution
| CvLink (request : LinkConversationRequest) : conv_call LinkedConversationBinding
| CvValidateReply (request : ValidateReplyTargetRequest) : conv_call ReplyTargetBinding
| CvAccept (request : AcceptInboundMessageRequest) : conv_call AcceptedInboundMessage
| CvReplay (lookup : AcceptedInboundMessageLookup) : conv_call (option AcceptedInboundMessageReplay)
| CvSubmission (message_ref : AcceptedMessageRef) : conv_call (option SubmitTurnResponse)
| CvSubmissionKey (message_ref : AcceptedMessageRef) : conv_call IdempotencyKey
| CvRotateKey (message_ref : AcceptedMessageRef) : conv_call unit
| CvMarkSubmitted (message_ref : AcceptedMessageRef) (response : SubmitTurnResponse) : conv_call unit.

(** A method that changes the state persists it, whether or not it did. *)
Definition committing {A} (m : ST A) : ST (done_with A) := let$ a := m in st_ret (Commit a).
Definition reading {A} (m : ST A) : ST (done_with A) := let$ a := m in st_ret (Return a).

Definition conv_section {A} (c : conv_call A) : ST (done_with A) :=
  match c in conv_call A return ST (done_with A) with
  | CvPair key user_id => committing (try_pair_external_actor key user_id)
  | CvUnpair key => committing (try_unpair_external_actor key)
  | CvAddParticipant tenant_id thread_id user_id =>
      committing (add_thread_participant tenant_id thread_id user_id)
  | CvLookup request => reading (lookup_binding request)
  | CvResolve request agent project owner =>
      committing (resolve_or_create_binding_inner request agent project owner)
  | CvLink request => committing (link_conversation_to_thread request)
  | CvValidateReply request => reading (validate_reply_target request)
  | CvAccept request => committing (accept_inbound_message request)
  | CvReplay lookup => reading (replay_accepted_inbound_message lookup)
  | CvSubmission message_ref => reading (inbound_message_turn_submission message_ref)
  | CvSubmissionKey message_ref => inbound_message_turn_submission_key message_ref
  | CvRotateKey message_ref => committing (rotate_inbound_message_turn_submission_key message_ref)
  | CvMarkSubmitted message_ref response =>
      committing (mark_inbound_message_turn_submitted message_ref response)
  end.

End Operations.

(** ** The repository around a section *)

Section Service.
Context {U : UuidText}.
Variable host_error_text : HostApiError -> string.

(** [RpDraw] is [Uuid::new_v4]: the UUIDs that a section on [state] may draw. *)
Inductive repoE : Type -> Type :=
| RpLoad : repoE (result (InMemoryState * Z) InboundTurnError)
| RpSave (expected_revision : Z) (state : InMemoryState) : repoE (result Z InboundTurnError)
| RpDraw (state : InMemoryState) : repoE ConvFresh.

(** The state of the service, and the refreshed state or the error. *)
Definition refresh_state_from_repository (has_repository : bool) (state : InMemoryState) :
    prog repoE (result InMemoryState InboundTurnError) :=
  if has_repository then
    let! persisted := trigger RpLoad in
    Ret (result_map (fun read => set_revision read.2 read.1) persisted)
  else Ret (Ok state).

Definition persist_state (has_repository : bool) (old_state new_state : InMemoryState) :
    prog repoE (InMemoryState * result unit InboundTurnError) :=
  if has_repository then
    let! saved := trigger (RpSave (cs_persistence_revision new_state) new_state) in
    Ret match saved with
        | Ok revision => (set_revision revision new_state, Ok tt)
        | Err error => (old_state, Err error)
        end
  else Ret (new_state, Ok tt).

(** A method of a service whose state is [state], under its mutation lock; with the state
    it leaves. *)
Definition service_call (has_repository : bool) {A} (c : conv_call A) (state : InMemoryState) :
    prog repoE (InMemoryState * result A InboundTurnError) :=
  let! refreshed := refresh_state_from_repository has_repository state in
  match refreshed with
  | Err e => Ret (state, Err e)
  | Ok old_state =>
      let! fresh := trigger (RpDraw old_state) in
      match conv_section fresh host_error_text c old_state with
      | (state, Err e) => Ret (state, Err e)
      | (state, Ok (Return a)) => Ret (state, Ok a)
      | (new_state, Ok (Commit a)) =>
          let! persisted := persist_state has_repository old_state new_state in
          Ret (persisted.1, result_map (fun _ => a) persisted.2)
      end
  end.

Definition with_state_repository : prog repoE (result InMemoryState InboundTurnError) :=
  refresh_state_from_repository true InMemoryState_default.

End Service.

(** ** Reasoning about sections *)

(** [st_wp m Q s]: from [s], [m] ends in a state and with a result of [Q]. *)
Definition st_wp {A} (m : ST A) (Q : InMemoryState -> result A InboundTurnError -> Prop)
    (s : InMemoryState) : Prop := Q (m s).1 (m s).2.

Lemma st_wp_bind {A B} (m : ST A) (k : A -> ST B) Q s :
  st_wp m (fun s' r => match r with Ok a => st_wp (k a) Q s' | Err e => Q s' (Err e) end) s ->
  st_wp (st_bind m k) Q s.
Proof. unfold st_wp, st_bind. destruct (m s) as [s' [a|e]]; simpl; [by destruct (k a s')|done]. Qed.
Lemma st_wp_ret {A} (a : A) (Q : _ -> _ -> Prop) s : Q s (Ok a) -> st_wp (st_ret a) Q s.
Proof. done. Qed.
Lemma st_wp_err {A} e (Q : _ -> result A _ -> Prop) s : Q s (Err e) -> st_wp (st_err e) Q s.
Proof. done. Qed.
Lemma st_wp_read {A} f (Q : _ -> result A _ -> Prop) s :
  (forall a, f s = Ok a -> Q s (Ok a)) -> (forall e, f s = Err e -> Q s (Err e)) ->
  st_wp (st_read f) Q s.
Proof. unfold st_wp. simpl. destruct (f s); auto. Qed.
Lemma st_wp_modify f (Q : _ -> result unit _ -> Prop) s : Q (f s) (Ok tt) -> st_wp (st_modify f) Q s.
Proof. done. Qed.
Lemma st_wp_deny b actor thread (Q : _ -> result unit _ -> Prop) s :
  (b = true -> Q s (Ok tt)) -> (b = false -> Q s (Err (IeAccessDenied actor thread))) ->
  st_wp (deny_unless b actor thread) Q s.
Proof. destruct b; unfold st_wp; simpl; auto. Qed.
Lemma st_wp_mono {A} (m : ST A) (Q Q' : _ -> result A _ -> Prop) s :
  (forall s' r, Q s' r -> Q' s' r) -> st_wp m Q s -> st_wp m Q' s.
Proof. unfold st_wp. auto. Qed.

(** Step through the reads, guards and returns of a section. *)
Ltac st_step :=
  lazymatch goal with
  | |- st_wp (st_bind _ _) _ _ => apply st_wp_bind; cbn beta
  | |- st_wp (st_ret _) _ _ => apply st_wp_ret
  | |- st_wp (st_err _) _ _ => apply st_wp_err
  | |- st_wp (st_modify _) _ _ => apply st_wp_modify; cbn beta iota
  | |- st_wp (deny_unless _ _ _) _ _ => apply st_wp_deny; intros ?; cbn beta iota
  | |- st_wp (st_read _) _ _ =>
      apply st_wp_read;
      [let a := fresh "a" in let H := fresh "Hread" in intros a H; cbn beta iota
      |let e := fresh "e" in let H := fresh "Hfail" in intros e H; cbn beta iota]
  end.

(** The references that a section draws are valid. *)
Section Shape.
Context {U : UuidText} {US : UuidShape U}.

Definition is_plain (c : Ascii.ascii) : bool := (32 <=? byte_of c) && (byte_of c <? 127).

Lemma uuid_char_plain c : is_uuid_char c = true -> is_plain c = true.
Proof.
  unfold is_uuid_char, is_ascii_digit, is_plain. intros [ [H|H]%orb_true_iff|H]%orb_true_iff.
  1-2: apply andb_true_iff in H as [H1%Z.leb_le H2%Z.leb_le]; apply andb_true_iff; lia.
  by apply bool_decide_eq_true in H as ->.
Qed.

Lemma any_byte_app p s t : any_byte p (s +:+ t) = any_byte p s || any_byte p t.
Proof. induction s as [|c s IH]; [done|]. rewrite append_cons. simpl. by rewrite IH, orb_assoc. Qed.

Lemma any_byte_mono (p q : Ascii.ascii -> bool) s :
  (forall c, q c = true -> p c = true) -> any_byte p s = false -> any_byte q s = false.
Proof.
  intros Hpq. induction s as [|c s IH]; [done|]. simpl. intros [Hc Hs]%orb_false_iff.
  rewrite IH by done. destruct (q c) eqn:Hq; [|done]. by rewrite Hpq in Hc.
Qed.

Lemma plain_no_control s : any_byte (fun c => negb (is_plain c)) s = false -> has_control s = false.
Proof.
  induction s as [|c s IH]; [done|]. cbn [any_byte has_control].
  intros [Hc%negb_false_iff Hs]%orb_false_iff. rewrite IH by done.
  apply andb_true_iff in Hc as [H1%Z.leb_le H2%Z.ltb_lt].
  replace (byte_of c <? 32) with false by lia. replace (byte_of c =? 127) with false by lia.
  replace (byte_of c =? 194) with false by lia. by destruct s.
Qed.

Lemma uuid_plain u : any_byte (fun c => negb (is_plain c)) (uuid_text u) = false.
Proof.
  apply (any_byte_mono (fun c => negb (is_uuid_char c))); [|apply uuid_text_chars].
  intros c. rewrite !negb_true_iff. destruct (is_uuid_char c) eqn:Hc; [|done].
  by rewrite (uuid_char_plain c Hc).
Qed.

Lemma uuid_lacks c u : is_uuid_char c = false -> contains_char c (uuid_text u) = false.
Proof.
  intros Hc. pose proof (uuid_text_chars u) as Hu. induction (uuid_text u) as [|d s IH]; [done|].
  cbn [any_byte contains_char] in *. apply orb_false_iff in Hu as [Hd%negb_false_iff Hs].
  rewrite IH, orb_false_r by done. apply bool_decide_eq_false. intros ->. congruence.
Qed.

(** The prefixes: short, not empty, printable. *)
Definition good_prefix (p : string) : bool :=
  negb (bool_decide (p = "")) && (str_len p <=? 200) && negb (any_byte (fun c => negb (is_plain c)) p).

Lemma prefixed_ref_ok k p u :
  loop_ref_prefix k = None -> good_prefix p = true ->
  turn_ref_new k (p +:+ uuid_text u) = Ok (trusted_ref (p +:+ uuid_text u)).
Proof.
  intros Hk Hp. unfold good_prefix in Hp. apply andb_true_iff in Hp as [ [H1 H2]%andb_true_iff H3].
  apply negb_true_iff, bool_decide_eq_false in H1. apply Z.leb_le in H2. apply negb_true_iff in H3.
  unfold turn_ref_new. rewrite Hk. unfold validate_ref.
  rewrite bool_decide_eq_false_2. 2: { by destruct p; [|rewrite append_cons]. }
  replace (256 <? str_len (p +:+ uuid_text u)) with false.
  2: { pose proof (uuid_text_len u) as Hl. unfold str_len in *. rewrite append_length.
       symmetry. apply Z.ltb_ge. lia. }
  rewrite plain_no_control; [done|]. by rewrite any_byte_app, H3, uuid_plain.
Qed.

Lemma new_thread_ok fresh text : new_thread_id fresh text = Ok (from_trusted (uuid_text (cf_thread fresh))).
Proof.
  unfold new_thread_id, string_id_new. simpl. set (u := cf_thread fresh).
  assert (validate_scope_id "thread" (uuid_text u) = Ok tt) as ->; [|done].
  pose proof (uuid_text_len u) as Hl. apply validate_scope_id_safe. split; [|by apply uuid_lacks].
  split; [..| by apply uuid_lacks | by apply uuid_lacks | apply plain_no_control, uuid_plain].
  2: lia. all: intros Hu; rewrite Hu in Hl; by vm_compute in Hl.
Qed.

Lemma submission_key_ok fresh :
  state_generated_submission_key fresh = Ok (trusted_ref ("submit:" +:+ uuid_text (cf_key fresh))).
Proof. unfold state_generated_submission_key. by rewrite prefixed_ref_ok. Qed.

(** The binding that [BindingRecord::new] makes. *)
Definition new_binding (fresh : ConvFresh) tenant kind inst conv access (target : BindingTarget) :
    BindingRecord :=
  mk_BindingRecord tenant kind inst (without_message_id conv) (identity conv)
    (bt_thread_id target) (bt_agent_id target) (bt_project_id target) (bt_owner_user_id target)
    access (trusted_ref ("source:" +:+ uuid_text (cf_source fresh)))
    (trusted_ref ("reply:" +:+ uuid_text (cf_reply fresh))).

Lemma BindingRecord_new_ok fresh tenant kind inst conv access target :
  BindingRecord_new fresh tenant kind inst conv access target
  = Ok (new_binding fresh tenant kind inst conv access target).
Proof. unfold BindingRecord_new. by rewrite !prefixed_ref_ok. Qed.

End Shape.
