(* ===== verification/ConvInvariants.v ===== *)
(** * Conversations: the invariant

    What holds of every state that the sections of [Conversations] reach: the three maps
    of the bindings agree, every accepted message has its idempotency record, a binding and
    a participant behind it, and no two messages have the same key ([conv_inv]); and how a
    state may change ([evolves]): bindings, threads, event routes and messages stay, a
    binding is only ever shared with more actors or given its first owner.

    The theorems: a method that fails leaves the state as it was; an external event is
    accepted as at most one message, from a participant; routes are stable. *)

From S2P Require Import Prelude Effects External HostIds HostTypes RunProfile TurnTypes ConvTypes.
From S2P Require Import Conversations.
Open Scope Z_scope.

(** ** How a state may change *)

Definition access_evolves (a a' : ReplyRouteAccess) : Prop :=
  ra_owner_actor_key a' = ra_owner_actor_key a /\ (ra_shared a = true -> ra_shared a' = true).

Definition binding_evolves (b b' : BindingRecord) : Prop :=
  exists access owner, b' = with_binding_owner (with_binding_access b access) owner
  /\ access_evolves (br_route_access b) access
  /\ (forall o, br_owner_user_id b = Some o -> owner = Some o).

Definition reply_evolves (x x' : ReplyTargetRecord) : Prop :=
  exists access, x' = with_reply_access x access /\ access_evolves (rt_route_access x) access.

Definition thread_evolves (t t' : ThreadRecord) : Prop :=
  th_agent_id t' = th_agent_id t /\ th_project_id t' = th_project_id t
  /\ th_participants t ⊆ th_participants t'.

(** The entries of [m] are still there in [m'], changed by [R] at most. *)
Definition entries_evolve `{Countable K} {V} (R : V -> V -> Prop) (m m' : gmap K V) : Prop :=
  forall k v, m !! k = Some v -> exists v', m' !! k = Some v' /\ R v v'.

Record evolves (s s' : InMemoryState) : Prop := {
  ev_bindings : entries_evolve binding_evolves (cs_bindings s) (cs_bindings s');
  ev_sources : entries_evolve binding_evolves (cs_source_bindings s) (cs_source_bindings s');
  ev_replies : entries_evolve reply_evolves (cs_reply_targets s) (cs_reply_targets s');
  ev_threads : entries_evolve thread_evolves (cs_threads s) (cs_threads s');
  ev_routes : cs_external_event_routes s ⊆ cs_external_event_routes s';
  ev_idem : cs_message_idempotency s ⊆ cs_message_idempotency s';
  ev_replays : cs_message_replays s ⊆ cs_message_replays s';
  ev_submitted : dom (cs_submitted_message_responses s) ⊆ dom (cs_submitted_message_responses s');
  ev_messages : cs_messages s `prefix_of` cs_messages s' }.

#[export] Instance access_evolves_preorder : PreOrder access_evolves.
Proof. split; [by split|]. intros a b c [H1 H2] [H3 H4]. split; [congruence | auto]. Qed.

Lemma binding_id (b : BindingRecord) :
  b = with_binding_owner (with_binding_access b (br_route_access b)) (br_owner_user_id b).
Proof. by destruct b. Qed.

#[export] Instance binding_evolves_preorder : PreOrder binding_evolves.
Proof.
  split.
  - intros b. exists (br_route_access b), (br_owner_user_id b). split; [apply binding_id|].
    split; [done|]. done.
  - intros b c d (a1 & o1 & -> & Ha1 & Ho1) (a2 & o2 & -> & Ha2 & Ho2). exists a2, o2.
    split; [done|]. split; [by etrans|]. intros o Ho. apply Ho2, Ho1, Ho.
Qed.
#[export] Instance reply_evolves_preorder : PreOrder reply_evolves.
Proof.
  split.
  - intros x. exists (rt_route_access x). split; [by destruct x | done].
  - intros x y z (a1 & -> & H1) (a2 & -> & H2). exists a2. split; [done|]. by etrans.
Qed.
#[export] Instance thread_evolves_preorder : PreOrder thread_evolves.
Proof.
  split; [by split|]. intros t1 t2 t3 (H1 & H2 & H3) (H4 & H5 & H6).
  split_and!; [congruence | congruence | by etrans].
Qed.
#[export] Instance entries_evolve_preorder `{Countable K} {V} (R : V -> V -> Prop) :
  PreOrder R -> PreOrder (entries_evolve (K := K) R).
Proof.
  intros HR. split; [by intros m k v Hv; exists v|].
  intros m1 m2 m3 H1 H2 k v Hv. destruct (H1 k v Hv) as (v1 & Hv1 & Hr1).
  destruct (H2 k v1 Hv1) as (v2 & Hv2 & Hr2). exists v2. split; [done|]. by etrans.
Qed.
#[export] Instance evolves_preorder : PreOrder evolves.
Proof. split; [by split|]. intros s1 s2 s3 [] []. split; by etrans. Qed.

Lemma entries_insert `{Countable K} {V} (R : V -> V -> Prop) `{!Reflexive R} (m : gmap K V) k v :
  (forall v0, m !! k = Some v0 -> R v0 v) -> entries_evolve R m (<[k := v]> m).
Proof.
  intros Hk j w Hj. destruct (decide (j = k)) as [->|Hne].
  - exists v. rewrite lookup_insert_eq. auto.
  - exists w. by rewrite lookup_insert_ne.
Qed.
Lemma entries_alter `{Countable K} {V} (R : V -> V -> Prop) `{!Reflexive R} (m : gmap K V) (f : V -> V) k :
  (forall v, R v (f v)) -> entries_evolve R m (alter f k m).
Proof.
  intros Hf j w Hj. destruct (decide (j = k)) as [->|Hne].
  - exists (f w). by rewrite lookup_alter_eq, Hj.
  - exists w. by rewrite lookup_alter_ne.
Qed.

Lemma alter_is_insert `{Countable K} {V} (f : V -> V) (m : gmap K V) k v :
  m !! k = Some v -> alter f k m = <[k := f v]> m.
Proof.
  intros Hk. apply map_eq. intros j. destruct (decide (j = k)) as [->|Hne].
  - by rewrite lookup_alter_eq, lookup_insert_eq, Hk.
  - by rewrite lookup_alter_ne, lookup_insert_ne.
Qed.

Lemma share_evolves b : binding_evolves b (share_binding b).
Proof.
  exists (allow_shared (br_route_access b)), (br_owner_user_id b). split; [by destruct b|]. by split.
Qed.
Lemma own_evolves o b : br_owner_user_id b = None -> binding_evolves b (own_binding o b).
Proof.
  intros Hb. exists (br_route_access b), (Some o). split; [by destruct b|]. split; [done|].
  intros o' Ho'. congruence.
Qed.
Lemma share_reply_evolves x : reply_evolves x (share_reply x).
Proof. exists (allow_shared (rt_route_access x)). by split. Qed.

(** ** The invariant *)

Definition binding_key_of (b : BindingRecord) : BindingKey :=
  mk_BindingKey (br_tenant_id b) (br_adapter_kind b) (br_adapter_installation_id b)
    (br_external_conversation_identity b).
Definition event_key_of (b : BindingRecord) (event : ExternalEventId) : ExternalEventRouteKey :=
  mk_ExternalEventRouteKey (br_tenant_id b) (br_adapter_kind b) (br_adapter_installation_id b) event.
Definition thread_key_of (b : BindingRecord) : ThreadKey :=
  mk_ThreadKey (br_tenant_id b) (br_thread_id b).
Definition message_key (m : ThreadMessageRecord) : MessageIdempotencyKey :=
  mk_MessageIdempotencyKey (am_tenant_id (tm_accepted m))
    (ref_str (am_source_binding_ref (tm_accepted m))) (tm_external_event_id m).
Definition message_ref (m : ThreadMessageRecord) : AcceptedMessageRef := am_message_ref (tm_accepted m).

(** [x] is a reply target of the binding [b]. *)
Definition targets (x : ReplyTargetRecord) (b : BindingRecord) : Prop :=
  rt_tenant_id x = br_tenant_id b /\ rt_adapter_kind x = br_adapter_kind b
  /\ rt_adapter_installation_id x = br_adapter_installation_id b /\ rt_thread_id x = br_thread_id b
  /\ rt_source_binding_ref x = br_source_binding_ref b
  /\ identity (rt_external_conversation_ref x) = br_external_conversation_identity b
  /\ access_evolves (rt_route_access x) (br_route_access b).

Record binding_ok (s : InMemoryState) (b : BindingRecord) : Prop := {
  bo_source : cs_source_bindings s !! ref_str (br_source_binding_ref b) = Some b;
  bo_reply : cs_reply_targets s !! ref_str (br_reply_target_binding_ref b)
             = Some (ReplyTargetRecord_from_binding b (br_external_conversation_ref b));
  bo_identity : br_external_conversation_identity b = identity (br_external_conversation_ref b);
  bo_thread : exists t, cs_threads s !! thread_key_of b = Some t
                /\ th_agent_id t = br_agent_id b /\ th_project_id t = br_project_id b }.

(** The binding, the reply target and the participant behind an accepted message. *)
Record message_ok (s : InMemoryState) (m : ThreadMessageRecord) : Prop := {
  mo_actor : tm_actor m = am_actor (tm_accepted m);
  mo_inserted : am_idempotency (tm_accepted m) = Inserted;
  mo_idem : cs_message_idempotency s !! message_key m = Some (tm_accepted m);
  mo_binding : exists b, cs_source_bindings s !! ref_str (am_source_binding_ref (tm_accepted m)) = Some b
    /\ am_tenant_id (tm_accepted m) = br_tenant_id b /\ am_thread_id (tm_accepted m) = br_thread_id b
    /\ cs_external_event_routes s !! event_key_of b (tm_external_event_id m)
       = Some (br_external_conversation_identity b);
  mo_reply : exists x, cs_reply_targets s !! ref_str (am_reply_target_binding_ref (tm_accepted m)) = Some x
    /\ rt_source_binding_ref x = am_source_binding_ref (tm_accepted m);
  mo_participant : exists t,
    cs_threads s !! mk_ThreadKey (am_tenant_id (tm_accepted m)) (am_thread_id (tm_accepted m)) = Some t
    /\ ta_user_id (am_actor (tm_accepted m)) ∈ th_participants t }.

(** A stored replay is that of a message, with the resolution of its binding then. *)
Definition replay_ok (s : InMemoryState) (k : AcceptedMessageReplayKey)
    (x : StoredAcceptedMessageReplay) : Prop :=
  exists m b b0, m ∈ cs_messages s /\ rp_accepted_message (sa_replay x) = tm_accepted m
  /\ pk_external_event_id k = tm_external_event_id m
  /\ cs_source_bindings s !! ref_str (am_source_binding_ref (tm_accepted m)) = Some b
  /\ pk_tenant_id k = br_tenant_id b /\ pk_adapter_kind k = br_adapter_kind b
  /\ pk_adapter_installation_id k = br_adapter_installation_id b
  /\ sa_external_conversation_identity x = br_external_conversation_identity b
  /\ binding_evolves b0 b
  /\ rp_resolution (sa_replay x)
     = BindingRecord_resolution b0 (ta_user_id (am_actor (tm_accepted m))) (am_tenant_id (tm_accepted m)).

Record conv_inv (s : InMemoryState) : Prop := {
  ci_binding k b : cs_bindings s !! k = Some b -> k = binding_key_of b /\ binding_ok s b;
  ci_source r b : cs_source_bindings s !! r = Some b ->
    r = ref_str (br_source_binding_ref b) /\ cs_bindings s !! binding_key_of b = Some b;
  ci_reply r x : cs_reply_targets s !! r = Some x ->
    r = ref_str (rt_reply_target_binding_ref x)
    /\ exists b, cs_source_bindings s !! ref_str (rt_source_binding_ref x) = Some b /\ targets x b;
  ci_message m : m ∈ cs_messages s -> message_ok s m;
  ci_idem k a : cs_message_idempotency s !! k = Some a ->
    exists m, m ∈ cs_messages s /\ tm_accepted m = a /\ k = message_key m;
  ci_replay k x : cs_message_replays s !! k = Some x -> replay_ok s k x;
  ci_once : NoDup (message_key <$> cs_messages s);
  ci_refs : NoDup (message_ref <$> cs_messages s) }.

Lemma default_inv : conv_inv InMemoryState_default.
Proof.
  split; simpl; try (intros ? ?; rewrite lookup_empty; done); try by constructor.
  intros m Hm. by apply not_elem_of_nil in Hm.
Qed.

(** *** Stability *)

Lemma binding_evolves_same b b' :
  binding_evolves b b' ->
  binding_key_of b' = binding_key_of b /\ thread_key_of b' = thread_key_of b
  /\ br_agent_id b' = br_agent_id b /\ br_project_id b' = br_project_id b
  /\ br_source_binding_ref b' = br_source_binding_ref b
  /\ br_reply_target_binding_ref b' = br_reply_target_binding_ref b
  /\ br_external_conversation_ref b' = br_external_conversation_ref b
  /\ access_evolves (br_route_access b) (br_route_access b').
Proof. by intros (access & owner & -> & Ha & _). Qed.

Lemma targets_evolves x b b' : binding_evolves b b' -> targets x b -> targets x b'.
Proof.
  intros (access & owner & -> & Ha & _) (H1 & H2 & H3 & H4 & H5 & H6 & H7).
  split_and!; try done. by etrans.
Qed.

Lemma message_ok_mono s s' m : evolves s s' -> message_ok s m -> message_ok s' m.
Proof.
  intros He []. split; try done.
  - by eapply lookup_weaken; [|apply He].
  - destruct mo_binding0 as (b & Hb & Ht & Hth & Hr).
    destruct (ev_sources _ _ He _ _ Hb) as (b' & Hb' & Hev). exists b'.
    destruct Hev as (access & owner & -> & _). split_and!; [done..|].
    by eapply lookup_weaken; [|apply He].
  - destruct mo_reply0 as (x & Hx & Hs). destruct (ev_replies _ _ He _ _ Hx) as (x' & Hx' & a & -> & _).
    by exists (with_reply_access x a).
  - destruct mo_participant0 as (t & Ht & Hin). destruct (ev_threads _ _ He _ _ Ht) as (t' & Ht' & _ & _ & Hsub).
    exists t'. set_solver.
Qed.

Lemma replay_ok_mono s s' k x : evolves s s' -> replay_ok s k x -> replay_ok s' k x.
Proof.
  intros He (m & b & b0 & Hm & H1 & H2 & Hb & H3 & H4 & H5 & H6 & Hev0 & Hr).
  destruct (ev_sources _ _ He _ _ Hb) as (b' & Hb' & Hev). exists m, b', b0.
  assert (binding_evolves b0 b') as Hev' by by etrans.
  destruct Hev as (access & owner & -> & _). split_and!; try done.
  destruct (ev_messages _ _ He) as [l ->]. apply elem_of_app. by left.
Qed.

(** A step keeps the invariant. *)
Definition step_ok (s s' : InMemoryState) : Prop := conv_inv s' /\ evolves s s'.

Lemma step_ok_trans s1 s2 s3 : step_ok s1 s2 -> step_ok s2 s3 -> step_ok s1 s3.
Proof. intros [_ H1] [H2 H3]. split; [done|]. by etrans. Qed.

(** The bindings and the messages stay as they are. *)
Lemma inv_frame s s' :
  conv_inv s ->
  cs_bindings s' = cs_bindings s -> cs_source_bindings s' = cs_source_bindings s ->
  cs_reply_targets s' = cs_reply_targets s ->
  entries_evolve thread_evolves (cs_threads s) (cs_threads s') ->
  cs_external_event_routes s ⊆ cs_external_event_routes s' ->
  cs_message_idempotency s' = cs_message_idempotency s ->
  cs_message_replays s' = cs_message_replays s ->
  dom (cs_submitted_message_responses s) ⊆ dom (cs_submitted_message_responses s') ->
  cs_messages s' = cs_messages s -> step_ok s s'.
Proof.
  intros [] Hb Hs Hr Ht He Hi Hp Hd Hm.
  assert (evolves s s') as Hev.
  { split; rewrite ?Hb, ?Hs, ?Hr, ?Hi, ?Hp, ?Hm; done. }
  split; [|done]. split; rewrite ?Hb, ?Hs, ?Hr, ?Hi, ?Hp, ?Hm; try done.
  - intros k b (Hk & Hok)%ci_binding0. split; [done|]. destruct Hok as [H1 H2 H3 (t & H4 & H5 & H6)].
    split; rewrite ?Hs, ?Hr; try done. destruct (Ht _ _ H4) as (t' & Ht' & Ha & Hpr & _).
    exists t'. by rewrite Ha, Hpr.
  - intros m Hin. by eapply message_ok_mono, ci_message0.
  - intros k x Hx. by eapply replay_ok_mono, ci_replay0.
Qed.

Lemma targets_own b :
  br_external_conversation_identity b = identity (br_external_conversation_ref b) ->
  targets (ReplyTargetRecord_from_binding b (br_external_conversation_ref b)) b.
Proof. by intros Hi. Qed.

(** *** A new binding *)

Lemma inv_store_binding k b s :
  conv_inv s -> cs_bindings s !! k = None -> k = binding_key_of b ->
  cs_source_bindings s !! ref_str (br_source_binding_ref b) = None ->
  cs_reply_targets s !! ref_str (br_reply_target_binding_ref b) = None ->
  br_external_conversation_identity b = identity (br_external_conversation_ref b) ->
  (exists t, cs_threads s !! thread_key_of b = Some t
     /\ th_agent_id t = br_agent_id b /\ th_project_id t = br_project_id b) ->
  step_ok s (store_binding k b s).
Proof.
  intros [] Hk -> Hs Hr Hi Ht.
  assert (evolves s (store_binding (binding_key_of b) b s)) as Hev.
  { split; try done; apply entries_insert; try apply _; intros v Hv; simpl in *; congruence. }
  split; [|done]. split; simpl; try done.
  - intros k' b' [(<- & <-)|[Hne Hl]]%lookup_insert_Some.
    + split; [done|]. split; simpl; [by rewrite lookup_insert_eq.. | done | done].
    + destruct (ci_binding0 _ _ Hl) as (-> & [H1 H2 H3 H4]). split; [done|].
      split; simpl; [..|done|done]; rewrite lookup_insert_ne; try done; intros He; congruence.
  - intros r b' [(<- & <-)|[Hne Hl]]%lookup_insert_Some; [by rewrite lookup_insert_eq|].
    destruct (ci_source0 _ _ Hl) as [-> Hb]. split; [done|].
    rewrite lookup_insert_ne; [done|]. intros He. congruence.
  - intros r x [(<- & <-)|[Hne Hl]]%lookup_insert_Some.
    + split; [done|]. exists b. simpl. rewrite lookup_insert_eq. split; [done | by apply targets_own].
    + destruct (ci_reply0 _ _ Hl) as [-> (b' & Hb' & Hx)]. split; [done|]. exists b'.
      split; [|done]. rewrite lookup_insert_ne; [done|]. intros He. congruence.
  - intros m Hm. by eapply message_ok_mono, ci_message0.
  - intros k x Hx. by eapply replay_ok_mono, ci_replay0.
Qed.

(** *** A binding shared or owned *)

(** One source reference, and one reply reference, is one binding. *)
Lemma binding_refs_inj s b1 b2 :
  conv_inv s -> cs_bindings s !! binding_key_of b1 = Some b1 -> cs_bindings s !! binding_key_of b2 = Some b2 ->
  ref_str (br_source_binding_ref b1) = ref_str (br_source_binding_ref b2)
  \/ ref_str (br_reply_target_binding_ref b1) = ref_str (br_reply_target_binding_ref b2) -> b1 = b2.
Proof.
  intros [] [_ [S1 R1 _ _] ]%ci_binding0 [_ [S2 R2 _ _] ]%ci_binding0 [He|He].
  - congruence.
  - rewrite He, R2 in R1. injection R1 as _ _ _ _ _ Hs _ _. congruence.
Qed.

(** The targets of a binding that evolved are targets of what it became. *)
Lemma targets_insert f b x b' (sources : gmap string BindingRecord) :
  binding_evolves b (f b) -> sources !! ref_str (br_source_binding_ref b) = Some b ->
  sources !! ref_str (rt_source_binding_ref x) = Some b' -> targets x b' ->
  exists b2, <[ref_str (br_source_binding_ref b) := f b]> sources !! ref_str (rt_source_binding_ref x) = Some b2
    /\ targets x b2.
Proof.
  intros Hf Hb Hb' Hx.
  destruct (decide (ref_str (rt_source_binding_ref x) = ref_str (br_source_binding_ref b))) as [He|Hne].
  - rewrite He, lookup_insert_eq. exists (f b). split; [done|]. rewrite He in Hb'.
    assert (b' = b) as -> by congruence. by eapply targets_evolves.
  - exists b'. by rewrite lookup_insert_ne.
Qed.

(** The reply target that [store_binding] makes, of the binding as it evolved. *)
Lemma evolved_target b b' (x : ReplyTargetRecord) :
  binding_evolves b b' -> x = ReplyTargetRecord_from_binding b (br_external_conversation_ref b) ->
  reply_evolves x (ReplyTargetRecord_from_binding b' (br_external_conversation_ref b)).
Proof. intros (access & owner & -> & He & _) ->. by exists access. Qed.

Lemma inv_map_binding k b s (f : BindingRecord -> BindingRecord)
    (g : ReplyTargetRecord -> ReplyTargetRecord) :
  conv_inv s -> cs_bindings s !! k = Some b ->
  binding_evolves b (f b) ->
  (forall c, g (ReplyTargetRecord_from_binding b c) = ReplyTargetRecord_from_binding (f b) c) ->
  step_ok s (set_routes (<[k := f b]> (cs_bindings s))
               (alter f (ref_str (br_source_binding_ref b)) (cs_source_bindings s))
               (alter g (ref_str (br_reply_target_binding_ref b)) (cs_reply_targets s)) s).
Proof.
  intros Hinv Hk Hf Hg. pose proof Hinv as []. destruct (ci_binding0 _ _ Hk) as (-> & [Hsrc Hrep Hid Hth]).
  destruct (binding_evolves_same _ _ Hf) as (Hkey & Hthr & Ha & Hp & Hs & Hr & Hc & Hacc).
  set (s' := set_routes _ _ _ s).
  assert (alter f (ref_str (br_source_binding_ref b)) (cs_source_bindings s)
          = <[ref_str (br_source_binding_ref b) := f b]> (cs_source_bindings s)) as Hsrc'.
  { by apply alter_is_insert. }
  assert (alter g (ref_str (br_reply_target_binding_ref b)) (cs_reply_targets s)
          = <[ref_str (br_reply_target_binding_ref b) :=
                ReplyTargetRecord_from_binding (f b) (br_external_conversation_ref b)]>
              (cs_reply_targets s)) as Hrep'.
  { rewrite <- Hg. by apply alter_is_insert. }
  assert (evolves s s') as Hev.
  { split; try done; unfold s'; simpl; rewrite ?Hsrc', ?Hrep'; apply entries_insert; try apply _.
    - intros v Hv. by simplify_eq.
    - intros v Hv. by simplify_eq.
    - intros v Hv. apply (evolved_target b); [done|]. congruence. }
  split; [|done]. split; unfold s'; simpl; rewrite ?Hsrc', ?Hrep'; try done.
  - intros k' b' [(<- & <-)|[Hne Hl]]%lookup_insert_Some.
    + split; [done|]. split; simpl; rewrite ?Hsrc', ?Hrep', ?Hs, ?Hr, ?Hc, ?lookup_insert_eq; try done.
      * destruct Hf as (access & owner & -> & _). done.
      * by rewrite Hthr, Ha, Hp.
    + destruct (ci_binding0 _ _ Hl) as (-> & [H1 H2 H3 H4]). split; [done|].
      split; simpl; rewrite ?Hsrc', ?Hrep'; [..|done|done]; rewrite lookup_insert_ne; try done;
        intros He; assert (b = b') as -> by (apply (binding_refs_inj s); auto); done.
  - intros r b' [(<- & <-)|[Hne Hl]]%lookup_insert_Some.
    + by rewrite Hs, Hkey, lookup_insert_eq.
    + destruct (ci_source0 _ _ Hl) as [-> Hb']. split; [done|].
      rewrite lookup_insert_ne; [done|]. intros He. rewrite He in Hk. congruence.
  - intros r x [(<- & <-)|[Hne Hl]]%lookup_insert_Some.
    + simpl. rewrite Hr. split; [done|]. exists (f b). rewrite Hs, lookup_insert_eq. split; [done|].
      rewrite <- Hc. apply targets_own. rewrite Hc. destruct Hf as (access & owner & -> & _). done.
    + destruct (ci_reply0 _ _ Hl) as [-> (b' & Hb' & Hx)]. split; [done|]. by eapply targets_insert.
  - intros m Hm. rewrite <- Hsrc', <- Hrep'. by eapply message_ok_mono, ci_message0.
  - intros k x Hx. rewrite <- Hsrc', <- Hrep'. by eapply replay_ok_mono, ci_replay0.
Qed.

(** *** A message *)

(** A replay of the event of a binding is that of a message of the binding. *)
Lemma replay_has_message s k x b :
  conv_inv s -> cs_message_replays s !! k = Some x ->
  cs_source_bindings s !! ref_str (br_source_binding_ref b) = Some b ->
  br_tenant_id b = pk_tenant_id k -> br_adapter_kind b = pk_adapter_kind k ->
  br_adapter_installation_id b = pk_adapter_installation_id k ->
  cs_external_event_routes s !! event_key_of b (pk_external_event_id k)
    = Some (br_external_conversation_identity b) ->
  is_Some (cs_message_idempotency s !! mk_MessageIdempotencyKey (br_tenant_id b)
             (ref_str (br_source_binding_ref b)) (pk_external_event_id k)).
Proof.
  intros [] Hx Hb Hten Hkind Hinst Hroute.
  destruct (ci_replay0 _ _ Hx) as (m & b1 & b0 & Hm & _ & He & Hb1 & H1 & H2 & H3 & _).
  destruct (ci_message0 m Hm) as [_ _ Hidem (b2 & Hb2 & Ht2 & _ & Hr2) _ _].
  assert (b2 = b1) as -> by congruence.
  assert (event_key_of b1 (tm_external_event_id m) = event_key_of b (pk_external_event_id k)) as Hek.
  { unfold event_key_of. congruence. }
  rewrite Hek, Hroute in Hr2. injection Hr2 as Hr2.
  assert (binding_key_of b1 = binding_key_of b) as Hbk. { unfold binding_key_of. congruence. }
  destruct (ci_source0 _ _ Hb1) as [Hs1 Hbb1], (ci_source0 _ _ Hb) as [Hs2 Hbb].
  assert (b1 = b) as -> by congruence. exists (tm_accepted m). unfold message_key in Hidem. congruence.
Qed.

(** A field of the messages stays without duplicates when a new one is added. *)
Lemma NoDup_field {A} (f : ThreadMessageRecord -> A) l m :
  NoDup (f <$> l) -> (forall m', m' ∈ l -> f m' <> f m) -> NoDup (f <$> (l ++ [m])).
Proof.
  intros Hl Hm. rewrite fmap_app. apply NoDup_app. split; [done|]. split; [|apply NoDup_singleton].
  intros k (m' & -> & Hin)%list_elem_of_fmap Hk. apply list_elem_of_singleton in Hk. by eapply Hm.
Qed.

Lemma inv_message request b t x reply_ref mref s :
  conv_inv s ->
  let s1 := set_routes (cs_bindings s) (cs_source_bindings s)
              (<[ref_str reply_ref := with_reply_target x reply_ref (aq_external_conversation_ref request)]>
                 (cs_reply_targets s)) s in
  cs_source_bindings s !! ref_str (aq_source_binding_ref request) = Some b ->
  br_tenant_id b = aq_tenant_id request -> br_thread_id b = aq_thread_id request ->
  br_adapter_kind b = aq_adapter_kind request ->
  br_adapter_installation_id b = aq_adapter_installation_id request ->
  identity (aq_external_conversation_ref request) = br_external_conversation_identity b ->
  cs_external_event_routes s !! event_key_of b (aq_external_event_id request)
    = Some (br_external_conversation_identity b) ->
  cs_reply_targets s !! ref_str (aq_reply_target_binding_ref request) = Some x ->
  rt_source_binding_ref x = aq_source_binding_ref request ->
  cs_threads s !! mk_ThreadKey (aq_tenant_id request) (aq_thread_id request) = Some t ->
  ta_user_id (aq_actor request) ∈ th_participants t ->
  cs_message_idempotency s !! mk_MessageIdempotencyKey (aq_tenant_id request)
    (ref_str (aq_source_binding_ref request)) (aq_external_event_id request) = None ->
  cs_reply_targets s !! ref_str reply_ref = None ->
  (forall m, m ∈ cs_messages s -> message_ref m <> mref) ->
  step_ok s (store_message request b (accepted_of request mref reply_ref) s1).
Proof.
  intros Hinv s1 Hb Hten Hthr Hkind Hinst Hid Hroute Hx Hxs Ht Hpart Hnew Hfr Hmref.
  pose proof Hinv as []. set (s' := store_message _ _ _ s1).
  set (rec := mk_ThreadMessageRecord (accepted_of request mref reply_ref) (aq_actor request)
                (aq_external_event_id request) (aq_content_ref request) (aq_received_at request)).
  assert (cs_messages s' = cs_messages s ++ [rec]) as Hmsgs by done.
  set (rk := mk_AcceptedMessageReplayKey (aq_tenant_id request) (aq_adapter_kind request)
    (aq_adapter_installation_id request) (aq_external_actor_ref request) (aq_external_event_id request)).
  assert (cs_message_replays s !! rk = None) as Hnorep.
  { destruct (cs_message_replays s !! rk) as [y|] eqn:Hy; [|done]. exfalso.
    destruct (ci_source0 _ _ Hb) as [Href _].
    destruct (replay_has_message s rk y b Hinv Hy) as [a Ha]; try done; [by rewrite <- Href|].
    rewrite <- Href, Hten in Ha. cbn in Ha. congruence. }
  assert (evolves s s') as Hev.
  { split; try done; unfold s'; simpl.
    - apply entries_insert; [apply _|]. intros v Hv. congruence.
    - by apply insert_subseteq.
    - by apply insert_subseteq.
    - by apply prefix_app_r. }
  assert (message_ok s' rec) as Hrec.
  { split; simpl; try done.
    - by rewrite lookup_insert_eq.
    - exists b. done.
    - exists (with_reply_target x reply_ref (aq_external_conversation_ref request)).
      by rewrite lookup_insert_eq.
    - by exists t. }
  split; [|done]. split; try done.
  - intros k b' Hl. destruct (ci_binding0 _ _ Hl) as (-> & [H1 H2 H3 H4]). split; [done|].
    split; try done. simpl. rewrite lookup_insert_ne; [done|]. intros He. congruence.
  - intros r y. simpl. intros [(<- & <-)|[Hne Hl]]%lookup_insert_Some; [|by apply ci_reply0].
    split; [done|]. simpl. destruct (ci_reply0 _ _ Hx) as (_ & b' & Hb' & H1 & H2 & H3 & H4 & H5 & H6 & H7).
    exists b'. assert (b' = b) as -> by congruence. split; [done|]. by split_and!.
  - intros m. rewrite Hmsgs. intros [Hm|Hm]%elem_of_app.
    2: { apply list_elem_of_singleton in Hm as ->. done. }
    by eapply message_ok_mono, ci_message0.
  - intros k a. simpl. intros [(<- & <-)|[Hne Hl]]%lookup_insert_Some.
    + exists rec. split; [|done]. apply elem_of_app. right. by apply list_elem_of_singleton.
    + destruct (ci_idem0 _ _ Hl) as (m & Hm & H1). exists m. split; [|done]. apply elem_of_app. by left.
  - intros k y. simpl. intros [(<- & <-)|[Hne Hl]]%lookup_insert_Some; [|by eapply replay_ok_mono, ci_replay0].
    exists rec, b, b. split_and!; try done.
    apply elem_of_app. right. by apply list_elem_of_singleton.
  - rewrite Hmsgs. apply NoDup_field; [done|]. intros m Hm Hk.
    destruct (ci_message0 m Hm) as [_ _ Hidem _ _ _]. rewrite Hk in Hidem. change (message_key rec) with (mk_MessageIdempotencyKey (aq_tenant_id request)
      (ref_str (aq_source_binding_ref request)) (aq_external_event_id request)) in Hidem. congruence.
  - rewrite Hmsgs. by apply NoDup_field.
Qed.

(** ** Parts of the state that a section leaves alone *)

Definition keeps {T A} (f : InMemoryState -> T) (m : ST A) : Prop := forall st, f (m st).1 = f st.

Lemma keeps_bind {T A B} (f : InMemoryState -> T) (m : ST A) (k : A -> ST B) :
  keeps f m -> (forall a, keeps f (k a)) -> keeps f (st_bind m k).
Proof.
  intros Hm Hk st. specialize (Hm st). unfold st_bind. destruct (m st) as [st' [a|e] ]; [|done].
  by rewrite Hk.
Qed.

(** Go through the section of a call: none of its writes reaches the part. *)
Ltac walk_keeps :=
  cbn [conv_section]; unfold committing, reading, try_pair_external_actor,
    try_unpair_external_actor, lookup_binding, resolve_or_create_binding_inner, resolve_existing,
    create_binding, link_conversation_to_thread, validate_reply_target, accept_inbound_message,
    insert_message, replay_accepted_inbound_message, inbound_message_turn_submission,
    inbound_message_turn_submission_key, rotate_inbound_message_turn_submission_key,
    mark_inbound_message_turn_submitted, record_external_event_route, widen_if_shared, deny_unless;
  repeat first [apply keeps_bind; [|intros ?] | case_match | by intros ?];
  try (intros st; unfold widen_binding_route_access, set_binding_owner, add_thread_participant;
       by destruct (_ !! _)).
Ltac solve_keeps c := destruct c; walk_keeps.

(** ** Every section keeps the invariant, and does nothing when it fails *)

Section Sections.
Context {U : UuidText} {US : UuidShape U}.
Variable host_error_text : HostApiError -> string.

(** The UUIDs drawn are new: no identifier made of one is in the state. *)
Record fresh_ok (fresh : ConvFresh) (s : InMemoryState) : Prop := {
  fr_source : cs_source_bindings s !! ("source:" +:+ uuid_text (cf_source fresh)) = None;
  fr_reply : cs_reply_targets s !! ("reply:" +:+ uuid_text (cf_reply fresh)) = None;
  fr_thread : forall t, cs_threads s !! mk_ThreadKey t (from_trusted (uuid_text (cf_thread fresh))) = None;
  fr_message : forall m, m ∈ cs_messages s ->
    message_ref m <> trusted_ref ("message:" +:+ uuid_text (cf_message fresh));
  fr_key : forall m k, cs_submission_keys s !! m = Some k ->
    k <> trusted_ref ("submit:" +:+ uuid_text (cf_key fresh)) }.

Definition section_post {A} (s s' : InMemoryState) (r : result A InboundTurnError) : Prop :=
  step_ok s s' /\ (forall e, r = Err e -> s' = s).

Lemma post_same {A} s (r : result A InboundTurnError) : conv_inv s -> section_post s s r.
Proof. by intros Hs. Qed.
Lemma post_ok {A} s s' (a : A) : step_ok s s' -> section_post s s' (Ok a).
Proof. by intros Hs. Qed.

Lemma thread_for_participant_ok tenant user thread s t :
  thread_for_participant tenant user thread s = Ok t ->
  cs_threads s !! mk_ThreadKey tenant thread = Some t /\ user ∈ th_participants t.
Proof.
  unfold thread_for_participant. destruct (_ !! _) as [t'|]; [|done].
  case_bool_decide; [|done]. by intros [= <-].
Qed.
Lemma ensure_participant_ok tenant user thread s u :
  ensure_participant tenant user thread s = Ok u ->
  exists t, cs_threads s !! mk_ThreadKey tenant thread = Some t /\ user ∈ th_participants t.
Proof.
  unfold ensure_participant. destruct (thread_for_participant _ _ _ _) as [t|] eqn:Ht; [|done].
  intros _. exists t. by apply thread_for_participant_ok.
Qed.
Lemma ensure_event_ok key ident user s u :
  ensure_external_event_route key ident user s = Ok u ->
  cs_external_event_routes s !! key = None \/ cs_external_event_routes s !! key = Some ident.
Proof.
  unfold ensure_external_event_route. destruct (_ !! _) as [i|]; [|by left].
  case_bool_decide; [subst; by right | done].
Qed.
Lemma ensure_event_intro key ident user s :
  cs_external_event_routes s !! key = None \/ cs_external_event_routes s !! key = Some ident ->
  ensure_external_event_route key ident user s = Ok tt.
Proof.
  unfold ensure_external_event_route. intros [->| ->]; [done|]. by rewrite bool_decide_eq_true_2.
Qed.

(** Recording the route of an event that has none yet, or the same. *)
Lemma wp_record key ident user s (Q : _ -> result unit _ -> Prop) :
  cs_external_event_routes s !! key = None \/ cs_external_event_routes s !! key = Some ident ->
  Q (set_event_routes (<[key := ident]> (cs_external_event_routes s)) s) (Ok tt) ->
  st_wp (record_external_event_route key ident user) Q s.
Proof.
  intros Hk HQ. unfold record_external_event_route. st_step. st_step; [by st_step|].
  by rewrite ensure_event_intro in Hfail.
Qed.

Lemma inv_record key ident s :
  conv_inv s ->
  cs_external_event_routes s !! key = None \/ cs_external_event_routes s !! key = Some ident ->
  step_ok s (set_event_routes (<[key := ident]> (cs_external_event_routes s)) s).
Proof.
  intros Hs Hk. apply inv_frame; try done. simpl. destruct Hk as [Hk|Hk].
  - by apply insert_subseteq.
  - by rewrite insert_id.
Qed.

Lemma inv_widen k b s :
  conv_inv s -> cs_bindings s !! k = Some b ->
  step_ok s (set_routes (<[k := share_binding b]> (cs_bindings s))
               (alter share_binding (ref_str (br_source_binding_ref b)) (cs_source_bindings s))
               (alter share_reply (ref_str (br_reply_target_binding_ref b)) (cs_reply_targets s)) s).
Proof. intros Hs Hk. by apply inv_map_binding; [..|apply share_evolves|]. Qed.

Lemma inv_own k b o s :
  conv_inv s -> cs_bindings s !! k = Some b -> br_owner_user_id b = None ->
  step_ok s (set_routes (<[k := own_binding o b]> (cs_bindings s))
               (alter (own_binding o) (ref_str (br_source_binding_ref b)) (cs_source_bindings s))
               (cs_reply_targets s) s).
Proof.
  intros Hs Hk Ho.
  pose proof (inv_map_binding k b s (own_binding o) id Hs Hk (own_evolves o b Ho) (fun c => eq_refl)) as H.
  rewrite (alter_id id (cs_reply_targets s)) in H by done. exact H.
Qed.

Lemma wp_widen kind k b s0 s (Q : _ -> result unit _ -> Prop) :
  step_ok s0 s -> cs_bindings s !! k = Some b ->
  (forall s1 b1, step_ok s0 s1 -> cs_bindings s1 !! k = Some b1 -> br_owner_user_id b1 = br_owner_user_id b ->
     cs_external_event_routes s1 = cs_external_event_routes s -> Q s1 (Ok tt)) ->
  st_wp (widen_if_shared kind k) Q s.
Proof.
  intros Hs Hk HQ. unfold widen_if_shared. case_bool_decide; [|by apply (HQ s b)].
  unfold st_wp, widen_binding_route_access. rewrite Hk. simpl.
  refine (HQ _ (share_binding b) _ _ _ _); [|by simpl; rewrite lookup_insert_eq | done | done].
  eapply step_ok_trans; [exact Hs|]. apply inv_widen; [apply Hs | done].
Qed.

Lemma post_trans {A} s0 s s' (r : result A InboundTurnError) a :
  step_ok s0 s -> step_ok s s' -> r = Ok a -> section_post s0 s' r.
Proof. intros H1 H2 ->. split; [by eapply step_ok_trans | done]. Qed.

Lemma wp_resolve_existing request user agent project owner b s :
  conv_inv s -> cs_bindings s !! BindingKey_from_request request = Some b ->
  ensure_external_event_route (request_event_key request)
    (identity (cr_external_conversation_ref request)) user s = Ok tt ->
  st_wp (resolve_existing request user agent project owner b) (section_post s) s.
Proof.
  intros Hs Hb Hroute%ensure_event_ok. unfold resolve_existing.
  do 2 st_step; [|by apply post_same]. do 2 st_step; [|by apply post_same].
  do 2 st_step; [|by apply post_same]. st_step.
  apply (wp_widen _ _ b s); [by split | done|]. intros s1 b1 Hs1 Hb1 Hown Hr1. st_step.
  set (key := BindingKey_from_request request) in *.
  assert (exists s2 b2, step_ok s s2 /\ cs_bindings s2 !! key = Some b2
    /\ cs_external_event_routes s2 = cs_external_event_routes s
    /\ (match bool_decide (cr_route_kind request = Shared), br_owner_user_id b, owner with
        | true, None, Some owner_user_id => set_binding_owner key owner_user_id
        | _, _, _ => st_ret tt
        end) s1 = (s2, Ok tt)) as (s2 & b2 & Hs2 & Hb2 & Hr2 & Hrun).
  { assert (exists s2 b2, step_ok s s2 /\ cs_bindings s2 !! key = Some b2
      /\ cs_external_event_routes s2 = cs_external_event_routes s /\ st_ret tt s1 = (s2, Ok tt)) as Hsame
      by by exists s1, b1.
    destruct (bool_decide _), (br_owner_user_id b) as [o0|], owner as [o|]; try exact Hsame.
    eexists _, (own_binding o b1). split; [|split; [|split] ].
    4: unfold set_binding_owner; rewrite Hb1; done. 2: simpl; by rewrite lookup_insert_eq. 2: done.
    eapply step_ok_trans; [exact Hs1|]. apply inv_own; [apply Hs1 | done | done]. }
  unfold st_wp at 1. rewrite Hrun. cbn [fst snd]. st_step.
  apply wp_record; [by rewrite Hr2|]. do 2 st_step.
  - st_step. eapply post_trans; [exact Hs2 | | done]. apply inv_record; [apply Hs2 | by rewrite Hr2].
  - simpl in Hfail. by rewrite Hb2 in Hfail.
Qed.

Lemma wp_create_binding fresh request user agent project owner s :
  conv_inv s -> fresh_ok fresh s -> cs_bindings s !! BindingKey_from_request request = None ->
  ensure_external_event_route (request_event_key request)
    (identity (cr_external_conversation_ref request)) user s = Ok tt ->
  st_wp (create_binding fresh host_error_text request user agent project owner) (section_post s) s.
Proof.
  intros Hs Hf Hb Hroute%ensure_event_ok. unfold create_binding. do 2 st_step; [|by apply post_same].
  rewrite new_thread_ok in Hread. injection Hread as <-. do 2 st_step.
  set (tid := from_trusted (uuid_text (cf_thread fresh))).
  match goal with |- st_wp _ _ ?x => set (s1 := x) end.
  assert (step_ok s s1) as Hs1.
  { apply inv_frame; try done. simpl. apply entries_insert; [apply _|].
    intros t Ht. by rewrite (fr_thread _ _ Hf) in Ht. }
  do 2 st_step; [|by rewrite BindingRecord_new_ok in Hfail].
  rewrite BindingRecord_new_ok in Hread. injection Hread as <-. do 2 st_step.
  set (b := new_binding _ _ _ _ _ _ _). set (key := BindingKey_from_request request) in *.
  assert (step_ok s1 (store_binding key b s1)) as Hs2.
  { apply inv_store_binding; try done; [apply Hs1 | apply Hf | apply Hf|].
    exists (mk_ThreadRecord agent project {[user]}). split; [|by split].
    unfold thread_key_of. simpl. by rewrite lookup_insert_eq. }
  st_step. apply wp_record; [done|]. st_step.
  eapply post_trans; [by eapply step_ok_trans | | done]. apply inv_record; [apply Hs2 | done].
Qed.

Lemma wp_resolve fresh request agent project owner s :
  conv_inv s -> fresh_ok fresh s ->
  st_wp (resolve_or_create_binding_inner fresh host_error_text request agent project owner)
    (section_post s) s.
Proof.
  intros Hs Hf. unfold resolve_or_create_binding_inner.
  do 2 st_step; [|by apply post_same]. do 2 st_step; [|by apply post_same]. destruct a0.
  do 2 st_step; [|done]. injection Hread1 as <-.
  destruct (cs_bindings s !! _) as [b|] eqn:Hb.
  - by apply wp_resolve_existing.
  - by apply wp_create_binding.
Qed.

Lemma wp_link fresh request s :
  conv_inv s -> fresh_ok fresh s ->
  st_wp (link_conversation_to_thread fresh request) (section_post s) s.
Proof.
  intros Hs Hf. unfold link_conversation_to_thread.
  do 2 st_step; [|by apply post_same]. do 2 st_step; [|by apply post_same].
  apply thread_for_participant_ok in Hread0 as [Ht Hin].
  do 2 st_step; [|done]. injection Hread0 as <-. destruct (cs_bindings s !! _) as [b|] eqn:Hb.
  - case_bool_decide; [|st_step; by apply post_same].
    do 2 st_step; [|by apply post_same]. st_step. eapply wp_widen; [by split | done|].
    intros s1 b1 Hs1 Hb1 _ _. do 2 st_step; [st_step; by apply post_ok|].
    simpl in Hfail. by rewrite Hb1 in Hfail.
  - do 2 st_step; [|by apply post_same]. rewrite BindingRecord_new_ok in Hread0. injection Hread0 as <-.
    do 2 st_step. st_step. apply post_ok.
    apply inv_store_binding; try done; [apply Hf | apply Hf | by exists a0].
Qed.

(** What the references of a request must agree on. *)
Lemma refs_match_ok s v u :
  ensure_binding_refs_match s v = Ok u ->
  exists b x, cs_source_bindings s !! bv_source_binding_ref v = Some b
  /\ cs_reply_targets s !! bv_reply_target_binding_ref v = Some x
  /\ br_tenant_id b = bv_tenant_id v /\ br_thread_id b = bv_thread_id v
  /\ br_adapter_kind b = ak_adapter_kind (bv_route_actor_key v)
  /\ br_adapter_installation_id b = ak_adapter_installation_id (bv_route_actor_key v)
  /\ ref_str (br_source_binding_ref b) = bv_source_binding_ref v
  /\ rt_source_binding_ref x = br_source_binding_ref b.
Proof.
  unfold ensure_binding_refs_match. destruct (cs_source_bindings s !! _) as [b|]; [|done].
  destruct (cs_reply_targets s !! _) as [x|]; [|done].
  destruct (_ || _) eqn:Hor; [done|]. intros _. exists b, x.
  repeat match goal with H : _ || _ = false |- _ => apply orb_false_iff in H as [H ?] end.
  repeat match goal with H : negb (bool_decide _) = false |- _ =>
    apply negb_false_iff, bool_decide_eq_true in H end.
  by split_and!.
Qed.

Lemma ref_str_inj {k} (a b : turn_ref k) : ref_str a = ref_str b -> a = b.
Proof. destruct a, b. simpl. by intros ->. Qed.

Lemma wp_accept fresh request s :
  conv_inv s -> fresh_ok fresh s -> st_wp (accept_inbound_message fresh request) (section_post s) s.
Proof.
  intros Hs Hf. unfold accept_inbound_message. pose proof (@post_same) as Hsame.
  do 2 st_step; [|by apply Hsame]. do 2 st_step; [|by apply Hsame]. apply bool_decide_eq_true in H as ->.
  do 2 st_step; [|by apply Hsame]. apply ensure_participant_ok in Hread0 as (t & Ht & Hin).
  do 2 st_step; [|by apply Hsame]. apply refs_match_ok in Hread0 as (b & x & Hb & Hx & H1 & H2 & H3 & H4 & H5 & H6).
  cbn in Hb, Hx, H1, H2, H3, H4, H5.
  do 2 st_step; [|by apply Hsame]. rewrite Hb in Hread0. injection Hread0 as <-.
  do 2 st_step; [|by apply Hsame]. apply bool_decide_eq_true in H.
  do 2 st_step; [|by apply Hsame]. apply ensure_event_ok in Hread0.
  do 2 st_step; [|done]. injection Hread1 as <-.
  destruct (cs_message_idempotency s !! _) as [old|] eqn:Hold; [st_step; by apply Hsame|].
  unfold insert_message. do 2 st_step; [|by apply Hsame].
  rewrite prefixed_ref_ok in Hread1 by done. injection Hread1 as <-.
  do 2 st_step; [|by apply Hsame]. rewrite Hx in Hread1. injection Hread1 as <-.
  assert (mk_ExternalEventRouteKey (aq_tenant_id request) (br_adapter_kind b)
    (br_adapter_installation_id b) (aq_external_event_id request)
    = event_key_of b (aq_external_event_id request)) as Hkey by (unfold event_key_of; by rewrite H1).
  rewrite Hkey in *. rewrite <- H in *. st_step. apply wp_record; [done|].
  pose proof (inv_record _ _ s Hs Hread0) as Hs1.
  match goal with |- context [st_wp _ _ ?y] => set (s1 := y) in * end.
  do 2 st_step; [|by rewrite prefixed_ref_ok in Hfail by done].
  rewrite prefixed_ref_ok in Hread1 by done. injection Hread1 as <-. do 4 st_step. st_step.
  eapply post_trans; [exact Hs1 | | done].
  apply (inv_message request b t x (trusted_ref _) (trusted_ref _) s1); try done; try apply Hs1.
  - simpl. by rewrite lookup_insert_eq.
  - rewrite H6. by apply ref_str_inj.
  - apply Hf.
  - apply (fr_message _ _ Hf).
Qed.

Lemma add_participant_evolves user (t : ThreadRecord) :
  thread_evolves t (mk_ThreadRecord (th_agent_id t) (th_project_id t) ({[user]} ∪ th_participants t)).
Proof. split_and!; [done | done | simpl; set_solver]. Qed.

(** A section of the state, whatever its outcome. *)
Lemma wp_section fresh A (c : conv_call A) s :
  conv_inv s -> fresh_ok fresh s ->
  st_wp (conv_section fresh host_error_text c) (section_post s) s.
Proof.
  intros Hs Hf.
  assert (forall A (m : ST A) d, st_wp m (section_post s) s ->
    st_wp (let$ a := m in st_ret (d a : done_with A)) (section_post s) s) as Hlift.
  { intros B m d Hm. apply st_wp_bind. eapply st_wp_mono; [|exact Hm]. intros s' [b|e] [H1 H2].
    - st_step. by apply post_ok.
    - split; [done|]. intros e' _. by eapply H2. }
  assert (forall f, step_ok s (f s) -> st_wp (st_modify f) (section_post s) s) as Hmod.
  { intros f Hok. st_step. by apply post_ok. }
  destruct c; cbn [conv_section]; unfold committing, reading; try apply Hlift.
  - by apply Hmod, inv_frame.
  - by apply Hmod, inv_frame.
  - unfold st_wp, add_thread_participant. destruct (_ !! _) as [t|] eqn:Ht; [|by apply post_same].
    apply post_ok, inv_frame; try done. simpl. apply entries_insert; [apply _|].
    intros t0 Ht0. assert (t0 = t) as -> by congruence. apply add_participant_evolves.
  - unfold lookup_binding. repeat (st_step || by apply post_same).
  - by apply wp_resolve.
  - by apply wp_link.
  - unfold validate_reply_target. repeat (st_step || by apply post_same).
  - by apply wp_accept.
  - unfold replay_accepted_inbound_message. do 2 st_step; [|done].
    destruct a; repeat (st_step || by apply post_same).
  - unfold inbound_message_turn_submission. repeat (st_step || by apply post_same).
  - unfold inbound_message_turn_submission_key. do 2 st_step; [|done]. destruct a; [st_step; by apply post_same|].
    do 2 st_step; [|by apply post_same]. do 3 st_step. by apply post_ok, inv_frame.
  - unfold rotate_inbound_message_turn_submission_key. do 2 st_step; [|by apply post_same].
    st_step. by apply post_ok, inv_frame.
  - apply Hmod, inv_frame; try done. simpl. rewrite dom_insert. set_solver.
Qed.

End Sections.
