(* ===== verification/ConvSafety.v ===== *)
(** * Conversations: the theorems

    What the states that the sections reach have in common, and what a later call answers:
    an external event is accepted as at most one message, from a participant of the
    thread, and delivering it again answers that message; an external conversation stays
    with its thread; a call that fails changes nothing. *)

From S2P Require Import Prelude Effects External HostIds HostTypes RunProfile TurnTypes ConvTypes.
From S2P Require Import Conversations ConvInvariants.
Open Scope Z_scope.

Section Reach.
Context {U : UuidText} {US : UuidShape U}.
Variable host_error_text : HostApiError -> string.

(** One section, of any method and with any outcome, or a new revision of the repository. *)
Inductive conv_step : InMemoryState -> InMemoryState -> Prop :=
| cv_section fresh A (c : conv_call A) s s' r :
    fresh_ok fresh s -> conv_section fresh host_error_text c s = (s', r) -> conv_step s s'
| cv_revision s revision : conv_step s (set_revision revision s).

Definition conv_reachable : InMemoryState -> Prop := rtc conv_step InMemoryState_default.

Lemma section_post_run fresh A (c : conv_call A) s s' r :
  conv_inv s -> fresh_ok fresh s -> conv_section fresh host_error_text c s = (s', r) ->
  section_post s s' r.
Proof.
  intros Hs Hf Hrun. pose proof (wp_section host_error_text fresh A c s Hs Hf) as Hp.
  unfold st_wp in Hp. by rewrite Hrun in Hp.
Qed.

Lemma set_revision_ok n s : conv_inv s -> step_ok s (set_revision n s).
Proof. intros Hs. by apply inv_frame. Qed.

Lemma conv_step_ok s s' : conv_inv s -> conv_step s s' -> step_ok s s'.
Proof.
  intros Hs Hstep. destruct Hstep as [fresh A c s s' r Hf Hrun|s n].
  - apply (section_post_run _ _ _ _ _ _ Hs Hf Hrun).
  - by apply set_revision_ok.
Qed.

Lemma conv_steps_ok s s' : conv_inv s -> rtc conv_step s s' -> step_ok s s'.
Proof.
  intros Hs. induction 1 as [s|s1 s2 s3 Hstep _ IH]; [by split|].
  pose proof (conv_step_ok _ _ Hs Hstep) as Hok. eapply step_ok_trans; [exact Hok|]. apply IH, Hok.
Qed.

Lemma conv_reachable_inv s : conv_reachable s -> conv_inv s.
Proof. intros Hr. apply (conv_steps_ok _ _ default_inv Hr). Qed.

(** ** A call that fails *)

(** What a call does once its state is there. *)
Lemma section_fails fresh has_repository A (c : conv_call A) s t s' e :
  conv_inv s -> fresh_ok fresh s ->
  traces match conv_section fresh host_error_text c s with
         | (state, Err e) => Ret (state, Err e)
         | (state, Ok (Return a)) => Ret (state, Ok a)
         | (new_state, Ok (Commit a)) =>
             let! persisted := persist_state has_repository s new_state in
             Ret (persisted.1, result_map (fun _ => a) persisted.2)
         end t (s', Err e : result A InboundTurnError) ->
  s' = s.
Proof.
  intros Hs Hf. destruct (conv_section _ _ c s) as [s1 r] eqn:Hrun.
  destruct (section_post_run _ _ _ _ _ _ Hs Hf Hrun) as [_ Hfail].
  destruct r as [ [a|a]|e1]; [by intros [_ ?] | | intros [_ [= -> ->] ]; by eapply Hfail].
  destruct has_repository; [|by intros [_ ?] ]. simpl. intros (x & t' & _ & _ & H).
  destruct x; simpl in H; congruence.
Qed.

(** C24: a call that fails leaves the state of the service as it was: the state before the
    call, or, with a repository, the state that it loaded.  Whatever the call is, wherever
    in its section it fails, and also when the repository cannot be read or refuses the
    write. *)
Theorem failed_call_changes_nothing has_repository A (c : conv_call A) s t s' e :
  conv_reachable s ->
  (forall st revision, Ev RpLoad (Ok (st, revision)) ∈ t -> conv_reachable st) ->
  (forall st fresh, Ev (RpDraw st) fresh ∈ t -> fresh_ok fresh st) ->
  traces (service_call host_error_text has_repository c s) t (s', Err e) ->
  s' = s \/ exists st revision, Ev RpLoad (Ok (st, revision)) ∈ t /\ s' = set_revision revision st.
Proof.
  intros Hs%conv_reachable_inv Hloads Hdraws. unfold service_call, refresh_state_from_repository.
  destruct has_repository.
  - cbn [pbind trigger traces]. intros (x & t' & -> & Ht).
    destruct x as [ [st n]|e1]; [|destruct Ht as [_ [= -> _] ]; by left].
    cbn [result_map pbind trigger traces] in Ht. destruct Ht as (fresh & t2 & -> & Ht).
    assert (conv_reachable st) as Hst%conv_reachable_inv by (eapply Hloads, list_elem_of_here).
    right. exists st, n. split; [apply list_elem_of_here|].
    eapply section_fails; [by apply set_revision_ok | | exact Ht].
    apply Hdraws. apply list_elem_of_further, list_elem_of_here.
  - cbn [pbind trigger traces]. intros (fresh & t2 & -> & Ht). left.
    eapply section_fails; [done | | exact Ht]. apply Hdraws, list_elem_of_here.
Qed.

(** ** One message per event *)

(** The adapter's event that a message came from. *)
Definition message_origin (s : InMemoryState) (m : ThreadMessageRecord) : option ExternalEventRouteKey :=
  b ← cs_source_bindings s !! ref_str (am_source_binding_ref (tm_accepted m));
  Some (event_key_of b (tm_external_event_id m)).

Lemma message_origin_mono s s' m :
  evolves s s' -> is_some (message_origin s m) = true -> message_origin s' m = message_origin s m.
Proof.
  unfold message_origin. intros He. destruct (cs_source_bindings s !! _) as [b|] eqn:Hb; [|done].
  intros _. destruct (ev_sources _ _ He _ _ Hb) as (b' & -> & access & owner & -> & _). done.
Qed.

Lemma origin_key s m1 m2 k :
  conv_inv s -> m1 ∈ cs_messages s -> m2 ∈ cs_messages s ->
  message_origin s m1 = Some k -> message_origin s m2 = Some k -> message_key m1 = message_key m2.
Proof.
  intros Hs Hm1 Hm2. unfold message_origin.
  destruct (mo_binding _ _ (ci_message _ Hs m1 Hm1)) as (b1 & Hb1 & Ht1 & _ & Hr1).
  destruct (mo_binding _ _ (ci_message _ Hs m2 Hm2)) as (b2 & Hb2 & Ht2 & _ & Hr2).
  rewrite Hb1, Hb2. simpl. intros [= <-] [= Hten Hkind Hinst Hev].
  assert (event_key_of b2 (tm_external_event_id m2) = event_key_of b1 (tm_external_event_id m1)) as Hk.
  { unfold event_key_of. congruence. }
  rewrite Hk, Hr1 in Hr2. injection Hr2 as Hid.
  destruct (ci_source _ Hs _ _ Hb1) as [Hs1 Hk1], (ci_source _ Hs _ _ Hb2) as [Hs2 Hk2].
  assert (binding_key_of b2 = binding_key_of b1) as Hbk by (unfold binding_key_of; congruence).
  assert (b1 = b2) as -> by congruence. unfold message_key. congruence.
Qed.

Lemma origin_unique s i j m1 m2 k :
  conv_inv s -> cs_messages s !! i = Some m1 -> cs_messages s !! j = Some m2 ->
  message_origin s m1 = Some k -> message_origin s m2 = Some k -> i = j.
Proof.
  intros Hs H1 H2 Ho1 Ho2.
  assert (message_key m1 = message_key m2) as Hkey.
  { eapply origin_key; [done | by eapply list_elem_of_lookup_2.. | done | done]. }
  eapply NoDup_lookup; [apply (ci_once _ Hs)|..]; rewrite list_lookup_fmap.
  - by rewrite H1.
  - rewrite H2. simpl. by rewrite Hkey.
Qed.

Definition accept_event_key (request : AcceptInboundMessageRequest) : ExternalEventRouteKey :=
  mk_ExternalEventRouteKey (aq_tenant_id request) (aq_adapter_kind request)
    (aq_adapter_installation_id request) (aq_external_event_id request).

(** The message that an accepted request stands for: new, or the one of the event. *)
Definition accept_post (request : AcceptInboundMessageRequest) (s s' : InMemoryState)
    (r : result AcceptedInboundMessage InboundTurnError) : Prop :=
  forall a, r = Ok a -> exists m, message_origin s' m = Some (accept_event_key request)
  /\ am_source_binding_ref (tm_accepted m) = aq_source_binding_ref request
  /\ am_tenant_id (tm_accepted m) = aq_tenant_id request
  /\ ((a = tm_accepted m /\ am_idempotency a = Inserted /\ cs_messages s' = cs_messages s ++ [m])
      \/ (a = as_duplicate (tm_accepted m) /\ s' = s /\ m ∈ cs_messages s)).

Lemma wp_accept_post fresh request s :
  conv_inv s -> st_wp (accept_inbound_message fresh request) (accept_post request s) s.
Proof.
  intros Hs. unfold accept_inbound_message.
  do 2 st_step; [|done]. do 2 st_step; [|done]. do 2 st_step; [|done].
  do 2 st_step; [|done]. apply refs_match_ok in Hread1 as (b & x & Hb & Hx & H1 & H2 & H3 & H4 & H5 & H6).
  cbn in Hb, Hx, H1, H2, H3, H4, H5.
  do 2 st_step; [|done]. rewrite Hb in Hread1. injection Hread1 as <-.
  do 2 st_step; [|done]. do 2 st_step; [|done].
  do 2 st_step; [|done]. injection Hread2 as <-.
  assert (event_key_of b (aq_external_event_id request) = accept_event_key request) as Hkey.
  { unfold event_key_of, accept_event_key. congruence. }
  destruct (cs_message_idempotency s !! _) as [old|] eqn:Hold.
  - st_step. intros a' [= <-].
    destruct (ci_idem _ Hs _ _ Hold) as (m & Hm & <- & Hk). injection Hk as Hk1 Hk2 Hk3.
    exists m. split_and!; [|by apply ref_str_inj | done | by right].
    unfold message_origin. rewrite <- Hk2, Hb. simpl. by rewrite <- Hk3, Hkey.
  - unfold insert_message, record_external_event_route. repeat (st_step; try done). intros a' [= <-].
    eexists. split; [|split; [|split; [|left; split; [|split] ] ] ]. 6: reflexivity. 2-5: reflexivity.
    unfold message_origin. simpl. by rewrite Hb, <- Hkey.
Qed.

Lemma accept_run fresh request s s' a :
  conv_inv s -> conv_section fresh host_error_text (CvAccept request) s = (s', Ok (Commit a)) ->
  accept_post request s s' (Ok a).
Proof.
  intros Hs Hrun. pose proof (wp_accept_post fresh request s Hs) as Hp.
  unfold st_wp in Hp. cbn [conv_section] in Hrun. unfold committing, st_bind in Hrun.
  destruct (accept_inbound_message fresh request s) as [s1 [a1|e1] ]; [|done].
  cbn in Hrun. by injection Hrun as <- <-.
Qed.

(** C21: an event of an adapter's installation is one message.  In every state that the
    calls reach, whatever actors, conversations and bindings they name, two accepted
    messages of the same event of the same installation are the same message, and each
    message is from a participant of its thread.  Accepting an event again, at any later
    time, answers the message that it became the first time, as a duplicate, and changes
    nothing. *)
Theorem event_accepted_once s :
  conv_reachable s ->
  (forall i j m1 m2 k, cs_messages s !! i = Some m1 -> cs_messages s !! j = Some m2 ->
     message_origin s m1 = Some k -> message_origin s m2 = Some k -> i = j)
  /\ (forall m, m ∈ cs_messages s -> exists t,
        cs_threads s !! mk_ThreadKey (am_tenant_id (tm_accepted m)) (am_thread_id (tm_accepted m)) = Some t
        /\ ta_user_id (am_actor (tm_accepted m)) ∈ th_participants t)
  /\ (forall fresh fresh' request request' s1 s2 s3 a a',
        fresh_ok fresh s -> accept_event_key request' = accept_event_key request ->
        conv_section fresh host_error_text (CvAccept request) s = (s1, Ok (Commit a)) ->
        rtc conv_step s1 s2 -> fresh_ok fresh' s2 ->
        conv_section fresh' host_error_text (CvAccept request') s2 = (s3, Ok (Commit a')) ->
        a' = as_duplicate a /\ s3 = s2).
Proof.
  intros Hr%conv_reachable_inv. split; [intros; by eapply origin_unique|]. split.
  { intros m Hm. apply (mo_participant _ _ (ci_message _ Hr m Hm)). }
  intros fresh fresh' request request' s1 s2 s3 a a' Hf Hkey Hrun1 Hsteps Hf' Hrun2.
  destruct (section_post_run _ _ _ _ _ _ Hr Hf Hrun1) as [ [Hs1 _] _].
  destruct (conv_steps_ok _ _ Hs1 Hsteps) as [Hs2 Hev].
  destruct (accept_run _ _ _ _ _ Hr Hrun1 _ eq_refl) as (m & Ho & _ & _ & Hm).
  destruct (accept_run _ _ _ _ _ Hs2 Hrun2 _ eq_refl) as (m' & Ho' & _ & _ & Hm').
  assert (m ∈ cs_messages s1 /\ as_duplicate a = as_duplicate (tm_accepted m)) as [Hin ->].
  { destruct Hm as [(-> & _ & ->)|(-> & -> & Hm)]; [|done]. split; [|done].
    apply elem_of_app. right. by apply list_elem_of_singleton. }
  rewrite Hkey in Ho'.
  assert (message_origin s2 m = Some (accept_event_key request)) as Ho2.
  { rewrite <- Ho. apply message_origin_mono; [done|]. by rewrite Ho. }
  destruct (ev_messages _ _ Hev) as [l Hl].
  apply list_elem_of_lookup in Hin as [i Hi].
  assert (cs_messages s2 !! i = Some m) as Hi2. { rewrite Hl. by apply lookup_app_l_Some. }
  destruct Hm' as [(-> & _ & Happ)|(-> & -> & Hm')]; [exfalso|].
  - destruct (section_post_run _ _ _ _ _ _ Hs2 Hf' Hrun2) as [ [Hs3 Hev3] _].
    assert (i = length (cs_messages s2)) as Hlen.
    { eapply (origin_unique s3); [done | rewrite Happ; by apply lookup_app_l_Some
                                 | rewrite Happ; by apply list_lookup_middle | | exact Ho'].
      rewrite <- Ho2. apply message_origin_mono; [done|]. by rewrite Ho2. }
    apply lookup_lt_Some in Hi2. lia.
  - split; [|done]. apply list_elem_of_lookup in Hm' as [j Hj].
    assert (i = j) as -> by by eapply origin_unique. congruence.
Qed.

(** ** Routes *)

Lemma st_wp_any {A} (m : ST A) (Q : _ -> _ -> Prop) s : (forall s' r, Q s' r) -> st_wp m Q s.
Proof. intros H. apply H. Qed.

(** [user] is paired with the actor of the request, and takes part in the thread of [b]. *)
Definition speaks (s : InMemoryState) (request : ResolveConversationRequest) (user : UserId)
    (b : BindingRecord) : Prop :=
  cs_pairings s !! request_actor_key request = Some user
  /\ exists t, cs_threads s !! mk_ThreadKey (cr_tenant_id request) (br_thread_id b) = Some t
       /\ user ∈ th_participants t.

(** The resolution is that of the route's binding, which is as it was or was made now. *)
Definition resolve_post (request : ResolveConversationRequest) agent project owner
    (s s' : InMemoryState) (r : result ConversationBindingResolution InboundTurnError) : Prop :=
  forall res, r = Ok res -> exists user b',
    cs_bindings s' !! BindingKey_from_request request = Some b'
    /\ res = BindingRecord_resolution b' user (cr_tenant_id request)
    /\ ((exists b, cs_bindings s !! BindingKey_from_request request = Some b /\ speaks s request user b)
        \/ (cs_bindings s !! BindingKey_from_request request = None /\ speaks s' request user b'
            /\ cs_pairings s' = cs_pairings s /\ br_agent_id b' = agent /\ br_project_id b' = project /\ br_owner_user_id b' = owner)).

Lemma resolve_actor_ok key s u : resolve_actor key s = Ok u -> cs_pairings s !! key = Some u.
Proof. unfold resolve_actor. destruct (_ !! _); [|done]. by intros [= ->]. Qed.

Lemma wp_resolve_post fresh request agent project owner s :
  st_wp (resolve_or_create_binding_inner fresh host_error_text request agent project owner)
    (resolve_post request agent project owner s) s.
Proof.
  unfold resolve_or_create_binding_inner.
  do 2 st_step; [|done]. apply resolve_actor_ok in Hread. do 2 st_step; [|done].
  do 2 st_step; [|done]. injection Hread1 as <-. destruct (cs_bindings s !! _) as [b|] eqn:Hb.
  - unfold resolve_existing. do 2 st_step; [|done]. apply ensure_participant_ok in Hread1 as (t & Ht).
    do 2 st_step; [|done]. do 2 st_step; [|done].
    st_step. apply st_wp_any. intros s1 [ []|e1]; [|done].
    st_step. apply st_wp_any. intros s2 [ []|e2]; [|done].
    st_step. apply st_wp_any. intros s3 [ []|e3]; [|done].
    do 2 st_step; [|done]. destruct (cs_bindings s3 !! _) as [b3|] eqn:Hb3; [|done].
    injection Hread2 as <-. st_step. intros res [= <-]. exists a, b3. split_and!; [done..|]. left.
    exists b. split; [done|]. split; [done|]. by exists t.
  - unfold create_binding. do 2 st_step; [|done]. do 2 st_step.
    do 2 st_step; [|by rewrite BindingRecord_new_ok in Hfail].
    rewrite BindingRecord_new_ok in Hread2. injection Hread2 as <-.
    do 2 st_step. unfold record_external_event_route. do 3 st_step; [|done]. do 2 st_step.
    intros res [= <-]. eexists a, _. split; [simpl; by rewrite lookup_insert_eq|].
    split; [done|]. right. split; [done|]. split; [|done]. split; [done|]. simpl.
    eexists. rewrite lookup_insert_eq. split; [done|]. simpl. by apply elem_of_singleton.
Qed.

(** The answers to a resolution or a lookup, with the trusted scope of a resolution. *)
Inductive route_answer (request : ResolveConversationRequest) (s s' : InMemoryState)
    (res : ConversationBindingResolution) : Prop :=
| route_resolved fresh agent project owner :
    fresh_ok fresh s ->
    conv_section fresh host_error_text (CvResolve request agent project owner) s = (s', Ok (Commit res)) ->
    route_answer request s s' res
| route_looked_up fresh :
    conv_section fresh host_error_text (CvLookup request) s = (s', Ok (Return res)) ->
    route_answer request s s' res.

Lemma resolve_run fresh request agent project owner s s' res :
  conv_section fresh host_error_text (CvResolve request agent project owner) s = (s', Ok (Commit res)) ->
  resolve_post request agent project owner s s' (Ok res).
Proof.
  intros Hrun. pose proof (wp_resolve_post fresh request agent project owner s) as Hp.
  unfold st_wp in Hp. cbn [conv_section] in Hrun. unfold committing, st_bind in Hrun.
  destruct (resolve_or_create_binding_inner _ _ _ _ _ _ s) as [s1 [a1|e1] ]; [|done].
  cbn in Hrun. by injection Hrun as <- <-.
Qed.

Lemma lookup_run fresh request s s' res :
  conv_section fresh host_error_text (CvLookup request) s = (s', Ok (Return res)) ->
  s' = s /\ exists user b, cs_bindings s !! BindingKey_from_request request = Some b
    /\ res = BindingRecord_resolution b user (cr_tenant_id request) /\ speaks s request user b.
Proof.
  assert (st_wp (lookup_binding request) (fun s' r => forall a, r = Ok a ->
    s' = s /\ exists user b, cs_bindings s !! BindingKey_from_request request = Some b
    /\ a = BindingRecord_resolution b user (cr_tenant_id request) /\ speaks s request user b) s) as Hp.
  { unfold lookup_binding. do 2 st_step; [|done]. apply resolve_actor_ok in Hread.
    do 2 st_step; [|done]. do 2 st_step; [|done]. destruct (cs_bindings s !! _) as [b|]; [|done].
    injection Hread1 as <-. do 2 st_step; [|done]. apply ensure_participant_ok in Hread1 as (t & Ht).
    do 2 st_step; [|done]. st_step. intros res' [= <-]. split; [done|]. exists a, b.
    split_and!; [done..|]. split; [done|]. by exists t. }
  unfold st_wp in Hp. cbn [conv_section]. unfold reading, st_bind.
  destruct (lookup_binding request s) as [s1 [a1|e1] ]; [|done]. cbn. intros [= <- <-]. by apply Hp.
Qed.

Lemma route_answer_from request s s' res :
  conv_inv s -> route_answer request s s' res -> step_ok s s' /\ exists user b',
    cs_bindings s' !! BindingKey_from_request request = Some b'
    /\ res = BindingRecord_resolution b' user (cr_tenant_id request)
    /\ cs_pairings s !! request_actor_key request = Some user
    /\ exists t, cs_threads s' !! mk_ThreadKey (cr_tenant_id request) (br_thread_id b') = Some t
         /\ user ∈ th_participants t.
Proof.
  intros Hs [fresh agent project owner Hf Hrun|fresh Hrun].
  - destruct (section_post_run _ _ _ _ _ _ Hs Hf Hrun) as [Hok _]. split; [done|].
    pose proof (resolve_run _ _ _ _ _ _ _ _ Hrun _ eq_refl) as (user & b' & Hb' & -> & Hcase).
    exists user, b'. destruct Hcase as [(b & Hb & Hp & t & Ht & Hin)|(_ & [Hpair Hth] & Hpaired & _)].
    + split_and!; [done..|]. destruct (ev_bindings _ _ (proj2 Hok) _ _ Hb) as (b2 & Hb2 & Hev).
      assert (b2 = b') as -> by congruence. apply binding_evolves_same in Hev as (_ & [= _ ->] & _).
      destruct (ev_threads _ _ (proj2 Hok) _ _ Ht) as (t' & Ht' & _ & _ & Hsub). exists t'. set_solver.
    + split_and!; [done | done | by rewrite <- Hpaired | done].
  - apply lookup_run in Hrun as (-> & user & b & Hb & -> & Hp & Ht). split; [by split|].
    by exists user, b.
Qed.

Lemma scope_of_resolution (b : BindingRecord) user tenant :
  ts_tenant_id (cb_turn_scope (BindingRecord_resolution b user tenant)) = tenant
  /\ ts_thread_id (cb_turn_scope (BindingRecord_resolution b user tenant)) = br_thread_id b
  /\ ts_agent_id (cb_turn_scope (BindingRecord_resolution b user tenant)) = br_agent_id b
  /\ ts_project_id (cb_turn_scope (BindingRecord_resolution b user tenant)) = br_project_id b
  /\ explicit_owner_user_id (cb_turn_scope (BindingRecord_resolution b user tenant)) = br_owner_user_id b.
Proof. unfold BindingRecord_resolution. by destruct (br_owner_user_id b). Qed.

(** C22: an external conversation stays with its thread.  Whatever is called between two
    answers for the same conversation of the same installation, resolutions or lookups, by
    whichever actors and with whatever trusted scope, the second has the thread, the agent,
    the project and the references of the first, and its owner once there is one.  The
    actor of an answer is the user paired with the external actor, and takes part in the
    thread.  A conversation that is new gets the trusted agent, project and owner, not
    those that the adapter asks for. *)
Theorem routes_are_stable s0 request request' s1 s2 s3 res res' :
  conv_reachable s0 ->
  BindingKey_from_request request' = BindingKey_from_request request ->
  route_answer request s0 s1 res -> rtc conv_step s1 s2 -> route_answer request' s2 s3 res' ->
  cb_source_binding_ref res' = cb_source_binding_ref res
  /\ cb_reply_target_binding_ref res' = cb_reply_target_binding_ref res
  /\ ts_thread_id (cb_turn_scope res') = ts_thread_id (cb_turn_scope res)
  /\ ts_agent_id (cb_turn_scope res') = ts_agent_id (cb_turn_scope res)
  /\ ts_project_id (cb_turn_scope res') = ts_project_id (cb_turn_scope res)
  /\ (forall o, explicit_owner_user_id (cb_turn_scope res) = Some o ->
        explicit_owner_user_id (cb_turn_scope res') = Some o)
  /\ cs_pairings s2 !! request_actor_key request' = Some (ta_user_id (cb_actor res'))
  /\ (exists t, cs_threads s3 !! mk_ThreadKey (cb_tenant_id res') (ts_thread_id (cb_turn_scope res')) = Some t
        /\ ta_user_id (cb_actor res') ∈ th_participants t)
  /\ (forall fresh agent project owner,
        conv_section fresh host_error_text (CvResolve request agent project owner) s0
          = (s1, Ok (Commit res)) ->
        cs_bindings s0 !! BindingKey_from_request request = None ->
        ts_agent_id (cb_turn_scope res) = agent /\ ts_project_id (cb_turn_scope res) = project
        /\ explicit_owner_user_id (cb_turn_scope res) = owner).
Proof.
  intros Hr%conv_reachable_inv Hkey Hans Hsteps Hans'.
  destruct (route_answer_from _ _ _ _ Hr Hans) as ([Hs1 _] & u & b & Hb & -> & _).
  destruct (conv_steps_ok _ _ Hs1 Hsteps) as [Hs2 Hev2].
  destruct (route_answer_from _ _ _ _ Hs2 Hans') as ([Hs3 Hev3] & u' & b' & Hb' & -> & Hpair & t & Ht & Hin).
  assert (evolves s1 s3) as Hev by by etrans. rewrite Hkey in Hb'.
  destruct (ev_bindings _ _ Hev _ _ Hb) as (b2 & Hb2 & Hbev).
  assert (b2 = b') as -> by congruence. clear Hb2.
  destruct (scope_of_resolution b u (cr_tenant_id request)) as (_ & R1 & R2 & R3 & R4).
  destruct (scope_of_resolution b' u' (cr_tenant_id request')) as (_ & R1' & R2' & R3' & R4').
  rewrite R1, R2, R3, R4, R1', R2', R3', R4'. clear R1 R2 R3 R4 R1' R2' R3' R4'.
  destruct Hbev as (access & owner & -> & _ & Hown).
  split_and!; try done; [by exists t|].
  intros fresh agent project own Hrun Hnone.
  destruct (resolve_run _ _ _ _ _ _ _ _ Hrun _ eq_refl) as (u2 & b2 & Hb2 & _ & [(b0 & Hb0 & _)|H]).
  - by rewrite Hnone in Hb0.
  - assert (b2 = b) as -> by congruence. destruct H as (_ & _ & _ & H1 & H2 & H3). done.
Qed.

End Reach.
