(* ===== verification/ConvStore.v ===== *)
(** * Conversations: the filesystem store

    [crates/brassclaw_conversations/src/filesystem_store.rs]: the whole state of the
    conversation services as one entry, [/conversations/state.json], with a revision.  A
    call loads the state, runs its section and saves the state on the condition that the
    revision, and the version of the entry, are still those it loaded.

    A method is a program whose calls are the reads and writes of the entry and the draw
    of UUIDs.  The mutation lock of one process is not modelled: every interleaving of the
    calls is.  The theorems: what is written reads back as the state; whatever calls of
    whatever processes are interleaved, every write is one section on the state that the
    entry held at that moment, and a call that fails made no write or one whose outcome the
    filesystem did not tell. *)

From S2P Require Import Prelude Effects External HostIds Paths HostTypes Filesystem LeaseStore ScopedFile.
From S2P Require Import RunProfile TurnTypes ConvTypes Conversations ConvInvariants ConvSafety.
Open Scope Z_scope.

(** ** The stored form *)

Record StoredConversationState : Type := mk_StoredConversationState {
  sc_revision : Z;
  sc_pairings : list (ActorKey * UserId);
  sc_bindings : list (BindingKey * BindingRecord);
  sc_source_bindings : gmap string BindingRecord;
  sc_reply_targets : gmap string ReplyTargetRecord;
  sc_threads : list (ThreadKey * ThreadRecord);
  sc_external_event_routes : list (ExternalEventRouteKey * ExternalConversationIdentity);
  sc_message_idempotency : list (MessageIdempotencyKey * AcceptedInboundMessage);
  sc_message_replays : list (AcceptedMessageReplayKey * StoredAcceptedMessageReplay);
  sc_submission_keys : list (AcceptedMessageRef * IdempotencyKey);
  sc_submitted_message_responses : list (AcceptedMessageRef * SubmitTurnResponse);
  sc_messages : list ThreadMessageRecord }.

(** The order of the pairs is that of [HashMap::iter], which is any. *)
Definition from_state (revision : Z) (s : InMemoryState) : StoredConversationState :=
  mk_StoredConversationState revision (map_to_list (cs_pairings s)) (map_to_list (cs_bindings s))
    (cs_source_bindings s) (cs_reply_targets s) (map_to_list (cs_threads s))
    (map_to_list (cs_external_event_routes s)) (map_to_list (cs_message_idempotency s))
    (map_to_list (cs_message_replays s)) (map_to_list (cs_submission_keys s))
    (map_to_list (cs_submitted_message_responses s)) (cs_messages s).

(** [into_iter().collect()]: a later pair replaces an earlier one. *)
Definition collect_map `{Countable K} {V} (l : list (K * V)) : gmap K V :=
  foldl (fun m kv => <[kv.1 := kv.2]> m) ∅ l.

Definition into_state (stored : StoredConversationState) : InMemoryState :=
  mk_InMemoryState 0 (collect_map (sc_pairings stored)) (collect_map (sc_bindings stored))
    (sc_source_bindings stored) (sc_reply_targets stored) (collect_map (sc_threads stored))
    (collect_map (sc_external_event_routes stored)) (collect_map (sc_message_idempotency stored))
    (collect_map (sc_message_replays stored)) (collect_map (sc_submission_keys stored))
    (collect_map (sc_submitted_message_responses stored)) (sc_messages stored).

(** The tenants that the maps name: [BTreeSet<String>], in the order of their bytes. *)
Definition string_le (a b : string) : Prop := String.leb a b = true.
#[export] Instance string_le_dec : RelDecision string_le.
Proof. intros a b. unfold string_le. apply _. Defined.

Definition keys_tenants `{Countable K} {V} (tenant : K -> TenantId) (m : gmap K V) : gset string :=
  list_to_set ((fun kv => as_str (tenant kv.1)) <$> map_to_list m).
Definition collect_tenant_ids (s : InMemoryState) : list string :=
  merge_sort string_le (elements (
    keys_tenants ak_tenant_id (cs_pairings s) ∪ keys_tenants bk_tenant_id (cs_bindings s)
    ∪ keys_tenants tk_tenant_id (cs_threads s)
    ∪ keys_tenants er_tenant_id (cs_external_event_routes s)
    ∪ keys_tenants mk_tenant_id (cs_message_idempotency s)
    ∪ keys_tenants pk_tenant_id (cs_message_replays s))).

(** [serde_json::to_vec_pretty] and [from_slice] on the stored form. *)
Class ConvCodec : Type := {
  conv_to_vec : StoredConversationState -> result string string;
  conv_from_slice : string -> result StoredConversationState string }.
Class ConvCodecLaws (CC : ConvCodec) : Prop := {
  conv_from_to st body : conv_to_vec st = Ok body -> conv_from_slice body = Ok st }.

Definition conversation_state_path : ScopedPath := mk_ScopedPath "/conversations/state.json".
Definition CONVERSATION_CAS_RETRIES : nat := 5.
Definition i64_max : Z := 2 ^ 63 - 1.

(** ** The programs of the store *)

Section Store.
Context {U : UuidText} `{BH : BodyHash} `{CC : ConvCodec}.
(** The [Display] texts of the errors. *)
Variable host_error_text : HostApiError -> string.
Variable fs_error_text : FilesystemError -> string.

Inductive cfsE : Type -> Type :=
| CfGet : cfsE (result (option VersionedEntry) FilesystemError)
| CfPut (entry : Entry) (cas : CasExpectation) : cfsE (result RecordVersion FilesystemError)
| CfDraw (state : InMemoryState) : cfsE ConvFresh.

Definition filesystem_error {A} (r : result A FilesystemError) : result A InboundTurnError :=
  map_err (fun e => IeDurableState (fs_error_text e)) r.
Definition conv_serialize (st : StoredConversationState) : result string InboundTurnError :=
  map_err IeDurableState (conv_to_vec st).
Definition conv_deserialize (body : string) : result StoredConversationState InboundTurnError :=
  map_err IeDurableState (conv_from_slice body).

Definition conv_state_entry (body : string) (s : InMemoryState) : Entry :=
  let entry := with_content_type (Entry_bytes body) "application/json" in
  match collect_tenant_ids s with
  | [] => entry
  | tenant_ids => with_indexed entry "tenant_ids" (IxText (String.concat "," tenant_ids))
  end.

Definition put_with_projection_fallback (entry : Entry) (cas : CasExpectation) :
    prog cfsE (result unit FilesystemError) :=
  let! put := trigger (CfPut entry cas) in
  match put with
  | Ok _ => Ret (Ok tt)
  | Err (FsUnsupported path WriteFile) =>
      if is_some (entry_kind entry) || negb (bool_decide (indexed entry = ∅)) then
        let! put := trigger (CfPut (with_content_type (Entry_bytes (entry_body entry))
                                      (content_type entry)) cas) in
        Ret (result_map (fun _ => tt) put)
      else Ret (Err (FsUnsupported path WriteFile))
  | Err error => Ret (Err error)
  end.

Definition load_state : prog cfsE (result (InMemoryState * Z) InboundTurnError) :=
  let! found := trigger CfGet in
  Ret (let? versioned := filesystem_error found in
       match versioned with
       | None => Ok (InMemoryState_default, 0)
       | Some versioned =>
           let? stored := conv_deserialize (entry_body (ve_entry versioned)) in
           Ok (into_state stored, sc_revision stored)
       end).

Definition stale_revision : InboundTurnError := IeDurableState "stale conversation state revision".

(** The condition of a write, from the entry found. *)
Definition save_condition (expected_revision : Z) (found : option VersionedEntry) :
    result CasExpectation InboundTurnError :=
  match found with
  | None => if expected_revision =? 0 then Ok CasAbsent else Err stale_revision
  | Some versioned =>
      let? existing := conv_deserialize (entry_body (ve_entry versioned)) in
      if sc_revision existing =? expected_revision then Ok (CasVersion (ve_version versioned))
      else Err stale_revision
  end.

Definition round_condition (expected_revision : Z)
    (found : result (option VersionedEntry) FilesystemError) : result CasExpectation InboundTurnError :=
  let? current := filesystem_error found in save_condition expected_revision current.

(** [n] is the number of rounds left. *)
Fixpoint save_rounds (n : nat) (expected_revision : Z) (entry : Entry) :
    prog cfsE (result unit InboundTurnError) :=
  match n with
  | O => Ret (Err (IeDurableState ("filesystem CAS retries exhausted for path "
                                   +:+ sp_str conversation_state_path)))
  | S n =>
      let! found := trigger CfGet in
      match round_condition expected_revision found with
      | Err e => Ret (Err e)
      | Ok cas =>
          let! put := put_with_projection_fallback entry cas in
          match put with
          | Ok _ => Ret (Ok tt)
          | Err (FsVersionMismatch _ _ _) => save_rounds n expected_revision entry
          | Err error => Ret (filesystem_error (Err error))
          end
      end
  end.

Definition save_state (expected_revision : Z) (s : InMemoryState) :
    prog cfsE (result Z InboundTurnError) :=
  match checked_add_max i64_max expected_revision 1 with
  | None => Ret (Err (IeDurableState "conversation state revision overflow"))
  | Some new_revision =>
      match conv_serialize (from_state new_revision s) with
      | Err e => Ret (Err e)
      | Ok body =>
          let! saved := save_rounds CONVERSATION_CAS_RETRIES expected_revision
                          (conv_state_entry body s) in
          Ret (result_map (fun _ => new_revision) saved)
      end
  end.

(** The repository of a service. *)
Definition filesystem_repository X (e : repoE X) : prog cfsE X :=
  match e in repoE X return prog cfsE X with
  | RpLoad => load_state
  | RpSave expected_revision s => save_state expected_revision s
  | RpDraw s => trigger (CfDraw s)
  end.

(** A method of [RebornFilesystemConversationServices], whose cached state is [s]. *)
Definition filesystem_call {A} (c : conv_call A) (s : InMemoryState) :
    prog cfsE (InMemoryState * result A InboundTurnError) :=
  interp filesystem_repository (service_call host_error_text true c s).

End Store.

(** ** What is stored reads back *)

Lemma collect_map_from `{Countable K} {V} (l : list (K * V)) (m : gmap K V) :
  NoDup l.*1 -> (forall k, k ∈ l.*1 -> m !! k = None) ->
  foldl (fun m kv => <[kv.1 := kv.2]> m) m l = list_to_map l ∪ m.
Proof.
  revert m. induction l as [|[k v] l IH]; intros m; simpl; [by rewrite (left_id ∅ (∪))|].
  intros [Hk Hl]%NoDup_cons Hm. rewrite IH.
  - rewrite <- insert_union_r, <- insert_union_l; [done|].
    by apply not_elem_of_list_to_map.
  - done.
  - intros j Hj. rewrite lookup_insert_ne by (intros ->; done). apply Hm. by right.
Qed.

(** A map is read back from its pairs, in whatever order they were written. *)
Lemma collect_map_perm `{Countable K} {V} (l : list (K * V)) (m : gmap K V) :
  l ≡ₚ map_to_list m -> collect_map l = m.
Proof.
  intros Hl. assert (NoDup l.*1) as Hnd. { rewrite Hl. apply NoDup_fst_map_to_list. }
  unfold collect_map. rewrite collect_map_from; [|done | by intros; apply lookup_empty].
  rewrite (right_id ∅ (∪)). rewrite <- (list_to_map_to_list m). by apply list_to_map_proper.
Qed.

(** The stored form of [s], its pairs in some order. *)
Record stored_form (revision : Z) (s : InMemoryState) (st : StoredConversationState) : Prop := {
  sf_revision : sc_revision st = revision;
  sf_pairings : sc_pairings st ≡ₚ map_to_list (cs_pairings s);
  sf_bindings : sc_bindings st ≡ₚ map_to_list (cs_bindings s);
  sf_sources : sc_source_bindings st = cs_source_bindings s;
  sf_replies : sc_reply_targets st = cs_reply_targets s;
  sf_threads : sc_threads st ≡ₚ map_to_list (cs_threads s);
  sf_routes : sc_external_event_routes st ≡ₚ map_to_list (cs_external_event_routes s);
  sf_idem : sc_message_idempotency st ≡ₚ map_to_list (cs_message_idempotency s);
  sf_replays : sc_message_replays st ≡ₚ map_to_list (cs_message_replays s);
  sf_keys : sc_submission_keys st ≡ₚ map_to_list (cs_submission_keys s);
  sf_submitted : sc_submitted_message_responses st ≡ₚ map_to_list (cs_submitted_message_responses s);
  sf_messages : sc_messages st = cs_messages s }.

Lemma from_state_form revision s : stored_form revision s (from_state revision s).
Proof. by split. Qed.

(** The stored form of a state reads back as the state, whatever the order in which the
    pairs of its maps were written; the revision is in the envelope. *)
Theorem stored_state_reads_back revision s st :
  stored_form revision s st -> into_state st = set_revision 0 s /\ sc_revision st = revision.
Proof.
  intros []. split; [|done]. unfold into_state. rewrite sf_sources0, sf_replies0, sf_messages0.
  rewrite !(collect_map_perm _ _ sf_pairings0), !(collect_map_perm _ _ sf_bindings0).
  rewrite (collect_map_perm _ _ sf_threads0), (collect_map_perm _ _ sf_routes0).
  rewrite (collect_map_perm _ _ sf_idem0), (collect_map_perm _ _ sf_replays0).
  by rewrite (collect_map_perm _ _ sf_keys0), (collect_map_perm _ _ sf_submitted0).
Qed.

(** ** Every interleaving of the callers *)

Section Linear.
Context {U : UuidText} {US : UuidShape U} `{BH : BodyHash} `{CC : ConvCodec} {CL : ConvCodecLaws CC}.
Context {St : Type} `{ES : !EntryStore St} `{ESL : !EntryStoreLaws St}.
Variable host_error_text : HostApiError -> string.
Variable fs_error_text : FilesystemError -> string.
(** The view of the system scope. *)
Variable system_view : result MountView HostApiError.
Implicit Types (s : St) (st : InMemoryState).

(** What a call may do. *)
Definition cfs_handle X (e : cfsE X) s s' : X -> Prop :=
  match e in cfsE X return X -> Prop with
  | CfGet => fun x =>
      s' = s /\ x = match file_path system_view conversation_state_path ReadFile with
                    | Ok v => es_get s v
                    | Err e => Err e
                    end
  | CfPut entry cas => fun x =>
      match file_path system_view conversation_state_path WriteFile with
      | Ok v => exists now, es_put s v entry cas now = (s', x)
      | Err e => s' = s /\ x = Err e
      end
  | CfDraw st => fun x => s' = s /\ fresh_ok x st
  end.

Definition state_key : string := file_key system_view conversation_state_path.

Definition decoded (body : string) : option (InMemoryState * Z) :=
  match conv_deserialize body with
  | Ok stored => Some (into_state stored, sc_revision stored)
  | Err _ => None
  end.

(** The state and the revision that the entry holds. *)
Definition held s : option (InMemoryState * Z) :=
  match es_at s state_key with
  | None => Some (InMemoryState_default, 0)
  | Some (entry, _) => decoded (entry_body entry)
  end.

Definition durable_state s : Prop :=
  exists st revision, held s = Some (st, revision) /\ conv_reachable host_error_text st.

(** The entry holds the state of one section of [c] on the state it held. *)
Definition commits_section {A} (c : conv_call A) s s' : Prop :=
  exists st revision fresh st' a,
    held s = Some (st, revision) /\ conv_reachable host_error_text st
    /\ fresh_ok fresh (set_revision revision st)
    /\ conv_section fresh host_error_text c (set_revision revision st) = (st', Ok (Commit a))
    /\ held s' = Some (set_revision 0 st', revision + 1).

(** The revision only grows, and one revision is one state. *)
Definition revisions_grow s s' : Prop :=
  forall st revision, held s = Some (st, revision) ->
  exists st' revision', held s' = Some (st', revision') /\ revision <= revision'
    /\ (revision' = revision -> st' = st).

Definition conv_label : Type := {A : Type & (conv_call A * InMemoryState)%type}.
Definition conv_result : Type := {A : Type & (InMemoryState * result A InboundTurnError)%type}.
Definition conv_job (a : conv_label) : prog cfsE conv_result :=
  let! r := filesystem_call host_error_text fs_error_text (projT2 a).1 (projT2 a).2 in
  Ret (existT (P := fun A => (InMemoryState * result A InboundTurnError)%type) (projT1 a) r).

Definition cfs_rely (a : conv_label) s s' : Prop :=
  grows s s' /\ revisions_grow s s' /\ (durable_state s -> durable_state s').
Definition cfs_guar (a : conv_label) s s' : Prop :=
  grows s s' /\ (held s' = held s \/ commits_section (projT2 a).1 s s').

Lemma revisions_refl s : revisions_grow s s.
Proof. intros st n H. exists st, n. split_and!; [done | lia | done]. Qed.
Lemma revisions_trans s1 s2 s3 : revisions_grow s1 s2 -> revisions_grow s2 s3 -> revisions_grow s1 s3.
Proof.
  intros H1 H2 st n H. destruct (H1 _ _ H) as (st1 & n1 & Hs1 & Hle1 & He1).
  destruct (H2 _ _ Hs1) as (st2 & n2 & Hs2 & Hle2 & He2). exists st2, n2.
  split_and!; [done | lia|]. intros ->. assert (n1 = n) as -> by lia. by rewrite He2, He1.
Qed.

Lemma section_durable A (c : conv_call A) s s' : commits_section c s s' -> durable_state s'.
Proof.
  intros (st & n & fresh & st' & a & _ & Hr & Hf & Hrun & Hh). exists (set_revision 0 st'), (n + 1).
  split; [done|]. eapply rtc_r; [|apply cv_revision]. eapply rtc_r; [|by eapply cv_section].
  eapply rtc_r; [exact Hr | apply cv_revision].
Qed.

Lemma cfs_guar_rely a b s s' : durable_state s -> cfs_guar a s s' -> cfs_rely b s s'.
Proof.
  intros Hd [Hg Hc]. split; [done|]. destruct Hc as [Hc|Hc].
  - split; [intros st n; rewrite Hc; apply revisions_refl|]. unfold durable_state. by rewrite Hc.
  - split; [|intros _; by eapply section_durable].
    destruct Hc as (st & n & fresh & st' & x & Hh & _ & _ & _ & Hh'). intros st0 n0. rewrite Hh.
    intros [= <- <-]. exists (set_revision 0 st'), (n + 1). split_and!; [done | lia | lia].
Qed.

Lemma cfs_same a s : cfs_guar a s s.
Proof. split; [apply entries_grow_refl | by left]. Qed.

(** What a caller that loaded [st] at the revision [n] knows from then on. *)
Definition loaded_before st (n : Z) s : Prop :=
  durable_state s /\ exists s0, held s0 = Some (st, n) /\ revisions_grow s0 s.

Lemma loaded_rely a st n s s' : loaded_before st n s -> cfs_rely a s s' -> loaded_before st n s'.
Proof.
  intros [Hd (s0 & Hh & Hg)] (_ & Hg' & Hd'). split; [auto|]. exists s0. split; [done|].
  by eapply revisions_trans.
Qed.
Lemma loaded_guar a st n s s' : loaded_before st n s -> cfs_guar a s s' -> loaded_before st n s'.
Proof. intros Hl Hg. eapply (loaded_rely a); [done|]. eapply cfs_guar_rely; [apply Hl | done]. Qed.

Lemma loaded_held st n s st' : loaded_before st n s -> held s = Some (st', n) -> st' = st.
Proof.
  intros [_ (s0 & Hh & Hg)] Hs. destruct (Hg _ _ Hh) as (st1 & n1 & Hs1 & _ & He).
  rewrite Hs in Hs1. injection Hs1 as <- <-. by apply He.
Qed.

(** The section that is being saved: of [c], on the state loaded. *)
Record saving {A} (c : conv_call A) st n (body : string) : Prop := {
  sv_reach : conv_reachable host_error_text st;
  sv_run : exists fresh st' a, fresh_ok fresh (set_revision n st)
    /\ conv_section fresh host_error_text c (set_revision n st) = (st', Ok (Commit a))
    /\ decoded body = Some (set_revision 0 st', n + 1) }.

(** The condition of the write stands for what was found. *)
Definition condition_for (n : Z) (version : option (Entry * RecordVersion)) : Prop :=
  match version with
  | None => n = 0
  | Some (e, _) => exists st, decoded (entry_body e) = Some (st, n)
  end.

Lemma held_condition n s version :
  es_at s state_key = version -> condition_for n version -> exists st, held s = Some (st, n).
Proof.
  unfold held. intros ->. destruct version as [[e w]|]; [done|]. intros ->. by eexists.
Qed.

Lemma rg_put A (c : conv_call A) s0 s st0 st n body entry version (Q : _ -> _ -> Prop) :
  saving c st n body -> entry_body entry = body ->
  seen state_key version s0 -> condition_for n version ->
  grows s0 s -> loaded_before st n s ->
  (forall r s', grows s0 s' -> loaded_before st n s' -> Q r s') ->
  rg cfs_handle cfs_rely cfs_guar (existT A (c, st0)) (trigger (CfPut entry (expectation_of version))) Q s.
Proof.
  intros Hsv Hbody Hseen Hcond Hg Hl HQ. cbn [trigger rg]. intros s1 s2 x Hrely Hput.
  pose proof (loaded_rely _ _ _ _ _ Hl Hrely) as Hl1.
  assert (grows s0 s1) as Hg1 by (eapply entries_grow_trans; [exact Hg | apply Hrely]).
  assert (cfs_guar (existT A (c, st0)) s1 s2) as Hguar.
  2: { split; [done|]. apply HQ; [eapply entries_grow_trans; [exact Hg1 | apply Hguar] | by eapply loaded_guar]. }
  cbn [cfs_handle] in Hput. destruct (file_path system_view conversation_state_path WriteFile) as [v|e] eqn:Hv.
  2: { destruct Hput as [-> _]. apply cfs_same. }
  destruct Hput as [now Hput]. pose proof (file_path_key _ _ _ _ Hv) as Hkey. fold state_key in Hkey.
  destruct (put_effects _ _ _ _ _ _ _ Hput) as [[_ Hsame]|[_ [m Hw] ] ].
  { split; [by apply grows_same|]. left. unfold held. by rewrite Hsame. }
  split; [by eapply written_grows|]. right. rewrite <- Hkey in Hseen.
  destruct (written_replaces _ _ _ _ _ _ _ Hseen Hg1 Hw) as [Hat Hat']. rewrite Hkey in Hat, Hat'.
  destruct (held_condition _ _ _ Hat Hcond) as [st1 Hh].
  assert (st1 = st) as -> by by eapply loaded_held.
  destruct Hsv as [Hreach (fresh & st' & a & Hf & Hrun & Hdec)].
  exists st, n, fresh, st', a. split_and!; try done. unfold held. by rewrite Hat', Hbody.
Qed.

Lemma rg_fallback A (c : conv_call A) s0 s st0 st n body entry version (Q : _ -> _ -> Prop) :
  saving c st n body -> entry_body entry = body ->
  seen state_key version s0 -> condition_for n version ->
  grows s0 s -> loaded_before st n s ->
  (forall r s', loaded_before st n s' -> Q r s') ->
  rg cfs_handle cfs_rely cfs_guar (existT A (c, st0))
    (put_with_projection_fallback entry (expectation_of version)) Q s.
Proof.
  intros Hsv Hbody Hseen Hcond Hg Hl HQ. unfold put_with_projection_fallback. apply rg_bind.
  eapply (rg_put A c s0 s st0 st n body entry version); [done..|]. intros r s' Hg' Hl'.
  destruct r as [m|e]; [by apply HQ|]. destruct e as [| | | | | |path op| | | | | | | | | | |]; try by apply HQ.
  destruct op; try by apply HQ. destruct (_ || _); [|by apply HQ]. apply rg_bind.
  eapply (rg_put A c s0 s' st0 st n body); [done..|]. intros r s2 _ Hl2. by apply HQ.
Qed.

Lemma found_condition s x n cas :
  x = match file_path system_view conversation_state_path ReadFile with
      | Ok v => es_get s v
      | Err e => Err e
      end ->
  round_condition fs_error_text n x = Ok cas ->
  exists version, seen state_key version s /\ cas = expectation_of version /\ condition_for n version.
Proof.
  intros ->. unfold round_condition. destruct (file_path _ _ ReadFile) as [v|] eqn:Hv; [|done].
  pose proof (file_path_key _ _ _ _ Hv) as Hkey. fold state_key in Hkey.
  destruct (es_get s v) as [o|] eqn:Hget; [|done]. pose proof (es_get_at s v o Hget) as Hat.
  rewrite Hkey in Hat. simpl. destruct o as [ve|]; simpl in Hat |- *.
  - destruct (conv_deserialize _) as [stored|] eqn:Hd; [|done]. destruct (Z.eqb_spec (sc_revision stored) n); [|done].
    intros [= <-]. exists (Some (ve_entry ve, ve_version ve)). split; [done|]. split; [done|].
    exists (into_state stored). unfold decoded. rewrite Hd. by subst.
  - destruct (Z.eqb_spec n 0); [|done]. intros [= <-]. by exists None.
Qed.

Lemma rg_rounds A (c : conv_call A) rounds s st0 st n body entry (Q : _ -> _ -> Prop) :
  saving c st n body -> entry_body entry = body -> loaded_before st n s ->
  (forall r s', loaded_before st n s' -> Q r s') ->
  rg cfs_handle cfs_rely cfs_guar (existT A (c, st0)) (save_rounds fs_error_text rounds n entry) Q s.
Proof.
  intros Hsv Hbody Hl HQ. revert s Hl. induction rounds as [|rounds IH]; intros s Hl; [by apply HQ|].
  cbn [save_rounds pbind trigger rg]. intros s1 s2 x Hrely [-> Hx]. split; [apply cfs_same|].
  pose proof (loaded_rely _ _ _ _ _ Hl Hrely) as Hl1.
  destruct (round_condition _ _ _) as [cas|e] eqn:Hcas; [|by apply HQ].
  destruct (found_condition _ _ _ _ Hx Hcas) as (version & Hseen & -> & Hcond).
  apply rg_bind. eapply (rg_fallback A c s1 s1 st0 st n body); try done; [apply entries_grow_refl|].
  intros r s' Hl'. destruct r as [m|e]; [by apply HQ|]. destruct e; try by apply HQ. by apply IH.
Qed.

Lemma decoded_saved n st' body :
  conv_serialize (from_state (n + 1) st') = Ok body -> decoded body = Some (set_revision 0 st', n + 1).
Proof.
  unfold conv_serialize, map_err, decoded, conv_deserialize.
  destruct (conv_to_vec _) as [b|] eqn:Hb; [|done]. intros [= <-]. rewrite (conv_from_to _ _ Hb). cbn [map_err].
  by destruct (stored_state_reads_back _ _ _ (from_state_form (n + 1) st')) as [-> ->].
Qed.

Lemma rg_save A (c : conv_call A) fresh s st0 st n st' a (Q : _ -> _ -> Prop) :
  conv_reachable host_error_text st -> fresh_ok fresh (set_revision n st) ->
  conv_section fresh host_error_text c (set_revision n st) = (st', Ok (Commit a)) ->
  loaded_before st n s -> (forall r s', loaded_before st n s' -> Q r s') ->
  rg cfs_handle cfs_rely cfs_guar (existT A (c, st0)) (save_state fs_error_text n st') Q s.
Proof.
  intros Hr Hf Hrun Hl HQ. unfold save_state.
  destruct (checked_add_max i64_max n 1) as [n'|] eqn:Hn; [|by apply HQ].
  apply checked_add_max_some in Hn as [-> _].
  destruct (conv_serialize _) as [body|] eqn:Hbody; [|by apply HQ]. apply rg_bind.
  eapply (rg_rounds A c _ s st0 st n body); [| | done | intros r s' Hl'; by apply HQ].
  - split; [done|]. exists fresh, st', a. split_and!; [done..|by apply decoded_saved].
  - unfold conv_state_entry. by destruct (collect_tenant_ids st').
Qed.

(** No section changes the revision it was given. *)
Lemma section_revision fresh A (c : conv_call A) :
  keeps cs_persistence_revision (conv_section fresh host_error_text c).
Proof. solve_keeps c. Qed.

Lemma found_state s x st n :
  x = match file_path system_view conversation_state_path ReadFile with
      | Ok v => es_get s v
      | Err e => Err e
      end ->
  (let? versioned := filesystem_error fs_error_text x in
   match versioned with
   | None => Ok (InMemoryState_default, 0)
   | Some versioned =>
       let? stored := conv_deserialize (entry_body (ve_entry versioned)) in
       Ok (into_state stored, sc_revision stored)
   end) = Ok (st, n) ->
  held s = Some (st, n).
Proof.
  intros ->. destruct (file_path _ _ ReadFile) as [v|] eqn:Hv; [|done].
  pose proof (file_path_key _ _ _ _ Hv) as Hkey. fold state_key in Hkey.
  destruct (es_get s v) as [o|] eqn:Hget; [|done]. pose proof (es_get_at s v o Hget) as Hat.
  rewrite Hkey in Hat. unfold held. rewrite <- Hat. simpl. destruct o as [ve|]; simpl; [|congruence].
  unfold decoded. destruct (conv_deserialize _); [|done]. congruence.
Qed.

Lemma rg_conv_call a s :
  durable_state s -> rg cfs_handle cfs_rely cfs_guar a (conv_job a) (fun _ _ => True) s.
Proof.
  intros Hd. destruct a as [A [c st0] ]. unfold conv_job, filesystem_call, service_call. cbn [projT1 projT2 fst snd].
  apply rg_bind. cbn [refresh_state_from_repository pbind trigger interp filesystem_repository].
  apply rg_bind. unfold load_state. cbn [pbind trigger rg].
  intros s1 s2 x (_ & _ & Hd1) [-> Hx]. split; [apply cfs_same|]. specialize (Hd1 Hd).
  match goal with |- context [result_map _ ?y] => destruct y as [ [st n]|e] eqn:Hload end; [|done].
  pose proof (found_state _ _ _ _ Hx Hload) as Hheld. clear Hload.
  assert (loaded_before st n s1) as Hl. { split; [done|]. exists s1. split; [done | apply revisions_refl]. }
  cbn [result_map pbind trigger interp filesystem_repository rg fst snd].
  intros s3 s4 fresh Hrely [-> Hf]. split; [apply cfs_same|].
  pose proof (loaded_rely _ _ _ _ _ Hl Hrely) as Hl3.
  assert (conv_reachable host_error_text st) as Hr.
  { destruct Hd1 as (st1 & n1 & Hh1 & Hr1). rewrite Hheld in Hh1. by injection Hh1 as <- <-. }
  destruct (conv_section fresh host_error_text c (set_revision n st)) as [st' r] eqn:Hrun.
  destruct r as [ [a|a]|e]; [done| |done]. cbn [persist_state pbind trigger interp filesystem_repository].
  pose proof (section_revision fresh A c (set_revision n st)) as Hrev. rewrite Hrun in Hrev.
  cbn [fst] in Hrev. cbn in Hrev. rewrite Hrev. apply rg_bind.
  eapply (rg_save A c fresh s3 st0 st n st' a); [done..|]. intros y s5 Hl5. done.
Qed.

(** *** What a call returns *)

(** The put was carried out, or may have been: it was not refused. *)
Definition state_write (ev : event cfsE) : bool :=
  match ev with
  | @Ev _ X e x =>
      match e in cfsE X return X -> bool with
      | CfPut _ _ => fun r => match r with Ok _ => true | Err x => negb (put_refused x) end
      | _ => fun _ => false
      end x
  end.
Definition no_state_write (t : list (event cfsE)) : Prop := Forall (fun ev => state_write ev = false) t.

(** The last of the calls is the write of [body], the only one, and [answer] its answer. *)
Definition last_write (body : string) (t : list (event cfsE))
    (answer : result RecordVersion FilesystemError) : Prop :=
  exists t0 entry cas, t = t0 ++ [Ev (CfPut entry cas) answer]
    /\ no_state_write t0 /\ entry_body entry = body.

(** The write of [body] ended with an error that does not say whether it was carried out. *)
Definition write_unknown (body : string) (t : list (event cfsE)) (x : FilesystemError) : Prop :=
  last_write body t (Err x) /\ put_refused x = false.

(** The calls of a save: one write, the last of them, when it succeeds; when it fails none,
    or a last one whose outcome is unknown. *)
Definition wrote {R E} (body : string) (t : list (event cfsE)) (r : result R E) : Prop :=
  match r with
  | Ok _ => exists m, last_write body t (Ok m)
  | Err _ => no_state_write t \/ exists x, write_unknown body t x
  end.

Lemma last_write_prefix body t1 t answer :
  no_state_write t1 -> last_write body t answer -> last_write body (t1 ++ t) answer.
Proof.
  intros H1 (t0 & entry & cas & -> & H0 & Hb). exists (t1 ++ t0), entry, cas.
  split_and!; [by rewrite app_assoc | by apply Forall_app | done].
Qed.

Lemma wrote_prefix {R E} body t1 t (r : result R E) :
  no_state_write t1 -> wrote body t r -> wrote body (t1 ++ t) r.
Proof.
  intros H1. destruct r; simpl.
  - intros [m Hl]. exists m. by apply last_write_prefix.
  - intros [H|(x & Hl & Hx)]; [left; by apply Forall_app|].
    right. exists x. split; [by apply last_write_prefix | done].
Qed.

(** One put: the whole of the calls. *)
Lemma put_wrote {R} entry cas answer (r : result R FilesystemError) :
  result_map (fun _ => tt) r = result_map (fun _ => tt) answer ->
  wrote (entry_body entry) [Ev (CfPut entry cas) answer] r
  /\ forall x, r = Err x -> put_refused x = true -> no_state_write [Ev (CfPut entry cas) answer].
Proof.
  intros Hr. assert (last_write (entry_body entry) [Ev (CfPut entry cas) answer] answer) as Hl.
  { exists [], entry, cas. by split_and!; [|constructor|]. }
  destruct r as [a|x], answer as [m|y]; try done.
  { split; [by exists m | done]. }
  injection Hr as <-. assert (put_refused x = true -> no_state_write [Ev (CfPut entry cas) (Err x)]) as Hno.
  { intros Hx. repeat constructor. simpl. by rewrite Hx. }
  split; [|by intros y [= <-] ]. destruct (put_refused x) eqn:Hx; [left; by apply Hno|].
  right. by exists x.
Qed.

(** A put refused for its version wrote nothing. *)
Lemma fallback_wrote entry cas t r :
  traces (put_with_projection_fallback entry cas) t r ->
  wrote (entry_body entry) t r
  /\ forall x, r = Err x -> put_refused x = true -> no_state_write t.
Proof.
  unfold put_with_projection_fallback. cbn [pbind trigger traces]. intros (x & t' & -> & Ht).
  destruct x as [m|e]; [destruct Ht as [-> ->]; by apply put_wrote|].
  assert (t' = [] /\ r = Err e -> wrote (entry_body entry) (Ev (CfPut entry cas) (Err e) :: t') r
    /\ forall x, r = Err x -> put_refused x = true -> no_state_write (Ev (CfPut entry cas) (Err e) :: t')) as Herr.
  { intros [-> ->]. by apply put_wrote. }
  destruct e as [| | | | | |path op| | | | | | | | | | |]; try by apply Herr.
  destruct op; try by apply Herr. destruct (_ || _); [|by apply Herr].
  assert (no_state_write [Ev (CfPut entry cas) (Err (FsUnsupported path WriteFile))]) as H1
    by by repeat constructor.
  cbn [pbind trigger traces] in Ht. destruct Ht as (y & t2 & -> & -> & ->).
  match goal with |- context [Ev (CfPut ?en ?ca) y] =>
    destruct (put_wrote en ca y (result_map (fun _ => tt) y)) as [Hw Hno]; [by destruct y|] end.
  split; [by apply (wrote_prefix _ [_] [_])|]. intros x Hx Hr.
  apply (Forall_app _ [_] [_]). split; [done | by eapply Hno].
Qed.

Lemma rounds_wrote rounds n entry t r :
  traces (save_rounds fs_error_text rounds n entry) t r -> wrote (entry_body entry) t r.
Proof.
  revert t. induction rounds as [|rounds IH]; intros t; [by intros [-> ->]; left; constructor|].
  cbn [save_rounds pbind trigger traces]. intros (x & t' & -> & Ht).
  apply (wrote_prefix _ [_]); [by repeat constructor|]. revert Ht.
  destruct (round_condition _ _ _) as [cas|e]; [|by intros [-> ->]; left; constructor].
  intros (t1 & t2 & put & -> & [H1 Hno]%fallback_wrote & H2)%traces_bind.
  destruct put as [m|e]; [destruct H2 as [-> ->]; by rewrite app_nil_r|].
  assert (forall e', t2 = [] /\ r = Err e' -> wrote (entry_body entry) (t1 ++ t2) r) as Herr.
  { intros e' [-> ->]. by rewrite app_nil_r. }
  destruct e; try (by eapply Herr). apply wrote_prefix; [by eapply Hno | by apply IH].
Qed.

(** The calls [t] of [c] that ended with [r]: an answer is that of the section on the state
    loaded, and what it committed is the last thing written; an error wrote nothing, or the
    last thing was the write of what a section committed, of unknown outcome. *)
Definition call_settled_as {A} (c : conv_call A) (t : list (event cfsE))
    (r : result A InboundTurnError) : Prop :=
  match r with
  | Err _ => no_state_write t
      \/ exists st n fresh st' a body x, Ev (CfDraw (set_revision n st)) fresh ∈ t
           /\ conv_section fresh host_error_text c (set_revision n st) = (st', Ok (Commit a))
           /\ write_unknown body t x /\ decoded body = Some (set_revision 0 st', n + 1)
  | Ok a => exists st n fresh st', Ev (CfDraw (set_revision n st)) fresh ∈ t
      /\ ((conv_section fresh host_error_text c (set_revision n st) = (st', Ok (Return a)) /\ no_state_write t)
          \/ (conv_section fresh host_error_text c (set_revision n st) = (st', Ok (Commit a))
              /\ exists body, wrote body t r /\ decoded body = Some (set_revision 0 st', n + 1)))
  end.

Lemma filesystem_call_settled A (c : conv_call A) st0 t r :
  traces (filesystem_call host_error_text fs_error_text c st0) t r -> call_settled_as c t r.2.
Proof.
  unfold filesystem_call, service_call.
  cbn [refresh_state_from_repository pbind trigger interp filesystem_repository].
  unfold load_state. cbn [pbind trigger traces]. intros (x & t1 & -> & Ht). revert Ht.
  match goal with |- context [result_map _ ?y] => destruct y as [ [st n]|e] end.
  2: { intros [-> ->]. left. by repeat constructor. }
  cbn [result_map pbind trigger interp filesystem_repository traces fst snd].
  intros (fresh & t2 & -> & Ht). revert Ht.
  destruct (conv_section fresh host_error_text c (set_revision n st)) as [st' out] eqn:Hrun.
  assert (forall t2, Ev (CfDraw (set_revision n st)) fresh ∈ Ev CfGet x :: Ev (CfDraw (set_revision n st)) fresh :: t2)
    as Hin by (intros; apply list_elem_of_further, list_elem_of_here).
  destruct out as [ [a|a]|e].
  - intros [-> ->]. exists st, n, fresh, st'. split; [by apply Hin|]. left. by repeat constructor.
  - cbn [persist_state pbind trigger interp filesystem_repository]. unfold save_state.
    pose proof (section_revision fresh A c (set_revision n st)) as Hrev. rewrite Hrun in Hrev.
    cbn in Hrev. rewrite Hrev.
    destruct (checked_add_max i64_max n 1) as [n'|] eqn:Hn; [|intros [-> ->]; left; by repeat constructor].
    apply checked_add_max_some in Hn as [-> _].
    destruct (conv_serialize _) as [body|] eqn:Hbody; [|intros [-> ->]; left; by repeat constructor].
    intros (t3 & t4 & saved & -> & H3 & -> & ->)%traces_bind. rewrite app_nil_r.
    apply traces_bind in H3 as (t5 & t6 & put & -> & H5%rounds_wrote & -> & ->). rewrite app_nil_r.
    assert (entry_body (conv_state_entry body st') = body) as Heb.
    { unfold conv_state_entry. by destruct (collect_tenant_ids st'). }
    rewrite Heb in H5. apply (wrote_prefix _ [Ev CfGet x; Ev (CfDraw (set_revision n st)) fresh]) in H5;
      [|by repeat constructor].
    destruct put as [m|e].
    2: { destruct H5 as [H5|[y H5] ]; [by left|]. right. exists st, n, fresh, st', a, body, y.
         split_and!; [by apply Hin | done | done | by apply decoded_saved]. }
    exists st, n, fresh, st'. split; [by apply Hin|]. right.
    split; [done|]. exists body. split; [done | by apply decoded_saved].
  - intros [-> ->]. left. by repeat constructor.
Qed.

(** C23: the filesystem store is the conversation services, whatever calls of whatever
    processes are interleaved and whatever errors the filesystem answers, lost
    acknowledgements of writes that were carried out among them.  From an entry that is
    absent or holds a reachable state, the entry always holds a reachable state; every step
    leaves what it holds alone or replaces it by the outcome of one section on the state
    that it held at that moment, with the next revision.  A call that returns an answer has
    the answer of its section on the state it loaded, and what the section committed is
    the last thing it wrote.  A call that returns an error had every write refused (version
    mismatch, unsupported), or ended with the write of what its section committed, answered
    by another error: then whether it was carried out is unknown. *)
Theorem filesystem_conversations_linearize s0 conf :
  durable_state s0 ->
  rtc (pool_step cfs_handle (fun a p _ _ => p = conv_job a)) (s0, []) conf ->
  durable_state conf.1
  /\ (forall conf', pool_step cfs_handle (fun a p _ _ => p = conv_job a) conf conf' ->
        held conf'.1 = held conf.1
        \/ exists i (a : conv_label) p, conf.2 !! i = Some (a, p) /\ commits_section (projT2 a).1 conf.1 conf'.1)
  /\ (forall A (c : conv_call A) st t r,
        traces (filesystem_call host_error_text fs_error_text c st) t r -> call_settled_as c t r.2).
Proof.
  intros Hd Hrun.
  assert (pool_ok cfs_handle cfs_rely cfs_guar (fun _ _ _ => True) durable_state (fun _ _ => True) conf)
    as (Hok & Hrg & _).
  { eapply pool_reach_ok; [| | done | | | | exact Hd | exact Hrun].
    - intros a s. split_and!; [apply entries_grow_refl | apply revisions_refl | done].
    - intros a s1 s2 s3 (H1 & H2 & H3) (H4 & H5 & H6).
      split_and!; [by eapply entries_grow_trans | by eapply revisions_trans | auto].
    - intros a s s' Hg Hs. by apply (cfs_guar_rely a a s s' Hs Hg).
    - intros a b s s' _ Hs Hg. by eapply cfs_guar_rely.
    - intros a p l s -> Hs. split; [by apply rg_conv_call|]. by apply Forall_true. }
  split_and!; [done | | intros; by eapply filesystem_call_settled].
  intros conf' Hstep. clear Hok Hrun. revert Hrg.
  destruct Hstep as [s s' ps i a X e k x Hl Hh|s ps a p ->]; [|by left]. cbn [fst snd]. intros Hrg.
  destruct (Hrg i a _ Hl s s' x) as [ [_ [Hc|Hc] ] _]; [|done|by left|].
  - split_and!; [apply entries_grow_refl | apply revisions_refl | done].
  - right. by exists i, a, (Call e k).
Qed.

End Linear.
