(* ===== verification/Inbound.v ===== *)
(** * Conversations: inbound turns

    [crates/brassclaw_conversations/src/inbound.rs] and [trusted_trigger.rs], with
    [brassclaw_safety/src/prompt_validation.rs]: an inbound event is answered by the turn
    of its message.  [handle_inbound_turn] looks for an accepted message of the event, or
    resolves the binding and accepts the event as one; then it replays the submission
    recorded for the message, or submits the message's turn under the message's key and
    records the answer, or, after a retryable failure, gives the message a new key.  A
    trusted trigger fire goes the same way, after its prompt passed the injection scan.

    A handler is a program over [inboundE]: calls of the conversation services and of the
    turn coordinator; [InboundPool] runs any number of them at once and has the theorems. *)

From S2P Require Import Prelude Effects External HostIds HostTypes RunProfile TurnTypes.
From S2P Require Import TurnSnapshot Triggers TriggerPoller ConvTypes Conversations.
Open Scope Z_scope.

(** ** The calls of a handler *)

Inductive inboundE : Type -> Type :=
| InConv {A} (c : conv_call A) : inboundE (result A InboundTurnError)
| InSubmit (request : SubmitTurnRequest) : inboundE (result SubmitTurnResponse TurnError).

Definition conv {A} (c : conv_call A) : prog inboundE (result A InboundTurnError) := trigger (InConv c).

Inductive BindingResolutionPolicy : Type :=
| Untrusted
| Trusted (trusted_agent_id : option AgentId) (trusted_project_id : option ProjectId).

Definition should_rotate_submit_key (error : TurnError) : bool :=
  match error with
  | TeThreadBusy _ | TeUnavailable _ => true
  | TeAdmissionRejected rejection =>
      match rj_reason rejection with ArTenantLimit | ArUnavailable => true | _ => false end
  | TeScopeNotFound | TeUnauthorized | TeInvalidRequest _ | TeCapacityExceeded _ _ | TeConflict _
  | TeInvalidTransition _ _ | TeLeaseMismatch => false
  end.

(** [resolution.actor = accepted_message.actor.clone()] *)
Definition with_resolution_actor (r : ConversationBindingResolution) (actor : TurnActor) :
    ConversationBindingResolution :=
  mk_ConversationBindingResolution (cb_tenant_id r) actor (cb_turn_scope r)
    (cb_source_binding_ref r) (cb_reply_target_binding_ref r) (cb_access r).

Definition submit_request_of (resolution : ConversationBindingResolution)
    (m : AcceptedInboundMessage) (key : IdempotencyKey) : SubmitTurnRequest :=
  mk_SubmitTurnRequest (cb_turn_scope resolution) (am_actor m) (am_message_ref m)
    (am_source_binding_ref m) (am_reply_target_binding_ref m) (am_requested_run_profile m) key
    (am_received_at m) None None 0 None.

(** The second half of [submit_or_replay]: nothing is recorded for the message. *)
Definition submit_message (resolution : ConversationBindingResolution) (m : AcceptedInboundMessage) :
    prog inboundE (result InboundTurnResponse InboundTurnError) :=
  let!? key := conv (CvSubmissionKey (am_message_ref m)) in
  let! submitted := trigger (InSubmit (submit_request_of resolution m key)) in
  match submitted with
  | Err error =>
      if should_rotate_submit_key error then
        let!? _ := conv (CvRotateKey (am_message_ref m)) in
        Ret (Err (IeTurnSubmissionFailed error))
      else Ret (Err (IeTurnSubmissionFailed error))
  | Ok turn_submission =>
      let!? _ := conv (CvMarkSubmitted (am_message_ref m) turn_submission) in
      Ret (Ok (mk_InboundTurnResponse resolution m (Some turn_submission) false))
  end.

Definition submit_or_replay (resolution : ConversationBindingResolution) (m : AcceptedInboundMessage) :
    prog inboundE (result InboundTurnResponse InboundTurnError) :=
  let resolution := with_resolution_actor resolution (am_actor m) in
  if bool_decide (am_idempotency m = Duplicate) then
    let!? recorded := conv (CvSubmission (am_message_ref m)) in
    match recorded with
    | Some turn_submission =>
        Ret (Ok (mk_InboundTurnResponse resolution m (Some turn_submission) true))
    | None => submit_message resolution m
    end
  else submit_message resolution m.

Definition replay_lookup_of (r : InboundTurnRequest) : AcceptedInboundMessageLookup :=
  mk_AcceptedInboundMessageLookup (iq_tenant_id r) (iq_adapter_kind r)
    (iq_adapter_installation_id r) (iq_external_actor_ref r) (iq_external_conversation_ref r)
    (iq_external_event_id r).

Definition resolve_request_of (r : InboundTurnRequest) (policy : BindingResolutionPolicy) :
    ResolveConversationRequest :=
  let '(agent, project) :=
    match policy with
    | Untrusted => (iq_requested_agent_id r, iq_requested_project_id r)
    | Trusted _ _ => (None, None)
    end in
  mk_ResolveConversationRequest (iq_tenant_id r) (iq_adapter_kind r) (iq_adapter_installation_id r)
    (iq_external_actor_ref r) (iq_external_conversation_ref r) (iq_external_event_id r)
    (iq_route_kind r) agent project.

(** [resolve_or_create_binding] or [resolve_or_create_binding_with_trusted_scope]. *)
Definition resolve_call (r : InboundTurnRequest) (policy : BindingResolutionPolicy) :
    conv_call ConversationBindingResolution :=
  match policy with
  | Untrusted => CvResolve (resolve_request_of r policy) None None None
  | Trusted agent project => CvResolve (resolve_request_of r policy) agent project None
  end.

Definition accept_request_of (r : InboundTurnRequest) (resolution : ConversationBindingResolution) :
    AcceptInboundMessageRequest :=
  mk_AcceptInboundMessageRequest (cb_tenant_id resolution) (ts_thread_id (cb_turn_scope resolution))
    (cb_actor resolution) (iq_adapter_kind r) (iq_adapter_installation_id r)
    (iq_external_actor_ref r) (cb_source_binding_ref resolution)
    (cb_reply_target_binding_ref resolution) (iq_external_conversation_ref r)
    (iq_external_event_id r) (iq_route_kind r) (iq_content_ref r) (iq_received_at r)
    (iq_requested_run_profile r).

Definition handle_inbound_turn_inner (r : InboundTurnRequest) (policy : BindingResolutionPolicy) :
    prog inboundE (result InboundTurnResponse InboundTurnError) :=
  let!? replay := conv (CvReplay (replay_lookup_of r)) in
  match replay with
  | Some replay => submit_or_replay (rp_resolution replay) (rp_accepted_message replay)
  | None =>
      let!? resolution := conv (resolve_call r policy) in
      let!? accepted := conv (CvAccept (accept_request_of r resolution)) in
      submit_or_replay resolution accepted
  end.

Definition handle_inbound_turn (r : InboundTurnRequest) :
    prog inboundE (result InboundTurnResponse InboundTurnError) :=
  handle_inbound_turn_inner r Untrusted.
Definition handle_inbound_turn_with_trusted_scope (r : TrustedInboundTurnRequest) :
    prog inboundE (result InboundTurnResponse InboundTurnError) :=
  handle_inbound_turn_inner (tr_request r) (Trusted (tr_trusted_agent_id r) (tr_trusted_project_id r)).

(** ** The injection scan: [prompt_validation.rs] *)

Inductive Severity : Type := SevLow | SevMedium | SevHigh | SevCritical.
Definition Severity_value (s : Severity) : Z :=
  match s with SevLow => 1 | SevMedium => 2 | SevHigh => 3 | SevCritical => 4 end.

Record InjectionWarning : Type := mk_InjectionWarning {
  iw_pattern : string; iw_severity : Severity; iw_location : nat * nat; iw_description : string }.

(** [InjectionScanner::scan_injection]. *)
Definition InjectionScanner : Type := string -> list InjectionWarning.

(** The first warning of severity [High] or [Critical]; the counts are only logged. *)
Definition validate_trusted_trigger_prompt (prompt_safety : InjectionScanner) (prompt : string) :
    result unit string :=
  match List.find (fun w => Severity_value SevHigh <=? Severity_value (iw_severity w))
          (prompt_safety prompt) with
  | Some warning => Err ("trusted trigger prompt rejected by safety scan: " +:+ iw_description warning)
  | None => Ok tt
  end.

(** ** Trusted trigger fires *)

Inductive TrustedTriggerInboundFailureKind : Type :=
| RetryableBackend | SubmitRejected | InboundRequestRejected.

Definition classify_inbound_error (error : InboundTurnError) : TrustedTriggerInboundFailureKind :=
  match error with
  | IeTurnSubmissionFailed (TeThreadBusy _) => RetryableBackend
  | IeTurnSubmissionFailed (TeAdmissionRejected rejection) =>
      match rj_reason rejection with
      | ArTenantLimit | ArUnavailable => RetryableBackend
      | ArProfileRejected | ArPolicy | ArUnauthorized => SubmitRejected
      end
  | IeTurnSubmissionFailed (TeUnavailable _ | TeCapacityExceeded _ _ | TeConflict _) => RetryableBackend
  | IeTurnSubmissionFailed (TeScopeNotFound | TeUnauthorized | TeInvalidRequest _
                            | TeInvalidTransition _ _ | TeLeaseMismatch) => SubmitRejected
  | IeInvalidExternalRef _ _ | IeBindingRequired _ _ | IeAccessDenied _ _ | IeBindingConflict _
  | IeThreadNotFound _ | IeStatePoisoned | IeInvalidCanonicalRef _ => InboundRequestRejected
  | IeDurableState _ => RetryableBackend
  end.

Definition classify_trusted_trigger_inbound_error (error : InboundTurnError) : TriggerError :=
  match classify_inbound_error error with
  | RetryableBackend => TgBackend "trusted trigger submit retryable failure"
  | SubmitRejected => TgInvalidMaterialization "trusted trigger submit rejected"
  | InboundRequestRejected => TgInvalidMaterialization "trusted trigger inbound request rejected"
  end.

Definition trusted_inbound_request_from_trigger (request : TrustedTriggerSubmitRequest) :
    result TrustedInboundTurnRequest InboundTurnError :=
  let fire := tq_fire request in
  let binding := mp_trusted_inbound_binding (tq_materialized_prompt request) in
  let? adapter_kind := ext_id_new KAdapterKind (tb_adapter_kind binding) in
  let? installation := ext_id_new KAdapterInstallation (tb_adapter_installation_id binding) in
  let? actor := ExternalActorRef_new (tb_external_actor_namespace binding)
                  (tb_external_actor_id binding) in
  let? conversation := ExternalConversationRef_new None (tb_external_conversation_id binding)
                         (Some (tb_route_thread_id binding)) None in
  let? event := ext_id_new KExternalEvent (tb_external_event_id binding) in
  let? content := ext_id_new KInboundContent
                    (content_ref_str (mp_content_ref (tq_materialized_prompt request))) in
  Ok (mk_TrustedInboundTurnRequest
        (mk_InboundTurnRequest (fi_tenant_id (fire_identity fire)) adapter_kind installation actor
           conversation event Direct content None None (tq_received_at request) None)
        (fire_agent_id fire) (fire_project_id fire)).

Definition submit_trusted_trigger_outcome (response : InboundTurnResponse) (submitted_at : Timestamp) :
    result TrustedTriggerFireSubmitOutcome TriggerError :=
  match ir_turn_submission response with
  | None => Err (TgBackend "trusted trigger fire accepted no turn submission")
  | Some submission =>
      if ir_replayed_turn_submission response
      then Ok (TriggerPoller.SubmitReplayed (sr_run_id submission) submitted_at)
      else Ok (TriggerPoller.SubmitAccepted (sr_run_id submission) submitted_at)
  end.

Definition submit_trusted_trigger_fire (prompt_safety : InjectionScanner)
    (request : TrustedTriggerSubmitRequest) :
    prog inboundE (result TrustedTriggerFireSubmitOutcome TriggerError) :=
  let submitted_at := tq_received_at request in
  match validate_trusted_trigger_prompt prompt_safety (fire_prompt (tq_fire request)) with
  | Err reason => Ret (Err (TgInvalidMaterialization reason))
  | Ok _ =>
      match trusted_inbound_request_from_trigger request with
      | Err e => Ret (Err (classify_trusted_trigger_inbound_error e))
      | Ok trusted =>
          let! response := handle_inbound_turn_with_trusted_scope trusted in
          Ret match response with
              | Err e => Err (classify_trusted_trigger_inbound_error e)
              | Ok response => submit_trusted_trigger_outcome response submitted_at
              end
      end
  end.
