(* ===== verification/InboundPool.v ===== *)
(** * Conversations: concurrent inbound turns

    Any number of inbound events, trusted trigger fires and administrative calls are
    handled at the same time, over one conversation state and one turn coordinator; an
    event may be delivered any number of times.  A call of the conversation services is one
    section ([Conversations]; [ConvStore] shows that the filesystem store is that), answered
    or with its answer lost, or a failure of the store that changes nothing; the coordinator
    answers as it likes.

    The theorems: a turn is submitted only for an accepted message of a participant; all
    the submissions of an event are one request with one key, unless one of them failed in
    a way that can be retried, so that the coordinator's replays ([TurnReplay]) make them
    one turn; once the answer to a submission is recorded, its event is never submitted
    again; and a delivery answers what was recorded for the message of its own event. *)

From S2P Require Import Prelude Effects External HostIds HostTypes RunProfile TurnTypes.
From S2P Require Import TurnSnapshot Triggers TriggerPoller ConvTypes Conversations.
From S2P Require Import ConvInvariants ConvSafety Inbound.
Open Scope Z_scope.

(** ** The shared state and the jobs *)

Abbreviation submission := (SubmitTurnRequest * result SubmitTurnResponse TurnError)%type.

(** The conversation state; what the coordinator was asked and answered, in order; and, in
    order, the answers that were recorded for messages ([mark_inbound_message_submitted]),
    of which the state keeps the last of each message. *)
Record inbound_state : Type := mk_inbound_state {
  is_conv : InMemoryState; is_log : list submission;
  is_recorded : list (AcceptedMessageRef * SubmitTurnResponse) }.

Inductive inbound_job : Type :=
| JobTurn (r : InboundTurnRequest) (policy : BindingResolutionPolicy)
| JobFire (prompt_safety : InjectionScanner) (request : TrustedTriggerSubmitRequest)
| JobAdmin (A : Type) (c : conv_call A).

(** The calls that are not the handlers' own. *)
Definition admin_call {A} (c : conv_call A) : bool :=
  match c with
  | CvPair _ _ | CvUnpair _ | CvAddParticipant _ _ _ | CvLookup _ | CvResolve _ _ _ _ | CvLink _
  | CvValidateReply _ => true
  | _ => false
  end.

Inductive inbound_result : Type :=
| ResTurn (r : result InboundTurnResponse InboundTurnError)
| ResFire (r : result TrustedTriggerFireSubmitOutcome TriggerError)
| ResAdmin.

Definition job_prog (j : inbound_job) : prog inboundE inbound_result :=
  match j with
  | JobTurn r policy => let! x := handle_inbound_turn_inner r policy in Ret (ResTurn x)
  | JobFire scanner request => let! x := submit_trusted_trigger_fire scanner request in Ret (ResFire x)
  | JobAdmin _ c => let! _ := conv c in Ret ResAdmin
  end.

Definition request_event (r : InboundTurnRequest) : ExternalEventRouteKey :=
  mk_ExternalEventRouteKey (iq_tenant_id r) (iq_adapter_kind r) (iq_adapter_installation_id r)
    (iq_external_event_id r).

(** The external event that a job handles. *)
Definition job_event (j : inbound_job) : option ExternalEventRouteKey :=
  match j with
  | JobTurn r _ => Some (request_event r)
  | JobFire _ request =>
      match trusted_inbound_request_from_trigger request with
      | Ok trusted => Some (request_event (tr_request trusted))
      | Err _ => None
      end
  | JobAdmin _ _ => None
  end.

(** The answer of the event's turn is recorded. *)
Definition recorded_event (st : InMemoryState) (k : ExternalEventRouteKey) : Prop :=
  exists m, m ∈ cs_messages st /\ message_origin st m = Some k
  /\ message_ref m ∈ dom (cs_submitted_message_responses st).

(** A job, and whether its event was recorded when it started. *)
Definition inbound_label : Type := (inbound_job * bool)%type.

Definition answer_of {A} (r : result (done_with A) InboundTurnError) : result A InboundTurnError :=
  result_map (fun d => match d with Return a | Commit a => a end) r.

(** The answers recorded once the section [c] has run with the result [r]. *)
Definition recorded_after {A B} (c : conv_call A) (r : result B InboundTurnError)
    (l : list (AcceptedMessageRef * SubmitTurnResponse)) : list (AcceptedMessageRef * SubmitTurnResponse) :=
  match c with
  | CvMarkSubmitted mref x => if is_ok r then l ++ [(mref, x)] else l
  | _ => l
  end.

Section Pool.
Context {U : UuidText} {US : UuidShape U}.
Variable host_error_text : HostApiError -> string.

Definition inbound_handle X (e : inboundE X) (s s' : inbound_state) : X -> Prop :=
  match e in inboundE X return X -> Prop with
  | InConv c => fun x =>
      (exists fresh st r n, fresh_ok fresh (is_conv s)
         /\ conv_section fresh host_error_text c (is_conv s) = (st, r)
         /\ s' = mk_inbound_state (set_revision n st) (is_log s) (recorded_after c r (is_recorded s))
         /\ (x = answer_of r \/ exists reason, x = Err (IeDurableState reason)))
      \/ (s' = s /\ exists reason, x = Err (IeDurableState reason))
  | InSubmit q => fun x =>
      s' = mk_inbound_state (is_conv s) (is_log s ++ [(q, x)]) (is_recorded s)
  end.

Definition inbound_start (a : inbound_label) (p : prog inboundE inbound_result)
    (_ : list inbound_label) (s : inbound_state) : Prop :=
  p = job_prog a.1
  /\ match a.1 with JobAdmin _ c => admin_call c = true | _ => True end
  /\ (a.2 = true -> exists k, job_event a.1 = Some k /\ recorded_event (is_conv s) k).

Definition inbound_initial : inbound_state := mk_inbound_state InMemoryState_default [] [].

Definition inbound_reaches : inbound_state * list (inbound_label * prog inboundE inbound_result) -> Prop :=
  rtc (pool_step inbound_handle inbound_start) (inbound_initial, []).

(** ** The invariant *)

(** A submission of the message failed, and may be tried again. *)
Definition retried (log : list submission) (mref : AcceptedMessageRef) : Prop :=
  exists q e, (q, Err e) ∈ log /\ sq_accepted_message_ref q = mref /\ should_rotate_submit_key e = true.

(** A key of the message: its own reference, until a submission is to be tried again. *)
Definition key_for (log : list submission) (mref : AcceptedMessageRef) (k : IdempotencyKey) : Prop :=
  k = trusted_ref (ref_str mref) \/ retried log mref.

(** A scope of the message's turn: that of its binding, now or before. *)
Definition message_scope (st : InMemoryState) (m : ThreadMessageRecord) (scope : TurnScope) : Prop :=
  exists b b0, cs_source_bindings st !! ref_str (am_source_binding_ref (tm_accepted m)) = Some b
  /\ binding_evolves b0 b
  /\ scope = cb_turn_scope (BindingRecord_resolution b0 (ta_user_id (am_actor (tm_accepted m)))
                              (am_tenant_id (tm_accepted m))).

(** [q] submits the turn of [m]. *)
Record submits_message (s : inbound_state) (m : ThreadMessageRecord) (q : SubmitTurnRequest) : Prop := {
  sm_message : m ∈ cs_messages (is_conv s);
  sm_ref : sq_accepted_message_ref q = message_ref m;
  sm_actor : sq_actor q = am_actor (tm_accepted m);
  sm_source : sq_source_binding_ref q = am_source_binding_ref (tm_accepted m);
  sm_reply : sq_reply_target_binding_ref q = am_reply_target_binding_ref (tm_accepted m);
  sm_profile : sq_requested_run_profile q = am_requested_run_profile (tm_accepted m);
  sm_scope : message_scope (is_conv s) m (sq_scope q);
  sm_key : key_for (is_log s) (message_ref m) (sq_idempotency_key q) }.

Record inbound_inv (s : inbound_state) : Prop := {
  ii_conv : conv_inv (is_conv s);
  ii_log q x : (q, x) ∈ is_log s -> exists m, submits_message s m q;
  ii_keys mref k : cs_submission_keys (is_conv s) !! mref = Some k -> key_for (is_log s) mref k;
  ii_answers mref x : (mref, x) ∈ is_recorded s ->
    exists q, (q, Ok x) ∈ is_log s /\ sq_accepted_message_ref q = mref;
  ii_recorded mref x : cs_submitted_message_responses (is_conv s) !! mref = Some x ->
    (mref, x) ∈ is_recorded s }.

Record inbound_grows (s s' : inbound_state) : Prop := {
  ig_conv : evolves (is_conv s) (is_conv s');
  ig_log : is_log s `prefix_of` is_log s';
  ig_recorded : is_recorded s `prefix_of` is_recorded s' }.

#[export] Instance inbound_grows_preorder : PreOrder inbound_grows.
Proof. split; [by split|]. intros s1 s2 s3 [] []. split; by etrans. Qed.

Lemma retried_grows log log' mref : log `prefix_of` log' -> retried log mref -> retried log' mref.
Proof. intros [l ->] (q & e & Hin & H). exists q, e. split; [|done]. apply elem_of_app. by left. Qed.
Lemma key_for_grows log log' mref k : log `prefix_of` log' -> key_for log mref k -> key_for log' mref k.
Proof. intros Hl [H|H]; [by left|]. right. by eapply retried_grows. Qed.
Lemma message_scope_evolves st st' m scope : evolves st st' -> message_scope st m scope -> message_scope st' m scope.
Proof.
  intros He (b & b0 & Hb & Hev & ->). destruct (ev_sources _ _ He _ _ Hb) as (b' & Hb' & Hev').
  exists b', b0. split_and!; [done | by etrans | done].
Qed.
Lemma in_messages_evolves st st' m : evolves st st' -> m ∈ cs_messages st -> m ∈ cs_messages st'.
Proof. intros He Hm. destruct (ev_messages _ _ He) as [l ->]. apply elem_of_app. by left. Qed.
Lemma origin_evolves st st' m k : evolves st st' -> message_origin st m = Some k -> message_origin st' m = Some k.
Proof. intros He Ho. rewrite <- Ho. apply message_origin_mono; [done|]. by rewrite Ho. Qed.
Lemma recorded_evolves st st' k : evolves st st' -> recorded_event st k -> recorded_event st' k.
Proof.
  intros He (m & Hm & Ho & Hr). exists m. split_and!; [by eapply in_messages_evolves | by eapply origin_evolves|].
  by apply (ev_submitted _ _ He).
Qed.
Lemma submits_grows s s' m q : inbound_grows s s' -> submits_message s m q -> submits_message s' m q.
Proof.
  intros [He Hl] []. split; try done; [by eapply in_messages_evolves | by eapply message_scope_evolves|].
  by eapply key_for_grows.
Qed.

(** The services' sections that are not about keys and answers keep the invariant. *)
Lemma inv_conv_step s st :
  inbound_inv s -> step_ok (is_conv s) st ->
  cs_submission_keys st = cs_submission_keys (is_conv s) ->
  cs_submitted_message_responses st = cs_submitted_message_responses (is_conv s) ->
  inbound_inv (mk_inbound_state st (is_log s) (is_recorded s))
  /\ inbound_grows s (mk_inbound_state st (is_log s) (is_recorded s)).
Proof.
  intros [] [Hst Hev] Hk Hr.
  assert (inbound_grows s (mk_inbound_state st (is_log s) (is_recorded s))) as Hg by by split.
  split; [|done]. split; simpl; try done; [|by rewrite Hk | by rewrite Hr].
  intros q x Hin. destruct (ii_log0 q x Hin) as [m Hm]. exists m. by eapply submits_grows.
Qed.

(** ** Rely and guarantee *)

Definition inbound_rely (_ : inbound_label) (s s' : inbound_state) : Prop :=
  inbound_inv s -> inbound_inv s' /\ inbound_grows s s'.
(** A job whose event was recorded when it started submits nothing. *)
Definition inbound_guar (a : inbound_label) (s s' : inbound_state) : Prop :=
  (inbound_inv s -> inbound_inv s' /\ inbound_grows s s') /\ (a.2 = true -> is_log s' = is_log s).

Abbreviation rgi := (rg inbound_handle inbound_rely inbound_guar).

Lemma set_revision_inv n s :
  inbound_inv s -> inbound_inv (mk_inbound_state (set_revision n (is_conv s)) (is_log s) (is_recorded s))
  /\ inbound_grows s (mk_inbound_state (set_revision n (is_conv s)) (is_log s) (is_recorded s)).
Proof. intros Hs. apply inv_conv_step; try done. apply set_revision_ok, Hs. Qed.

Lemma recorded_after_prefix {A B} (c : conv_call A) (r : result B InboundTurnError) l :
  l `prefix_of` recorded_after c r l.
Proof. destruct c; simpl; try done. destruct (is_ok r); [by apply prefix_app_r | done]. Qed.

(** A call of the services: from the state after any steps of the others, a section, or a
    failure of the store that leaves the state as it is or with the section made. *)
Lemma rg_conv a A (c : conv_call A) (Q : result A InboundTurnError -> inbound_state -> Prop) s :
  inbound_inv s ->
  (forall s1 fresh st r, inbound_inv s1 -> inbound_grows s s1 -> fresh_ok fresh (is_conv s1) ->
     conv_section fresh host_error_text c (is_conv s1) = (st, r) ->
     let s1' := mk_inbound_state st (is_log s1) (recorded_after c r (is_recorded s1)) in
     inbound_inv s1' /\ (forall s2, inbound_inv s2 -> inbound_grows s1' s2 -> Q (answer_of r) s2)) ->
  (forall s1 reason, inbound_inv s1 -> inbound_grows s s1 -> Q (Err (IeDurableState reason)) s1) ->
  rgi a (conv c) Q s.
Proof.
  intros Hs Hrun Herr. cbn [conv trigger rg]. intros s1 s2 x Hrely Hh. destruct (Hrely Hs) as [Hs1 Hg1].
  destruct Hh as [(fresh & st & r & n & Hf & Hsec & -> & Hx)|[-> [reason ->] ] ].
  2: { split; [|by apply Herr]. by split. }
  destruct (Hrun _ _ _ _ Hs1 Hg1 Hf Hsec) as [Hst HQ].
  destruct (set_revision_inv n _ Hst) as [Hinv Hg]. cbn [is_conv is_log is_recorded] in Hinv, Hg.
  assert (inbound_grows s1 (mk_inbound_state (set_revision n st) (is_log s1)
            (recorded_after c r (is_recorded s1)))) as Hg2.
  { etrans; [|exact Hg]. destruct (section_post_run _ _ _ _ _ _ _ (ii_conv _ Hs1) Hf Hsec) as [ [_ Hev] _].
    split; [done | done | apply recorded_after_prefix]. }
  split; [by split|]. destruct Hx as [->|[reason ->] ]; [by apply HQ|]. apply Herr; [done|]. by etrans.
Qed.

(** The parts of the state that the invariant of this file adds. *)
Definition key_parts (st : InMemoryState) :=
  (cs_submission_keys st, cs_submitted_message_responses st).

Definition key_call {A} (c : conv_call A) : bool :=
  match c with CvSubmissionKey _ | CvRotateKey _ | CvMarkSubmitted _ _ => true | _ => false end.

Lemma section_key_parts fresh A (c : conv_call A) :
  key_call c = false -> keeps key_parts (conv_section fresh host_error_text c).
Proof. intros Hc. destruct c; try discriminate Hc; walk_keeps. Qed.

(** A call that is not about keys and answers. *)
Lemma rg_conv_plain a A (c : conv_call A) (Q : result A InboundTurnError -> inbound_state -> Prop) s :
  inbound_inv s -> key_call c = false ->
  (forall s1 fresh st r s2, inbound_inv s1 -> inbound_grows s s1 -> fresh_ok fresh (is_conv s1) ->
     conv_section fresh host_error_text c (is_conv s1) = (st, r) ->
     inbound_inv (mk_inbound_state st (is_log s1) (is_recorded s1)) ->
     inbound_inv s2 -> inbound_grows (mk_inbound_state st (is_log s1) (is_recorded s1)) s2 ->
     Q (answer_of r) s2) ->
  (forall s1 reason, inbound_inv s1 -> inbound_grows s s1 -> Q (Err (IeDurableState reason)) s1) ->
  rgi a (conv c) Q s.
Proof.
  intros Hs Hc HQ Herr. apply rg_conv; [done| |done]. intros s1 fresh st r Hs1 Hg1 Hf Hsec.
  destruct (section_post_run _ _ _ _ _ _ _ (ii_conv _ Hs1) Hf Hsec) as [Hok _].
  pose proof (section_key_parts fresh A c Hc (is_conv s1)) as Hk. rewrite Hsec in Hk.
  injection Hk as Hk1 Hk2. destruct (inv_conv_step s1 st Hs1 Hok Hk1 Hk2) as [Hst _].
  assert (recorded_after c r (is_recorded s1) = is_recorded s1) as -> by by destruct c.
  split; [done|]. intros s2 Hs2 Hg2. by apply (HQ s1 fresh st r s2).
Qed.

(** ** What a handler knows *)

(** The message that it handles, and a resolution of its route. *)
Record message_known (s : inbound_state) (k : ExternalEventRouteKey) (m : ThreadMessageRecord)
    (am : AcceptedInboundMessage) (resolution : ConversationBindingResolution) : Prop := {
  kn_message : m ∈ cs_messages (is_conv s);
  kn_am : am = tm_accepted m \/ am = as_duplicate (tm_accepted m);
  kn_origin : message_origin (is_conv s) m = Some k;
  kn_scope : message_scope (is_conv s) m (cb_turn_scope resolution) }.

Lemma message_known_grows s s' k m am res :
  inbound_grows s s' -> message_known s k m am res -> message_known s' k m am res.
Proof.
  intros [He _] []. split; [by eapply in_messages_evolves | done | by eapply origin_evolves|].
  by eapply message_scope_evolves.
Qed.

Lemma known_actor s k m am res :
  message_known s k m am res -> message_known s k m am (with_resolution_actor res (am_actor am)).
Proof. by intros []. Qed.

(** The coordinator answered [x] to a submission of the event's message, and [x] was
    recorded as the answer of that message. *)
Definition answered (s : inbound_state) (k : ExternalEventRouteKey) (x : SubmitTurnResponse) : Prop :=
  exists m q, m ∈ cs_messages (is_conv s) /\ message_origin (is_conv s) m = Some k
  /\ (q, Ok x) ∈ is_log s /\ sq_accepted_message_ref q = message_ref m
  /\ (message_ref m, x) ∈ is_recorded s.

Definition handled (k : ExternalEventRouteKey) (r : result InboundTurnResponse InboundTurnError)
    (s : inbound_state) : Prop :=
  inbound_inv s /\ forall response, r = Ok response ->
    exists x, ir_turn_submission response = Some x /\ answered s k x.

Lemma answered_grows s s' k x : inbound_grows s s' -> answered s k x -> answered s' k x.
Proof.
  intros [He [l Hl] [l' Hl'] ] (m & q & Hm & Ho & Hq & Hr & Hd). exists m, q.
  split_and!; [by eapply in_messages_evolves | by eapply origin_evolves | | done |].
  - rewrite Hl. apply elem_of_app. by left.
  - rewrite Hl'. apply elem_of_app. by left.
Qed.

Lemma handled_err k e s : inbound_inv s -> handled k (Err e) s.
Proof. by intros Hs. Qed.

(** ** Submitting *)

Lemma key_section fresh mref st st' r :
  conv_section fresh host_error_text (CvSubmissionKey mref) st = (st', r) ->
  (st' = st \/ st' = set_submission_keys (<[mref := trusted_ref (ref_str mref)]> (cs_submission_keys st)) st)
  /\ forall k, answer_of r = Ok k ->
       cs_submission_keys st !! mref = Some k \/ k = trusted_ref (ref_str mref).
Proof.
  cbn [conv_section]. unfold inbound_message_turn_submission_key, st_bind, st_read.
  destruct (cs_submission_keys st !! mref) as [k|].
  - intros [= <- <-]. split; [by left|]. intros k' [= <-]. by left.
  - unfold canonical, turn_ref_new. cbn [loop_ref_prefix].
    destruct (validate_ref _ _) as [ []|e]; intros [= <- <-].
    + split; [by right|]. intros k' [= <-]. by right.
    + split; [by left|]. done.
Qed.

Lemma inv_set_keys s mref k :
  inbound_inv s -> key_for (is_log s) mref k ->
  inbound_inv (mk_inbound_state (set_submission_keys (<[mref := k]> (cs_submission_keys (is_conv s))) (is_conv s))
                 (is_log s) (is_recorded s)).
Proof.
  intros [] Hk. split; simpl; try done.
  - by apply (inv_frame (is_conv s)).
  - intros q x Hin. destruct (ii_log0 q x Hin) as [m []]. exists m. by split.
  - intros mref' k' [[<- <-]|[_ Hl]]%lookup_insert_Some; [done | by apply ii_keys0].
Qed.

Lemma inv_set_submitted s q x :
  inbound_inv s -> (q, Ok x) ∈ is_log s ->
  inbound_inv (mk_inbound_state (set_submitted (<[sq_accepted_message_ref q := x]>
    (cs_submitted_message_responses (is_conv s))) (is_conv s)) (is_log s)
    (is_recorded s ++ [(sq_accepted_message_ref q, x)])).
Proof.
  intros [] Hq. split; simpl; try done.
  - apply (inv_frame (is_conv s)); try done. simpl. rewrite dom_insert. set_solver.
  - intros q' y Hin. destruct (ii_log0 q' y Hin) as [m []]. exists m. by split.
  - intros mref y [Hin|Hin]%elem_of_app; [by apply ii_answers0|].
    apply list_elem_of_singleton in Hin as [= -> ->]. by exists q.
  - intros mref y Hl. apply elem_of_app. apply lookup_insert_Some in Hl as [[<- <-]|[_ Hl]].
    + right. by apply list_elem_of_singleton.
    + left. by apply ii_recorded0.
Qed.

Lemma inv_submit s m q x :
  inbound_inv s -> submits_message s m q ->
  inbound_inv (mk_inbound_state (is_conv s) (is_log s ++ [(q, x)]) (is_recorded s))
  /\ inbound_grows s (mk_inbound_state (is_conv s) (is_log s ++ [(q, x)]) (is_recorded s)).
Proof.
  intros [] Hm.
  assert (inbound_grows s (mk_inbound_state (is_conv s) (is_log s ++ [(q, x)]) (is_recorded s))) as Hg.
  { split; [done | by apply prefix_app_r | done]. }
  split; [|done]. split; simpl; try done.
  - intros q' y [Hin|Hin]%elem_of_app.
    + destruct (ii_log0 q' y Hin) as [m' Hm']. exists m'. by eapply submits_grows.
    + apply list_elem_of_singleton in Hin as [= -> ->]. exists m. by eapply submits_grows.
  - intros mref k Hk. by eapply key_for_grows; [apply (ig_log _ _ Hg) | apply ii_keys0].
  - intros mref y Hy. destruct (ii_answers0 _ _ Hy) as (q' & Hq' & Hr). exists q'. split; [|done].
    apply elem_of_app. by left.
Qed.

(** The request of a known message, under a key for it, is a submission of it. *)
Lemma known_submits s k m am res key :
  inbound_inv s -> message_known s k m am res -> key_for (is_log s) (message_ref m) key ->
  submits_message s m (submit_request_of res am key).
Proof. intros Hs [Hm [->| ->] Ho Hsc] Hk; by split. Qed.

Lemma known_ref s k m am res : message_known s k m am res -> am_message_ref am = message_ref m.
Proof. by intros [_ [->| ->] _ _]. Qed.

(** The answer [x] of a submission of the message was recorded. *)
Lemma rg_conv_mark a s k m am res q x :
  inbound_inv s -> message_known s k m am res -> (q, Ok x) ∈ is_log s ->
  sq_accepted_message_ref q = message_ref m ->
  rgi a (let!? _ := conv (CvMarkSubmitted (am_message_ref am) x) in
         Ret (Ok (mk_InboundTurnResponse res am (Some x) false))) (handled k) s.
Proof.
  intros Hs Hk Hq Hr. apply rg_bind. apply rg_conv; [done| |].
  - intros s1 fresh st r Hs1 Hg1 _ Hsec. cbn in Hsec. injection Hsec as <- <-.
    rewrite (known_ref _ _ _ _ _ Hk), <- Hr.
    assert ((q, Ok x) ∈ is_log s1) as Hq1.
    { destruct (ig_log _ _ Hg1) as [l ->]. apply elem_of_app. by left. }
    split; [by apply inv_set_submitted|]. intros s2 Hs2 Hg2. cbn. split; [done|].
    intros response [= <-]. exists x. split; [done|]. apply (answered_grows _ _ _ _ Hg2).
    apply (message_known_grows _ _ _ _ _ _ Hg1) in Hk as [Hm _ Ho _].
    exists m, q. split_and!; [done..|]. simpl. apply elem_of_app. right. rewrite <- Hr.
    by apply list_elem_of_singleton.
  - intros s1 reason Hs1 _. by apply handled_err.
Qed.

(** A retryable failure of a submission of the message gives it a new key. *)
Lemma rg_rotate a s k mref e :
  inbound_inv s -> retried (is_log s) mref ->
  rgi a (let!? _ := conv (CvRotateKey mref) in Ret (Err (IeTurnSubmissionFailed e))) (handled k) s.
Proof.
  intros Hs Hr. apply rg_bind. apply rg_conv; [done| |].
  - intros s1 fresh st r Hs1 Hg1 _ Hsec. split.
    + cbn in Hsec. unfold committing, st_bind, rotate_inbound_message_turn_submission_key, st_bind, st_read in Hsec.
      destruct (state_generated_submission_key _) as [key|e1]; injection Hsec as <- <-; [|by destruct s1].
      apply inv_set_keys; [done|]. right. by eapply retried_grows; [apply Hg1|].
    + intros s2 Hs2 _. by destruct (answer_of r).
  - intros s1 reason Hs1 _. by apply handled_err.
Qed.

Lemma rg_submit_message a s k m am res :
  a.2 = false -> inbound_inv s -> message_known s k m am res ->
  rgi a (submit_message res am) (handled k) s.
Proof.
  intros Ha Hs Hk. unfold submit_message. rewrite (known_ref _ _ _ _ _ Hk). apply rg_bind.
  apply rg_conv; [done| |].
  - intros s1 fresh st r Hs1 Hg1 _ Hsec. apply key_section in Hsec as [Hst Hkey]. split.
    { destruct Hst as [->| ->]; [by destruct s1|]. apply inv_set_keys; [done|]. by left. }
    intros s2 Hs2 Hg2. destruct (answer_of r) as [key|e]; [|by apply handled_err].
    assert (key_for (is_log s2) (message_ref m) key) as Hkey2.
    { destruct (Hkey _ eq_refl) as [Hkey1| ->]; [|by left].
      eapply key_for_grows; [apply Hg2|]. by apply (ii_keys _ Hs1). }
    apply (message_known_grows _ _ _ _ _ _ Hg1) in Hk.
    assert (message_known s2 k m am res) as Hk2.
    { apply (message_known_grows _ _ _ _ _ _ Hg2). by destruct Hk, Hst as [->| ->]. }
    clear - US Ha Hs2 Hk2 Hkey2. cbn [trigger pbind rg]. intros s3 s4 x Hrely ->.
    destruct (Hrely Hs2) as [Hs3 Hg3]. apply (message_known_grows _ _ _ _ _ _ Hg3) in Hk2.
    apply (key_for_grows _ _ _ _ (ig_log _ _ Hg3)) in Hkey2.
    destruct (inv_submit s3 m _ x Hs3 (known_submits _ _ _ _ _ _ Hs3 Hk2 Hkey2)) as [Hs4 Hg4].
    split; [split; [done | congruence]|]. destruct x as [x|e].
    + rewrite <- (known_ref _ _ _ _ _ Hk2).
      eapply rg_conv_mark; [done | by eapply message_known_grows | |].
      * apply elem_of_app. right. by apply list_elem_of_singleton.
      * simpl. by apply (known_ref _ _ _ _ _ Hk2).
    + destruct (should_rotate_submit_key e) eqn:He; [|by apply handled_err].
      apply rg_rotate; [done|]. exists (submit_request_of res am key), e. split_and!; [ | | done].
      * apply elem_of_app. right. by apply list_elem_of_singleton.
      * simpl. by apply (known_ref _ _ _ _ _ Hk2).
  - intros s1 reason Hs1 _. by apply handled_err.
Qed.

(** A message whose answer is recorded, seen again. *)
Definition seen_again (a : inbound_label) (s : inbound_state) (m : ThreadMessageRecord)
    (am : AcceptedInboundMessage) : Prop :=
  a.2 = true -> am_idempotency am = Duplicate
  /\ message_ref m ∈ dom (cs_submitted_message_responses (is_conv s)).

Lemma rg_submit_or_replay a s k m am res :
  inbound_inv s -> message_known s k m am res -> seen_again a s m am ->
  rgi a (submit_or_replay res am) (handled k) s.
Proof.
  intros Hs Hk%known_actor Hrec. unfold submit_or_replay.
  case_bool_decide as Hdup; [|apply rg_submit_message with m; [|done..] ].
  2:{ destruct (a.2) eqn:Ha; [|done]. by destruct (Hrec Ha). }
  apply rg_bind. apply rg_conv_plain; [done|done| |].
  - intros s1 fresh st r s2 Hs1 Hg1 _ Hsec _ Hs2 Hg2. cbn in Hsec. injection Hsec as <- <-.
    assert (inbound_grows s1 s2) as Hg12 by (by destruct s1).
    rewrite (known_ref _ _ _ _ _ Hk). cbn.
    destruct (cs_submitted_message_responses (is_conv s1) !! message_ref m) as [x|] eqn:Hx.
    + split; [done|]. intros response [= <-]. exists x. split; [done|].
      pose proof (ii_recorded _ Hs1 _ _ Hx) as Hin.
      destruct (ii_answers _ Hs1 _ _ Hin) as (q & Hq & Hr). apply (answered_grows _ _ _ _ Hg12).
      destruct (message_known_grows _ _ _ _ _ _ Hg1 Hk) as [Hm _ Ho _]. by exists m, q.
    + apply rg_submit_message with m; [ |done|].
      * destruct (a.2) eqn:Ha; [|done]. destruct (Hrec Ha) as [_ Hd].
        apply (ev_submitted _ _ (ig_conv _ _ Hg1)) in Hd. apply elem_of_dom in Hd as [y Hy]. congruence.
      * apply (message_known_grows s); [by etrans | done].
  - intros s1 reason Hs1 _. by apply handled_err.
Qed.

(** ** The handlers *)

Lemma replay_section fresh lookup s st x :
  conv_inv s -> conv_section fresh host_error_text (CvReplay lookup) s = (st, Ok x) ->
  st = s /\ match x with
  | Return (Some replay) | Commit (Some replay) => exists m,
      m ∈ cs_messages s /\ rp_accepted_message replay = as_duplicate (tm_accepted m)
      /\ message_origin s m = Some (mk_ExternalEventRouteKey (lu_tenant_id lookup) (lu_adapter_kind lookup)
           (lu_adapter_installation_id lookup) (lu_external_event_id lookup))
      /\ message_scope s m (cb_turn_scope (rp_resolution replay))
  | _ => True
  end.
Proof.
  intros Hs. cbn [conv_section].
  unfold reading, replay_accepted_inbound_message, st_bind, st_read, st_ret, deny_unless.
  destruct (cs_message_replays s !! lookup_replay_key lookup) as [x0|] eqn:Hx; [|by intros [= <- <-]].
  case_bool_decide; [|done]. intros [= <- <-]. split; [done|].
  destruct (ci_replay _ Hs _ _ Hx) as (m & b & b0 & Hm & Ha & He & Hb & H1 & H2 & H3 & _ & Hev & Hres).
  exists m. simpl. split_and!; [done | by rewrite Ha | |].
  - unfold message_origin. rewrite Hb. cbn. unfold event_key_of. cbn in He, H1, H2, H3. congruence.
  - exists b, b0. by rewrite Hres.
Qed.

(** The one message of a recorded event. *)
Lemma recorded_message st m k :
  conv_inv st -> recorded_event st k -> m ∈ cs_messages st -> message_origin st m = Some k ->
  message_ref m ∈ dom (cs_submitted_message_responses st).
Proof.
  intros Hs (m0 & Hm0 & Ho0 & Hr0) [i Hi]%list_elem_of_lookup Ho. apply list_elem_of_lookup in Hm0 as [j Hj].
  assert (i = j) as -> by by eapply origin_unique. congruence.
Qed.

Lemma committing_answer A (m : ST A) s st r a :
  committing m s = (st, r) -> answer_of r = Ok a -> r = Ok (Commit a).
Proof.
  unfold committing, st_bind. destruct (m s) as [s1 [x|e] ]; intros [= <- <-]; [|done]. by intros [= ->].
Qed.

(** A resolution for the request, of a binding as it is or was. *)
Definition resolved_for (r : InboundTurnRequest) (st : InMemoryState)
    (res : ConversationBindingResolution) : Prop :=
  exists b b0 user, cs_source_bindings st !! ref_str (br_source_binding_ref b0) = Some b
  /\ binding_evolves b0 b /\ res = BindingRecord_resolution b0 user (iq_tenant_id r).

Lemma resolved_for_evolves r st st' res : evolves st st' -> resolved_for r st res -> resolved_for r st' res.
Proof.
  intros He (b & b0 & user & Hb & Hev & ->). destruct (ev_sources _ _ He _ _ Hb) as (b' & Hb' & Hev').
  exists b', b0, user. split_and!; [done | by etrans | done].
Qed.

(** The event of the request was recorded when the job started. *)
Definition recorded_since (a : inbound_label) (r : InboundTurnRequest) (s : inbound_state) : Prop :=
  a.2 = true -> recorded_event (is_conv s) (request_event r).

Lemma recorded_since_grows a r s s' : inbound_grows s s' -> recorded_since a r s -> recorded_since a r s'.
Proof. intros Hg Hr Ha. eapply recorded_evolves; [apply Hg | by apply Hr]. Qed.

(** The message of an accepted request is known. *)
Lemma accepted_known a r s fresh st res am :
  inbound_inv s -> recorded_since a r s -> fresh_ok fresh (is_conv s) -> resolved_for r (is_conv s) res ->
  conv_section fresh host_error_text (CvAccept (accept_request_of r res)) (is_conv s) = (st, Ok (Commit am)) ->
  exists m, message_known (mk_inbound_state st (is_log s) (is_recorded s)) (request_event r) m am res
         /\ seen_again a (mk_inbound_state st (is_log s) (is_recorded s)) m am.
Proof.
  intros Hs Hrec Hf (b & b0 & user & Hb & Hbe & ->) Hsec.
  destruct (section_post_run _ _ _ _ _ _ _ (ii_conv _ Hs) Hf Hsec) as [ [Hst Hev] _].
  destruct (accept_run _ _ _ _ _ _ (ii_conv _ Hs) Hsec _ eq_refl) as (m & Ho & Hsrc & Hten & Hm).
  cbn in Hsrc, Hten. destruct (ev_sources _ _ Hev _ _ Hb) as (b' & Hb' & Hbe').
  assert (m ∈ cs_messages st /\ (am = tm_accepted m \/ am = as_duplicate (tm_accepted m))) as [Hin Ham].
  { destruct Hm as [(-> & _ & ->)|(-> & -> & Hm)]; [|auto]. split; [|auto].
    apply elem_of_app. right. by apply list_elem_of_singleton. }
  exists m. split.
  - split; [done..|]. exists b', b0. rewrite Hsrc, Hten. split_and!; [done | by etrans | done].
  - intros Ha. destruct (Hrec Ha) as (m0 & Hm0 & Ho0 & Hr0).
    destruct Hm as [(-> & _ & Happ)|(-> & -> & _)].
    + apply list_elem_of_lookup in Hm0 as [i Hi]. exfalso.
      assert (i = length (cs_messages (is_conv s))) as ->.
      { eapply (origin_unique st); [done | rewrite Happ; by apply lookup_app_l_Some
                                   | rewrite Happ; by apply list_lookup_middle | | exact Ho].
        by apply (origin_evolves _ _ _ _ Hev). }
      apply lookup_lt_Some in Hi. lia.
    + split; [done|]. eapply recorded_message; [done | by exists m0 | done | exact Ho].
Qed.

Lemma rg_accept a r s res :
  inbound_inv s -> recorded_since a r s -> resolved_for r (is_conv s) res ->
  rgi a (let!? accepted := conv (CvAccept (accept_request_of r res)) in submit_or_replay res accepted)
    (handled (request_event r)) s.
Proof.
  intros Hs Hrec Hres. apply rg_bind. apply rg_conv_plain; [done|done| |].
  - intros s1 fresh st x s2 Hs1 Hg1 Hf Hsec Hst Hs2 Hg2.
    destruct (answer_of x) as [am|e] eqn:Hx; [|by apply handled_err].
    pose proof (committing_answer _ _ _ _ _ _ Hsec Hx) as ->.
    destruct (accepted_known a r s1 fresh st res am) as (m & Hk & Hrep); [done| | done | | done|].
    { by eapply recorded_since_grows. }
    { eapply resolved_for_evolves; [apply Hg1 | done]. }
    apply rg_submit_or_replay with m; [done | by eapply message_known_grows|].
    intros Ha. destruct (Hrep Ha) as [? Hd]. split; [done|]. by apply (ev_submitted _ _ (ig_conv _ _ Hg2)).
  - intros s1 reason Hs1 _. by apply handled_err.
Qed.

Lemma resolve_answer fresh r policy s st x res :
  conv_inv s -> fresh_ok fresh s -> conv_section fresh host_error_text (resolve_call r policy) s = (st, x) ->
  answer_of x = Ok res -> resolved_for r st res.
Proof.
  intros Hs Hf Hsec Hx.
  assert (exists request agent project owner,
    conv_section fresh host_error_text (CvResolve request agent project owner) s = (st, x)
    /\ cr_tenant_id request = iq_tenant_id r) as (request & agent & project & owner & Hsec' & Hten).
  { destruct policy; by repeat eexists. }
  pose proof (committing_answer _ _ _ _ _ _ Hsec' Hx) as ->.
  destruct (section_post_run _ _ _ _ _ _ _ Hs Hf Hsec') as [ [Hst _] _].
  destruct (resolve_run _ _ _ _ _ _ _ _ _ Hsec' _ eq_refl) as (user & b & Hb & -> & _).
  exists b, b, user. rewrite Hten. split_and!; [|done|done].
  by destruct (ci_binding _ Hst _ _ Hb) as [_ [] ].
Qed.

Lemma rg_handle a r policy s :
  inbound_inv s -> recorded_since a r s ->
  rgi a (handle_inbound_turn_inner r policy) (handled (request_event r)) s.
Proof.
  intros Hs Hrec. unfold handle_inbound_turn_inner. apply rg_bind. apply rg_conv_plain; [done|done| |].
  2:{ intros s1 reason Hs1 _. by apply handled_err. }
  intros s1 fresh st x s2 Hs1 Hg1 _ Hsec _ Hs2 Hg2. destruct x as [x|e]; [|by apply handled_err].
  destruct (replay_section _ _ _ _ _ (ii_conv _ Hs1) Hsec) as [-> Hreplay].
  apply (recorded_since_grows _ _ _ _ Hg1) in Hrec.
  assert (inbound_grows s1 s2) as Hg12 by (by destruct s1). clear Hsec Hg2.
  assert (answer_of (Ok x) = Ok (match x with Return o | Commit o => o end)) as -> by by destruct x.
  assert (match match x with Return o | Commit o => o end with
          | Some replay => exists m, message_known s1 (request_event r) m (rp_accepted_message replay) (rp_resolution replay)
                /\ seen_again a s1 m (rp_accepted_message replay)
          | None => True end) as Hknown.
  { destruct x as [ [replay|]|[replay|] ]; [|done| |done];
      destruct Hreplay as (m & Hm & Ha & Ho & Hsc); exists m; (split; [by split; [|right|..]|]);
      intros Hf; (split; [by rewrite Ha|]); by eapply recorded_message; [apply Hs1 | apply Hrec | |]. }
  destruct (match x with Return o | Commit o => o end) as [replay|].
  - destruct Hknown as (m & Hk & Hseen). apply rg_submit_or_replay with m; [done | by eapply message_known_grows|].
    intros Ha. destruct (Hseen Ha) as [? Hd]. split; [done|]. by apply (ev_submitted _ _ (ig_conv _ _ Hg12)).
  - apply (recorded_since_grows _ _ _ _ Hg12) in Hrec. clear Hknown Hreplay.
    apply rg_bind. apply rg_conv_plain; [done|by destruct policy| |].
    2:{ intros s3 reason Hs3 _. by apply handled_err. }
    intros s3 fresh3 st3 x3 s4 Hs3 Hg3 Hf3 Hsec3 Hst3 Hs4 Hg4.
    destruct (answer_of x3) as [res|e] eqn:Hx; [|by apply handled_err].
    apply rg_accept; [done| |].
    + apply (recorded_since_grows a r s3); [|by apply (recorded_since_grows _ _ _ _ Hg3)].
      destruct (section_post_run _ _ _ _ _ _ _ (ii_conv _ Hs3) Hf3 Hsec3) as [ [_ Hev] _].
      etrans; [|exact Hg4]. by split.
    + eapply resolved_for_evolves; [apply Hg4|]. by eapply resolve_answer; [apply Hs3| | |].
Qed.

(** ** The jobs *)

(** What a result says of the job's event. *)
Definition told_truly (j : inbound_job) (res : inbound_result) (s : inbound_state) : Prop :=
  match j, res with
  | JobTurn r _, ResTurn (Ok response) =>
      exists x, ir_turn_submission response = Some x /\ answered s (request_event r) x
  | JobFire scanner request, ResFire (Ok outcome) =>
      validate_trusted_trigger_prompt scanner (fire_prompt (tq_fire request)) = Ok tt
      /\ exists k x, job_event j = Some k /\ answered s k x
         /\ (outcome = TriggerPoller.SubmitAccepted (sr_run_id x) (tq_received_at request)
             \/ outcome = TriggerPoller.SubmitReplayed (sr_run_id x) (tq_received_at request))
  | JobTurn _ _, ResTurn (Err _) | JobFire _ _, ResFire (Err _) | JobAdmin _ _, ResAdmin => True
  | _, _ => False
  end.

Definition job_post (a : inbound_label) (res : inbound_result) (s : inbound_state) : Prop :=
  inbound_inv s /\ told_truly a.1 res s.

Lemma told_truly_grows j res s s' : inbound_grows s s' -> told_truly j res s -> told_truly j res s'.
Proof.
  intros Hg. destruct j, res as [ [resp|e]|[o|e]|]; simpl; try done.
  - intros (x & Hx & Ha). exists x. split; [done|]. by eapply answered_grows.
  - intros (Hv & k & x & Hk & Ha & Ho). split; [done|]. exists k, x.
    split_and!; [done | by eapply answered_grows | done].
Qed.

Lemma rg_fire a scanner request s :
  a.1 = JobFire scanner request -> inbound_inv s ->
  (forall k, a.2 = true -> job_event a.1 = Some k -> recorded_event (is_conv s) k) ->
  rgi a (submit_trusted_trigger_fire scanner request) (fun r => job_post a (ResFire r)) s.
Proof.
  intros Ha Hs Hrec. unfold submit_trusted_trigger_fire, job_post. rewrite Ha in *.
  destruct (validate_trusted_trigger_prompt _ _) as [ []|e] eqn:Hv; [|by split].
  cbn [job_event] in *. destruct (trusted_inbound_request_from_trigger request) as [trusted|e] eqn:Ht; [|by split].
  apply rg_bind. eapply rg_mono; [|apply (rg_handle a (tr_request trusted)); [done|]; intros Hf; by apply Hrec].
  intros r s' [Hs' Hr]. cbn [rg]. split; [done|]. destruct r as [response|e]; [|done].
  destruct (Hr _ eq_refl) as (x & Hx & Hans). unfold submit_trusted_trigger_outcome. rewrite Hx.
  destruct (ir_replayed_turn_submission response); (split; [done|]);
    exists (request_event (tr_request trusted)), x; cbn [job_event]; rewrite Ht; auto.
Qed.

Lemma rg_admin a A (c : conv_call A) s :
  admin_call c = true -> inbound_inv s -> a.1 = JobAdmin A c ->
  rgi a (let! _ := conv c in Ret ResAdmin) (job_post a) s.
Proof.
  intros Hc Hs Ha. unfold job_post. rewrite Ha. apply rg_bind. apply rg_conv_plain; [done|by destruct c| |].
  - intros s1 fresh st r s2 _ _ _ _ _ Hs2 _. by split.
  - intros s1 reason Hs1 _. by split.
Qed.

Lemma rg_inbound_job a p l s : inbound_start a p l s -> inbound_inv s -> rgi a p (job_post a) s.
Proof.
  intros (-> & Hadmin & Hrec) Hs. destruct (a.1) as [r policy|scanner request|A c] eqn:Ha; cbn [job_prog].
  - apply rg_bind. eapply rg_mono; [|apply rg_handle; [done|]].
    + intros res s' [Hs' Hr]. split; [done|]. rewrite Ha. destruct res; [by apply Hr|done].
    + intros Hf. destruct (Hrec Hf) as (k & [= <-] & Hk). done.
  - apply rg_bind. apply rg_fire; [done|done|]. rewrite Ha. intros k Hf Hk.
    destruct (Hrec Hf) as (k' & Hk' & Hr). congruence.
  - by apply rg_admin.
Qed.

Lemma initial_inv : inbound_inv inbound_initial.
Proof.
  split; simpl; [apply default_inv | by intros q x ?%elem_of_nil| | by intros m x ?%elem_of_nil|];
    intros ? ?; by rewrite lookup_empty.
Qed.

Lemma inbound_ok conf :
  inbound_reaches conf ->
  inbound_inv conf.1 /\ (forall i a p, conf.2 !! i = Some (a, p) -> rgi a p (job_post a) conf.1).
Proof.
  intros Hr.
  assert (pool_ok inbound_handle inbound_rely inbound_guar job_post inbound_inv (fun _ _ => True) conf)
    as (Hi & Hrg & _); [|done].
  eapply pool_reach_ok; [| | | | | |exact initial_inv|exact Hr].
  - by intros a s Hs.
  - intros a s1 s2 s3 H1 H2 Hs. destruct (H1 Hs) as [Hs2 Hg1], (H2 Hs2) as [Hs3 Hg2].
    split; [done | by etrans].
  - intros a r s s' Hrel [Hs Ht]. destruct (Hrel Hs) as [Hs' Hg]. split; [done|]. by eapply told_truly_grows.
  - intros a s s' [Hg _] Hs. by apply Hg.
  - intros a b s s' _ _ [Hg _]. exact Hg.
  - intros a p l s Hst Hs. split; [by eapply rg_inbound_job | by apply Forall_true].
Qed.

(** ** The theorems *)

(** [q] submits a turn for the event. *)
Definition submits_event (st : InMemoryState) (q : SubmitTurnRequest) (k : ExternalEventRouteKey) : Prop :=
  exists m, m ∈ cs_messages st /\ message_ref m = sq_accepted_message_ref q /\ message_origin st m = Some k.

(** What two submissions of one event share: everything but the owner of the scope. *)
Definition same_turn (q1 q2 : SubmitTurnRequest) : Prop :=
  sq_accepted_message_ref q1 = sq_accepted_message_ref q2 /\ sq_actor q1 = sq_actor q2
  /\ sq_source_binding_ref q1 = sq_source_binding_ref q2
  /\ sq_reply_target_binding_ref q1 = sq_reply_target_binding_ref q2
  /\ sq_requested_run_profile q1 = sq_requested_run_profile q2
  /\ ts_tenant_id (sq_scope q1) = ts_tenant_id (sq_scope q2)
  /\ ts_thread_id (sq_scope q1) = ts_thread_id (sq_scope q2)
  /\ ts_agent_id (sq_scope q1) = ts_agent_id (sq_scope q2)
  /\ ts_project_id (sq_scope q1) = ts_project_id (sq_scope q2).

Lemma message_by_ref st m1 m2 :
  conv_inv st -> m1 ∈ cs_messages st -> m2 ∈ cs_messages st -> message_ref m1 = message_ref m2 -> m1 = m2.
Proof.
  intros Hs [i Hi]%list_elem_of_lookup [j Hj]%list_elem_of_lookup Hr.
  assert (i = j) as ->; [|congruence].
  eapply NoDup_lookup; [apply (ci_refs _ Hs)|..]; rewrite list_lookup_fmap; [by rewrite Hi|].
  rewrite Hj. simpl. by rewrite Hr.
Qed.

(** The scope of a message's turn, but for its owner, is that of its binding. *)
Lemma message_scope_parts st m scope b :
  message_scope st m scope ->
  cs_source_bindings st !! ref_str (am_source_binding_ref (tm_accepted m)) = Some b ->
  ts_tenant_id scope = am_tenant_id (tm_accepted m) /\ ts_thread_id scope = br_thread_id b
  /\ ts_agent_id scope = br_agent_id b /\ ts_project_id scope = br_project_id b.
Proof.
  intros (b1 & b0 & Hb1 & Hev & ->) Hb. assert (b1 = b) as -> by congruence.
  destruct (scope_of_resolution b0 (ta_user_id (am_actor (tm_accepted m))) (am_tenant_id (tm_accepted m)))
    as (-> & -> & -> & -> & _).
  by destruct Hev as (access & owner & -> & _).
Qed.

Lemma same_message_same_turn s m q1 q2 :
  inbound_inv s -> submits_message s m q1 -> submits_message s m q2 ->
  same_turn q1 q2
  /\ (sq_idempotency_key q1 = sq_idempotency_key q2 \/ retried (is_log s) (message_ref m)).
Proof.
  intros Hs [Hm R1 A1 S1 P1 F1 C1 K1] [_ R2 A2 S2 P2 F2 C2 K2].
  destruct (mo_binding _ _ (ci_message _ (ii_conv _ Hs) m Hm)) as (b & Hb & _).
  destruct (message_scope_parts _ _ _ _ C1 Hb) as (T1 & H1 & G1 & J1).
  destruct (message_scope_parts _ _ _ _ C2 Hb) as (T2 & H2 & G2 & J2). split.
  - unfold same_turn. split_and!; congruence.
  - destruct K1 as [K1|]; [|by right]. destruct K2 as [K2|]; [|by right]. left. congruence.
Qed.

(** C19: a turn is only submitted for an accepted message.  However inbound events, fires
    and administrative calls interleave, and whatever the store and the coordinator answer,
    each submission that was made carries the actor, the bindings and the run profile of an
    accepted message, in the tenant and the thread of that message; and its actor takes
    part in that thread. *)
Theorem turns_come_from_accepted_messages conf q x :
  inbound_reaches conf -> (q, x) ∈ is_log conf.1 ->
  exists m t, submits_message conf.1 m q
  /\ ts_tenant_id (sq_scope q) = am_tenant_id (tm_accepted m)
  /\ ts_thread_id (sq_scope q) = am_thread_id (tm_accepted m)
  /\ cs_threads (is_conv conf.1) !! mk_ThreadKey (ts_tenant_id (sq_scope q)) (ts_thread_id (sq_scope q)) = Some t
  /\ ta_user_id (sq_actor q) ∈ th_participants t.
Proof.
  intros [Hs _]%inbound_ok Hq. destruct (ii_log _ Hs _ _ Hq) as [m Hm].
  pose proof (ci_message _ (ii_conv _ Hs) m (sm_message _ _ _ Hm)) as Hmo.
  destruct (mo_binding _ _ Hmo) as (b & Hb & _ & Hth & _), (mo_participant _ _ Hmo) as (t & Ht & Hp).
  destruct (message_scope_parts _ _ _ _ (sm_scope _ _ _ Hm) Hb) as (T & H & _).
  exists m, t. rewrite T, H, <- Hth, (sm_actor _ _ _ Hm). done.
Qed.

(** C18: an external event is one turn.  However often and however concurrently it is
    delivered, all its submissions name the same accepted message, with the same actor,
    bindings, profile, tenant, thread, agent and project, and under the same idempotency
    key, unless one of them failed with an error that rotates the key.  And once an answer
    is recorded for the message of an event, a delivery or a fire of that event that starts
    later never calls the coordinator. *)
Theorem event_submitted_as_one_turn conf :
  inbound_reaches conf ->
  (forall q1 x1 q2 x2 k, (q1, x1) ∈ is_log conf.1 -> (q2, x2) ∈ is_log conf.1 ->
     submits_event (is_conv conf.1) q1 k -> submits_event (is_conv conf.1) q2 k ->
     same_turn q1 q2
     /\ (sq_idempotency_key q1 = sq_idempotency_key q2
         \/ retried (is_log conf.1) (sq_accepted_message_ref q1)))
  /\ (forall i j q k, conf.2 !! i <> Some ((j, true), Call (InSubmit q) k)).
Proof.
  intros [Hs Hrg]%inbound_ok. split.
  - intros q1 x1 q2 x2 k Hq1 Hq2 (m1 & Hm1 & Hr1 & Ho1) (m2 & Hm2 & Hr2 & Ho2).
    destruct (ii_log _ Hs _ _ Hq1) as [m1' H1], (ii_log _ Hs _ _ Hq2) as [m2' H2].
    pose proof (ii_conv _ Hs) as Hc. pose proof (origin_unique (is_conv conf.1)) as Hu.
    assert (m1' = m1) as ->.
    { apply (message_by_ref (is_conv conf.1)); [done | apply H1 | done|]. by rewrite Hr1, (sm_ref _ _ _ H1). }
    assert (m2' = m2) as ->.
    { apply (message_by_ref (is_conv conf.1)); [done | apply H2 | done|]. by rewrite Hr2, (sm_ref _ _ _ H2). }
    apply list_elem_of_lookup in Hm1 as [i Hi], Hm2 as [j Hj].
    assert (i = j) as <- by by eapply Hu. assert (m2 = m1) as -> by congruence.
    rewrite <- Hr1. by apply same_message_same_turn.
  - intros i j q k Hl. pose proof (Hrg _ _ _ Hl) as Hp. cbn [rg] in Hp.
    destruct (Hp conf.1 (mk_inbound_state (is_conv conf.1) (is_log conf.1 ++ [(q, Err TeUnauthorized)])
                           (is_recorded conf.1))
                (Err TeUnauthorized)) as [ [_ Hlog] _]; [by intros ?|done|].
    specialize (Hlog eq_refl). simpl in Hlog. apply (f_equal length) in Hlog.
    rewrite length_app in Hlog. simpl in Hlog. lia.
Qed.

(** C20: what a finished delivery answers is true.  Its response [x] is the very response
    that the coordinator gave to a submission of the message of the request's own external
    event, and [x] was recorded as the answer of that message at some moment (it need not
    be the record now: a message whose submissions were retried under a new key can be
    answered again, and the later record replaces the earlier).  A fire that is reported as
    accepted or replayed passed the scan of its prompt, and names the run of such a response
    for its own event, at its own time. *)
Theorem inbound_answers_are_turns conf i a res :
  inbound_reaches conf -> conf.2 !! i = Some (a, Ret res) -> told_truly a.1 res conf.1.
Proof. intros [_ Hrg]%inbound_ok Hl. apply (Hrg _ _ _ Hl). Qed.

End Pool.
