(* ===== verification/InboundExample.v ===== *)
(** * Conversations: a run of deliveries, step by step

    A member is paired; two deliveries of one event interleave, a third comes after the
    answer was recorded, and a trusted fire has its own event.  [play] runs such a script
    on the pool of [InboundPool], so that the states of the witnesses are computed and
    known to be reached; the same for two sections of the services, and for one call of
    the filesystem store. *)

From S2P Require Import Prelude Effects External HostIds Paths HostTypes Filesystem LeaseStore RunProfile.
From S2P Require Import TurnTypes TurnSnapshot Triggers TriggerPoller ScopedFile.
From S2P Require Import ConvTypes Conversations ConvInvariants ConvSafety ConvStore Inbound InboundPool.
Open Scope Z_scope.

Module InboundExample.

(** ** UUIDs *)

Definition uuid_digit (d : Z) : Ascii.ascii :=
  default "0"%char (String.get (Z.to_nat (d mod 16)) "0123456789abcdef").
Fixpoint hex_text (n : nat) (z : Z) : string :=
  match n with O => "" | S n => hex_text n (z / 16) +:+ String (uuid_digit z) "" end.

#[export] Instance hex_uuid : UuidText := {| uuid_text := hex_text 36 |}.

Lemma hex_digit_char d : is_uuid_char (uuid_digit d) = true.
Proof.
  unfold uuid_digit. pose proof (Z.mod_pos_bound d 16 eq_refl) as Hd.
  remember (Z.to_nat (d mod 16)) as n eqn:Hn. assert (n < 16)%nat as Hlt by lia. clear Hn Hd.
  do 16 (destruct n as [|n]; [by vm_compute|]). lia.
Qed.

Lemma hex_text_length n z : String.length (hex_text n z) = n.
Proof.
  revert z. induction n as [|n IH]; intros z; [done|]. cbn [hex_text].
  rewrite append_length, IH. simpl. lia.
Qed.

#[export] Instance hex_uuid_shape : UuidShape hex_uuid.
Proof.
  split.
  - intros z. unfold str_len. cbn [uuid_text hex_uuid]. by rewrite hex_text_length.
  - intros z. cbn [uuid_text hex_uuid]. generalize 36%nat. intros n. revert z.
    induction n as [|n IH]; intros z; [done|]. cbn [hex_text]. rewrite any_byte_app, IH.
    cbn [any_byte orb]. by rewrite hex_digit_char.
Qed.

(** The UUIDs that the [n]th section draws. *)
Definition draws (n : Z) : ConvFresh := mk_ConvFresh (5 * n) (5 * n + 1) (5 * n + 2) (5 * n + 3) (5 * n + 4).

(** [fresh_ok], decided. *)
Definition fresh_okb (fresh : ConvFresh) (s : InMemoryState) : bool :=
  bool_decide (cs_source_bindings s !! ("source:" +:+ uuid_text (cf_source fresh)) = None)
  && bool_decide (cs_reply_targets s !! ("reply:" +:+ uuid_text (cf_reply fresh)) = None)
  && bool_decide (Forall (fun kv => tk_thread_id kv.1 <> from_trusted (uuid_text (cf_thread fresh)))
                    (map_to_list (cs_threads s)))
  && bool_decide (Forall (fun m => message_ref m <> trusted_ref ("message:" +:+ uuid_text (cf_message fresh)))
                    (cs_messages s))
  && bool_decide (Forall (fun kv => kv.2 <> trusted_ref ("submit:" +:+ uuid_text (cf_key fresh)))
                    (map_to_list (cs_submission_keys s))).

Lemma fresh_okb_ok fresh s : fresh_okb fresh s = true -> fresh_ok fresh s.
Proof.
  unfold fresh_okb.
  intros [ [ [ [H1 H2]%andb_true_iff H3]%andb_true_iff H4]%andb_true_iff H5]%andb_true_iff.
  apply bool_decide_eq_true in H1, H2, H3, H4, H5. rewrite Forall_forall in H3. rewrite Forall_forall in H4.
  rewrite Forall_forall in H5. split; try done.
  - intros t. destruct (cs_threads s !! _) as [x|] eqn:Hx; [|done].
    exfalso. by eapply (H3 (mk_ThreadKey t (from_trusted (uuid_text (cf_thread fresh))), x));
      [apply elem_of_map_to_list|].
  - intros m k Hk. apply (H5 (m, k)). by apply elem_of_map_to_list.
Qed.

(** ** Scripts on the pool *)

Definition no_text (_ : HostApiError) : string := "".
Abbreviation config := (inbound_state * list (inbound_label * prog inboundE inbound_result))%type.

(** The start of a job, whose event is recorded if an index of its message is given; the
    next call of the program at an index: a section, or an answer of the coordinator. *)
Inductive move : Type :=
| Start (j : inbound_job) (recorded : option nat)
| Call_at (i : nat) (fresh : ConvFresh)
| Answer (i : nat) (x : result SubmitTurnResponse TurnError).

Definition recorded_at (st : InMemoryState) (j : inbound_job) (n : nat) : bool :=
  match cs_messages st !! n with
  | Some m => bool_decide (message_ref m ∈ dom (cs_submitted_message_responses st))
              && bool_decide (is_Some (job_event j)) && bool_decide (message_origin st m = job_event j)
  | None => false
  end.

Definition call_with (i : nat) (fresh : option ConvFresh) (answer : option (result SubmitTurnResponse TurnError))
    (c : config) : option config :=
  match c.2 !! i with
  | Some (a, Call e k) =>
      match e in inboundE X return (X -> prog inboundE inbound_result) -> option config with
      | InConv call => fun k =>
          match fresh with
          | Some fresh =>
              let run := conv_section fresh no_text call (is_conv c.1) in
              if fresh_okb fresh (is_conv c.1)
              then Some (mk_inbound_state (set_revision 0 run.1) (is_log c.1)
                            (recorded_after call run.2 (is_recorded c.1)), <[i := (a, k (answer_of run.2))]> c.2)
              else None
          | None => None
          end
      | InSubmit q => fun k =>
          match answer with
          | Some x => Some (mk_inbound_state (is_conv c.1) (is_log c.1 ++ [(q, x)]) (is_recorded c.1), <[i := (a, k x)]> c.2)
          | None => None
          end
      end k
  | _ => None
  end.

Definition make_move (v : move) (c : config) : option config :=
  match v with
  | Start j recorded =>
      if match j with JobAdmin _ call => admin_call call | _ => true end
         && match recorded with Some n => recorded_at (is_conv c.1) j n | None => true end
      then Some (c.1, c.2 ++ [((j, is_some recorded), job_prog j)]) else None
  | Call_at i fresh => call_with i (Some fresh) None c
  | Answer i x => call_with i None (Some x) c
  end.

Fixpoint play (script : list move) (c : config) : option config :=
  match script with
  | [] => Some c
  | v :: script => match make_move v c with Some c => play script c | None => None end
  end.

Abbreviation one_step := (pool_step (inbound_handle no_text) inbound_start).

Lemma call_with_step i fresh answer c c' : call_with i fresh answer c = Some c' -> one_step c c'.
Proof.
  unfold call_with. destruct c as [s ps]. cbn [fst snd].
  destruct (ps !! i) as [[a [|X e k]]|] eqn:Hi; [done| |done]. destruct e as [A call|q].
  - destruct fresh as [fresh|]; [|done]. destruct (fresh_okb _ _) eqn:Hf; [|done]. intros [= <-].
    eapply ps_call; [exact Hi|]. left.
    destruct (conv_section fresh no_text call (is_conv s)) as [st r] eqn:Hrun.
    exists fresh, st, r, 0. split_and!; [by apply fresh_okb_ok | done.. | by left].
  - destruct answer as [x|]; [|done]. intros [= <-]. by eapply ps_call; [exact Hi|].
Qed.

Lemma make_move_step v c c' : make_move v c = Some c' -> one_step c c'.
Proof.
  destruct v as [j recorded|i fresh|i x]; [|apply call_with_step..]. destruct c as [s ps]. simpl.
  destruct (_ && _) eqn:Hok; [|done]. intros [= <-]. apply andb_true_iff in Hok as [Hadm Hrec].
  apply ps_start. split; [done|]. split; [by destruct j|]. destruct recorded as [n|]; [|done]. intros _.
  unfold recorded_at in Hrec. destruct (cs_messages _ !! n) as [m|] eqn:Hm; [|done].
  apply andb_true_iff in Hrec as [ [Hd [k Hk]%bool_decide_eq_true]%andb_true_iff Ho%bool_decide_eq_true].
  apply bool_decide_eq_true in Hd. exists k. split; [done|]. exists m.
  split_and!; [by apply list_elem_of_lookup_2 in Hm | by rewrite Ho | done].
Qed.

Lemma play_steps script c c' : play script c = Some c' -> rtc one_step c c'.
Proof.
  revert c. induction script as [|v script IH]; intros c; simpl; [by intros [= ->]|].
  destruct (make_move v c) as [c1|] eqn:Hv; [|done]. intros Hp.
  eapply rtc_l; [by eapply make_move_step | by apply IH].
Qed.

(** ** Two deliveries of one event, a third after the answer, and a fire *)

Definition acme : TenantId := from_trusted "acme".
Definition ann : UserId := from_trusted "ann".
Definition slack : AdapterKind := trusted_ext_id "slack".
Definition install : AdapterInstallationId := trusted_ext_id "team".
Definition sender : ExternalActorRef := mk_ExternalActorRef "user" "U1".
Definition channel : ExternalConversationRef := mk_ExternalConversationRef None "C1" None None.
Definition sender_key : ActorKey := mk_ActorKey acme slack install sender.

Definition hello : InboundTurnRequest :=
  mk_InboundTurnRequest acme slack install sender channel (trusted_ext_id "event-1") Direct
    (trusted_ext_id "content-1") None None 7 None.

Definition cron_kind : AdapterKind := trusted_ext_id "cron".
Definition cron_actor : ExternalActorRef := mk_ExternalActorRef "trigger" "T1".
Definition fire : TrustedTriggerSubmitRequest :=
  mk_TrustedTriggerSubmitRequest
    (mk_TriggerFire (mk_TriggerFireIdentity acme (trigger_id 1) 60 (route_thread_unchecked "route")
                       (external_event_unchecked "fire-1")) ann None None "report")
    (mk_TriggerMaterializedPrompt (content_ref_unchecked "content-2")
       (mk_TriggerTrustedInboundBinding "cron" "builtin" "trigger" "T1" "trigger-T1" "route" "fire-1"))
    60.

Definition accepted (n : Z) : SubmitTurnResponse :=
  Accepted (turn_from_uuid (2 * n)) (turn_from_uuid (2 * n + 1)) Queued interactive_default
    1 1 (trusted_ref "m") (trusted_ref "r").

Definition deliver : inbound_job := JobTurn hello Untrusted.
Definition quiet_scan : InjectionScanner := fun _ => [].
Definition fire_job : inbound_job := JobFire quiet_scan fire.
Definition pair_job (kind : AdapterKind) (inst : AdapterInstallationId) (actor : ExternalActorRef) : inbound_job :=
  JobAdmin _ (CvPair (mk_ActorKey acme kind inst actor) ann).

(** Deliveries 2 and 3 of the event find no message; 2 creates the binding and accepts the
    event, 3 accepts it as a duplicate; both submit, and both record the answer.  The fire
    is delivery 5. *)
Definition script : list move :=
  [Start (pair_job slack install sender) None; Call_at 0 (draws 0);
   Start (pair_job cron_kind (trusted_ext_id "builtin") cron_actor) None; Call_at 1 (draws 1);
   Start deliver None; Start deliver None;
   Call_at 2 (draws 2); Call_at 3 (draws 3); Call_at 2 (draws 4); Call_at 3 (draws 5);
   Call_at 2 (draws 6); Call_at 3 (draws 7); Call_at 3 (draws 8);
   Call_at 2 (draws 9); Call_at 3 (draws 10); Answer 3 (Ok (accepted 1)); Answer 2 (Ok (accepted 1));
   Call_at 2 (draws 11); Call_at 3 (draws 12);
   Start deliver (Some 0%nat); Call_at 4 (draws 13); Call_at 4 (draws 14);
   Start fire_job None; Call_at 5 (draws 15); Call_at 5 (draws 16); Call_at 5 (draws 17);
   Call_at 5 (draws 18); Answer 5 (Ok (accepted 2)); Call_at 5 (draws 19)].

Definition final : config := default (inbound_initial, []) (play script (inbound_initial, [])).

Lemma script_plays : is_some (play script (inbound_initial, [])) = true.
Proof. vm_compute. reflexivity. Qed.

Lemma final_reached : inbound_reaches no_text final.
Proof.
  apply (play_steps script). pose proof script_plays as H. unfold final.
  by destruct (play script (inbound_initial, [])).
Qed.

#[local] Opaque final.

Lemma turns_come_from_accepted_messages_witness :
  exists q x m t, is_log final.1 !! 2%nat = Some (q, x) /\ submits_message final.1 m q
  /\ cs_threads (is_conv final.1) !! mk_ThreadKey (ts_tenant_id (sq_scope q)) (ts_thread_id (sq_scope q)) = Some t
  /\ ta_user_id (sq_actor q) ∈ th_participants t.
Proof.
  assert (is_some (is_log final.1 !! 2%nat) = true) as Hlog by (vm_compute; reflexivity).
  destruct (is_log final.1 !! 2%nat) as [ [q x]|] eqn:Hq; [|discriminate Hlog].
  destruct (turns_come_from_accepted_messages no_text final q x final_reached (list_elem_of_lookup_2 _ _ _ Hq))
    as (m & t & Hm & _ & _ & Ht & Hin).
  exists q, x, m, t. split_and!; [reflexivity | exact Hm | exact Ht | exact Hin].
Defined.

(** The [n]th submission is of the first message, which is the event of [hello]. *)
Definition submits_hello (n : nat) : bool :=
  match is_log final.1 !! n, cs_messages (is_conv final.1) !! 0%nat with
  | Some (q, _), Some m =>
      bool_decide (message_ref m = sq_accepted_message_ref q)
      && bool_decide (message_origin (is_conv final.1) m = Some (request_event hello))
  | _, _ => false
  end.

Lemma hello_submission n :
  submits_hello n = true -> exists q x, is_log final.1 !! n = Some (q, x)
  /\ (q, x) ∈ is_log final.1 /\ submits_event (is_conv final.1) q (request_event hello).
Proof.
  unfold submits_hello. destruct (is_log final.1 !! n) as [ [q x]|] eqn:Hq; [|done].
  destruct (cs_messages _ !! 0%nat) as [m|] eqn:Hm; [|done].
  intros [Hr%bool_decide_eq_true Ho%bool_decide_eq_true]%andb_true_iff. exists q, x.
  apply list_elem_of_lookup_2 in Hq, Hm. split; [reflexivity|]. split; [exact Hq|].
  exists m. split; [exact Hm|]. split; [exact Hr | exact Ho].
Qed.

Lemma event_submitted_as_one_turn_witness :
  (exists q1 x1 q2 x2, is_log final.1 !! 0%nat = Some (q1, x1) /\ is_log final.1 !! 1%nat = Some (q2, x2)
     /\ same_turn q1 q2)
  /\ ~ (exists q k, final.2 !! 4%nat = Some ((deliver, true), Call (InSubmit q) k)).
Proof.
  destruct (event_submitted_as_one_turn no_text final final_reached) as [Hone Hnever]. split.
  - destruct (hello_submission 0) as (q1 & x1 & H1 & Hin1 & He1); [vm_compute; reflexivity|].
    destruct (hello_submission 1) as (q2 & x2 & H2 & Hin2 & He2); [vm_compute; reflexivity|].
    exists q1, x1, q2, x2. split_and!; [exact H1 | exact H2|].
    apply (Hone q1 x1 q2 x2 _ Hin1 Hin2 He1 He2).
  - intros (q & k & H). exact (Hnever 4%nat deliver q k H).
Defined.

(** The result of the job at an index, with its label. *)
Definition finished (i : nat) : option (inbound_label * inbound_result) :=
  match final.2 !! i with Some (a, Ret res) => Some (a, res) | _ => None end.

Lemma inbound_answers_are_turns_witness :
  exists replayed fired,
  finished 4 = Some ((deliver, true), replayed) /\ told_truly deliver replayed final.1
  /\ finished 5 = Some ((fire_job, false), fired) /\ told_truly fire_job fired final.1.
Proof.
  assert (forall i, finished i = match final.2 !! i with Some (a, Ret res) => Some (a, res) | _ => None end)
    as Hfin by reflexivity.
  assert (is_some (finished 4) = true) as H4 by (vm_compute; reflexivity).
  assert (is_some (finished 5) = true) as H5 by (vm_compute; reflexivity).
  assert (fst <$> final.2 !! 4%nat = Some (deliver, true)) as L4 by (vm_compute; reflexivity).
  assert (fst <$> final.2 !! 5%nat = Some (fire_job, false)) as L5 by (vm_compute; reflexivity).
  rewrite (Hfin 4%nat) in H4 |- *. rewrite (Hfin 5%nat) in H5 |- *.
  destruct (final.2 !! 4%nat) as [ [a [r4|X e k] ]|] eqn:E4; try discriminate H4.
  destruct (final.2 !! 5%nat) as [ [b [r5|X e k] ]|] eqn:E5; try discriminate H5.
  injection L4 as ->. injection L5 as ->. exists r4, r5.
  pose proof (inbound_answers_are_turns no_text final 4 (deliver, true) r4 final_reached E4) as T4.
  pose proof (inbound_answers_are_turns no_text final 5 (fire_job, false) r5 final_reached E5) as T5.
  split_and!; [reflexivity | exact T4 | reflexivity | exact T5].
Defined.

(** ** An event with two turns

    Delivery 1 is refused because the thread is busy; delivery 2 read the same key, and
    its submission is accepted; before that answer is recorded, delivery 1 gives the
    message a new key, and delivery 3 submits the event again, under that key. *)

Definition busy : TurnError := TeThreadBusy (mk_ThreadBusy (turn_from_uuid 90) Running 1).

Definition racing_script : list move :=
  [Start (pair_job slack install sender) None; Call_at 0 (draws 0);
   Start deliver None; Call_at 1 (draws 1); Call_at 1 (draws 2); Call_at 1 (draws 3);
   Call_at 1 (draws 4);
   Start deliver None; Call_at 2 (draws 5); Call_at 2 (draws 6); Call_at 2 (draws 7);
   Answer 1 (Err busy); Answer 2 (Ok (accepted 1)); Call_at 1 (draws 8);
   Start deliver None; Call_at 3 (draws 9); Call_at 3 (draws 10); Call_at 3 (draws 11);
   Answer 3 (Ok (accepted 2))].

Definition raced : config := default (inbound_initial, []) (play racing_script (inbound_initial, [])).

(** The event, the run and the key of an accepted submission. *)
Definition accepted_runs (s : inbound_state) : list (AcceptedMessageRef * TurnRunId * IdempotencyKey) :=
  omap (fun x => match x.2 with
                 | Ok r => Some (sq_accepted_message_ref x.1, sr_run_id r, sq_idempotency_key x.1)
                 | Err _ => None
                 end) (is_log s).

(** One message, two runs, two keys. *)
Theorem rotation_races_with_record :
  inbound_reaches no_text raced
  /\ exists m k1 k2, accepted_runs raced.1 = [(m, turn_from_uuid 3, k1); (m, turn_from_uuid 5, k2)] /\ k1 <> k2.
Proof.
  assert (is_some (play racing_script (inbound_initial, [])) = true) as Hp by (vm_compute; reflexivity).
  split.
  - apply (play_steps racing_script). unfold raced. by destruct (play racing_script (inbound_initial, [])).
  - exists (trusted_ref ("message:" +:+ uuid_text 18)), (trusted_ref ("message:" +:+ uuid_text 18)),
      (trusted_ref ("submit:" +:+ uuid_text 44)).
    split; [vm_compute; reflexivity | vm_compute; discriminate].
Qed.

(** ** Sections of the services *)

Definition sender_paired : InMemoryState :=
  (conv_section (draws 0) no_text (CvPair sender_key ann) InMemoryState_default).1.
Definition hello_resolve : ResolveConversationRequest := resolve_request_of hello Untrusted.
Definition hello_bound : InMemoryState :=
  (conv_section (draws 1) no_text (CvResolve hello_resolve None None None) sender_paired).1.
Definition hello_resolution : ConversationBindingResolution :=
  mk_ConversationBindingResolution acme (mk_TurnActor ann)
    (TurnScope_new acme None None (from_trusted (uuid_text 5)))
    (trusted_ref ("source:" +:+ uuid_text 6)) (trusted_ref ("reply:" +:+ uuid_text 7)) AccessAllowed.
Definition hello_accept : AcceptInboundMessageRequest := accept_request_of hello hello_resolution.
Definition hello_accepted : InMemoryState :=
  (conv_section (draws 2) no_text (CvAccept hello_accept) hello_bound).1.

(** What a section that commits answers. *)
Definition committed {A} (r : result (done_with A) InboundTurnError) : option A :=
  match r with Ok (Commit a) => Some a | _ => None end.

Lemma section_commits {A} fresh (c : conv_call A) s a :
  committed (conv_section fresh no_text c s).2 = Some a ->
  conv_section fresh no_text c s = ((conv_section fresh no_text c s).1, Ok (Commit a)).
Proof.
  destruct (conv_section fresh no_text c s) as [s' [ [b|b]|e] ]; [done| |done]. by intros [= ->].
Qed.

Lemma paired_reachable : conv_reachable no_text sender_paired.
Proof.
  apply rtc_once. apply (cv_section no_text (draws 0) unit (CvPair sender_key ann) _ _ (Ok (Commit tt))).
  - apply fresh_okb_ok. vm_compute. reflexivity.
  - apply section_commits. vm_compute. reflexivity.
Qed.

Lemma bound_run :
  conv_section (draws 1) no_text (CvResolve hello_resolve None None None) sender_paired
  = (hello_bound, Ok (Commit hello_resolution)).
Proof. apply section_commits. vm_compute. reflexivity. Qed.

Lemma bound_reachable : conv_reachable no_text hello_bound.
Proof.
  eapply rtc_r; [exact paired_reachable|]. eapply cv_section; [|exact bound_run].
  apply fresh_okb_ok. vm_compute. reflexivity.
Qed.

Definition hello_message : AcceptedInboundMessage :=
  mk_AcceptedInboundMessage acme (from_trusted (uuid_text 5)) (mk_TurnActor ann)
    (trusted_ref ("message:" +:+ uuid_text 13)) (trusted_ref ("source:" +:+ uuid_text 6))
    (trusted_ref ("reply:" +:+ uuid_text 12)) 7 None Inserted.

(** Another member joins the thread before the event is delivered again. *)
Definition join : conv_call unit :=
  CvAddParticipant acme (from_trusted (uuid_text 5)) (from_trusted "bob").
Definition hello_later : InMemoryState :=
  (conv_section (draws 3) no_text join hello_accepted).1.

Lemma later_steps : rtc (conv_step no_text) hello_accepted hello_later.
Proof.
  apply rtc_once. apply (cv_section no_text (draws 3) unit join _ _ (Ok (Commit tt))).
  - apply fresh_okb_ok. vm_compute. reflexivity.
  - apply section_commits. vm_compute. reflexivity.
Qed.

Lemma accepted_run :
  conv_section (draws 2) no_text (CvAccept hello_accept) hello_bound = (hello_accepted, Ok (Commit hello_message)).
Proof. apply section_commits. vm_compute. reflexivity. Qed.
Lemma accepted_again :
  conv_section (draws 4) no_text (CvAccept hello_accept) hello_later
  = ((conv_section (draws 4) no_text (CvAccept hello_accept) hello_later).1,
     Ok (Commit (as_duplicate hello_message))).
Proof. apply section_commits. vm_compute. reflexivity. Qed.

Lemma resolved_again :
  conv_section (draws 4) no_text (CvResolve hello_resolve None None None) hello_later
  = ((conv_section (draws 4) no_text (CvResolve hello_resolve None None None) hello_later).1,
     Ok (Commit hello_resolution)).
Proof. apply section_commits. vm_compute. reflexivity. Qed.

Lemma draws_fresh :
  fresh_ok (draws 1) sender_paired /\ fresh_ok (draws 2) hello_bound /\ fresh_ok (draws 4) hello_later.
Proof. split_and!; apply fresh_okb_ok; vm_compute; reflexivity. Qed.

Lemma accepted_step : conv_step no_text hello_bound hello_accepted.
Proof. eapply cv_section; [|exact accepted_run]. apply draws_fresh. Qed.

#[local] Opaque sender_paired hello_bound hello_accepted hello_later.

Lemma event_accepted_once_witness :
  exists s3 a, conv_section (draws 4) no_text (CvAccept hello_accept) hello_later = (s3, Ok (Commit a))
  /\ a = as_duplicate hello_message /\ s3 = hello_later.
Proof.
  eexists _, _. split; [exact accepted_again|].
  destruct (event_accepted_once no_text hello_bound bound_reachable) as (_ & _ & Hagain).
  exact (Hagain (draws 2) (draws 4) hello_accept hello_accept _ _ _ _ _ (proj1 (proj2 draws_fresh))
           eq_refl accepted_run later_steps (proj2 (proj2 draws_fresh)) accepted_again).
Defined.

Lemma joined_steps : rtc (conv_step no_text) hello_bound hello_later.
Proof. eapply rtc_l; [exact accepted_step | exact later_steps]. Qed.

Lemma routes_are_stable_witness :
  exists s3 res, conv_section (draws 4) no_text (CvResolve hello_resolve None None None) hello_later
                   = (s3, Ok (Commit res))
  /\ ts_thread_id (cb_turn_scope res) = from_trusted (uuid_text 5)
  /\ ta_user_id (cb_actor res) = ann.
Proof.
  eexists _, _. split; [exact resolved_again|].
  pose proof (routes_are_stable no_text sender_paired hello_resolve hello_resolve hello_bound hello_later _
    hello_resolution hello_resolution paired_reachable eq_refl
    (route_resolved _ _ _ _ _ _ _ _ _ (proj1 draws_fresh) bound_run) joined_steps
    (route_resolved _ _ _ _ _ _ _ _ _ (proj2 (proj2 draws_fresh)) resolved_again))
    as (_ & _ & Hthread & _).
  split; [exact Hthread | reflexivity].
Defined.

(** A save that the repository refuses, after a load at revision 4. *)
Definition refused_save : list (event repoE) :=
  [Ev RpLoad (Ok (InMemoryState_default, 4));
   Ev (RpDraw (set_revision 4 InMemoryState_default)) (draws 0);
   Ev (RpSave 4 (conv_section (draws 0) no_text (CvPair sender_key ann)
                   (set_revision 4 InMemoryState_default)).1) (Err (IeDurableState "down"))].

(** The contents of an event of the repository. *)
Definition state_loaded (ev : event repoE) : option InMemoryState :=
  match ev with
  | @Ev _ X e x =>
      match e in repoE X return X -> option InMemoryState with
      | RpLoad => fun r => match r with Ok (st, _) => Some st | Err _ => None end
      | _ => fun _ => None
      end x
  end.
Definition state_drawn (ev : event repoE) : option (InMemoryState * ConvFresh) :=
  match ev with
  | @Ev _ X e x =>
      match e in repoE X return X -> option (InMemoryState * ConvFresh) with
      | RpDraw st => fun fresh => Some (st, fresh)
      | _ => fun _ => None
      end x
  end.

Lemma failed_call_changes_nothing_witness :
  traces (service_call no_text true (CvPair sender_key ann) InMemoryState_default) refused_save
    (set_revision 4 InMemoryState_default, Err (IeDurableState "down"))
  /\ exists s', s' = set_revision 4 InMemoryState_default
     /\ (s' = InMemoryState_default \/ exists st revision, Ev RpLoad (Ok (st, revision)) ∈ refused_save
                                       /\ s' = set_revision revision st).
Proof.
  assert (traces (service_call no_text true (CvPair sender_key ann) InMemoryState_default) refused_save
    (set_revision 4 InMemoryState_default, Err (IeDurableState "down"))) as Ht.
  { unfold service_call, refused_save. cbn [refresh_state_from_repository pbind trigger traces].
    eexists _, _. split; [reflexivity|]. cbn [result_map pbind trigger traces fst snd].
    eexists _, _. split; [reflexivity|].
    rewrite (section_commits (draws 0) (CvPair sender_key ann) (set_revision 4 InMemoryState_default) tt)
      by (vm_compute; reflexivity).
    cbn [persist_state pbind trigger traces fst snd]. eexists _, _. split; [reflexivity|]. split; reflexivity. }
  split; [exact Ht|]. eexists. split; [reflexivity|].
  eapply (failed_call_changes_nothing no_text true unit (CvPair sender_key ann) InMemoryState_default
            refused_save _ (IeDurableState "down")); [apply rtc_refl | | |exact Ht].
  - intros st revision Hin. unfold refused_save in Hin. rewrite !elem_of_cons in Hin.
    destruct Hin as [Hin|[Hin|[Hin|Hin] ] ]; [|discriminate Hin..|by apply elem_of_nil in Hin].
    injection (f_equal state_loaded Hin) as ->. apply rtc_refl.
  - intros st fresh Hin. apply fresh_okb_ok. unfold refused_save in Hin. rewrite !elem_of_cons in Hin.
    destruct Hin as [Hin|[Hin|[Hin|Hin] ] ]; [discriminate Hin| |discriminate Hin|by apply elem_of_nil in Hin].
    injection (f_equal state_drawn Hin) as -> ->.
    vm_compute. reflexivity.
Defined.

(** ** A call of the filesystem store: the pairing, on an entry that is absent *)

Definition pair_call : conv_call unit := CvPair sender_key ann.
Definition loaded_default : InMemoryState := set_revision 0 InMemoryState_default.
Definition paired_stored : StoredConversationState := from_state 1 sender_paired.

(** The stored form of that one state is written "paired". *)
Definition is_paired (st : StoredConversationState) : bool :=
  bool_decide (sc_revision st = 1) && bool_decide (sc_pairings st = [(sender_key, ann)])
  && match sc_bindings st, sc_threads st, sc_external_event_routes st, sc_message_idempotency st with
     | [], [], [], [] => true | _, _, _, _ => false end
  && match sc_message_replays st, sc_submission_keys st, sc_submitted_message_responses st, sc_messages st with
     | [], [], [], [] => true | _, _, _, _ => false end
  && match map_to_list (sc_source_bindings st), map_to_list (sc_reply_targets st) with
     | [], [] => true | _, _ => false end.

Lemma paired_stored_fields :
  paired_stored = mk_StoredConversationState 1 [(sender_key, ann)] [] ∅ ∅ [] [] [] [] [] [] [].
Proof. vm_compute. reflexivity. Qed.

Lemma is_paired_ok st : is_paired st = true -> st = paired_stored.
Proof.
  rewrite paired_stored_fields. unfold is_paired. destruct st. simpl.
  intros [ [ [ [ ->%bool_decide_eq_true ->%bool_decide_eq_true]%andb_true_iff H1]%andb_true_iff
    H2]%andb_true_iff H3]%andb_true_iff.
  repeat match goal with H : (match ?x with _ => _ end) = true |- _ => destruct x eqn:?; try discriminate H end.
  repeat match goal with H : map_to_list _ = [] |- _ => apply map_to_list_empty_iff in H end.
  by subst.
Qed.

#[export] Instance one_state_codec : ConvCodec := {|
  conv_to_vec st := if is_paired st then Ok "paired" else Err "unknown";
  conv_from_slice body := if decide (body = "paired") then Ok paired_stored else Err "unknown" |}.
#[export] Instance one_state_codec_laws : ConvCodecLaws one_state_codec.
Proof.
  split. intros st body. cbn [conv_to_vec conv_from_slice one_state_codec].
  destruct (is_paired st) eqn:Hp; [|done]. intros [= <-]. by rewrite (is_paired_ok _ Hp).
Qed.

Definition no_fs_text (_ : FilesystemError) : string := "".
Definition system_view : result MountView HostApiError := Ok (mk_MountView
  [mk_MountGrant (mk_MountAlias "/conversations") (mk_VirtualPath "/tenants/acme/conversations")
     MountPermissions_read_write]).
Definition state_path : VirtualPath := mk_VirtualPath "/tenants/acme/conversations/state.json".
Definition pair_entry : Entry := conv_state_entry "paired" sender_paired.
Definition paired_store : State := (put State_new state_path pair_entry CasAbsent 3).1.

(** Load, draw, and one round of the save. *)
Definition pair_trace : list (event cfsE) :=
  [Ev CfGet (Ok None); Ev (CfDraw loaded_default) (draws 0); Ev CfGet (Ok None);
   Ev (CfPut pair_entry CasAbsent) (Ok 1)].

Lemma pair_runs :
  traces (filesystem_call no_text no_fs_text pair_call InMemoryState_default) pair_trace
    (set_revision 1 sender_paired, Ok tt).
Proof.
  unfold filesystem_call, service_call, pair_trace.
  cbn [refresh_state_from_repository pbind trigger interp filesystem_repository load_state traces].
  eexists _, _. split; [reflexivity|].
  cbn [filesystem_error map_err result_map pbind trigger interp filesystem_repository traces fst snd].
  eexists _, _. split; [reflexivity|].
  change (set_revision 0 InMemoryState_default) with InMemoryState_default.
  replace (conv_section (draws 0) no_text pair_call InMemoryState_default)
    with (sender_paired, Ok (Commit tt) : result (done_with unit) InboundTurnError).
  2: { symmetry. apply (section_commits (draws 0) pair_call InMemoryState_default tt). vm_compute. reflexivity. }
  cbn [persist_state pbind trigger interp filesystem_repository fst snd].
  replace (cs_persistence_revision sender_paired) with 0 by (vm_compute; reflexivity).
  unfold save_state. replace (checked_add_max i64_max 0 1) with (Some 1) by (vm_compute; reflexivity).
  replace (conv_serialize (from_state 1 sender_paired)) with (Ok "paired" : result string InboundTurnError)
    by (vm_compute; reflexivity).
  unfold CONVERSATION_CAS_RETRIES. fold pair_entry. cbn [save_rounds pbind trigger interp traces].
  eexists _, _. split; [reflexivity|].
  replace (round_condition no_fs_text 0 (Ok None)) with (Ok CasAbsent : result CasExpectation InboundTurnError)
    by reflexivity.
  cbn [put_with_projection_fallback pbind trigger interp traces]. eexists _, _. split; [reflexivity|].
  cbn [put_with_projection_fallback pbind trigger interp traces fst snd result_map]. split; reflexivity.
Qed.

Definition pair_label : conv_label :=
  existT (P := fun A : Type => (conv_call A * InMemoryState)%type) unit (pair_call, InMemoryState_default).

Lemma pair_path : path (cfs_handle system_view) State_new pair_trace paired_store.
Proof.
  assert (file_path system_view conversation_state_path ReadFile = Ok state_path) as Hr by (vm_compute; reflexivity).
  assert (file_path system_view conversation_state_path WriteFile = Ok state_path) as Hw by (vm_compute; reflexivity).
  unfold pair_trace. cbn [path]. cbn [cfs_handle]. rewrite Hr, Hw.
  exists State_new. split; [split; [reflexivity | vm_compute; reflexivity]|].
  exists State_new. split; [split; [reflexivity | apply fresh_okb_ok; vm_compute; reflexivity]|].
  exists State_new. split; [split; [reflexivity | vm_compute; reflexivity]|].
  exists paired_store. split; [|reflexivity]. exists 3. unfold paired_store.
  assert ((put State_new state_path pair_entry CasAbsent 3).2 = Ok 1) as <- by (vm_compute; reflexivity).
  apply surjective_pairing.
Qed.

Lemma pair_stored :
  rtc (pool_step (cfs_handle system_view) (fun a p _ _ => p = conv_job no_text no_fs_text a)) (State_new, [])
    (paired_store, [(pair_label, Ret (existT (P := fun A => (InMemoryState * result A InboundTurnError)%type)
                                        unit (set_revision 1 sender_paired, Ok tt)))]).
Proof.
  eapply rtc_l; [by apply (ps_start _ _ State_new [] pair_label)|].
  apply (solo_run _ _ 0 pair_label (conv_job no_text no_fs_text pair_label) pair_trace _ State_new paired_store
           [(pair_label, conv_job no_text no_fs_text pair_label)] eq_refl); [|exact pair_path].
  unfold conv_job. apply traces_bind. exists pair_trace, [], (set_revision 1 sender_paired, Ok tt).
  split; [reflexivity|]. split; [exact pair_runs|]. split; reflexivity.
Qed.

Lemma filesystem_conversations_linearize_witness :
  durable_state no_text system_view State_new
  /\ held system_view paired_store = Some (sender_paired, 1)
  /\ durable_state no_text system_view paired_store.
Proof.
  assert (durable_state no_text system_view State_new) as H0.
  { exists InMemoryState_default, 0. split; [vm_compute; reflexivity | apply rtc_refl]. }
  split; [exact H0|]. split; [vm_compute; reflexivity|].
  exact (proj1 (filesystem_conversations_linearize no_text no_fs_text system_view State_new _ H0 pair_stored)).
Defined.

End InboundExample.
