(* ===== verification/TurnExample.v ===== *)
(** * Turns: a run with a child, step by step

    The store on concrete inputs: a run is submitted, claimed and spawns a claimed
    child, the tree is cancelled, the runner acknowledges, and the slot of the child is
    returned.  Every state is reachable, and every theorem on the turn store is
    applied to one of them. *)

From Stdlib Require Import DecimalString DecimalZ.
From S2P Require Import Prelude Effects External HostIds Paths HostTypes Filesystem LeaseStore.
From S2P Require Import Dispatch RunProfile TurnTypes.
From S2P Require Import TurnStore TurnSnapshot TurnExec TurnInvariants TurnPrune TurnSteps TurnOps TurnAdmission.
From S2P Require Import TurnSafety TurnEvents TurnLineage TurnCancel TurnIdempotency TurnReplay LoopExit TurnFilesystem TurnLifecycle TurnCoordinator.
Open Scope Z_scope.

Module TurnExample.

#[export] Instance decimal_uuid : UuidText :=
  {| uuid_text z := NilEmpty.string_of_int (Z.to_int z) |}.
#[export] Instance decimal_parse : UuidParse decimal_uuid.
Proof.
  refine {| uuid_parse s := Z.of_int <$> NilEmpty.int_of_string s |}.
  intros u. simpl. rewrite NilEmpty.isi. simpl. by rewrite DecimalZ.of_to.
Defined.
#[export] Instance plain_time : Chrono.
Proof. refine {| checked_add_signed t d := Some (t + d) |}. by intros t d t' [= <-]. Defined.

(** Two runs per project. *)
Definition two_per_project : TurnAdmissionLimitProvider := fun b =>
  Some match ab_axis_kind b with
       | AxProject => TurnAdmissionLimit_max_active 2
       | _ => TurnAdmissionLimit_unlimited
       end.

Definition small_limits : Limits := mk_Limits 100 0 10 90.

Definition thread (name : string) : TurnScope :=
  TurnScope_new (from_trusted "acme") None None (from_trusted name).
Definition ann : TurnActor := mk_TurnActor (from_trusted "ann").

Definition profile : ResolvedRunProfile :=
  definition_resolve interactive_profile interactive_default_request.

Definition submit : SubmitTurnRequest :=
  mk_SubmitTurnRequest (thread "main") ann (trusted_ref "m1") (trusted_ref "s1") (trusted_ref "r1")
    None (trusted_ref "k1") 0 None None 0 None.

Definition run1 : TurnRunId := turn_from_uuid 10.
Definition run2 : TurnRunId := turn_from_uuid 11.
Definition lease1 : LeaseRef := mk_LeaseRef run1 (turn_from_uuid 5) (turn_from_uuid 6).

Record script_step : Type := mk_step { step_now : Z; step_fresh : Fresh; step_op : turn_op }.

Definition ids (n : Z) : Fresh := mk_Fresh (turn_from_uuid (100 + n)) (turn_from_uuid n).

Definition env_of (x : script_step) (s : Inner) : Env :=
  mk_Env (step_now x) (step_fresh x) (map_to_list (in_records s)).*1.
Definition play (s : Inner) (x : script_step) : Inner :=
  default s (turn_exec two_per_project (env_of x s) (step_op x) s).

Lemma play_step s x :
  op_ok (step_op x) -> in_turns s !! fresh_turn_id (step_fresh x) = None ->
  rtc (turn_step two_per_project) s (play s x).
Proof.
  intros Hop Hfresh. unfold play.
  destruct (turn_exec two_per_project (env_of x s) (step_op x) s) as [s'|] eqn:He; [|done].
  apply rtc_once. by apply (turn_step_exec _ s s' (env_of x s) (step_op x)).
Qed.

Lemma play_reachable s x :
  reachable two_per_project small_limits s -> op_ok (step_op x) ->
  in_turns s !! fresh_turn_id (step_fresh x) = None ->
  reachable two_per_project small_limits (play s x).
Proof. intros Hs Hop Hfresh. unfold reachable. etrans; [exact Hs|]. by apply play_step. Qed.

Definition s0 : Inner := Inner_new small_limits.
Definition s1 : Inner := play s0 (mk_step 0 (ids 10) (OpSection (CommitSubmit submit (Ok profile)))).
Definition claim1 : ClaimRunRequest := mk_ClaimRunRequest (turn_from_uuid 5) (turn_from_uuid 6) None.
Definition s2 : Inner := play s1 (mk_step 1 (ids 0) (OpClaimNextRun claim1)).
Definition claimed1 : option ClaimedTurnRun :=
  match claim_next_run claim1 1 s1 with (_, Ok c) => c | _ => None end.
Definition spawn : SubmitChildRunRequest :=
  mk_SubmitChildRunRequest (thread "main") run1 (thread "child") ann (trusted_ref "m2")
    (trusted_ref "s2") (trusted_ref "r2") None (trusted_ref "k2") 2 (Some run2) 3.
Definition s3 : Inner :=
  play s2 (mk_step 2 (ids 11) (OpSection (CommitChild spawn claimed1 (Ok profile)))).
Definition stop : CancelRunRequest :=
  mk_CancelRunRequest (thread "main") ann run1 CrUserRequested (trusted_ref "k3").
Definition s4 : Inner := play s3 (mk_step 3 (ids 0) (OpRequestCancelTree stop)).
Definition s5 : Inner := play s4 (mk_step 4 (ids 0) (OpCancelRun lease1)).

Definition statuses (s : Inner) : list (option TurnStatus) :=
  [r_status <$> in_records s !! run1; r_status <$> in_records s !! run2].

Lemma story :
  map statuses [s1; s2; s3; s4; s5]
  = [[Some Queued; None]; [Some Running; None]; [Some Running; Some Queued];
     [Some CancelRequested; Some Cancelled]; [Some Cancelled; Some Cancelled]].
Proof. vm_compute. reflexivity. Qed.

Lemma r0 : reachable two_per_project small_limits s0.
Proof. apply rtc_refl. Qed.
Lemma r1 : reachable two_per_project small_limits s1.
Proof. apply play_reachable; [apply r0 | done | done]. Qed.
Lemma r2 : reachable two_per_project small_limits s2.
Proof. apply play_reachable; [apply r1 | done | by vm_compute]. Qed.
Lemma r3 : reachable two_per_project small_limits s3.
Proof. apply play_reachable; [apply r2 | by split | by vm_compute]. Qed.
Lemma r4 : reachable two_per_project small_limits s4.
Proof. apply play_reachable; [apply r3 | done | by vm_compute]. Qed.
Lemma r5 : reachable two_per_project small_limits s5.
Proof. apply play_reachable; [apply r4 | done | by vm_compute]. Qed.

Definition s6 : Inner :=
  play s5 (mk_step 5 (ids 0) (OpReleaseClaimedChild (thread "child") run2)).
Lemma r6 : reachable two_per_project small_limits s6.
Proof. apply play_reachable; [apply r5 | done | by vm_compute]. Qed.

(** A record of the example. *)
Definition record_of (s : Inner) (id : TurnRunId) : RunRecord :=
  default (new_record submit None (TurnRunProfile_from_resolved profile) (turn_from_uuid 0)
             (turn_from_uuid 0) 0) (in_records s !! id).

Lemma one_active_run_per_thread_witness :
  in_queued_runs s3 = [run2]
  /\ (live (record_of s3 run2) <->
      exists l, in_active_locks s3 !! r_scope (record_of s3 run2) = Some l
        /\ lk_run_id l = run2 /\ lk_status l = r_status (record_of s3 run2)).
Proof.
  split; [by vm_compute|].
  apply (one_active_run_per_thread two_per_project small_limits s3 r3). by vm_compute.
Defined.

Lemma play_executes s x ops s' :
  op_ok (step_op x) -> in_turns s !! fresh_turn_id (step_fresh x) = None ->
  is_Some (turn_exec two_per_project (env_of x s) (step_op x) s) ->
  executes two_per_project ops (play s x) s' ->
  executes two_per_project ((env_of x s, step_op x) :: ops) s s'.
Proof.
  intros Hop Hfresh [s1 Hex] Hrest. exists s1. unfold play in Hrest. rewrite Hex in Hrest. by repeat split.
Qed.

(** The owner cancels the tree of the running parent, and the parent's runner, asked to
    cancel, ends it. *)
Definition stop_step : script_step := mk_step 3 (ids 0) (OpRequestCancelTree stop).
Definition end_step : script_step := mk_step 4 (ids 0) (OpCancelRun lease1).

Lemma runs_move_with_authority_witness :
  map r_status [record_of s3 run1; record_of s4 run1; record_of s5 run1]
  = [Running; CancelRequested; Cancelled]
  /\ run_history [(env_of stop_step s3, step_op stop_step); (env_of end_step s4, step_op end_step)]
       (record_of s3 run1) (record_of s5 run1).
Proof.
  split; [by vm_compute|].
  apply (runs_move_with_authority two_per_project small_limits
           [(env_of stop_step s3, step_op stop_step); (env_of end_step s4, step_op end_step)] s3 s5 run1);
    [apply r3 | | by vm_compute..].
  apply play_executes; [done | by vm_compute | by eexists|].
  apply play_executes; [done | by vm_compute | by eexists|]. reflexivity.
Defined.

Definition is_ok {A E} (r : result A E) : bool := match r with Ok _ => true | Err _ => false end.

Lemma accepted_within_limits_witness :
  match commit_submit two_per_project submit (Ok profile) (ids 10) 0 s0 with
  | (_, Ok response) => in_active_locks s0 !! thread "main" = None
                        /\ in_records s0 !! sr_run_id response = None
  | (_, Err _) => False
  end.
Proof.
  assert (is_ok (commit_submit two_per_project submit (Ok profile) (ids 10) 0 s0).2 = true) as Hok
    by by vm_compute.
  destruct (commit_submit two_per_project submit (Ok profile) (ids 10) 0 s0) as [s' [response|e]] eqn:H;
    [|done].
  destruct (accepted_within_limits two_per_project small_limits submit (Ok profile) (ids 10) 0 s0 s'
              response r0 eq_refl H) as (H1 & H2 & _). by split.
Defined.

Lemma child_accepted_under_live_parent_witness :
  match commit_child two_per_project spawn claimed1 (Ok profile) (ids 11) 2 s2 with
  | (s', Ok response) =>
      uncancelled (in_records s2) run1
      /\ exists root, slots (thread "child") root s' = slots (thread "child") root s2 + 1
  | (_, Err _) => False
  end.
Proof.
  assert (is_ok (commit_child two_per_project spawn claimed1 (Ok profile) (ids 11) 2 s2).2 = true) as Hok
    by by vm_compute.
  assert (remembered (child_key spawn) s2 = None) as Hrem by by vm_compute.
  case_eq (commit_child two_per_project spawn claimed1 (Ok profile) (ids 11) 2 s2).
  intros s' [response|e] H; [|rewrite H in Hok; discriminate Hok].
  destruct (child_accepted_under_live_parent two_per_project small_limits spawn claimed1 (Ok profile)
              (ids 11) 2 s2 s' response r2 Hrem H)
    as (parent & r & root & _ & _ & Hun & _ & _ & _ & _ & _ & _ & _ & _ & Hs & _).
  split; [exact Hun|]. exists root. exact Hs.
Defined.

Lemma claimed_slot_returned_once_witness :
  slots (thread "child") run1 s5 = 1
  /\ let '(s', res) := release_claimed_child_reservation (r_scope (record_of s5 run2)) run2 s5 in
     exists root, r_spawn_tree_root_run_id (record_of s5 run2) = Some root /\ res = Ok ()
       /\ slots (thread "child") root s' = slots (thread "child") root s5 - 1.
Proof.
  split; [by vm_compute|].
  pose proof (claimed_slot_returned_once two_per_project small_limits s5 run2 (record_of s5 run2) r5)
    as H.
  destruct (release_claimed_child_reservation (r_scope (record_of s5 run2)) run2 s5) as [s' res].
  destruct H as (root & H1 & H2 & _ & H3 & _); [vm_compute; reflexivity | vm_compute; discriminate
    | vm_compute; reflexivity |].
  exists root. split; [exact H1|]. split; [exact H2 | exact H3].
Defined.

(** Nothing can go before the slot is returned; then both runs go, the parent after
    its child. *)
Lemma pruning_ends_and_orphans_nobody_witness :
  in_terminal_runs s5 = [run2; run1] /\ in_terminal_runs s6 = []
  /\ in_records (prune_terminal_records s5) ⊆ in_records s5.
Proof.
  split; [by vm_compute|]. split; [by vm_compute|].
  exact (proj1 (proj2 (proj2 (pruning_ends_and_orphans_nobody two_per_project small_limits s5 r5)))).
Defined.

Lemma queued_run_is_claimed_witness :
  claimed1 <> None
  /\ match claim_next_run claim1 1 s1 with
     | (_, Ok None) => forall id r, in_records s1 !! id = Some r -> r_status r = Queued ->
                         in_filter None r = false
     | (_, Err _) => False
     | _ => True
     end.
Proof.
  split; [by vm_compute|].
  pose proof (queued_run_is_claimed two_per_project small_limits claim1 1 s1 r1) as H.
  destruct (claim_next_run claim1 1 s1) as [s' [[c|]|e]]; [exact I | exact H | exact H].
Defined.

Lemma paging_returns_every_event_once_witness :
  map le_cursor (in_events s5) = [1; 2; 3; 4; 5; 6]
  /\ StronglySorted Z.lt (in_event_retention_floor s5 :: map le_cursor (in_events s5)).
Proof.
  split; [by vm_compute|].
  assert (in_cursor s5 < u64_max) as Hc by by vm_compute.
  exact (proj1 (paging_returns_every_event_once two_per_project small_limits s5 (thread "main") None 0
                  1 r5 Hc (le_n 1))).
Defined.

Lemma cancel_tree_stops_every_descendant_witness :
  match request_cancel_tree stop (map_to_list (in_records s3)).*1 3 s3 with
  | (s', Ok _) => forall d r, rtc (lineage (in_records s3)) d run1 -> in_records s' !! d = Some r ->
                    stopped r
  | (_, Err _) => False
  end.
Proof.
  assert (is_ok (request_cancel_tree stop (map_to_list (in_records s3)).*1 3 s3).2 = true) as Hok
    by by vm_compute.
  assert (im_cancel (in_idempotency s3) = ∅) as Hnone by by vm_compute.
  case_eq (request_cancel_tree stop (map_to_list (in_records s3)).*1 3 s3).
  intros s' [l|e] H; [|rewrite H in Hok; discriminate Hok].
  apply (cancel_tree_stops_every_descendant two_per_project small_limits stop
           (map_to_list (in_records s3)).*1 3 s3 s' (Ok l)); [exact r3 | reflexivity | | exact H].
  intros scope d k resp _ Hk. rewrite Hnone in Hk. rewrite lookup_empty in Hk. discriminate Hk.
Defined.

(** The child's cancellation of the same key, sent twice. *)
Definition stop_child : CancelRunRequest :=
  mk_CancelRunRequest (thread "child") ann run2 CrUserRequested (trusted_ref "k4").

(** The child is cancelled, its parent's runner beats, and the cancellation is sent again. *)
Definition beat_step : script_step := mk_step 4 (ids 0) (OpHeartbeat lease1).
Definition cancelled_child : Inner := (request_cancel stop_child 3 s3).1.

Lemma repeated_request_answered_once_witness :
  is_ok (request_cancel stop_child 3 s3).2 = true
  /\ request_cancel stop_child 9 (play cancelled_child beat_step)
     = (play cancelled_child beat_step, (request_cancel stop_child 3 s3).2).
Proof.
  split; [by vm_compute|].
  assert (1 <= max_idempotency_records small_limits)%nat as Hmax by (vm_compute; lia).
  assert (executes two_per_project [(env_of beat_step cancelled_child, step_op beat_step)]
            cancelled_child (play cancelled_child beat_step)) as Hex.
  { apply play_executes; [done | by vm_compute | by eexists | reflexivity]. }
  apply (proj1 (repeated_request_answered_once two_per_project small_limits s3
           [(env_of beat_step cancelled_child, step_op beat_step)] cancelled_child
           (play cancelled_child beat_step) r3 Hmax ltac:(by repeat constructor) Hex) stop_child 3 9).
  unfold cancelled_child. by destruct (request_cancel stop_child 3 s3).
Defined.

Lemma persisted_answers_replay_witness :
  not_busy (Err (TeConflict "requested_run_id already bound"))
  /\ exists res', replay_submit (submit_idempotency_record (submit_key submit)
                    (Err (TeConflict "requested_run_id already bound")) 0) = Some res'
       /\ same_answer (Err (TeConflict "requested_run_id already bound")) res'.
Proof.
  split; [by intros busy [=]|]. apply (proj1 persisted_answers_replay). by intros busy [=].
Defined.

Lemma restart_loses_nothing_witness :
  is_ok (from_persistence_snapshot (persistence_snapshot s4) small_limits) = true
  /\ exists s', from_persistence_snapshot (persistence_snapshot s4) small_limits = Ok s'
       /\ in_records s' = in_records s4.
Proof.
  split; [by vm_compute|].
  destruct (restart_loses_nothing two_per_project small_limits s4 r4) as (s' & H1 & H2 & _).
  exists s'. split; [exact H1 | exact H2].
Defined.

(** *** A call of the filesystem store: the cancellation of a run that does not exist
    is answered, and the answer is remembered in the entry. *)

Definition answered : Inner := (request_cancel stop 3 s0).1.

#[export] Instance table_snapshots : SnapshotCodec := {|
  snapshot_to_vec sn :=
    if decide (sn = snapshot_default) then Ok "new"
    else if decide (sn = persistence_snapshot answered) then Ok "answered" else Err "unknown";
  snapshot_from_slice body :=
    if decide (body = "new") then Ok snapshot_default
    else if decide (body = "answered") then Ok (persistence_snapshot answered) else Err "unknown" |}.
#[export] Instance table_snapshots_laws : SnapshotCodecLaws table_snapshots.
Proof.
  split. intros sn body. unfold snapshot_to_vec, snapshot_from_slice, table_snapshots.
  destruct (decide (sn = snapshot_default)) as [->|]; [by intros [= <-]|].
  destruct (decide (sn = persistence_snapshot answered)) as [->|]; [by intros [= <-] | done].
Qed.

Definition turns_view : result MountView HostApiError := Ok (mk_MountView
  [mk_MountGrant (mk_MountAlias "/turns") (mk_VirtualPath "/tenants/acme/turns")
     MountPermissions_read_write]).

Definition stop_job : call_label := existT CancelRunResponse (StRequestCancel stop).
Definition written_entry : Entry := mk_Entry "answered" "application/json" None ∅.
Definition written : State :=
  (put State_new (mk_VirtualPath "/tenants/acme/turns/state.json") written_entry CasAbsent 3).1.

Definition state_path : VirtualPath := mk_VirtualPath "/tenants/acme/turns/state.json".

Lemma turns_path : scoped_path turns_view ReadFile = Ok state_path
  /\ scoped_path turns_view WriteFile = Ok state_path.
Proof. split; vm_compute; reflexivity. Qed.
Lemma nothing_there : es_get State_new state_path = Ok None.
Proof. vm_compute. reflexivity. Qed.
Lemma new_store : build_in_memory_store small_limits snapshot_default = Ok s0.
Proof. vm_compute. reflexivity. Qed.
Lemma stop_answer : (request_cancel stop 3 s0).2 = Err TeScopeNotFound.
Proof. vm_compute. reflexivity. Qed.
Lemma stop_runs :
  store_run two_per_project (StRequestCancel stop) unresolved s0 answered (Err TeScopeNotFound).
Proof.
  apply (run_section _ CancelRunResponse (StRequestCancel stop) _ (mk_Env 3 (ids 0) [])
           (turn_from_uuid 0)); [by split | exact I |].
  unfold store_exec. rewrite <- stop_answer. unfold answered. by destruct (request_cancel _ _ _).
Qed.
Lemma answered_is_new : persistence_snapshot answered <> snapshot_default.
Proof.
  assert (length (sn_idempotency_records (persistence_snapshot answered)) = 1%nat) as Hlen
    by (vm_compute; reflexivity).
  intros H. rewrite H in Hlen. discriminate Hlen.
Qed.
Lemma answered_entry : snapshot_entry (persistence_snapshot answered) = Ok written_entry.
Proof.
  unfold snapshot_entry, snapshot_to_vec, table_snapshots.
  rewrite decide_False by exact answered_is_new. by rewrite decide_True.
Qed.
Lemma written_put : es_put State_new state_path written_entry CasAbsent 3 = (written, Ok 1).
Proof. vm_compute. reflexivity. Qed.

Lemma written_reached :
  rtc (pool_step (fs_handle two_per_project turns_view) (fun a p _ _ => p = fs_job small_limits a))
    (State_new, []) (written, [(stop_job, Ret (result_of (A := CancelRunResponse) (Err TeScopeNotFound)))]).
Proof.
  apply (first_call two_per_project small_limits turns_view CancelRunResponse (StRequestCancel stop)
           State_new state_path s0 answered (Err TeScopeNotFound) written_entry 3 written 1 eq_refl
           (proj1 turns_path) (proj2 turns_path) nothing_there new_store stop_runs answered_is_new
           answered_entry written_put).
Qed.


Lemma projections_agree_witness :
  map tr_run_id (project_children_of (persistence_snapshot s3) (thread "main") run1) = [run2]
  /\ project_run_record (persistence_snapshot s3) (thread "child") run2
     = get_run_record (thread "child") run2 s3.
Proof.
  split; [vm_compute; reflexivity|].
  exact (proj1 (projections_agree two_per_project small_limits s3 (thread "child") run2 _ r3
                  (Permutation_refl _))).
Defined.

(** The driver of the first run reports that the model failed; the host confirms it. *)
Definition running1 : ClaimedTurnRun :=
  mk_ClaimedTurnRun (record_state (record_of s2 run1)) profile (turn_from_uuid 5) (turn_from_uuid 6).
Definition model_failed : LoopFailed :=
  mk_LoopFailed LfModelError None None None (trusted_ref "exit:1").
Definition failed_mapping : LoopExitMapping :=
  RunnerOutcome (RoFailed (trusted_failure "model_error")).
Definition failed_store : Inner * result TurnRunState TurnError :=
  apply_validated_loop_exit (claimed_lease running1) failed_mapping 4 s2.
Definition confirmation : event exitE :=
  Ev (AskEvidence (VerifyFailureEvidence (evidence_subject running1) model_failed)) (Ok true).
Definition failing_trace : list (event exitE) :=
  [confirmation; Ev (ApplyValidatedLoopExit (claimed_lease running1) failed_mapping) failed_store.2].

Lemma failing_traces :
  traces (LoopExitApplier_apply running1 (LxFailed model_failed)) failing_trace failed_store.2.
Proof. exists (Ok true), [Ev (ApplyValidatedLoopExit (claimed_lease running1) failed_mapping) failed_store.2].
  split; [exact eq_refl|]. exists failed_store.2, []. split; [exact eq_refl|]. split; exact eq_refl. Qed.
Lemma failing_answered : answered_by 4 s2 failing_trace failed_store.1.
Proof. exists failed_store.1. split; [apply surjective_pairing|exact eq_refl]. Qed.

Lemma loop_exit_follows_evidence_witness :
  match failed_store.2 with Ok state => st_status state = Failed | Err _ => False end
  /\ exists t0 mapping, transitions t0 = [] /\ transitions failing_trace = [(lease1, mapping)]
     /\ verdict running1 t0 (LxFailed model_failed) mapping.
Proof.
  split; [vm_compute; reflexivity|].
  destruct (loop_exit_follows_evidence running1 (LxFailed model_failed) 4 s2 failing_trace
              failed_store.2 failed_store.1 failing_traces failing_answered)
    as [(t0 & q & e & Ht & H0 & _)|(t0 & mapping & Ht & H0 & Hv & _)].
  - apply (f_equal transitions) in Ht. rewrite transitions_app, H0 in Ht. discriminate Ht.
  - exists t0, mapping. split; [exact H0|]. split; [|exact Hv].
    rewrite Ht, transitions_app, H0. vm_compute. reflexivity.
Defined.

(** A run is prepared by one task and submitted by another; the observers acknowledge. *)
Definition prepared_submit : SubmitTurnRequest :=
  mk_SubmitTurnRequest (thread "main") ann (trusted_ref "m1") (trusted_ref "s1") (trusted_ref "r1")
    None (trusted_ref "k1") 0 (Some run1) None 0 None.
Definition accepted_response : SubmitTurnResponse :=
  Accepted (turn_from_uuid 100) run1 Queued interactive_default 1 1 (trusted_ref "m1") (trusted_ref "r1").
Definition submitted_key : LifecycleEventKey := mk_LifecycleEventKey (thread "main") run1 1.

Definition prepare_trace : list (event turnsE) := [Ev (CoPrepare (thread "main")) (Ok run1)].
Definition check_event : event turnsE := Ev (CoCheckScope run1 [thread "main"]) (Ok tt).
Definition submit_trace : list (event turnsE) :=
  [Ev (LsInner (StSubmitTurn prepared_submit)) (Ok accepted_response);
   Ev (LsGate 1%nat submitted_key) (Ok 0%nat); Ev (LsLock 1%nat 0%nat) tt;
   Ev (LsTryBegin submitted_key) (Ok true);
   Ev (LsPublishEvent (submit_event prepared_submit accepted_response)) (Ok tt);
   Ev (LsMarkDelivered submitted_key) (Ok tt); Ev (LsUnlock 1%nat 0%nat) tt; Ev (LsDropGate 1%nat) tt;
   Ev (LsNotify (submit_wake (thread "main") accepted_response)) tt;
   Ev (CoConsume run1) (Ok (Some (thread "main"))); Ev (LsPublicationError submitted_key) None].

Definition l0 : lstate := lstate_new false false false false.
Definition l1 : lstate := with_prepared {[run1 := thread "main"]} {[run1]} l0.
Definition l2 : lstate := with_prepared {[run1 := thread "main"]} ({[run1]} ∪ {[run1]}) l0.
Lemma prepared_path : path turns_handle l0 prepare_trace l1.
Proof.
  exists l1. split; [|exact eq_refl]. exists run1, true.
  split; [apply not_elem_of_empty|]. exists (Ok tt). split; [|exact eq_refl]. vm_compute. reflexivity.
Qed.
Lemma checked_path : path turns_handle l1 [check_event] l2.
Proof. exists l2. split; [split; [exact eq_refl|vm_compute; reflexivity]|exact eq_refl]. Qed.

(** The states of the submission. *)
Definition gated : lstate :=
  with_gates (<[submitted_key := 0%nat]> (filter (fun kg => strong l2 kg.2) ∅))
    (<[1%nat := (submitted_key, 0%nat)]> ∅) 1%nat l2.
Definition entered : lstate := with_locked (<[0%nat := 1%nat]> ∅) gated.
Definition acked : lstate := with_acked [submitted_key] entered.
Definition marked : lstate := (mark_event_cursor_delivered submitted_key acked).1.
Definition unlocked : lstate := with_locked (delete 0%nat (ls_locked marked)) marked.
Definition left : lstate :=
  with_gates (ls_gates unlocked) (delete 1%nat (ls_arcs unlocked)) (ls_next_gate unlocked) unlocked.
Definition l3 : lstate := (consume_prepared_run_id run1 left).1.

Lemma path_call {X} (e : turnsE X) x s s1 t s' :
  turns_handle X e s s1 x -> path turns_handle s1 t s' -> path turns_handle s (Ev e x :: t) s'.
Proof. intros Hh Ht. by exists s1. Qed.

Lemma inner_step :
  turns_handle _ (LsInner (StSubmitTurn prepared_submit)) l2 l2 (Ok accepted_response).
Proof. exact eq_refl. Qed.
Lemma gate_step : turns_handle _ (LsGate 1%nat submitted_key) l2 gated (Ok 0%nat).
Proof. 
  unfold turns_handle, publication_gate. cbv beta iota zeta delta [ls_poison_gates l2 l0 lstate_new with_prepared].
  rewrite (map_lookup_filter_None_2 _ _ submitted_key); [exact eq_refl|]. left. apply lookup_empty. Qed.
Lemma lock_step : turns_handle _ (LsLock 1%nat 0%nat) gated entered tt.
Proof. split; exact eq_refl. Qed.
Lemma begin_step : turns_handle _ (LsTryBegin submitted_key) entered entered (Ok true).
Proof. split; exact eq_refl. Qed.
Lemma publish_step :
  turns_handle _ (LsPublishEvent (submit_event prepared_submit accepted_response)) entered acked (Ok tt).
Proof. exact eq_refl. Qed.
Lemma mark_step : turns_handle _ (LsMarkDelivered submitted_key) acked marked (Ok tt).
Proof. exact eq_refl. Qed.
Lemma unlock_step : turns_handle _ (LsUnlock 1%nat 0%nat) marked unlocked tt.
Proof. exact eq_refl. Qed.
Lemma drop_step : turns_handle _ (LsDropGate 1%nat) unlocked left tt.
Proof. exact eq_refl. Qed.
Lemma notify_step : turns_handle _ (LsNotify (submit_wake (thread "main") accepted_response)) left left tt.
Proof. exact eq_refl. Qed.
Lemma consume_step : turns_handle _ (CoConsume run1) left l3 (Ok (Some (thread "main"))).
Proof. exact eq_refl. Qed.
Lemma no_error_step : turns_handle _ (LsPublicationError submitted_key) l3 l3 None.
Proof. 
  split; [exact eq_refl|]. unfold lifecycle_publication_error. symmetry. exact (lookup_delete_eq ∅ submitted_key). Qed.

Lemma submitted_path : path turns_handle l2 submit_trace l3.
Proof.
  unfold submit_trace.
  apply (path_call _ _ _ _ _ _ inner_step), (path_call _ _ _ _ _ _ gate_step).
  apply (path_call _ _ _ _ _ _ lock_step), (path_call _ _ _ _ _ _ begin_step).
  apply (path_call _ _ _ _ _ _ publish_step), (path_call _ _ _ _ _ _ mark_step).
  apply (path_call _ _ _ _ _ _ unlock_step), (path_call _ _ _ _ _ _ drop_step).
  apply (path_call _ _ _ _ _ _ notify_step), (path_call _ _ _ _ _ _ consume_step).
  apply (path_call _ _ _ _ _ _ no_error_step). exact eq_refl.
Qed.

Lemma submit_job_traces :
  traces (run_job 1%nat (JobSubmit prepared_submit)) (check_event :: submit_trace) (Ok accepted_response).
Proof. repeat (eexists _, _; split; [exact eq_refl|]). split; exact eq_refl. Qed.

Definition waiting_tasks : list (task * prog turnsE outcome) :=
  [(0%nat, Ret (finished (JobPrepare (thread "main")) (Ok run1)));
   (1%nat, task_program 1%nat (JobSubmit prepared_submit))].

Lemma waiting_reached : reaches l0 (l1, waiting_tasks).
Proof.
  unfold reaches. eapply rtc_l.
  { apply (ps_start _ _ _ _ 0%nat (task_program 0%nat (JobPrepare (thread "main")))).
    split; [apply not_elem_of_nil|]. split; [reflexivity|]. by exists TurnRunId, (JobPrepare (thread "main")). }
  etrans.
  { apply (solo_run turns_handle may_start 0 0%nat (task_program 0%nat (JobPrepare (thread "main")))
             prepare_trace (finished (JobPrepare (thread "main")) (Ok run1)) l0 l1
             [(0%nat, task_program 0%nat (JobPrepare (thread "main")))] eq_refl); [|apply prepared_path].
    repeat (eexists _, _; split; [exact eq_refl|]). split; exact eq_refl. }
  apply rtc_once.
  apply (ps_start turns_handle may_start l1
           [(0%nat, Ret (finished (JobPrepare (thread "main")) (Ok run1)))] 1%nat
           (task_program 1%nat (JobSubmit prepared_submit))).
  split; [intros H; apply list_elem_of_singleton in H; discriminate H|]. split; [reflexivity|]. by exists SubmitTurnResponse, (JobSubmit prepared_submit).
Qed.

Definition submitting : prog turnsE outcome :=
  let! r := (let!? response := publishing_call 1%nat (StSubmitTurn prepared_submit) in
             after_submit (thread "main") (Some run1) response) in
  Ret (finished (JobSubmit prepared_submit) r).
Definition submitting_tasks : list (task * prog turnsE outcome) :=
  [(0%nat, Ret (finished (JobPrepare (thread "main")) (Ok run1))); (1%nat, submitting)].
Definition finished_tasks : list (task * prog turnsE outcome) :=
  [(0%nat, Ret (finished (JobPrepare (thread "main")) (Ok run1)));
   (1%nat, Ret (finished (JobSubmit prepared_submit) (Ok accepted_response)))].

Lemma submitting_reached : reaches l0 (l2, submitting_tasks).
Proof.
  apply (reaches_step l0 (l1, waiting_tasks) 1 1%nat (CoCheckScope run1 [thread "main"]) _ (Ok tt) l2
           waiting_reached eq_refl).
  split; [exact eq_refl|vm_compute; reflexivity].
Qed.

Lemma submitting_traces :
  traces submitting submit_trace (finished (JobSubmit prepared_submit) (Ok accepted_response)).
Proof. repeat (eexists _, _; split; [exact eq_refl|]). split; exact eq_refl. Qed.

Lemma finished_reached : reaches l0 (l3, finished_tasks).
Proof.
  unfold reaches. etrans; [apply submitting_reached|].
  apply (solo_run turns_handle may_start 1 1%nat submitting submit_trace _ l2 l3 submitting_tasks eq_refl
           submitting_traces submitted_path).
Qed.

Lemma acknowledged_at_most_once_witness :
  ls_acked l3 = [submitted_key] /\ NoDup (ls_acked l3).
Proof.
  split; [reflexivity|].
  exact (proj1 (acknowledged_at_most_once false false false false (l3, finished_tasks) finished_reached)).
Defined.

Lemma success_means_acknowledged_witness :
  job_keys (JobSubmit prepared_submit) accepted_response = [submitted_key] /\ submitted_key ∈ ls_acked l3.
Proof.
  split; [vm_compute; reflexivity|].
  apply (success_means_acknowledged false false false false (l3, finished_tasks) 1 1%nat _
           (JobSubmit prepared_submit) accepted_response finished_reached eq_refl).
  apply list_elem_of_singleton. reflexivity.
Defined.

Lemma prepared_ids_stay_in_scope_witness :
  ls_prepared l2 !! run1 = Some (thread "main") /\ crosses (StSubmitTurn prepared_submit) l2 = false.
Proof.
  split; [vm_compute; reflexivity|].
  exact (prepared_ids_stay_in_scope false false false false (l2, submitting_tasks) 1 1%nat _
           (StSubmitTurn prepared_submit) _ submitting_reached eq_refl).
Defined.

Lemma success_wakes_as_answered_witness :
  wakes (check_event :: submit_trace) = [submit_wake (thread "main") accepted_response].
Proof. exact (success_wakes_as_answered 1%nat _ (JobSubmit prepared_submit) _ accepted_response submit_job_traces). Defined.

(** Two observers, one of them not interested, and a sink. *)
Definition subscribers : Subscribers :=
  subscribe_best_effort 7 (subscribe_required 2 (subscribe_required 1
    (mk_Subscribers [] [] (fun o _ => bool_decide (o = 2%nat)) (fun _ _ => true)))).
Definition bus_event : TurnLifecycleEvent := submit_event prepared_submit accepted_response.
Definition bus_trace : list (event busE) :=
  [Ev (ObserveEvent 2 bus_event) (Err TeUnauthorized); Ev (SinkPublish 7 bus_event) (Ok tt)].

Lemma bus_traces : traces (publish_event subscribers bus_event) bus_trace (Err TeUnauthorized).
Proof. repeat (eexists _, _; split; [exact eq_refl|]). split; exact eq_refl. Qed.

Lemma bus_reaches_everyone_witness :
  exists xs (ys : list (result unit TurnError)), length xs = 1%nat /\ length ys = 1%nat
    /\ Err TeUnauthorized = match first_error xs with Some e => Err e | None => Ok tt end.
Proof.
  destruct (bus_reaches_everyone subscribers _ _ _ bus_trace (Err TeUnauthorized) bus_traces)
    as (xs & ys & Hx & Hy & _ & Hr).
  exists xs, ys. split; [exact Hx|]. split; [exact Hy|exact Hr].
Defined.

End TurnExample.
